(* ===== verification/_CoqProject ===== *)
-Q . S2P
Prelude.v
HlslLexer.v
HlslLexemes.v
HlslAst.v
HlslParser.v
HlslGrammar.v
SpirvBuilder.v
HlslCodegen.v
HlslShape.v
HlslSsa.v
HlslTypes.v
HlslTyping.v
HlslSound.v
HlslTypedCode.v
HlslTypeSafety.v
HlslCompile.v
PeHost.v
PeImage.v
PeReloc.v
PeTls.v
PeSeh.v
NtFutex.v
NtLock.v
NtEvent.v
NtSemaphore.v
NtSrw.v
NtHandle.v
NtWait.v
NtTls.v
Utf.v
K32Registry.v
GuestMem.v
NtMemory.v
GuestStr.v
User32.v
User32Loop.v
PeThunk.v
PeThunkCall.v
ExportTables.v
PeImports.v
PeExports.v
PeProcess.v
PeBind.v
PeModules.v
PeLoader.v
K32Shlwapi.v
K32CString.v
K32Text.v
K32Time.v
HostAlloc.v
K32Heap.v
K32D3d.v
Vulkan.v
VkOwn.v
VkSmall.v
Dxgi.v
D3d12.v
D3d12Sys.v
D3d12Own.v
D3d12Safe.v
D3d12Rules.v
D3d12Props.v
