(* ===== verification/Prelude.v ===== *)
(** * Verification of the Nigg Windows compatibility layer

    Nigg runs Windows programs on Linux: it loads PE images, implements the
    Win32 and NT interfaces in Rust, and compiles HLSL shaders to SPIR-V. This
    library models the parts of it whose behaviour is decided by the program
    itself, and proves what makes them correct. All paths below are under
    [src/crates/].

    ** How the program is modelled

    - Code that returns [Result] or can panic is a function into [outcome]
      (this file): [Ok], [Err], [Panic] for an out-of-range index, a bad pointer
      or a failed [expect], [NoFuel] for a model that ran out of fuel. Methods on
      a mutable receiver are in the state and error monad [M], with the notations
      [let!] and [;;;]; the state survives an error, as the receiver does.
    - Machine integers are integers with their wrap-around written out ([wrap],
      [to_signed]). Additions the code leaves unchecked wrap, as in a release
      build. Strings of source text are lists of bytes.
    - Loops over a text or a token array take their length plus one as fuel; the
      theorems show that this is enough, by proving that the result is never
      [NoFuel]. Loops of a waiting thread have no bound: they are program points
      of the machine of [NtFutex.v], whose runs are sequences of events.
    - The operating system is not part of the program. It is a parameter: the
      class [Host] with its laws [HostLaws] for memory, the class [Descriptors]
      with [DescriptorLaws] for file descriptors, and the events of the machine
      for scheduling, clocks and wake-ups. Small executable instances
      ([SmallHost], [RefusingHost], a set of descriptors) discharge the laws and
      serve the witnesses.

    ** The HLSL compiler ([hlsl-compiler/src/])

    - [HlslLexer.v], [lexer.rs]: the scanner. [lex_sound] says that the tokens of a
      successful run tile the text and spell it, and that the run always ends;
      [literal_suffix_rejected] shows literals that the scanner rejects.
    - [HlslLexemes.v]: how HLSL spells each token, written down apart from the
      scanner; every sequence of spelled tokens is found again, and numbers with the
      suffix of their type are rejected ([lex_complete]).
    - [HlslAst.v], [ast.rs] and [decode_type_word]: the tree, the queries on
      types and their display, with the round trip of type words.
    - [HlslParser.v], [parser.rs]: every parsing function over the token array,
      its index and the set of struct names. Token descriptions in messages are
      kept abstract.
    - [HlslGrammar.v], [parser.rs] and [lib.rs]: a declarative grammar; the
      parser always stops, returns only trees of the grammar and reports errors
      at tokens ([parse_sound]); two surprises of the code, as theorems.
    - [SpirvBuilder.v]: the third-party builder of SPIR-V modules, as the class
      [Builder] with its documented behaviour [BuilderLaws], modules as data and
      an executable instance.
    - [HlslCodegen.v], [codegen.rs]: the generator, one definition per function,
      over any builder.
    - [HlslShape.v], [HlslSsa.v]: what a well-formed module is ([module_ok]) and
      the invariant of a module under construction; every step of the generator
      keeps it.
    - [HlslTypes.v]: the typing rules of SPIR-V for the instructions emitted
      ([module_typed]) and a strict type checker for the source ([check_unit]):
      no implicit conversions, operands of equal types, names unique. It is
      stricter than HLSL and leaves out texture sampling, whose code is
      ill-typed.
    - [HlslTyping.v], [HlslSound.v], [HlslTypedCode.v], [HlslTypeSafety.v]: the
      relation between the checker's environment, the generator's context and
      the module; total triples for the builder's calls, for types, constants
      and places, for expressions, and for statements and declarations.
    - [HlslCompile.v], [lib.rs]: the compiler as a whole. A program the checker
      accepts compiles to a well-formed, well-typed module ([codegen_typed]);
      every module is well-formed ([codegen_wf]); compilation is total up to one
      panic ([compile_total]).

    ** The PE loader ([pe-loader/src/])

    - [PeHost.v]: memory, protections and the page arithmetic, the interface all
      of the loader is proved against.
    - [PeImage.v], first half of [mapping.rs]: mapping the image, copying and
      protecting the sections. The result is related to [image_byte] and
      [image_prot], what the section table asks for at each offset.
    - [PeReloc.v], second half of [mapping.rs]: relocation, file offsets and
      import binding, related to the pure [relocate].
    - [PeTls.v], [tls.rs]: the TLS directory, block, index and callbacks.
    - [PeSeh.v], [seh.rs]: the function table lookup, on any table and on a
      sorted one, and the virtual unwinder, which undoes a prologue.
    - [PeThunk.v], [thunk.rs]: the arena of trampolines for imported functions
      and the machine code it emits. Every pointer handed out keeps its code
      across growth, and sealing leaves nothing writable ([thunks_survive]).
    - [PeThunkCall.v]: the part of the processor the trampolines use, decoding
      bytes of memory, and the proof that a trampoline turns a Windows call into
      a System V call and back. The processor is not part of the program.
    - [ExportTables.v], the export lists of [imports.rs], [win32-kernel32],
      [win32-user32], [win32-gdi32], [win32-ws2_32], [d3d11-com] and [d3d12-com]:
      what the layer offers, as data in the order of the source. A Rust function
      is named by its path; the linker that gives it an address is a parameter.
    - [PeImports.v], [imports.rs]: merging the lists, the table of trampolines with
      the forwarded names and the virtual tables of Direct3D, and resolution. The
      table binds exactly what the lists offer ([build_correct]); every import
      gets an address ([resolve_correct]).
    - [PeExports.v], [dllmod.rs]: the export directory of a mapped image, read
      field by field. Reading any image ends without an effect; a laid-out
      directory is read exactly.
    - [PeProcess.v], [teb.rs] and [runtime/src/lib.rs]: the process, that is the
      globals of the crates, the module list and memory; the guest stack and the
      thread block; calls into the guest. [Env] is the interface to what the
      process runs in: goblin, the file system, the allocator, the linker and the
      guest's own code, with its laws [EnvLaws].
    - [PeBind.v], the middle of [load_bytes] and [load_dll_ex]: building the table,
      resolving, writing the slots and sealing the arena, for a file whose parts
      lie in its image ([bindable]). A failure is tied to the memory that the kernel
      refuses at that point of the run ([lacking], [no_growth]).
    - [PeModules.v], [dllmod.rs], [dllload.rs], [process.rs] and the disk search of
      [imports.rs]: the module list. A library is loaded, found, loaded again and
      freed ([library_life_cycle]); its functions are found by name and number
      ([get_proc_address_correct]); handles of a moved image are not recognised
      ([moved_image_finds_nothing]). A library loads those it imports from while
      its own imports are bound; the fuel bounds the depth, and a run that loads
      no other library needs one unit.
    - [PeLoader.v], [lib.rs]: the main image from its bytes to its entry point
      ([load_bytes_correct]); [import_call] composes it with the trampolines: a
      call through an import slot enters the implementation.
    The parsed headers of a file are goblin's view of it, a record of fields.

    ** Kernel objects ([ntapi/src/])

    - [NtFutex.v], [futex.rs]: the machine of threads over atomic words, its
      invariants, sums over threads, and [sleep_rules], the conditions under which
      no wake-up is lost, proved once for all objects. The atomic accesses are
      sequentially consistent; thread ids are positive.
    - [NtLock.v], [NtEvent.v], [NtSemaphore.v], [NtSrw.v], [sync.rs]: the locks,
      events, semaphores and reader-writer locks as programs of the machine, one
      program point per atomic access. Mutual exclusion, accounts of signals and
      units, and no lost wake-up hold under every interleaving. The client bounds
      are stated with each: recursion and counts within 32 bits, fewer threads
      than one wake-up can wake, releases by holders for reader-writer locks.
    - [NtHandle.v], [handle.rs]: the handle table refines a map with fresh names.
    - [NtMemory.v], [memory.rs]: the table of virtual memory regions and its four
      calls. Regions stay disjoint and mapped ([virtual_calls_keep_table]) unless a
      decommit is refused half-way ([refused_remap_breaks]), live from allocation to release ([virtual_alloc_life]); protections of inner
      pages are forgotten ([inner_protect_forgotten]).
    - [NtTls.v], [thread.rs]: the slots of thread-local storage, [TlsAlloc] looking at
      one slot after the other while other threads call ([tls_slots_correct]); a scan
      takes at most 65 looks ([tls_alloc_ends]).
    - [NtWait.v], [sync.rs]: the calls through handles, built on the same
      programs run by one thread, and the polling wait for several objects, with
      the clock and the other threads as functions.

    ** Text, paths, time and the registry ([win32-kernel32/src/])

    - [Utf.v]: the conversions of the standard library between a Rust string, its
      characters, and UTF-16 and UTF-8.
    - [GuestMem.v]: guest memory as the exported functions walk it: reads and
      writes by unit of one or two bytes, zero-terminated strings ([cstr]), final
      states as stores ([put]). A loop over guest memory has 2^64 steps, more
      than the address space has units, held in binary so that a run costs its
      own steps; the theorems show that the loops stop. Unaligned reads behave as
      on x86-64.
    - [GuestStr.v]: the comparison and the search the string functions share,
      against the lexicographic order and the occurrences of a list.
    - [K32Shlwapi.v], [shlwapi.rs]: paths and shell strings. Combining refines a
      function on lists, taking apart undoes combining, searches find.
    - [K32CString.v], [ucrt.rs], [crt.rs], [string.rs], [anticheat.rs]: the
      memory and string functions of the C runtime and of kernel32.
    - [K32Text.v], [string.rs], [env.rs], [extras.rs], [extras2.rs]: code pages,
      path buffers, the comparisons of decoded text ([text_comparisons]), and the variables of the environment.
    - [K32Time.v], [extras2.rs]: dates and file times against the calendar.
    - [K32Registry.v], [registry.rs]: the store, its handles and its UTF-16 names.
    - [HostAlloc.v]: the allocator of the host ([malloc], [realloc], [free], and the
      allocator of the Rust runtime above them), the class [Allocator] with the laws
      [AllocatorLaws]; which blocks are live is ghost state. [SmallAlloc] is an
      executable instance.
    - [K32Heap.v], [heap.rs]: heap blocks with a size header refine a map from
      payloads to contents, for any guest that is correct against that map
      ([heap_refines]); the handles of heaps ([heap_handles]).
    - [K32D3d.v], [d3dcompiler.rs]: the HLSL compiler as the guest calls it, on guest
      memory ([d3d_compile_correct] composes it with the compiler's theorems), and
      the life of the blobs it hands out ([blob_lives_counted]).

    ** Windows and messages ([win32-user32/src/lib.rs])

    - [User32.v]: the thread's classes, windows and queue, and every exported call.
      A call may run a window procedure, which is the guest's and may call back:
      the calls are open in [call_win64_wndproc], guests are trees of calls
      ([guest]), and [run_guest] closes the recursion; its fuel bounds the length
      of a run and the depth of procedures within procedures. The display server
      ([wsi/src/lib.rs]) is the class [Display].
    - [User32Loop.v]: the queue is first in, first out through memory
      ([posted_messages_fetched]), handles are distinct under any guest
      ([window_handles_distinct]), a message loop ends ([message_loop_ends], with
      fuel twice the turns), a destroyed window's procedure is never told
      ([destroy_bypasses_procedure]), a guest that polls is never told to quit
      ([peek_never_quits]).

    ** Direct3D 12 ([d3d12/src/lib.rs], [dxgi/src/])

    - [Vulkan.v]: the Vulkan driver and its bindings, which are not part of the
      program, as the class [Vulkan]; a ghost record [Usage] of what lives, what is
      bound, mapped, recorded and run, and whether a rule of valid usage was ever
      broken. [VulkanLaws] says what a call does as long as none was. Results are
      the driver's choice: any call that may fail may fail. Command pools are used
      by one thread; the queue is waited for before a submission returns.
    - [VkOwn.v]: who owns which handle ([holds]), and one rule per driver call for
      a part of the program that works on some handles and leaves the rest alone
      ([working]). [VkSmall.v]: an executable driver with a plan of results.
    - [Dxgi.v], [lib.rs] and [ctx.rs] of [dxgi]: formats, errors and the choice of a
      memory type ([find_memory_type_first]).
    - [D3d12.v], [lib.rs] of [d3d12]: every type and operation. Floating-point
      numbers are their bits; texts of driver errors are left out.
    - [D3d12Sys.v]: a program as a sequence of calls on named objects, with the
      allocators that Rust shares by reference count and the drops it inserts.
    - [D3d12Own.v], [D3d12Safe.v]: what each operation does with the handles, on
      success and failure, and the invariant every call keeps, under conditions on
      the driver's state ([allowed]) that say which other lists a call may spoil.
    - [D3d12Rules.v]: the rules of Direct3D over calls and names alone ([rules], with
      the log [follow] keeps), and the proof that the log agrees with the driver, so
      that the rules imply those conditions ([rules_allowed], [call_kept]).
    - [D3d12Props.v]: a program that keeps the rules of Direct3D breaks none of
      Vulkan's and leaves nothing behind ([programs_safe]); lists run what was
      recorded, by an explicit table of states ([list_runs_recording]); the layouts
      that images reach from undefined ones allow what their states allow
      ([states_simulated]). And what goes wrong: a list with a draw never
      runs ([draw_never_runs]), a failed reset leaves a dangling handle
      ([failed_reset_dangles]), failed calls leak ([failures_leak]).

    ** What is not modelled

    That the generated code computes what the source means is not proved. Reading
    a file by its path, the signal handler and the assembly that switches stacks
    or enters a window procedure are not modelled: a guest call starts at its
    first instruction. Direct3D 11, swap chains and the choice of a device are not
    modelled; drawing, input, audio, sockets and files are bindings to the host.
    Locks around global
    tables are left out where a call holds one from start to end. *)
From Stdlib Require Import ZArith Lia Ascii String.
From stdpp Require Import base list option gmap strings.

(** ** Outcomes and the state/error monad *)

(** The result of running a piece of the program: a value, an error the code
    returns with [Err], a panic (an out-of-range index, a failed [expect]), or
    a model that ran out of fuel before the code finished. *)
Inductive outcome (E A : Type) : Type :=
  | Ok (a : A)
  | Err (e : E)
  | Panic
  | NoFuel.
Arguments Ok {E A} a.
Arguments Err {E A} e.
Arguments Panic {E A}.
Arguments NoFuel {E A}.

(** The code stopped by itself, with a value or an error of its own. *)
Definition returns {E A} (r : outcome E A) : Prop :=
  match r with Ok _ | Err _ => True | Panic | NoFuel => False end.

Definition obind {E A B} (m : outcome E A) (f : A -> outcome E B) : outcome E B :=
  match m with
  | Ok a => f a
  | Err e => Err e
  | Panic => Panic
  | NoFuel => NoFuel
  end.

(** An indexing operation: [None] is Rust's out-of-bounds panic. *)
Definition idx_ {E A} (o : option A) : outcome E A :=
  match o with Some a => Ok a | None => Panic end.

Declare Scope rust_scope.
Delimit Scope rust_scope with rust.

Notation "'let?' x ':=' m 'in' k" := (obind m (fun x => k))
  (at level 10, x pattern, m at level 100, k at level 200)
  : rust_scope.

(** A method with a mutable receiver: the state is kept when the method returns
    an error, as in the code, where the receiver outlives the early return. *)
Definition M (S E A : Type) : Type := S -> outcome E A * S.

Section StateError.
Context {S E : Type}.

Definition mret {A} (a : A) : M S E A := fun s => (Ok a, s).
Definition mfail {A} (e : E) : M S E A := fun s => (Err e, s).
Definition mpanic {A} : M S E A := fun s => (Panic, s).
Definition mnofuel {A} : M S E A := fun s => (NoFuel, s).
Definition mbind {A B} (m : M S E A) (f : A -> M S E B) : M S E B := fun s =>
  match m s with
  | (Ok a, s') => f a s'
  | (Err e, s') => (Err e, s')
  | (Panic, s') => (Panic, s')
  | (NoFuel, s') => (NoFuel, s')
  end.
Lemma mbind_ok {A B} (m : M S E A) (f : A -> M S E B) s a s' :
  m s = (Ok a, s') -> mbind m f s = f a s'.
Proof. unfold mbind. by intros ->. Qed.

Lemma mbind_err {A B} (m : M S E A) (f : A -> M S E B) s e s' :
  m s = (Err e, s') -> mbind m f s = (Err e, s').
Proof. unfold mbind. by intros ->. Qed.

Lemma mbind_assoc {A B C} (m : M S E A) (f : A -> M S E B) (g : B -> M S E C) s :
  mbind (mbind m f) g s = mbind m (fun a => mbind (f a) g) s.
Proof. unfold mbind. by destruct (m s) as [[] ?]. Qed.

(** Loops over a list: the results in order, or the effects only. *)
Definition m_list {A B} (f : A -> M S E B) : list A -> M S E (list B) :=
  fix go l :=
    match l with
    | [] => mret []
    | x :: l => mbind (f x) (fun y => mbind (go l) (fun ys => mret (y :: ys)))
    end.
Definition m_iter {A} (f : A -> M S E unit) : list A -> M S E unit :=
  fix go l :=
    match l with
    | [] => mret tt
    | x :: l => mbind (f x) (fun _ => go l)
    end.
Definition lift_outcome {A} (o : outcome E A) : M S E A := fun s => (o, s).

Definition mget : M S E S := fun s => (Ok s, s).
Definition mput (s' : S) : M S E unit := fun _ => (Ok tt, s').
End StateError.

(** Hoare-style reasoning: [wpk K m Q s] says that [m] run from [s] returns a
    value satisfying [Q], or an error, and panics only in a state that satisfies
    [K]; [wp K] is the case where [K] does not look at the state. *)
Definition wpk {S E A} (K : S -> Prop) (m : M S E A) (Q : A -> S -> Prop) (s : S) : Prop :=
  match m s with
  | (Ok a, s') => Q a s'
  | (Err _, _) => True
  | (Panic, s') => K s'
  | (NoFuel, _) => False
  end.

Abbreviation wp K := (wpk (fun _ => K)).

Definition outcome_is_ok {E A} (o : outcome E A) : bool := match o with Ok _ => true | _ => false end.

Section WP.
Context {S E : Type} (K : S -> Prop).

Lemma wp_bind {A B} (m : M S E A) (f : A -> M S E B) Q s :
  wpk K m (fun a s' => wpk K (f a) Q s') s -> wpk K (mbind m f) Q s.
Proof. unfold wpk, mbind. by destruct (m s) as [[] ?]. Qed.

Lemma wp_mono {A} (m : M S E A) (Q Q' : A -> S -> Prop) s :
  wpk K m Q s -> (forall a s', Q a s' -> Q' a s') -> wpk K m Q' s.
Proof. unfold wpk. destruct (m s) as [[] ?]; auto. Qed.

Lemma wp_ret {A} (a : A) (Q : A -> S -> Prop) s : Q a s -> wpk K (mret (E := E) a) Q s.
Proof. done. Qed.

Lemma wp_get (Q : S -> S -> Prop) s : Q s s -> wpk K (mget (E := E)) Q s.
Proof. done. Qed.

Lemma wp_lift {A} (o : outcome E A) (Q : A -> S -> Prop) s :
  (forall a, o = Ok a -> Q a s) -> (o = Panic -> K s) -> (o <> NoFuel) -> wpk K (lift_outcome o) Q s.
Proof. unfold wpk, lift_outcome. destruct o; auto. Qed.

(** Loops: [J] holds of the results so far and the state. *)
Lemma wp_m_list {A B} (f : A -> M S E B) (J : list A -> list B -> S -> Prop) l s :
  J [] [] s ->
  (forall l1 x l2 ys s, l = l1 ++ x :: l2 -> J l1 ys s ->
    wpk K (f x) (fun y => J (l1 ++ [x]) (ys ++ [y])) s) ->
  wpk K (m_list f l) (J l) s.
Proof.
  intros H0 Hstep.
  enough (forall l2 l1 ys s, l = l1 ++ l2 -> J l1 ys s ->
    wpk K (m_list f l2) (fun ys2 => J l (ys ++ ys2)) s) as Hgo by exact (Hgo l [] [] s eq_refl H0).
  induction l2 as [|x l2 IH]; intros l1 ys s' -> HJ; simpl.
  - apply wp_ret. by rewrite !app_nil_r.
  - apply wp_bind. eapply wp_mono; [by apply Hstep with l2|]. intros y s1 H1.
    apply wp_bind. eapply wp_mono.
    + apply (IH (l1 ++ [x])); [by rewrite <- app_assoc|exact H1].
    + intros ys2 s2 H2. cbv beta in H2. rewrite <- app_assoc in H2. exact H2.
Qed.

Lemma wp_m_iter {A} (f : A -> M S E unit) (J : list A -> S -> Prop) l s :
  J [] s ->
  (forall l1 x l2 s, l = l1 ++ x :: l2 -> J l1 s -> wpk K (f x) (fun _ => J (l1 ++ [x])) s) ->
  wpk K (m_iter f l) (fun _ => J l) s.
Proof.
  intros H0 Hstep.
  enough (forall l2 l1 s, l = l1 ++ l2 -> J l1 s -> wpk K (m_iter f l2) (fun _ => J l) s) as Hgo
    by exact (Hgo l [] s eq_refl H0).
  induction l2 as [|x l2 IH]; intros l1 s' -> HJ; simpl.
  - apply wp_ret. by rewrite app_nil_r.
  - apply wp_bind. eapply wp_mono; [by apply Hstep with l2|]. intros u s1 H1.
    apply (IH (l1 ++ [x])); [by rewrite <- app_assoc|exact H1].
Qed.
End WP.

Notation "'let!' x ':=' m 'in' k" := (mbind m (fun x => k))
  (at level 10, x pattern, m at level 100, k at level 200)
  : rust_scope.
Notation "m ;;; k" := (mbind m (fun _ => k))
  (at level 199, right associativity) : rust_scope.

(** ** Machine integers *)

Section Words.
Local Open Scope Z_scope.

Definition u8_max : Z := 2 ^ 8 - 1.
Definition u16_max : Z := 2 ^ 16 - 1.
Definition u32_max : Z := 2 ^ 32 - 1.
Definition u64_max : Z := 2 ^ 64 - 1.
Definition i64_max : Z := 2 ^ 63 - 1.

(** Wrap-around to [w] bits. *)
Definition wrap (w x : Z) : Z := x mod 2 ^ w.

(** Reinterpretation of a [w]-bit pattern as a signed integer ([as i64]). *)
Definition to_signed (w x : Z) : Z :=
  if wrap w x <? 2 ^ (w - 1) then wrap w x else wrap w x - 2 ^ w.

(** [saturating_sub] on unsigned integers. *)
Definition sat_sub (a b : Z) : Z := Z.max 0 (a - b).

Lemma wrap_range w x : 0 <= w -> 0 <= wrap w x < 2 ^ w.
Proof. intros. apply Z.mod_pos_bound, Z.pow_pos_nonneg; lia. Qed.

Lemma wrap_small w x : 0 <= x < 2 ^ w -> wrap w x = x.
Proof. apply Z.mod_small. Qed.

Lemma wrap_wrap w x : wrap w (wrap w x) = wrap w x.
Proof. apply Zmod_mod. Qed.

Lemma wrap_add_wrap_l w x y : wrap w (wrap w x + y) = wrap w (x + y).
Proof. apply Zplus_mod_idemp_l. Qed.

Lemma wrap_add_wrap_r w x y : wrap w (x + wrap w y) = wrap w (x + y).
Proof. apply Zplus_mod_idemp_r. Qed.

Lemma lor_shiftl_add k hi lo : 0 <= k -> 0 <= lo < 2 ^ k -> Z.lor (Z.shiftl hi k) lo = hi * 2 ^ k + lo.
Proof.
  intros Hk Hlo. pose proof (Z.add_lor_land (Z.shiftl hi k) lo) as H.
  rewrite <- Z.shiftl_mul_pow2 by done. enough (Z.land (Z.shiftl hi k) lo = 0) by lia.
  apply Z.bits_inj'. intros n Hn. rewrite Z.land_spec, Z.bits_0, Z.shiftl_spec by done.
  destruct (Z.ltb_spec n k).
  - by rewrite (Z.testbit_neg_r hi (n - k)) by lia.
  - destruct (decide (lo = 0)) as [->|]; [by rewrite Z.testbit_0_l, andb_false_r|].
    rewrite (Z.bits_above_log2 lo n), andb_false_r; [done|lia|]. apply Z.log2_lt_pow2; [lia|].
    apply (Z.lt_le_trans _ (2 ^ k)); [lia|]. apply Z.pow_le_mono_r; lia.
Qed.

Lemma land_lnot_ones n k : 0 <= k -> Z.land n (Z.lnot (2 ^ k - 1)) = n - n mod 2 ^ k.
Proof.
  intros Hk. replace (2 ^ k - 1) with (Z.ones k) by (rewrite Z.ones_equiv; lia).
  rewrite <- Z.ldiff_land, Z.ldiff_ones_r, Z.shiftl_mul_pow2, Z.shiftr_div_pow2 by lia.
  rewrite (Z.div_mod n (2 ^ k)) at 2 by (apply Z.pow_nonzero; lia). lia.
Qed.
End Words.

(** ** Lists *)

Section Lists.
Context {A : Type}.

(** Number of leading elements that satisfy [f]: the iterations of
    [while peek().is_some_and(f) { pos += 1 }]. *)
Fixpoint count_while (f : A -> bool) (l : list A) : nat :=
  match l with
  | [] => 0
  | x :: l' => if f x then S (count_while f l') else 0
  end.

Lemma count_while_le f l : count_while f l <= length l.
Proof. induction l; simpl; [lia | destruct (f a); simpl; lia]. Qed.

Lemma count_while_app_stop f l x r :
  forallb f l = true -> f x = false -> count_while f (l ++ x :: r) = length l.
Proof.
  intros Hl Hx. induction l as [|y l IH]; simpl in *; [by rewrite Hx|].
  apply andb_prop in Hl as [-> Hl]. by rewrite IH.
Qed.

Lemma count_while_all f l : forallb f l = true -> count_while f l = length l.
Proof.
  intros Hl. induction l as [|y l IH]; simpl in *; [done|].
  apply andb_prop in Hl as [-> Hl]. by rewrite IH.
Qed.

Lemma count_while_take f l : forallb f (take (count_while f l) l) = true.
Proof. induction l as [|y l IH]; simpl; [done|]. destruct (f y) eqn:E; simpl; [by rewrite E|done]. Qed.

Lemma count_while_next f (l : list A) (x : A) : l !! count_while f l = Some x -> f x = false.
Proof.
  induction l as [|y l IH]; simpl; [done|]. destruct (f y) eqn:E; simpl; [done|].
  by intros [= ->].
Qed.

Lemma In_take_mono (x : A) m k l : In x (take m l) -> m <= k -> In x (take k l).
Proof.
  revert m k. induction l as [|y l IH]; intros [|m] [|k] H Hk; simpl in *; try tauto; [lia|].
  destruct H; [by left|right]. apply (IH m); [done|lia].
Qed.

(** The slice [l[i..j]]. *)
Definition slice (i j : nat) (l : list A) : list A := take (j - i) (drop i l).

Lemma slice_length i j l : j <= length l -> length (slice i j l) = j - i.
Proof. intros. unfold slice. rewrite length_take, length_drop. lia. Qed.

Lemma slice_app_mid (l1 l2 l3 : list A) :
  slice (length l1) (length l1 + length l2) (l1 ++ l2 ++ l3) = l2.
Proof.
  unfold slice. rewrite drop_app_length.
  replace (_ + _ - _) with (length l2) by lia. apply take_app_length.
Qed.

Lemma drop_cons_lookup i (l r : list A) (x : A) : drop i l = x :: r -> l !! i = Some x /\ drop (S i) l = r.
Proof.
  intros H. split.
  - rewrite <- (Nat.add_0_r i), <- lookup_drop, H. done.
  - replace (S i) with (i + 1) by lia. by rewrite <- drop_drop, H.
Qed.
End Lists.

Lemma some_bind {A B} (x : A) (f : A -> option B) : Some x ≫= f = f x.
Proof. done. Qed.

Lemma if_same {A} (b : bool) (x : A) : (if b then x else x) = x.
Proof. by destruct b. Qed.

Lemma length_list_ascii (s : string) : length (list_ascii_of_string s) = String.length s.
Proof. induction s; simpl; congruence. Qed.

(** ** Proof automation *)

Create HintDb rust.
Create Rewrite HintDb rust.
#[export] Hint Resolve list_elem_of_here list_elem_of_further : rust.
#[export] Hint Resolve count_while_le wrap_range : rust.
#[export] Hint Rewrite @wrap_wrap @wrap_add_wrap_l @wrap_add_wrap_r @some_bind : rust.

(** Case analysis on every match and [if] of a hypothesis, closing the
    branches that contradict it. *)
Ltac crush_match_in H :=
  repeat match type of H with
  | context [match ?x with _ => _ end] =>
      let E := fresh "E" in destruct x eqn:E; simplify_eq/=; try discriminate
  end.

Ltac split_matches :=
  repeat match goal with
  | |- context [match ?x with _ => _ end] => let E := fresh "E" in destruct x eqn:E; simpl
  end.
