(* ===== verification/HlslLexer.v ===== *)
(** * The HLSL lexer ([crates/hlsl-compiler/src/lexer.rs])

    Tokens with byte spans, the scanning loops over the source bytes, number
    literals at their machine widths, and the classification of words. *)
From Stdlib Require Import ZArith Lia Ascii String.
From Stdlib Require Import Floats.SpecFloat.
From stdpp Require Import base list option strings.
From S2P Require Import Prelude.
Local Open Scope rust_scope.

(** ** Tokens *)

Record Span := mkSpan { sp_start : nat; sp_end : nat }.

Inductive Keyword :=
  | Kw_Void | Kw_Float | Kw_Int | Kw_Uint | Kw_Bool | Kw_Struct | Kw_Return
  | Kw_If | Kw_Else | Kw_For | Kw_SamplerState | Kw_Texture2D | Kw_CBuffer
  | Kw_Register.

Inductive TokenKind :=
  | T_Ident (s : string)
  | T_Keyword (k : Keyword)
  | T_Semantic (s : string)
  | T_IntLiteral (v : Z)
  | T_UintLiteral (v : Z)
  | T_FloatLiteral (v : spec_float)
  | T_BoolLiteral (b : bool)
  | T_LParen | T_RParen | T_LBrace | T_RBrace | T_LBracket | T_RBracket
  | T_Comma | T_Semicolon | T_Colon | T_Dot | T_Assign | T_EqEq | T_Neq
  | T_Lt | T_Le | T_Gt | T_Ge | T_Plus | T_Minus | T_Star | T_Slash | T_Percent
  | T_Bang | T_Tilde | T_Amp | T_Pipe | T_Caret | T_AndAnd | T_OrOr
  | T_PlusEq | T_MinusEq | T_StarEq | T_SlashEq
  | T_Eof.

Record Token := mkToken { kind : TokenKind; span : Span }.

#[export] Instance Keyword_eq_dec : EqDecision Keyword.
Proof. solve_decision. Defined.
#[export] Instance Span_eq_dec : EqDecision Span.
Proof. solve_decision. Defined.
#[export] Instance spec_float_eq_dec : EqDecision spec_float.
Proof. solve_decision. Defined.
#[export] Instance TokenKind_eq_dec : EqDecision TokenKind.
Proof. solve_decision. Defined.

(** A diagnostic: the pieces of the [format!] string with its arguments, not
    rendered to text (rendering a float is the formatter's business). *)
Inductive Piece :=
  | P_lit (s : string)
  | P_kind (k : TokenKind)   (** the argument is [kind.describe()] *)
  | P_byte (c : ascii)       (** the argument is a [u8] under [{:?}] *)
  | P_name (s : string).     (** the argument is a [String] *)
Definition Msg : Type := list Piece.

Record LexError := mkLexError { le_span : Span; le_msg : Msg }.

Record Lexer := mkLexer { src : list ascii; pos : nat; tokens : list Token }.

(** [Lexer::new(source)]: [source.as_bytes()]. *)
Definition Lexer_new (source : string) : Lexer :=
  mkLexer (list_ascii_of_string source) 0 [].

Definition set_pos (l : Lexer) (p : nat) : Lexer := mkLexer (src l) p (tokens l).

Definition err (start end_ : nat) (msg : Msg) : LexError :=
  mkLexError (mkSpan start end_) msg.

Definition peek_is (l : Lexer) (off : nat) : option ascii := src l !! (pos l + off).

Definition emit (l : Lexer) (s : Span) (k : TokenKind) : Lexer :=
  mkLexer (src l) (pos l) (tokens l ++ [mkToken k s]).

(** ** Byte classes of [core::ascii] *)

Definition code (c : ascii) : nat := nat_of_ascii c.
Definition between (a b : ascii) (c : ascii) : bool :=
  (code a <=? code c) && (code c <=? code b).
Definition is_ascii_digit : ascii -> bool := between "0" "9".
Definition is_ascii_alphabetic (c : ascii) : bool :=
  between "a" "z" c || between "A" "Z" c.
Definition is_ascii_alphanumeric (c : ascii) : bool :=
  is_ascii_alphabetic c || is_ascii_digit c.
Definition is_ascii_hexdigit (c : ascii) : bool :=
  is_ascii_digit c || between "a" "f" c || between "A" "F" c.
(** Space, tab, line feed, form feed and carriage return (not vertical tab). *)
Definition is_ascii_whitespace (c : ascii) : bool :=
  existsb (Ascii.eqb c) [" "; "009"; "010"; "012"; "013"]%char.

Definition ident_start (c : ascii) : bool := is_ascii_alphabetic c || Ascii.eqb c "_".
Definition ident_char (c : ascii) : bool := is_ascii_alphanumeric c || Ascii.eqb c "_".

Definition opt_is (o : option ascii) (c : ascii) : bool :=
  match o with Some d => Ascii.eqb d c | None => false end.

(** ** White space and comments *)

(** The block-comment loop, from just after the opening marker: how far the
    cursor moves when the comment is closed. *)
Fixpoint block_comment_loop (l : list ascii) : option nat :=
  match l with
  | a :: ((b :: _) as l') =>
      if Ascii.eqb a "*" && Ascii.eqb b "/" then Some 2
      else S <$> block_comment_loop l'
  | _ => None
  end.

Fixpoint skip_loop (fuel : nat) (l : Lexer) : outcome LexError Lexer :=
  match fuel with
  | 0 => NoFuel
  | S fuel =>
      match src l !! pos l with
      | None => Ok l
      | Some c =>
          if is_ascii_whitespace c then skip_loop fuel (set_pos l (pos l + 1))
          else if Ascii.eqb c "/" && opt_is (peek_is l 1) "/" then
            let p := pos l + 2 in
            skip_loop fuel
              (set_pos l (p + count_while (fun c => negb (Ascii.eqb c "010")) (drop p (src l))))
          else if Ascii.eqb c "/" && opt_is (peek_is l 1) "*" then
            match block_comment_loop (drop (pos l + 2) (src l)) with
            | Some n => skip_loop fuel (set_pos l (pos l + 2 + n))
            | None => Err (err (pos l) (length (src l)) [P_lit "unterminated block comment"])
            end
          else Ok l
      end
  end.

Definition skip_ws_and_comments (l : Lexer) : outcome LexError Lexer :=
  skip_loop (S (length (src l))) l.

(** ** Number literals *)

(** Value of a digit in a radix up to 16. *)
Definition digit_val (c : ascii) : option Z :=
  (if is_ascii_digit c then Some (Z.of_nat (code c) - 48)
   else if between "a" "f" c then Some (Z.of_nat (code c) - 87)
   else if between "A" "F" c then Some (Z.of_nat (code c) - 55)
   else None)%Z.

(** The accumulation loop of the integer parsers of [core::num], which fails on
    an invalid digit and on a value above [max]. *)
Fixpoint digits_loop (radix max acc : Z) (t : list ascii) : option Z :=
  match t with
  | [] => Some acc
  | c :: t =>
      match digit_val c with
      | None => None
      | Some d =>
          (if radix <=? d then None
           else let acc' := acc * radix + d in
                if max <? acc' then None else digits_loop radix max acc' t)%Z
      end
  end.

(** [from_str_radix] on a text without sign: the lexer's texts start with a digit. *)
Definition from_str_radix (radix max : Z) (t : list ascii) : option Z :=
  match t with [] => None | _ => digits_loop radix max 0 t end.

Definition parse_u64 : list ascii -> option Z := from_str_radix 10 u64_max.
Definition parse_i64 : list ascii -> option Z := from_str_radix 10 i64_max.

(** The binary64 number nearest to [m * 10 ^ e]. *)
Definition f64_of_decimal (m e : Z) : spec_float :=
  match m with
  | Zpos p =>
      match e with
      | Zneg q => SFdiv 53 1024 (S754_finite false p 0) (S754_finite false (10 ^ q) 0)
      | _ => binary_normalize 53 1024 (m * 10 ^ e) 0 false
      end
  | _ => S754_zero false
  end.

(** [f64::from_str] on a text that starts with a digit or a point: digits with
    an optional point, at least one digit, then an optional exponent. *)
Definition dec_value (l : list ascii) : Z :=
  fold_left (fun acc c => acc * 10 + (Z.of_nat (code c) - 48))%Z l 0%Z.

Definition parse_exponent (l : list ascii) : option Z :=
  match l with
  | [] => Some 0%Z
  | c :: l =>
      if Ascii.eqb c "e" || Ascii.eqb c "E" then
        let '(sign, ds) :=
          match l with
          | s :: r => if Ascii.eqb s "-" then (-1, r)%Z
                      else if Ascii.eqb s "+" then (1, r)%Z else (1%Z, l)
          | [] => (1%Z, l)
          end in
        match ds with
        | [] => None
        | _ => if forallb is_ascii_digit ds then Some (sign * dec_value ds)%Z else None
        end
      else None
  end.

Definition parse_f64 (t : list ascii) : option spec_float :=
  let n := count_while is_ascii_digit t in
  let ip := take n t in
  let r := drop n t in
  let '(fp, r') :=
    match r with
    | c :: r1 =>
        if Ascii.eqb c "." then
          let k := count_while is_ascii_digit r1 in (take k r1, drop k r1)
        else ([], r)
    | [] => ([], r)
    end in
  match ip ++ fp with
  | [] => None
  | ds => match parse_exponent r' with
          | Some e => Some (f64_of_decimal (dec_value ds) (e - Z.of_nat (length fp)))
          | None => None
          end
  end.

(** The decimal loop: characters consumed and the final [had_dot], [had_exp]. *)
Fixpoint number_loop (l : list ascii) (had_dot had_exp : bool) : nat * bool * bool :=
  match l with
  | [] => (0, had_dot, had_exp)
  | c :: l' =>
      if is_ascii_digit c then
        let '(n, d, e) := number_loop l' had_dot had_exp in (S n, d, e)
      else if Ascii.eqb c "." && negb had_dot && negb had_exp then
        let '(n, d, e) := number_loop l' true had_exp in (S n, d, e)
      else if (Ascii.eqb c "e" || Ascii.eqb c "E") && negb had_exp then
        match l' with
        | s :: l'' =>
            if Ascii.eqb s "+" || Ascii.eqb s "-" then
              let '(n, d, e) := number_loop l'' true true in (S (S n), d, e)
            else let '(n, d, e) := number_loop l' true true in (S n, d, e)
        | [] => (1, true, true)
        end
      else (0, had_dot, had_exp)
  end.

Definition consume_uint_suffix (l : Lexer) : bool * Lexer :=
  if opt_is (peek_is l 0) "u" || opt_is (peek_is l 0) "U"
  then (true, set_pos l (pos l + 1)) else (false, l).

Definition consume_float_suffix (l : Lexer) : Lexer :=
  if opt_is (peek_is l 0) "f" || opt_is (peek_is l 0) "F"
  then set_pos l (pos l + 1) else l.

Definition hex_number (l : Lexer) (start : nat) : outcome LexError Lexer :=
  let hex_start := pos l + 2 in
  let n := count_while is_ascii_hexdigit (drop hex_start (src l)) in
  let l := set_pos l (hex_start + n) in
  if pos l =? hex_start then Err (err start (pos l) [P_lit "empty hex literal"])
  else
    let text := slice hex_start (pos l) (src l) in
    let '(is_uint, l) := consume_uint_suffix l in
    let s := mkSpan start (pos l) in
    match from_str_radix 16 u64_max text with
    | None => Err (err start (pos l) [P_lit "invalid hex literal"])
    | Some val =>
        Ok (emit l s (if is_uint then T_UintLiteral val else T_IntLiteral (to_signed 64 val)))
    end.

Definition decimal_number (l : Lexer) (start : nat) : outcome LexError Lexer :=
  let '(n, had_dot, had_exp) := number_loop (drop (pos l) (src l)) false false in
  let l := set_pos l (pos l + n) in
  if had_dot || had_exp then
    let l := consume_float_suffix l in
    match parse_f64 (slice start (pos l) (src l)) with
    | None => Err (err start (pos l) [P_lit "invalid float literal"])
    | Some val => Ok (emit l (mkSpan start (pos l)) (T_FloatLiteral val))
    end
  else
    let '(is_uint, l) := consume_uint_suffix l in
    let s := mkSpan start (pos l) in
    let text := slice start (pos l) (src l) in
    let bad := Err (err start (pos l) [P_lit "invalid integer literal"]) in
    if is_uint then
      match parse_u64 text with None => bad | Some val => Ok (emit l s (T_UintLiteral val)) end
    else
      match parse_i64 text with None => bad | Some val => Ok (emit l s (T_IntLiteral val)) end.

(** [number]: the first byte is read by index; [0x] selects the hexadecimal path. *)
Definition number (l : Lexer) (start : nat) : outcome LexError Lexer :=
  let? c := idx_ (src l !! pos l) in
  if Ascii.eqb c "0" && (opt_is (peek_is l 1) "x" || opt_is (peek_is l 1) "X")
  then hex_number l start else decimal_number l start.

(** ** Words *)

Fixpoint strip_prefix (p s : string) : option string :=
  match p, s with
  | EmptyString, _ => Some s
  | String a p, String b s => if Ascii.eqb a b then strip_prefix p s else None
  | _, EmptyString => None
  end.

Definition str_all (f : ascii -> bool) (s : string) : bool := forallb f (list_ascii_of_string s).
Definition str_contains (f : ascii -> bool) (s : string) : bool := existsb f (list_ascii_of_string s).

Definition semantic_bases : list string :=
  ["POSITION"; "POSITIONT"; "PSIZE"; "COLOR"; "FOG"; "TEXCOORD"; "TANGENT"; "BINORMAL";
   "NORMAL"; "DEPTH"; "VPOS"; "VFACE"; "BLENDWEIGHT"; "BLENDINDICES"]%string.

Definition is_semantic (text : string) : bool :=
  match strip_prefix "SV_" text with
  | Some _ => true
  | None =>
      existsb (fun base =>
        String.eqb text base ||
        match strip_prefix base text with
        | Some rest => (0 <? String.length rest) && str_all is_ascii_digit rest
        | None => false
        end) semantic_bases
  end.

Definition keyword_table : list (string * TokenKind) :=
  [("void", T_Keyword Kw_Void); ("int", T_Keyword Kw_Int); ("uint", T_Keyword Kw_Uint);
   ("bool", T_Keyword Kw_Bool); ("struct", T_Keyword Kw_Struct);
   ("return", T_Keyword Kw_Return); ("if", T_Keyword Kw_If); ("else", T_Keyword Kw_Else);
   ("for", T_Keyword Kw_For); ("SamplerState", T_Keyword Kw_SamplerState);
   ("Texture2D", T_Keyword Kw_Texture2D); ("cbuffer", T_Keyword Kw_CBuffer);
   ("register", T_Keyword Kw_Register); ("true", T_BoolLiteral true);
   ("false", T_BoolLiteral false)]%string.

Definition assoc {A} (k : string) (l : list (string * A)) : option A :=
  snd <$> List.find (fun p => String.eqb (fst p) k) l.

Definition classify_ident (text : string) : TokenKind :=
  let digit_or_x c := is_ascii_digit c || Ascii.eqb c "x" in
  let classify_semantic := if is_semantic text then T_Semantic text else T_Ident text in
  match assoc text keyword_table with
  | Some k => k
  | None =>
      match strip_prefix "float" text with
      | Some rest =>
          if String.eqb rest EmptyString then T_Keyword Kw_Float
          else if str_all digit_or_x rest && str_contains is_ascii_digit rest
                  && negb (str_contains (fun c => negb (digit_or_x c)) rest)
          then T_Ident text
          else classify_semantic
      | None => classify_semantic
      end
  end.

Definition ident (l : Lexer) (start : nat) : Lexer :=
  let l := set_pos l (pos l + count_while ident_char (drop (pos l) (src l))) in
  let text := string_of_list_ascii (slice start (pos l) (src l)) in
  emit l (mkSpan start (pos l)) (classify_ident text).

(** ** Operators *)

Definition two_char_ops : list (ascii * ascii * TokenKind) :=
  [("=", "=", T_EqEq); ("!", "=", T_Neq); ("<", "=", T_Le); (">", "=", T_Ge);
   ("&", "&", T_AndAnd); ("|", "|", T_OrOr); ("+", "=", T_PlusEq); ("-", "=", T_MinusEq);
   ("*", "=", T_StarEq); ("/", "=", T_SlashEq)]%char.

Definition one_char_ops : list (ascii * TokenKind) :=
  [("(", T_LParen); (")", T_RParen); ("{", T_LBrace); ("}", T_RBrace); ("[", T_LBracket);
   ("]", T_RBracket); (",", T_Comma); (";", T_Semicolon); (":", T_Colon); (".", T_Dot);
   ("=", T_Assign); ("<", T_Lt); (">", T_Gt); ("+", T_Plus); ("-", T_Minus); ("*", T_Star);
   ("/", T_Slash); ("%", T_Percent); ("!", T_Bang); ("~", T_Tilde); ("&", T_Amp);
   ("|", T_Pipe); ("^", T_Caret)]%char.

Definition two_char (a b : ascii) : option TokenKind :=
  snd <$> List.find (fun p => Ascii.eqb (fst (fst p)) a && Ascii.eqb (snd (fst p)) b) two_char_ops.
Definition one_char (a : ascii) : option TokenKind :=
  snd <$> List.find (fun p => Ascii.eqb (fst p) a) one_char_ops.

(** [op]: [bump] reads by index; a missing second byte is taken as NUL. *)
Definition op (l : Lexer) (start : nat) : outcome LexError Lexer :=
  let? c := idx_ (src l !! pos l) in
  let l := set_pos l (pos l + 1) in
  let n := match peek_is l 0 with Some n => n | None => "000"%char end in
  match two_char c n with
  | Some k => let l := set_pos l (pos l + 1) in Ok (emit l (mkSpan start (pos l)) k)
  | None =>
      match one_char c with
      | Some k => Ok (emit l (mkSpan start (start + 1)) k)
      | None => Err (err start (start + 1) [P_lit "unexpected character "; P_byte c])
      end
  end.

(** ** The driver *)

Definition run_step (l : Lexer) : outcome LexError Lexer :=
  let start := pos l in
  let? c := idx_ (src l !! pos l) in
  let starts_number :=
    is_ascii_digit c ||
    (Ascii.eqb c "." && match peek_is l 1 with Some n => is_ascii_digit n | None => false end) in
  if starts_number then number l start
  else if Ascii.eqb c "034" then
    Err (err start (start + 1) [P_lit "string literals are not supported yet"])
  else if ident_start c then Ok (ident l start)
  else op l start.

Fixpoint run_loop (fuel : nat) (l : Lexer) : outcome LexError Lexer :=
  match fuel with
  | 0 => NoFuel
  | S fuel =>
      if pos l <? length (src l) then
        let? l := skip_ws_and_comments l in
        if length (src l) <=? pos l then Ok l
        else let? l := run_step l in run_loop fuel l
      else Ok l
  end.

Definition run (l : Lexer) : outcome LexError (list Token) :=
  let? l := run_loop (S (length (src l))) l in
  Ok (tokens (emit l (mkSpan (pos l) (pos l)) T_Eof)).

Definition lex (source : string) : outcome LexError (list Token) := run (Lexer_new source).

(** ** What a token stream of a source text is *)

(** The bytes from [p] to [q] are white space and complete comments. *)
Inductive trivia (s : list ascii) : nat -> nat -> Prop :=
  | trivia_nil p : trivia s p p
  | trivia_ws p q c :
      s !! p = Some c -> is_ascii_whitespace c = true -> trivia s (p + 1) q -> trivia s p q
  | trivia_line p e q :
      s !! p = Some "/"%char -> s !! (p + 1) = Some "/"%char -> p + 2 <= e ->
      (forall i, p + 2 <= i < e -> s !! i <> Some "010"%char) ->
      e = length s \/ s !! e = Some "010"%char ->
      trivia s e q -> trivia s p q
  | trivia_block p e q :
      s !! p = Some "/"%char -> s !! (p + 1) = Some "*"%char -> p + 2 <= e ->
      s !! e = Some "*"%char -> s !! (e + 1) = Some "/"%char ->
      (forall i, p + 2 <= i < e -> ~ (s !! i = Some "*"%char /\ s !! (i + 1) = Some "/"%char)) ->
      trivia s (e + 2) q -> trivia s p q.

(** A byte that makes a number literal a float. *)
Definition float_mark (c : ascii) : bool :=
  Ascii.eqb c "." || Ascii.eqb c "e" || Ascii.eqb c "E".

(** [k] is the token that the bytes [t] spell. *)
Definition spells (k : TokenKind) (t : list ascii) : Prop :=
  match k with
  | T_Ident _ | T_Keyword _ | T_Semantic _ | T_BoolLiteral _ =>
      (exists c r, t = c :: r /\ ident_start c = true) /\ forallb ident_char t = true /\
      classify_ident (string_of_list_ascii t) = k
  | T_IntLiteral v =>
      parse_i64 t = Some v \/
      exists x h u, t = "0"%char :: x :: h /\ (x = "x" \/ x = "X")%char /\
                    from_str_radix 16 u64_max h = Some u /\ v = to_signed 64 u
  | T_UintLiteral v =>
      exists x h u, t = "0"%char :: x :: h ++ [u] /\ (x = "x" \/ x = "X")%char /\
                    (u = "u" \/ u = "U")%char /\ from_str_radix 16 u64_max h = Some v
  | T_FloatLiteral v => parse_f64 t = Some v /\ existsb float_mark t = true
  | T_Eof => False
  | _ => (exists a b, t = [a; b] /\ two_char a b = Some k) \/ (exists a, t = [a] /\ one_char a = Some k)
  end.

(** The tokens tile the source from [p] to [q]: trivia, then a lexeme, and so on. *)
Fixpoint tiles (s : list ascii) (p : nat) (ts : list Token) (q : nat) : Prop :=
  match ts with
  | [] => p = q
  | t :: ts =>
      trivia s p (sp_start (span t)) /\
      sp_start (span t) < sp_end (span t) <= length s /\
      spells (kind t) (slice (sp_start (span t)) (sp_end (span t)) s) /\
      tiles s (sp_end (span t)) ts q
  end.

(** A complete stream: tiles to the last lexeme, trivia to the end, one final [Eof]. *)
Definition stream_of (s : list ascii) (toks : list Token) : Prop :=
  exists body q, toks = body ++ [mkToken T_Eof (mkSpan (length s) (length s))] /\
    tiles s 0 body q /\ trivia s q (length s).

(** ** Scanning lemmas *)

Lemma eqb_ascii a b : Ascii.eqb a b = true <-> a = b.
Proof. apply Ascii.eqb_eq. Qed.

Lemma opt_is_true o c : opt_is o c = true <-> o = Some c.
Proof. destruct o; simpl; [rewrite eqb_ascii|]; split; congruence. Qed.

Lemma trivia_trans s p q r : trivia s p q -> trivia s q r -> trivia s p r.
Proof.
  induction 1; [done| | |]; intros;
    [eapply trivia_ws|eapply trivia_line|eapply trivia_block]; eauto.
Qed.

Lemma tiles_snoc s p ts q t :
  tiles s p ts q -> trivia s q (sp_start (span t)) ->
  sp_start (span t) < sp_end (span t) <= length s ->
  spells (kind t) (slice (sp_start (span t)) (sp_end (span t)) s) ->
  tiles s p (ts ++ [t]) (sp_end (span t)).
Proof.
  revert p. induction ts as [|u ts IH]; simpl; intros p.
  - intros ->; auto.
  - intros (? & ? & ? & ?); auto.
Qed.

Lemma count_while_stop (f : ascii -> bool) l :
  drop (count_while f l) l = [] \/ exists c r, drop (count_while f l) l = c :: r /\ f c = false.
Proof.
  induction l as [|a l IH]; simpl; [by left|]. destruct (f a) eqn:E; simpl; [done|].
  right. by exists a, l.
Qed.

Lemma block_comment_loop_spec l n :
  block_comment_loop l = Some n ->
  2 <= n <= length l /\ l !! (n - 2) = Some "*"%char /\ l !! (n - 1) = Some "/"%char /\
  forall i, i < n - 2 -> ~ (l !! i = Some "*"%char /\ l !! (i + 1) = Some "/"%char).
Proof.
  revert n. induction l as [|a l IH]; [done|]. intros n. destruct l as [|b l]; [done|].
  change (block_comment_loop (a :: b :: l)) with
    (if Ascii.eqb a "*" && Ascii.eqb b "/" then Some 2 else S <$> block_comment_loop (b :: l)).
  destruct (Ascii.eqb a "*" && Ascii.eqb b "/") eqn:E.
  - intros [= <-]. apply andb_prop in E as [Ea Eb]. rewrite eqb_ascii in Ea, Eb. subst.
    simpl; repeat split; try lia; auto.
  - destruct (block_comment_loop (b :: l)) as [m|] eqn:Em; [|done].
    intros [= <-]. destruct (IH m eq_refl) as (Hm & H1 & H2 & H3).
    split; [simpl in *; lia|].
    replace (S m - 2) with (S (m - 2)) by lia. replace (S m - 1) with (S (m - 1)) by lia.
    split; [done|]. split; [done|]. intros i Hi. destruct i as [|i].
    + simpl. intros [[= ->] [= ->]]. by rewrite !Ascii.eqb_refl in E.
    + change ((a :: b :: l) !! S i) with ((b :: l) !! i).
      change ((a :: b :: l) !! (S i + 1)) with ((b :: l) !! (i + 1)). apply H3. lia.
Qed.

(** A span that an error may carry: inside the source. *)
Definition span_within (n : nat) (s : Span) : Prop := sp_start s <= sp_end s <= n.

Definition skip_post (l : Lexer) (r : outcome LexError Lexer) : Prop :=
  match r with
  | Ok l' => src l' = src l /\ tokens l' = tokens l /\ pos l <= pos l' <= length (src l) /\
             trivia (src l) (pos l) (pos l')
  | Err e => span_within (length (src l)) (le_span e)
  | _ => False
  end.

Lemma skip_post_step l p r :
  pos l <= p ->
  (forall q, trivia (src l) p q -> trivia (src l) (pos l) q) ->
  skip_post (set_pos l p) r -> skip_post l r.
Proof.
  intros Hp Ht. destruct r as [l'| | |]; simpl; [|done..].
  intros (-> & -> & ? & Htr). repeat split; [lia..|]. by apply Ht.
Qed.

Lemma newline_scan s p :
  p <= length s ->
  let e := p + count_while (fun c => negb (Ascii.eqb c "010")) (drop p s) in
  p <= e <= length s /\ (forall i, p <= i < e -> s !! i <> Some "010"%char) /\
  (e = length s \/ s !! e = Some "010"%char).
Proof.
  intros Hp e. set (f := fun c => negb (Ascii.eqb c "010")) in *.
  assert (count_while f (drop p s) <= length s - p) as Hle.
  { etransitivity; [apply count_while_le|]. rewrite length_drop. lia. }
  split; [unfold e; lia|]. split.
  - intros i Hi Hc. pose proof (count_while_take f (drop p s)) as Hf.
    rewrite forallb_forall in Hf.
    assert (f "010"%char = true) as Habs; [|by compute in Habs].
    apply Hf. apply list_elem_of_In, list_elem_of_lookup. exists (i - p).
    rewrite lookup_take_lt by (unfold e in Hi; lia). rewrite lookup_drop.
    by replace (p + (i - p)) with i by lia.
  - unfold e. destruct (count_while_stop f (drop p s)) as [Hd|(c & r & Hd & Hc)].
    + left. apply (f_equal length) in Hd. rewrite !length_drop in Hd. simpl in Hd. lia.
    + right. rewrite drop_drop in Hd. apply drop_cons_lookup in Hd as [-> _].
      unfold f in Hc. apply negb_false_iff, eqb_ascii in Hc. by subst.
Qed.

Lemma skip_loop_spec fuel l :
  pos l <= length (src l) -> length (src l) - pos l < fuel -> skip_post l (skip_loop fuel l).
Proof.
  revert l. induction fuel as [|fuel IH]; intros l Hpos Hfuel; [lia|]. simpl.
  destruct (src l !! pos l) as [c|] eqn:Hc.
  2:{ simpl. repeat split; [lia..|]. constructor. }
  assert (pos l < length (src l)) by by eapply lookup_lt_Some.
  assert (Hnext : forall p, pos l < p <= length (src l) ->
    (forall q, trivia (src l) p q -> trivia (src l) (pos l) q) ->
    skip_post l (skip_loop fuel (set_pos l p))).
  { intros p Hp Ht. apply (skip_post_step _ p); [lia|done|].
    apply IH; simpl; lia. }
  destruct (is_ascii_whitespace c) eqn:Hws.
  { apply Hnext; [lia|]. intros q. by eapply trivia_ws. }
  destruct (Ascii.eqb c "/" && opt_is (peek_is l 1) "/") eqn:Hline.
  { apply andb_prop in Hline as [->%eqb_ascii H1%opt_is_true].
    unfold peek_is in H1. pose proof (lookup_lt_Some _ _ _ H1).
    destruct (newline_scan (src l) (pos l + 2)) as (? & ? & ?); [lia|].
    apply Hnext; [lia|]. intros q. by eapply trivia_line; [..|lia| |]. }
  destruct (Ascii.eqb c "/" && opt_is (peek_is l 1) "*") eqn:Hblock.
  { apply andb_prop in Hblock as [->%eqb_ascii H1%opt_is_true].
    unfold peek_is in H1. pose proof (lookup_lt_Some _ _ _ H1).
    destruct (block_comment_loop _) as [n|] eqn:Hn.
    - apply block_comment_loop_spec in Hn as (Hn & Ha & Hb & Hmin).
      rewrite length_drop in Hn. rewrite lookup_drop in Ha, Hb.
      apply Hnext; [lia|]. intros q Hq.
      eapply (trivia_block _ _ (pos l + 2 + (n - 2))); [done|done|lia|done| | |].
      + by replace (_ + 1) with (pos l + 2 + (n - 1)) by lia.
      + intros i Hi. specialize (Hmin (i - (pos l + 2))). rewrite !lookup_drop in Hmin.
        replace (pos l + 2 + (i - (pos l + 2))) with i in Hmin by lia.
        replace (pos l + 2 + (i - (pos l + 2) + 1)) with (i + 1) in Hmin by lia.
        apply Hmin; lia.
      + by replace (_ + 2) with (pos l + 2 + n) by lia.
    - simpl. unfold span_within; simpl. lia. }
  simpl. repeat split; [lia..|]. constructor.
Qed.

(** ** Number, word and operator lemmas *)

(** The code emitted exactly one token, from the old cursor to the new one. *)
Definition step_post (l : Lexer) (r : outcome LexError Lexer) : Prop :=
  match r with
  | Ok l' =>
      src l' = src l /\ pos l < pos l' <= length (src l) /\
      exists k, tokens l' = tokens l ++ [mkToken k (mkSpan (pos l) (pos l'))] /\
                spells k (slice (pos l) (pos l') (src l))
  | Err e => span_within (length (src l)) (le_span e)
  | _ => False
  end.

(** A digit of a larger alphabet stops the integer parser. *)
Lemma digits_loop_invalid radix max acc d c r :
  match digit_val c with Some v => (radix <= v)%Z | None => True end ->
  digits_loop radix max acc (d ++ c :: r) = None.
Proof.
  intros Hc. revert acc. induction d as [|x d IH]; intros acc; simpl.
  - destruct (digit_val c); [|done]. destruct (Z.leb_spec radix z); [done|lia].
  - destruct (digit_val x); [|done]. destruct (radix <=? z)%Z; [done|].
    by destruct (max <? _)%Z.
Qed.

Lemma from_str_radix_invalid radix max d c r :
  match digit_val c with Some v => (radix <= v)%Z | None => True end ->
  from_str_radix radix max (d ++ c :: r) = None.
Proof. intros Hc. pose proof (digits_loop_invalid radix max 0 d c r Hc). by destruct d. Qed.

Lemma number_loop_le l d e n d' e' :
  number_loop l d e = (n, d', e') -> n <= length l.
Proof.
  revert d e n d' e'. induction l as [l IH] using (induction_ltof1 _ (@length ascii)); unfold ltof in IH.
  intros d e n d' e'. destruct l as [|c l]; simpl; [by intros [= <- <- <-]|].
  destruct (is_ascii_digit c).
  { destruct (number_loop l d e) as [[m ?] ?] eqn:E. intros [= <- <- <-].
    apply (IH l) in E; simpl; lia. }
  destruct (Ascii.eqb c "." && negb d && negb e).
  { destruct (number_loop l true e) as [[m ?] ?] eqn:E. intros [= <- <- <-].
    apply (IH l) in E; simpl; lia. }
  destruct (_ && negb e); [|intros [= <- <- <-]; lia].
  destruct l as [|s l]; [intros [= <- <- <-]; simpl; lia|].
  destruct (Ascii.eqb s "+" || Ascii.eqb s "-").
  - destruct (number_loop l true true) as [[m ?] ?] eqn:E. intros [= <- <- <-].
    apply (IH l) in E; simpl; lia.
  - destruct (number_loop (s :: l) true true) as [[m ?] ?] eqn:E. intros [= <- <- <-].
    apply (IH (s :: l)) in E; simpl in *; lia.
Qed.

(** The loop reports a float exactly when it has consumed a float mark. *)
Lemma number_loop_mark l d e n d' e' :
  number_loop l d e = (n, d', e') -> d' || e' = true ->
  d || e = true \/ existsb float_mark (take n l) = true.
Proof.
  revert d e n d' e'. induction l as [l IH] using (induction_ltof1 _ (@length ascii)); unfold ltof in IH.
  intros d e n d' e'. destruct l as [|c l]; simpl; [intros [= <- <- <-]; auto|].
  destruct (is_ascii_digit c).
  { destruct (number_loop l d e) as [[m ?] ?] eqn:E. intros [= <- <- <-] Hf.
    destruct (IH l ltac:(simpl; lia) _ _ _ _ _ E Hf) as [|Hm]; [by left|right].
    simpl. by rewrite Hm, orb_true_r. }
  destruct (Ascii.eqb c "." && negb d && negb e) eqn:Edot.
  { destruct (number_loop l true e) as [[m ?] ?]. intros ? _. simplify_eq. right. simpl.
    rewrite !andb_true_iff in Edot. destruct Edot as [[Edot _] _]. unfold float_mark. by rewrite Edot. }
  destruct ((_ || _) && negb e) eqn:Eexp; [|intros; simplify_eq; auto].
  apply andb_prop in Eexp as [Eexp _]. intros Hn Hf. right.
  assert (float_mark c = true) as Hc.
  { unfold float_mark. by rewrite <- orb_assoc, Eexp, orb_true_r. }
  assert (exists m, n = S m) as [m ->].
  { destruct l as [|s l]; [simplify_eq; by eexists|].
    destruct (Ascii.eqb s "+" || _); [destruct (number_loop l true true) as [[? ?] ?]|
      destruct (number_loop (s :: l) true true) as [[? ?] ?]]; simplify_eq; by eexists. }
  simpl. by rewrite Hc.
Qed.

Lemma number_loop_pos c l :
  is_ascii_digit c || Ascii.eqb c "." = true ->
  exists n d e, number_loop (c :: l) false false = (S n, d, e).
Proof.
  intros Hc. simpl. destruct (is_ascii_digit c).
  - destruct (number_loop l false false) as [[n d] e]. by exists n, d, e.
  - simpl in Hc. rewrite Hc. simpl. destruct (number_loop l true false) as [[n d] e].
    by exists n, d, e.
Qed.

Lemma consume_uint_suffix_spec l b l' :
  consume_uint_suffix l = (b, l') ->
  src l' = src l /\ tokens l' = tokens l /\
  if b then pos l' = pos l + 1 /\ exists u, (u = "u" \/ u = "U")%char /\ src l !! pos l = Some u
  else pos l' = pos l.
Proof.
  unfold consume_uint_suffix, peek_is. rewrite Nat.add_0_r. intros H.
  destruct (opt_is _ "u") eqn:E1; simpl in H.
  { injection H as <- <-. apply opt_is_true in E1. simpl. eauto 10. }
  destruct (opt_is _ "U") eqn:E2; injection H as <- <-; [|done].
  apply opt_is_true in E2. simpl. eauto 10.
Qed.

Lemma consume_float_suffix_spec l :
  src (consume_float_suffix l) = src l /\ tokens (consume_float_suffix l) = tokens l /\
  pos l <= pos (consume_float_suffix l) <= pos l + 1 /\
  (pos (consume_float_suffix l) = pos l \/ pos l < length (src l)).
Proof.
  unfold consume_float_suffix, peek_is. rewrite Nat.add_0_r.
  destruct (opt_is _ "f" || _) eqn:E; simpl; repeat split; try lia.
  right. destruct (src l !! pos l) eqn:H; [by eapply lookup_lt_Some|done].
Qed.

(** A slice that grows by the byte under its end. *)
Lemma slice_snoc {A} (s : list A) i j x :
  i <= j -> s !! j = Some x -> slice i (j + 1) s = slice i j s ++ [x].
Proof.
  intros Hij Hx. unfold slice. replace (j + 1 - i) with (S (j - i)) by lia.
  apply take_S_r. rewrite lookup_drop. by replace (i + (j - i)) with j by lia.
Qed.

Lemma slice_cons {A} (s : list A) i j x :
  i < j -> s !! i = Some x -> slice i j s = x :: slice (i + 1) j s.
Proof.
  intros Hij Hx. unfold slice. replace (j - i) with (S (j - (i + 1))) by lia.
  rewrite (drop_S _ x) by done. simpl. by rewrite Nat.add_1_r.
Qed.

Lemma decimal_number_spec l c :
  src l !! pos l = Some c -> is_ascii_digit c || Ascii.eqb c "." = true ->
  step_post l (decimal_number l (pos l)).
Proof.
  intros Hc Hd. pose proof (lookup_lt_Some _ _ _ Hc) as Hlt. unfold decimal_number.
  rewrite (drop_S _ c) by done. destruct (number_loop_pos c (drop (S (pos l)) (src l)) Hd) as (n & d & e & Hn).
  rewrite Hn. pose proof (number_loop_mark _ _ _ _ _ _ Hn) as Hmark.
  apply number_loop_le in Hn. simpl in Hn. rewrite length_drop in Hn.
  set (l1 := set_pos l (pos l + S n)).
  destruct (d || e).
  - pose proof (consume_float_suffix_spec l1) as (Hs & Ht & Hp & Hp'). simpl in Hs, Ht, Hp, Hp'.
    rewrite Hs. destruct (parse_f64 _) as [v|] eqn:Hv; simpl.
    + rewrite Hs, Ht. repeat split; [lia..|]. exists (T_FloatLiteral v). split; [done|]. split; [done|].
      destruct (Hmark eq_refl) as [|Hm]; [done|]. rewrite existsb_exists in Hm |- *.
      destruct Hm as (x & Hx & ?). exists x. split; [|done].
      rewrite <- (drop_S _ c) in Hx by done. unfold slice.
      eapply In_take_mono; [exact Hx|lia].
    + unfold span_within; simpl; lia.
  - destruct (consume_uint_suffix l1) as [b l2] eqn:Hu.
    apply consume_uint_suffix_spec in Hu as (Hs & Ht & Hb). simpl in Hs, Ht, Hb. rewrite Hs.
    destruct b.
    + destruct Hb as (Hp & u & Hu & Hlu). pose proof (lookup_lt_Some _ _ _ Hlu).
      rewrite Hp, (slice_snoc _ _ _ u) by (done || lia). unfold parse_u64.
      rewrite from_str_radix_invalid by (by destruct Hu; subst u).
      simpl. unfold span_within; simpl; lia.
    + rewrite Hb. destruct (parse_i64 _) as [v|] eqn:Hv; simpl.
      * rewrite Hs, Ht, Hb. repeat split; [lia..|]. exists (T_IntLiteral v). simpl. auto.
      * unfold span_within; simpl; lia.
Qed.

Lemma hex_number_spec l x :
  src l !! pos l = Some "0"%char -> src l !! (pos l + 1) = Some x -> x = "x"%char \/ x = "X"%char ->
  step_post l (hex_number l (pos l)).
Proof.
  intros H0 H1 Hx. pose proof (lookup_lt_Some _ _ _ H1) as Hlt. unfold hex_number.
  set (n := count_while _ _).
  assert (n <= length (src l) - (pos l + 2)) as Hn.
  { etransitivity; [apply count_while_le|]. by rewrite length_drop. }
  cbn [set_pos pos src]. destruct (Nat.eqb_spec (pos l + 2 + n) (pos l + 2)).
  { simpl. unfold span_within; simpl; lia. }
  destruct (consume_uint_suffix _) as [b l2] eqn:Hu.
  apply consume_uint_suffix_spec in Hu as (Hs & Ht & Hb). cbn [set_pos pos src tokens] in Hs, Ht, Hb.
  assert (Hslice : forall q, pos l + 2 < q -> slice (pos l) q (src l) = "0"%char :: x :: slice (pos l + 2) q (src l)).
  { intros q Hq. rewrite (slice_cons _ _ _ "0"%char), (slice_cons _ _ _ x) by (done || lia).
    by replace (pos l + 1 + 1) with (pos l + 2) by lia. }
  destruct (from_str_radix 16 u64_max _) as [v|] eqn:Hv; simpl.
  2:{ unfold span_within; simpl. destruct b; [destruct Hb as (Hb & u & _ & Hlu); pose proof (lookup_lt_Some _ _ _ Hlu)|]; lia. }
  rewrite Hs, Ht. destruct b.
  - destruct Hb as (Hp & u & Hu & Hlu). pose proof (lookup_lt_Some _ _ _ Hlu).
    repeat split; [lia..|]. exists (T_UintLiteral v). split; [done|]. simpl.
    rewrite Hslice, Hp, (slice_snoc _ _ _ u) by (done || lia). eauto 10.
  - repeat split; [lia..|]. exists (T_IntLiteral (to_signed 64 v)). split; [done|]. simpl. right.
    rewrite Hslice by lia. rewrite Hb. eauto 10.
Qed.

Lemma number_spec l c :
  src l !! pos l = Some c -> is_ascii_digit c || Ascii.eqb c "." = true ->
  step_post l (number l (pos l)).
Proof.
  intros Hc Hd. unfold number. rewrite Hc. simpl.
  destruct (Ascii.eqb c "0" && _) eqn:E; [|by eapply decimal_number_spec].
  apply andb_prop in E as [->%eqb_ascii E]. unfold peek_is in E.
  apply orb_prop in E as [E|E]; apply opt_is_true in E; eapply hex_number_spec; eauto.
Qed.

Lemma find_snd {B C} (f : B * C -> bool) l k :
  snd <$> List.find f l = Some k -> exists x, In x l /\ f x = true /\ snd x = k.
Proof.
  destruct (List.find f l) as [x|] eqn:E; [|done]. intros [= <-].
  apply find_some in E as []. eauto.
Qed.

Lemma two_char_spells a b k : two_char a b = Some k -> spells k [a; b].
Proof.
  intros H. pose proof H as H'. apply find_snd in H' as (x & Hin & _ & <-).
  simpl in Hin. repeat destruct Hin as [<-|Hin]; try done; left; eauto.
Qed.

Lemma one_char_spells a k : one_char a = Some k -> spells k [a].
Proof.
  intros H. pose proof H as H'. apply find_snd in H' as (x & Hin & _ & <-).
  simpl in Hin. repeat destruct Hin as [<-|Hin]; try done; right; eauto.
Qed.

Lemma classify_ident_spells t c r :
  t = c :: r -> ident_start c = true -> forallb ident_char t = true ->
  spells (classify_ident (string_of_list_ascii t)) t.
Proof.
  intros -> Hc Hall. remember (c :: r) as t eqn:Ht.
  assert (exists c r, t = c :: r /\ ident_start c = true) as Hex by eauto.
  assert (forall k, classify_ident (string_of_list_ascii t) = k ->
    match k with T_Ident _ | T_Keyword _ | T_Semantic _ | T_BoolLiteral _ => True | _ => False end) as Hk.
  { intros k. unfold classify_ident.
    destruct (assoc _ _) eqn:E.
    - intros <-. apply find_snd in E as (x & Hin & _ & <-). simpl in Hin.
      repeat destruct Hin as [<-|Hin]; done.
    - intros <-. destruct (strip_prefix _ _); [destruct (String.eqb _ _); [done|]; destruct (_ && _)|];
        try done; by destruct (is_semantic _). }
  specialize (Hk _ eq_refl). destruct (classify_ident _) eqn:E; try done; simpl; auto.
Qed.

Lemma ident_char_start c : ident_start c = true -> ident_char c = true.
Proof.
  unfold ident_start, ident_char, is_ascii_alphanumeric. intros [-> | ->]%orb_prop; [done|apply orb_true_r].
Qed.

Lemma ident_spec l c :
  src l !! pos l = Some c -> ident_start c = true -> step_post l (Ok (ident l (pos l))).
Proof.
  intros Hc Hs. pose proof (lookup_lt_Some _ _ _ Hc) as Hlt.
  set (n := count_while ident_char (drop (pos l) (src l))).
  assert (1 <= n <= length (src l) - pos l) as Hn.
  { split.
    - unfold n. rewrite (drop_S _ c) by done. simpl. rewrite (ident_char_start c Hs). lia.
    - unfold n. etransitivity; [apply count_while_le|]. by rewrite length_drop. }
  simpl. fold n. repeat split; [lia..|]. eexists; split; [reflexivity|].
  eapply (classify_ident_spells _ c); [apply (slice_cons _ _ _ c); [lia|done]|done|].
  unfold slice. replace (pos l + n - pos l) with n by lia. apply count_while_take.
Qed.

Lemma op_spec l c : src l !! pos l = Some c -> step_post l (op l (pos l)).
Proof.
  intros Hc. pose proof (lookup_lt_Some _ _ _ Hc) as Hlt. unfold op. rewrite Hc. simpl.
  unfold peek_is; simpl. rewrite Nat.add_0_r.
  assert (Hone : step_post l
    match one_char c with
    | Some k => Ok (mkLexer (src l) (pos l + 1) (tokens l ++ [mkToken k (mkSpan (pos l) (pos l + 1))]))
    | None => Err (err (pos l) (pos l + 1) [P_lit "unexpected character "; P_byte c])
    end).
  { destruct (one_char c) as [k|] eqn:Hk; simpl; [|unfold span_within; simpl; lia].
    repeat split; [lia..|]. exists k. split; [done|].
    rewrite (slice_cons _ _ _ c) by (done || lia). unfold slice.
    rewrite Nat.sub_diag. by apply one_char_spells. }
  destruct (src l !! (pos l + 1)) as [n|] eqn:Hn.
  - pose proof (lookup_lt_Some _ _ _ Hn). destruct (two_char c n) as [k|] eqn:Hk; [|done].
    simpl. repeat split; [lia..|]. exists k. split; [done|].
    rewrite (slice_cons _ _ _ c), (slice_cons _ _ _ n) by (done || lia). unfold slice.
    replace (_ - _) with 0 by lia. by apply two_char_spells.
  - replace (two_char c "000") with (@None TokenKind); [done|].
    unfold two_char; simpl. by rewrite !andb_false_r.
Qed.

Lemma run_step_spec l : pos l < length (src l) -> step_post l (run_step l).
Proof.
  intros Hlt. destruct (lookup_lt_is_Some_2 _ _ Hlt) as [c Hc]. unfold run_step. rewrite Hc. simpl.
  destruct (is_ascii_digit c || _) eqn:Hnum.
  { eapply number_spec; [done|]. apply orb_prop in Hnum as [-> |Hnum]; [done|].
    apply andb_prop in Hnum as [-> _]. apply orb_true_r. }
  destruct (Ascii.eqb c "034"); [simpl; unfold span_within; simpl; lia|].
  destruct (ident_start c) eqn:Hi; [by eapply ident_spec|by eapply op_spec].
Qed.

(** The loop keeps the tokens tiled up to the last lexeme. *)
Lemma run_loop_spec fuel l q :
  pos l <= length (src l) -> length (src l) - pos l < fuel ->
  tiles (src l) 0 (tokens l) q -> trivia (src l) q (pos l) ->
  match run_loop fuel l with
  | Ok l' => src l' = src l /\ pos l' = length (src l) /\
             exists q', tiles (src l) 0 (tokens l') q' /\ trivia (src l) q' (length (src l))
  | Err e => span_within (length (src l)) (le_span e)
  | _ => False
  end.
Proof.
  revert l q. induction fuel as [|fuel IH]; intros l q Hpos Hfuel Htiles Htr; [lia|]. simpl.
  destruct (Nat.ltb_spec (pos l) (length (src l))) as [Hlt|Hge].
  2:{ replace (pos l) with (length (src l)) in * by lia. repeat split; eauto. }
  unfold skip_ws_and_comments.
  pose proof (skip_loop_spec (S (length (src l))) l Hpos ltac:(lia)) as Hskip.
  destruct (skip_loop _ l) as [l1|e| |]; simpl; try done.
  destruct Hskip as (Hs1 & Ht1 & Hp1 & Htr1). rewrite Hs1.
  assert (trivia (src l) q (pos l1)) as Htr' by by eapply trivia_trans.
  destruct (Nat.leb_spec (length (src l)) (pos l1)).
  { split_and!; [done|lia|]. exists q. rewrite Ht1. split; [done|].
    by replace (length (src l)) with (pos l1) by lia. }
  pose proof (run_step_spec l1 ltac:(by rewrite Hs1)) as Hstep.
  destruct (run_step l1) as [l2|e| |]; simpl in Hstep; [|by rewrite Hs1 in Hstep|done..].
  rewrite Hs1 in Hstep. simpl.
  destruct Hstep as (Hs2 & Hp2 & k & Ht2 & Hk).
  specialize (IH l2 (pos l2)). rewrite Hs2 in IH. apply IH; [lia..| |constructor].
  rewrite Ht2, Ht1. pose proof (tiles_snoc (src l) 0 (tokens l) q
    (mkToken k (mkSpan (pos l1) (pos l2)))) as Hsnoc. simpl in Hsnoc. apply Hsnoc; auto; lia.
Qed.

(** ** Lexing a text that is known to be a lexeme *)

Lemma slice_of_drop {A} i (s t r : list A) : drop i s = t ++ r -> slice i (i + length t) s = t.
Proof.
  intros H. unfold slice. rewrite H. replace (i + length t - i) with (length t) by lia.
  apply take_app_length.
Qed.

Lemma digits_loop_digits radix max acc t v :
  digits_loop radix max acc t = Some v ->
  forallb (fun c => match digit_val c with Some d => (d <? radix)%Z | None => false end) t = true.
Proof.
  revert acc. induction t as [|c t IH]; simpl; intros acc; [done|].
  destruct (digit_val c) as [d|]; [|done]. destruct (Z.leb_spec radix d); [done|].
  destruct (max <? _)%Z; [done|]. intros Ht%IH. rewrite Ht, andb_true_r. by apply Z.ltb_lt.
Qed.

Lemma forallb_impl {A} (f g : A -> bool) l :
  (forall x, f x = true -> g x = true) -> forallb f l = true -> forallb g l = true.
Proof. rewrite !forallb_forall. auto. Qed.

(** Facts about one byte are decided by running through the 256 bytes. *)
Lemma all_ascii (P : ascii -> bool) :
  forallb (fun n => P (ascii_of_nat n)) (seq 0 256) = true -> forall c, P c = true.
Proof.
  rewrite forallb_forall. intros H c. rewrite <- (ascii_nat_embedding c). apply H.
  apply in_seq. pose proof (nat_ascii_bounded c). lia.
Qed.

Lemma digit_val_dec c :
  match digit_val c with Some d => (d <? 10)%Z | None => false end = is_ascii_digit c.
Proof.
  apply eqb_prop. revert c. apply all_ascii. by vm_compute.
Qed.

Lemma digit_val_hex c :
  match digit_val c with Some d => (d <? 16)%Z | None => false end = is_ascii_hexdigit c.
Proof.
  apply eqb_prop. revert c. apply all_ascii. by vm_compute.
Qed.

Lemma from_str_radix_shape radix max t v :
  from_str_radix radix max t = Some v -> t <> [] /\
  forallb (fun c => match digit_val c with Some d => (d <? radix)%Z | None => false end) t = true.
Proof. unfold from_str_radix. destruct t; [done|]. intros H%digits_loop_digits. done. Qed.

Lemma number_loop_digits ds l d e :
  forallb is_ascii_digit ds = true ->
  number_loop (ds ++ l) d e = let '(n, d', e') := number_loop l d e in (length ds + n, d', e').
Proof.
  induction ds as [|c ds IH]; simpl; [by destruct (number_loop l d e) as [[? ?] ?]|].
  intros [-> Hds]%andb_prop. rewrite IH by done. by destruct (number_loop l d e) as [[? ?] ?].
Qed.

(** A byte at which the decimal loop stops, whatever it has seen. *)
Definition number_stop (c : ascii) : bool :=
  negb (is_ascii_digit c || float_mark c).

Lemma number_loop_stop c l d e : number_stop c = true -> number_loop (c :: l) d e = (0, d, e).
Proof.
  unfold number_stop, float_mark. intros H. simpl.
  destruct (is_ascii_digit c), (Ascii.eqb c "."), (Ascii.eqb c "e"), (Ascii.eqb c "E"); done.
Qed.

(** The texts that [f64::from_str] accepts. *)
Record float_shape (t ip dot fp ex : list ascii) : Prop := {
  fs_eq : t = ip ++ dot ++ fp ++ ex;
  fs_ip : forallb is_ascii_digit ip = true;
  fs_fp : forallb is_ascii_digit fp = true;
  fs_dot : (dot = [] /\ fp = []) \/ dot = ["."%char];
  fs_ne : ip ++ fp <> [];
  fs_ex : ex = [] \/ exists c s ds, ex = c :: s ++ ds /\ (c = "e" \/ c = "E")%char /\
            (s = [] \/ s = ["+"] \/ s = ["-"])%char /\ ds <> [] /\ forallb is_ascii_digit ds = true
}.

Lemma parse_exponent_shape ex e :
  parse_exponent ex = Some e ->
  ex = [] \/ exists c s ds, ex = c :: s ++ ds /\ (c = "e" \/ c = "E")%char /\
    (s = [] \/ s = ["+"] \/ s = ["-"])%char /\ ds <> [] /\ forallb is_ascii_digit ds = true.
Proof.
  destruct ex as [|c l]; [by left|]. simpl.
  destruct (Ascii.eqb c "e" || Ascii.eqb c "E") eqn:Hc; [|done]. intros H. right.
  assert (c = "e" \/ c = "E")%char as Hc'.
  { apply orb_prop in Hc as [->%eqb_ascii | ->%eqb_ascii]; auto. }
  assert (Hds : forall sg ds, match ds with [] => None
      | _ => if forallb is_ascii_digit ds then Some (sg * dec_value ds)%Z else None end = Some e ->
      ds <> [] /\ forallb is_ascii_digit ds = true).
  { intros sg [|x ds]; [done|]. by destruct (forallb _ _). }
  destruct l as [|x r]; [done|].
  destruct (Ascii.eqb x "-") eqn:Hm; [|destruct (Ascii.eqb x "+") eqn:Hp].
  - apply eqb_ascii in Hm as ->. apply Hds in H as []. exists c, ["-"%char], r. auto 10.
  - apply eqb_ascii in Hp as ->. apply Hds in H as []. exists c, ["+"%char], r. auto 10.
  - apply (Hds 1%Z (x :: r)) in H as []. exists c, [], (x :: r). auto 10.
Qed.

Lemma parse_f64_shape t v : parse_f64 t = Some v -> exists ip dot fp ex, float_shape t ip dot fp ex.
Proof.
  unfold parse_f64. set (n := count_while is_ascii_digit t).
  pose proof (take_drop n t) as Ht. pose proof (count_while_take is_ascii_digit t) as Hip. fold n in Hip.
  revert Ht Hip. generalize (take n t) (drop n t). intros ip r Ht Hip H.
  assert (exists dot fp ex, r = dot ++ fp ++ ex /\ ((dot = [] /\ fp = []) \/ dot = ["."%char]) /\
    forallb is_ascii_digit fp = true /\ ip ++ fp <> [] /\ exists e, parse_exponent ex = Some e)
    as (dot & fp & ex & -> & Hdot & Hfp & Hne & e & He).
  { destruct r as [|c r1]; [|destruct (Ascii.eqb c ".") eqn:Hc].
    - exists [], [], []. destruct ip; [done|]. split_and!; eauto; done.
    - apply eqb_ascii in Hc as ->. set (k := count_while is_ascii_digit r1) in *.
      exists ["."%char], (take k r1), (drop k r1). split_and!; [by rewrite take_drop|by right| | |].
      + apply count_while_take.
      + by destruct (ip ++ take k r1).
      + destruct (ip ++ take k r1); [done|]. destruct (parse_exponent _); eauto. done.
    - exists [], [], (c :: r1). rewrite app_nil_r in *. split_and!; auto; destruct ip; try done.
      destruct (parse_exponent _); eauto; done. }
  exists ip, dot, fp, ex. constructor; auto. by eapply parse_exponent_shape.
Qed.

(** The decimal loop consumes exactly a float text, and sees a mark in it. *)
Lemma number_loop_float t ip dot fp ex c r :
  float_shape t ip dot fp ex -> existsb float_mark t = true -> number_stop c = true ->
  exists d e, number_loop (t ++ c :: r) false false = (length t, d, e) /\ d || e = true.
Proof.
  intros [-> Hip Hfp Hdot Hne Hex] Hmark Hc.
  assert (Hex' : forall d, exists d' e', number_loop (ex ++ c :: r) d false = (length ex, d', e') /\
    d' || e' = d || match ex with [] => false | _ => true end).
  { intros d. destruct Hex as [->|(x & s & ds & -> & Hx & Hs & Hds & Hdd)].
    - exists d, false. cbn [app]. rewrite number_loop_stop by done. split; [done|by destruct d].
    - exists true, true. split; [|by destruct d]. destruct ds as [|y ds]; [done|].
      pose proof Hdd as Hdd'. simpl in Hdd. apply andb_prop in Hdd as [Hy Hdd].
      assert (Ascii.eqb y "+" || Ascii.eqb y "-" = false) as Hy'.
      { revert Hy. clear. revert y. intros y Hy. apply negb_true_iff.
        pose proof (all_ascii (fun y => implb (is_ascii_digit y) (negb (Ascii.eqb y "+" || Ascii.eqb y "-")))
          ltac:(by vm_compute) y) as H. simpl in H. rewrite Hy in H. done. }
      assert (Hrest : number_loop ((y :: ds) ++ c :: r) true true = (length (y :: ds), true, true)).
      { rewrite number_loop_digits, number_loop_stop by done. f_equal. f_equal. lia. }
      destruct Hx as [-> | ->]; destruct Hs as [->|[-> | ->]]; simpl in Hrest |- *;
        rewrite ?Hy'; simpl; rewrite Hrest; done. }
  rewrite <- !app_assoc, number_loop_digits by done.
  destruct Hdot as [[-> ->]| ->]; simpl app.
  - destruct (Hex' false) as (d & e & -> & Hde). exists d, e. rewrite !length_app. split; [done|].
    rewrite Hde. destruct Hex as [->|(x & s & ds & -> & _)]; [|done].
    rewrite !existsb_app in Hmark. simpl in Hmark. rewrite !orb_false_r in Hmark.
    apply existsb_exists in Hmark as (y & Hy & Hm). rewrite forallb_forall in Hip.
    specialize (Hip y Hy).
    pose proof (all_ascii (fun y => implb (is_ascii_digit y) (negb (float_mark y)))
      ltac:(by vm_compute) y) as H. simpl in H. by rewrite Hip, Hm in H.
  - simpl. rewrite number_loop_digits by done.
    destruct (Hex' true) as (d & e & -> & Hde). exists d, e. rewrite Hde.
    rewrite !length_app. simpl. rewrite length_app. split; [|done]. repeat f_equal; lia.
Qed.

(** The state after one token of text [t] and kind [k]. *)
Definition after (l : Lexer) (k : TokenKind) (t : list ascii) : Lexer :=
  mkLexer (src l) (pos l + length t)
    (tokens l ++ [mkToken k (mkSpan (pos l) (pos l + length t))]).

(** The remaining input is the lexeme [t] and then a blank. *)
Definition at_lexeme (l : Lexer) (t r : list ascii) : Prop := drop (pos l) (src l) = t ++ " "%char :: r.

Lemma at_lexeme_next l t r : at_lexeme l t r -> src l !! (pos l + length t) = Some " "%char.
Proof.
  intros H. rewrite <- lookup_drop, H. rewrite lookup_app_r by lia.
  by rewrite Nat.sub_diag.
Qed.

Lemma at_lexeme_slice l t r : at_lexeme l t r -> slice (pos l) (pos l + length t) (src l) = t.
Proof. apply slice_of_drop. Qed.

Lemma no_uint_suffix l t r :
  at_lexeme l t r ->
  consume_uint_suffix (set_pos l (pos l + length t)) = (false, set_pos l (pos l + length t)).
Proof.
  intros H%at_lexeme_next. unfold consume_uint_suffix, peek_is; simpl. by rewrite Nat.add_0_r, H.
Qed.

Lemma decimal_int_complete l t r v :
  at_lexeme l t r -> parse_i64 t = Some v -> decimal_number l (pos l) = Ok (after l (T_IntLiteral v) t).
Proof.
  intros H Hv. unfold decimal_number. rewrite H. pose proof Hv as Hv'.
  apply from_str_radix_shape in Hv as [Hne Hdig].
  apply (forallb_impl _ is_ascii_digit) in Hdig; [|intros x; by rewrite digit_val_dec].
  rewrite number_loop_digits, number_loop_stop by done. rewrite Nat.add_0_r. simpl orb.
  cbv beta iota zeta. rewrite (no_uint_suffix _ _ _ H).
  cbn [set_pos pos src]. rewrite (at_lexeme_slice _ _ _ H), Hv'. done.
Qed.

Lemma float_complete l t r v :
  at_lexeme l t r -> parse_f64 t = Some v -> existsb float_mark t = true ->
  decimal_number l (pos l) = Ok (after l (T_FloatLiteral v) t).
Proof.
  intros H Hv Hm. unfold decimal_number. rewrite H.
  destruct (parse_f64_shape _ _ Hv) as (ip & dot & fp & ex & Hshape).
  destruct (number_loop_float _ _ _ _ _ " "%char r Hshape Hm eq_refl) as (d & e & Hn & Hde).
  rewrite Hn, Hde. unfold consume_float_suffix, peek_is; simpl.
  rewrite Nat.add_0_r, (at_lexeme_next _ _ _ H). simpl.
  by rewrite (at_lexeme_slice _ _ _ H), Hv.
Qed.

Lemma at_lexeme_lookup l t r i : at_lexeme l t r -> src l !! (pos l + i) = (t ++ " "%char :: r) !! i.
Proof. intros H. by rewrite <- lookup_drop, H. Qed.

Lemma hex_scan l x h sfx r :
  at_lexeme l ("0"%char :: x :: h ++ sfx) r -> forallb is_ascii_hexdigit h = true ->
  (sfx = [] \/ exists u, sfx = [u] /\ is_ascii_hexdigit u = false) ->
  count_while is_ascii_hexdigit (drop (pos l + 2) (src l)) = length h /\
  slice (pos l + 2) (pos l + 2 + length h) (src l) = h.
Proof.
  intros H Hh Hs.
  assert (drop (pos l + 2) (src l) = h ++ sfx ++ " "%char :: r) as Hd.
  { rewrite <- drop_drop, H. simpl. by rewrite <- app_assoc. }
  split; [|by eapply slice_of_drop].
  rewrite Hd. destruct Hs as [->|(u & -> & Hu)]; by apply count_while_app_stop.
Qed.

Lemma hex_int_complete l x h r v :
  at_lexeme l ("0"%char :: x :: h) r -> from_str_radix 16 u64_max h = Some v ->
  hex_number l (pos l) = Ok (after l (T_IntLiteral (to_signed 64 v)) ("0"%char :: x :: h)).
Proof.
  intros H Hv. destruct (from_str_radix_shape _ _ _ _ Hv) as [Hne Hh].
  apply (forallb_impl _ is_ascii_hexdigit) in Hh; [|intros y; by rewrite digit_val_hex].
  destruct (hex_scan l x h [] r) as [Hc Hsl]; [by rewrite app_nil_r|done|by left|].
  unfold hex_number. rewrite Hc. cbn [set_pos pos src].
  destruct (Nat.eqb_spec (pos l + 2 + length h) (pos l + 2)); [destruct h; simpl in *; [done|lia]|].
  replace (pos l + 2 + length h) with (pos l + length ("0"%char :: x :: h)) in * by (simpl; lia).
  rewrite Hsl. rewrite (no_uint_suffix _ _ _ H). by rewrite Hv.
Qed.

Lemma hex_uint_complete l x h u r v :
  at_lexeme l ("0"%char :: x :: h ++ [u]) r -> (u = "u" \/ u = "U")%char ->
  from_str_radix 16 u64_max h = Some v ->
  hex_number l (pos l) = Ok (after l (T_UintLiteral v) ("0"%char :: x :: h ++ [u])).
Proof.
  intros H Hu Hv. destruct (from_str_radix_shape _ _ _ _ Hv) as [Hne Hh].
  apply (forallb_impl _ is_ascii_hexdigit) in Hh; [|intros y; by rewrite digit_val_hex].
  destruct (hex_scan l x h [u] r) as [Hc Hsl]; [done|done|right; exists u; destruct Hu; by subst|].
  unfold hex_number. rewrite Hc. cbn [set_pos pos src].
  destruct (Nat.eqb_spec (pos l + 2 + length h) (pos l + 2)); [destruct h; simpl in *; [done|lia]|].
  rewrite Hsl. unfold consume_uint_suffix, peek_is. cbn [set_pos pos src]. rewrite Nat.add_0_r.
  rewrite <- Nat.add_assoc, (at_lexeme_lookup _ _ _ _ H). simpl lookup.
  rewrite lookup_app_l by (rewrite length_app; simpl; lia).
  rewrite lookup_app_r, Nat.sub_diag by lia. simpl.
  unfold after. simpl length. rewrite length_app. simpl length.
  destruct Hu as [-> | ->]; simpl; rewrite Hv; unfold emit; simpl;
    by replace (pos l + S (S (length h)) + 1) with (pos l + S (S (length h + 1))) by lia.
Qed.

Lemma ident_complete l c t r :
  at_lexeme l (c :: t) r -> forallb ident_char (c :: t) = true ->
  ident l (pos l) = after l (classify_ident (string_of_list_ascii (c :: t))) (c :: t).
Proof.
  intros H Hall. unfold ident. rewrite H, count_while_app_stop by done.
  cbn [set_pos pos src]. by rewrite (at_lexeme_slice _ _ _ H).
Qed.

(** The first byte of an operator starts neither a number, a word nor a string. *)
Definition op_start (c : ascii) : bool :=
  negb (is_ascii_digit c || ident_start c || Ascii.eqb c "034").

Lemma two_char_start a b k :
  two_char a b = Some k -> op_start a && negb (Ascii.eqb a ".") && negb (is_ascii_digit b) = true.
Proof.
  intros H. apply find_snd in H as (x & Hin & Hx & _). rewrite !andb_true_iff, !eqb_ascii in Hx.
  destruct Hx as [<- <-]. simpl in Hin. repeat destruct Hin as [<-|Hin]; done.
Qed.

Lemma one_char_start a k : one_char a = Some k -> op_start a = true.
Proof.
  intros H. apply find_snd in H as (x & Hin & Hx & _). rewrite eqb_ascii in Hx. subst.
  simpl in Hin. repeat destruct Hin as [<-|Hin]; done.
Qed.

Lemma two_char_blank a : two_char a " " = None.
Proof. unfold two_char; simpl. by rewrite !andb_false_r. Qed.

Lemma op_complete l t r k :
  at_lexeme l t r ->
  (exists a b, t = [a; b] /\ two_char a b = Some k) \/ (exists a, t = [a] /\ one_char a = Some k) ->
  op l (pos l) = Ok (after l k t).
Proof.
  intros H Hk. unfold op, peek_is. pose proof (at_lexeme_lookup _ _ _ 0 H) as H0.
  pose proof (at_lexeme_lookup _ _ _ 1 H) as H1. rewrite Nat.add_0_r in H0. rewrite H0.
  destruct Hk as [(a & b & -> & Hk)|(a & -> & Hk)]; simpl; rewrite Nat.add_0_r, H1; simpl.
  - rewrite Hk. unfold emit, after; simpl. by rewrite <- Nat.add_assoc.
  - by rewrite two_char_blank, Hk.
Qed.

Lemma run_step_number l c r :
  drop (pos l) (src l) = c :: r ->
  is_ascii_digit c || (Ascii.eqb c "." && match r with n :: _ => is_ascii_digit n | [] => false end) = true ->
  run_step l = number l (pos l).
Proof.
  intros H Hc. unfold run_step, peek_is. pose proof (drop_cons_lookup _ _ _ _ H) as [H0 H1].
  rewrite H0. simpl. rewrite Nat.add_1_r.
  assert (src l !! S (pos l) = match r with n :: _ => Some n | [] => None end) as ->.
  { rewrite <- (Nat.add_0_r (S _)), <- lookup_drop, H1. by destruct r. }
  destruct r; by rewrite Hc.
Qed.

Lemma run_step_word l c t r :
  at_lexeme l (c :: t) r -> ident_start c = true -> forallb ident_char (c :: t) = true ->
  run_step l = Ok (after l (classify_ident (string_of_list_ascii (c :: t))) (c :: t)).
Proof.
  intros H Hs Hall. unfold run_step. pose proof (at_lexeme_lookup _ _ _ 0 H) as H0.
  rewrite Nat.add_0_r in H0. rewrite H0. simpl obind.
  pose proof (all_ascii (fun c => implb (ident_start c)
    (negb (is_ascii_digit c || Ascii.eqb c "." || Ascii.eqb c "034"))) ltac:(by vm_compute) c) as Hc.
  simpl in Hc. rewrite Hs in Hc. simpl in Hc. apply negb_true_iff in Hc.
  apply orb_false_iff in Hc as [[-> ->]%orb_false_iff ->]. rewrite Hs. simpl.
  by rewrite (ident_complete _ _ _ _ H Hall).
Qed.

Lemma run_step_op l t r k :
  at_lexeme l t r ->
  (exists a b, t = [a; b] /\ two_char a b = Some k) \/ (exists a, t = [a] /\ one_char a = Some k) ->
  run_step l = Ok (after l k t).
Proof.
  intros H Hk. rewrite <- (op_complete _ _ _ _ H Hk). unfold run_step, peek_is.
  pose proof (at_lexeme_lookup _ _ _ 0 H) as H0. rewrite Nat.add_0_r in H0.
  rewrite (at_lexeme_lookup _ _ _ 1 H), H0.
  assert (exists a, t !! 0 = Some a /\ op_start a = true /\
    (Ascii.eqb a "." && match (t ++ " "%char :: r) !! 1 with Some n => is_ascii_digit n | None => false end) = false)
    as (a & Ha & Hop & Hdot).
  { destruct Hk as [(a & b & -> & Hk)|(a & -> & Hk)]; exists a; (split; [done|]).
    - apply two_char_start in Hk. rewrite !andb_true_iff in Hk. destruct Hk as [[? Hk] _].
      apply negb_true_iff in Hk. by rewrite Hk.
    - apply one_char_start in Hk. split; [done|]. simpl. apply andb_false_r. }
  rewrite lookup_app_l by (by eapply lookup_lt_Some). rewrite Ha. simpl obind. rewrite Hdot.
  unfold op_start in Hop. apply negb_true_iff, orb_false_iff in Hop as [[-> ->]%orb_false_iff ->].
  done.
Qed.

Definition not_x (c : ascii) : bool := negb (Ascii.eqb c "x" || Ascii.eqb c "X").
Definition head_is (f : ascii -> bool) (l : list ascii) : bool :=
  match l with c :: _ => f c | [] => false end.

Lemma digit_not_x c : is_ascii_digit c = true -> not_x c = true.
Proof.
  pose proof (all_ascii (fun c => implb (is_ascii_digit c) (not_x c)) ltac:(by vm_compute) c) as H.
  simpl in H. by intros Hc; rewrite Hc in H.
Qed.

Lemma head_is_digits ds l :
  forallb is_ascii_digit ds = true -> head_is not_x l = true -> head_is not_x (ds ++ l) = true.
Proof. destruct ds as [|c ds]; simpl; [done|]. intros [Hc _]%andb_prop _. by apply digit_not_x. Qed.

Lemma run_step_decimal l c r :
  drop (pos l) (src l) = c :: r ->
  is_ascii_digit c || (Ascii.eqb c "." && head_is is_ascii_digit r) = true ->
  head_is not_x r = true ->
  run_step l = decimal_number l (pos l).
Proof.
  intros H Hc Hx. rewrite (run_step_number _ _ _ H Hc). unfold number, peek_is.
  apply drop_cons_lookup in H as [H0 H1]. rewrite H0. simpl obind.
  destruct r as [|x r]; [done|]. apply drop_cons_lookup in H1 as [H1 _].
  rewrite Nat.add_1_r, H1. simpl. unfold head_is, not_x in Hx. apply negb_true_iff in Hx.
  by rewrite Hx, andb_false_r.
Qed.

Lemma run_step_hex l x h r :
  at_lexeme l ("0"%char :: x :: h) r -> (x = "x" \/ x = "X")%char -> run_step l = hex_number l (pos l).
Proof.
  intros H Hx. rewrite (run_step_number l "0" (x :: h ++ " "%char :: r)) by done.
  unfold number, peek_is. rewrite (at_lexeme_lookup _ _ _ 1 H).
  pose proof (at_lexeme_lookup _ _ _ 0 H) as H0. rewrite Nat.add_0_r in H0. rewrite H0. simpl.
  by destruct Hx as [-> | ->].
Qed.

Lemma run_step_int l t r v :
  at_lexeme l t r -> parse_i64 t = Some v -> run_step l = Ok (after l (T_IntLiteral v) t).
Proof.
  intros H Hv. pose proof Hv as Hd. apply from_str_radix_shape in Hd as [Hne Hd].
  apply (forallb_impl _ is_ascii_digit) in Hd; [|intros x; by rewrite digit_val_dec].
  destruct t as [|c t]; [done|]. simpl in Hd. apply andb_prop in Hd as [Hc Hd].
  rewrite (run_step_decimal l c (t ++ " "%char :: r)); [by eapply decimal_int_complete|done|by rewrite Hc|].
  by apply head_is_digits.
Qed.

Lemma float_shape_start t ip dot fp ex b rest :
  float_shape t ip dot fp ex -> not_x b = true -> exists c r, t ++ b :: rest = c :: r /\
    is_ascii_digit c || (Ascii.eqb c "." && head_is is_ascii_digit r) = true /\ head_is not_x r = true.
Proof.
  intros [-> Hip Hfp Hdot Hne Hex] Hb. rewrite <- !app_assoc.
  assert (Hexx : head_is not_x (ex ++ b :: rest) = true).
  { destruct Hex as [->|(c & s & ds & -> & Hc & _)]; [done|]. by destruct Hc as [-> | ->]. }
  destruct ip as [|c ip]; simpl in *.
  - destruct Hdot as [[-> ->]| ->]; [done|]. exists "."%char, (fp ++ ex ++ b :: rest).
    split_and!; [done| |by apply head_is_digits].
    destruct fp as [|c fp]; [done|]. simpl in *. by apply andb_prop in Hfp as [-> _].
  - apply andb_prop in Hip as [Hc Hip]. exists c, (ip ++ dot ++ fp ++ ex ++ b :: rest).
    split_and!; [done|by rewrite Hc|]. apply head_is_digits; [done|].
    by destruct Hdot as [[-> ->]| ->].
Qed.

(** Every byte of a float text is a digit, a mark or a sign: no suffix fits. *)
Definition float_byte (c : ascii) : bool :=
  is_ascii_digit c || float_mark c || Ascii.eqb c "+" || Ascii.eqb c "-".

Lemma digits_float_bytes ds : forallb is_ascii_digit ds = true -> forallb float_byte ds = true.
Proof. apply forallb_impl. unfold float_byte. by intros c ->. Qed.

Lemma parse_f64_bytes t v : parse_f64 t = Some v -> forallb float_byte t = true.
Proof.
  intros (ip & dot & fp & ex & [-> Hip Hfp Hdot _ Hex])%parse_f64_shape.
  rewrite !forallb_app, (digits_float_bytes ip), (digits_float_bytes fp) by done.
  replace (forallb float_byte dot) with true by (by destruct Hdot as [[-> _]| ->]).
  destruct Hex as [->|(c & s & ds & -> & Hc & Hs & _ & Hds)]; [done|]. simpl.
  rewrite forallb_app, (digits_float_bytes ds) by done.
  by destruct Hc as [-> | ->], Hs as [->|[-> | ->]].
Qed.

Lemma run_step_float l t r v :
  at_lexeme l t r -> parse_f64 t = Some v -> existsb float_mark t = true ->
  run_step l = Ok (after l (T_FloatLiteral v) t).
Proof.
  intros H Hv Hm. destruct (parse_f64_shape _ _ Hv) as (ip & dot & fp & ex & Hshape).
  destruct (float_shape_start _ _ _ _ _ " "%char r Hshape eq_refl) as (c & r' & Heq & Hc & Hx).
  rewrite (run_step_decimal l c r'); [by eapply float_complete|by rewrite <- Heq|done..].
Qed.

Lemma run_step_complete l k t r :
  at_lexeme l t r -> spells k t -> run_step l = Ok (after l k t).
Proof.
  intros H Hk.
  assert (Hword : (exists c r0, t = c :: r0 /\ ident_start c = true) /\ forallb ident_char t = true /\
    classify_ident (string_of_list_ascii t) = k -> run_step l = Ok (after l k t)).
  { intros [(c & r0 & -> & Hc) [Hall <-]]. by eapply run_step_word. }
  destruct k; try (by apply Hword); try (by eapply run_step_op).
  - destruct Hk as [Hv|(x & h & u & -> & Hx & Hu & ->)]; [by eapply run_step_int|].
    rewrite (run_step_hex _ _ _ _ H Hx). by eapply hex_int_complete.
  - destruct Hk as (x & h & u & -> & Hx & Hu & Hv).
    rewrite (run_step_hex _ _ _ _ H Hx). by eapply hex_uint_complete.
  - destruct Hk. by eapply run_step_float.
Qed.

(** ** Blanks between lexemes *)

(** A lexeme followed by a blank is not skipped: it starts neither white space
    nor a comment. *)
Definition skip_stops (t : list ascii) : bool :=
  match t with
  | c :: r => negb (is_ascii_whitespace c) &&
      negb (Ascii.eqb c "/" && head_is (fun d => Ascii.eqb d "/" || Ascii.eqb d "*") r)
  | [] => false
  end.

Lemma spells_skip_stops k t r : spells k t -> skip_stops (t ++ " "%char :: r) = true.
Proof.
  intros H.
  assert (Hgen : forall c, negb (is_ascii_whitespace c) && negb (Ascii.eqb c "/") = true ->
    forall r, skip_stops (c :: r) = true).
  { intros c Hc r'. apply andb_prop in Hc as [Hc1 Hc2]. simpl. rewrite Hc1. apply negb_true_iff in Hc2.
    by rewrite Hc2. }
  assert (Hdig : forall c, is_ascii_digit c || Ascii.eqb c "." || ident_start c = true ->
    forall r, skip_stops (c :: r) = true).
  { intros c Hc r'. apply Hgen. pose proof (all_ascii (fun c =>
      implb (is_ascii_digit c || Ascii.eqb c "." || ident_start c)
        (negb (is_ascii_whitespace c) && negb (Ascii.eqb c "/"))) ltac:(by vm_compute) c) as Hf.
    simpl in Hf. by rewrite Hc in Hf. }
  assert (Hw : (exists c r0, t = c :: r0 /\ ident_start c = true) -> skip_stops (t ++ " "%char :: r) = true).
  { intros (c & r0 & -> & Hc). simpl app. apply Hdig. rewrite Hc. apply orb_true_r. }
  assert (Hop : (exists a b, t = [a; b] /\ two_char a b = Some k) \/ (exists a, t = [a] /\ one_char a = Some k) ->
    skip_stops (t ++ " "%char :: r) = true).
  { intros [(a & b & -> & Hk)|(a & -> & Hk)]; apply find_snd in Hk as (x & Hin & Hx & _);
      rewrite ?andb_true_iff, ?eqb_ascii in Hx; [destruct Hx as [<- <-]|subst];
      simpl in Hin; repeat destruct Hin as [<-|Hin]; done. }
  destruct k; try (by apply Hop); try (by destruct H as [? _]; auto).
  - destruct H as [Hv|(x & h & u & -> & _)]; [|by apply Hdig].
    apply from_str_radix_shape in Hv as [Hne Hd]. destruct t as [|c t]; [done|].
    simpl in Hd. apply andb_prop in Hd as [Hc _]. rewrite digit_val_dec in Hc. simpl app.
    apply Hdig. by rewrite Hc.
  - destruct H as (x & h & u & -> & _). by apply Hdig.
  - destruct H as [Hv _]. apply parse_f64_shape in Hv as (ip & dot & fp & ex & Hs).
    destruct (float_shape_start _ _ _ _ _ " "%char r Hs eq_refl) as (c & r' & -> & Hc & _). apply Hdig.
    apply orb_prop in Hc as [-> | [-> _]%andb_prop]; [done|]. by rewrite orb_true_r.
Qed.

Lemma skip_loop_stop fuel l : 0 < fuel -> skip_stops (drop (pos l) (src l)) = true -> skip_loop fuel l = Ok l.
Proof.
  intros Hf H. destruct fuel as [|fuel]; [lia|]. simpl. unfold peek_is.
  destruct (drop (pos l) (src l)) as [|c r] eqn:Hd; [done|].
  apply drop_cons_lookup in Hd as [-> H1]. simpl in H. apply andb_prop in H as [Hw Hs].
  apply negb_true_iff in Hw, Hs. rewrite Hw.
  assert (opt_is (src l !! (pos l + 1)) "/" || opt_is (src l !! (pos l + 1)) "*" =
    head_is (fun d => Ascii.eqb d "/" || Ascii.eqb d "*") r) as Hr.
  { rewrite Nat.add_1_r, <- (Nat.add_0_r (S _)), <- lookup_drop, H1. by destruct r. }
  destruct (Ascii.eqb c "/"); simpl in *; [|done]. rewrite <- Hr in Hs.
  by apply orb_false_iff in Hs as [-> ->].
Qed.

(** Lexemes laid out with one blank after each. *)
Definition spaced (ts : list (list ascii)) : list ascii :=
  List.concat (map (fun t => t ++ [" "%char]) ts).

Lemma skip_lead l lead r :
  lead = [] \/ lead = [" "%char] -> drop (pos l) (src l) = lead ++ r ->
  r = [] \/ skip_stops r = true ->
  skip_ws_and_comments l = Ok (set_pos l (pos l + length lead)).
Proof.
  intros Hlead Hd Hr. unfold skip_ws_and_comments.
  assert (Hstop : forall fuel l1, src l1 = src l -> drop (pos l1) (src l) = r -> 0 < fuel ->
    skip_loop fuel l1 = Ok l1).
  { intros fuel l1 Hs H1 Hf. destruct Hr as [-> | Hr].
    - destruct fuel; [lia|]. simpl. rewrite Hs, <- (Nat.add_0_r (pos l1)), <- lookup_drop, H1. done.
    - apply skip_loop_stop; [done|]. by rewrite Hs, H1. }
  destruct Hlead as [-> | ->]; simpl in Hd.
  - rewrite Hstop; [by rewrite Nat.add_0_r; destruct l|done..|lia].
  - apply drop_cons_lookup in Hd as [H0 H1]. simpl. rewrite H0. simpl.
    pose proof (lookup_lt_Some _ _ _ H0). apply Hstop; [done| |lia]. simpl. by rewrite Nat.add_1_r.
Qed.

(** Lexemes are scanned one after the other; what follows them is left. *)
Lemma run_loop_items items fuel l lead tail :
  Forall (fun p => spells (fst p) (snd p)) items ->
  lead = [] \/ lead = [" "%char] ->
  drop (pos l) (src l) = lead ++ spaced (map snd items) ++ tail ->
  length (src l) - pos l < fuel ->
  exists fuel' l' lead', run_loop fuel l = run_loop fuel' l' /\ map kind (tokens l') = map kind (tokens l) ++ map fst items /\
    src l' = src l /\ (lead' = [] \/ lead' = [" "%char]) /\ drop (pos l') (src l) = lead' ++ tail /\ length (src l) - pos l' < fuel'.
Proof.
  revert fuel l lead. induction items as [|[k t] items IH]; intros fuel l lead Hall Hlead Hd Hfuel.
  { exists fuel, l, lead. simpl. by rewrite app_nil_r. }
  destruct fuel as [|fuel]; [lia|]. simpl run_loop. unfold spaced in Hd; simpl in Hd.
  inversion Hall as [|? ? Hk Hall' Heq]; subst. simpl in Hk. rewrite <- !app_assoc in Hd. simpl in Hd.
  set (rest := List.concat _ ++ tail) in Hd. pose proof (f_equal length Hd) as Hlen.
  rewrite length_drop, !length_app in Hlen. simpl in Hlen.
  destruct (Nat.ltb_spec (pos l) (length (src l))); [|lia].
  rewrite (skip_lead _ _ _ Hlead Hd) by (right; by eapply spells_skip_stops). simpl obind.
  set (l1 := set_pos l (pos l + length lead)).
  assert (Hat : at_lexeme l1 t rest).
  { unfold at_lexeme, l1; simpl. rewrite <- drop_drop, Hd. apply drop_app_length. }
  change (length (src l) <=? pos l + length lead) with (length (src l1) <=? pos l1).
  destruct (Nat.leb_spec (length (src l1)) (pos l1)); [simpl in *; lia|].
  rewrite (run_step_complete _ _ _ _ Hat Hk). simpl obind.
  destruct (IH fuel (after l1 k t) [" "%char]) as (fuel' & l' & lead' & Hl' & Hkinds & Hrest); [done|by right| | |].
  + simpl. rewrite <- drop_drop. unfold at_lexeme, l1 in Hat. simpl in Hat. rewrite Hat.
    apply drop_app_length.
  + simpl. assert (0 < length t); [|lia].
    pose proof (spells_skip_stops _ _ [] Hk). destruct t; [done|simpl; lia].
  + exists fuel', l', lead'. split; [exact Hl'|]. split; [|exact Hrest]. rewrite Hkinds. simpl. by rewrite map_app, <- app_assoc.
Qed.

(** At most a blank is left: the scan ends. *)
Lemma run_loop_end fuel l lead :
  lead = [] \/ lead = [" "%char] -> drop (pos l) (src l) = lead -> length (src l) - pos l < fuel ->
  exists l', run_loop fuel l = Ok l' /\ tokens l' = tokens l.
Proof.
  intros Hlead Hd Hfuel. destruct fuel as [|fuel]; [lia|]. simpl run_loop.
  exists (set_pos l (pos l + length lead)). split; [|done].
  pose proof (f_equal length Hd) as Hlen. rewrite length_drop in Hlen.
  destruct (Nat.ltb_spec (pos l) (length (src l))).
  - rewrite (skip_lead _ _ [] Hlead) by (rewrite ?app_nil_r; auto). simpl.
    by destruct (Nat.leb_spec (length (src l)) (pos l + length lead)); [|lia].
  - destruct lead; [|simpl in Hlen; lia]. simpl. rewrite Nat.add_0_r. by destruct l.
Qed.

Lemma lex_spec (source : string) :
  match lex source with
  | Ok toks => stream_of (list_ascii_of_string source) toks
  | Err e => span_within (String.length source) (le_span e)
  | Panic | NoFuel => False
  end.
Proof.
  unfold lex, run. pose proof (run_loop_spec (S (length (list_ascii_of_string source)))
    (Lexer_new source) 0 ltac:(simpl; lia) ltac:(simpl; lia) eq_refl (trivia_nil _ _)) as H.
  simpl src in *. destruct (run_loop _ _) as [l|e| |]; simpl in *; try done.
  - destruct H as (Hs & Hp & q & Htiles & Htr). exists (tokens l), q. by rewrite Hp.
  - unfold span_within in *. by rewrite length_list_ascii in H.
Qed.

Lemma spells_not_eof k t : spells k t -> k <> T_Eof.
Proof. by intros H ->. Qed.

Lemma tiles_not_eof s p ts q : tiles s p ts q -> Forall (fun t => kind t <> T_Eof) ts.
Proof.
  revert p. induction ts as [|t ts IH]; intros p; [done|]. intros (_ & _ & Hk & Ht).
  constructor; [by eapply spells_not_eof|by eapply IH].
Qed.

(** ** Properties *)

(** C4. The lexer always stops by itself, without a panic, on every source text.
    When it succeeds, the tokens tile the text: each token's span holds bytes
    that spell that token, the bytes between two tokens are white space and
    complete comments, and the stream ends with its only [Eof] at the end of the
    text. When it fails, the error's span lies inside the text. *)
Theorem lex_sound (source : string) :
  match lex source with
  | Ok toks => stream_of (list_ascii_of_string source) toks
  | Err e => span_within (String.length source) (le_span e)
  | Panic | NoFuel => False
  end.
Proof. apply lex_spec. Qed.

(** A decimal literal with the [u] suffix is always rejected: the suffix is
    consumed before the text is sliced, so the integer parser sees it. *)
Lemma decimal_uint_suffix_rejected (l : Lexer) (d r : list ascii) (u : ascii) :
  drop (pos l) (src l) = d ++ u :: r ->
  d <> [] -> forallb is_ascii_digit d = true -> u = "u"%char \/ u = "U"%char ->
  run_step l = Err (err (pos l) (pos l + length d + 1) [P_lit "invalid integer literal"]).
Proof.
  intros Hd Hne Hdig Hu. destruct d as [|c d]; [done|]. pose proof Hdig as Hc.
  simpl in Hc. apply andb_prop in Hc as [Hc Hrest].
  rewrite (run_step_decimal l c (d ++ u :: r)); [|done|by rewrite Hc|].
  2:{ apply head_is_digits; [done|]. by destruct Hu as [-> | ->]. }
  unfold decimal_number. rewrite Hd, number_loop_digits, number_loop_stop by
    (done || by destruct Hu as [-> | ->]).
  rewrite Nat.add_0_r. cbv beta iota zeta delta [orb].
  assert (src l !! (pos l + length (c :: d)) = Some u) as Hlu.
  { rewrite <- lookup_drop, Hd, lookup_app_r, Nat.sub_diag by lia. done. }
  unfold consume_uint_suffix, peek_is. cbn [set_pos pos src]. rewrite Nat.add_0_r, Hlu.
  replace (opt_is (Some u) "u" || opt_is (Some u) "U") with true by (by destruct Hu as [-> | ->]).
  cbv beta iota zeta. unfold parse_u64. cbn [set_pos pos src].
  rewrite (slice_snoc _ _ _ u), (slice_of_drop _ _ _ _ Hd) by (lia || done).
  by rewrite from_str_radix_invalid by (by destruct Hu as [-> | ->]).
Qed.

(** A well-formed float literal with the [f] suffix is always rejected, for
    the same reason: the sliced text includes the suffix. *)
Lemma float_suffix_rejected (l : Lexer) (t r : list ascii) (f : ascii) (v : spec_float) :
  drop (pos l) (src l) = t ++ f :: r ->
  parse_f64 t = Some v -> existsb float_mark t = true -> f = "f"%char \/ f = "F"%char ->
  run_step l = Err (err (pos l) (pos l + length t + 1) [P_lit "invalid float literal"]).
Proof.
  intros Hd Hv Hm Hf. destruct (parse_f64_shape _ _ Hv) as (ip & dot & fp & ex & Hshape).
  assert (Hx : not_x f = true /\ number_stop f = true /\ float_byte f = false /\
    opt_is (Some f) "f" || opt_is (Some f) "F" = true) by (by destruct Hf as [-> | ->]).
  destruct Hx as (Hx & Hstop & Hbyte & Hsuf).
  destruct (float_shape_start _ _ _ _ _ f r Hshape Hx) as (c & r' & Heq & Hc & Hx').
  rewrite (run_step_decimal l c r') by (rewrite <- ?Heq; done).
  unfold decimal_number. rewrite Hd.
  destruct (number_loop_float _ _ _ _ _ f r Hshape Hm Hstop) as (d & e & -> & ->).
  assert (src l !! (pos l + length t) = Some f) as Hlf.
  { rewrite <- lookup_drop, Hd, lookup_app_r, Nat.sub_diag by lia. done. }
  unfold consume_float_suffix, peek_is. cbn [set_pos pos src]. rewrite Nat.add_0_r, Hlf, Hsuf.
  cbn [set_pos pos src]. rewrite (slice_snoc _ _ _ f), (slice_of_drop _ _ _ _ Hd) by (lia || done).
  destruct (parse_f64 (t ++ [f])) as [w|] eqn:Hw; [|done].
  apply parse_f64_bytes in Hw. rewrite forallb_app in Hw. simpl in Hw.
  by rewrite Hbyte, andb_false_r in Hw.
Qed.

(** A literal with a suffix is always rejected: a decimal literal with [u]
    and a well-formed float literal with [f]. The suffix is consumed before the
    text is sliced, so the number parser sees it. *)
Theorem literal_suffix_rejected (l : Lexer) (t r : list ascii) (c : ascii) :
  drop (pos l) (src l) = t ++ c :: r ->
  (t <> [] -> forallb is_ascii_digit t = true -> c = "u"%char \/ c = "U"%char ->
   run_step l = Err (err (pos l) (pos l + length t + 1) [P_lit "invalid integer literal"])) /\
  (is_Some (parse_f64 t) -> existsb float_mark t = true -> c = "f"%char \/ c = "F"%char ->
   run_step l = Err (err (pos l) (pos l + length t + 1) [P_lit "invalid float literal"])).
Proof.
  intros Hd. split.
  - intros. by eapply decimal_uint_suffix_rejected.
  - intros [v Hv] ? ?. by eapply float_suffix_rejected.
Qed.

(** ** Witnesses *)

Definition chars (s : string) : list ascii := list_ascii_of_string s.

Lemma literal_suffix_rejected_witness :
  run_step (mkLexer (chars "x = 5u;") 4 []) = Err (err 4 6 [P_lit "invalid integer literal"]) /\
  run_step (mkLexer (chars "1.0f)") 0 []) = Err (err 0 4 [P_lit "invalid float literal"]).
Proof.
  split.
  - apply (literal_suffix_rejected (mkLexer (chars "x = 5u;") 4 []) (chars "5") (chars ";") "u"%char); auto; done.
  - apply (literal_suffix_rejected (mkLexer (chars "1.0f)") 0 []) (chars "1.0") (chars ")") "f"%char); auto; done.
Defined.
