(* ===== verification/HlslLexemes.v ===== *)
(** * The lexical grammar of HLSL, apart from the lexer

    How each token is spelled, written down without the lexer's tables and loops, and
    the theorem that the lexer finds every sequence of tokens again. *)
From Stdlib Require Import ZArith Lia Ascii String.
From Stdlib Require Import Floats.SpecFloat.
From stdpp Require Import base list option strings.
From S2P Require Import Prelude HlslLexer.
Local Open Scope rust_scope.

(** ** The grammar *)

Abbreviation chars := list_ascii_of_string.

Definition keyword_text (k : Keyword) : string :=
  match k with
  | Kw_Void => "void" | Kw_Float => "float" | Kw_Int => "int" | Kw_Uint => "uint" | Kw_Bool => "bool"
  | Kw_Struct => "struct" | Kw_Return => "return" | Kw_If => "if" | Kw_Else => "else" | Kw_For => "for"
  | Kw_SamplerState => "SamplerState" | Kw_Texture2D => "Texture2D" | Kw_CBuffer => "cbuffer" | Kw_Register => "register"
  end.

Definition operator_text (k : TokenKind) : option string :=
  match k with
  | T_LParen => Some "(" | T_RParen => Some ")" | T_LBrace => Some "{" | T_RBrace => Some "}"
  | T_LBracket => Some "[" | T_RBracket => Some "]" | T_Comma => Some "," | T_Semicolon => Some ";"
  | T_Colon => Some ":" | T_Dot => Some "." | T_Assign => Some "=" | T_EqEq => Some "==" | T_Neq => Some "!="
  | T_Lt => Some "<" | T_Le => Some "<=" | T_Gt => Some ">" | T_Ge => Some ">=" | T_Plus => Some "+"
  | T_Minus => Some "-" | T_Star => Some "*" | T_Slash => Some "/" | T_Percent => Some "%" | T_Bang => Some "!"
  | T_Tilde => Some "~" | T_Amp => Some "&" | T_Pipe => Some "|" | T_Caret => Some "^" | T_AndAnd => Some "&&"
  | T_OrOr => Some "||" | T_PlusEq => Some "+=" | T_MinusEq => Some "-=" | T_StarEq => Some "*=" | T_SlashEq => Some "/="
  | _ => None
  end.

Definition reserved (w : string) : Prop := (exists k, w = keyword_text k) \/ w = "true"%string \/ w = "false"%string.

(** The system values and the semantics of older shader models, which may be numbered. *)
Definition legacy_semantics : list string :=
  ["BINORMAL"; "BLENDINDICES"; "BLENDWEIGHT"; "COLOR"; "DEPTH"; "FOG"; "NORMAL"; "POSITION"; "POSITIONT"; "PSIZE";
   "TANGENT"; "TEXCOORD"; "VFACE"; "VPOS"]%string.

Definition semantic_name (w : string) : Prop :=
  (exists r, w = String.append "SV_" r) \/
  exists base n, base ∈ legacy_semantics /\ w = String.append base n /\ str_all is_ascii_digit n = true.

Definition word (t : list ascii) : Prop := (exists c r, t = c :: r /\ ident_start c = true) /\ forallb ident_char t = true.

(** The value of a digit is its place in the row of digits. *)
Fixpoint digit_place (c : ascii) (row : list ascii) (n : Z) : option Z :=
  match row with [] => None | d :: row => if Ascii.eqb c d then Some n else digit_place c row (n + 1) end.

Definition digit_value (c : ascii) : option Z :=
  match digit_place c (chars "0123456789abcdef") 0 with Some v => Some v | None => digit_place c (chars "0123456789ABCDEF") 0 end.

Inductive numeral (radix : Z) : list ascii -> Z -> Prop :=
  | NumNone : numeral radix [] 0
  | NumDigit t v c d : numeral radix t v -> digit_value c = Some d -> (d < radix)%Z -> numeral radix (t ++ [c]) (v * radix + d).

(** The token [k] is written [t]. A number with the suffix of its type is [suffixed]
    below, but for [u] after a hexadecimal number. *)
Definition token_text (k : TokenKind) (t : list ascii) : Prop :=
  match k with
  | T_Keyword w => t = chars (keyword_text w)
  | T_BoolLiteral b => t = chars (if b then "true" else "false")
  | T_Semantic w => t = chars w /\ word t /\ semantic_name w
  | T_Ident w => t = chars w /\ word t /\ ~ reserved w /\ ~ semantic_name w
  | T_IntLiteral v =>
      (t <> [] /\ numeral 10 t v /\ v < 2 ^ 63)%Z \/
      exists x h u, t = "0"%char :: x :: h /\ x ∈ chars "xX" /\ h <> [] /\ numeral 16 h u /\ (u < 2 ^ 64)%Z /\
        v = (if u <? 2 ^ 63 then u else u - 2 ^ 64)%Z
  | T_UintLiteral v =>
      exists x h u, t = "0"%char :: x :: h ++ [u] /\ x ∈ chars "xX" /\ u ∈ chars "uU" /\ h <> [] /\ numeral 16 h v /\ (v < 2 ^ 64)%Z
  | T_FloatLiteral v => parse_f64 t = Some v /\ existsb float_mark t = true
  | _ => exists s, operator_text k = Some s /\ t = chars s
  end.

(** A decimal number with [u], or a float with [f]. *)
Definition suffixed (t : list ascii) : Prop :=
  exists n c, t = n ++ [c] /\
    ((n <> [] /\ forallb is_ascii_digit n = true /\ c ∈ chars "uU") \/
     (is_Some (parse_f64 n) /\ existsb float_mark n = true /\ c ∈ chars "fF")).

(** ** The lexer knows it *)

Lemma digit_value_val c : digit_value c = digit_val c.
Proof.
  pose proof (all_ascii (fun c => bool_decide (digit_value c = digit_val c)) ltac:(by vm_compute) c) as H.
  by apply bool_decide_eq_true in H.
Qed.

Lemma digits_loop_app radix max t u : forall acc,
  digits_loop radix max acc (t ++ u) = digits_loop radix max acc t ≫= fun v => digits_loop radix max v u.
Proof.
  induction t as [|c t IH]; intros acc; [done|]. cbn [app digits_loop]. destruct (digit_val c) as [d|]; [|done].
  destruct (radix <=? d)%Z; [done|]. cbv zeta. destruct (max <? _)%Z; [done|apply IH].
Qed.

Lemma digit_val_pos c d : digit_val c = Some d -> (0 <= d)%Z.
Proof.
  intros H. pose proof (all_ascii (fun c => match digit_val c with Some d => (0 <=? d)%Z | None => true end) ltac:(by vm_compute) c) as Hc.
  cbv beta in Hc. rewrite H in Hc. by apply Z.leb_le in Hc.
Qed.

Lemma numeral_loop radix max t v : (1 < radix)%Z -> numeral radix t v -> (0 <= v)%Z /\ ((v <= max)%Z -> digits_loop radix max 0 t = Some v).
Proof.
  intros Hr. induction 1 as [|t v c d _ [Hv IH] Hd Hlt]; [done|]. rewrite digit_value_val in Hd. pose proof (digit_val_pos _ _ Hd).
  split; [nia|]. intros Hm. rewrite digits_loop_app, IH by nia. rewrite some_bind. cbn [digits_loop]. rewrite Hd.
  destruct (Z.leb_spec radix d); [lia|]. cbv zeta. destruct (Z.ltb_spec max (v * radix + d)%Z); [lia|done].
Qed.

Lemma numeral_radix radix max t v : (1 < radix)%Z -> numeral radix t v -> t <> [] -> (v <= max)%Z -> from_str_radix radix max t = Some v.
Proof. intros Hr Hn Hne Hm. unfold from_str_radix. destruct t; [done|]. by apply (numeral_loop radix max). Qed.

Lemma strip_append p r : strip_prefix p (String.append p r) = Some r.
Proof. induction p as [|a p IH]; [done|]. change (String a p +:+ r) with (String a (p +:+ r)). cbn [strip_prefix]. by rewrite Ascii.eqb_refl. Qed.

Lemma strip_prefix_append p w r : strip_prefix p w = Some r -> w = String.append p r.
Proof.
  revert w. induction p as [|a p IH]; intros [|b w]; cbn [strip_prefix]; [by intros [= <-]|by intros [= <-]|done|].
  destruct (Ascii.eqb_spec a b) as [->|]; [|done]. intros H. change (String b p +:+ r) with (String b (p +:+ r)). f_equal. by apply IH.
Qed.

Lemma append_nil s : String.append s EmptyString = s.
Proof. induction s as [|a s IH]; [done|]. change (String a (s +:+ EmptyString) = String a s). by rewrite IH. Qed.

Lemma legacy_bases base : In base semantic_bases <-> base ∈ legacy_semantics.
Proof. rewrite <- list_elem_of_In. unfold semantic_bases, legacy_semantics. rewrite !elem_of_cons. tauto. Qed.

Lemma is_semantic_spec w : is_semantic w = true <-> semantic_name w.
Proof.
  unfold is_semantic, semantic_name. split.
  - destruct (strip_prefix "SV_" w) as [r|] eqn:E; [intros _; left; eexists; by apply strip_prefix_append|].
    intros (base & Hin & Hb)%existsb_exists. right. exists base.
    apply legacy_bases in Hin.
    apply orb_true_iff in Hb as [->%String.eqb_eq|Hb]; [exists EmptyString; split; [done|]; split; [|done]; by rewrite append_nil|].
    destruct (strip_prefix base w) as [r|] eqn:Eb; [|done]. apply strip_prefix_append in Eb. apply andb_true_iff in Hb as [_ Hb]. eauto.
  - intros [(r & ->)|(base & n & Hin & -> & Hn)]; [by rewrite strip_append|]. destruct (strip_prefix "SV_" _); [done|].
    apply existsb_exists. exists base. split; [by apply legacy_bases|].
    rewrite strip_append. destruct n as [|a n]; [|by rewrite Hn, orb_true_r].
    apply orb_true_iff. left. apply String.eqb_eq. by rewrite append_nil.
Qed.

Lemma keyword_reserved w k : assoc w keyword_table = Some k -> reserved w.
Proof.
  intros H. unfold assoc in H. destruct (List.find _ keyword_table) as [[w' k']|] eqn:E; [|done]. apply find_some in E as [Hin Heq].
  apply String.eqb_eq in Heq. cbn [fst] in Heq. subst w'. clear H.
  repeat destruct Hin as [[= <- _]|Hin]; try (by right; auto); try done;
    left; [by exists Kw_Void|by exists Kw_Int|by exists Kw_Uint|by exists Kw_Bool|by exists Kw_Struct|by exists Kw_Return|by exists Kw_If
      |by exists Kw_Else|by exists Kw_For|by exists Kw_SamplerState|by exists Kw_Texture2D|by exists Kw_CBuffer|by exists Kw_Register].
Qed.

(** A semantic is no keyword and does not begin like a type. *)
Lemma semantic_plain w : semantic_name w -> assoc w keyword_table = None /\ strip_prefix "float" w = None.
Proof.
  intros [(r & ->)|(base & n & Hin & -> & Hn)]; [done|]. unfold legacy_semantics in Hin.
  repeat (apply elem_of_cons in Hin as [-> | Hin]; [by vm_compute|]). by apply not_elem_of_nil in Hin.
Qed.

Lemma classify_semantic w : semantic_name w -> classify_ident w = T_Semantic w.
Proof. intros H. pose proof (semantic_plain w H) as [H1 H2]. apply is_semantic_spec in H. unfold classify_ident. by rewrite H1, H2, H. Qed.

Lemma classify_plain w : ~ reserved w -> ~ semantic_name w -> classify_ident w = T_Ident w.
Proof.
  intros Hr Hs. unfold classify_ident. destruct (assoc w keyword_table) eqn:E; [by apply keyword_reserved in E|].
  assert (is_semantic w = false) as -> by (apply not_true_is_false; by rewrite is_semantic_spec).
  destruct (strip_prefix "float" w) as [r|] eqn:Ef; [|done]. destruct (String.eqb_spec r EmptyString) as [->|].
  - apply strip_prefix_append in Ef. cbn in Ef. destruct Hr. left. by exists Kw_Float.
  - by destruct (_ && _).
Qed.

Lemma one_of_two (a b x : ascii) : x ∈ [a; b] -> x = a \/ x = b.
Proof. rewrite !elem_of_cons, elem_of_nil. tauto. Qed.

Lemma token_spells k t : token_text k t -> spells k t.
Proof.
  destruct k; cbn [token_text]; try (intros (s & [= <-] & ->); cbn;
    first [left; do 2 eexists; split; reflexivity|right; eexists; split; reflexivity]).
  - intros (-> & [Hc Ha] & Hr & Hs). split; [exact Hc|]. split; [exact Ha|]. rewrite string_of_list_ascii_of_string. by apply classify_plain.
  - intros ->. destruct k; (split; [do 2 eexists; split; reflexivity|]; split; reflexivity).
  - intros (-> & [Hc Ha] & Hs). split; [exact Hc|]. split; [exact Ha|]. rewrite string_of_list_ascii_of_string. by apply classify_semantic.
  - intros [(Hne & Hn & Hv)|(x & h & u & -> & Hx & Hh & Hn & Hu & ->)]; cbn [spells].
    + left. apply numeral_radix; [done|done|done|unfold i64_max; lia].
    + right. exists x, h, u. split; [done|]. split; [by apply one_of_two in Hx|]. split; [apply numeral_radix; [done|done|done|unfold u64_max; lia]|].
      pose proof (numeral_loop 16 0 h u ltac:(lia) Hn) as [Hu0 _]. unfold to_signed. cbv [wrap] in *.
      rewrite Z.mod_small by lia. destruct (Z.ltb_spec u (2 ^ 63)), (Z.ltb_spec u (2 ^ (64 - 1))); lia.
  - intros (x & h & u & -> & Hx & Hu & Hh & Hn & Hv). exists x, h, u. split; [done|]. split; [by apply one_of_two in Hx|].
    split; [|apply numeral_radix; [done|done|done|unfold u64_max; lia]].
    by apply one_of_two in Hu.
  - done.
  - intros ->. destruct b; (split; [do 2 eexists; split; reflexivity|]; split; reflexivity).
Qed.

(** ** Lexing a laid-out text *)

Definition spelled (items : list (TokenKind * list ascii)) : Prop := Forall (fun p => token_text (fst p) (snd p)) items.

Lemma spelled_spells items : spelled items -> Forall (fun p => spells (fst p) (snd p)) items.
Proof. intros H. eapply Forall_impl; [exact H|]. intros [k t]. apply token_spells. Qed.

Lemma suffixed_stops t r : suffixed t -> skip_stops (t ++ " "%char :: r) = true.
Proof.
  assert (Hdig : forall n c r, n <> [] -> forallb is_ascii_digit n = true -> skip_stops ((n ++ [c]) ++ r) = true).
  { intros [|d n] c r' Hne Hd; [done|]. cbn [forallb] in Hd. apply andb_prop in Hd as [Hd _].
    pose proof (all_ascii (fun d => implb (is_ascii_digit d) (negb (is_ascii_whitespace d) && negb (Ascii.eqb d "/"))) ltac:(by vm_compute) d) as Hf.
    cbv beta in Hf. rewrite Hd in Hf. apply andb_prop in Hf as [H1 H2%negb_true_iff]. cbn [app skip_stops]. by rewrite H1, H2. }
  intros (n & c & -> & [(Hne & Hd & _)|([v Hv] & Hm & _)]); [by apply Hdig|].
  pose proof (spells_skip_stops (T_FloatLiteral v) n r (conj Hv Hm)) as Hs.
  destruct n as [|a [|b n]]; [done| |]; cbn [app skip_stops head_is] in *; [|done]. apply andb_prop in Hs as [-> _]. cbn.
  destruct (Ascii.eqb_spec a "/") as [->|]; [|done]. by vm_compute in Hv.
Qed.

Lemma suffixed_step l t r : suffixed t -> drop (pos l) (src l) = t ++ r ->
  exists m, run_step l = Err (err (pos l) (pos l + length t) m).
Proof.
  intros (n & c & -> & Hs) Hd. rewrite <- app_assoc in Hd. rewrite length_app, Nat.add_assoc.
  destruct Hs as [(Hne & Hn & Hc)|([v Hv] & Hm & Hc)]; apply one_of_two in Hc; eexists;
    [by eapply decimal_uint_suffix_rejected|by eapply float_suffix_rejected].
Qed.

(** C5. Every sequence of tokens, each written as the grammar writes it and followed
    by a blank, lexes to exactly these tokens: keywords, words, semantics, decimal and
    hexadecimal integers that fit, floats and operators. The one form the grammar has
    and the lexer has not is a number with the suffix of its type: a decimal integer
    with [u] or a float with [f] after such a sequence is reported as an error. *)
Theorem lex_complete (items : list (TokenKind * list ascii)) :
  spelled items ->
  (exists toks, lex (string_of_list_ascii (spaced (map snd items))) = Ok toks /\ map kind toks = map fst items ++ [T_Eof]) /\
  (forall t, suffixed t -> exists m, lex (string_of_list_ascii (spaced (map snd items ++ [t]))) =
     Err (err (length (spaced (map snd items))) (length (spaced (map snd items)) + length t) m)).
Proof.
  intros Hall%spelled_spells. unfold lex, run, Lexer_new. split; [|intros t Ht]; rewrite list_ascii_of_string_of_list_ascii; cbn [src].
  - destruct (run_loop_items items (S (length (spaced (map snd items)))) (mkLexer (spaced (map snd items)) 0 []) [] [])
      as (f & l' & lead & -> & Hk & Hs & Hlead & Hd & Hf); [done|by left|by rewrite app_nil_r|cbn; lia|].
    rewrite app_nil_r, <- Hs in Hd. rewrite <- Hs in Hf. destruct (run_loop_end f l' lead Hlead Hd Hf) as (l2 & -> & Ht). eexists. split; [done|].
    cbn [emit tokens]. by rewrite map_app, Ht, Hk.
  - assert (Hsp : spaced (map snd items ++ [t]) = spaced (map snd items) ++ t ++ [" "%char]) by (unfold spaced; rewrite map_app, concat_app; cbn; by rewrite app_nil_r).
    rewrite Hsp. set (s := spaced (map snd items) ++ _).
    destruct (run_loop_items items (S (length s)) (mkLexer s 0 []) [] (t ++ [" "%char]))
      as (f & l' & lead & -> & Hk & Hs & Hlead & Hd & Hf); [done|by left|done|cbn; lia|]. cbn [src] in *.
    rewrite <- Hs in Hd, Hf. pose proof (f_equal length Hd) as Hlen. rewrite length_drop, !length_app in Hlen. cbn [length] in Hlen.
    assert (Hpos : pos l' + length lead = length (spaced (map snd items))).
    { rewrite Hs in Hlen. unfold s in Hlen. rewrite !length_app in Hlen. cbn [length] in Hlen. lia. }
    destruct f as [|f]; [lia|]. cbn [run_loop]. destruct (Nat.ltb_spec (pos l') (length (src l'))); [|lia].
    rewrite (skip_lead _ _ _ Hlead Hd) by (right; by apply suffixed_stops). cbn [obind].
    set (l2 := set_pos l' (pos l' + length lead)).
    assert (Hlt : (length (src l2) <=? pos l2) = false).
    { apply Nat.leb_gt. assert (0 < length t); [|cbn; lia]. destruct Ht as (n & c & -> & _). rewrite length_app. cbn. lia. }
    destruct (suffixed_step l2 t [" "%char] Ht) as (m & Hstep); [cbn; rewrite <- drop_drop, Hd; apply drop_app_length|].
    exists m. rewrite Hlt, Hstep. cbn [obind l2 set_pos pos]. by rewrite Hpos.
Qed.

Lemma lex_complete_witness :
  (exists toks, lex "if TEXCOORD0 0x1Au 42 2.5 >= " = Ok toks /\ map kind toks =
     [T_Keyword Kw_If; T_Semantic "TEXCOORD0"; T_UintLiteral 26; T_IntLiteral 42; T_FloatLiteral (S754_finite false 5629499534213120 (-51)); T_Ge; T_Eof]) /\
  exists m, lex "if TEXCOORD0 0x1Au 42 2.5 >= 5u " = Err (err 29 31 m).
Proof.
  destruct (lex_complete [(T_Keyword Kw_If, chars "if"); (T_Semantic "TEXCOORD0", chars "TEXCOORD0"); (T_UintLiteral 26, chars "0x1Au");
    (T_IntLiteral 42, chars "42"); (T_FloatLiteral (S754_finite false 5629499534213120 (-51)), chars "2.5"); (T_Ge, chars ">=")]) as [H1 H2].
  - apply Forall_cons_2; [reflexivity|]. apply Forall_cons_2.
    { split; [reflexivity|]. split; [split; [by do 2 eexists|reflexivity]|]. right. exists "TEXCOORD"%string, "0"%string. split; [|by split].
      unfold legacy_semantics. rewrite !elem_of_cons. tauto. }
    apply Forall_cons_2.
    { exists "x"%char, (chars "1A"), "u"%char. split; [reflexivity|]. split; [by left|]. split; [by left|]. split; [done|]. split; [|done].
      apply (NumDigit 16 ["1"%char] 1 "A"%char 10); [|reflexivity|done]. apply (NumDigit 16 [] 0 "1"%char 1); [constructor|reflexivity|done]. }
    apply Forall_cons_2.
    { left. split; [done|]. split; [|done]. apply (NumDigit 10 ["4"%char] 4 "2"%char 2); [|reflexivity|done]. apply (NumDigit 10 [] 0 "4"%char 4); [constructor|reflexivity|done]. }
    apply Forall_cons_2; [split; reflexivity|]. apply Forall_cons_2; [by exists ">="%string|apply Forall_nil_2].
  - split; [exact H1|]. apply (H2 (chars "5u")). exists (chars "5"), "u"%char. split; [reflexivity|]. left. split; [done|]. split; [reflexivity|by left].
Defined.
