(* ===== verification/HlslAst.v ===== *)
(** * The HLSL syntax tree ([crates/hlsl-compiler/src/ast.rs])

    The tree built by the parser, the type queries, the display of types, and
    the decoding of builtin type words ([decode_type_word] of [parser.rs]),
    with the round trip between the two. *)
From Stdlib Require Import ZArith Lia Ascii String.
From Stdlib Require Import Floats.SpecFloat.
From stdpp Require Import base list option strings.
From S2P Require Import Prelude HlslLexer.
Set Warnings "-register-all".

Inductive ScalarKind := Sc_Float | Sc_Int | Sc_Uint | Sc_Bool.

Inductive Type_ :=
  | Ty_Void
  | Ty_Scalar (k : ScalarKind)
  | Ty_Vector (k : ScalarKind) (n : Z)
  | Ty_Matrix (k : ScalarKind) (r c : Z)
  | Ty_Struct (name : string)
  | Ty_Texture2D
  | Ty_SamplerState.

Inductive BinaryOp :=
  | Op_Add | Op_Sub | Op_Mul | Op_Div | Op_Mod | Op_Assign | Op_AddAssign | Op_SubAssign
  | Op_MulAssign | Op_DivAssign | Op_Eq | Op_Ne | Op_Lt | Op_Le | Op_Gt | Op_Ge | Op_And
  | Op_Or | Op_BitAnd | Op_BitOr | Op_BitXor.

Inductive UnaryOp := Un_Neg | Un_Not | Un_BitNot.

Inductive Literal :=
  | Lit_Int (v : Z) | Lit_Uint (v : Z) | Lit_Float (v : spec_float) | Lit_Bool (b : bool).

Inductive Expr :=
  | E_Literal (l : Literal)
  | E_Ident (s : string)
  | E_Construct (ty : Type_) (args : list Expr)
  | E_Call (name : string) (args : list Expr)
  | E_MethodCall (base : Expr) (method : string) (args : list Expr)
  | E_Member (base : Expr) (member : string)
  | E_Binary (op : BinaryOp) (lhs rhs : Expr)
  | E_Unary (op : UnaryOp) (expr : Expr)
  | E_Cast (ty : Type_) (expr : Expr).

Record VarDecl := mkVarDecl {
  vd_ty : Type_; vd_name : string; vd_init : option Expr; vd_semantic : option string }.

Inductive Stmt :=
  | S_Return (e : option Expr)
  | S_VarDecl (d : VarDecl)
  | S_Expr (e : Expr)
  | S_If (cond : Expr) (then_ : list Stmt) (else_ : option (list Stmt))
  | S_For (init : option Stmt) (cond update : option Expr) (body : list Stmt)
  | S_Block (b : list Stmt).

(** [Block] has the single field [stmts]. *)
Definition Block : Type := list Stmt.

Record StructMember := mkStructMember {
  sm_ty : Type_; sm_name : string; sm_semantic : option string }.
Record StructDecl := mkStructDecl { sd_name : string; sd_members : list StructMember }.
Record CBufferDecl := mkCBufferDecl {
  cb_name : string; cb_register : option string; cb_members : list StructMember }.
Record Param := mkParam { p_ty : Type_; p_name : string; p_semantic : option string }.
Record FunctionDecl := mkFunctionDecl {
  fd_return_type : Type_; fd_name : string; fd_params : list Param;
  fd_semantic : option string; fd_body : option Block }.
Record GlobalVarDecl := mkGlobalVarDecl {
  gv_ty : Type_; gv_name : string; gv_register : option string }.

Inductive Decl :=
  | D_Struct (s : StructDecl)
  | D_CBuffer (c : CBufferDecl)
  | D_Function (f : FunctionDecl)
  | D_GlobalVar (g : GlobalVarDecl).

Definition TranslationUnit : Type := list Decl.

#[export] Instance ScalarKind_eq_dec : EqDecision ScalarKind.
Proof. solve_decision. Defined.
#[export] Instance Type_eq_dec : EqDecision Type_.
Proof. solve_decision. Defined.

(** Induction over expressions, with the arguments of calls. *)
Lemma Expr_list_ind (Q : Expr -> Prop)
    (HLit : forall l, Q (E_Literal l)) (HId : forall s, Q (E_Ident s))
    (HCon : forall ty args, Forall Q args -> Q (E_Construct ty args))
    (HCall : forall n args, Forall Q args -> Q (E_Call n args))
    (HMeth : forall b m args, Q b -> Forall Q args -> Q (E_MethodCall b m args))
    (HMem : forall b m, Q b -> Q (E_Member b m))
    (HBin : forall op l r, Q l -> Q r -> Q (E_Binary op l r))
    (HUn : forall op e, Q e -> Q (E_Unary op e))
    (HCast : forall ty e, Q e -> Q (E_Cast ty e)) : forall e, Q e.
Proof.
  fix IH 1. intros [l|s|ty args|n args|b m args|b m|op l r|op e|ty e].
  - apply HLit.
  - apply HId.
  - apply HCon. induction args as [|a args IHargs]; constructor; [apply IH|exact IHargs].
  - apply HCall. induction args as [|a args IHargs]; constructor; [apply IH|exact IHargs].
  - apply HMeth; [apply IH|]. induction args as [|a args IHargs]; constructor; [apply IH|exact IHargs].
  - apply HMem, IH.
  - apply HBin; apply IH.
  - apply HUn, IH.
  - apply HCast, IH.
Qed.

Lemma Stmt_list_ind (Q : Stmt -> Prop)
    (HRet : forall e, Q (S_Return e)) (HVar : forall d, Q (S_VarDecl d)) (HExpr : forall e, Q (S_Expr e))
    (HIf : forall c t e, Forall Q t -> Forall Q (default [] e) -> Q (S_If c t e))
    (HFor : forall i c u b, Forall Q (option_list i) -> Forall Q b -> Q (S_For i c u b))
    (HBlock : forall b, Forall Q b -> Q (S_Block b)) : forall s, Q s.
Proof.
  fix IH 1. intros [e|d|e|c t e|i c u b|b].
  - apply HRet.
  - apply HVar.
  - apply HExpr.
  - apply HIf.
    + induction t as [|x t IHt]; constructor; [apply IH|exact IHt].
    + destruct e as [e|]; [|constructor]. simpl. induction e as [|x e IHe]; constructor; [apply IH|exact IHe].
  - apply HFor.
    + destruct i as [i|]; repeat constructor. apply IH.
    + induction b as [|x b IHb]; constructor; [apply IH|exact IHb].
  - apply HBlock. induction b as [|x b IHb]; constructor; [apply IH|exact IHb].
Qed.

(** ** Type queries *)

(** [component_count] multiplies [u32] dimensions, wrapping in release builds. *)
Definition component_count (t : Type_) : Z :=
  match t with
  | Ty_Void => 0
  | Ty_Scalar _ => 1
  | Ty_Vector _ n => n
  | Ty_Matrix _ r c => wrap 32 (r * c)
  | Ty_Struct _ | Ty_Texture2D | Ty_SamplerState => 0
  end%Z.

Definition is_composite (t : Type_) : bool :=
  match t with Ty_Vector _ _ | Ty_Matrix _ _ _ => true | _ => false end.

(** ** Display *)

Definition digit_char (d : Z) : ascii := ascii_of_nat (Z.to_nat (48 + d)).

(** Decimal rendering of a [u32] (at most ten digits). *)
Fixpoint dec_digits (fuel : nat) (v : Z) (acc : list ascii) : list ascii :=
  match fuel with
  | 0 => acc
  | S fuel =>
      let acc := digit_char (v mod 10) :: acc in
      if (v <? 10)%Z then acc else dec_digits fuel (v / 10) acc
  end.

Definition u32_display (v : Z) : string := string_of_list_ascii (dec_digits 10 v []).

Definition ScalarKind_display (k : ScalarKind) : string :=
  match k with
  | Sc_Float => "float" | Sc_Int => "int" | Sc_Uint => "uint" | Sc_Bool => "bool"
  end.

Definition Type_display (t : Type_) : string :=
  match t with
  | Ty_Void => "void"
  | Ty_Scalar k => ScalarKind_display k
  | Ty_Vector k n => ScalarKind_display k +:+ u32_display n
  | Ty_Matrix k r c => ScalarKind_display k +:+ u32_display r +:+ "x" +:+ u32_display c
  | Ty_Struct name => name
  | Ty_Texture2D => "Texture2D"
  | Ty_SamplerState => "SamplerState"
  end.

(** ** Decoding type words ([parser.rs]) *)

(** [u32::from_str]: an optional plus sign, then decimal digits. *)
Definition parse_u32 (s : string) : option Z :=
  match s with
  | String c r => from_str_radix 10 u32_max (list_ascii_of_string (if Ascii.eqb c "+" then r else s))
  | EmptyString => None
  end.

(** [split_once('x')]. *)
Fixpoint split_once_x (s : string) : option (string * string) :=
  match s with
  | EmptyString => None
  | String c r =>
      if Ascii.eqb c "x" then Some (EmptyString, r)
      else match split_once_x r with
           | Some (a, b) => Some (String c a, b)
           | None => None
           end
  end.

Definition decode_shape (rest : string) : option (Z * Z) :=
  if String.eqb rest EmptyString then Some (1, 1)%Z
  else match split_once_x rest with
  | Some (r, c) =>
      match parse_u32 r with
      | None => None
      | Some r =>
          match parse_u32 c with
          | None => None
          | Some c => if ((1 <=? r) && (1 <=? c))%Z then Some (r, c) else None
          end
      end
  | None =>
      match parse_u32 rest with
      | None => None
      | Some n => if ((2 <=? n) && (n <=? 4))%Z then Some (n, 1%Z) else None
      end
  end.

Definition shape_type (k : ScalarKind) (rc : Z * Z) : Type_ :=
  let '(r, c) := rc in
  if ((r =? 1) && (c =? 1))%Z then Ty_Scalar k
  else if (c =? 1)%Z then Ty_Vector k r
  else Ty_Matrix k r c.

Definition decode_type_word (s : string) : option Type_ :=
  match strip_prefix "float" s with
  | Some rest => shape_type Sc_Float <$> decode_shape rest
  | None =>
  match strip_prefix "int" s with
  | Some rest => shape_type Sc_Int <$> decode_shape rest
  | None =>
  match strip_prefix "uint" s with
  | Some rest => shape_type Sc_Uint <$> decode_shape rest
  | None =>
  match strip_prefix "bool" s with
  | Some rest => shape_type Sc_Bool <$> decode_shape rest
  | None => None
  end end end end.

Definition is_type_word (s : string) : bool :=
  match decode_type_word s with Some _ => true | None => false end.

(** ** Properties of type words *)

(** The builtin types with dimensions that a type word can carry: one-column
    matrices decode to scalars and vectors instead. *)
Definition word_type (t : Type_) : Prop :=
  match t with
  | Ty_Scalar _ => True
  | Ty_Vector _ n => 2 <= n <= 4
  | Ty_Matrix _ r c => 1 <= r <= u32_max /\ 2 <= c <= u32_max
  | _ => False
  end%Z.

Lemma digit_char_val d : (0 <= d < 10)%Z -> digit_val (digit_char d) = Some d.
Proof.
  intros H. assert (d = Z.of_nat (Z.to_nat d)) as -> by lia.
  set (n := Z.to_nat d). assert (n < 10) as Hn by lia. clearbody n.
  do 10 (destruct n as [|n]; [done|]). lia.
Qed.

Lemma digit_char_plain d : (0 <= d < 10)%Z ->
  Ascii.eqb (digit_char d) "+" = false /\ Ascii.eqb (digit_char d) "x" = false.
Proof.
  intros H. assert (d = Z.of_nat (Z.to_nat d)) as -> by lia.
  set (n := Z.to_nat d). assert (n < 10) as Hn by lia. clearbody n.
  do 10 (destruct n as [|n]; [done|]). lia.
Qed.

(** A rendered number: its digits, and what parsing them does. *)
Lemma dec_digits_spec fuel v acc :
  (0 <= v < 10 ^ Z.of_nat fuel)%Z -> 0 < fuel ->
  exists ds, dec_digits fuel v acc = ds ++ acc /\ ds <> [] /\
    forallb (fun c => negb (Ascii.eqb c "+") && negb (Ascii.eqb c "x")) ds = true /\
    forall max a t, (0 <= a)%Z -> (a * 10 ^ Z.of_nat (length ds) + v <= max)%Z ->
      digits_loop 10 max a (ds ++ t) = digits_loop 10 max (a * 10 ^ Z.of_nat (length ds) + v) t.
Proof.
  revert v acc. induction fuel as [|fuel IH]; intros v acc Hv Hf; [lia|]. simpl dec_digits.
  pose proof (Z.mod_pos_bound v 10 ltac:(lia)) as Hm.
  destruct (digit_char_plain _ Hm) as [Hplus Hx].
  assert (Hstep : forall max a t, (0 <= a)%Z -> (a * 10 + v mod 10 <= max)%Z ->
    digits_loop 10 max a (digit_char (v mod 10) :: t) = digits_loop 10 max (a * 10 + v mod 10) t).
  { intros max a t Ha Hmax. cbn [digits_loop]. rewrite digit_char_val by done.
    destruct (Z.leb_spec 10 (v mod 10)); [lia|]. cbv zeta.
    by destruct (Z.ltb_spec max (a * 10 + v mod 10)); [lia|]. }
  destruct (Z.ltb_spec v 10) as [Hlt|Hge].
  - exists [digit_char (v mod 10)]. split_and!; [done|done|by simpl; rewrite Hplus, Hx|].
    intros max a t Ha Hmax. simpl length in *. change (10 ^ Z.of_nat 1)%Z with 10%Z in *.
    rewrite Z.mod_small in * by lia. apply Hstep; lia.
  - assert (0 < fuel) as Hf' by (destruct fuel; [simpl in Hv; lia|lia]).
    assert (0 <= v / 10 < 10 ^ Z.of_nat fuel)%Z as Hv'.
    { rewrite Nat2Z.inj_succ, Z.pow_succ_r in Hv by lia. split; [apply Z.div_pos; lia|].
      apply Z.div_lt_upper_bound; lia. }
    destruct (IH (v / 10)%Z (digit_char (v mod 10) :: acc) Hv' Hf') as (ds & Heq & Hne & Hall & Hloop).
    exists (ds ++ [digit_char (v mod 10)]). split_and!.
    + by rewrite Heq, <- app_assoc.
    + by destruct ds.
    + rewrite forallb_app, Hall. simpl. by rewrite Hplus, Hx.
    + intros max a t Ha Hmax. rewrite length_app, <- app_assoc in *. simpl length in *. simpl app.
      rewrite Nat.add_1_r, Nat2Z.inj_succ, Z.pow_succ_r in * by lia.
      pose proof (Z.div_mod v 10 ltac:(lia)) as Hdm.
      assert (0 <= a * 10 ^ Z.of_nat (length ds))%Z by (apply Z.mul_nonneg_nonneg; [lia|apply Z.pow_nonneg; lia]).
      rewrite Hloop by lia. rewrite Hstep by lia. f_equal. lia.
Qed.

Lemma u32_display_spec v :
  (0 <= v <= u32_max)%Z ->
  exists c r, u32_display v = String c r /\ Ascii.eqb c "+" = false /\
    str_contains (fun c => Ascii.eqb c "x") (u32_display v) = false /\
    parse_u32 (u32_display v) = Some v.
Proof.
  intros Hv. unfold u32_display.
  destruct (dec_digits_spec 10 v []) as (ds & -> & Hne & Hall & Hloop);
    [unfold u32_max in Hv; lia|lia|].
  rewrite app_nil_r. destruct ds as [|c ds]; [done|]. exists c, (string_of_list_ascii ds).
  pose proof Hall as Hall'. simpl in Hall. rewrite !andb_true_iff, !negb_true_iff in Hall.
  destruct Hall as [[Hc _] _]. split_and!; [done|done| |].
  - unfold str_contains. rewrite list_ascii_of_string_of_list_ascii.
    apply not_true_iff_false. rewrite existsb_exists. intros (x & Hin & Hx).
    rewrite forallb_forall in Hall'. specialize (Hall' x Hin). rewrite Hx, andb_false_r in Hall'. done.
  - unfold parse_u32. cbn [string_of_list_ascii]. rewrite Hc. cbn [list_ascii_of_string].
    rewrite list_ascii_of_string_of_list_ascii.
    specialize (Hloop u32_max 0%Z [] ltac:(lia) ltac:(lia)). rewrite app_nil_r in Hloop.
    unfold from_str_radix. rewrite Hloop. cbn [digits_loop]. f_equal; lia.
Qed.

Lemma split_once_x_none s : str_contains (fun c => Ascii.eqb c "x") s = false -> split_once_x s = None.
Proof.
  induction s as [|c s IH]; [done|]. unfold str_contains. simpl. intros [-> H]%orb_false_iff.
  by rewrite IH.
Qed.

Lemma split_once_x_app s t :
  str_contains (fun c => Ascii.eqb c "x") s = false -> split_once_x (s +:+ "x" +:+ t) = Some (s, t).
Proof.
  induction s as [|c s IH]; [done|]. unfold str_contains. simpl. intros [-> H]%orb_false_iff.
  change (String.append s (String "x" t)) with (s +:+ "x" +:+ t). by rewrite IH.
Qed.

Lemma decode_shape_vector n : (2 <= n <= 4)%Z -> decode_shape (u32_display n) = Some (n, 1%Z).
Proof.
  intros Hn. destruct (u32_display_spec n) as (c & r & Hs & _ & Hx & Hp); [unfold u32_max; lia|].
  unfold decode_shape. rewrite (split_once_x_none _ Hx), Hp, Hs. simpl.
  destruct (Z.leb_spec 2 n), (Z.leb_spec n 4); (done || lia).
Qed.

Lemma decode_shape_matrix r c : (1 <= r <= u32_max)%Z -> (1 <= c <= u32_max)%Z ->
  decode_shape (u32_display r +:+ "x" +:+ u32_display c) = Some (r, c).
Proof.
  intros Hr Hc. destruct (u32_display_spec r) as (a & s & Hs & _ & Hx & Hpr); [lia|].
  destruct (u32_display_spec c) as (? & ? & _ & _ & _ & Hpc); [lia|].
  unfold decode_shape. rewrite (split_once_x_app _ _ Hx), Hpr, Hpc, Hs. simpl.
  destruct (Z.leb_spec 1 r), (Z.leb_spec 1 c); (done || lia).
Qed.

Lemma decode_type_word_shape k rest :
  decode_type_word (ScalarKind_display k +:+ rest) = shape_type k <$> decode_shape rest.
Proof. by destruct k. Qed.

(** Displaying a builtin type and decoding the word gives the type back. *)
Theorem decode_display (t : Type_) : word_type t -> decode_type_word (Type_display t) = Some t.
Proof.
  intros Ht. destruct t as [|k|k n|k r c| | |]; simpl in Ht; try done; simpl Type_display.
  - by destruct k.
  - rewrite decode_type_word_shape, decode_shape_vector by done. simpl.
    destruct (Z.eqb_spec n 1); [lia|done].
  - rewrite decode_type_word_shape, decode_shape_matrix by lia. simpl.
    destruct (Z.eqb_spec r 1), (Z.eqb_spec c 1); (done || lia).
Qed.

Lemma decode_display_witness : decode_type_word "float4x3" = Some (Ty_Matrix Sc_Float 4 3).
Proof. apply (decode_display (Ty_Matrix Sc_Float 4 3)). split; by vm_compute. Defined.
