(* ===== verification/HlslParser.v ===== *)
(** * The HLSL parser ([crates/hlsl-compiler/src/parser.rs])

    The recursive-descent parser as a state and error monad over the token
    array, its index and the set of struct names. Loops and recursion take fuel
    from the token count; the theorems show that it is never exhausted. *)
From Stdlib Require Import ZArith Lia Ascii String.
From stdpp Require Import base list option strings gmap.
From S2P Require Import Prelude HlslLexer HlslAst.
Local Open Scope rust_scope.

Record ParseError := mkParseError { pe_span : Span; pe_msg : Msg }.

Record Parser := mkParser { toks : list Token; idx : nat; struct_names : gset string }.

Definition Parser_new (ts : list Token) : Parser := mkParser ts 0 ∅.

Definition P (A : Type) : Type := M Parser ParseError A.

(** ** Token helpers *)

Definition token_at (i : nat) : P Token := fun p =>
  match toks p !! i with Some t => (Ok t, p) | None => (Panic, p) end.

Definition here : P Token := fun p => token_at (idx p) p.

Definition peek : P TokenKind := let! t := here in mret (kind t).

Definition at_eof : P bool :=
  let! k := peek in mret (match k with T_Eof => true | _ => false end).

Definition span_here : P Span := let! t := here in mret (span t).

(** The token before the cursor, [self.toks[self.idx.saturating_sub(1)].span]. *)
Definition span_before : P Span := fun p =>
  (let! t := token_at (idx p - 1) in mret (span t)) p.

Definition advance : P unit := fun p => (Ok tt, mkParser (toks p) (idx p + 1) (struct_names p)).

Definition bump : P TokenKind :=
  let! k := peek in
  match k with
  | T_Eof => mret k
  | _ => advance ;;; mret k
  end.

(** [std::mem::discriminant]: the variant, without its payload. *)
Definition discriminant (k : TokenKind) : nat :=
  match k with
  | T_Ident _ => 0 | T_Keyword _ => 1 | T_Semantic _ => 2 | T_IntLiteral _ => 3
  | T_UintLiteral _ => 4 | T_FloatLiteral _ => 5 | T_BoolLiteral _ => 6
  | T_LParen => 7 | T_RParen => 8 | T_LBrace => 9 | T_RBrace => 10 | T_LBracket => 11
  | T_RBracket => 12 | T_Comma => 13 | T_Semicolon => 14 | T_Colon => 15 | T_Dot => 16
  | T_Assign => 17 | T_EqEq => 18 | T_Neq => 19 | T_Lt => 20 | T_Le => 21 | T_Gt => 22
  | T_Ge => 23 | T_Plus => 24 | T_Minus => 25 | T_Star => 26 | T_Slash => 27
  | T_Percent => 28 | T_Bang => 29 | T_Tilde => 30 | T_Amp => 31 | T_Pipe => 32
  | T_Caret => 33 | T_AndAnd => 34 | T_OrOr => 35 | T_PlusEq => 36 | T_MinusEq => 37
  | T_StarEq => 38 | T_SlashEq => 39 | T_Eof => 40
  end.

Definition same_variant (a b : TokenKind) : bool := discriminant a =? discriminant b.

Definition eat (want : TokenKind) : P bool :=
  let! k := peek in
  if same_variant k want then bump ;;; mret true else mret false.

(** [err] of the parser: no state change. *)
Definition perr {A} (s : Span) (msg : Msg) : P A := mfail (mkParseError s msg).

Definition unexpected {A} (what : Msg) : P A :=
  let! s := span_here in
  let! got := peek in
  perr s ([P_lit "expected "] ++ what ++ [P_lit ", got "; P_kind got]).

Definition expect (want : TokenKind) (what : string) : P unit :=
  let! k := peek in
  if same_variant k want then bump ;;; mret tt else unexpected [P_lit what].

(** [Result::ok]: the error is dropped, the receiver keeps its state. *)
Definition ok {A} (m : P A) : P (option A) := fun p =>
  match m p with
  | (Ok a, p') => (Ok (Some a), p')
  | (Err _, p') => (Ok None, p')
  | (Panic, p') => (Panic, p')
  | (NoFuel, p') => (NoFuel, p')
  end.

Definition expect_ident (what : string) : P string :=
  let! k := bump in
  match k with
  | T_Ident s => mret s
  | other =>
      let! s := span_before in
      perr s [P_lit "expected "; P_lit what; P_lit ", got "; P_kind other]
  end.

(** Fuel for a loop that consumes a token per iteration. *)
Definition with_fuel {A} (f : nat -> P A) : P A := fun p => f (S (length (toks p))) p.

(** ** Types *)

(** Consume tokens until one of the [stop] variants or the end of input. *)
Fixpoint skip_until (stop : TokenKind) (n : nat) : P unit :=
  match n with
  | 0 => mnofuel
  | S n =>
      let! k := peek in
      if same_variant k stop || same_variant k T_Eof then mret tt
      else bump ;;; skip_until stop n
  end.

Definition skip_until_gt : P unit :=
  with_fuel (skip_until T_Gt) ;;;
  let! k := peek in
  match k with T_Gt => bump ;;; mret tt | _ => mret tt end.

Definition skip_until_rparen : P unit :=
  with_fuel (skip_until T_RParen) ;;;
  eat T_RParen ;;; mret tt.

Definition parse_type : P Type_ :=
  let! k := bump in
  match k with
  | T_Keyword Kw_Void => mret Ty_Void
  | T_Keyword Kw_Float => mret (Ty_Scalar Sc_Float)
  | T_Keyword Kw_Int => mret (Ty_Scalar Sc_Int)
  | T_Keyword Kw_Uint => mret (Ty_Scalar Sc_Uint)
  | T_Keyword Kw_Bool => mret (Ty_Scalar Sc_Bool)
  | T_Keyword Kw_SamplerState => mret Ty_SamplerState
  | T_Keyword Kw_Texture2D =>
      let! b := eat T_Lt in
      (if b : bool then skip_until_gt else mret tt) ;;; mret Ty_Texture2D
  | T_Ident s =>
      match decode_type_word s with
      | Some ty => mret ty
      | None =>
          let! p := mget in
          if decide (s ∈ struct_names p) then mret (Ty_Struct s)
          else let! sp := span_before in perr sp [P_lit "unknown type `"; P_name s; P_lit "`"]
      end
  | other =>
      let! sp := span_before in perr sp [P_lit "expected type, got "; P_kind other]
  end.

(** Number of leading tokens consumed by the type at the cursor. *)
Definition type_token_len : P nat :=
  let! k := peek in
  match k with
  | T_Keyword Kw_Void | T_Keyword Kw_Float | T_Keyword Kw_Int | T_Keyword Kw_Uint
  | T_Keyword Kw_Bool | T_Keyword Kw_SamplerState | T_Keyword Kw_Texture2D => mret 1
  | T_Ident s =>
      let! p := mget in
      if is_type_word s || bool_decide (s ∈ struct_names p) then mret 1 else mret 0
  | _ => mret 0
  end.

Definition peek_is_type : P bool := let! n := type_token_len in mret (0 <? n).

Definition looks_like_var_decl : P bool :=
  let! b := peek_is_type in
  if negb b then mret false
  else
    let! j := type_token_len in
    let! p := mget in
    let! t := token_at (idx p + j) in
    mret (match kind t with T_Ident _ => true | _ => false end).

(** ** Expressions *)

Definition or_op (k : TokenKind) : option BinaryOp :=
  match k with T_OrOr => Some Op_Or | _ => None end.
Definition and_op (k : TokenKind) : option BinaryOp :=
  match k with T_AndAnd => Some Op_And | _ => None end.
Definition equality_op (k : TokenKind) : option BinaryOp :=
  match k with T_EqEq => Some Op_Eq | T_Neq => Some Op_Ne | _ => None end.
Definition rel_op (k : TokenKind) : option BinaryOp :=
  match k with
  | T_Lt => Some Op_Lt | T_Le => Some Op_Le | T_Gt => Some Op_Gt | T_Ge => Some Op_Ge
  | _ => None
  end.
Definition add_op (k : TokenKind) : option BinaryOp :=
  match k with T_Plus => Some Op_Add | T_Minus => Some Op_Sub | _ => None end.
Definition mul_op (k : TokenKind) : option BinaryOp :=
  match k with T_Star => Some Op_Mul | T_Slash => Some Op_Div | T_Percent => Some Op_Mod | _ => None end.
Definition assign_op (k : TokenKind) : option BinaryOp :=
  match k with
  | T_Assign => Some Op_Assign | T_PlusEq => Some Op_AddAssign | T_MinusEq => Some Op_SubAssign
  | T_StarEq => Some Op_MulAssign | T_SlashEq => Some Op_DivAssign | _ => None
  end.
Definition unary_op (k : TokenKind) : option UnaryOp :=
  match k with T_Minus => Some Un_Neg | T_Bang => Some Un_Not | T_Tilde => Some Un_BitNot | _ => None end.

(** The loop of the left-associative levels: fold in operands while the next
    token is an operator of the level. *)
Fixpoint binary_loop (op_of : TokenKind -> option BinaryOp) (operand : P Expr)
    (n : nat) (lhs : Expr) : P Expr :=
  match n with
  | 0 => mnofuel
  | S n =>
      let! k := peek in
      match op_of k with
      | None => mret lhs
      | Some op =>
          bump ;;;
          let! rhs := operand in
          binary_loop op_of operand n (E_Binary op lhs rhs)
      end
  end.

Section Expressions.
(** The two recursive entry points, [parse_expr] and [parse_unary]. *)
Variables rec_expr rec_unary : P Expr.

Fixpoint args_loop (n : nat) (args : list Expr) : P (list Expr) :=
  match n with
  | 0 => mnofuel
  | S n =>
      let! e := rec_expr in
      let! b := eat T_Comma in
      if b : bool then args_loop n (args ++ [e]) else mret (args ++ [e])
  end.

Definition parse_args : P (list Expr) :=
  let! k := peek in
  match k with
  | T_RParen => mret []
  | _ => with_fuel (fun n => args_loop n [])
  end.

(** After the opening parenthesis: a cast, or a parenthesised expression. A
    type that is not closed by a parenthesis is read and dropped. *)
Definition parse_paren : P Expr :=
  let paren_expr := (let! e := rec_expr in expect T_RParen ")" ;;; mret e) in
  let! b := peek_is_type in
  if b : bool then
    let! ty := parse_type in
    let! c := eat T_RParen in
    if c : bool then
      let! inner := rec_unary in
      mret (E_Cast ty inner)
    else paren_expr
  else paren_expr.

Definition parse_primary : P Expr :=
  let! k := peek in
  match k with
  | T_IntLiteral v => bump ;;; mret (E_Literal (Lit_Int v))
  | T_UintLiteral v => bump ;;; mret (E_Literal (Lit_Uint v))
  | T_FloatLiteral v => bump ;;; mret (E_Literal (Lit_Float v))
  | T_BoolLiteral v => bump ;;; mret (E_Literal (Lit_Bool v))
  | T_LParen => bump ;;; parse_paren
  | T_Ident s =>
      bump ;;;
      let! b := eat T_LParen in
      if b : bool then
        let! args := parse_args in
        expect T_RParen ")" ;;;
        match decode_type_word s with
        | Some ty => mret (E_Construct ty args)
        | None => mret (E_Call s args)
        end
      else mret (E_Ident s)
  | other => unexpected [P_lit "expression, got "; P_kind other]
  end.

Fixpoint postfix_loop (n : nat) (e : Expr) : P Expr :=
  match n with
  | 0 => mnofuel
  | S n =>
      let! k := peek in
      match k with
      | T_Dot =>
          bump ;;;
          let! member := expect_ident "member name" in
          let! b := eat T_LParen in
          if b : bool then
            let! args := parse_args in
            expect T_RParen ")" ;;;
            postfix_loop n (E_MethodCall e member args)
          else postfix_loop n (E_Member e member)
      | _ => mret e
      end
  end.

Definition parse_postfix : P Expr :=
  let! e := parse_primary in with_fuel (fun n => postfix_loop n e).

Definition parse_unary_ : P Expr :=
  let! k := peek in
  match unary_op k with
  | Some op => bump ;;; let! e := rec_unary in mret (E_Unary op e)
  | None => parse_postfix
  end.

Definition left_assoc (op_of : TokenKind -> option BinaryOp) (operand : P Expr) : P Expr :=
  let! lhs := operand in with_fuel (fun n => binary_loop op_of operand n lhs).

Definition parse_mul : P Expr := left_assoc mul_op parse_unary_.
Definition parse_add : P Expr := left_assoc add_op parse_mul.
Definition parse_rel : P Expr := left_assoc rel_op parse_add.
Definition parse_equality : P Expr := left_assoc equality_op parse_rel.
Definition parse_and : P Expr := left_assoc and_op parse_equality.
Definition parse_or : P Expr := left_assoc or_op parse_and.

Definition parse_assign : P Expr :=
  let! lhs := parse_or in
  let! k := peek in
  match assign_op k with
  | Some op => bump ;;; let! rhs := rec_expr in mret (E_Binary op lhs rhs)
  | None => mret lhs
  end.
End Expressions.

(** [parse_expr] is [parse_assign]; the recursion is tied with fuel. *)
Fixpoint parse_expr_n (n : nat) (p : Parser) {struct n} : outcome ParseError Expr * Parser :=
  match n with
  | 0 => (NoFuel, p)
  | S n => parse_assign (parse_expr_n n) (parse_unary_n n) p
  end
with parse_unary_n (n : nat) (p : Parser) {struct n} : outcome ParseError Expr * Parser :=
  match n with
  | 0 => (NoFuel, p)
  | S n => parse_unary_ (parse_expr_n n) (parse_unary_n n) p
  end.

Definition parse_expr : P Expr := with_fuel parse_expr_n.

(** ** Declarations inside blocks *)

Definition parse_optional_semantic : P (option string) :=
  let! b := eat T_Colon in
  if negb b then mret None
  else
    let! k := bump in
    mret (match k with T_Semantic s | T_Ident s => Some s | _ => None end).

Definition parse_optional_register : P (option string) :=
  let! b := eat T_Colon in
  if negb b then mret None
  else
    let! r := ok (expect (T_Keyword Kw_Register) "register") in
    match r with
    | None => mret None
    | Some _ =>
        let! b := eat T_LParen in
        if negb b then mret None
        else
          let! k := bump in
          match k with
          | T_Ident s => skip_until_rparen ;;; mret (Some s)
          | _ => skip_until_rparen ;;; mret None
          end
    end.

Definition parse_var_decl : P VarDecl :=
  let! ty := parse_type in
  let! name := expect_ident "variable name" in
  let! semantic := parse_optional_semantic in
  let! b := eat T_Assign in
  let! init := (if b : bool then let! e := parse_expr in mret (Some e) else mret None) in
  mret (mkVarDecl ty name init semantic).

(** ** Statements *)

Definition parse_return : P Stmt :=
  expect (T_Keyword Kw_Return) "return" ;;;
  let! b := eat T_Semicolon in
  if b : bool then mret (S_Return None)
  else
    let! e := parse_expr in
    expect T_Semicolon ";" ;;;
    mret (S_Return (Some e)).

Section Statements.
Variable rec_stmt : P Stmt.

Fixpoint block_loop (n : nat) (stmts : list Stmt) : P Block :=
  match n with
  | 0 => mnofuel
  | S n =>
      let! k := peek in
      match k with
      | T_RBrace | T_Eof => mret stmts
      | _ => let! s := rec_stmt in block_loop n (stmts ++ [s])
      end
  end.

Definition parse_block_body : P Block := with_fuel (fun n => block_loop n []).

Definition parse_block_or_stmt : P Block :=
  let! b := eat T_LBrace in
  if b : bool then
    let! b := parse_block_body in
    expect T_RBrace "}" ;;;
    mret b
  else let! s := rec_stmt in mret [s].

Definition parse_if : P Stmt :=
  expect (T_Keyword Kw_If) "if" ;;;
  expect T_LParen "(" ;;;
  let! cond := parse_expr in
  expect T_RParen ")" ;;;
  let! then_ := parse_block_or_stmt in
  let! b := eat (T_Keyword Kw_Else) in
  let! else_ := (if b : bool then let! b := parse_block_or_stmt in mret (Some b) else mret None) in
  mret (S_If cond then_ else_).

Definition parse_for_init : P (option Stmt) :=
  let! b := eat T_Semicolon in
  if b : bool then mret None
  else
    let! d := looks_like_var_decl in
    let! s := (if d : bool then let! vd := parse_var_decl in mret (S_VarDecl vd)
               else let! e := parse_expr in mret (S_Expr e)) in
    expect T_Semicolon ";" ;;;
    mret (Some s).

Definition parse_for_cond : P (option Expr) :=
  let! b := eat T_Semicolon in
  if b : bool then mret None
  else
    let! e := parse_expr in
    expect T_Semicolon ";" ;;;
    mret (Some e).

Definition parse_for_update : P (option Expr) :=
  let! k := peek in
  match k with
  | T_RParen => mret None
  | _ => let! e := parse_expr in mret (Some e)
  end.

Definition parse_for : P Stmt :=
  expect (T_Keyword Kw_For) "for" ;;;
  expect T_LParen "(" ;;;
  let! init := parse_for_init in
  let! cond := parse_for_cond in
  let! update := parse_for_update in
  expect T_RParen ")" ;;;
  let! body := parse_block_or_stmt in
  mret (S_For init cond update body).

Definition parse_stmt_ : P Stmt :=
  let! k := peek in
  match k with
  | T_Keyword Kw_Return => parse_return
  | T_Keyword Kw_If => parse_if
  | T_Keyword Kw_For => parse_for
  | T_LBrace =>
      bump ;;;
      let! b := parse_block_body in
      expect T_RBrace "}" ;;;
      mret (S_Block b)
  | _ =>
      let! d := looks_like_var_decl in
      if d : bool then
        let! vd := parse_var_decl in
        expect T_Semicolon ";" ;;;
        mret (S_VarDecl vd)
      else
        let! e := parse_expr in
        expect T_Semicolon ";" ;;;
        mret (S_Expr e)
  end.
End Statements.

Fixpoint parse_stmt_n (n : nat) (p : Parser) {struct n} : outcome ParseError Stmt * Parser :=
  match n with
  | 0 => (NoFuel, p)
  | S n => parse_stmt_ (parse_stmt_n n) p
  end.

Definition parse_stmt : P Stmt := with_fuel parse_stmt_n.

(** ** Top-level declarations *)

Fixpoint members_loop (what : string) (n : nat) (ms : list StructMember) : P (list StructMember) :=
  match n with
  | 0 => mnofuel
  | S n =>
      let! b := eat T_RBrace in
      if b : bool then mret ms
      else
        let! ty := parse_type in
        let! name := expect_ident what in
        let! semantic := parse_optional_semantic in
        expect T_Semicolon ";" ;;;
        members_loop what n (ms ++ [mkStructMember ty name semantic])
  end.

Definition parse_struct : P StructDecl :=
  expect (T_Keyword Kw_Struct) "struct" ;;;
  let! name := expect_ident "struct name" in
  expect T_LBrace "{" ;;;
  let! ms := with_fuel (fun n => members_loop "member name" n []) in
  expect T_Semicolon "; after struct" ;;;
  mret (mkStructDecl name ms).

Definition parse_cbuffer : P CBufferDecl :=
  expect (T_Keyword Kw_CBuffer) "cbuffer" ;;;
  let! name := expect_ident "cbuffer name" in
  let! register := parse_optional_register in
  expect T_LBrace "{" ;;;
  let! ms := with_fuel (fun n => members_loop "cbuffer member name" n []) in
  expect T_Semicolon "; after cbuffer" ;;;
  mret (mkCBufferDecl name register ms).

Definition modifier_word (s : string) : bool :=
  existsb (String.eqb s) ["in"; "out"; "inout"; "uniform"]%string.

Definition eat_modifier_word : P unit :=
  let! k := peek in
  match k with
  | T_Ident s => if modifier_word s then bump ;;; mret tt else mret tt
  | _ => mret tt
  end.

Fixpoint params_loop (n : nat) (ps : list Param) : P (list Param) :=
  match n with
  | 0 => mnofuel
  | S n =>
      eat_modifier_word ;;;
      let! ty := parse_type in
      let! name := expect_ident "parameter name" in
      let! semantic := parse_optional_semantic in
      let ps := ps ++ [mkParam ty name semantic] in
      let! b := eat T_Comma in
      if b : bool then params_loop n ps else mret ps
  end.

Definition parse_params : P (list Param) :=
  let! k := peek in
  match k with
  | T_RParen => mret []
  | _ => with_fuel (fun n => params_loop n [])
  end.

Definition parse_function (ty : Type_) (name : string) : P Decl :=
  bump ;;;
  let! params := parse_params in
  expect T_RParen ")" ;;;
  let! semantic := parse_optional_semantic in
  let! b := eat T_Semicolon in
  if b : bool then mret (D_Function (mkFunctionDecl ty name params semantic None))
  else
    expect T_LBrace "{" ;;;
    let! body := parse_block_body parse_stmt in
    expect T_RBrace "}" ;;;
    mret (D_Function (mkFunctionDecl ty name params semantic (Some body))).

Definition parse_function_or_global_var : P Decl :=
  let! ty := parse_type in
  let! name := expect_ident "function or variable name" in
  let! k := peek in
  match k with
  | T_LParen => parse_function ty name
  | T_Colon =>
      let! register := parse_optional_register in
      expect T_Semicolon ";" ;;;
      mret (D_GlobalVar (mkGlobalVarDecl ty name register))
  | T_Semicolon => bump ;;; mret (D_GlobalVar (mkGlobalVarDecl ty name None))
  | other =>
      unexpected [P_lit "`(`, `:`, or `;` after `"; P_name name; P_lit "`, got "; P_kind other]
  end.

Definition insert_struct_name (s : string) : P unit := fun p =>
  (Ok tt, mkParser (toks p) (idx p) ({[s]} ∪ struct_names p)).

Definition parse_decl : P Decl :=
  let! k := peek in
  match k with
  | T_Keyword Kw_Struct =>
      let! s := parse_struct in
      insert_struct_name (sd_name s) ;;;
      mret (D_Struct s)
  | T_Keyword Kw_CBuffer => let! c := parse_cbuffer in mret (D_CBuffer c)
  | _ => parse_function_or_global_var
  end.

Fixpoint unit_loop (n : nat) (decls : list Decl) : P TranslationUnit :=
  match n with
  | 0 => mnofuel
  | S n =>
      let! e := at_eof in
      if e : bool then mret decls
      else let! d := parse_decl in unit_loop n (decls ++ [d])
  end.

Definition parse_unit : P TranslationUnit := with_fuel (fun n => unit_loop n []).

Definition parse (ts : list Token) : outcome ParseError TranslationUnit :=
  fst (parse_unit (Parser_new ts)).

(** ** The front end ([lib.rs], [compile] up to code generation) *)

Inductive CompileError := CE_Lex (e : LexError) | CE_Parse (e : ParseError).

Definition frontend (source : string) : outcome CompileError TranslationUnit :=
  match lex source with
  | Ok tokens =>
      match parse tokens with
      | Ok unit => Ok unit
      | Err e => Err (CE_Parse e)
      | Panic => Panic
      | NoFuel => NoFuel
      end
  | Err e => Err (CE_Lex e)
  | Panic => Panic
  | NoFuel => NoFuel
  end.
