(* ===== verification/HlslGrammar.v ===== *)
(** * The grammar of the HLSL subset, and the parser's soundness

    A declarative grammar over token kinds, and the proof that the parser of
    [HlslParser.v] always stops without a panic on a terminated token stream,
    reports errors at tokens of the stream, and returns only trees of the
    grammar. *)
From Stdlib Require Import ZArith Lia Ascii String.
From stdpp Require Import base list option strings gmap.
From S2P Require Import Prelude HlslLexer HlslAst HlslParser.
Local Open Scope rust_scope.
Set Warnings "-register-all".

(** ** Grammar *)

Definition keyword_type (k : Keyword) : option Type_ :=
  match k with
  | Kw_Void => Some Ty_Void
  | Kw_Float => Some (Ty_Scalar Sc_Float)
  | Kw_Int => Some (Ty_Scalar Sc_Int)
  | Kw_Uint => Some (Ty_Scalar Sc_Uint)
  | Kw_Bool => Some (Ty_Scalar Sc_Bool)
  | Kw_SamplerState => Some Ty_SamplerState
  | Kw_Texture2D => Some Ty_Texture2D
  | _ => None
  end.

(** Types; [sn] is the set of struct names declared so far. The element type of
    a texture is skipped up to [>], or to the end of the input. *)
Inductive g_type (sn : gset string) : list TokenKind -> Type_ -> Prop :=
  | gt_keyword k ty : keyword_type k = Some ty -> g_type sn [T_Keyword k] ty
  | gt_texture ks close : Forall (fun k => k <> T_Gt) ks -> close = [T_Gt] \/ close = [] ->
      g_type sn ([T_Keyword Kw_Texture2D] ++ [T_Lt] ++ ks ++ close) Ty_Texture2D
  | gt_word s ty : decode_type_word s = Some ty -> g_type sn [T_Ident s] ty
  | gt_struct s : decode_type_word s = None -> s ∈ sn -> g_type sn [T_Ident s] (Ty_Struct s).

Inductive Level :=
  | L_assign | L_or | L_and | L_equality | L_rel | L_add | L_mul | L_unary | L_postfix | L_primary.

(** The operators of a left-associative level, and the level of its operands. *)
Definition level_op (l : Level) : TokenKind -> option BinaryOp :=
  match l with
  | L_or => or_op | L_and => and_op | L_equality => equality_op | L_rel => rel_op
  | L_add => add_op | L_mul => mul_op | _ => fun _ => None
  end.

Definition below (l : Level) : Level :=
  match l with
  | L_assign => L_or | L_or => L_and | L_and => L_equality | L_equality => L_rel
  | L_rel => L_add | L_add => L_mul | L_mul => L_unary | L_unary => L_postfix
  | L_postfix => L_primary | L_primary => L_primary
  end.

Inductive g_expr (sn : gset string) : Level -> list TokenKind -> Expr -> Prop :=
  | ge_below l ts e : l <> L_primary -> g_expr sn (below l) ts e -> g_expr sn l ts e
  | ge_assign ts1 k op ts2 a b :
      assign_op k = Some op -> g_expr sn L_or ts1 a -> g_expr sn L_assign ts2 b ->
      g_expr sn L_assign (ts1 ++ [k] ++ ts2) (E_Binary op a b)
  | ge_binary l ts1 k op ts2 a b :
      level_op l k = Some op -> g_expr sn l ts1 a -> g_expr sn (below l) ts2 b ->
      g_expr sn l (ts1 ++ [k] ++ ts2) (E_Binary op a b)
  | ge_unary k op ts a :
      unary_op k = Some op -> g_expr sn L_unary ts a -> g_expr sn L_unary ([k] ++ ts) (E_Unary op a)
  | ge_member ts a m :
      g_expr sn L_postfix ts a ->
      g_expr sn L_postfix (ts ++ [T_Dot] ++ [T_Ident m]) (E_Member a m)
  | ge_method ts a m ts' args :
      g_expr sn L_postfix ts a -> g_args sn ts' args ->
      g_expr sn L_postfix (ts ++ [T_Dot] ++ [T_Ident m] ++ [T_LParen] ++ ts' ++ [T_RParen])
        (E_MethodCall a m args)
  | ge_int v : g_expr sn L_primary [T_IntLiteral v] (E_Literal (Lit_Int v))
  | ge_uint v : g_expr sn L_primary [T_UintLiteral v] (E_Literal (Lit_Uint v))
  | ge_float v : g_expr sn L_primary [T_FloatLiteral v] (E_Literal (Lit_Float v))
  | ge_bool v : g_expr sn L_primary [T_BoolLiteral v] (E_Literal (Lit_Bool v))
  | ge_ident s : g_expr sn L_primary [T_Ident s] (E_Ident s)
  | ge_construct s ty ts args :
      decode_type_word s = Some ty -> g_args sn ts args ->
      g_expr sn L_primary ([T_Ident s] ++ [T_LParen] ++ ts ++ [T_RParen]) (E_Construct ty args)
  | ge_call s ts args :
      decode_type_word s = None -> g_args sn ts args ->
      g_expr sn L_primary ([T_Ident s] ++ [T_LParen] ++ ts ++ [T_RParen]) (E_Call s args)
  | ge_paren ts a :
      g_expr sn L_assign ts a -> g_expr sn L_primary ([T_LParen] ++ ts ++ [T_RParen]) a
  | ge_cast tt ty ts a :
      g_type sn tt ty -> g_expr sn L_unary ts a ->
      g_expr sn L_primary ([T_LParen] ++ tt ++ [T_RParen] ++ ts) (E_Cast ty a)
  (** A type word after an opening parenthesis that is not a cast is dropped. *)
  | ge_paren_type tt ty ts a :
      g_type sn tt ty -> g_expr sn L_assign ts a ->
      g_expr sn L_primary ([T_LParen] ++ tt ++ ts ++ [T_RParen]) a
with g_args (sn : gset string) : list TokenKind -> list Expr -> Prop :=
  | ga_nil : g_args sn [] []
  | ga_one ts e : g_expr sn L_assign ts e -> g_args sn ts [e]
  | ga_cons ts e ts' es :
      g_expr sn L_assign ts e -> es <> [] -> g_args sn ts' es ->
      g_args sn (ts ++ [T_Comma] ++ ts') (e :: es).

(** A [: Semantic] clause; any other token after the colon is swallowed. *)
Inductive g_semantic : list TokenKind -> option string -> Prop :=
  | gsem_none : g_semantic [] None
  | gsem_semantic s : g_semantic ([T_Colon] ++ [T_Semantic s]) (Some s)
  | gsem_ident s : g_semantic ([T_Colon] ++ [T_Ident s]) (Some s)
  | gsem_other k : (forall s, k <> T_Semantic s /\ k <> T_Ident s) -> g_semantic ([T_Colon] ++ [k]) None
  | gsem_eof : g_semantic [T_Colon] None.

(** A [: register(b0)] clause and its malformed variants, which yield no
    register. Any keyword is accepted where [register] is expected. *)
Inductive g_register : list TokenKind -> option string -> Prop :=
  | greg_absent : g_register [] None
  | greg_colon : g_register [T_Colon] None
  | greg_keyword kw : g_register ([T_Colon] ++ [T_Keyword kw]) None
  | greg_some kw s junk close :
      Forall (fun k => k <> T_RParen) junk -> close = [T_RParen] \/ close = [] ->
      g_register ([T_Colon] ++ [T_Keyword kw] ++ [T_LParen] ++ [T_Ident s] ++ junk ++ close) (Some s)
  | greg_bad kw ks junk close :
      (ks = [] \/ exists k, ks = [k] /\ forall s, k <> T_Ident s) ->
      Forall (fun k => k <> T_RParen) junk -> close = [T_RParen] \/ close = [] ->
      g_register ([T_Colon] ++ [T_Keyword kw] ++ [T_LParen] ++ ks ++ junk ++ close) None.

Inductive g_var_decl (sn : gset string) : list TokenKind -> VarDecl -> Prop :=
  | gv_plain tt ty name ts sem :
      g_type sn tt ty -> g_semantic ts sem ->
      g_var_decl sn (tt ++ [T_Ident name] ++ ts) (mkVarDecl ty name None sem)
  | gv_init tt ty name ts sem te e :
      g_type sn tt ty -> g_semantic ts sem -> g_expr sn L_assign te e ->
      g_var_decl sn (tt ++ [T_Ident name] ++ ts ++ [T_Assign] ++ te) (mkVarDecl ty name (Some e) sem).

Inductive g_for_init (sn : gset string) : list TokenKind -> option Stmt -> Prop :=
  | gfi_none : g_for_init sn [T_Semicolon] None
  | gfi_decl ts d : g_var_decl sn ts d -> g_for_init sn (ts ++ [T_Semicolon]) (Some (S_VarDecl d))
  | gfi_expr ts e : g_expr sn L_assign ts e -> g_for_init sn (ts ++ [T_Semicolon]) (Some (S_Expr e)).

Inductive g_for_cond (sn : gset string) : list TokenKind -> option Expr -> Prop :=
  | gfc_none : g_for_cond sn [T_Semicolon] None
  | gfc_expr ts e : g_expr sn L_assign ts e -> g_for_cond sn (ts ++ [T_Semicolon]) (Some e).

Inductive g_for_update (sn : gset string) : list TokenKind -> option Expr -> Prop :=
  | gfu_none : g_for_update sn [] None
  | gfu_expr ts e : g_expr sn L_assign ts e -> g_for_update sn ts (Some e).

Inductive g_stmt (sn : gset string) : list TokenKind -> Stmt -> Prop :=
  | gs_return : g_stmt sn ([T_Keyword Kw_Return] ++ [T_Semicolon]) (S_Return None)
  | gs_return_expr ts e : g_expr sn L_assign ts e ->
      g_stmt sn ([T_Keyword Kw_Return] ++ ts ++ [T_Semicolon]) (S_Return (Some e))
  | gs_decl ts d : g_var_decl sn ts d -> g_stmt sn (ts ++ [T_Semicolon]) (S_VarDecl d)
  | gs_expr ts e : g_expr sn L_assign ts e -> g_stmt sn (ts ++ [T_Semicolon]) (S_Expr e)
  | gs_block ts b : g_block sn ts b -> g_stmt sn ([T_LBrace] ++ ts ++ [T_RBrace]) (S_Block b)
  | gs_if tc c tb b te e :
      g_expr sn L_assign tc c -> g_body sn tb b -> g_else sn te e ->
      g_stmt sn ([T_Keyword Kw_If] ++ [T_LParen] ++ tc ++ [T_RParen] ++ tb ++ te) (S_If c b e)
  | gs_for ti i tc c tu u tb b :
      g_for_init sn ti i -> g_for_cond sn tc c -> g_for_update sn tu u -> g_body sn tb b ->
      g_stmt sn ([T_Keyword Kw_For] ++ [T_LParen] ++ ti ++ tc ++ tu ++ [T_RParen] ++ tb) (S_For i c u b)
with g_block (sn : gset string) : list TokenKind -> list Stmt -> Prop :=
  | gb_nil : g_block sn [] []
  | gb_cons ts s ts' b : g_stmt sn ts s -> g_block sn ts' b -> g_block sn (ts ++ ts') (s :: b)
with g_body (sn : gset string) : list TokenKind -> Block -> Prop :=
  | gbody_block ts b : g_block sn ts b -> g_body sn ([T_LBrace] ++ ts ++ [T_RBrace]) b
  | gbody_stmt ts s : g_stmt sn ts s -> g_body sn ts [s]
(** Any keyword opens the else branch: [eat] compares variants only. *)
with g_else (sn : gset string) : list TokenKind -> option Block -> Prop :=
  | gel_none : g_else sn [] None
  | gel_some kw ts b : g_body sn ts b -> g_else sn ([T_Keyword kw] ++ ts) (Some b).

Inductive g_members (sn : gset string) : list TokenKind -> list StructMember -> Prop :=
  | gm_nil : g_members sn [] []
  | gm_cons tt ty name ts sem ts' ms :
      g_type sn tt ty -> g_semantic ts sem -> g_members sn ts' ms ->
      g_members sn (tt ++ [T_Ident name] ++ ts ++ [T_Semicolon] ++ ts') (mkStructMember ty name sem :: ms).

Inductive g_param (sn : gset string) : list TokenKind -> Param -> Prop :=
  | gp_param mods tt ty name ts sem :
      mods = [] \/ (exists w, mods = [T_Ident w] /\ modifier_word w = true) ->
      g_type sn tt ty -> g_semantic ts sem ->
      g_param sn (mods ++ tt ++ [T_Ident name] ++ ts) (mkParam ty name sem).

Inductive g_params (sn : gset string) : list TokenKind -> list Param -> Prop :=
  | gps_nil : g_params sn [] []
  | gps_one ts p : g_param sn ts p -> g_params sn ts [p]
  | gps_cons ts p ts' ps : g_param sn ts p -> ps <> [] -> g_params sn ts' ps ->
      g_params sn (ts ++ [T_Comma] ++ ts') (p :: ps).

Inductive g_decl (sn : gset string) : list TokenKind -> Decl -> Prop :=
  | gd_struct name ts ms : g_members sn ts ms ->
      g_decl sn ([T_Keyword Kw_Struct] ++ [T_Ident name] ++ [T_LBrace] ++ (ts ++ [T_RBrace]) ++ [T_Semicolon])
        (D_Struct (mkStructDecl name ms))
  | gd_cbuffer name tr reg ts ms : g_register tr reg -> g_members sn ts ms ->
      g_decl sn ([T_Keyword Kw_CBuffer] ++ [T_Ident name] ++ tr ++ [T_LBrace] ++ (ts ++ [T_RBrace]) ++ [T_Semicolon])
        (D_CBuffer (mkCBufferDecl name reg ms))
  | gd_prototype tt ty name tp ps ts sem :
      g_type sn tt ty -> g_params sn tp ps -> g_semantic ts sem ->
      g_decl sn (tt ++ [T_Ident name] ++ [T_LParen] ++ tp ++ [T_RParen] ++ ts ++ [T_Semicolon])
        (D_Function (mkFunctionDecl ty name ps sem None))
  | gd_function tt ty name tp ps ts sem tb b :
      g_type sn tt ty -> g_params sn tp ps -> g_semantic ts sem -> g_block sn tb b ->
      g_decl sn (tt ++ [T_Ident name] ++ [T_LParen] ++ tp ++ [T_RParen] ++ ts ++ [T_LBrace] ++ tb ++ [T_RBrace])
        (D_Function (mkFunctionDecl ty name ps sem (Some b)))
  | gd_global_register tt ty name tr reg :
      g_type sn tt ty -> g_register tr reg ->
      g_decl sn (tt ++ [T_Ident name] ++ tr ++ [T_Semicolon]) (D_GlobalVar (mkGlobalVarDecl ty name reg))
  | gd_global tt ty name :
      g_type sn tt ty ->
      g_decl sn (tt ++ [T_Ident name] ++ [T_Semicolon]) (D_GlobalVar (mkGlobalVarDecl ty name None)).

(** Declarations in order; a struct's name is a type in what follows it. *)
Definition declare (d : Decl) (sn : gset string) : gset string :=
  match d with D_Struct s => {[sd_name s]} ∪ sn | _ => sn end.

Inductive g_unit : gset string -> list TokenKind -> TranslationUnit -> Prop :=
  | gu_nil sn : g_unit sn [] []
  | gu_cons sn ts d ts' ds : g_decl sn ts d -> g_unit (declare d sn) ts' ds -> g_unit sn (ts ++ ts') (d :: ds).

Create HintDb grammar.
#[export] Hint Constructors g_type g_expr g_args g_semantic g_register g_var_decl g_for_init
  g_for_cond g_for_update g_stmt g_block g_body g_else g_members g_param g_params g_decl g_unit : grammar.

(** ** Weakest preconditions over a fixed token array *)

(** A token array as the lexer produces it: one final [Eof]. *)
Definition terminated (ts : list Token) : Prop :=
  exists body e, ts = body ++ [e] /\ kind e = T_Eof /\ Forall (fun t => kind t <> T_Eof) body.

(** The well-formedness and length facts of a step, and the names of the start
    state in every fact about a later state. *)
Ltac use_step_with step_wf step_length H :=
  let L := fresh "Hlen" in
  pose proof (step_wf _ _ _ H); pose proof (step_length _ _ _ H) as L;
  repeat rewrite length_app in L; simpl in L.

Section Soundness.
Context (T : list Token) (HT : terminated T).

Definition rest (p : Parser) : list TokenKind := map kind (drop (idx p) (toks p)).

Definition wf (p : Parser) : Prop := toks p = T /\ idx p < length T.

(** Errors are located at a token of the array. *)
Definition located (e : ParseError) : Prop := In (pe_span e) (map span T).

Definition pwp {A} (m : P A) (p : Parser) (Q : A -> Parser -> Prop) : Prop :=
  match m p with
  | (Ok a, p') => Q a p'
  | (Err e, _) => located e
  | _ => False
  end.

(** From [p] to [p'] the parser consumed the tokens [c]. *)
Definition step (p : Parser) (c : list TokenKind) (p' : Parser) : Prop :=
  wf p' /\ struct_names p' = struct_names p /\ rest p = c ++ rest p'.

Lemma step_refl p : wf p -> step p [] p.
Proof. done. Qed.

Lemma step_trans p c1 p1 c2 p2 : step p c1 p1 -> step p1 c2 p2 -> step p (c1 ++ c2) p2.
Proof.
  intros (? & Hs1 & H1) (? & Hs2 & H2). split_and!; [done|congruence|].
  by rewrite H1, H2, app_assoc.
Qed.

Lemma step_wf p c p' : step p c p' -> wf p'.
Proof. by intros []. Qed.

Lemma step_names p c p' : step p c p' -> struct_names p' = struct_names p.
Proof. by intros (? & ? & ?). Qed.

Lemma step_length p c p' : step p c p' -> length (rest p) = length c + length (rest p').
Proof. intros (_ & _ & ->). apply length_app. Qed.

Lemma rest_cons p : wf p -> exists t r, T !! idx p = Some t /\ rest p = kind t :: r /\
  (kind t = T_Eof -> r = []) /\ (kind t <> T_Eof -> idx p + 1 < length T).
Proof.
  intros [Ht Hi]. destruct HT as (body & e & Hb & He & Hall).
  destruct (lookup_lt_is_Some_2 _ _ Hi) as [t Hl]. exists t, (map kind (drop (S (idx p)) T)).
  split_and!; [done| | |].
  - unfold rest. by rewrite Ht, (drop_S _ t).
  - intros Hk. rewrite Hb in Hl. apply lookup_app_Some in Hl as [Hl|[Hge Hl]].
    + rewrite Forall_lookup in Hall. by apply Hall in Hl.
    + apply list_lookup_singleton_Some in Hl as [Hl _].
      rewrite drop_ge; [done|]. rewrite Hb, length_app. simpl. lia.
  - intros Hk. rewrite Hb in Hl |- *. rewrite length_app. simpl.
    apply lookup_app_Some in Hl as [Hl|[Hge Hl]].
    + apply lookup_lt_Some in Hl. lia.
    + apply list_lookup_singleton_Some in Hl as [_ <-]. done.
Qed.

Lemma rest_pos p : wf p -> 0 < length (rest p).
Proof. intros Hwf. destruct (rest_cons p Hwf) as (t & r & _ & -> & _). simpl. lia. Qed.

Lemma rest_fuel p : wf p -> length (rest p) <= length (toks p).
Proof. intros _. unfold rest. rewrite length_map, length_drop. lia. Qed.

Lemma pwp_bind {A B} (m : P A) (k : A -> P B) p Q :
  pwp m p (fun a p' => pwp (k a) p' Q) -> pwp (mbind m k) p Q.
Proof. unfold pwp, mbind. destruct (m p) as [[]?]; done. Qed.

Lemma pwp_ret {A} (a : A) p (Q : A -> Parser -> Prop) : Q a p -> pwp (mret a) p Q.
Proof. done. Qed.

Lemma pwp_mono {A} (m : P A) p (Q Q' : A -> Parser -> Prop) :
  pwp m p Q -> (forall a p', Q a p' -> Q' a p') -> pwp m p Q'.
Proof. unfold pwp. destruct (m p) as [[]?]; auto. Qed.

Lemma pwp_get p (Q : Parser -> Parser -> Prop) : Q p p -> pwp mget p Q.
Proof. done. Qed.

Lemma pwp_with_fuel {A} (f : nat -> P A) p Q : pwp (f (S (length (toks p)))) p Q -> pwp (with_fuel f) p Q.
Proof. done. Qed.

Lemma pwp_peek p (Q : TokenKind -> Parser -> Prop) :
  wf p -> (forall k r, rest p = k :: r -> Q k p) -> pwp peek p Q.
Proof.
  intros Hwf HQ. destruct (rest_cons p Hwf) as (t & r & Hl & Hr & _). destruct Hwf as [Ht _].
  unfold pwp, peek, here, token_at, mbind. rewrite Ht, Hl. eapply HQ, Hr.
Qed.

Lemma pwp_token_at i p (Q : Token -> Parser -> Prop) :
  wf p -> i < length T -> (forall t, T !! i = Some t -> Q t p) -> pwp (token_at i) p Q.
Proof.
  intros [Ht _] Hi HQ. destruct (lookup_lt_is_Some_2 _ _ Hi) as [t Hl].
  unfold pwp, token_at. rewrite Ht, Hl. by apply HQ.
Qed.

(** [bump] consumes any token but [Eof]. *)
Lemma pwp_bump p k r (Q : TokenKind -> Parser -> Prop) :
  wf p -> rest p = k :: r ->
  (forall p', k <> T_Eof -> step p [k] p' -> Q k p') -> (k = T_Eof -> Q k p) -> pwp bump p Q.
Proof.
  intros Hwf Hk HQ Heof. apply pwp_bind, pwp_peek; [done|]. intros k' r' Hk'.
  rewrite Hk in Hk'. injection Hk' as <- <-.
  destruct (rest_cons p Hwf) as (t & r1 & Hl & Hr & _ & Hlt). rewrite Hk in Hr. injection Hr as Hkt _.
  assert (Hadv : k <> T_Eof -> pwp (advance ;;; mret k) p Q).
  { intros Hne. apply pwp_bind. unfold pwp, advance, mret. apply HQ; [done|]. destruct Hwf as [Ht Hi].
    repeat split; simpl; [done|apply Hlt; congruence|].
    unfold rest; simpl. rewrite Ht, (drop_S _ t), Hkt, Nat.add_1_r by done. done. }
  destruct (decide (k = T_Eof)) as [->|Hne]; [by apply pwp_ret, Heof|]. destruct k; auto; done.
Qed.

Lemma pwp_bump_ne p k r (Q : TokenKind -> Parser -> Prop) :
  wf p -> rest p = k :: r -> k <> T_Eof -> (forall p', step p [k] p' -> Q k p') -> pwp bump p Q.
Proof. intros. eapply pwp_bump; eauto; done. Qed.

Lemma in_spans i t : T !! i = Some t -> In (span t) (map span T).
Proof. intros H. apply in_map, list_elem_of_In. by eapply list_elem_of_lookup_2. Qed.

Lemma pwp_unexpected {A} what p (Q : A -> Parser -> Prop) : wf p -> pwp (unexpected what) p Q.
Proof.
  intros Hwf. destruct (rest_cons p Hwf) as (t & r & Hl & Hr & _). destruct Hwf as [Ht _].
  unfold pwp, unexpected, span_here, peek, here, token_at, mbind. rewrite Ht, Hl. simpl. rewrite Ht, Hl.
  by eapply in_spans.
Qed.

(** Reporting an error at the token before the cursor. *)
Lemma pwp_error_before {A} (f : Span -> Msg) p (Q : A -> Parser -> Prop) :
  wf p -> pwp (let! s := span_before in perr s (f s)) p Q.
Proof.
  intros Hwf. apply pwp_bind. unfold pwp, span_before, token_at, mbind. destruct Hwf as [Ht Hi].
  rewrite Ht. destruct (lookup_lt_is_Some_2 T (idx p - 1) ltac:(lia)) as [t Hl]. rewrite Hl.
  simpl. by eapply in_spans.
Qed.

Lemma pwp_eat want p (Q : bool -> Parser -> Prop) :
  wf p -> want <> T_Eof ->
  (forall k r p', rest p = k :: r -> same_variant k want = true -> step p [k] p' -> Q true p') ->
  (forall k r, rest p = k :: r -> same_variant k want = false -> Q false p) -> pwp (eat want) p Q.
Proof.
  intros Hwf Hw Htrue Hfalse. apply pwp_bind, pwp_peek; [done|]. intros k r Hk.
  destruct (same_variant k want) eqn:E; [|by eapply pwp_ret, Hfalse].
  apply pwp_bind. eapply pwp_bump_ne; [done|done| |].
  - intros ->. unfold same_variant in E. apply Nat.eqb_eq in E. by destruct want.
  - intros p' Hs. eapply pwp_ret, Htrue; eauto.
Qed.

Lemma pwp_expect want what p (Q : unit -> Parser -> Prop) :
  wf p -> want <> T_Eof ->
  (forall k r p', rest p = k :: r -> same_variant k want = true -> step p [k] p' -> Q tt p') ->
  pwp (expect want what) p Q.
Proof.
  intros Hwf Hw HQ. apply pwp_bind, pwp_peek; [done|]. intros k r Hk.
  destruct (same_variant k want) eqn:E; [|by apply pwp_unexpected].
  apply pwp_bind. eapply pwp_bump_ne; [done|done| |].
  - intros ->. unfold same_variant in E. apply Nat.eqb_eq in E. by destruct want.
  - intros p' Hs. eapply pwp_ret, HQ; eauto.
Qed.

Lemma pwp_expect_ident what p (Q : string -> Parser -> Prop) :
  wf p -> (forall s p', step p [T_Ident s] p' -> Q s p') -> pwp (expect_ident what) p Q.
Proof.
  intros Hwf HQ. destruct (rest_cons p Hwf) as (t & r & _ & Hr & _).
  apply pwp_bind. eapply pwp_bump; [done|exact Hr| |].
  - intros p' Hne Hs. pose proof (step_wf _ _ _ Hs). destruct (kind t); try by apply pwp_error_before.
    by apply pwp_ret, HQ.
  - intros ->. by apply pwp_error_before.
Qed.

(** Variants without a payload are equal when their discriminants are. *)
Definition plain (k : TokenKind) : bool := (7 <=? discriminant k) && negb (discriminant k =? 40).

Lemma same_variant_plain k want : plain want = true -> same_variant k want = true -> k = want.
Proof. unfold same_variant. intros Hp H%Nat.eqb_eq. by destruct want, k. Qed.

Lemma same_variant_keyword k kw : same_variant k (T_Keyword kw) = true -> exists kw', k = T_Keyword kw'.
Proof. unfold same_variant. intros H%Nat.eqb_eq. destruct k; try done. eauto. Qed.

Lemma plain_not_eof k : plain k = true -> k <> T_Eof.
Proof. by intros H ->. Qed.

Lemma pwp_eat_plain want p (Q : bool -> Parser -> Prop) :
  wf p -> plain want = true -> (forall p', step p [want] p' -> Q true p') ->
  (forall k r, rest p = k :: r -> k <> want -> Q false p) -> pwp (eat want) p Q.
Proof.
  intros Hwf Hp Htrue Hfalse. apply pwp_eat; [done|by apply plain_not_eof| |].
  - intros k r p' _ Hv Hs. apply same_variant_plain in Hv as ->; auto.
  - intros k r Hk Hv. apply (Hfalse k r); [done|]. intros ->. unfold same_variant in Hv.
    by rewrite Nat.eqb_refl in Hv.
Qed.

Lemma pwp_expect_plain want what p (Q : unit -> Parser -> Prop) :
  wf p -> plain want = true -> (forall p', step p [want] p' -> Q tt p') -> pwp (expect want what) p Q.
Proof.
  intros Hwf Hp HQ. apply pwp_expect; [done|by apply plain_not_eof|].
  intros k r p' _ Hv Hs. apply same_variant_plain in Hv as ->; auto.
Qed.

(** The keyword under the cursor has been looked at already. *)
Lemma pwp_expect_keyword kw what p r (Q : unit -> Parser -> Prop) :
  wf p -> rest p = T_Keyword kw :: r -> (forall p', step p [T_Keyword kw] p' -> Q tt p') ->
  pwp (expect (T_Keyword kw) what) p Q.
Proof.
  intros Hwf Hr HQ. apply pwp_expect; [done|done|]. intros k r' p' Hk _ Hs.
  rewrite Hr in Hk. injection Hk as <- <-. auto.
Qed.

(** What a parsing function promises: it consumes some tokens and returns a
    tree of the grammar for them. [n] bounds the input it is used on. *)
Definition parses {A} (m : P A) (G : gset string -> list TokenKind -> A -> Prop) (n : nat) : Prop :=
  forall p, wf p -> length (rest p) <= n ->
  pwp m p (fun a p' => exists c, step p c p' /\ c <> [] /\ G (struct_names p) c a).

(** The same without the guarantee that something is consumed. *)
Definition parses0 {A} (m : P A) (G : gset string -> list TokenKind -> A -> Prop) : Prop :=
  forall p, wf p -> pwp m p (fun a p' => exists c, step p c p' /\ G (struct_names p) c a).

Ltac use_step H := use_step_with step_wf step_length H.

Ltac norm_names :=
  repeat match goal with
  | Hs : step _ _ ?p, H : context [struct_names ?p] |- _ => rewrite (step_names _ _ _ Hs) in H
  | Hs : step _ _ ?p |- context [struct_names ?p] => rewrite (step_names _ _ _ Hs)
  end.

(** The tokens of a step up to the association of their parts. *)
Ltac reassoc Hs :=
  match type of Hs with step _ ?c _ =>
  match goal with |- step _ ?d _ =>
    replace d with c; [exact Hs|repeat (simpl; rewrite <- ?app_assoc); reflexivity] end end.

(** ** Types and clauses *)

Lemma skip_until_spec stop n p :
  wf p -> plain stop = true -> length (rest p) <= n ->
  pwp (skip_until stop n) p (fun _ p' => exists ks k r, step p ks p' /\
    Forall (fun k => k <> stop) ks /\ rest p' = k :: r /\ (k = stop \/ k = T_Eof)).
Proof.
  revert p. induction n as [|n IH]; intros p Hwf Hstop Hn.
  { destruct (rest_cons p Hwf) as (t & r & _ & Hr & _). rewrite Hr in Hn. simpl in Hn. lia. }
  simpl. apply pwp_bind, pwp_peek; [done|]. intros k r Hk.
  destruct (same_variant k stop || same_variant k T_Eof) eqn:E.
  - apply pwp_ret. exists [], k, r. split_and!; [by apply step_refl|done|done|].
    apply orb_prop in E as [E|E]; [left; by apply same_variant_plain|right].
    unfold same_variant in E. apply Nat.eqb_eq in E. by destruct k.
  - apply orb_false_iff in E as [E1 E2].
    assert (k <> stop /\ k <> T_Eof) as [Hk1 Hk2].
    { split; intros ->; unfold same_variant in *; by rewrite Nat.eqb_refl in *. }
    apply pwp_bind. eapply pwp_bump_ne; [done..|]. intros p' Hs. pose proof (step_length _ _ _ Hs) as Hl.
    eapply pwp_mono; [apply IH; [by eapply step_wf|done|simpl in Hl; lia]|].
    intros _ p2 (ks & k2 & r2 & Hs2 & Hall & Hr2 & Hk2'). exists ([k] ++ ks), k2, r2.
    split_and!; [by eapply step_trans|by constructor|done|done].
Qed.

Lemma skip_until_fuel stop p (Q : unit -> Parser -> Prop) :
  wf p -> plain stop = true ->
  (forall p' ks k r, step p ks p' -> Forall (fun k => k <> stop) ks -> rest p' = k :: r ->
     k = stop \/ k = T_Eof -> Q tt p') ->
  pwp (with_fuel (skip_until stop)) p Q.
Proof.
  intros Hwf Hstop HQ. apply pwp_with_fuel. pose proof (rest_fuel p Hwf).
  eapply pwp_mono; [apply skip_until_spec; [done|done|lia]|].
  intros [] p' (ks & k & r & ? & ? & ? & ?). eauto.
Qed.

Definition closed_by (stop : TokenKind) (p : Parser) (p' : Parser) : Prop :=
  exists ks close, step p (ks ++ close) p' /\ Forall (fun k => k <> stop) ks /\
    (close = [stop] \/ close = []).

Lemma skip_until_gt_spec p : wf p -> pwp skip_until_gt p (fun _ p' => closed_by T_Gt p p').
Proof.
  intros Hwf. apply pwp_bind, skip_until_fuel; [done|done|]. intros p1 ks k r Hs Hall Hr Hk.
  pose proof (step_wf _ _ _ Hs) as Hwf1. apply pwp_bind, pwp_peek; [done|]. intros k' r' Hr'.
  rewrite Hr in Hr'. injection Hr' as <- <-. destruct Hk as [-> | ->].
  - apply pwp_bind. eapply pwp_bump_ne; [done..|]. intros p2 Hs2. apply pwp_ret.
    exists ks, [T_Gt]. split_and!; [by eapply step_trans|done|by left].
  - apply pwp_ret. exists ks, []. rewrite app_nil_r. auto.
Qed.

Lemma skip_until_rparen_spec p : wf p -> pwp skip_until_rparen p (fun _ p' => closed_by T_RParen p p').
Proof.
  intros Hwf. apply pwp_bind, skip_until_fuel; [done|done|]. intros p1 ks k r Hs Hall Hr Hk.
  pose proof (step_wf _ _ _ Hs) as Hwf1. apply pwp_bind, pwp_eat_plain; [done|done| |].
  - intros p2 Hs2. apply pwp_ret. exists ks, [T_RParen]. split_and!; [by eapply step_trans|done|by left].
  - intros _ _ _ _. apply pwp_ret. exists ks, []. rewrite app_nil_r. auto.
Qed.

Lemma parse_type_spec n : parses parse_type g_type n.
Proof.
  intros p Hwf _. destruct (rest_cons p Hwf) as (t & r & _ & Hr & _).
  apply pwp_bind. eapply pwp_bump; [done|exact Hr| |intros ->; by apply pwp_error_before].
  intros p1 Hne Hs. pose proof (step_wf _ _ _ Hs) as Hwf1.
  assert (Hkw : forall kw ty, kind t = T_Keyword kw -> keyword_type kw = Some ty ->
    pwp (mret ty) p1 (fun a p' => exists c, step p c p' /\ c <> [] /\ g_type (struct_names p) c a)).
  { intros kw ty Hk Hty. apply pwp_ret. exists [T_Keyword kw]. rewrite <- Hk at 1. split_and!; auto with grammar. }
  destruct (kind t) as [s|kw | | | | | | | | | | | | | | | | | | | | | | | | | | | | | | | | | | | | | | | ];
    try (by apply pwp_error_before).
  - destruct (decode_type_word s) as [ty|] eqn:Hd.
    { apply pwp_ret. exists [T_Ident s]. split_and!; auto with grammar. }
    apply pwp_bind, pwp_get. rewrite (step_names _ _ _ Hs). destruct (decide _).
    + apply pwp_ret. exists [T_Ident s]. split_and!; auto with grammar.
    + by apply pwp_error_before.
  - destruct kw; try (by apply pwp_error_before); try (by eapply Hkw).
    apply pwp_bind, pwp_eat_plain; [done|done| |intros _ _ _ _; by eapply Hkw].
    intros p2 Hs2. apply pwp_bind. eapply pwp_mono; [apply skip_until_gt_spec; by eapply step_wf|].
    intros _ p3 (ks & close & Hs3 & Hall & Hclose). apply pwp_ret.
    exists ([T_Keyword Kw_Texture2D] ++ [T_Lt] ++ ks ++ close).
    split_and!; [eauto using step_trans|done|by apply gt_texture].
Qed.

Lemma parse_optional_semantic_spec : parses0 parse_optional_semantic (fun _ => g_semantic).
Proof.
  intros p Hwf. apply pwp_bind, pwp_eat_plain; [done|done| |].
  2:{ intros _ _ _ _. apply pwp_ret. exists []. auto using step_refl with grammar. }
  intros p1 Hs. pose proof (step_wf _ _ _ Hs) as Hwf1. simpl.
  destruct (rest_cons p1 Hwf1) as (t & r & _ & Hr & _).
  apply pwp_bind. eapply pwp_bump; [done|exact Hr| |].
  - intros p2 Hne Hs2. apply pwp_ret. exists ([T_Colon] ++ [kind t]).
    split; [by eapply step_trans|]. destruct (kind t); auto with grammar; by constructor.
  - intros ->. apply pwp_ret. exists [T_Colon]. auto with grammar.
Qed.
(** ** Expressions *)

(** Runs a function whose promise is known: what is left to show is the
    continuation, with the grammar facts about the names of the start state. *)
Lemma pwp_use {A B} (m : P A) G n p (k : A -> P B) Q :
  parses m G n -> wf p -> length (rest p) <= n ->
  (forall a c p', step p c p' -> c <> [] -> G (struct_names p) c a -> pwp (k a) p' Q) ->
  pwp (mbind m k) p Q.
Proof.
  intros Hm Hwf Hn HQ. apply pwp_bind. eapply pwp_mono; [by apply Hm|].
  intros a p' (c & Hs & Hne & Hg). eauto.
Qed.

Lemma pwp_use0 {A B} (m : P A) G p (k : A -> P B) Q :
  parses0 m G -> wf p ->
  (forall a c p', step p c p' -> G (struct_names p) c a -> pwp (k a) p' Q) ->
  pwp (mbind m k) p Q.
Proof.
  intros Hm Hwf HQ. apply pwp_bind. eapply pwp_mono; [by apply Hm|].
  intros a p' (c & Hs & Hg). eauto.
Qed.

(** Consuming [c] leaves less to read. *)
Lemma step_shorter p c p' n : step p c p' -> c <> [] -> length (rest p) <= S n -> length (rest p') <= n.
Proof. intros Hs Hne Hn. apply step_length in Hs. destruct c; simpl in *; [done|lia]. Qed.

Lemma binary_loop_spec lvl m n k lhs c0 p :
  parses m (fun sn => g_expr sn (below lvl)) n -> wf p -> length (rest p) <= S n -> length (rest p) <= k ->
  g_expr (struct_names p) lvl c0 lhs ->
  pwp (binary_loop (level_op lvl) m k lhs) p
     (fun e p' => exists c, step p c p' /\ g_expr (struct_names p) lvl (c0 ++ c) e).
Proof.
  intros Hm. revert lhs c0 p. induction k as [|k IH]; intros lhs c0 p Hwf Hn Hk Hlhs.
  { destruct (rest_cons p Hwf) as (t & r & _ & Hr & _). rewrite Hr in Hk. simpl in Hk. lia. }
  simpl. apply pwp_bind, pwp_peek; [done|]. intros tk r Hr.
  destruct (level_op lvl tk) as [op|] eqn:Hop.
  2:{ apply pwp_ret. exists []. rewrite app_nil_r. auto using step_refl. }
  assert (tk <> T_Eof) as Hne by (intros ->; by destruct lvl).
  apply pwp_bind. eapply pwp_bump_ne; [done..|]. intros p1 Hs1.
  pose proof (step_wf _ _ _ Hs1) as Hwf1.
  pose proof (step_shorter _ _ _ n Hs1 ltac:(done) Hn) as Hn1.
  pose proof (step_shorter _ _ _ k Hs1 ltac:(done) Hk) as Hk1.
  eapply pwp_use; [done..|]. intros b c p2 Hs2 Hne2 Hb. rewrite (step_names _ _ _ Hs1) in Hb.
  pose proof (step_wf _ _ _ Hs2) as Hwf2. pose proof (step_length _ _ _ Hs2) as Hl2.
  eapply pwp_mono; [apply (IH _ (c0 ++ [tk] ++ c) p2); [done|lia|lia|]|].
  - rewrite (step_names _ _ _ Hs2), (step_names _ _ _ Hs1). by apply ge_binary.
  - intros e p3 (c3 & Hs3 & He). exists ([tk] ++ c ++ c3). split.
    + eauto using step_trans.
    + rewrite (step_names _ _ _ Hs2), (step_names _ _ _ Hs1) in He.
      by rewrite <- !app_assoc in He.
Qed.

(** A left-associative level over an operand level. *)
Lemma left_assoc_spec lvl m n :
  lvl <> L_primary -> parses m (fun sn => g_expr sn (below lvl)) n ->
  parses (left_assoc (level_op lvl) m) (fun sn => g_expr sn lvl) n.
Proof.
  intros Hlvl Hm p Hwf Hn. eapply pwp_use; [done..|]. intros a c p1 Hs Hne Ha.
  pose proof (step_wf _ _ _ Hs) as Hwf1. pose proof (step_length _ _ _ Hs) as Hl.
  apply pwp_with_fuel. pose proof (rest_fuel p1 Hwf1).
  eapply pwp_mono; [apply (binary_loop_spec _ _ n _ _ c); [done|done|lia|lia|]|].
  - rewrite (step_names _ _ _ Hs). by apply ge_below.
  - intros e p2 (c2 & Hs2 & He). exists (c ++ c2). rewrite (step_names _ _ _ Hs) in He.
    split_and!; [by eapply step_trans|by destruct c|done].
Qed.

Section Levels.
Context (rec_expr rec_unary : P Expr) (n : nat).
Context (Hexpr : parses rec_expr (fun sn => g_expr sn L_assign) n).
Context (Hunary : parses rec_unary (fun sn => g_expr sn L_unary) n).

Lemma args_loop_spec k args p :
  wf p -> length (rest p) <= n -> length (rest p) <= k ->
  pwp (args_loop rec_expr k args) p (fun res p' => exists c es, step p c p' /\ es <> [] /\
    res = args ++ es /\ g_args (struct_names p) c es).
Proof.
  revert args p. induction k as [|k IH]; intros args p Hwf Hn Hk.
  { destruct (rest_cons p Hwf) as (t & r & _ & Hr & _). rewrite Hr in Hk. simpl in Hk. lia. }
  simpl. eapply pwp_use; [exact Hexpr|done..|]. intros e c p1 Hs1 Hne He.
  pose proof (step_wf _ _ _ Hs1) as Hwf1. pose proof (step_length _ _ _ Hs1) as Hl1.
  apply pwp_bind, pwp_eat_plain; [done|done| |].
  - intros p2 Hs2. pose proof (step_wf _ _ _ Hs2) as Hwf2. pose proof (step_length _ _ _ Hs2) as Hl2.
    simpl in Hl2. eapply pwp_mono; [apply IH; [done|lia|lia]|].
    intros res p3 (c3 & es & Hs3 & Hes & -> & Hg).
    rewrite (step_names _ _ _ Hs2), (step_names _ _ _ Hs1) in Hg.
    exists (c ++ [T_Comma] ++ c3), (e :: es).
    split_and!; [eauto using step_trans|done|by rewrite <- app_assoc|by apply ga_cons].
  - intros _ _ _ _. apply pwp_ret. exists c, [e]. auto with grammar.
Qed.

Lemma parse_args_spec p :
  wf p -> length (rest p) <= n ->
  pwp (parse_args rec_expr) p (fun es p' => exists c, step p c p' /\ g_args (struct_names p) c es).
Proof.
  intros Hwf Hn. apply pwp_bind, pwp_peek; [done|]. intros k r Hr.
  assert (Hloop : pwp (with_fuel (fun k => args_loop rec_expr k [])) p
    (fun es p' => exists c, step p c p' /\ g_args (struct_names p) c es)).
  { apply pwp_with_fuel. pose proof (rest_fuel p Hwf).
    eapply pwp_mono; [apply args_loop_spec; [done|lia|lia]|].
    intros es p' (c & es' & ? & ? & -> & ?). eauto. }
  destruct k; try exact Hloop. apply pwp_ret. exists []. auto using step_refl with grammar.
Qed.

(** The arguments and the closing parenthesis, after the opening one. *)
Lemma call_args_spec {B} (k : list Expr -> P B) p Q :
  wf p -> length (rest p) <= n ->
  (forall es c p', step p (c ++ [T_RParen]) p' -> g_args (struct_names p) c es -> pwp (k es) p' Q) ->
  pwp (let! args := parse_args rec_expr in expect T_RParen ")" ;;; k args) p Q.
Proof.
  intros Hwf Hn HQ. apply pwp_bind. eapply pwp_mono; [by apply parse_args_spec|].
  intros es p1 (c & Hs1 & Hg). pose proof (step_wf _ _ _ Hs1) as Hwf1.
  apply pwp_bind, pwp_expect_plain; [done|done|]. intros p2 Hs2. eauto using step_trans.
Qed.

Lemma type_token_len_spec p (Q : nat -> Parser -> Prop) :
  wf p -> (forall k r, rest p = k :: r -> (k = T_Eof -> Q 0 p) /\ (k <> T_Eof -> forall j, j <= 1 -> Q j p)) ->
  pwp type_token_len p Q.
Proof.
  intros Hwf HQ. apply pwp_bind, pwp_peek; [done|]. intros k r Hr. destruct (HQ k r Hr) as [H0 H1].
  destruct (decide (k = T_Eof)) as [->|Hne]; [apply pwp_ret; auto|]. specialize (H1 Hne).
  destruct k; try (apply pwp_ret, H1; lia).
  - apply pwp_bind, pwp_get. destruct (_ || _); apply pwp_ret, H1; lia.
  - destruct k; apply pwp_ret, H1; lia.
Qed.

Lemma peek_is_type_spec p (Q : bool -> Parser -> Prop) :
  wf p -> (forall b, Q b p) -> pwp peek_is_type p Q.
Proof. intros Hwf HQ. apply pwp_bind, type_token_len_spec; [done|]. intros k r _. split; intros; apply HQ. Qed.

(** An expression and the closing parenthesis. *)
Lemma closed_expr_spec p :
  wf p -> length (rest p) <= n ->
  pwp (let! e := rec_expr in expect T_RParen ")" ;;; mret e) p (fun e p' => exists c,
    step p (c ++ [T_RParen]) p' /\ g_expr (struct_names p) L_assign c e).
Proof.
  intros Hwf Hn. eapply pwp_use; [exact Hexpr|done..|]. intros e c p1 Hs1 _ He. use_step Hs1.
  apply pwp_bind, pwp_expect_plain; [done|done|]. intros p2 Hs2. apply pwp_ret. eauto using step_trans.
Qed.

Lemma parse_paren_spec p0 p :
  step p0 [T_LParen] p -> length (rest p) <= n ->
  pwp (parse_paren rec_expr rec_unary) p (fun e p' => exists c, step p0 c p' /\ c <> [] /\
    g_expr (struct_names p0) L_primary c e).
Proof.
  intros Hs0 Hn. use_step Hs0. apply pwp_bind, peek_is_type_spec; [done|]. intros [].
  - eapply pwp_use; [apply (parse_type_spec n)|done..|]. intros ty c1 p1 Hs1 _ Hty. use_step Hs1.
    apply pwp_bind, pwp_eat_plain; [done|done| |].
    + intros p2 Hs2. use_step Hs2. eapply pwp_use; [exact Hunary|done|lia|].
      intros e c3 p3 Hs3 _ He. norm_names. apply pwp_ret.
      exists ([T_LParen] ++ c1 ++ [T_RParen] ++ c3).
      split_and!; [eauto using step_trans|done|by apply ge_cast].
    + intros _ _ _ _. eapply pwp_mono; [apply closed_expr_spec; [done|lia]|].
      intros e p2 (c2 & Hs2 & He). norm_names.
      exists ([T_LParen] ++ c1 ++ c2 ++ [T_RParen]).
      split_and!; [eauto using step_trans|done|by eapply ge_paren_type].
  - eapply pwp_mono; [by apply closed_expr_spec|].
    intros e p2 (c2 & Hs2 & He). norm_names. exists ([T_LParen] ++ c2 ++ [T_RParen]).
    split_and!; [eauto using step_trans|done|by eapply ge_paren].
Qed.

Lemma parse_primary_spec :
  parses (parse_primary rec_expr rec_unary) (fun sn => g_expr sn L_primary) (S n).
Proof.
  intros p Hwf Hn. apply pwp_bind, pwp_peek; [done|]. intros k r Hr.
  destruct k; try (by apply pwp_unexpected);
    apply pwp_bind; (eapply pwp_bump_ne; [done..|]); intros p1 Hs1; use_step Hs1;
    try (apply pwp_ret; eexists; split_and!; [exact Hs1|done|by constructor]).
  - apply pwp_bind, pwp_eat_plain; [done|done| |].
    + intros p2 Hs2. use_step Hs2. apply call_args_spec; [done|lia|].
      intros es c3 p3 Hs3 Hes. norm_names.
      pose proof (step_trans _ _ _ _ _ Hs1 (step_trans _ _ _ _ _ Hs2 Hs3)) as Hs.
      destruct (decode_type_word _) as [ty|] eqn:Hd; apply pwp_ret; eexists; split_and!;
        [exact Hs|done|by apply ge_construct|exact Hs|done|by apply ge_call].
    + intros _ _ _ _. apply pwp_ret. eauto with grammar.
  - apply parse_paren_spec; [done|lia].
Qed.

Lemma postfix_loop_spec k e c0 p :
  wf p -> length (rest p) <= S n -> length (rest p) <= k -> g_expr (struct_names p) L_postfix c0 e ->
  pwp (postfix_loop rec_expr k e) p (fun e' p' => exists c, step p c p' /\
    g_expr (struct_names p) L_postfix (c0 ++ c) e').
Proof.
  revert e c0 p. induction k as [|k IH]; intros e c0 p Hwf Hn Hk He; [by apply rest_pos in Hwf; lia|].
  simpl. apply pwp_bind, pwp_peek; [done|]. intros tk r Hr.
  assert (Hdone : pwp (mret e) p (fun e' p' => exists c, step p c p' /\
    g_expr (struct_names p) L_postfix (c0 ++ c) e')).
  { apply pwp_ret. exists []. rewrite app_nil_r. auto using step_refl. }
  destruct tk; try exact Hdone.
  apply pwp_bind. eapply pwp_bump_ne; [done..|]. intros p1 Hs1. use_step Hs1.
  apply pwp_bind, pwp_expect_ident; [done|]. intros m p2 Hs2. use_step Hs2.
  assert (Hnext : forall e' c p3, step p2 c p3 -> g_expr (struct_names p2) L_postfix (c0 ++ [T_Dot; T_Ident m] ++ c) e' ->
    pwp (postfix_loop rec_expr k e') p3 (fun e' p' => exists c, step p c p' /\
      g_expr (struct_names p) L_postfix (c0 ++ c) e')).
  { intros e' c p3 Hs3 He'. use_step Hs3.
    eapply pwp_mono; [apply (IH e' (c0 ++ [T_Dot; T_Ident m] ++ c)); [done|lia|lia|by norm_names]|].
    intros e'' p4 (c4 & Hs4 & He4). norm_names. exists ([T_Dot] ++ [T_Ident m] ++ c ++ c4).
    split; [eauto using step_trans|by rewrite <- !app_assoc in He4]. }
  apply pwp_bind, pwp_eat_plain; [done|done| |].
  - intros p3 Hs3. use_step Hs3. apply call_args_spec; [done|lia|].
    intros es c4 p4 Hs4 Hes. eapply Hnext; [by eapply step_trans|]. norm_names.
    by apply (ge_method _ c0 e m c4).
  - intros _ _ _ _. eapply (Hnext _ []); [by apply step_refl|]. norm_names. by apply (ge_member _ c0).
Qed.

Lemma parse_unary_spec :
  parses (parse_unary_ rec_expr rec_unary) (fun sn => g_expr sn L_unary) (S n).
Proof.
  intros p Hwf Hn. apply pwp_bind, pwp_peek; [done|]. intros k r Hr.
  destruct (unary_op k) as [op|] eqn:Hop.
  - apply pwp_bind. eapply pwp_bump_ne; [done|done|by intros ->|]. intros p1 Hs1. use_step Hs1.
    eapply pwp_use; [exact Hunary|done|lia|]. intros e c p2 Hs2 _ He. norm_names. apply pwp_ret.
    exists ([k] ++ c). split_and!; [by eapply step_trans|done|by apply ge_unary].
  - eapply pwp_use; [exact parse_primary_spec|done..|]. intros e c p1 Hs1 Hne He. use_step Hs1.
    apply pwp_with_fuel. pose proof (rest_fuel p1 ltac:(done)).
    eapply pwp_mono; [apply (postfix_loop_spec _ _ c); [done|lia|lia|norm_names; by apply ge_below]|].
    intros e' p2 (c2 & Hs2 & He2). norm_names. exists (c ++ c2).
    split_and!; [by eapply step_trans|by destruct c|by apply ge_below].
Qed.

Lemma parse_assign_spec :
  parses (parse_assign rec_expr rec_unary) (fun sn => g_expr sn L_assign) (S n).
Proof.
  assert (Hor : parses (parse_or rec_expr rec_unary) (fun sn => g_expr sn L_or) (S n)).
  { apply (left_assoc_spec L_or); [done|]. apply (left_assoc_spec L_and); [done|].
    apply (left_assoc_spec L_equality); [done|]. apply (left_assoc_spec L_rel); [done|].
    apply (left_assoc_spec L_add); [done|]. apply (left_assoc_spec L_mul); [done|].
    exact parse_unary_spec. }
  intros p Hwf Hn. eapply pwp_use; [exact Hor|done..|]. intros a c p1 Hs1 Hne Ha. use_step Hs1.
  apply pwp_bind, pwp_peek; [done|]. intros k r Hr. destruct (assign_op k) as [op|] eqn:Hop.
  - apply pwp_bind. eapply pwp_bump_ne; [done|done|by intros ->|]. intros p2 Hs2. use_step Hs2.
    eapply pwp_use; [exact Hexpr|done|lia|]. intros b c3 p3 Hs3 _ Hb. norm_names. apply pwp_ret.
    exists (c ++ [k] ++ c3). split_and!; [eauto using step_trans|by destruct c|by apply ge_assign].
  - apply pwp_ret. exists c. split_and!; [done|done|by apply ge_below].
Qed.
End Levels.

Lemma parse_expr_n_spec k :
  parses (parse_expr_n k) (fun sn => g_expr sn L_assign) k /\
  parses (parse_unary_n k) (fun sn => g_expr sn L_unary) k.
Proof.
  induction k as [|k [IHe IHu]].
  { split; intros p Hwf Hn; apply rest_pos in Hwf; lia. }
  split; [exact (parse_assign_spec _ _ k IHe IHu)|exact (parse_unary_spec _ _ k IHe IHu)].
Qed.

Lemma parse_expr_spec n : parses parse_expr (fun sn => g_expr sn L_assign) n.
Proof.
  intros p Hwf _. apply pwp_with_fuel. pose proof (rest_fuel p Hwf).
  apply (parse_expr_n_spec (S (length (toks p)))); [done|lia].
Qed.

(** A function that keeps its promise on every input. *)
Lemma pwp_use1 {A B} (m : P A) G p (k : A -> P B) Q :
  (forall n, parses m G n) -> wf p ->
  (forall a c p', step p c p' -> c <> [] -> G (struct_names p) c a -> pwp (k a) p' Q) ->
  pwp (mbind m k) p Q.
Proof. intros Hm Hwf HQ. by apply (pwp_use m G (length (rest p))). Qed.

(** ** Statements *)

Lemma looks_like_var_decl_spec p (Q : bool -> Parser -> Prop) :
  wf p -> (forall b, Q b p) -> pwp looks_like_var_decl p Q.
Proof.
  intros Hwf HQ. apply pwp_bind, peek_is_type_spec; [done|]. intros [|]; [|by apply pwp_ret].
  assert (Hat : forall j, idx p + j < length T -> pwp (let! p' := mget in
    let! t := token_at (idx p' + j) in
    mret (match kind t with T_Ident _ => true | _ => false end)) p Q).
  { intros j Hj. apply pwp_bind, pwp_get, pwp_bind, pwp_token_at; [done|done|]. intros t _. by apply pwp_ret. }
  apply pwp_bind, type_token_len_spec; [done|]. intros k r Hr.
  destruct (rest_cons p Hwf) as (t & r' & _ & Hr' & _ & Hlt). rewrite Hr in Hr'. injection Hr' as -> _.
  split; [intros _; apply Hat; destruct Hwf; lia|]. intros Hne j Hj. specialize (Hlt Hne). apply Hat. lia.
Qed.

Lemma parse_var_decl_spec n : parses parse_var_decl g_var_decl n.
Proof.
  intros p Hwf _. eapply pwp_use1; [exact parse_type_spec|done|]. intros ty c p1 Hs1 Hne Hty. use_step Hs1.
  apply pwp_bind, pwp_expect_ident; [done|]. intros name p2 Hs2. use_step Hs2.
  eapply pwp_use0; [exact parse_optional_semantic_spec|done|]. intros sem c3 p3 Hs3 Hsem. use_step Hs3.
  assert (forall r : list TokenKind, c ++ r <> []) by (by destruct c).
  apply pwp_bind, pwp_eat_plain; [done|done| |].
  - intros p4 Hs4. use_step Hs4. apply pwp_bind.
    eapply pwp_use1; [exact parse_expr_spec|done|]. intros e c5 p5 Hs5 _ He. norm_names. do 2 apply pwp_ret.
    exists (c ++ [T_Ident name] ++ c3 ++ [T_Assign] ++ c5).
    split_and!; [by repeat (eapply step_trans; [eassumption|])|done|by apply gv_init].
  - intros _ _ _ _. norm_names. apply pwp_bind. do 2 apply pwp_ret. exists (c ++ [T_Ident name] ++ c3).
    split_and!; [eauto using step_trans|done|by apply gv_plain].
Qed.

Lemma parse_return_spec p r :
  wf p -> rest p = T_Keyword Kw_Return :: r ->
  pwp parse_return p (fun s p' => exists c, step p c p' /\ c <> [] /\ g_stmt (struct_names p) c s).
Proof.
  intros Hwf Hr. apply pwp_bind. eapply pwp_expect_keyword; [done..|]. intros p1 Hs1. use_step Hs1.
  apply pwp_bind, pwp_eat_plain; [done|done| |].
  - intros p2 Hs2. apply pwp_ret. eexists. split_and!; [by eapply step_trans|done|apply gs_return].
  - intros _ _ _ _. eapply pwp_use1; [exact parse_expr_spec|done|]. intros e c2 p2 Hs2 _ He. use_step Hs2.
    apply pwp_bind, pwp_expect_plain; [done|done|]. intros p3 Hs3. norm_names. apply pwp_ret.
    exists ([T_Keyword Kw_Return] ++ c2 ++ [T_Semicolon]).
    split_and!; [eauto using step_trans|done|by apply gs_return_expr].
Qed.

(** A declaration or an expression up to its semicolon. *)
Lemma simple_stmt_spec {B} (k : Stmt -> P B) p Q :
  wf p ->
  (forall s c p', step p (c ++ [T_Semicolon]) p' ->
    (exists d, s = S_VarDecl d /\ g_var_decl (struct_names p) c d) \/
    (exists e, s = S_Expr e /\ g_expr (struct_names p) L_assign c e) -> pwp (k s) p' Q) ->
  pwp (let! vd := parse_var_decl in expect T_Semicolon ";" ;;; k (S_VarDecl vd)) p Q /\
  pwp (let! e := parse_expr in expect T_Semicolon ";" ;;; k (S_Expr e)) p Q.
Proof.
  intros Hwf HQ. split; (eapply pwp_use1; [first [exact parse_var_decl_spec|exact parse_expr_spec]|done|]);
    intros a c p1 Hs1 _ Ha; use_step Hs1; apply pwp_bind, pwp_expect_plain; [done|done| |done|done|];
    intros p2 Hs2; (eapply HQ; [by eapply step_trans|]); [left|right]; eauto.
Qed.

Section Recursion.
Context (rec_stmt : P Stmt) (n : nat) (Hrec : parses rec_stmt g_stmt n).

Lemma block_loop_spec k acc p :
  wf p -> length (rest p) <= n -> length (rest p) <= k ->
  pwp (block_loop rec_stmt k acc) p (fun b p' => exists c b', step p c p' /\ b = acc ++ b' /\
    g_block (struct_names p) c b').
Proof.
  revert acc p. induction k as [|k IH]; intros acc p Hwf Hn Hk; [by apply rest_pos in Hwf; lia|].
  simpl. apply pwp_bind, pwp_peek; [done|]. intros tk r Hr.
  assert (Hdone : pwp (mret acc) p (fun b p' => exists c b', step p c p' /\ b = acc ++ b' /\
    g_block (struct_names p) c b')).
  { apply pwp_ret. exists [], []. rewrite app_nil_r. auto using step_refl with grammar. }
  assert (Hstep : pwp (let! s := rec_stmt in block_loop rec_stmt k (acc ++ [s])) p
    (fun b p' => exists c b', step p c p' /\ b = acc ++ b' /\ g_block (struct_names p) c b')).
  { eapply pwp_use; [exact Hrec|done..|]. intros s c p1 Hs1 Hne Hs. use_step Hs1.
    assert (length c <> 0) by (by destruct c).
    eapply pwp_mono; [apply IH; [done|lia|lia]|]. intros b p2 (c2 & b' & Hs2 & -> & Hb). norm_names.
    exists (c ++ c2), (s :: b'). split_and!; [by eapply step_trans|by rewrite <- app_assoc|by apply gb_cons]. }
  destruct tk; first [exact Hdone|exact Hstep].
Qed.

(** The statements of a block and the closing brace, after the opening one. *)
Lemma closed_block_spec {B} (k : Block -> P B) p Q :
  wf p -> length (rest p) <= n ->
  (forall b c p', step p (c ++ [T_RBrace]) p' -> g_block (struct_names p) c b -> pwp (k b) p' Q) ->
  pwp (let! b := parse_block_body rec_stmt in expect T_RBrace "}" ;;; k b) p Q.
Proof.
  intros Hwf Hn HQ. apply pwp_bind, pwp_with_fuel. pose proof (rest_fuel p Hwf).
  eapply pwp_mono; [apply block_loop_spec; [done|lia|lia]|]. intros b p1 (c & b' & Hs1 & -> & Hb). use_step Hs1.
  apply pwp_bind, pwp_expect_plain; [done|done|]. intros p2 Hs2. eauto using step_trans.
Qed.

Lemma parse_block_or_stmt_spec : parses (parse_block_or_stmt rec_stmt) g_body n.
Proof.
  intros p Hwf Hn. apply pwp_bind, pwp_eat_plain; [done|done| |].
  - intros p1 Hs1. use_step Hs1. apply closed_block_spec; [done|lia|]. intros b c p2 Hs2 Hb. norm_names.
    apply pwp_ret. exists ([T_LBrace] ++ c ++ [T_RBrace]).
    split_and!; [by eapply step_trans|done|by apply gbody_block].
  - intros _ _ _ _. eapply pwp_use; [exact Hrec|done..|]. intros s c p1 Hs1 Hne Hs. apply pwp_ret.
    exists c. eauto with grammar.
Qed.

Lemma parse_if_spec p r :
  wf p -> length (rest p) <= S n -> rest p = T_Keyword Kw_If :: r ->
  pwp (parse_if rec_stmt) p (fun s p' => exists c, step p c p' /\ c <> [] /\ g_stmt (struct_names p) c s).
Proof.
  intros Hwf Hn Hr. apply pwp_bind. eapply pwp_expect_keyword; [done..|]. intros p1 Hs1. use_step Hs1.
  apply pwp_bind, pwp_expect_plain; [done|done|]. intros p2 Hs2. use_step Hs2.
  eapply pwp_use1; [exact parse_expr_spec|done|]. intros e c3 p3 Hs3 _ He. use_step Hs3.
  apply pwp_bind, pwp_expect_plain; [done|done|]. intros p4 Hs4. use_step Hs4.
  eapply pwp_use; [exact parse_block_or_stmt_spec|done|lia|]. intros b c5 p5 Hs5 _ Hb. use_step Hs5.
  assert (Hfin : forall c6 e6 p6, step p5 c6 p6 -> g_else (struct_names p5) c6 e6 ->
    exists c, step p c p6 /\ c <> [] /\ g_stmt (struct_names p) c (S_If e b e6)).
  { intros c6 e6 p6 Hs6 He6. norm_names.
    exists ([T_Keyword Kw_If] ++ [T_LParen] ++ c3 ++ [T_RParen] ++ c5 ++ c6).
    split_and!; [by repeat (eapply step_trans; [eassumption|])|done|by apply gs_if]. }
  apply pwp_bind, pwp_eat; [done|done| |].
  - intros k r' p6 _ Hkw Hs6. apply same_variant_keyword in Hkw as [kw ->]. use_step Hs6. apply pwp_bind.
    eapply pwp_use; [exact parse_block_or_stmt_spec|done|lia|]. intros b' c7 p7 Hs7 _ Hb'. do 2 apply pwp_ret.
    eapply Hfin; [by eapply step_trans|]. norm_names. by apply gel_some.
  - intros _ _ _ _. apply pwp_bind. do 2 apply pwp_ret. apply (Hfin [] None); auto using step_refl with grammar.
Qed.

Lemma parse_for_init_spec : parses0 parse_for_init g_for_init.
Proof.
  intros p Hwf. apply pwp_bind, pwp_eat_plain; [done|done| |].
  - intros p1 Hs1. apply pwp_ret. eauto with grammar.
  - intros _ _ _ _. apply pwp_bind, looks_like_var_decl_spec; [done|]. intros b.
    destruct (simple_stmt_spec (fun s => mret (Some s)) p (fun i p' => exists c, step p c p' /\
      g_for_init (struct_names p) c i)) as [Hd He]; [done| |].
    { intros s c p' Hs [(d & -> & Hd)|(e & -> & He)]; apply pwp_ret; eauto with grammar. }
    destruct b; [revert Hd|revert He]; unfold pwp, mbind, mret.
    + destruct (parse_var_decl p) as [[]?]; done.
    + destruct (parse_expr p) as [[]?]; done.
Qed.

Lemma parse_for_cond_spec : parses0 parse_for_cond g_for_cond.
Proof.
  intros p Hwf. apply pwp_bind, pwp_eat_plain; [done|done| |].
  - intros p1 Hs1. apply pwp_ret. eauto with grammar.
  - intros _ _ _ _. eapply pwp_use1; [exact parse_expr_spec|done|]. intros e c p1 Hs1 _ He. use_step Hs1.
    apply pwp_bind, pwp_expect_plain; [done|done|]. intros p2 Hs2. apply pwp_ret.
    exists (c ++ [T_Semicolon]). eauto using step_trans with grammar.
Qed.

Lemma parse_for_update_spec : parses0 parse_for_update g_for_update.
Proof.
  intros p Hwf. apply pwp_bind, pwp_peek; [done|]. intros k r Hr.
  assert (Hexpr : pwp (let! e := parse_expr in mret (Some e)) p (fun u p' => exists c, step p c p' /\
    g_for_update (struct_names p) c u)).
  { eapply pwp_use1; [exact parse_expr_spec|done|]. intros e c p1 Hs1 _ He. apply pwp_ret. eauto with grammar. }
  destruct k; try exact Hexpr. apply pwp_ret. exists []. auto using step_refl with grammar.
Qed.

Lemma parse_for_spec p r :
  wf p -> length (rest p) <= S n -> rest p = T_Keyword Kw_For :: r ->
  pwp (parse_for rec_stmt) p (fun s p' => exists c, step p c p' /\ c <> [] /\ g_stmt (struct_names p) c s).
Proof.
  intros Hwf Hn Hr. apply pwp_bind. eapply pwp_expect_keyword; [done..|]. intros p1 Hs1. use_step Hs1.
  apply pwp_bind, pwp_expect_plain; [done|done|]. intros p2 Hs2. use_step Hs2.
  eapply pwp_use0; [exact parse_for_init_spec|done|]. intros i c3 p3 Hs3 Hi. use_step Hs3.
  eapply pwp_use0; [exact parse_for_cond_spec|done|]. intros e c4 p4 Hs4 He. use_step Hs4.
  eapply pwp_use0; [exact parse_for_update_spec|done|]. intros u c5 p5 Hs5 Hu. use_step Hs5.
  apply pwp_bind, pwp_expect_plain; [done|done|]. intros p6 Hs6. use_step Hs6.
  eapply pwp_use; [exact parse_block_or_stmt_spec|done|lia|]. intros b c7 p7 Hs7 _ Hb. norm_names. apply pwp_ret.
  exists ([T_Keyword Kw_For] ++ [T_LParen] ++ c3 ++ c4 ++ c5 ++ [T_RParen] ++ c7).
  split_and!; [by repeat (eapply step_trans; [eassumption|])|done|by apply gs_for].
Qed.

Lemma parse_stmt_spec_ : parses (parse_stmt_ rec_stmt) g_stmt (S n).
Proof.
  intros p Hwf Hn. apply pwp_bind, pwp_peek; [done|]. intros k r Hr.
  assert (Hsimple : pwp (let! d := looks_like_var_decl in
    if d : bool then let! vd := parse_var_decl in expect T_Semicolon ";" ;;; mret (S_VarDecl vd)
    else let! e := parse_expr in expect T_Semicolon ";" ;;; mret (S_Expr e)) p
    (fun s p' => exists c, step p c p' /\ c <> [] /\ g_stmt (struct_names p) c s)).
  { destruct (simple_stmt_spec mret p (fun s p' => exists c, step p c p' /\ c <> [] /\
      g_stmt (struct_names p) c s)) as [Hd He]; [done| |].
    - intros s c p' Hs [(d & -> & Hd)|(e & -> & He)]; apply pwp_ret; exists (c ++ [T_Semicolon]);
        (split_and!; [done|by destruct c|auto with grammar]).
    - apply pwp_bind, looks_like_var_decl_spec; [done|]. by intros []. }
  destruct k as [ |kw| | | | | | | | | | | | | | | | | | | | | | | | | | | | | | | | | | | | | | | ];
    try exact Hsimple.
  - destruct kw; try exact Hsimple;
      first [by eapply parse_if_spec|by eapply parse_for_spec|by eapply parse_return_spec].
  - apply pwp_bind. eapply pwp_bump_ne; [done..|]. intros p1 Hs1. use_step Hs1.
    apply closed_block_spec; [done|lia|]. intros b c p2 Hs2 Hb. norm_names. apply pwp_ret.
    exists ([T_LBrace] ++ c ++ [T_RBrace]). split_and!; [by eapply step_trans|done|by apply gs_block].
Qed.
End Recursion.

Lemma parse_stmt_n_spec k : parses (parse_stmt_n k) g_stmt k.
Proof.
  induction k as [|k IH]; [intros p Hwf Hn; apply rest_pos in Hwf; lia|]. exact (parse_stmt_spec_ _ k IH).
Qed.

Lemma parse_stmt_spec n : parses parse_stmt g_stmt n.
Proof.
  intros p Hwf _. apply pwp_with_fuel. pose proof (rest_fuel p Hwf).
  apply (parse_stmt_n_spec (S (length (toks p)))); [done|lia].
Qed.

(** ** Declarations *)

Lemma pwp_ok_expect want what p (Q : option unit -> Parser -> Prop) :
  wf p -> want <> T_Eof ->
  (forall k r p', rest p = k :: r -> same_variant k want = true -> step p [k] p' -> Q (Some tt) p') ->
  Q None p -> pwp (ok (expect want what)) p Q.
Proof.
  intros Hwf Hw Htrue Hfalse. destruct (rest_cons p Hwf) as (t & r & Hl & Hr & _ & _).
  assert (Hpeek : peek p = (Ok (kind t), p)).
  { destruct Hwf as [Ht _]. unfold peek, here, token_at, mbind. by rewrite Ht, Hl. }
  destruct (same_variant (kind t) want) eqn:E.
  - assert (Hne : kind t <> T_Eof).
    { intros Hk. rewrite Hk in E. unfold same_variant in E. apply Nat.eqb_eq in E. by destruct want. }
    assert (Hb : pwp (expect want what) p (fun _ p' => Q (Some tt) p')) by (apply pwp_expect; eauto).
    revert Hb. unfold pwp, ok, expect, mbind. rewrite Hpeek, E.
    unfold bump, mbind. rewrite Hpeek. by destruct (kind t).
  - unfold pwp, ok, expect, unexpected, span_here, mbind. rewrite Hpeek, E.
    unfold here, token_at. destruct Hwf as [Ht _]. rewrite Ht, Hl. simpl. by rewrite Hpeek.
Qed.

Lemma parse_optional_register_spec : parses0 parse_optional_register (fun _ => g_register).
Proof.
  intros p Hwf. apply pwp_bind, pwp_eat_plain; [done|done| |].
  2:{ intros _ _ _ _. apply pwp_ret. exists []. auto using step_refl with grammar. }
  intros p1 Hs1. use_step Hs1. apply pwp_bind, pwp_ok_expect; [done|done| |].
  2:{ apply pwp_ret. eauto with grammar. }
  intros k r p2 _ Hkw Hs2. apply same_variant_keyword in Hkw as [kw ->]. use_step Hs2.
  apply pwp_bind, pwp_eat_plain; [done|done| |].
  2:{ intros _ _ _ _. apply pwp_ret. exists ([T_Colon] ++ [T_Keyword kw]). eauto using step_trans with grammar. }
  intros p3 Hs3. use_step Hs3. destruct (rest_cons p3 ltac:(done)) as (t & r3 & _ & Hr3 & _).
  assert (Hskip : forall c o p4, step p3 c p4 ->
    (forall junk close, Forall (fun k => k <> T_RParen) junk -> close = [T_RParen] \/ close = [] ->
      g_register ([T_Colon] ++ [T_Keyword kw] ++ [T_LParen] ++ c ++ junk ++ close) o) ->
    pwp (skip_until_rparen ;;; mret o) p4 (fun o p' => exists c, step p c p' /\ g_register c o)).
  { intros c o p4 Hs4 Ho. use_step Hs4. apply pwp_bind. eapply pwp_mono; [by apply skip_until_rparen_spec|].
    intros _ p5 (junk & close & Hs5 & Hj & Hc). apply pwp_ret.
    exists ([T_Colon] ++ [T_Keyword kw] ++ [T_LParen] ++ c ++ junk ++ close).
    split; [by repeat (eapply step_trans; [eassumption|])|by apply Ho]. }
  apply pwp_bind. eapply pwp_bump; [done|exact Hr3| |].
  - intros p4 Hne Hs4.
    destruct (kind t); apply (Hskip _ _ _ Hs4); intros;
      first [by apply greg_some|apply greg_bad; [right; eexists; split; [done|by intros ?]|done|done]].
  - intros ->. apply (Hskip [] _ p3 (step_refl _ ltac:(done))). intros. by apply greg_bad; [left| |].
Qed.

(** A typed name with an optional semantic: a member, or a parameter. *)
Lemma typed_name_spec {B} what (k : Type_ -> string -> option string -> P B) p Q :
  wf p ->
  (forall ty name sem tt ts p', step p (tt ++ [T_Ident name] ++ ts) p' -> tt <> [] ->
    g_type (struct_names p) tt ty -> g_semantic ts sem -> pwp (k ty name sem) p' Q) ->
  pwp (let! ty := parse_type in let! name := expect_ident what in
      let! sem := parse_optional_semantic in k ty name sem) p Q.
Proof.
  intros Hwf HQ. eapply pwp_use1; [exact parse_type_spec|done|]. intros ty c p1 Hs1 Hne Hty. use_step Hs1.
  apply pwp_bind, pwp_expect_ident; [done|]. intros name p2 Hs2. use_step Hs2.
  eapply pwp_use0; [exact parse_optional_semantic_spec|done|]. intros sem c3 p3 Hs3 Hsem.
  eapply HQ; eauto using step_trans.
Qed.

Lemma members_loop_spec what k acc p :
  wf p -> length (rest p) <= k ->
  pwp (members_loop what k acc) p (fun ms p' => exists c ms', step p (c ++ [T_RBrace]) p' /\ ms = acc ++ ms' /\
    g_members (struct_names p) c ms').
Proof.
  revert acc p. induction k as [|k IH]; intros acc p Hwf Hk; [by apply rest_pos in Hwf; lia|].
  simpl. apply pwp_bind, pwp_eat_plain; [done|done| |].
  { intros p1 Hs1. apply pwp_ret. exists [], []. rewrite app_nil_r. auto with grammar. }
  intros _ _ _ _. apply typed_name_spec; [done|]. intros ty name sem tt ts p1 Hs1 Hne Hty Hsem. use_step Hs1.
  apply pwp_bind, pwp_expect_plain; [done|done|]. intros p2 Hs2. use_step Hs2.
  eapply pwp_mono; [apply IH; [done|lia]|]. intros ms p3 (c & ms' & Hs3 & -> & Hg). norm_names.
  exists (tt ++ [T_Ident name] ++ ts ++ [T_Semicolon] ++ c), (mkStructMember ty name sem :: ms').
  split_and!; [|by rewrite <- app_assoc|by apply gm_cons].
  pose proof (step_trans _ _ _ _ _ Hs1 (step_trans _ _ _ _ _ Hs2 Hs3)) as Hs.
  reassoc Hs.
Qed.

(** The members and the closing brace and semicolon, after the opening brace. *)
Lemma closed_members_spec {B} what what' (k : list StructMember -> P B) p Q :
  wf p ->
  (forall ms c p', step p ((c ++ [T_RBrace]) ++ [T_Semicolon]) p' -> g_members (struct_names p) c ms ->
    pwp (k ms) p' Q) ->
  pwp (let! ms := with_fuel (fun n => members_loop what n []) in expect T_Semicolon what' ;;; k ms) p Q.
Proof.
  intros Hwf HQ. apply pwp_bind, pwp_with_fuel. pose proof (rest_fuel p Hwf).
  eapply pwp_mono; [apply members_loop_spec; [done|lia]|]. intros ms p1 (c & ms' & Hs1 & -> & Hg). use_step Hs1.
  apply pwp_bind, pwp_expect_plain; [done|done|]. intros p2 Hs2. eauto using step_trans.
Qed.

Lemma parse_struct_spec p r :
  wf p -> rest p = T_Keyword Kw_Struct :: r ->
  pwp parse_struct p (fun s p' => exists c, step p c p' /\ c <> [] /\ g_decl (struct_names p) c (D_Struct s)).
Proof.
  intros Hwf Hr. apply pwp_bind. eapply pwp_expect_keyword; [done..|]. intros p1 Hs1. use_step Hs1.
  apply pwp_bind, pwp_expect_ident; [done|]. intros name p2 Hs2. use_step Hs2.
  apply pwp_bind, pwp_expect_plain; [done|done|]. intros p3 Hs3. use_step Hs3.
  apply closed_members_spec; [done|]. intros ms c p4 Hs4 Hg. norm_names. apply pwp_ret.
  exists ([T_Keyword Kw_Struct] ++ [T_Ident name] ++ [T_LBrace] ++ (c ++ [T_RBrace]) ++ [T_Semicolon]).
  split_and!; [by repeat (eapply step_trans; [eassumption|])|done|by apply gd_struct].
Qed.

Lemma parse_cbuffer_spec p r :
  wf p -> rest p = T_Keyword Kw_CBuffer :: r ->
  pwp parse_cbuffer p (fun s p' => exists c, step p c p' /\ c <> [] /\ g_decl (struct_names p) c (D_CBuffer s)).
Proof.
  intros Hwf Hr. apply pwp_bind. eapply pwp_expect_keyword; [done..|]. intros p1 Hs1. use_step Hs1.
  apply pwp_bind, pwp_expect_ident; [done|]. intros name p2 Hs2. use_step Hs2.
  eapply pwp_use0; [exact parse_optional_register_spec|done|]. intros reg tr p3 Hs3 Hreg. use_step Hs3.
  apply pwp_bind, pwp_expect_plain; [done|done|]. intros p4 Hs4. use_step Hs4.
  apply closed_members_spec; [done|]. intros ms c p5 Hs5 Hg. norm_names. apply pwp_ret.
  exists ([T_Keyword Kw_CBuffer] ++ [T_Ident name] ++ tr ++ [T_LBrace] ++ (c ++ [T_RBrace]) ++ [T_Semicolon]).
  split_and!; [by repeat (eapply step_trans; [eassumption|])|done|by apply gd_cbuffer].
Qed.

Lemma eat_modifier_word_spec p (Q : unit -> Parser -> Prop) :
  wf p ->
  (forall mods p', step p mods p' -> mods = [] \/ (exists w, mods = [T_Ident w] /\ modifier_word w = true) -> Q tt p') ->
  pwp eat_modifier_word p Q.
Proof.
  intros Hwf HQ. apply pwp_bind, pwp_peek; [done|]. intros k r Hr.
  assert (Hdone : pwp (mret tt) p Q) by (apply pwp_ret; eauto using step_refl).
  destruct k as [s| | | | | | | | | | | | | | | | | | | | | | | | | | | | | | | | | | | | | | | | ]; try exact Hdone.
  destruct (modifier_word s) eqn:Hm; [|exact Hdone].
  apply pwp_bind. eapply pwp_bump_ne; [done..|]. intros p1 Hs1. apply pwp_ret. eauto.
Qed.

Lemma params_loop_spec k acc p :
  wf p -> length (rest p) <= k ->
  pwp (params_loop k acc) p (fun ps p' => exists c ps', step p c p' /\ ps = acc ++ ps' /\ ps' <> [] /\
    g_params (struct_names p) c ps').
Proof.
  revert acc p. induction k as [|k IH]; intros acc p Hwf Hk; [by apply rest_pos in Hwf; lia|].
  simpl. apply pwp_bind, eat_modifier_word_spec; [done|]. intros mods p1 Hs1 Hmods. use_step Hs1.
  apply typed_name_spec; [done|]. intros ty name sem tt ts p2 Hs2 Hne Hty Hsem. use_step Hs2.
  assert (Hp : g_param (struct_names p) (mods ++ tt ++ [T_Ident name] ++ ts) (mkParam ty name sem)).
  { norm_names. by apply gp_param. }
  apply pwp_bind, pwp_eat_plain; [done|done| |].
  - intros p3 Hs3. use_step Hs3.
    eapply pwp_mono; [apply IH; [done|lia]|]. intros ps p4 (c & ps' & Hs4 & -> & Hps & Hg). norm_names.
    exists ((mods ++ tt ++ [T_Ident name] ++ ts) ++ [T_Comma] ++ c), (mkParam ty name sem :: ps').
    split_and!; [|by rewrite <- app_assoc|done|by apply gps_cons].
    pose proof (step_trans _ _ _ _ _ (step_trans _ _ _ _ _ Hs1 Hs2) (step_trans _ _ _ _ _ Hs3 Hs4)) as Hs.
    reassoc Hs.
  - intros _ _ _ _. apply pwp_ret. exists (mods ++ tt ++ [T_Ident name] ++ ts), [mkParam ty name sem].
    split_and!; [by eapply step_trans|done|done|by apply gps_one].
Qed.

Lemma parse_params_spec : parses0 parse_params g_params.
Proof.
  intros p Hwf. apply pwp_bind, pwp_peek; [done|]. intros k r Hr.
  assert (Hloop : pwp (with_fuel (fun n => params_loop n [])) p
    (fun ps p' => exists c, step p c p' /\ g_params (struct_names p) c ps)).
  { apply pwp_with_fuel. pose proof (rest_fuel p Hwf).
    eapply pwp_mono; [apply params_loop_spec; [done|lia]|]. intros ps p1 (c & ps' & ? & -> & _ & ?). eauto. }
  destruct k; try exact Hloop. apply pwp_ret. exists []. auto using step_refl with grammar.
Qed.

(** The rest of a function, after its type and name. *)
Lemma parse_function_spec p0 tt ty name p r :
  step p0 (tt ++ [T_Ident name]) p -> rest p = T_LParen :: r -> g_type (struct_names p0) tt ty ->
  pwp (parse_function ty name) p (fun d p' => exists c, step p0 (tt ++ [T_Ident name] ++ c) p' /\
    g_decl (struct_names p0) (tt ++ [T_Ident name] ++ c) d /\ declare d = id).
Proof.
  intros Hs0 Hr Hty. use_step Hs0. apply pwp_bind. eapply pwp_bump_ne; [done..|]. intros p1 Hs1. use_step Hs1.
  eapply pwp_use0; [exact parse_params_spec|done|]. intros ps tp p2 Hs2 Hps. use_step Hs2.
  apply pwp_bind, pwp_expect_plain; [done|done|]. intros p3 Hs3. use_step Hs3.
  eapply pwp_use0; [exact parse_optional_semantic_spec|done|]. intros sem ts p4 Hs4 Hsem. use_step Hs4.
  pose proof (step_trans _ _ _ _ _ (step_trans _ _ _ _ _ Hs0 Hs1) (step_trans _ _ _ _ _ Hs2 (step_trans _ _ _ _ _ Hs3 Hs4))) as Hs.
  apply pwp_bind, pwp_eat_plain; [done|done| |].
  - intros p5 Hs5. norm_names. apply pwp_ret. exists ([T_LParen] ++ tp ++ [T_RParen] ++ ts ++ [T_Semicolon]).
    split_and!; [|by apply gd_prototype|done]. pose proof (step_trans _ _ _ _ _ Hs Hs5) as H'. reassoc H'.
  - intros _ _ _ _. apply pwp_bind, pwp_expect_plain; [done|done|]. intros p5 Hs5. use_step Hs5.
    apply (closed_block_spec parse_stmt (length (rest p5))); [apply parse_stmt_spec|done|done|].
    intros b tb p6 Hs6 Hb. norm_names. apply pwp_ret.
    exists ([T_LParen] ++ tp ++ [T_RParen] ++ ts ++ [T_LBrace] ++ tb ++ [T_RBrace]).
    split_and!; [|by apply gd_function|done].
    pose proof (step_trans _ _ _ _ _ Hs (step_trans _ _ _ _ _ Hs5 Hs6)) as H'. reassoc H'.
Qed.

Lemma parse_function_or_global_var_spec p :
  wf p -> pwp parse_function_or_global_var p (fun d p' => exists c, step p c p' /\ c <> [] /\
    g_decl (struct_names p) c d /\ declare d = id).
Proof.
  intros Hwf. eapply pwp_use1; [exact parse_type_spec|done|]. intros ty tt p1 Hs1 Hne Hty. use_step Hs1.
  apply pwp_bind, pwp_expect_ident; [done|]. intros name p2 Hs2. use_step Hs2.
  assert (forall r : list TokenKind, tt ++ r <> []) by (by destruct tt).
  apply pwp_bind, pwp_peek; [done|]. intros k r Hr. destruct k; try (by apply pwp_unexpected).
  - eapply pwp_mono; [apply (parse_function_spec p tt ty name p2 r); [by eapply step_trans|done|done]|].
    intros d p3 (c & Hs3 & Hg & Hd). eauto 10.
  - apply pwp_bind. eapply pwp_bump_ne; [done..|]. intros p3 Hs3. apply pwp_ret.
    exists (tt ++ [T_Ident name] ++ [T_Semicolon]). split_and!; eauto using step_trans with grammar.
  - eapply pwp_use0; [exact parse_optional_register_spec|done|]. intros reg tr p3 Hs3 Hreg. use_step Hs3.
    apply pwp_bind, pwp_expect_plain; [done|done|]. intros p4 Hs4. apply pwp_ret.
    exists (tt ++ [T_Ident name] ++ tr ++ [T_Semicolon]). split_and!; eauto using step_trans with grammar.
Qed.

(** A declaration; a struct's name is recorded in the parser. *)
Lemma parse_decl_spec p :
  wf p -> pwp parse_decl p (fun d p' => exists c p1, step p c p1 /\ c <> [] /\ g_decl (struct_names p) c d /\
    p' = mkParser (toks p1) (idx p1) (declare d (struct_names p1))).
Proof.
  intros Hwf. apply pwp_bind, pwp_peek; [done|]. intros k r Hr.
  assert (Hother : pwp parse_function_or_global_var p (fun d p' => exists c p1, step p c p1 /\ c <> [] /\
    g_decl (struct_names p) c d /\ p' = mkParser (toks p1) (idx p1) (declare d (struct_names p1)))).
  { eapply pwp_mono; [by apply parse_function_or_global_var_spec|]. intros d p1 (c & Hs & Hne & Hg & Hd).
    exists c, p1. rewrite Hd. by destruct p1. }
  destruct k as [ |kw| | | | | | | | | | | | | | | | | | | | | | | | | | | | | | | | | | | | | | | ]; try exact Hother.
  destruct kw; try exact Hother.
  - apply pwp_bind. eapply pwp_mono; [by eapply parse_struct_spec|]. intros s p1 (c & Hs & Hne & Hg).
    apply pwp_bind. unfold pwp, insert_struct_name, mret. eauto 10.
  - apply pwp_bind. eapply pwp_mono; [by eapply parse_cbuffer_spec|]. intros s p1 (c & Hs & Hne & Hg).
    apply pwp_ret. exists c, p1. by destruct p1.
Qed.

Lemma unit_loop_spec k acc p :
  wf p -> length (rest p) <= k ->
  pwp (unit_loop k acc) p (fun ds _ => exists c us, rest p = c ++ [T_Eof] /\ ds = acc ++ us /\
    g_unit (struct_names p) c us).
Proof.
  revert acc p. induction k as [|k IH]; intros acc p Hwf Hk; [by apply rest_pos in Hwf; lia|].
  simpl. apply pwp_bind, pwp_bind, pwp_peek; [done|]. intros tk r Hr. apply pwp_ret.
  assert (Hstep : pwp (let! d := parse_decl in unit_loop k (acc ++ [d])) p (fun ds _ => exists c us,
    rest p = c ++ [T_Eof] /\ ds = acc ++ us /\ g_unit (struct_names p) c us)).
  { apply pwp_bind. eapply pwp_mono; [by apply parse_decl_spec|]. intros d p1 (c & p2 & Hs & Hne & Hg & ->).
    use_step Hs. assert (length c <> 0) by (by destruct c).
    eapply pwp_mono; [apply IH; [done|unfold rest in *; simpl in *; lia]|].
    intros ds _ (c' & us & Hr' & -> & Hg'). simpl in Hg'. norm_names. exists (c ++ c'), (d :: us).
    split_and!; [|by rewrite <- app_assoc|by apply gu_cons].
    destruct Hs as (_ & _ & ->). rewrite <- app_assoc. f_equal. exact Hr'. }
  destruct tk; try exact Hstep. apply pwp_ret. exists [], []. rewrite app_nil_r.
  destruct (rest_cons p Hwf) as (t & r' & _ & Hr' & Heof & _). rewrite Hr in Hr'. injection Hr' as Hk' ->.
  rewrite Hr, Heof by done. auto with grammar.
Qed.

Lemma parse_spec :
  match parse T with
  | Ok unit => exists c, map kind T = c ++ [T_Eof] /\ g_unit ∅ c unit
  | Err e => located e
  | _ => False
  end.
Proof.
  assert (Hwf : wf (Parser_new T)).
  { split; [done|]. destruct HT as (body & e & HTe & _). simpl. rewrite HTe, length_app. simpl. lia. }
  assert (Hwp : pwp parse_unit (Parser_new T) (fun ds _ => exists c us, rest (Parser_new T) = c ++ [T_Eof] /\
    ds = [] ++ us /\ g_unit (struct_names (Parser_new T)) c us)).
  { apply pwp_with_fuel. pose proof (rest_fuel _ Hwf). apply unit_loop_spec; [done|lia]. }
  revert Hwp. unfold pwp, parse. destruct (parse_unit (Parser_new T)) as [[]?]; simpl; try done.
  intros (c & us & Hr & -> & Hg). exists c. by rewrite <- Hr.
Qed.
End Soundness.

(** ** The whole front end *)

Lemma tiles_spans s p ts q :
  tiles s p ts q -> Forall (fun t => span_within (length s) (span t)) ts.
Proof.
  revert p. induction ts as [|t ts IH]; intros p; [done|]. intros (_ & H & _ & Ht).
  constructor; [unfold span_within; lia|by eapply IH].
Qed.

Lemma stream_terminated s ts : stream_of s ts -> terminated ts.
Proof.
  intros (body & q & -> & Ht & _). eexists _, _. split_and!; [done|done|by eapply tiles_not_eof].
Qed.

Lemma stream_spans s ts : stream_of s ts -> Forall (fun t => span_within (length s) (span t)) ts.
Proof.
  intros (body & q & -> & Ht & _). apply Forall_app. split; [by eapply tiles_spans|].
  apply Forall_singleton. unfold span_within. simpl. lia.
Qed.

Lemma peek_at p t : toks p !! idx p = Some t -> peek p = (Ok (kind t), p).
Proof. intros H. unfold peek, here, token_at, mbind. by rewrite H. Qed.

Lemma bump_at p t : toks p !! idx p = Some t -> kind t <> T_Eof ->
  bump p = (Ok (kind t), mkParser (toks p) (idx p + 1) (struct_names p)).
Proof. intros H Hk. unfold bump. rewrite (mbind_ok _ _ _ _ _ (peek_at _ _ H)). by destruct (kind t). Qed.

(** ** Properties *)

(** C6. On every token array with one final [Eof] the parser stops by itself
    without a panic: no index is out of range and no loop or recursion is
    endless. What it returns is a tree of the grammar for all the tokens before
    [Eof], in order, and an error points at a token of the array. *)
Theorem parse_sound (ts : list Token) :
  terminated ts ->
  match parse ts with
  | Ok unit => exists body, map kind ts = body ++ [T_Eof] /\ g_unit ∅ body unit
  | Err e => In (pe_span e) (map span ts)
  | Panic | NoFuel => False
  end.
Proof. apply parse_spec. Qed.

(** The front end is total: on every source text, lexing and parsing stop by
    themselves without a panic. Success means that the text is a stream of
    lexemes that the grammar derives the tree from; every error, of the lexer or
    of the parser, carries a span inside the text. *)
Lemma frontend_spec (source : string) :
  match frontend source with
  | Ok unit => exists ts body, stream_of (list_ascii_of_string source) ts /\
      map kind ts = body ++ [T_Eof] /\ g_unit ∅ body unit
  | Err (CE_Lex e) => span_within (String.length source) (le_span e)
  | Err (CE_Parse e) => span_within (String.length source) (pe_span e)
  | Panic | NoFuel => False
  end.
Proof.
  unfold frontend. pose proof (lex_spec source) as Hlex. destruct (lex source) as [ts|e| |]; try done.
  pose proof (parse_spec ts (stream_terminated _ _ Hlex)) as Hparse. destruct (parse ts) as [unit|e| |]; try done.
  - destruct Hparse as (body & ? & ?). eauto.
  - apply in_map_iff in Hparse as (t & <- & Hin%list_elem_of_In).
    rewrite <- length_list_ascii. pose proof (stream_spans _ _ Hlex) as Hall.
    rewrite Forall_forall in Hall. by apply Hall.
Qed.

(** A token array for kinds, all at one place. *)
Definition tokens_of (ks : list TokenKind) : list Token := map (fun k => mkToken k (mkSpan 0 0)) ks.

(** Any keyword opens the else branch of an [if]: after [if (c) {}] the
    keyword [kw] is swallowed, whatever it is, and the expression after it
    becomes the else branch. So [if (c) {} return x;] never returns [x]. *)
Theorem any_keyword_is_else (kw : Keyword) :
  fst (parse_stmt (Parser_new (tokens_of
    [T_Keyword Kw_If; T_LParen; T_Ident "c"; T_RParen; T_LBrace; T_RBrace;
     T_Keyword kw; T_Ident "x"; T_Semicolon; T_RBrace; T_Eof])))
  = Ok (S_If (E_Ident "c") [] (Some [S_Expr (E_Ident "x")])).
Proof. by destruct kw. Qed.

(** A parenthesised expression that starts with a builtin type word loses
    the word: on [( T k ...] where [k] is not the closing parenthesis, the parser
    goes on with the expression after [T], so [(float2(x))] means [(x)]. *)
Theorem paren_type_word_dropped (rec_expr rec_unary : P Expr) (p : Parser) (s : string) (ty : Type_)
    (t0 t1 t2 : Token) :
  toks p !! idx p = Some t0 -> toks p !! (idx p + 1) = Some t1 -> toks p !! (idx p + 2) = Some t2 ->
  kind t0 = T_LParen -> kind t1 = T_Ident s -> decode_type_word s = Some ty -> kind t2 <> T_RParen ->
  parse_primary rec_expr rec_unary p =
    (let! e := rec_expr in expect T_RParen ")" ;;; mret e) (mkParser (toks p) (idx p + 2) (struct_names p)).
Proof.
  intros H0 H1 H2 K0 K1 Hs K2.
  assert (Hv : same_variant (kind t2) T_RParen = false).
  { destruct (same_variant _ _) eqn:E; [|done]. by apply same_variant_plain in E. }
  set (p1 := mkParser (toks p) (idx p + 1) (struct_names p)).
  set (p2 := mkParser (toks p) (idx p + 2) (struct_names p)).
  assert (Hp1 : peek p1 = (Ok (T_Ident s), p1)) by (rewrite <- K1; by apply peek_at).
  assert (Hb0 : bump p = (Ok T_LParen, p1)) by (rewrite (bump_at _ t0), K0 by (done || by rewrite K0); done).
  assert (Hb1 : bump p1 = (Ok (T_Ident s), p2)).
  { rewrite (bump_at _ t1), K1 by (done || by rewrite K1). unfold p1, p2. simpl. by rewrite <- Nat.add_assoc. }
  unfold parse_primary. rewrite (mbind_ok _ _ _ _ _ (peek_at _ _ H0)), K0.
  rewrite (mbind_ok _ _ _ _ _ Hb0). unfold parse_paren.
  erewrite mbind_ok.
  2:{ unfold peek_is_type, type_token_len. erewrite mbind_ok; [done|]. rewrite (mbind_ok _ _ _ _ _ Hp1).
      unfold is_type_word. by rewrite Hs. }
  cbn [Nat.ltb Nat.leb]. erewrite mbind_ok.
  2:{ unfold parse_type. rewrite (mbind_ok _ _ _ _ _ Hb1), Hs. done. }
  erewrite (mbind_ok (eat T_RParen) _ p2).
  2:{ unfold eat. by rewrite (mbind_ok _ _ _ _ _ (peek_at p2 t2 H2)), Hv. }
  done.
Qed.

(** ** Witnesses *)

Lemma parse_sound_witness :
  exists unit body, parse (tokens_of [T_Keyword Kw_Float; T_Ident "x"; T_Semicolon; T_Eof]) = Ok unit /\
    map kind (tokens_of [T_Keyword Kw_Float; T_Ident "x"; T_Semicolon; T_Eof]) = body ++ [T_Eof] /\
    g_unit ∅ body unit.
Proof.
  pose proof (parse_sound (tokens_of [T_Keyword Kw_Float; T_Ident "x"; T_Semicolon; T_Eof])) as H.
  destruct H as (body & H).
  - exists (tokens_of [T_Keyword Kw_Float; T_Ident "x"; T_Semicolon]), (mkToken T_Eof (mkSpan 0 0)).
    split_and!; [done|done|]. by repeat constructor.
  - by eexists _, body.
Defined.

Lemma paren_type_word_dropped_witness :
  let p := Parser_new (tokens_of [T_LParen; T_Ident "float2"; T_LParen; T_Ident "x"; T_RParen; T_RParen; T_Eof]) in
  decode_type_word "float2" = Some (Ty_Vector Sc_Float 2) /\
  parse_primary parse_expr parse_expr p =
    (let! e := parse_expr in expect T_RParen ")" ;;; mret e) (mkParser (toks p) 2 (struct_names p)).
Proof.
  intros p. split; [done|]. apply (paren_type_word_dropped parse_expr parse_expr p "float2" (Ty_Vector Sc_Float 2)
    (mkToken T_LParen (mkSpan 0 0)) (mkToken (T_Ident "float2") (mkSpan 0 0)) (mkToken T_LParen (mkSpan 0 0))); done.
Defined.
