(* ===== verification/SpirvBuilder.v ===== *)
(** * The SPIR-V builder (the rspirv crate, used by [hlsl-compiler/src/codegen.rs])

    The builder is third-party code: the class [Builder] has one operation per
    method the code generator calls, grouped by what the method returns, and
    [BuilderLaws] states the documented behaviour the generator relies on. The
    module under construction, which the generator also reads and edits
    directly, is plain data. [SmallBuilder] is an executable instance. *)
From Stdlib Require Import ZArith Lia Ascii String.
From stdpp Require Import base list option strings.
From S2P Require Import Prelude.

(** ** Modules as data *)

Inductive StorageClass := SC_Uniform | SC_UniformConstant | SC_Input | SC_Output | SC_Function.

Inductive BuiltIn := BI_Position | BI_FragCoord.

Inductive Decoration :=
  | Dec_Block | Dec_Offset (o : Z) | Dec_DescriptorSet (s : Z) | Dec_Binding (b : Z)
  | Dec_BuiltIn (b : BuiltIn) | Dec_Location (l : Z).

Inductive ExecutionModel := EM_Vertex | EM_Fragment.

(** The opcodes the generator emits. *)
Inductive Opcode :=
  | OpTypeVoid | OpTypeBool | OpTypeFloat | OpTypeInt | OpTypeVector | OpTypeMatrix | OpTypeStruct
  | OpTypePointer | OpTypeImage | OpTypeSampledImage | OpTypeSampler | OpTypeFunction
  | OpConstant | OpConstantTrue | OpConstantFalse | OpVariable | OpExtInstImport | OpFunction
  | OpLoad | OpStore | OpAccessChain | OpCompositeExtract | OpCompositeConstruct | OpVectorShuffle
  | OpExtInst | OpDot | OpSampledImage | OpImageSampleImplicitLod
  | OpFAdd | OpIAdd | OpFSub | OpISub | OpFMul | OpIMul | OpFDiv | OpSDiv | OpUDiv
  | OpFOrdEqual | OpFOrdNotEqual | OpFOrdLessThan | OpFOrdLessThanEqual | OpFOrdGreaterThan
  | OpFOrdGreaterThanEqual | OpIEqual | OpINotEqual | OpSLessThan | OpSLessThanEqual
  | OpSGreaterThan | OpSGreaterThanEqual | OpLogicalAnd | OpLogicalOr | OpLogicalNot | OpNot
  | OpFNegate | OpSNegate | OpConvertSToF | OpConvertUToF | OpConvertFToS | OpConvertFToU | OpAny
  | OpMatrixTimesVector | OpVectorTimesMatrix | OpMatrixTimesMatrix
  | OpSelectionMerge | OpLoopMerge | OpBranch | OpBranchConditional | OpReturn.

Inductive Operand :=
  | IdRef (w : Z) | LiteralBit32 (w : Z) | StorageOperand (s : StorageClass)
  | LiteralString (s : string).

Record Instruction := mkInst {
  i_op : Opcode; i_rty : option Z; i_id : option Z; i_operands : list Operand }.

#[export] Instance StorageClass_eq_dec : EqDecision StorageClass.
Proof. solve_decision. Defined.
#[export] Instance Opcode_eq_dec : EqDecision Opcode.
Proof. solve_decision. Defined.
#[export] Instance Operand_eq_dec : EqDecision Operand.
Proof. solve_decision. Defined.
#[export] Instance Instruction_eq_dec : EqDecision Instruction.
Proof. solve_decision. Defined.

Record BlockData := mkBlock { bl_label : Z; bl_insts : list Instruction }.
Record FunctionData := mkFunction { f_def : Instruction; f_blocks : list BlockData }.

(** Calls that only record something in the header sections of the module
    (capabilities, names, decorations, entry points, execution modes). *)
Inductive HeaderCall :=
  | h_set_version (major minor : Z)
  | h_capability_shader
  | h_memory_model_logical_glsl450
  | h_source_hlsl (version : Z)
  | h_name (id : Z) (n : string)
  | h_member_name (id : Z) (i : Z) (n : string)
  | h_decorate (id : Z) (d : Decoration)
  | h_member_decorate (id : Z) (i : Z) (d : Decoration)
  | h_entry_point (m : ExecutionModel) (id : Z) (n : string) (interface : list Z)
  | h_execution_mode_origin_upper_left (id : Z).

(** [dr::Module]: the header sections are kept as the calls made, the sections
    the generator edits or that hold code as instructions. *)
Record Module_ := mkModule {
  m_header : list HeaderCall;
  m_imports : list Instruction;
  m_globals : list Instruction;
  m_functions : list FunctionData }.

Definition empty_module : Module_ := mkModule [] [] [] [].

Definition push_header (c : HeaderCall) (m : Module_) : Module_ :=
  mkModule (m_header m ++ [c]) (m_imports m) (m_globals m) (m_functions m).
Definition push_import (i : Instruction) (m : Module_) : Module_ :=
  mkModule (m_header m) (m_imports m ++ [i]) (m_globals m) (m_functions m).
Definition push_global (i : Instruction) (m : Module_) : Module_ :=
  mkModule (m_header m) (m_imports m) (m_globals m ++ [i]) (m_functions m).
Definition set_functions (fs : list FunctionData) (m : Module_) : Module_ :=
  mkModule (m_header m) (m_imports m) (m_globals m) fs.

(** An edit of the last function of the module. *)
Definition edit_last (g : list BlockData -> list BlockData) (m : Module_) : Module_ :=
  set_functions
    (alter (fun f => mkFunction (f_def f) (g (f_blocks f))) (pred (length (m_functions m))) (m_functions m)) m.
Definition push_inst (k : nat) (i : Instruction) : list BlockData -> list BlockData :=
  alter (fun b => mkBlock (bl_label b) (bl_insts b ++ [i])) k.

(** ** Calls that build instructions *)

Inductive TypeCall :=
  | type_void | type_bool | type_float (w : Z) | type_int (w s : Z)
  | type_vector (e n : Z) | type_matrix (c n : Z) | type_struct (ms : list Z)
  | type_pointer (sc : StorageClass) (t : Z) | type_image_2d (sampled : Z)
  | type_sampled_image (i : Z) | type_sampler | type_function (r : Z) (ps : list Z).

(** The instruction of a type call, without its result id. The remaining
    operands of an image (dimension, depth, arrayed, multisampled, sampled,
    format) are the constants the generator passes. *)
Definition type_inst (c : TypeCall) (r : Z) : Instruction :=
  let '(op, ops) := match c with
  | type_void => (OpTypeVoid, [])
  | type_bool => (OpTypeBool, [])
  | type_float w => (OpTypeFloat, [LiteralBit32 w])
  | type_int w s => (OpTypeInt, [LiteralBit32 w; LiteralBit32 s])
  | type_vector e n => (OpTypeVector, [IdRef e; LiteralBit32 n])
  | type_matrix c n => (OpTypeMatrix, [IdRef c; LiteralBit32 n])
  | type_struct ms => (OpTypeStruct, IdRef <$> ms)
  | type_pointer sc t => (OpTypePointer, [StorageOperand sc; IdRef t])
  | type_image_2d t => (OpTypeImage, IdRef t :: (LiteralBit32 <$> [1; 0; 0; 0; 1; 0]))
  | type_sampled_image i => (OpTypeSampledImage, [IdRef i])
  | type_sampler => (OpTypeSampler, [])
  | type_function r ps => (OpTypeFunction, IdRef <$> (r :: ps))
  end%Z in mkInst op None (Some r) ops.

(** Methods that append an instruction with a result to the selected block. *)
Inductive ValueCall :=
  | load (ty p : Z)
  | access_chain (ty base : Z) (idx : list Z)
  | composite_extract (ty c : Z) (path : list Z)
  | composite_construct (ty : Z) (cs : list Z)
  | vector_shuffle (ty a b : Z) (comps : list Z)
  | ext_inst (ty set op : Z) (args : list Z)
  | dot (ty a b : Z)
  | sampled_image (ty i s : Z)
  | image_sample_implicit_lod (ty i c : Z).

Definition value_inst (c : ValueCall) (r : Z) : Instruction :=
  let '(op, ty, ops) := match c with
  | load ty p => (OpLoad, ty, [IdRef p])
  | access_chain ty base idx => (OpAccessChain, ty, IdRef <$> (base :: idx))
  | composite_extract ty c path => (OpCompositeExtract, ty, IdRef c :: (LiteralBit32 <$> path))
  | composite_construct ty cs => (OpCompositeConstruct, ty, IdRef <$> cs)
  | vector_shuffle ty a b comps => (OpVectorShuffle, ty, IdRef a :: IdRef b :: (LiteralBit32 <$> comps))
  | ext_inst ty set op args => (OpExtInst, ty, IdRef set :: LiteralBit32 op :: (IdRef <$> args))
  | dot ty a b => (OpDot, ty, [IdRef a; IdRef b])
  | sampled_image ty i s => (OpSampledImage, ty, [IdRef i; IdRef s])
  | image_sample_implicit_lod ty i c => (OpImageSampleImplicitLod, ty, [IdRef i; IdRef c])
  end in mkInst op (Some ty) (Some r) ops.

(** Methods that append an instruction without a result and keep the block. *)
Inductive EffectCall := store (p v : Z) | selection_merge (m : Z) | loop_merge (m c : Z).

Definition effect_inst (c : EffectCall) : Instruction :=
  match c with
  | store p v => mkInst OpStore None None [IdRef p; IdRef v]
  | selection_merge m => mkInst OpSelectionMerge None None [IdRef m]
  | loop_merge m c => mkInst OpLoopMerge None None [IdRef m; IdRef c]
  end.

(** Methods that end the selected block. *)
Inductive TermCall := ret | branch (l : Z) | branch_conditional (c t e : Z).

Definition term_inst (c : TermCall) : Instruction :=
  match c with
  | ret => mkInst OpReturn None None []
  | branch l => mkInst OpBranch None None [IdRef l]
  | branch_conditional c t e => mkInst OpBranchConditional None None [IdRef c; IdRef t; IdRef e]
  end.

(** ** The interface *)

Class Builder (B : Type) := {
  b_new : B;
  b_id : B -> Z * B;
  b_type : TypeCall -> B -> Z * B;
  b_ext_inst_import : string -> B -> Z * B;
  b_variable : Z -> StorageClass -> B -> Z * B;
  b_header : HeaderCall -> B -> B;
  b_begin_function : Z -> Z -> B -> outcome unit Z * B;
  b_end_function : B -> outcome unit unit * B;
  b_begin_block : option Z -> B -> outcome unit Z * B;
  b_value : ValueCall -> B -> outcome unit Z * B;
  b_effect : EffectCall -> B -> outcome unit unit * B;
  b_terminate : TermCall -> B -> outcome unit unit * B;
  b_insert_into_block : Instruction -> B -> outcome unit unit * B;
  b_module : B -> Module_;
  b_set_module : Module_ -> B -> B;
  b_selected_block : B -> option nat;
  b_assemble : Module_ -> list Z }.

(** What the laws speak of: the module, the selected block (an index into the
    last function), whether a function is open, and the next unused id. *)
Record View := mkView { v_mod : Module_; v_sel : option nat; v_fun : bool; v_bound : Z }.

Definition on_mod (g : Module_ -> Module_) (v : View) : View :=
  mkView (g (v_mod v)) (v_sel v) (v_fun v) (v_bound v).
Definition bump (v : View) : View := mkView (v_mod v) (v_sel v) (v_fun v) (v_bound v + 1).
Definition select (o : option nat) (v : View) : View := mkView (v_mod v) o (v_fun v) (v_bound v).
Definition set_fun (b : bool) (v : View) : View := mkView (v_mod v) (v_sel v) b (v_bound v).

Definition last_blocks (m : Module_) : list BlockData :=
  match last (m_functions m) with Some f => f_blocks f | None => [] end.

Definition function_inst (rt ft r : Z) : Instruction :=
  mkInst OpFunction (Some rt) (Some r) [IdRef ft].
Definition push_function (rt ft r : Z) (m : Module_) : Module_ :=
  set_functions (m_functions m ++ [mkFunction (function_inst rt ft r) []]) m.

(** The documented behaviour of the builder. A type call returns the id of an
    equal instruction of the module when there is one. Nothing is assumed of
    the calls made outside their section, which return an error. *)
Class BuilderLaws (B : Type) `{Builder B} := {
  b_view : B -> View;
  view_module b : v_mod (b_view b) = b_module b;
  view_selected b : v_sel (b_view b) = b_selected_block b;
  new_law : b_view b_new = mkView empty_module None false 1;
  id_law b : exists b', b_id b = (v_bound (b_view b), b') /\ b_view b' = bump (b_view b);
  type_law c b : exists r b', b_type c b = (r, b') /\
    ((b_view b' = b_view b /\ type_inst c r ∈ m_globals (b_module b)) \/
     (r = v_bound (b_view b) /\ b_view b' = bump (on_mod (push_global (type_inst c r)) (b_view b))));
  import_law s b : exists b', let r := v_bound (b_view b) in
    b_ext_inst_import s b = (r, b') /\
    b_view b' = bump (on_mod (push_import (mkInst OpExtInstImport None (Some r) [LiteralString s])) (b_view b));
  variable_law pt sc b : b_selected_block b = None ->
    exists b', let r := v_bound (b_view b) in b_variable pt sc b = (r, b') /\
    b_view b' = bump (on_mod (push_global (mkInst OpVariable (Some pt) (Some r) [StorageOperand sc])) (b_view b));
  header_law c b : b_view (b_header c b) = on_mod (push_header c) (b_view b);
  begin_function_law rt ft b : v_fun (b_view b) = false ->
    exists b', let r := v_bound (b_view b) in b_begin_function rt ft b = (Ok r, b') /\
    b_view b' = bump (set_fun true (select None (on_mod (push_function rt ft r) (b_view b))));
  end_function_law b : v_fun (b_view b) = true ->
    exists b', b_end_function b = (Ok tt, b') /\ b_view b' = set_fun false (select None (b_view b));
  begin_block_law (o : option Z) b : v_fun (b_view b) = true -> b_selected_block b = None ->
    exists b', let l := default (v_bound (b_view b)) o in
    b_begin_block o b = (Ok l, b') /\
    b_view b' = (if o is Some _ then id else bump)
      (select (Some (length (last_blocks (b_module b))))
        (on_mod (edit_last (fun bs => bs ++ [mkBlock l []])) (b_view b)));
  value_law c b k : b_selected_block b = Some k ->
    exists b', let r := v_bound (b_view b) in b_value c b = (Ok r, b') /\
    b_view b' = bump (on_mod (edit_last (push_inst k (value_inst c r))) (b_view b));
  effect_law c b k : b_selected_block b = Some k ->
    exists b', b_effect c b = (Ok tt, b') /\
    b_view b' = on_mod (edit_last (push_inst k (effect_inst c))) (b_view b);
  terminate_law c b k : b_selected_block b = Some k ->
    exists b', b_terminate c b = (Ok tt, b') /\
    b_view b' = select None (on_mod (edit_last (push_inst k (term_inst c))) (b_view b));
  insert_law i b k : b_selected_block b = Some k ->
    exists b', b_insert_into_block i b = (Ok tt, b') /\
    b_view b' = on_mod (edit_last (push_inst k i)) (b_view b);
  set_module_law m b : b_view (b_set_module m b) = on_mod (fun _ => m) (b_view b) }.

(** ** An executable instance *)

(** The id of an instruction of the globals that equals [i] up to its result. *)
Fixpoint find_equal (i : Z -> Instruction) (l : list Instruction) : option Z :=
  match l with
  | [] => None
  | j :: l =>
      match i_id j with
      | Some r => if bool_decide (j = i r) then Some r else find_equal i l
      | None => find_equal i l
      end
  end.

Lemma find_equal_elem i l r : find_equal i l = Some r -> i r ∈ l.
Proof.
  induction l as [|j l IH]; simpl; [done|].
  destruct (i_id j) as [r'|]; [|intros ?; right; auto].
  case_bool_decide as E; [intros [= <-]; rewrite E; left | intros ?; right; auto].
Qed.

Definition when_selected {A} (f : nat -> View -> outcome unit A * View) (v : View) : outcome unit A * View :=
  match v_sel v with Some k => f k v | None => (Err tt, v) end.

#[export] Instance SmallBuilder : Builder View := {|
  b_new := mkView empty_module None false 1;
  b_id v := (v_bound v, bump v);
  b_type c v :=
    match find_equal (type_inst c) (m_globals (v_mod v)) with
    | Some r => (r, v)
    | None => (v_bound v, bump (on_mod (push_global (type_inst c (v_bound v))) v))
    end;
  b_ext_inst_import s v :=
    (v_bound v, bump (on_mod (push_import (mkInst OpExtInstImport None (Some (v_bound v)) [LiteralString s])) v));
  b_variable pt sc v :=
    let i := mkInst OpVariable (Some pt) (Some (v_bound v)) [StorageOperand sc] in
    (v_bound v, bump (on_mod (match v_sel v with
      | None => push_global i
      | Some k => edit_last (push_inst k i) end) v));
  b_header c v := on_mod (push_header c) v;
  b_begin_function rt ft v :=
    if v_fun v then (Err tt, v)
    else (Ok (v_bound v), bump (set_fun true (select None (on_mod (push_function rt ft (v_bound v)) v))));
  b_end_function v :=
    if v_fun v then (Ok tt, set_fun false (select None v)) else (Err tt, v);
  b_begin_block o v :=
    match v_fun v, v_sel v with
    | true, None =>
        let l := default (v_bound v) o in
        (Ok l, (if o is Some _ then id else bump)
          (select (Some (length (last_blocks (v_mod v))))
            (on_mod (edit_last (fun bs => bs ++ [mkBlock l []])) v)))
    | _, _ => (Err tt, v)
    end;
  b_value c := when_selected (fun k v =>
    (Ok (v_bound v), bump (on_mod (edit_last (push_inst k (value_inst c (v_bound v)))) v)));
  b_effect c := when_selected (fun k v => (Ok tt, on_mod (edit_last (push_inst k (effect_inst c))) v));
  b_terminate c := when_selected (fun k v =>
    (Ok tt, select None (on_mod (edit_last (push_inst k (term_inst c))) v)));
  b_insert_into_block i := when_selected (fun k v => (Ok tt, on_mod (edit_last (push_inst k i)) v));
  b_module := v_mod;
  b_set_module m v := on_mod (fun _ => m) v;
  b_selected_block := v_sel;
  b_assemble m := [119734787; 65536; 0; Z.of_nat (length (m_globals m)); 0]%Z |}.

#[export] Instance SmallBuilderLaws : BuilderLaws View.
Proof.
  refine {| b_view := id |}; try done; simpl; intros.
  - eauto.
  - unfold id. destruct (find_equal _ _) as [r|] eqn:E.
    + exists r, b. split; [done|left]. split; [done|by apply find_equal_elem].
    + eexists _, _. split; [done|by right].
  - eauto.
  - rewrite H. eauto.
  - unfold id in *. rewrite H. eauto.
  - unfold id in *. rewrite H. eauto.
  - unfold id in *. rewrite H, H0. by destruct o; eauto.
  - unfold when_selected. rewrite H. eauto.
  - unfold when_selected. rewrite H. eauto.
  - unfold when_selected. rewrite H. eauto.
  - unfold when_selected. rewrite H. eauto.
Defined.
