(* ===== verification/HlslCodegen.v ===== *)
(** * SPIR-V code generation ([crates/hlsl-compiler/src/codegen.rs])

    The generator as a state and error monad over its context, one definition
    per function. The builder is the interface [Builder]. Functions that call
    [emit_expr], [emit_stmt] or [emit_block] recursively take it as an
    argument; the fixpoints at the end tie the knot. Texts of error messages
    are constructors with the data they print. *)
From Stdlib Require Import ZArith Lia Ascii String.
From Stdlib Require Import Floats.SpecFloat.
From stdpp Require Import base list option gmap strings.
From S2P Require Import Prelude HlslLexer HlslAst SpirvBuilder.
Local Open Scope rust_scope.
Set Warnings "-register-all".

Inductive ShaderStage := Stage_Vertex | Stage_Pixel.

Definition execution_model (s : ShaderStage) : ExecutionModel :=
  match s with Stage_Vertex => EM_Vertex | Stage_Pixel => EM_Fragment end.

Inductive CodegenError :=
  | CE_unknown_struct (n : string)
  | CE_global_type (t : Type_)
  | CE_input_type (t : Type_)
  | CE_return_type (t : Type_)
  | CE_builder (call : string)
  | CE_input_not_found (n : string)
  | CE_no_body
  | CE_main_no_id
  | CE_no_member_type (n : string)
  | CE_undefined (n : string)
  | CE_no_member (m n : string)
  | CE_no_address (m : string) (t : Type_)
  | CE_not_assignable (e : Expr)
  | CE_member_access (m : string) (t : Type_)
  | CE_swizzle (m : string)
  | CE_float_args
  | CE_scalar_args (t : Type_)
  | CE_broadcast_arg
  | CE_constructor (t : Type_)
  | CE_arith (op : BinaryOp)
  | CE_comparison (op : BinaryOp)
  | CE_unary (op : UnaryOp) (t : Type_)
  | CE_cast (a b : Type_)
  | CE_unknown_intrinsic (n : string)
  | CE_arity (n : string) (expected got : nat)
  | CE_mul_args
  | CE_mul_dims (matrix_first : bool)
  | CE_method (m : string)
  | CE_sample_args
  | CE_infer_call (n : string)
  | CE_infer_method (m : string)
  | CE_infer_member (t : Type_)
  | CE_not_bool (t : Type_)
  | CE_no_function
  | CE_no_entry_block
  | CE_broadcast (t : Type_)
  | CE_no_value_type (t : Type_)
  | CE_no_main.

(** Opcodes of [GLSL.std.450]. *)
Definition glsl_FABS := 4%Z.
Definition glsl_FLOOR := 8%Z.
Definition glsl_CEIL := 9%Z.
Definition glsl_FRACT := 10%Z.
Definition glsl_SIN := 13%Z.
Definition glsl_COS := 14%Z.
Definition glsl_TAN := 15%Z.
Definition glsl_ASIN := 16%Z.
Definition glsl_ACOS := 17%Z.
Definition glsl_ATAN := 18%Z.
Definition glsl_POW := 26%Z.
Definition glsl_EXP := 27%Z.
Definition glsl_LOG := 28%Z.
Definition glsl_SQRT := 31%Z.
Definition glsl_INVERSE_SQRT := 32%Z.
Definition glsl_FMIN := 37%Z.
Definition glsl_FMAX := 40%Z.
Definition glsl_FCLAMP := 43%Z.
Definition glsl_FMIX := 46%Z.
Definition glsl_LENGTH := 66%Z.
Definition glsl_CROSS := 68%Z.
Definition glsl_NORMALIZE := 69%Z.

(** A value: its id and HLSL type. A place: a pointer and the pointee type. *)
Record Val := mkVal { v_id : Z; v_ty : Type_ }.
Record Place := mkPlace { pl_ptr : Z; pl_ty : Type_ }.
Record StructInfo := mkStructInfo { si_type_id : Z; si_members : list StructMember }.

(** ** Pure helpers *)

Definition is_comparison (op : BinaryOp) : bool :=
  match op with Op_Eq | Op_Ne | Op_Lt | Op_Le | Op_Gt | Op_Ge => true | _ => false end.

Definition swizzle_index (c : ascii) : option Z :=
  if Ascii.eqb c "x" || Ascii.eqb c "r" then Some 0%Z
  else if Ascii.eqb c "y" || Ascii.eqb c "g" then Some 1%Z
  else if Ascii.eqb c "z" || Ascii.eqb c "b" then Some 2%Z
  else if Ascii.eqb c "w" || Ascii.eqb c "a" then Some 3%Z
  else None.

Definition decode_swizzle (s : string) : option (list Z) :=
  if String.eqb s EmptyString || (4 <? String.length s)%nat then None
  else mapM swizzle_index (list_ascii_of_string s).

(** [trim_start_matches] of ASCII letters. *)
Fixpoint trim_letters (s : string) : string :=
  match s with
  | String c r =>
      let n := nat_of_ascii c in
      if ((65 <=? n) && (n <=? 90)) || ((97 <=? n) && (n <=? 122)) then trim_letters r else s
  | EmptyString => s
  end%nat.

Definition parse_register (reg : option string) : Z * Z :=
  match reg with
  | Some s => (0, default 0 (parse_u32 (trim_letters s)))
  | None => (0, 0)
  end%Z.

Definition member_align_size (ty : Type_) : Z * Z :=
  match ty with
  | Ty_Scalar _ => (4, 4)
  | Ty_Vector _ 2 => (8, 8)
  | Ty_Vector _ 3 => (16, 12)
  | Ty_Vector _ 4 => (16, 16)
  | Ty_Matrix _ _ c => (16, wrap 32 (16 * c))
  | _ => (16, 16)
  end%Z.

Definition align_up (offset align : Z) : Z :=
  if (align =? 0)%Z then offset
  else wrap 32 ((offset / align + (if (0 <? offset mod align)%Z then 1 else 0)) * align).

Definition matrix_cols (t : Type_) : Z := match t with Ty_Matrix _ _ c => c | _ => 1%Z end.

(** [v as f32] rounds to nearest even; [to_bits] is the IEEE encoding. *)
Definition f64_as_f32 (v : spec_float) : spec_float :=
  match v with
  | S754_finite s m e => binary_normalize 24 128 (if s then Zneg m else Zpos m) e s
  | _ => v
  end.
Definition f32_to_bits (v : spec_float) : Z :=
  (match v with
  | S754_zero s => if s then 2 ^ 31 else 0
  | S754_infinity s => (if s then 2 ^ 31 else 0) + 255 * 2 ^ 23
  | S754_nan => 255 * 2 ^ 23 + 2 ^ 22
  | S754_finite s m e =>
      (if s then 2 ^ 31 else 0) +
      (if Z.pos m <? 2 ^ 23 then Z.pos m else (e + 150) * 2 ^ 23 + (Z.pos m - 2 ^ 23))
  end)%Z.

Section Codegen.
Context {B : Type} `{Builder B}.

(** ** The context *)

Record Ctx := mkCtx {
  c_stage : ShaderStage; c_builder : B; c_glsl_set : Z;
  c_void_t : Z; c_bool_t : Z; c_float_t : Z; c_int_t : Z; c_uint_t : Z;
  c_structs : gmap string StructInfo; c_globals : gmap string Place;
  c_cbuffer_members : gmap string (Z * Z); c_locals : list (string * Place);
  c_out_var : option Z; c_out_ty : Type_; c_interface : list Z }.

Definition set_builder (b : B) (c : Ctx) : Ctx :=
  mkCtx (c_stage c) b (c_glsl_set c) (c_void_t c) (c_bool_t c) (c_float_t c) (c_int_t c) (c_uint_t c)
    (c_structs c) (c_globals c) (c_cbuffer_members c) (c_locals c) (c_out_var c) (c_out_ty c) (c_interface c).
Definition set_tables (ss : gmap string StructInfo) (gs : gmap string Place)
    (ms : gmap string (Z * Z)) (ls : list (string * Place)) (c : Ctx) : Ctx :=
  mkCtx (c_stage c) (c_builder c) (c_glsl_set c) (c_void_t c) (c_bool_t c) (c_float_t c) (c_int_t c) (c_uint_t c)
    ss gs ms ls (c_out_var c) (c_out_ty c) (c_interface c).
Definition set_output (o : option Z) (t : Type_) (i : list Z) (c : Ctx) : Ctx :=
  mkCtx (c_stage c) (c_builder c) (c_glsl_set c) (c_void_t c) (c_bool_t c) (c_float_t c) (c_int_t c) (c_uint_t c)
    (c_structs c) (c_globals c) (c_cbuffer_members c) (c_locals c) o t i.

Abbreviation G := (M Ctx CodegenError).

Definition modify (f : Ctx -> Ctx) : G unit := fun c => (Ok tt, f c).
Definition insert_struct (n : string) (i : StructInfo) : G unit :=
  modify (fun c => set_tables (<[n := i]> (c_structs c)) (c_globals c) (c_cbuffer_members c) (c_locals c) c).
Definition insert_global (n : string) (g : Place) : G unit :=
  modify (fun c => set_tables (c_structs c) (<[n := g]> (c_globals c)) (c_cbuffer_members c) (c_locals c) c).
Definition insert_cbuffer_member (n : string) (m : Z * Z) : G unit :=
  modify (fun c => set_tables (c_structs c) (c_globals c) (<[n := m]> (c_cbuffer_members c)) (c_locals c) c).
Definition push_local (n : string) (l : Place) : G unit :=
  modify (fun c => set_tables (c_structs c) (c_globals c) (c_cbuffer_members c) (c_locals c ++ [(n, l)]) c).
Definition push_interface (v : Z) : G unit :=
  modify (fun c => set_output (c_out_var c) (c_out_ty c) (c_interface c ++ [v]) c).

Definition gets {A} (f : Ctx -> A) : G A := fun c => (Ok (f c), c).
Definition ok_or {A} (o : option A) (e : CodegenError) : G A :=
  match o with Some a => mret a | None => mfail e end.

(** A builder method that cannot fail, and one whose error becomes a
    [CodegenError] that names the call. *)
Definition bld {A} (f : B -> A * B) : G A := fun c =>
  let '(a, b) := f (c_builder c) in (Ok a, set_builder b c).
Definition try_bld {A} (call : string) (f : B -> outcome unit A * B) : G A := fun c =>
  let '(r, b) := f (c_builder c) in
  (match r with Ok a => Ok a | Err _ => Err (CE_builder call) | Panic => Panic | NoFuel => NoFuel end,
   set_builder b c).
Definition header (h : HeaderCall) : G unit := bld (fun b => (tt, b_header h b)).

Definition builder_id : G Z := bld b_id.
Definition btype (c : TypeCall) : G Z := bld (b_type c).
Definition bvalue (call : string) (v : ValueCall) : G Z := try_bld call (b_value v).
Definition bstore (p v : Z) : G unit := try_bld "store" (b_effect (store p v)).
Definition bload (ty p : Z) : G Z := bvalue "load" (load ty p).
Definition bret : G unit := try_bld "ret" (b_terminate ret).
Definition bbranch (l : Z) : G unit := try_bld "branch" (b_terminate (branch l)).
Definition bbranch_conditional (c t e : Z) : G unit :=
  try_bld "branch_conditional" (b_terminate (branch_conditional c t e)).
Definition begin_block (l : option Z) : G Z := try_bld "begin_block" (b_begin_block l).

Definition push_block_inst (i : Instruction) : G unit := try_bld "insert_into_block" (b_insert_into_block i).

(** [module_mut().types_global_values.push]. *)
Definition push_global_value (i : Instruction) : G unit :=
  bld (fun b => (tt, b_set_module (push_global i (b_module b)) b)).

Definition Ctx_new (stage : ShaderStage) : Ctx :=
  let b := b_header h_memory_model_logical_glsl450
            (b_header h_capability_shader (b_header (h_set_version 1 0) b_new)) in
  let '(void_t, b) := b_type type_void b in
  let '(bool_t, b) := b_type type_bool b in
  let '(float_t, b) := b_type (type_float 32) b in
  let '(int_t, b) := b_type (type_int 32 1) b in
  let '(uint_t, b) := b_type (type_int 32 0) b in
  let '(glsl_set, b) := b_ext_inst_import "GLSL.std.450" b in
  let b := b_header (h_source_hlsl 500) b in
  mkCtx stage b glsl_set void_t bool_t float_t int_t uint_t ∅ ∅ ∅ [] None Ty_Void [].

(** ** Type ids *)

Definition scalar_type_id (k : ScalarKind) : G Z :=
  gets (fun c => match k with
    | Sc_Float => c_float_t c | Sc_Int => c_int_t c | Sc_Uint => c_uint_t c | Sc_Bool => c_bool_t c end).
Definition vector_type_id (k : ScalarKind) (n : Z) : G Z :=
  let! elem := scalar_type_id k in btype (type_vector elem n).

Definition type_id (ty : Type_) : G Z :=
  match ty with
  | Ty_Void => gets c_void_t
  | Ty_Scalar k => scalar_type_id k
  | Ty_Vector k n => vector_type_id k n
  | Ty_Matrix k rows cols => let! col := vector_type_id k rows in btype (type_matrix col cols)
  | Ty_Struct name =>
      let! ss := gets c_structs in
      let! info := ok_or (ss !! name) (CE_unknown_struct name) in
      mret (si_type_id info)
  | Ty_Texture2D => mfail (CE_no_value_type Ty_Texture2D)
  | Ty_SamplerState => mfail (CE_no_value_type Ty_SamplerState)
  end.

Definition image_type_id : G Z := let! f := gets c_float_t in btype (type_image_2d f).

Definition value_type_id (ty : Type_) : G Z :=
  match ty with
  | Ty_Texture2D => let! i := image_type_id in btype (type_sampled_image i)
  | Ty_SamplerState => btype type_sampler
  | other => type_id other
  end.

(** ** Constants *)

Definition const_op (ty bits : Z) : G Z :=
  let! id := builder_id in
  push_global_value (mkInst OpConstant (Some ty) (Some id) [LiteralBit32 bits]) ;;;
  mret id.
Definition float_const (v : spec_float) : G Z :=
  let! t := gets c_float_t in const_op t (f32_to_bits (f64_as_f32 v)).
Definition int_const (v : Z) (signed : bool) : G Z :=
  let! t := gets (if signed then c_int_t else c_uint_t) in const_op t (wrap 32 v).
Definition bool_const (v : bool) : G Z :=
  let! id := builder_id in
  let! t := gets c_bool_t in
  push_global_value (mkInst (if v then OpConstantTrue else OpConstantFalse) (Some t) (Some id) []) ;;;
  mret id.

(** An instruction made by hand: a fresh id, then [insert_into_block]. *)
Definition raw_inst (op : Opcode) (ty : Z) (ids : list Z) : G Z :=
  let! id := builder_id in
  push_block_inst (mkInst op (Some ty) (Some id) (IdRef <$> ids)) ;;;
  mret id.

(** ** Coercions and small emitters *)

Definition coerce_scalar (val : Val) (kind : ScalarKind) : G Val :=
  if bool_decide (v_ty val = Ty_Scalar kind) then mret val
  else
    let target := Ty_Scalar kind in
    let! target_id := type_id target in
    let op := match v_ty val with
      | Ty_Scalar Sc_Int => Some OpConvertSToF
      | Ty_Scalar Sc_Uint => Some OpConvertUToF
      | Ty_Scalar Sc_Float =>
          match kind with
          | Sc_Int => Some OpConvertFToS
          | Sc_Uint => Some OpConvertFToU
          | _ => None
          end
      | _ => None
      end in
    match op with
    | None => mret val
    | Some op => let! id := raw_inst op target_id [v_id val] in mret (mkVal id target)
    end.

Definition coerce (val : Val) (target : Type_) : G Val :=
  if bool_decide (v_ty val = target) then mret val
  else match v_ty val, target with
  | Ty_Scalar _, Ty_Scalar kind => coerce_scalar val kind
  | _, _ => mret val
  end.

Definition coerce_to_bool (val : Val) : G Z :=
  match v_ty val with
  | Ty_Scalar Sc_Bool => mret (v_id val)
  | Ty_Vector Sc_Bool _ => let! t := gets c_bool_t in raw_inst OpAny t [v_id val]
  | other => mfail (CE_not_bool other)
  end.

(** A [Function] variable, inserted at the front of the first block. *)
Definition insert_front (i : Instruction) (bs : list BlockData) : list BlockData :=
  alter (fun b => mkBlock (bl_label b) (i :: bl_insts b)) 0 bs.
Definition alloc_local (ty : Type_) : G Z :=
  let! ty_id := type_id ty in
  let! ptr_t := btype (type_pointer SC_Function ty_id) in
  let! id := builder_id in
  let inst := mkInst OpVariable (Some ptr_t) (Some id) [StorageOperand SC_Function] in
  let! m := gets (fun c => b_module (c_builder c)) in
  match last (m_functions m) with
  | None => mfail CE_no_function
  | Some f =>
      match f_blocks f with
      | [] => mfail CE_no_entry_block
      | _ :: _ =>
          bld (fun b => (tt, b_set_module (edit_last (insert_front inst) (b_module b)) b)) ;;;
          mret id
      end
  end.

Definition broadcast_const (scalar_const : Z) (ty : Type_) : G Z :=
  match ty with
  | Ty_Scalar _ => mret scalar_const
  | Ty_Vector _ n =>
      let! target := vector_type_id Sc_Float n in
      bvalue "composite_construct" (composite_construct target (replicate (Z.to_nat n) scalar_const))
  | other => mfail (CE_broadcast other)
  end.

(** ** Places and types of expressions *)

Definition find_local (n : string) (c : Ctx) : option Place :=
  snd <$> head (filter (fun p => p.1 = n) (rev (c_locals c))).

Fixpoint find_member (member : string) (i : Z) (ms : list StructMember) : option (Z * StructMember) :=
  match ms with
  | [] => None
  | m :: ms => if String.eqb (sm_name m) member then Some (i, m) else find_member member (i + 1) ms
  end.

Definition emit_place_ident (name : string) : G Place :=
  let! c := mget in
  match find_local name c with
  | Some l => mret l
  | None =>
  match c_cbuffer_members c !! name with
  | Some (cbvar, idx_const) =>
      let! member_ty := ok_or (pl_ty <$> c_globals c !! name) (CE_no_member_type name) in
      let! member_ty_id := type_id member_ty in
      let! member_ptr_t := btype (type_pointer SC_Uniform member_ty_id) in
      let! ptr := bvalue "access_chain" (access_chain member_ptr_t cbvar [idx_const]) in
      mret (mkPlace ptr member_ty)
  | None => ok_or (c_globals c !! name) (CE_undefined name)
  end
  end.

Fixpoint emit_place (e : Expr) : G Place :=
  match e with
  | E_Ident name => emit_place_ident name
  | E_Member base member =>
      let! base_place := emit_place base in
      match pl_ty base_place with
      | Ty_Struct name =>
          let! ss := gets c_structs in
          let! info := ok_or (ss !! name) (CE_unknown_struct name) in
          let! im := ok_or (find_member member 0 (si_members info)) (CE_no_member member name) in
          let member_ty := sm_ty im.2 in
          let! idx_const := int_const (to_signed 32 im.1) true in
          let! member_ty_id := type_id member_ty in
          let! member_ptr_t := btype (type_pointer SC_Function member_ty_id) in
          let! ptr := bvalue "access_chain" (access_chain member_ptr_t (pl_ptr base_place) [idx_const]) in
          mret (mkPlace ptr member_ty)
      | other => mfail (CE_no_address member other)
      end
  | other => mfail (CE_not_assignable other)
  end.

Definition swizzle_type (kind : ScalarKind) (comps : list Z) : Type_ :=
  if (length comps =? 1)%nat then Ty_Scalar kind else Ty_Vector kind (Z.of_nat (length comps)).

(** Calls whose inferred type is the type of the first argument. *)
Definition infer_first_arg (name : string) : bool :=
  bool_decide (name ∈ ["normalize"; "abs"; "sqrt"; "rsqrt"; "sin"; "cos"; "tan"; "exp"; "log"; "floor";
    "ceil"; "frac"; "saturate"; "clamp"; "lerp"; "min"; "max"; "pow"; "cross"]).

Fixpoint infer_type (c : Ctx) (e : Expr) : outcome CodegenError Type_ :=
  match e with
  | E_Literal (Lit_Float _) => Ok (Ty_Scalar Sc_Float)
  | E_Literal (Lit_Int _) => Ok (Ty_Scalar Sc_Int)
  | E_Literal (Lit_Uint _) => Ok (Ty_Scalar Sc_Uint)
  | E_Literal (Lit_Bool _) => Ok (Ty_Scalar Sc_Bool)
  | E_Construct ty _ => Ok ty
  | E_Cast ty _ => Ok ty
  | E_Ident name =>
      match find_local name c with
      | Some l => Ok (pl_ty l)
      | None => match c_globals c !! name with Some g => Ok (pl_ty g) | None => Err (CE_undefined name) end
      end
  | E_Member base member =>
      let? base_ty := infer_type c base in
      match base_ty with
      | Ty_Struct name =>
          match c_structs c !! name with
          | None => Err (CE_unknown_struct name)
          | Some info =>
              match find_member member 0 (si_members info) with
              | Some im => Ok (sm_ty im.2)
              | None => Err (CE_no_member member name)
              end
          end
      | Ty_Vector kind _ =>
          match decode_swizzle member with
          | Some comps => Ok (swizzle_type kind comps)
          | None => Err (CE_swizzle member)
          end
      | other => Err (CE_infer_member other)
      end
  | E_Call name args =>
      let arg0 := match args with a :: _ => infer_type c a | [] => Panic end in
      if String.eqb name "dot" then
        let? t := arg0 in
        match t with Ty_Vector kind _ => Ok (Ty_Scalar kind) | other => Ok other end
      else if String.eqb name "length" then Ok (Ty_Scalar Sc_Float)
      else if infer_first_arg name then arg0
      else if String.eqb name "mul" then
        let? a := arg0 in
        let? b := match args with _ :: b :: _ => infer_type c b | _ => Panic end in
        match a, b with
        | Ty_Matrix _ r _, Ty_Vector _ _ => Ok (Ty_Vector Sc_Float r)
        | Ty_Vector _ _, Ty_Matrix _ _ c => Ok (Ty_Vector Sc_Float c)
        | Ty_Matrix _ r _, Ty_Matrix _ _ c => Ok (Ty_Matrix Sc_Float r c)
        | _, _ => Ok a
        end
      else Err (CE_infer_call name)
  | E_MethodCall _ method _ =>
      if String.eqb method "Sample" then Ok (Ty_Vector Sc_Float 4) else Err (CE_infer_method method)
  | E_Binary op lhs rhs =>
      if is_comparison op then
        let? lt := infer_type c lhs in
        match lt with
        | Ty_Vector _ n => Ok (Ty_Vector Sc_Bool n)
        | _ => Ok (Ty_Scalar Sc_Bool)
        end
      else match op with
      | Op_And | Op_Or => Ok (Ty_Scalar Sc_Bool)
      | _ =>
          let? lt := infer_type c lhs in
          if is_composite lt then Ok lt else infer_type c rhs
      end
  | E_Unary _ expr => infer_type c expr
  end.

(** ** Operators *)

(** The opcode for an arithmetic operator at a result type. *)
Definition arith_op (op : BinaryOp) (t : Type_) : option Opcode :=
  let k := match t with Ty_Scalar k | Ty_Vector k _ => Some k | _ => None end in
  let is_vec := match t with Ty_Vector _ _ => true | _ => false end in
  match op, k with
  | Op_Add, Some Sc_Float => Some OpFAdd
  | Op_Sub, Some Sc_Float => Some OpFSub
  | Op_Mul, Some Sc_Float => Some OpFMul
  | Op_Div, Some Sc_Float => Some OpFDiv
  | Op_Add, Some (Sc_Int | Sc_Uint) => Some OpIAdd
  | Op_Sub, Some (Sc_Int | Sc_Uint) => Some OpISub
  | Op_Mul, Some (Sc_Int | Sc_Uint) => Some OpIMul
  | Op_Add, Some Sc_Bool => if is_vec then Some OpIAdd else None
  | Op_Sub, Some Sc_Bool => if is_vec then Some OpISub else None
  | Op_Mul, Some Sc_Bool => if is_vec then Some OpIMul else None
  | Op_Div, Some Sc_Int => Some OpSDiv
  | Op_Div, Some Sc_Uint => Some OpUDiv
  | _, _ => None
  end.

Definition emit_arith (op : BinaryOp) (lhs_id : Z) (lhs_ty : Type_) (rhs_id : Z) (rhs_ty : Type_) : G Val :=
  let result_ty := if is_composite lhs_ty then lhs_ty else rhs_ty in
  let! result_ty_id := type_id result_ty in
  let! spirv_op := ok_or (arith_op op result_ty) (CE_arith op) in
  let! id := raw_inst spirv_op result_ty_id [lhs_id; rhs_id] in
  mret (mkVal id result_ty).

Definition comparison_op (op : BinaryOp) (is_float : bool) : option Opcode :=
  match op, is_float with
  | Op_Eq, true => Some OpFOrdEqual
  | Op_Ne, true => Some OpFOrdNotEqual
  | Op_Lt, true => Some OpFOrdLessThan
  | Op_Le, true => Some OpFOrdLessThanEqual
  | Op_Gt, true => Some OpFOrdGreaterThan
  | Op_Ge, true => Some OpFOrdGreaterThanEqual
  | Op_Eq, false => Some OpIEqual
  | Op_Ne, false => Some OpINotEqual
  | Op_Lt, false => Some OpSLessThan
  | Op_Le, false => Some OpSLessThanEqual
  | Op_Gt, false => Some OpSGreaterThan
  | Op_Ge, false => Some OpSGreaterThanEqual
  | _, _ => None
  end.

Definition is_float_ty (t : Type_) : bool :=
  match t with Ty_Scalar Sc_Float | Ty_Vector Sc_Float _ => true | _ => false end.
Definition comparison_type (t : Type_) : Type_ :=
  match t with Ty_Vector _ n => Ty_Vector Sc_Bool n | _ => Ty_Scalar Sc_Bool end.

Definition emit_comparison (op : BinaryOp) (lhs rhs : Val) : G Val :=
  let result_ty := comparison_type (v_ty lhs) in
  let! result_ty_id := type_id result_ty in
  let! spirv_op := ok_or (comparison_op op (is_float_ty (v_ty lhs))) (CE_comparison op) in
  let! id := raw_inst spirv_op result_ty_id [v_id lhs; v_id rhs] in
  mret (mkVal id result_ty).

Definition emit_logical (op : BinaryOp) (lhs rhs : Val) : G Val :=
  let result_ty := Ty_Scalar Sc_Bool in
  let! result_ty_id := type_id result_ty in
  match op with
  | Op_And => let! id := raw_inst OpLogicalAnd result_ty_id [v_id lhs; v_id rhs] in mret (mkVal id result_ty)
  | Op_Or => let! id := raw_inst OpLogicalOr result_ty_id [v_id lhs; v_id rhs] in mret (mkVal id result_ty)
  | _ => mpanic
  end.

Definition compound_op (op : BinaryOp) : option BinaryOp :=
  match op with
  | Op_AddAssign => Some Op_Add | Op_SubAssign => Some Op_Sub
  | Op_MulAssign => Some Op_Mul | Op_DivAssign => Some Op_Div
  | _ => None
  end.

Definition unary_op (op : UnaryOp) (t : Type_) : option Opcode :=
  match op, t with
  | Un_Neg, (Ty_Scalar Sc_Float | Ty_Vector Sc_Float _) => Some OpFNegate
  | Un_Neg, (Ty_Scalar (Sc_Int | Sc_Uint) | Ty_Vector _ _) => Some OpSNegate
  | Un_Not, (Ty_Scalar Sc_Bool | Ty_Vector Sc_Bool _) => Some OpLogicalNot
  | Un_Not, _ => Some OpNot
  | Un_BitNot, _ => Some OpNot
  | _, _ => None
  end.

Definition cast_op (a b : Type_) : option Opcode :=
  match a, b with
  | Ty_Scalar Sc_Int, Ty_Scalar Sc_Float => Some OpConvertSToF
  | Ty_Scalar Sc_Uint, Ty_Scalar Sc_Float => Some OpConvertUToF
  | Ty_Scalar Sc_Float, Ty_Scalar Sc_Int => Some OpConvertFToS
  | Ty_Scalar Sc_Float, Ty_Scalar Sc_Uint => Some OpConvertFToU
  | _, _ => None
  end.

(** ** Swizzles, clamping, products of values *)

Definition emit_swizzle (base : Val) (member : string) (kind : ScalarKind) : G Val :=
  let! comps := ok_or (decode_swizzle member) (CE_swizzle member) in
  let result_ty := Ty_Vector kind (Z.of_nat (length comps)) in
  let! result_ty_id := type_id result_ty in
  match comps with
  | [comp] =>
      let! scalar_ty_id := scalar_type_id kind in
      let! id := bvalue "composite_extract" (composite_extract scalar_ty_id (v_id base) [comp]) in
      mret (mkVal id (Ty_Scalar kind))
  | _ =>
      let! id := bvalue "vector_shuffle" (vector_shuffle result_ty_id (v_id base) (v_id base) comps) in
      mret (mkVal id result_ty)
  end.

Definition glsl_unarylike_or_clamp (xv : Val) (lo hi : Z) : G Val :=
  let! result_ty_id := type_id (v_ty xv) in
  let! lo_id := broadcast_const lo (v_ty xv) in
  let! hi_id := broadcast_const hi (v_ty xv) in
  let! set := gets c_glsl_set in
  let! id := bvalue "ext_inst" (ext_inst result_ty_id set glsl_FCLAMP [v_id xv; lo_id; hi_id]) in
  mret (mkVal id (v_ty xv)).

Definition glsl_op (name : string) : option (Z * nat) :=
  if String.eqb name "abs" then Some (glsl_FABS, 1)
  else if String.eqb name "sqrt" then Some (glsl_SQRT, 1)
  else if String.eqb name "rsqrt" then Some (glsl_INVERSE_SQRT, 1)
  else if String.eqb name "sin" then Some (glsl_SIN, 1)
  else if String.eqb name "cos" then Some (glsl_COS, 1)
  else if String.eqb name "tan" then Some (glsl_TAN, 1)
  else if String.eqb name "asin" then Some (glsl_ASIN, 1)
  else if String.eqb name "acos" then Some (glsl_ACOS, 1)
  else if String.eqb name "atan" then Some (glsl_ATAN, 1)
  else if String.eqb name "exp" then Some (glsl_EXP, 1)
  else if String.eqb name "log" then Some (glsl_LOG, 1)
  else if String.eqb name "normalize" then Some (glsl_NORMALIZE, 1)
  else if String.eqb name "length" then Some (glsl_LENGTH, 1)
  else if String.eqb name "floor" then Some (glsl_FLOOR, 1)
  else if String.eqb name "ceil" then Some (glsl_CEIL, 1)
  else if String.eqb name "frac" then Some (glsl_FRACT, 1)
  else if String.eqb name "cross" then Some (glsl_CROSS, 2)
  else if String.eqb name "pow" then Some (glsl_POW, 2)
  else if String.eqb name "min" then Some (glsl_FMIN, 2)
  else if String.eqb name "max" then Some (glsl_FMAX, 2)
  else if String.eqb name "clamp" then Some (glsl_FCLAMP, 3)
  else if String.eqb name "lerp" then Some (glsl_FMIX, 3)
  else None.

(** ** Expressions *)

Section EmitExpr.
Variable emit_expr : Expr -> G Val.

(** Member access: struct field (access chain and load) or vector swizzle.
    [e] is the whole member expression. *)
Definition emit_member (e base : Expr) (member : string) : G Val :=
  let! c := mget in
  let! base_ty := lift_outcome (infer_type c base) in
  match base_ty with
  | Ty_Struct _ =>
      let! place := emit_place e in
      let! ty_id := type_id (pl_ty place) in
      let! id := bload ty_id (pl_ptr place) in
      mret (mkVal id (pl_ty place))
  | Ty_Vector kind _ =>
      let! base_val := emit_expr base in
      emit_swizzle base_val member kind
  | other => mfail (CE_member_access member other)
  end.

Definition emit_construct (ty : Type_) (args : list Expr) : G Val :=
  match ty with
  | Ty_Scalar Sc_Float =>
      match args with [arg] => emit_expr arg | _ => mfail CE_float_args end
  | Ty_Scalar kind =>
      match args with
      | [arg] => let! v := emit_expr arg in coerce_scalar v kind
      | _ => mfail (CE_scalar_args ty)
      end
  | Ty_Vector kind n =>
      let! target := vector_type_id kind n in
      match args with
      | [single] =>
          let! scalar := emit_expr single in
          let! scalar_id := match v_ty scalar with
            | Ty_Scalar _ => mret (v_id scalar)
            | _ => mfail CE_broadcast_arg
            end in
          let! id := bvalue "composite_construct" (composite_construct target (replicate (Z.to_nat n) scalar_id)) in
          mret (mkVal id ty)
      | _ =>
          let! vs := m_list emit_expr args in
          let! id := bvalue "composite_construct" (composite_construct target (v_id <$> vs)) in
          mret (mkVal id ty)
      end
  | other => mfail (CE_constructor other)
  end.

Definition emit_binary (op : BinaryOp) (lhs rhs : Expr) : G Val :=
  match op with
  | Op_Assign =>
      let! place := emit_place lhs in
      let! val := emit_expr rhs in
      let! val := coerce val (pl_ty place) in
      bstore (pl_ptr place) (v_id val) ;;;
      mret val
  | Op_AddAssign | Op_SubAssign | Op_MulAssign | Op_DivAssign =>
      let! place := emit_place lhs in
      let! ty_id := type_id (pl_ty place) in
      let! cur := bload ty_id (pl_ptr place) in
      let! rhs_val := emit_expr rhs in
      match compound_op op with
      | Some core_op =>
          let! result := emit_arith core_op cur (pl_ty place) (v_id rhs_val) (v_ty rhs_val) in
          bstore (pl_ptr place) (v_id result) ;;;
          mret result
      | None => mpanic
      end
  | _ =>
      let! lhs_val := emit_expr lhs in
      let! rhs_val := emit_expr rhs in
      if is_comparison op then emit_comparison op lhs_val rhs_val
      else match op with
      | Op_And | Op_Or => emit_logical op lhs_val rhs_val
      | _ => emit_arith op (v_id lhs_val) (v_ty lhs_val) (v_id rhs_val) (v_ty rhs_val)
      end
  end.

Definition emit_unary (op : UnaryOp) (expr : Expr) : G Val :=
  let! val := emit_expr expr in
  let! result_ty_id := type_id (v_ty val) in
  let! spirv_op := ok_or (unary_op op (v_ty val)) (CE_unary op (v_ty val)) in
  let! id := raw_inst spirv_op result_ty_id [v_id val] in
  mret (mkVal id (v_ty val)).

Definition emit_cast (ty : Type_) (expr : Expr) : G Val :=
  let! val := emit_expr expr in
  let! target := type_id ty in
  match cast_op (v_ty val) ty with
  | Some op => let! id := raw_inst op target [v_id val] in mret (mkVal id ty)
  | None => if bool_decide (v_ty val = ty) then mret val else mfail (CE_cast (v_ty val) ty)
  end.

Definition mul_type (a b : Type_) : outcome CodegenError (option (Type_ * Opcode)) :=
  match a, b with
  | Ty_Matrix _ rows _, Ty_Vector _ cols =>
      if bool_decide (cols = matrix_cols a) then Ok (Some (Ty_Vector Sc_Float rows, OpMatrixTimesVector))
      else Err (CE_mul_dims true)
  | Ty_Vector _ cols, Ty_Matrix _ _ cols2 =>
      if bool_decide (cols = cols2) then Ok (Some (Ty_Vector Sc_Float cols2, OpVectorTimesMatrix))
      else Err (CE_mul_dims false)
  | Ty_Matrix _ r1 _, Ty_Matrix _ _ c2 => Ok (Some (Ty_Matrix Sc_Float r1 c2, OpMatrixTimesMatrix))
  | _, _ => Ok None
  end.

Definition emit_mul (args : list Expr) : G Val :=
  match args with
  | [x; y] =>
      let! a := emit_expr x in
      let! b := emit_expr y in
      let! t := lift_outcome (mul_type (v_ty a) (v_ty b)) in
      match t with
      | None => emit_arith Op_Mul (v_id a) (v_ty a) (v_id b) (v_ty b)
      | Some (result_ty, spirv_op) =>
          let! result_ty_id := type_id result_ty in
          let! id := raw_inst spirv_op result_ty_id [v_id a; v_id b] in
          mret (mkVal id result_ty)
      end
  | _ => mfail CE_mul_args
  end.

(** The table of single-instruction intrinsics: the result has the type of the
    last argument, except for [length]. *)
Definition emit_ext_call (name : string) (args : list Expr) : G Val :=
  let! oa := ok_or (glsl_op name) (CE_unknown_intrinsic name) in
  let '(ext_op, arity) := oa in
  if (length args =? arity)%nat then
    let! vs := m_list emit_expr args in
    let result_ty :=
      if String.eqb name "length" then Ty_Scalar Sc_Float
      else default (Ty_Scalar Sc_Float) (v_ty <$> last vs) in
    let! result_ty_id := type_id result_ty in
    let! set := gets c_glsl_set in
    let! id := bvalue "ext_inst" (ext_inst result_ty_id set ext_op (v_id <$> vs)) in
    mret (mkVal id result_ty)
  else mfail (CE_arity name arity (length args)).

Definition emit_call (name : string) (args : list Expr) : G Val :=
  match String.eqb name "saturate", args with
  | true, [x] =>
      let! xv := emit_expr x in
      let! lo := float_const (S754_zero false) in
      let! hi := float_const (S754_finite false 4503599627370496 (-52)) in
      glsl_unarylike_or_clamp xv lo hi
  | _, _ =>
  match String.eqb name "dot", args with
  | true, [a; b] =>
      let! av := emit_expr a in
      let! bv := emit_expr b in
      let scalar_ty := match v_ty av with Ty_Vector kind _ => Ty_Scalar kind | other => other end in
      let! scalar_ty_id := type_id scalar_ty in
      let! id := bvalue "dot" (dot scalar_ty_id (v_id av) (v_id bv)) in
      mret (mkVal id scalar_ty)
  | _, _ => if String.eqb name "mul" then emit_mul args else emit_ext_call name args
  end
  end.

Definition emit_method_call (base : Expr) (method : string) (args : list Expr) : G Val :=
  if String.eqb method "Sample" then
    match args with
    | [smp; coord] =>
        let! tex_place := emit_place base in
        let! image_type_id := image_type_id in
        let! sampled_image_t := btype (type_sampled_image image_type_id) in
        let! image := bload sampled_image_t (pl_ptr tex_place) in
        let! sampler_val := emit_expr smp in
        let! coord_val := emit_expr coord in
        let! sampled := bvalue "sampled_image" (sampled_image sampled_image_t image (v_id sampler_val)) in
        let result_ty := Ty_Vector Sc_Float 4 in
        let! result_ty_id := type_id result_ty in
        let! id := bvalue "image_sample_implicit_lod"
                     (image_sample_implicit_lod result_ty_id sampled (v_id coord_val)) in
        mret (mkVal id result_ty)
    | _ => mfail CE_sample_args
    end
  else mfail (CE_method method).
End EmitExpr.

Fixpoint emit_expr (e : Expr) : G Val :=
  match e with
  | E_Literal (Lit_Float v) => let! id := float_const v in mret (mkVal id (Ty_Scalar Sc_Float))
  | E_Literal (Lit_Int v) => let! id := int_const (to_signed 32 v) true in mret (mkVal id (Ty_Scalar Sc_Int))
  | E_Literal (Lit_Uint v) =>
      let! id := int_const (to_signed 32 v) false in mret (mkVal id (Ty_Scalar Sc_Uint))
  | E_Literal (Lit_Bool v) => let! id := bool_const v in mret (mkVal id (Ty_Scalar Sc_Bool))
  | E_Construct ty args => emit_construct emit_expr ty args
  | E_Ident name =>
      let! place := emit_place (E_Ident name) in
      let! ty_id := value_type_id (pl_ty place) in
      let! id := bload ty_id (pl_ptr place) in
      mret (mkVal id (pl_ty place))
  | E_Member base member => emit_member emit_expr (E_Member base member) base member
  | E_Call name args => emit_call emit_expr name args
  | E_MethodCall base method args => emit_method_call emit_expr base method args
  | E_Binary op lhs rhs => emit_binary emit_expr op lhs rhs
  | E_Unary op expr => emit_unary emit_expr op expr
  | E_Cast ty expr => emit_cast emit_expr ty expr
  end.

(** ** Statements *)

Definition is_terminated : G bool :=
  gets (fun c => match b_selected_block (c_builder c) with None => true | Some _ => false end).

Section EmitStmt.
Variable emit_stmt : Stmt -> G unit.

(** Statements in order, stopping at the first that ends the block. *)
Definition emit_block : Block -> G unit :=
  fix go ss :=
    match ss with
    | [] => mret tt
    | s :: ss =>
        emit_stmt s ;;;
        let! t := is_terminated in
        if t then mret tt else go ss
    end.

(** Ends the block with a jump unless it is ended already. *)
Definition jump_unless_terminated (l : Z) : G unit :=
  let! t := is_terminated in if t then mret tt else bbranch l.

Definition emit_if (cond : Expr) (then_ : Block) (else_ : option Block) : G unit :=
  let! cond_val := emit_expr cond in
  let! cond_id := coerce_to_bool cond_val in
  let! then_label := builder_id in
  let! merge_label := builder_id in
  let! else_label := match else_ with Some _ => builder_id | None => mret merge_label end in
  try_bld "selection_merge" (b_effect (selection_merge merge_label)) ;;;
  bbranch_conditional cond_id then_label else_label ;;;
  begin_block (Some then_label) ;;;
  emit_block then_ ;;;
  jump_unless_terminated merge_label ;;;
  match else_ with
  | Some else_block =>
      begin_block (Some else_label) ;;;
      emit_block else_block ;;;
      jump_unless_terminated merge_label
  | None => mret tt
  end ;;;
  begin_block (Some merge_label) ;;;
  mret tt.

Definition emit_for (init : option Stmt) (cond update : option Expr) (body : Block) : G unit :=
  match init with Some s => emit_stmt s | None => mret tt end ;;;
  let! t := is_terminated in
  if t then mret tt
  else
    let! header_label := builder_id in
    let! body_label := builder_id in
    let! continue_label := builder_id in
    let! merge_label := builder_id in
    bbranch header_label ;;;
    begin_block (Some header_label) ;;;
    try_bld "loop_merge" (b_effect (loop_merge merge_label continue_label)) ;;;
    match cond with
    | Some c =>
        let! cv := emit_expr c in
        let! cid := coerce_to_bool cv in
        bbranch_conditional cid body_label merge_label
    | None => bbranch body_label
    end ;;;
    begin_block (Some body_label) ;;;
    emit_block body ;;;
    jump_unless_terminated continue_label ;;;
    begin_block (Some continue_label) ;;;
    match update with Some u => emit_expr u ;;; mret tt | None => mret tt end ;;;
    bbranch header_label ;;;
    begin_block (Some merge_label) ;;;
    mret tt.
End EmitStmt.

Definition emit_var_decl (vd : VarDecl) : G unit :=
  let! local_ptr := alloc_local (vd_ty vd) in
  match vd_init vd with
  | Some e => let! val := emit_expr e in bstore local_ptr (v_id val)
  | None => mret tt
  end ;;;
  push_local (vd_name vd) (mkPlace local_ptr (vd_ty vd)).

Definition emit_return (e : option Expr) : G unit :=
  match e with
  | Some e =>
      let! val := emit_expr e in
      let! o := gets c_out_var in
      match o with Some out => bstore out (v_id val) | None => mret tt end ;;;
      bret
  | None => bret
  end.

Fixpoint emit_stmt (s : Stmt) : G unit :=
  match s with
  | S_Return e => emit_return e
  | S_VarDecl vd => emit_var_decl vd
  | S_Expr e => emit_expr e ;;; mret tt
  | S_If cond then_ else_ => emit_if emit_stmt cond then_ else_
  | S_For init cond update body => emit_for emit_stmt init cond update body
  | S_Block b => emit_block emit_stmt b
  end.

(** ** Module-level declarations *)

(** A list with the index of each element. *)
Definition enumerate {A} (l : list A) : list (Z * A) := imap (fun i x => (Z.of_nat i, x)) l.

Definition name_members (type_id : Z) (ms : list StructMember) : G unit :=
  m_iter (fun im => header (h_member_name type_id (wrap 32 im.1) (sm_name im.2))) (enumerate ms).

Definition register_struct (s : StructDecl) : G unit :=
  let! ss := gets c_structs in
  if bool_decide (is_Some (ss !! sd_name s)) then mret tt
  else
    let! member_types := m_list (fun m => type_id (sm_ty m)) (sd_members s) in
    let! tid := btype (type_struct member_types) in
    name_members tid (sd_members s) ;;;
    insert_struct (sd_name s) (mkStructInfo tid (sd_members s)).

(** The offsets of the members of a constant buffer, placed in order. *)
Fixpoint member_offsets (offset : Z) (ms : list StructMember) : list Z :=
  match ms with
  | [] => []
  | m :: ms =>
      let '(align, size) := member_align_size (sm_ty m) in
      let offset := align_up offset align in
      offset :: member_offsets (wrap 32 (offset + size)) ms
  end.

Definition decorate_offsets (struct_id : Z) (ms : list StructMember) : G unit :=
  m_iter (fun im : Z * (StructMember * Z) =>
    header (h_member_decorate struct_id (wrap 32 im.1) (Dec_Offset im.2.2)) ;;;
    header (h_member_name struct_id (wrap 32 im.1) (sm_name im.2.1)))
    (enumerate (zip ms (member_offsets 0 ms))).

Definition decorate_binding (var : Z) (reg : option string) : G unit :=
  let '(set, binding) := parse_register reg in
  header (h_decorate var (Dec_DescriptorSet set)) ;;;
  header (h_decorate var (Dec_Binding binding)).

Definition emit_cbuffer (c : CBufferDecl) : G unit :=
  let! member_types := m_list (fun m => type_id (sm_ty m)) (cb_members c) in
  let! struct_id := btype (type_struct member_types) in
  header (h_decorate struct_id Dec_Block) ;;;
  decorate_offsets struct_id (cb_members c) ;;;
  insert_struct (cb_name c) (mkStructInfo struct_id (cb_members c)) ;;;
  let! ptr_t := btype (type_pointer SC_Uniform struct_id) in
  let! var := bld (b_variable ptr_t SC_Uniform) in
  header (h_name var (cb_name c)) ;;;
  decorate_binding var (cb_register c) ;;;
  insert_global (cb_name c) (mkPlace var (Ty_Struct (cb_name c))) ;;;
  m_iter (fun im : Z * StructMember =>
    let! member_ty_id := type_id (sm_ty im.2) in
    let! _ := btype (type_pointer SC_Uniform member_ty_id) in
    let! idx_const := int_const (to_signed 32 im.1) true in
    insert_global (sm_name im.2) (mkPlace var (sm_ty im.2)) ;;;
    insert_cbuffer_member (sm_name im.2) (var, idx_const))
    (enumerate (cb_members c)).

(** A texture or sampler variable of type [t]. *)
Definition declare_opaque (t : Z) (g : GlobalVarDecl) : G unit :=
  let! ptr_t := btype (type_pointer SC_UniformConstant t) in
  let! var := bld (b_variable ptr_t SC_UniformConstant) in
  header (h_name var (gv_name g)) ;;;
  decorate_binding var (gv_register g) ;;;
  insert_global (gv_name g) (mkPlace var (gv_ty g)).

Definition emit_global_var (g : GlobalVarDecl) : G unit :=
  match gv_ty g with
  | Ty_Texture2D =>
      let! image_t := image_type_id in
      let! sampled_image_t := btype (type_sampled_image image_t) in
      declare_opaque sampled_image_t g
  | Ty_SamplerState => let! sampler_t := btype type_sampler in declare_opaque sampler_t g
  | other => mfail (CE_global_type other)
  end.

Definition emit_globals (unit : TranslationUnit) : G () :=
  m_iter (fun d => match d with
    | D_Struct s => register_struct s
    | D_CBuffer c => emit_cbuffer c
    | D_GlobalVar g => emit_global_var g
    | D_Function _ => mret tt
    end) unit.

(** ** The entry point *)

Definition position_builtin (stage : ShaderStage) (is_output : bool) : BuiltIn :=
  match is_output, stage with
  | true, Stage_Vertex => BI_Position
  | false, Stage_Pixel => BI_FragCoord
  | _, _ => BI_Position
  end.

(** Locations are counted over the members without a system semantic. *)
Fixpoint io_decorations (stage : ShaderStage) (is_output : bool) (loc : Z) (ms : list StructMember) : list Decoration :=
  match ms with
  | [] => []
  | m :: ms =>
      match sm_semantic m with
      | Some s =>
          if String.eqb s "SV_Position" then
            Dec_BuiltIn (position_builtin stage is_output) :: io_decorations stage is_output loc ms
          else if String.eqb s "SV_Target" then Dec_Location 0 :: io_decorations stage is_output loc ms
          else Dec_Location loc :: io_decorations stage is_output (wrap 32 (loc + 1)) ms
      | None => Dec_Location loc :: io_decorations stage is_output (wrap 32 (loc + 1)) ms
      end
  end.

Definition decorate_struct_io (ms : list StructMember) (struct_id : Z) (is_output : bool) : G unit :=
  header (h_decorate struct_id Dec_Block) ;;;
  let! stage := gets c_stage in
  m_iter (fun id : Z * Decoration => header (h_member_decorate struct_id (wrap 32 id.1) id.2))
    (enumerate (io_decorations stage is_output 0 ms)).

Definition decorate_io_var (var : Z) (semantic : option string) (is_output : bool) : G unit :=
  let! stage := gets c_stage in
  match semantic with
  | Some s =>
      if String.eqb s "SV_Position" then header (h_decorate var (Dec_BuiltIn (position_builtin stage is_output)))
      else header (h_decorate var (Dec_Location 0))
  | None => header (h_decorate var (Dec_Location 0))
  end.

Definition emit_input (p : Param) : G unit :=
  match p_ty p with
  | Ty_Struct name =>
      let! ss := gets c_structs in
      let! info := ok_or (ss !! name) (CE_unknown_struct name) in
      decorate_struct_io (si_members info) (si_type_id info) false ;;;
      let! ptr_t := btype (type_pointer SC_Input (si_type_id info)) in
      let! var := bld (b_variable ptr_t SC_Input) in
      header (h_name var (p_name p)) ;;;
      push_interface var ;;;
      insert_global (p_name p) (mkPlace var (Ty_Struct name))
  | (Ty_Scalar _ | Ty_Vector _ _) as ty =>
      let! ty_id := type_id ty in
      let! ptr_t := btype (type_pointer SC_Input ty_id) in
      let! var := bld (b_variable ptr_t SC_Input) in
      header (h_name var (p_name p)) ;;;
      decorate_io_var var (p_semantic p) false ;;;
      push_interface var ;;;
      insert_global (p_name p) (mkPlace var ty)
  | other => mfail (CE_input_type other)
  end.
Definition emit_inputs (main : FunctionDecl) : G unit := m_iter emit_input (fd_params main).

Definition set_out (var : Z) (ty : Type_) : G unit :=
  modify (fun c => set_output (Some var) ty (c_interface c) c).

Definition emit_output (main : FunctionDecl) : G unit :=
  match fd_return_type main with
  | Ty_Struct name =>
      let! ss := gets c_structs in
      let! info := ok_or (ss !! name) (CE_unknown_struct name) in
      decorate_struct_io (si_members info) (si_type_id info) true ;;;
      let! ptr_t := btype (type_pointer SC_Output (si_type_id info)) in
      let! var := bld (b_variable ptr_t SC_Output) in
      header (h_name var "out_var") ;;;
      push_interface var ;;;
      set_out var (Ty_Struct name)
  | Ty_Vector Sc_Float 4 as ty =>
      let! ty_id := type_id ty in
      let! ptr_t := btype (type_pointer SC_Output ty_id) in
      let! var := bld (b_variable ptr_t SC_Output) in
      header (h_name var "out_color") ;;;
      decorate_io_var var (fd_semantic main) true ;;;
      push_interface var ;;;
      set_out var ty
  | other => mfail (CE_return_type other)
  end.

Definition begin_entry_function : G unit :=
  let! void_t := gets c_void_t in
  let! fn_type := btype (type_function void_t []) in
  try_bld "begin_function" (b_begin_function void_t fn_type) ;;;
  begin_block None ;;;
  mret tt.

(** Copies a parameter from its input variable to a local. *)
Definition bind_param (p : string * Z * Type_) : G unit :=
  let '(name, global_ptr, ty) := p in
  let! local_ptr := alloc_local ty in
  let! ty_id := type_id ty in
  let! loaded := bload ty_id global_ptr in
  bstore local_ptr loaded ;;;
  push_local name (mkPlace local_ptr ty).

Definition collect_params (main : FunctionDecl) : G (list (string * Z * Type_)) :=
  let! gs := gets c_globals in
  m_list (fun p =>
    let! g := ok_or (gs !! p_name p) (CE_input_not_found (p_name p)) in
    mret (p_name p, pl_ptr g, p_ty p)) (fd_params main).

Definition emit_function_body (main : FunctionDecl) : G unit :=
  let! params := collect_params main in
  m_iter bind_param params ;;;
  let! body := ok_or (fd_body main) CE_no_body in
  emit_block emit_stmt body ;;;
  let! t := is_terminated in
  (if t then mret tt else bret) ;;;
  try_bld "end_function" b_end_function.

Definition finish_entry_point (main : FunctionDecl) : G unit :=
  let! m := gets (fun c => b_module (c_builder c)) in
  let! main_id := ok_or (last (m_functions m) ≫= fun f => i_id (f_def f)) CE_main_no_id in
  let! interface := gets c_interface in
  modify (fun c => set_output (c_out_var c) (c_out_ty c) [] c) ;;;
  let! stage := gets c_stage in
  header (h_entry_point (execution_model stage) main_id "main" interface) ;;;
  match stage with
  | Stage_Pixel => header (h_execution_mode_origin_upper_left main_id)
  | Stage_Vertex => mret tt
  end ;;;
  header (h_name main_id (fd_name main)).

Definition emit_main (main : FunctionDecl) : G unit :=
  emit_inputs main ;;;
  emit_output main ;;;
  begin_entry_function ;;;
  emit_function_body main ;;;
  finish_entry_point main.

Fixpoint find_main (unit : TranslationUnit) : option FunctionDecl :=
  match unit with
  | [] => None
  | D_Function f :: ds =>
      match fd_body f with
      | Some _ => if String.eqb (fd_name f) "main" then Some f else find_main ds
      | None => find_main ds
      end
  | _ :: ds => find_main ds
  end.

(** The module built for a unit, and its words. *)
Definition codegen_module (unit : TranslationUnit) : G Module_ :=
  emit_globals unit ;;;
  let! main := ok_or (find_main unit) CE_no_main in
  emit_main main ;;;
  gets (fun c => b_module (c_builder c)).

Definition codegen (unit : TranslationUnit) (stage : ShaderStage) : outcome CodegenError (list Z) :=
  let? m := (codegen_module unit (Ctx_new stage)).1 in Ok (b_assemble m).
End Codegen.
