(* ===== verification/HlslShape.v ===== *)
(** * The module under construction, and what makes it well-formed

    [Shape] is the part of the builder's state that well-formedness speaks of;
    [wf] is the invariant of a module under construction, with the labels that
    are promised and not begun yet, and [module_ok] what it gives for a
    finished module: ids defined once, values used where they are available,
    blocks with one terminator at their end, jumps to blocks of the function. *)
From Stdlib Require Import ZArith Lia.
From stdpp Require Import base list option strings sets.
From S2P Require Import Prelude SpirvBuilder.

(** ** What instructions define and use *)

Definition inst_ids (l : list Instruction) : list Z := omap i_id l.

Definition operand_ids (ops : list Operand) : list Z :=
  omap (fun o => match o with IdRef w => Some w | _ => None end) ops.

Definition is_term (op : Opcode) : bool :=
  match op with OpBranch | OpBranchConditional | OpReturn => true | _ => false end.

(** The ids an instruction uses as values, and as labels of blocks. *)
Definition uses (i : Instruction) : list Z :=
  match i_op i with
  | OpSelectionMerge | OpLoopMerge | OpBranch => []
  | OpBranchConditional => take 1 (operand_ids (i_operands i))
  | _ => operand_ids (i_operands i)
  end.
Definition targets (i : Instruction) : list Z :=
  match i_op i with
  | OpSelectionMerge | OpLoopMerge | OpBranch => operand_ids (i_operands i)
  | OpBranchConditional => drop 1 (operand_ids (i_operands i))
  | _ => []
  end.

Definition is_type_op (op : Opcode) : bool :=
  match op with
  | OpTypeVoid | OpTypeBool | OpTypeFloat | OpTypeInt | OpTypeVector | OpTypeMatrix | OpTypeStruct
  | OpTypePointer | OpTypeImage | OpTypeSampledImage | OpTypeSampler | OpTypeFunction => true
  | _ => false
  end.

Definition is_var (i : Instruction) : bool := bool_decide (i_op i = OpVariable).

(** The ids that name types among the globals. *)
Definition type_ids (gl : list Instruction) : list Z :=
  inst_ids (filter (fun i => is_type_op (i_op i) = true) gl).

(** [i] uses values of [D] only, and its result type is declared in [T]. *)
Definition in_scope (D T : list Instruction) (i : Instruction) : Prop :=
  uses i ⊆ inst_ids D /\ forall t, i_rty i = Some t -> t ∈ type_ids T.

(** Every instruction of a block uses values of [D] and of the instructions
    before it. *)
Definition block_scope (D T : list Instruction) (l : list Instruction) : Prop :=
  forall pre i post, l = pre ++ i :: post -> in_scope (D ++ pre) T i.

(** Globals only use what is declared before them. *)
Definition globals_scope (gl : list Instruction) : Prop :=
  forall pre i post, gl = pre ++ i :: post -> in_scope pre pre i.

(** One terminator, at the end. *)
Definition closed_block (l : list Instruction) : Prop :=
  exists body t, l = body ++ [t] /\ is_term (i_op t) = true /\
    Forall (fun i => is_term (i_op i) = false) body.

Definition open_block (l : list Instruction) : Prop := Forall (fun i => is_term (i_op i) = false) l.

(** Variables stand before the other instructions. *)
Definition vars_first (l : list Instruction) : Prop :=
  exists vs rest, l = vs ++ rest /\ Forall (fun i => is_var i = true) vs /\ Forall (fun i => is_var i = false) rest.
Definition no_vars (l : list Instruction) : Prop := Forall (fun i => is_var i = false) l.

Definition entry_vars (bs : list BlockData) : list Instruction :=
  match bs with b :: _ => filter (fun i => is_var i = true) (bl_insts b) | [] => [] end.

Definition labels (bs : list BlockData) : list Z := bl_label <$> bs.
Definition block_ids (b : BlockData) : list Z := bl_label b :: inst_ids (bl_insts b).
Definition all_insts (bs : list BlockData) : list Instruction := bs ≫= bl_insts.

Definition module_ids (m : Module_) : list Z :=
  inst_ids (m_imports m) ++ inst_ids (m_globals m) ++
  (m_functions m ≫= fun f => inst_ids [f_def f] ++ (f_blocks f ≫= block_ids)).

(** A well-formed module with one function. *)
Record module_ok (m : Module_) : Prop := {
  ok_function : exists f, m_functions m = [f] /\ f_blocks f <> [];
  ok_ids : NoDup (module_ids m);
  ok_globals : globals_scope (m_globals m);
  ok_blocks f : f ∈ m_functions m ->
    Forall (fun b => closed_block (bl_insts b)) (f_blocks f) /\
    Forall (fun b => block_scope (m_imports m ++ m_globals m ++ entry_vars (f_blocks f)) (m_globals m) (bl_insts b))
      (f_blocks f) /\
    (forall b bs, f_blocks f = b :: bs ->
      vars_first (bl_insts b) /\ Forall (fun b => no_vars (bl_insts b)) bs) /\
    (forall i, i ∈ all_insts (f_blocks f) -> targets i ⊆ labels (f_blocks f)) }.

(** ** The state of the construction *)

Record Shape := mkShape {
  s_imp : list Instruction; s_glob : list Instruction; s_def : option Instruction;
  s_done : list BlockData; s_cur : option BlockData; s_bound : Z }.

Definition s_blocks (s : Shape) : list BlockData := s_done s ++ option_list (s_cur s).

(** [v] is in state [s]: no function yet, or one open function whose selected
    block, if any, is the last. *)
Definition repr (v : View) (s : Shape) : Prop :=
  m_imports (v_mod v) = s_imp s /\ m_globals (v_mod v) = s_glob s /\ v_bound v = s_bound s /\
  match s_def s with
  | None => m_functions (v_mod v) = [] /\ v_sel v = None /\ v_fun v = false /\ s_blocks s = []
  | Some d => m_functions (v_mod v) = [mkFunction d (s_blocks s)] /\ v_fun v = true /\
      v_sel v = ((fun _ => length (s_done s)) <$> s_cur s)
  end.

Definition s_bump (s : Shape) : Shape :=
  mkShape (s_imp s) (s_glob s) (s_def s) (s_done s) (s_cur s) (s_bound s + 1).
Definition add_global (i : Instruction) (s : Shape) : Shape :=
  mkShape (s_imp s) (s_glob s ++ [i]) (s_def s) (s_done s) (s_cur s) (s_bound s).
Definition add_import (i : Instruction) (s : Shape) : Shape :=
  mkShape (s_imp s ++ [i]) (s_glob s) (s_def s) (s_done s) (s_cur s) (s_bound s).
Definition add_inst (i : Instruction) (s : Shape) : Shape :=
  mkShape (s_imp s) (s_glob s) (s_def s) (s_done s)
    ((fun b => mkBlock (bl_label b) (bl_insts b ++ [i])) <$> s_cur s) (s_bound s).
Definition finish (i : Instruction) (s : Shape) : Shape :=
  mkShape (s_imp s) (s_glob s) (s_def s)
    (s_done s ++ option_list ((fun b => mkBlock (bl_label b) (bl_insts b ++ [i])) <$> s_cur s)) None (s_bound s).
Definition start_block (l : Z) (s : Shape) : Shape :=
  mkShape (s_imp s) (s_glob s) (s_def s) (s_done s) (Some (mkBlock l [])) (s_bound s).
Definition start_function (d : Instruction) (s : Shape) : Shape :=
  mkShape (s_imp s) (s_glob s) (Some d) [] None (s_bound s).
Definition front (i : Instruction) (b : BlockData) : BlockData := mkBlock (bl_label b) (i :: bl_insts b).
Definition add_var (i : Instruction) (s : Shape) : Shape :=
  match s_done s with
  | [] => mkShape (s_imp s) (s_glob s) (s_def s) [] (front i <$> s_cur s) (s_bound s)
  | b :: bs => mkShape (s_imp s) (s_glob s) (s_def s) (front i b :: bs) (s_cur s) (s_bound s)
  end.

(** Definitions available everywhere, and in the selected block. *)
Definition gdefs (s : Shape) : list Instruction := s_imp s ++ s_glob s ++ entry_vars (s_blocks s).
Definition cur_insts (s : Shape) : list Instruction := from_option bl_insts [] (s_cur s).
Definition defs (s : Shape) : list Instruction := gdefs s ++ cur_insts s.

Definition s_ids (s : Shape) : list Z :=
  inst_ids (s_imp s) ++ inst_ids (s_glob s) ++ inst_ids (option_list (s_def s)) ++ (s_blocks s ≫= block_ids).

(** The invariant; [P] holds the labels promised and not begun. *)
Record wf (s : Shape) (P : list Z) : Prop := {
  wf_ids : NoDup (s_ids s ++ P);
  wf_bound : forall x, x ∈ s_ids s ++ P -> (x < s_bound s)%Z;
  wf_globals : globals_scope (s_glob s);
  wf_done : Forall (fun b => closed_block (bl_insts b)) (s_done s);
  wf_cur : open_block (cur_insts s);
  wf_scope : Forall (fun b => block_scope (gdefs s) (s_glob s) (bl_insts b)) (s_blocks s);
  wf_vars : forall b bs, s_blocks s = b :: bs ->
    vars_first (bl_insts b) /\ Forall (fun b => no_vars (bl_insts b)) bs;
  wf_targets : forall i, i ∈ all_insts (s_blocks s) -> targets i ⊆ labels (s_blocks s) ++ P }.

(** ** Lists of instructions *)

#[local] Arguments inst_ids : simpl never.

Lemma inst_ids_app l1 l2 : inst_ids (l1 ++ l2) = inst_ids l1 ++ inst_ids l2.
Proof. apply omap_app. Qed.

Lemma elem_inst_ids x l : x ∈ inst_ids l <-> exists i, i ∈ l /\ i_id i = Some x.
Proof. apply list_elem_of_omap. Qed.

Lemma inst_ids_mono l1 l2 : l1 ⊆ l2 -> inst_ids l1 ⊆ inst_ids l2.
Proof. intros H x (i & Hi & Hx)%elem_inst_ids. apply elem_inst_ids. eauto. Qed.

Lemma type_ids_mono l1 l2 : l1 ⊆ l2 -> type_ids l1 ⊆ type_ids l2.
Proof.
  intros H. apply inst_ids_mono. intros i [Hi Hin]%list_elem_of_filter. apply list_elem_of_filter. auto.
Qed.

Lemma type_ids_sub gl : type_ids gl ⊆ inst_ids gl.
Proof. apply inst_ids_mono. intros i [_ Hin]%list_elem_of_filter. done. Qed.

Lemma in_scope_mono D D' T T' i : D ⊆ D' -> T ⊆ T' -> in_scope D T i -> in_scope D' T' i.
Proof.
  intros HD HT [Hu Ht]. split.
  - intros x Hx. by apply (inst_ids_mono D D'), Hu.
  - intros t Hit. by apply (type_ids_mono T T'), Ht.
Qed.

Lemma block_scope_mono D D' T T' l : D ⊆ D' -> T ⊆ T' -> block_scope D T l -> block_scope D' T' l.
Proof.
  intros HD HT Hl pre i post E. eapply in_scope_mono; [| |by eapply Hl]; [|done].
  intros x. rewrite !elem_of_app. intros [?|?]; auto.
Qed.

Lemma snoc_split {A} (l pre post : list A) (i x : A) :
  l ++ [x] = pre ++ i :: post -> (exists post', l = pre ++ i :: post') \/ (l = pre /\ x = i /\ post = []).
Proof.
  destruct post as [|y post _] using rev_ind; intros E.
  - apply app_inj_tail in E as [-> ->]. auto.
  - rewrite app_comm_cons, app_assoc in E. apply app_inj_tail in E as [-> ->]. eauto.
Qed.

Lemma block_scope_snoc D T l i :
  block_scope D T l -> in_scope (D ++ l) T i -> block_scope D T (l ++ [i]).
Proof.
  intros Hl Hi pre j post [[post' E]|(-> & -> & ->)]%snoc_split; [by eapply Hl|done].
Qed.

Lemma block_scope_nil D T : block_scope D T [].
Proof. intros [|] ? ? E; discriminate. Qed.

Lemma globals_scope_snoc gl i : globals_scope gl -> in_scope gl gl i -> globals_scope (gl ++ [i]).
Proof. intros Hl Hi pre j post [[post' E]|(-> & -> & ->)]%snoc_split; [by eapply Hl|done]. Qed.

(** A variable in front of a block: it uses nothing, and only adds to what the
    rest may use. *)
Lemma block_scope_cons D T l i :
  uses i = [] -> (forall t, i_rty i = Some t -> t ∈ type_ids T) ->
  block_scope D T l -> block_scope D T (i :: l).
Proof.
  intros Hu Ht Hl [|j pre] k post E; simplify_eq/=.
  - split; [rewrite Hu; by intros x ?%elem_of_nil|done].
  - eapply in_scope_mono; [| |by eapply Hl]; [|done].
    intros x. rewrite !elem_of_app, elem_of_cons. tauto.
Qed.

Lemma elem_all_insts i bs : i ∈ all_insts bs <-> exists b, b ∈ bs /\ i ∈ bl_insts b.
Proof. unfold all_insts. rewrite list_elem_of_bind. split; intros (b & ? & ?); eauto. Qed.

Lemma entry_vars_sub bs : inst_ids (entry_vars bs) ⊆ (bs ≫= block_ids).
Proof.
  destruct bs as [|b bs]; [done|]. simpl. intros x (i & [_ Hi]%list_elem_of_filter & Hx)%elem_inst_ids.
  right. apply elem_of_app. left. apply elem_inst_ids. eauto.
Qed.

(** ** How each step changes the ids *)

Lemma blocks_add_inst i s b : s_cur s = Some b ->
  s_blocks (add_inst i s) = s_done s ++ [mkBlock (bl_label b) (bl_insts b ++ [i])].
Proof. unfold s_blocks. simpl. by intros ->. Qed.

Lemma blocks_cur s b : s_cur s = Some b -> s_blocks s = s_done s ++ [b].
Proof. unfold s_blocks. by intros ->. Qed.

Lemma blocks_finish i s : s_blocks (finish i s) = s_blocks (add_inst i s).
Proof. unfold s_blocks. simpl. by rewrite app_nil_r. Qed.

Lemma blocks_add_var i s b bs : s_blocks s = b :: bs -> s_blocks (add_var i s) = front i b :: bs.
Proof.
  unfold s_blocks, add_var. destruct (s_done s) as [|b' bs']; simpl.
  - destruct (s_cur s); simpl; intros; by simplify_eq.
  - intros. by simplify_eq.
Qed.

Lemma block_ids_snoc b i :
  block_ids (mkBlock (bl_label b) (bl_insts b ++ [i])) = block_ids b ++ inst_ids [i].
Proof. unfold block_ids. simpl. by rewrite inst_ids_app. Qed.

Lemma ids_add_global i s : s_ids (add_global i s) ≡ₚ inst_ids [i] ++ s_ids s.
Proof.
  unfold s_ids. change (s_blocks (add_global i s)) with (s_blocks s). simpl s_imp. simpl s_glob. simpl s_def.
  rewrite inst_ids_app. solve_Permutation.
Qed.

Lemma ids_add_import i s : s_ids (add_import i s) ≡ₚ inst_ids [i] ++ s_ids s.
Proof.
  unfold s_ids. change (s_blocks (add_import i s)) with (s_blocks s). simpl s_imp. simpl s_glob. simpl s_def.
  rewrite inst_ids_app. solve_Permutation.
Qed.

Lemma ids_add_inst i s b : s_cur s = Some b -> s_ids (add_inst i s) ≡ₚ inst_ids [i] ++ s_ids s.
Proof.
  intros E. unfold s_ids. rewrite (blocks_add_inst _ _ _ E), (blocks_cur _ _ E). simpl s_imp. simpl s_glob. simpl s_def.
  rewrite !bind_app. simpl. rewrite !app_nil_r, inst_ids_app. solve_Permutation.
Qed.

Lemma ids_finish i s : s_ids (finish i s) = s_ids (add_inst i s).
Proof. unfold s_ids. by rewrite blocks_finish. Qed.

Lemma ids_add_var i s b bs : s_blocks s = b :: bs -> s_ids (add_var i s) ≡ₚ inst_ids [i] ++ s_ids s.
Proof.
  intros E. unfold s_ids. rewrite (blocks_add_var _ _ _ _ E), E.
  assert (s_imp (add_var i s) = s_imp s /\ s_glob (add_var i s) = s_glob s /\ s_def (add_var i s) = s_def s)
    as (-> & -> & ->) by (unfold add_var; by destruct (s_done s)).
  simpl. change (i :: bl_insts b) with ([i] ++ bl_insts b). rewrite inst_ids_app. solve_Permutation.
Qed.

Lemma ids_start_block l s : s_cur s = None -> s_ids (start_block l s) ≡ₚ l :: s_ids s.
Proof.
  intros E. unfold s_ids, s_blocks. rewrite E. simpl. rewrite app_nil_r, bind_app. simpl. solve_Permutation.
Qed.

Lemma wf_ids_add s s' P i :
  (s_ids s' ≡ₚ inst_ids [i] ++ s_ids s) -> s_bound s' = s_bound s ->
  NoDup (s_ids s ++ P) -> (forall x, x ∈ s_ids s ++ P -> (x < s_bound s)%Z) ->
  (forall r, i_id i = Some r -> (r ∉ s_ids s ++ P) /\ (r < s_bound s)%Z) ->
  NoDup (s_ids s' ++ P) /\ (forall x, x ∈ s_ids s' ++ P -> (x < s_bound s')%Z).
Proof.
  intros E Eb Hn Hb Hi. rewrite Eb.
  assert (inst_ids [i] = option_list (i_id i)) as Ei by (unfold inst_ids; simpl; by destruct (i_id i)).
  rewrite Ei in E. destruct (i_id i) as [r|]; simpl in E.
  - destruct (Hi r eq_refl) as [Hr Hlt]. split.
    + rewrite E. by apply NoDup_cons.
    + intros x. rewrite E. intros [->|Hx]%elem_of_cons; auto.
  - split; [by rewrite E|]. intros x. rewrite E. auto.
Qed.

(** A new id: the next one. *)
Lemma wf_bump s P : wf s P -> wf (s_bump s) P.
Proof.
  intros []. constructor; try done. intros x Hx. simpl. assert (x < s_bound s)%Z by auto. lia.
Qed.

Lemma wf_promise s P : wf s P -> wf (s_bump s) (s_bound s :: P).
Proof.
  intros H. destruct (wf_bump _ _ H). constructor; try done.
  - change (s_ids (s_bump s)) with (s_ids s) in *. rewrite <- Permutation_middle. apply NoDup_cons. split; [|done].
    intros Hin. apply (wf_bound _ _ H) in Hin. lia.
  - change (s_ids (s_bump s)) with (s_ids s) in *. intros x. rewrite <- Permutation_middle, elem_of_cons.
    intros [->|Hx]; [simpl; lia|auto].
  - intros i Hi x Hx. apply wf_targets0 in Hx; [|done]. revert Hx. rewrite !elem_of_app, elem_of_cons. tauto.
Qed.

Lemma wf_perm s P P' : P ≡ₚ P' -> wf s P -> wf s P'.
Proof.
  intros E []. constructor; try done.
  - by rewrite <- E.
  - intros x. rewrite <- E. auto.
  - intros i Hi x Hx. rewrite <- E. by apply wf_targets0 with i.
Qed.

Lemma fresh_bump s P : wf s P -> s_bound s ∉ s_ids s ++ P.
Proof. intros H Hin. apply (wf_bound _ _ H) in Hin. lia. Qed.

(** ** Preservation of the invariant *)

Definition fresh_for (s : Shape) (P : list Z) (i : Instruction) : Prop :=
  forall r, i_id i = Some r -> (r ∉ s_ids s ++ P) /\ (r < s_bound s)%Z.

Lemma fresh_next s P i : wf s P -> i_id i = Some (s_bound s) -> fresh_for (s_bump s) P i.
Proof. intros H E r Hr. rewrite E in Hr. simplify_eq. split; [exact (fresh_bump s P H)|simpl; lia]. Qed.

Lemma fresh_none s P i : i_id i = None -> fresh_for s P i.
Proof. intros E r Hr. congruence. Qed.

Lemma wf_add_global i s P :
  wf s P -> fresh_for s P i -> in_scope (s_glob s) (s_glob s) i -> wf (add_global i s) P.
Proof.
  intros [] Hf Hi. destruct (wf_ids_add s (add_global i s) P i) as [Hn Hb]; auto using ids_add_global.
  constructor; auto.
  - by apply globals_scope_snoc.
  - simpl. eapply Forall_impl; [apply wf_scope0|]. intros b. apply block_scope_mono.
    + intros x. unfold gdefs. simpl. change (s_blocks (add_global i s)) with (s_blocks s).
      rewrite !elem_of_app. tauto.
    + intros x. simpl. rewrite elem_of_app. tauto.
Qed.

Lemma wf_add_import i s P : wf s P -> fresh_for s P i -> wf (add_import i s) P.
Proof.
  intros [] Hf. destruct (wf_ids_add s (add_import i s) P i) as [Hn Hb]; auto using ids_add_import.
  constructor; auto.
  eapply Forall_impl; [apply wf_scope0|]. intros b. apply block_scope_mono; [|done].
  intros x. unfold gdefs. simpl. change (s_blocks (add_import i s)) with (s_blocks s).
  rewrite !elem_of_app. tauto.
Qed.

Lemma vars_first_snoc l i : is_var i = false -> vars_first l -> vars_first (l ++ [i]).
Proof.
  intros Hi (vs & rest & -> & Hvs & Hr). exists vs, (rest ++ [i]). rewrite <- app_assoc.
  split_and!; [done..|]. by apply Forall_app_2, Forall_singleton.
Qed.

Lemma entry_vars_snoc done_ b i : is_var i = false ->
  entry_vars (done_ ++ [mkBlock (bl_label b) (bl_insts b ++ [i])]) = entry_vars (done_ ++ [b]).
Proof.
  intros Hi. destruct done_ as [|b' bs]; [|done]. simpl. rewrite filter_app, filter_cons_False, filter_nil, app_nil_r.
  - done.
  - by rewrite Hi.
Qed.

Lemma gdefs_add_inst i s b : s_cur s = Some b -> is_var i = false -> gdefs (add_inst i s) = gdefs s.
Proof.
  intros E Hi. unfold gdefs. rewrite (blocks_add_inst _ _ _ E), entry_vars_snoc, (blocks_cur _ _ E) by done. done.
Qed.

Lemma labels_add_inst i s : labels (s_blocks (add_inst i s)) = labels (s_blocks s).
Proof. unfold s_blocks, labels. simpl. rewrite !fmap_app. by destruct (s_cur s). Qed.

(** What an instruction appended to the selected block leaves true, whether it
    ends the block or not. *)
Lemma add_inst_facts i s P b :
  wf s P -> s_cur s = Some b -> is_var i = false -> fresh_for s P i ->
  in_scope (defs s) (s_glob s) i -> targets i ⊆ labels (s_blocks s) ++ P ->
  let s' := add_inst i s in
  (NoDup (s_ids s' ++ P) /\ (forall x, x ∈ s_ids s' ++ P -> (x < s_bound s')%Z)) /\
  Forall (fun b => block_scope (gdefs s') (s_glob s') (bl_insts b)) (s_blocks s') /\
  (forall b bs, s_blocks s' = b :: bs ->
    vars_first (bl_insts b) /\ Forall (fun b => no_vars (bl_insts b)) bs) /\
  (forall i, i ∈ all_insts (s_blocks s') -> targets i ⊆ labels (s_blocks s') ++ P).
Proof.
  intros [] E Hv Hf Hi Ht s'.
  split; [apply (wf_ids_add s s' P i); auto; by apply ids_add_inst with b|]. split_and!.
  - unfold s'. rewrite (gdefs_add_inst _ _ _ E Hv), (blocks_add_inst _ _ _ E).
    rewrite (blocks_cur _ _ E) in wf_scope0. apply Forall_app in wf_scope0 as [Hd Hb].
    apply Forall_app. split; [exact Hd|]. apply Forall_singleton. simpl. apply Forall_cons_1 in Hb as [Hb _].
    apply block_scope_snoc; [exact Hb|]. unfold defs, cur_insts in Hi. by rewrite E in Hi.
  - unfold s'. rewrite (blocks_add_inst _ _ _ E). rewrite (blocks_cur _ _ E) in wf_vars0.
    intros b0 bs Ebs. destruct (s_done s) as [|d ds]; simpl in *; simplify_eq/=.
    + destruct (wf_vars0 b []) as [H1 _]; [done|]. split; [by apply vars_first_snoc|done].
    + destruct (wf_vars0 b0 (ds ++ [b])) as [H1 H2]; [done|]. split; [done|].
      apply Forall_app in H2 as [H2 H3]. apply Forall_app. split; [done|].
      apply Forall_singleton. apply Forall_cons_1 in H3 as [H3 _]. by apply Forall_app_2, Forall_singleton.
  - unfold s'. rewrite labels_add_inst. rewrite (blocks_add_inst _ _ _ E). rewrite (blocks_cur _ _ E) in *.
    intros j (b' & Hb' & Hj)%elem_all_insts. apply elem_of_app in Hb' as [Hb'|Hb'].
    + apply wf_targets0. apply elem_all_insts. exists b'. split; [apply elem_of_app; by left|done].
    + apply list_elem_of_singleton in Hb' as ->. simpl in Hj. apply elem_of_app in Hj as [Hj|Hj].
      * apply wf_targets0. apply elem_all_insts. exists b. split; [apply elem_of_app; right; left|done].
      * by apply list_elem_of_singleton in Hj as ->.
Qed.

Lemma wf_add_inst i s P b :
  wf s P -> s_cur s = Some b -> is_var i = false -> is_term (i_op i) = false -> fresh_for s P i ->
  in_scope (defs s) (s_glob s) i -> targets i ⊆ labels (s_blocks s) ++ P ->
  wf (add_inst i s) P.
Proof.
  intros H E Hv Hterm Hf Hi Ht.
  destruct (add_inst_facts i s P b) as ((Hn & Hb) & Hs & Hvs & Htg); auto.
  destruct H. constructor; auto.
  unfold cur_insts in *. simpl. rewrite E in *. simpl in *. by apply Forall_app_2, Forall_singleton.
Qed.

Lemma wf_finish i s P b :
  wf s P -> s_cur s = Some b -> is_var i = false -> is_term (i_op i) = true -> i_id i = None ->
  in_scope (defs s) (s_glob s) i -> targets i ⊆ labels (s_blocks s) ++ P ->
  wf (finish i s) P.
Proof.
  intros H E Hv Hterm Hid Hi Ht.
  destruct (add_inst_facts i s P b) as ((Hn & Hb) & Hs & Hvs & Htg); auto using fresh_none.
  destruct H. constructor; auto.
  - by rewrite ids_finish.
  - intros x. rewrite ids_finish. apply Hb.
  - simpl. rewrite E. simpl. apply Forall_app_2; [done|]. apply Forall_singleton. simpl.
    exists (bl_insts b), i. split_and!; [done..|]. unfold cur_insts in wf_cur0. by rewrite E in wf_cur0.
  - apply Forall_nil_2.
  - unfold gdefs in *. by rewrite blocks_finish.
  - by rewrite blocks_finish.
  - by rewrite blocks_finish.
Qed.

Lemma wf_start_block l s P :
  wf s (l :: P) -> s_cur s = None -> wf (start_block l s) P.
Proof.
  intros [] E.
  assert (s_blocks (start_block l s) = s_blocks s ++ [mkBlock l []]) as Eb.
  { unfold s_blocks. simpl. by rewrite E, app_nil_r. }
  assert (s_ids (start_block l s) ++ P ≡ₚ s_ids s ++ l :: P) as Ei.
  { rewrite (ids_start_block l s E). solve_Permutation. }
  assert (gdefs s ⊆ gdefs (start_block l s)) as Hg.
  { unfold gdefs. rewrite Eb. simpl s_imp. simpl s_glob. destruct (s_blocks s) as [|b bs]; [|done].
    simpl. intros x. rewrite !elem_of_app. tauto. }
  constructor; auto.
  - by rewrite Ei.
  - intros x. rewrite Ei. auto.
  - apply Forall_nil_2.
  - rewrite Eb. apply Forall_app. split.
    + eapply Forall_impl; [apply wf_scope0|]. intros b. by apply block_scope_mono.
    + apply Forall_singleton. apply block_scope_nil.
  - rewrite Eb. intros b bs Ebs. destruct (s_blocks s) as [|b' bs'] eqn:E'; simplify_eq/=.
    + split; [|done]. by exists [], [].
    + destruct (wf_vars0 _ _ eq_refl) as [H1 H2]. split; [done|]. apply Forall_app. split; [done|].
      apply Forall_singleton. apply Forall_nil_2.
  - rewrite Eb. intros i (b & [Hb|Hb]%elem_of_app & Hi)%elem_all_insts.
    + intros x Hx. apply wf_targets0 in Hx; [|apply elem_all_insts; eauto]. unfold labels in *.
      revert Hx. rewrite fmap_app. simpl. rewrite !elem_of_app, !elem_of_cons. tauto.
    + apply list_elem_of_singleton in Hb as ->. by apply elem_of_nil in Hi.
Qed.

Lemma closed_block_cons i l : is_term (i_op i) = false -> closed_block l -> closed_block (i :: l).
Proof. intros Hi (body & t & -> & Ht & Hb). exists (i :: body), t. split_and!; [done..|]. by constructor. Qed.

Lemma gdefs_add_var i s b bs : s_blocks s = b :: bs -> gdefs s ⊆ gdefs (add_var i s).
Proof.
  intros E x. unfold gdefs. rewrite (blocks_add_var _ _ _ _ E), E.
  assert (s_imp (add_var i s) = s_imp s /\ s_glob (add_var i s) = s_glob s) as (-> & ->)
    by (unfold add_var; by destruct (s_done s)).
  rewrite !elem_of_app. simpl. rewrite filter_cons. case_decide; rewrite ?elem_of_cons; tauto.
Qed.

Lemma glob_add_var i s : s_glob (add_var i s) = s_glob s.
Proof. unfold add_var. by destruct (s_done s). Qed.

Lemma bound_add_var i s : s_bound (add_var i s) = s_bound s.
Proof. unfold add_var. by destruct (s_done s). Qed.

Lemma wf_add_var i s P b bs :
  wf s P -> s_blocks s = b :: bs -> i_op i = OpVariable -> uses i = [] -> fresh_for s P i ->
  (forall t, i_rty i = Some t -> t ∈ type_ids (s_glob s)) -> wf (add_var i s) P.
Proof.
  intros [] E Hop Hu Hf Ht.
  assert (is_term (i_op i) = false) as Hterm by (by rewrite Hop).
  assert (is_var i = true) as Hv by (unfold is_var; by rewrite Hop).
  assert (targets i = []) as Htg by (unfold targets; by rewrite Hop).
  pose proof (gdefs_add_var i s b bs E) as Hg.
  destruct (wf_ids_add s (add_var i s) P i) as [Hn Hb];
    [by eapply ids_add_var|apply bound_add_var|done..|].
  rewrite E in wf_scope0, wf_targets0. apply Forall_cons in wf_scope0 as [Hs1 Hs2].
  constructor; [exact Hn|exact Hb|rewrite ?glob_add_var, ?(blocks_add_var _ _ _ _ E)..]; [done|..].
  - unfold add_var. destruct (s_done s) as [|d ds]; [done|]. simpl.
    apply Forall_cons in wf_done0 as [H1 H2]. apply Forall_cons. split; [by apply closed_block_cons|done].
  - unfold add_var, cur_insts, open_block in *. destruct (s_done s); [|done]. simpl.
    destruct (s_cur s); simpl in *; [by constructor|done].
  - apply Forall_cons. split.
    + simpl. apply block_scope_cons; [done..|]. eapply block_scope_mono; [exact Hg|done|exact Hs1].
    + eapply Forall_impl; [exact Hs2|]. intros b'. by apply block_scope_mono.
  - intros b0 bs0 E0. simplify_eq. destruct (wf_vars0 _ _ E) as [(vs & rest & El & Hvs & Hr) H2].
    split; [|done]. exists (i :: vs), rest. simpl. rewrite El. split_and!; [done| |done]. by constructor.
  - intros j (b' & [->|Hb']%elem_of_cons & Hj)%elem_all_insts; simpl in Hj.
    + apply elem_of_cons in Hj as [->|Hj]; [rewrite Htg; by intros x ?%elem_of_nil|].
      apply wf_targets0, elem_all_insts. exists b. split; [left|done].
    + apply wf_targets0, elem_all_insts. exists b'. split; [by right|done].
Qed.

Lemma wf_start_function d s P :
  wf s P -> s_blocks s = [] -> s_def s = None -> fresh_for s P d -> wf (start_function d s) P.
Proof.
  intros [] E Ed Hf.
  assert (s_blocks (start_function d s) = []) as Eb by done.
  assert (s_ids (start_function d s) ≡ₚ inst_ids [d] ++ s_ids s) as Ei.
  { unfold s_ids. rewrite Eb, E, Ed. simpl. rewrite !app_nil_r. solve_Permutation. }
  destruct (wf_ids_add s (start_function d s) P d) as [Hn Hb]; auto.
  constructor; [done|done|done|apply Forall_nil_2|apply Forall_nil_2|rewrite Eb..].
  - apply Forall_nil_2.
  - done.
  - intros i Hi. by apply elem_of_nil in Hi.
Qed.

(** When nothing is promised and no block is open, the module is finished. *)
Lemma wf_module_ok v s d :
  repr v s -> wf s [] -> s_def s = Some d -> s_cur s = None -> s_done s <> [] -> module_ok (v_mod v).
Proof.
  intros (Hi & Hg & _ & Hf) [] Ed Ec Hne. rewrite Ed in Hf. destruct Hf as (Hf & _).
  assert (s_blocks s = s_done s) as Eb by (unfold s_blocks; by rewrite Ec, app_nil_r).
  rewrite Eb in *. rewrite app_nil_r in *. constructor.
  - exists (mkFunction d (s_done s)). split; [done|exact Hne].
  - unfold module_ids. rewrite Hi, Hg, Hf. unfold s_ids in wf_ids0. rewrite Ed, Eb in wf_ids0.
    simpl. by rewrite app_nil_r.
  - by rewrite Hg.
  - intros f Hin. rewrite Hf in Hin. apply list_elem_of_singleton in Hin as ->. simpl. rewrite Hi, Hg.
    unfold gdefs in wf_scope0. rewrite Eb in wf_scope0. by split_and!.
Qed.

(** ** Extension

    What later steps keep: everywhere-available definitions ([gext]), and within
    one block also the definitions of the block ([ext]). *)

Record gext (s s' : Shape) : Prop := {
  gext_defs : gdefs s ⊆ gdefs s';
  gext_glob : s_glob s ⊆ s_glob s';
  gext_def : s_def s' = s_def s;
  gext_blocks : s_blocks s <> [] -> s_blocks s' <> [];
  gext_labels : labels (s_blocks s) ⊆ labels (s_blocks s') }.

Record ext (s s' : Shape) : Prop := {
  ext_gext : gext s s';
  ext_cur : cur_insts s ⊆ cur_insts s';
  ext_open : is_Some (s_cur s) -> is_Some (s_cur s');
  ext_labels : labels (s_blocks s') = labels (s_blocks s) }.

#[export] Instance gext_preorder : PreOrder gext.
Proof.
  split; [by constructor|]. intros s1 s2 s3 [] []. constructor; [by transitivity (gdefs s2)|by transitivity (s_glob s2)|congruence|auto|].
  by transitivity (labels (s_blocks s2)).
Qed.
#[export] Instance ext_preorder : PreOrder ext.
Proof.
  split; [by constructor|]. intros s1 s2 s3 [] []. constructor; [by transitivity s2|by transitivity (cur_insts s2)|auto|congruence].
Qed.

(** Ids that may be used everywhere, in the selected block, and as types. *)
Definition gavail (s : Shape) (x : Z) : Prop := x ∈ inst_ids (gdefs s).
Definition avail (s : Shape) (x : Z) : Prop := x ∈ inst_ids (defs s).
Definition tavail (s : Shape) (x : Z) : Prop := x ∈ type_ids (s_glob s).

Lemma gext_gavail s s' x : gext s s' -> gavail s x -> gavail s' x.
Proof. intros H. apply inst_ids_mono, H. Qed.
Lemma gext_tavail s s' x : gext s s' -> tavail s x -> tavail s' x.
Proof. intros H. apply type_ids_mono, H. Qed.
Lemma ext_avail s s' x : ext s s' -> avail s x -> avail s' x.
Proof.
  intros [[] ? ? ?]. apply inst_ids_mono. unfold defs. intros i. rewrite !elem_of_app. intros [?|?]; auto.
Qed.
Lemma gavail_avail s x : gavail s x -> avail s x.
Proof. apply inst_ids_mono. unfold defs. intros i. rewrite elem_of_app. auto. Qed.
