(* ===== verification/HlslSsa.v ===== *)
(** * Well-formedness of the generated modules

    Every definition of [HlslCodegen] keeps the invariant [wf] of the module
    under construction and returns ids that are available where they are used;
    so a finished module is well-formed, for any builder that satisfies
    [BuilderLaws]. *)
From Stdlib Require Import ZArith Lia String.
From stdpp Require Import base list option gmap strings sets.
From S2P Require Import Prelude HlslAst SpirvBuilder HlslCodegen HlslShape.
Local Open Scope rust_scope.
Set Warnings "-register-all".

Section Ssa.
Context {B : Type} {HB : Builder B} {HL : BuilderLaws B} (K : Prop).
Abbreviation G := (M (Ctx (B := B)) CodegenError).

Definition st (c : Ctx (B := B)) (s : Shape) : Prop := repr (b_view (c_builder c)) s.

(** The tables of the context hold available ids. *)
Record ctx_ok (c : Ctx (B := B)) (s : Shape) : Prop := {
  co_void : tavail s (c_void_t c);
  co_bool : tavail s (c_bool_t c);
  co_float : tavail s (c_float_t c);
  co_int : tavail s (c_int_t c);
  co_uint : tavail s (c_uint_t c);
  co_glsl : gavail s (c_glsl_set c);
  co_structs : map_Forall (fun _ i => tavail s (si_type_id i)) (c_structs c);
  co_globals : map_Forall (fun _ g => gavail s (pl_ptr g)) (c_globals c);
  co_members : map_Forall (fun _ m => gavail s m.1 /\ gavail s m.2) (c_cbuffer_members c);
  co_locals : Forall (fun l => gavail s (pl_ptr l.2)) (c_locals c);
  co_out : forall o, c_out_var c = Some o -> gavail s o }.

Definition good (P : list Z) (c : Ctx (B := B)) (s : Shape) : Prop := st c s /\ ctx_ok c s /\ wf s P.

(** [twp E c s m R]: [m] run from [c] in state [s] ends in an [E]-extension of
    the state where [R] holds. *)
Definition twp (E : Shape -> Shape -> Prop) {A} (c : Ctx (B := B)) (s : Shape) (m : G A)
    (R : A -> Ctx (B := B) -> Shape -> Prop) : Prop :=
  wp K m (fun a c' => exists s', E s s' /\ R a c' s') c.

(** A postcondition on the state and the result, with the invariant. *)
Definition post {A} (P : list Z) (Q : Shape -> A -> Prop) (a : A) (c : Ctx (B := B)) (s : Shape) : Prop :=
  good P c s /\ Q s a.
Abbreviation any := (fun _ _ => True).

Lemma twp_bind E {HE : PreOrder E} {A C} c s (m : G A) (f : A -> G C) R1 R :
  twp E c s m R1 ->
  (forall a c1 s1, E s s1 -> R1 a c1 s1 -> twp E c1 s1 (f a) R) ->
  twp E c s (mbind m f) R.
Proof.
  intros Hm Hf. apply wp_bind. eapply wp_mono; [exact Hm|]. intros a c1 (s1 & HE1 & H1).
  eapply wp_mono; [by apply (Hf a c1 s1)|]. intros d c2 (s2 & HE2 & H2). exists s2. split; [by transitivity s1|done].
Qed.

Lemma twp_mono E {A} c s (m : G A) (R R' : A -> Ctx (B := B) -> Shape -> Prop) :
  twp E c s m R -> (forall a c s, R a c s -> R' a c s) -> twp E c s m R'.
Proof. intros H HR. eapply wp_mono; [exact H|]. intros a c' (s' & ? & ?). eauto. Qed.

Lemma twp_gext {A} c s (m : G A) R : twp ext c s m R -> twp gext c s m R.
Proof. intros H. eapply wp_mono; [exact H|]. intros a c' (s' & [] & ?). eauto. Qed.

Lemma twp_ret E {HE : PreOrder E} {A} c s (a : A) (R : A -> Ctx (B := B) -> Shape -> Prop) :
  R a c s -> twp E c s (mret a) R.
Proof. intros H0. exists s. by split. Qed.

Lemma twp_fail E {A} c s e (R : A -> Ctx (B := B) -> Shape -> Prop) : twp E c s (mfail e) R.
Proof. done. Qed.

Lemma twp_gets E {A C} c s (g : Ctx -> A) (f : A -> G C) R :
  twp E c s (f (g c)) R -> twp E c s (mbind (gets g) f) R.
Proof. done. Qed.

Lemma twp_mget E {C} c s (f : Ctx -> G C) R : twp E c s (f c) R -> twp E c s (mbind mget f) R.
Proof. done. Qed.

Lemma twp_ok_or E {A C} c s (o : option A) e (f : A -> G C) R :
  (forall a, o = Some a -> twp E c s (f a) R) -> twp E c s (mbind (ok_or o e) f) R.
Proof. destruct o; intros Hf; [by apply Hf|done]. Qed.

Lemma good_ctx P c s : good P c s -> ctx_ok c s.
Proof. by intros (? & ? & ?). Qed.

Lemma ctx_ok_gext c s s' : gext s s' -> ctx_ok c s -> ctx_ok c s'.
Proof.
  intros HE []. constructor; eauto using gext_tavail, gext_gavail.
  - intros n i Hn. eauto using gext_tavail.
  - intros n i Hn. eauto using gext_gavail.
  - intros n i Hn. destruct (co_members0 n i Hn). eauto using gext_gavail.
  - eapply Forall_impl; [exact co_locals0|]. intros. by eapply gext_gavail.
Qed.

Lemma ctx_ok_builder b c s : ctx_ok c s -> ctx_ok (set_builder b c) s.
Proof. intros []. by constructor. Qed.

(** The rule for one builder call: the new state of the builder, as a shape. *)
Lemma good_step P P' c s b s' :
  good P c s -> repr (b_view b) s' -> gext s s' -> wf s' P' -> good P' (set_builder b c) s'.
Proof. intros (Hst & Hc & Hw) Hr HE Hw'. split_and!; [done| |done]. by apply ctx_ok_builder, (ctx_ok_gext c s). Qed.

(** ** How the builder's calls move the shape *)

Lemma repr_bump v s : repr v s -> repr (bump v) (s_bump s).
Proof. intros (? & ? & Hb & ?). split_and!; try done. simpl. by rewrite Hb. Qed.

Lemma repr_header h v s : repr v s -> repr (on_mod (push_header h) v) s.
Proof. intros Hr. exact Hr. Qed.

Lemma repr_global i v s : repr v s -> repr (on_mod (push_global i) v) (add_global i s).
Proof.
  intros (? & Hg & ? & ?). split_and!; try done. simpl. by rewrite Hg.
Qed.

Lemma repr_import i v s : repr v s -> repr (on_mod (push_import i) v) (add_import i s).
Proof.
  intros (Hg & ? & ? & ?). split_and!; try done. simpl. by rewrite Hg.
Qed.

Lemma repr_def v s : repr v s -> s_blocks s <> [] \/ v_fun v = true -> exists d, s_def s = Some d.
Proof.
  intros (? & ? & ? & Hf) Hne. destruct (s_def s); [eauto|].
  destruct Hf as (_ & _ & Hfun & Hb). destruct Hne as [?|Hv]; [done|]. by rewrite Hfun in Hv.
Qed.

Lemma edit_last_one (g : list BlockData -> list BlockData) m d bs :
  m_functions m = [mkFunction d bs] -> m_functions (edit_last g m) = [mkFunction d (g bs)].
Proof. unfold edit_last. simpl. intros ->. done. Qed.

Lemma push_inst_last i bs b :
  push_inst (length bs) i (bs ++ [b]) = bs ++ [mkBlock (bl_label b) (bl_insts b ++ [i])].
Proof.
  unfold push_inst. replace (length bs) with (length bs + 0) by lia. by rewrite alter_app_r.
Qed.

Lemma repr_selected v s b : repr v s -> s_cur s = Some b -> v_sel v = Some (length (s_done s)).
Proof.
  intros Hr E. destruct (repr_def v s Hr) as [d Ed]; [left; rewrite (blocks_cur _ _ E); by destruct (s_done s)|].
  destruct Hr as (_ & _ & _ & Hf). rewrite Ed, E in Hf. by destruct Hf as (_ & _ & ->).
Qed.

Lemma repr_unselected v s : repr v s -> s_cur s = None -> v_sel v = None.
Proof.
  intros (_ & _ & _ & Hf) E. rewrite E in Hf. destruct (s_def s); [by destruct Hf as (_ & _ & ->)|by destruct Hf as (_ & -> & _)].
Qed.

Lemma repr_inst i v s b :
  repr v s -> s_cur s = Some b ->
  repr (on_mod (edit_last (push_inst (length (s_done s)) i)) v) (add_inst i s).
Proof.
  intros Hr E. destruct (repr_def v s Hr) as [d Ed]; [left; rewrite (blocks_cur _ _ E); by destruct (s_done s)|].
  destruct Hr as (Hi & Hg & Hb & Hf). unfold repr. rewrite Ed in Hf. simpl s_def. rewrite Ed.
  destruct Hf as (Hf & Hfun & Hsel). rewrite E in Hsel.
  split_and!; [done..| |done|simpl; rewrite E; exact Hsel].
  simpl v_mod. rewrite (edit_last_one _ _ _ _ Hf), (blocks_cur _ _ E), push_inst_last.
  by rewrite (blocks_add_inst _ _ _ E).
Qed.

Lemma repr_finish i v s b :
  repr v s -> s_cur s = Some b ->
  repr (select None (on_mod (edit_last (push_inst (length (s_done s)) i)) v)) (finish i s).
Proof.
  intros Hr E. pose proof (repr_inst i v s b Hr E) as (Hi & Hg & Hb & Hf). unfold repr.
  destruct (repr_def v s Hr) as [d Ed]; [left; rewrite (blocks_cur _ _ E); by destruct (s_done s)|].
  simpl s_def in *. rewrite Ed in *. rewrite blocks_finish. destruct Hf as (Hf & Hfun & _). by split_and!.
Qed.

Lemma repr_front i v s b bs :
  repr v s -> s_blocks s = b :: bs -> repr (on_mod (edit_last (insert_front i)) v) (add_var i s).
Proof.
  intros Hr E. destruct (repr_def v s Hr) as [d Ed]; [left; by rewrite E|].
  destruct Hr as (Hi & Hg & Hb & Hf). rewrite Ed in Hf. destruct Hf as (Hf & Hfun & Hsel).
  assert (m_functions (edit_last (insert_front i) (v_mod v)) = [mkFunction d (s_blocks (add_var i s))]) as Hm.
  { by rewrite (edit_last_one _ _ _ _ Hf), E, (blocks_add_var _ _ _ _ E). }
  unfold repr, add_var in *. destruct (s_done s) as [|b' bs'] eqn:Ed'; simpl in *; rewrite ?Ed.
  - split_and!; try done. rewrite Hsel. by destruct (s_cur s).
  - by split_and!.
Qed.

Lemma repr_start_function rt ft r v s :
  repr v s -> s_def s = None ->
  repr (set_fun true (select None (on_mod (push_function rt ft r) v))) (start_function (function_inst rt ft r) s).
Proof.
  intros (Hi & Hg & Hb & Hf) E. rewrite E in Hf. destruct Hf as (Hf & _).
  split_and!; try done. simpl. by rewrite Hf.
Qed.

Lemma repr_start_block l v s d :
  repr v s -> s_def s = Some d -> s_cur s = None ->
  repr (select (Some (length (last_blocks (v_mod v)))) (on_mod (edit_last (fun bs => bs ++ [mkBlock l []])) v))
    (start_block l s).
Proof.
  intros (Hi & Hg & Hb & Hf) E Ec. rewrite E in Hf. destruct Hf as (Hf & Hfun & _).
  assert (s_blocks s = s_done s) as Eb by (unfold s_blocks; by rewrite Ec, app_nil_r).
  unfold repr. simpl s_def. rewrite E. split_and!; try done.
  - simpl v_mod. by rewrite (edit_last_one _ _ _ _ Hf), Eb.
  - simpl. unfold last_blocks. by rewrite Hf, <- Eb.
Qed.

(** ** The primitive computations *)

Lemma twp_bld E {A} c s (f : B -> A * B) a b s' (R : A -> Ctx (B := B) -> Shape -> Prop) :
  f (c_builder c) = (a, b) -> E s s' -> R a (set_builder b c) s' -> twp E c s (bld f) R.
Proof. intros Ef HE HR. unfold twp, wpk, bld. rewrite Ef. eauto. Qed.

Lemma twp_try_bld E {A} n c s (f : B -> outcome unit A * B) a b s' (R : A -> Ctx (B := B) -> Shape -> Prop) :
  f (c_builder c) = (Ok a, b) -> E s s' -> R a (set_builder b c) s' -> twp E c s (try_bld n f) R.
Proof. intros Ef HE HR. unfold twp, wpk, try_bld. rewrite Ef. eauto. Qed.

Lemma ext_bump s : ext s (s_bump s).
Proof. by repeat constructor. Qed.

Lemma ext_add_global i s : ext s (add_global i s).
Proof.
  repeat constructor; try done; unfold gdefs; simpl.
  - intros x. rewrite !elem_of_app. change (s_blocks (add_global i s)) with (s_blocks s). tauto.
  - intros x. rewrite elem_of_app. tauto.
Qed.

Lemma ext_add_import i s : ext s (add_import i s).
Proof.
  repeat constructor; try done; unfold gdefs; simpl.
  intros x. rewrite !elem_of_app. change (s_blocks (add_import i s)) with (s_blocks s). tauto.
Qed.

Lemma ext_add_inst i s b : s_cur s = Some b -> is_var i = false -> ext s (add_inst i s).
Proof.
  intros E Hi. repeat constructor.
  - by rewrite (gdefs_add_inst _ _ _ E Hi).
  - done.
  - rewrite (blocks_add_inst _ _ _ E). by destruct (s_done s).
  - by rewrite labels_add_inst.
  - unfold cur_insts. simpl. rewrite E. simpl. intros x. rewrite elem_of_app. tauto.
  - intros _. simpl. rewrite E. simpl. eauto.
  - apply labels_add_inst.
Qed.

Lemma gext_finish i s b : s_cur s = Some b -> is_var i = false -> gext s (finish i s).
Proof.
  intros E Hi. constructor; try done.
  - unfold gdefs. rewrite blocks_finish. change (s_imp (finish i s) ++ s_glob (finish i s)) with
      (s_imp (add_inst i s) ++ s_glob (add_inst i s)). by rewrite <- (gdefs_add_inst _ _ _ E Hi) at 1.
  - rewrite blocks_finish, (blocks_add_inst _ _ _ E). by destruct (s_done s).
  - by rewrite blocks_finish, labels_add_inst.
Qed.

Lemma gext_start_block l s : s_cur s = None -> gext s (start_block l s).
Proof.
  intros E. assert (s_blocks (start_block l s) = s_blocks s ++ [mkBlock l []]) as Eb.
  { unfold s_blocks. simpl. by rewrite E, app_nil_r. }
  constructor; try done; unfold gdefs; rewrite Eb; simpl; [|by destruct (s_blocks s)|].
  - intros x. rewrite !elem_of_app. destruct (s_blocks s); simpl; [rewrite elem_of_nil|]; tauto.
  - intros x. unfold labels. rewrite fmap_app, elem_of_app. tauto.
Qed.

Lemma ext_add_var i s b bs : s_blocks s = b :: bs -> ext s (add_var i s).
Proof.
  intros E. pose proof (blocks_add_var i s b bs E) as Eb. repeat constructor.
  - by apply (gdefs_add_var i s b bs).
  - by rewrite glob_add_var.
  - unfold add_var. by destruct (s_done s).
  - by rewrite Eb.
  - by rewrite Eb, E.
  - unfold add_var, cur_insts. destruct (s_done s); [|done]. simpl. destruct (s_cur s); [|done]. simpl.
    intros x. rewrite elem_of_cons. tauto.
  - unfold add_var. destruct (s_done s); [|done]. simpl. by rewrite fmap_is_Some.
  - by rewrite Eb, E.
Qed.

Lemma twp_header P c s h : good P c s -> twp ext c s (header h) (post P any).
Proof.
  intros Hg. eapply twp_bld; [done|reflexivity|]. split; [|done].
  destruct Hg as (Hst & Hc & Hw). split_and!; [|by apply ctx_ok_builder|done].
  unfold st. simpl. rewrite header_law. by apply repr_header.
Qed.

Definition type_args_ok (s : Shape) (tc : TypeCall) : Prop := forall x, x ∈ uses (type_inst tc 0) -> tavail s x.

Lemma tavail_ids s x : tavail s x -> x ∈ inst_ids (s_glob s).
Proof. apply type_ids_sub. Qed.

Lemma type_inst_scope s tc r : type_args_ok s tc -> in_scope (s_glob s) (s_glob s) (type_inst tc r).
Proof.
  intros Hok. split.
  - intros x Hx. apply tavail_ids, Hok. by destruct tc.
  - by destruct tc.
Qed.

Lemma type_inst_tavail tc r gl : type_inst tc r ∈ gl -> r ∈ type_ids gl.
Proof.
  intros Hin. apply elem_inst_ids. exists (type_inst tc r). split; [|by destruct tc].
  apply list_elem_of_filter. split; [by destruct tc|done].
Qed.

Lemma type_step P b s tc :
  repr (b_view b) s -> wf s P -> type_args_ok s tc ->
  exists r b' s', b_type tc b = (r, b') /\ repr (b_view b') s' /\ wf s' P /\ ext s s' /\ tavail s' r.
Proof.
  intros Hst Hw Hok. destruct (type_law tc b) as (r & b' & Ef & Hr).
  pose proof Hst as (_ & Hglob & Hbound & _). exists r, b'. destruct Hr as [[Hv Hin]|[-> Hv]].
  - exists s. split_and!; [done|by rewrite Hv|done|done|].
    apply (type_inst_tavail tc). by rewrite <- Hglob, view_module.
  - set (i := type_inst tc (v_bound (b_view b))) in *.
    assert (i_id i = Some (s_bound s)) as Hid by (rewrite <- Hbound; by destruct tc).
    exists (s_bump (add_global i s)). split_and!; [done| | | |].
    + rewrite Hv. apply repr_bump, repr_global, Hst.
    + apply (wf_add_global i (s_bump s)); [by apply wf_bump|by apply fresh_next|by apply type_inst_scope].
    + transitivity (add_global i s); [apply ext_add_global|apply ext_bump].
    + eapply type_inst_tavail with (tc := tc). simpl. apply elem_of_app. right. left.
Qed.

Lemma twp_btype P c s tc : good P c s -> type_args_ok s tc -> twp ext c s (btype tc) (post P tavail).
Proof.
  intros Hg Hok. pose proof Hg as (Hst & Hc & Hw).
  destruct (type_step P (c_builder c) s tc Hst Hw Hok) as (r & b' & s' & Ef & Hr & Hw' & HE & Ht).
  eapply twp_bld; [exact Ef|exact HE|]. split; [|done]. eapply good_step; [exact Hg|done|apply HE|done].
Qed.

(** An instruction with a result at the end of the selected block. *)
Lemma new_inst_step P c s b i bl :
  good P c s -> s_cur s = Some bl -> i_id i = Some (s_bound s) -> is_var i = false -> is_term (i_op i) = false ->
  in_scope (defs s) (s_glob s) i -> targets i = [] ->
  b_view b = bump (on_mod (edit_last (push_inst (length (s_done s)) i)) (b_view (c_builder c))) ->
  exists s', ext s s' /\ good P (set_builder b c) s' /\ avail s' (s_bound s).
Proof.
  intros Hg Ec Hid Hv Ht Hs Htg Hb. pose proof Hg as (Hst & Hc & Hw).
  assert (ext s (s_bump (add_inst i s))) as HE.
  { transitivity (add_inst i s); [by eapply ext_add_inst|apply ext_bump]. }
  exists (s_bump (add_inst i s)). split_and!; [done| |].
  - eapply good_step; [exact Hg|..].
    + rewrite Hb. apply repr_bump. by eapply repr_inst.
    + apply HE.
    + apply (wf_add_inst i (s_bump s) P bl); try done; [by apply wf_bump|by apply fresh_next|].
      rewrite Htg. by intros x ?%elem_of_nil.
  - apply elem_inst_ids. exists i. split; [|done]. unfold defs, cur_insts. simpl. rewrite Ec. simpl.
    rewrite !elem_of_app, list_elem_of_singleton. tauto.
Qed.

Definition value_type (v : ValueCall) : Z :=
  match v with
  | load ty _ | access_chain ty _ _ | composite_extract ty _ _ | composite_construct ty _
  | vector_shuffle ty _ _ _ | ext_inst ty _ _ _ | dot ty _ _ | sampled_image ty _ _
  | image_sample_implicit_lod ty _ _ => ty
  end.

Lemma twp_bvalue P c s n v :
  good P c s -> is_Some (s_cur s) -> tavail s (value_type v) ->
  (forall x, x ∈ uses (value_inst v 0) -> avail s x) ->
  twp ext c s (bvalue n v) (post P avail).
Proof.
  intros Hg [bl Ec] Hty Hu. pose proof Hg as (Hst & Hc & Hw). pose proof Hst as (_ & _ & Hbound & _).
  destruct (value_law v (c_builder c) (length (s_done s))) as (b' & Ef & Hv).
  { rewrite <- view_selected. by eapply repr_selected. }
  rewrite Hbound in *.
  destruct (new_inst_step P c s b' (value_inst v (s_bound s)) bl) as (s' & HE & Hg' & Ha); try done; try (by destruct v).
  { split; [intros x Hx; apply Hu; by destruct v|intros t Et; assert (t = value_type v) as -> by (by destruct v; simplify_eq/=); done]. }
  eapply twp_try_bld; [exact Ef|exact HE|by split].
Qed.

Lemma operand_ids_refs ids : operand_ids (IdRef <$> ids) = ids.
Proof. induction ids as [|x ids IH]; [done|]. simpl. by f_equal. Qed.

(** Opcodes whose operands are all values and that give a result. *)
Definition plain_op (op : Opcode) : bool :=
  match op with
  | OpSelectionMerge | OpLoopMerge | OpBranch | OpBranchConditional | OpReturn | OpVariable => false
  | _ => true
  end.

Lemma plain_inst op ty r ids : plain_op op = true ->
  let i := mkInst op (Some ty) (Some r) (IdRef <$> ids) in
  uses i = ids /\ targets i = [] /\ is_var i = false /\ is_term (i_op i) = false.
Proof.
  intros Hop i. pose proof (operand_ids_refs ids) as Eo. unfold uses, targets, is_var. simpl. rewrite Eo.
  by destruct op.
Qed.

Lemma twp_raw_inst P c s op ty ids :
  good P c s -> is_Some (s_cur s) -> tavail s ty -> plain_op op = true -> Forall (avail s) ids ->
  twp ext c s (raw_inst op ty ids) (post P avail).
Proof.
  intros Hg [bl Ec] Hty Hop Hids. pose proof Hg as (Hst & Hc & Hw). pose proof Hst as (_ & _ & Hbound & _).
  destruct (id_law (c_builder c)) as (b1 & E1 & Hv1). rewrite Hbound in E1.
  destruct (plain_inst op ty (s_bound s) ids Hop) as (Hu & Htg & Hvar & Ht).
  set (i := mkInst op (Some ty) (Some (s_bound s)) (IdRef <$> ids)) in *.
  destruct (insert_law i b1 (length (s_done s))) as (b2 & E2 & Hv2).
  { rewrite <- view_selected, Hv1. simpl. by eapply repr_selected. }
  destruct (new_inst_step P c s b2 i bl) as (s' & HE & Hg' & Ha); try done.
  { split; [rewrite Hu; intros x Hx; by eapply Forall_forall in Hids|by intros t [= <-]]. }
  { by rewrite Hv2, Hv1. }
  unfold raw_inst, twp, wpk, builder_id, push_block_inst, mbind, bld, try_bld. rewrite E1. simpl. fold i. rewrite E2.
  exists s'. by split.
Qed.

Lemma twp_effect P c s n e :
  good P c s -> is_Some (s_cur s) -> (forall x, x ∈ uses (effect_inst e) -> avail s x) ->
  targets (effect_inst e) ⊆ labels (s_blocks s) ++ P ->
  twp ext c s (try_bld n (b_effect e)) (post P any).
Proof.
  intros Hg [bl Ec] Hu Ht. pose proof Hg as (Hst & Hc & Hw).
  destruct (effect_law e (c_builder c) (length (s_done s))) as (b' & Ef & Hv).
  { rewrite <- view_selected. by eapply repr_selected. }
  assert (ext s (add_inst (effect_inst e) s)) as HE by (eapply ext_add_inst; [exact Ec|by destruct e]).
  eapply twp_try_bld; [exact Ef|exact HE|]. split; [|done]. eapply good_step; [exact Hg|..].
  - rewrite Hv. by eapply repr_inst.
  - apply HE.
  - eapply wf_add_inst; try done; try (by destruct e).
Qed.

Lemma twp_bstore P c s p v :
  good P c s -> is_Some (s_cur s) -> avail s p -> avail s v -> twp ext c s (bstore p v) (post P any).
Proof.
  intros Hg Hcur Hp Hv. apply twp_effect; [done|done| |by intros x ?%elem_of_nil].
  change (uses (effect_inst (store p v))) with [p; v].
  by intros x [->|[->|?%elem_of_nil]%elem_of_cons]%elem_of_cons.
Qed.

(** Constants: a fresh id and an instruction among the globals. *)
Lemma twp_const P c s op t ops :
  good P c s -> tavail s t -> operand_ids ops = [] -> plain_op op = true ->
  twp ext c s
    (let! id := builder_id in push_global_value (mkInst op (Some t) (Some id) ops) ;;; mret id)
    (post P gavail).
Proof.
  intros Hg Ht Hops Hop. pose proof Hg as (Hst & Hc & Hw). pose proof Hst as (_ & _ & Hbound & _).
  destruct (id_law (c_builder c)) as (b1 & E1 & Hv1). rewrite Hbound in E1.
  set (i := mkInst op (Some t) (Some (s_bound s)) ops).
  assert (uses i = []) as Hu by (unfold uses; simpl; rewrite Hops; by destruct op).
  unfold twp, wpk, builder_id, push_global_value, mbind, bld. rewrite E1. simpl. fold i.
  exists (add_global i (s_bump s)). assert (ext s (add_global i (s_bump s))) as HE.
  { transitivity (s_bump s); [apply ext_bump|apply ext_add_global]. }
  split; [done|]. split.
  - apply (good_step P P c s _ (add_global i (s_bump s))); [done| |apply HE|].
    + rewrite set_module_law, <- view_module, Hv1. apply (repr_global i (bump _)). by apply repr_bump.
    + apply wf_add_global; [by apply wf_bump|by apply fresh_next|].
      split; [rewrite Hu; by intros x ?%elem_of_nil|by intros t' [= <-]].
  - apply elem_inst_ids. exists i. split; [|done]. unfold gdefs. simpl. rewrite !elem_of_app, list_elem_of_singleton. tauto.
Qed.

Lemma twp_const_op P c s t bits : good P c s -> tavail s t -> twp ext c s (const_op t bits) (post P gavail).
Proof. intros. by apply twp_const. Qed.

Lemma twp_float_const P c s v : good P c s -> twp ext c s (float_const v) (post P gavail).
Proof. intros Hg. apply twp_gets. apply twp_const_op; [done|]. apply (good_ctx P c s Hg). Qed.

Lemma twp_int_const P c s v b : good P c s -> twp ext c s (int_const v b) (post P gavail).
Proof.
  intros Hg. apply twp_gets. apply twp_const_op; [done|].
  destruct b; apply (good_ctx P c s Hg).
Qed.

Lemma twp_bool_const P c s v : good P c s -> twp ext c s (bool_const v) (post P gavail).
Proof.
  intros Hg. pose proof (good_ctx _ _ _ Hg) as Hc.
  pose proof (twp_const P c s (if v then OpConstantTrue else OpConstantFalse) (c_bool_t c) [] Hg
    (co_bool _ _ Hc) eq_refl ltac:(by destruct v)) as Hw.
  unfold twp, wpk, bool_const, mbind, builder_id, bld, gets, push_global_value in *.
  by destruct (b_id (c_builder c)).
Qed.

(** ** Automation: bind a specification and carry the facts along *)

Lemma ext_is_open s s' : ext s s' -> is_Some (s_cur s) -> is_Some (s_cur s').
Proof. by intros []. Qed.
Lemma ext_gavail s s' x : ext s s' -> gavail s x -> gavail s' x.
Proof. intros [] . by apply gext_gavail. Qed.
Lemma ext_tavail s s' x : ext s s' -> tavail s x -> tavail s' x.
Proof. intros []. by apply gext_tavail. Qed.
Lemma ext_Forall_avail s s' l : ext s s' -> Forall (avail s) l -> Forall (avail s') l.
Proof. intros HE Hl. eapply Forall_impl; [exact Hl|]. intros x. by apply ext_avail. Qed.

(** [carry E]: every fact about the state before the extension [E] becomes a
    fact about the state after it. *)
Ltac carry HE :=
  repeat match goal with
  | H : avail ?s _ |- _ => apply (ext_avail _ _ _ HE) in H
  | H : gavail ?s _ |- _ => apply (ext_gavail _ _ _ HE) in H
  | H : tavail ?s _ |- _ => apply (ext_tavail _ _ _ HE) in H
  | H : is_Some (s_cur ?s) |- _ => apply (ext_is_open _ _ HE) in H
  | H : Forall (avail ?s) _ |- _ => apply (ext_Forall_avail _ _ _ HE) in H
  end.

(** One step of a computation, by a specification. *)
Ltac enext :=
  let a := fresh "r" in let c' := fresh "c" in let s' := fresh "s" in
  let HE := fresh "HE" in let Hg := fresh "Hg" in let Ha := fresh "Ha" in
  intros a c' s' HE [Hg Ha]; cbv beta in Ha; carry HE; clear HE.
Ltac ebind lem :=
  eapply twp_bind; [exact ext_preorder|eapply lem; eauto using gavail_avail|enext].

Ltac eret := apply twp_ret; [exact ext_preorder|]; split; [eassumption|].
Ltac efail := apply twp_fail.

(** ** Types *)

Lemma twp_scalar_type_id P c s k : good P c s -> twp ext c s (scalar_type_id k) (post P tavail).
Proof.
  intros Hg. pose proof (good_ctx _ _ _ Hg) as []. exists s. split; [done|]. split; [done|]. by destruct k.
Qed.

Lemma twp_vector_type_id P c s k n : good P c s -> twp ext c s (vector_type_id k n) (post P tavail).
Proof.
  intros Hg. ebind twp_scalar_type_id. apply twp_btype; [done|].
  intros x. by intros ->%list_elem_of_singleton.
Qed.

Lemma twp_type_id P c s ty : good P c s -> twp ext c s (type_id ty) (post P tavail).
Proof.
  intros Hg. destruct ty as [|k|k n|k rows cols|name| |]; simpl type_id.
  - exists s. split; [done|]. split; [done|]. apply (good_ctx _ _ _ Hg).
  - by apply twp_scalar_type_id.
  - by apply twp_vector_type_id.
  - ebind twp_vector_type_id. apply twp_btype; [done|]. intros x. by intros ->%list_elem_of_singleton.
  - apply twp_gets, twp_ok_or. intros info Hi. eret. by apply (co_structs _ _ (good_ctx _ _ _ Hg) name).
  - efail.
  - efail.
Qed.

Lemma twp_image_type_id P c s : good P c s -> twp ext c s image_type_id (post P tavail).
Proof.
  intros Hg. apply twp_gets, twp_btype; [done|]. intros x. simpl. intros ->%list_elem_of_singleton.
  apply (good_ctx _ _ _ Hg).
Qed.

Lemma type_arg1 s tc x : uses (type_inst tc 0) = [x] -> tavail s x -> type_args_ok s tc.
Proof. intros Hu Hx y. rewrite Hu. by intros ->%list_elem_of_singleton. Qed.

Lemma type_arg0 s tc : uses (type_inst tc 0) = [] -> type_args_ok s tc.
Proof. intros Hu y. rewrite Hu. by intros ?%elem_of_nil. Qed.

Lemma twp_value_type_id P c s ty : good P c s -> twp ext c s (value_type_id ty) (post P tavail).
Proof.
  intros Hg. destruct ty; try (by apply twp_type_id).
  - ebind twp_image_type_id. eapply twp_btype; [done|]. by eapply type_arg1.
  - eapply twp_btype; [done|]. by apply type_arg0.
Qed.

(** ** Coercions, variables and broadcasts *)

Definition val_ok (s : Shape) (v : Val) : Prop := avail s (v_id v).
Definition place_ok (s : Shape) (p : Place) : Prop := avail s (pl_ptr p).

Lemma twp_coerce_scalar P c s v k :
  good P c s -> is_Some (s_cur s) -> avail s (v_id v) -> twp ext c s (coerce_scalar v k) (post P val_ok).
Proof.
  intros Hg Ho Hv. unfold coerce_scalar. case_bool_decide; [by eret|].
  ebind twp_type_id.
  destruct (match v_ty v with Ty_Scalar Sc_Int => _ | _ => _ end) as [op|] eqn:Eop; [|by eret].
  ebind twp_raw_inst.
  - destruct (v_ty v) as [|[]| | | | |], k; by simplify_eq/=.
  - by eret.
Qed.

Lemma twp_coerce P c s v t :
  good P c s -> is_Some (s_cur s) -> avail s (v_id v) -> twp ext c s (coerce v t) (post P val_ok).
Proof.
  intros Hg Ho Hv. unfold coerce. case_bool_decide; [by eret|].
  destruct (v_ty v) eqn:?; try by eret. destruct t; try by eret. by apply twp_coerce_scalar.
Qed.

Lemma twp_coerce_to_bool P c s v :
  good P c s -> is_Some (s_cur s) -> avail s (v_id v) -> twp ext c s (coerce_to_bool v) (post P avail).
Proof.
  intros Hg Ho Hv. unfold coerce_to_bool. destruct (v_ty v) as [|[]|[]| | | |]; try efail; [by eret|].
  apply twp_gets. apply twp_raw_inst; try done; [apply (good_ctx _ _ _ Hg)|by apply Forall_singleton].
Qed.

Lemma blocks_open s : is_Some (s_cur s) -> exists b bs, s_blocks s = b :: bs.
Proof. intros [b E]. rewrite (blocks_cur _ _ E). destruct (s_done s); eauto. Qed.

Lemma twp_alloc_local P c s ty :
  good P c s -> is_Some (s_cur s) -> twp ext c s (alloc_local ty) (post P gavail).
Proof.
  intros Hg Ho. unfold alloc_local. ebind twp_type_id. ebind twp_btype; [by eapply type_arg1|].
  rename c1 into c1', s1 into s1'. pose proof Hg1 as (Hst & Hc & Hw). pose proof Hst as (_ & _ & Hbound & _).
  destruct (id_law (c_builder c1')) as (b1 & E1 & Hv1). rewrite Hbound in E1.
  set (i := mkInst OpVariable (Some r0) (Some (s_bound s1')) [StorageOperand SC_Function]).
  destruct (blocks_open s1' Ho) as (b & bs & Eb).
  assert (repr (b_view b1) (s_bump s1')) as Hr1 by (rewrite Hv1; by apply repr_bump).
  destruct (repr_def _ _ Hr1) as [d Ed]; [left; change (s_blocks (s_bump s1')) with (s_blocks s1'); by rewrite Eb|].
  pose proof Hr1 as (_ & _ & _ & Hf). rewrite Ed in Hf. destruct Hf as (Hf & _).
  eapply twp_bind; [exact ext_preorder| |].
  { apply (twp_bld ext c1' s1' b_id (s_bound s1') b1 (s_bump s1') (fun a c s => a = s_bound s1' /\ c = set_builder b1 c1' /\ s = s_bump s1'));
      [exact E1|apply ext_bump|done]. }
  intros ? ? ? HE (-> & -> & ->). fold i. apply twp_gets. simpl c_builder. rewrite <- view_module, Hf. simpl.
  change (s_blocks (s_bump s1')) with (s_blocks s1'). rewrite Eb.
  eapply twp_bind; [exact ext_preorder| |].
  { eapply (twp_bld ext _ _ _ _ _ (add_var i (s_bump s1'))
      (fun _ c s => good P c s /\ gavail s (s_bound s1'))); [reflexivity|by eapply ext_add_var|].
    split.
    - eapply good_step with (s := s_bump s1').
      + split_and!; [exact Hr1|apply ctx_ok_builder, (ctx_ok_gext _ s1'); [apply ext_bump|exact Hc]|by apply wf_bump].
      + rewrite set_module_law, <- view_module. by eapply repr_front.
      + by eapply ext_add_var.
      + eapply wf_add_var; [by apply wf_bump|exact Eb|done|done|by apply fresh_next|].
        by intros t [= <-].
    - apply elem_inst_ids. exists i. split; [|done]. unfold gdefs. rewrite (blocks_add_var i (s_bump s1') b bs Eb).
      simpl. rewrite !elem_of_app, filter_cons_True by done. rewrite elem_of_cons. tauto. }
  intros ? ? ? HE' [Hg' Ha']. by eret.
Qed.

Lemma Forall_replicate_avail s n x : avail s x -> Forall (avail s) (replicate n x).
Proof. intros Hx. by apply Forall_replicate. Qed.

(** Uses of a value call, from what is known of its arguments. *)
Lemma use_elem s x l : x ∈ l -> Forall (avail s) l -> avail s x.
Proof. intros Hx Hl. by eapply Forall_forall in Hl. Qed.

Lemma uses_literals ls : operand_ids (LiteralBit32 <$> ls) = [].
Proof. by induction ls. Qed.

Lemma twp_value_refs P c s n v ids :
  uses (value_inst v 0) = ids -> good P c s -> is_Some (s_cur s) -> tavail s (value_type v) ->
  Forall (avail s) ids -> twp ext c s (bvalue n v) (post P avail).
Proof.
  intros Hu Hg Ho Ht Hids. apply twp_bvalue; try done. rewrite Hu. intros x Hx. by eapply use_elem.
Qed.

Lemma twp_composite_construct P c s n ty ids :
  good P c s -> is_Some (s_cur s) -> tavail s ty -> Forall (avail s) ids ->
  twp ext c s (bvalue n (composite_construct ty ids)) (post P avail).
Proof. intros. apply (twp_value_refs P c s n _ ids); [apply operand_ids_refs|done..]. Qed.

Lemma twp_access_chain P c s n ty base idx :
  good P c s -> is_Some (s_cur s) -> tavail s ty -> Forall (avail s) (base :: idx) ->
  twp ext c s (bvalue n (access_chain ty base idx)) (post P avail).
Proof. intros. apply (twp_value_refs P c s n _ (base :: idx)); [apply operand_ids_refs|done..]. Qed.

Lemma twp_ext_inst P c s n ty set op ids :
  good P c s -> is_Some (s_cur s) -> tavail s ty -> Forall (avail s) (set :: ids) ->
  twp ext c s (bvalue n (ext_inst ty set op ids)) (post P avail).
Proof.
  intros. apply (twp_value_refs P c s n _ (set :: ids)); [|done..]. unfold uses. simpl. by rewrite operand_ids_refs.
Qed.

Lemma twp_bload P c s ty p :
  good P c s -> is_Some (s_cur s) -> tavail s ty -> avail s p -> twp ext c s (bload ty p) (post P avail).
Proof. intros. apply (twp_value_refs P c s _ _ [p]); [done..|]. by apply Forall_singleton. Qed.

Lemma twp_broadcast_const P c s x ty :
  good P c s -> is_Some (s_cur s) -> avail s x -> twp ext c s (broadcast_const x ty) (post P avail).
Proof.
  intros Hg Ho Hx. destruct ty; simpl; try efail; [by eret|].
  ebind twp_vector_type_id. apply twp_composite_construct; try done. by apply Forall_replicate_avail.
Qed.

(** ** Places *)

Lemma find_local_ok P c s n p : good P c s -> find_local n c = Some p -> gavail s (pl_ptr p).
Proof.
  intros Hg. unfold find_local. destruct (head _) as [[n' p']|] eqn:E; [|done]. intros [= <-].
  apply head_Some_elem_of, list_elem_of_filter in E as [_ E%list_elem_of_In%in_rev%list_elem_of_In].
  pose proof (co_locals _ _ (good_ctx _ _ _ Hg)) as Hl.
  eapply Forall_forall in Hl; [|exact E]. exact Hl.
Qed.

Lemma twp_emit_place_ident P c s n :
  good P c s -> is_Some (s_cur s) -> twp ext c s (emit_place_ident n) (post P place_ok).
Proof.
  intros Hg Ho. unfold emit_place_ident. apply twp_mget.
  destruct (find_local n c) as [p|] eqn:El.
  { eret. by eapply gavail_avail, find_local_ok. }
  destruct (c_cbuffer_members c !! n) as [[v i]|] eqn:Em.
  - destruct (co_members _ _ (good_ctx _ _ _ Hg) n _ Em) as [Hv Hi]. simpl in *.
    apply twp_ok_or. intros ty _. ebind twp_type_id. ebind twp_btype; [by eapply type_arg1|].
    ebind twp_access_chain. by eret.
  - destruct (c_globals c !! n) as [p|] eqn:Ep; simpl; [|efail].
    eret. apply gavail_avail, (co_globals _ _ (good_ctx _ _ _ Hg) n _ Ep).
Qed.

Lemma twp_emit_place P e : forall c s,
  good P c s -> is_Some (s_cur s) -> twp ext c s (emit_place e) (post P place_ok).
Proof.
  induction e as [| n | | | |base IH member| | |]; intros c s Hg Ho; simpl; try efail.
  - by apply twp_emit_place_ident.
  - eapply twp_bind; [exact ext_preorder|by apply IH|enext]. unfold place_ok in Ha.
    destruct (pl_ty r) as [| | | |name| |]; try efail.
    apply twp_gets, twp_ok_or. intros info Hi. apply twp_ok_or. intros im Him.
    ebind twp_int_const. ebind twp_type_id. ebind twp_btype; [by eapply type_arg1|].
    ebind twp_access_chain. by eret.
Qed.

(** ** Expressions *)

(** The calls whose type is inferred have the arguments the inference reads. *)
Definition call_ok (name : string) (args : list Expr) : bool :=
  if String.eqb name "mul" then (2 <=? length args)%nat
  else if String.eqb name "dot" || infer_first_arg name then (1 <=? length args)%nat
  else true.

Fixpoint calls_ok (e : Expr) : bool :=
  match e with
  | E_Literal _ | E_Ident _ => true
  | E_Construct _ args => forallb calls_ok args
  | E_Call name args => call_ok name args && forallb calls_ok args
  | E_MethodCall base _ args => calls_ok base && forallb calls_ok args
  | E_Member base _ => calls_ok base
  | E_Binary _ l r => calls_ok l && calls_ok r
  | E_Unary _ e => calls_ok e
  | E_Cast _ e => calls_ok e
  end.

Lemma obind_stops {A C} (m : outcome CodegenError A) (f : A -> outcome CodegenError C) :
  (m <> Panic /\ m <> NoFuel) -> (forall a, f a <> Panic /\ f a <> NoFuel) ->
  obind m f <> Panic /\ obind m f <> NoFuel.
Proof. intros [] Hf. by destruct m; simpl. Qed.

Lemma infer_type_stops (c : Ctx (B := B)) e :
  calls_ok e = true -> infer_type c e <> Panic /\ infer_type c e <> NoFuel.
Proof.
  induction e as [[]|n|ty args _|n args IH|b m args IHb IH|b m IH|op l r IHl IHr|op e IH|ty e IH]
    using Expr_list_ind; simpl; intros Hok; auto; try done.
  - destruct (find_local n c); [done|]. by destruct (c_globals c !! n).
  - apply andb_prop in Hok as [Hn Hargs]. unfold call_ok in Hn.
    assert (forall i a, args !! i = Some a -> infer_type c a <> Panic /\ infer_type c a <> NoFuel) as Harg.
    { intros i a Ha. apply list_elem_of_lookup_2 in Ha. eapply Forall_forall in IH; [|done]. apply IH.
      rewrite forallb_forall in Hargs. by apply Hargs, list_elem_of_In. }
    destruct (String.eqb_spec n "mul") as [->|_]; simpl.
    + destruct args as [|a [|b args]]; try done. simpl.
      apply obind_stops; [by apply (Harg 0)|]. intros ta. apply obind_stops; [by apply (Harg 1)|].
      intros tb. by destruct ta, tb.
    + destruct (String.eqb n "dot"); simpl in *.
      * destruct args as [|a args]; [done|]. apply obind_stops; [by apply (Harg 0)|]. by intros [].
      * destruct (String.eqb n "length"); [done|]. destruct (infer_first_arg n); [|done].
        destruct args as [|a args]; [done|]. by apply (Harg 0).
  - by destruct (String.eqb m "Sample").
  - apply obind_stops; [by apply IH|]. intros [| |k d| |name| |]; try done.
    + by destruct (decode_swizzle m).
    + destruct (c_structs c !! name) as [info|]; [|done]. by destruct (find_member m 0 (si_members info)).
  - apply andb_prop in Hok as [Hl Hr]. destruct (is_comparison op).
    + apply obind_stops; [by apply IHl|]. by intros [].
    + assert (infer_type c l <> Panic /\ infer_type c l <> NoFuel) as Hl' by auto.
      destruct op; try done; apply obind_stops; auto; intros t; destruct (is_composite t); auto; done.
Qed.

Definition expr_spec (P : list Z) (e : Expr) : Prop :=
  (calls_ok e = false -> K) ->
  forall c s, good P c s -> is_Some (s_cur s) -> twp ext c s (emit_expr e) (post P val_ok).

Definition vals_ok (s : Shape) (vs : list Val) : Prop := Forall (avail s) (v_id <$> vs).

Lemma twp_emit_args P es :
  Forall (expr_spec P) es -> (forallb calls_ok es = false -> K) ->
  forall c s, good P c s -> is_Some (s_cur s) -> twp ext c s (m_list emit_expr es) (post P vals_ok).
Proof.
  induction es as [|e es IH]; intros Hes HK c s Hg Ho; simpl.
  - eret. constructor.
  - apply Forall_cons in Hes as [He Hes]. simpl in HK.
    eapply twp_bind; [exact ext_preorder|apply He; [|done..]|enext].
    { intros E. apply HK. by rewrite E. }
    unfold val_ok in Ha. eapply twp_bind; [exact ext_preorder|apply IH; [done| |done..]|].
    { intros E. apply HK. by rewrite E, andb_false_r. }
    intros vs c2 s2 HE [Hg2 Hvs]. carry HE. eret. by constructor.
Qed.

Lemma twp_result P c s op tid ids ty :
  good P c s -> is_Some (s_cur s) -> tavail s tid -> plain_op op = true -> Forall (avail s) ids ->
  twp ext c s (let! id := raw_inst op tid ids in mret (mkVal id ty)) (post P val_ok).
Proof. intros. ebind twp_raw_inst. by eret. Qed.

Lemma twp_emit_arith P c s op li lt ri rt :
  good P c s -> is_Some (s_cur s) -> avail s li -> avail s ri ->
  twp ext c s (emit_arith op li lt ri rt) (post P val_ok).
Proof.
  intros Hg Ho Hl Hr. unfold emit_arith. ebind twp_type_id. apply twp_ok_or. intros o Eo.
  apply twp_result; auto.
  unfold arith_op in Eo. destruct op, (if is_composite lt then lt else rt) as [|[]|[]| | | |]; by simplify_eq/=.
Qed.

Lemma twp_emit_comparison P c s op l r :
  good P c s -> is_Some (s_cur s) -> avail s (v_id l) -> avail s (v_id r) ->
  twp ext c s (emit_comparison op l r) (post P val_ok).
Proof.
  intros Hg Ho Hl Hr. unfold emit_comparison. ebind twp_type_id. apply twp_ok_or. intros o Eo.
  apply twp_result; auto. destruct op, (is_float_ty (v_ty l)); by simplify_eq/=.
Qed.

Lemma twp_emit_logical P c s op l r :
  op = Op_And \/ op = Op_Or ->
  good P c s -> is_Some (s_cur s) -> avail s (v_id l) -> avail s (v_id r) ->
  twp ext c s (emit_logical op l r) (post P val_ok).
Proof.
  intros Hop Hg Ho Hl Hr. unfold emit_logical. ebind twp_type_id.
  destruct Hop as [-> | ->]; apply twp_result; auto.
Qed.

Lemma twp_emit_swizzle P c s v m k :
  good P c s -> is_Some (s_cur s) -> avail s (v_id v) -> twp ext c s (emit_swizzle v m k) (post P val_ok).
Proof.
  intros Hg Ho Hv. unfold emit_swizzle. apply twp_ok_or. intros comps _. ebind twp_type_id.
  assert (twp ext c0 s0 (let! id := bvalue "vector_shuffle" (vector_shuffle r (v_id v) (v_id v) comps) in
    mret (mkVal id (Ty_Vector k (Z.of_nat (length comps))))) (post P val_ok)) as Hsh.
  { ebind (twp_value_refs P c0 s0 "vector_shuffle" (vector_shuffle r (v_id v) (v_id v) comps) [v_id v; v_id v]).
    - unfold uses. simpl. by rewrite uses_literals.
    - by eret. }
  destruct comps as [|x [|y comps]]; try exact Hsh. clear Hsh.
  ebind twp_scalar_type_id.
  ebind (twp_value_refs P c1 s1 "composite_extract" (composite_extract r0 (v_id v) [x]) [v_id v]). by eret.
Qed.

Lemma twp_clamp P c s v lo hi :
  good P c s -> is_Some (s_cur s) -> avail s (v_id v) -> avail s lo -> avail s hi ->
  twp ext c s (glsl_unarylike_or_clamp v lo hi) (post P val_ok).
Proof.
  intros Hg Ho Hv Hlo Hhi. unfold glsl_unarylike_or_clamp.
  ebind twp_type_id. ebind twp_broadcast_const. ebind twp_broadcast_const. apply twp_gets.
  ebind twp_ext_inst; [constructor; [|by auto]|by eret].
  apply gavail_avail, (co_glsl _ _ (good_ctx _ _ _ Hg2)).
Qed.

Lemma twp_ident P n : expr_spec P (E_Ident n).
Proof.
  intros _ c s Hg Ho. simpl. ebind twp_emit_place_ident. unfold place_ok in Ha.
  ebind twp_value_type_id. ebind twp_bload. by eret.
Qed.

Lemma twp_construct P ty args : Forall (expr_spec P) args -> expr_spec P (E_Construct ty args).
Proof.
  intros Hargs HK c s Hg Ho. simpl in *.
  assert (forall a, args = [a] -> forall c s, good P c s -> is_Some (s_cur s) ->
    twp ext c s (emit_expr a) (post P val_ok)) as Hone.
  { intros a ->. apply Forall_cons in Hargs as [Ha _]. apply Ha. intros E. apply HK. simpl. by rewrite E. }
  assert (forall k, twp ext c s (match args with
    | [arg] => let! v := emit_expr arg in coerce_scalar v k | _ => mfail (CE_scalar_args ty) end) (post P val_ok)) as Hsc.
  { intros k. destruct args as [|a [|]]; try efail.
    eapply twp_bind; [exact ext_preorder|by apply Hone|enext]. by apply twp_coerce_scalar. }
  destruct ty as [|k|k n|k rows cols|name| |]; simpl; try efail.
  - destruct k; try apply Hsc. destruct args as [|a [|]]; try efail. by apply Hone.
  - ebind twp_vector_type_id.
    assert (twp ext c0 s0 (let! vs := m_list emit_expr args in
      let! id := bvalue "composite_construct" (composite_construct r (v_id <$> vs)) in
      mret (mkVal id (Ty_Vector k n))) (post P val_ok)) as Hall.
    { eapply twp_bind; [exact ext_preorder|by apply twp_emit_args|enext]. ebind twp_composite_construct. by eret. }
    destruct args as [|a [|]]; try exact Hall. clear Hall Hsc.
    eapply twp_bind; [exact ext_preorder|by apply Hone|enext]. unfold val_ok in Ha0.
    destruct (v_ty r0); try efail.
    ebind (twp_ret ext c1 s1 (v_id r0) (post P avail)); [by split|].
    ebind twp_composite_construct; [by apply Forall_replicate_avail|]. by eret.
Qed.

(** Bind a subexpression by its induction hypothesis. *)
Ltac esub IH :=
  eapply twp_bind; [exact ext_preorder|apply IH; [|eassumption|eassumption]|enext; unfold val_ok, vals_ok in *].

Lemma twp_binary P op l r : expr_spec P l -> expr_spec P r -> expr_spec P (E_Binary op l r).
Proof.
  intros IHl IHr HK c s Hg Ho. simpl in HK.
  assert (calls_ok l = false -> K) as HKl by (intros E; apply HK; by rewrite E).
  assert (calls_ok r = false -> K) as HKr by (intros E; apply HK; by rewrite E, andb_false_r).
  assert (forall core, twp ext c s (let! place := emit_place l in
      let! ty_id := type_id (pl_ty place) in
      let! cur := bload ty_id (pl_ptr place) in
      let! rhs_val := emit_expr r in
      let! result := emit_arith core cur (pl_ty place) (v_id rhs_val) (v_ty rhs_val) in
      bstore (pl_ptr place) (v_id result) ;;; mret result) (post P val_ok)) as Hcompound.
  { intros core. ebind twp_emit_place. unfold place_ok in Ha. ebind twp_type_id. ebind twp_bload. esub IHr; [done|].
    ebind twp_emit_arith. unfold val_ok in *. ebind twp_bstore. by eret. }
  assert (forall f, (forall lv rv c s, good P c s -> is_Some (s_cur s) -> avail s (v_id lv) -> avail s (v_id rv) ->
      twp ext c s (f lv rv) (post P val_ok)) ->
    twp ext c s (let! lhs_val := emit_expr l in let! rhs_val := emit_expr r in f lhs_val rhs_val) (post P val_ok)) as Hplain.
  { intros f Hf. esub IHl; [done|]. esub IHr; [done|]. by apply Hf. }
  destruct op; try apply Hcompound; try (apply Hplain; intros; simpl;
    first [by apply twp_emit_arith|by apply twp_emit_comparison|apply twp_emit_logical; auto]).
  simpl. ebind twp_emit_place. unfold place_ok in Ha. esub IHr; [done|]. ebind twp_coerce. unfold val_ok in *.
  ebind twp_bstore. by eret.
Qed.

Lemma twp_unary P op e : expr_spec P e -> expr_spec P (E_Unary op e).
Proof.
  intros IH HK c s Hg Ho. simpl in *. unfold emit_unary. esub IH; [done|]. ebind twp_type_id.
  apply twp_ok_or. intros o Eo. apply twp_result; auto.
  destruct op, (v_ty r) as [|[]|[]| | | |]; by simplify_eq/=.
Qed.

Lemma twp_cast P ty e : expr_spec P e -> expr_spec P (E_Cast ty e).
Proof.
  intros IH HK c s Hg Ho. simpl in *. unfold emit_cast. esub IH; [done|]. ebind twp_type_id.
  destruct (cast_op (v_ty r) ty) as [op|] eqn:Eop.
  - apply twp_result; auto. destruct (v_ty r) as [|[]| | | | |], ty as [|[]| | | | |]; by simplify_eq/=.
  - case_bool_decide; [by eret|efail].
Qed.

Lemma twp_mul P args : Forall (expr_spec P) args -> (forallb calls_ok args = false -> K) ->
  forall c s, good P c s -> is_Some (s_cur s) -> twp ext c s (emit_mul emit_expr args) (post P val_ok).
Proof.
  intros IH HK c s Hg Ho. destruct args as [|x [|y [|]]]; try efail. simpl in *.
  apply Forall_cons in IH as [IHx IH]. apply Forall_cons in IH as [IHy _].
  esub IHx; [intros E; apply HK; by rewrite E|]. esub IHy; [intros E; apply HK; by rewrite E, andb_false_r|].
  assert (forall o ty, plain_op o = true ->
    twp ext c1 s1 (let! result_ty_id := type_id ty in let! id := raw_inst o result_ty_id [v_id r; v_id r0] in
      mret (mkVal id ty)) (post P val_ok)) as Hraw.
  { intros o ty Hop. ebind twp_type_id. apply twp_result; auto. }
  destruct (v_ty r) as [| | |k rr cc| | |] eqn:Er, (v_ty r0) as [| | |k' rr' cc'| | |] eqn:Er0; simpl;
    try (by apply twp_emit_arith);
    try case_bool_decide; try efail; by apply Hraw.
Qed.

Lemma vals_last s vs : vals_ok s vs -> Forall (avail s) (v_id <$> vs).
Proof. done. Qed.

Lemma twp_ext_call P n args : Forall (expr_spec P) args -> (forallb calls_ok args = false -> K) ->
  forall c s, good P c s -> is_Some (s_cur s) -> twp ext c s (emit_ext_call emit_expr n args) (post P val_ok).
Proof.
  intros IH HK c s Hg Ho. unfold emit_ext_call. apply twp_ok_or. intros [op arity] _.
  destruct (_ =? _)%nat; [|efail].
  eapply twp_bind; [exact ext_preorder|by apply twp_emit_args|enext]. unfold vals_ok in Ha. ebind twp_type_id. apply twp_gets.
  ebind twp_ext_inst; [constructor; [|done]|by eret].
  apply gavail_avail, (co_glsl _ _ (good_ctx _ _ _ Hg1)).
Qed.

Lemma twp_call P n args : Forall (expr_spec P) args -> expr_spec P (E_Call n args).
Proof.
  intros IH HK0 c s Hg Ho. simpl in *.
  assert (forallb calls_ok args = false -> K) as HK by (intros E; apply HK0; by rewrite E, andb_false_r).
  assert (twp ext c s (if String.eqb n "mul" then emit_mul emit_expr args else emit_ext_call emit_expr n args)
    (post P val_ok)) as Hrest.
  { destruct (String.eqb n "mul"); [by apply twp_mul|by apply twp_ext_call]. }
  unfold emit_call. destruct (String.eqb n "saturate") eqn:Es.
  - apply String.eqb_eq in Es as ->. destruct args as [|x [|]]; try exact Hrest.
    apply Forall_cons in IH as [IHx _]. esub IHx; [intros E; apply HK; simpl; by rewrite E|].
    ebind twp_float_const. ebind twp_float_const. by apply twp_clamp; auto using gavail_avail.
  - destruct (String.eqb n "dot"); [|exact Hrest]. destruct args as [|x [|y [|]]]; try exact Hrest.
    apply Forall_cons in IH as [IHx IH]. apply Forall_cons in IH as [IHy _]. simpl in HK.
    esub IHx; [intros E; apply HK; by rewrite E|]. esub IHy; [intros E; apply HK; by rewrite E, andb_false_r|].
    ebind twp_type_id.
    ebind (twp_value_refs P c2 s2 "dot" (dot r1 (v_id r) (v_id r0)) [v_id r; v_id r0]). by eret.
Qed.

Lemma twp_method_call P b m args :
  Forall (expr_spec P) args -> expr_spec P (E_MethodCall b m args).
Proof.
  intros IH HK c s Hg Ho. simpl in *. unfold emit_method_call.
  destruct (String.eqb m "Sample"); [|efail]. destruct args as [|x [|y [|]]]; try efail.
  apply Forall_cons in IH as [IHx IH]. apply Forall_cons in IH as [IHy _]. simpl in HK.
  ebind twp_emit_place. unfold place_ok in Ha. ebind twp_image_type_id. ebind twp_btype; [by eapply type_arg1|].
  ebind twp_bload.
  esub IHx; [intros E; apply HK; by rewrite E, andb_false_r|].
  esub IHy; [intros E; apply HK; by rewrite E, !andb_false_r|].
  ebind (twp_value_refs P c5 s5 "sampled_image" (sampled_image r1 r2 (v_id r3)) [r2; v_id r3]).
  ebind twp_type_id.
  ebind (twp_value_refs P c7 s7 "image_sample_implicit_lod" (image_sample_implicit_lod r6 r5 (v_id r4)) [r5; v_id r4]).
  by eret.
Qed.

Lemma obind_fuel {A C} (m : outcome CodegenError A) (f : A -> outcome CodegenError C) :
  m <> NoFuel -> (forall a, f a <> NoFuel) -> obind m f <> NoFuel.
Proof. intros ? Hf. by destruct m; simpl. Qed.

Lemma infer_type_fuel (c : Ctx (B := B)) e : infer_type c e <> NoFuel.
Proof.
  induction e as [[]|n|ty args _|n args IH|b m args IHb IH|b m IH|op l r IHl IHr|op e IH|ty e IH]
    using Expr_list_ind; simpl; auto; try done.
  - destruct (find_local n c); [done|]. by destruct (c_globals c !! n).
  - assert ((match args with a :: _ => infer_type c a | [] => Panic end) <> NoFuel) as H0.
    { destruct IH; [done|]. done. }
    destruct (String.eqb n "dot"); [apply obind_fuel; [done|by intros []]|].
    destruct (String.eqb n "length"); [done|]. destruct (infer_first_arg n); [done|].
    destruct (String.eqb n "mul"); [|done]. apply obind_fuel; [done|]. intros ta.
    apply obind_fuel; [|by destruct ta; intros []].
    destruct IH as [|x xs _ Hxs]; [done|]. by destruct Hxs.
  - by destruct (String.eqb m "Sample").
  - apply obind_fuel; [done|]. intros [| |k d| |name| |]; try done; [by destruct (decode_swizzle m)|].
    destruct (c_structs c !! name) as [info|]; [|done]. by destruct (find_member m 0 (si_members info)).
  - destruct (is_comparison op); [apply obind_fuel; [done|by intros []]|].
    destruct op; try done; apply obind_fuel; auto; intros t; by destruct (is_composite t).
Qed.

Lemma twp_member P b m : expr_spec P b -> expr_spec P (E_Member b m).
Proof.
  intros IH HK c s Hg Ho. simpl emit_expr. simpl in HK. unfold emit_member. apply twp_mget.
  eapply (twp_bind ext _ _ _ _ (fun t c' s' => c' = c /\ s' = s)).
  - unfold twp. apply wp_lift.
    + intros t _. by exists s.
    + intros E. destruct (calls_ok b) eqn:Eb; [|by apply HK]. by destruct (infer_type_stops c b Eb).
    + apply infer_type_fuel.
  - intros t ? ? _ (-> & ->). destruct t; try efail.
    + esub IH; [done|]. by apply twp_emit_swizzle.
    + ebind twp_emit_place. unfold place_ok in Ha. ebind twp_type_id. ebind twp_bload. by eret.
Qed.

(** Every expression: the invariant holds, the definitions of the block grow,
    and the value returned is available in it. *)
Lemma twp_emit_expr P e : expr_spec P e.
Proof.
  induction e as [l|n|ty args IH|n args IH|b m args IHb IH|b m IH|op l r IHl IHr|op e IH|ty e IH]
    using Expr_list_ind.
  - intros _ c s Hg Ho. destruct l; simpl.
    + ebind twp_int_const. eret. by apply gavail_avail.
    + ebind twp_int_const. eret. by apply gavail_avail.
    + ebind twp_float_const. eret. by apply gavail_avail.
    + ebind twp_bool_const. eret. by apply gavail_avail.
  - apply twp_ident.
  - by apply twp_construct.
  - by apply twp_call.
  - by apply twp_method_call.
  - by apply twp_member.
  - by apply twp_binary.
  - by apply twp_unary.
  - by apply twp_cast.
Qed.

(** ** Statements *)

Fixpoint stmt_ok (s : Stmt) : bool :=
  let oexpr := from_option calls_ok true in
  match s with
  | S_Return e => oexpr e
  | S_VarDecl d => oexpr (vd_init d)
  | S_Expr e => calls_ok e
  | S_If c t e => calls_ok c && forallb stmt_ok t && from_option (forallb stmt_ok) true e
  | S_For i c u b => from_option stmt_ok true i && oexpr c && oexpr u && forallb stmt_ok b
  | S_Block b => forallb stmt_ok b
  end.

Definition stmt_spec (st : Stmt) : Prop :=
  (stmt_ok st = false -> K) ->
  forall P c s, good P c s -> is_Some (s_cur s) -> twp gext c s (emit_stmt st) (post P any).

Lemma not_ok_l (a b : bool) : (a && b = false -> K) -> a = false -> K.
Proof. intros H ->. by apply H. Qed.
Lemma not_ok_r (a b : bool) : (a && b = false -> K) -> b = false -> K.
Proof. intros H ->. apply H. by rewrite andb_false_r. Qed.

Lemma twp_terminated {A} P c s (f : bool -> G A) R :
  good P c s -> twp gext c s (f (bool_decide (s_cur s = None))) R -> twp gext c s (mbind is_terminated f) R.
Proof.
  intros (Hst & _ & _) Hf. unfold is_terminated. apply twp_gets. rewrite <- view_selected.
  destruct (s_cur s) as [b|] eqn:E; [rewrite (repr_selected _ _ _ Hst E)|rewrite (repr_unselected _ _ Hst E)]; exact Hf.
Qed.

(** A new label, promised. *)
Lemma twp_promise P c s : good P c s ->
  twp gext c s builder_id (fun n c' s' => good (n :: P) c' s' /\ ext s s').
Proof.
  intros Hg. pose proof Hg as (Hst & Hc & Hw). destruct (id_law (c_builder c)) as (b1 & E1 & Hv1).
  pose proof Hst as (_ & _ & Hbound & _). rewrite Hbound in E1.
  eapply (twp_bld gext _ _ _ _ _ (s_bump s)); [exact E1|apply ext_bump|]. split; [|apply ext_bump].
  apply (good_step P (s_bound s :: P) c s b1 (s_bump s)); [done| |apply ext_bump|by apply wf_promise].
  rewrite Hv1. by apply repr_bump.
Qed.

Lemma twp_terminate P c s n t :
  good P c s -> is_Some (s_cur s) -> (forall x, x ∈ uses (term_inst t) -> avail s x) ->
  targets (term_inst t) ⊆ labels (s_blocks s) ++ P ->
  twp gext c s (try_bld n (b_terminate t)) (fun _ c' s' => good P c' s' /\ s_cur s' = None /\ s_blocks s' <> []).
Proof.
  intros Hg [bl Ec] Hu Ht. pose proof Hg as (Hst & Hc & Hw).
  destruct (terminate_law t (c_builder c) (length (s_done s))) as (b' & Ef & Hv).
  { rewrite <- view_selected. by eapply repr_selected. }
  assert (gext s (finish (term_inst t) s)) as HE by (eapply gext_finish; [exact Ec|by destruct t]).
  eapply twp_try_bld; [exact Ef|exact HE|]. split; [|split; [done|]].
  - eapply good_step; [exact Hg| |exact HE|].
    + rewrite Hv. by eapply repr_finish.
    + eapply wf_finish; try done; by destruct t.
  - apply HE. rewrite (blocks_cur _ _ Ec). by destruct (s_done s).
Qed.

Lemma twp_branch P c s l :
  good P c s -> is_Some (s_cur s) -> l ∈ labels (s_blocks s) ++ P ->
  twp gext c s (bbranch l) (fun _ c' s' => good P c' s' /\ s_cur s' = None /\ s_blocks s' <> []).
Proof.
  intros Hg Ho Hl. apply twp_terminate; [done|done|by intros x ?%elem_of_nil|].
  by intros x ->%list_elem_of_singleton.
Qed.

Lemma twp_branch_conditional P c s x t e :
  good P c s -> is_Some (s_cur s) -> avail s x -> t ∈ P -> e ∈ P ->
  twp gext c s (bbranch_conditional x t e) (fun _ c' s' => good P c' s' /\ s_cur s' = None /\ s_blocks s' <> []).
Proof.
  intros Hg Ho Hx Ht He. apply twp_terminate; [done|done|by intros y ->%list_elem_of_singleton|].
  change (targets (term_inst (branch_conditional x t e))) with [t; e].
  intros y [->|[->|?%elem_of_nil]%elem_of_cons]%elem_of_cons; [| |done]; apply elem_of_app; by right.
Qed.

Lemma twp_ret_inst P c s :
  good P c s -> is_Some (s_cur s) ->
  twp gext c s bret (fun _ c' s' => good P c' s' /\ s_cur s' = None /\ s_blocks s' <> []).
Proof. intros Hg Ho. by apply twp_terminate; [done|done|intros x ?%elem_of_nil..]. Qed.

(** A promised block begins. *)
Lemma twp_begin_block P c s l :
  good (l :: P) c s -> s_cur s = None -> s_blocks s <> [] ->
  twp gext c s (begin_block (Some l)) (fun _ c' s' => good P c' s' /\ is_Some (s_cur s') /\ l ∈ labels (s_blocks s')).
Proof.
  intros Hg Ec Hne. pose proof Hg as (Hst & Hc & Hw). destruct (repr_def _ _ Hst (or_introl Hne)) as [d Ed].
  destruct (begin_block_law (Some l) (c_builder c)) as (b' & Ef & Hv).
  { destruct Hst as (_ & _ & _ & Hf). rewrite Ed in Hf. by destruct Hf as (_ & -> & _). }
  { rewrite <- view_selected. by eapply repr_unselected. }
  pose proof (gext_start_block l s Ec) as HE.
  eapply twp_try_bld; [exact Ef|exact HE|]. split; [|split; [by eexists|]].
  - eapply good_step; [exact Hg| |exact HE|by apply wf_start_block].
    rewrite Hv, <- view_module. by eapply repr_start_block.
  - unfold s_blocks, labels. rewrite fmap_app. simpl. apply elem_of_app. right. left.
Qed.

Lemma gext_nonempty s s' : gext s s' -> is_Some (s_cur s) -> s_blocks s' <> [].
Proof. intros HE [b E]. apply HE. rewrite (blocks_cur _ _ E). by destruct (s_done s). Qed.

Lemma twp_keep {A} P c s (m : G A) Q :
  twp ext c s m (post P Q) -> twp gext c s m (fun a c' s' => good P c' s' /\ ext s s' /\ Q s' a).
Proof. intros H. eapply wp_mono; [exact H|]. intros a c' (s' & HE & Hg & HQ). exists s'. split; [apply HE|done]. Qed.

(** Bind at the level of statements. *)
Ltac sbind lem := eapply twp_bind; [exact gext_preorder|lem|].

Lemma twp_emit_block b : Forall stmt_spec b -> (forallb stmt_ok b = false -> K) ->
  forall P c s, good P c s -> is_Some (s_cur s) -> twp gext c s (emit_block emit_stmt b) (post P any).
Proof.
  induction b as [|x b IH]; intros Hb HK P c s Hg Ho; simpl.
  - by apply twp_ret; [exact gext_preorder|].
  - apply Forall_cons in Hb as [Hx Hb]. simpl in HK.
    sbind ltac:(apply Hx; [by eapply not_ok_l|done|done]). intros _ c1 s1 _ [Hg1 _].
    eapply twp_terminated; [done|]. case_bool_decide as Ec.
    + by apply twp_ret; [exact gext_preorder|].
    + apply IH; [done|by eapply not_ok_r|done|]. by destruct (s_cur s1).
Qed.

Lemma twp_jump P c s l :
  good P c s -> s_blocks s <> [] -> l ∈ P ->
  twp gext c s (jump_unless_terminated l) (fun _ c' s' => good P c' s' /\ s_cur s' = None /\ s_blocks s' <> []).
Proof.
  intros Hg Hne Hl. unfold jump_unless_terminated. eapply twp_terminated; [done|]. case_bool_decide as Ec.
  - by apply twp_ret; [exact gext_preorder|].
  - apply twp_branch; [done|by destruct (s_cur s)|]. apply elem_of_app. by right.
Qed.

Lemma good_perm P P' c s : P ≡ₚ P' -> good P c s -> good P' c s.
Proof. intros E (? & ? & ?). split_and!; try done. by eapply wf_perm. Qed.

(** A promised block with a body that then jumps to another promised block. *)
Lemma twp_arm P c s l m b :
  Forall stmt_spec b -> (forallb stmt_ok b = false -> K) ->
  good (l :: P) c s -> s_cur s = None -> s_blocks s <> [] -> m ∈ P ->
  twp gext c s (begin_block (Some l) ;;; emit_block emit_stmt b ;;; jump_unless_terminated m)
    (fun _ c' s' => good P c' s' /\ s_cur s' = None /\ s_blocks s' <> []).
Proof.
  intros Hb HK Hg Ec Hne Hm.
  sbind ltac:(by apply twp_begin_block). intros _ c1 s1 HE1 (Hg1 & Ho1 & Hl1).
  sbind ltac:(by apply twp_emit_block). intros _ c2 s2 HE2 [Hg2 _].
  apply twp_jump; [done|by eapply gext_nonempty|done].
Qed.

Lemma twp_arm_then {A} P c s l m b (k : G A) R :
  Forall stmt_spec b -> (forallb stmt_ok b = false -> K) ->
  good (l :: P) c s -> s_cur s = None -> s_blocks s <> [] -> m ∈ P ->
  (forall c' s', gext s s' -> good P c' s' -> s_cur s' = None -> s_blocks s' <> [] -> twp gext c' s' k R) ->
  twp gext c s (begin_block (Some l) ;;; emit_block emit_stmt b ;;; jump_unless_terminated m ;;; k) R.
Proof.
  intros Hb HK Hg Ec Hne Hm Hk.
  sbind ltac:(by apply twp_begin_block). intros _ c1 s1 HE1 (Hg1 & Ho1 & Hl1).
  sbind ltac:(by apply twp_emit_block). intros _ c2 s2 HE2 [Hg2 _].
  sbind ltac:(by apply twp_jump; [|by eapply gext_nonempty|]). intros _ c3 s3 HE3 (Hg3 & Hc3 & Hne3).
  apply Hk; try done. transitivity s1; [done|]. by transitivity s2.
Qed.

Lemma twp_expr P c s e : (calls_ok e = false -> K) -> good P c s -> is_Some (s_cur s) ->
  twp gext c s (emit_expr e) (fun v c' s' => good P c' s' /\ is_Some (s_cur s') /\ avail s' (v_id v)).
Proof.
  intros HK Hg Ho. pose proof (twp_emit_expr P e HK c s Hg Ho) as H. unfold twp in *.
  eapply wp_mono; [exact H|]. intros v c' (s' & HE & Hg' & Hv). exists s'. split; [apply HE|].
  split_and!; [done|by eapply ext_is_open|done].
Qed.

(** A condition: an expression and its coercion to a boolean. *)
Lemma twp_cond {A} P c s e (k : Z -> G A) R :
  (calls_ok e = false -> K) -> good P c s -> is_Some (s_cur s) ->
  (forall x c' s', gext s s' -> good P c' s' -> is_Some (s_cur s') -> avail s' x -> twp gext c' s' (k x) R) ->
  twp gext c s (let! v := emit_expr e in let! x := coerce_to_bool v in k x) R.
Proof.
  intros HK Hg Ho Hk. sbind ltac:(by apply twp_expr). intros v c1 s1 HE1 (Hg1 & Ho1 & Hv1).
  pose proof (twp_coerce_to_bool P c1 s1 v Hg1 Ho1 Hv1) as H. apply wp_bind. eapply wp_mono; [exact H|].
  intros x c2 (s2 & HE2 & Hg2 & Hx). eapply wp_mono; [apply (Hk x c2 s2)|]; try done.
  - transitivity s1; [done|apply HE2].
  - by eapply ext_is_open.
  - intros a c3 (s3 & HE3 & H3). exists s3. split; [|done]. transitivity s2; [apply HE2|done].
Qed.

Lemma twp_end_block P c s l :
  good (l :: P) c s -> s_cur s = None -> s_blocks s <> [] ->
  twp gext c s (begin_block (Some l) ;;; mret tt) (post P any).
Proof.
  intros. sbind ltac:(by apply twp_begin_block). intros _ c1 s1 _ (Hg1 & _). by apply twp_ret; [exact gext_preorder|].
Qed.

Ltac not_ok HK := let E := fresh in intros E; apply HK; by rewrite E, ?andb_false_r.

Lemma twp_if e t el :
  Forall stmt_spec t -> Forall stmt_spec (default [] el) -> stmt_spec (S_If e t el).
Proof.
  intros Ht Hel HK0 P c s Hg Ho. simpl in *.
  apply twp_cond with (P := P); [not_ok HK0|done..|]. intros x c1 s1 _ Hg1 Ho1 Hx.
  sbind ltac:(by apply twp_promise). intros tl c2 s2 _ [Hg2 HE2]. carry HE2.
  sbind ltac:(by apply twp_promise). intros ml c3 s3 _ [Hg3 HE3]. carry HE3.
  (* the label of the else branch, or the merge label *)
  assert (forall el_l c4 s4 P', good P' c4 s4 -> is_Some (s_cur s4) -> avail s4 x ->
    tl :: (if el is Some _ then [el_l] else []) ++ ml :: P ≡ₚ P' -> (el = None -> el_l = ml) ->
    twp gext c4 s4
      (try_bld "selection_merge" (b_effect (selection_merge ml)) ;;; bbranch_conditional x tl el_l ;;;
       begin_block (Some tl) ;;; emit_block emit_stmt t ;;; jump_unless_terminated ml ;;;
       match el with
       | Some else_block => begin_block (Some el_l) ;;; emit_block emit_stmt else_block ;;; jump_unless_terminated ml
       | None => mret tt
       end ;;;
       begin_block (Some ml) ;;; mret tt) (post P any)) as Hrest.
  { intros ell c4 s4 P' Hg4 Ho4 Hx4 HP Hel_l.
    assert (forall y, y ∈ [tl; ml; ell] -> y ∈ P') as Hin.
    { intros y. rewrite <- HP. destruct el; [|rewrite (Hel_l eq_refl)]; set_solver. }
    sbind ltac:(apply twp_keep, twp_effect with (P := P'); [done|done|by intros ? ?%elem_of_nil|]).
    { intros y ->%list_elem_of_singleton. apply elem_of_app. right. apply Hin. set_solver. }
    intros _ c5 s5 _ (Hg5 & HE5 & _). carry HE5.
    sbind ltac:(apply twp_branch_conditional with (P := P'); [done..|apply Hin; set_solver|apply Hin; set_solver]).
    intros _ c6 s6 _ (Hg6 & Ec6 & Hne6). apply (good_perm _ _ _ _ (symmetry HP)) in Hg6.
    eapply twp_arm_then; [done|not_ok HK0|done..|destruct el; set_solver|].
    intros c7 s7 _ Hg7 Ec7 Hne7. destruct el as [el|]; simpl in *.
    - sbind ltac:(apply twp_arm with (P := ml :: P); [done|not_ok HK0|done..|left]).
      intros _ c8 s8 _ (Hg8 & Ec8 & Hne8). by apply twp_end_block.
    - by apply twp_end_block. }
  destruct el as [el|].
  - sbind ltac:(by apply twp_promise). intros ell c4 s4 _ [Hg4 HE4]. carry HE4.
    apply Hrest with (P' := ell :: ml :: tl :: P); try done. solve_Permutation.
  - apply (Hrest ml c3 s3 (ml :: tl :: P)); try done. simpl. by constructor.
Qed.

Lemma twp_for i cd u b :
  Forall stmt_spec (option_list i) -> Forall stmt_spec b -> stmt_spec (S_For i cd u b).
Proof.
  intros Hi Hb HK0 P c s Hg Ho. simpl in *. unfold emit_for.
  eapply (twp_bind gext _ _ _ _ (post P any)).
  { destruct i as [i|]; [|by apply twp_ret; [exact gext_preorder|]].
    apply Forall_cons in Hi as [Hi _]. simpl in HK0. apply Hi; [not_ok HK0|done|done]. }
  intros _ c1 s1 _ [Hg1 _]. eapply twp_terminated; [done|]. case_bool_decide as Ec.
  { by apply twp_ret; [exact gext_preorder|]. }
  assert (is_Some (s_cur s1)) as Ho1 by by destruct (s_cur s1). clear Ec.
  sbind ltac:(by apply twp_promise). intros hl c2 s2 _ [Hg2 HE2]. carry HE2.
  sbind ltac:(by apply twp_promise). intros bl c3 s3 _ [Hg3 HE3]. carry HE3.
  sbind ltac:(by apply twp_promise). intros cl c4 s4 _ [Hg4 HE4]. carry HE4.
  sbind ltac:(by apply twp_promise). intros ml c5 s5 _ [Hg5 HE5]. carry HE5.
  sbind ltac:(apply twp_branch with (P := ml :: cl :: bl :: hl :: P); [done|done|apply elem_of_app; right; set_solver]).
  intros _ c6 s6 _ (Hg6 & Ec6 & Hne6).
  apply (good_perm _ (hl :: bl :: cl :: ml :: P)) in Hg6; [|solve_Permutation].
  sbind ltac:(by apply twp_begin_block). intros _ c7 s7 _ (Hg7 & Ho7 & Hl7).
  sbind ltac:(apply twp_keep, twp_effect with (P := bl :: cl :: ml :: P); [done|done|by intros ? ?%elem_of_nil|]).
  { change (targets (effect_inst (loop_merge ml cl))) with [ml; cl].
    intros y [->|[->|?%elem_of_nil]%elem_of_cons]%elem_of_cons; [| |done]; apply elem_of_app; right; set_solver. }
  intros _ c8 s8 _ (Hg8 & HE8 & _). carry HE8. apply HE8 in Hl7.
  eapply (twp_bind gext _ _ _ _ (fun _ c s => good (bl :: cl :: ml :: P) c s /\ s_cur s = None /\ s_blocks s <> [])).
  { destruct cd as [cd|].
    - simpl in HK0. apply twp_cond with (P := bl :: cl :: ml :: P); [not_ok HK0|done..|]. intros x c9 s9 _ Hg9 Ho9 Hx.
      apply twp_branch_conditional; [done..|set_solver|set_solver].
    - apply twp_branch; [done|done|]. apply elem_of_app; right; set_solver. }
  intros _ c9 s9 HE9 (Hg9 & Ec9 & Hne9). apply HE9 in Hl7.
  eapply twp_arm_then; [done|not_ok HK0|done..|set_solver|].
  intros c10 s10 HE10 Hg10 Ec10 Hne10. apply HE10 in Hl7.
  sbind ltac:(by apply twp_begin_block). intros _ c11 s11 HE11 (Hg11 & Ho11 & _). apply HE11 in Hl7.
  eapply (twp_bind gext _ _ _ _ (fun _ c s => good (ml :: P) c s /\ is_Some (s_cur s))).
  { destruct u as [u|].
    - simpl in HK0. sbind ltac:(apply twp_expr with (P := ml :: P); [not_ok HK0|done|done]). intros v c12 s12 _ (Hg12 & Ho12 & _).
      by apply twp_ret; [exact gext_preorder|].
    - by apply twp_ret; [exact gext_preorder|]. }
  intros _ c12 s12 HE12 (Hg12 & Ho12). apply HE12 in Hl7.
  sbind ltac:(apply twp_branch with (P := ml :: P); [done|done|apply elem_of_app; by left]).
  intros _ c13 s13 _ (Hg13 & Ec13 & Hne13). by apply twp_end_block.
Qed.

Lemma twp_push_local P c s n p : good P c s -> gavail s (pl_ptr p) -> twp ext c s (push_local n p) (post P any).
Proof.
  intros (Hst & [] & Hw) Hp. exists s. split; [done|]. split; [|done]. split_and!; [done| |done].
  constructor; try done. simpl. by apply Forall_app_2, Forall_singleton.
Qed.

Lemma twp_var_decl d : stmt_spec (S_VarDecl d).
Proof.
  intros HK P c s Hg Ho. simpl in *. apply twp_gext. unfold emit_var_decl. ebind twp_alloc_local.
  eapply twp_bind; [exact ext_preorder| |].
  { instantiate (1 := post P any). destruct (vd_init d) as [e|]; simpl in *; [|by eret].
    eapply twp_bind; [exact ext_preorder|by apply twp_emit_expr|enext]. unfold val_ok in *.
    by apply twp_bstore; auto using gavail_avail. }
  enext. by apply twp_push_local.
Qed.

Lemma twp_return e : stmt_spec (S_Return e).
Proof.
  intros HK P c s Hg Ho. simpl in *.
  assert (forall c s, good P c s -> is_Some (s_cur s) -> twp gext c s bret (post P any)) as Hret.
  { intros c' s' Hg' Ho'. eapply twp_mono; [by apply twp_ret_inst|]. intros ? ? ? (? & ?). by split. }
  destruct e as [e|]; simpl; [|by apply Hret].
  sbind ltac:(by apply twp_expr). intros v c1 s1 _ (Hg1 & Ho1 & Hv). apply twp_gets.
  eapply (twp_bind gext _ _ _ _ (fun _ c s => good P c s /\ is_Some (s_cur s))).
  { destruct (c_out_var c1) as [o|] eqn:Eo; [|by apply twp_ret; [exact gext_preorder|]].
    eapply twp_mono; [apply twp_keep, twp_bstore; [done|done| |done]|].
    - apply gavail_avail. by apply (co_out _ _ (good_ctx _ _ _ Hg1)).
    - intros a c' s' (? & ? & ?). split; [done|]. by eapply ext_is_open. }
  intros _ c2 s2 _ (Hg2 & Ho2). by apply Hret.
Qed.

(** Every statement, of any nesting. *)
Lemma twp_emit_stmt st : stmt_spec st.
Proof.
  induction st as [e|d|e|e t el IHt IHe|i c u b IHi IHb|b IHb] using Stmt_list_ind.
  - apply twp_return.
  - apply twp_var_decl.
  - intros HK P c s Hg Ho. simpl in *. sbind ltac:(by apply twp_expr). intros v c1 s1 _ (Hg1 & _).
    by apply twp_ret; [exact gext_preorder|].
  - by apply twp_if.
  - by apply twp_for.
  - intros HK P c s Hg Ho. simpl in *. by apply twp_emit_block.
Qed.

(** ** Module-level declarations *)

(** Before the function begins. *)
Definition pre (c : Ctx (B := B)) (s : Shape) : Prop := good [] c s /\ s_def s = None.

Definition pre_post {A} (Q : Shape -> A -> Prop) (a : A) (c : Ctx (B := B)) (s : Shape) : Prop :=
  pre c s /\ Q s a.

Lemma twp_pre {A} c s (m : G A) Q :
  pre c s -> (good [] c s -> twp ext c s m (post [] Q)) -> twp ext c s m (pre_post Q).
Proof.
  intros [Hg Hd] Hm. eapply wp_mono; [by apply Hm|]. intros a c' (s' & HE & Hg' & HQ).
  exists s'. split; [done|]. split; [|done]. split; [done|]. by rewrite (gext_def _ _ (ext_gext _ _ HE)).
Qed.

Ltac pbind lem :=
  eapply twp_bind; [exact ext_preorder|apply twp_pre; [eassumption|intros; eapply lem; eauto]|];
  enext.
Ltac pret := apply twp_ret; [exact ext_preorder|]; by split.

Lemma twp_iter {A} (f : A -> G unit) l :
  (forall x, x ∈ l -> forall c s, pre c s -> twp ext c s (f x) (pre_post any)) ->
  forall c s, pre c s -> twp ext c s (m_iter f l) (pre_post any).
Proof.
  induction l as [|x l IH]; intros Hf c s Hp; simpl; [pret|].
  eapply twp_bind; [exact ext_preorder|apply Hf; [left|done]|]. intros _ c1 s1 _ [Hp1 _].
  apply IH; [|done]. intros y Hy. apply Hf. by right.
Qed.

Lemma twp_headers {A} (f : A -> G unit) l :
  (forall x c s, pre c s -> twp ext c s (f x) (pre_post any)) ->
  forall c s, pre c s -> twp ext c s (m_iter f l) (pre_post any).
Proof. intros Hf. apply twp_iter. auto. Qed.

Lemma twp_pheader c s h : pre c s -> twp ext c s (header h) (pre_post any).
Proof. intros Hp. apply twp_pre; [done|]. intros Hg. by apply twp_header. Qed.

Lemma twp_member_types ms : forall c s, pre c s ->
  twp ext c s (m_list (fun m => type_id (sm_ty m)) ms) (pre_post (fun s ts => Forall (tavail s) ts)).
Proof.
  induction ms as [|m ms IH]; intros c s Hp; simpl.
  { apply twp_ret; [exact ext_preorder|]. split; [done|by apply Forall_nil_2]. }
  pbind twp_type_id. eapply twp_bind; [exact ext_preorder|by apply IH|].
  intros ts c1 s1 HE [Hp1 Hts]. carry HE. apply twp_ret; [exact ext_preorder|]. split; [done|by constructor].
Qed.

Lemma type_args_struct s ts : Forall (tavail s) ts -> type_args_ok s (type_struct ts).
Proof.
  intros Hts x Hx. change (uses (type_inst (type_struct ts) 0)) with (operand_ids (IdRef <$> ts)) in Hx.
  rewrite operand_ids_refs in Hx. by eapply Forall_forall in Hts.
Qed.

Lemma twp_modify c s (f : Ctx -> Ctx) :
  pre c s -> c_builder (f c) = c_builder c -> ctx_ok (f c) s -> twp ext c s (modify f) (pre_post any).
Proof.
  intros [(Hst & Hc & Hw) Hd] Eb Hf. exists s. split; [done|]. split; [|done]. split; [|done].
  split_and!; [|done|done]. unfold st. by rewrite Eb.
Qed.

Lemma twp_insert_struct c s n i : pre c s -> tavail s (si_type_id i) -> twp ext c s (insert_struct n i) (pre_post any).
Proof.
  intros Hp Hi. apply twp_modify; [done|done|]. destruct (good_ctx _ _ _ (proj1 Hp)). constructor; try done.
  by apply map_Forall_insert_2.
Qed.

Lemma twp_insert_global c s n g : pre c s -> gavail s (pl_ptr g) -> twp ext c s (insert_global n g) (pre_post any).
Proof.
  intros Hp Hi. apply twp_modify; [done|done|]. destruct (good_ctx _ _ _ (proj1 Hp)). constructor; try done.
  by apply map_Forall_insert_2.
Qed.

Lemma twp_insert_cbuffer_member c s n m :
  pre c s -> gavail s m.1 -> gavail s m.2 -> twp ext c s (insert_cbuffer_member n m) (pre_post any).
Proof.
  intros Hp H1 H2. apply twp_modify; [done|done|]. destruct (good_ctx _ _ _ (proj1 Hp)). constructor; try done.
  by apply map_Forall_insert_2.
Qed.

Lemma twp_push_interface c s v : pre c s -> twp ext c s (push_interface v) (pre_post any).
Proof.
  intros Hp. apply twp_modify; [done|done|]. by destruct (good_ctx _ _ _ (proj1 Hp)).
Qed.

Lemma twp_set_out c s v t : pre c s -> gavail s v -> twp ext c s (set_out v t) (pre_post any).
Proof.
  intros Hp Hv. apply twp_modify; [done|done|]. destruct (good_ctx _ _ _ (proj1 Hp)). constructor; try done.
  by intros o [= <-].
Qed.

(** A module-level variable. *)
Lemma twp_bvariable c s pt sc :
  pre c s -> tavail s pt -> twp ext c s (bld (b_variable pt sc)) (pre_post gavail).
Proof.
  intros Hp Hpt. apply twp_pre; [done|]. intros Hg. destruct Hp as [_ Hd]. pose proof Hg as (Hst & Hc & Hw).
  pose proof Hst as (_ & _ & Hbound & Hf). rewrite Hd in Hf. destruct Hf as (_ & Hsel & _ & Eb).
  destruct (variable_law pt sc (c_builder c)) as (b' & Ef & Hv); [by rewrite <- view_selected|].
  rewrite Hbound in *. set (i := mkInst OpVariable (Some pt) (Some (s_bound s)) [StorageOperand sc]) in *.
  assert (ext s (s_bump (add_global i s))) as HE.
  { transitivity (add_global i s); [apply ext_add_global|apply ext_bump]. }
  eapply twp_bld; [exact Ef|exact HE|]. split.
  - eapply good_step; [exact Hg| |apply HE|].
    + rewrite Hv. by apply repr_bump, repr_global.
    + apply (wf_add_global i (s_bump s)); [by apply wf_bump|by apply fresh_next|].
      split; [by intros x ?%elem_of_nil|]. intros t [= <-]. exact Hpt.
  - apply elem_inst_ids. exists i. split; [|done]. unfold gdefs. simpl. rewrite !elem_of_app, list_elem_of_singleton. tauto.
Qed.

Ltac pbind' lem := eapply twp_bind; [exact ext_preorder|eapply lem; eauto|enext].

Lemma twp_btype' c s tc : pre c s -> type_args_ok s tc -> twp ext c s (btype tc) (pre_post tavail).
Proof. intros Hp Ha. apply twp_pre; [done|]. intros Hg. by apply twp_btype. Qed.

Lemma twp_btype1 c s tc x :
  uses (type_inst tc 0) = [x] -> pre c s -> tavail s x -> twp ext c s (btype tc) (pre_post tavail).
Proof. intros Hu Hp Hx. apply twp_btype'; [done|by eapply type_arg1]. Qed.

Lemma twp_register_struct c s sd : pre c s -> twp ext c s (register_struct sd) (pre_post any).
Proof.
  intros Hp. unfold register_struct. apply twp_gets. case_bool_decide; [pret|].
  pbind' twp_member_types. pbind' twp_btype'; [by apply type_args_struct|].
  eapply twp_bind; [exact ext_preorder|apply twp_headers; [|eassumption]|].
  { intros. by apply twp_pheader. }
  enext. by apply twp_insert_struct.
Qed.

Lemma twp_decorate_binding c s v reg : pre c s -> twp ext c s (decorate_binding v reg) (pre_post any).
Proof.
  intros Hp. unfold decorate_binding. destruct (parse_register reg).
  pbind' twp_pheader. by apply twp_pheader.
Qed.

Lemma twp_emit_cbuffer c s cb : pre c s -> twp ext c s (emit_cbuffer cb) (pre_post any).
Proof.
  intros Hp. unfold emit_cbuffer. pbind' twp_member_types. pbind' twp_btype'; [by apply type_args_struct|].
  pbind' twp_pheader.
  eapply twp_bind; [exact ext_preorder|apply twp_headers; [|eassumption]|].
  { intros. pbind' twp_pheader. by apply twp_pheader. }
  enext. pbind' twp_insert_struct. pbind' twp_btype1. pbind' twp_bvariable. pbind' twp_pheader.
  pbind' twp_decorate_binding. pbind' twp_insert_global.
  assert (forall l c s, pre c s -> gavail s r5 -> twp ext c s (m_iter (fun im : Z * StructMember =>
      let! member_ty_id := type_id (sm_ty im.2) in
      let! _ := btype (type_pointer SC_Uniform member_ty_id) in
      let! idx_const := int_const (to_signed 32 im.1) true in
      insert_global (sm_name im.2) (mkPlace r5 (sm_ty im.2)) ;;;
      insert_cbuffer_member (sm_name im.2) (r5, idx_const)) l) (pre_post any)) as Hloop.
  { clear. induction l as [|im l IH]; intros c s Hp Hv; simpl; [pret|].
    eapply (twp_bind ext _ _ _ _ (pre_post any)).
    - pbind twp_type_id. pbind' twp_btype1. pbind twp_int_const. pbind' twp_insert_global.
      by apply twp_insert_cbuffer_member.
    - intros _ c1 s1 HE [Hp1 _]. carry HE. by apply IH. }
  by apply Hloop.
Qed.

Lemma twp_declare_opaque c s t g : pre c s -> tavail s t -> twp ext c s (declare_opaque t g) (pre_post any).
Proof.
  intros Hp Ht. unfold declare_opaque. pbind' twp_btype1. pbind' twp_bvariable. pbind' twp_pheader.
  pbind' twp_decorate_binding. by apply twp_insert_global.
Qed.

Lemma twp_emit_global_var c s g : pre c s -> twp ext c s (emit_global_var g) (pre_post any).
Proof.
  intros Hp. unfold emit_global_var. destruct (gv_ty g); try efail.
  - pbind twp_image_type_id. pbind' twp_btype1. by apply twp_declare_opaque.
  - pbind' twp_btype'; [by apply type_arg0|]. by apply twp_declare_opaque.
Qed.

Lemma twp_emit_globals u c s : pre c s -> twp ext c s (emit_globals u) (pre_post any).
Proof.
  apply twp_iter. intros [sd|cb|f|g] _ c' s' Hp.
  - by apply twp_register_struct.
  - by apply twp_emit_cbuffer.
  - pret.
  - by apply twp_emit_global_var.
Qed.

(** ** The entry point *)

Lemma twp_decorate_struct_io c s ms id o : pre c s -> twp ext c s (decorate_struct_io ms id o) (pre_post any).
Proof.
  intros Hp. unfold decorate_struct_io. pbind' twp_pheader. apply twp_gets, twp_headers; [|done].
  intros. by apply twp_pheader.
Qed.

Lemma twp_decorate_io_var c s v sem o : pre c s -> twp ext c s (decorate_io_var v sem o) (pre_post any).
Proof.
  intros Hp. unfold decorate_io_var. apply twp_gets. destruct sem as [x|]; [|by apply twp_pheader].
  destruct (String.eqb x "SV_Position"); by apply twp_pheader.
Qed.

Lemma twp_emit_input c s p : pre c s -> twp ext c s (emit_input p) (pre_post any).
Proof.
  intros Hp. unfold emit_input.
  assert (forall ty, twp ext c s (let! ty_id := type_id ty in
      let! ptr_t := btype (type_pointer SC_Input ty_id) in
      let! var := bld (b_variable ptr_t SC_Input) in
      header (h_name var (p_name p)) ;;;
      decorate_io_var var (p_semantic p) false ;;;
      push_interface var ;;;
      insert_global (p_name p) (mkPlace var ty)) (pre_post any)) as Hplain.
  { intros ty. pbind twp_type_id. pbind' twp_btype1. pbind' twp_bvariable. pbind' twp_pheader.
    pbind' twp_decorate_io_var. pbind' twp_push_interface. by apply twp_insert_global. }
  destruct (p_ty p) as [| | | |name| |]; try efail; try apply Hplain.
  apply twp_gets, twp_ok_or. intros info Hi.
  pose proof (co_structs _ _ (good_ctx _ _ _ (proj1 Hp)) name info Hi) as Ht. cbv beta in Ht.
  pbind' twp_decorate_struct_io. pbind' twp_btype1. pbind' twp_bvariable. pbind' twp_pheader.
  pbind' twp_push_interface. by apply twp_insert_global.
Qed.

Lemma twp_emit_output c s f : pre c s -> twp ext c s (emit_output f) (pre_post any).
Proof.
  intros Hp. unfold emit_output.
  assert (forall ty, twp ext c s (let! ty_id := type_id ty in
      let! ptr_t := btype (type_pointer SC_Output ty_id) in
      let! var := bld (b_variable ptr_t SC_Output) in
      header (h_name var "out_color") ;;;
      decorate_io_var var (fd_semantic f) true ;;;
      push_interface var ;;;
      set_out var ty) (pre_post any)) as Hplain.
  { intros ty. pbind twp_type_id. pbind' twp_btype1. pbind' twp_bvariable. pbind' twp_pheader.
    pbind' twp_decorate_io_var. pbind' twp_push_interface. by apply twp_set_out. }
  destruct (fd_return_type f) as [| |[] n| |name| |]; try efail.
  - destruct n as [|n|]; try efail. do 2 (destruct n as [n|n|]; try efail). destruct n; try efail. apply Hplain.
  - apply twp_gets, twp_ok_or. intros info Hi.
    pose proof (co_structs _ _ (good_ctx _ _ _ (proj1 Hp)) name info Hi) as Ht. cbv beta in Ht.
    pbind' twp_decorate_struct_io. pbind' twp_btype1. pbind' twp_bvariable. pbind' twp_pheader.
    pbind' twp_push_interface. by apply twp_set_out.
Qed.

Lemma ctx_ok_gdefs c s s' : gdefs s ⊆ gdefs s' -> s_glob s ⊆ s_glob s' -> ctx_ok c s -> ctx_ok c s'.
Proof.
  intros HD HT []. pose proof (inst_ids_mono _ _ HD) as HDi. pose proof (type_ids_mono _ _ HT) as HTi.
  constructor; try (by apply HTi); try (by apply HDi).
  - intros n i Hn. by apply HTi, (co_structs0 n).
  - intros n i Hn. by apply HDi, (co_globals0 n).
  - intros n i Hn. destruct (co_members0 n i Hn). split; by apply HDi.
  - eapply Forall_impl; [exact co_locals0|]. intros. by apply HDi.
  - intros o Ho. by apply HDi, co_out0.
Qed.

Lemma wp_begin_entry c s : pre c s ->
  wp K begin_entry_function (fun _ c' => exists s', good [] c' s' /\ is_Some (s_cur s')) c.
Proof.
  intros Hp. unfold begin_entry_function. apply wp_bind. apply wp_ret.
  apply wp_bind. eapply wp_mono.
  { apply (twp_btype1 c s (type_function (c_void_t c) []) (c_void_t c)); [done|done|].
    apply (good_ctx _ _ _ (proj1 Hp)). }
  intros ft c1 (s1 & _ & [[Hg1 Hd1] Hft]). pose proof Hg1 as (Hst & Hc & Hw).
  pose proof Hst as (_ & _ & Hbound & Hf). rewrite Hd1 in Hf. destruct Hf as (_ & _ & Hfun & Eb).
  destruct (begin_function_law (c_void_t c) ft (c_builder c1) Hfun) as (b2 & E2 & Hv2). rewrite Hbound in *.
  set (d := function_inst (c_void_t c) ft (s_bound s1)) in *.
  set (s2 := s_bump (start_function d s1)).
  assert (repr (b_view b2) s2) as Hr2 by (rewrite Hv2; by apply repr_bump, repr_start_function).
  assert (wf s2 []) as Hw2.
  { apply (wf_start_function d (s_bump s1)); [by apply wf_bump|done|done|by apply fresh_next]. }
  destruct (begin_block_law None b2) as (b3 & E3 & Hv3).
  { by destruct Hr2 as (_ & _ & _ & _ & -> & _). }
  { rewrite <- view_selected. by destruct Hr2 as (_ & _ & _ & _ & _ & ->). }
  unfold wpk, begin_block, try_bld, mbind. rewrite E2. simpl. rewrite E3. simpl.
  exists (start_block (s_bound s2) (s_bump s2)). split; [|by eexists].
  assert (v_bound (b_view b2) = s_bound s2) as Hb2 by apply Hr2.
  split_and!.
  - unfold st. simpl. rewrite Hv3. simpl default. rewrite Hb2, <- view_module.
    change (repr (select (Some (length (last_blocks (v_mod (bump (b_view b2))))))
      (on_mod (edit_last (fun bs => bs ++ [mkBlock (s_bound s2) []])) (bump (b_view b2))))
      (start_block (s_bound s2) (s_bump s2))).
    eapply repr_start_block; [by apply repr_bump|done|done].
  - apply ctx_ok_builder, ctx_ok_builder. eapply ctx_ok_gdefs; [| |exact Hc].
    + unfold gdefs. simpl. rewrite Eb. intros x. rewrite !elem_of_app. simpl. tauto.
    + done.
  - apply wf_start_block; [by apply wf_promise|done].
Qed.

Lemma twp_bind_param c s p :
  good [] c s -> is_Some (s_cur s) -> gavail s p.1.2 -> twp ext c s (bind_param p) (post [] any).
Proof.
  destruct p as [[n g] ty]. simpl. intros Hg Ho Hp. ebind twp_alloc_local. ebind twp_type_id.
  ebind twp_bload. ebind twp_bstore. by apply twp_push_local.
Qed.

Lemma twp_bind_params ps : forall c s,
  good [] c s -> is_Some (s_cur s) -> Forall (fun p => gavail s p.1.2) ps ->
  twp ext c s (m_iter bind_param ps) (post [] any).
Proof.
  induction ps as [|p ps IH]; intros c s Hg Ho Hps; simpl; [by eret|].
  apply Forall_cons in Hps as [Hp Hps].
  eapply twp_bind; [exact ext_preorder|by apply twp_bind_param|].
  intros _ c1 s1 HE [Hg1 _]. carry HE. apply IH; [done|done|].
  eapply Forall_impl; [exact Hps|]. intros. by eapply ext_gavail.
Qed.

Lemma twp_collect_params c s f :
  good [] c s ->
  twp ext c s (collect_params f) (fun ps c' s' => c' = c /\ s' = s /\ Forall (fun p => gavail s p.1.2) ps).
Proof.
  intros Hg. unfold collect_params. apply twp_gets.
  induction (fd_params f) as [|p ps IH]; simpl.
  - apply twp_ret; [exact ext_preorder|]. split_and!; [done..|]. by apply Forall_nil_2.
  - eapply (twp_bind ext _ _ _ _ (fun q c' s' => c' = c /\ s' = s /\ gavail s q.1.2)).
    + apply twp_ok_or. intros g Eg. apply twp_ret; [exact ext_preorder|]. split_and!; [done..|].
      apply (co_globals _ _ (good_ctx _ _ _ Hg) _ _ Eg).
    + intros q ? ? _ (-> & -> & Hq). eapply twp_bind; [exact ext_preorder|exact IH|].
      intros qs ? ? _ (-> & -> & Hqs). apply twp_ret; [exact ext_preorder|]. split_and!; [done..|].
      by apply Forall_cons.
Qed.

Definition body_ok (f : FunctionDecl) : bool := from_option (forallb stmt_ok) true (fd_body f).

Lemma wp_function_body c s f : (body_ok f = false -> K) -> good [] c s -> is_Some (s_cur s) ->
  wp K (emit_function_body f) (fun _ c' => module_ok (b_module (c_builder c'))) c.
Proof.
  intros HK Hg Ho. unfold emit_function_body.
  apply wp_bind. eapply wp_mono; [by apply twp_collect_params|]. intros ps ? (? & _ & -> & -> & Hps).
  apply wp_bind. eapply wp_mono; [by apply twp_bind_params|]. intros _ c1 (s1 & HE1 & Hg1 & _). carry HE1.
  apply wp_bind. unfold body_ok in HK. destruct (fd_body f) as [body|]; [|done]. simpl in HK. apply wp_ret.
  apply wp_bind. eapply wp_mono.
  { apply (twp_emit_block body) with (P := []) (s := s1); [|done..]. apply Forall_forall. intros x _. apply twp_emit_stmt. }
  intros _ c2 (s2 & HE2 & Hg2 & _). assert (s_blocks s2 <> []) as Hne2 by by eapply gext_nonempty.
  enough (wp K ((if bool_decide (s_cur s2 = None) then mret tt else bret) ;;; try_bld "end_function" b_end_function)
    (fun _ c' => module_ok (b_module (c_builder c'))) c2) as Hend.
  { pose proof (proj1 Hg2) as Hst. unfold is_terminated, gets, mbind at 1, wpk. rewrite <- view_selected.
    destruct (s_cur s2) as [b|] eqn:E; [rewrite (repr_selected _ _ _ Hst E)|rewrite (repr_unselected _ _ Hst E)]; exact Hend. }
  apply wp_bind. eapply (wp_mono _ _ (fun _ c' => exists s', good [] c' s' /\ s_cur s' = None /\ s_blocks s' <> [])).
  { case_bool_decide as Ec; [apply wp_ret; by exists s2|].
    eapply wp_mono; [apply (twp_ret_inst [] c2 s2); [done|by destruct (s_cur s2)]|]. intros _ c3 (s3 & _ & H3). eauto. }
  intros _ c3 (s3 & Hg3 & Ec3 & Hne3). pose proof Hg3 as (Hst & _ & Hw).
  destruct (repr_def _ _ Hst (or_introl Hne3)) as [d Ed].
  destruct (end_function_law (c_builder c3)) as (b4 & E4 & Hv4).
  { destruct Hst as (_ & _ & _ & Hf). rewrite Ed in Hf. by destruct Hf as (_ & -> & _). }
  unfold wpk, try_bld. rewrite E4. simpl. rewrite <- view_module, Hv4. simpl.
  eapply wf_module_ok; [exact Hst|exact Hw|exact Ed|exact Ec3|].
  intros E. apply Hne3. unfold s_blocks. by rewrite E, Ec3.
Qed.

(** What the last calls change is the header only. *)
Lemma module_ok_header h m : module_ok m -> module_ok (push_header h m).
Proof. intros []. by constructor. Qed.

Lemma wp_header_ok c h (Q : unit -> Ctx -> Prop) :
  module_ok (b_module (c_builder c)) ->
  (forall c', module_ok (b_module (c_builder c')) -> Q tt c') -> wp K (header h) Q c.
Proof.
  intros Hm HQ. unfold wpk, header, bld. apply HQ. simpl. rewrite <- view_module, header_law. simpl.
  rewrite view_module. by apply module_ok_header.
Qed.

Lemma wp_finish_entry c f : module_ok (b_module (c_builder c)) ->
  wp K (finish_entry_point f) (fun _ c' => module_ok (b_module (c_builder c'))) c.
Proof.
  intros Hm. unfold finish_entry_point. apply wp_bind, wp_ret, wp_bind.
  destruct (last _ ≫= _); [apply wp_ret|done]. apply wp_bind, wp_ret, wp_bind.
  match goal with |- wp K (modify ?g) ?Q c => change (Q tt (g c)) end. cbv beta.
  apply wp_bind, wp_ret, wp_bind. apply wp_header_ok; [done|]. intros c1 H1.
  apply wp_bind. eapply (wp_mono _ _ (fun _ c' => module_ok (b_module (c_builder c')))).
  { match goal with |- wp K (match ?st with _ => _ end) _ _ => destruct st end; [by apply wp_ret|].
    by apply wp_header_ok. }
  intros _ c2 H2. by apply wp_header_ok.
Qed.

Definition unit_ok (u : TranslationUnit) : bool := from_option body_ok true (find_main u).

Lemma wp_codegen_module u c s : (unit_ok u = false -> K) -> pre c s ->
  wp K (codegen_module u) (fun m _ => module_ok m) c.
Proof.
  intros HK Hp. unfold codegen_module. apply wp_bind. eapply wp_mono; [by apply twp_emit_globals|].
  intros _ c1 (s1 & _ & [Hp1 _]). apply wp_bind. unfold unit_ok in HK.
  destruct (find_main u) as [f|]; [|done]. apply wp_ret. simpl in HK. apply wp_bind. unfold emit_main.
  apply wp_bind. eapply wp_mono.
  { apply (twp_iter emit_input (fd_params f)) with (s := s1); [|done]. intros. by apply twp_emit_input. }
  intros _ c2 (s2 & _ & [Hp2 _]). apply wp_bind. eapply wp_mono; [by apply twp_emit_output|].
  intros _ c3 (s3 & _ & [Hp3 _]). apply wp_bind. eapply wp_mono; [by eapply wp_begin_entry|].
  intros _ c4 (s4 & Hg4 & Ho4). apply wp_bind. eapply wp_mono; [by eapply wp_function_body|].
  intros u5 c5 H5. eapply wp_mono; [by apply wp_finish_entry|]. intros u6 c6 H6. by apply wp_ret.
Qed.

(** The initial context. *)
Ltac new_type Hr Hw HT :=
  match goal with |- context [b_type ?tc ?b] =>
    let r := fresh "t" in let b' := fresh "b" in let s' := fresh "s" in
    let Ef := fresh "Ef" in let Hr' := fresh "Hr" in let Hw' := fresh "Hw" in let HE := fresh "HE" in let Ht := fresh "Ht" in
    destruct (type_step [] b _ tc Hr Hw) as (r & b' & s' & Ef & Hr' & Hw' & HE & Ht); [by apply type_arg0|];
    rewrite Ef; clear Ef; carry HE; clear Hr Hw; rename Hr' into Hr; rename Hw' into Hw
  end.

Lemma pre_new stage : exists s, pre (Ctx_new (B := B) stage) s.
Proof.
  unfold Ctx_new.
  set (b0 := b_header h_memory_model_logical_glsl450 _).
  assert (repr (b_view b0) (mkShape [] [] None [] None 1)) as Hr.
  { unfold b0. rewrite !header_law, new_law. by split_and!. }
  assert (wf (mkShape [] [] None [] None 1) []) as Hw.
  { constructor; [apply NoDup_nil_2|by intros x ?%elem_of_nil|by intros [|] ? ? ?|apply Forall_nil_2..|done|].
    by intros i ?%elem_of_nil. }
  clearbody b0.
  do 5 new_type Hr Hw I.
  assert (s_def s3 = None) as Hd.
  { repeat match goal with HE : ext _ _ |- _ => rewrite (gext_def _ _ (ext_gext _ _ HE)); clear HE end. done. }
  destruct (import_law "GLSL.std.450" b4) as (b5 & Ef & Hv). rewrite Ef.
  assert (v_bound (b_view b4) = s_bound s3) as Hb by apply Hr. rewrite Hb in *.
  set (i := mkInst OpExtInstImport None (Some (s_bound s3)) [LiteralString "GLSL.std.450"]) in *.
  assert (ext s3 (s_bump (add_import i s3))) as HX.
  { transitivity (add_import i s3); [apply ext_add_import|apply ext_bump]. }
  exists (s_bump (add_import i s3)). split; [|done]. carry HX. split_and!.
  - unfold st. simpl. rewrite header_law, Hv. by apply repr_header, repr_bump, repr_import.
  - constructor; simpl; try done; try apply map_Forall_empty.
    apply elem_inst_ids. exists i. split; [|done]. unfold gdefs. simpl. rewrite !elem_of_app, list_elem_of_singleton. tauto.
  - apply (wf_add_import i (s_bump s3)); [by apply wf_bump|by apply fresh_next].
Qed.
End Ssa.
