(* ===== verification/HlslTypes.v ===== *)
(** * Typing rules of both languages

    [inst_typed] gives the typing rules of SPIR-V for the instructions the
    generator emits, over the types that ids denote in a module. [expr_ty] and
    [check_stmts] are a strict type checker for the source: no implicit
    conversions, operands of equal types, intrinsics on floats. It is stricter
    than HLSL; what it accepts compiles to a well-typed module
    ([HlslTyping.v]). *)
From Stdlib Require Import ZArith Lia Ascii String.
From stdpp Require Import base list option gmap strings.
From S2P Require Import Prelude HlslAst SpirvBuilder HlslCodegen HlslShape.

(** ** SPIR-V: the types of ids *)

Definition is_float (t : Type_) : bool :=
  match t with Ty_Scalar Sc_Float | Ty_Vector Sc_Float _ => true | _ => false end.
Definition is_integer (t : Type_) : bool :=
  match t with Ty_Scalar (Sc_Int | Sc_Uint) | Ty_Vector (Sc_Int | Sc_Uint) _ => true | _ => false end.
Definition is_bool (t : Type_) : bool :=
  match t with Ty_Scalar Sc_Bool | Ty_Vector Sc_Bool _ => true | _ => false end.
Definition is_numeric (t : Type_) : bool := is_float t || is_integer t.

(** The type with the components of [t] replaced by booleans. *)
Definition bool_of (t : Type_) : Type_ :=
  match t with Ty_Vector _ n => Ty_Vector Sc_Bool n | _ => Ty_Scalar Sc_Bool end.

(** Number of components of a scalar or vector of kind [k]. *)
Definition components (k : ScalarKind) (t : Type_) : option Z :=
  match t with
  | Ty_Scalar k' => if bool_decide (k' = k) then Some 1%Z else None
  | Ty_Vector k' n => if bool_decide (k' = k) then Some n else None
  | _ => None
  end.

Fixpoint sum_components (k : ScalarKind) (ts : list Type_) : option Z :=
  match ts with
  | [] => Some 0%Z
  | t :: ts =>
      match components k t, sum_components k ts with
      | Some a, Some b => Some (a + b)%Z
      | _, _ => None
      end
  end.

Section Denotation.
(** The struct types by name, and the globals of the module. *)
Variable sid : gmap string Z.
Variable gl : list Instruction.

Inductive den : Z -> Type_ -> Prop :=
  | den_void r : type_inst type_void r ∈ gl -> den r Ty_Void
  | den_bool r : type_inst type_bool r ∈ gl -> den r (Ty_Scalar Sc_Bool)
  | den_float r : type_inst (type_float 32) r ∈ gl -> den r (Ty_Scalar Sc_Float)
  | den_int r : type_inst (type_int 32 1) r ∈ gl -> den r (Ty_Scalar Sc_Int)
  | den_uint r : type_inst (type_int 32 0) r ∈ gl -> den r (Ty_Scalar Sc_Uint)
  | den_vector e k n r : type_inst (type_vector e n) r ∈ gl -> den e (Ty_Scalar k) -> den r (Ty_Vector k n)
  | den_matrix c k rows cols r :
      type_inst (type_matrix c cols) r ∈ gl -> den c (Ty_Vector k rows) -> den r (Ty_Matrix k rows cols)
  | den_struct name r : sid !! name = Some r -> den r (Ty_Struct name)
  | den_texture f i r :
      type_inst (type_image_2d f) i ∈ gl -> type_inst (type_sampled_image i) r ∈ gl ->
      den f (Ty_Scalar Sc_Float) -> den r Ty_Texture2D
  | den_sampler r : type_inst type_sampler r ∈ gl -> den r Ty_SamplerState.

Definition den_ptr (r : Z) (sc : StorageClass) (t : Type_) : Prop :=
  exists tid, type_inst (type_pointer sc tid) r ∈ gl /\ den tid t.

(** The instructions of the module that define ids with a type. *)
Variable D : list Instruction.

Definition has (x : Z) (t : Type_) : Prop :=
  exists i tid, i ∈ D /\ i_id i = Some x /\ i_rty i = Some tid /\ den tid t.
Definition points (x : Z) (sc : StorageClass) (t : Type_) : Prop :=
  exists i tid, i ∈ D /\ i_id i = Some x /\ i_rty i = Some tid /\ den_ptr tid sc t.
(** An integer constant of the module. *)
Definition index_const (x v : Z) : Prop :=
  exists tid, mkInst OpConstant (Some tid) (Some x) [LiteralBit32 v] ∈ gl /\ den tid (Ty_Scalar Sc_Int).

(** Member [k] of the struct [name] has type [t]. *)
Definition member_type (name : string) (k : Z) (t : Type_) : Prop :=
  exists r ms tid, sid !! name = Some r /\ type_inst (type_struct ms) r ∈ gl /\
    ms !! Z.to_nat k = Some tid /\ den tid t.

Definition float_binop (op : Opcode) : bool :=
  match op with OpFAdd | OpFSub | OpFMul | OpFDiv => true | _ => false end.
Definition int_binop (op : Opcode) : bool :=
  match op with OpIAdd | OpISub | OpIMul | OpSDiv | OpUDiv => true | _ => false end.
Definition float_compare (op : Opcode) : bool :=
  match op with
  | OpFOrdEqual | OpFOrdNotEqual | OpFOrdLessThan | OpFOrdLessThanEqual | OpFOrdGreaterThan
  | OpFOrdGreaterThanEqual => true
  | _ => false
  end.
Definition int_compare (op : Opcode) : bool :=
  match op with
  | OpIEqual | OpINotEqual | OpSLessThan | OpSLessThanEqual | OpSGreaterThan | OpSGreaterThanEqual => true
  | _ => false
  end.

(** The rule of an instruction that computes a value of type [t] from values of
    types [ts], with literal operands [ls]. *)
Inductive value_rule : Opcode -> Type_ -> list Type_ -> list Z -> Prop :=
  | vr_float op t : float_binop op = true -> is_float t = true -> value_rule op t [t; t] []
  | vr_int op t : int_binop op = true -> is_integer t = true -> value_rule op t [t; t] []
  | vr_fcmp op t : float_compare op = true -> is_float t = true -> value_rule op (bool_of t) [t; t] []
  | vr_icmp op t : int_compare op = true -> is_integer t = true -> value_rule op (bool_of t) [t; t] []
  | vr_logical op : op = OpLogicalAnd \/ op = OpLogicalOr ->
      value_rule op (Ty_Scalar Sc_Bool) [Ty_Scalar Sc_Bool; Ty_Scalar Sc_Bool] []
  | vr_fneg t : is_float t = true -> value_rule OpFNegate t [t] []
  | vr_sneg t : is_integer t = true -> value_rule OpSNegate t [t] []
  | vr_lnot t : is_bool t = true -> value_rule OpLogicalNot t [t] []
  | vr_not t : is_integer t = true -> value_rule OpNot t [t] []
  | vr_any n : value_rule OpAny (Ty_Scalar Sc_Bool) [Ty_Vector Sc_Bool n] []
  | vr_s2f : value_rule OpConvertSToF (Ty_Scalar Sc_Float) [Ty_Scalar Sc_Int] []
  | vr_u2f : value_rule OpConvertUToF (Ty_Scalar Sc_Float) [Ty_Scalar Sc_Uint] []
  | vr_f2s : value_rule OpConvertFToS (Ty_Scalar Sc_Int) [Ty_Scalar Sc_Float] []
  | vr_f2u : value_rule OpConvertFToU (Ty_Scalar Sc_Uint) [Ty_Scalar Sc_Float] []
  | vr_extract k n i : (0 <= i < n)%Z -> value_rule OpCompositeExtract (Ty_Scalar k) [Ty_Vector k n] [i]
  | vr_shuffle k n is_ :
      Forall (fun i => 0 <= i < 2 * n)%Z is_ -> (2 <= length is_ <= 4)%nat ->
      value_rule OpVectorShuffle (Ty_Vector k (Z.of_nat (length is_))) [Ty_Vector k n; Ty_Vector k n] is_
  | vr_construct k n ts : (2 <= length ts)%nat -> sum_components k ts = Some n ->
      value_rule OpCompositeConstruct (Ty_Vector k n) ts []
  | vr_dot n : value_rule OpDot (Ty_Scalar Sc_Float) [Ty_Vector Sc_Float n; Ty_Vector Sc_Float n] []
  | vr_mv rows cols : value_rule OpMatrixTimesVector (Ty_Vector Sc_Float rows)
      [Ty_Matrix Sc_Float rows cols; Ty_Vector Sc_Float cols] []
  | vr_vm rows cols : value_rule OpVectorTimesMatrix (Ty_Vector Sc_Float cols)
      [Ty_Vector Sc_Float rows; Ty_Matrix Sc_Float rows cols] []
  | vr_mm rows n cols : value_rule OpMatrixTimesMatrix (Ty_Matrix Sc_Float rows cols)
      [Ty_Matrix Sc_Float rows n; Ty_Matrix Sc_Float n cols] [].

(** The extended instructions of [GLSL.std.450]: on floats, operands and result
    of one type, except for the length and the cross product. *)
Definition ext_rule (op : Z) (t : Type_) (ts : list Type_) : Prop :=
  (if (op =? glsl_LENGTH)%Z then t = Ty_Scalar Sc_Float /\ exists u, is_float u = true /\ ts = [u]
   else is_float t = true /\ Forall (eq t) ts /\ ts <> []) /\
  (op = glsl_CROSS -> t = Ty_Vector Sc_Float 3).

(** Well-typed instructions of a function body. *)
Inductive inst_typed : Instruction -> Prop :=
  | it_value op ty r ids ls t ts :
      den ty t -> Forall2 has ids ts -> value_rule op t ts ls ->
      inst_typed (mkInst op (Some ty) (Some r) ((IdRef <$> ids) ++ (LiteralBit32 <$> ls)))
  | it_ext ty r set op ids t ts :
      den ty t -> Forall2 has ids ts -> ext_rule op t ts ->
      inst_typed (mkInst OpExtInst (Some ty) (Some r) (IdRef set :: LiteralBit32 op :: (IdRef <$> ids)))
  | it_load ty r p sc t : den ty t -> points p sc t -> inst_typed (mkInst OpLoad (Some ty) (Some r) [IdRef p])
  | it_store p v sc t : points p sc t -> sc = SC_Function \/ sc = SC_Output -> has v t ->
      inst_typed (mkInst OpStore None None [IdRef p; IdRef v])
  | it_chain ty r p i sc name k t :
      den_ptr ty sc t -> points p sc (Ty_Struct name) -> index_const i k -> member_type name k t ->
      inst_typed (mkInst OpAccessChain (Some ty) (Some r) [IdRef p; IdRef i])
  | it_var ty r t : den_ptr ty SC_Function t -> inst_typed (mkInst OpVariable (Some ty) (Some r) [StorageOperand SC_Function])
  | it_branch l : inst_typed (term_inst (branch l))
  | it_cond c t e : has c (Ty_Scalar Sc_Bool) -> inst_typed (term_inst (branch_conditional c t e))
  | it_ret : inst_typed (term_inst ret)
  | it_selection m : inst_typed (effect_inst (selection_merge m))
  | it_loop m c : inst_typed (effect_inst (loop_merge m c)).
End Denotation.

(** Every instruction of the functions of a module is well-typed, for the
    struct types that [sid] names. *)
Definition module_insts (m : Module_) : list Instruction :=
  m_functions m ≫= fun f => all_insts (f_blocks f).
Definition module_typed (m : Module_) : Prop :=
  exists sid,
    map_Forall (fun _ r => exists ms, type_inst (type_struct ms) r ∈ m_globals m) sid /\
    forall i, i ∈ module_insts m -> inst_typed sid (m_globals m) (m_globals m ++ module_insts m) i.

(** ** HLSL: a strict checker *)

(** What names stand for: the members of structs, the type and storage of
    globals, which of them are members of constant buffers, and the locals, the
    latest last. *)
Record TEnv := mkTEnv {
  te_structs : gmap string (list StructMember);
  te_globals : gmap string (Type_ * StorageClass);
  te_members : gmap string unit;
  te_locals : list (string * Type_);
  te_out : option Type_ }.

Definition te_local (n : string) (te : TEnv) : option Type_ :=
  snd <$> head (filter (fun p => p.1 = n) (rev (te_locals te))).

(** Types with a value: the generator has an id for them. *)
Definition type_ok (te : TEnv) (t : Type_) : bool :=
  match t with
  | Ty_Texture2D | Ty_SamplerState => false
  | Ty_Struct n => bool_decide (is_Some (te_structs te !! n))
  | _ => true
  end.

(** The type and storage class of a place. A member of a struct is a place when
    the struct is a local. *)
Fixpoint place_ty (te : TEnv) (e : Expr) : option (Type_ * StorageClass) :=
  match e with
  | E_Ident n =>
      match te_local n te with
      | Some t => Some (t, SC_Function)
      | None =>
          match te_members te !! n with
          | Some _ =>
              match te_globals te !! n with
              | Some (t, _) => if type_ok te t then Some (t, SC_Uniform) else None
              | None => None
              end
          | None => te_globals te !! n
          end
      end
  | E_Member base m =>
      match place_ty te base with
      | Some (Ty_Struct n, SC_Function) =>
          match te_structs te !! n with
          | Some ms =>
              match find_member m 0 ms with
              | Some (_, x) => if type_ok te (sm_ty x) then Some (sm_ty x, SC_Function) else None
              | None => None
              end
          | None => None
          end
      | _ => None
      end
  | _ => None
  end.

(** Expressions whose type the generator can infer without emitting code. *)
Fixpoint can_infer (e : Expr) : bool :=
  match e with
  | E_Literal _ | E_Construct _ _ | E_Cast _ _ | E_Ident _ => true
  | E_Member base _ => can_infer base
  | E_Call name args =>
      String.eqb name "length" ||
      match args with
      | a :: args =>
          can_infer a &&
          (String.eqb name "dot" || infer_first_arg name ||
           (String.eqb name "mul" && match args with b :: _ => can_infer b | [] => false end))
      | [] => false
      end
  | E_MethodCall _ _ _ => false
  | E_Binary op l r =>
      if is_comparison op then can_infer l
      else match op with Op_And | Op_Or => true | _ => can_infer l && can_infer r end
  | E_Unary _ e => can_infer e
  end.

(** The result type of a call of an intrinsic on arguments of types [ts]. *)
Definition call_ty (name : string) (ts : list Type_) : option Type_ :=
  if String.eqb name "saturate" then
    match ts with
    | [t] => if is_float t && match t with Ty_Vector _ n => (2 <=? n)%Z | _ => true end then Some t else None
    | _ => None
    end
  else if String.eqb name "dot" then
    match ts with
    | [Ty_Vector Sc_Float n; Ty_Vector Sc_Float m] => if bool_decide (n = m) then Some (Ty_Scalar Sc_Float) else None
    | _ => None
    end
  else if String.eqb name "mul" then
    match ts with
    | [Ty_Matrix Sc_Float r c; Ty_Vector Sc_Float n] => if bool_decide (n = c) then Some (Ty_Vector Sc_Float r) else None
    | [Ty_Vector Sc_Float n; Ty_Matrix Sc_Float r c] =>
        if bool_decide (n = r /\ r = c) then Some (Ty_Vector Sc_Float c) else None
    | [Ty_Matrix Sc_Float r n; Ty_Matrix Sc_Float m c] => if bool_decide (n = m) then Some (Ty_Matrix Sc_Float r c) else None
    | [a; b] => if bool_decide (a = b) && is_numeric a then Some a else None
    | _ => None
    end
  else
    match glsl_op name, ts with
    | Some (op, arity), t :: _ =>
        if (length ts =? arity)%nat && is_float t && forallb (fun u => bool_decide (u = t)) ts then
          if String.eqb name "length" then Some (Ty_Scalar Sc_Float)
          else if String.eqb name "cross" then if bool_decide (t = Ty_Vector Sc_Float 3) then Some t else None
          else Some t
        else None
    | _, _ => None
    end.

Definition construct_ty (ty : Type_) (ts : list Type_) : option Type_ :=
  match ty with
  | Ty_Scalar Sc_Float => match ts with [Ty_Scalar Sc_Float] => Some ty | _ => None end
  | Ty_Scalar k =>
      match ts with
      | [Ty_Scalar k'] =>
          if bool_decide (k' = k) then Some ty
          else match k', k with Sc_Float, (Sc_Int | Sc_Uint) => Some ty | _, _ => None end
      | _ => None
      end
  | Ty_Vector k n =>
      if bool_decide (2 <= n <= 4)%Z then
        match ts with
        | [t] => if bool_decide (t = Ty_Scalar k) then Some ty else None
        | _ => if bool_decide (sum_components k ts = Some n /\ (2 <= length ts)%nat) then Some ty else None
        end
      else None
  | _ => None
  end.

Definition binary_ty (op : BinaryOp) (l r : Type_) : option Type_ :=
  if bool_decide (l = r) then
    if is_comparison op then if is_numeric l then Some (bool_of l) else None
    else match op with
    | Op_And | Op_Or => if bool_decide (l = Ty_Scalar Sc_Bool) then Some l else None
    | Op_Add | Op_Sub | Op_Mul | Op_Div => if is_numeric l then Some l else None
    | _ => None
    end
  else None.

Definition unary_ty (op : UnaryOp) (t : Type_) : option Type_ :=
  match op with
  | Un_Neg => if is_numeric t then Some t else None
  | Un_Not => if is_bool t then Some t else None
  | Un_BitNot => if is_integer t then Some t else None
  end.

Fixpoint expr_ty (te : TEnv) (e : Expr) : option Type_ :=
  match e with
  | E_Literal (Lit_Float _) => Some (Ty_Scalar Sc_Float)
  | E_Literal (Lit_Int _) => Some (Ty_Scalar Sc_Int)
  | E_Literal (Lit_Uint _) => Some (Ty_Scalar Sc_Uint)
  | E_Literal (Lit_Bool _) => Some (Ty_Scalar Sc_Bool)
  | E_Ident n => fst <$> place_ty te (E_Ident n)
  | E_Construct ty args => ts ← mapM (expr_ty te) args; construct_ty ty ts
  | E_Member base m =>
      if can_infer base then
        match expr_ty te base with
        | Some (Ty_Struct _) => fst <$> place_ty te (E_Member base m)
        | Some (Ty_Vector k n) =>
            match decode_swizzle m with
            | Some comps => if forallb (fun i => (i <? n)%Z) comps then Some (swizzle_type k comps) else None
            | None => None
            end
        | _ => None
        end
      else None
  | E_Call name args => ts ← mapM (expr_ty te) args; call_ty name ts
  | E_MethodCall _ _ _ => None
  | E_Binary op lhs rhs =>
      match op with
      | Op_Assign | Op_AddAssign | Op_SubAssign | Op_MulAssign | Op_DivAssign =>
          match place_ty te lhs, expr_ty te rhs with
          | Some (t, SC_Function), Some u =>
              if bool_decide (t = u) && type_ok te t &&
                 match compound_op op with Some _ => is_numeric t | None => true end
              then Some t else None
          | _, _ => None
          end
      | _ =>
          match expr_ty te lhs, expr_ty te rhs with
          | Some l, Some r => binary_ty op l r
          | _, _ => None
          end
      end
  | E_Unary op e => t ← expr_ty te e; unary_ty op t
  | E_Cast ty e =>
      t ← expr_ty te e;
      if type_ok te ty && (bool_decide (t = ty) || bool_decide (is_Some (cast_op t ty))) then Some ty else None
  end.

(** ** Statements *)

Definition push_te (n : string) (t : Type_) (te : TEnv) : TEnv :=
  mkTEnv (te_structs te) (te_globals te) (te_members te) (te_locals te ++ [(n, t)]) (te_out te).

(** A statement after which the block is over. *)
Fixpoint terminates (s : Stmt) : bool :=
  match s with
  | S_Return _ => true
  | S_Block b => (fix go b := match b with [] => false | [s] => terminates s | _ :: b => go b end) b
  | _ => false
  end.

Definition cond_ok (te : TEnv) (e : Expr) : bool :=
  match expr_ty te e with Some t => is_bool t | None => false end.

Section CheckBlock.
Variable check_stmt : TEnv -> Stmt -> option TEnv.
(** Statements in order; nothing may follow a statement that ends the block. *)
Definition check_block : TEnv -> Block -> option TEnv :=
  fix go te b :=
    match b with
    | [] => Some te
    | s :: b =>
        match check_stmt te s with
        | Some te' => if terminates s then match b with [] => Some te' | _ => None end else go te' b
        | None => None
        end
    end.
End CheckBlock.

(** Names are resolved as the generator does: a declaration stays visible after
    the block that holds it. *)
Fixpoint check_stmt (te : TEnv) (s : Stmt) : option TEnv :=
  match s with
  | S_Return None => Some te
  | S_Return (Some e) =>
      match expr_ty te e with
      | Some t => match te_out te with
          | Some o => if bool_decide (t = o) then Some te else None
          | None => Some te
          end
      | None => None
      end
  | S_VarDecl d =>
      if type_ok te (vd_ty d) &&
         match vd_init d with
         | Some e => bool_decide (expr_ty te e = Some (vd_ty d))
         | None => true
         end
      then Some (push_te (vd_name d) (vd_ty d) te) else None
  | S_Expr e => match expr_ty te e with Some _ => Some te | None => None end
  | S_If c t e =>
      if cond_ok te c then
        match check_block check_stmt te t with
        | Some te1 => match e with Some e => check_block check_stmt te1 e | None => Some te1 end
        | None => None
        end
      else None
  | S_For i c u b =>
      match (match i with Some s => if terminates s then None else check_stmt te s | None => Some te end) with
      | Some te1 =>
          if match c with Some c => cond_ok te1 c | None => true end then
            match check_block check_stmt te1 b with
            | Some te2 =>
                match u with
                | Some u => match expr_ty te2 u with Some _ => Some te2 | None => None end
                | None => Some te2
                end
            | None => None
            end
          else None
      | None => None
      end
  | S_Block b => check_block check_stmt te b
  end.

(** ** Declarations *)

Definition set_te_struct (n : string) (ms : list StructMember) (te : TEnv) : TEnv :=
  mkTEnv (<[n := ms]> (te_structs te)) (te_globals te) (te_members te) (te_locals te) (te_out te).
Definition set_te_global (n : string) (t : Type_) (sc : StorageClass) (te : TEnv) : TEnv :=
  mkTEnv (te_structs te) (<[n := (t, sc)]> (te_globals te)) (te_members te) (te_locals te) (te_out te).
Definition set_te_member (n : string) (te : TEnv) : TEnv :=
  mkTEnv (te_structs te) (te_globals te) (<[n := tt]> (te_members te)) (te_locals te) (te_out te).
Definition set_te_out (t : Type_) (te : TEnv) : TEnv :=
  mkTEnv (te_structs te) (te_globals te) (te_members te) (te_locals te) (Some t).

(** No two globals share a name. *)
Definition new_global (n : string) (t : Type_) (sc : StorageClass) (te : TEnv) : option TEnv :=
  if bool_decide (te_globals te !! n = None) then Some (set_te_global n t sc te) else None.

Definition members_ok (te : TEnv) (ms : list StructMember) : bool :=
  forallb (fun m => type_ok te (sm_ty m)) ms && (Z.of_nat (length ms) <? 2 ^ 31)%Z.

Fixpoint check_members (te : TEnv) (ms : list StructMember) : option TEnv :=
  match ms with
  | [] => Some te
  | m :: ms =>
      te ← new_global (sm_name m) (sm_ty m) SC_Uniform te;
      check_members (set_te_member (sm_name m) te) ms
  end.

Definition check_decl (te : TEnv) (d : Decl) : option TEnv :=
  match d with
  | D_Struct s =>
      if bool_decide (is_Some (te_structs te !! sd_name s)) then Some te
      else if members_ok te (sd_members s) then Some (set_te_struct (sd_name s) (sd_members s) te) else None
  | D_CBuffer c =>
      if bool_decide (te_structs te !! cb_name c = None) && members_ok te (cb_members c) then
        te ← new_global (cb_name c) (Ty_Struct (cb_name c)) SC_Uniform (set_te_struct (cb_name c) (cb_members c) te);
        check_members te (cb_members c)
      else None
  | D_GlobalVar g =>
      match gv_ty g with
      | Ty_Texture2D | Ty_SamplerState => new_global (gv_name g) (gv_ty g) SC_UniformConstant te
      | _ => None
      end
  | D_Function _ => Some te
  end.
Fixpoint check_decls (te : TEnv) (u : TranslationUnit) : option TEnv :=
  match u with
  | [] => Some te
  | d :: u => te ← check_decl te d; check_decls te u
  end.

(** A parameter is read from an input variable into a local. *)
Definition check_input (te : TEnv) (p : Param) : option TEnv :=
  match p_ty p with
  | Ty_Struct _ | Ty_Scalar _ | Ty_Vector _ _ =>
      if type_ok te (p_ty p) then new_global (p_name p) (p_ty p) SC_Input te else None
  | _ => None
  end.
Fixpoint check_inputs (te : TEnv) (ps : list Param) : option TEnv :=
  match ps with
  | [] => Some te
  | p :: ps => te ← check_input te p; check_inputs te ps
  end.
Definition bind_params (te : TEnv) (ps : list Param) : TEnv :=
  foldl (fun te p => push_te (p_name p) (p_ty p) te) te ps.

Definition check_output (te : TEnv) (t : Type_) : option TEnv :=
  match t with
  | Ty_Struct _ => if type_ok te t then Some (set_te_out t te) else None
  | Ty_Vector Sc_Float 4 => Some (set_te_out t te)
  | _ => None
  end.

Definition te_empty : TEnv := mkTEnv ∅ ∅ ∅ [] None.

Definition check_unit (u : TranslationUnit) : bool :=
  match find_main u with
  | Some f =>
      match te ← check_decls te_empty u; te ← check_inputs te (fd_params f); check_output te (fd_return_type f) with
      | Some te =>
          match fd_body f with
          | Some b => bool_decide (is_Some (check_block check_stmt (bind_params te (fd_params f)) b))
          | None => false
          end
      | None => false
      end
  | None => false
  end.
