(* ===== verification/HlslTyping.v ===== *)
(** * Well-typed programs compile to well-typed modules

    A program that the strict checker of [HlslTypes.v] accepts compiles, and
    every instruction of the module obeys the typing rules of SPIR-V. [tok] ties
    the checker's environment to the generator's context and to the module under
    construction; [run] is a total Hoare triple: the generator returns a value. *)
From Stdlib Require Import ZArith Lia String.
From stdpp Require Import base list option gmap strings sets.
From S2P Require Import Prelude HlslAst SpirvBuilder HlslCodegen HlslShape HlslSsa HlslTypes.
Local Open Scope rust_scope.
Set Warnings "-register-all".

(** ** The typing rules are monotone in the module *)

Section Monotone.
Context (sid sid' : gmap string Z) (gl gl' D D' : list Instruction).
Hypothesis (Hs : sid ⊆ sid') (Hg : gl ⊆ gl') (HD : D ⊆ D').

Lemma den_mono r t : den sid gl r t -> den sid' gl' r t.
Proof. induction 1; econstructor; eauto using lookup_weaken; by apply Hg. Qed.

Lemma den_ptr_mono r sc t : den_ptr sid gl r sc t -> den_ptr sid' gl' r sc t.
Proof. intros (tid & ? & ?). exists tid. split; [by apply Hg|by apply den_mono]. Qed.

Lemma has_mono x t : has sid gl D x t -> has sid' gl' D' x t.
Proof. intros (i & tid & ? & ? & ? & ?). exists i, tid. split_and!; [by apply HD|done..|by apply den_mono]. Qed.

Lemma points_mono x sc t : points sid gl D x sc t -> points sid' gl' D' x sc t.
Proof. intros (i & tid & ? & ? & ? & ?). exists i, tid. split_and!; [by apply HD|done..|by apply den_ptr_mono]. Qed.

Lemma index_const_mono x v : index_const sid gl x v -> index_const sid' gl' x v.
Proof. intros (tid & ? & ?). exists tid. split; [by apply Hg|by apply den_mono]. Qed.

Lemma member_type_mono n k t : member_type sid gl n k t -> member_type sid' gl' n k t.
Proof.
  intros (r & ms & tid & ? & ? & ? & ?). exists r, ms, tid.
  split_and!; [by eapply lookup_weaken|by apply Hg|done|by apply den_mono].
Qed.

Lemma inst_typed_mono i : inst_typed sid gl D i -> inst_typed sid' gl' D' i.
Proof.
  destruct 1; try (econstructor; eauto using den_mono, den_ptr_mono, has_mono, points_mono, index_const_mono, member_type_mono; fail).
  - eapply it_value; eauto using den_mono. eapply Forall2_impl; [done|apply has_mono].
  - eapply it_ext; eauto using den_mono. eapply Forall2_impl; [done|apply has_mono].
Qed.
End Monotone.

(** The position of the construction in the module. *)
Inductive mode := Declaring | Entered | Open | Closed.
Definition in_function (s : Shape) : Prop := exists d, s_def s = Some d /\ is_Some (i_id d).
Definition at_ (m : mode) (s : Shape) : Prop :=
  match m with
  | Declaring => s_def s = None /\ s_done s = [] /\ s_cur s = None
  | Entered => in_function s /\ s_done s = [] /\ s_cur s = None
  | Open => in_function s /\ is_Some (s_cur s)
  | Closed => in_function s /\ s_done s <> [] /\ s_cur s = None
  end.

(** Same functions and blocks. *)
Definition same_code (s s' : Shape) : Prop := s_def s' = s_def s /\ s_done s' = s_done s /\ s_cur s' = s_cur s.

Lemma same_code_at m s s' : same_code s s' -> at_ m s -> at_ m s'.
Proof. intros (E1 & E2 & E3). unfold at_, in_function. by rewrite E1, E2, E3. Qed.

Lemma same_code_blocks s s' : same_code s s' -> s_blocks s' = s_blocks s.
Proof. intros (E1 & E2 & E3). unfold s_blocks. by rewrite E2, E3. Qed.

Section Typing.
Context {B : Type} {HB : Builder B} {HL : BuilderLaws B}.
Abbreviation Cx := (Ctx (B := B)).
Abbreviation G := (M Cx CodegenError).

(** ** The invariant *)

(** Struct types by name, and the instructions that define ids with a type. *)
Definition sids (c : Cx) : gmap string Z := si_type_id <$> c_structs c.
Definition body (s : Shape) : list Instruction := all_insts (s_blocks s).
Definition typed_defs (s : Shape) : list Instruction := s_glob s ++ body s.

Abbreviation Den c s := (den (sids c) (s_glob s)).
Abbreviation Has c s := (has (sids c) (s_glob s) (typed_defs s)).
Abbreviation Points c s := (points (sids c) (s_glob s) (typed_defs s)).
Abbreviation Typed c s := (inst_typed (sids c) (s_glob s) (typed_defs s)).

Definition struct_ok (c : Cx) (s : Shape) (i : StructInfo) : Prop :=
  (Z.of_nat (length (si_members i)) < 2 ^ 31)%Z /\
  exists ms, type_inst (type_struct ms) (si_type_id i) ∈ s_glob s /\
    Forall2 (fun r m => Den c s r (sm_ty m)) ms (si_members i).

Definition global_ok (c : Cx) (s : Shape) (n : string) (g : Place) (t : Type_ * StorageClass) : Prop :=
  pl_ty g = t.1 /\ (c_cbuffer_members c !! n = None -> Points c s (pl_ptr g) t.2 t.1).

Definition member_ok (te : TEnv) (c : Cx) (s : Shape) (n : string) (m : Z * Z) : Prop :=
  exists t sc name k, te_globals te !! n = Some (t, sc) /\ Points c s m.1 SC_Uniform (Ty_Struct name) /\
    index_const (sids c) (s_glob s) m.2 k /\ member_type (sids c) (s_glob s) name k t.

Definition local_ok (c : Cx) (s : Shape) (l : string * Place) (t : string * Type_) : Prop :=
  l.1 = t.1 /\ pl_ty l.2 = t.2 /\ Points c s (pl_ptr l.2) SC_Function t.2.

Record tok (te : TEnv) (c : Cx) (s : Shape) : Prop := {
  tk_repr : st c s;
  tk_void : Den c s (c_void_t c) Ty_Void;
  tk_bool : Den c s (c_bool_t c) (Ty_Scalar Sc_Bool);
  tk_float : Den c s (c_float_t c) (Ty_Scalar Sc_Float);
  tk_int : Den c s (c_int_t c) (Ty_Scalar Sc_Int);
  tk_uint : Den c s (c_uint_t c) (Ty_Scalar Sc_Uint);
  tk_structs : te_structs te = si_members <$> c_structs c;
  tk_struct n i : c_structs c !! n = Some i -> struct_ok c s i;
  tk_globals n : option_Forall2 (global_ok c s n) (c_globals c !! n) (te_globals te !! n);
  tk_members n : option_Forall2 (fun m _ => member_ok te c s n m) (c_cbuffer_members c !! n) (te_members te !! n);
  tk_locals : Forall2 (local_ok c s) (c_locals c) (te_locals te);
  tk_out : option_Forall2 (fun o t => Points c s o SC_Output t) (c_out_var c) (te_out te);
  tk_insts i : i ∈ body s -> Typed c s i }.

(** The module grows, and so do the struct types. *)
Record grow (c : Cx) (s : Shape) (c' : Cx) (s' : Shape) : Prop := {
  gr_structs : c_structs c ⊆ c_structs c';
  gr_glob : s_glob s ⊆ s_glob s';
  gr_body : body s ⊆ body s' }.

Lemma grow_refl c s : grow c s c s.
Proof. by constructor. Qed.
Lemma grow_trans c1 s1 c2 s2 c3 s3 : grow c1 s1 c2 s2 -> grow c2 s2 c3 s3 -> grow c1 s1 c3 s3.
Proof. intros [] []. constructor; etrans; eauto. Qed.

Lemma grow_sids c s c' s' : grow c s c' s' -> sids c ⊆ sids c'.
Proof. intros []. by apply map_fmap_mono. Qed.
Lemma grow_defs c s c' s' : grow c s c' s' -> typed_defs s ⊆ typed_defs s'.
Proof. intros []. unfold typed_defs. intros x. rewrite !elem_of_app. intros [?|?]; auto. Qed.

Section Grow.
Context c s c' s' (HG : grow c s c' s').

Lemma Den_grow r t : Den c s r t -> Den c' s' r t.
Proof. apply den_mono; [by eapply grow_sids|apply HG]. Qed.
Lemma Has_grow x t : Has c s x t -> Has c' s' x t.
Proof. apply has_mono; [by eapply grow_sids|apply HG|by eapply grow_defs]. Qed.
Lemma Points_grow x sc t : Points c s x sc t -> Points c' s' x sc t.
Proof. apply points_mono; [by eapply grow_sids|apply HG|by eapply grow_defs]. Qed.
Lemma Typed_grow i : Typed c s i -> Typed c' s' i.
Proof. apply inst_typed_mono; [by eapply grow_sids|apply HG|by eapply grow_defs]. Qed.
Lemma index_grow x v : index_const (sids c) (s_glob s) x v -> index_const (sids c') (s_glob s') x v.
Proof. apply index_const_mono; [by eapply grow_sids|apply HG]. Qed.
Lemma member_grow n k t : member_type (sids c) (s_glob s) n k t -> member_type (sids c') (s_glob s') n k t.
Proof. apply member_type_mono; [by eapply grow_sids|apply HG]. Qed.
Lemma struct_grow i : struct_ok c s i -> struct_ok c' s' i.
Proof.
  intros (Hl & ms & Hin & Hms). split; [done|]. exists ms. split; [by apply HG|].
  eapply Forall2_impl; [done|]. intros. by apply Den_grow.
Qed.
Lemma member_ok_grow te n m : member_ok te c s n m -> member_ok te c' s' n m.
Proof.
  intros (t & sc & name & k & ? & ? & ? & ?). exists t, sc, name, k.
  split_and!; [done|by apply Points_grow|by apply index_grow|by apply member_grow].
Qed.
Lemma local_grow l t : local_ok c s l t -> local_ok c' s' l t.
Proof. intros (? & ? & ?). split_and!; [done..|by apply Points_grow]. Qed.
End Grow.

(** A builder call: the tables stay, the code grows by well-typed instructions. *)
Lemma tok_step te c s b s' :
  tok te c s -> repr (b_view b) s' -> s_glob s ⊆ s_glob s' -> body s ⊆ body s' ->
  (forall i, i ∈ body s' -> i ∈ body s \/ inst_typed (sids c) (s_glob s') (typed_defs s') i) ->
  tok te (set_builder b c) s' /\ grow c s (set_builder b c) s'.
Proof.
  intros [] Hr Hg Hb Hi. assert (grow c s (set_builder b c) s') as HG by (by constructor). split; [|done].
  constructor; try done; eauto using Den_grow; try (by eapply Den_grow).
  - intros n i Hn. by eapply struct_grow, tk_struct0.
  - intros n. simpl. destruct (tk_globals0 n) as [g t [H1 H2]|]; constructor. split; [done|].
    intros. eapply Points_grow; [done|]. by apply H2.
  - intros n. simpl. destruct (tk_members0 n) as [g t H1|]; constructor. by eapply member_ok_grow.
  - eapply Forall2_impl; [done|]. intros. by eapply local_grow.
  - simpl. destruct tk_out0 as [o t H1|]; constructor. by eapply Points_grow.
  - intros i Hin. destruct (Hi i Hin) as [Hin'|Ht]; [|done]. eapply Typed_grow; [done|]. auto.
Qed.

(** ** Total triples *)

Definition run {A} (c : Cx) (s : Shape) (p : G A) (R : A -> Cx -> Shape -> Prop) : Prop :=
  exists a c' s', p c = (Ok a, c') /\ grow c s c' s' /\ R a c' s'.

Lemma run_bind {A C} c s (p : G A) (f : A -> G C) R1 R :
  run c s p R1 ->
  (forall a c1 s1, grow c s c1 s1 -> R1 a c1 s1 -> run c1 s1 (f a) R) ->
  run c s (mbind p f) R.
Proof.
  intros (a & c1 & s1 & E1 & G1 & H1) Hf. destruct (Hf a c1 s1 G1 H1) as (d & c2 & s2 & E2 & G2 & H2).
  exists d, c2, s2. split_and!; [|by eapply grow_trans|done]. unfold mbind. by rewrite E1.
Qed.

Lemma run_mono {A} c s (p : G A) (R R' : A -> Cx -> Shape -> Prop) :
  run c s p R -> (forall a c' s', grow c s c' s' -> R a c' s' -> R' a c' s') -> run c s p R'.
Proof. intros (a & c' & s' & ? & ? & ?) HR. exists a, c', s'. eauto. Qed.

Lemma run_ret {A} c s (a : A) (R : A -> Cx -> Shape -> Prop) : R a c s -> run c s (mret a) R.
Proof. intros. exists a, c, s. split_and!; [done|apply grow_refl|done]. Qed.

Lemma run_pure {A C} c s (a : A) (f : A -> G C) R : run c s (f a) R -> run c s (mbind (mret a) f) R.
Proof. done. Qed.
Lemma run_gets {A C} c s (g : Cx -> A) (f : A -> G C) R : run c s (f (g c)) R -> run c s (mbind (gets g) f) R.
Proof. done. Qed.
Lemma run_mget {C} c s (f : Cx -> G C) R : run c s (f c) R -> run c s (mbind mget f) R.
Proof. done. Qed.
Lemma run_ok_or {A C} c s (o : option A) e (f : A -> G C) a R :
  o = Some a -> run c s (f a) R -> run c s (mbind (ok_or o e) f) R.
Proof. by intros ->. Qed.
Lemma run_lift {A C} c s (o : outcome CodegenError A) (f : A -> G C) a R :
  o = Ok a -> run c s (f a) R -> run c s (mbind (lift_outcome o) f) R.
Proof. by intros ->. Qed.

Lemma run_assoc {A C D} c s (p : G A) (f : A -> G C) (g : C -> G D) R :
  run c s (mbind p (fun a => mbind (f a) g)) R -> run c s (mbind (mbind p f) g) R.
Proof. intros (a & c' & s' & E & ? & ?). exists a, c', s'. by rewrite mbind_assoc. Qed.

(** What a piece of the generator ends in: the invariant, a mode, and a fact of
    its result. *)
Definition tpost {A} (te : TEnv) (m : mode) (Q : Cx -> Shape -> A -> Prop) (a : A) (c : Cx) (s : Shape) : Prop :=
  tok te c s /\ at_ m s /\ Q c s a.
Abbreviation whatever := (fun _ _ _ => True).

Lemma run_bld {A} c s (f : B -> A * B) a b s' (R : A -> Cx -> Shape -> Prop) :
  f (c_builder c) = (a, b) -> grow c s (set_builder b c) s' -> R a (set_builder b c) s' -> run c s (bld f) R.
Proof. intros Ef HE HR. exists a, (set_builder b c), s'. unfold bld. by rewrite Ef. Qed.
Lemma run_try_bld {A} n c s (f : B -> outcome unit A * B) a b s' (R : A -> Cx -> Shape -> Prop) :
  f (c_builder c) = (Ok a, b) -> grow c s (set_builder b c) s' -> R a (set_builder b c) s' -> run c s (try_bld n f) R.
Proof. intros Ef HE HR. exists a, (set_builder b c), s'. unfold try_bld. by rewrite Ef. Qed.

(** ** Calls that keep the code *)

Lemma tok_same_code te m c s b s' :
  tok te c s -> at_ m s -> repr (b_view b) s' -> s_glob s ⊆ s_glob s' -> same_code s s' ->
  grow c s (set_builder b c) s' /\ tok te (set_builder b c) s' /\ at_ m s'.
Proof.
  intros Ht Ha Hr Hg Hs. assert (body s' = body s) as Eb by (unfold body; by rewrite (same_code_blocks _ _ Hs)).
  destruct (tok_step te c s b s') as [H1 H2]; [done..|by rewrite Eb|rewrite Eb; auto|].
  split_and!; [done..|]. by eapply same_code_at.
Qed.

Lemma run_header te m c s h : tok te c s -> at_ m s -> run c s (header h) (tpost te m whatever).
Proof.
  intros Ht Ha. destruct (tok_same_code te m c s (b_header h (c_builder c)) s) as (H1 & H2 & H3); [done..| |done|done|].
  - rewrite header_law. apply repr_header, Ht.
  - eapply run_bld; [done|exact H1|by split_and!].
Qed.

Lemma run_id te m c s : tok te c s -> at_ m s -> run c s builder_id (tpost te m whatever).
Proof.
  intros Ht Ha. destruct (id_law (c_builder c)) as (b & Eb & Hv).
  destruct (tok_same_code te m c s b (s_bump s)) as (H1 & H2 & H3); [done..| |done|done|].
  - rewrite Hv. apply repr_bump, Ht.
  - eapply run_bld; [done|exact H1|by split_and!].
Qed.

Lemma add_global_glob i s : s_glob s ⊆ s_glob (add_global i s) /\ i ∈ s_glob (add_global i s).
Proof. simpl. split; [intros x|]; rewrite elem_of_app; [tauto|]. right. left. Qed.

Lemma run_push_global te m c s i :
  tok te c s -> at_ m s -> run c s (push_global_value i) (tpost te m (fun _ s _ => i ∈ s_glob s)).
Proof.
  intros Ht Ha. set (b := b_set_module (push_global i (b_module (c_builder c))) (c_builder c)).
  destruct (add_global_glob i s) as [Hg1 Hg2].
  destruct (tok_same_code te m c s b (add_global i s)) as (H1 & H2 & H3); [done..| |done|done|].
  - unfold b. rewrite set_module_law, <- view_module. apply repr_global, Ht.
  - eapply run_bld; [done|exact H1|by split_and!].
Qed.

Lemma run_const te m c s op t ops :
  tok te c s -> at_ m s ->
  run c s (let! id := builder_id in push_global_value (mkInst op (Some t) (Some id) ops) ;;; mret id)
    (tpost te m (fun _ s r => mkInst op (Some t) (Some r) ops ∈ s_glob s)).
Proof.
  intros Ht Ha. eapply run_bind; [by apply run_id|]. intros r c1 s1 _ (Ht1 & Ha1 & _).
  eapply run_bind; [by apply run_push_global|]. intros [] c2 s2 _ (Ht2 & Ha2 & Hin). by apply run_ret.
Qed.

(** A type call of the builder, in any state. *)
Lemma type_call b s tc : repr (b_view b) s ->
  exists r b' s', b_type tc b = (r, b') /\ repr (b_view b') s' /\ same_code s s' /\ s_glob s ⊆ s_glob s' /\
    type_inst tc r ∈ s_glob s'.
Proof.
  intros Hst. destruct (type_law tc b) as (r & b' & Eb & Hr). exists r, b'. destruct Hr as [[Hv Hin]|[-> Hv]].
  - exists s. split; [done|]. split; [by rewrite Hv|]. do 2 (split; [done|]).
    destruct Hst as (_ & <- & _). by rewrite view_module.
  - destruct (add_global_glob (type_inst tc (v_bound (b_view b))) s) as [Hg1 Hg2].
    exists (s_bump (add_global (type_inst tc (v_bound (b_view b))) s)). split; [done|].
    split; [rewrite Hv; by apply repr_bump, repr_global|done].
Qed.

Lemma run_btype te m c s tc :
  tok te c s -> at_ m s -> run c s (btype tc) (tpost te m (fun _ s r => type_inst tc r ∈ s_glob s)).
Proof.
  intros Ht Ha. destruct (type_call (c_builder c) s tc (tk_repr _ _ _ Ht)) as (r & b & s' & Eb & Hr & Hs & Hg & Hin).
  destruct (tok_same_code te m c s b s') as (H1 & H2 & H3); [done..|].
  eapply run_bld; [exact Eb|exact H1|by split_and!].
Qed.

(** A variable of the module. *)
Lemma run_variable te c s pt sc :
  tok te c s -> at_ Declaring s ->
  run c s (bld (b_variable pt sc)) (tpost te Declaring (fun _ s r =>
    mkInst OpVariable (Some pt) (Some r) [StorageOperand sc] ∈ s_glob s)).
Proof.
  intros Ht Ha. pose proof (tk_repr _ _ _ Ht) as Hst.
  destruct (variable_law pt sc (c_builder c)) as (b & Eb & Hv).
  { rewrite <- view_selected. by apply (repr_unselected _ s), Ha. }
  set (i := mkInst OpVariable (Some pt) (Some (v_bound (b_view (c_builder c)))) [StorageOperand sc]) in *.
  destruct (add_global_glob i s) as [Hg1 Hg2].
  destruct (tok_same_code te Declaring c s b (s_bump (add_global i s))) as (H1 & H2 & H3); [done..| |done|done|].
  - rewrite Hv. by apply repr_bump, repr_global.
  - eapply run_bld; [exact Eb|exact H1|by split_and!].
Qed.

(** ** Calls that append to the selected block *)

Lemma body_add_inst i s b : s_cur s = Some b -> body (add_inst i s) = body s ++ [i].
Proof.
  intros E. unfold body, all_insts. rewrite (blocks_add_inst _ _ _ E), (blocks_cur _ _ E), !bind_app. simpl.
  by rewrite !app_nil_r, app_assoc.
Qed.
Lemma body_finish i s : body (finish i s) = body (add_inst i s).
Proof. unfold body. by rewrite blocks_finish. Qed.

Lemma tok_append te c s i b s' :
  tok te c s -> Typed c s i -> repr (b_view b) s' -> s_glob s' = s_glob s -> body s' = body s ++ [i] ->
  grow c s (set_builder b c) s' /\ tok te (set_builder b c) s' /\ i ∈ body s'.
Proof.
  intros Ht Hi Hr Eg Eb. assert (body s ⊆ body s') as Hsub by (rewrite Eb; intros x; rewrite elem_of_app; tauto).
  destruct (tok_step te c s b s') as [H1 H2]; [done..|by rewrite Eg|done| |].
  - rewrite Eb. intros j [?|Hj]%elem_of_app; [by left|right]. apply list_elem_of_singleton in Hj as ->.
    eapply inst_typed_mono; [done|by rewrite Eg| |exact Hi]. intros x. unfold typed_defs. rewrite Eg, !elem_of_app.
    intros [?|?]; auto.
  - split_and!; [done..|]. rewrite Eb, elem_of_app. right. left.
Qed.

Lemma open_inst te c s i bl b :
  tok te c s -> at_ Open s -> s_cur s = Some bl -> Typed c s i ->
  b_view b = bump (on_mod (edit_last (push_inst (length (s_done s)) i)) (b_view (c_builder c))) \/
  b_view b = on_mod (edit_last (push_inst (length (s_done s)) i)) (b_view (c_builder c)) ->
  exists s', grow c s (set_builder b c) s' /\ tok te (set_builder b c) s' /\ at_ Open s' /\ i ∈ body s'.
Proof.
  intros Ht [Ha _] Ec Hi Hb. pose proof (tk_repr _ _ _ Ht) as Hst. pose proof (repr_inst i _ s bl Hst Ec) as Hr.
  destruct Hb as [Hb|Hb].
  - exists (s_bump (add_inst i s)). destruct (tok_append te c s i b (s_bump (add_inst i s))) as (H1 & H2 & H3);
      [done|done|rewrite Hb; by apply repr_bump|done|by apply (body_add_inst i s bl)|].
    split_and!; [done..|split; [done|]|done]. simpl. rewrite Ec. eauto.
  - exists (add_inst i s). destruct (tok_append te c s i b (add_inst i s)) as (H1 & H2 & H3);
      [done|done|by rewrite Hb|done|by apply (body_add_inst i s bl)|].
    split_and!; [done..|split; [done|]|done]. simpl. rewrite Ec. eauto.
Qed.

Lemma run_bvalue te c s n v :
  tok te c s -> at_ Open s -> (forall r, Typed c s (value_inst v r)) ->
  run c s (bvalue n v) (tpost te Open (fun _ s r => value_inst v r ∈ body s)).
Proof.
  intros Ht Ha Hv. pose proof (tk_repr _ _ _ Ht) as Hst. destruct Ha as [Hd [bl Ec]].
  destruct (value_law v (c_builder c) (length (s_done s))) as (b & Eb & Hb).
  { rewrite <- view_selected. by eapply repr_selected. }
  edestruct (open_inst te c s (value_inst v (v_bound (b_view (c_builder c)))) bl b) as (s' & H1 & H2 & H3 & H4);
    [done|by split|done|done|by left|].
  eapply run_try_bld; [exact Eb|exact H1|by split_and!].
Qed.

Lemma run_raw_inst te c s op ty ids :
  tok te c s -> at_ Open s -> (forall r, Typed c s (mkInst op (Some ty) (Some r) (IdRef <$> ids))) ->
  run c s (raw_inst op ty ids) (tpost te Open (fun _ s r => mkInst op (Some ty) (Some r) (IdRef <$> ids) ∈ body s)).
Proof.
  intros Ht Ha Hv. eapply run_bind; [by apply run_id|]. intros r c1 s1 G1 (Ht1 & Ha1 & _).
  pose proof (tk_repr _ _ _ Ht1) as Hst. destruct Ha1 as [Hd [bl Ec]].
  set (i := mkInst op (Some ty) (Some r) (IdRef <$> ids)).
  destruct (insert_law i (c_builder c1) (length (s_done s1))) as (b & Eb & Hb).
  { rewrite <- view_selected. by eapply repr_selected. }
  edestruct (open_inst te c1 s1 i bl b) as (s' & H1 & H2 & H3 & H4);
    [done|by split|done|exact (Typed_grow _ _ _ _ G1 _ (Hv r))|by right|].
  eapply run_bind.
  - eapply (run_try_bld _ _ _ _ _ _ _ (tpost te Open (fun _ s _ => i ∈ body s))); [exact Eb|exact H1|by split_and!].
  - intros [] c2 s2 _ ?. by apply run_ret.
Qed.

Lemma run_effect te c s n e :
  tok te c s -> at_ Open s -> Typed c s (effect_inst e) -> run c s (try_bld n (b_effect e)) (tpost te Open whatever).
Proof.
  intros Ht Ha Hv. pose proof (tk_repr _ _ _ Ht) as Hst. destruct Ha as [Hd [bl Ec]].
  destruct (effect_law e (c_builder c) (length (s_done s))) as (b & Eb & Hb).
  { rewrite <- view_selected. by eapply repr_selected. }
  edestruct (open_inst te c s (effect_inst e) bl b) as (s' & H1 & H2 & H3 & H4); [done|by split|done|done|by right|].
  eapply run_try_bld; [exact Eb|exact H1|by split_and!].
Qed.

Lemma run_terminate te c s n e :
  tok te c s -> at_ Open s -> Typed c s (term_inst e) -> run c s (try_bld n (b_terminate e)) (tpost te Closed whatever).
Proof.
  intros Ht Ha Hv. pose proof (tk_repr _ _ _ Ht) as Hst. destruct Ha as [Hd [bl Ec]].
  destruct (terminate_law e (c_builder c) (length (s_done s))) as (b & Eb & Hb).
  { rewrite <- view_selected. by eapply repr_selected. }
  destruct (tok_append te c s (term_inst e) b (finish (term_inst e) s)) as (H1 & H2 & H3);
    [done|done|rewrite Hb; by eapply repr_finish|done|by rewrite body_finish, (body_add_inst _ s bl)|].
  eapply run_try_bld; [exact Eb|exact H1|]. split_and!; [done| |done]. split_and!; [done| |done].
  simpl. rewrite Ec. simpl. by destruct (s_done s).
Qed.

Lemma run_begin_block te m c s l :
  tok te c s -> at_ m s -> m = Entered \/ m = Closed -> run c s (begin_block l) (tpost te Open whatever).
Proof.
  intros Ht Ha Hm. pose proof (tk_repr _ _ _ Ht) as Hst.
  assert (in_function s /\ s_cur s = None) as [(d & Ed & Hid) Ec] by (destruct Hm as [-> | ->]; by destruct Ha as (? & ? & ?)).
  destruct (begin_block_law l (c_builder c)) as (b & Eb & Hb).
  { destruct Hst as (_ & _ & _ & Hf). rewrite Ed in Hf. by destruct Hf as (_ & -> & _). }
  { rewrite <- view_selected. by eapply repr_unselected. }
  set (lab := default (v_bound (b_view (c_builder c))) l) in *.
  pose proof (repr_start_block lab _ s d Hst Ed Ec) as Hr. rewrite <- view_module in Hb.
  assert (exists s', repr (b_view b) s' /\ s_glob s' = s_glob s /\ body s' = body s /\ at_ Open s') as (s' & R1 & R2 & R3 & R4).
  { assert (body (start_block lab s) = body s) as Ebody.
    { unfold body, all_insts, s_blocks. rewrite Ec. simpl. by rewrite !bind_app. }
    rewrite Hb. destruct l; [exists (start_block lab s)|exists (s_bump (start_block lab s))];
      (split; [first [exact Hr|by apply repr_bump]|split; [done|split; [exact Ebody|split; [by exists d|by eexists]]]]). }
  destruct (tok_step te c s b s') as [H1 H2]; [done|done|by rewrite R2|by rewrite R3|rewrite R3; auto|].
  eapply run_try_bld; [exact Eb|exact H2|by split_and!].
Qed.
End Typing.
