(* ===== verification/HlslSound.v ===== *)
(** * Every definition of the generator respects the typing rules

    Total triples for types, constants, expressions, statements and
    declarations, in the order of [HlslCodegen.v], and the theorem: a program the
    checker accepts compiles to a well-formed, well-typed module. *)
From Stdlib Require Import ZArith Lia String.
From Stdlib Require Import Floats.SpecFloat.
From stdpp Require Import base list option gmap strings sets.
From S2P Require Import Prelude HlslAst SpirvBuilder HlslCodegen HlslShape HlslSsa HlslTypes HlslTyping.
Local Open Scope rust_scope.
Set Warnings "-register-all".

(** ** Values, places and how they stay well-typed *)

Section Facts.
Context {B : Type} {HB : Builder B} {HL : BuilderLaws B}.
Abbreviation Cx := (Ctx (B := B)).
Abbreviation Has c s := (has (sids c) (s_glob s) (typed_defs s)).
Abbreviation Points c s := (points (sids c) (s_glob s) (typed_defs s)).

(** The value [v] has the type the checker gives, the place [p] points to it. *)
Definition valok (t : Type_) (c : Cx) (s : Shape) (v : Val) : Prop := v_ty v = t /\ Has c s (v_id v) t.
Definition placeok (t : Type_) (sc : StorageClass) (c : Cx) (s : Shape) (p : Place) : Prop :=
  pl_ty p = t /\ Points c s (pl_ptr p) sc t.

Lemma Forall2_grow (c : Cx) s (c' : Cx) s' ids ts : grow c s c' s' -> Forall2 (Has c s) ids ts -> Forall2 (Has c' s') ids ts.
Proof. intros HG H. eapply Forall2_impl; [exact H|]. intros. by eapply Has_grow. Qed.
End Facts.

(** Facts of an earlier state hold in the later one. *)
Ltac tcarry HG :=
  lazymatch type of HG with grow ?c ?s _ _ =>
    repeat match goal with
    | H : valok _ c s _ |- _ => destruct H
    | H : placeok _ _ c s _ |- _ => destruct H
    | H : has (sids c) (s_glob s) _ _ _ |- _ => apply (Has_grow _ _ _ _ HG) in H
    | H : den (sids c) (s_glob s) _ _ |- _ => apply (Den_grow _ _ _ _ HG) in H
    | H : points (sids c) (s_glob s) _ _ _ _ |- _ => apply (Points_grow _ _ _ _ HG) in H
    | H : Forall2 (has (sids c) (s_glob s) _) _ _ |- _ => apply (Forall2_grow _ _ _ _ _ _ HG) in H
    | H : _ ∈ s_glob s |- _ => apply (gr_glob _ _ _ _ HG) in H
    | H : index_const (sids c) (s_glob s) _ _ |- _ => apply (index_grow _ _ _ _ HG) in H
    | H : member_type (sids c) (s_glob s) _ _ _ |- _ => apply (member_grow _ _ _ _ HG) in H
    | H : tok _ c s |- _ => clear H
    | H : at_ _ s |- _ => clear H
    end
  end.
Ltac tmove HG := tcarry HG; clear HG.
Ltac tnext :=
  let a := fresh "r" in let c' := fresh "c" in let s' := fresh "s" in
  let HG := fresh "HG" in let Ht := fresh "Ht" in let Hm := fresh "Hm" in let H := fresh "H" in
  intros a c' s' HG (Ht & Hm & H); cbv beta in H; tcarry HG; clear HG.
Ltac tbind lem := eapply run_bind; [eapply lem; eauto|tnext].
Ltac tret := apply run_ret; split_and!; try first [eassumption|reflexivity].

Section Sound.
Context {B : Type} {HB : Builder B} {HL : BuilderLaws B}.
Abbreviation Cx := (Ctx (B := B)).
Abbreviation G := (M Cx CodegenError).
Abbreviation Den c s := (den (sids c) (s_glob s)).
Abbreviation Has c s := (has (sids c) (s_glob s) (typed_defs s)).
Abbreviation Points c s := (points (sids c) (s_glob s) (typed_defs s)).
Abbreviation Typed c s := (inst_typed (sids c) (s_glob s) (typed_defs s)).
Abbreviation whatever := (fun _ _ _ => True).

Lemma has_glob (c : Cx) s i x tid t :
  i ∈ s_glob s -> i_id i = Some x -> i_rty i = Some tid -> Den c s tid t -> Has c s x t.
Proof. intros. exists i, tid. split_and!; [apply elem_of_app; by left|done..]. Qed.
Lemma has_body (c : Cx) s i x tid t :
  i ∈ body s -> i_id i = Some x -> i_rty i = Some tid -> Den c s tid t -> Has c s x t.
Proof. intros. exists i, tid. split_and!; [apply elem_of_app; by right|done..]. Qed.

(** ** Types *)

Lemma run_scalar_type te m c s k :
  tok te c s -> at_ m s -> run c s (scalar_type_id k) (tpost te m (fun c s r => Den c s r (Ty_Scalar k))).
Proof. intros Ht Hm. pose proof Ht as []. eexists _, c, s. split; [done|]. split; [apply grow_refl|]. split_and!; [done..|by destruct k]. Qed.

Lemma run_vector_type te m c s k n :
  tok te c s -> at_ m s -> run c s (vector_type_id k n) (tpost te m (fun c s r => Den c s r (Ty_Vector k n))).
Proof.
  intros Ht Hm. unfold vector_type_id. tbind (run_scalar_type te). eapply run_mono; [by eapply run_btype|].
  intros r' c' s' HG (H1 & H2 & H3). tcarry HG. split_and!; [done..|]. by eapply den_vector.
Qed.

Lemma type_ok_struct te c s n : tok te c s -> type_ok te (Ty_Struct n) = true ->
  exists i, c_structs c !! n = Some i /\ Den c s (si_type_id i) (Ty_Struct n).
Proof.
  intros Ht Hn%bool_decide_eq_true. rewrite (tk_structs _ _ _ Ht), lookup_fmap in Hn.
  apply fmap_is_Some in Hn as [i Hi]. exists i. split; [done|]. apply den_struct. unfold sids. by rewrite lookup_fmap, Hi.
Qed.

Lemma run_type te m c s t :
  tok te c s -> at_ m s -> type_ok te t = true -> run c s (type_id t) (tpost te m (fun c s r => Den c s r t)).
Proof.
  intros Ht Hm Hok. destruct t as [|k|k n|k rows cols|n| |]; simpl; try done.
  - eexists _, c, s. split; [done|]. split; [apply grow_refl|]. split_and!; [done..|apply Ht].
  - by apply run_scalar_type.
  - by apply run_vector_type.
  - tbind (run_vector_type te). eapply run_mono; [by eapply run_btype|].
    intros r' c' s' HG (H1 & H2 & H3). tcarry HG. split_and!; [done..|]. by eapply den_matrix.
  - apply run_gets. destruct (type_ok_struct te c s n Ht Hok) as (i & Ei & Hi). eapply run_ok_or; [exact Ei|].
    apply run_ret. by split_and!.
Qed.

Lemma den_type_ok te c s r t : tok te c s -> Den c s r t -> t <> Ty_Texture2D -> t <> Ty_SamplerState -> type_ok te t = true.
Proof.
  intros Ht Hd H1 H2. destruct Hd; try done. simpl. apply bool_decide_eq_true.
  rewrite (tk_structs _ _ _ Ht), lookup_fmap. unfold sids in H. rewrite lookup_fmap in H.
  destruct (c_structs c !! name); [by eexists|done].
Qed.

Definition image_of (c : Cx) (s : Shape) (i : Z) : Prop :=
  exists f, type_inst (type_image_2d f) i ∈ s_glob s /\ Den c s f (Ty_Scalar Sc_Float).

Lemma run_image te m c s : tok te c s -> at_ m s -> run c s image_type_id (tpost te m image_of).
Proof.
  intros Ht Hm. pose proof (tk_float _ _ _ Ht). unfold image_type_id. apply run_gets.
  eapply run_mono; [by eapply run_btype|]. intros r c' s' HG (? & ? & ?). tcarry HG. split_and!; [done..|]. by eexists.
Qed.

Lemma run_sampled te m c s i :
  tok te c s -> at_ m s -> image_of c s i ->
  run c s (btype (type_sampled_image i)) (tpost te m (fun c s r => Den c s r Ty_Texture2D)).
Proof.
  intros Ht Hm (f & H1 & H2). eapply run_mono; [by eapply run_btype|]. intros r c' s' HG (? & ? & ?). tcarry HG.
  split_and!; [done..|]. by eapply den_texture.
Qed.

Lemma run_value_type te m c s r t :
  tok te c s -> at_ m s -> Den c s r t -> run c s (value_type_id t) (tpost te m (fun c s r => Den c s r t)).
Proof.
  intros Ht Hm Hd. destruct (decide (t = Ty_Texture2D)) as [->|]; [|destruct (decide (t = Ty_SamplerState)) as [->|]].
  - simpl. tbind (run_image te). by apply run_sampled.
  - eapply run_mono; [by eapply run_btype|]. intros r' c' s' HG (H1 & H2 & H3). split_and!; [done..|]. by apply den_sampler.
  - replace (value_type_id t) with (type_id (B := B) t) by (by destruct t).
    apply run_type; [done|done|by eapply den_type_ok].
Qed.

(** ** Constants *)

Lemma run_const_op te m c s t k v :
  tok te c s -> at_ m s -> Den c s t (Ty_Scalar k) ->
  run c s (const_op t v) (tpost te m (fun c s r =>
    mkInst OpConstant (Some t) (Some r) [LiteralBit32 v] ∈ s_glob s /\ Has c s r (Ty_Scalar k))).
Proof.
  intros Ht Hm Hd. eapply run_mono; [by apply run_const|].
  intros r c' s' HG (H1 & H2 & H3). tcarry HG. split_and!; [done..|]. by eapply has_glob.
Qed.

Lemma run_float_const te m c s v :
  tok te c s -> at_ m s -> run c s (float_const v) (tpost te m (fun c s r => Has c s r (Ty_Scalar Sc_Float))).
Proof.
  intros Ht Hm. unfold float_const. apply run_gets. eapply run_mono; [eapply run_const_op; try done; apply Ht|].
  intros r c' s' _ (? & ? & _ & ?). by split_and!.
Qed.

Lemma run_int_const te m c s v (b : bool) :
  tok te c s -> at_ m s -> run c s (int_const v b) (tpost te m (fun c s r =>
    Has c s r (Ty_Scalar (if b then Sc_Int else Sc_Uint)) /\
    (b = true -> index_const (sids c) (s_glob s) r (wrap 32 v)))).
Proof.
  intros Ht Hm. unfold int_const. apply run_gets.
  set (t := (if b then c_int_t else c_uint_t) c). set (k := if b then Sc_Int else Sc_Uint).
  assert (Den c s t (Ty_Scalar k)) as Hd by (unfold t, k; destruct b; apply Ht).
  eapply run_mono; [exact (run_const_op te m c s _ _ _ Ht Hm Hd)|].
  intros r c' s' HG (? & ? & ? & ?). tcarry HG. split_and!; [done..|]. intros ->. eexists. split; [done|exact Hd].
Qed.

(** The index of a member. *)
Lemma run_index te m c s i :
  tok te c s -> at_ m s -> (0 <= i < 2 ^ 31)%Z ->
  run c s (int_const (to_signed 32 i) true) (tpost te m (fun c s r => index_const (sids c) (s_glob s) r i)).
Proof.
  intros Ht Hm Hi. eapply run_mono; [by apply run_int_const|]. intros r c' s' _ (? & ? & _ & H). split_and!; [done..|].
  specialize (H eq_refl). replace (wrap 32 (to_signed 32 i)) with i in H; [done|].
  unfold to_signed. rewrite (wrap_small 32 i) by lia. destruct (Z.ltb_spec i (2 ^ (32 - 1))); [by rewrite wrap_small by lia|].
  change (2 ^ (32 - 1))%Z with (2 ^ 31)%Z in *. lia.
Qed.

Lemma run_bool_const te m c s v :
  tok te c s -> at_ m s -> run c s (bool_const v) (tpost te m (fun c s r => Has c s r (Ty_Scalar Sc_Bool))).
Proof.
  intros Ht Hm. unfold bool_const. tbind (run_id te). apply run_gets. pose proof (tk_bool _ _ _ Ht0) as Hd.
  tbind (run_push_global te). tret. by eapply has_glob.
Qed.

(** ** Instructions with a value *)

(** A value instruction is well-typed by its rule. *)
Lemma typed_value (c : Cx) s op ty r ids ls t ts :
  Den c s ty t -> Forall2 (Has c s) ids ts -> value_rule op t ts ls ->
  Typed c s (mkInst op (Some ty) (Some r) ((IdRef <$> ids) ++ (LiteralBit32 <$> ls))).
Proof. intros. by eapply it_value. Qed.

Lemma run_value te c s n v t ty :
  tok te c s -> at_ Open s -> value_type v = ty -> Den c s ty t -> (forall r, Typed c s (value_inst v r)) ->
  run c s (bvalue n v) (tpost te Open (fun c s r => Has c s r t)).
Proof.
  intros Ht Hm <- Hd Hv. eapply run_mono; [by apply run_bvalue|]. intros r c' s' HG (? & ? & Hin). tcarry HG.
  split_and!; [done..|]. apply (has_body c' s' _ r (value_type v) t Hin); [by destruct v|by destruct v|exact Hd].
Qed.

Lemma run_raw te c s op ty ids t ts :
  tok te c s -> at_ Open s -> Den c s ty t -> Forall2 (Has c s) ids ts -> value_rule op t ts [] ->
  run c s (raw_inst op ty ids) (tpost te Open (fun c s r => Has c s r t)).
Proof.
  intros Ht Hm Hd Hids Hr. eapply run_mono.
  - apply (run_raw_inst te); [done|done|]. intros r. rewrite <- (app_nil_r (IdRef <$> ids)).
    exact (typed_value c s op ty r ids [] t ts Hd Hids Hr).
  - intros r c' s' HG (? & ? & ?). tcarry HG. split_and!; [done..|]. by eapply has_body.
Qed.

(** The same, as a value of the generator. *)
Lemma run_raw_val te c s op ty ids t ts :
  tok te c s -> at_ Open s -> Den c s ty t -> Forall2 (Has c s) ids ts -> value_rule op t ts [] ->
  run c s (let! id := raw_inst op ty ids in mret (mkVal id t)) (tpost te Open (valok t)).
Proof. intros. tbind (run_raw te). by tret. Qed.

Lemma run_value_val te c s n v t ty :
  tok te c s -> at_ Open s -> value_type v = ty -> Den c s ty t -> (forall r, Typed c s (value_inst v r)) ->
  run c s (let! id := bvalue n v in mret (mkVal id t)) (tpost te Open (valok t)).
Proof. intros. eapply run_bind; [by eapply (run_value te)|tnext]. by tret. Qed.

Lemma run_load te c s p sc t ty :
  tok te c s -> at_ Open s -> Den c s ty t -> Points c s p sc t ->
  run c s (bload ty p) (tpost te Open (fun c s r => Has c s r t)).
Proof. intros. eapply run_value; [done..|]. intros r. by eapply it_load. Qed.

Lemma run_load_val te c s p sc t ty :
  tok te c s -> at_ Open s -> Den c s ty t -> Points c s p sc t ->
  run c s (let! id := bload ty p in mret (mkVal id t)) (tpost te Open (valok t)).
Proof. intros. tbind (run_load te). by tret. Qed.

Lemma run_store te c s p v sc t :
  tok te c s -> at_ Open s -> Points c s p sc t -> sc = SC_Function \/ sc = SC_Output -> Has c s v t ->
  run c s (bstore p v) (tpost te Open whatever).
Proof. intros. apply run_effect; [done..|]. by eapply it_store. Qed.

(** A pointer to a member. *)
Lemma run_member_ptr te c s p sc name i k t :
  tok te c s -> at_ Open s -> type_ok te t = true -> Points c s p sc (Ty_Struct name) ->
  index_const (sids c) (s_glob s) i k -> member_type (sids c) (s_glob s) name k t ->
  run c s (let! tid := type_id t in
           let! pt := btype (type_pointer sc tid) in
           let! ptr := bvalue "access_chain" (access_chain pt p [i]) in
           mret (mkPlace ptr t))
    (tpost te Open (fun c s pl => pl_ty pl = t /\ Points c s (pl_ptr pl) sc t)).
Proof.
  intros Ht Hm Hok Hp Hi Hk. tbind (run_type te). tbind (run_btype te).
  assert (den_ptr (sids c1) (s_glob s1) r0 sc t) as Hd by (eexists; eauto).
  eapply run_bind; [apply (run_bvalue te); [done|done|intros q; by eapply it_chain]|].
  intros q c2 s2 HG (? & ? & Hin). apply (den_ptr_mono _ (sids c2) _ (s_glob s2)) in Hd; [|by eapply grow_sids|apply HG].
  tret. simpl. eexists _, _. split_and!; [apply elem_of_app; right; exact Hin|done..].
Qed.

(** ** Local variables *)

Lemma body_add_var i s b bs : s_blocks s = b :: bs -> body (add_var i s) = i :: body s.
Proof. intros E. unfold body, all_insts. by rewrite (blocks_add_var i s b bs E), E. Qed.

Lemma open_add_var i s : at_ Open s -> at_ Open (add_var i s).
Proof.
  intros [Hd [bl Ec]]. split; unfold add_var; destruct (s_done s); simpl; try done; rewrite Ec; by eexists.
Qed.

Lemma run_insert_front te c s i :
  tok te c s -> at_ Open s -> Typed c s i ->
  run c s (bld (fun b => (tt, b_set_module (edit_last (insert_front i) (b_module b)) b)))
    (tpost te Open (fun _ s _ => i ∈ body s)).
Proof.
  intros Ht Hm Hi. pose proof Hm as [Hd [bl Ec]].
  assert (exists b bs, s_blocks s = b :: bs) as (b & bs & Eb).
  { rewrite (blocks_cur s bl Ec). destruct (s_done s); simpl; eauto. }
  pose proof (body_add_var i s b bs Eb) as Ebody.
  destruct (tok_step te c s (b_set_module (edit_last (insert_front i) (b_module (c_builder c))) (c_builder c)) (add_var i s))
    as [H1 H2]; [done| |by rewrite glob_add_var|rewrite Ebody; by intros x ?; right| |].
  - rewrite set_module_law, <- view_module. eapply repr_front; [apply Ht|done].
  - rewrite Ebody. intros j [->|?]%elem_of_cons; [right|by left].
    eapply inst_typed_mono; [done|by rewrite glob_add_var| |exact Hi].
    intros x. unfold typed_defs. rewrite glob_add_var, Ebody, !elem_of_app, elem_of_cons. tauto.
  - eapply run_bld; [done|exact H2|]. split_and!; [done|by apply open_add_var|]. rewrite Ebody. left.
Qed.

Lemma run_alloc_local te c s t :
  tok te c s -> at_ Open s -> type_ok te t = true ->
  run c s (alloc_local t) (tpost te Open (fun c s p => Points c s p SC_Function t)).
Proof.
  intros Ht Hm Hok. unfold alloc_local. tbind (run_type te). tbind (run_btype te). tbind (run_id te). apply run_gets.
  assert (den_ptr (sids c2) (s_glob s2) r0 SC_Function t) as Hd by (eexists; eauto).
  pose proof (tk_repr _ _ _ Ht0) as (_ & _ & _ & Hf). pose proof Hm0 as [(d & Ed & _) [bl Ec]].
  rewrite Ed in Hf. destruct Hf as [Hf _]. rewrite <- view_module, Hf. simpl.
  destruct (s_blocks s2) as [|b bs] eqn:Eb; [by rewrite (blocks_cur _ _ Ec) in Eb; destruct (s_done s2)|].
  eapply run_bind; [apply (run_insert_front te); [done|done|by eapply it_var]|].
  intros _ c3 s3 HG (? & ? & Hin). apply (den_ptr_mono _ (sids c3) _ (s_glob s3)) in Hd; [|by eapply grow_sids|apply HG].
  tret. eexists _, _. split_and!; [apply elem_of_app; right; exact Hin|done..].
Qed.

(** ** Names, places and inferred types *)

Lemma find_local_te te c s n : tok te c s ->
  option_Forall2 (fun p t => pl_ty p = t /\ Points c s (pl_ptr p) SC_Function t) (find_local n c) (te_local n te).
Proof.
  intros Ht. pose proof (Forall2_reverse _ _ _ (tk_locals _ _ _ Ht)) as H. unfold find_local, te_local.
  rewrite !rev_alt. change (rev_append (c_locals c) []) with (reverse (c_locals c)).
  change (rev_append (te_locals te) []) with (reverse (te_locals te)).
  induction H as [|[n1 p] [n2 t] l l' (E1 & E2 & E3) _ IH]; simpl in *; [constructor|]. subst n2.
  rewrite !filter_cons. simpl. case_decide; [|exact IH]. simpl. by constructor.
Qed.

Lemma local_cases te c s n : tok te c s ->
  (exists p t, find_local n c = Some p /\ te_local n te = Some t /\ pl_ty p = t /\ Points c s (pl_ptr p) SC_Function t) \/
  (find_local n c = None /\ te_local n te = None).
Proof.
  intros Ht. pose proof (find_local_te te c s n Ht) as H.
  inversion H as [p t [H1 H2] E1 E2|E1 E2]; [left; eauto 10|by right].
Qed.

Lemma find_member_lookup m ms i k x :
  find_member m i ms = Some (k, x) -> exists j, k = (i + Z.of_nat j)%Z /\ ms !! j = Some x.
Proof.
  revert i. induction ms as [|y ms IH]; intros i; simpl; [done|].
  destruct (String.eqb _ _); [intros [= <- <-]; exists 0; split; [lia|done]|].
  intros (j & -> & Hj)%IH. exists (S j). split; [lia|done].
Qed.

(** A member of a struct the checker knows. *)
Lemma struct_member te c s n ms m k x :
  tok te c s -> te_structs te !! n = Some ms -> find_member m 0 ms = Some (k, x) ->
  exists i, c_structs c !! n = Some i /\ si_members i = ms /\ (0 <= k < 2 ^ 31)%Z /\
    member_type (sids c) (s_glob s) n k (sm_ty x).
Proof.
  intros Ht Hn (j & -> & Hj)%find_member_lookup. rewrite (tk_structs _ _ _ Ht), lookup_fmap in Hn.
  destruct (c_structs c !! n) as [i|] eqn:Ei; simplify_eq/=. exists i.
  destruct (tk_struct _ _ _ Ht n i Ei) as (Hl & rs & Hin & Hrs).
  pose proof (lookup_lt_Some _ _ _ Hj). split_and!; [done|done|lia|lia|].
  destruct (Forall2_lookup_r _ _ _ _ _ Hrs Hj) as (r & Hr & Hd).
  exists (si_type_id i), rs, r. rewrite Z.add_0_l, Nat2Z.id. split_and!; [|done..]. unfold sids. by rewrite lookup_fmap, Ei.
Qed.

Lemma global_some te c s n t : tok te c s -> te_globals te !! n = Some t ->
  exists g, c_globals c !! n = Some g /\ global_ok c s n g t.
Proof. intros Ht Hn. pose proof (tk_globals _ _ _ Ht n) as H. rewrite Hn in H. inversion H; eauto. Qed.

Lemma member_cases te c s n : tok te c s ->
  (exists m, c_cbuffer_members c !! n = Some m /\ te_members te !! n = Some tt /\ member_ok te c s n m) \/
  (c_cbuffer_members c !! n = None /\ te_members te !! n = None).
Proof.
  intros Ht. pose proof (tk_members _ _ _ Ht n) as H. destruct H as [m [] Hm|]; [left; eauto|by right].
Qed.

Lemma run_place_ident te c s n t sc :
  place_ty te (E_Ident n) = Some (t, sc) -> tok te c s -> at_ Open s ->
  run c s (emit_place_ident n) (tpost te Open (placeok t sc)).
Proof.
  intros Hp Ht Hm. simpl in Hp. unfold emit_place_ident. apply run_mget.
  destruct (local_cases te c s n Ht) as [(p & t' & -> & El & H1 & H2)|[-> El]]; rewrite El in Hp; [simplify_eq; by tret|].
  destruct (member_cases te c s n Ht) as [([v i] & -> & E1 & t' & sc' & name & k & E & Hv & Hi & Hk)|[E1 E2]].
  - destruct (global_some te c s n _ Ht E) as (g & -> & H1 & _). rewrite E1, E in Hp. simpl in Hp, H1.
    destruct (type_ok te t') eqn:Hok; simplify_eq. eapply run_ok_or; [done|]. by eapply run_member_ptr.
  - rewrite E1. rewrite E2 in Hp. destruct (global_some te c s n _ Ht Hp) as (g & -> & H1 & H2). simpl in H1, H2.
    tret. split; [done|by apply H2].
Qed.

Lemma run_place te e t sc : place_ty te e = Some (t, sc) ->
  forall c s, tok te c s -> at_ Open s -> run c s (emit_place e) (tpost te Open (placeok t sc)).
Proof.
  revert t sc. induction e as [l|n|ty args IH|n args IH|e member args IHe IH|e member IHe|op l r IHl IHr|op e IHe|ty e IHe] using Expr_list_ind; intros t sc Hp c s Ht Hm; try done.
  - by apply run_place_ident.
  - simpl in Hp |- *. destruct (place_ty te e) as [[[] []]|] eqn:Eb; try done.
    destruct (te_structs te !! name) as [ms|] eqn:Es; [|done].
    destruct (find_member member 0 ms) as [[k x]|] eqn:Ef; [|done]. destruct (type_ok te (sm_ty x)) eqn:Hok; simplify_eq.
    eapply run_bind; [by apply (IHe _ _ eq_refl)|]. intros p c1 s1 _ (Ht1 & Hm1 & -> & Hp1). apply run_gets.
    destruct (struct_member te c1 s1 name ms member k x Ht1 Es Ef) as (i & Ei & Ems & Hk & Hmem).
    eapply run_ok_or; [exact Ei|]. eapply run_ok_or; [rewrite Ems; exact Ef|]. simpl.
    tbind (run_index te). by eapply run_member_ptr.
Qed.

Lemma place_infer te c s e t sc : tok te c s -> place_ty te e = Some (t, sc) -> infer_type c e = Ok t.
Proof.
  intros Ht. revert t sc. induction e as [l|n|ty args IH|n args IH|e member args IHe IH|e member IHe|op l r IHl IHr|op e IHe|ty e IHe] using Expr_list_ind; intros t sc Hp; try done; simpl in Hp |- *.
  - destruct (local_cases te c s n Ht) as [(p & t' & -> & El & H1 & H2)|[-> El]]; rewrite El in Hp; [by simplify_eq|].
    assert (exists sc', te_globals te !! n = Some (t, sc')) as [sc' Eg].
    { destruct (te_members te !! n); [|eauto]. destruct (te_globals te !! n) as [[t' sc']|]; [|done].
      destruct (type_ok te t'); simplify_eq. eauto. }
    destruct (global_some te c s n _ Ht Eg) as (g & -> & H1 & _). by rewrite H1.
  - destruct (place_ty te e) as [[[] []]|] eqn:Eb; try done. rewrite (IHe _ _ eq_refl). simpl.
    destruct (te_structs te !! name) as [ms|] eqn:Es; [|done].
    destruct (find_member member 0 ms) as [[k x]|] eqn:Ef; [|done]. destruct (type_ok te (sm_ty x)); simplify_eq.
    destruct (struct_member te c s name ms member k x Ht Es Ef) as (i & -> & -> & _). by rewrite Ef.
Qed.

Lemma call_ty_first name t1 ts t :
  call_ty name (t1 :: ts) = Some t -> name <> "dot" -> name <> "mul" -> name <> "length" -> t = t1.
Proof.
  intros Hc H1 H2 H3. unfold call_ty in Hc. destruct (String.eqb name "saturate").
  - destruct ts; [|done]. by destruct (is_float t1 && _); simplify_eq.
  - rewrite (proj2 (String.eqb_neq name "dot") H1), (proj2 (String.eqb_neq name "mul") H2),
      (proj2 (String.eqb_neq name "length") H3) in Hc.
    destruct (glsl_op name) as [[op n]|]; [|done]. destruct (_ && _ && _); [|done].
    destruct (String.eqb name "cross"); [|by simplify_eq]. by case_bool_decide; simplify_eq.
Qed.

Lemma call_ty_length ts t : call_ty "length" ts = Some t -> t = Ty_Scalar Sc_Float.
Proof. unfold call_ty. simpl. destruct ts; [done|]. by destruct (_ && _ && _); intros; simplify_eq. Qed.

Lemma infer_call (c : Cx) name args ts t :
  Forall2 (fun e t => can_infer e = true -> infer_type c e = Ok t) args ts -> call_ty name ts = Some t ->
  can_infer (E_Call name args) = true -> infer_type c (E_Call name args) = Ok t.
Proof.
  intros Ha Hc Hi. cbn [can_infer] in Hi. cbn [infer_type].
  destruct (String.eqb_spec name "length") as [->|Hl]; [by rewrite (call_ty_length _ _ Hc)|]. simpl in Hi.
  destruct Ha as [|a t1 args ts H1 Ha]; [done|]. apply andb_prop in Hi as [Hi1 Hi2]. rewrite (H1 Hi1).
  destruct (String.eqb_spec name "dot") as [->|Hd].
  { unfold call_ty in Hc. simpl in Hc. crush_match_in Hc. done. }
  simpl in Hi2. destruct (infer_first_arg name) eqn:Ef.
  { simpl. f_equal. symmetry. eapply call_ty_first; [exact Hc|done| |done]. by intros ->. }
  apply andb_prop in Hi2 as [Em Hi2]. rewrite Em. apply String.eqb_eq in Em as ->.
  destruct Ha as [|b t2 args ts H2 Ha]; [done|]. simpl. rewrite (H2 Hi2). simpl. unfold call_ty in Hc. simpl in Hc.
  crush_match_in Hc; try done;
    match goal with E : bool_decide _ && _ = true |- _ =>
      apply andb_prop in E as [E%bool_decide_eq_true E']; subst; by simpl in E'
    end.
Qed.

Lemma binary_infer te (c : Cx) s op l r t :
  tok te c s -> (forall t, expr_ty te l = Some t -> can_infer l = true -> infer_type c l = Ok t) ->
  (forall t, expr_ty te r = Some t -> can_infer r = true -> infer_type c r = Ok t) ->
  expr_ty te (E_Binary op l r) = Some t -> can_infer (E_Binary op l r) = true ->
  infer_type c (E_Binary op l r) = Ok t.
Proof.
  intros Ht Hl Hr He Hi.
  assert (forall u, infer_type c l = Ok u -> infer_type c r = Ok u ->
    (let? lt := infer_type c l in if is_composite lt then Ok lt else infer_type c r) = Ok u) as Hboth.
  { intros u -> E2. simpl. by destruct (is_composite u). }
  destruct op; simpl in He, Hi |- *; try (apply andb_prop in Hi as [Hi1 Hi2]);
    try (destruct (place_ty te l) as [[u []]|] eqn:Ep; try done; []; destruct (expr_ty te r) as [v|] eqn:Er; [|done];
         destruct (bool_decide (u = v)) eqn:Eu; [|done]; apply bool_decide_eq_true in Eu as ->;
         simpl in He; destruct (_ && _) in He; [|done]; simplify_eq;
         apply Hboth; [by eapply place_infer|by apply Hr]);
    (destruct (expr_ty te l) as [u|] eqn:El; [|done]); (destruct (expr_ty te r) as [v|] eqn:Er; [|done]);
    unfold binary_ty in He; simpl in He; case_bool_decide; simplify_eq;
    try (destruct (is_numeric v) eqn:En; simplify_eq).
  all: try (rewrite (Hl _ eq_refl) by done; simpl; by destruct v).
  all: try (apply Hboth; auto).
  all: case_bool_decide; by simplify_eq.
Qed.

Lemma construct_ty_eq ty ts t : construct_ty ty ts = Some t -> t = ty.
Proof. unfold construct_ty. intros H. by crush_match_in H. Qed.

(** Inference agrees with the checker where it is used. *)
Lemma infer_ok te (c : Cx) s e t :
  tok te c s -> expr_ty te e = Some t -> can_infer e = true -> infer_type c e = Ok t.
Proof.
  intros Ht. revert t. induction e as [l|n|ty args IH|n args IH|e member args IHe IH|e member IHe|op l r IHl IHr|op e IHe|ty e IHe]
    using Expr_list_ind; intros t He Hi.
  - simpl in *. by destruct l; simplify_eq.
  - cbn [expr_ty] in He. destruct (place_ty te (E_Ident n)) as [[u sc]|] eqn:Ep; simplify_eq/=. exact (place_infer te c s (E_Ident n) _ _ Ht Ep).
  - cbn [expr_ty] in He. apply bind_Some in He as (ts & _ & He). by rewrite (construct_ty_eq _ _ _ He).
  - cbn [expr_ty] in He. apply bind_Some in He as (ts & Hts%mapM_Some & He). eapply infer_call; [|exact He|exact Hi].
    clear He Hi. induction Hts; constructor; apply Forall_cons in IH as [? ?]; auto.
  - done.
  - cbn [expr_ty] in He. simpl in Hi. rewrite Hi in He. destruct (expr_ty te e) as [u|] eqn:Eu; [|done].
    destruct u; try done.
    + cbn [infer_type]. rewrite (IHe _ eq_refl Hi). simpl. destruct (decode_swizzle member) as [comps|]; [|done].
      by destruct (forallb _ _); simplify_eq.
    + destruct (place_ty te (E_Member e member)) as [[v sc]|] eqn:Ep; simplify_eq/=.
      exact (place_infer te c s (E_Member e member) _ _ Ht Ep).
  - by eapply binary_infer.
  - cbn [expr_ty] in He. apply bind_Some in He as (u & Eu & He). simpl in Hi |- *. rewrite (IHe _ Eu Hi).
    unfold unary_ty in He. by crush_match_in He.
  - cbn [expr_ty] in He. apply bind_Some in He as (u & Eu & He). simpl. crush_match_in He; done.
Qed.
End Sound.
