(* ===== verification/HlslTypedCode.v ===== *)
(** * Well-typed expressions, statements and programs

    The triples of [HlslSound.v] composed along [emit_expr], [emit_stmt] and the
    declarations, and the theorem: a program the checker accepts compiles to a
    well-formed, well-typed module. *)
From Stdlib Require Import ZArith Lia String.
From Stdlib Require Import Floats.SpecFloat.
From stdpp Require Import base list option gmap strings sets.
From S2P Require Import Prelude HlslAst SpirvBuilder HlslCodegen HlslShape HlslSsa HlslTypes HlslTyping HlslSound.
Local Open Scope rust_scope.
Set Warnings "-register-all".

(** ** Opcodes for types *)

Lemma is_float_ok te t : is_float t = true -> type_ok te t = true.
Proof. by destruct t. Qed.
Lemma is_numeric_ok te t : is_numeric t = true -> type_ok te t = true.
Proof. by destruct t. Qed.
Lemma is_bool_ok te t : is_bool t = true -> type_ok te t = true.
Proof. by destruct t. Qed.
Lemma is_integer_ok te t : is_integer t = true -> type_ok te t = true.
Proof. by destruct t. Qed.
#[local] Hint Resolve is_float_ok is_numeric_ok is_bool_ok is_integer_ok : core.

Definition is_arith (op : BinaryOp) : bool :=
  match op with Op_Add | Op_Sub | Op_Mul | Op_Div => true | _ => false end.

Lemma arith_rule op t : is_arith op = true -> is_numeric t = true ->
  exists o, arith_op op t = Some o /\ value_rule o t [t; t] [].
Proof.
  intros Ho Hn. destruct op; try done; destruct t as [|[]|[]| | | |]; try done; eexists; (split; [reflexivity|]);
    first [by apply vr_float|by apply vr_int].
Qed.

Lemma comparison_rule op t : is_comparison op = true -> is_numeric t = true ->
  exists o, comparison_op op (is_float_ty t) = Some o /\ value_rule o (bool_of t) [t; t] [].
Proof.
  intros Ho Hn. destruct op; try done; destruct t as [|[]|[]| | | |]; try done; eexists; (split; [reflexivity|]);
    first [by apply (vr_fcmp _ (Ty_Scalar _))|by apply (vr_fcmp _ (Ty_Vector _ _))
          |by apply (vr_icmp _ (Ty_Scalar _))|by apply (vr_icmp _ (Ty_Vector _ _))].
Qed.

Lemma unary_rule op t u : unary_ty op t = Some u -> u = t /\ type_ok te_empty t = true /\
  exists o, unary_op op t = Some o /\ value_rule o t [t] [].
Proof.
  intros H. destruct op, t as [|[]|[]| | | |]; simplify_eq/=; (split; [done|]); (split; [done|]); eexists; (split; [reflexivity|]);
    first [by apply vr_fneg|by apply vr_sneg|by apply vr_lnot|by apply vr_not].
Qed.

Lemma cast_rule t u o : cast_op t u = Some o -> value_rule o u [t] [].
Proof. destruct t as [|[]|[]| | | |], u as [|[]|[]| | | |]; intros; simplify_eq/=; constructor. Qed.

Lemma decode_swizzle_bounds m comps : decode_swizzle m = Some comps ->
  (1 <= length comps <= 4)%nat /\ Forall (fun i => 0 <= i)%Z comps.
Proof.
  unfold decode_swizzle. destruct (String.eqb m EmptyString || _) eqn:E; [done|].
  apply orb_false_elim in E as [E1%String.eqb_neq E2%Nat.ltb_ge]. intros H.
  pose proof (length_mapM _ _ _ H) as Hl. rewrite length_list_ascii in Hl. split.
  - destruct m; [done|]. simpl in *. lia.
  - apply mapM_Some in H. clear E1 E2 Hl. induction H as [|a i l k Hi _ IH]; constructor; [|done].
    unfold swizzle_index in Hi. crush_match_in Hi; lia.
Qed.

Lemma sum_replicate k n : sum_components k (replicate n (Ty_Scalar k)) = Some (Z.of_nat n).
Proof. induction n as [|n IH]; [done|]. simpl. rewrite bool_decide_true by done. rewrite IH. f_equal. lia. Qed.

Lemma glsl_op_names name op n : glsl_op name = Some (op, n) ->
  (op =? glsl_LENGTH)%Z = String.eqb name "length" /\ (op = glsl_CROSS -> name = "cross").
Proof.
  unfold glsl_op. intros H.
  repeat match type of H with
  | (if String.eqb name ?x then _ else _) = _ =>
      destruct (String.eqb_spec name x) as [->|?]; [injection H as <- <-; by split|]
  end. done.
Qed.

Section Code.
Context {B : Type} {HB : Builder B} {HL : BuilderLaws B} (te : TEnv).
Abbreviation Cx := (Ctx (B := B)).
Abbreviation G := (M Cx CodegenError).
Abbreviation Den c s := (den (sids c) (s_glob s)).
Abbreviation Has c s := (has (sids c) (s_glob s) (typed_defs s)).
Abbreviation Points c s := (points (sids c) (s_glob s) (typed_defs s)).
Abbreviation Typed c s := (inst_typed (sids c) (s_glob s) (typed_defs s)).
Abbreviation whatever := (fun _ _ _ => True).

(** ** Operators *)

Lemma run_arith c s op a b t :
  tok te c s -> at_ Open s -> is_arith op = true -> is_numeric t = true -> Has c s a t -> Has c s b t ->
  run c s (emit_arith op a t b t) (tpost te Open (valok t)).
Proof.
  intros Ht Hm Ho Hn Ha Hb. unfold emit_arith. rewrite if_same. tbind (run_type te).
  destruct (arith_rule op t Ho Hn) as (o & Eo & Hr). eapply run_ok_or; [exact Eo|].
  eapply run_raw_val; [done..| |exact Hr]. by repeat constructor.
Qed.

Lemma run_comparison c s op a b t :
  tok te c s -> at_ Open s -> is_comparison op = true -> is_numeric t = true -> valok t c s a -> valok t c s b ->
  run c s (emit_comparison op a b) (tpost te Open (valok (bool_of t))).
Proof.
  intros Ht Hm Ho Hn [Ea Ha] [Eb Hb]. unfold emit_comparison. rewrite Ea.
  change (comparison_type t) with (bool_of t).
  eapply run_bind; [apply (run_type te Open); [done|done|by destruct t]|tnext].
  destruct (comparison_rule op t Ho Hn) as (o & Eo & Hr). eapply run_ok_or; [exact Eo|].
  eapply run_raw_val; [done..| |exact Hr]. by repeat constructor.
Qed.

Lemma run_logical c s op a b :
  tok te c s -> at_ Open s -> op = Op_And \/ op = Op_Or ->
  valok (Ty_Scalar Sc_Bool) c s a -> valok (Ty_Scalar Sc_Bool) c s b ->
  run c s (emit_logical op a b) (tpost te Open (valok (Ty_Scalar Sc_Bool))).
Proof.
  intros Ht Hm Ho [Ea Ha] [Eb Hb]. unfold emit_logical.
  eapply run_bind; [by apply (run_type te Open)|tnext].
  destruct Ho as [-> | ->]; (eapply run_raw_val; [done..| |apply vr_logical; auto]); by repeat constructor.
Qed.

Lemma run_coerce_scalar c s v t k :
  tok te c s -> at_ Open s -> valok t c s v ->
  t = Ty_Scalar k \/ (t = Ty_Scalar Sc_Float /\ (k = Sc_Int \/ k = Sc_Uint)) ->
  run c s (coerce_scalar v k) (tpost te Open (valok (Ty_Scalar k))).
Proof.
  intros Ht Hm [Ev Hv] Hk. unfold coerce_scalar. case_bool_decide as E.
  { destruct Hk as [-> | [-> Hk]]; [|rewrite Ev in E; by destruct Hk; simplify_eq]. tret. by split. }
  destruct Hk as [-> | [-> Hk]]; [by rewrite Ev in E|]. rewrite Ev.
  eapply run_bind; [by apply (run_type te Open)|tnext].
  destruct Hk as [-> | ->]; (eapply run_raw_val; [done..| |constructor]); by repeat constructor.
Qed.

Lemma run_coerce_to_bool c s v t :
  tok te c s -> at_ Open s -> valok t c s v -> is_bool t = true ->
  run c s (coerce_to_bool v) (tpost te Open (fun c s x => Has c s x (Ty_Scalar Sc_Bool))).
Proof.
  intros Ht Hm [Ev Hv] Hb. unfold coerce_to_bool. rewrite Ev. destruct t as [|[]|[]| | | |]; try done.
  - by tret.
  - apply run_gets. eapply run_raw; [done|done|apply Ht| |apply vr_any]. by repeat constructor.
Qed.

Lemma run_swizzle c s v m k n comps :
  tok te c s -> at_ Open s -> valok (Ty_Vector k n) c s v -> decode_swizzle m = Some comps ->
  forallb (fun i => (i <? n)%Z) comps = true ->
  run c s (emit_swizzle v m k) (tpost te Open (valok (swizzle_type k comps))).
Proof.
  intros Ht Hm [Ev Hv] Hd Hn. unfold emit_swizzle. eapply run_ok_or; [exact Hd|].
  destruct (decode_swizzle_bounds m comps Hd) as [Hl Hc].
  eapply run_bind; [by apply (run_type te Open)|tnext].
  assert (Forall (fun i => 0 <= i < n)%Z comps) as Hr.
  { apply Forall_forall. intros i Hi. split; [by eapply Forall_forall in Hc|].
    rewrite forallb_forall in Hn.
    apply Z.ltb_lt, Hn. by apply list_elem_of_In. }
  destruct comps as [|i [|j comps]]; [simpl in Hl; lia|..].
  - tbind (run_scalar_type te). eapply run_value_val; [done|done|reflexivity|done|]. intros q.
    apply (typed_value _ _ OpCompositeExtract r0 _ [v_id v] [i] (Ty_Scalar k) [Ty_Vector k n]); [done|by repeat constructor|].
    apply vr_extract. by apply Forall_cons_1 in Hr as [? _].
  - set (cs := i :: j :: comps) in *.
    assert (swizzle_type k cs = Ty_Vector k (Z.of_nat (length cs))) as -> by done.
    eapply run_value_val; [done|done|reflexivity|done|]. intros q.
    apply (typed_value _ _ OpVectorShuffle r _ [v_id v; v_id v] cs (Ty_Vector k (Z.of_nat (length cs))) [Ty_Vector k n; Ty_Vector k n]);
      [done|by repeat constructor|].
    apply vr_shuffle; [|unfold cs in *; simpl in *; lia]. eapply Forall_impl; [exact Hr|]. simpl. lia.
Qed.

(** ** Expressions *)

Lemma typed_construct (c : Cx) s ty r ids k n ts :
  Den c s ty (Ty_Vector k n) -> Forall2 (Has c s) ids ts -> (2 <= length ts)%nat -> sum_components k ts = Some n ->
  Typed c s (value_inst (composite_construct ty ids) r).
Proof.
  intros Hd Hids Hl Hs. pose proof (typed_value c s OpCompositeConstruct ty r ids [] _ ts Hd Hids) as H.
  simpl in H. rewrite app_nil_r in H. apply H. by apply vr_construct.
Qed.

Definition espec (e : Expr) : Prop := forall t, expr_ty te e = Some t ->
  forall c s, tok te c s -> at_ Open s -> run c s (emit_expr e) (tpost te Open (valok t)).

Lemma run_args args ts : Forall espec args -> mapM (expr_ty te) args = Some ts ->
  forall c s, tok te c s -> at_ Open s ->
  run c s (m_list emit_expr args) (tpost te Open (fun c s vs => v_ty <$> vs = ts /\ Forall2 (Has c s) (v_id <$> vs) ts)).
Proof.
  intros Hs Hts%mapM_Some. induction Hts as [|e t args ts He _ IH]; intros c s Ht Hm; cbn [m_list].
  - tret. constructor.
  - apply Forall_cons in Hs as [H1 Hs]. eapply run_bind; [by apply H1|tnext].
    eapply run_bind; [by apply IH|]. intros vs c1 s1 HG (Ht1 & Hm1 & E & Hvs). tmove HG. tret; rewrite fmap_cons; [by f_equal|by constructor].
Qed.

Lemma run_construct ty args : Forall espec args -> espec (E_Construct ty args).
Proof.
  intros Hs t He c s Ht Hm. cbn [expr_ty] in He. apply bind_Some in He as (ts & Hts & Hc).
  pose proof (run_args args ts Hs Hts) as Hargs. cbn [emit_expr]. unfold emit_construct, construct_ty in *.
  destruct ty as [|k|k n| | | |]; try done.
  - assert (exists e u, args = [e] /\ ts = [u] /\ t = Ty_Scalar k /\
      (u = Ty_Scalar k \/ (u = Ty_Scalar Sc_Float /\ (k = Sc_Int \/ k = Sc_Uint)))) as (e & u & -> & -> & -> & Hu).
    { apply mapM_Some in Hts. destruct k; crush_match_in Hc; (inversion Hts as [|e u ? ? ? Hnil]; subst; inversion Hnil; subst);
        repeat match goal with H : bool_decide _ = true |- _ => apply bool_decide_eq_true in H as -> end;
        eexists _, _; eauto 10. }
    apply Forall_cons in Hs as [H1 _]. apply mapM_Some in Hts. inversion Hts as [|? ? ? ? Hu1 _]; subst.
    destruct k; try (eapply run_bind; [by eapply H1|]; intros v c1 s1 _ (? & ? & ?); by eapply run_coerce_scalar).
    destruct Hu as [-> | [-> [|]]]; [by apply H1|done..].
  - case_bool_decide as Hn; [|done]. eapply run_bind; [by apply (run_vector_type te Open)|tnext].
    destruct args as [|e [|e' args]].
    + apply mapM_Some in Hts. inversion Hts; subst. case_bool_decide as Hb; [|done]. simpl in Hb. lia.
    + apply Forall_cons in Hs as [H1 _]. apply mapM_Some in Hts.
      inversion Hts as [|? u ? ? Hu1 Hnil]; subst. inversion Hnil; subst. case_bool_decide as Eu; [|done]. simplify_eq.
      eapply run_bind; [by eapply H1|]. intros v c1 s1 HG (Ht1 & Hm1 & Ev & Hv). tmove HG. rewrite Ev.
      apply run_pure. eapply run_value_val; [done|done|reflexivity|done|]. intros q.
      apply (typed_construct c1 s1 r q _ k n (replicate (Z.to_nat n) (Ty_Scalar k))); [done|..].
      * by apply Forall2_replicate.
      * rewrite length_replicate. lia.
      * rewrite sum_replicate. f_equal. lia.
    + assert (sum_components k ts = Some n /\ (2 <= length ts)%nat /\ t = Ty_Vector k n) as (Hsum & Hlen & ->).
      { apply mapM_Some in Hts. inversion Hts as [|? ? ? ? ? Hts']; subst. inversion Hts'; subst.
        case_bool_decide as Hb; [|done]. simplify_eq. destruct Hb. by split_and!. }
      eapply run_bind; [by apply Hargs|]. intros vs c1 s1 HG (Ht1 & Hm1 & E & Hvs). tmove HG.
      eapply run_value_val; [done|done|reflexivity|done|]. intros q.
      by eapply typed_construct.
Qed.

Lemma run_ext c s set op ids t ts ty :
  tok te c s -> at_ Open s -> Den c s ty t -> Forall2 (Has c s) ids ts -> ext_rule op t ts ->
  run c s (let! id := bvalue "ext_inst" (ext_inst ty set op ids) in mret (mkVal id t)) (tpost te Open (valok t)).
Proof. intros. eapply run_value_val; [done|done|reflexivity|done|]. intros q. by eapply it_ext. Qed.

Definition wide_enough (t : Type_) : bool := match t with Ty_Vector _ n => (2 <=? n)%Z | _ => true end.

Lemma run_broadcast c s x t :
  tok te c s -> at_ Open s -> is_float t = true -> wide_enough t = true -> Has c s x (Ty_Scalar Sc_Float) ->
  run c s (broadcast_const x t) (tpost te Open (fun c s r => Has c s r t)).
Proof.
  intros Ht Hm Hf Hw Hx. destruct t as [|[]|[] n| | | |]; try done; simpl in *; [by tret|]. apply Z.leb_le in Hw.
  eapply run_bind; [by apply (run_vector_type te Open)|tnext].
  eapply run_value; [done|done|reflexivity|done|]. intros q.
  apply (typed_construct c0 s0 r q _ Sc_Float n (replicate (Z.to_nat n) (Ty_Scalar Sc_Float))); [done|..].
  - by apply Forall2_replicate.
  - rewrite length_replicate. lia.
  - rewrite sum_replicate. f_equal. lia.
Qed.

Lemma run_saturate x t0 t : espec x -> expr_ty te x = Some t0 -> call_ty "saturate" [t0] = Some t ->
  forall c s, tok te c s -> at_ Open s -> run c s (emit_call emit_expr "saturate" [x]) (tpost te Open (valok t)).
Proof.
  intros Hx Ex Hc c s Ht Hm. unfold call_ty in Hc. simpl in Hc. change (match t0 with Ty_Vector _ n => _ | _ => _ end) with (wide_enough t0) in Hc.
  destruct (is_float t0) eqn:Hf; [|done]. destruct (wide_enough t0) eqn:Hw; [|done]. simplify_eq/=.
  eapply run_bind; [by apply Hx|]. intros v c1 s1 HG (Ht1 & Hm1 & Ev & Hv). tmove HG.
  tbind (run_float_const te). tbind (run_float_const te). unfold glsl_unarylike_or_clamp. rewrite Ev.
  eapply run_bind; [apply (run_type te Open); auto|tnext].
  eapply run_bind; [by apply run_broadcast|tnext]. eapply run_bind; [by apply run_broadcast|tnext]. apply run_gets.
  eapply run_ext; [done|done|done|by repeat constructor|]. split; [split_and!; [done|by repeat constructor|done]|done].
Qed.

Lemma run_dot a b t1 t2 t : espec a -> espec b -> expr_ty te a = Some t1 -> expr_ty te b = Some t2 ->
  call_ty "dot" [t1; t2] = Some t ->
  forall c s, tok te c s -> at_ Open s -> run c s (emit_call emit_expr "dot" [a; b]) (tpost te Open (valok t)).
Proof.
  intros Ha Hb Ea Eb Hc c s Ht Hm. unfold call_ty in Hc. simpl in Hc. crush_match_in Hc.
  match goal with E : bool_decide _ = true |- _ => apply bool_decide_eq_true in E as -> end.
  cbn [emit_call String.eqb Ascii.eqb Bool.eqb].
  eapply run_bind; [by eapply Ha|]. intros av c1 s1 HG (Ht1 & Hm1 & Ev1 & Hv1). tmove HG.
  eapply run_bind; [by eapply Hb|]. intros bv c2 s2 HG (Ht2 & Hm2 & Ev2 & Hv2). tmove HG. rewrite Ev1.
  eapply run_bind; [by apply (run_type te Open)|tnext]. eapply run_value_val; [done|done|reflexivity|done|]. intros q.
  eapply (typed_value _ _ OpDot r q [v_id av; v_id bv] [] _ [_; _]); [done|by repeat constructor|apply vr_dot].
Qed.

Lemma mul_rule t1 t2 t : call_ty "mul" [t1; t2] = Some t ->
  (mul_type t1 t2 = Ok None /\ t1 = t2 /\ t = t1 /\ is_numeric t = true) \/
  exists o, mul_type t1 t2 = Ok (Some (t, o)) /\ value_rule o t [t1; t2] [] /\ type_ok te t = true.
Proof.
  unfold call_ty. simpl. intros H.
  destruct t1 as [|k1|[] n1|[] r1 c1| | |], t2 as [|k2|[] n2|[] r2 c2| | |]; simpl in *; try done.
  all: try (left; destruct (bool_decide _) eqn:E in H; simpl in H; [|done];
    apply bool_decide_eq_true in E; try (destruct k1; simplify_eq/=; by split_and!); simplify_eq/=; by split_and!).
  all: right; case_bool_decide as E; [|done]; simplify_eq; try (destruct E; subst).
  all: rewrite ?bool_decide_true by done; eexists; (split; [done|]); (split; [constructor|done]).
Qed.

Lemma run_mul args ts t : Forall espec args -> mapM (expr_ty te) args = Some ts -> call_ty "mul" ts = Some t ->
  forall c s, tok te c s -> at_ Open s -> run c s (emit_mul emit_expr args) (tpost te Open (valok t)).
Proof.
  intros Hs Hts%mapM_Some Hc c s Ht Hm.
  assert (exists a b t1 t2, args = [a; b] /\ ts = [t1; t2] /\ expr_ty te a = Some t1 /\ expr_ty te b = Some t2)
    as (a & b & t1 & t2 & -> & -> & Ea & Eb).
  { unfold call_ty in Hc. simpl in Hc. inversion Hts as [|a t1 ? ? Ha H2]; subst; [done|].
    inversion H2 as [|b t2 ? ? Hb H3]; subst; [by destruct t1 as [| |[]|[]| | |]|].
    inversion H3; subst; [eauto 10|]. by destruct t1 as [| |[]|[]| | |], t2 as [| |[]|[]| | |]. }
  apply Forall_cons in Hs as [Ha Hs]. apply Forall_cons in Hs as [Hb _]. unfold emit_mul.
  eapply run_bind; [by eapply Ha|]. intros av c1 s1 HG (Ht1 & Hm1 & Ev1 & Hv1). tmove HG.
  eapply run_bind; [by eapply Hb|]. intros bv c2 s2 HG (Ht2 & Hm2 & Ev2 & Hv2). tmove HG. rewrite Ev1, Ev2.
  destruct (mul_rule t1 t2 t Hc) as [(-> & <- & -> & Hn)|(o & -> & Hr & Hok)]; (eapply run_lift; [reflexivity|]).
  - by apply run_arith.
  - eapply run_bind; [by apply (run_type te Open)|tnext]. eapply run_raw_val; [done..| |exact Hr]. by repeat constructor.
Qed.

Lemma run_ext_call name args ts t : Forall espec args -> mapM (expr_ty te) args = Some ts ->
  name <> "saturate" -> name <> "dot" -> name <> "mul" -> call_ty name ts = Some t ->
  forall c s, tok te c s -> at_ Open s -> run c s (emit_ext_call emit_expr name args) (tpost te Open (valok t)).
Proof.
  intros Hs Hts N1 N2 N3 Hc c s Ht Hm. unfold call_ty in Hc.
  rewrite (proj2 (String.eqb_neq _ _) N1), (proj2 (String.eqb_neq _ _) N2), (proj2 (String.eqb_neq _ _) N3) in Hc.
  unfold emit_ext_call. destruct (glsl_op name) as [[op arity]|] eqn:Eg; [|done]. destruct ts as [|t1 ts]; [done|].
  destruct (_ && _ && _) eqn:E; [|done]. apply andb_prop in E as [[El Hf]%andb_prop Heq].
  eapply run_ok_or; [reflexivity|]. rewrite (length_mapM _ _ _ Hts), El.
  eapply run_bind; [by apply (run_args args _ Hs Hts)|]. intros vs c1 s1 HG (Ht1 & Hm1 & Ety & Hvs). tmove HG.
  assert (Forall (eq t1) (t1 :: ts)) as Hall.
  { apply Forall_forall. intros u Hu. rewrite forallb_forall in Heq. symmetry.
    pose proof (Heq u (proj1 (list_elem_of_In _ _) Hu)) as E. by apply bool_decide_eq_true in E. }
  destruct (glsl_op_names name op arity Eg) as [Hlen Hcross].
  assert (default (Ty_Scalar Sc_Float) (v_ty <$> last vs) = t1) as ->.
  { rewrite <- fmap_last, Ety. destruct (last (t1 :: ts)) as [u|] eqn:El'; [|by apply last_None in El'].
    apply last_Some_elem_of in El'. simpl. by eapply Forall_forall in Hall. }
  assert ((if String.eqb name "length" then Ty_Scalar Sc_Float else t1) = t /\ type_ok te t = true /\ ext_rule op t (t1 :: ts))
    as (-> & Hok & Hr).
  { unfold ext_rule. rewrite Hlen. destruct (String.eqb_spec name "length") as [->|Hn].
    - simplify_eq. split_and!; [done..| |by intros ?%Hcross]. exists t1. split; [done|].
      injection Eg as <- <-. by destruct ts.
    - assert (t1 = t /\ (name = "cross" -> t = Ty_Vector Sc_Float 3)) as [<- Hx].
      { destruct (String.eqb_spec name "cross"); [|by simplify_eq]. by case_bool_decide; simplify_eq. }
      split_and!; [done|by auto|by auto|done|done|]. intros Eop. by apply Hx, Hcross. }
  eapply run_bind; [by apply (run_type te Open)|tnext]. apply run_gets. by eapply run_ext.
Qed.

Lemma run_call name args : Forall espec args -> espec (E_Call name args).
Proof.
  intros Hs t He c s Ht Hm. cbn [expr_ty] in He. apply bind_Some in He as (ts & Hts & Hc). cbn [emit_expr].
  destruct (String.eqb_spec name "saturate") as [->|N1].
  { apply mapM_Some in Hts. inversion Hts as [|x t1 ? ? Hx H2]; subst; [done|]. inversion H2; subst.
    - apply Forall_cons in Hs as [H1 _]. by eapply run_saturate.
    - by unfold call_ty in Hc. }
  destruct (String.eqb_spec name "dot") as [->|N2].
  { pose proof Hts as Hts'. apply mapM_Some in Hts'. unfold call_ty in Hc. simpl in Hc.
    inversion Hts' as [|a t1 ? ? Ha H2]; subst; [done|].
    inversion H2 as [|b t2 ? ? Hb H3]; subst; [by destruct t1 as [| |[]| | | |]|].
    inversion H3; subst; [|by destruct t1 as [| |[]| | | |], t2 as [| |[]| | | |]].
    apply Forall_cons in Hs as [Hsa Hs]. apply Forall_cons in Hs as [Hsb _].
    by eapply (run_dot a b t1 t2). }
  unfold emit_call. rewrite (proj2 (String.eqb_neq _ _) N1), (proj2 (String.eqb_neq _ _) N2).
  destruct (String.eqb_spec name "mul") as [->|N3]; [by eapply run_mul|by eapply run_ext_call].
Qed.

Lemma run_assign op l r t u :
  espec r -> place_ty te l = Some (t, SC_Function) -> expr_ty te r = Some t -> type_ok te t = true ->
  (if compound_op op is Some o then is_arith o && is_numeric t else match op with Op_Assign => true | _ => false end) = true -> u = t ->
  forall c s, tok te c s -> at_ Open s -> run c s (emit_binary emit_expr op l r) (tpost te Open (valok u)).
Proof.
  intros Hr Hp Er Hok Hop -> c s Ht Hm. unfold emit_binary.
  assert (forall core, is_arith core = true -> is_numeric t = true ->
    run c s (let! place := emit_place l in
      let! ty_id := type_id (pl_ty place) in
      let! cur := bload ty_id (pl_ptr place) in
      let! rhs_val := emit_expr r in
      let! result := emit_arith core cur (pl_ty place) (v_id rhs_val) (v_ty rhs_val) in
      bstore (pl_ptr place) (v_id result) ;;; mret result) (tpost te Open (valok t))) as Hcomp.
  { intros core Ha Hn. eapply run_bind; [by eapply run_place|]. intros p ca sa HG (Hta & Hma & -> & Hpl). tmove HG.
    eapply run_bind; [by apply (run_type te Open)|tnext]. eapply run_bind; [by eapply run_load|tnext].
    eapply run_bind; [by eapply Hr|]. intros v cb sb HG (Htb & Hmb & -> & Hv). tmove HG.
    eapply run_bind; [by eapply run_arith|]. intros w cd sd HG (Htd & Hmd & Ew & Hw). tmove HG.
    eapply run_bind; [by eapply (run_store te); eauto|tnext]. tret. by split. }
  destruct op; simpl in Hop; try done; try (by apply Hcomp).
  eapply run_bind; [by eapply run_place|]. intros p ca sa HG (Hta & Hma & Ep & Hpl). tmove HG.
  eapply run_bind; [by eapply Hr|]. intros v cb sb HG (Htb & Hmb & Ev & Hv). tmove HG.
  unfold coerce. rewrite Ev, Ep, bool_decide_true by done. apply run_pure.
  eapply run_bind; [by eapply (run_store te); eauto|tnext]. tret. by split.
Qed.

Lemma run_binary op l r : espec l -> espec r -> espec (E_Binary op l r).
Proof.
  intros Hl Hr t He c s Ht Hm. cbn [emit_expr].
  assert (forall u v, expr_ty te l = Some u -> expr_ty te r = Some v -> binary_ty op u v = Some t ->
    run c s (let! lhs_val := emit_expr l in let! rhs_val := emit_expr r in
      if is_comparison op then emit_comparison op lhs_val rhs_val
      else match op with
      | Op_And | Op_Or => emit_logical op lhs_val rhs_val
      | _ => emit_arith op (v_id lhs_val) (v_ty lhs_val) (v_id rhs_val) (v_ty rhs_val)
      end) (tpost te Open (valok t))) as Hops.
  { intros u v Eu Ev Hb. unfold binary_ty in Hb. case_bool_decide as E; [subst v|done].
    eapply run_bind; [by eapply Hl|]. intros a ca sa HG (Hta & Hma & Ea & Ha). tmove HG.
    eapply run_bind; [by eapply Hr|]. intros b cb sb HG (Htb & Hmb & Eb & Hb'). tmove HG.
    destruct (is_comparison op) eqn:Ec.
    - destruct (is_numeric u) eqn:En; simplify_eq. by apply run_comparison.
    - rewrite Ea, Eb. destruct op; try done; simpl in Hb.
      1-4: destruct (is_numeric u) eqn:En; [|done]; injection Hb as <-; by apply run_arith.
      all: case_bool_decide as E; [|done]; injection Hb as <-; rewrite E in *; apply run_logical; auto; by split. }
  cbn [expr_ty] in He. destruct op; try (destruct (expr_ty te l) as [u|] eqn:Eu; [|done];
    destruct (expr_ty te r) as [v|] eqn:Ev; [|done]; by eapply Hops).
  all: destruct (place_ty te l) as [[u []]|] eqn:Ep; try done.
  all: destruct (expr_ty te r) as [v|] eqn:Ev; [|done].
  all: destruct (_ && _ && _) eqn:E; simplify_eq; apply andb_prop in E as [[E1%bool_decide_eq_true E2]%andb_prop E3]; subst v.
  all: by eapply run_assign.
Qed.

Lemma run_unary op e : espec e -> espec (E_Unary op e).
Proof.
  intros Hs t He c s Ht Hm. cbn [expr_ty] in He. apply bind_Some in He as (u & Eu & Hu).
  destruct (unary_rule op u t Hu) as (-> & Hok & o & Eo & Hr). cbn [emit_expr]. unfold emit_unary.
  eapply run_bind; [by eapply Hs|]. intros v ca sa HG (Hta & Hma & Ev & Hv). tmove HG. rewrite Ev.
  eapply run_bind; [apply (run_type te Open); [done|done|by destruct u]|tnext].
  eapply run_ok_or; [exact Eo|]. eapply run_raw_val; [done..| |exact Hr]. by repeat constructor.
Qed.

Lemma run_cast ty e : espec e -> espec (E_Cast ty e).
Proof.
  intros Hs t He c s Ht Hm. cbn [expr_ty] in He. apply bind_Some in He as (u & Eu & Hu). cbn [emit_expr]. unfold emit_cast.
  destruct (type_ok te ty) eqn:Hok; [|done]. simpl in Hu.
  eapply run_bind; [by eapply Hs|]. intros v ca sa HG (Hta & Hma & Ev & Hv). tmove HG.
  eapply run_bind; [by apply (run_type te Open)|tnext]. rewrite Ev. destruct (cast_op u ty) as [o|] eqn:Ec.
  - rewrite orb_true_r in Hu. simplify_eq. eapply run_raw_val; [done..| |by eapply cast_rule]. by repeat constructor.
  - rewrite orb_false_r in Hu. case_bool_decide; simplify_eq. tret. by split.
Qed.

Lemma run_member e member : espec e -> espec (E_Member e member).
Proof.
  intros Hs t He c s Ht Hm. cbn [emit_expr]. unfold emit_member. apply run_mget.
  cbn [expr_ty] in He. destruct (can_infer e) eqn:Hi; [|done]. destruct (expr_ty te e) as [u|] eqn:Eu; [|done].
  eapply run_lift; [by eapply infer_ok|]. destruct u as [| |k n| |n| |]; try done.
  - eapply run_bind; [by eapply Hs|]. intros v ca sa HG (Hta & Hma & Hv).
    destruct (decode_swizzle member) as [comps|] eqn:Ed; [|done]. destruct (forallb _ _) eqn:Ef; simplify_eq.
    by eapply run_swizzle.
  - destruct (place_ty te (E_Member e member)) as [[v sc]|] eqn:Ep; [|done]. injection He as <-.
    eapply run_bind; [by eapply (run_place te)|]. intros p ca sa HG (Hta & Hma & Epl & Hp). tmove HG. rewrite Epl.
    assert (type_ok te v = true) as Hok.
    { cbn [place_ty] in Ep. destruct (place_ty te e) as [[[] []]|]; try done.
      destruct (te_structs te !! _); [|done]. destruct (find_member _ _ _) as [[k x]|]; [|done].
      destruct (type_ok te (sm_ty x)) eqn:Ex; [|done]. injection Ep as E _. by rewrite <- E. }
    eapply run_bind; [by apply (run_type te Open)|tnext]. by eapply run_load_val.
Qed.

Lemma run_expr e : espec e.
Proof.
  induction e as [l|n|ty args IH|n args IH|e member args IHe IH|e member IHe|op l r IHl IHr|op e IHe|ty e IHe]
    using Expr_list_ind.
  - intros t He c s Ht Hm. destruct l; injection He as <-; cbn [emit_expr].
    1-2: tbind (run_int_const te); tret; by destruct H as [? _].
    + tbind (run_float_const te). by tret.
    + tbind (run_bool_const te). by tret.
  - intros t He c s Ht Hm. cbn [expr_ty] in He. destruct (place_ty te (E_Ident n)) as [[u sc]|] eqn:Ep; [|done].
    injection He as <-. cbn [emit_expr emit_place].
    eapply run_bind; [by apply (run_place_ident te)|]. intros p ca sa HG (Hta & Hma & Epl & Hp). tmove HG. rewrite Epl.
    pose proof Hp as (i & tid & _ & _ & _ & (r & _ & Hd)).
    eapply run_bind; [by eapply (run_value_type te)|tnext]. by eapply run_load_val.
  - by apply run_construct.
  - by apply run_call.
  - done.
  - by apply run_member.
  - by apply run_binary.
  - by apply run_unary.
  - by apply run_cast.
Qed.
End Code.
