(* ===== verification/HlslTypeSafety.v ===== *)
(** * Type safety of the compiler's back end

    Statements, declarations and the entry point, on top of [HlslTypedCode.v],
    and the theorem: a program the checker accepts compiles to a well-formed and
    well-typed module. *)
From Stdlib Require Import ZArith Lia Ascii String.
From stdpp Require Import base list option gmap strings sets.
From S2P Require Import Prelude HlslAst SpirvBuilder HlslCodegen HlslShape HlslSsa HlslTypes HlslTyping HlslSound HlslTypedCode.
Local Open Scope rust_scope.
Set Warnings "-register-all".

Section Program.
Context {B : Type} {HB : Builder B} {HL : BuilderLaws B}.
Abbreviation Cx := (Ctx (B := B)).
Abbreviation G := (M Cx CodegenError).
Abbreviation Den c s := (den (sids c) (s_glob s)).
Abbreviation Has c s := (has (sids c) (s_glob s) (typed_defs s)).
Abbreviation Points c s := (points (sids c) (s_glob s) (typed_defs s)).
Abbreviation Typed c s := (inst_typed (sids c) (s_glob s) (typed_defs s)).
Abbreviation whatever := (fun _ _ _ => True).

(** ** Statements *)

Definition after (b : bool) : mode := if b then Closed else Open.

Lemma is_terminated_eq te b c s : tok te c s -> at_ (after b) s -> is_terminated c = (Ok b, c).
Proof.
  intros Ht Hm. pose proof (tk_repr _ _ _ Ht) as Hst. unfold is_terminated, gets. rewrite <- view_selected. destruct b.
  - destruct Hm as (_ & _ & Ec). by rewrite (repr_unselected _ s Hst Ec).
  - destruct Hm as (_ & [bl Ec]). by rewrite (repr_selected _ s bl Hst Ec).
Qed.

Lemma run_terminated {A} te b c s (f : bool -> G A) R :
  tok te c s -> at_ (after b) s -> run c s (f b) R -> run c s (mbind is_terminated f) R.
Proof.
  intros Ht Hm (a & c' & s' & E & HR). exists a, c', s'. unfold mbind.
  by rewrite (is_terminated_eq te b c s Ht Hm).
Qed.

Lemma run_jump te b c s l :
  tok te c s -> at_ (after b) s -> run c s (jump_unless_terminated l) (tpost te Closed whatever).
Proof.
  intros Ht Hm. unfold jump_unless_terminated. eapply run_terminated; [done|done|]. destruct b; [by tret|].
  apply (run_terminate te); [done|done|apply it_branch].
Qed.

Lemma run_label te l c s : tok te c s -> at_ Closed s ->
  run c s (begin_block l ;;; mret tt) (tpost te Open whatever).
Proof. intros Ht Hm. eapply run_bind; [apply (run_begin_block te Closed); auto|tnext]. by tret. Qed.

(** A condition, as the id of a boolean. *)
Lemma run_cond {A} te e c s (f : Z -> G A) R :
  cond_ok te e = true -> tok te c s -> at_ Open s ->
  (forall x c' s', grow c s c' s' -> tok te c' s' -> at_ Open s' -> Has c' s' x (Ty_Scalar Sc_Bool) -> run c' s' (f x) R) ->
  run c s (let! v := emit_expr e in let! x := coerce_to_bool v in f x) R.
Proof.
  intros Hc Ht Hm Hf. unfold cond_ok in Hc. destruct (expr_ty te e) as [t|] eqn:Ee; [|done].
  eapply run_bind; [by eapply (run_expr te e)|]. intros v c1 s1 G1 (Ht1 & Hm1 & Hv).
  eapply run_bind; [by eapply (run_coerce_to_bool te)|]. intros x c2 s2 G2 (Ht2 & Hm2 & Hx).
  apply Hf; [by eapply grow_trans|done..].
Qed.

Definition sspec (st : Stmt) : Prop := forall te te', check_stmt te st = Some te' ->
  forall c s, tok te c s -> at_ Open s ->
  run c s (emit_stmt st) (tpost te' (after (terminates st)) whatever).

Lemma run_block b : Forall sspec b -> forall te te', check_block check_stmt te b = Some te' ->
  forall c s, tok te c s -> at_ Open s ->
  run c s (emit_block emit_stmt b) (tpost te' (after (terminates (S_Block b))) whatever).
Proof.
  intros Hs. induction Hs as [|st b Hst Hs IH]; intros te te' Hc c s Ht Hm; simpl in Hc.
  - simplify_eq. by tret.
  - destruct (check_stmt te st) as [te1|] eqn:E1; [|done]. cbn [emit_block].
    eapply run_bind; [exact (Hst te te1 E1 c s Ht Hm)|tnext]. eapply run_terminated; [done|done|].
    destruct (terminates st) eqn:Et.
    + destruct b; [|done]. simplify_eq. tret. cbn. by rewrite Et.
    + assert (terminates (S_Block (st :: b)) = terminates (S_Block b)) as -> by (destruct b; [done|done]).
      by apply (IH te1 te').
Qed.

Lemma run_if cond t e : Forall sspec t -> Forall sspec (default [] e) -> sspec (S_If cond t e).
Proof.
  intros Hst Hse te te' Hc c s Ht Hm. simpl in Hc. destruct (cond_ok te cond) eqn:Ec; [|done].
  destruct (check_block check_stmt te t) as [te1|] eqn:E1; [|done].
  cbn [emit_stmt terminates after]. unfold emit_if. apply (run_cond te); [done..|]. intros x c1 s1 _ Ht1 Hm1 Hx.
  eapply run_bind; [by apply (run_id te Open)|tnext]. eapply run_bind; [by apply (run_id te Open)|tnext].
  eapply (run_bind _ _ _ _ (tpost te Open whatever)).
  { destruct e; [by apply (run_id te Open)|by tret]. }
  tnext. eapply run_bind; [apply (run_effect te); [done|done|apply it_selection]|tnext].
  eapply run_bind; [apply (run_terminate te); [done|done|by apply it_cond]|tnext].
  eapply run_bind; [apply (run_begin_block te Closed); auto|tnext].
  eapply run_bind; [by apply (run_block t Hst te te1)|tnext].
  eapply run_bind; [by eapply run_jump|tnext].
  eapply (run_bind _ _ _ _ (tpost te' Closed whatever)).
  { destruct e as [e|]; simplify_eq; [|by tret].
    eapply run_bind; [apply (run_begin_block te1 Closed); auto|tnext].
    eapply run_bind; [by apply (run_block e Hse te1 te')|tnext]. by eapply run_jump. }
  tnext. by apply run_label.
Qed.

Lemma run_for i cond u b : Forall sspec (option_list i) -> Forall sspec b -> sspec (S_For i cond u b).
Proof.
  intros Hsi Hsb te te' Hc c s Ht Hm. cbn [check_stmt] in Hc.
  destruct (match i with Some s => if terminates s then None else check_stmt te s | None => Some te end) as [te1|] eqn:E1; [|done].
  destruct (match cond with Some c => cond_ok te1 c | None => true end) eqn:Ec; [|done].
  destruct (check_block check_stmt te1 b) as [te2|] eqn:E2; [|done].
  assert (te2 = te' /\ (forall e, u = Some e -> exists t, expr_ty te' e = Some t)) as [-> Hu].
  { destruct u as [e|]; simplify_eq; [|by split]. destruct (expr_ty te2 e) eqn:Eu; simplify_eq. split; [done|].
    intros ? [= <-]. eauto. }
  cbn [emit_stmt terminates after]. unfold emit_for.
  eapply (run_bind _ _ _ _ (tpost te1 Open whatever)).
  { destruct i as [st|]; [|simplify_eq; by tret]. apply Forall_cons in Hsi as [Hst _].
    destruct (terminates st) eqn:Et; [done|]. pose proof (Hst te te1 E1 c s Ht Hm) as H. by rewrite Et in H. }
  tnext. apply (run_terminated te1 false); [done|done|].
  do 4 (eapply run_bind; [by apply (run_id te1 Open)|tnext]).
  eapply run_bind; [apply (run_terminate te1); [done|done|apply it_branch]|tnext].
  eapply run_bind; [apply (run_begin_block te1 Closed); auto|tnext].
  eapply run_bind; [apply (run_effect te1); [done|done|apply it_loop]|tnext].
  eapply (run_bind _ _ _ _ (tpost te1 Closed whatever)).
  { destruct cond as [e|]; [|apply (run_terminate te1); [done|done|apply it_branch]].
    apply (run_cond te1); [done..|]. intros x cx sx _ Htx Hmx Hx.
    apply (run_terminate te1); [done|done|by apply it_cond]. }
  tnext. eapply run_bind; [apply (run_begin_block te1 Closed); auto|tnext].
  eapply run_bind; [by apply (run_block b Hsb te1 te')|tnext]. eapply run_bind; [by eapply run_jump|tnext].
  eapply run_bind; [apply (run_begin_block te' Closed); auto|tnext].
  eapply (run_bind _ _ _ _ (tpost te' Open whatever)).
  { destruct u as [e|]; [|by tret]. destruct (Hu e eq_refl) as [t Ee].
    eapply run_bind; [by eapply (run_expr te' e)|tnext]. by tret. }
  tnext. eapply run_bind; [apply (run_terminate te'); [done|done|apply it_branch]|tnext]. by apply run_label.
Qed.

Lemma run_push_local te m c s n p t :
  tok te c s -> at_ m s -> Points c s p SC_Function t ->
  run c s (push_local n (mkPlace p t)) (tpost (push_te n t te) m whatever).
Proof.
  intros Ht Hm Hp. eexists _, _, s. split; [reflexivity|]. split; [by constructor|]. split_and!; [|done|done].
  destruct Ht. constructor; try done.
  simpl. apply Forall2_app; [done|]. by repeat constructor.
Qed.

Lemma run_var_decl d : sspec (S_VarDecl d).
Proof.
  intros te te' Hc c s Ht Hm. simpl in Hc. destruct (type_ok te (vd_ty d)) eqn:Hok; [|done]. simpl in Hc.
  cbn [emit_stmt terminates after]. unfold emit_var_decl. eapply run_bind; [by apply (run_alloc_local te)|tnext].
  eapply (run_bind _ _ _ _ (tpost te Open (fun c s _ => Points c s r SC_Function (vd_ty d)))).
  { destruct (vd_init d) as [e|]; [|by tret]. case_bool_decide as Ee; [|done].
    eapply run_bind; [by eapply (run_expr te e)|]. intros v c1 s1 HG (Ht1 & Hm1 & Ev & Hv). tcarry HG.
    eapply run_mono; [by eapply (run_store te); eauto|]. intros ? c2 s2 HG2 (? & ? & _). tcarry HG2. by split_and!. }
  tnext. destruct (match vd_init d with Some _ => _ | None => true end); simplify_eq. by apply run_push_local.
Qed.

Lemma run_return e : sspec (S_Return e).
Proof.
  intros te te' Hc c s Ht Hm. cbn [emit_stmt terminates after]. unfold emit_return.
  assert (forall c s, tok te c s -> at_ Open s -> run c s bret (tpost te Closed whatever)) as Hret.
  { intros c' s' Ht' Hm'. apply (run_terminate te); [done|done|apply it_ret]. }
  destruct e as [e|]; simpl in Hc; [|simplify_eq; by apply Hret].
  destruct (expr_ty te e) as [t|] eqn:Ee; [|done].
  eapply run_bind; [by eapply (run_expr te e)|]. intros v c1 s1 HG (Ht1 & Hm1 & Ev & Hv). apply run_gets.
  eapply (run_bind _ _ _ _ (tpost te Open whatever)).
  { pose proof (tk_out _ _ _ Ht1) as Ho. inversion Ho as [o u Hp E1 E2|E1 E2]; [|by tret].
    rewrite <- E2 in Hc. case_bool_decide; [|done]. subst u. by eapply (run_store te); eauto. }
  tnext. assert (te' = te) as -> by (destruct (te_out te); [case_bool_decide|]; by simplify_eq). by apply Hret.
Qed.

Lemma run_stmt st : sspec st.
Proof.
  induction st as [e|d|e|cond t e IHt IHe|i cond u b IHi IHb|b IHb] using Stmt_list_ind.
  - apply run_return.
  - apply run_var_decl.
  - intros te te' Hc c s Ht Hm. simpl in Hc. destruct (expr_ty te e) eqn:Ee; simplify_eq.
    cbn [emit_stmt terminates after]. eapply run_bind; [by eapply (run_expr te' e)|tnext]. by tret.
  - by apply run_if.
  - by apply run_for.
  - intros te te' Hc c s Ht Hm. by apply (run_block b IHb te).
Qed.

(** ** Loops over headers and types *)

Lemma run_iter {A} te m (f : A -> G unit) l :
  (forall x c s, tok te c s -> at_ m s -> run c s (f x) (tpost te m whatever)) ->
  forall c s, tok te c s -> at_ m s -> run c s (m_iter f l) (tpost te m whatever).
Proof.
  intros Hf. induction l as [|x l IH]; intros c s Ht Hm; cbn [m_iter]; [by tret|].
  eapply run_bind; [by apply Hf|tnext]. by apply IH.
Qed.

Definition denote_members (c : Cx) (s : Shape) (rs : list Z) (ms : list StructMember) : Prop :=
  Forall2 (fun r m => Den c s r (sm_ty m)) rs ms.

Lemma denote_members_grow c s c' s' rs ms : grow c s c' s' -> denote_members c s rs ms -> denote_members c' s' rs ms.
Proof. intros HG H. eapply Forall2_impl; [exact H|]. intros. by eapply Den_grow. Qed.

Lemma run_member_types te m ms : forallb (fun x => type_ok te (sm_ty x)) ms = true ->
  forall c s, tok te c s -> at_ m s ->
  run c s (m_list (fun x => type_id (sm_ty x)) ms) (tpost te m (fun c s rs => denote_members c s rs ms)).
Proof.
  induction ms as [|x ms IH]; intros Hok c s Ht Hm; cbn [m_list]; [tret; constructor|].
  apply andb_prop in Hok as [H1 Hok]. eapply run_bind; [by apply (run_type te m)|tnext].
  eapply run_bind; [by apply IH|]. intros rs c1 s1 HG (Ht1 & Hm1 & Hrs). tcarry HG. tret. by constructor.
Qed.

(** A struct type of the module, with the types of its members. *)
Lemma run_struct_type te m c s rs ms :
  tok te c s -> at_ m s -> denote_members c s rs ms -> (Z.of_nat (length ms) < 2 ^ 31)%Z ->
  run c s (btype (type_struct rs)) (tpost te m (fun c s r => struct_ok c s (mkStructInfo r ms))).
Proof.
  intros Ht Hm Hd Hl. eapply run_mono; [by apply (run_btype te m)|]. intros r c' s' HG (? & ? & ?).
  split_and!; [done..|]. split; [done|]. exists rs. split; [done|]. by eapply denote_members_grow.
Qed.

(** ** The tables *)

Lemma run_insert_struct te m c s n i :
  tok te c s -> at_ m s -> te_structs te !! n = None -> struct_ok c s i ->
  run c s (insert_struct n i) (tpost (set_te_struct n (si_members i) te) m (fun c s _ =>
    c_structs c !! n = Some i)).
Proof.
  intros Ht Hm Hn Hi. set (c' := set_tables (<[n := i]> (c_structs c)) (c_globals c) (c_cbuffer_members c) (c_locals c) c).
  assert (c_structs c !! n = None) as Hn'.
  { rewrite (tk_structs _ _ _ Ht), lookup_fmap in Hn. by destruct (c_structs c !! n). }
  assert (grow c s c' s) as HG by (constructor; [by apply insert_subseteq|done..]).
  exists tt, c', s. split; [reflexivity|]. split; [done|]. split_and!; [|done|by apply lookup_insert_eq].
  destruct Ht as [HR _v _b _f _i _u Hst Hss Hgl Hmem Hloc Hout Hins]. constructor; try (by eapply Den_grow); try done.
  - simpl. by rewrite Hst, fmap_insert.
  - intros n' i'. simpl. intros [[-> ->]|[Hne Hi']]%lookup_insert_Some; [by eapply struct_grow|].
    by eapply struct_grow, Hss.
  - intros n'. simpl. destruct (Hgl n') as [g t [H1 H2]|]; constructor. split; [done|].
    intros. eapply Points_grow; [done|]. by apply H2.
  - intros n'. simpl. destruct (Hmem n') as [g t H1|]; constructor. by eapply member_ok_grow.
  - eapply Forall2_impl; [done|]. intros. by eapply local_grow.
  - simpl. destruct Hout as [o t H1|]; constructor. by eapply Points_grow.
  - intros j Hj. eapply Typed_grow; [done|]. auto.
Qed.

Lemma member_ok_new te te' (c : Cx) s n v : te_globals te ⊆ te_globals te' -> member_ok te c s n v -> member_ok te' c s n v.
Proof.
  intros Hsub (t & sc & name & k & ? & ? & ? & ?). exists t, sc, name, k. split_and!; [by eapply lookup_weaken|done..].
Qed.

Lemma run_insert_global te te' m c s n p t sc :
  tok te c s -> at_ m s -> new_global n t sc te = Some te' -> Points c s p sc t ->
  run c s (insert_global n (mkPlace p t)) (tpost te' m whatever).
Proof.
  unfold new_global. intros Ht Hm Hn Hp. case_bool_decide as Hfresh; [|done]. injection Hn as <-.
  eexists _, _, s. split; [reflexivity|]. split; [by constructor|]. split_and!; [|done|done].
  destruct Ht as [HR _v _b _f _i _u Hst Hss Hgl Hmem Hloc Hout Hins]. constructor; try done.
  - intros n'. simpl. destruct (decide (n' = n)) as [->|].
    + rewrite !lookup_insert_eq. by constructor.
    + rewrite !lookup_insert_ne by done. apply Hgl.
  - intros n'. simpl. destruct (Hmem n') as [v u Hv|]; constructor.
    eapply member_ok_new; [|exact Hv]. by apply insert_subseteq.
Qed.

(** A member of a constant buffer: a global and the index of the member. *)
Lemma run_insert_member te te' m c s n v i t name k :
  tok te c s -> at_ m s -> new_global n t SC_Uniform te = Some te' ->
  Points c s v SC_Uniform (Ty_Struct name) -> index_const (sids c) (s_glob s) i k ->
  member_type (sids c) (s_glob s) name k t ->
  run c s (insert_global n (mkPlace v t) ;;; insert_cbuffer_member n (v, i)) (tpost (set_te_member n te') m whatever).
Proof.
  unfold new_global. intros Ht Hm Hn Hv Hi Hk. case_bool_decide as Hfresh; [|done]. injection Hn as <-.
  eexists _, _, s. split; [reflexivity|]. split; [by constructor|]. split_and!; [|done|done].
  destruct Ht as [HR _v _b _f _i _u Hst Hss Hgl Hmem Hloc Hout Hins]. constructor; try done.
  - intros n'. unfold global_ok. simpl. destruct (decide (n' = n)) as [->|].
    + rewrite !lookup_insert_eq. constructor. by split.
    + rewrite !lookup_insert_ne by done. destruct (Hgl n') as [g u [H1 H2]|]; constructor. by split.
  - intros n'. simpl. destruct (decide (n' = n)) as [->|].
    + rewrite !lookup_insert_eq. constructor. exists t, SC_Uniform, name, k. simpl. by rewrite lookup_insert_eq.
    + rewrite !lookup_insert_ne by done. destruct (Hmem n') as [w u Hw|]; constructor.
      eapply member_ok_new; [|exact Hw]. by apply insert_subseteq.
Qed.

Lemma run_set_out te m c s v t :
  tok te c s -> at_ m s -> Points c s v SC_Output t -> run c s (set_out v t) (tpost (set_te_out t te) m whatever).
Proof.
  intros Ht Hm Hp. eexists _, _, s. split; [reflexivity|]. split; [by constructor|]. split_and!; [|done|done].
  destruct Ht as [HR _v _b _f _i _u Hst Hss Hgl Hmem Hloc Hout Hins]. constructor; try done. by constructor.
Qed.

Lemma run_push_interface te m c s v :
  tok te c s -> at_ m s -> run c s (push_interface v) (tpost te m whatever).
Proof.
  intros Ht Hm. eexists _, _, s. split; [reflexivity|]. split; [by constructor|]. split_and!; [|done|done].
  destruct Ht as [HR _v _b _f _i _u Hst Hss Hgl Hmem Hloc Hout Hins]. by constructor.
Qed.

(** A variable of the module that points to a type. *)
Lemma run_global_var te c s sc tid t :
  tok te c s -> at_ Declaring s -> Den c s tid t ->
  run c s (let! pt := btype (type_pointer sc tid) in bld (b_variable pt sc))
    (tpost te Declaring (fun c s r => Points c s r sc t)).
Proof.
  intros Ht Hm Hd. eapply run_bind; [by apply (run_btype te Declaring)|tnext].
  eapply run_mono; [by apply run_variable|]. intros r' c' s' HG (? & ? & Hin). tcarry HG.
  split_and!; [done..|]. eexists _, r. split_and!; [apply elem_of_app; left; exact Hin|done..|].
  exists tid. by split.
Qed.

Lemma run_global_var_bind {A} te c s sc tid t (k : Z -> G A) R :
  tok te c s -> at_ Declaring s -> Den c s tid t ->
  (forall v c' s', grow c s c' s' -> tok te c' s' -> at_ Declaring s' -> Points c' s' v sc t -> run c' s' (k v) R) ->
  run c s (let! pt := btype (type_pointer sc tid) in let! v := bld (b_variable pt sc) in k v) R.
Proof.
  intros Ht Hm Hd Hk.
  assert (run c s (mbind (let! pt := btype (type_pointer sc tid) in bld (b_variable pt sc)) k) R) as (a & c' & s' & E & HR).
  { eapply run_bind; [by eapply run_global_var|]. intros v c1 s1 HG (? & ? & ?). by apply Hk. }
  exists a, c', s'. by rewrite <- mbind_assoc.
Qed.

(** ** Declarations *)

Lemma type_ok_structs te te' t : te_structs te = te_structs te' -> type_ok te t = type_ok te' t.
Proof. intros E. destruct t; try done. simpl. by rewrite E. Qed.

Lemma types_ok_structs te te' ms : te_structs te = te_structs te' ->
  forallb (fun m => type_ok te (sm_ty m)) ms = forallb (fun m => type_ok te' (sm_ty m)) ms.
Proof. intros E. induction ms as [|m ms IH]; simpl; [done|]. by rewrite IH, (type_ok_structs te te'). Qed.

Lemma run_register_struct te te' c s d :
  tok te c s -> at_ Declaring s -> check_decl te (D_Struct d) = Some te' ->
  run c s (register_struct d) (tpost te' Declaring whatever).
Proof.
  intros Ht Hm Hc. simpl in Hc. unfold register_struct. apply run_gets.
  assert (is_Some (te_structs te !! sd_name d) <-> is_Some (c_structs c !! sd_name d)) as Hiff.
  { by rewrite (tk_structs _ _ _ Ht), lookup_fmap, fmap_is_Some. }
  rewrite <- (bool_decide_ext _ _ Hiff). case_bool_decide as Hs; [simplify_eq; by tret|].
  destruct (members_ok te (sd_members d)) eqn:Hok; [|done]. injection Hc as <-.
  apply andb_prop in Hok as [Hok Hl%Z.ltb_lt].
  eapply run_bind; [by apply (run_member_types te Declaring)|]. intros rs c1 s1 HG (Ht1 & Hm1 & Hrs).
  eapply run_bind; [by eapply (run_struct_type te Declaring)|]. intros r c2 s2 HG2 (Ht2 & Hm2 & Hi).
  eapply run_bind; [apply (run_iter te Declaring); [|done..]; intros; by apply run_header|].
  intros _ c3 s3 HG3 (Ht3 & Hm3 & _). eapply run_mono; [apply (run_insert_struct te Declaring); [done|done|..]|].
  - by apply eq_None_not_Some.
  - by eapply struct_grow.
  - intros ? ? ? _ (? & ? & _). by split_and!.
Qed.

Lemma imap_seq {A C} (f : Z * A -> C) k (l : list A) x :
  imap (fun j y => (Z.of_nat (k + j), y)) (x :: l) =
  (Z.of_nat k, x) :: imap (fun j y => (Z.of_nat (S k + j), y)) l.
Proof.
  simpl. rewrite Nat.add_0_r. f_equal. apply imap_ext. intros j y _. simpl. by rewrite Nat.add_succ_r.
Qed.

(** What a struct of the context gives. *)
Lemma struct_den (c : Cx) s n i : c_structs c !! n = Some i -> Den c s (si_type_id i) (Ty_Struct n).
Proof. intros E. apply den_struct. unfold sids. by rewrite lookup_fmap, E. Qed.
Lemma struct_members te (c : Cx) s n i j m : tok te c s -> c_structs c !! n = Some i -> si_members i !! j = Some m ->
  member_type (sids c) (s_glob s) n (Z.of_nat j) (sm_ty m).
Proof.
  intros Ht E Hj. destruct (tk_struct _ _ _ Ht _ _ E) as (_ & ids & Hin & Hids).
  destruct (Forall2_lookup_r _ _ _ _ _ Hids Hj) as (q & Hq & Hd).
  exists (si_type_id i), ids, q. rewrite Nat2Z.id. split_and!; [|done..]. unfold sids. by rewrite lookup_fmap, E.
Qed.

Lemma run_cb_members name v ms : forall k te te' c s,
  check_members te ms = Some te' -> tok te c s -> at_ Declaring s ->
  forallb (fun m => type_ok te (sm_ty m)) ms = true -> (Z.of_nat (k + length ms) < 2 ^ 31)%Z ->
  Points c s v SC_Uniform (Ty_Struct name) ->
  (forall j m, ms !! j = Some m -> member_type (sids c) (s_glob s) name (Z.of_nat (k + j)) (sm_ty m)) ->
  run c s (m_iter (fun im : Z * StructMember =>
    let! member_ty_id := type_id (sm_ty im.2) in
    let! _ := btype (type_pointer SC_Uniform member_ty_id) in
    let! idx_const := int_const (to_signed 32 im.1) true in
    insert_global (sm_name im.2) (mkPlace v (sm_ty im.2)) ;;;
    insert_cbuffer_member (sm_name im.2) (v, idx_const)) (imap (fun j x => (Z.of_nat (k + j), x)) ms))
    (tpost te' Declaring whatever).
Proof.
  induction ms as [|m ms IH]; intros k te te' c s Hc Ht Hm Hok Hl Hv Hms; [simpl in *; simplify_eq; by tret|].
  rewrite (imap_seq fst). cbn [m_iter fst snd]. cbn [check_members] in Hc. apply bind_Some in Hc as (te1 & H1 & Hc).
  apply andb_prop in Hok as [Hm1 Hok]. simpl in Hl.
  pose proof (Hms 0 m eq_refl) as Hk. rewrite Nat.add_0_r in Hk.
  assert (forall j x, ms !! j = Some x -> member_type (sids c) (s_glob s) name (Z.of_nat (S k + j)) (sm_ty x)) as Hrest.
  { intros j x Hj. replace (S k + j) with (k + S j) by lia. by apply (Hms (S j)). }
  clear Hms. eapply (run_bind _ _ _ _ (tpost (set_te_member (sm_name m) te1) Declaring whatever)).
  - eapply run_bind; [by apply (run_type te Declaring)|tnext]. eapply run_bind; [by apply (run_btype te Declaring)|tnext].
    eapply run_bind; [apply (run_index te Declaring); [done|done|lia]|tnext]. by eapply run_insert_member.
  - intros _ c1 s1 HG (Ht1 & Hd1 & _). tcarry HG. apply (IH (S k) (set_te_member (sm_name m) te1) te'); [done|done|done| |lia|done|].
    + rewrite <- Hok. apply types_ok_structs. unfold new_global in H1. by case_bool_decide; simplify_eq.
    + intros j x Hj. eapply member_grow; [done|]. by apply Hrest.
Qed.

Lemma structs_grow (c : Cx) s c' s' n i : grow c s c' s' -> c_structs c !! n = Some i -> c_structs c' !! n = Some i.
Proof. intros [] ?. by eapply lookup_weaken. Qed.

Lemma run_binding te m c s v r : tok te c s -> at_ m s -> run c s (decorate_binding v r) (tpost te m whatever).
Proof.
  intros Ht Hm. unfold decorate_binding. destruct (parse_register r). eapply run_bind; [by apply (run_header te m)|tnext].
  by apply run_header.
Qed.

Lemma types_ok_mono te te' ms : te_structs te ⊆ te_structs te' ->
  forallb (fun m => type_ok te (sm_ty m)) ms = true -> forallb (fun m => type_ok te' (sm_ty m)) ms = true.
Proof.
  intros E. rewrite !forallb_forall. intros H m Hin. specialize (H m Hin). destruct (sm_ty m); try done. simpl in *.
  apply bool_decide_eq_true in H as [x Hx]. apply bool_decide_eq_true. exists x. by eapply lookup_weaken.
Qed.

Lemma run_cbuffer te te' c s d :
  tok te c s -> at_ Declaring s -> check_decl te (D_CBuffer d) = Some te' ->
  run c s (emit_cbuffer d) (tpost te' Declaring whatever).
Proof.
  intros Ht Hm Hc. simpl in Hc. case_bool_decide as Hfresh; [|done]. simpl in Hc.
  destruct (members_ok te (cb_members d)) eqn:Hok; [|done]. apply andb_prop in Hok as [Hok Hl%Z.ltb_lt].
  apply bind_Some in Hc as (te1 & H1 & Hc). unfold emit_cbuffer.
  eapply run_bind; [by apply (run_member_types te Declaring)|]. intros rs c1 s1 HG1 (Ht1 & Hm1 & Hrs).
  eapply run_bind; [by eapply (run_struct_type te Declaring)|]. intros r c2 s2 HG2 (Ht2 & Hm2 & Hi).
  eapply run_bind; [by apply (run_header te Declaring)|]. intros _ c3 s3 HG3 (Ht3 & Hm3 & _).
  apply (struct_grow _ _ _ _ HG3) in Hi.
  eapply run_bind; [apply (run_iter te Declaring); [|done..]; intros; eapply run_bind; [by apply (run_header te Declaring)|tnext]; by apply run_header|].
  intros _ c4 s4 HG4 (Ht4 & Hm4 & _). apply (struct_grow _ _ _ _ HG4) in Hi.
  eapply run_bind; [by apply (run_insert_struct te Declaring)|]. intros _ c5 s5 HG5 (Ht5 & Hm5 & Es5). simpl si_members in Ht5.
  clear dependent c1. clear dependent c2. clear dependent c3. clear dependent c4.
  eapply (run_global_var_bind _ _ _ SC_Uniform _ (Ty_Struct (cb_name d))); [done|done|exact (struct_den c5 s5 _ _ Es5)|].
  intros v c6 s6 HG6 Ht6 Hm6 Hv. apply (structs_grow _ _ _ _ _ _ HG6) in Es5.
  eapply run_bind; [by apply run_header|]. intros _ c7 s7 HG7 (Ht7 & Hm7 & _). tcarry HG7. apply (structs_grow _ _ _ _ _ _ HG7) in Es5.
  eapply run_bind; [by apply run_binding|]. intros _ c8 s8 HG8 (Ht8 & Hm8 & _). tcarry HG8. apply (structs_grow _ _ _ _ _ _ HG8) in Es5.
  eapply run_bind; [by eapply run_insert_global|]. intros _ c9 s9 HG9 (Ht9 & Hm9 & _). tcarry HG9.
  apply (structs_grow _ _ _ _ _ _ HG9) in Es5.
  assert (te_structs te1 = <[cb_name d := cb_members d]> (te_structs te)) as Ete1.
  { unfold new_global in H1. by case_bool_decide; simplify_eq. }
  apply (run_cb_members (cb_name d) v (cb_members d) 0 te1 te'); [done|done|done| |done|done|].
  - apply (types_ok_mono te); [|done]. rewrite Ete1. by apply insert_subseteq.
  - intros j m Hj. by eapply struct_members.
Qed.

Lemma run_global_decl te te' c s g :
  tok te c s -> at_ Declaring s -> check_decl te (D_GlobalVar g) = Some te' ->
  run c s (emit_global_var g) (tpost te' Declaring whatever).
Proof.
  intros Ht Hm Hc. simpl in Hc. unfold emit_global_var.
  assert (forall tid c s, tok te c s -> at_ Declaring s -> Den c s tid (gv_ty g) ->
    new_global (gv_name g) (gv_ty g) SC_UniformConstant te = Some te' ->
    run c s (declare_opaque tid g) (tpost te' Declaring whatever)) as Hdecl.
  { intros tid c' s' Ht' Hm' Hd Hn. unfold declare_opaque.
    eapply (run_global_var_bind _ _ _ SC_UniformConstant); [done|done|exact Hd|]. intros v c6 s6 _ Ht6 Hm6 Hv.
    eapply run_bind; [by apply run_header|tnext]. eapply run_bind; [by apply run_binding|tnext].
    by eapply run_insert_global. }
  destruct (gv_ty g) eqn:Eg; try done.
  - eapply run_bind; [by apply (run_image te)|]. intros i c1 s1 HG (Ht1 & Hm1 & Hi).
    eapply run_bind; [by apply (run_sampled te)|tnext]. by apply Hdecl.
  - eapply run_bind; [by apply (run_btype te Declaring)|tnext]. apply Hdecl; [done|done|by apply den_sampler|done].
Qed.

Lemma run_globals u : forall te te' c s, check_decls te u = Some te' -> tok te c s -> at_ Declaring s ->
  run c s (emit_globals u) (tpost te' Declaring whatever).
Proof.
  unfold emit_globals. induction u as [|d u IH]; intros te te' c s Hc Ht Hm; cbn [m_iter check_decls] in *; [simplify_eq; by tret|].
  apply bind_Some in Hc as (te1 & H1 & Hc).
  eapply (run_bind _ _ _ _ (tpost te1 Declaring whatever)).
  - destruct d; [by eapply run_register_struct|by eapply run_cbuffer|simpl in H1; simplify_eq; by tret|by eapply run_global_decl].
  - tnext. by apply (IH te1).
Qed.

(** ** The entry point *)

Lemma run_struct_io te m c s ms id out :
  tok te c s -> at_ m s -> run c s (decorate_struct_io ms id out) (tpost te m whatever).
Proof.
  intros Ht Hm. unfold decorate_struct_io. eapply run_bind; [by apply (run_header te m)|tnext]. apply run_gets.
  apply run_iter; [|done..]. intros. by apply run_header.
Qed.

Lemma run_io_var te m c s v sem out :
  tok te c s -> at_ m s -> run c s (decorate_io_var v sem out) (tpost te m whatever).
Proof.
  intros Ht Hm. unfold decorate_io_var. apply run_gets. destruct sem; [|by apply run_header].
  destruct (String.eqb _ _); by apply run_header.
Qed.

Lemma run_input te te' c s p :
  tok te c s -> at_ Declaring s -> check_input te p = Some te' -> run c s (emit_input p) (tpost te' Declaring whatever).
Proof.
  intros Ht Hm Hc. unfold check_input in Hc. unfold emit_input.
  assert (forall tid c s, tok te c s -> at_ Declaring s -> Den c s tid (p_ty p) ->
    new_global (p_name p) (p_ty p) SC_Input te = Some te' ->
    forall (deco : Z -> G unit), (forall v c s, tok te c s -> at_ Declaring s -> run c s (deco v) (tpost te Declaring whatever)) ->
    run c s (let! pt := btype (type_pointer SC_Input tid) in let! var := bld (b_variable pt SC_Input) in
      header (h_name var (p_name p)) ;;; deco var ;;; push_interface var ;;; insert_global (p_name p) (mkPlace var (p_ty p)))
      (tpost te' Declaring whatever)) as Hvar.
  { intros tid c0 s0 Ht0 Hm0 Hd Hn deco Hdeco.
    eapply (run_global_var_bind _ _ _ SC_Input); [done|done|exact Hd|]. intros v c1 s1 _ Ht1 Hm1 Hv.
    eapply run_bind; [by apply (run_header te)|tnext]. eapply run_bind; [by apply Hdeco|tnext].
    eapply run_bind; [by apply (run_push_interface te)|tnext]. by eapply run_insert_global. }
  destruct (p_ty p) as [|k|k n|k r cl|n| |] eqn:Ep; try done.
  - eapply run_bind; [by apply (run_type te Declaring)|tnext].
    apply (Hvar r c0 s0 Ht0 Hm0 H Hc (fun v => decorate_io_var v (p_semantic p) false)). intros. by apply run_io_var.
  - eapply run_bind; [by apply (run_type te Declaring)|tnext].
    apply (Hvar r c0 s0 Ht0 Hm0 H Hc (fun v => decorate_io_var v (p_semantic p) false)). intros. by apply run_io_var.
  - destruct (type_ok te (Ty_Struct n)) eqn:Hok; [|done]. apply run_gets.
    destruct (type_ok_struct te c s n Ht Hok) as (i & Ei & Hi). eapply run_ok_or; [exact Ei|].
    eapply run_bind; [by apply (run_struct_io te Declaring)|tnext].
    exact (Hvar (si_type_id i) c0 s0 Ht0 Hm0 Hi Hc (fun _ => mret tt) ltac:(intros; by tret)).
Qed.

Lemma run_inputs ps : forall te te' c s, check_inputs te ps = Some te' -> tok te c s -> at_ Declaring s ->
  run c s (m_iter emit_input ps) (tpost te' Declaring whatever).
Proof.
  induction ps as [|p ps IH]; intros te te' c s Hc Ht Hm; cbn [m_iter check_inputs] in *; [simplify_eq; by tret|].
  apply bind_Some in Hc as (te1 & H1 & Hc). eapply run_bind; [by eapply run_input|tnext]. by apply (IH te1).
Qed.

Lemma run_output te te' c s f :
  tok te c s -> at_ Declaring s -> check_output te (fd_return_type f) = Some te' ->
  run c s (emit_output f) (tpost te' Declaring whatever).
Proof.
  intros Ht Hm Hc. unfold check_output in Hc. unfold emit_output.
  destruct (fd_return_type f) as [|k|k n|k r cl|n| |] eqn:Ef; try done.
  - assert (k = Sc_Float /\ n = 4%Z /\ te' = set_te_out (Ty_Vector Sc_Float 4) te) as (-> & -> & ->).
    { destruct k; try done. destruct n as [|[[[]|[]|]|[[]|[]|]|]|]; try done. by simplify_eq. }
    eapply run_bind; [by apply (run_type te Declaring)|tnext].
    eapply (run_global_var_bind _ _ _ SC_Output); [done|done|exact H|]. intros v c1 s1 _ Ht1 Hm1 Hv.
    eapply run_bind; [by apply (run_header te)|tnext]. eapply run_bind; [by apply run_io_var|tnext].
    eapply run_bind; [by apply (run_push_interface te)|tnext]. by apply run_set_out.
  - destruct (type_ok te (Ty_Struct n)) eqn:Hok; [|done]. injection Hc as <-. apply run_gets.
    destruct (type_ok_struct te c s n Ht Hok) as (i & Ei & Hi). eapply run_ok_or; [exact Ei|].
    eapply run_bind; [by apply (run_struct_io te Declaring)|tnext].
    eapply (run_global_var_bind _ _ _ SC_Output); [done|done|exact Hi|]. intros v c1 s1 _ Ht1 Hm1 Hv.
    eapply run_bind; [by apply (run_header te)|tnext].
    eapply run_bind; [by apply (run_push_interface te)|tnext]. by apply run_set_out.
Qed.

Lemma run_begin_entry te c s :
  tok te c s -> at_ Declaring s -> run c s begin_entry_function (tpost te Open whatever).
Proof.
  intros Ht Hm. unfold begin_entry_function. apply run_gets.
  eapply run_bind; [by apply (run_btype te Declaring)|]. intros ft c1 s1 _ (Ht1 & (Ed & Edone & Ec) & _).
  pose proof (tk_repr _ _ _ Ht1) as Hst. pose proof Hst as (_ & _ & _ & Hf). rewrite Ed in Hf. destruct Hf as (_ & _ & Hfun & Eb).
  destruct (begin_function_law (c_void_t c) ft (c_builder c1) Hfun) as (b & Eb' & Hv).
  set (d := function_inst (c_void_t c) ft (v_bound (b_view (c_builder c1)))) in *.
  assert (body s1 = []) as Ebody by (unfold body; by rewrite Eb).
  destruct (tok_step te c1 s1 b (s_bump (start_function d s1))) as [H1 H2]; [done| |done| | |].
  { rewrite Hv. by apply repr_bump, repr_start_function. }
  { by rewrite Ebody. }
  { intros i Hi. by apply elem_of_nil in Hi. }
  eapply (run_bind _ _ _ _ (tpost te Entered whatever)).
  - eapply run_try_bld; [exact Eb'|exact H2|]. split_and!; [done| |done]. split; [|done]. by eexists.
  - intros _ c2 s2 _ (Ht2 & Hm2 & _). eapply run_bind; [apply (run_begin_block te Entered); auto|tnext]. by tret.
Qed.

Definition param_ok (c : Cx) (s : Shape) (q : string * Z * Type_) (p : Param) : Prop :=
  q.1.1 = p_name p /\ q.2 = p_ty p /\ Points c s q.1.2 SC_Input (p_ty p).

Lemma run_bind_params qs ps : forall te c s,
  tok te c s -> at_ Open s -> Forall2 (param_ok c s) qs ps -> Forall (fun p => type_ok te (p_ty p) = true) ps ->
  run c s (m_iter bind_param qs) (tpost (bind_params te ps) Open whatever).
Proof.
  intros te c s Ht Hm Hq. revert te c s Ht Hm Hq. induction qs as [|[[n g] ty] qs IH] in ps |- *;
    intros te c s Ht Hm Hq Hok; inversion Hq as [|? p ? ps' (E1 & E2 & Hp) Hq']; subst; cbn [m_iter]; [by tret|].
  apply Forall_cons in Hok as [Hok1 Hok]. simpl in E1, E2, Hp. subst n ty.
  eapply (run_bind _ _ _ _ (tpost (push_te (p_name p) (p_ty p) te) Open whatever)).
  - cbn [bind_param]. eapply run_bind; [by apply (run_alloc_local te)|tnext].
    eapply run_bind; [by apply (run_type te Open)|tnext]. eapply run_bind; [by eapply (run_load te)|tnext].
    eapply run_bind; [by eapply (run_store te); eauto|tnext]. by apply run_push_local.
  - intros _ c1 s1 HG (Ht1 & Hm1 & _). apply (IH ps' (push_te (p_name p) (p_ty p) te)); [done|done| |done].
    eapply Forall2_impl; [exact Hq'|]. intros q p' (? & ? & ?). split_and!; [done..|by eapply Points_grow].
Qed.

(** The inputs as globals of the environment. *)
Lemma inputs_globals ps : forall te te', check_inputs te ps = Some te' ->
  te_structs te' = te_structs te /\ te_members te' = te_members te /\ te_globals te ⊆ te_globals te' /\
  te_locals te' = te_locals te /\
  Forall (fun p => type_ok te (p_ty p) = true /\ te_globals te' !! p_name p = Some (p_ty p, SC_Input) /\
    te_globals te !! p_name p = None) ps.
Proof.
  induction ps as [|p ps IH]; intros te te' Hc; cbn [check_inputs] in Hc; [by simplify_eq|].
  apply bind_Some in Hc as (te1 & H1 & (Es & Em & Hsub & El & Hall)%IH).
  assert (type_ok te (p_ty p) = true /\ new_global (p_name p) (p_ty p) SC_Input te = Some te1) as [Hok Hn].
  { assert ((if type_ok te (p_ty p) then new_global (p_name p) (p_ty p) SC_Input te else None) = Some te1) as H2
      by (unfold check_input in H1; by destruct (p_ty p)).
    by destruct (type_ok te (p_ty p)). }
  unfold new_global in Hn. case_bool_decide as Hfresh; [|done]. injection Hn as <-. simpl in *.
  assert (te_globals te ⊆ te_globals te') as Hsub' by (etrans; [|exact Hsub]; by apply insert_subseteq).
  split_and!; [done..|]. constructor.
  - split_and!; [done| |done]. eapply lookup_weaken; [|exact Hsub]. by rewrite lookup_insert_eq.
  - eapply Forall_impl; [exact Hall|]. intros q (? & ? & Hq). split_and!; [by rewrite <- (type_ok_structs (set_te_global (p_name p) (p_ty p) SC_Input te) te)|done|].
    by apply lookup_insert_None in Hq as [? _].
Qed.

Lemma run_collect te c s f :
  tok te c s -> Forall (fun p => te_globals te !! p_name p = Some (p_ty p, SC_Input) /\ te_members te !! p_name p = None) (fd_params f) ->
  exists qs, collect_params f c = (Ok qs, c) /\ Forall2 (param_ok c s) qs (fd_params f).
Proof.
  intros Ht Hps. unfold collect_params.
  change (exists qs, m_list (fun p => let! g := ok_or (c_globals c !! p_name p) (CE_input_not_found (p_name p)) in
    mret (p_name p, pl_ptr g, p_ty p)) (fd_params f) c = (Ok qs, c) /\ Forall2 (param_ok c s) qs (fd_params f)).
  induction Hps as [|p ps [H1 H2] _ (qs & Eqs & Hqs)]; [by exists []|].
  destruct (global_some te c s _ _ Ht H1) as (g & Eg & _ & Hg). simpl in Hg.
  destruct (member_cases te c s (p_name p) Ht) as [(? & _ & E & _)|[E _]]; [by rewrite E in H2|].
  exists ((p_name p, pl_ptr g, p_ty p) :: qs). split.
  - cbn [m_list]. rewrite Eg. unfold mbind, ok_or, mret in *. by rewrite Eqs.
  - constructor; [|done]. split_and!; [done..|by apply Hg].
Qed.

(** ** The finished module *)

Definition done_typed (m : Module_) : Prop :=
  exists f, m_functions m = [f] /\ is_Some (i_id (f_def f)) /\ module_typed m.

Lemma tok_done te c s : tok te c s -> at_ Closed s -> done_typed (b_module (c_builder c)).
Proof.
  intros Ht ((d & Ed & Hid) & _ & Ec). pose proof (tk_repr _ _ _ Ht) as (_ & Hg & _ & Hf). rewrite Ed in Hf.
  destruct Hf as (Hf & _). rewrite <- view_module. exists (mkFunction d (s_blocks s)). split_and!; [done|done|].
  assert (module_insts (v_mod (b_view (c_builder c))) = body s) as Eb.
  { unfold module_insts. rewrite Hf. simpl. by rewrite app_nil_r. }
  exists (sids c). rewrite Hg, Eb. split.
  - intros n r Hr. unfold sids in Hr. rewrite lookup_fmap in Hr. destruct (c_structs c !! n) as [i|] eqn:Ei; simplify_eq/=.
    destruct (tk_struct _ _ _ Ht n i Ei) as (_ & ms & Hin & _). eauto.
  - intros i Hi. by apply (tk_insts _ _ _ Ht).
Qed.

Lemma done_header h m : done_typed m -> done_typed (push_header h m).
Proof. intros (f & ? & ? & ?). by exists f. Qed.

(** [p] returns a value, with the module finished and typed. *)
Definition ends {A} (p : G A) (c : Cx) : Prop :=
  exists a c', p c = (Ok a, c') /\ done_typed (b_module (c_builder c')).

Lemma run_ends {A C} c s (p : G A) (f : A -> G C) R :
  run c s p R -> (forall a c1 s1, R a c1 s1 -> ends (f a) c1) -> ends (mbind p f) c.
Proof.
  intros (a & c1 & s1 & E & _ & H) Hf. destruct (Hf _ _ _ H) as (b & c2 & E2 & H2). exists b, c2.
  unfold mbind. by rewrite E.
Qed.
Lemma ends_bind {A C} c (p : G A) (f : A -> G C) :
  ends p c -> (forall a c1, done_typed (b_module (c_builder c1)) -> ends (f a) c1) -> ends (mbind p f) c.
Proof.
  intros (a & c1 & E & H) Hf. destruct (Hf a c1 H) as (b & c2 & E2 & H2). exists b, c2. unfold mbind. by rewrite E.
Qed.

Lemma ends_header c h : done_typed (b_module (c_builder c)) -> ends (header h) c.
Proof.
  intros Hd. eexists tt, _. split; [reflexivity|]. simpl. rewrite <- view_module, header_law. simpl.
  rewrite view_module. by apply done_header.
Qed.

Lemma ends_body te c s f b :
  tok te c s -> at_ Open s -> fd_body f = Some b ->
  Forall (fun p => type_ok te (p_ty p) = true /\ te_globals te !! p_name p = Some (p_ty p, SC_Input) /\
    te_members te !! p_name p = None) (fd_params f) ->
  is_Some (check_block check_stmt (bind_params te (fd_params f)) b) ->
  ends (emit_function_body f) c.
Proof.
  intros Ht Hm Eb Hps [te' Hc]. unfold emit_function_body.
  destruct (run_collect te c s f Ht) as (qs & Eq & Hqs).
  { eapply Forall_impl; [exact Hps|]. intros ? (? & ? & ?). by split. }
  apply (run_ends c s _ _ (fun a c' s' => a = qs /\ c' = c /\ s' = s)).
  { exists qs, c, s. split_and!; [done|apply grow_refl|done..]. }
  intros _ _ _ (-> & -> & ->). eapply run_ends.
  { apply (run_bind_params qs (fd_params f) te); [done..|]. eapply Forall_impl; [exact Hps|]. by intros ? (? & ? & ?). }
  intros _ c1 s1 (Ht1 & Hm1 & _). apply (run_ends c1 s1 _ _ (fun a c' s' => a = b /\ c' = c1 /\ s' = s1)).
  { exists b, c1, s1. rewrite Eb. split_and!; [done|apply grow_refl|done..]. }
  intros _ _ _ (-> & -> & ->). eapply run_ends.
  { apply (run_block b) with (te := bind_params te (fd_params f)) (te' := te'); [|done..]. apply Forall_forall. intros st _. apply run_stmt. }
  intros _ c2 s2 (Ht2 & Hm2 & _).
  apply (run_ends c2 s2 _ _ (fun a c' s' => a = terminates (S_Block b) /\ c' = c2 /\ s' = s2)).
  { eexists _, c2, s2. split; [by eapply is_terminated_eq|]. split; [apply grow_refl|done]. }
  intros _ _ _ (-> & -> & ->). apply (run_ends c2 s2 _ _ (tpost te' Closed whatever)).
  { destruct (terminates (S_Block b)); [by tret|]. apply (run_terminate te'); [done|done|apply it_ret]. }
  intros _ c3 s3 (Ht3 & Hm3 & _). pose proof (tok_done te' c3 s3 Ht3 Hm3) as Hd.
  pose proof (tk_repr _ _ _ Ht3) as (_ & _ & _ & Hf). destruct Hm3 as ((d & Ed & _) & _). rewrite Ed in Hf.
  destruct Hf as (_ & Hfun & _). destruct (end_function_law (c_builder c3) Hfun) as (b4 & E4 & Hv4).
  eexists tt, _. unfold try_bld. rewrite E4. split; [reflexivity|]. simpl.
  rewrite <- view_module, Hv4. simpl. by rewrite view_module.
Qed.

Lemma ends_finish c f : done_typed (b_module (c_builder c)) -> ends (finish_entry_point f) c.
Proof.
  intros Hd. pose proof Hd as (g & Hf & [r Hr] & _).
  assert (forall i st c, done_typed (b_module (c_builder c)) ->
    ends (header (h_entry_point (execution_model st) r "main" i) ;;;
      match st with Stage_Pixel => header (h_execution_mode_origin_upper_left r) | Stage_Vertex => mret tt end ;;;
      header (h_name r (fd_name f))) c) as Hrest.
  { intros i st c1 H1. apply ends_bind; [by apply ends_header|]. intros _ c2 H2. apply ends_bind.
    - destruct st; [by exists tt, c2|by apply ends_header].
    - intros _ c3 H3. by apply ends_header. }
  unfold finish_entry_point, ends, mbind at 1, gets at 1. rewrite Hf. simpl. rewrite Hr.
  exact (Hrest (c_interface c) (c_stage c) (set_output (c_out_var c) (c_out_ty c) [] c) Hd).
Qed.

(** ** The initial context *)

Lemma tok_new stage : exists s, tok te_empty (Ctx_new (B := B) stage) s /\ at_ Declaring s.
Proof.
  unfold Ctx_new. set (b0 := b_header h_memory_model_logical_glsl450 _).
  assert (repr (b_view b0) (mkShape [] [] None [] None 1)) as Hr.
  { unfold b0. rewrite !header_law. do 3 apply repr_header. rewrite new_law. by split_and!. }
  destruct (type_call b0 _ type_void Hr) as (r1 & b1 & s1 & -> & Hr1 & Hs1 & Hg1 & H1).
  destruct (type_call b1 _ type_bool Hr1) as (r2 & b2 & s2 & -> & Hr2 & Hs2 & Hg2 & H2).
  destruct (type_call b2 _ (type_float 32) Hr2) as (r3 & b3 & s3 & -> & Hr3 & Hs3 & Hg3 & H3).
  destruct (type_call b3 _ (type_int 32 1) Hr3) as (r4 & b4 & s4 & -> & Hr4 & Hs4 & Hg4 & H4).
  destruct (type_call b4 _ (type_int 32 0) Hr4) as (r5 & b5 & s5 & -> & Hr5 & Hs5 & Hg5 & H5).
  destruct (import_law "GLSL.std.450" b5) as (b6 & E6 & Hv6). rewrite E6.
  set (i := mkInst OpExtInstImport None _ _) in *. exists (s_bump (add_import i s5)).
  assert (at_ Declaring s5) as Ha by (do 5 (eapply same_code_at; [eassumption|]); done).
  split; [|exact Ha]. pose proof (repr_bump _ _ (repr_import i _ _ Hr5)) as Hr6. rewrite <- Hv6 in Hr6.
  constructor; simpl; try done.
  - unfold st. simpl. rewrite header_law. by apply repr_header.
  - apply den_void. simpl. auto.
  - apply den_bool. simpl. auto.
  - apply den_float. simpl. auto.
  - apply den_int. simpl. auto.
  - apply den_uint. simpl. auto.
  - intros n. rewrite !lookup_empty. constructor.
  - intros n. rewrite !lookup_empty. constructor.
  - constructor.
  - intros j Hj. unfold body, s_blocks in Hj. simpl in Hj. destruct Ha as (_ & Ed & Ec). rewrite Ed, Ec in Hj. by apply elem_of_nil in Hj.
Qed.

Lemma codegen_ends u stage : check_unit u = true -> ends (codegen_module u) (Ctx_new (B := B) stage).
Proof.
  unfold check_unit. destruct (find_main u) as [f|] eqn:Ef; [|done].
  destruct (te ← check_decls te_empty u; _) as [te3|] eqn:Ec; [|done]. destruct (fd_body f) as [b|] eqn:Eb; [|done].
  intros Hb%bool_decide_eq_true. apply bind_Some in Ec as (te1 & H1 & Ec). apply bind_Some in Ec as (te2 & H2 & H3).
  destruct (tok_new stage) as (s0 & Ht0 & Hm0). unfold codegen_module.
  eapply run_ends; [by apply (run_globals u te_empty te1)|]. intros _ c1 s1 (Ht1 & Hm1 & _).
  rewrite Ef. change (ends (emit_main f ;;; gets (fun c => b_module (c_builder c))) c1).
  apply ends_bind; [|intros _ c' H'; by exists (b_module (c_builder c')), c'].
  unfold emit_main. eapply run_ends; [by apply (run_inputs (fd_params f) te1 te2)|]. intros _ c2 s2 (Ht2 & Hm2 & _).
  eapply run_ends; [by apply (run_output te2 te3)|]. intros _ c3 s3 (Ht3 & Hm3 & _).
  eapply run_ends; [by apply run_begin_entry|]. intros _ c4 s4 (Ht4 & Hm4 & _).
  apply ends_bind; [|intros _ c5 H5; by apply ends_finish].
  eapply ends_body; [exact Ht4|exact Hm4|exact Eb| |exact Hb].
  destruct (inputs_globals _ _ _ H2) as (Es & Em & Hsub & El & Hall).
  assert (te_structs te3 = te_structs te2 /\ te_globals te3 = te_globals te2 /\ te_members te3 = te_members te2) as (Es3 & Eg3 & Em3).
  { unfold check_output in H3. destruct (fd_return_type f) as [| |[] [|[[[]|[]|]|[[]|[]|]|]|]| |n| |]; try done; simplify_eq/=; try done.
    case_bool_decide; by simplify_eq. }
  eapply Forall_impl; [exact Hall|]. intros p (P1 & P2 & P3). rewrite Eg3, Em3, Em, P2. split_and!; [|done|].
  - rewrite <- P1. apply type_ok_structs. congruence.
  - destruct (member_cases te1 c1 s1 (p_name p) Ht1) as [(m & _ & _ & (t & sc & nm & k & E & _))|[_ E]]; [|done].
    by rewrite E in P3.
Qed.
End Program.
