(* ===== verification/HlslCompile.v ===== *)
(** * The compiler ([crates/hlsl-compiler/src/lib.rs])

    Lexing, parsing and code generation composed, and the theorems about the
    whole: [compile] is total up to one panic, its modules are well-formed, and
    programs that the strict checker accepts compile to well-typed modules. *)
From Stdlib Require Import ZArith Lia Ascii String.
From stdpp Require Import base list option gmap strings sets.
From S2P Require Import Prelude HlslLexer HlslAst HlslParser HlslGrammar SpirvBuilder HlslCodegen HlslShape HlslSsa HlslTypes HlslTyping HlslTypeSafety.
Local Open Scope rust_scope.
Set Warnings "-register-all".

(** The error of a compilation: lexing and parsing, or code generation. *)
Inductive CompilerError := Front (e : CompileError) | Back (e : CodegenError).

Definition map_err {E F A} (f : E -> F) (r : outcome E A) : outcome F A :=
  match r with Ok a => Ok a | Err e => Err (f e) | Panic => Panic | NoFuel => NoFuel end.

Definition compile {B : Type} `{Builder B} (source : string) (stage : ShaderStage) : outcome CompilerError (list Z) :=
  let? unit := map_err Front (frontend source) in map_err Back (codegen unit stage).

(** The bytes [write_spv] writes: the words in little-endian order. *)
Definition le_bytes (w : Z) : list Z := (fun k => wrap 8 (Z.shiftr w (8 * k))) <$> [0; 1; 2; 3]%Z.
Definition spv_bytes (words : list Z) : list Z := words ≫= le_bytes.

(** What [codegen_module] returns is the module of the builder. *)
Lemma codegen_module_eq {B} {HB : Builder B} u (c : Ctx (B := B)) m c' :
  codegen_module u c = (Ok m, c') -> m = b_module (c_builder c').
Proof.
  unfold codegen_module, mbind. destruct (emit_globals u c) as [[] c1]; try done.
  destruct (ok_or _ _ c1) as [[f| | |] c2]; try done. destruct (emit_main f c2) as [[] c3]; try done.
  unfold gets. by intros [= <- <-].
Qed.

(** A shader with a constant buffer, a struct input, a loop and a branch. *)
Definition sample_source : string :=
  "struct PSInput { float4 position : SV_Position; float3 normal : NORMAL; };
cbuffer Globals : register(b0) { float4 tint; float4x4 world; float3 light; float strength; };
float4 main(PSInput input) : SV_Target {
  float3 n = normalize(input.normal);
  float d = dot(n, light);
  float acc = 0.0;
  for (int i = 0; i < 4; i = i + 1) { acc = acc + d * strength; }
  float4 c = mul(world, tint);
  if (d > 0.5 && acc < 2.0) { c = c * float4(n, saturate(acc)); } else { c.xyzw; }
  return float4(c.rgb * float3(d), c.a);
}".
Definition sample_unit : TranslationUnit :=
  Eval vm_compute in match frontend sample_source with Ok u => u | _ => [] end.

(** ** Properties *)

(** C1. Well-typed programs compile: for any lawful builder, a unit that the
    strict checker accepts makes the generator return the words of a module
    that is well-formed and in which every instruction obeys the typing rules
    of SPIR-V. No error and no panic is left. *)
Theorem codegen_typed {B : Type} {HB : Builder B} {HL : BuilderLaws B} (u : TranslationUnit) (stage : ShaderStage) :
  check_unit u = true ->
  exists m, codegen (B := B) u stage = Ok (b_assemble m) /\ module_ok m /\ module_typed m.
Proof.
  intros Hu. destruct (codegen_ends (B := B) u stage Hu) as (m & c & E & f & _ & _ & Ht). exists m.
  pose proof (codegen_module_eq u _ m c E) as Em. destruct (pre_new (B := B) stage) as [s Hp].
  pose proof (wp_codegen_module True u _ s (fun _ => I) Hp) as H. unfold wpk in H. rewrite E in H.
  split_and!; [|done|by rewrite Em]. unfold codegen. by rewrite E.
Qed.

Lemma codegen_typed_witness :
  frontend sample_source = Ok sample_unit /\ check_unit sample_unit = true /\
  exists m, codegen (B := View) sample_unit Stage_Pixel = Ok (b_assemble m) /\ module_ok m /\ module_typed m.
Proof. split; [vm_compute; reflexivity|]. split; [vm_compute; reflexivity|]. apply codegen_typed. vm_compute. reflexivity. Defined.

(** C2. Every module the generator produces is well-formed, for any lawful
    builder: ids are defined once, instructions use ids that are declared in
    the module, are variables of the entry block, or are results of earlier
    instructions of their block, result types are declared types, every block
    ends with its only terminator, variables come first in the entry block, and
    jumps go to blocks of the function. The generator stops by itself, and
    panics only on a program that lacks the arguments type inference reads. *)
Theorem codegen_wf {B : Type} {HB : Builder B} {HL : BuilderLaws B} (u : TranslationUnit) (stage : ShaderStage) :
  match codegen (B := B) u stage with
  | Ok words => exists m, module_ok m /\ words = b_assemble m
  | Err _ => True
  | Panic => unit_ok u = false
  | NoFuel => False
  end.
Proof.
  destruct (pre_new (B := B) stage) as [s Hp].
  pose proof (wp_codegen_module (unit_ok u = false) u _ s id Hp) as H. unfold wpk in H. unfold codegen.
  destruct (codegen_module u (Ctx_new stage)) as [[m|e| |] c']; simpl; eauto.
Qed.

Lemma codegen_wf_witness : exists words m,
  codegen (B := View) sample_unit Stage_Pixel = Ok words /\ module_ok m /\ words = b_assemble m.
Proof.
  pose proof (codegen_wf (B := View) sample_unit Stage_Pixel) as H.
  destruct (codegen (B := View) sample_unit Stage_Pixel) as [words|e| |] eqn:E;
    [|exfalso; vm_compute in E; discriminate..].
  destruct H as (m & Hm & Hw). exists words, m. split; [reflexivity|split; [exact Hm|exact Hw]].
Defined.

(** C3. Compilation is total up to one panic: on every source text it stops by
    itself; a success gives the words of a well-formed module for a tree that
    the grammar derives from the text; a lexing or parsing error points into the
    text; a code generation error means the text was derived; and the only
    panic is the one of type inference on a call without its arguments. *)
Theorem compile_total {B : Type} {HB : Builder B} {HL : BuilderLaws B} (source : string) (stage : ShaderStage) :
  let derived u := exists ts body, stream_of (list_ascii_of_string source) ts /\
    map kind ts = body ++ [T_Eof] /\ g_unit ∅ body u in
  match compile (B := B) source stage with
  | Ok words => exists u m, derived u /\ module_ok m /\ words = b_assemble m
  | Err (Front (CE_Lex e)) => span_within (String.length source) (le_span e)
  | Err (Front (CE_Parse e)) => span_within (String.length source) (pe_span e)
  | Err (Back _) => exists u, derived u
  | Panic => exists u, derived u /\ unit_ok u = false
  | NoFuel => False
  end.
Proof.
  intros derived. unfold compile. pose proof (frontend_spec source) as Hf.
  destruct (frontend source) as [u|e| |]; simpl; [|by destruct e|done..].
  destruct (pre_new (B := B) stage) as [s Hp].
  pose proof (wp_codegen_module (unit_ok u = false) u _ s id Hp) as H. unfold wpk in H. unfold codegen.
  destruct (codegen_module u (Ctx_new stage)) as [[m|e| |] c']; simpl; eauto.
Qed.
