(* ===== verification/PeHost.v ===== *)
(** * The host process the loader works in

    The loader writes to the address space through raw pointers and asks the
    kernel for mappings. The kernel and the memory are not part of the program:
    they are an interface, a class of operations with a class of the documented
    laws the loader relies on. A small executable host discharges the laws. *)
From Stdlib Require Import ZArith Lia.
From stdpp Require Import base list option gmap.
From S2P Require Import Prelude.
Local Open Scope rust_scope.
Local Open Scope Z_scope.
Set Warnings "-register-all".

(** ** Bytes in little-endian order *)

(** The [n] low bytes of [v]. *)
Fixpoint le_bytes (n : nat) (v : Z) : list Z :=
  match n with
  | O => []
  | S n => v mod 256 :: le_bytes n (v / 256)
  end.

(** [from_le_bytes]. *)
Fixpoint le_val (bs : list Z) : Z :=
  match bs with
  | [] => 0
  | b :: bs => b + 256 * le_val bs
  end.

Definition is_byte (b : Z) : Prop := 0 <= b < 256.

Lemma le_bytes_length n v : length (le_bytes n v) = n.
Proof. revert v. induction n; simpl; intros; [done|by rewrite IHn]. Qed.

Lemma le_bytes_range n v : Forall is_byte (le_bytes n v).
Proof.
  revert v. induction n; intros v; constructor; [|apply IHn].
  apply Z.mod_pos_bound. lia.
Qed.

Lemma pow_bytes n : 2 ^ (8 * Z.of_nat (S n)) = 256 * 2 ^ (8 * Z.of_nat n).
Proof. replace (8 * Z.of_nat (S n)) with (8 + 8 * Z.of_nat n) by lia. by rewrite Z.pow_add_r by lia. Qed.

Lemma le_val_bytes n v : le_val (le_bytes n v) = wrap (8 * Z.of_nat n) v.
Proof.
  revert v. induction n as [|n IH]; intros v; unfold wrap.
  - simpl. by rewrite Z.mod_1_r.
  - cbn [le_bytes le_val]. rewrite IH, pow_bytes. unfold wrap. rewrite Z.rem_mul_r by lia. lia.
Qed.

Lemma le_val_range bs : Forall is_byte bs -> 0 <= le_val bs < 2 ^ (8 * Z.of_nat (length bs)).
Proof.
  induction 1 as [|b bs Hb Hbs IH]; cbn [le_val length]; [simpl; lia|].
  rewrite pow_bytes. unfold is_byte in Hb. lia.
Qed.

Lemma le_bytes_val bs : Forall is_byte bs -> le_bytes (length bs) (le_val bs) = bs.
Proof.
  unfold is_byte. induction 1 as [|b bs Hb Hbs IH]; cbn [le_val length le_bytes]; [done|].
  rewrite (Z.mul_comm 256), Z.mod_add, Z.mod_small, Z.div_add, Z.div_small by lia.
  by rewrite Z.add_0_l, IH.
Qed.

(** ** Page arithmetic *)

Definition round_up (n page : Z) : Z := Z.land (wrap 64 (n + page - 1)) (Z.lnot (page - 1)).
Definition round_down (n page : Z) : Z := Z.land n (Z.lnot (page - 1)).

Lemma round_down_spec n k : 0 <= k -> 0 <= n ->
  round_down n (2 ^ k) mod 2 ^ k = 0 /\ round_down n (2 ^ k) <= n < round_down n (2 ^ k) + 2 ^ k /\
  0 <= round_down n (2 ^ k).
Proof.
  intros Hk Hn. unfold round_down. rewrite land_lnot_ones by done.
  assert (0 < 2 ^ k) by (apply Z.pow_pos_nonneg; lia).
  pose proof (Z.mod_pos_bound n (2 ^ k) ltac:(lia)). pose proof (Z.div_mod n (2 ^ k) ltac:(lia)).
  pose proof (Z.mod_le n (2 ^ k) ltac:(lia) ltac:(lia)).
  split_and!; [|lia..].
  replace (n - n mod 2 ^ k) with (n / 2 ^ k * 2 ^ k) by lia. apply Z.mod_mul. lia.
Qed.

Lemma round_up_spec n k : 0 <= k -> 0 <= n -> n + 2 ^ k - 1 < 2 ^ 64 ->
  round_up n (2 ^ k) mod 2 ^ k = 0 /\ n <= round_up n (2 ^ k) < n + 2 ^ k.
Proof.
  intros Hk Hn Hlt. assert (0 < 2 ^ k) by (apply Z.pow_pos_nonneg; lia).
  unfold round_up. rewrite wrap_small by lia.
  pose proof (round_down_spec (n + 2 ^ k - 1) k Hk ltac:(lia)) as (H1 & H2 & H3).
  unfold round_down in *. split; [done|lia].
Qed.

Lemma aligned_add a b p : 0 < p -> a mod p = 0 -> b mod p = 0 -> (a + b) mod p = 0.
Proof. intros Hp Ha Hb. by rewrite Z.add_mod, Ha, Hb by lia. Qed.

Lemma aligned_sub a b p : 0 < p -> a mod p = 0 -> b mod p = 0 -> (a - b) mod p = 0.
Proof. intros Hp Ha Hb. by rewrite Zminus_mod, Ha, Hb. Qed.

(** Aligned bounds are at or beyond each other by whole pages. *)
Lemma aligned_le a b p : 0 < p -> a mod p = 0 -> b mod p = 0 -> a < b -> a + p <= b.
Proof.
  intros Hp Ha Hb Hlt. pose proof (Z.div_mod a p ltac:(lia)). pose proof (Z.div_mod b p ltac:(lia)).
  rewrite Ha, Hb in *. assert (a / p < b / p) by nia. nia.
Qed.

(** ** Protections *)

Definition PROT_READ : Z := 1.
Definition PROT_WRITE : Z := 2.
Definition PROT_EXEC : Z := 4.
Definition prot_rw : Z := Z.lor PROT_READ PROT_WRITE.

Definition prot_w (p : Z) : bool := Z.testbit p 1.
Definition prot_r (p : Z) : bool := Z.testbit p 0.
Definition prot_x (p : Z) : bool := Z.testbit p 2.

(** ** The interface *)

Class Host (W : Type) := {
  (** [sysconf(_SC_PAGESIZE)] *)
  sysconf_page : Z;
  (** The memory: bytes, and the protection of every mapped address. *)
  byte_at : W -> Z -> Z;
  prot_at : W -> Z -> option Z;
  set_byte : Z -> Z -> W -> W;
  (** [mmap] of anonymous private pages with [prot_rw]: hint, length, whether
      [MAP_FIXED_NOREPLACE] is given. [None] is [MAP_FAILED]. *)
  sys_mmap : Z -> Z -> bool -> W -> option Z * W;
  sys_munmap : Z -> Z -> W -> W;
  (** [mprotect]: address, length, protection; the return code. *)
  sys_mprotect : Z -> Z -> Z -> W -> Z * W
}.

(** [page_size()] of [mapping.rs]. *)
Definition page_size `{Host W} : Z := if sysconf_page <=? 0 then 4096 else sysconf_page.

Definition in_range (a len x : Z) : bool := (a <=? x) && (x <? a + len).

Lemma in_range_spec a len x : in_range a len x = true <-> a <= x < a + len.
Proof. unfold in_range. lia. Qed.

Lemma in_range_false a len x : in_range a len x = false <-> x < a \/ a + len <= x.
Proof. unfold in_range. lia. Qed.

Lemma in_range_shift b off n x : in_range (b + off) n x = in_range off n (x - b).
Proof. unfold in_range. lia. Qed.

(** Range tests in the context as inequalities. *)
Ltac ranges :=
  repeat match goal with
  | H : in_range _ _ _ = true |- _ => apply in_range_spec in H
  | H : in_range _ _ _ = false |- _ => apply in_range_false in H
  end; simpl length in *; lia.

Class HostLaws (W : Type) `{Host W} := {
  page_shift : Z;
  page_shift_range : 0 <= page_shift <= 30;
  page_size_shift : page_size = 2 ^ page_shift;
  byte_at_range w a : is_byte (byte_at w a);
  byte_set w a v x : is_byte v -> byte_at (set_byte a v w) x = if x =? a then v else byte_at w x;
  prot_set w a v x : prot_at (set_byte a v w) x = prot_at w x;
  (** A mapping is fresh, zeroed, writable and inside the user address space. *)
  mmap_ok hint len fixed w b w' :
    0 < len -> len mod page_size = 0 -> sys_mmap hint len fixed w = (Some b, w') ->
    0 < b /\ b + len <= 2 ^ 63 /\ b mod page_size = 0 /\
    (forall x, b <= x < b + len -> prot_at w x = None) /\
    (forall x, prot_at w' x = if in_range b len x then Some prot_rw else prot_at w x) /\
    (forall x, byte_at w' x = if in_range b len x then 0 else byte_at w x);
  mmap_failed hint len fixed w w' x :
    sys_mmap hint len fixed w = (None, w') ->
    prot_at w' x = prot_at w x /\ byte_at w' x = byte_at w x;
  munmap_prot a len w x : 0 < len -> a mod page_size = 0 -> len mod page_size = 0 ->
    prot_at (sys_munmap a len w) x = if in_range a len x then None else prot_at w x;
  munmap_byte a len w x : 0 < len -> a mod page_size = 0 -> len mod page_size = 0 ->
    in_range a len x = false -> byte_at (sys_munmap a len w) x = byte_at w x;
  mprotect_byte a len p w x : byte_at (snd (sys_mprotect a len p w)) x = byte_at w x;
  mprotect_ok a len p w w' x : a mod page_size = 0 -> len mod page_size = 0 ->
    sys_mprotect a len p w = (0, w') ->
    prot_at w' x = if in_range a len x then Some p else prot_at w x;
  (** A failing call may have changed a part of its range, and nothing else. *)
  mprotect_failed a len p w x : a mod page_size = 0 -> len mod page_size = 0 ->
    let w' := snd (sys_mprotect a len p w) in
    prot_at w' x = prot_at w x \/
    (in_range a len x = true /\ prot_at w x <> None /\ prot_at w' x = Some p)
}.

(** ** Access through pointers

    A load from an address that is not readable, or a store to one that is not
    writable, kills the process: [Panic]. *)
Section Access.
Context `{HW : Host W} {E : Type}.

Definition may (f : Z -> bool) (w : W) (a : Z) : bool :=
  match prot_at w a with Some p => f p | None => false end.

(** All of the [n] addresses from [a] allow [f]. *)
Definition may_all (f : Z -> bool) (w : W) (a n : Z) : bool :=
  forallb (may f w) (seqZ a n).

Definition get_bytes (w : W) (a n : Z) : list Z := map (byte_at w) (seqZ a n).

Fixpoint set_bytes (a : Z) (bs : list Z) (w : W) : W :=
  match bs with
  | [] => w
  | b :: bs => set_bytes (a + 1) bs (set_byte a b w)
  end.

Definition load (a n : Z) : M W E (list Z) := fun w =>
  if may_all prot_r w a n then (Ok (get_bytes w a n), w) else (Panic, w).

Definition store (a : Z) (bs : list Z) : M W E unit := fun w =>
  if may_all prot_w w a (Z.of_nat (length bs)) then (Ok tt, set_bytes a bs w) else (Panic, w).

(** [read_unaligned] and [write_unaligned] of an [n]-byte integer. *)
Definition read_int (n : nat) (a : Z) : M W E Z := let! bs := load a (Z.of_nat n) in mret (le_val bs).
Definition write_int (n : nat) (a v : Z) : M W E unit := store a (le_bytes n v).

Definition mprotect (a len p : Z) : M W E Z := fun w =>
  let '(rc, w') := sys_mprotect a len p w in (Ok rc, w').

Definition munmap (a len : Z) : M W E unit := fun w => (Ok tt, sys_munmap a len w).

Lemma may_all_spec f w a n : may_all f w a n = true <-> forall x, a <= x < a + n -> may f w x = true.
Proof.
  unfold may_all. rewrite forallb_forall. split.
  - intros H x Hx. apply H, list_elem_of_In, elem_of_seqZ. lia.
  - intros H x Hx. apply list_elem_of_In, elem_of_seqZ in Hx. apply H. lia.
Qed.

Lemma get_bytes_length w a n : length (get_bytes w a n) = Z.to_nat n.
Proof. unfold get_bytes. by rewrite length_map, length_seqZ. Qed.

Lemma get_bytes_lookup w a n i : 0 <= i < n -> get_bytes w a n !! Z.to_nat i = Some (byte_at w (a + i)).
Proof.
  intros Hi. unfold get_bytes. rewrite list_lookup_fmap, lookup_seqZ_lt by lia. simpl. do 2 f_equal. lia.
Qed.

Lemma get_bytes_ext w w' a n :
  (forall x, a <= x < a + n -> byte_at w x = byte_at w' x) -> get_bytes w a n = get_bytes w' a n.
Proof.
  intros H. apply map_ext_in. intros x Hx. apply list_elem_of_In, elem_of_seqZ in Hx. apply H. lia.
Qed.

Context `{!HostLaws W}.

Lemma page_pos : 0 < page_size.
Proof. rewrite page_size_shift. apply Z.pow_pos_nonneg; [lia|apply page_shift_range]. Qed.

Lemma get_bytes_range w a n : Forall is_byte (get_bytes w a n).
Proof. apply Forall_map, Forall_forall. intros x _. apply byte_at_range. Qed.

Lemma prot_set_bytes bs a w x : prot_at (set_bytes a bs w) x = prot_at w x.
Proof. revert a w. induction bs; simpl; intros; [done|]. by rewrite IHbs, prot_set. Qed.

Lemma byte_set_bytes bs a w x : Forall is_byte bs ->
  byte_at (set_bytes a bs w) x =
    if in_range a (Z.of_nat (length bs)) x then nth (Z.to_nat (x - a)) bs 0 else byte_at w x.
Proof.
  intros Hbs. revert a w. induction Hbs as [|b bs Hb Hbs IH]; intros a w; simpl set_bytes.
  - destruct (in_range _ _ _) eqn:R; [ranges|done].
  - rewrite IH, byte_set by done. cbn [length].
    destruct (in_range (a + 1) _ x) eqn:R1, (in_range a _ x) eqn:R2, (Z.eqb_spec x a) as [->|Hne];
      try ranges; try done.
    + replace (Z.to_nat (x - a)) with (S (Z.to_nat (x - (a + 1)))) by ranges. done.
    + by rewrite Z.sub_diag.
Qed.

Lemma store_ok a bs w :
  (forall x, a <= x < a + Z.of_nat (length bs) -> prot_at w x = Some prot_rw) ->
  store a bs w = (Ok tt, set_bytes a bs w).
Proof.
  intros H. unfold store. replace (may_all _ _ _ _) with true; [done|]. symmetry.
  apply may_all_spec. intros x Hx. unfold may. by rewrite H.
Qed.

Lemma load_ok a n w :
  (forall x, a <= x < a + n -> may prot_r w x = true) -> load a n w = (Ok (get_bytes w a n), w).
Proof. intros H. unfold load. by rewrite (proj2 (may_all_spec _ _ _ _) H). Qed.
End Access.

(** ** An executable host

    Pages of 16 bytes, a bump allocator, and an [mprotect] that fails when a page
    of the range is not mapped. *)
Module SmallHost.
Record World := mkWorld { mem : gmap Z Z; prots : gmap Z Z; next : Z }.

Definition empty : World := mkWorld ∅ ∅ 4096.

(** The numbers from [a] on. *)
Fixpoint up (a : Z) (n : nat) : list Z := match n with O => [] | S n => a :: up (a + 1) n end.

Definition pages (a len : Z) : list Z := up (a / 16) (Z.to_nat (len / 16)).

Definition set_pages (p a len : Z) (m : gmap Z Z) : gmap Z Z := foldr (fun g m => <[g := p]> m) m (pages a len).

Definition mmap (hint len : Z) (fixed : bool) (w : World) : option Z * World :=
  let a := if fixed then hint else next w in
  if (0 <? len) && (0 <? a) && (a + len <=? 2 ^ 63) && (a mod 16 =? 0) &&
     forallb (fun g => match prots w !! g with None => true | Some _ => false end) (pages a len)
  then (Some a, mkWorld (filter (fun kv => in_range a len kv.1 = false) (mem w)) (set_pages prot_rw a len (prots w))
                  (Z.max (next w) (a + len + 16)))
  else (None, w).

Definition munmap (a len : Z) (w : World) : World :=
  mkWorld (mem w) (foldr delete (prots w) (pages a len)) (next w).

Definition mprotect (a len p : Z) (w : World) : Z * World :=
  if forallb (fun g => match prots w !! g with None => false | Some _ => true end) (pages a len)
  then (0, mkWorld (mem w) (set_pages p a len (prots w)) (next w))
  else (-1, w).

#[global] Instance small_host : Host World := {
  sysconf_page := 16;
  byte_at w a := default 0 (mem w !! a) mod 256;
  prot_at w a := prots w !! (a / 16);
  set_byte a v w := mkWorld (<[a := v]> (mem w)) (prots w) (next w);
  sys_mmap := mmap;
  sys_munmap := munmap;
  sys_mprotect := mprotect
}.

Lemma elem_of_up n : forall a x, x ∈ up a n <-> a <= x < a + Z.of_nat n.
Proof.
  induction n as [|n IH]; intros a x; cbn [up]; [rewrite elem_of_nil; lia|]. rewrite elem_of_cons, IH. lia.
Qed.

Lemma elem_pages a len x : a mod 16 = 0 -> len mod 16 = 0 -> (x / 16 ∈ pages a len <-> a <= x < a + len).
Proof.
  intros Ha Hlen. unfold pages. rewrite elem_of_up.
  pose proof (Z.div_mod a 16 ltac:(lia)). pose proof (Z.div_mod len 16 ltac:(lia)).
  pose proof (Z.div_mod x 16 ltac:(lia)). pose proof (Z.mod_pos_bound x 16 ltac:(lia)). lia.
Qed.

Lemma range_pages a len x : a mod 16 = 0 -> len mod 16 = 0 ->
  in_range a len x = bool_decide (x / 16 ∈ pages a len).
Proof.
  intros Ha Hlen. destruct (in_range a len x) eqn:R; symmetry.
  - apply in_range_spec in R. by apply bool_decide_eq_true, elem_pages.
  - apply bool_decide_eq_false. rewrite elem_pages by done. ranges.
Qed.

Lemma lookup_foldr_insert (p : Z) (l : list Z) (m : gmap Z Z) g :
  foldr (fun g m => <[g := p]> m) m l !! g = if bool_decide (g ∈ l) then Some p else m !! g.
Proof.
  induction l as [|g' l IH]; cbn [foldr]; [by rewrite bool_decide_eq_false_2 by apply not_elem_of_nil|].
  destruct (decide (g = g')) as [->|Hne].
  - rewrite lookup_insert_eq, bool_decide_eq_true_2; [done|apply list_elem_of_here].
  - rewrite lookup_insert_ne, IH by done. rewrite (bool_decide_ext (g ∈ g' :: l) (g ∈ l)); [done|]. rewrite elem_of_cons. tauto.
Qed.

Lemma lookup_foldr_delete (l : list Z) (m : gmap Z Z) g :
  foldr delete m l !! g = if bool_decide (g ∈ l) then None else m !! g.
Proof.
  induction l as [|g' l IH]; cbn [foldr]; [by rewrite bool_decide_eq_false_2 by apply not_elem_of_nil|].
  destruct (decide (g = g')) as [->|Hne].
  - rewrite lookup_delete_eq, bool_decide_eq_true_2; [done|apply list_elem_of_here].
  - rewrite lookup_delete_ne, IH by done. rewrite (bool_decide_ext (g ∈ g' :: l) (g ∈ l)); [done|]. rewrite elem_of_cons. tauto.
Qed.

#[global] Program Instance small_host_laws : HostLaws World := { page_shift := 4 }.
Next Obligation. lia. Qed.
Next Obligation. done. Qed.
Next Obligation. intros w a. apply Z.mod_pos_bound. lia. Qed.
Next Obligation.
  intros w a v x Hv. simpl. destruct (Z.eqb_spec x a) as [->|Hne].
  - rewrite lookup_insert_eq. by apply Z.mod_small.
  - by rewrite lookup_insert_ne.
Qed.
Next Obligation. done. Qed.
Next Obligation.
  intros hint len fixed w b w' Hpos Hlen Hm. change (len mod 16 = 0) in Hlen.
  cbn [sys_mmap small_host] in Hm. unfold mmap in Hm.
  destruct (_ && _) eqn:E; [|done]. simplify_eq. set (a := if fixed then hint else next w) in *.
  repeat (apply andb_prop in E as [E ?]). change page_size with 16.
  assert (a mod 16 = 0) by lia. split_and!; [lia..| | |].
  - intros x Hx. simpl. rewrite forallb_forall in H.
    specialize (H (x / 16)). destruct (prots w !! (x / 16)); [|done].
    discriminate H. apply list_elem_of_In. by apply elem_pages.
  - intros x. simpl. unfold set_pages. by rewrite lookup_foldr_insert, range_pages.
  - intros x. simpl. rewrite map_lookup_filter. destruct (mem w !! x) as [v|]; [|by destruct (in_range a len x)].
    rewrite some_bind. cbn [fst]. destruct (in_range a len x) eqn:R; by rewrite ?option_guard_False, ?option_guard_True by done.
Qed.
Next Obligation.
  intros hint len fixed w w' x Hm. cbn [sys_mmap small_host] in Hm. unfold mmap in Hm.
  by destruct (_ && _); simplify_eq.
Qed.
Next Obligation.
  intros a len w x _ Ha Hlen. simpl. by rewrite lookup_foldr_delete, range_pages.
Qed.
Next Obligation. done. Qed.
Next Obligation. intros a len p w x. simpl. unfold mprotect. by destruct (forallb _ _). Qed.
Next Obligation.
  intros a len p w w' x Ha Hlen Hm. cbn [sys_mprotect small_host] in Hm. unfold mprotect in Hm.
  destruct (forallb _ _); simplify_eq. simpl. unfold set_pages. by rewrite lookup_foldr_insert, range_pages.
Qed.
Next Obligation.
  intros a len p w x Ha Hlen. simpl. unfold mprotect. destruct (forallb _ _) eqn:E; [|by left].
  simpl. unfold set_pages. rewrite lookup_foldr_insert, range_pages by done.
  case_bool_decide as Hin; [|by left]. right. split_and!; [done| |done].
  rewrite forallb_forall in E. specialize (E (x / 16) ltac:(by apply list_elem_of_In)).
  by destruct (prots w !! (x / 16)).
Qed.
End SmallHost.

(** The same host with a kernel that refuses every change of protection. *)
Module RefusingHost.
Record World := mkWorld { small : SmallHost.World }.

Definition empty : World := mkWorld SmallHost.empty.

#[global] Instance refusing_host : Host World := {
  sysconf_page := 16;
  byte_at w := byte_at (small w);
  prot_at w := prot_at (small w);
  set_byte a v w := mkWorld (set_byte a v (small w));
  sys_mmap hint len fixed w := let '(r, w') := sys_mmap hint len fixed (small w) in (r, mkWorld w');
  sys_munmap a len w := mkWorld (sys_munmap a len (small w));
  sys_mprotect a len p w := (-1, w)
}.

#[global] Program Instance refusing_host_laws : HostLaws World := { page_shift := 4 }.
Next Obligation. lia. Qed.
Next Obligation. done. Qed.
Next Obligation. intros [w] a. exact (byte_at_range w a). Qed.
Next Obligation. intros [w] a v x Hv. exact (byte_set w a v x Hv). Qed.
Next Obligation. done. Qed.
Next Obligation.
  intros hint len fixed [w] b [w'] Hpos Hlen Hm. cbn [sys_mmap refusing_host small] in Hm.
  destruct (sys_mmap hint len fixed w) as [r w1] eqn:E. injection Hm as -> ->.
  exact (mmap_ok hint len fixed w b w' Hpos Hlen E).
Qed.
Next Obligation.
  intros hint len fixed [w] [w'] x Hm. cbn [sys_mmap refusing_host small] in Hm.
  destruct (sys_mmap hint len fixed w) as [r w1] eqn:E. injection Hm as -> ->.
  exact (mmap_failed hint len fixed w w' x E).
Qed.
Next Obligation. intros a len [w] x. exact (munmap_prot a len w x). Qed.
Next Obligation. intros a len [w] x. exact (munmap_byte a len w x). Qed.
Next Obligation. done. Qed.
Next Obligation. done. Qed.
Next Obligation. intros. by left. Qed.
End RefusingHost.
