(* ===== verification/PeImage.v ===== *)
(** * Mapping a PE image ([crates/pe-loader/src/mapping.rs], first half)

    The parsed file is goblin's view of it, a record of the fields the loader
    reads. The mapping works on a host of [PeHost.v]; its result is related to
    [image_byte] and [image_prot], the bytes and the protection that the section
    table asks for at every offset of the image. *)
From Stdlib Require Import ZArith Lia String.
From stdpp Require Import base list option.
From S2P Require Import Prelude PeHost.
Local Open Scope rust_scope.
Local Open Scope Z_scope.
Set Warnings "-register-all".

(** ** The parsed file *)

Record SectionTable := mkSection {
  sec_name : option string;      (* [name()] *)
  virtual_size : Z;
  virtual_address : Z;
  size_of_raw_data : Z;
  pointer_to_raw_data : Z;
  characteristics : Z
}.

Record OptionalHeader := mkOptionalHeader {
  size_of_image : Z;
  image_base : Z;
  size_of_headers : Z
}.

Record PE := mkPE { optional_header : option OptionalHeader; sections : list SectionTable }.

Definition is_u32 (x : Z) : Prop := 0 <= x < 2 ^ 32.

(** The integer fields have the widths of the file format. *)
Definition section_ok (s : SectionTable) : Prop :=
  is_u32 (virtual_size s) /\ is_u32 (virtual_address s) /\ is_u32 (size_of_raw_data s) /\
  is_u32 (pointer_to_raw_data s) /\ is_u32 (characteristics s).

Definition pe_ok (pe : PE) : Prop :=
  Forall section_ok (sections pe) /\
  match optional_header pe with
  | Some o => is_u32 (size_of_image o) /\ 0 <= image_base o < 2 ^ 64 /\ is_u32 (size_of_headers o)
  | None => True
  end.

(** ** Data of [mapping.rs] *)

Record MappedImage := mkImage { base : Z; size : Z; preferred_base : Z }.

(** [MapError]; the operating system's messages are left out. *)
Inductive MapError :=
  | MmapFailed (size : Z)
  | MprotectFailed (section : string) (addr len : Z)
  | RelocRvaOutOfRange (rva : Z)
  | RelocBlockOverflow
  | RelocDirOutOfRange (rva : Z).

Definition rva_to_ptr (img : MappedImage) (rva : Z) : option Z :=
  if rva <? size img then Some (base img + rva) else None.

Definition MEM_EXECUTE : Z := 0x20000000.
Definition MEM_READ : Z := 0x40000000.
Definition MEM_WRITE : Z := 0x80000000.

Definition section_prot (name : string) (ch : Z) : Z :=
  let executable := negb (Z.land ch MEM_EXECUTE =? 0) in
  let readable := negb (Z.land ch MEM_READ =? 0) in
  let writable := negb (Z.land ch MEM_WRITE =? 0) in
  let prot := 0 in
  let prot := if executable then Z.lor prot PROT_EXEC else prot in
  let prot := if readable || (prot =? 0) then Z.lor prot PROT_READ else prot in
  let prot := if writable && negb executable then Z.lor prot PROT_WRITE else prot in
  if String.prefix ".debug" name then Z.land prot (Z.lnot PROT_EXEC) else prot.

Definition name_or_empty (s : SectionTable) : string := default EmptyString (sec_name s).

Section Mapping.
Context `{HW : Host W}.

Definition L (A : Type) : Type := M W MapError A.

Definition mmap (hint len : Z) (fixed : bool) : L (option Z) := fun w =>
  let '(r, w') := sys_mmap hint len fixed w in (Ok r, w').

Definition unmap (img : MappedImage) : L unit := munmap (base img) (size img).

Definition map_anywhere (len : Z) : L Z :=
  let! p := mmap 0 len false in
  match p with
  | None => mfail (MmapFailed len)
  | Some p => mret p
  end.

Definition try_map_at (preferred len : Z) : L (option Z) :=
  if preferred =? 0 then mret None
  else
    let! p := mmap preferred len true in
    match p with
    | None => mret None
    | Some p => if p =? preferred then mret (Some p) else munmap p len ;;; mret None
    end.

(** The copy loop: each section's virtual range is zeroed, then its raw data
    is copied over the start of the range. *)
Fixpoint copy_sections (bytes : list Z) (b mapped_size : Z) (secs : list SectionTable) : L unit :=
  match secs with
  | [] => mret tt
  | sec :: secs =>
      let virt_size := virtual_size sec in
      let rva := virtual_address sec in
      if (virt_size =? 0) || (mapped_size <=? rva) then copy_sections bytes b mapped_size secs
      else
        let dst := b + rva in
        let section_end := Z.min (rva + virt_size) mapped_size in
        let copy_len := section_end - rva in
        store dst (replicate (Z.to_nat copy_len) 0) ;;;
        let raw_size := size_of_raw_data sec in
        let raw_off := pointer_to_raw_data sec in
        (if (0 <? raw_size) && (raw_off <? Z.of_nat (length bytes)) then
           let src_len := Z.min (Z.min raw_size (Z.of_nat (length bytes) - raw_off)) copy_len in
           store dst (take (Z.to_nat src_len) (drop (Z.to_nat raw_off) bytes))
         else mret tt) ;;;
        copy_sections bytes b mapped_size secs
  end.

(** The protection loop. *)
Fixpoint protect_sections (b mapped_size : Z) (secs : list SectionTable) : L unit :=
  match secs with
  | [] => mret tt
  | sec :: secs =>
      let rva := virtual_address sec in
      let virt_size := virtual_size sec in
      if (virt_size =? 0) || (mapped_size <=? rva) then protect_sections b mapped_size secs
      else
        let prot := section_prot (name_or_empty sec) (characteristics sec) in
        if prot =? prot_rw then protect_sections b mapped_size secs
        else
          let start := round_down rva page_size in
          let end_ := round_up (Z.min (rva + virt_size) mapped_size) page_size in
          let len := end_ - start in
          let! rc := mprotect (b + start) len prot in
          if negb (rc =? 0) then mfail (MprotectFailed (name_or_empty sec) (b + start) len)
          else protect_sections b mapped_size secs
  end.

Definition map_image_with_preferred_base (bytes : list Z) (pe : PE) (try_preferred : bool) : L MappedImage :=
  match optional_header pe with
  | None => mpanic
  | Some windows =>
      let preferred := image_base windows in
      let mapped_size := round_up (size_of_image windows) page_size in
      if mapped_size =? 0 then mfail (MmapFailed 0)
      else
        let! b :=
          (if try_preferred then
             let! r := try_map_at preferred mapped_size in
             match r with Some b => mret b | None => map_anywhere mapped_size end
           else map_anywhere mapped_size) in
        store b (replicate (Z.to_nat mapped_size) 0) ;;;
        let header_len := Z.min (Z.min (size_of_headers windows) (Z.of_nat (length bytes))) mapped_size in
        store b (take (Z.to_nat header_len) bytes) ;;;
        copy_sections bytes b mapped_size (sections pe) ;;;
        protect_sections b mapped_size (sections pe) ;;;
        mret (mkImage b mapped_size preferred)
  end.

Definition map_image (bytes : list Z) (pe : PE) : L MappedImage :=
  map_image_with_preferred_base bytes pe true.

Definition map_image_anywhere (bytes : list Z) (pe : PE) : L MappedImage :=
  map_image_with_preferred_base bytes pe false.
End Mapping.

(** ** What the section table asks for *)

(** The byte of a section at offset [i] of the image, when the section covers it. *)
Definition section_byte (bytes : list Z) (sec : SectionTable) (i : Z) : option Z :=
  if in_range (virtual_address sec) (virtual_size sec) i then
    let k := i - virtual_address sec in
    Some (if k <? size_of_raw_data sec then nth (Z.to_nat (pointer_to_raw_data sec + k)) bytes 0 else 0)
  else None.

Definition header_byte (bytes : list Z) (o : OptionalHeader) (i : Z) : Z :=
  if i <? size_of_headers o then nth (Z.to_nat i) bytes 0 else 0.

Definition overlay (bytes : list Z) (f : Z -> Z) (secs : list SectionTable) (i : Z) : Z :=
  foldl (fun b sec => default b (section_byte bytes sec i)) (f i) secs.

(** The last section that covers [i] decides; headers fill the rest. *)
Definition image_byte (bytes : list Z) (pe : PE) (o : OptionalHeader) (i : Z) : Z :=
  overlay bytes (header_byte bytes o) (sections pe) i.

(** The pages of a section, as the protection loop rounds them. *)
Definition section_pages (page mapped_size : Z) (sec : SectionTable) (i : Z) : bool :=
  let start := round_down (virtual_address sec) page in
  negb (virtual_size sec =? 0) && (virtual_address sec <? mapped_size) &&
  in_range start (round_up (Z.min (virtual_address sec + virtual_size sec) mapped_size) page - start) i.

Definition sec_prot (sec : SectionTable) : Z := section_prot (name_or_empty sec) (characteristics sec).

Definition reprotect (page mapped_size : Z) (p : Z) (secs : list SectionTable) (i : Z) : Z :=
  foldl (fun p sec =>
    if section_pages page mapped_size sec i && negb (sec_prot sec =? prot_rw) then sec_prot sec else p) p secs.

(** The last section on the page that is not read-write decides. *)
Definition image_prot (page mapped_size : Z) (pe : PE) (i : Z) : Z :=
  reprotect page mapped_size prot_rw (sections pe) i.

(** ** The image region of the address space *)

Lemma nth_replicate_same n i (d : Z) : nth i (replicate n d) d = d.
Proof. revert i. induction n; intros [|i]; simpl; auto. Qed.

Lemma nth_take_drop i m k (l : list Z) d : (i < m)%nat -> nth i (take m (drop k l)) d = nth (k + i) l d.
Proof. intros H. by rewrite !nth_lookup, lookup_take_lt, lookup_drop. Qed.

Lemma round_up_le m n k : 0 <= k -> 0 <= m <= n -> n mod 2 ^ k = 0 -> n + 2 ^ k < 2 ^ 64 ->
  round_up m (2 ^ k) <= n.
Proof.
  intros Hk Hm Hn Hlt. destruct (round_up_spec m k) as (H1 & H2); [lia..|].
  assert (0 < 2 ^ k) by (apply Z.pow_pos_nonneg; lia).
  destruct (Z.le_gt_cases (round_up m (2 ^ k)) n); [done|].
  pose proof (aligned_le n (round_up m (2 ^ k)) (2 ^ k)). lia.
Qed.

(** Never writable and executable at once. *)
Definition wx_free (p : Z) : bool := negb (prot_w p && prot_x p).

Lemma section_prot_wx_free name ch : wx_free (section_prot name ch) = true.
Proof.
  unfold section_prot. destruct (String.prefix _ _), (Z.land ch MEM_EXECUTE =? 0),
    (Z.land ch MEM_READ =? 0), (Z.land ch MEM_WRITE =? 0); done.
Qed.

Section Proofs.
Context `{HW : Host W} `{HL : !HostLaws W}.

(** [w] is [w0] with the region [b .. b+n] holding the bytes [f] under the
    protections [pr]. Outside of it, mapped memory is as it was. *)
Definition mapped_as (w0 w : W) (b n : Z) (f pr : Z -> Z) : Prop := forall x,
  if in_range b n x then byte_at w x = f (x - b) /\ prot_at w x = Some (pr (x - b))
  else prot_at w x = prot_at w0 x /\ (prot_at w0 x <> None -> byte_at w x = byte_at w0 x).

Lemma mapped_in w0 w b n f pr i : mapped_as w0 w b n f pr -> 0 <= i < n ->
  byte_at w (b + i) = f i /\ prot_at w (b + i) = Some (pr i).
Proof.
  intros H Hi. specialize (H (b + i)). destruct (in_range b n (b + i)) eqn:R; [|ranges].
  by replace (b + i - b) with i in H by lia.
Qed.

Lemma mapped_ext w0 w b n f f' pr pr' :
  mapped_as w0 w b n f pr -> (forall i, 0 <= i < n -> f i = f' i /\ pr i = pr' i) ->
  mapped_as w0 w b n f' pr'.
Proof.
  intros H He x. specialize (H x). destruct (in_range b n x) eqn:R; [|done].
  destruct (He (x - b)) as [<- <-]; [ranges|done].
Qed.

Lemma store_mapped {E} w0 w b n f pr off bs :
  mapped_as w0 w b n f pr -> 0 <= off -> off + Z.of_nat (length bs) <= n ->
  (forall i, off <= i < off + Z.of_nat (length bs) -> prot_w (pr i) = true) -> Forall is_byte bs ->
  exists w', store (E:=E) (b + off) bs w = (Ok tt, w') /\
    mapped_as w0 w' b n (fun i => if in_range off (Z.of_nat (length bs)) i
                                  then nth (Z.to_nat (i - off)) bs 0 else f i) pr.
Proof.
  intros Hm Hoff Hlen Hpr Hbs. eexists. unfold store.
  rewrite (proj2 (may_all_spec prot_w w _ _)).
  2:{ intros x Hx. unfold may. replace x with (b + (x - b)) by lia.
      destruct (mapped_in _ _ _ _ _ _ (x - b) Hm) as [_ ->]; [lia|]. apply Hpr. lia. }
  split; [done|]. intros x. specialize (Hm x). rewrite prot_set_bytes, byte_set_bytes by done.
  destruct (in_range b n x) eqn:R.
  - rewrite in_range_shift.
    destruct Hm as [Hb Hp]. destruct (in_range off _ _); [|done].
    by replace (x - (b + off)) with (x - b - off) by lia.
  - destruct (in_range (b + off) _ x) eqn:R'; [ranges|done].
Qed.

(** ** Copying *)

(** One section: its virtual range is zeroed, then its raw data copied. *)
Lemma copy_section_spec w0 w b n f bytes sec :
  mapped_as w0 w b n f (fun _ => prot_rw) -> Forall is_byte bytes -> section_ok sec ->
  virtual_size sec <> 0 -> virtual_address sec < n ->
  let copy_len := Z.min (virtual_address sec + virtual_size sec) n - virtual_address sec in
  exists w1 w2,
    store (E:=MapError) (b + virtual_address sec) (replicate (Z.to_nat copy_len) 0) w = (Ok tt, w1) /\
    (if (0 <? size_of_raw_data sec) && (pointer_to_raw_data sec <? Z.of_nat (length bytes)) then
       store (E:=MapError) (b + virtual_address sec)
         (take (Z.to_nat (Z.min (Z.min (size_of_raw_data sec) (Z.of_nat (length bytes) - pointer_to_raw_data sec)) copy_len))
           (drop (Z.to_nat (pointer_to_raw_data sec)) bytes))
     else mret tt) w1 = (Ok tt, w2) /\
    mapped_as w0 w2 b n (fun i => default (f i) (section_byte bytes sec i)) (fun _ => prot_rw).
Proof.
  intros Hm Hbytes (Hvs & Hva & Hrs & Hro & _) Hne Hlt copy_len. unfold is_u32 in *.
  destruct (store_mapped (E:=MapError) w0 w b n f (fun _ => prot_rw) (virtual_address sec)
    (replicate (Z.to_nat copy_len) 0)) as (w1 & Hw1 & Hm1); rewrite ?length_replicate; try done; try lia.
  { by apply Forall_replicate. }
  rewrite length_replicate, Z2Nat.id in Hm1 by lia.
  (** Without raw data in the file the section stays zeroed. *)
  assert (Hzero : size_of_raw_data sec <= 0 \/ Z.of_nat (length bytes) <= pointer_to_raw_data sec ->
    mapped_as w0 w1 b n (fun i => default (f i) (section_byte bytes sec i)) (fun _ => prot_rw)).
  { intros Hz. eapply mapped_ext; [exact Hm1|]. intros i Hi. split; [|done]. cbv beta.
    rewrite nth_replicate_same. unfold section_byte.
    destruct (in_range (virtual_address sec) copy_len i) eqn:R2,
      (in_range (virtual_address sec) (virtual_size sec) i) eqn:R3; try ranges; simpl default; [|done].
    destruct (Z.ltb_spec (i - virtual_address sec) (size_of_raw_data sec)); [|done].
    rewrite nth_overflow; [done|ranges]. }
  exists w1. destruct (Z.ltb_spec 0 (size_of_raw_data sec)), (Z.ltb_spec (pointer_to_raw_data sec) (Z.of_nat (length bytes)));
    simpl andb; cbv iota.
  - set (src_len := Z.min _ copy_len).
    assert (Hl : Z.of_nat (length (take (Z.to_nat src_len) (drop (Z.to_nat (pointer_to_raw_data sec)) bytes))) = src_len).
    { rewrite length_take, length_drop. lia. }
    destruct (store_mapped (E:=MapError) w0 w1 b n _ (fun _ => prot_rw) (virtual_address sec)
      (take (Z.to_nat src_len) (drop (Z.to_nat (pointer_to_raw_data sec)) bytes)) Hm1) as (w2 & Hw2 & Hm2);
      rewrite ?Hl; try done; try lia.
    { by apply Forall_take, Forall_drop. }
    exists w2. split_and!; [done|done|]. eapply mapped_ext; [exact Hm2|]. intros i Hi. split; [|done]. cbv beta.
    rewrite Hl, nth_replicate_same. unfold section_byte.
    destruct (in_range (virtual_address sec) src_len i) eqn:R1, (in_range (virtual_address sec) copy_len i) eqn:R2,
      (in_range (virtual_address sec) (virtual_size sec) i) eqn:R3; try ranges; simpl default; [| |done].
    + rewrite nth_take_drop by ranges. rewrite (proj2 (Z.ltb_lt _ _)) by ranges. f_equal. ranges.
    + destruct (Z.ltb_spec (i - virtual_address sec) (size_of_raw_data sec)); [|done].
      rewrite nth_overflow; [done|ranges].
  - exists w1. auto.
  - exists w1. split_and!; [done|done|apply Hzero; lia].
  - exists w1. split_and!; [done|done|apply Hzero; lia].
Qed.

Lemma copy_sections_spec bytes secs w0 w b n f :
  mapped_as w0 w b n f (fun _ => prot_rw) -> Forall is_byte bytes -> Forall section_ok secs ->
  exists w', copy_sections bytes b n secs w = (Ok tt, w') /\
    mapped_as w0 w' b n (overlay bytes f secs) (fun _ => prot_rw).
Proof.
  intros Hm Hbytes Hall. revert w f Hm. induction Hall as [|sec secs Hsec Hall IH]; intros w f Hm.
  { by exists w. }
  assert (Hskip : (virtual_size sec =? 0) || (n <=? virtual_address sec) = true ->
    mapped_as w0 w b n (fun i => default (f i) (section_byte bytes sec i)) (fun _ => prot_rw)).
  { intros Hs. eapply mapped_ext; [exact Hm|]. intros i Hi. split; [|done]. unfold section_byte.
    destruct (in_range (virtual_address sec) _ i) eqn:R; [ranges|done]. }
  cbn [copy_sections]. destruct (_ || _) eqn:E.
  - by apply IH, Hskip.
  - destruct (copy_section_spec w0 w b n f bytes sec) as (w1 & w2 & Hw1 & Hw2 & Hm2); [done..|lia|lia|].
    unfold mbind. rewrite Hw1. cbv zeta. rewrite Hw2. by apply IH.
Qed.

(** ** Protecting *)

Lemma protect_range_spec w0 w b n f pr start len p :
  mapped_as w0 w b n f pr -> b mod page_size = 0 -> start mod page_size = 0 -> len mod page_size = 0 ->
  0 <= start -> start + len <= n ->
  let r := sys_mprotect (b + start) len p w in
  (fst r = 0 -> mapped_as w0 (snd r) b n f (fun i => if in_range start len i then p else pr i)) /\
  (exists pr', mapped_as w0 (snd r) b n f pr' /\ forall i, pr' i = pr i \/ pr' i = p).
Proof.
  intros Hm Hb Hs Hl H0 Hn r. pose proof page_pos as Hpos.
  assert (Ha : (b + start) mod page_size = 0) by (by apply aligned_add).
  assert (Hbyte : forall x, byte_at (snd r) x = byte_at w x) by (intros; apply mprotect_byte).
  split.
  - intros Hrc x. specialize (Hm x). rewrite Hbyte.
    rewrite (mprotect_ok (b + start) len p w (snd r) x Ha Hl) by (subst r; rewrite <- Hrc; apply surjective_pairing).
    rewrite in_range_shift. destruct (in_range b n x) eqn:R.
    + destruct Hm as [? ?]. by destruct (in_range start len (x - b)).
    + destruct (in_range start len (x - b)) eqn:R'; [ranges|done].
  - exists (fun i => if in_range 0 n i then default 0 (prot_at (snd r) (b + i)) else pr i).
    assert (Hin : forall i, 0 <= i < n -> prot_at (snd r) (b + i) = Some (pr i) \/ prot_at (snd r) (b + i) = Some p).
    { intros i Hi. destruct (mapped_in _ _ _ _ _ _ i Hm Hi) as [_ Hp].
      destruct (mprotect_failed (b + start) len p w (b + i) Ha Hl) as [He|(_ & _ & He)]; [left|by right].
      fold r in He. by rewrite He. }
    split.
    + intros x. specialize (Hm x). rewrite Hbyte. destruct (in_range b n x) eqn:R.
      * destruct Hm as [? Hp]. destruct (in_range 0 n (x - b)) eqn:R0; [|ranges].
        destruct (Hin (x - b)) as [He|He]; [ranges| |]; replace (b + (x - b)) with x in * by lia; by rewrite He.
      * destruct (mprotect_failed (b + start) len p w x Ha Hl) as [He|(R' & _ & _)]; [|ranges].
        fold r in He. by rewrite He.
    + intros i. destruct (in_range 0 n i) eqn:R0; [|by left].
      destruct (Hin i) as [-> | ->]; [ranges|by left|by right].
Qed.

(** The protection loop. A failing call leaves the image mapped. *)
Lemma protect_sections_spec secs w0 w b n f pr :
  mapped_as w0 w b n f pr -> b mod page_size = 0 -> 0 < n -> n mod page_size = 0 -> n < 2 ^ 34 ->
  Forall section_ok secs ->
  match protect_sections b n secs w with
  | (Ok _, w') => mapped_as w0 w' b n f (fun i => reprotect page_size n (pr i) secs i)
  | (Err (MprotectFailed _ _ _), w') => exists pr', mapped_as w0 w' b n f pr' /\
      forall i, pr' i = pr i \/ exists sec, pr' i = sec_prot sec
  | _ => False
  end.
Proof.
  intros Hm Hb Hn Hnp Hn34 Hall. pose proof page_pos as Hpos. pose proof page_shift_range as Hshift.
  assert (Hpow : 2 ^ page_shift <= 2 ^ 30) by (apply Z.pow_le_mono_r; lia).
  revert w pr Hm. induction Hall as [|sec secs Hsec Hall IH]; intros w pr Hm; [done|].
  assert (Hnext : forall w1, mapped_as w0 w1 b n f (fun i =>
      if section_pages page_size n sec i && negb (sec_prot sec =? prot_rw) then sec_prot sec else pr i) ->
    match protect_sections b n secs w1 with
    | (Ok _, w') => mapped_as w0 w' b n f (fun i => reprotect page_size n (pr i) (sec :: secs) i)
    | (Err (MprotectFailed _ _ _), w') => exists pr', mapped_as w0 w' b n f pr' /\
        forall i, pr' i = pr i \/ exists sec, pr' i = sec_prot sec
    | _ => False
    end).
  { intros w1 Hm1. specialize (IH w1 _ Hm1).
    destruct (protect_sections b n secs w1) as [[?|[]| |] ?]; try done.
    destruct IH as (pr' & Hm' & Hpr'). exists pr'. split; [done|]. intros i.
    destruct (Hpr' i) as [-> | ?]; [|by right]. destruct (_ && _); [right; eauto|by left]. }
  assert (Hkeep : (forall i, section_pages page_size n sec i = false) \/ sec_prot sec = prot_rw ->
    mapped_as w0 w b n f (fun i => if section_pages page_size n sec i && negb (sec_prot sec =? prot_rw)
                                   then sec_prot sec else pr i)).
  { intros Hs. eapply mapped_ext; [exact Hm|]. intros i _. split; [done|].
    destruct Hs as [Hs | ->]; [by rewrite Hs|]. by rewrite Z.eqb_refl, andb_false_r. }
  cbn [protect_sections]. fold (sec_prot sec).
  destruct ((virtual_size sec =? 0) || (n <=? virtual_address sec)) eqn:E.
  { apply Hnext, Hkeep. left. intros i. unfold section_pages.
    apply orb_true_iff in E as [-> | E]; [done|]. apply Z.leb_le in E.
    rewrite (proj2 (Z.ltb_ge _ _)) by lia. by rewrite andb_false_r. }
  destruct (sec_prot sec =? prot_rw) eqn:Erw; [apply Hnext, Hkeep; right; lia|].
  destruct Hsec as (Hvs & Hva & _). unfold is_u32 in *. rewrite page_size_shift in *.
  destruct (round_down_spec (virtual_address sec) page_shift) as (Hd1 & Hd2 & Hd3); [lia..|].
  set (m := Z.min _ n). assert (Hmin : virtual_address sec < m <= n) by lia.
  destruct (round_up_spec m page_shift) as (Hu1 & Hu2); [lia..|].
  assert (Hu3 : round_up m (2 ^ page_shift) <= n) by (apply round_up_le; [lia|lia|done|lia]).
  set (start := round_down _ _) in *. set (end_ := round_up m _) in *.
  destruct (protect_range_spec w0 w b n f pr start (end_ - start) (sec_prot sec)) as [Hok Hfail];
    rewrite ?page_size_shift; [done|done|done|by apply aligned_sub|lia|lia|].
  unfold mbind, mprotect. destruct (sys_mprotect _ _ _ w) as [rc w1]. simpl in Hok, Hfail.
  destruct (Z.eqb_spec rc 0) as [->|Hrc]; simpl negb; cbv iota.
  - apply Hnext. eapply mapped_ext; [exact (Hok eq_refl)|]. intros i _. split; [done|].
    unfold section_pages. apply orb_false_iff in E as [-> E]. rewrite (proj2 (Z.ltb_lt _ _)) by lia.
    by rewrite andb_true_r.
  - destruct Hfail as (pr' & Hm' & Hpr'). exists pr'. split; [done|]. intros i. destruct (Hpr' i); eauto.
Qed.

(** ** Choosing the base *)

(** Mapped memory is as it was. *)
Definition unchanged (w w' : W) : Prop := forall x,
  prot_at w' x = prot_at w x /\ (prot_at w x <> None -> byte_at w' x = byte_at w x).

(** A page-aligned region of the user address space that nothing occupied. *)
Definition fresh_region (w : W) (b n : Z) : Prop :=
  0 < b /\ b + n <= 2 ^ 63 /\ b mod page_size = 0 /\ forall x, b <= x < b + n -> prot_at w x = None.

Definition zeroed (w w' : W) (b n : Z) : Prop :=
  fresh_region w b n /\ mapped_as w w' b n (fun _ => 0) (fun _ => prot_rw).

Lemma mmap_spec hint n fixed w :
  0 < n -> n mod page_size = 0 ->
  match mmap hint n fixed w with
  | (Ok (Some b), w') => zeroed w w' b n
  | (Ok None, w') => unchanged w w'
  | _ => False
  end.
Proof.
  intros Hn Hnp. unfold mmap. destruct (sys_mmap hint n fixed w) as [[b|] w'] eqn:E.
  - destruct (mmap_ok _ _ _ _ _ _ Hn Hnp E) as (? & ? & ? & Hfree & Hp & Hb). split; [by split_and!|].
    intros x. rewrite Hp, Hb. by destruct (in_range b n x).
  - intros x. destruct (mmap_failed _ _ _ _ _ x E) as [-> ->]. done.
Qed.

Lemma zeroed_unchanged w w1 w2 b n : unchanged w w1 -> zeroed w1 w2 b n -> zeroed w w2 b n.
Proof.
  intros Hu [(? & ? & ? & Hfree) Hm]. split.
  - split_and!; [done..|]. intros x Hx. destruct (Hu x) as [<- _]. auto.
  - intros x. specialize (Hm x). destruct (in_range b n x); [done|]. destruct (Hu x) as [Hp Hb], Hm as [Hp' Hb'].
    split; [congruence|]. intros Hne. rewrite Hb', Hb; congruence.
Qed.

Lemma map_anywhere_spec n w :
  0 < n -> n mod page_size = 0 ->
  match map_anywhere n w with
  | (Ok b, w') => zeroed w w' b n
  | (Err (MmapFailed _), w') => unchanged w w'
  | _ => False
  end.
Proof.
  intros Hn Hnp. pose proof (mmap_spec 0 n false w Hn Hnp) as H. unfold map_anywhere, mbind.
  by destruct (mmap 0 n false w) as [[[]|e| |] w1].
Qed.

(** Success gives exactly the preferred base; a mapping elsewhere is released. *)
Lemma try_map_at_spec preferred n w :
  0 < n -> n mod page_size = 0 ->
  match try_map_at preferred n w with
  | (Ok (Some b), w') => b = preferred /\ zeroed w w' b n
  | (Ok None, w') => unchanged w w'
  | _ => False
  end.
Proof.
  intros Hn Hnp. unfold try_map_at. destruct (preferred =? 0); [done|].
  pose proof (mmap_spec preferred n true w Hn Hnp) as H. unfold mbind.
  destruct (mmap preferred n true w) as [[[p|]|e| |] w1]; try done.
  destruct (Z.eqb_spec p preferred) as [->|Hne]; [done|]. destruct H as [(_ & _ & Hp & Hfree) Hm].
  unfold munmap. simpl. intros x. specialize (Hm x). rewrite munmap_prot by done.
  destruct (in_range p n x) eqn:R.
  - rewrite Hfree by ranges. done.
  - rewrite munmap_byte by done. exact Hm.
Qed.

Definition pick_base (preferred n : Z) (try_preferred : bool) : L Z :=
  if try_preferred then
    let! r := try_map_at preferred n in
    match r with Some b => mret b | None => map_anywhere n end
  else map_anywhere n.

Lemma pick_base_spec preferred n try_ w :
  0 < n -> n mod page_size = 0 ->
  match pick_base preferred n try_ w with
  | (Ok b, w') => zeroed w w' b n
  | (Err (MmapFailed _), w') => unchanged w w'
  | _ => False
  end.
Proof.
  intros Hn Hnp. unfold pick_base. destruct try_; [|by apply map_anywhere_spec].
  pose proof (try_map_at_spec preferred n w Hn Hnp) as H. unfold mbind.
  destruct (try_map_at preferred n w) as [[[b|]|e| |] w1]; try done; [by destruct H|].
  pose proof (map_anywhere_spec n w1 Hn Hnp) as H2.
  destruct (map_anywhere n w1) as [[b|[]| |] w2]; try done; [by eapply zeroed_unchanged|].
  intros x. destruct (H x) as [<- Hb], (H2 x) as [Hp2 Hb2]. split; [done|]. intros Hne. rewrite Hb2; auto.
Qed.

(** ** The whole mapping *)

Lemma overlay_ext bytes secs f f' i : f i = f' i -> overlay bytes f secs i = overlay bytes f' secs i.
Proof. unfold overlay. by intros ->. Qed.

(** What mapping promises. On success: a fresh page-aligned region that holds
    the bytes and the protections the section table asks for, the rest of mapped
    memory unchanged. Without room nothing changes. When the kernel refuses a
    protection the image stays mapped, readable and filled. The only panic is a
    file without an optional header. *)
Definition mapping_post (bytes : list Z) (pe : PE) (w : W) (r : outcome MapError MappedImage * W) : Prop :=
  match r with
  | (Ok img, w') => exists o, optional_header pe = Some o /\ preferred_base img = image_base o /\
      size img = round_up (size_of_image o) page_size /\ 0 < size img < 2 ^ 34 /\
      size img mod page_size = 0 /\ fresh_region w (base img) (size img) /\
      mapped_as w w' (base img) (size img) (image_byte bytes pe o) (image_prot page_size (size img) pe)
  | (Err (MmapFailed _), w') => unchanged w w'
  | (Err (MprotectFailed _ _ _), w') => exists o b pr, optional_header pe = Some o /\
      let n := round_up (size_of_image o) page_size in
      fresh_region w b n /\ mapped_as w w' b n (image_byte bytes pe o) pr /\
      forall i, pr i = prot_rw \/ exists sec, pr i = sec_prot sec
  | (Panic, _) => optional_header pe = None
  | _ => False
  end.

Lemma map_image_spec bytes pe try_ w :
  pe_ok pe -> Forall is_byte bytes ->
  mapping_post bytes pe w (map_image_with_preferred_base bytes pe try_ w).
Proof.
  intros [Hsecs Ho] Hbytes. unfold mapping_post, map_image_with_preferred_base.
  destruct (optional_header pe) as [o|]; [|done]. destruct Ho as (Hsize & _ & Hhdr). unfold is_u32 in *.
  pose proof page_shift_range as Hshift. pose proof page_pos as Hpos.
  assert (Hpow : 2 ^ page_shift <= 2 ^ 30) by (apply Z.pow_le_mono_r; lia).
  assert (Hn : size_of_image o <= round_up (size_of_image o) page_size < 2 ^ 34 /\
    round_up (size_of_image o) page_size mod page_size = 0).
  { rewrite page_size_shift in *. destruct (round_up_spec (size_of_image o) page_shift); [lia..|]. split; [lia|done]. }
  set (n := round_up _ _) in *. destruct Hn as [Hn Hnp].
  destruct (Z.eqb_spec n 0); [done|]. fold (pick_base (image_base o) n try_).
  pose proof (pick_base_spec (image_base o) n try_ w ltac:(lia) Hnp) as Hpick.
  destruct (pick_base (image_base o) n try_ w) as [[b|e| |] w1] eqn:Hb; try done.
  2:{ rewrite (mbind_err _ _ _ _ _ Hb). by destruct e. }
  rewrite (mbind_ok _ _ _ _ _ Hb). destruct Hpick as [Hfresh Hm].
  destruct (store_mapped (E:=MapError) w w1 b n _ _ 0 (replicate (Z.to_nat n) 0) Hm) as (w2 & Hw2 & Hm2);
    rewrite ?length_replicate; [done|lia|done|by apply Forall_replicate|].
  rewrite Z.add_0_r in Hw2. rewrite (mbind_ok _ _ _ _ _ Hw2). cbv zeta. set (hl := Z.min _ n).
  assert (Hl : Z.of_nat (length (take (Z.to_nat hl) bytes)) = hl) by (rewrite length_take; lia).
  destruct (store_mapped (E:=MapError) w w2 b n _ _ 0 (take (Z.to_nat hl) bytes) Hm2) as (w3 & Hw3 & Hm3);
    rewrite ?Hl; [done|lia|done|by apply Forall_take|].
  rewrite Z.add_0_r in Hw3. rewrite (mbind_ok _ _ _ _ _ Hw3).
  destruct (copy_sections_spec bytes (sections pe) w w3 b n _ Hm3) as (w4 & Hw4 & Hm4); [done..|].
  rewrite (mbind_ok _ _ _ _ _ Hw4).
  pose proof (protect_sections_spec (sections pe) w w4 b n _ _ Hm4) as Hprot.
  assert (Himg : forall i, 0 <= i < n -> overlay bytes (fun i =>
      if in_range 0 (Z.of_nat (length (take (Z.to_nat hl) bytes))) i
      then nth (Z.to_nat (i - 0)) (take (Z.to_nat hl) bytes) 0
      else if in_range 0 (Z.of_nat (length (replicate (Z.to_nat n) 0))) i
           then nth (Z.to_nat (i - 0)) (replicate (Z.to_nat n) 0) 0 else 0) (sections pe) i
    = image_byte bytes pe o i).
  { intros i Hi. apply overlay_ext. rewrite Hl, nth_replicate_same, Z.sub_0_r. unfold header_byte.
    destruct (in_range 0 hl i) eqn:R, (Z.ltb_spec i (size_of_headers o)); try ranges.
    - rewrite <- (drop_0 bytes) at 1. by rewrite nth_take_drop by ranges.
    - rewrite nth_overflow by ranges. apply if_same.
    - apply if_same. }
  specialize (Hprot ltac:(apply Hfresh) ltac:(lia) Hnp ltac:(lia) Hsecs). unfold mbind.
  destruct (protect_sections b n (sections pe) w4) as [[[]|[]| |] w5]; try done.
  - exists o. split_and!; [done|done|done|simpl; lia|simpl; lia|done|done|]. eapply mapped_ext; [exact Hprot|].
    intros i Hi. by split; [apply Himg|].
  - destruct Hprot as (pr & Hm5 & Hpr).
    exists o, b, pr. split_and!; [done|done| |done]. eapply mapped_ext; [exact Hm5|].
    intros i Hi. by split; [apply Himg|].
Qed.

Lemma reprotect_wx_free page n secs p i : wx_free p = true -> wx_free (reprotect page n p secs i) = true.
Proof.
  unfold reprotect. revert p. induction secs as [|sec secs IH]; intros p Hp; [done|]. cbn [foldl]. apply IH.
  destruct (_ && _); [apply section_prot_wx_free|done].
Qed.
End Proofs.

(** ** A small image *)

Definition demo_pe : PE :=
  mkPE (Some (mkOptionalHeader 40 8192 4))
    [mkSection (Some ".text"%string) 10 16 6 8 (Z.lor MEM_EXECUTE (Z.lor MEM_READ MEM_WRITE));
     mkSection (Some ".rdata"%string) 12 32 9 16 MEM_READ].

Definition demo_bytes : list Z := seqZ 1 24.

(** ** Properties *)


(** C8. No page of a mapped image is writable and executable, whatever the
    characteristics of its sections say, and also when mapping fails half-way. *)
Theorem map_image_never_wx {W} `{HW : Host W} {HL : HostLaws W} (bytes : list Z) (pe : PE) (try_preferred : bool)
    (w w' : W) (r : outcome MapError MappedImage) (x p : Z) :
  pe_ok pe -> Forall is_byte bytes ->
  map_image_with_preferred_base bytes pe try_preferred w = (r, w') ->
  prot_at w x = None -> prot_at w' x = Some p -> wx_free p = true.
Proof.
  intros Hpe Hbytes Hr Hx Hp. pose proof (map_image_spec bytes pe try_preferred w Hpe Hbytes) as H.
  rewrite Hr in H. destruct r as [img|[]| |]; simpl in H; try done.
  - destruct H as (o & _ & _ & _ & _ & _ & _ & Hm). specialize (Hm x).
    destruct (in_range _ _ x); destruct Hm as [Hm1 Hm2]; [|congruence].
    rewrite Hp in Hm2. injection Hm2 as ->. by apply reprotect_wx_free.
  - destruct (H x) as [Hu _]. congruence.
  - destruct H as (o & b & pr & _ & _ & Hm & Hpr). specialize (Hm x).
    destruct (in_range _ _ x); destruct Hm as [Hm1 Hm2]; [|congruence].
    rewrite Hp in Hm2. injection Hm2 as ->. destruct (Hpr (x - b)) as [-> | [sec ->]]; [done|].
    apply section_prot_wx_free.
  - (* a panic maps nothing *)
    unfold map_image_with_preferred_base in Hr. rewrite H in Hr. injection Hr as <-. congruence.
Qed.

(** When the kernel refuses a section's protection, the error is returned
    with the whole image still mapped and no handle to release it by. *)
Theorem map_image_failure_leaks {W} `{HW : Host W} {HL : HostLaws W} (bytes : list Z) (pe : PE) (try_preferred : bool)
    (w w' : W) (section : string) (addr len : Z) (o : OptionalHeader) :
  pe_ok pe -> Forall is_byte bytes -> optional_header pe = Some o ->
  map_image_with_preferred_base bytes pe try_preferred w = (Err (MprotectFailed section addr len), w') ->
  exists b, forall x, b <= x < b + round_up (size_of_image o) page_size ->
    prot_at w x = None /\ prot_at w' x <> None.
Proof.
  intros Hpe Hbytes Ho Hr. pose proof (map_image_spec bytes pe try_preferred w Hpe Hbytes) as H.
  rewrite Hr in H. destruct H as (o' & b & pr & Ho' & (_ & _ & _ & Hfree) & Hm & _).
  rewrite Ho in Ho'. injection Ho' as <-. exists b. intros x Hx. split; [by apply Hfree|].
  specialize (Hm x). rewrite (proj2 (in_range_spec _ _ _)) in Hm by done. by destruct Hm as [_ ->].
Qed.

(** ** Witnesses *)

Lemma demo_pe_ok : pe_ok demo_pe.
Proof. split; [repeat constructor|]; by cbv. Qed.

Lemma demo_bytes_ok : Forall is_byte demo_bytes.
Proof. repeat constructor; by cbv. Qed.


Lemma map_image_never_wx_witness :
  exists r w', map_image_with_preferred_base demo_bytes demo_pe true SmallHost.empty = (r, w') /\
    prot_at w' (8192 + 16) = Some 5 /\ wx_free 5 = true.
Proof.
  destruct (map_image_with_preferred_base demo_bytes demo_pe true SmallHost.empty) as [r w'] eqn:E.
  exists r, w'. assert (Hp : prot_at w' (8192 + 16) = Some 5).
  { change w' with (snd (r, w')). rewrite <- E. by vm_compute. }
  split_and!; [done|done|].
  apply (map_image_never_wx demo_bytes demo_pe true SmallHost.empty w' r (8192 + 16) 5 demo_pe_ok demo_bytes_ok E eq_refl Hp).
Defined.

Lemma map_image_failure_leaks_witness :
  exists w', map_image_with_preferred_base demo_bytes demo_pe true RefusingHost.empty =
      (Err (MprotectFailed ".text" (8192 + 16) 16), w') /\
    exists b, forall x, b <= x < b + 48 -> prot_at RefusingHost.empty x = None /\ prot_at w' x <> None.
Proof.
  destruct (map_image_with_preferred_base demo_bytes demo_pe true RefusingHost.empty) as [r w'] eqn:E.
  assert (Hr : r = Err (MprotectFailed ".text" (8192 + 16) 16)).
  { change r with (fst (r, w')). rewrite <- E. by vm_compute. }
  subst r. exists w'. split; [done|].
  apply (map_image_failure_leaks demo_bytes demo_pe true RefusingHost.empty w' ".text" (8192 + 16) 16
    (mkOptionalHeader 40 8192 4) demo_pe_ok demo_bytes_ok eq_refl E).
Defined.
