(* ===== verification/PeReloc.v ===== *)
(** * Relocations and import binding ([crates/pe-loader/src/mapping.rs], second half)

    The walk over the base-relocation table, the patching of one entry under a
    temporary write permission, the lookup of file offsets and the writing of the
    import address table. *)
From Stdlib Require Import ZArith Lia String.
From stdpp Require Import base list option gmap strings.
From S2P Require Import Prelude PeHost PeImage.
Local Open Scope rust_scope.
Local Open Scope Z_scope.
Set Warnings "-register-all".

(** A data directory of the optional header. *)
Record DataDirectory := mkDir { dir_rva : Z; dir_size : Z }.

(** [find_map] over the sections for the one that owns [rva]. *)
Definition owning_section (pe : PE) (rva : Z) : option SectionTable :=
  List.find (fun sec => (virtual_address sec <=? rva) && (rva <? virtual_address sec + virtual_size sec))
    (sections pe).

Definition restore_prot (pe : PE) (rva : Z) : Z :=
  match owning_section pe rva with
  | Some sec => Z.lor (sec_prot sec) PROT_READ
  | None => prot_rw
  end.

(** The pages of [span] bytes at [addr], and the protection to restore. *)
Definition unprotect_span (img : MappedImage) (pe : PE) (addr span page : Z) : Z * Z * Z :=
  let start := Z.land addr (Z.lnot (page - 1)) in
  let end_ := round_up (addr + span) page in
  let len := end_ - start in
  let rva := wrap 32 (sat_sub addr (base img)) in
  (start, len, restore_prot pe rva).

Definition delta (img : MappedImage) : Z := to_signed 64 (base img - preferred_base img).

(** [rva_to_file_offset]; goblin's parser is a parameter. *)
Fixpoint section_offset (bytes : list Z) (rva : Z) (secs : list SectionTable) : option Z :=
  match secs with
  | [] => None
  | sec :: secs =>
      let va := virtual_address sec in
      let vsz := virtual_size sec in
      let rsz := size_of_raw_data sec in
      let raw := pointer_to_raw_data sec in
      let off := rva - va in
      if (va <=? rva) && (rva <? va + Z.max vsz rsz) then
        if (off <? rsz) && (raw + off <? Z.of_nat (length bytes)) then Some (raw + off)
        else section_offset bytes rva secs
      else section_offset bytes rva secs
  end.

Definition rva_to_file_offset (parse_pe : list Z -> option PE) (bytes : list Z) (rva : Z) : option Z :=
  match parse_pe bytes with
  | None => None
  | Some pe => section_offset bytes rva (sections pe)
  end.

(** [from_le_bytes] of the [n] bytes at [pos]. *)
Definition le_at (n pos : nat) (bytes : list Z) : Z := le_val (take n (drop pos bytes)).

Section Relocations.
Context `{HW : Host W}.
Variable parse_pe : list Z -> option PE.

Definition apply_one_reloc (target typ delta : Z) : L unit :=
  if typ =? 0 then mret tt
  else if typ =? 10 then
    let! old := read_int 8 target in
    write_int 8 target (wrap 64 (to_signed 64 old + delta))
  else if typ =? 3 then
    let! old := read_int 4 target in
    write_int 4 target (wrap 32 (wrap 64 (old + delta)))
  else if typ =? 2 then
    let! old := read_int 2 target in
    write_int 2 target (wrap 16 (wrap 64 (old + wrap 64 delta)))
  else mret tt.

(** One non-padding entry: flip the pages writable, patch, restore. A failing
    restore is only logged. *)
Definition patch_entry (img : MappedImage) (pe : PE) (d : Z) (e : Z * Z) : L unit :=
  let '(typ, target_rva) := e in
  match rva_to_ptr img target_rva with
  | None => mfail (RelocRvaOutOfRange target_rva)
  | Some target =>
      let '(flip_start, flip_len, restore) := unprotect_span img pe target 8 page_size in
      let! rc := mprotect flip_start flip_len prot_rw in
      if negb (rc =? 0) then mfail (MprotectFailed "relocation target" flip_start flip_len)
      else
        apply_one_reloc target typ d ;;;
        mprotect flip_start flip_len restore ;;;
        mret tt
  end.

(** [typ], and the target RVA truncated to 32 bits, of a raw entry. *)
Definition decode_entry (page_rva entry : Z) : Z * Z :=
  (Z.shiftr entry 12, wrap 32 (page_rva + Z.land entry 0xFFF)).

Fixpoint reloc_entries (img : MappedImage) (pe : PE) (d page_rva : Z) (entries : list Z) : L unit :=
  match entries with
  | b0 :: b1 :: rest =>
      let e := decode_entry page_rva (le_val [b0; b1]) in
      (if fst e =? 0 then mret tt else patch_entry img pe d e) ;;;
      reloc_entries img pe d page_rva rest
  | _ => mret tt
  end.

(** The block loop; [fuel] bounds the number of blocks. *)
Fixpoint reloc_blocks (img : MappedImage) (pe : PE) (d : Z) (fuel : nat) (rb : list Z) (pos : nat) : L unit :=
  match fuel with
  | O => mnofuel
  | S fuel =>
      if (pos + 8 <=? length rb)%nat then
        let page_rva := le_at 4 pos rb in
        let block_size := le_at 4 (pos + 4) rb in
        if (block_size <? 8) || (Z.of_nat (length rb) <? Z.of_nat pos + block_size) then mfail RelocBlockOverflow
        else
          reloc_entries img pe d page_rva (slice (pos + 8) (pos + Z.to_nat block_size) rb) ;;;
          reloc_blocks img pe d fuel rb (pos + Z.to_nat block_size)
      else mret tt
  end.

Definition apply_relocations (img : MappedImage) (bytes : list Z) (pe : PE) (dir : DataDirectory) : L unit :=
  if (dir_rva dir =? 0) || (dir_size dir =? 0) then mret tt
  else
    let d := delta img in
    if d =? 0 then mret tt
    else
      match rva_to_file_offset parse_pe bytes (dir_rva dir) with
      | None => mfail (RelocDirOutOfRange (dir_rva dir))
      | Some reloc_start =>
          if Z.of_nat (length bytes) <? reloc_start + dir_size dir then
            mfail (RelocDirOutOfRange (dir_rva dir))
          else
            let rb := slice (Z.to_nat reloc_start) (Z.to_nat (reloc_start + dir_size dir)) bytes in
            reloc_blocks img pe d (S (length rb)) rb 0
      end.

(** ** Import binding *)

Record Import := mkImport { imp_dll : string; imp_name : string; imp_offset : Z }.

(** [str::to_lowercase] is a parameter, as the module names are Unicode. *)
Variable to_lowercase : string -> string.

(** A failing [mprotect] is only logged; the write goes on. *)
Fixpoint write_iat (img : MappedImage) (imports : list Import) (resolved : gmap (string * string) Z) : L unit :=
  match imports with
  | [] => mret tt
  | imp :: imports =>
      match resolved !! (to_lowercase (imp_dll imp), imp_name imp) with
      | None => write_iat img imports resolved
      | Some ptr =>
          match rva_to_ptr img (wrap 32 (imp_offset imp)) with
          | None => write_iat img imports resolved
          | Some slot =>
              let start := Z.land slot (Z.lnot (page_size - 1)) in
              let end_ := round_up (slot + 8) page_size in
              mprotect start (end_ - start) prot_rw ;;;
              write_int 8 slot ptr ;;;
              write_iat img imports resolved
          end
      end
  end.
End Relocations.

(** ** What the table asks for *)

(** The entries of a block, padding left out. *)
Fixpoint block_entries (page_rva : Z) (entries : list Z) : list (Z * Z) :=
  match entries with
  | b0 :: b1 :: rest =>
      let e := decode_entry page_rva (le_val [b0; b1]) in
      (if fst e =? 0 then [] else [e]) ++ block_entries page_rva rest
  | _ => []
  end.

(** The entries of the well-formed blocks at the front of a table, and whether
    the table ends well-formed. *)
Fixpoint table_entries (fuel : nat) (rb : list Z) : list (Z * Z) * bool :=
  match fuel with
  | O => ([], true)
  | S fuel =>
      if (8 <=? length rb)%nat then
        let block_size := le_at 4 4 rb in
        if (block_size <? 8) || (Z.of_nat (length rb) <? block_size) then ([], false)
        else
          let '(es, ok) := table_entries fuel (drop (Z.to_nat block_size) rb) in
          (block_entries (le_at 4 0 rb) (slice 8 (Z.to_nat block_size) rb) ++ es, ok)
      else ([], true)
  end.

Definition reloc_table (rb : list Z) : list (Z * Z) * bool := table_entries (length rb) rb.

(** The number of bytes an entry patches. *)
Definition width (typ : Z) : nat :=
  if typ =? 10 then 8 else if typ =? 3 then 4 else if typ =? 2 then 2 else 0.

(** The image with one entry, or all entries in order, relocated. *)
Definition word_at (f : Z -> Z) (n : nat) (a : Z) : Z := le_val (map f (seqZ a (Z.of_nat n))).

Definition patch (d : Z) (f : Z -> Z) (e : Z * Z) (i : Z) : Z :=
  let '(typ, rva) := e in
  if in_range rva (Z.of_nat (width typ)) i then
    nth (Z.to_nat (i - rva)) (le_bytes (width typ) (word_at f (width typ) rva + d)) 0
  else f i.

Definition relocate (d : Z) (es : list (Z * Z)) (f : Z -> Z) : Z -> Z := foldl (patch d) f es.

(** ** Lemmas on words and pages *)

Lemma wrap_wrap_le w v x : 0 <= w <= v -> wrap w (wrap v x) = wrap w x.
Proof.
  intros H. unfold wrap. replace v with (w + (v - w)) by lia.
  rewrite Z.pow_add_r, Z.rem_mul_r by lia. rewrite Z.mul_comm, Z.mod_add by lia. apply Zmod_mod.
Qed.

Lemma wrap_to_signed w x y : wrap w (to_signed w x + y) = wrap w (x + y).
Proof.
  unfold to_signed. destruct (_ <? _); [apply wrap_add_wrap_l|]. unfold wrap.
  replace (x mod 2 ^ w - 2 ^ w + y) with (x mod 2 ^ w + y + (-1) * 2 ^ w) by lia.
  rewrite Z_mod_plus_full. apply Zplus_mod_idemp_l.
Qed.

Lemma le_bytes_wrap n v : le_bytes n (wrap (8 * Z.of_nat n) v) = le_bytes n v.
Proof.
  rewrite <- le_val_bytes. pose proof (le_bytes_val (le_bytes n v) (le_bytes_range n v)) as H.
  by rewrite le_bytes_length in H.
Qed.

Lemma round_down_shift b x k : 0 <= k -> b mod 2 ^ k = 0 -> round_down (b + x) (2 ^ k) = b + round_down x (2 ^ k).
Proof.
  intros Hk Hb. unfold round_down. rewrite !land_lnot_ones by done.
  rewrite Z.add_mod, Hb, Z.add_0_l, Zmod_mod by (apply Z.pow_nonzero; lia). lia.
Qed.

Lemma round_up_shift b x k : 0 <= k -> b mod 2 ^ k = 0 -> 0 <= b -> 0 <= x -> b + x + 2 ^ k - 1 < 2 ^ 64 ->
  round_up (b + x) (2 ^ k) = b + round_up x (2 ^ k).
Proof.
  intros Hk Hb Hb0 Hx Hlt. assert (0 < 2 ^ k) by (apply Z.pow_pos_nonneg; lia).
  unfold round_up. rewrite !wrap_small by lia. rewrite !land_lnot_ones by done.
  replace (b + x + 2 ^ k - 1) with (b + (x + 2 ^ k - 1)) by lia.
  rewrite (Z.add_mod b), Hb, Z.add_0_l, Zmod_mod by lia. lia.
Qed.

Lemma restore_prot_wx_free pe rva : wx_free (restore_prot pe rva) = true.
Proof.
  unfold restore_prot. destruct (owning_section pe rva) as [sec|]; [|done].
  pose proof (section_prot_wx_free (name_or_empty sec) (characteristics sec)) as H.
  unfold sec_prot, wx_free, prot_w, prot_x in *. by rewrite !Z.lor_spec, !orb_false_r.
Qed.

(** ** The blocks are walked as the table says *)

Section Walk.
Context `{HW : Host W}.
Variables (img : MappedImage) (pe : PE) (d : Z).

Fixpoint patch_all (es : list (Z * Z)) : L unit :=
  match es with
  | [] => mret tt
  | e :: es => patch_entry img pe d e ;;; patch_all es
  end.

Lemma patch_all_app es1 es2 w : patch_all (es1 ++ es2) w = (patch_all es1 ;;; patch_all es2) w.
Proof.
  revert w. induction es1 as [|e es1 IH]; intros w; [done|]. cbn [patch_all app]. unfold mbind.
  destruct (patch_entry img pe d e w) as [[[]|?| |] w1]; done || apply IH.
Qed.

Lemma reloc_entries_patch_all page_rva entries w :
  reloc_entries img pe d page_rva entries w = patch_all (block_entries page_rva entries) w.
Proof.
  revert w. assert (H : forall n entries, (length entries <= n)%nat -> forall w,
    reloc_entries img pe d page_rva entries w = patch_all (block_entries page_rva entries) w).
  { intros n. induction n as [|n IH]; intros [|b0 [|b1 rest]] Hn w; try done; [simpl in Hn; lia|].
    cbn [reloc_entries block_entries]. rewrite patch_all_app. destruct (fst _ =? 0).
    - apply IH. simpl in Hn. lia.
    - cbn [patch_all]. unfold mbind. destruct (patch_entry img pe d _ w) as [[[]|?| |] w1]; try done.
      apply IH. simpl in Hn. lia. }
  intros w. by apply (H (length entries)).
Qed.

(** The block loop is the patching of the table's entries, then the error of a
    malformed end. *)
Lemma reloc_blocks_walk fuel rb pos k w :
  (length rb - pos < fuel)%nat -> (length rb - pos <= k)%nat ->
  reloc_blocks img pe d fuel rb pos w =
    (let '(es, ok) := table_entries k (drop pos rb) in
     patch_all es ;;; if ok then mret tt else mfail RelocBlockOverflow) w.
Proof.
  revert pos k w. induction fuel as [|fuel IH]; intros pos k w Hf Hk; [lia|]. cbn [reloc_blocks].
  destruct (Nat.leb_spec (pos + 8) (length rb)) as [Hle|Hgt].
  - destruct k as [|k]; [lia|]. cbn [table_entries]. rewrite length_drop.
    destruct (Nat.leb_spec 8 (length rb - pos)); [|lia].
    unfold le_at. rewrite !drop_drop, Nat.add_0_r.
    set (bs := le_val (take 4 (drop (pos + 4) rb))).
    destruct (Z.ltb_spec bs 8); [done|].
    replace (Z.of_nat (length rb - pos) <? bs) with (Z.of_nat (length rb) <? Z.of_nat pos + bs).
    2:{ destruct (Z.ltb_spec (Z.of_nat (length rb)) (Z.of_nat pos + bs)), (Z.ltb_spec (Z.of_nat (length rb - pos)) bs); lia. }
    destruct (Z.ltb_spec (Z.of_nat (length rb)) (Z.of_nat pos + bs)); [done|]. simpl orb. cbv iota.
    set (B := block_entries _ _).
    assert (HB : forall w, reloc_entries img pe d (le_val (take 4 (drop pos rb)))
      (slice (pos + 8) (pos + Z.to_nat bs) rb) w = patch_all B w).
    { intros w'. rewrite reloc_entries_patch_all. do 2 f_equal. unfold B, slice. rewrite drop_drop.
      f_equal. lia. }
    destruct (table_entries k (drop (pos + Z.to_nat bs) rb)) as [es ok] eqn:Ht.
    change (false || false) with false. cbv iota. unfold mbind. rewrite HB, patch_all_app. unfold mbind.
    destruct (patch_all B w) as [[[]|?| |] w1]; try done. rewrite (IH _ k) by lia. by rewrite Ht.
  - destruct k as [|k]; [done|]. cbn [table_entries]. rewrite length_drop.
    by destruct (Nat.leb_spec 8 (length rb - pos)); [lia|].
Qed.
End Walk.

(** ** Patching *)

Lemma patch_none d f typ rva i : width typ = 0%nat -> patch d f (typ, rva) i = f i.
Proof. intros Hw. unfold patch. rewrite Hw. destruct (in_range rva _ i) eqn:R; [ranges|done]. Qed.

Section Patching.
Context `{HW : Host W} `{HL : !HostLaws W}.
Context (w0 : W) (img : MappedImage) (pe : PE) (d : Z).
Context (Hbase : 0 < base img) (Hbase_page : base img mod page_size = 0).
Context (Hend : base img + size img <= 2 ^ 63) (Hsize : 0 < size img < 2 ^ 34).
Context (Hsize_page : size img mod page_size = 0).

(** The image holds [f] under [pr], the rest of memory is that of [w0]. *)
Definition holds (w : W) (f pr : Z -> Z) : Prop := mapped_as w0 w (base img) (size img) f pr.

Lemma holds_bytes w f pr i n : holds w f pr -> 0 <= i -> i + n <= size img ->
  get_bytes w (base img + i) n = map f (seqZ i n).
Proof.
  intros Hm Hi Hn. unfold get_bytes. apply list_eq. intros k. rewrite !list_lookup_fmap.
  destruct (decide (Z.of_nat k < n)).
  - rewrite !lookup_seqZ_lt by lia. simpl. f_equal.
    rewrite <- Z.add_assoc. apply (mapped_in _ _ _ _ _ _ (i + Z.of_nat k) Hm). lia.
  - rewrite !lookup_seqZ_ge by lia. done.
Qed.

Lemma read_int_holds w f pr i n :
  holds w f pr -> 0 <= i -> i + Z.of_nat n <= size img ->
  (forall j, i <= j < i + Z.of_nat n -> prot_r (pr j) = true) ->
  read_int (E:=MapError) n (base img + i) w = (Ok (word_at f n i), w).
Proof.
  intros Hm Hi Hn Hr. unfold read_int. erewrite mbind_ok.
  2:{ apply load_ok. intros x Hx. unfold may. replace x with (base img + (x - base img)) by lia.
      destruct (mapped_in _ _ _ _ _ _ (x - base img) Hm) as [_ ->]; [lia|]. apply Hr. lia. }
  by rewrite (holds_bytes _ _ _ _ _ Hm).
Qed.

(** Writing an [n]-byte integer. *)
Definition write_word (f : Z -> Z) (n : nat) (a v i : Z) : Z :=
  if in_range a (Z.of_nat n) i then nth (Z.to_nat (i - a)) (le_bytes n v) 0 else f i.

Lemma write_int_holds {E} w f pr i n v :
  holds w f pr -> 0 <= i -> i + Z.of_nat n <= size img ->
  (forall j, i <= j < i + Z.of_nat n -> prot_w (pr j) = true) ->
  exists w', write_int (E:=E) n (base img + i) v w = (Ok tt, w') /\ holds w' (write_word f n i v) pr.
Proof.
  intros Hm Hi Hn Hw. unfold write_int.
  destruct (store_mapped (E:=E) w0 w (base img) (size img) f pr i (le_bytes n v)) as (w' & Hw' & Hm');
    rewrite ?le_bytes_length; [done|lia|lia|done|apply le_bytes_range|].
  exists w'. split; [done|]. eapply mapped_ext; [exact Hm'|]. intros j _. by rewrite le_bytes_length.
Qed.

Lemma apply_one_reloc_holds w f pr typ rva :
  holds w f pr -> 0 <= rva -> rva + 8 <= size img ->
  (forall j, rva <= j < rva + 8 -> pr j = prot_rw) ->
  exists w', apply_one_reloc (base img + rva) typ d w = (Ok tt, w') /\ holds w' (patch d f (typ, rva)) pr.
Proof.
  intros Hm Hi Hn Hrw.
  assert (Hdo : forall n v, width typ = n -> Z.of_nat n <= 8 ->
    (forall x, le_bytes n (v x) = le_bytes n (x + d)) -> exists w',
    ((let! old := read_int n (base img + rva) in write_int n (base img + rva) (v old)) : L unit) w = (Ok tt, w') /\
    holds w' (patch d f (typ, rva)) pr).
  { intros n v Hwid Hn8 Hv. rewrite (mbind_ok _ _ _ _ _ (read_int_holds w f pr rva n Hm Hi ltac:(lia)
      ltac:(intros j Hj; rewrite Hrw by lia; done))).
    destruct (write_int_holds (E:=MapError) w f pr rva n (v (word_at f n rva)) Hm) as (w' & Hw' & Hm'); [lia|lia| |].
    { intros j Hj. by rewrite Hrw by lia. }
    exists w'. split; [exact Hw'|]. eapply mapped_ext; [exact Hm'|]. intros j _. split; [|done].
    unfold patch, write_word. by rewrite Hwid, Hv. }
  assert (Hskip : width typ = 0%nat -> exists w', mret (E:=MapError) tt w = (Ok tt, w') /\
    holds w' (patch d f (typ, rva)) pr).
  { intros Hwid. exists w. split; [done|]. eapply mapped_ext; [exact Hm|]. intros j _. by rewrite patch_none. }
  unfold apply_one_reloc. destruct (Z.eqb_spec typ 0) as [->|Hne]; [by apply Hskip|].
  destruct (Z.eqb_spec typ 10) as [->|H10].
  { apply (Hdo 8%nat (fun old => wrap 64 (to_signed 64 old + d))); [done|lia|]. intros x.
    rewrite wrap_to_signed. apply (le_bytes_wrap 8). }
  destruct (Z.eqb_spec typ 3) as [->|H3].
  { apply (Hdo 4%nat (fun old => wrap 32 (wrap 64 (old + d)))); [done|lia|]. intros x.
    rewrite wrap_wrap_le by lia. apply (le_bytes_wrap 4). }
  destruct (Z.eqb_spec typ 2) as [->|H2].
  { apply (Hdo 2%nat (fun old => wrap 16 (wrap 64 (old + wrap 64 d)))); [done|lia|]. intros x.
    rewrite wrap_add_wrap_r, wrap_wrap_le by lia. apply (le_bytes_wrap 2). }
  apply Hskip. unfold width. destruct (Z.eqb_spec typ 10), (Z.eqb_spec typ 3), (Z.eqb_spec typ 2); done.
Qed.

(** Changing the protection of whole pages of the image. *)
Definition set_prot (start len p : Z) (pr : Z -> Z) (i : Z) : Z := if in_range start len i then p else pr i.

Definition all_wx_free (pr : Z -> Z) : Prop := forall i, wx_free (pr i) = true.

(** The kernel grants every protection change on mapped pages. *)
Definition grants : Prop := forall a len p (w : W),
  a mod page_size = 0 -> len mod page_size = 0 ->
  (forall x, a <= x < a + len -> prot_at w x <> None) -> fst (sys_mprotect a len p w) = 0.

Lemma mprotect_holds w f pr start len p :
  holds w f pr -> start mod page_size = 0 -> len mod page_size = 0 -> 0 <= start -> start + len <= size img ->
  wx_free p = true -> all_wx_free pr ->
  exists rc w', mprotect (E:=MapError) (base img + start) len p w = (Ok rc, w') /\
    (rc = 0 -> holds w' f (set_prot start len p pr)) /\ (grants -> rc = 0) /\
    exists pr', holds w' f pr' /\ all_wx_free pr'.
Proof.
  intros Hm Hs Hl H0 Hn Hp Hpr. unfold mprotect.
  destruct (protect_range_spec w0 w (base img) (size img) f pr start len p Hm) as [Hok (pr' & Hm' & Hpr')]; [done..|].
  destruct (sys_mprotect (base img + start) len p w) as [rc w'] eqn:E. exists rc, w'. simpl in *.
  split_and!; [done|done| |].
  - intros Hg. specialize (Hg (base img + start) len p w). rewrite E in Hg. apply Hg; [|done|].
    + apply aligned_add; [apply page_pos|done..].
    + intros x Hx. replace x with (base img + (x - base img)) by lia.
      destruct (mapped_in _ _ _ _ _ _ (x - base img) Hm) as [_ ->]; [lia|done].
  - exists pr'. split; [done|]. intros i. destruct (Hpr' i) as [-> | ->]; [apply Hpr|done].
Qed.

(** The pages that an entry's eight bytes lie on. *)
Definition span_start (rva : Z) : Z := round_down rva page_size.
Definition span_len (rva : Z) : Z := round_up (rva + 8) page_size - span_start rva.

Lemma span_spec rva : 0 <= rva -> rva + 8 <= size img ->
  0 <= span_start rva <= rva /\ rva + 8 <= span_start rva + span_len rva <= size img /\
  span_start rva mod page_size = 0 /\ span_len rva mod page_size = 0 /\
  unprotect_span img pe (base img + rva) 8 page_size =
    (base img + span_start rva, span_len rva, restore_prot pe (wrap 32 rva)).
Proof.
  intros H0 Hn. unfold span_len, span_start. pose proof page_pos as Hpos. pose proof page_shift_range as Hshift.
  assert (Hpow : 2 ^ page_shift <= 2 ^ 30) by (apply Z.pow_le_mono_r; lia).
  rewrite page_size_shift in *.
  destruct (round_down_spec rva page_shift) as (Hd1 & Hd2 & Hd3); [lia..|].
  destruct (round_up_spec (rva + 8) page_shift) as (Hu1 & Hu2); [lia..|].
  assert (Hu3 : round_up (rva + 8) (2 ^ page_shift) <= size img) by (apply round_up_le; [lia|lia|done|lia]).
  split_and!; [lia..|done|by apply aligned_sub|]. unfold unprotect_span.
  fold (round_down (base img + rva) (2 ^ page_shift)). rewrite round_down_shift by (lia || done).
  rewrite <- Z.add_assoc, round_up_shift by (lia || done).
  unfold sat_sub. replace (Z.max 0 (base img + rva - base img)) with rva by lia.
  repeat (f_equal; try lia).
Qed.

(** One entry inside the image: the bytes of the entry are relocated, whatever
    the kernel answers to the restoring call. *)
Lemma patch_entry_holds w f pr typ rva :
  holds w f pr -> all_wx_free pr -> 0 <= rva -> rva + 8 <= size img ->
  match patch_entry img pe d (typ, rva) w with
  | (Ok _, w') => exists pr', holds w' (patch d f (typ, rva)) pr' /\ all_wx_free pr' /\
      (grants -> forall i, pr' i = set_prot (span_start rva) (span_len rva) (restore_prot pe (wrap 32 rva)) pr i)
  | (Err (MprotectFailed _ _ _), w') => ~ grants /\ exists pr', holds w' f pr' /\ all_wx_free pr'
  | _ => False
  end.
Proof.
  intros Hm Hpr H0 Hn. unfold patch_entry, rva_to_ptr. destruct (Z.ltb_spec rva (size img)); [|lia].
  destruct (span_spec rva H0 Hn) as (Hs1 & Hs2 & Hs3 & Hs4 & ->).
  destruct (mprotect_holds w f pr (span_start rva) (span_len rva) prot_rw) as (rc & w1 & Hw1 & Hok & Hg & Hfail);
    [done..|lia|lia|done|done|].
  rewrite (mbind_ok _ _ _ _ _ Hw1). destruct (Z.eqb_spec rc 0) as [->|Hne]; cbn [negb]; cbv iota.
  2:{ split; [|done]. intros Hgr. by apply Hne, Hg. }
  destruct (apply_one_reloc_holds w1 f _ typ rva (Hok eq_refl)) as (w2 & Hw2 & Hm2); [done|done| |].
  { intros j Hj. unfold set_prot. by rewrite (proj2 (in_range_spec _ _ _)) by lia. }
  rewrite (mbind_ok _ _ _ _ _ Hw2). set (pr2 := set_prot _ _ _ _) in Hm2.
  assert (Hpr2 : all_wx_free pr2) by (intros i; unfold pr2, set_prot; by destruct (in_range _ _ _)).
  destruct (mprotect_holds w2 _ pr2 (span_start rva) (span_len rva) (restore_prot pe (wrap 32 rva)) Hm2)
    as (rc3 & w3 & Hw3 & Hok3 & Hg3 & pr3 & Hm3 & Hpr3); [done..|lia|lia|apply restore_prot_wx_free|done|].
  rewrite (mbind_ok _ _ _ _ _ Hw3). unfold mret. destruct (Z.eqb_spec rc3 0) as [->|Hne3].
  - eexists. split_and!; [exact (Hok3 eq_refl)| |].
    + intros i. unfold set_prot at 1. destruct (in_range _ _ _); [apply restore_prot_wx_free|apply Hpr2].
    + intros _ i. unfold pr2, set_prot. by destruct (in_range _ _ _).
  - exists pr3. split_and!; [done|done|]. intros Hgr. destruct Hne3. auto.
Qed.

(** Entries whose eight bytes lie inside the image when the first one does. *)
Definition fits (e : Z * Z) : Prop := 0 <= snd e /\ (snd e < size img -> snd e + 8 <= size img).

(** The protections after the entries, when the kernel grants every change. *)
Definition reprotected (es : list (Z * Z)) (pr : Z -> Z) : Z -> Z :=
  foldl (fun pr e => set_prot (span_start (snd e)) (span_len (snd e)) (restore_prot pe (wrap 32 (snd e))) pr) pr es.

Lemma reprotected_ext es pr pr' i :
  (forall i, pr i = pr' i) -> reprotected es pr i = reprotected es pr' i.
Proof.
  revert pr pr'. induction es as [|e es IH]; intros pr pr' H; [apply H|].
  apply IH. intros j. unfold set_prot. by rewrite H.
Qed.

Lemma patch_all_holds es w f pr :
  holds w f pr -> all_wx_free pr -> Forall fits es ->
  match patch_all img pe d es w with
  | (Ok _, w') => Forall (fun e => snd e < size img) es /\
      exists pr', holds w' (relocate d es f) pr' /\ all_wx_free pr' /\
        (grants -> forall i, pr' i = reprotected es pr i)
  | (Err (RelocRvaOutOfRange r), w') => exists es1 t es2 pr', es = es1 ++ (t, r) :: es2 /\ size img <= r /\
      holds w' (relocate d es1 f) pr' /\ all_wx_free pr'
  | (Err (MprotectFailed _ _ _), w') => ~ grants /\ exists es1 es2 pr', es = es1 ++ es2 /\
      holds w' (relocate d es1 f) pr' /\ all_wx_free pr'
  | _ => False
  end.
Proof.
  intros Hm Hpr Hall. revert w f pr Hm Hpr. induction Hall as [|[typ rva] es [Hr0 Hfit] Hall IH]; intros w f pr Hm Hpr.
  { split; [done|]. by exists pr. }
  cbn [patch_all]. simpl in Hr0, Hfit. destruct (Z.lt_ge_cases rva (size img)) as [Hlt|Hge].
  2:{ unfold mbind, patch_entry, rva_to_ptr. destruct (Z.ltb_spec rva (size img)); [lia|].
      by exists [], typ, es, pr. }
  pose proof (patch_entry_holds w f pr typ rva Hm Hpr Hr0 (Hfit Hlt)) as H. unfold mbind.
  destruct (patch_entry img pe d (typ, rva) w) as [[[]|[]| |] w1]; try done.
  2:{ destruct H as (Hg & pr' & Hm' & Hpr'). split; [done|]. by exists [], ((typ, rva) :: es), pr'. }
  destruct H as (pr1 & Hm1 & Hpr1 & Hex). specialize (IH w1 _ pr1 Hm1 Hpr1).
  destruct (patch_all img pe d es w1) as [[[]|[]| |] w2]; try done.
  - destruct IH as (Hlts & pr2 & Hm2 & Hpr2 & Hex2). split; [by constructor|]. exists pr2. split_and!; [done|done|].
    intros Hg i. rewrite Hex2 by done. apply (reprotected_ext es pr1). by apply Hex.
  - destruct IH as (Hg & es1 & es2 & pr2 & -> & Hm2 & Hpr2). split; [done|]. by exists ((typ, rva) :: es1), es2, pr2.
  - destruct IH as (es1 & t & es2 & pr2 & -> & Hle & Hm2 & Hpr2). by exists ((typ, rva) :: es1), t, es2, pr2.
Qed.
End Patching.

(** ** The relocated image *)

Lemma word_at_ext f g n a : (forall i, a <= i < a + Z.of_nat n -> f i = g i) -> word_at f n a = word_at g n a.
Proof.
  intros H. unfold word_at. f_equal. apply map_ext_in. intros i Hi.
  apply list_elem_of_In, elem_of_seqZ in Hi. by apply H.
Qed.

Definition site (e : Z * Z) (i : Z) : bool := in_range (snd e) (Z.of_nat (width (fst e))) i.

(** No byte is patched by both entries. *)
Definition disjoint_sites (e e' : Z * Z) : Prop := forall i, site e i = true -> site e' i = false.

Lemma patch_outside d f e i : site e i = false -> patch d f e i = f i.
Proof. destruct e as [t r]. unfold site, patch. simpl. by intros ->. Qed.

Lemma word_at_patch d f t r : word_at (patch d f (t, r)) (width t) r = wrap (8 * Z.of_nat (width t)) (word_at f (width t) r + d).
Proof.
  rewrite <- le_val_bytes. unfold word_at at 1. f_equal. apply list_eq. intros k. rewrite list_lookup_fmap.
  destruct (decide (k < width t)%nat) as [Hk|Hk].
  - rewrite lookup_seqZ_lt by lia. simpl. rewrite (proj2 (in_range_spec _ _ _)) by lia.
    replace (Z.to_nat (r + Z.of_nat k - r)) with k by lia.
    destruct (lookup_lt_is_Some_2 (le_bytes (width t) (word_at f (width t) r + d)) k) as [x Hx].
    { by rewrite le_bytes_length. }
    by rewrite Hx, nth_lookup, Hx.
  - rewrite lookup_seqZ_ge by lia. symmetry. apply lookup_ge_None. rewrite le_bytes_length. lia.
Qed.

Lemma relocate_outside d es f i : Forall (fun e => site e i = false) es -> relocate d es f i = f i.
Proof.
  intros Hall. revert f. induction Hall as [|e es He Hall IH]; intros f; [done|].
  unfold relocate in *. cbn [foldl]. by rewrite IH, patch_outside.
Qed.

Lemma relocate_app d es1 es2 f : relocate d (es1 ++ es2) f = relocate d es2 (relocate d es1 f).
Proof. apply foldl_app. Qed.

Lemma relocate_cons d e es f : relocate d (e :: es) f = relocate d es (patch d f e).
Proof. done. Qed.

(** A site that no other entry touches moves by [d]. *)
Lemma relocate_site d es1 t r es2 f :
  Forall (disjoint_sites (t, r)) (es1 ++ es2) ->
  word_at (relocate d (es1 ++ (t, r) :: es2) f) (width t) r =
    wrap (8 * Z.of_nat (width t)) (word_at f (width t) r + d).
Proof.
  intros Hall. apply Forall_app in Hall as [H1 H2].
  assert (Hskip : forall es g, Forall (disjoint_sites (t, r)) es ->
    word_at (relocate d es g) (width t) r = word_at g (width t) r).
  { intros es g H. apply word_at_ext. intros i Hi. apply relocate_outside. eapply Forall_impl; [exact H|].
    intros e He. apply He. unfold site. simpl. by apply in_range_spec. }
  rewrite relocate_app, relocate_cons.
  by rewrite (Hskip es2), word_at_patch, (Hskip es1).
Qed.

(** Taking the entries back in reverse order restores the image. *)
Lemma patch_undo d f e i : (forall j, is_byte (f j)) -> patch (- d) (patch d f e) e i = f i.
Proof.
  intros Hf. destruct (site e i) eqn:E; [|by rewrite !patch_outside].
  destruct e as [t r]. unfold site in E. simpl in E. unfold patch at 1. rewrite E, word_at_patch.
  rewrite <- le_bytes_wrap, wrap_add_wrap_l, le_bytes_wrap.
  replace (word_at f (width t) r + d + - d) with (word_at f (width t) r) by lia.
  assert (Hl : length (map f (seqZ r (Z.of_nat (width t)))) = width t) by (rewrite length_map, length_seqZ; lia).
  unfold word_at. rewrite <- Hl at 1. rewrite le_bytes_val.
  - apply in_range_spec in E. rewrite nth_lookup, list_lookup_fmap, lookup_seqZ_lt by lia. simpl. f_equal. lia.
  - apply Forall_map, Forall_forall. intros x _. apply Hf.
Qed.

Lemma patch_ext d f g e : (forall j, f j = g j) -> forall i, patch d f e i = patch d g e i.
Proof.
  intros H i. destruct e as [t r]. unfold patch. rewrite (word_at_ext f g) by (intros; apply H). by rewrite H.
Qed.

Lemma patch_byte d f e : (forall j, is_byte (f j)) -> forall j, is_byte (patch d f e j).
Proof.
  intros Hf j. destruct e as [t r]. unfold patch. destruct (in_range _ _ j) eqn:R; [|apply Hf].
  apply in_range_spec in R. rewrite nth_lookup.
  destruct (le_bytes _ _ !! _) as [x|] eqn:Hx; [|by cbv].
  eapply Forall_lookup_1 in Hx; [done|apply le_bytes_range].
Qed.

Lemma relocate_ext d es f g : (forall j, f j = g j) -> forall i, relocate d es f i = relocate d es g i.
Proof.
  revert f g. induction es as [|e es IH]; intros f g H; [exact H|]. intros i. rewrite !relocate_cons.
  apply IH. by apply patch_ext.
Qed.

(** ** The table of an image *)

(** The entries that [apply_relocations] has to process, and whether their table
    is well-formed to its end; [None] when the directory is outside the file. *)
Definition reloc_work (parse_pe : list Z -> option PE) (img : MappedImage) (bytes : list Z) (dir : DataDirectory)
    : option (list (Z * Z) * bool) :=
  if (dir_rva dir =? 0) || (dir_size dir =? 0) || (delta img =? 0) then Some ([], true)
  else
    match rva_to_file_offset parse_pe bytes (dir_rva dir) with
    | None => None
    | Some off =>
        if Z.of_nat (length bytes) <? off + dir_size dir then None
        else Some (reloc_table (slice (Z.to_nat off) (Z.to_nat (off + dir_size dir)) bytes))
    end.

(** A mapping as [map_image] makes them. *)
Definition image_ok `{HostLaws W} (img : MappedImage) : Prop :=
  0 < base img /\ base img mod page_size = 0 /\ base img + size img <= 2 ^ 63 /\
  0 < size img < 2 ^ 34 /\ size img mod page_size = 0.

Section Application.
Context `{HW : Host W} `{HL : !HostLaws W}.
Context (w0 : W) (img : MappedImage) (pe : PE) (parse_pe : list Z -> option PE).
Context (Hok : image_ok img).

(** The code is the processing of the work list. *)
Lemma apply_relocations_work bytes dir w :
  apply_relocations parse_pe img bytes pe dir w =
    match reloc_work parse_pe img bytes dir with
    | None => (Err (RelocDirOutOfRange (dir_rva dir)), w)
    | Some (es, ok) => (patch_all img pe (delta img) es ;;;
        if ok then mret tt else mfail RelocBlockOverflow) w
    end.
Proof.
  unfold apply_relocations, reloc_work. destruct (_ || _); [done|]. simpl orb.
  destruct (delta img =? 0); [done|]. destruct (rva_to_file_offset _ _ _) as [off|]; [|done].
  destruct (_ <? _); [done|]. set (rb := slice _ _ bytes).
  rewrite (reloc_blocks_walk _ _ _ _ rb 0 (length rb)) by lia. rewrite drop_0.
  fold (reloc_table rb). by destruct (reloc_table rb).
Qed.

(** What relocating promises, for a work list whose entries fit. Success: the
    table is well-formed, all targets are inside, the image holds exactly the
    relocated bytes, and the touched pages have their sections' protection again
    when the kernel grants the changes. An error leaves the entries before it
    applied and nothing else. *)
Definition reloc_post (es : list (Z * Z)) (ok : bool) (f pr : Z -> Z) (r : outcome MapError unit * W) : Prop :=
  match r with
  | (Ok _, w') => ok = true /\ Forall (fun e => snd e < size img) es /\
      exists pr', holds w0 img w' (relocate (delta img) es f) pr' /\ all_wx_free pr' /\
        (grants (W:=W) -> forall i, pr' i = reprotected pe es pr i)
  | (Err RelocBlockOverflow, w') => ok = false /\
      exists pr', holds w0 img w' (relocate (delta img) es f) pr' /\ all_wx_free pr'
  | (Err (RelocRvaOutOfRange r), w') => exists es1 t es2 pr', es = es1 ++ (t, r) :: es2 /\
      size img <= r /\ holds w0 img w' (relocate (delta img) es1 f) pr' /\ all_wx_free pr'
  | (Err (MprotectFailed _ _ _), w') => ~ grants (W:=W) /\ exists es1 es2 pr', es = es1 ++ es2 /\
      holds w0 img w' (relocate (delta img) es1 f) pr' /\ all_wx_free pr'
  | _ => False
  end.

Lemma apply_relocations_spec bytes dir w f pr :
  holds w0 img w f pr -> all_wx_free pr ->
  match reloc_work parse_pe img bytes dir with
  | None => apply_relocations parse_pe img bytes pe dir w = (Err (RelocDirOutOfRange (dir_rva dir)), w)
  | Some (es, ok) => Forall (fits img) es ->
      reloc_post es ok f pr (apply_relocations parse_pe img bytes pe dir w)
  end.
Proof.
  intros Hm Hpr. rewrite apply_relocations_work.
  destruct (reloc_work parse_pe img bytes dir) as [[es ok]|]; [|done]. intros Hfits.
  destruct Hok as (H1 & H2 & H3 & H4 & H5). unfold reloc_post.
  pose proof (patch_all_holds w0 img pe (delta img) H1 H2 H3 H4 H5 es w f pr Hm Hpr Hfits) as H. unfold mbind.
  destruct (patch_all img pe (delta img) es w) as [[[]|[]| |] w1]; try done.
  destruct H as (Hlt & pr' & Hm' & Hpr' & Hex). destruct ok; simpl; [|by eauto]. split_and!; [done|done|]. by exists pr'.
Qed.

(** ** Import slots *)

(** The slots and values of the resolved imports whose slot is in the image. *)
Definition iat_slots (to_lowercase : string -> string) (resolved : gmap (string * string) Z)
    (imports : list Import) : list (Z * Z) :=
  omap (fun imp => match resolved !! (to_lowercase (imp_dll imp), imp_name imp) with
                   | Some ptr => if wrap 32 (imp_offset imp) <? size img
                                 then Some (wrap 32 (imp_offset imp), ptr) else None
                   | None => None
                   end) imports.

Definition write_slots (slots : list (Z * Z)) (f : Z -> Z) : Z -> Z :=
  foldl (fun f s => write_word f 8 (fst s) (snd s)) f slots.

Lemma write_slots_ext slots f g : (forall j, f j = g j) -> forall i, write_slots slots f i = write_slots slots g i.
Proof.
  revert f g. induction slots as [|s slots IH]; intros f g H; [exact H|]. simpl. apply IH.
  intros j. unfold write_word. by rewrite H.
Qed.

Lemma write_slot_holds w f pr rva ptr :
  grants (W:=W) -> holds w0 img w f pr -> all_wx_free pr -> 0 <= rva -> rva + 8 <= size img ->
  exists w1 w2 pr', mprotect (E:=MapError) (base img + span_start rva) (span_len rva) prot_rw w = (Ok 0, w1) /\
    write_int (E:=MapError) 8 (base img + rva) ptr w1 = (Ok tt, w2) /\
    holds w0 img w2 (write_word f 8 rva ptr) pr' /\ all_wx_free pr'.
Proof.
  intros Hg Hm Hpr H0 Hn. destruct Hok as (H1 & H2 & H3 & H4 & H5).
  destruct (span_spec img pe H1 H2 H3 H4 H5 rva H0 Hn) as (Hs1 & Hs2 & Hs3 & Hs4 & _).
  destruct (mprotect_holds w0 img H2 w f pr (span_start rva) (span_len rva) prot_rw) as (rc & w1 & Hw1 & Hokk & Hgg & _);
    [done..|lia|lia|done|done|]. rewrite (Hgg Hg) in *. specialize (Hokk eq_refl).
  destruct (write_int_holds (E:=MapError) w0 img w1 f _ rva 8 ptr Hokk) as (w2 & Hw2 & Hm2); [lia|lia| |].
  { intros j Hj. unfold set_prot. by rewrite (proj2 (in_range_spec _ _ _)) by lia. }
  exists w1, w2. eexists. split_and!; [done|done|exact Hm2|]. intros i. unfold set_prot. by destruct (in_range _ _ _).
Qed.

Lemma write_iat_spec to_lowercase resolved imports w f pr :
  grants (W:=W) -> holds w0 img w f pr -> all_wx_free pr ->
  Forall (fun s => fst s + 8 <= size img) (iat_slots to_lowercase resolved imports) ->
  exists w' pr', write_iat to_lowercase img imports resolved w = (Ok tt, w') /\
    holds w0 img w' (write_slots (iat_slots to_lowercase resolved imports) f) pr' /\ all_wx_free pr'.
Proof.
  intros Hg. revert w f pr. induction imports as [|imp imports IH]; intros w f pr Hm Hpr Hall; [by exists w, pr|].
  cbn [write_iat]. unfold iat_slots in *. cbn [omap list_omap] in *.
  destruct (resolved !! _) as [ptr|]; [|by eapply IH]. unfold rva_to_ptr.
  set (rva := wrap 32 (imp_offset imp)) in *. destruct (rva <? size img); [|by eapply IH].
  inversion Hall as [|? ? Hlt Hall']; subst. simpl in Hlt.
  assert (H0 : 0 <= rva) by (apply wrap_range; lia). destruct Hok as (H1 & H2 & H3 & H4 & H5).
  destruct (span_spec img pe H1 H2 H3 H4 H5 rva H0 Hlt) as (_ & _ & _ & _ & Hspan).
  unfold unprotect_span in Hspan. injection Hspan as Hstart Hlen _. rewrite Hlen, Hstart.
  destruct (write_slot_holds w f pr rva ptr Hg Hm Hpr H0 Hlt) as (w1 & w2 & pr2 & Hw1 & Hw2 & Hm2 & Hpr2).
  rewrite (mbind_ok _ _ _ _ _ Hw1), (mbind_ok _ _ _ _ _ Hw2). by apply (IH w2 _ pr2).
Qed.
End Application.

(** ** File offsets *)

Lemma section_offset_spec bytes rva secs off :
  section_offset bytes rva secs = Some off ->
  exists sec, sec ∈ secs /\ virtual_address sec <= rva /\ rva - virtual_address sec < size_of_raw_data sec /\
    off = pointer_to_raw_data sec + (rva - virtual_address sec) /\ off < Z.of_nat (length bytes).
Proof.
  induction secs as [|sec secs IH]; [done|]. cbn [section_offset].
  assert (Hrest : section_offset bytes rva secs = Some off -> exists sec', sec' ∈ sec :: secs /\
    virtual_address sec' <= rva /\ rva - virtual_address sec' < size_of_raw_data sec' /\
    off = pointer_to_raw_data sec' + (rva - virtual_address sec') /\ off < Z.of_nat (length bytes)).
  { intros H. destruct (IH H) as (sec' & Hin & ?). exists sec'. split; [by apply list_elem_of_further|done]. }
  destruct (Z.leb_spec (virtual_address sec) rva); [|done]. destruct (rva <? virtual_address sec + _); [|done].
  destruct (Z.ltb_spec (rva - virtual_address sec) (size_of_raw_data sec)); [|done].
  destruct (Z.ltb_spec (pointer_to_raw_data sec + (rva - virtual_address sec)) (Z.of_nat (length bytes))); [|done].
  simpl.
  intros [= <-]. exists sec. split_and!; [apply list_elem_of_here|lia..].
Qed.

(** When one section alone covers an offset, its byte is the image's. *)
Lemma overlay_unique bytes f secs sec i :
  sec ∈ secs -> in_range (virtual_address sec) (virtual_size sec) i = true ->
  (forall sec', sec' ∈ secs -> in_range (virtual_address sec') (virtual_size sec') i = true -> sec' = sec) ->
  Some (overlay bytes f secs i) = section_byte bytes sec i.
Proof.
  intros Hin Hr Huniq. unfold overlay. generalize (f i) as b. induction secs as [|s secs IH] using rev_ind; intros b.
  { by apply elem_of_nil in Hin. }
  rewrite foldl_app. cbn [foldl]. apply elem_of_app in Hin as [Hin|Hin%list_elem_of_singleton].
  - destruct (in_range (virtual_address s) (virtual_size s) i) eqn:Hs.
    + rewrite (Huniq s) by (done || (apply elem_of_app; right; by apply list_elem_of_singleton)).
      unfold section_byte. by rewrite Hr.
    + replace (section_byte bytes s i) with (@None Z) by (unfold section_byte; by rewrite Hs). apply IH; [done|].
      intros sec' Hin'. apply Huniq, elem_of_app. by left.
  - subst s. unfold section_byte. by rewrite Hr.
Qed.

(** ** Properties *)

(** C9. The table is a row of blocks: a page, the size of the block in bytes, and
    16-bit entries with the type in the high four bits. With the image mapped, and the
    eight bytes of every target that starts in it inside it too, the walk over the
    table stops by itself without a fault. It succeeds only on
    a well-formed table with all targets inside; then the image holds exactly the
    relocated bytes, the rest of memory is as before, no page is writable and
    executable, and, when the kernel grants the changes, each touched page has
    the protection of its section again. Every error leaves the entries before it
    applied and nothing else. A target whose bytes cross the end of the image is the
    case of [dir64_past_image_end]: it is patched, over what follows the image. *)
Theorem apply_relocations_correct {W} `{HW : Host W} {HL : HostLaws W} (parse_pe : list Z -> option PE) (w0 w : W) (img : MappedImage)
    (pe : PE) (bytes : list Z) (dir : DataDirectory) (f pr : Z -> Z) :
  image_ok img -> holds w0 img w f pr -> all_wx_free pr ->
  match reloc_work parse_pe img bytes dir with
  | None => apply_relocations parse_pe img bytes pe dir w = (Err (RelocDirOutOfRange (dir_rva dir)), w)
  | Some (es, ok) => Forall (fits img) es ->
      reloc_post w0 img pe es ok f pr (apply_relocations parse_pe img bytes pe dir w)
  end.
Proof. intros. by apply apply_relocations_spec. Qed.

(** A pointer of the image follows the image. When relocation succeeds, a
    64-bit slot of the table that no other entry overlaps and that held the
    preferred base plus [v] holds the actual base plus [v]. *)
Theorem relocated_pointer {W} `{HW : Host W} {HL : HostLaws W} (parse_pe : list Z -> option PE) (w0 w w' : W) (img : MappedImage)
    (pe : PE) (bytes : list Z) (dir : DataDirectory) (f pr : Z -> Z) (es1 es2 : list (Z * Z)) (ok : bool) (r v : Z) :
  image_ok img -> holds w0 img w f pr -> all_wx_free pr ->
  reloc_work parse_pe img bytes dir = Some (es1 ++ (10, r) :: es2, ok) ->
  Forall (fits img) (es1 ++ (10, r) :: es2) -> Forall (disjoint_sites (10, r)) (es1 ++ es2) ->
  apply_relocations parse_pe img bytes pe dir w = (Ok tt, w') ->
  0 <= base img + v < 2 ^ 64 -> word_at f 8 r = wrap 64 (preferred_base img + v) ->
  le_val (get_bytes w' (base img + r) 8) = base img + v.
Proof.
  intros Hok Hm Hpr Hwork Hfits Hdis Happ Hv Hword.
  pose proof (apply_relocations_spec w0 img pe parse_pe Hok bytes dir w f pr Hm Hpr) as H.
  rewrite Hwork, Happ in H. destruct (H Hfits) as (_ & Hlt & pr' & Hm' & _).
  apply Forall_app in Hfits as [_ Hfits], Hlt as [_ Hlt].
  inversion Hfits as [|? ? [Hr0 Hr8]]; inversion Hlt as [|? ? Hr]; subst. cbn [fst snd] in *.
  rewrite (holds_bytes w0 img w' _ pr' r 8 Hm' Hr0 (Hr8 Hr)).
  change (le_val (map ?g (seqZ r 8))) with (word_at g 8 r).
  pose proof (relocate_site (delta img) es1 10 r es2 f Hdis) as Hs. change (width 10) with 8%nat in Hs.
  rewrite Hs, Hword. change (8 * Z.of_nat 8) with 64. rewrite wrap_add_wrap_l. unfold delta.
  rewrite (Z.add_comm (preferred_base img + v)), wrap_to_signed.
  replace (base img - preferred_base img + (preferred_base img + v)) with (base img + v) by lia. by apply wrap_small.
Qed.

(** Relocation is invertible: taking the entries back in reverse order with
    the opposite distance restores every byte, overlapping entries included. *)
Theorem relocate_undo (d : Z) (es : list (Z * Z)) (f : Z -> Z) (i : Z) :
  (forall j, is_byte (f j)) -> relocate (- d) (rev es) (relocate d es f) i = f i.
Proof.
  intros Hf. revert f Hf i. induction es as [|e es IH]; intros f Hf i; [done|].
  cbn [rev]. rewrite relocate_app, relocate_cons, relocate_cons.
  change (relocate (- d) [] ?g) with g. rewrite (patch_ext (- d) _ (patch d f e)); [by apply patch_undo|].
  intros j. apply IH. by apply patch_byte.
Qed.

(** Only the first byte of a target is checked against the image. An entry
    less than eight bytes before the end of an image that another mapping follows
    is accepted, and its eight bytes are rewritten across the end. *)
Theorem dir64_past_image_end {W} `{HW : Host W} {HL : HostLaws W} (img : MappedImage) (pe : PE) (d rva : Z) (w : W) :
  grants (W:=W) -> image_ok img -> image_ok (mkImage (base img) (size img + page_size) (preferred_base img)) ->
  (forall i, 0 <= i < size img + page_size -> exists p, prot_at w (base img + i) = Some p /\ wx_free p = true) ->
  8 <= page_size -> 0 <= rva < size img -> size img < rva + 8 ->
  exists w', patch_entry img pe d (10, rva) w = (Ok tt, w') /\
    get_bytes w' (base img + rva) 8 = le_bytes 8 (le_val (get_bytes w (base img + rva) 8) + d).
Proof.
  intros Hg _ (H1 & H2 & H3 & H4 & H5) Hmap Hpage Hr Hend.
  set (big := mkImage (base img) (size img + page_size) (preferred_base img)) in *.
  set (f := fun i => byte_at w (base img + i)).
  set (pr := fun i => if in_range 0 (size img + page_size) i then default 0 (prot_at w (base img + i)) else 0).
  assert (Hm : holds w big w f pr).
  { intros x. cbn [base size big]. destruct (in_range _ _ x) eqn:R; [|done]. unfold f, pr.
    rewrite (proj2 (in_range_spec 0 _ _)) by ranges. replace (base img + (x - base img)) with x by lia.
    destruct (Hmap (x - base img)) as (p & Hp & _); [ranges|].
    replace (base img + (x - base img)) with x in Hp by lia. by rewrite Hp. }
  assert (Hpr : all_wx_free pr).
  { intros i. unfold pr. destruct (in_range _ _ i) eqn:R; [|done].
    destruct (Hmap i) as (p & -> & Hp); [ranges|done]. }
  pose proof (patch_entry_holds w big pe d H1 H2 H3 H4 H5 w f pr 10 rva Hm Hpr ltac:(lia)
    ltac:(cbn [size big]; lia)) as H.
  assert (Hsame : patch_entry img pe d (10, rva) w = patch_entry big pe d (10, rva) w).
  { unfold patch_entry, rva_to_ptr. cbn [size base big]. rewrite !(proj2 (Z.ltb_lt _ _)) by lia. done. }
  rewrite Hsame. destruct (patch_entry big pe d (10, rva) w) as [[[]|[]| |] w']; try done; [|by destruct H].
  destruct H as (pr' & Hm' & _). exists w'. split; [done|].
  pose proof (holds_bytes w big w' _ pr' rva 8 Hm' ltac:(lia) ltac:(cbn [size big]; lia)) as Hb.
  cbn [base big] in Hb. rewrite Hb. pose proof (word_at_patch d f 10 rva) as Hword.
  change (width 10) with 8%nat in Hword. unfold word_at at 1 in Hword. change (Z.of_nat 8) with 8 in Hword.
  rewrite <- (le_bytes_val (map (patch d f (10, rva)) (seqZ rva 8))).
  - rewrite Hword, length_map, length_seqZ. change (8 * 8) with (8 * Z.of_nat 8). rewrite le_bytes_wrap.
    unfold word_at. change (Z.of_nat 8) with 8. do 3 f_equal. unfold get_bytes, f.
    apply list_eq. intros k. rewrite !list_lookup_fmap. destruct (decide (Z.of_nat k < 8)).
    + rewrite !lookup_seqZ_lt by lia. simpl. f_equal. f_equal. lia.
    + by rewrite !lookup_seqZ_ge by lia.
  - apply Forall_map, Forall_forall. intros x _. apply patch_byte. intros j. apply byte_at_range.
Qed.

(** When the kernel grants the changes and the slots fit, binding writes
    the resolved address into every resolved import's slot and nothing else. An
    unresolved import or a slot outside the image is skipped. *)
Theorem write_iat_correct {W} `{HW : Host W} {HL : HostLaws W} (to_lowercase : string -> string) (resolved : gmap (string * string) Z)
    (imports : list Import) (w0 w : W) (img : MappedImage) (f pr : Z -> Z) :
  image_ok img -> grants (W:=W) -> holds w0 img w f pr -> all_wx_free pr ->
  Forall (fun s => fst s + 8 <= size img) (iat_slots img to_lowercase resolved imports) ->
  exists w' pr', write_iat to_lowercase img imports resolved w = (Ok tt, w') /\
    holds w0 img w' (write_slots (iat_slots img to_lowercase resolved imports) f) pr' /\ all_wx_free pr'.
Proof. intros. by eapply (write_iat_spec w0 img (mkPE None [])). Qed.

(** The file offset of an RVA is inside the file and holds the byte that the
    mapped image has at the RVA, when one section alone covers it: reading the
    relocation table from the file is reading it from the image. *)
Theorem file_offset_reads_image (parse_pe : list Z -> option PE) (bytes : list Z) (pe : PE) (o : OptionalHeader)
    (rva off : Z) :
  parse_pe bytes = Some pe -> Forall section_ok (sections pe) ->
  rva_to_file_offset parse_pe bytes rva = Some off ->
  (exists sec, sec ∈ sections pe /\ in_range (virtual_address sec) (virtual_size sec) rva = true) ->
  (forall sec sec', sec ∈ sections pe -> sec' ∈ sections pe ->
    in_range (virtual_address sec) (Z.max (virtual_size sec) (size_of_raw_data sec)) rva = true ->
    in_range (virtual_address sec') (Z.max (virtual_size sec') (size_of_raw_data sec')) rva = true -> sec = sec') ->
  0 <= off < Z.of_nat (length bytes) /\ nth (Z.to_nat off) bytes 0 = image_byte bytes pe o rva.
Proof.
  intros Hparse Hsecs Hoff (sec & Hin & Hr) Huniq. unfold rva_to_file_offset in Hoff. rewrite Hparse in Hoff.
  apply section_offset_spec in Hoff as (sec' & Hin' & Hva & Hraw & -> & Hlen).
  assert (sec' = sec) as -> by (apply Huniq; try done; apply in_range_spec; ranges).
  rewrite Forall_forall in Hsecs. destruct (Hsecs sec Hin) as (_ & _ & _ & Hptr & _). unfold is_u32 in Hptr.
  split; [lia|]. apply (inj Some). unfold image_byte. rewrite (overlay_unique _ _ _ sec); [|done|done|].
  - unfold section_byte. rewrite Hr, (proj2 (Z.ltb_lt _ _)) by done. done.
  - intros sec'' Hin'' Hr''. apply Huniq; try done; apply in_range_spec; ranges.
Qed.

(** ** Witnesses

    A library linked for 8192 and loaded at 4096: one pointer in read-only data,
    and the table that names it. *)

Definition demo_dll : PE :=
  mkPE (Some (mkOptionalHeader 48 8192 0))
    [mkSection (Some ".rdata"%string) 16 16 16 0 MEM_READ;
     mkSection (Some ".reloc"%string) 12 32 12 16 MEM_READ].

Definition demo_dll_bytes : list Z :=
  le_bytes 8 (8192 + 32) ++ replicate 8 0 ++ le_bytes 4 16 ++ le_bytes 4 12 ++ le_bytes 2 0xA000 ++ le_bytes 2 0.

Definition demo_dll_img : MappedImage := mkImage 4096 48 8192.
Definition demo_dll_dir : DataDirectory := mkDir 32 12.
Definition demo_parse (_ : list Z) : option PE := Some demo_dll.

Definition demo_dll_world : SmallHost.World := snd (map_image_anywhere demo_dll_bytes demo_dll SmallHost.empty).

Definition demo_f : Z -> Z := image_byte demo_dll_bytes demo_dll (mkOptionalHeader 48 8192 0).
Definition demo_pr : Z -> Z := image_prot 16 48 demo_dll.

Lemma demo_dll_bytes_ok : Forall is_byte demo_dll_bytes.
Proof. repeat constructor; by cbv. Qed.

Lemma demo_dll_holds : holds SmallHost.empty demo_dll_img demo_dll_world demo_f demo_pr.
Proof.
  assert (Hpe : pe_ok demo_dll) by (split; [repeat constructor|]; by cbv).
  pose proof (map_image_spec demo_dll_bytes demo_dll false SmallHost.empty Hpe demo_dll_bytes_ok) as H.
  unfold demo_dll_world, map_image_anywhere.
  destruct (map_image_with_preferred_base demo_dll_bytes demo_dll false SmallHost.empty) as [r w'] eqn:E.
  assert (Hr : r = Ok demo_dll_img) by (change r with (fst (r, w')); rewrite <- E; by vm_compute).
  subst r. destruct H as (o & [= <-] & _ & _ & _ & _ & _ & Hm). exact Hm.
Qed.

Lemma demo_dll_img_ok : image_ok (W:=SmallHost.World) demo_dll_img.
Proof. by vm_compute. Qed.

Lemma demo_pr_wx_free : all_wx_free demo_pr.
Proof. intros i. by apply reprotect_wx_free. Qed.

Lemma demo_work : reloc_work demo_parse demo_dll_img demo_dll_bytes demo_dll_dir = Some ([(10, 16)], true).
Proof. by vm_compute. Qed.

Lemma small_host_grants : grants (W:=SmallHost.World).
Proof.
  intros a len p w Ha Hl Hmap. change page_size with 16 in *. simpl. unfold SmallHost.mprotect.
  destruct (forallb _ _) eqn:E; [done|]. exfalso. apply not_true_iff_false in E. apply E, forallb_forall.
  intros g Hg%list_elem_of_In. destruct (SmallHost.prots w !! g) eqn:Hw; [done|].
  apply (SmallHost.elem_pages a len (16 * g)) in Ha as Hiff; [|done].
  rewrite Z.mul_comm, Z.div_mul in Hiff by lia. apply Hiff in Hg. apply Hmap in Hg. simpl in Hg.
  by rewrite Z.div_mul in Hg by lia.
Qed.

Lemma apply_relocations_correct_witness :
  exists es ok, reloc_work demo_parse demo_dll_img demo_dll_bytes demo_dll_dir = Some (es, ok) /\
    reloc_post SmallHost.empty demo_dll_img demo_dll es ok demo_f demo_pr
      (apply_relocations demo_parse demo_dll_img demo_dll_bytes demo_dll demo_dll_dir demo_dll_world).
Proof.
  exists [(10, 16)], true. split; [apply demo_work|].
  pose proof (apply_relocations_correct demo_parse SmallHost.empty demo_dll_world demo_dll_img demo_dll
    demo_dll_bytes demo_dll_dir demo_f demo_pr demo_dll_img_ok demo_dll_holds demo_pr_wx_free) as H.
  rewrite demo_work in H. apply H. by repeat constructor.
Defined.

Lemma relocated_pointer_witness :
  exists w', apply_relocations demo_parse demo_dll_img demo_dll_bytes demo_dll demo_dll_dir demo_dll_world = (Ok tt, w') /\
    le_val (get_bytes w' (base demo_dll_img + 16) 8) = base demo_dll_img + 32.
Proof.
  destruct (apply_relocations demo_parse demo_dll_img demo_dll_bytes demo_dll demo_dll_dir demo_dll_world) as [r w'] eqn:E.
  assert (Hr : r = Ok tt) by (change r with (fst (r, w')); rewrite <- E; by vm_compute). subst r.
  exists w'. split; [done|].
  pose proof (relocated_pointer demo_parse SmallHost.empty demo_dll_world w' demo_dll_img demo_dll demo_dll_bytes demo_dll_dir
    demo_f demo_pr [] [] true 16 32 demo_dll_img_ok demo_dll_holds demo_pr_wx_free) as H.
  assert (H1 : Forall (fits demo_dll_img) ([] ++ (10, 16) :: [])) by (by repeat constructor).
  assert (H2 : word_at demo_f 8 16 = wrap 64 (preferred_base demo_dll_img + 32)) by (by vm_compute).
  specialize (H demo_work H1 (Forall_nil_2 _) E).
  assert (H3 : 0 <= base demo_dll_img + 32 < 2 ^ 64) by (simpl; lia).
  specialize (H H3).
  specialize (H H2).
  exact H.
Defined.

Lemma relocate_undo_witness :
  relocate 4096 [(3, 2); (10, 0)] (relocate (-4096) [(10, 0); (3, 2)] (fun i => i mod 256)) 3 = 3.
Proof.
  apply (relocate_undo (-4096) [(10, 0); (3, 2)] (fun i => i mod 256) 3). intros j. apply Z.mod_pos_bound. lia.
Defined.

(** An image of one page, followed by another mapping of the process. *)
Definition demo_two_pages : SmallHost.World := snd (sys_mmap 0 32 false SmallHost.empty).

Lemma dir64_past_image_end_witness :
  exists w', patch_entry (mkImage 4096 16 8192) (mkPE None []) (2 ^ 40) (10, 12) demo_two_pages = (Ok tt, w') /\
    get_bytes w' (4096 + 12) 8 = [0; 0; 0; 0; 0; 1; 0; 0].
Proof.
  apply (dir64_past_image_end (mkImage 4096 16 8192) (mkPE None []) (2 ^ 40) 12 demo_two_pages small_host_grants);
    try (by vm_compute).
  intros i Hi. change (size (mkImage 4096 16 8192) + page_size) with 32 in Hi. exists prot_rw. split; [|done].
  change (SmallHost.prots demo_two_pages !! ((4096 + i) / 16) = Some prot_rw).
  assert (Hd : (4096 + i) / 16 = 256 \/ (4096 + i) / 16 = 257).
  { pose proof (Z.div_mod (4096 + i) 16 ltac:(lia)). pose proof (Z.mod_pos_bound (4096 + i) 16 ltac:(lia)). lia. }
  destruct Hd as [-> | ->]; by vm_compute.
Defined.

Lemma write_iat_correct_witness :
  exists w' pr', write_iat (fun s => s) demo_dll_img [mkImport "k.dll" "f" 24; mkImport "k.dll" "g" 40]
      {[("k.dll"%string, "f"%string) := 77]} demo_dll_world = (Ok tt, w') /\
    holds SmallHost.empty demo_dll_img w' (write_slots [(24, 77)] demo_f) pr' /\ all_wx_free pr'.
Proof.
  assert (Hs : iat_slots demo_dll_img (fun s => s) {[("k.dll"%string, "f"%string) := 77]}
    [mkImport "k.dll" "f" 24; mkImport "k.dll" "g" 40] = [(24, 77)]) by (by vm_compute).
  rewrite <- Hs.
  apply (write_iat_correct (fun s => s) {[("k.dll"%string, "f"%string) := 77]}
    [mkImport "k.dll" "f" 24; mkImport "k.dll" "g" 40] SmallHost.empty demo_dll_world demo_dll_img demo_f demo_pr
    demo_dll_img_ok small_host_grants demo_dll_holds demo_pr_wx_free).
  rewrite Hs. by repeat constructor.
Defined.

Lemma file_offset_reads_image_witness :
  rva_to_file_offset demo_parse demo_dll_bytes 32 = Some 16 /\
  nth 16 demo_dll_bytes 0 = image_byte demo_dll_bytes demo_dll (mkOptionalHeader 48 8192 0) 32.
Proof.
  split; [by vm_compute|].
  apply (file_offset_reads_image demo_parse demo_dll_bytes demo_dll (mkOptionalHeader 48 8192 0) 32 16);
    [done|by repeat constructor|by vm_compute| |].
  - exists (mkSection (Some ".reloc"%string) 12 32 12 16 MEM_READ). split; [|done].
    apply list_elem_of_further, list_elem_of_here.
  - intros sec sec' Hin Hin'. repeat (apply elem_of_cons in Hin as [-> | Hin]; [|]); try (by apply elem_of_nil in Hin);
      repeat (apply elem_of_cons in Hin' as [-> | Hin']; [|]); try (by apply elem_of_nil in Hin'); done.
Defined.
