(* ===== verification/PeTls.v ===== *)
(** * Static TLS and TLS callbacks ([crates/pe-loader/src/tls.rs])

    Reading the TLS directory of a mapped image, seeding the per-thread block and
    publishing the slot index, and collecting the callbacks. The image is read
    and written through the host's memory; a load outside of it is a fault. *)
From Stdlib Require Import ZArith Lia String.
From stdpp Require Import base list option.
From S2P Require Import Prelude PeHost PeImage PeReloc.
Local Open Scope rust_scope.
Local Open Scope Z_scope.
Set Warnings "-register-all".

Record TlsDirectory := mkTls {
  raw_data_start : Z;
  raw_data_end : Z;
  address_of_index : Z;
  address_of_callbacks : Z;
  size_of_zero_fill : Z
}.

Definition raw_size (dir : TlsDirectory) : Z := sat_sub (raw_data_end dir) (raw_data_start dir).

(** The sum wraps in a build without overflow checks. *)
Definition block_size (dir : TlsDirectory) : Z := wrap 64 (raw_size dir + size_of_zero_fill dir).

Inductive TlsError :=
  | OutOfBounds (rva : Z)
  | Malformed (start end_ : Z).

(** The owned bytes of the block; the slot array holds their address. *)
Record TlsBlock := mkTlsBlock { tls_data : list Z }.

Definition TLS_DIR_SIZE : Z := 40.
Definition MAX_CALLBACKS : nat := 64.

Section Tls.
Context `{HW : Host W}.

Definition T (A : Type) : Type := M W TlsError A.

Definition read_tls_directory (base image_size rva : Z) : T TlsDirectory :=
  if (rva =? 0) || (image_size <? rva + TLS_DIR_SIZE) then mfail (OutOfBounds rva)
  else
    let p := base + rva in
    let! start := read_int 8 p in
    let! end_ := read_int 8 (p + 8) in
    let! index := read_int 8 (p + 16) in
    let! callbacks := read_int 8 (p + 24) in
    let! zero_fill := read_int 4 (p + 32) in
    if end_ <? start then mfail (Malformed start end_)
    else mret (mkTls start end_ index callbacks zero_fill).

(** [vec![0u8; n]]: a length over [isize::MAX] is a capacity-overflow panic. *)
Definition vec_zeroed (n : Z) : T (list Z) :=
  if i64_max <? n then mpanic else mret (replicate (Z.to_nat n) 0).

Definition init_static_tls (base image_size image_base : Z) (dir : TlsDirectory) : T TlsBlock :=
  let! data := vec_zeroed (Z.max (block_size dir) 1) in
  let raw := raw_size dir in
  let! data :=
    (if 0 <? raw then
       let template_rva := sat_sub (raw_data_start dir) image_base in
       if image_size <? wrap 64 (template_rva + raw) then mfail (OutOfBounds (wrap 32 template_rva))
       else
         let! template := load (base + template_rva) raw in
         mret (template ++ drop (Z.to_nat raw) data)
     else mret data) in
  (if negb (address_of_index dir =? 0) then
     let index_rva := sat_sub (address_of_index dir) image_base in
     if wrap 64 (index_rva + 4) <=? image_size then write_int 4 (base + index_rva) 0
     else mfail (OutOfBounds (wrap 32 index_rva))
   else mret tt) ;;;
  mret (mkTlsBlock data).

(** The walk over the callback array: at most [n] slots. *)
Fixpoint callbacks_loop (base image_size image_base : Z) (n : nat) (rva : Z) (out : list Z) : T (list Z) :=
  match n with
  | O => mret out
  | S n =>
      if image_size <? wrap 64 (rva + 8) then mret out
      else
        let! va := read_int 8 (base + rva) in
        if va =? 0 then mret out
        else
          let target_rva := sat_sub va image_base in
          if image_size <=? target_rva then callbacks_loop base image_size image_base n (rva + 8) out
          else callbacks_loop base image_size image_base n (rva + 8) (out ++ [base + target_rva])
  end.

Definition collect_callbacks (base image_size image_base : Z) (dir : TlsDirectory) : T (list Z) :=
  if address_of_callbacks dir =? 0 then mret []
  else callbacks_loop base image_size image_base MAX_CALLBACKS (sat_sub (address_of_callbacks dir) image_base) [].
End Tls.

(** ** What the directory says *)

(** The directory structure at [rva] of an image with bytes [f]. *)
Definition tls_at (f : Z -> Z) (rva : Z) : TlsDirectory :=
  mkTls (word_at f 8 rva) (word_at f 8 (rva + 8)) (word_at f 8 (rva + 16)) (word_at f 8 (rva + 24)) (word_at f 4 (rva + 32)).

(** The addresses in the callback array at [rva]: up to a null, the end of the
    image or [n] slots. *)
Fixpoint callback_vas (f : Z -> Z) (image_size : Z) (n : nat) (rva : Z) : list Z :=
  match n with
  | O => []
  | S n =>
      if image_size <? rva + 8 then []
      else if word_at f 8 rva =? 0 then []
      else word_at f 8 rva :: callback_vas f image_size n (rva + 8)
  end.

(** The callbacks to run, in order: those whose address is not past the image. An
    address below the base counts as the base. *)
Definition callback_targets (base image_size : Z) (vas : list Z) : list Z :=
  map (fun va => base + sat_sub va base) (List.filter (fun va => sat_sub va base <? image_size) vas).

Section Proofs.
Context `{HW : Host W} `{HL : !HostLaws W}.
Context (w0 : W) (img : MappedImage) (Hok : image_ok img).

(** The image holds [f] on readable pages. *)
Definition readable (w : W) (f pr : Z -> Z) : Prop :=
  holds w0 img w f pr /\ forall i, 0 <= i < size img -> prot_r (pr i) = true.

Lemma load_holds {E} w f pr i n : readable w f pr -> 0 <= i -> i + n <= size img ->
  load (E:=E) (base img + i) n w = (Ok (map f (seqZ i n)), w).
Proof.
  intros [Hm Hr] Hi Hn. rewrite load_ok.
  - by rewrite (holds_bytes w0 img w f pr i n Hm).
  - intros x Hx. unfold may. replace x with (base img + (x - base img)) by lia.
    destruct (mapped_in _ _ _ _ _ _ (x - base img) Hm) as [_ ->]; [lia|]. apply Hr. lia.
Qed.

Lemma read_int_readable {E} n w f pr i : readable w f pr -> 0 <= i -> i + Z.of_nat n <= size img ->
  read_int (E:=E) n (base img + i) w = (Ok (word_at f n i), w).
Proof. intros. unfold read_int. by rewrite (mbind_ok _ _ _ _ _ (load_holds w f pr i _ H H0 H1)). Qed.

Lemma word_at_range f n i : (forall j, is_byte (f j)) -> 0 <= word_at f n i < 2 ^ (8 * Z.of_nat n).
Proof.
  intros Hf. unfold word_at. pose proof (le_val_range (map f (seqZ i (Z.of_nat n)))) as H.
  rewrite length_map, length_seqZ, Nat2Z.id in H. apply H, Forall_map, Forall_forall. auto.
Qed.

Lemma read_tls_directory_spec w f pr rva : readable w f pr -> 0 <= rva ->
  read_tls_directory (base img) (size img) rva w =
    (if (rva =? 0) || (size img <? rva + 40) then Err (OutOfBounds rva)
     else if raw_data_end (tls_at f rva) <? raw_data_start (tls_at f rva)
          then Err (Malformed (raw_data_start (tls_at f rva)) (raw_data_end (tls_at f rva)))
          else Ok (tls_at f rva), w).
Proof.
  intros Hm Hrva. unfold read_tls_directory. change TLS_DIR_SIZE with 40.
  destruct (rva =? 0); [done|]. simpl orb. destruct (Z.ltb_spec (size img) (rva + 40)); [done|].
  cbn [orb]. cbv beta iota zeta. rewrite <- !Z.add_assoc.
  rewrite (mbind_ok _ _ _ _ _ (read_int_readable 8 w f pr rva Hm ltac:(lia) ltac:(lia))).
  rewrite (mbind_ok _ _ _ _ _ (read_int_readable 8 w f pr (rva + 8) Hm ltac:(lia) ltac:(lia))).
  rewrite (mbind_ok _ _ _ _ _ (read_int_readable 8 w f pr (rva + 16) Hm ltac:(lia) ltac:(lia))).
  rewrite (mbind_ok _ _ _ _ _ (read_int_readable 8 w f pr (rva + 24) Hm ltac:(lia) ltac:(lia))).
  rewrite (mbind_ok _ _ _ _ _ (read_int_readable 4 w f pr (rva + 32) Hm ltac:(lia) ltac:(lia))).
  unfold tls_at. simpl. by destruct (_ <? _).
Qed.

Lemma callbacks_loop_spec w f pr n rva out :
  readable w f pr -> (forall j, is_byte (f j)) -> 0 <= rva -> rva + 8 < 2 ^ 64 ->
  callbacks_loop (base img) (size img) (base img) n rva out w =
    (Ok (out ++ callback_targets (base img) (size img) (callback_vas f (size img) n rva)), w).
Proof.
  intros Hm Hf. destruct Hok as (_ & _ & _ & Hsize & _). revert rva out.
  induction n as [|n IH]; intros rva out H0 H64; cbn [callbacks_loop callback_vas].
  { unfold callback_targets. simpl. by rewrite app_nil_r. }
  rewrite wrap_small by lia. destruct (Z.ltb_spec (size img) (rva + 8)).
  { unfold callback_targets. simpl. by rewrite app_nil_r. }
  rewrite (mbind_ok _ _ _ _ _ (read_int_readable 8 w f pr rva Hm H0 ltac:(lia))).
  destruct (Z.eqb_spec (word_at f 8 rva) 0).
  { unfold callback_targets. simpl. by rewrite app_nil_r. }
  unfold callback_targets in *. cbn [List.filter].
  destruct (Z.leb_spec (size img) (sat_sub (word_at f 8 rva) (base img))).
  - rewrite (proj2 (Z.ltb_ge _ _)) by done. apply IH; lia.
  - rewrite (proj2 (Z.ltb_lt _ _)) by done. rewrite IH by lia. cbn [map]. by rewrite <- app_assoc.
Qed.

(** ** The per-thread block *)

(** The fields of a directory read from an image. *)
Definition tls_ok (dir : TlsDirectory) : Prop :=
  0 <= raw_data_start dir <= raw_data_end dir /\ raw_data_end dir < 2 ^ 64 /\
  0 <= address_of_index dir < 2 ^ 64 /\ 0 <= address_of_callbacks dir < 2 ^ 64 /\
  0 <= size_of_zero_fill dir < 2 ^ 32.

(** The template followed by zeros; an empty block still has one byte. *)
Definition tls_template (f : Z -> Z) (base : Z) (dir : TlsDirectory) : list Z :=
  map f (seqZ (sat_sub (raw_data_start dir) base) (raw_size dir)) ++
  replicate (Z.to_nat (Z.max (raw_size dir + size_of_zero_fill dir) 1 - raw_size dir)) 0.

(** The image with the slot index zeroed. *)
Definition publish_index (f : Z -> Z) (base : Z) (dir : TlsDirectory) : Z -> Z :=
  if address_of_index dir =? 0 then f else write_word f 4 (sat_sub (address_of_index dir) base) 0.

Definition index_writable (pr : Z -> Z) (dir : TlsDirectory) : Prop :=
  forall i, in_range (sat_sub (address_of_index dir) (base img)) 4 i = true -> prot_w (pr i) = true.

Lemma init_template_spec w f pr dir :
  readable w f pr -> tls_ok dir -> raw_size dir + size_of_zero_fill dir < 2 ^ 63 ->
  let t := sat_sub (raw_data_start dir) (base img) in
  (let! data := vec_zeroed (Z.max (block_size dir) 1) in
   if 0 <? raw_size dir then
     if size img <? wrap 64 (t + raw_size dir) then mfail (OutOfBounds (wrap 32 t))
     else let! template := load (base img + t) (raw_size dir) in
          mret (template ++ drop (Z.to_nat (raw_size dir)) data)
   else mret data) w =
  (if (0 <? raw_size dir) && (size img <? t + raw_size dir) then Err (OutOfBounds (wrap 32 t))
   else Ok (tls_template f (base img) dir), w).
Proof.
  intros Hm (Hs & He & _ & _ & Hz) Hcap t.
  assert (Ht : 0 <= t /\ t + raw_size dir < 2 ^ 64) by (unfold t, raw_size, sat_sub; destruct Hok; lia).
  assert (Hraw : 0 <= raw_size dir) by (unfold raw_size, sat_sub; lia).
  unfold vec_zeroed, block_size. rewrite (wrap_small 64) by lia. unfold i64_max.
  destruct (Z.ltb_spec (2 ^ 63 - 1) (Z.max (raw_size dir + size_of_zero_fill dir) 1)); [lia|].
  unfold mbind at 1, mret at 1. unfold tls_template. fold t. rewrite wrap_small by lia.
  destruct (Z.ltb_spec 0 (raw_size dir)).
  - cbn [andb]. destruct (Z.ltb_spec (size img) (t + raw_size dir)); [done|].
    rewrite (mbind_ok _ _ _ _ _ (load_holds w f pr t (raw_size dir) Hm ltac:(lia) ltac:(lia))). unfold mret.
    rewrite drop_replicate. do 4 f_equal. lia.
  - cbn [andb]. unfold mret. replace (raw_size dir) with 0 by lia. simpl. do 3 f_equal. lia.
Qed.

Lemma init_static_tls_spec w f pr dir :
  readable w f pr -> 8 <= base img -> tls_ok dir -> index_writable pr dir ->
  raw_size dir + size_of_zero_fill dir < 2 ^ 63 ->
  let t := sat_sub (raw_data_start dir) (base img) in
  let i := sat_sub (address_of_index dir) (base img) in
  if (0 <? raw_size dir) && (size img <? t + raw_size dir) then
    init_static_tls (base img) (size img) (base img) dir w = (Err (OutOfBounds (wrap 32 t)), w)
  else if negb (address_of_index dir =? 0) && (size img <? i + 4) then
    init_static_tls (base img) (size img) (base img) dir w = (Err (OutOfBounds (wrap 32 i)), w)
  else exists w', init_static_tls (base img) (size img) (base img) dir w =
      (Ok (mkTlsBlock (tls_template f (base img) dir)), w') /\
    holds w0 img w' (publish_index f (base img) dir) pr.
Proof.
  intros Hm Hbase Hdir Hw Hcap t i. pose proof (init_template_spec w f pr dir Hm Hdir Hcap) as Htpl. cbv zeta in Htpl.
  destruct Hdir as (Hs & He & Hi & _ & Hz).
  assert (Hassoc : init_static_tls (base img) (size img) (base img) dir w =
    (let! data := (let! data := vec_zeroed (Z.max (block_size dir) 1) in
       if 0 <? raw_size dir then
         if size img <? wrap 64 (t + raw_size dir) then mfail (OutOfBounds (wrap 32 t))
         else let! template := load (base img + t) (raw_size dir) in
              mret (template ++ drop (Z.to_nat (raw_size dir)) data)
       else mret data) in
     (if negb (address_of_index dir =? 0) then
        if wrap 64 (i + 4) <=? size img then write_int 4 (base img + i) 0
        else mfail (OutOfBounds (wrap 32 i))
      else mret tt) ;;; mret (mkTlsBlock data)) w).
  { by rewrite mbind_assoc. }
  rewrite Hassoc. clear Hassoc. fold t in Htpl. destruct ((0 <? raw_size dir) && _).
  { by apply (mbind_err _ _ _ _ _ Htpl). }
  rewrite (mbind_ok _ _ _ _ _ Htpl). unfold publish_index. destruct (address_of_index dir =? 0); cbn [negb andb].
  { exists w. split; [done|apply Hm]. }
  assert (Hi0 : 0 <= i) by (unfold i, sat_sub; lia).
  rewrite wrap_small by (unfold i, sat_sub in *; lia).
  destruct (Z.leb_spec (i + 4) (size img)).
  - rewrite (proj2 (Z.ltb_ge _ _)) by lia.
    destruct (write_int_holds (E:=TlsError) w0 img w f pr i 4 0 (proj1 Hm)) as (w' & Hw' & Hm'); [lia|lia| |].
    { intros j Hj. apply Hw, in_range_spec. fold i. lia. }
    exists w'. split; [|exact Hm']. by rewrite (mbind_ok _ _ _ _ _ Hw').
  - by rewrite (proj2 (Z.ltb_lt _ _)) by lia.
Qed.
End Proofs.

(** A world holds its own memory. *)
Lemma holds_self {W} `{HW : Host W} (w : W) (img : MappedImage) (pr : Z -> Z) :
  (forall i, 0 <= i < size img -> prot_at w (base img + i) = Some (pr i)) ->
  holds w img w (fun i => byte_at w (base img + i)) pr.
Proof.
  intros H x. destruct (in_range _ _ x) eqn:R; [|done].
  replace (base img + (x - base img)) with x by lia. split; [done|].
  rewrite <- H by ranges. f_equal. lia.
Qed.

Lemma callback_vas_length f n k rva : (length (callback_vas f n k rva) <= k)%nat.
Proof.
  revert rva. induction k as [|k IH]; intros rva; simpl; [lia|].
  destruct (_ <? _); [simpl; lia|]. destruct (_ =? 0); simpl; [lia|]. specialize (IH (rva + 8)). lia.
Qed.

(** ** Properties *)

(** Reading the directory never leaves the image: an RVA of zero or too
    close to the end is an error, a template that ends before it starts is an
    error, and otherwise the five fields are the words at the structure's offsets. *)
Theorem read_tls_directory_correct {W} `{HW : Host W} {HL : HostLaws W} (w0 w : W) (img : MappedImage)
    (f pr : Z -> Z) (rva : Z) :
  image_ok img -> readable w0 img w f pr -> 0 <= rva ->
  read_tls_directory (base img) (size img) rva w =
    (if (rva =? 0) || (size img <? rva + 40) then Err (OutOfBounds rva)
     else if raw_data_end (tls_at f rva) <? raw_data_start (tls_at f rva)
          then Err (Malformed (raw_data_start (tls_at f rva)) (raw_data_end (tls_at f rva)))
          else Ok (tls_at f rva), w).
Proof. intros Hok. by apply read_tls_directory_spec. Qed.

(** The per-thread block is the image's template followed by zeros, the slot
    index is published as zero and nothing else is written. A template or an
    index outside the image is an error that changes nothing. *)
Theorem init_static_tls_correct {W} `{HW : Host W} {HL : HostLaws W} (w0 w : W) (img : MappedImage)
    (f pr : Z -> Z) (dir : TlsDirectory) :
  image_ok img -> readable w0 img w f pr -> 8 <= base img -> tls_ok dir -> index_writable img pr dir ->
  raw_size dir + size_of_zero_fill dir < 2 ^ 63 ->
  let t := sat_sub (raw_data_start dir) (base img) in
  let i := sat_sub (address_of_index dir) (base img) in
  if (0 <? raw_size dir) && (size img <? t + raw_size dir) then
    init_static_tls (base img) (size img) (base img) dir w = (Err (OutOfBounds (wrap 32 t)), w)
  else if negb (address_of_index dir =? 0) && (size img <? i + 4) then
    init_static_tls (base img) (size img) (base img) dir w = (Err (OutOfBounds (wrap 32 i)), w)
  else exists w', init_static_tls (base img) (size img) (base img) dir w =
      (Ok (mkTlsBlock (tls_template f (base img) dir)), w') /\
    holds w0 img w' (publish_index f (base img) dir) pr.
Proof. intros. by apply init_static_tls_spec. Qed.

(** The array of callbacks: words in the image up to a null, the end of the image or
    64 of them. *)
Record callback_array (f : Z -> Z) (n start : Z) (vas : list Z) : Prop := {
  ca_words : forall i va, vas !! i = Some va ->
    va = word_at f 8 (start + 8 * Z.of_nat i) /\ va <> 0 /\ start + 8 * Z.of_nat i + 8 <= n;
  ca_max : (length vas <= 64)%nat;
  ca_end : length vas = 64%nat \/ n < start + 8 * Z.of_nat (length vas) + 8 \/ word_at f 8 (start + 8 * Z.of_nat (length vas)) = 0
}.

(** What an address of the array is taken for: one in the image for itself, one
    below the image for its base, one behind it for none. *)
Definition callback_of (b n va : Z) : option Z :=
  if va <? b then Some b else if va <? b + n then Some va else None.

Lemma callback_targets_of b n vas : 0 < n -> callback_targets b n vas = omap (callback_of b n) vas.
Proof.
  intros Hn. unfold callback_targets, sat_sub. induction vas as [|va vas IH]; [done|]. cbn [List.filter omap list_omap].
  unfold callback_of at 1. destruct (Z.ltb_spec va b).
  - rewrite (proj2 (Z.ltb_lt _ _)) by lia. cbn [map]. rewrite IH. f_equal. lia.
  - destruct (Z.ltb_spec va (b + n)); [rewrite (proj2 (Z.ltb_lt _ _)) by lia|rewrite (proj2 (Z.ltb_ge _ _)) by lia; exact IH].
    cbn [map]. rewrite IH. f_equal. lia.
Qed.

Lemma callback_vas_array f n k : forall start,
  (forall i va, callback_vas f n k start !! i = Some va ->
    va = word_at f 8 (start + 8 * Z.of_nat i) /\ va <> 0 /\ start + 8 * Z.of_nat i + 8 <= n) /\
  (length (callback_vas f n k start) = k \/ n < start + 8 * Z.of_nat (length (callback_vas f n k start)) + 8 \/
   word_at f 8 (start + 8 * Z.of_nat (length (callback_vas f n k start))) = 0).
Proof.
  induction k as [|k IH]; intros start; cbn [callback_vas]; [split; [done|by left]|].
  destruct (Z.ltb_spec n (start + 8)); [split; [done|right; left; cbn [length]; lia]|].
  destruct (Z.eqb_spec (word_at f 8 start) 0) as [E|E].
  - split; [done|]. right. right. cbn [length]. by replace (start + 8 * Z.of_nat 0) with start by lia.
  - destruct (IH (start + 8)) as [IH1 IH2]. split.
    + intros [|i] va Hi; [injection Hi as <-; replace (start + 8 * Z.of_nat 0) with start by lia; by split_and!|].
      replace (start + 8 * Z.of_nat (S i)) with (start + 8 + 8 * Z.of_nat i) by lia. by apply IH1.
    + cbn [length]. replace (start + 8 * Z.of_nat (S (length (callback_vas f n k (start + 8))))) with
        (start + 8 + 8 * Z.of_nat (length (callback_vas f n k (start + 8)))) by lia. destruct IH2 as [-> |IH2]; auto.
Qed.

(** C17. The walk over the callback array ends after 64 words, at a null or at the end
    of the image, never reads outside the image, and returns for each word in order what
    [callback_of] takes it for: an address in the image is returned, one behind it is
    skipped, and one below it, which the comment in the code wants skipped too, is
    returned as the base of the image. *)
Theorem collect_callbacks_correct {W} `{HW : Host W} {HL : HostLaws W} (w0 w : W) (img : MappedImage)
    (f pr : Z -> Z) (dir : TlsDirectory) :
  image_ok img -> readable w0 img w f pr -> 8 <= base img -> tls_ok dir -> (forall j, is_byte (f j)) ->
  exists out, collect_callbacks (base img) (size img) (base img) dir w = (Ok out, w) /\
    if address_of_callbacks dir =? 0 then out = []
    else exists vas, callback_array f (size img) (Z.max 0 (address_of_callbacks dir - base img)) vas /\
      out = omap (callback_of (base img) (size img)) vas.
Proof.
  intros Hok Hm Hbase (_ & _ & _ & Hcb & _) Hf. unfold collect_callbacks.
  destruct (address_of_callbacks dir =? 0); [by exists []|].
  rewrite (callbacks_loop_spec w0 img Hok w f pr) by (done || unfold sat_sub; lia). eexists. split; [done|].
  rewrite app_nil_l, callback_targets_of by apply Hok.
  eexists. split; [|reflexivity]. replace (Z.max 0 (address_of_callbacks dir - base img)) with (sat_sub (address_of_callbacks dir) (base img))
    by (unfold sat_sub; lia).
  destruct (callback_vas_array f (size img) 64 (sat_sub (address_of_callbacks dir) (base img))) as [H1 H2].
  split; [exact H1|apply callback_vas_length|exact H2].
Qed.

(** ** Witnesses

    An image of 96 bytes at 4096 with a directory at 8, a template of four bytes
    at 48, the index at 56 and two callbacks at 64, the second below the base. *)

Definition demo_tls_bytes : list Z :=
  replicate 8 0 ++ le_bytes 8 (4096 + 48) ++ le_bytes 8 (4096 + 52) ++ le_bytes 8 (4096 + 56) ++
  le_bytes 8 (4096 + 64) ++ le_bytes 4 2 ++ replicate 4 0 ++ [1; 2; 3; 4] ++ replicate 4 0 ++ replicate 8 9 ++
  le_bytes 8 (4096 + 10) ++ le_bytes 8 5.

Definition demo_tls_img : MappedImage := mkImage 4096 96 4096.
Definition demo_tls_world : SmallHost.World :=
  set_bytes 4096 demo_tls_bytes (snd (sys_mmap 0 96 false SmallHost.empty)).
Definition demo_tls_f (i : Z) : Z := byte_at demo_tls_world (4096 + i).
Definition demo_tls_dir : TlsDirectory := mkTls (4096 + 48) (4096 + 52) (4096 + 56) (4096 + 64) 2.

Lemma demo_tls_ok : image_ok (W:=SmallHost.World) demo_tls_img.
Proof. by vm_compute. Qed.

Lemma demo_tls_readable : readable demo_tls_world demo_tls_img demo_tls_world demo_tls_f (fun _ => prot_rw).
Proof.
  split; [|done]. apply (holds_self demo_tls_world demo_tls_img). intros i Hi. cbn [base size demo_tls_img] in *.
  unfold demo_tls_world. rewrite prot_set_bytes.
  destruct (mmap_ok (W:=SmallHost.World) 0 96 false SmallHost.empty 4096 (snd (sys_mmap 0 96 false SmallHost.empty)))
    as (_ & _ & _ & _ & Hp & _); [lia|done|by vm_compute|].
  rewrite Hp, (proj2 (in_range_spec _ _ _)) by lia. done.
Qed.

Lemma demo_tls_dir_ok : tls_ok demo_tls_dir.
Proof. unfold tls_ok. simpl. lia. Qed.

Lemma read_tls_directory_correct_witness :
  read_tls_directory (base demo_tls_img) (size demo_tls_img) 8 demo_tls_world = (Ok demo_tls_dir, demo_tls_world).
Proof.
  assert (H8 : 0 <= 8) by lia.
  pose proof (read_tls_directory_correct demo_tls_world demo_tls_world demo_tls_img demo_tls_f (fun _ => prot_rw) 8
    demo_tls_ok demo_tls_readable H8) as H.
  assert (Hd : tls_at demo_tls_f 8 = demo_tls_dir) by (by vm_compute). rewrite Hd in H. exact H.
Defined.

Lemma init_static_tls_correct_witness :
  exists w', init_static_tls (base demo_tls_img) (size demo_tls_img) (base demo_tls_img) demo_tls_dir demo_tls_world =
      (Ok (mkTlsBlock [1; 2; 3; 4; 0; 0]), w') /\
    holds demo_tls_world demo_tls_img w' (write_word demo_tls_f 4 56 0) (fun _ => prot_rw).
Proof.
  assert (H8 : 8 <= base demo_tls_img) by (simpl; lia).
  assert (Hc : raw_size demo_tls_dir + size_of_zero_fill demo_tls_dir < 2 ^ 63) by (by vm_compute).
  assert (Hi : index_writable demo_tls_img (fun _ => prot_rw) demo_tls_dir) by done.
  pose proof (init_static_tls_correct demo_tls_world demo_tls_world demo_tls_img demo_tls_f (fun _ => prot_rw) demo_tls_dir
    demo_tls_ok demo_tls_readable H8 demo_tls_dir_ok Hi Hc) as H.
  assert (Ht : tls_template demo_tls_f (base demo_tls_img) demo_tls_dir = [1; 2; 3; 4; 0; 0]) by (by vm_compute).
  cbv zeta in H. rewrite Ht in H. exact H.
Defined.

Lemma collect_callbacks_correct_witness :
  exists out, collect_callbacks (base demo_tls_img) (size demo_tls_img) (base demo_tls_img) demo_tls_dir demo_tls_world =
      (Ok out, demo_tls_world) /\ out = [4096 + 10; 4096].
Proof.
  assert (H8 : 8 <= base demo_tls_img) by (simpl; lia).
  destruct (collect_callbacks_correct demo_tls_world demo_tls_world demo_tls_img demo_tls_f (fun _ => prot_rw) demo_tls_dir
    demo_tls_ok demo_tls_readable H8 demo_tls_dir_ok (fun j => byte_at_range demo_tls_world (4096 + j)))
    as (out & Hout & vas & Hvas & Heq).
  exists out. split; [exact Hout|]. rewrite Heq.
  assert (Hl : vas = [4096 + 10; 5]).
  { destruct Hvas as [Hw _ He]. assert (H0 : word_at demo_tls_f 8 64 = 4096 + 10) by (vm_compute; reflexivity).
    assert (H1 : word_at demo_tls_f 8 72 = 5) by (vm_compute; reflexivity).
    change (Z.max 0 (address_of_callbacks demo_tls_dir - base demo_tls_img)) with (8 * 8) in Hw, He. change (size demo_tls_img) with 96 in Hw, He.
    assert (H2 : word_at demo_tls_f 8 80 = 0) by (vm_compute; reflexivity).
    destruct vas as [|v0 [|v1 [|v2 vas]]].
    - exfalso. cbn [length] in He. destruct He as [He|[He|He]]; [discriminate He|lia|].
      change (8 * 8 + 8 * Z.of_nat 0) with 64 in He. rewrite H0 in He. discriminate He.
    - exfalso. cbn [length] in He. destruct He as [He|[He|He]]; [discriminate He|lia|].
      change (8 * 8 + 8 * Z.of_nat 1) with 72 in He. rewrite H1 in He. discriminate He.
    - destruct (Hw 0%nat v0 eq_refl) as [-> _]. destruct (Hw 1%nat v1 eq_refl) as [-> _].
      change (8 * 8 + 8 * Z.of_nat 0) with 64. change (8 * 8 + 8 * Z.of_nat 1) with 72. rewrite H0, H1. reflexivity.
    - exfalso. destruct (Hw 2%nat v2 eq_refl) as [Hv [Hn _]]. change (8 * 8 + 8 * Z.of_nat 2) with 80 in Hv. congruence. }
  rewrite Hl. reflexivity.
Defined.
