(* ===== verification/PeSeh.v ===== *)
(** * Exception tables and unwinding ([crates/pe-loader/src/seh.rs])

    The lookup of the function entry for a program counter, by binary search over
    the table in the mapped image, and the virtual unwinder over the unwind codes.
    Both read the process memory of [PeHost.v] through raw pointers. *)
From Stdlib Require Import ZArith Lia.
From stdpp Require Import base list option.
From S2P Require Import Prelude PeHost PeReloc.
Local Open Scope rust_scope.
Local Open Scope Z_scope.
Set Warnings "-register-all".

(** ** The tables *)

(** A [RUNTIME_FUNCTION], 12 bytes of three RVAs. *)
Record RuntimeFunction := mkRF { begin_address : Z; end_address : Z; unwind_data : Z }.

Record ExceptionTable := mkTable { et_base : Z; et_count : Z; et_image_base : Z; et_image_size : Z }.

(** The global [EXC_TABLE]; [install] replaces it. *)
Definition install (pdata_base count image_base image_size : Z) : option ExceptionTable :=
  Some (mkTable pdata_base count image_base image_size).

Definition get_image_base (table : option ExceptionTable) : option Z := et_image_base <$> table.

(** ** The register file

    The sixteen integer registers in number order and the instruction pointer:
    the 64-bit fields of [Context] from offset 0x78 on. *)
Definition Context : Type := list Z.

Definition RSP : nat := 4.
Definition RIP : nat := 16.

Definition reg (ctx : Context) (i : nat) : Z := nth i ctx 0.
Definition set_reg (ctx : Context) (i : nat) (v : Z) : Context := <[i := v]> ctx.

(** [context.rsp += n]. *)
Definition add_rsp (ctx : Context) (n : Z) : Context := set_reg ctx RSP (wrap 64 (reg ctx RSP + n)).

Definition nonvolatile_offset (r : Z) : option Z :=
  if r =? 3 then Some 0x90 else if r =? 5 then Some 0xA0 else if r =? 6 then Some 0xA8
  else if r =? 7 then Some 0xB0 else if r =? 8 then Some 0xB8 else if r =? 9 then Some 0xC0
  else if r =? 10 then Some 0xC8 else if r =? 11 then Some 0xD0 else if r =? 12 then Some 0xD8
  else if r =? 13 then Some 0xE0 else if r =? 14 then Some 0xE8 else if r =? 15 then Some 0xF0
  else None.

Definition read_reg_by_num (ctx : Context) (r : Z) : Z :=
  if (0 <=? r) && (r <=? 15) then reg ctx (Z.to_nat r) else 0.

(** The 64-bit field at a byte offset of the structure. *)
Definition write_reg_by_offset (ctx : Context) (offset v : Z) : Context :=
  set_reg ctx (Z.to_nat ((offset - 0x78) / 8)) v.

Definition UWOP_PUSH_NONVOL : Z := 0.
Definition UWOP_ALLOC_LARGE : Z := 1.
Definition UWOP_ALLOC_SMALL : Z := 2.
Definition UWOP_SET_FPREG : Z := 3.
Definition UWOP_SAVE_NONVOL : Z := 4.
Definition UWOP_SAVE_NONVOL_FAR : Z := 5.
Definition UWOP_EPILOG : Z := 6.
Definition UWOP_SAVE_XMM128 : Z := 7.
Definition UWOP_SAVE_XMM128_FAR : Z := 8.
Definition UWOP_PUSH_MACHFRAME : Z := 9.

Definition UNW_FLAG_EHANDLER : Z := 1.
Definition UNW_FLAG_UHANDLER : Z := 2.

Section Seh.
Context `{HW : Host W}.

(** No error is returned: a bad pointer is a fault. *)
Definition U (A : Type) : Type := M W Empty_set A.

(** ** Lookup *)

Definition rf_begin (tbl_base i : Z) : U Z := read_int 4 (tbl_base + 12 * i).
Definition rf_end (tbl_base i : Z) : U Z := read_int 4 (tbl_base + 12 * i + 4).

(** The search for the first entry that begins after [rva]. *)
Fixpoint search_loop (fuel : nat) (tbl_base rva lo hi : Z) : U Z :=
  match fuel with
  | O => mnofuel
  | S fuel =>
      if lo <? hi then
        let mid := lo + (hi - lo) / 2 in
        let! b := rf_begin tbl_base mid in
        if b <=? rva then search_loop fuel tbl_base rva (mid + 1) hi
        else search_loop fuel tbl_base rva lo mid
      else mret lo
  end.

Definition lookup_function_entry (table : option ExceptionTable) (pc : Z) : U Z :=
  match table with
  | None => mret 0
  | Some tbl =>
      if (et_count tbl =? 0) || (et_base tbl =? 0) then mret 0
      else if (pc <? et_image_base tbl) || (et_image_base tbl + et_image_size tbl <=? pc) then mret 0
      else
        let rva := wrap 32 (pc - et_image_base tbl) in
        let! lo := search_loop (S (Z.to_nat (et_count tbl))) (et_base tbl) rva 0 (et_count tbl) in
        if lo =? 0 then mret 0
        else
          let! e := rf_end (et_base tbl) (lo - 1) in
          if rva <? e then mret (et_base tbl + 12 * (lo - 1)) else mret 0
  end.

(** ** Unwinding *)

Definition code_slot (codes_base : Z) (i : nat) : U Z := read_int 2 (codes_base + Z.of_nat i * 2).

(** Restores a register from memory when the unwinder tracks it. *)
Definition restore (ctx : Context) (r addr : Z) : U Context :=
  match nonvolatile_offset r with
  | Some off => let! v := read_int 8 addr in mret (write_reg_by_offset ctx off v)
  | None => mret ctx
  end.

(** The code at index [i]: the new context and the next index, [None] when the
    loop breaks on missing operands. *)
Definition unwind_step (codes_base : Z) (i : nat) (ctx : Context) : U (Context * option nat) :=
  let! code := code_slot codes_base i in
  let opcode := Z.land code 0x0F in
  let op_info := Z.land (Z.shiftr code 4) 0x0F in
  let go ctx := mret (ctx, Some i) in
  if opcode =? UWOP_PUSH_NONVOL then
    let! ctx := restore ctx op_info (reg ctx RSP) in go (add_rsp ctx 8)
  else if opcode =? UWOP_ALLOC_SMALL then go (add_rsp ctx (op_info * 8 + 8))
  else if opcode =? UWOP_ALLOC_LARGE then
    if op_info =? 0 then
      match i with
      | O => mret (ctx, None)
      | S i1 => let! slots := code_slot codes_base i1 in mret (add_rsp ctx (slots * 8), Some i1)
      end
    else
      match i with
      | S (S i2) =>
          let! lo := code_slot codes_base (S i2) in
          let! hi := code_slot codes_base i2 in
          mret (add_rsp ctx (Z.lor (Z.shiftl hi 16) lo), Some i2)
      | _ => mret (ctx, None)
      end
  else if opcode =? UWOP_SET_FPREG then go ctx
  else if opcode =? UWOP_SAVE_NONVOL then
    match i with
    | O => mret (ctx, None)
    | S i1 =>
        let! slots := code_slot codes_base i1 in
        let! ctx := restore ctx op_info (wrap 64 (reg ctx RSP + slots * 8)) in
        mret (ctx, Some i1)
    end
  else if opcode =? UWOP_SAVE_NONVOL_FAR then
    match i with
    | S (S i2) =>
        let! lo := code_slot codes_base (S i2) in
        let! hi := code_slot codes_base i2 in
        let! ctx := restore ctx op_info (wrap 64 (reg ctx RSP + Z.lor (Z.shiftl hi 16) lo * 8)) in
        mret (ctx, Some i2)
    | _ => mret (ctx, None)
    end
  else if opcode =? UWOP_SAVE_XMM128 then
    match i with O => mret (ctx, None) | S i1 => mret (ctx, Some i1) end
  else if opcode =? UWOP_SAVE_XMM128_FAR then
    match i with S (S i2) => mret (ctx, Some i2) | _ => mret (ctx, None) end
  else go ctx.

Fixpoint unwind_loop (fuel : nat) (codes_base : Z) (code_idx : nat) (ctx : Context) : U Context :=
  match code_idx with
  | O => mret ctx
  | S i =>
      match fuel with
      | O => mnofuel
      | S fuel =>
          let! r := unwind_step codes_base i ctx in
          match snd r with
          | None => mret (fst r)
          | Some next => unwind_loop fuel codes_base next (fst r)
          end
      end
  end.

(** The result: the handler RVA, the context, and the value stored through
    [establisher_frame] ([frame] says whether that pointer is given). *)
Definition virtual_unwind (function_entry image_base : Z) (ctx : option Context) (frame : bool)
    : U (Z * option Context * option Z) :=
  match ctx with
  | None => mret (0, None, None)
  | Some context =>
      if function_entry =? 0 then mret (0, ctx, None)
      else
        let! unwind_rva := read_int 4 (function_entry + 8) in
        if unwind_rva =? 0 then mret (0, ctx, None)
        else
          let unwind_ptr := image_base + unwind_rva in
          let! version_flags := read_int 1 unwind_ptr in
          let version := Z.land version_flags 0x07 in
          let flags := Z.land (Z.shiftr version_flags 3) 0x1F in
          let! count := read_int 1 (unwind_ptr + 2) in
          let! frame_reg_and_offset := read_int 1 (unwind_ptr + 3) in
          let frame_reg := Z.land frame_reg_and_offset 0x0F in
          let frame_offset := Z.shiftr frame_reg_and_offset 4 in
          if negb (version =? 1) && negb (version =? 2) then mret (0, ctx, None)
          else
            let context :=
              if negb (frame_reg =? 0) then
                set_reg context RSP (wrap 64 (read_reg_by_num context frame_reg - frame_offset * 16))
              else context in
            let! context := unwind_loop (Z.to_nat count) (unwind_ptr + 4) (Z.to_nat count) context in
            let! new_rip := read_int 8 (reg context RSP) in
            let context := add_rsp (set_reg context RIP new_rip) 8 in
            let stored := if frame then Some (reg context RSP) else None in
            if negb (Z.land flags (Z.lor UNW_FLAG_EHANDLER UNW_FLAG_UHANDLER) =? 0) then
              let! handler := read_int 4 (unwind_ptr + (4 + count * 2)) in
              mret (handler, Some context, stored)
            else mret (0, Some context, stored)
  end.
End Seh.

(** ** The lookup, on any table and on a sorted one *)

Section Lookup.
Context {W} `{HW : Host W}.

(** The unsigned [n]-byte integer at an address. *)
Definition word_in (w : W) (n : nat) (a : Z) : Z := le_val (get_bytes w a (Z.of_nat n)).

(** The bytes from [a] on can be read. *)
Definition can_read (w : W) (a n : Z) : Prop := forall x, a <= x < a + n -> may prot_r w x = true.

(** Entry [i] of the table, as the code reads its two bounds. *)
Definition entry_begin (w : W) (tbl : ExceptionTable) (i : Z) : Z := word_in w 4 (et_base tbl + 12 * i).
Definition entry_end (w : W) (tbl : ExceptionTable) (i : Z) : Z := word_in w 4 (et_base tbl + 12 * i + 4).

(** Entry [i] is a function of the image and [pc] lies in it. *)
Definition covers (w : W) (tbl : ExceptionTable) (pc i : Z) : Prop :=
  0 <= i < et_count tbl /\
  et_image_base tbl + entry_begin w tbl i <= pc < et_image_base tbl + entry_end w tbl i.

Definition in_image (tbl : ExceptionTable) (pc : Z) : Prop :=
  et_image_base tbl <= pc < et_image_base tbl + et_image_size tbl.

(** What [lookup_function_entry] asks of the table: it is readable, and the
    offsets of the image fit 32 bits. *)
Record table_ok (w : W) (tbl : ExceptionTable) : Prop := {
  table_base : 0 < et_base tbl;
  table_count : 0 <= et_count tbl;
  table_image : et_image_size tbl <= 2 ^ 32;
  table_read : can_read w (et_base tbl) (12 * et_count tbl)
}.

(** The order the format prescribes: sorted and without overlap. *)
Definition table_sorted (w : W) (tbl : ExceptionTable) : Prop :=
  (forall i, 0 <= i < et_count tbl -> entry_begin w tbl i <= entry_end w tbl i) /\
  (forall i j, 0 <= i -> i < j -> j < et_count tbl -> entry_end w tbl i <= entry_begin w tbl j).

Lemma read_int_in {E} n a w : can_read w a (Z.of_nat n) -> read_int (E:=E) n a w = (Ok (word_in w n a), w).
Proof.
  intros H. unfold read_int. rewrite (mbind_ok _ _ _ _ _ (load_ok _ _ _ H)). done.
Qed.

Lemma can_read_sub w a n b m : can_read w a n -> a <= b -> b + m <= a + n -> can_read w b m.
Proof. intros H H1 H2 x Hx. apply H. lia. Qed.

Variables (w : W) (tbl : ExceptionTable).
Hypothesis Htbl : table_ok w tbl.

Lemma rf_begin_ok i : 0 <= i < et_count tbl -> rf_begin (et_base tbl) i w = (Ok (entry_begin w tbl i), w).
Proof. intros Hi. apply read_int_in, (can_read_sub w _ _ _ _ (table_read _ _ Htbl)); lia. Qed.

Lemma rf_end_ok i : 0 <= i < et_count tbl -> rf_end (et_base tbl) i w = (Ok (entry_end w tbl i), w).
Proof. intros Hi. apply read_int_in, (can_read_sub w _ _ _ _ (table_read _ _ Htbl)); lia. Qed.

(** The search ends between an entry that begins at or before [rva] and one
    that begins after it, whatever the order of the table. *)
Lemma search_loop_spec fuel rva lo hi :
  0 <= lo <= hi -> hi <= et_count tbl -> hi - lo < Z.of_nat fuel ->
  (lo = 0 \/ entry_begin w tbl (lo - 1) <= rva) ->
  (hi = et_count tbl \/ rva < entry_begin w tbl hi) ->
  exists k, search_loop fuel (et_base tbl) rva lo hi w = (Ok k, w) /\ 0 <= k <= et_count tbl /\
    (k = 0 \/ entry_begin w tbl (k - 1) <= rva) /\ (k = et_count tbl \/ rva < entry_begin w tbl k).
Proof.
  revert lo hi. induction fuel as [|fuel IH]; intros lo hi Hr Hc Hf Hlo Hhi; [lia|]. cbn [search_loop].
  destruct (Z.ltb_spec lo hi) as [Hlt|Hge].
  - set (mid := lo + (hi - lo) / 2). assert (lo <= mid < hi) by (unfold mid; Z.to_euclidean_division_equations; lia).
    rewrite (mbind_ok _ _ _ _ _ (rf_begin_ok mid ltac:(lia))).
    destruct (Z.leb_spec (entry_begin w tbl mid) rva).
    + apply IH; try lia. right. by replace (mid + 1 - 1) with mid by lia.
    + apply IH; try lia; auto.
  - exists lo. replace lo with hi in * by lia. by split_and!; try lia.
Qed.

(** The result of a search that ends at [k]. *)
Definition lookup_result (k rva : Z) : Z :=
  if k =? 0 then 0 else if rva <? entry_end w tbl (k - 1) then et_base tbl + 12 * (k - 1) else 0.

Lemma lookup_function_entry_spec pc : in_image tbl pc ->
  exists k, lookup_function_entry (Some tbl) pc w = (Ok (lookup_result k (pc - et_image_base tbl)), w) /\
    0 <= k <= et_count tbl /\ (k = 0 \/ entry_begin w tbl (k - 1) <= pc - et_image_base tbl) /\
    (k = et_count tbl \/ pc - et_image_base tbl < entry_begin w tbl k).
Proof.
  intros Hin. pose proof (table_base _ _ Htbl). pose proof (table_count _ _ Htbl).
  pose proof (table_image _ _ Htbl). unfold in_image in Hin. unfold lookup_function_entry.
  destruct (Z.eqb_spec (et_base tbl) 0) as [|_]; [lia|]. rewrite orb_false_r.
  destruct (Z.eqb_spec (et_count tbl) 0) as [Hz|Hnz].
  { exists 0. split_and!; [done|lia..|]. left. lia. }
  destruct (Z.ltb_spec pc (et_image_base tbl)); [lia|].
  destruct (Z.leb_spec (et_image_base tbl + et_image_size tbl) pc); [lia|]. cbn [orb].
  rewrite wrap_small by lia.
  edestruct (search_loop_spec (S (Z.to_nat (et_count tbl))) (pc - et_image_base tbl) 0 (et_count tbl))
    as (k & Hk & Hrange & Hlo & Hhi); [lia..|by left|by left|].
  exists k. split; [|done]. rewrite (mbind_ok _ _ _ _ _ Hk). unfold lookup_result.
  destruct (Z.eqb_spec k 0) as [->|Hk0]; [done|].
  rewrite (mbind_ok _ _ _ _ _ (rf_end_ok (k - 1) ltac:(lia))). by case_match.
Qed.
End Lookup.

(** C18. [lookup_function_entry] on a table it can read always returns. Whatever
    the order of the table, a non-null result points at an entry whose range
    contains the program counter, and the program counter is in the image. When
    the table is sorted without overlap, the result is the entry that covers the
    program counter, and null exactly when there is none. *)
Theorem lookup_correct {W} `{HW : Host W} (w : W) tbl pc :
  table_ok w tbl ->
  exists r, lookup_function_entry (Some tbl) pc w = (Ok r, w) /\
    (r <> 0 -> in_image tbl pc /\ exists i, r = et_base tbl + 12 * i /\ covers w tbl pc i) /\
    (table_sorted w tbl -> in_image tbl pc -> forall i, covers w tbl pc i -> r = et_base tbl + 12 * i).
Proof.
  intros Htbl. pose proof (table_base _ _ Htbl) as Hb0. pose proof (table_count _ _ Htbl) as Hc0.
  assert (in_image tbl pc \/ ~ in_image tbl pc) as [Hin|Hout] by (unfold in_image; lia).
  - destruct (lookup_function_entry_spec w tbl Htbl pc Hin) as (k & Hk & Hrange & Hlo & Hhi).
    eexists. split; [done|]. unfold lookup_result. unfold covers. split.
    + intros Hr. split; [done|]. exists (k - 1). destruct (Z.eqb_spec k 0); [done|].
      destruct (Z.ltb_spec (pc - et_image_base tbl) (entry_end w tbl (k - 1))); [|done].
      split; [done|]. lia.
    + intros [Hord Hdis] _ i (Hi & Hpc).
      assert (k = i + 1) as ->.
      { destruct (Z.lt_trichotomy k (i + 1)) as [Hlt|[?|Hgt]]; [|done|].
        - destruct Hhi as [?|Hhi]; [lia|]. destruct (decide (k = i)) as [->|]; [lia|].
          pose proof (Hdis k i ltac:(lia) ltac:(lia) ltac:(lia)).
          pose proof (Hord k ltac:(lia)). lia.
        - pose proof (Hdis i (k - 1) ltac:(lia) ltac:(lia) ltac:(lia)). lia. }
      replace (i + 1 - 1) with i by lia. destruct (Z.eqb_spec (i + 1) 0); [lia|].
      destruct (Z.ltb_spec (pc - et_image_base tbl) (entry_end w tbl i)); lia.
  - exists 0. split; [|by split]. unfold lookup_function_entry. case_match; [done|].
    unfold in_image in Hout.
    destruct (Z.ltb_spec pc (et_image_base tbl)); [done|].
    destruct (Z.leb_spec (et_image_base tbl + et_image_size tbl) pc); [done|lia].
Qed.

(** ** Unwinding what a prologue did *)

Section Prologue.

(** The instructions of a prologue an unwind code describes. *)
Inductive prolog_op :=
  | Push (r : Z)
  | SaveAt (r slots : Z)            (* mov [rsp + 8 * slots], r *)
  | SaveFar (r hi lo : Z)
  | AllocSmall (k : Z)              (* sub rsp, 8 * k + 8 *)
  | Alloc (slots : Z)               (* sub rsp, 8 * slots *)
  | AllocHuge (info hi lo : Z)
  | SetFrame (info : Z)
  | SaveXmm (info slots : Z)
  | SaveXmmFar (info hi lo : Z).

Definition nibble (x : Z) : Prop := 0 <= x < 16.
Definition half (x : Z) : Prop := 0 <= x < 2 ^ 16.

Definition op_ok (op : prolog_op) : Prop :=
  match op with
  | Push r => nibble r
  | SaveAt r s => nibble r /\ half s
  | SaveFar r hi lo => nibble r /\ half hi /\ half lo
  | AllocSmall k => nibble k
  | Alloc s => half s
  | AllocHuge i hi lo => nibble i /\ i <> 0 /\ half hi /\ half lo
  | SetFrame i => nibble i
  | SaveXmm i s => nibble i /\ half s
  | SaveXmmFar i hi lo => nibble i /\ half hi /\ half lo
  end.

(** The slots of an operation as the unwinder reads them: the operands come
    before the code, the opcode is the low nibble and the register or the size
    the next one. *)
Definition code (op info : Z) : Z := op + 16 * info.

Definition encode_op (op : prolog_op) : list Z :=
  match op with
  | Push r => [code UWOP_PUSH_NONVOL r]
  | SaveAt r s => [s; code UWOP_SAVE_NONVOL r]
  | SaveFar r hi lo => [hi; lo; code UWOP_SAVE_NONVOL_FAR r]
  | AllocSmall k => [code UWOP_ALLOC_SMALL k]
  | Alloc s => [s; code UWOP_ALLOC_LARGE 0]
  | AllocHuge i hi lo => [hi; lo; code UWOP_ALLOC_LARGE i]
  | SetFrame i => [code UWOP_SET_FPREG i]
  | SaveXmm i s => [s; code UWOP_SAVE_XMM128 i]
  | SaveXmmFar i hi lo => [hi; lo; code UWOP_SAVE_XMM128_FAR i]
  end.

Definition encode (ops : list prolog_op) : list Z := concat (map encode_op ops).

(** How far an operation moves the stack pointer down. *)
Definition op_size (op : prolog_op) : Z :=
  match op with
  | Push _ => 8
  | AllocSmall k => 8 * k + 8
  | Alloc s => 8 * s
  | AllocHuge _ hi lo => 65536 * hi + lo
  | _ => 0
  end.

(** The stack pointer after the operations, from its value at function entry. *)
Definition rsp_after (rsp : Z) (ops : list prolog_op) : Z := rsp - foldr Z.add 0 (map op_size ops).

(** The register an operation stores and where, when the stack pointer is [rsp]
    after it. *)
Definition op_save (rsp : Z) (op : prolog_op) : option (Z * Z) :=
  match op with
  | Push r => Some (r, rsp)
  | SaveAt r s => Some (r, rsp + 8 * s)
  | SaveFar r hi lo => Some (r, rsp + 8 * (65536 * hi + lo))
  | _ => None
  end.

Fixpoint saves (rsp : Z) (ops : list prolog_op) : list (Z * Z) :=
  match ops with
  | [] => []
  | op :: ops =>
      let rsp := rsp - op_size op in
      match op_save rsp op with Some s => s :: saves rsp ops | None => saves rsp ops end
  end.

Lemma rsp_after_snoc rsp ops op : rsp_after rsp (ops ++ [op]) = rsp_after rsp ops - op_size op.
Proof.
  unfold rsp_after. rewrite map_app, foldr_app. simpl.
  enough (forall l x, foldr Z.add x l = foldr Z.add 0 l + x) as H by (rewrite (H _ (_ + 0)); lia).
  induction l as [|y l IH]; simpl; intros x; [lia|]. rewrite IH. lia.
Qed.

Lemma encode_snoc ops op : encode (ops ++ [op]) = encode ops ++ encode_op op.
Proof. unfold encode. rewrite map_app, concat_app. simpl. by rewrite app_nil_r. Qed.

Lemma saves_snoc rsp ops op :
  saves rsp (ops ++ [op]) = saves rsp ops ++
    match op_save (rsp_after rsp ops - op_size op) op with Some s => [s] | None => [] end.
Proof.
  revert rsp. induction ops as [|o ops IH]; intros rsp; cbn [saves app].
  - unfold rsp_after. simpl. rewrite Z.sub_0_r. by case_match.
  - rewrite IH. replace (rsp_after (rsp - op_size o) ops) with (rsp_after rsp (o :: ops))
      by (unfold rsp_after; simpl; lia).
    by case_match.
Qed.

(** *** Codes and registers *)

Lemma code_opcode op info : nibble op -> nibble info -> Z.land (code op info) 0x0F = op.
Proof.
  unfold nibble, code. intros. change 0x0F with (Z.ones 4). rewrite Z.land_ones by lia. change (2 ^ 4) with 16.
  Z.to_euclidean_division_equations. lia.
Qed.

Lemma code_info op info : nibble op -> nibble info -> Z.land (Z.shiftr (code op info) 4) 0x0F = info.
Proof.
  unfold nibble, code. intros. change 0x0F with (Z.ones 4).
  rewrite Z.land_ones, Z.shiftr_div_pow2 by lia. change (2 ^ 4) with 16.
  Z.to_euclidean_division_equations. lia.
Qed.

Lemma lor_halves hi lo : half hi -> half lo -> Z.lor (Z.shiftl hi 16) lo = 65536 * hi + lo.
Proof.
  unfold half. intros Hh Hl. rewrite lor_shiftl_add by lia. lia.
Qed.

(** *** Undoing the operations *)

(** The unwinder restores this register. *)
Definition tracked (r : Z) : bool := match nonvolatile_offset r with Some _ => true | None => false end.

Lemma tracked_spec r off : nonvolatile_offset r = Some off ->
  0 <= r < 16 /\ r <> 4 /\ Z.to_nat ((off - 0x78) / 8) = Z.to_nat r.
Proof.
  unfold nonvolatile_offset. intros H.
  repeat match type of H with context [?a =? ?b] => destruct (Z.eqb_spec a b) as [->|_] end;
    simplify_eq; split_and!; (done || lia).
Qed.

Lemma reg_set_eq ctx i v : (i < length ctx)%nat -> reg (set_reg ctx i v) i = v.
Proof. intros Hi. unfold reg, set_reg, Context in *. apply nth_lookup_Some, list_lookup_insert_eq. done. Qed.

Lemma reg_set_ne ctx i j v : i <> j -> reg (set_reg ctx i v) j = reg ctx j.
Proof. intros Hij. unfold reg, set_reg, Context in *. rewrite !nth_lookup. by rewrite list_lookup_insert_ne. Qed.

Lemma set_reg_length ctx i v : length (set_reg ctx i v) = length ctx.
Proof. apply length_insert. Qed.

Section Undo.
Context {W} `{HW : Host W}.
Variables (w : W) (regs : Context) (rsp0 cb : Z).

(** A saved register is still where the prologue stored it. *)
Definition save_intact (s : Z * Z) : Prop :=
  tracked (fst s) = true ->
  0 <= snd s < 2 ^ 64 /\ can_read w (snd s) 8 /\ word_in w 8 (snd s) = reg regs (Z.to_nat (fst s)).

(** The registers of the saves that the unwinder restores. *)
Definition restored (ss : list (Z * Z)) : list nat :=
  map (fun s => Z.to_nat (fst s)) (List.filter (fun s => tracked (fst s)) ss).

(** [ctx'] is [ctx] with the stack pointer at [rsp] and the registers [rs] as
    in [regs]. *)
Definition undone (rsp : Z) (rs : list nat) (ctx ctx' : Context) : Prop :=
  length ctx' = length ctx /\ reg ctx' RSP = rsp /\
  (forall i, i ∈ rs -> reg ctx' i = reg regs i) /\
  (forall i, i <> RSP -> i ∉ rs -> reg ctx' i = reg ctx i).

Lemma tracked_not_rsp r : tracked r = true -> 0 <= r < 16 /\ Z.to_nat r <> RSP.
Proof.
  unfold tracked. destruct (nonvolatile_offset r) as [off|] eqn:E; [|done]. intros _.
  apply tracked_spec in E as (? & ? & _). unfold RSP. lia.
Qed.

Lemma restored_not_rsp ss i : i ∈ restored ss -> i <> RSP.
Proof.
  intros Hi. apply list_elem_of_fmap in Hi as ([r a] & -> & H).
  apply list_elem_of_In, filter_In in H as [_ H]. by apply tracked_not_rsp.
Qed.

Lemma undone_trans rsp rsp' ss ss' ctx ctx' ctx'' :
  undone rsp' (restored ss') ctx ctx' -> undone rsp (restored ss) ctx' ctx'' ->
  undone rsp (restored (ss ++ ss')) ctx ctx''.
Proof.
  intros (Hl & Hs & Hr & Hk) (Hl' & Hs' & Hr' & Hk').
  assert (restored (ss ++ ss') = restored ss ++ restored ss') as ->
    by (unfold restored; by rewrite List.filter_app, map_app).
  split_and!; [congruence|done|..]; intros i.
  - intros Hin. destruct (decide (i ∈ restored ss)) as [Hin'|Hno]; [by apply Hr'|].
    apply elem_of_app in Hin as [?|Hin]; [done|].
    rewrite Hk'; [by apply Hr|by eapply restored_not_rsp|done].
  - intros Hi Hni. rewrite elem_of_app in Hni. rewrite Hk', Hk; tauto.
Qed.

(** The codes of the function are in memory at [cb]. *)
Definition codes_at (codes : list Z) : Prop :=
  forall i, (i < length codes)%nat -> code_slot cb i w = (Ok (nth i codes 0), w).

Lemma codes_at_prefix c1 c2 : codes_at (c1 ++ c2) -> codes_at c1.
Proof.
  intros H i Hi. rewrite H by (rewrite length_app; lia). by rewrite app_nth1.
Qed.

Lemma codes_at_nth c1 c2 k : codes_at (c1 ++ c2) -> (k < length c2)%nat ->
  code_slot cb (length c1 + k) w = (Ok (nth k c2 0), w).
Proof.
  intros H Hk. rewrite H by (rewrite length_app; lia). rewrite app_nth2 by lia. do 3 f_equal. lia.
Qed.

Lemma restore_ok ctx r a a' : (16 < length ctx)%nat -> save_intact (r, a) -> (0 <= a < 2 ^ 64 -> a' = a) ->
  exists ctx', restore ctx r a' w = (Ok ctx', w) /\ undone (reg ctx RSP) (restored [(r, a)]) ctx ctx'.
Proof.
  intros Hlen Hs Heq. unfold restore. specialize (Hs : tracked r = true -> _). unfold tracked in Hs.
  destruct (nonvolatile_offset r) as [off|] eqn:E.
  - destruct (Hs eq_refl) as (Ha & Hread & Hv). cbn [fst snd] in *. rewrite (Heq Ha).
    rewrite (mbind_ok _ _ _ _ _ (read_int_in 8 a w Hread)). eexists. split; [done|].
    pose proof (tracked_spec _ _ E) as (Hr & Hr4 & Hoff). unfold write_reg_by_offset. rewrite Hoff, Hv.
    assert (restored [(r, a)] = [Z.to_nat r]) as ->.
    { unfold restored. simpl. unfold tracked. by rewrite E. }
    unfold undone. rewrite set_reg_length. split_and!; [done|..].
    + rewrite reg_set_ne; [done|]. unfold RSP. lia.
    + intros i Hi. apply list_elem_of_singleton in Hi as ->. rewrite reg_set_eq by lia. done.
    + intros i Hi Hni. rewrite reg_set_ne; [done|]. intros <-. apply Hni. by apply list_elem_of_singleton.
  - eexists. split; [done|]. unfold restored. simpl. unfold tracked. rewrite E. by split_and!; [..|intros i ?%elem_of_nil|].
Qed.

Lemma undone_add_rsp rsp ss ctx ctx' n : (16 < length ctx)%nat ->
  undone rsp (restored ss) ctx ctx' -> 0 <= rsp + n < 2 ^ 64 ->
  undone (rsp + n) (restored ss) ctx (add_rsp ctx' n).
Proof.
  intros Hlen (Hl & Hs & Hr & Hk) Hn. unfold add_rsp. rewrite Hs, wrap_small by done.
  unfold undone. rewrite set_reg_length, reg_set_eq by (rewrite Hl; unfold RSP; lia).
  split_and!; [done|done|..]; intros i.
  - intros Hi. rewrite reg_set_ne; [by apply Hr|]. intros <-. by eapply restored_not_rsp.
  - intros Hi Hni. rewrite reg_set_ne by done. by apply Hk.
Qed.

Lemma undone_refl ctx : undone (reg ctx RSP) (restored []) ctx ctx.
Proof. by split_and!; [..|intros i ?%elem_of_nil|]. Qed.

(** What the operation saved when the stack pointer is [rsp] after it. *)
Definition save_list (rsp : Z) (op : prolog_op) : list (Z * Z) :=
  match op_save rsp op with Some s => [s] | None => [] end.

(** Reads the slots of one operation and selects the branch of its opcode. *)
Ltac fetch_codes :=
  repeat match goal with
  | H : forall k, (k < _)%nat -> code_slot _ (length ?pre + k) _ = _ |- _ =>
      let H0 := fresh "Hslot" in let H1 := fresh "Hslot" in let H2 := fresh "Hslot" in
      pose proof (H 0%nat) as H0; pose proof (H 1%nat) as H1; pose proof (H 2%nat) as H2;
      clear H; rewrite ?Nat.add_0_r in H0; rewrite ?Nat.add_succ_r, ?Nat.add_0_r in H1;
      rewrite ?Nat.add_succ_r, ?Nat.add_0_r in H2; cbn [nth] in H0, H1, H2
  end;
  rewrite ?Nat.add_succ_r, ?Nat.add_0_r; cbn [Nat.pred];
  repeat match goal with
  | H : _ -> code_slot ?cb ?n ?w = _ |- context [mbind (code_slot ?cb ?n) _ ?w] =>
      rewrite (mbind_ok _ _ _ _ _ (H ltac:(lia)))
  | |- context [Z.land (code ?op ?i) 15] => rewrite (code_opcode op i) by (done || lia)
  | |- context [Z.land (Z.shiftr (code ?op ?i) 4) 15] => rewrite (code_info op i) by (done || lia)
  | |- context [?a =? ?b] =>
      lazymatch a with UWOP_PUSH_NONVOL => idtac | UWOP_ALLOC_SMALL => idtac | UWOP_ALLOC_LARGE => idtac
      | UWOP_SET_FPREG => idtac | UWOP_SAVE_NONVOL => idtac | UWOP_SAVE_NONVOL_FAR => idtac
      | UWOP_SAVE_XMM128 => idtac | UWOP_SAVE_XMM128_FAR => idtac end;
      let v := eval vm_compute in (a =? b) in change (a =? b) with v; cbv iota
  end.

(** One iteration of the loop, at the code of [op], undoes it. *)
Lemma unwind_step_ok pre op ctx :
  (16 < length ctx)%nat -> op_ok op -> codes_at (pre ++ encode_op op) ->
  0 <= reg ctx RSP -> reg ctx RSP + op_size op < 2 ^ 64 -> Forall save_intact (save_list (reg ctx RSP) op) ->
  exists ctx', unwind_step cb (Nat.pred (length pre + length (encode_op op))) ctx w =
      (Ok (ctx', Some (length pre)), w) /\
    undone (reg ctx RSP + op_size op) (restored (save_list (reg ctx RSP) op)) ctx ctx'.
Proof.
  intros Hlen Hop Hcodes Hrsp Hsize Hsaves.
  pose proof (fun k => codes_at_nth pre (encode_op op) k Hcodes) as Hnth. unfold unwind_step.
  destruct op as [r|r s|r hi lo|k|s|i hi lo|i|i s|i hi lo]; cbn [encode_op length op_size] in *;
    unfold save_list in *; cbn [op_save op_ok] in *; destruct_and?; fetch_codes.
  - inversion_clear Hsaves as [|? ? Hs _]. destruct (restore_ok ctx r _ (reg ctx RSP) Hlen Hs ltac:(done)) as (c & Hc & Hu).
    rewrite (mbind_ok _ _ _ _ _ Hc). eexists. split; [done|]. by apply undone_add_rsp; [..|lia].
  - inversion_clear Hsaves as [|? ? Hs _].
    destruct (restore_ok ctx r _ (wrap 64 (reg ctx RSP + s * 8)) Hlen Hs) as (c & Hc & Hu).
    { intros. rewrite wrap_small; lia. }
    rewrite (mbind_ok _ _ _ _ _ Hc). eexists. split; [done|]. by rewrite Z.add_0_r.
  - inversion_clear Hsaves as [|? ? Hs _]. rewrite lor_halves by done.
    destruct (restore_ok ctx r _ (wrap 64 (reg ctx RSP + (65536 * hi + lo) * 8)) Hlen Hs) as (c & Hc & Hu).
    { intros. rewrite wrap_small; lia. }
    rewrite (mbind_ok _ _ _ _ _ Hc). eexists. split; [done|]. by rewrite Z.add_0_r.
  - eexists. split; [done|]. replace (8 * k + 8) with (k * 8 + 8) in * by lia.
    apply undone_add_rsp; [done|apply undone_refl|]. unfold nibble in *. lia.
  - rewrite Z.eqb_refl. fetch_codes. eexists. split; [done|]. replace (8 * s) with (s * 8) in * by lia.
    apply undone_add_rsp; [done|apply undone_refl|]. unfold half in *. lia.
  - destruct (Z.eqb_spec i 0); [done|]. fetch_codes. rewrite lor_halves by done. eexists. split; [done|].
    apply undone_add_rsp; [done|apply undone_refl|]. unfold half in *. lia.
  - eexists. split; [done|]. rewrite Z.add_0_r. apply undone_refl.
  - eexists. split; [done|]. rewrite Z.add_0_r. apply undone_refl.
  - eexists. split; [done|]. rewrite Z.add_0_r. apply undone_refl.
Qed.

Lemma op_size_nonneg op : op_ok op -> 0 <= op_size op.
Proof. destruct op; unfold op_ok, nibble, half; simpl op_size; lia. Qed.

Lemma rsp_after_le ops : Forall op_ok ops -> rsp_after rsp0 ops <= rsp0.
Proof.
  unfold rsp_after. induction 1 as [|op ops Hop _ IH]; simpl; [lia|].
  apply op_size_nonneg in Hop. lia.
Qed.

Lemma encode_op_cons op : exists l c, encode_op op = l ++ [c].
Proof. destruct op; simpl; [exists []|eexists [_]|eexists [_; _]|exists []|eexists [_]|eexists [_; _]|exists []|eexists [_]|eexists [_; _]]; by eexists. Qed.

Lemma unwind_loop_ok ops fuel ctx :
  (length (encode ops) <= fuel)%nat -> (16 < length ctx)%nat -> Forall op_ok ops -> codes_at (encode ops) ->
  reg ctx RSP = rsp_after rsp0 ops -> 0 <= rsp_after rsp0 ops -> rsp0 < 2 ^ 64 ->
  Forall save_intact (saves rsp0 ops) ->
  exists ctx', unwind_loop fuel cb (length (encode ops)) ctx w = (Ok ctx', w) /\
    undone rsp0 (restored (saves rsp0 ops)) ctx ctx'.
Proof.
  revert fuel ctx. induction ops as [|op ops IH] using rev_ind;
    intros fuel ctx Hfuel Hlen Hops Hcodes Hrsp Hpos Hmax Hsaves.
  - exists ctx. split; [by destruct fuel|]. unfold rsp_after in Hrsp. simpl in *.
    replace rsp0 with (reg ctx RSP) by lia. apply undone_refl.
  - rewrite encode_snoc in *. rewrite rsp_after_snoc in *. rewrite saves_snoc in *.
    apply Forall_app in Hops as [Hops Hop]; apply Forall_cons_1 in Hop as [Hop _]. apply Forall_app in Hsaves as [Hsaves Hsave].
    pose proof (rsp_after_le ops Hops) as Hle. pose proof (op_size_nonneg op Hop) as Hsz.
    destruct (unwind_step_ok (encode ops) op ctx) as (c & Hc & Hu); try done; [lia..|by rewrite Hrsp|].
    replace (reg ctx RSP + op_size op) with (rsp_after rsp0 ops) in Hu by lia.
    destruct (encode_op_cons op) as (l & x & Henc).
    assert (length (encode_op op) = S (length l)) as Hlop by (rewrite Henc, length_app; simpl; lia).
    rewrite Hlop, Nat.add_succ_r in Hc. rewrite length_app, Hlop, Nat.add_succ_r in Hfuel |- *.
    cbn [Nat.pred] in Hc.
    destruct fuel as [|fuel]; [lia|]. cbn [unwind_loop].
    rewrite (mbind_ok _ _ _ _ _ Hc). cbn [fst snd]. pose proof Hu as (Hcl & Hcr & _).
    destruct (IH fuel c) as (c' & Hc' & Hu'); try done; [lia|by rewrite Hcl|by eapply codes_at_prefix|lia|].
    exists c'. split; [done|]. eapply undone_trans; [|done]. unfold save_list in Hu. by rewrite <- Hrsp.
Qed.
End Undo.

(** *** The whole unwinder *)

Section Whole.
Context {W} `{HW : Host W}.

(** The [UNWIND_INFO] of a function with prologue [ops], at [ui]: four header
    bytes, the codes, and room for the handler. *)
Record unwind_info_at (w : W) (ui version flags freg foff : Z) (ops : list prolog_op) : Prop := {
  ui_version : version = 1 \/ version = 2;
  ui_flags : 0 <= flags < 32;
  ui_freg : nibble freg;
  ui_foff : nibble foff;
  ui_read : can_read w ui (8 + 2 * Z.of_nat (length (encode ops)));
  ui_byte0 : word_in w 1 ui = version + 8 * flags;
  ui_byte2 : word_in w 1 (ui + 2) = Z.of_nat (length (encode ops));
  ui_byte3 : word_in w 1 (ui + 3) = freg + 16 * foff;
  ui_codes : forall i, (i < length (encode ops))%nat ->
    word_in w 2 (ui + 4 + Z.of_nat i * 2) = nth i (encode ops) 0;
  ui_ops : Forall op_ok ops
}.

(** Where the unwinder finds the stack pointer the prologue left: in the stack
    pointer, or in the frame register plus its offset. *)
Definition frame_at (ctx : Context) (freg foff rsp : Z) : Prop :=
  if freg =? 0 then reg ctx RSP = rsp else reg ctx (Z.to_nat freg) = rsp + 16 * foff.

(** [ctx'] is the caller's context after a return to [ret] with the stack
    pointer at [rsp]: the saved registers as at function entry, in [regs], and
    the others as in [ctx]. *)
Definition caller_context (regs ctx ctx' : Context) (rsp ret : Z) (rs : list nat) : Prop :=
  length ctx' = length ctx /\ reg ctx' RSP = rsp /\ reg ctx' RIP = ret /\
  (forall i, i ∈ rs -> reg ctx' i = reg regs i) /\
  (forall i, i <> RSP -> i <> RIP -> i ∉ rs -> reg ctx' i = reg ctx i).

Lemma restored_lt ss i : i ∈ restored ss -> (i < 16)%nat.
Proof.
  intros Hi. apply list_elem_of_fmap in Hi as ([r a] & -> & H).
  apply list_elem_of_In, filter_In in H as [_ H]. simpl in *. apply tracked_not_rsp in H. lia.
Qed.

Lemma pop_return regs ctx c rsp ret ss : (16 < length ctx)%nat -> 0 <= rsp -> rsp + 8 < 2 ^ 64 ->
  undone regs rsp (restored ss) ctx c ->
  caller_context regs ctx (add_rsp (set_reg c RIP ret) 8) (rsp + 8) ret (restored ss).
Proof.
  intros Hlen Hp Hm (Hl & Hs & Hr & Hk). unfold add_rsp, caller_context.
  rewrite !set_reg_length, reg_set_eq by (rewrite set_reg_length, Hl; unfold RSP; lia).
  rewrite (reg_set_ne _ RIP RSP) by done. rewrite Hs, wrap_small by lia.
  split_and!; [done|done|..].
  - rewrite reg_set_ne, reg_set_eq by (done || (rewrite Hl; unfold RIP; lia)). done.
  - intros i Hi. pose proof (restored_lt _ _ Hi). pose proof (restored_not_rsp _ _ Hi).
    rewrite !reg_set_ne by (unfold RIP; congruence || lia). by apply Hr.
  - intros i H1 H2 Hni. rewrite !reg_set_ne by congruence. by apply Hk.
Qed.

Lemma version_bits version flags : version = 1 \/ version = 2 -> 0 <= flags < 32 ->
  Z.land (version + 8 * flags) 0x07 = version /\ Z.land (Z.shiftr (version + 8 * flags) 3) 0x1F = flags.
Proof.
  intros Hv Hf. change 0x07 with (Z.ones 3). change 0x1F with (Z.ones 5).
  rewrite !Z.land_ones, Z.shiftr_div_pow2 by lia. change (2 ^ 3) with 8. change (2 ^ 5) with 32.
  Z.to_euclidean_division_equations. lia.
Qed.

Lemma frame_bits freg foff : nibble freg -> nibble foff ->
  Z.land (freg + 16 * foff) 0x0F = freg /\ Z.shiftr (freg + 16 * foff) 4 = foff.
Proof.
  unfold nibble. intros. change 0x0F with (Z.ones 4).
  rewrite Z.land_ones, Z.shiftr_div_pow2 by lia. change (2 ^ 4) with 16. Z.to_euclidean_division_equations. lia.
Qed.

(** The context the loop starts from. *)
Lemma start_context w ui version flags freg foff ops ctx rsp :
  unwind_info_at w ui version flags freg foff ops -> (16 < length ctx)%nat ->
  frame_at ctx freg foff rsp -> 0 <= rsp < 2 ^ 64 ->
  exists ctx0, (if negb (freg =? 0) then
      set_reg ctx RSP (wrap 64 (read_reg_by_num ctx freg - foff * 16)) else ctx) = ctx0 /\
    length ctx0 = length ctx /\ reg ctx0 RSP = rsp /\ (forall i, i <> RSP -> reg ctx0 i = reg ctx i).
Proof.
  intros Hui Hlen Hf Hr. pose proof (ui_freg _ _ _ _ _ _ _ Hui) as Hn. unfold nibble in Hn.
  eexists. split; [done|]. unfold frame_at in Hf. destruct (freg =? 0); cbn [negb]; [done|].
  unfold read_reg_by_num. replace (_ && _) with true by lia. rewrite Hf.
  replace (rsp + 16 * foff - foff * 16) with rsp by lia. rewrite wrap_small by done.
  split_and!; [apply set_reg_length|by apply reg_set_eq; unfold RSP; lia|].
  intros i Hi. by rewrite reg_set_ne.
Qed.

Lemma undone_from regs ctx ctx0 rsp rs c :
  length ctx0 = length ctx -> (forall i, i <> RSP -> reg ctx0 i = reg ctx i) ->
  undone regs rsp rs ctx0 c -> undone regs rsp rs ctx c.
Proof.
  intros Hl Hk (H1 & H2 & H3 & H4). split_and!; [congruence|done|done|].
  intros i Hi Hni. rewrite H4 by done. by apply Hk.
Qed.
End Whole.
End Prologue.

(** C19. [virtual_unwind] undoes a prologue. Take a function whose unwind
    information describes, in the layout the code reads, the pushes, the saves,
    the allocations and the frame register of its prologue. From any context in
    its body, with the stack frame where the prologue left it and the saved
    words intact, the result is the context of the caller: the stack pointer
    just above the return address, the instruction pointer at that address,
    every saved register the unwinder tracks with its value at entry, and every
    other register untouched. The handler is the one of the unwind information. The
    establisher frame is the stack pointer after the return address is popped, in every
    case; the comment in the code says it is the frame register, or the stack pointer
    before that pop. *)
Theorem virtual_unwind_restores {W} `{HW : Host W} (w : W) fe ib version flags freg foff ops
    (regs ctx : Context) rsp0 (frame : bool) :
  let ui := ib + word_in w 4 (fe + 8) in
  fe <> 0 -> can_read w (fe + 8) 4 -> word_in w 4 (fe + 8) <> 0 ->
  unwind_info_at w ui version flags freg foff ops ->
  (16 < length ctx)%nat -> frame_at ctx freg foff (rsp_after rsp0 ops) ->
  0 <= rsp_after rsp0 ops -> rsp0 + 8 < 2 ^ 64 -> can_read w rsp0 8 ->
  Forall (save_intact w regs) (saves rsp0 ops) ->
  exists ctx',
    virtual_unwind fe ib (Some ctx) frame w =
      (Ok (if Z.land flags 3 =? 0 then 0 else word_in w 4 (ui + (4 + Z.of_nat (length (encode ops)) * 2)),
           Some ctx', if frame then Some (rsp0 + 8) else None), w) /\
    caller_context regs ctx ctx' (rsp0 + 8) (word_in w 8 rsp0) (restored (saves rsp0 ops)).
Proof.
  intros ui Hfe Hfr Hrva Hui Hlen Hframe Hpos Hmax Hret Hsaves. pose proof (ui_read _ _ _ _ _ _ _ Hui) as Hread.
  assert (forall n a, ui <= a -> a + Z.of_nat n <= ui + (8 + 2 * Z.of_nat (length (encode ops))) ->
    read_int (E:=Empty_set) n a w = (Ok (word_in w n a), w)) as Hrd.
  { intros n a H1 H2. apply read_int_in. by apply (can_read_sub w _ _ _ _ Hread). }
  unfold virtual_unwind. destruct (Z.eqb_spec fe 0) as [|_]; [done|].
  rewrite (mbind_ok _ _ _ _ _ (read_int_in 4 _ w Hfr)).
  destruct (Z.eqb_spec (word_in w 4 (fe + 8)) 0) as [|_]; [done|]. fold ui.
  rewrite (mbind_ok _ _ _ _ _ (Hrd 1%nat ui ltac:(lia) ltac:(lia))).
  rewrite (mbind_ok _ _ _ _ _ (Hrd 1%nat (ui + 2) ltac:(lia) ltac:(lia))).
  rewrite (mbind_ok _ _ _ _ _ (Hrd 1%nat (ui + 3) ltac:(lia) ltac:(lia))).
  rewrite (ui_byte0 _ _ _ _ _ _ _ Hui), (ui_byte2 _ _ _ _ _ _ _ Hui), (ui_byte3 _ _ _ _ _ _ _ Hui).
  pose proof (version_bits _ _ (ui_version _ _ _ _ _ _ _ Hui) (ui_flags _ _ _ _ _ _ _ Hui)) as [-> ->].
  pose proof (frame_bits _ _ (ui_freg _ _ _ _ _ _ _ Hui) (ui_foff _ _ _ _ _ _ _ Hui)) as [-> ->].
  assert (negb (version =? 1) && negb (version =? 2) = false) as -> by (pose proof (ui_version _ _ _ _ _ _ _ Hui); lia).
  rewrite Nat2Z.id. pose proof (rsp_after_le rsp0 ops (ui_ops _ _ _ _ _ _ _ Hui)) as Hle.
  destruct (start_context w ui version flags freg foff ops ctx _ Hui Hlen Hframe ltac:(lia)) as (ctx0 & -> & Hl0 & Hr0 & Hk0).
  destruct (unwind_loop_ok w regs rsp0 (ui + 4) ops (length (encode ops)) ctx0) as (c & Hc & Hu);
    try done; [by rewrite Hl0|apply (ui_ops _ _ _ _ _ _ _ Hui)| |lia|].
  { intros i Hi. unfold code_slot. rewrite Hrd by lia. by rewrite (ui_codes _ _ _ _ _ _ _ Hui). }
  rewrite (mbind_ok _ _ _ _ _ Hc). apply (undone_from _ ctx) in Hu; [|done..]. pose proof Hu as (_ & Hcr & _).
  rewrite Hcr, (mbind_ok _ _ _ _ _ (read_int_in 8 _ w Hret)).
  pose proof (pop_return regs ctx c rsp0 (word_in w 8 rsp0) _ Hlen ltac:(lia) Hmax Hu) as Hpop.
  eexists. split; [|exact Hpop]. pose proof Hpop as (_ & -> & _).
  change (Z.lor UNW_FLAG_EHANDLER UNW_FLAG_UHANDLER) with 3.
  destruct (Z.land flags 3 =? 0); cbn [negb]; [done|].
  by rewrite (mbind_ok _ _ _ _ _ (Hrd 4%nat (ui + (4 + Z.of_nat (length (encode ops)) * 2)) ltac:(lia) ltac:(lia))).
Qed.

(** ** The codes of the Windows toolchain

    A [UNWIND_CODE] holds the prologue offset in its low byte and the operation
    in its high byte, and the last instruction of the prologue comes first. The
    two codes of [push rbx; sub rsp, 0x20] are 0x3205 and 0x3001: the loop takes
    the offset 1 for [UWOP_ALLOC_LARGE] and the other code for its size. *)
Lemma windows_codes_misread {W} `{HW : Host W} (w : W) cb ctx :
  codes_at w cb [0x3205; 0x3001] ->
  unwind_loop 2 cb 2 ctx w = (Ok (add_rsp ctx (0x3205 * 8)), w).
Proof.
  intros H. pose proof (H 0%nat ltac:(simpl; lia)) as H0. pose proof (H 1%nat ltac:(simpl; lia)) as H1.
  cbn [unwind_loop]. unfold unwind_step. rewrite mbind_assoc, (mbind_ok _ _ _ _ _ H1). cbn [nth].
  change (Z.land 0x3001 0x0F) with UWOP_ALLOC_LARGE. change (Z.land (Z.shiftr 0x3001 4) 0x0F) with 0.
  cbn -[add_rsp code_slot Z.mul]. rewrite mbind_assoc, (mbind_ok _ _ _ _ _ H0). reflexivity.
Qed.

(** ** Witnesses

    A process with 128 bytes at 4096: at 0 a table of two functions, at 32 the
    unwind information of [push rbx; sub rsp, 32] with a handler, and a stack
    whose return address is at 112. *)

Definition demo_seh_bytes : list Z :=
  le_bytes 4 0x10 ++ le_bytes 4 0x20 ++ le_bytes 4 32 ++ le_bytes 4 0x30 ++ le_bytes 4 0x40 ++ le_bytes 4 32 ++
  replicate 8 0 ++ [1 + 8 * 1; 5; 2; 0] ++ le_bytes 2 (code UWOP_PUSH_NONVOL 3) ++ le_bytes 2 (code UWOP_ALLOC_SMALL 3) ++
  le_bytes 4 0x1234 ++ replicate 60 0 ++ le_bytes 8 77 ++ le_bytes 8 0x401000 ++ replicate 8 0.

Definition demo_seh_world : SmallHost.World :=
  set_bytes 4096 demo_seh_bytes (snd (sys_mmap 0 128 false SmallHost.empty)).

Lemma demo_seh_read a n : 4096 <= a -> a + n <= 4096 + 128 -> can_read demo_seh_world a n.
Proof.
  intros H1 H2. apply (can_read_sub demo_seh_world 4096 128); [|lia..].
  refine (proj1 (may_all_spec prot_r demo_seh_world 4096 128) _). by vm_compute.
Qed.

Definition demo_table : ExceptionTable := mkTable 4096 2 4096 128.
Definition demo_ops : list prolog_op := [Push 3; AllocSmall 3].
Definition demo_regs : Context := <[3%nat := 77]> (replicate 17 0).
Definition demo_ctx : Context := <[4%nat := 4096 + 72]> (replicate 17 5).

Lemma lookup_correct_witness :
  exists r, lookup_function_entry (Some demo_table) (4096 + 0x35) demo_seh_world = (Ok r, demo_seh_world) /\
    r = 4096 + 12.
Proof.
  assert (Ht : table_ok demo_seh_world demo_table) by (split; [simpl; lia..|by apply demo_seh_read]).
  destruct (lookup_correct demo_seh_world demo_table (4096 + 0x35) Ht) as (r & Hr & _ & Hc).
  exists r. split; [exact Hr|].
  assert (H0 : entry_begin demo_seh_world demo_table 0 = 0x10) by (by vm_compute).
  assert (H1 : entry_begin demo_seh_world demo_table 1 = 0x30) by (by vm_compute).
  assert (H2 : entry_end demo_seh_world demo_table 0 = 0x20) by (by vm_compute).
  assert (H3 : entry_end demo_seh_world demo_table 1 = 0x40) by (by vm_compute).
  assert (Hs : table_sorted demo_seh_world demo_table).
  { split; intros i; [intros Hi|intros j ? ? Hj]; cbn [et_count demo_table] in *.
    - assert (i = 0 \/ i = 1) as [-> | ->] by lia; lia.
    - assert (i = 0) as -> by lia. assert (j = 1) as -> by lia. lia. }
  apply (Hc Hs ltac:(unfold in_image; simpl; lia) 1).
  unfold covers. rewrite H1, H3. simpl. lia.
Defined.

Lemma demo_unwind_info : unwind_info_at demo_seh_world (4096 + 32) 1 1 0 0 demo_ops.
Proof.
  split; [by left|lia|unfold nibble; lia..|by apply demo_seh_read|by vm_compute|by vm_compute|by vm_compute| |].
  - intros i Hi. change (length (encode demo_ops)) with 2%nat in Hi.
    assert (i = 0 \/ i = 1)%nat as [-> | ->] by lia; by vm_compute.
  - repeat constructor; simpl; lia.
Qed.

Lemma virtual_unwind_restores_witness :
  exists ctx', virtual_unwind 4096 4096 (Some demo_ctx) true demo_seh_world =
      (Ok (0x1234, Some ctx', Some (4096 + 120)), demo_seh_world) /\
    caller_context demo_regs demo_ctx ctx' (4096 + 120) 0x401000 [3%nat].
Proof.
  assert (Hrva : word_in demo_seh_world 4 (4096 + 8) = 32) by (by vm_compute).
  assert (Hs : Forall (save_intact demo_seh_world demo_regs) (saves (4096 + 112) demo_ops)).
  { constructor; [|apply Forall_nil]. intros _. split_and!; [simpl; lia..|by apply demo_seh_read|by vm_compute]. }
  assert (Hfe : 4096 <> 0) by lia. assert (Hz : 32 <> 0) by lia.
  pose proof (virtual_unwind_restores demo_seh_world 4096 4096 1 1 0 0 demo_ops demo_regs demo_ctx (4096 + 112) true) as H.
  cbv zeta in H. rewrite Hrva in H.
  assert (Hlen : (16 < length demo_ctx)%nat) by (simpl; lia).
  assert (Hpos : 0 <= rsp_after (4096 + 112) demo_ops) by (by vm_compute).
  assert (Hmax : 4096 + 112 + 8 < 2 ^ 64) by lia.
  assert (Hr1 : can_read demo_seh_world (4096 + 8) 4) by (apply demo_seh_read; lia).
  assert (Hr2 : can_read demo_seh_world (4096 + 112) 8) by (apply demo_seh_read; lia).
  specialize (H Hfe Hr1 Hz demo_unwind_info Hlen eq_refl Hpos Hmax Hr2 Hs) as (ctx' & H & Hc).
  exists ctx'. split; [|exact Hc].
  assert (Hh : word_in demo_seh_world 4 (4096 + 32 + (4 + Z.of_nat (length (encode demo_ops)) * 2)) = 0x1234)
    by (by vm_compute).
  rewrite Hh in H. exact H.
Defined.
