(* ===== verification/NtFutex.v ===== *)
(** * Threads, atomic words and futexes ([crates/ntapi/src/futex.rs])

    The synchronization objects of [sync.rs] are programs over atomic words that
    block in the kernel through [futex_wait] and [futex_wake]. The scheduler, the
    clock and the kernel are not part of the program: they are the events of an
    executable machine, which runs one atomic access of one thread at a time, in
    any order. Atomic accesses are sequentially consistent in the model. *)
From Stdlib Require Import ZArith Lia.
From stdpp Require Import base list option gmap.
From S2P Require Import Prelude.
Local Open Scope Z_scope.
Set Warnings "-register-all".

(** ** Programs *)

(** What a thread at a program point does next. [T] is the local state of a
    thread, [S] the shared words. *)
Inductive action (S T : Type) :=
  (** One access to the shared words. *)
  | Act (f : S -> T * S)
  (** The comparison of [monotonic_ns()] with the deadline. *)
  | Clock (expired go : T)
  (** [futex_wait(word, expected, ..)], then [k]. *)
  | Wait (expected : Z) (k : T)
  (** [futex_wake(word, nr)], then [k]. *)
  | Wake (nr : Z) (k : T)
  (** The call has returned this value. *)
  | Stop (r : Z).
Arguments Act {S T} f.
Arguments Clock {S T} expired go.
Arguments Wait {S T} expected k.
Arguments Wake {S T} nr k.
Arguments Stop {S T} r.

(** An object: its words, the programs of its methods and the local state of a
    thread that has not used it yet. *)
Class Program (S T C : Type) := {
  futex : S -> Z;
  next : Z -> T -> action S T;
  start : C -> T -> T;
  fresh_local : T
}.

(** ** The machine *)

Record thread (T : Type) := mkThread { loc : T; blocked : bool }.
Arguments mkThread {T} loc blocked.
Arguments loc {T} t.
Arguments blocked {T} t.

Record config (S T : Type) := mkConfig { shared : S; threads : gmap Z (thread T) }.
Arguments mkConfig {S T} shared threads.
Arguments shared {S T} c.
Arguments threads {S T} c.

(** [ERun] is the next access or the entry of a wait, [EClock] a clock reading
    (past the deadline or not), [EWake] a wake-up with the threads the kernel
    picks, [EResume] a wait that ends without one: a timeout or a signal. *)
Inductive event (C : Type) :=
  | ECall (t : Z) (m : C)
  | ERun (t : Z)
  | EClock (t : Z) (expired : bool)
  | EWake (t : Z) (woken : list Z)
  | EResume (t : Z).
Arguments ECall {C} t m.
Arguments ERun {C} t.
Arguments EClock {C} t expired.
Arguments EWake {C} t woken.
Arguments EResume {C} t.

Section Machine.
Context {S T C : Type} {P : Program S T C}.

Definition init_config (s : S) : config S T := mkConfig s ∅.

Definition thread_of (c : config S T) (t : Z) : thread T := default (mkThread fresh_local false) (threads c !! t).

Definition upd (c : config S T) (t : Z) (th : thread T) (s : S) : config S T :=
  mkConfig s (<[t := th]> (threads c)).

Definition unblock (ws : list Z) (c : config S T) : config S T :=
  mkConfig (shared c) (foldr (alter (fun th => mkThread (loc th) false)) (threads c) ws).

Definition is_blocked (c : config S T) (t : Z) : bool := blocked (thread_of c t).

(** The kernel wakes [ws] for a wake-up of [nr]: blocked threads, at most [nr],
    and all of the blocked ones when there are fewer. *)
Definition wakes (c : config S T) (nr : Z) (ws : list Z) : bool :=
  bool_decide (NoDup ws) && forallb (is_blocked c) ws && (Z.of_nat (length ws) <=? nr) &&
  ((Z.of_nat (length ws) =? nr) ||
   forallb (fun p => negb (blocked (snd p)) || bool_decide (fst p ∈ ws)) (map_to_list (threads c))).

(** Thread ids are those of the kernel, which are positive. *)
Definition step (e : event C) (c : config S T) : option (config S T) :=
  match e with
  | ECall t m =>
      let th := thread_of c t in
      if (0 <? t) && negb (blocked th) then
        match next t (loc th) with
        | Stop _ => Some (upd c t (mkThread (start m (loc th)) false) (shared c))
        | _ => None
        end
      else None
  | ERun t =>
      let th := thread_of c t in
      if (0 <? t) && negb (blocked th) then
        match next t (loc th) with
        | Act f => let '(l, s) := f (shared c) in Some (upd c t (mkThread l false) s)
        | Wait expected k => Some (upd c t (mkThread k (futex (shared c) =? expected)) (shared c))
        | _ => None
        end
      else None
  | EClock t expired =>
      let th := thread_of c t in
      if (0 <? t) && negb (blocked th) then
        match next t (loc th) with
        | Clock x g => Some (upd c t (mkThread (if expired then x else g) false) (shared c))
        | _ => None
        end
      else None
  | EWake t ws =>
      let th := thread_of c t in
      if (0 <? t) && negb (blocked th) then
        match next t (loc th) with
        | Wake nr k =>
            if wakes c nr ws then Some (unblock ws (upd c t (mkThread k false) (shared c))) else None
        | _ => None
        end
      else None
  | EResume t =>
      if is_blocked c t then Some (unblock [t] c) else None
  end.

(** A sequence of events, when every configuration passes [chk]. *)
Fixpoint run (chk : config S T -> bool) (es : list (event C)) (c : config S T) : option (config S T) :=
  if chk c then
    match es with
    | [] => Some c
    | e :: es => step e c ≫= run chk es
    end
  else None.

(** The configurations reached from [c0] through configurations that satisfy
    the client's contract [K]. *)
Inductive reach (K : config S T -> Prop) (c0 : config S T) : config S T -> Prop :=
  | reach_init : K c0 -> reach K c0 c0
  | reach_step c e c' : reach K c0 c -> step e c = Some c' -> K c' -> reach K c0 c'.

(** ** A thread on its own

    The program run by one thread with no other in between and a deadline that
    has passed: a call with a timeout of zero. *)
Fixpoint solo (fuel : nat) (me : Z) (l : T) (s : S) : option (Z * T * S) :=
  match fuel with
  | O => None
  | Datatypes.S fuel =>
      match next me l with
      | Act f => let '(l, s) := f s in solo fuel me l s
      | Clock x _ => solo fuel me x s
      | Wait _ _ => None
      | Wake _ k => solo fuel me k s
      | Stop r => Some (r, l, s)
      end
  end.

(** ** Steps, case by case *)

(** The move of one thread: its new local state, the new shared words, and
    whether it blocks. *)
Inductive moves (t : Z) (l : T) (s : S) : T -> S -> bool -> Prop :=
  | moves_call m r : next t l = Stop r -> moves t l s (start m l) s false
  | moves_act f : next t l = Act f -> moves t l s (fst (f s)) (snd (f s)) false
  | moves_expired x g : next t l = Clock x g -> moves t l s x s false
  | moves_go x g : next t l = Clock x g -> moves t l s g s false
  | moves_wait e k : next t l = Wait e k -> moves t l s k s (futex s =? e).

Lemma thread_upd_eq c t th s : thread_of (upd c t th s) t = th.
Proof. unfold thread_of. simpl. by rewrite lookup_insert_eq. Qed.

Lemma thread_upd_ne c t u th s : t <> u -> thread_of (upd c t th s) u = thread_of c u.
Proof. intros. unfold thread_of. simpl. by rewrite lookup_insert_ne. Qed.

Lemma thread_unblock ws c t :
  thread_of (unblock ws c) t = mkThread (loc (thread_of c t)) (is_blocked c t && negb (bool_decide (t ∈ ws))).
Proof.
  unfold is_blocked, thread_of. cbn [unblock threads]. induction ws as [|u ws IH]; cbn [foldr].
  - rewrite bool_decide_eq_false_2 by apply not_elem_of_nil. rewrite andb_true_r. by destruct (default _ _).
  - destruct (decide (u = t)) as [->|Hne].
    + rewrite lookup_alter_eq. rewrite (bool_decide_eq_true_2 (t ∈ t :: ws)) by apply list_elem_of_here.
      rewrite andb_false_r. destruct (foldr _ _ ws !! t) as [[]|], (threads c !! t) as [[]|];
        cbn [fmap option_fmap option_map default from_option id loc blocked] in *; by simplify_eq.
    + rewrite lookup_alter_ne, IH by done. do 2 f_equal. f_equal. apply bool_decide_ext.
      rewrite elem_of_cons. split; [by right|]. by intros [->|].
Qed.

Lemma step_cases e c c' : step e c = Some c' ->
  (exists t l s b, 0 < t /\ is_blocked c t = false /\ moves t (loc (thread_of c t)) (shared c) l s b /\
    c' = upd c t (mkThread l b) s) \/
  (exists t, is_blocked c t = true /\ c' = unblock [t] c) \/
  (exists t nr k ws, 0 < t /\ is_blocked c t = false /\ next t (loc (thread_of c t)) = Wake nr k /\
    wakes c nr ws = true /\ c' = unblock ws (upd c t (mkThread k false) (shared c))).
Proof.
  destruct e as [t m|t|t x|t ws|t]; cbn [step]; intros H;
    [..|destruct (is_blocked c t) eqn:Hb; simplify_eq; right; left; by eauto].
  all: destruct ((0 <? t) && negb (blocked (thread_of c t))) eqn:G; [|done];
    apply andb_prop in G as [Ht%Z.ltb_lt Hb%negb_true_iff];
    destruct (next t (loc (thread_of c t))) eqn:N; try done.
  - left. simplify_eq. do 4 eexists. split_and!; [done|done|by eapply moves_call|done].
  - left. pose proof (moves_act t _ (shared c) _ N) as Hm. destruct (f (shared c)). simplify_eq.
    do 4 eexists. by split_and!; [..|done].
  - left. simplify_eq. do 4 eexists. split_and!; [done|done|by eapply moves_wait|done].
  - left. simplify_eq. do 4 eexists. split_and!; [done|done| |done].
    destruct x; [by eapply moves_expired|by eapply moves_go].
  - right. right. destruct (wakes c nr ws) eqn:Hw; simplify_eq. do 4 eexists. by split_and!.
Qed.

Lemma wakes_spec c nr ws : wakes c nr ws = true ->
  NoDup ws /\ (forall u, u ∈ ws -> is_blocked c u = true) /\ Z.of_nat (length ws) <= nr /\
  (Z.of_nat (length ws) = nr \/ forall u, is_blocked c u = true -> u ∈ ws).
Proof.
  unfold wakes. intros H. apply andb_prop in H as [H Hall]. apply andb_prop in H as [H Hle].
  apply andb_prop in H as [Hnd Hbl]. rewrite forallb_forall in Hbl.
  split_and!; [by apply bool_decide_eq_true in Hnd| |lia|].
  - intros u Hu. by apply Hbl, list_elem_of_In.
  - apply orb_prop in Hall as [?|Hall]; [left; lia|right]. rewrite forallb_forall in Hall. intros u Hu.
    unfold is_blocked, thread_of in Hu. destruct (threads c !! u) as [th|] eqn:E; [|done]. simpl in Hu.
    specialize (Hall (u, th)). simpl in Hall. rewrite Hu in Hall. cbn [negb orb] in Hall.
    eapply bool_decide_eq_true_1, Hall, list_elem_of_In. by apply elem_of_map_to_list.
Qed.

Lemma blocked_upd c t u l s b : is_blocked (upd c t (mkThread l b) s) u = if decide (t = u) then b else is_blocked c u.
Proof.
  unfold is_blocked. destruct (decide (t = u)) as [->|]; [by rewrite thread_upd_eq|by rewrite thread_upd_ne].
Qed.

Lemma blocked_unblock ws c u : is_blocked (unblock ws c) u = is_blocked c u && negb (bool_decide (u ∈ ws)).
Proof. unfold is_blocked at 1. by rewrite thread_unblock. Qed.

Lemma loc_unblock ws c u : loc (thread_of (unblock ws c) u) = loc (thread_of c u).
Proof. by rewrite thread_unblock. Qed.

(** *** Sums over the threads *)

(** The sum of [f] over the threads that have made a call. *)
Definition total (f : thread T -> Z) (c : config S T) : Z := map_fold (fun _ th n => f th + n) 0 (threads c).

Lemma total_insert_new f (m : gmap Z (thread T)) t th : m !! t = None ->
  map_fold (fun _ th n => f th + n) 0 (<[t := th]> m) = f th + map_fold (fun _ th n => f th + n) 0 m.
Proof. intros. rewrite map_fold_insert_L; [done|intros; lia|done]. Qed.

Lemma total_upd f c t th s : f (mkThread fresh_local false) = 0 ->
  total f (upd c t th s) = total f c - f (thread_of c t) + f th.
Proof.
  intros Hf. unfold total, thread_of. cbn [upd threads]. destruct (threads c !! t) as [old|] eqn:E; simpl.
  - rewrite <- insert_delete_eq, total_insert_new by apply lookup_delete_eq.
    rewrite <- (insert_delete_id (threads c) t old E) at 2.
    rewrite total_insert_new by apply lookup_delete_eq. lia.
  - rewrite total_insert_new by done. lia.
Qed.

Lemma unblock_cons u ws c : is_blocked c u = true -> u ∉ ws ->
  unblock (u :: ws) c = upd (unblock ws c) u (mkThread (loc (thread_of c u)) false) (shared c).
Proof.
  intros Hb Hu. pose proof (thread_unblock ws c u) as Ht. rewrite Hb, bool_decide_eq_false_2 in Ht by done.
  unfold unblock, upd in *. cbn [foldr shared threads]. f_equal. unfold thread_of at 1 in Ht. cbn [threads] in Ht.
  apply map_eq. intros v. destruct (decide (u = v)) as [<-|Hne].
  - rewrite lookup_alter_eq, lookup_insert_eq. destruct (foldr _ _ ws !! u) as [th|] eqn:E; simpl in *; [by subst|].
    discriminate Ht.
  - by rewrite lookup_alter_ne, lookup_insert_ne.
Qed.

(** The change of [f] when the threads [ws] wake up. *)
Definition wake_gain (f : thread T -> Z) (c : config S T) (ws : list Z) : Z :=
  foldr (fun u n => f (mkThread (loc (thread_of c u)) false) - f (thread_of c u) + n) 0 ws.

Lemma total_unblock f ws c : f (mkThread fresh_local false) = 0 -> NoDup ws ->
  (forall u, u ∈ ws -> is_blocked c u = true) -> total f (unblock ws c) = total f c + wake_gain f c ws.
Proof.
  intros Hf Hnd Hb. induction Hnd as [|u ws Hu Hnd IH].
  - unfold wake_gain. simpl. rewrite Z.add_0_r. reflexivity.
  - rewrite unblock_cons by (done || by apply Hb, list_elem_of_here). rewrite total_upd, IH by (done || set_solver).
    rewrite thread_unblock, bool_decide_eq_false_2 by done. rewrite andb_true_r. cbn [wake_gain foldr].
    replace (mkThread (loc (thread_of c u)) (is_blocked c u)) with (thread_of c u)
      by (unfold is_blocked; by destruct (thread_of c u)).
    unfold wake_gain. lia.
Qed.

(** A sum that does not look at the blocked flags. *)
Lemma total_unblock_loc f ws c : f (mkThread fresh_local false) = 0 ->
  (forall l b, f (mkThread l b) = f (mkThread l false)) -> total f (unblock ws c) = total f c.
Proof.
  intros Hf Hloc. induction ws as [|u ws IH]; [reflexivity|]. rewrite <- IH.
  set (c1 := unblock ws c). destruct (threads c1 !! u) as [th|] eqn:E.
  - replace (total f (unblock (u :: ws) c)) with (total f (upd c1 u (mkThread (loc th) false) (shared c))).
    + rewrite total_upd by done. unfold thread_of. rewrite E. simpl. rewrite <- (Hloc (loc th) (blocked th)).
      destruct th; simpl. lia.
    + f_equal. unfold c1, upd, unblock in *. cbn [foldr shared threads] in *. f_equal. apply map_eq. intros v.
      destruct (decide (u = v)) as [<-|]; [by rewrite lookup_alter_eq, lookup_insert_eq, E|].
      by rewrite lookup_alter_ne, lookup_insert_ne.
  - f_equal. unfold c1, unblock in *. cbn [foldr shared threads] in *. f_equal. apply map_eq. intros v.
    destruct (decide (u = v)) as [<-|]; [by rewrite lookup_alter_eq, E|by rewrite lookup_alter_ne].
Qed.

Lemma wake_gain_ext f c ws n : (forall u, u ∈ ws -> f (mkThread (loc (thread_of c u)) false) - f (thread_of c u) = n) ->
  wake_gain f c ws = n * Z.of_nat (length ws).
Proof.
  intros H. induction ws as [|u ws IH]; [unfold wake_gain; simpl; lia|]. unfold wake_gain in *. cbn [foldr length].
  rewrite IH, H by set_solver. lia.
Qed.

Lemma total_nonneg f c : (forall th, 0 <= f th) -> 0 <= total f c.
Proof.
  intros Hf. unfold total. generalize (threads c). intros m.
  induction m as [|t th m Hm IH] using map_ind; [done|]. rewrite total_insert_new by done. specialize (Hf th). lia.
Qed.

Lemma total_ge f c t : (forall th, 0 <= f th) -> f (mkThread fresh_local false) = 0 -> f (thread_of c t) <= total f c.
Proof.
  intros Hf H0. pose proof (total_upd f c t (mkThread fresh_local false) (shared c) H0).
  pose proof (total_nonneg f (upd c t (mkThread fresh_local false) (shared c)) Hf). lia.
Qed.

Lemma total_zero f c : (forall t, f (thread_of c t) = 0) -> total f c = 0.
Proof.
  intros Hf. assert (forall t th, threads c !! t = Some th -> f th = 0) as Hm.
  { intros t th E. specialize (Hf t). unfold thread_of in Hf. by rewrite E in Hf. }
  clear Hf. revert Hm. unfold total. generalize (threads c). intros m.
  induction m as [|t th m Hm IH] using map_ind; [done|]. intros Hf. rewrite total_insert_new by done.
  rewrite IH, (Hf t th); [done|apply lookup_insert_eq|].
  intros u th' Hu. apply (Hf u). rewrite lookup_insert_ne; [done|]. intros <-. congruence.
Qed.

(** The kernel cannot wake more threads than there are. *)
Lemma wakes_bound c nr ws : wakes c nr ws = true -> (length ws <= size (threads c))%nat.
Proof.
  intros (Hnd & Hb & _ & _)%wakes_spec. rewrite <- size_dom.
  rewrite <- (size_list_to_set (C:=gset Z) ws) by done. apply subseteq_size. intros u Hu.
  apply elem_of_list_to_set, Hb in Hu. unfold is_blocked, thread_of in Hu. apply elem_of_dom.
  destruct (threads c !! u); [by eexists|done].
Qed.

Lemma reach_invariant (K I : config S T -> Prop) c0 :
  (K c0 -> I c0) -> (forall c e c', K c -> I c -> step e c = Some c' -> K c' -> I c') ->
  forall c, reach K c0 c -> K c /\ I c.
Proof. intros H0 Hstep c. induction 1 as [|c e c' ? [? ?] ? ?]; eauto. Qed.

(** Ids that no thread has do nothing. *)
Lemma step_outside e c c' t : t <= 0 -> is_blocked c t = false -> step e c = Some c' -> thread_of c' t = thread_of c t.
Proof.
  intros Ht Hb Hs. apply step_cases in Hs as [(u & l & s & b & Hu & _ & _ & ->)|[(u & Hbu & ->)|(u & nr & k & ws & Hu & _ & _ & Hw & ->)]].
  - by rewrite thread_upd_ne by lia.
  - rewrite thread_unblock, Hb. unfold is_blocked in Hb. destruct (thread_of c t); simpl in *; by subst.
  - rewrite thread_unblock, blocked_upd, decide_False, Hb by lia. rewrite thread_upd_ne by lia.
    unfold is_blocked in Hb. destruct (thread_of c t); simpl in *; by subst.
Qed.

Lemma reach_outside K s c t : t <= 0 -> reach K (init_config s) c -> thread_of c t = mkThread fresh_local false.
Proof.
  intros Ht Hr. apply (reach_invariant K (fun c => thread_of c t = mkThread fresh_local false)) in Hr as [_ H];
    [exact H|intros _; reflexivity|].
  intros c1 e c2 _ H1 Hs _. rewrite <- H1. eapply step_outside; [exact Ht| |exact Hs]. unfold is_blocked. by rewrite H1.
Qed.

(** ** Sleepers are roused

    [ready s l]: the words are such that a thread asleep at [l] should run.
    [rouses l l']: a running thread at [l] is going to wake one at [l'], or to
    take what it waits for and wake it later. [ok] is what a program point knows
    of the words. When a program keeps these
    conditions, every sleeper that should run has a running thread that rouses
    it: no wake-up is lost. [dom] is an invariant of the words. *)
Section Sleep.
Variables (ready : S -> T -> bool) (rouses : T -> T -> bool) (asleep : T -> Prop) (dom : S -> Prop) (ok : T -> S -> Prop).
Variable small : nat -> Prop.

Record sleep_rules : Prop := {
  sleep_enter t l s l' s' : dom s -> ok l s -> moves t l s l' s' true -> asleep l' /\ ready s' l' = false;
  sleep_ready t l s l' s' b lu : dom s -> ok l s -> moves t l s l' s' b -> asleep lu ->
    ready s lu = false -> ready s' lu = true -> b = false /\ rouses l' lu = true;
  sleep_keep t l s l' s' b lu : dom s -> ok l s -> moves t l s l' s' b -> asleep lu ->
    ready s lu = true -> ready s' lu = true -> rouses l lu = true -> b = false /\ rouses l' lu = true;
  sleep_wake c t nr k ws u : dom (shared c) -> small (size (threads c)) ->
    (forall v, is_blocked c v = true -> asleep (loc (thread_of c v))) ->
    next t (loc (thread_of c t)) = Wake nr k -> wakes c nr ws = true ->
    is_blocked c u = true -> u ∉ ws -> ready (shared c) (loc (thread_of c u)) = true ->
    rouses (loc (thread_of c t)) (loc (thread_of c u)) = true ->
    exists x, x ∈ ws /\
      (rouses (loc (thread_of c x)) (loc (thread_of c u)) = true \/
       (ready (shared c) (loc (thread_of c x)) = true /\
        (forall l, rouses l (loc (thread_of c x)) = true -> rouses l (loc (thread_of c u)) = true) /\
        rouses (loc (thread_of c t)) (loc (thread_of c x)) = false))
}.

Definition sleep_inv (c : config S T) : Prop :=
  forall u, is_blocked c u = true -> 0 < u /\ asleep (loc (thread_of c u)) /\
    (ready (shared c) (loc (thread_of c u)) = true ->
     exists t, 0 < t /\ is_blocked c t = false /\ rouses (loc (thread_of c t)) (loc (thread_of c u)) = true).

Lemma sleep_step e c c' : sleep_rules -> dom (shared c) -> (forall t, ok (loc (thread_of c t)) (shared c)) -> small (size (threads c)) ->
  sleep_inv c -> step e c = Some c' -> sleep_inv c'.
Proof.
  intros [Henter Hready Hkeep Hwake] Hdom Hok Hsmall Hinv Hs u.
  apply step_cases in Hs as [(t & l & s & b & Ht & Hbt & Hm & ->)|[(t & Hbt & ->)|(t & nr & k & ws & Ht & Hbt & Hn & Hw & ->)]].
  - rewrite blocked_upd. destruct (decide (t = u)) as [<-|Hne]; intros Hu.
    + subst b. rewrite thread_upd_eq. destruct (Henter _ _ _ _ _ Hdom (Hok t) Hm) as [Ha Hr]. split_and!; [done|done|].
      cbn [shared upd loc]. congruence.
    + rewrite thread_upd_ne by done. destruct (Hinv u Hu) as (Hu0 & Ha & Hx). split_and!; [done|done|].
      cbn [shared upd]. intros Hr. destruct (ready (shared c) (loc (thread_of c u))) eqn:Hr0.
      * destruct (Hx eq_refl) as (t0 & Ht0 & Hb0 & Hrs). destruct (decide (t = t0)) as [<-|Hne0].
        -- destruct (Hkeep _ _ _ _ _ _ _ Hdom (Hok t) Hm Ha Hr0 Hr Hrs) as [-> Hrs']. exists t.
           by rewrite blocked_upd, thread_upd_eq, decide_True by done.
        -- exists t0. by rewrite blocked_upd, thread_upd_ne, decide_False by done.
      * destruct (Hready _ _ _ _ _ _ _ Hdom (Hok t) Hm Ha Hr0 Hr) as [-> Hrs]. exists t.
        by rewrite blocked_upd, thread_upd_eq, decide_True by done.
  - rewrite blocked_unblock, loc_unblock. intros [Hu _]%andb_prop. destruct (Hinv u Hu) as (Hu0 & Ha & Hx).
    split_and!; [done|done|]. intros Hr. destruct (Hx Hr) as (t0 & Ht0 & Hb0 & Hrs). exists t0.
    by rewrite blocked_unblock, Hb0, loc_unblock.
  - rewrite blocked_unblock, blocked_upd, loc_unblock. intros [Hu Hnin%negb_true_iff%bool_decide_eq_false]%andb_prop.
    destruct (decide (t = u)) as [|Hne]; [done|]. rewrite thread_upd_ne by done.
    destruct (Hinv u Hu) as (Hu0 & Ha & Hx). split_and!; [done|done|]. cbn [shared unblock upd]. intros Hr.
    enough (exists t0, 0 < t0 /\ t <> t0 /\ (is_blocked c t0 = false \/ t0 ∈ ws) /\
      rouses (loc (thread_of c t0)) (loc (thread_of c u)) = true) as (t0 & Ht0 & Hne0 & Hor & Hrs).
    { exists t0. rewrite blocked_unblock, blocked_upd, loc_unblock, decide_False, thread_upd_ne by done.
      split_and!; [done| |done]. destruct Hor as [->|Hin]; [done|].
      by rewrite bool_decide_eq_true_2, andb_false_r. }
    destruct (Hx Hr) as (t0 & Ht0 & Hb0 & Hrs). destruct (decide (t = t0)) as [<-|Hne0]; [|by exists t0; auto].
    destruct (Hwake c t nr k ws u) as (x & Hxin & Hor); try done; [intros v Hv; by apply Hinv|].
    pose proof (proj1 (proj2 (wakes_spec _ _ _ Hw)) x Hxin) as Hbx. destruct (Hinv x Hbx) as (Hx0 & _ & Hxx).
    destruct Hor as [Hrx|(Hrx & Htr & Hnot)]; [exists x; split_and!; [done|congruence|by right|done]|].
    destruct (Hxx Hrx) as (t1 & Ht1 & Hb1 & Hrs1). exists t1. split_and!; [done|congruence|by left|by apply Htr].
Qed.

Lemma sleep_init s : sleep_inv (init_config s).
Proof. intros u Hu. by unfold is_blocked, thread_of in Hu. Qed.
End Sleep.

Lemma run_reach (K : config S T -> Prop) chk c0 c es c' : (forall c, chk c = true -> K c) ->
  reach K c0 c -> run chk es c = Some c' -> reach K c0 c'.
Proof.
  intros Hchk. revert c. induction es as [|e es IH]; intros c Hr; cbn [run]; (destruct (chk c); [|done]).
  - by intros [= <-].
  - destruct (step e c) as [c1|] eqn:E; [|done]. cbn. intros Hrun. apply (IH c1); [|done].
    eapply reach_step; [done|done|]. apply Hchk. destruct es; cbn [run] in Hrun; by destruct (chk c1).
Qed.
End Machine.
