(* ===== verification/NtLock.v ===== *)
(** * Recursive locks ([crates/ntapi/src/sync.rs])

    [CRITICAL_SECTION] and the handle-backed [Mutex] have the same three words
    and the same code, line for line; a critical section is entered without a
    deadline. Their methods are one program of the machine of [NtFutex.v]. *)
From Stdlib Require Import ZArith Lia.
From stdpp Require Import base list option gmap.
From S2P Require Import Prelude NtFutex.
Local Open Scope Z_scope.
Set Warnings "-register-all".

Definition WAIT_OBJECT_0 : Z := 0.
Definition WAIT_TIMEOUT : Z := 0x102.
Definition WAIT_FAILED : Z := 0xFFFFFFFF.
Definition INFINITE : Z := 0xFFFFFFFF.

(** [CriticalSectionInner] and [MutexInner]. *)
Record LockInner := mkLock { lock : Z; owner : Z; recursion : Z }.

Definition lock_new : LockInner := mkLock 0 0 0.

(** [CreateMutexW] with [bInitialOwner]. *)
Definition lock_new_owned (me : Z) : LockInner := mkLock 1 me 1.

(** The points of [enter]/[acquire] and [leave]/[release]; [dl] says whether the
    call has a deadline. *)
Inductive lock_pc :=
  | Done (r : Z)
  | LoadOwner (dl : bool)
  | Recurse
  | TryLock (dl : bool)
  | SetOwner
  | SetRecursion
  | CheckClock
  | WaitLock (dl : bool)
  | RelLoadOwner
  | RelSub
  | RelClearOwner
  | RelClearLock
  | RelWake.

(** A thread and how many times it holds the lock: the acquisitions that have
    returned, less the releases that have taken one back. *)
Record lock_local := mkLocal { pc : lock_pc; depth : nat }.

Inductive lock_call :=
  (** [enter()] and [acquire(INFINITE)] *)
  | CallAcquire
  (** [acquire(timeout_ms)] *)
  | CallAcquireFor
  (** [leave()] and [release()] *)
  | CallRelease.

Definition lock_start (m : lock_call) (l : lock_local) : lock_local :=
  mkLocal match m with
          | CallAcquire => LoadOwner false
          | CallAcquireFor => LoadOwner true
          | CallRelease => RelLoadOwner
          end (depth l).

Definition lock_next (me : Z) (l : lock_local) : action LockInner lock_local :=
  let d := depth l in
  let at_ p := mkLocal p d in
  match pc l with
  | Done r => Stop r
  | LoadOwner dl => Act (fun s => (at_ (if owner s =? me then Recurse else TryLock dl), s))
  | Recurse =>
      Act (fun s => (mkLocal (Done WAIT_OBJECT_0) (S d), mkLock (lock s) (owner s) (wrap 32 (recursion s + 1))))
  | TryLock dl =>
      Act (fun s =>
        if lock s =? 0 then (at_ SetOwner, mkLock 1 (owner s) (recursion s))
        else (at_ (if dl then CheckClock else WaitLock false), s))
  | SetOwner => Act (fun s => (at_ SetRecursion, mkLock (lock s) me (recursion s)))
  | SetRecursion => Act (fun s => (mkLocal (Done WAIT_OBJECT_0) (S d), mkLock (lock s) (owner s) 1))
  | CheckClock => Clock (at_ (Done WAIT_TIMEOUT)) (at_ (WaitLock true))
  | WaitLock dl => Wait 1 (at_ (TryLock dl))
  | RelLoadOwner => Act (fun s => (at_ (if owner s =? me then RelSub else Done 0), s))
  | RelSub =>
      Act (fun s =>
        let r := wrap 32 (recursion s - 1) in
        (mkLocal (if r =? 0 then RelClearOwner else Done 1) (Nat.pred d), mkLock (lock s) (owner s) r))
  | RelClearOwner => Act (fun s => (at_ RelClearLock, mkLock (lock s) 0 (recursion s)))
  | RelClearLock => Act (fun s => (at_ RelWake, mkLock 0 (owner s) (recursion s)))
  | RelWake => Wake 1 (at_ (Done 1))
  end.

#[global] Instance lock_program : Program LockInner lock_local lock_call := {
  futex := lock;
  next := lock_next;
  start := lock_start;
  fresh_local := mkLocal (Done 0) 0
}.

Definition lock_config : Type := config LockInner lock_local.

Definition depth_of (c : lock_config) (t : Z) : nat := depth (loc (thread_of c t)).
Definition pc_of (c : lock_config) (t : Z) : lock_pc := pc (loc (thread_of c t)).

(** ** The invariant *)

(** The recursion counter does not overflow. *)
Definition depth_bounded (c : lock_config) : Prop := forall t, Z.of_nat (depth_of c t) < 2 ^ 32.

(** Thread [t] at its program point, when [h] has the lock word. *)
Definition thread_ok (t : Z) (l : lock_local) (s : LockInner) (h : option Z) : Prop :=
  let d := depth l in
  let holding := h = Some t /\ (0 < d)%nat /\ s = mkLock 1 t (Z.of_nat d) in
  let out := h <> Some t /\ d = 0%nat /\ owner s <> t in
  match pc l with
  | Done _ | LoadOwner _ | RelLoadOwner => holding \/ out
  | Recurse | RelSub => holding
  | TryLock _ | CheckClock | WaitLock _ | RelWake => out
  | SetOwner | RelClearLock => h = Some t /\ d = 0%nat /\ lock s = 1 /\ owner s = 0
  | SetRecursion | RelClearOwner => h = Some t /\ d = 0%nat /\ lock s = 1 /\ owner s = t
  end.

Definition lock_inv (c : lock_config) (h : option Z) : Prop :=
  (forall t, 0 < t -> thread_ok t (loc (thread_of c t)) (shared c) h) /\
  match h with
  | None => lock (shared c) = 0 /\ owner (shared c) = 0
  | Some t => 0 < t /\ lock (shared c) = 1
  end.

(** The other threads do not notice a step of the holder or of a newcomer. *)
Lemma thread_ok_frame u l s h s' h' :
  thread_ok u l s h -> h <> Some u -> h' <> Some u -> owner s' <> u -> thread_ok u l s' h'.
Proof. unfold thread_ok. destruct (pc l); tauto. Qed.

Lemma thread_ok_holder t l s h : thread_ok t l s h -> (0 < depth l)%nat -> h = Some t.
Proof. unfold thread_ok. destruct (pc l); intros; intuition lia. Qed.

Ltac lock_solve :=
  unfold thread_ok; cbn [pc depth lock owner recursion];
  intuition (simplify_eq; try congruence; try lia); simplify_eq/=; rewrite ?wrap_small in * by lia;
  intuition (simplify_eq; try congruence; try lia); try (f_equal; lia).

(** What one step of a thread does to the words and to the holder. *)
Lemma lock_moves t l s h l' s' b :
  0 < t -> thread_ok t l s h -> Z.of_nat (depth l') < 2 ^ 32 ->
  match h with None => lock s = 0 /\ owner s = 0 | Some u => 0 < u /\ lock s = 1 end ->
  moves t l s l' s' b ->
  exists h', thread_ok t l' s' h' /\
    match h' with None => lock s' = 0 /\ owner s' = 0 | Some u => 0 < u /\ lock s' = 1 end /\
    ((s' = s /\ h' = h) \/ ((h = None \/ h = Some t) /\ (h' = None \/ h' = Some t) /\ (owner s' = 0 \/ owner s' = t))).
Proof.
  destruct l as [p d], s as [lk ow rc]. intros Ht Hok Hd Hg Hm.
  inversion Hm as [m r Hn|f Hn|x g Hn|x g Hn|e k Hn]; subst; clear Hm;
    destruct p; cbn [next lock_program lock_next pc depth] in Hn; try discriminate; injection Hn as <-; subst;
    unfold thread_ok in Hok; cbn [pc depth fst snd lock owner recursion] in *.
  all: try destruct m; try destruct dl; cbn [start lock_program lock_start pc depth] in *.
  all: repeat match goal with |- context [?a =? ?b] => destruct (Z.eqb_spec a b) end;
    cbn [fst snd lock owner recursion pc depth] in *.
  all: try (exists h; lock_solve; fail).
  all: try (exists (Some t); lock_solve; fail).
  all: try (exists None; lock_solve; fail).
  all: destruct h as [u|]; [exfalso; lia|]; exists (Some t); lock_solve.
Qed.

Lemma lock_step_inv e c c' h : depth_bounded c' -> lock_inv c h -> step e c = Some c' -> exists h', lock_inv c' h'.
Proof.
  intros Hd [Hok Hg] Hs. apply step_cases in Hs as [(t & l & s & b & Ht & _ & Hm & ->)|[(t & _ & ->)|(t & nr & k & ws & Ht & _ & Hn & _ & ->)]].
  - pose proof (Hd t) as Hdt. unfold depth_of in Hdt. rewrite thread_upd_eq in Hdt. simpl in Hdt.
    destruct (lock_moves t _ _ h l s b Ht (Hok t Ht) Hdt Hg Hm) as (h' & Hok' & Hg' & Hframe).
    exists h'. split; [|exact Hg']. intros u Hu. destruct (decide (t = u)) as [<-|Hne]; [by rewrite thread_upd_eq|].
    rewrite thread_upd_ne by done. pose proof (Hok u Hu) as Hoku. cbn [shared upd].
    destruct Hframe as [[-> ->]|(Hh & Hh' & Ho)]; [done|].
    apply (thread_ok_frame u _ (shared c) h); [done|destruct Hh; congruence|destruct Hh'; congruence|lia].
  - exists h. split; [|done]. intros u Hu. rewrite thread_unblock. by apply Hok.
  - exists h. split; [|done]. intros u Hu. rewrite thread_unblock. cbn [loc].
    destruct (decide (t = u)) as [<-|Hne]; [|rewrite thread_upd_ne by done; by apply Hok].
    rewrite thread_upd_eq. specialize (Hok t Hu). cbn [loc shared unblock upd].
    destruct (loc (thread_of c t)) as [[] d]; cbn in Hn; try discriminate.
    injection Hn as <- <-. unfold thread_ok in *. cbn [pc depth] in *. tauto.
Qed.

(** The states a lock can start from: free, or held by the creator of a mutex. *)
Inductive lock_initial : lock_config -> Prop :=
  | initial_free : lock_initial (init_config lock_new)
  | initial_owned me : 0 < me ->
      lock_initial (upd (init_config lock_new) me (mkThread (mkLocal (Done 0) 1) false) (lock_new_owned me)).

Lemma lock_initial_inv c : lock_initial c -> exists h, lock_inv c h.
Proof.
  intros [|me Hme].
  - exists None. split; [|done]. intros t Ht. right. split_and!; [done|done|]. simpl. lia.
  - exists (Some me). split; [|done]. intros t Ht. destruct (decide (me = t)) as [<-|Hne].
    + rewrite thread_upd_eq. left. split_and!; [done|simpl; lia|done].
    + rewrite thread_upd_ne by done. right. split_and!; [congruence|done|]. simpl. lia.
Qed.

Lemma lock_reach_inv c0 c : lock_initial c0 -> reach depth_bounded c0 c -> exists h, lock_inv c h.
Proof.
  intros H0 Hr. apply (reach_invariant depth_bounded (fun c => exists h, lock_inv c h) c0) in Hr as [_ H];
    [done|intros _; by apply lock_initial_inv|].
  intros c1 e c2 _ [h Hh] Hs Hd. by eapply lock_step_inv.
Qed.

(** ** Sleeping threads *)

(** The lock word is not taken. *)
Definition lock_ready (s : LockInner) (l : lock_local) : bool := negb (lock s =? 1).

(** A thread about to wake one, or to try the lock. *)
Definition lock_rouses (l lu : lock_local) : bool :=
  match pc l with RelWake | TryLock _ => true | _ => false end.

Definition lock_asleep (l : lock_local) : Prop := exists dl, pc l = TryLock dl.
Definition lock_dom (s : LockInner) : Prop := lock s = 0 \/ lock s = 1.

Lemma lock_sleep_rules : sleep_rules lock_ready lock_rouses lock_asleep lock_dom (fun _ _ => True) (fun _ => True).
Proof.
  unfold lock_ready, lock_rouses, lock_asleep, lock_dom. split.
  - intros t l s l' s' _ _ Hm. inversion Hm as [| | | |e k Hn Hl Hs Hb]; subst.
    destruct l as [[] d]; cbn in Hn; try discriminate. injection Hn as <- <-. cbn in *. split; [by eexists|lia].
  - intros t [p d] [lk ow rc] l' s' b lu Hdom _ Hm _ H0 H1. cbn in *.
    inversion Hm as [m r Hn|f Hn|x g Hn|x g Hn|e k Hn]; subst;
      destruct p; cbn in Hn; try discriminate; injection Hn as <-; subst; cbn in *; try lia; try done.
    repeat case_match; simplify_eq/=; lia.
  - intros t [p d] [lk ow rc] l' s' b lu Hdom _ Hm _ H0 H1 Hr. cbn in *.
    inversion Hm as [m r Hn|f Hn|x g Hn|x g Hn|e k Hn]; subst;
      destruct p; cbn in Hr, Hn; try discriminate; injection Hn as <-; subst; cbn in *.
    destruct (Z.eqb_spec lk 0); cbn in *; lia.
  - intros c t nr k ws u _ _ Hasleep Hn Hw Hu Hnin _ _.
    assert (nr = 1) as ->. { destruct (loc (thread_of c t)) as [[] d]; cbn in Hn; try discriminate. by injection Hn. }
    apply wakes_spec in Hw as (_ & Hbl & _ & [Hlen|Hall]); [|by destruct Hnin; apply Hall].
    destruct ws as [|x ws]; [done|]. exists x. split; [auto with rust|left].
    destruct (Hasleep x) as [dl ->]; [by auto with rust|done].
Qed.

Lemma lock_inv_dom c h : lock_inv c h -> lock_dom (shared c).
Proof. intros [_ Hg]. unfold lock_dom. destruct h; lia. Qed.

Lemma sleep_reach c0 c : lock_initial c0 -> reach depth_bounded c0 c -> sleep_inv lock_ready lock_rouses lock_asleep c.
Proof.
  intros H0 Hr.
  apply (reach_invariant depth_bounded (fun c => (exists h, lock_inv c h) /\ sleep_inv lock_ready lock_rouses lock_asleep c) c0)
    in Hr as [_ [_ H]]; [done|..].
  - intros _. split; [by apply lock_initial_inv|]. destruct H0; intros u; [done|].
    rewrite blocked_upd. by destruct (decide _).
  - intros c1 e c2 _ [[h Hh] Hsl] Hs Hd. split; [by eapply lock_step_inv|].
    eapply sleep_step; [exact lock_sleep_rules|by eapply lock_inv_dom|done..].
Qed.

(** C20. Mutual exclusion. Whatever the calls of the threads and the interleaving
    of their atomic accesses, wake-ups, timeouts and signals, two threads never
    hold the lock at once. Between calls a thread holds it exactly when the words
    name it, with its number of acquisitions as the recursion count; and when no
    thread is in a call and none holds the lock, the lock word is free. *)
Theorem lock_exclusion c0 c : lock_initial c0 -> reach depth_bounded c0 c ->
  (forall t u, 0 < t -> 0 < u -> (0 < depth_of c t)%nat -> (0 < depth_of c u)%nat -> t = u) /\
  (forall t r, 0 < t -> pc_of c t = Done r ->
    (owner (shared c) = t <-> (0 < depth_of c t)%nat) /\
    ((0 < depth_of c t)%nat -> shared c = mkLock 1 t (Z.of_nat (depth_of c t)))) /\
  ((forall t, 0 < t -> (exists r, pc_of c t = Done r) /\ depth_of c t = 0%nat) ->
    lock (shared c) = 0 /\ owner (shared c) = 0).
Proof.
  intros H0 Hr. destruct (lock_reach_inv c0 c H0 Hr) as [h [Hok Hg]]. split_and!.
  - intros t u Ht Hu Hdt Hdu. pose proof (thread_ok_holder _ _ _ _ (Hok t Ht) Hdt).
    pose proof (thread_ok_holder _ _ _ _ (Hok u Hu) Hdu). congruence.
  - intros t r Ht Hp. specialize (Hok t Ht). unfold thread_ok in Hok. unfold pc_of in Hp. rewrite Hp in Hok.
    unfold depth_of. destruct Hok as [(_ & Hd & ->)|(_ & -> & Ho)]; [by split|]. split; [|lia]. split; [done|lia].
  - intros Hall. destruct h as [t|]; [|done]. destruct Hg as [Ht _]. destruct (Hall t Ht) as [[r Hp] Hd].
    specialize (Hok t Ht). unfold thread_ok in Hok. unfold pc_of in Hp. unfold depth_of in Hd. rewrite Hp, Hd in Hok.
    destruct Hok as [(_ & ? & _)|(? & _)]; [lia|done].
Qed.

(** C21. No wake-up is lost. When every thread is between calls or asleep in one,
    and none holds the lock, no thread is asleep: a sleeper always has a holder
    that will wake it, or a thread that is awake in the middle of a call. *)
Theorem lock_no_lost_wakeup c0 c : lock_initial c0 -> reach depth_bounded c0 c ->
  (forall t, 0 < t -> is_blocked c t = true \/ exists r, pc_of c t = Done r) ->
  (forall t, 0 < t -> depth_of c t = 0%nat) ->
  forall u, is_blocked c u = false.
Proof.
  intros H0 Hr Hq Hd u. destruct (lock_reach_inv c0 c H0 Hr) as [h [Hok Hg]].
  destruct (is_blocked c u) eqn:Hu; [|done]. exfalso.
  destruct (sleep_reach c0 c H0 Hr u Hu) as (_ & _ & Hnl). unfold lock_ready in Hnl.
  destruct h as [t|]; destruct Hg as [Ht Hl]; [|].
  - specialize (Hok t Ht). specialize (Hd t Ht). unfold thread_ok in Hok. unfold depth_of in Hd.
    destruct (Hq t Ht) as [Hbt|[r Hp]].
    + destruct (sleep_reach c0 c H0 Hr t Hbt) as (_ & [dl Hp] & _). rewrite Hp in Hok. tauto.
    + unfold pc_of in Hp. rewrite Hp, Hd in Hok. destruct Hok as [(_ & ? & _)|(? & _)]; [lia|done].
  - rewrite Ht in Hnl. destruct (Hnl eq_refl) as (t & Ht0 & Hbt & Hrs). unfold lock_rouses in Hrs.
    destruct (Hq t Ht0) as [|[r Hp]]; [congruence|]. unfold pc_of in Hp. by rewrite Hp in Hrs.
Qed.

(** ** A thread on its own

    The result of a call with a timeout of zero when no other thread runs in
    between. *)

Lemma acquire_solo me s d : 0 < me -> 0 <= recursion s < 2 ^ 32 - 1 ->
  (owner s = me -> lock s = 1) ->
  solo 10 me (lock_start CallAcquireFor (mkLocal (Done 0) d)) s =
    Some (if (owner s =? me) || (lock s =? 0)
          then (WAIT_OBJECT_0, mkLocal (Done WAIT_OBJECT_0) (S d),
                mkLock 1 me (if owner s =? me then recursion s + 1 else 1))
          else (WAIT_TIMEOUT, mkLocal (Done WAIT_TIMEOUT) d, s)).
Proof.
  intros Hme Hr Hl. destruct s as [lk ow rc]. cbn in *.
  destruct (Z.eqb_spec ow me) as [->|Hne]; cbn; [rewrite wrap_small by lia; by rewrite Hl|].
  by destruct (Z.eqb_spec lk 0); cbn.
Qed.

Lemma release_solo me s d : 0 < me -> 0 < recursion s < 2 ^ 32 ->
  solo 10 me (lock_start CallRelease (mkLocal (Done 0) d)) s =
    Some (if owner s =? me
          then (1, mkLocal (Done 1) (Nat.pred d),
                if recursion s =? 1 then mkLock 0 0 0 else mkLock (lock s) me (recursion s - 1))
          else (0, mkLocal (Done 0) d, s)).
Proof.
  intros Hme Hr. destruct s as [lk ow rc]. cbn in *. destruct (Z.eqb_spec ow me) as [->|Hne]; cbn; [|done].
  rewrite wrap_small by lia. destruct (Z.eqb_spec (rc - 1) 0), (Z.eqb_spec rc 1); try lia; cbn; do 3 f_equal; lia.
Qed.

(** ** Witnesses *)

Definition depth_check (c : lock_config) : bool :=
  forallb (fun p => Z.of_nat (depth (loc (snd p))) <? 2 ^ 32) (map_to_list (threads c)).

Lemma depth_check_ok c : depth_check c = true -> depth_bounded c.
Proof.
  unfold depth_check. rewrite forallb_forall. intros H t. unfold depth_of, thread_of.
  destruct (threads c !! t) as [th|] eqn:E; [|done]. specialize (H (t, th)). apply Z.ltb_lt, H, list_elem_of_In.
  by apply elem_of_map_to_list.
Qed.

(** Thread 1 enters twice while thread 2 falls asleep. *)
Definition demo_contended : list (event lock_call) :=
  [ECall 1 CallAcquire; ERun 1; ERun 1; ECall 2 CallAcquire; ERun 2; ERun 1; ERun 1; ERun 2; ERun 2;
   ECall 1 CallAcquire; ERun 1; ERun 1].

(** Thread 1 leaves twice and wakes thread 2, which enters and leaves. *)
Definition demo_handover : list (event lock_call) :=
  demo_contended ++
  [ECall 1 CallRelease; ERun 1; ERun 1; ECall 1 CallRelease; ERun 1; ERun 1; ERun 1; ERun 1; EWake 1 [2];
   ERun 2; ERun 2; ERun 2; ECall 2 CallRelease; ERun 2; ERun 2; ERun 2; ERun 2; EWake 2 []].

Definition demo_lock (es : list (event lock_call)) : lock_config :=
  default (init_config lock_new) (run depth_check es (init_config lock_new)).

Lemma demo_lock_reach es : is_Some (run depth_check es (init_config lock_new)) ->
  reach depth_bounded (init_config lock_new) (demo_lock es).
Proof.
  unfold demo_lock. intros [c Hc]. rewrite Hc. simpl. eapply (run_reach _ depth_check); [apply depth_check_ok| |done].
  constructor. by apply depth_check_ok.
Qed.

Lemma lock_exclusion_witness :
  depth_of (demo_lock demo_contended) 1 = 2%nat /\ is_blocked (demo_lock demo_contended) 2 = true /\
  shared (demo_lock demo_contended) = mkLock 1 1 2.
Proof.
  assert (Hr : is_Some (run depth_check demo_contended (init_config lock_new))) by (eexists; vm_compute; reflexivity).
  destruct (lock_exclusion _ _ initial_free (demo_lock_reach demo_contended Hr)) as (_ & H & _).
  assert (Hd : depth_of (demo_lock demo_contended) 1 = 2%nat) by (by vm_compute).
  assert (Hp : pc_of (demo_lock demo_contended) 1 = Done 0) by (by vm_compute).
  destruct (H 1 0 ltac:(lia) Hp) as [_ H1]. rewrite Hd in H1.
  split_and!; [exact Hd|by vm_compute|apply H1; lia].
Defined.

Lemma lock_no_lost_wakeup_witness :
  is_blocked (demo_lock demo_contended) 2 = true /\ is_blocked (demo_lock demo_handover) 2 = false.
Proof.
  assert (Hr : is_Some (run depth_check demo_handover (init_config lock_new))) by (eexists; vm_compute; reflexivity).
  assert (Hq : forall t, 0 < t -> (exists r, pc_of (demo_lock demo_handover) t = Done r) /\ depth_of (demo_lock demo_handover) t = 0%nat).
  { intros t _. unfold pc_of, depth_of, thread_of.
    assert (threads (demo_lock demo_handover) = <[1 := mkThread (mkLocal (Done 1) 0) false]>
      (<[2 := mkThread (mkLocal (Done 1) 0) false]> ∅)) as -> by (apply map_eq_iff; intros i; by vm_compute).
    destruct (decide (t = 1)) as [->|H1]; [by eauto|]. rewrite lookup_insert_ne by done.
    destruct (decide (t = 2)) as [->|H2]; [by eauto|]. rewrite lookup_insert_ne by done. by eauto. }
  split; [by vm_compute|].
  exact (lock_no_lost_wakeup _ _ initial_free (demo_lock_reach demo_handover Hr)
    (fun t Ht => or_intror (proj1 (Hq t Ht))) (fun t Ht => proj2 (Hq t Ht)) 2).
Defined.
