(* ===== verification/NtEvent.v ===== *)
(** * Events ([crates/ntapi/src/sync.rs])

    Manual- and auto-reset events as a program of the machine of [NtFutex.v],
    with the account of the signals an auto-reset event hands out. *)
From Stdlib Require Import ZArith Lia.
From stdpp Require Import base list option gmap.
From S2P Require Import Prelude NtFutex NtLock.
Local Open Scope Z_scope.
Set Warnings "-register-all".

Record EventInner := mkEvent { state : Z; manual_reset : bool }.

Definition event_new (manual initial : bool) : EventInner := mkEvent (if initial then 1 else 0) manual.

(** The points of [wait], [set], [reset] and [pulse]. *)
Inductive event_pc :=
  | EvDone (r : Z)
  | EvLoad (dl : bool)
  | EvConsume (dl : bool)
  | EvClock
  | EvWait (dl : bool)
  | EvSet
  | EvSetWake (nr : Z)
  | EvReset
  | EvPulse
  | EvPulseWake (nr : Z)
  | EvPulseClear.

(** A thread, the waits it has seen satisfied and the signals it has given. *)
Record event_local := mkEvLocal { epc : event_pc; taken : nat; given : nat }.

Inductive event_call := CallWait | CallWaitFor | CallSet | CallReset | CallPulse.

Definition event_start (m : event_call) (l : event_local) : event_local :=
  mkEvLocal match m with
            | CallWait => EvLoad false
            | CallWaitFor => EvLoad true
            | CallSet => EvSet
            | CallReset => EvReset
            | CallPulse => EvPulse
            end (taken l) (given l).

(** [i32::MAX] for a manual-reset event, [1] for an auto-reset one. *)
Definition wake_count (manual : bool) : Z := if manual then 2 ^ 31 - 1 else 1.

Definition event_next (me : Z) (l : event_local) : action EventInner event_local :=
  let at_ p := mkEvLocal p (taken l) (given l) in
  let satisfied := mkEvLocal (EvDone WAIT_OBJECT_0) (S (taken l)) (given l) in
  let gave p := mkEvLocal p (taken l) (S (given l)) in
  match epc l with
  | EvDone r => Stop r
  | EvLoad dl =>
      Act (fun s =>
        (if state s =? 1 then if manual_reset s then satisfied else at_ (EvConsume dl)
         else at_ (if dl then EvClock else EvWait false), s))
  | EvConsume dl =>
      Act (fun s => if state s =? 1 then (satisfied, mkEvent 0 (manual_reset s)) else (at_ (EvLoad dl), s))
  | EvClock => Clock (at_ (EvDone WAIT_TIMEOUT)) (at_ (EvWait true))
  | EvWait dl => Wait 0 (at_ (EvLoad dl))
  | EvSet => Act (fun s => (gave (EvSetWake (wake_count (manual_reset s))), mkEvent 1 (manual_reset s)))
  | EvSetWake nr => Wake nr (at_ (EvDone 0))
  | EvReset => Act (fun s => (at_ (EvDone 0), mkEvent 0 (manual_reset s)))
  | EvPulse => Act (fun s => (gave (EvPulseWake (wake_count (manual_reset s))), mkEvent 1 (manual_reset s)))
  | EvPulseWake nr => Wake nr (at_ EvPulseClear)
  | EvPulseClear => Act (fun s => (at_ (EvDone 0), mkEvent 0 (manual_reset s)))
  end.

#[global] Instance event_program : Program EventInner event_local event_call := {
  futex := state;
  next := event_next;
  start := event_start;
  fresh_local := mkEvLocal (EvDone 0) 0 0
}.

Definition event_config : Type := config EventInner event_local.
Definition epc_of (c : event_config) (t : Z) : event_pc := epc (loc (thread_of c t)).

(** The kernel has fewer threads than one wake-up can wake. *)
Definition few_threads (c : event_config) : Prop := Z.of_nat (size (threads c)) < 2 ^ 31 - 1.

(** ** Signals given and taken *)

Definition th_taken (th : thread event_local) : Z := Z.of_nat (taken (loc th)).
Definition th_given (th : thread event_local) : Z := Z.of_nat (given (loc th)).
Definition all_taken (c : event_config) : Z := total th_taken c.
Definition all_given (c : event_config) : Z := total th_given c.

(** The words and the wake-up counts of the threads, for an event of this kind
    that starts at [s0]; an auto-reset event hands out no signal twice. *)
Definition event_inv (manual : bool) (s0 : Z) (c : event_config) : Prop :=
  (state (shared c) = 0 \/ state (shared c) = 1) /\ manual_reset (shared c) = manual /\
  (forall t, match epc_of c t with EvSetWake nr | EvPulseWake nr => nr = wake_count manual | _ => True end) /\
  (manual = false -> all_taken c + state (shared c) <= s0 + all_given c).

Ltac event_cases Hm :=
  inversion Hm as [? ? Hn|? Hn|? ? Hn|? ? Hn|? ? Hn]; subst; clear Hm;
  match type of Hn with next _ ?l = _ => destruct l as [[] ? ?] end; cbn in Hn; try discriminate;
  injection Hn as <-; subst; cbn in *.

Lemma event_moves t l s l' s' b : (state s = 0 \/ state s = 1) -> moves t l s l' s' b ->
  (state s' = 0 \/ state s' = 1) /\ manual_reset s' = manual_reset s /\
  (match epc l with EvSetWake nr | EvPulseWake nr => nr = wake_count (manual_reset s) | _ => True end ->
   match epc l' with EvSetWake nr | EvPulseWake nr => nr = wake_count (manual_reset s) | _ => True end) /\
  (manual_reset s = false ->
   Z.of_nat (taken l') + state s' - Z.of_nat (given l') <= Z.of_nat (taken l) + state s - Z.of_nat (given l)).
Proof.
  intros Hs Hm. destruct s as [st mr]. cbn in Hs.
  event_cases Hm; repeat match goal with |- context [?a =? ?b] => destruct (Z.eqb_spec a b) end;
    try match goal with m : event_call |- _ => destruct m end; cbn in *; subst;
    repeat match goal with |- context [if ?x then _ else _] => destruct x end; cbn; split_and!; try lia; auto.
  all: intros; try done; lia.
Qed.

Lemma event_step_inv manual s0 e c c' : event_inv manual s0 c -> step e c = Some c' -> event_inv manual s0 c'.
Proof.
  intros (Hst & Hmr & Hnr & Hacc) Hs. unfold event_inv, epc_of in *.
  assert (th_taken (mkThread fresh_local false) = 0 /\ th_given (mkThread fresh_local false) = 0) as [Hf1 Hf2] by done.
  apply step_cases in Hs as [(t & l & s & b & Ht & Hbt & Hm & ->)|[(t & Hbt & ->)|(t & nr & k & ws & Ht & Hbt & Hn & Hw & ->)]].
  - destruct (event_moves _ _ _ _ _ _ Hst Hm) as (Hst' & Hmr' & Hnr' & Hacc'). rewrite Hmr in *.
    split_and!; [done|done| |].
    + intros u. destruct (decide (t = u)) as [<-|]; [rewrite thread_upd_eq|rewrite thread_upd_ne by done; apply Hnr].
      apply Hnr', Hnr.
    + intros Hman. unfold all_taken, all_given. rewrite !total_upd by done. cbn [shared upd].
      unfold all_taken, all_given, th_taken, th_given in *. cbn [loc] in *. specialize (Hacc Hman). specialize (Hacc' Hman). lia.
  - split_and!; [done|done| |]; [intros u; rewrite loc_unblock; apply Hnr|]. intros Hman.
    unfold all_taken, all_given. rewrite !total_unblock_loc by done. by apply Hacc.
  - assert (taken k = taken (loc (thread_of c t)) /\ given k = given (loc (thread_of c t)) /\
      match epc k with EvSetWake nr | EvPulseWake nr => nr = wake_count manual | _ => True end) as (Hk1 & Hk2 & Hk3).
    { destruct (loc (thread_of c t)) as [[] ? ?]; cbn in Hn; try discriminate; by injection Hn as <- <-. }
    split_and!; [done|done| |].
    + intros u. rewrite loc_unblock. destruct (decide (t = u)) as [<-|]; [by rewrite thread_upd_eq|].
      rewrite thread_upd_ne by done. apply Hnr.
    + intros Hman. unfold all_taken, all_given. cbn [shared unblock upd].
      rewrite !total_unblock_loc, !total_upd by done. unfold th_taken, th_given in *. cbn [loc]. rewrite Hk1, Hk2.
      specialize (Hacc Hman). unfold all_taken, all_given, th_taken, th_given in Hacc. lia.
Qed.

(** ** Sleeping threads *)

Definition event_ready (s : EventInner) (l : event_local) : bool := state s =? 1.

Definition event_rouses (manual : bool) (l lu : event_local) : bool :=
  match epc l with
  | EvSetWake nr | EvPulseWake nr => nr =? wake_count manual
  | EvLoad _ | EvConsume _ => negb manual
  | _ => false
  end.

Definition event_asleep (l : event_local) : Prop := exists dl, epc l = EvLoad dl.
Definition event_dom (manual : bool) (s : EventInner) : Prop :=
  (state s = 0 \/ state s = 1) /\ manual_reset s = manual.

Lemma event_sleep_rules manual :
  sleep_rules event_ready (event_rouses manual) event_asleep (event_dom manual) (fun _ _ => True)
    (fun n => Z.of_nat n < 2 ^ 31 - 1).
Proof.
  unfold event_ready, event_rouses, event_asleep, event_dom. split.
  - intros t l s l' s' _ _ Hm. inversion Hm as [| | | |e k Hn Hl Hs Hb]; subst.
    destruct l as [[] ? ?]; cbn in Hn; try discriminate. injection Hn as <- <-. cbn in *. split; [by eexists|lia].
  - intros t l [st mr] l' s' b lu [Hdom Hmr] _ Hm _ H0 H1. cbn in Hdom, Hmr, H0. subst mr.
    event_cases Hm; try lia; try (split; [done|by rewrite Z.eqb_refl]); repeat case_match; simplify_eq/=; lia.
  - intros t l [st mr] l' s' b lu [Hdom Hmr] _ Hm _ H0 H1 Hr. cbn in Hdom, Hmr, H0. subst mr.
    assert (st = 1) as -> by lia. event_cases Hm; try done; by destruct manual.
  - intros c t nr k ws u _ Hsmall Hasleep Hn Hw Hu Hnin _ Hr.
    assert (nr = wake_count manual) as ->.
    { destruct (loc (thread_of c t)) as [[] ? ?]; cbn in Hn; try discriminate; injection Hn as <- <-; cbn in Hr; lia. }
    pose proof (wakes_bound _ _ _ Hw) as Hbound.
    apply wakes_spec in Hw as (_ & Hbl & _ & [Hlen|Hall]); [|by destruct Hnin; apply Hall].
    destruct manual; [cbn in Hlen; lia|]. destruct ws as [|x ws]; [done|]. exists x.
    split; [auto with rust|left].
    destruct (Hasleep x) as [dl ->]; [by auto with rust|done].
Qed.

Lemma event_reach manual initial c : let s0 := event_new manual initial in
  reach few_threads (init_config s0) c ->
  event_inv manual (state s0) c /\ sleep_inv event_ready (event_rouses manual) event_asleep c.
Proof.
  intros s0 Hr. eapply (reach_invariant few_threads (fun c => event_inv manual (state s0) c /\
    sleep_inv event_ready (event_rouses manual) event_asleep c)) in Hr as [_ H]; [exact H|..].
  - intros _. split; [|apply sleep_init]. split_and!; [destruct initial; simpl; auto|done|done|].
    intros _. unfold all_taken, all_given, total, s0. simpl. rewrite !map_fold_empty. lia.
  - intros c1 e c2 Hk [Hi Hsl] Hs Hk'. split; [by eapply event_step_inv|].
    destruct Hi as (? & ? & _). eapply sleep_step; [apply (event_sleep_rules manual)|done|done|exact Hk|done|done].
Qed.

(** An event keeps its promises under every interleaving. Its word is 0 or
    1. An auto-reset event satisfies no more waits than it was given signals,
    whether by its initial state, [set] or [pulse], and a signal still up counts
    as unspent. And no wake-up is lost: when the event is signaled and every
    thread is between calls or asleep, no thread is asleep. *)
Theorem event_correct manual initial c : let s0 := event_new manual initial in
  reach few_threads (init_config s0) c ->
  (state (shared c) = 0 \/ state (shared c) = 1) /\
  (manual = false -> all_taken c + state (shared c) <= state s0 + all_given c) /\
  (state (shared c) = 1 ->
   (forall t, 0 < t -> is_blocked c t = true \/ exists r, epc_of c t = EvDone r) ->
   forall u, is_blocked c u = false).
Proof.
  intros s0 Hr. destruct (event_reach manual initial c Hr) as [(Hst & _ & _ & Hacc) Hsl].
  split_and!; [done|done|]. intros H1 Hq u. destruct (is_blocked c u) eqn:Hu; [|done]. exfalso.
  destruct (Hsl u Hu) as (_ & _ & Hx). unfold event_ready in Hx. rewrite H1 in Hx.
  destruct (Hx eq_refl) as (t & Ht & Hbt & Hrs). destruct (Hq t Ht) as [|[r Hp]]; [congruence|].
  unfold event_rouses in Hrs. unfold epc_of in Hp. by rewrite Hp in Hrs.
Qed.

(** ** A thread on its own *)

Lemma event_solo me s k g :
  solo 10 me (event_start CallWaitFor (mkEvLocal (EvDone 0) k g)) s =
    Some (if state s =? 1
          then (WAIT_OBJECT_0, mkEvLocal (EvDone WAIT_OBJECT_0) (S k) g,
                mkEvent (if manual_reset s then 1 else 0) (manual_reset s))
          else (WAIT_TIMEOUT, mkEvLocal (EvDone WAIT_TIMEOUT) k g, s)).
Proof. destruct s as [st []]; cbn; destruct (Z.eqb_spec st 1) as [->|]; done. Qed.

(** ** Witness

    Two waiters on an auto-reset event, and three signals. *)

Definition few_check (c : event_config) : bool := Z.of_nat (size (threads c)) <? 2 ^ 31 - 1.

Definition demo_event_run : list (event event_call) :=
  [ECall 2 CallWait; ERun 2; ERun 2; ECall 3 CallWaitFor; ERun 3; EClock 3 false; ERun 3;
   ECall 1 CallSet; ERun 1; EWake 1 [3]; ERun 3; ERun 3; ECall 1 CallSet; ERun 1; EWake 1 [2]; ERun 2; ERun 2;
   ECall 1 CallSet; ERun 1; EWake 1 []].

Definition demo_event : event_config :=
  default (init_config (event_new false false)) (run few_check demo_event_run (init_config (event_new false false))).

Lemma event_correct_witness :
  all_taken demo_event = 2 /\ all_given demo_event = 3 /\ state (shared demo_event) = 1 /\
  forall u, is_blocked demo_event u = false.
Proof.
  assert (Hr : reach few_threads (init_config (event_new false false)) demo_event).
  { apply (run_reach _ few_check _ (init_config (event_new false false)) demo_event_run);
      [intros c Hc; by apply Z.ltb_lt|by constructor|by vm_compute]. }
  destruct (event_correct false false demo_event Hr) as (_ & _ & H).
  split_and!; [by vm_compute..|]. apply H; [by vm_compute|]. intros t _. right. unfold epc_of, thread_of.
  assert (threads demo_event = <[1 := mkThread (mkEvLocal (EvDone 0) 0 3) false]>
    (<[2 := mkThread (mkEvLocal (EvDone 0) 1 0) false]> (<[3 := mkThread (mkEvLocal (EvDone 0) 1 0) false]> ∅)))
    as -> by (by vm_compute).
  destruct (decide (t = 1)) as [->|H1]; [by eauto|]. rewrite lookup_insert_ne by done.
  destruct (decide (t = 2)) as [->|H2]; [by eauto|]. rewrite lookup_insert_ne by done.
  destruct (decide (t = 3)) as [->|H3]; [by eauto|]. rewrite lookup_insert_ne by done. by eauto.
Defined.
