(* ===== verification/NtSemaphore.v ===== *)
(** * Semaphores ([crates/ntapi/src/sync.rs])

    Counting semaphores as a program of the machine of [NtFutex.v], with the
    account of the units released and taken. *)
From Stdlib Require Import ZArith Lia.
From stdpp Require Import base list option gmap.
From S2P Require Import Prelude NtFutex NtLock.
Local Open Scope Z_scope.
Set Warnings "-register-all".

Record SemaphoreInner := mkSem { count : Z }.

(** [CreateSemaphoreW]: a negative initial count is zero; the maximum is not
    looked at. *)
Definition semaphore_new (initial maximum : Z) : SemaphoreInner := mkSem (Z.max initial 0).

(** The points of [wait] and [release]. *)
Inductive sem_pc :=
  | SeDone (r : Z)
  | SeLoad (dl : bool)
  | SeTake (seen : Z) (dl : bool)
  | SeClock
  | SeWait (dl : bool)
  | SeRelPrev (n : Z)
  | SeRelAdd (n : Z)
  | SeRelWake (n : Z).

(** A thread, the units it has taken and released, and the last count stored
    through its [prev] pointer. *)
Record sem_local := mkSemLocal { spc : sem_pc; units_taken : nat; units_released : Z; prev : Z }.

Inductive sem_call :=
  | SemWait
  | SemWaitFor
  (** [ReleaseSemaphore] with or without the out-pointer. *)
  | SemRelease (n : Z) (with_prev : bool).

Definition sem_start (m : sem_call) (l : sem_local) : sem_local :=
  mkSemLocal match m with
             | SemWait => SeLoad false
             | SemWaitFor => SeLoad true
             | SemRelease n p => if p then SeRelPrev (Z.max n 0) else SeRelAdd (Z.max n 0)
             end (units_taken l) (units_released l) (prev l).

Definition sem_next (me : Z) (l : sem_local) : action SemaphoreInner sem_local :=
  let at_ p := mkSemLocal p (units_taken l) (units_released l) (prev l) in
  match spc l with
  | SeDone r => Stop r
  | SeLoad dl =>
      Act (fun s => (at_ (if 0 <? count s then SeTake (count s) dl else if dl then SeClock else SeWait false), s))
  | SeTake c dl =>
      Act (fun s =>
        if count s =? c
        then (mkSemLocal (SeDone WAIT_OBJECT_0) (S (units_taken l)) (units_released l) (prev l), mkSem (c - 1))
        else (at_ (SeLoad dl), s))
  | SeClock => Clock (at_ (SeDone WAIT_TIMEOUT)) (at_ (SeWait true))
  | SeWait dl => Wait 0 (at_ (SeLoad dl))
  | SeRelPrev n => Act (fun s => (mkSemLocal (SeRelAdd n) (units_taken l) (units_released l) (count s), s))
  | SeRelAdd n =>
      Act (fun s =>
        (mkSemLocal (SeRelWake n) (units_taken l) (units_released l + n) (prev l), mkSem (wrap 32 (count s + n))))
  | SeRelWake n => Wake n (at_ (SeDone 1))
  end.

#[global] Instance sem_program : Program SemaphoreInner sem_local sem_call := {
  futex := count;
  next := sem_next;
  start := sem_start;
  fresh_local := mkSemLocal (SeDone 0) 0 0 0
}.

Definition sem_config : Type := config SemaphoreInner sem_local.
Definition spc_of (c : sem_config) (t : Z) : sem_pc := spc (loc (thread_of c t)).

Definition th_units_taken (th : thread sem_local) : Z := Z.of_nat (units_taken (loc th)).
Definition th_units_released (th : thread sem_local) : Z := units_released (loc th).
Definition all_units_taken (c : sem_config) : Z := total th_units_taken c.
Definition all_units_released (c : sem_config) : Z := total th_units_released c.

(** The client's releases do not overflow the 32-bit count. *)
Definition units_bounded (s0 : SemaphoreInner) (c : sem_config) : Prop := count s0 + all_units_released c < 2 ^ 32.

(** ** The account *)

(** What a program point knows: the count it saw was positive, and the number it
    releases is not negative. *)
Definition sem_pc_ok (l : sem_local) : Prop :=
  match spc l with SeTake c _ => 0 < c | SeRelPrev n | SeRelAdd n | SeRelWake n => 0 <= n | _ => True end.

(** The wake-ups a thread still owes, or the unit it is about to take. *)
Definition weight (th : thread sem_local) : Z :=
  if blocked th then 0
  else match spc (loc th) with SeLoad _ | SeTake _ _ => 1 | SeRelWake n => Z.max n 0 | _ => 0 end.

Definition sem_inv (s0 : SemaphoreInner) (c : sem_config) : Prop :=
  (forall t, sem_pc_ok (loc (thread_of c t))) /\ 0 <= count (shared c) /\
  count (shared c) = count s0 + all_units_released c - all_units_taken c.

(** While a thread sleeps, every unit available has a thread awake for it. *)
Definition sem_sleep_inv (c : sem_config) : Prop :=
  (forall u, is_blocked c u = true -> 0 < u /\ exists dl, spc_of c u = SeLoad dl) /\
  (forall u, is_blocked c u = true -> count (shared c) <= total weight c).

Lemma sem_moves t l s l' s' b : sem_pc_ok l -> 0 <= count s -> moves t l s l' s' b ->
  sem_pc_ok l' /\ 0 <= count s' /\
  (count s + (units_released l' - units_released l) < 2 ^ 32 ->
   count s' = count s + (units_released l' - units_released l) - (Z.of_nat (units_taken l') - Z.of_nat (units_taken l))) /\
  (b = true -> count s' = 0 /\ exists dl, spc l' = SeLoad dl) /\
  (count s' = 0 \/ count s' - weight (mkThread l' b) <= count s - weight (mkThread l false)).
Proof.
  intros Hl Hs Hm. destruct s as [ct]. unfold sem_pc_ok, weight in *. cbn in Hs.
  inversion Hm as [m r Hn|f Hn|x g Hn|x g Hn|e k Hn]; subst; clear Hm;
    destruct l as [[] tk rl pv]; cbn in Hn; try discriminate; injection Hn as <-; subst; cbn in *.
  all: try (destruct m; cbn in *; repeat case_match; simplify_eq/=).
  all: repeat match goal with |- context [?a =? ?b] => destruct (Z.eqb_spec a b)
                         | |- context [?a <? ?b] => destruct (Z.ltb_spec a b) end; cbn in *.
  all: try match goal with |- context [wrap 32 ?x] =>
    pose proof (Z.mod_pos_bound x (2 ^ 32) ltac:(lia)); pose proof (Z.mod_le x (2 ^ 32) ltac:(lia) ltac:(lia));
    pose proof (wrap_small 32 x) end; unfold wrap in *.
  all: repeat match goal with |- context [if ?x then _ else _] => destruct x end; cbn in *.
  all: split_and!; intros; try lia; try done; try (split; [lia|by eexists]); auto.
Qed.

Lemma all_units_upd c t l b s :
  all_units_taken (upd c t (mkThread l b) s) =
    all_units_taken c + (Z.of_nat (units_taken l) - Z.of_nat (units_taken (loc (thread_of c t)))) /\
  all_units_released (upd c t (mkThread l b) s) =
    all_units_released c + (units_released l - units_released (loc (thread_of c t))).
Proof.
  unfold all_units_taken, all_units_released. rewrite !total_upd by done.
  unfold th_units_taken, th_units_released. cbn [loc]. lia.
Qed.

Lemma all_units_unblock ws c :
  all_units_taken (unblock ws c) = all_units_taken c /\ all_units_released (unblock ws c) = all_units_released c.
Proof. unfold all_units_taken, all_units_released. by rewrite !total_unblock_loc. Qed.

Lemma sem_step_inv s0 e c c' : units_bounded s0 c' -> sem_inv s0 c -> step e c = Some c' -> sem_inv s0 c'.
Proof.
  intros Hk (Hpc & Hpos & Hacc) Hs. unfold sem_inv, units_bounded in *.
  apply step_cases in Hs as [(t & l & s & b & Ht & Hbt & Hm & ->)|[(t & Hbt & ->)|(t & nr & k & ws & Ht & Hbt & Hn & Hw & ->)]].
  - destruct (all_units_upd c t l b s) as [Ht1 Ht2]. rewrite Ht1, Ht2 in *. cbn [shared upd].
    destruct (sem_moves _ _ _ _ _ _ (Hpc t) Hpos Hm) as (Hl & Hp' & Hc & _ & _).
    assert (0 <= all_units_taken c) by (apply total_nonneg; intros; unfold th_units_taken; lia).
    split_and!; [|done|rewrite Hc by lia; lia].
    intros u. destruct (decide (t = u)) as [<-|]; [by rewrite thread_upd_eq|rewrite thread_upd_ne by done; apply Hpc].
  - destruct (all_units_unblock [t] c) as [-> ->]. split_and!; [intros u; rewrite loc_unblock; apply Hpc|done|done].
  - assert (units_taken k = units_taken (loc (thread_of c t)) /\ units_released k = units_released (loc (thread_of c t)) /\
      sem_pc_ok k) as (Hk1 & Hk2 & Hk3).
    { destruct (loc (thread_of c t)) as [[] ? ? ?]; cbn in Hn; try discriminate; by injection Hn as <- <-. }
    destruct (all_units_unblock ws (upd c t (mkThread k false) (shared c))) as [-> ->].
    destruct (all_units_upd c t k false (shared c)) as [-> ->]. rewrite Hk1, Hk2.
    split_and!; [|done|cbn [shared unblock upd]; lia].
    intros u. rewrite loc_unblock.
    destruct (decide (t = u)) as [<-|]; [by rewrite thread_upd_eq|rewrite thread_upd_ne by done; apply Hpc].
Qed.

(** ** Sleeping threads *)

Lemma weight_nonneg th : 0 <= weight th.
Proof. unfold weight. repeat case_match; lia. Qed.

Lemma sem_sleep_step s0 e c c' : sem_inv s0 c -> sem_sleep_inv c -> step e c = Some c' -> sem_sleep_inv c'.
Proof.
  unfold sem_sleep_inv, spc_of. intros (Hpc & Hpos & _) [Hat Hwt] Hs.
  apply step_cases in Hs as [(t & l & s & b & Ht & Hbt & Hm & ->)|[(t & Hbt & ->)|(t & nr & k & ws & Ht & Hbt & Hn & Hw & ->)]].
  - destruct (sem_moves _ _ _ _ _ _ (Hpc t) Hpos Hm) as (_ & _ & _ & Hblock & Hd).
    split; intros u; rewrite blocked_upd; (destruct (decide (t = u)) as [<-|Hne]; intros Hu).
    + rewrite thread_upd_eq. split; [done|]. by apply Hblock.
    + rewrite thread_upd_ne by done. by apply Hat.
    + cbn [shared upd]. destruct (Hblock Hu) as [-> _]. apply total_nonneg, weight_nonneg.
    + cbn [shared upd]. specialize (Hwt u Hu). rewrite total_upd by done.
      replace (thread_of c t) with (mkThread (loc (thread_of c t)) false)
        by (unfold is_blocked in Hbt; rewrite <- Hbt; by destruct (thread_of c t)).
      destruct Hd as [->|Hd]; [|lia].
      pose proof (total_ge weight c t weight_nonneg eq_refl). pose proof (weight_nonneg (mkThread l b)).
      replace (mkThread (loc (thread_of c t)) false) with (thread_of c t)
        by (unfold is_blocked in Hbt; rewrite <- Hbt; by destruct (thread_of c t)). lia.
  - split; intros u; rewrite blocked_unblock; intros [Hu _]%andb_prop.
    + rewrite loc_unblock. by apply Hat.
    + cbn [shared unblock]. specialize (Hwt u Hu). rewrite total_unblock; [|done|apply NoDup_singleton|by intros v ->%list_elem_of_singleton].
      unfold wake_gain. simpl. pose proof (weight_nonneg (mkThread (loc (thread_of c t)) false)).
      assert (weight (thread_of c t) = 0) by (unfold weight; unfold is_blocked in Hbt; by rewrite Hbt). lia.
  - assert (weight (thread_of c t) = nr /\ weight (mkThread k false) = 0) as [Hwt1 Hwt2].
    { unfold weight. unfold is_blocked in Hbt. rewrite Hbt. specialize (Hpc t). unfold sem_pc_ok in Hpc.
      destruct (loc (thread_of c t)) as [[] ? ? ?]; cbn in Hn; try discriminate; injection Hn as <- <-. cbn in *. lia. }
    pose proof (wakes_spec _ _ _ Hw) as (Hnd & Hbl & _ & Hlen).
    assert (Hnt : t ∉ ws) by (intros Hin; apply Hbl in Hin; congruence).
    split; intros u; rewrite blocked_unblock, blocked_upd; intros [Hu Hnin%negb_true_iff%bool_decide_eq_false]%andb_prop;
      (destruct (decide (t = u)) as [|Hne]; [done|]).
    + rewrite loc_unblock, thread_upd_ne by done. by apply Hat.
    + cbn [shared unblock upd]. specialize (Hwt u Hu).
      destruct Hlen as [Hlen|Hall]; [|by destruct Hnin; apply Hall].
      rewrite total_unblock; [|done|done|]. 2:{ intros v Hv. rewrite blocked_upd, decide_False by congruence. by apply Hbl. }
      rewrite total_upd by done. rewrite (wake_gain_ext _ _ _ 1); [lia|].
      intros v Hv. rewrite thread_upd_ne by congruence. pose proof (Hbl v Hv) as Hbv. destruct (Hat v Hbv) as [_ [dl Hdl]].
      unfold weight. cbn [blocked loc]. rewrite Hdl. unfold is_blocked in Hbv. by rewrite Hbv.
Qed.

Lemma sem_reach s0 c : 0 <= count s0 < 2 ^ 32 -> reach (units_bounded s0) (init_config s0) c -> sem_inv s0 c /\ sem_sleep_inv c.
Proof.
  intros H0 Hr. eapply (reach_invariant (units_bounded s0) (fun c => sem_inv s0 c /\ sem_sleep_inv c)) in Hr as [_ H]; [exact H|..].
  - intros _. split; [|by split]. split_and!; [done|simpl; lia|].
    unfold all_units_taken, all_units_released, total. simpl. rewrite !map_fold_empty. lia.
  - intros c1 e c2 _ [Hi Hsl] Hs Hk. split; [by eapply sem_step_inv|by eapply sem_sleep_step].
Qed.

(** C22. A semaphore counts. Under every interleaving its word is the initial
    count and the units released less the units taken, so no unit is taken twice
    or out of nothing. And no wake-up is lost: when units are available and every
    thread is between calls or asleep, no thread is asleep. *)
Theorem semaphore_correct initial maximum c : let s0 := semaphore_new initial maximum in
  initial < 2 ^ 31 -> reach (units_bounded s0) (init_config s0) c ->
  0 <= count (shared c) /\
  count (shared c) = Z.max initial 0 + all_units_released c - all_units_taken c /\
  (0 < count (shared c) ->
   (forall t, 0 < t -> is_blocked c t = true \/ exists r, spc_of c t = SeDone r) ->
   forall u, is_blocked c u = false).
Proof.
  intros s0 Hini Hr. destruct (sem_reach s0 c ltac:(simpl; lia) Hr) as [(_ & Hpos & Hacc) [_ Hwt]].
  split_and!; [done|done|]. intros Hc Hq u. destruct (is_blocked c u) eqn:Hu; [|done]. exfalso.
  specialize (Hwt u Hu). rewrite total_zero in Hwt; [lia|]. intros t.
  destruct (Z.ltb_spec 0 t) as [Ht|Ht]; [|by rewrite (reach_outside _ _ _ _ Ht Hr)].
  unfold weight. destruct (Hq t Ht) as [Hb|[r Hp]].
  - unfold is_blocked in Hb. by rewrite Hb.
  - unfold spc_of in Hp. rewrite Hp. by case_match.
Qed.

(** ** A thread on its own *)

Lemma sem_solo me s k r p : 0 <= count s ->
  solo 10 me (sem_start SemWaitFor (mkSemLocal (SeDone 0) k r p)) s =
    Some (if 0 <? count s
          then (WAIT_OBJECT_0, mkSemLocal (SeDone WAIT_OBJECT_0) (S k) r p, mkSem (count s - 1))
          else (WAIT_TIMEOUT, mkSemLocal (SeDone WAIT_TIMEOUT) k r p, s)).
Proof. intros Hs. destruct s as [ct]; cbn. destruct (Z.ltb_spec 0 ct); cbn; [by rewrite Z.eqb_refl|done]. Qed.

(** ** Witness

    Two waiters, a release of two and a release of one. *)

Definition units_check (s0 : SemaphoreInner) (c : sem_config) : bool := count s0 + all_units_released c <? 2 ^ 32.

Definition demo_sem_run : list (event sem_call) :=
  [ECall 2 SemWait; ERun 2; ERun 2; ECall 3 SemWait; ERun 3; ERun 3; ECall 1 (SemRelease 2 true); ERun 1; ERun 1;
   EWake 1 [3; 2]; ERun 2; ERun 3; ERun 3; ERun 2; ERun 2; ERun 2; ECall 1 (SemRelease 1 false); ERun 1; EWake 1 []].

Definition demo_sem : sem_config :=
  default (init_config (semaphore_new 0 10))
    (run (units_check (semaphore_new 0 10)) demo_sem_run (init_config (semaphore_new 0 10))).

Lemma semaphore_correct_witness :
  all_units_taken demo_sem = 2 /\ all_units_released demo_sem = 3 /\ count (shared demo_sem) = 1 /\
  forall u, is_blocked demo_sem u = false.
Proof.
  assert (Hr : reach (units_bounded (semaphore_new 0 10)) (init_config (semaphore_new 0 10)) demo_sem).
  { apply (run_reach _ (units_check (semaphore_new 0 10)) _ (init_config (semaphore_new 0 10)) demo_sem_run);
      [intros c Hc; by apply Z.ltb_lt|by constructor|by vm_compute]. }
  destruct (semaphore_correct 0 10 demo_sem ltac:(lia) Hr) as (_ & _ & H).
  split_and!; [by vm_compute..|]. apply H; [by vm_compute|]. intros t _. right. unfold spc_of, thread_of.
  assert (threads demo_sem = <[1 := mkThread (mkSemLocal (SeDone 1) 0 3 0) false]>
    (<[2 := mkThread (mkSemLocal (SeDone 0) 1 0 0) false]> (<[3 := mkThread (mkSemLocal (SeDone 0) 1 0 0) false]> ∅)))
    as -> by (by vm_compute).
  destruct (decide (t = 1)) as [->|H1]; [by eauto|]. rewrite lookup_insert_ne by done.
  destruct (decide (t = 2)) as [->|H2]; [by eauto|]. rewrite lookup_insert_ne by done.
  destruct (decide (t = 3)) as [->|H3]; [by eauto|]. rewrite lookup_insert_ne by done. by eauto.
Defined.
