(* ===== verification/NtSrw.v ===== *)
(** * Reader-writer locks ([crates/ntapi/src/sync.rs])

    The slim reader-writer lock: one word with a writer bit and a reader count,
    as a program of the machine of [NtFutex.v]. *)
From Stdlib Require Import ZArith Lia.
From stdpp Require Import base list option gmap.
From S2P Require Import Prelude NtFutex.
Local Open Scope Z_scope.
Set Warnings "-register-all".

Definition SRW_WRITER : Z := Z.shiftl 1 31.
Definition SRW_READER_MASK : Z := Z.shiftl 1 31 - 1.

Record SrwInner := mkSrw { srw_state : Z }.

Definition srw_new : SrwInner := mkSrw 0.

(** The points of the four methods. *)
Inductive srw_pc :=
  | RwDone
  | XLoad
  | XTake
  | XWait (seen : Z)
  | SLoad
  | STake (seen : Z)
  | SWait (seen : Z)
  | XRelStore
  | XRelWake
  | SRelSub
  | SRelWake.

(** A thread, what it holds, and whether it has released what it did not hold. *)
Record srw_local := mkSrwLocal { rpc : srw_pc; excl : bool; shr : nat; misused : bool }.

Inductive srw_call := AcquireExclusive | AcquireShared | ReleaseExclusive | ReleaseShared.

Definition srw_start (m : srw_call) (l : srw_local) : srw_local :=
  match m with
  | AcquireExclusive => mkSrwLocal XLoad (excl l) (shr l) (misused l)
  | AcquireShared => mkSrwLocal SLoad (excl l) (shr l) (misused l)
  | ReleaseExclusive => mkSrwLocal XRelStore false (shr l) (misused l || negb (excl l))
  | ReleaseShared => mkSrwLocal SRelSub (excl l) (Nat.pred (shr l)) (misused l || bool_decide (shr l = 0%nat))
  end.

Definition srw_next (me : Z) (l : srw_local) : action SrwInner srw_local :=
  let at_ p := mkSrwLocal p (excl l) (shr l) (misused l) in
  match rpc l with
  | RwDone => Stop 0
  | XLoad => Act (fun s => (at_ (if srw_state s =? 0 then XTake else XWait (srw_state s)), s))
  | XTake =>
      Act (fun s =>
        if srw_state s =? 0 then (mkSrwLocal RwDone true (shr l) (misused l), mkSrw SRW_WRITER)
        else (at_ XLoad, s))
  | XWait s => Wait s (at_ XLoad)
  | SLoad =>
      Act (fun s =>
        (at_ (if Z.land (srw_state s) SRW_WRITER =? 0 then STake (srw_state s) else SWait (srw_state s)), s))
  | STake seen =>
      Act (fun s =>
        if srw_state s =? seen then (mkSrwLocal RwDone (excl l) (S (shr l)) (misused l), mkSrw (seen + 1))
        else (at_ SLoad, s))
  | SWait s => Wait s (at_ SLoad)
  | XRelStore => Act (fun s => (at_ XRelWake, mkSrw 0))
  | XRelWake => Wake (2 ^ 31 - 1) (at_ RwDone)
  | SRelSub =>
      Act (fun s =>
        (at_ (if Z.land (srw_state s) SRW_READER_MASK =? 1 then SRelWake else RwDone),
         mkSrw (wrap 32 (srw_state s - 1))))
  | SRelWake => Wake 1 (at_ RwDone)
  end.

#[global] Instance srw_program : Program SrwInner srw_local srw_call := {
  futex := srw_state;
  next := srw_next;
  start := srw_start;
  fresh_local := mkSrwLocal RwDone false 0 false
}.

Definition srw_config : Type := config SrwInner srw_local.
Definition rpc_of (c : srw_config) (t : Z) : srw_pc := rpc (loc (thread_of c t)).
Definition exclusive (c : srw_config) (t : Z) : bool := excl (loc (thread_of c t)).
Definition shared_holds (c : srw_config) (t : Z) : nat := shr (loc (thread_of c t)).

(** ** The account of the word *)

(** The exclusive and the shared holds of a thread, one that is being released
    included. *)
Definition x_holds (l : srw_local) : Z :=
  (if excl l then 1 else 0) + match rpc l with XRelStore => 1 | _ => 0 end.
Definition s_holds (l : srw_local) : Z :=
  Z.of_nat (shr l) + match rpc l with SRelSub => 1 | _ => 0 end.

Definition all_x (c : srw_config) : Z := total (fun th => x_holds (loc th)) c.
Definition all_s (c : srw_config) : Z := total (fun th => s_holds (loc th)) c.

(** The client releases what it holds and stays below 2^31 readers, and the
    kernel has fewer threads than one wake-up can wake. *)
Record srw_client (c : srw_config) : Prop := {
  client_ok : forall t, misused (loc (thread_of c t)) = false;
  client_readers : all_s c < 2 ^ 31;
  client_threads : Z.of_nat (size (threads c)) < 2 ^ 31 - 1
}.

Definition srw_pc_ok (l : srw_local) : Prop :=
  match rpc l with
  | XWait s => s <> 0
  | STake s => 0 <= s < 2 ^ 31
  | SWait s => 2 ^ 31 <= s
  | _ => True
  end.

Definition srw_inv (c : srw_config) : Prop :=
  (forall t, srw_pc_ok (loc (thread_of c t))) /\
  srw_state (shared c) = 2 ^ 31 * all_x c + all_s c /\ 0 <= all_x c <= 1 /\ (all_x c = 1 -> all_s c = 0).

Lemma writer_bit s : 0 <= s <= 2 ^ 31 -> (Z.land s SRW_WRITER =? 0) = (s <? 2 ^ 31).
Proof.
  intros Hs. unfold SRW_WRITER. rewrite Z.shiftl_1_l. destruct (Z.ltb_spec s (2 ^ 31)).
  - apply Z.eqb_eq, Z.bits_inj'. intros n Hn. rewrite Z.land_spec, Z.bits_0, Z.pow2_bits_eqb by lia.
    destruct (Z.eqb_spec 31 n) as [<-|]; [|by rewrite andb_false_r]. rewrite andb_true_r.
    destruct (decide (s = 0)) as [->|]; [done|]. apply Z.bits_above_log2; [lia|]. apply Z.log2_lt_pow2; lia.
  - replace s with (2 ^ 31) by lia. done.
Qed.

Lemma reader_mask s : 0 <= s -> Z.land s SRW_READER_MASK = s mod 2 ^ 31.
Proof. intros. unfold SRW_READER_MASK. change (Z.shiftl 1 31 - 1) with (Z.ones 31). by rewrite Z.land_ones. Qed.

Lemma x_holds_nonneg th : 0 <= x_holds (loc th : srw_local).
Proof. unfold x_holds. repeat case_match; lia. Qed.

Lemma s_holds_nonneg th : 0 <= s_holds (loc th : srw_local).
Proof. unfold s_holds. case_match; lia. Qed.

(** What one step does to the word, given the holds of all the threads. *)
Lemma srw_moves t l s l' s' b x n :
  srw_pc_ok l -> misused l' = false ->
  srw_state s = 2 ^ 31 * x + n -> 0 <= x <= 1 -> (x = 1 -> n = 0) -> 0 <= n < 2 ^ 31 ->
  x_holds l <= x -> s_holds l <= n -> n + (s_holds l' - s_holds l) < 2 ^ 31 -> moves t l s l' s' b ->
  let x' := x + (x_holds l' - x_holds l) in let n' := n + (s_holds l' - s_holds l) in
  srw_pc_ok l' /\ srw_state s' = 2 ^ 31 * x' + n' /\ 0 <= x' <= 1 /\ (x' = 1 -> n' = 0).
Proof.
  intros Hl Hmis Hs Hx Hxn Hn Hlx Hln Hbound Hm. destruct s as [st]. cbn [srw_state] in Hs.
  assert (0 <= st <= 2 ^ 31) as Hst by lia.
  inversion Hm as [m r Hnx|f Hnx|? g Hnx|? g Hnx|e k Hnx]; subst l' s' b; clear Hm;
    destruct l as [p ex sh ms]; destruct p; cbn in Hnx; try discriminate; injection Hnx as <-; subst;
    unfold srw_pc_ok, x_holds, s_holds in *; cbn [rpc excl shr misused fst snd srw_state start srw_program] in *.
  - destruct m; cbn in *; try lia.
    + destruct ex; cbn in *; [lia|]. by rewrite orb_true_r in Hmis.
    + destruct sh; cbn in *; [by rewrite orb_true_r in Hmis|]. destruct ex; lia.
  - destruct (Z.eqb_spec (2 ^ 31 * x + n) 0); cbn in *; destruct ex; lia.
  - destruct (Z.eqb_spec (2 ^ 31 * x + n) 0); cbn in *; [|destruct ex; lia].
    change SRW_WRITER with (2 ^ 31). destruct ex; lia.
  - rewrite writer_bit in * by done. destruct (Z.ltb_spec (2 ^ 31 * x + n) (2 ^ 31)); cbn in *; destruct ex; lia.
  - destruct (Z.eqb_spec (2 ^ 31 * x + n) seen); cbn in *; destruct ex; lia.
  - destruct ex; lia.
  - rewrite wrap_small by (destruct ex; lia). destruct (_ =? 1); cbn in *; destruct ex; lia.
  - destruct ex; lia.
  - destruct ex; lia.
Qed.

Lemma srw_totals c t l b s :
  all_x (upd c t (mkThread l b) s) = all_x c + (x_holds l - x_holds (loc (thread_of c t))) /\
  all_s (upd c t (mkThread l b) s) = all_s c + (s_holds l - s_holds (loc (thread_of c t))).
Proof. unfold all_x, all_s. rewrite !total_upd by done. cbn [loc]. lia. Qed.

Lemma srw_totals_unblock ws c : all_x (unblock ws c) = all_x c /\ all_s (unblock ws c) = all_s c.
Proof. unfold all_x, all_s. by rewrite !total_unblock_loc. Qed.

Lemma holds_le c t : x_holds (loc (thread_of c t)) <= all_x c /\ s_holds (loc (thread_of c t)) <= all_s c.
Proof.
  split; [apply (total_ge (fun th => x_holds (loc th)))|apply (total_ge (fun th => s_holds (loc th)))]; try done;
    intros; [apply x_holds_nonneg|apply s_holds_nonneg].
Qed.

Lemma all_s_nonneg c : 0 <= all_s c.
Proof. apply total_nonneg. intros. apply s_holds_nonneg. Qed.

Lemma srw_step_inv e c c' : srw_client c -> srw_client c' -> srw_inv c -> step e c = Some c' -> srw_inv c'.
Proof.
  intros [_ Hr _] [Hmis' Hr' _] (Hpc & Hst & Hx & Hxs) Hs. pose proof (all_s_nonneg c) as Hs0. unfold srw_inv.
  apply step_cases in Hs as [(t & l & s & b & Ht & Hbt & Hm & ->)|[(t & Hbt & ->)|(t & nr & k & ws & Ht & Hbt & Hn & Hw & ->)]].
  - destruct (srw_totals c t l b s) as [Ht1 Ht2]. rewrite Ht1, Ht2 in *. destruct (holds_le c t) as [Hle1 Hle2].
    specialize (Hmis' t). rewrite thread_upd_eq in Hmis'.
    destruct (srw_moves t _ _ _ _ _ _ _ (Hpc t) Hmis' Hst Hx Hxs (conj Hs0 Hr) Hle1 Hle2 Hr' Hm) as (Hl & Hrest).
    split; [|done]. intros u.
    destruct (decide (t = u)) as [<-|]; [by rewrite thread_upd_eq|rewrite thread_upd_ne by done; apply Hpc].
  - destruct (srw_totals_unblock [t] c) as [-> ->]. split; [intros u; rewrite loc_unblock; apply Hpc|done].
  - destruct (srw_totals_unblock ws (upd c t (mkThread k false) (shared c))) as [-> ->].
    destruct (srw_totals c t k false (shared c)) as [-> ->].
    assert (x_holds k = x_holds (loc (thread_of c t)) /\ s_holds k = s_holds (loc (thread_of c t)) /\ srw_pc_ok k) as (-> & -> & Hk).
    { destruct (loc (thread_of c t)) as [[] ? ? ?]; cbn in Hn; try discriminate; by injection Hn as <- <-. }
    rewrite !Z.sub_diag, !Z.add_0_r. split; [|done]. intros u. rewrite loc_unblock.
    destruct (decide (t = u)) as [<-|]; [by rewrite thread_upd_eq|rewrite thread_upd_ne by done; apply Hpc].
Qed.

(** ** Sleeping threads *)

(** A writer should run when the word is 0, a reader when no writer holds it. *)
Definition srw_ready (s : SrwInner) (l : srw_local) : bool :=
  match rpc l with XLoad => srw_state s =? 0 | _ => srw_state s <? 2 ^ 31 end.

Definition srw_rouses (l lu : srw_local) : bool :=
  match rpc l, rpc lu with
  | XRelWake, _ => true
  | (SRelWake | XLoad | XTake), XLoad => true
  | _, _ => false
  end.

Definition srw_asleep (l : srw_local) : Prop := rpc l = XLoad \/ rpc l = SLoad.
Definition srw_dom (s : SrwInner) : Prop := 0 <= srw_state s <= 2 ^ 31.

Definition srw_ok (l : srw_local) (s : SrwInner) : Prop :=
  srw_pc_ok l /\ (rpc l = SRelSub -> 0 < srw_state s < 2 ^ 31).

Lemma srw_sleep_rules :
  sleep_rules srw_ready srw_rouses srw_asleep srw_dom srw_ok (fun n => Z.of_nat n < 2 ^ 31 - 1).
Proof.
  unfold srw_ready, srw_rouses, srw_asleep, srw_dom, srw_ok, srw_pc_ok. split.
  - intros t l s l' s' Hdom [Hok _] Hm. inversion Hm as [| | | |e k Hn Hl Hs Hb]; subst.
    destruct l as [[] ? ? ?]; cbn in Hn; try discriminate; injection Hn as <- <-; cbn in *; split; auto; lia.
  - intros t [p ex sh ms] [st] l' s' b lu Hdom [Hok Hsub] Hm Ha H0 H1.
    destruct Ha as [Ha|Ha]; rewrite Ha in *; cbn in Hdom, H0.
    all: inversion Hm as [m r Hn|f Hn|x g Hn|x g Hn|e k Hn]; subst; clear Hm;
      destruct p; cbn in Hn; try discriminate; injection Hn as <-; subst; cbn in *; try lia; try done.
    all: try match goal with |- context [?a =? ?b] => destruct (Z.eqb_spec a b) end; cbn in *; try lia.
    all: specialize (Hsub eq_refl); rewrite ?reader_mask, ?wrap_small, ?Z.mod_small in * by lia; try lia; done.
  - intros t [p ex sh ms] [st] l' s' b lu Hdom _ Hm Ha H0 H1 Hr.
    inversion Hm as [m r Hn|f Hn|x g Hn|x g Hn|e k Hn]; subst; clear Hm;
      destruct p; cbn in Hn; try discriminate; injection Hn as <-; subst; cbn in *; try discriminate;
      destruct (rpc lu); try discriminate; (destruct (Z.eqb_spec st 0); [|discriminate]); by cbn in *.
  - intros c t nr k ws u _ Hsmall Hasleep Hn Hw Hu Hnin Hready Hr.
    pose proof (wakes_bound _ _ _ Hw) as Hbound.
    apply wakes_spec in Hw as (_ & Hbl & _ & [Hlen|Hall]); [|by destruct Hnin; apply Hall].
    destruct (loc (thread_of c t)) as [[] ? ? ?]; cbn in Hn; try discriminate; injection Hn as <- <-; [lia|].
    destruct ws as [|x ws]; [done|]. exists x. split; [auto with rust|].
    destruct (rpc (loc (thread_of c u))); cbn in Hr; try discriminate.
    destruct (Hasleep x) as [-> | ->]; [by auto with rust|by left|right].
    split_and!; [lia| |done]. intros [[] ? ? ?]; done.
Qed.

Lemma srw_inv_ok c : srw_client c -> srw_inv c ->
  srw_dom (shared c) /\ forall t, srw_ok (loc (thread_of c t)) (shared c).
Proof.
  intros [_ Hr _] (Hpc & Hst & Hx & Hxs). pose proof (all_s_nonneg c). unfold srw_dom, srw_ok. split; [lia|].
  intros t. split; [apply Hpc|]. intros Hp. destruct (holds_le c t) as [_ Hle]. unfold s_holds in Hle. rewrite Hp in Hle. lia.
Qed.

Lemma srw_reach c : reach srw_client (init_config srw_new) c ->
  srw_client c /\ srw_inv c /\ sleep_inv srw_ready srw_rouses srw_asleep c.
Proof.
  intros Hr. eapply (reach_invariant srw_client (fun c => srw_inv c /\ sleep_inv srw_ready srw_rouses srw_asleep c)) in Hr;
    [exact Hr|..].
  - intros _. split; [|apply sleep_init]. unfold srw_inv, all_x, all_s, total. cbn. rewrite !map_fold_empty. by split_and!.
  - intros c1 e c2 Hk [Hi Hsl] Hs Hk'. split; [by apply (srw_step_inv e c1)|].
    destruct (srw_inv_ok c1 Hk Hi) as [Hdom Hok]. eapply sleep_step; [apply srw_sleep_rules|done|done|apply Hk|done|done].
Qed.

(** C23. A reader-writer lock excludes and wakes. Under every interleaving of
    clients that release only what they hold, a thread with the exclusive hold is
    the only one with any hold; the word is free when nobody holds it between
    calls. And no wake-up is lost: when every thread is between calls or asleep,
    a free lock has no sleeper, and a lock without a writer has no reader
    asleep. *)
Theorem srw_correct c : reach srw_client (init_config srw_new) c ->
  (forall t u, exclusive c t = true -> shared_holds c u = 0%nat /\ (exclusive c u = true -> t = u)) /\
  ((forall t, rpc_of c t = RwDone /\ exclusive c t = false /\ shared_holds c t = 0%nat) -> srw_state (shared c) = 0) /\
  ((forall t, 0 < t -> is_blocked c t = true \/ rpc_of c t = RwDone) ->
   forall u, is_blocked c u = true -> srw_state (shared c) <> 0 /\
     (srw_state (shared c) < 2 ^ 31 -> rpc_of c u = XLoad)).
Proof.
  intros Hr. destruct (srw_reach c Hr) as (Hk & (Hpc & Hst & Hx & Hxs) & Hsl). split_and!.
  - intros t u Ht. unfold exclusive, shared_holds in *. destruct (holds_le c t) as [Htx _]. destruct (holds_le c u) as [_ Hus].
    pose proof (x_holds_nonneg (thread_of c t)). unfold x_holds in Htx. rewrite Ht in Htx.
    assert (all_x c = 1) as Hx1 by (destruct (rpc _); lia). split; [unfold s_holds in Hus; case_match; lia|].
    intros Hu. destruct (decide (t = u)) as [|Hne]; [done|exfalso].
    destruct (srw_totals c t (mkSrwLocal RwDone false 0 false) false (shared c)) as [Htot _].
    destruct (holds_le (upd c t (mkThread (mkSrwLocal RwDone false 0 false) false) (shared c)) u) as [Hux _].
    rewrite thread_upd_ne, Htot in Hux by done. unfold x_holds in Hux. rewrite Ht, Hu in Hux.
    cbn in Hux. destruct (rpc _), (rpc _); lia.
  - intros Hall. rewrite Hst. unfold all_x, all_s. rewrite !total_zero; [done|..];
      intros t; destruct (Hall t) as (Hp & He & Hs); unfold rpc_of, exclusive, shared_holds, s_holds, x_holds in *;
      by rewrite ?Hp, ?He, ?Hs.
  - intros Hq u Hu. destruct (Hsl u Hu) as (_ & Ha & Hx'). unfold rpc_of.
    assert (srw_ready (shared c) (loc (thread_of c u)) = false) as Hnr.
    { destruct (srw_ready _ _); [|done]. destruct (Hx' eq_refl) as (t & Ht & Hbt & Hrs).
      destruct (Hq t Ht) as [|Hp]; [congruence|]. unfold srw_rouses in Hrs. unfold rpc_of in Hp. by rewrite Hp in Hrs. }
    unfold srw_ready in Hnr. destruct Ha as [Ha|Ha]; rewrite Ha in *; [by split; [lia|]|]. split; lia.
Qed.

(** ** Witness

    Two readers and a writer; the last reader wakes the writer. *)

Definition srw_check (c : srw_config) : bool :=
  forallb (fun p => negb (misused (loc (snd p)))) (map_to_list (threads c)) && (all_s c <? 2 ^ 31) &&
  (Z.of_nat (size (threads c)) <? 2 ^ 31 - 1).

Lemma srw_check_ok c : srw_check c = true -> srw_client c.
Proof.
  unfold srw_check. intros [[Hm Hs%Z.ltb_lt]%andb_prop Ht%Z.ltb_lt]%andb_prop. split; [|done|done].
  intros t. unfold thread_of. destruct (threads c !! t) as [th|] eqn:E; [|done]. rewrite forallb_forall in Hm.
  specialize (Hm (t, th)). apply negb_true_iff, Hm, list_elem_of_In. by apply elem_of_map_to_list.
Qed.

Definition demo_srw_run : list (event srw_call) :=
  [ECall 1 AcquireShared; ERun 1; ERun 1; ECall 2 AcquireShared; ERun 2; ERun 2;
   ECall 3 AcquireExclusive; ERun 3; ERun 3; ECall 1 ReleaseShared; ERun 1; ECall 2 ReleaseShared; ERun 2; EWake 2 [3];
   ERun 3; ERun 3].

Definition demo_srw : srw_config := default (init_config srw_new) (run srw_check demo_srw_run (init_config srw_new)).

Lemma srw_correct_witness :
  exclusive demo_srw 3 = true /\ forall u, shared_holds demo_srw u = 0%nat /\ (exclusive demo_srw u = true -> 3 = u).
Proof.
  assert (Hr : reach srw_client (init_config srw_new) demo_srw).
  { apply (run_reach _ srw_check _ (init_config srw_new) demo_srw_run);
      [exact srw_check_ok|constructor; by apply srw_check_ok; vm_compute|by vm_compute]. }
  destruct (srw_correct demo_srw Hr) as (H & _). assert (He : exclusive demo_srw 3 = true) by (by vm_compute).
  split; [exact He|]. intros u. exact (H 3 u He).
Defined.
