(* ===== verification/NtHandle.v ===== *)
(** * The handle table ([crates/ntapi/src/handle.rs])

    The process-global map from handles to kernel objects, and the descriptors
    that file objects own. The kernel's descriptor table is not part of the
    program: it is an interface with the law of [close]. *)
From Stdlib Require Import ZArith Lia.
From stdpp Require Import base list option gmap.
From S2P Require Import Prelude.
Local Open Scope Z_scope.
Set Warnings "-register-all".

(** ** Descriptors *)

Class Descriptors (K : Type) := {
  fd_open : K -> Z -> bool;
  (** [libc::close] *)
  sys_close : Z -> K -> K
}.

Class DescriptorLaws (K : Type) `{Descriptors K} := {
  (** Closing releases the descriptor and no other; closing one that is not
      open does nothing. *)
  close_open k fd fd' : fd_open (sys_close fd k) fd' = negb (fd' =? fd) && fd_open k fd'
}.

(** ** Objects and the table *)

(** The address of a shared inner state stands for the [Arc] to it. *)
Inductive Object :=
  | Event (inner : Z)
  | Mutex (inner : Z)
  | Semaphore (inner : Z)
  | Thread (inner : Z)
  | File (fd : Z)
  | MemSection (base size : Z)
  | Process.

Record HandleTable := mkTable { objects : gmap Z Object; next_handle : Z }.

Definition table_new : HandleTable := mkTable ∅ 0x10000.

(** [handle == u64::MAX || handle == u64::MAX - 1 || handle <= 2] *)
Definition is_pseudo_handle (h : Z) : bool := (h =? u64_max) || (h =? u64_max - 1) || (h <=? 2).

Section Handles.
Context {K : Type} `{HK : Descriptors K}.

Record Handles := mkHandles { table : HandleTable; kernel : K }.

(** [Drop for FileObject]; the other objects own memory only. *)
Definition drop_object (o : Object) (k : K) : K :=
  match o with
  | File fd => if 0 <=? fd then sys_close fd k else k
  | _ => k
  end.

(** [HashMap::insert] drops an object it replaces. *)
Definition insert_object (o : Object) (s : Handles) : Z * Handles :=
  let h := next_handle (table s) in
  let k := match objects (table s) !! h with Some old => drop_object old (kernel s) | None => kernel s end in
  (h, mkHandles (mkTable (<[h := o]> (objects (table s))) (wrap 64 (h + 1))) k).

Definition remove_object (h : Z) (s : Handles) : option Object * Handles :=
  (objects (table s) !! h, mkHandles (mkTable (delete h (objects (table s))) (next_handle (table s))) (kernel s)).

Definition create (o : Object) (s : Handles) : Z * Handles := insert_object o s.

Definition with_object {R} (h : Z) (f : Object -> R) (s : Handles) : option R := f <$> objects (table s) !! h.

Definition close (h : Z) (s : Handles) : bool * Handles :=
  if is_pseudo_handle h then (true, s)
  else
    match remove_object h s with
    | (Some o, s) => (true, mkHandles (table s) (drop_object o (kernel s)))
    | (None, s) => (false, s)
    end.

(** ** Runs *)

Inductive handle_op := OpCreate (o : Object) | OpClose (h : Z).

(** The handle created, or whether the close succeeded. *)
Definition handle_step (op : handle_op) (s : Handles) : Z * Handles :=
  match op with
  | OpCreate o => create o s
  | OpClose h => let '(ok, s) := close h s in (Z.b2z ok, s)
  end.

Fixpoint handle_run (ops : list handle_op) (s : Handles) : list (handle_op * Z) * Handles :=
  match ops with
  | [] => ([], s)
  | op :: ops =>
      let '(r, s) := handle_step op s in
      let '(tr, s) := handle_run ops s in
      ((op, r) :: tr, s)
  end.

(** ** What a table of handles promises

    The object a handle names after a history: the one it was created for,
    until it is closed. *)
Fixpoint live (past : list (handle_op * Z)) (h : Z) : option Object :=
  match past with
  | [] => None
  | (OpCreate o, r) :: past => if h =? r then Some o else live past h
  | (OpClose h', _) :: past => if (h =? h') && negb (is_pseudo_handle h) then None else live past h
  end.

(** The descriptors after a history: one close for each file closed. *)
Fixpoint released (k : K) (past : list (handle_op * Z)) : K :=
  match past with
  | [] => k
  | (OpCreate _, _) :: past => released k past
  | (OpClose h, _) :: past =>
      match live past h with
      | Some o => if is_pseudo_handle h then released k past else drop_object o (released k past)
      | None => released k past
      end
  end.

Definition issued (past : list (handle_op * Z)) (h : Z) : Prop := exists o, (OpCreate o, h) ∈ past.

(** A history, last operation first, is one of a table: every handle created is
    new and not a pseudo-handle, and a close succeeds exactly on a pseudo-handle
    or a handle that names an object. *)
Fixpoint history_ok (past : list (handle_op * Z)) : Prop :=
  match past with
  | [] => True
  | (OpCreate _, h) :: past => ~ issued past h /\ is_pseudo_handle h = false /\ history_ok past
  | (OpClose h, r) :: past =>
      r = Z.b2z (is_pseudo_handle h || bool_decide (is_Some (live past h))) /\ history_ok past
  end.

(** How many handles a history created. *)
Fixpoint creations (past : list (handle_op * Z)) : nat :=
  match past with
  | [] => 0
  | (OpCreate _, _) :: past => S (creations past)
  | (OpClose _, _) :: past => creations past
  end.

(** The table and the history it comes from. *)
Definition handle_inv (k0 : K) (past : list (handle_op * Z)) (s : Handles) : Prop :=
  history_ok past /\ (forall h, objects (table s) !! h = live past h) /\ kernel s = released k0 past /\
  next_handle (table s) = 0x10000 + Z.of_nat (creations past) /\
  (forall h, issued past h -> 0x10000 <= h < next_handle (table s)).

Lemma live_issued past h o : live past h = Some o -> issued past h.
Proof.
  induction past as [|[[o'|h'] r] past IH]; simpl; [done|..].
  - destruct (Z.eqb_spec h r) as [->|]; intros H; [exists o'; apply list_elem_of_here|].
    destruct (IH H) as [o1 Ho1]. exists o1. by right.
  - destruct (_ && _); [done|]. intros H. destruct (IH H) as [o1 Ho1]. exists o1. by right.
Qed.

Lemma not_pseudo h : 0x10000 <= h < 2 ^ 64 - 2 -> is_pseudo_handle h = false.
Proof. unfold is_pseudo_handle, u64_max. lia. Qed.

Lemma create_inv k0 past s o : handle_inv k0 past s -> Z.of_nat (creations past) < 2 ^ 64 - 2 ^ 17 ->
  exists r s', create o s = (r, s') /\ handle_inv k0 ((OpCreate o, r) :: past) s'.
Proof.
  intros (Hok & Hlive & Hk & Hn & Hiss) Hb. unfold create, insert_object. do 2 eexists. split; [reflexivity|].
  assert (Hfresh : live past (next_handle (table s)) = None).
  { destruct (live past _) eqn:E; [|done]. apply live_issued, Hiss in E. lia. }
  unfold handle_inv. cbn [table kernel objects next_handle history_ok creations released].
  rewrite wrap_small by lia. split_and!; [|apply not_pseudo; lia|done| | |lia|].
  - intros Hi. apply Hiss in Hi. lia.
  - intros h. cbn [live]. destruct (Z.eqb_spec h (next_handle (table s))) as [->|Hne].
    + apply lookup_insert_eq.
    + by rewrite lookup_insert_ne by done.
  - by rewrite Hlive, Hfresh.
  - intros h [o' Hin]. apply elem_of_cons in Hin as [[= _ ->]|Hin]; [lia|].
    specialize (Hiss h (ex_intro _ o' Hin)). lia.
Qed.

Lemma close_inv k0 past s h : handle_inv k0 past s ->
  exists ok s', close h s = (ok, s') /\ handle_inv k0 ((OpClose h, Z.b2z ok) :: past) s'.
Proof.
  intros (Hok & Hlive & Hk & Hn & Hiss).
  assert (Hiss' : forall r h', issued ((OpClose h, r) :: past) h' -> 0x10000 <= h' < next_handle (table s)).
  { intros r h' [o' Hin]. apply elem_of_cons in Hin as [[=]|Hin]. apply Hiss. by exists o'. }
  unfold close, remove_object. destruct (is_pseudo_handle h) eqn:Hp.
  - do 2 eexists. split; [done|]. unfold handle_inv. cbn [history_ok live released creations]. rewrite Hp.
    split_and!; [done|done| | |done|by apply Hiss'].
    + intros h'. rewrite Hlive. destruct (Z.eqb_spec h' h) as [->|]; [by rewrite Hp|done].
    + destruct (live past h); done.
  - rewrite Hlive. destruct (live past h) as [o|] eqn:E; do 2 eexists; (split; [reflexivity|]);
      unfold handle_inv; cbn [history_ok live released creations table kernel objects next_handle]; rewrite Hp, E.
    + split_and!; [done|done| |by rewrite Hk|done|by apply Hiss'].
      intros h'. destruct (Z.eqb_spec h' h) as [->|]; [by rewrite lookup_delete_eq, Hp|].
      by rewrite lookup_delete_ne.
    + split_and!; [done|done| |done|done|by apply Hiss'].
      intros h'. destruct (Z.eqb_spec h' h) as [->|]; [by rewrite Hp, lookup_delete_eq|].
      by rewrite lookup_delete_ne.
Qed.

Lemma creations_app p1 p2 : creations (p1 ++ p2) = (creations p1 + creations p2)%nat.
Proof. induction p1 as [|[[] ] p1 IH]; simpl; congruence. Qed.

Lemma handle_run_inv k0 ops past s : handle_inv k0 past s ->
  Z.of_nat (creations past + length ops) < 2 ^ 64 - 2 ^ 17 ->
  exists tr s', handle_run ops s = (tr, s') /\ map fst tr = ops /\ handle_inv k0 (rev tr ++ past) s'.
Proof.
  revert past s. induction ops as [|op ops IH]; intros past s Hinv Hb.
  - exists [], s. by split_and!.
  - cbn [length handle_run] in *.
    assert (exists r s1, handle_step op s = (r, s1) /\ handle_inv k0 ((op, r) :: past) s1) as (r & s1 & Hs & Hi).
    { destruct op as [o|h]; cbn [handle_step]; [apply create_inv; [done|lia]|].
      destruct (close_inv k0 past s h Hinv) as (ok & s1 & -> & Hi). by eauto. }
    rewrite Hs. destruct (IH ((op, r) :: past) s1 Hi) as (tr & s' & -> & Hops & Hi').
    { destruct op; simpl; lia. }
    do 2 eexists. split; [reflexivity|]. cbn [map fst rev]. split; [by rewrite Hops|].
    by rewrite <- app_assoc.
Qed.
End Handles.


(** ** A descriptor table, and the witness *)

#[global] Instance gset_descriptors : Descriptors (gset Z) := {
  fd_open k fd := bool_decide (fd ∈ k);
  sys_close fd k := k ∖ {[fd]}
}.

#[global] Instance gset_descriptor_laws : DescriptorLaws (gset Z).
Proof.
  split. intros k fd fd'. simpl. destruct (Z.eqb_spec fd' fd) as [->|Hne]; simpl.
  - apply bool_decide_eq_false. set_solver.
  - apply bool_decide_ext. set_solver.
Qed.

Definition demo_handle_ops : list handle_op :=
  [OpCreate (File 5); OpCreate (Event 1); OpClose 0x10000; OpClose 0x10000; OpClose 1; OpCreate Process].

