(* ===== verification/NtWait.v ===== *)
(** * Waits through handles ([crates/ntapi/src/sync.rs])

    The API calls that resolve a handle and use the object behind it: the signal
    and release calls, [WaitForSingleObject] with a timeout of zero, and the
    polling [WaitForMultipleObjects]. The methods are those of [NtLock.v],
    [NtEvent.v] and [NtSemaphore.v], run by the calling thread alone. *)
From Stdlib Require Import ZArith Lia.
From stdpp Require Import base list option gmap.
From S2P Require Import Prelude NtFutex NtLock NtEvent NtSemaphore NtHandle.
Local Open Scope Z_scope.
Set Warnings "-register-all".

(** ** The process *)

(** The inner states the handle table points at. *)
Inductive Inner :=
  | IEvent (e : EventInner)
  | IMutex (m : LockInner)
  | ISemaphore (s : SemaphoreInner)
  | IThread.

Section Wait.
Context {K : Type} `{HK : Descriptors K}.

Record Sys := mkSys { handles : Handles (K:=K); heap : gmap Z Inner; next_inner : Z }.

(** [Arc::new] and [handle::create]. *)
Definition create_with (wrap_arc : Z -> Object) (i : Inner) (s : Sys) : Z * Sys :=
  let a := next_inner s in
  let '(h, hs) := create (wrap_arc a) (handles s) in
  (h, mkSys hs (<[a := i]> (heap s)) (a + 1)).

Definition create_event_w (manual_reset initial : Z) (s : Sys) : Z * Sys :=
  create_with Event (IEvent (event_new (negb (manual_reset =? 0)) (negb (initial =? 0)))) s.

Definition create_mutex_w (me initial_owner : Z) (s : Sys) : Z * Sys :=
  create_with Mutex (IMutex (if initial_owner =? 0 then lock_new else lock_new_owned me)) s.

Definition create_semaphore_w (initial maximum : Z) (s : Sys) : Z * Sys :=
  create_with Semaphore (ISemaphore (semaphore_new initial maximum)) s.

(** [Object::clone_ref]: an [Arc] is counted once more; a file object is a
    second owner of the same descriptor. *)
Definition clone_ref (o : Object) : Object :=
  match o with File fd => File fd | o => o end.

(** The temporary object that no arm of the caller's match takes is dropped. *)
Definition drop_temp (o : option Object) (s : Sys) : Sys :=
  match o with
  | Some o => mkSys (mkHandles (table (handles s)) (drop_object o (kernel (handles s)))) (heap s) (next_inner s)
  | None => s
  end.

Definition set_inner (a : Z) (i : Inner) (s : Sys) : Sys := mkSys (handles s) (<[a := i]> (heap s)) (next_inner s).

(** A method run to its end by the calling thread. *)
Definition call_event (me : Z) (m : event_call) (e : EventInner) : option (Z * EventInner) :=
  '(r, _, e) ← solo 10 me (event_start m fresh_local) e; Some (r, e).
Definition call_lock (me : Z) (m : lock_call) (l : LockInner) : option (Z * LockInner) :=
  '(r, _, l) ← solo 10 me (lock_start m fresh_local) l; Some (r, l).
Definition call_sem (me : Z) (m : sem_call) (s : SemaphoreInner) : option (Z * SemaphoreInner) :=
  '(r, _, s) ← solo 10 me (sem_start m fresh_local) s; Some (r, s).

(** [SetEvent], [ResetEvent] and [PulseEvent]. *)
Definition event_api (me : Z) (m : event_call) (h : Z) (s : Sys) : option (Z * Sys) :=
  match with_object h clone_ref (handles s) with
  | Some (Event a) =>
      match heap s !! a with
      | Some (IEvent e) => '(_, e) ← call_event me m e; Some (1, set_inner a (IEvent e) s)
      | _ => None
      end
  | o => Some (0, drop_temp o s)
  end.

Definition release_mutex (me h : Z) (s : Sys) : option (Z * Sys) :=
  match with_object h clone_ref (handles s) with
  | Some (Mutex a) =>
      match heap s !! a with
      | Some (IMutex m) => '(r, m) ← call_lock me CallRelease m; Some (r, set_inner a (IMutex m) s)
      | _ => None
      end
  | o => Some (0, drop_temp o s)
  end.

Definition release_semaphore (me h release : Z) (with_prev : bool) (s : Sys) : option (Z * Sys) :=
  match with_object h clone_ref (handles s) with
  | Some (Semaphore a) =>
      match heap s !! a with
      | Some (ISemaphore m) => '(r, m) ← call_sem me (SemRelease release with_prev) m; Some (r, set_inner a (ISemaphore m) s)
      | _ => None
      end
  | o => Some (0, drop_temp o s)
  end.

(** [WaitForSingleObject(handle, 0)] *)
Definition wait_for_single_object (me h : Z) (s : Sys) : option (Z * Sys) :=
  match with_object h clone_ref (handles s) with
  | Some (Event a) =>
      match heap s !! a with
      | Some (IEvent e) => '(r, e) ← call_event me CallWaitFor e; Some (r, set_inner a (IEvent e) s)
      | _ => None
      end
  | Some (Mutex a) =>
      match heap s !! a with
      | Some (IMutex m) => '(r, m) ← call_lock me CallAcquireFor m; Some (r, set_inner a (IMutex m) s)
      | _ => None
      end
  | Some (Semaphore a) =>
      match heap s !! a with
      | Some (ISemaphore m) => '(r, m) ← call_sem me SemWaitFor m; Some (r, set_inner a (ISemaphore m) s)
      | _ => None
      end
  | Some (Thread a) => Some (WAIT_OBJECT_0, s)
  | Some Process | None => Some (if h =? u64_max then WAIT_OBJECT_0 else WAIT_FAILED, s)
  | Some o => Some (WAIT_FAILED, drop_temp (Some o) s)
  end.

(** ** [WaitForMultipleObjects] *)

(** One pass over the handles: a result of the call, or whether all of them were
    signaled. *)
Fixpoint poll_pass (me : Z) (wait_all : bool) (hs : list Z) (i : Z) (all_signaled : bool) (s : Sys)
    : option ((Z + bool) * Sys) :=
  match hs with
  | [] => Some (inr all_signaled, s)
  | h :: hs =>
      '(r, s) ← wait_for_single_object me h s;
      if r =? WAIT_OBJECT_0 then
        if wait_all then poll_pass me wait_all hs (i + 1) all_signaled s
        else Some (inl (i + WAIT_OBJECT_0), s)
      else if r =? WAIT_TIMEOUT then poll_pass me wait_all hs (i + 1) false s
      else Some (inl WAIT_FAILED, s)
  end.

(** [clock n] is the reading after the [n]-th pass; [env n] is what the other
    threads do during the sleep that follows. *)
Fixpoint poll_loop (fuel : nat) (me : Z) (wait_all : bool) (hs : list Z) (deadline : option Z)
    (clock : nat -> Z) (env : nat -> Sys -> Sys) (n : nat) (s : Sys) : option (Z * Sys) :=
  match fuel with
  | O => None
  | Datatypes.S fuel =>
      '(r, s) ← poll_pass me wait_all hs 0 true s;
      match r with
      | inl r => Some (r, s)
      | inr all_signaled =>
          if wait_all && all_signaled then Some (WAIT_OBJECT_0, s)
          else
            match deadline with
            | Some d =>
                if d <=? clock n then Some (WAIT_TIMEOUT, s)
                else poll_loop fuel me wait_all hs deadline clock env (Datatypes.S n) (env n s)
            | None => poll_loop fuel me wait_all hs deadline clock env (Datatypes.S n) (env n s)
            end
      end
  end.

Definition deadline_ns (now ms : Z) : option Z := if ms =? INFINITE then None else Some (now + ms * 1000000).

(** [handles.is_null() || count == 0] is the empty list here. *)
Definition wait_for_multiple_objects (fuel : nat) (me now : Z) (hs : list Z) (wait_all : bool) (ms : Z)
    (clock : nat -> Z) (env : nat -> Sys -> Sys) (s : Sys) : option (Z * Sys) :=
  match hs with
  | [] => Some (WAIT_FAILED, s)
  | _ => poll_loop fuel me wait_all hs (deadline_ns now ms) clock env 0 s
  end.

(** ** What a wait on one handle does *)

(** The object a wait on a handle uses. *)
Definition waitable (s : Sys) (h : Z) : option (Z * Inner) :=
  match objects (table (handles s)) !! h with
  | Some (Event a) => match heap s !! a with Some (IEvent e) => Some (a, IEvent e) | _ => None end
  | Some (Mutex a) => match heap s !! a with Some (IMutex m) => Some (a, IMutex m) | _ => None end
  | Some (Semaphore a) => match heap s !! a with Some (ISemaphore m) => Some (a, ISemaphore m) | _ => None end
  | _ => None
  end.

Definition inner_ready (me : Z) (i : Inner) : bool :=
  match i with
  | IEvent e => state e =? 1
  | IMutex m => (owner m =? me) || (lock m =? 0)
  | ISemaphore m => 0 <? count m
  | IThread => true
  end.

(** The object after a satisfied wait. *)
Definition inner_take (me : Z) (i : Inner) : Inner :=
  match i with
  | IEvent e => IEvent (mkEvent (if manual_reset e then 1 else 0) (manual_reset e))
  | IMutex m => IMutex (mkLock 1 me (if owner m =? me then recursion m + 1 else 1))
  | ISemaphore m => ISemaphore (mkSem (count m - 1))
  | IThread => IThread
  end.

(** The states the objects have between calls. *)
Definition inner_ok (me : Z) (i : Inner) : Prop :=
  match i with
  | IMutex m => 0 <= recursion m < 2 ^ 32 - 1 /\ (owner m = me -> lock m = 1)
  | ISemaphore m => 0 <= count m
  | _ => True
  end.

Definition signaled (me : Z) (s : Sys) (h : Z) : bool :=
  match waitable s h with Some (_, i) => inner_ready me i | None => false end.

(** The process after the wait has taken what it could. *)
Definition acquire (me : Z) (s : Sys) (h : Z) : Sys :=
  match waitable s h with
  | Some (a, i) => if inner_ready me i then set_inner a (inner_take me i) s else s
  | None => s
  end.

Definition handle_ok (me : Z) (s : Sys) (h : Z) : Prop :=
  match waitable s h with Some (_, i) => inner_ok me i | None => False end.

Lemma set_inner_id a i s : heap s !! a = Some i -> set_inner a i s = s.
Proof. intros H. unfold set_inner. rewrite insert_id by done. by destruct s. Qed.

Lemma wait_single_spec me h s : 0 < me -> handle_ok me s h ->
  wait_for_single_object me h s =
    Some (if signaled me s h then WAIT_OBJECT_0 else WAIT_TIMEOUT, acquire me s h).
Proof.
  intros Hme. unfold handle_ok, signaled, acquire, waitable, wait_for_single_object, with_object.
  destruct (objects (table (handles s)) !! h) as [[a|a|a|a|fd|b z|]|]; cbn [fmap option_fmap option_map clone_ref];
    try done; (destruct (heap s !! a) as [[e|m|m|]|] eqn:Ea; try done); intros Hok; cbn in Hok.
  - unfold call_event. change fresh_local with (mkEvLocal (EvDone 0) 0 0). rewrite event_solo. cbn [inner_ready inner_take].
    destruct (Z.eqb_spec (state e) 1); [done|]. cbn. by rewrite set_inner_id.
  - unfold call_lock. change fresh_local with (mkLocal (Done 0) 0). rewrite acquire_solo by (done || apply Hok).
    cbn [inner_ready inner_take]. destruct ((owner m =? me) || (lock m =? 0)); [done|]. cbn. by rewrite set_inner_id.
  - unfold call_sem. change fresh_local with (mkSemLocal (SeDone 0) 0 0 0). rewrite sem_solo by done.
    cbn [inner_ready inner_take]. destruct (0 <? count m); [done|]. cbn. by rewrite set_inner_id.
Qed.

Lemma acquire_idle me s h : signaled me s h = false -> acquire me s h = s.
Proof. unfold signaled, acquire. destruct (waitable s h) as [[a i]|]; [|done]. by intros ->. Qed.

(** ** Waiting for any *)

Lemma poll_any me hs i b s : 0 < me -> Forall (handle_ok me s) hs ->
  poll_pass me false hs i b s =
    match list_find (fun h => signaled me s h = true) hs with
    | Some (k, h) => Some (inl (i + Z.of_nat k), acquire me s h)
    | None => Some (inr (b && bool_decide (hs = [])), s)
    end.
Proof.
  intros Hme Hok. revert i b. induction Hok as [|h hs Hh Hok IH]; intros i b; cbn [poll_pass list_find].
  - by rewrite bool_decide_eq_true_2, andb_true_r.
  - rewrite wait_single_spec, some_bind by done. destruct (signaled me s h) eqn:Es.
    + rewrite decide_True by done. cbn. done.
    + rewrite decide_False by done. rewrite acquire_idle by done. cbv beta iota.
      change (WAIT_TIMEOUT =? WAIT_OBJECT_0) with false. change (WAIT_TIMEOUT =? WAIT_TIMEOUT) with true. cbv iota.
      rewrite IH. destruct (list_find _ hs) as [[k h']|]; cbn [fmap option_fmap option_map prod_map].
      * do 3 f_equal. simpl. lia.
      * do 3 f_equal. rewrite (bool_decide_eq_false_2 (h :: hs = [])) by done. by rewrite andb_false_r.
Qed.

(** The process at the [n]-th pass, when no pass before it took anything. *)
Fixpoint sys_at (env : nat -> Sys -> Sys) (s : Sys) (n : nat) : Sys :=
  match n with O => s | Datatypes.S n => env n (sys_at env s n) end.

(** The outcome of waiting for any of [hs], at pass [n]. *)
Definition any_outcome (me : Z) (hs : list Z) (d : Z) (clock : nat -> Z) (st : nat -> Sys) (n : nat) (r : Z) (s' : Sys) : Prop :=
  (forall m h, (m < n)%nat -> h ∈ hs -> signaled me (st m) h = false) /\
  ((exists i h, r = Z.of_nat i /\ hs !! i = Some h /\ signaled me (st n) h = true /\
      (forall j h', (j < i)%nat -> hs !! j = Some h' -> signaled me (st n) h' = false) /\ s' = acquire me (st n) h) \/
   (r = WAIT_TIMEOUT /\ (forall h, h ∈ hs -> signaled me (st n) h = false) /\ d <= clock n /\ s' = st n)).

Lemma poll_loop_any me hs d clock env s N : 0 < me -> hs <> [] -> d <= clock N ->
  (forall n, Forall (handle_ok me (sys_at env s n)) hs) ->
  forall fuel n, (n <= N)%nat -> (N - n < fuel)%nat ->
  (forall m h, (m < n)%nat -> h ∈ hs -> signaled me (sys_at env s m) h = false) ->
  exists n' r s', poll_loop fuel me false hs (Some d) clock env n (sys_at env s n) = Some (r, s') /\ (n' <= N)%nat /\
    any_outcome me hs d clock (sys_at env s) n' r s'.
Proof.
  intros Hme Hne HN Hok. induction fuel as [|fuel IH]; intros n Hn Hf Hpast; [lia|]. cbn [poll_loop].
  rewrite poll_any by done. destruct (list_find _ hs) as [[k h]|] eqn:E; rewrite some_bind; cbv beta iota.
  - apply list_find_Some in E as (Hk & Hs & Hfirst). exists n, (0 + Z.of_nat k), (acquire me (sys_at env s n) h).
    split_and!; [done|done|split; [done|]]. left. exists k, h. split_and!; [lia|done|done| |done].
    intros j h' Hj Hh'. apply not_true_is_false. by apply (Hfirst j h').
  - apply list_find_None in E. rewrite Forall_forall in E. cbn [andb].
    assert (Hnow : forall h, h ∈ hs -> signaled me (sys_at env s n) h = false)
      by (intros h Hh; apply not_true_is_false; by apply E).
    destruct (Z.leb_spec d (clock n)).
    + exists n, WAIT_TIMEOUT, (sys_at env s n). split_and!; [done|done|split; [done|]]. by right.
    + assert (n <> N) by (intros ->; lia).
      change (env n (sys_at env s n)) with (sys_at env s (Datatypes.S n)). apply IH; [lia|lia|].
      intros m h Hm Hh. destruct (decide (m = n)) as [->|]; [by apply Hnow|apply Hpast; [lia|done]].
Qed.

(** ** Waiting for all *)

(** Handles of different objects. *)
Definition distinct (s : Sys) (hs : list Z) : Prop :=
  NoDup (map (fun h => fst <$> waitable s h) hs).

Lemma waitable_set s a i h b j : waitable s h = Some (b, j) -> a <> b -> waitable (set_inner a i s) h = Some (b, j).
Proof.
  unfold waitable. cbn [handles heap set_inner].
  destruct (objects (table (handles s)) !! h) as [[c|c|c|c|fd|c z|]|]; try done;
    (destruct (heap s !! c) as [[]|] eqn:E; try done); intros [= <- <-] Hne; by rewrite lookup_insert_ne, E.
Qed.

Lemma waitable_set_same s a h i e : waitable s h = Some (a, i) ->
  (match i, e with IEvent _, IEvent _ | IMutex _, IMutex _ | ISemaphore _, ISemaphore _ => True | _, _ => False end) ->
  waitable (set_inner a e s) h = Some (a, e).
Proof.
  unfold waitable. cbn [handles heap set_inner].
  destruct (objects (table (handles s)) !! h) as [[c|c|c|c|fd|c z|]|]; try done;
    (destruct (heap s !! c) as [[]|] eqn:E; try done); intros [= <- <-]; destruct e; try done;
    intros _; by rewrite lookup_insert_eq.
Qed.

(** Taking one object leaves the handles of the others as they are. *)
Lemma acquire_other me s h h' : is_Some (waitable s h') ->
  fst <$> waitable s h <> fst <$> waitable s h' -> waitable (acquire me s h) h' = waitable s h'.
Proof.
  intros [[b j] Hj] Hne. unfold acquire. rewrite Hj in *. destruct (waitable s h) as [[a i]|] eqn:E; [|done].
  destruct (inner_ready me i); [|done]. apply (waitable_set s a _ h' b j Hj). intros ->. by apply Hne.
Qed.

Lemma handle_ok_some me s h : handle_ok me s h -> is_Some (waitable s h).
Proof. unfold handle_ok. by destruct (waitable s h). Qed.

Lemma handle_ok_ext me s s' h : waitable s' h = waitable s h -> handle_ok me s h -> handle_ok me s' h.
Proof. unfold handle_ok. by intros ->. Qed.

Lemma signaled_ext me s s' h : waitable s' h = waitable s h -> signaled me s' h = signaled me s h.
Proof. unfold signaled. by intros ->. Qed.

(** The rest of the list after one handle is taken. *)
Lemma rest_after me s h hs : Forall (handle_ok me s) hs -> distinct s (h :: hs) ->
  (forall h', h' ∈ hs -> waitable (acquire me s h) h' = waitable s h') /\ distinct (acquire me s h) hs.
Proof.
  intros Hok Hd. unfold distinct in Hd. cbn [map] in Hd. apply NoDup_cons in Hd as [Hnin Hd].
  assert (Hsame : forall h', h' ∈ hs -> waitable (acquire me s h) h' = waitable s h').
  { intros h' Hh'. rewrite Forall_forall in Hok. apply acquire_other; [by eapply handle_ok_some, Hok|].
    intros Heq. apply Hnin. rewrite Heq. apply list_elem_of_fmap. by exists h'. }
  split; [done|]. unfold distinct. erewrite map_ext_in; [exact Hd|].
  intros h' Hh'. simpl. by rewrite Hsame by (by apply list_elem_of_In).
Qed.

Lemma poll_all me hs i b s : 0 < me -> Forall (handle_ok me s) hs -> distinct s hs ->
  poll_pass me true hs i b s = Some (inr (b && forallb (signaled me s) hs), foldl (acquire me) s hs).
Proof.
  intros Hme. revert i b s. induction hs as [|h hs IH]; intros i b s Hok Hd; cbn [poll_pass forallb foldl].
  - by rewrite andb_true_r.
  - apply Forall_cons in Hok as [Hh Hok]. destruct (rest_after me s h hs Hok Hd) as [Hsame Hd'].
    rewrite wait_single_spec, some_bind by done.
    assert (Hok' : Forall (handle_ok me (acquire me s h)) hs).
    { rewrite Forall_forall in *. intros h' Hh'. by eapply handle_ok_ext; [apply Hsame|apply Hok]. }
    assert (Hall : forallb (signaled me (acquire me s h)) hs = forallb (signaled me s) hs).
    { clear -Hsame. induction hs as [|h' hs IH]; [done|]. cbn [forallb].
      rewrite (signaled_ext me s) by (apply Hsame, list_elem_of_here). f_equal. apply IH. intros h1 Hh1.
      apply Hsame. by right. }
    destruct (signaled me s h); cbv beta iota.
    + change (WAIT_OBJECT_0 =? WAIT_OBJECT_0) with true. cbv iota. by rewrite IH, Hall.
    + change (WAIT_TIMEOUT =? WAIT_OBJECT_0) with false. change (WAIT_TIMEOUT =? WAIT_TIMEOUT) with true. cbv iota.
      rewrite IH by done. by rewrite andb_false_r.
Qed.

(** A wait does not change which object a handle uses. *)
Lemma arc_acquire me s h h' : fst <$> waitable (acquire me s h) h' = fst <$> waitable s h'.
Proof.
  unfold acquire. destruct (waitable s h) as [[a i]|] eqn:E; [|done]. destruct (inner_ready me i); [|done].
  assert (heap s !! a = Some i) as Ha.
  { unfold waitable in E. repeat (case_match; try done); by simplify_eq. }
  unfold waitable. cbn [handles heap set_inner].
  destruct (objects (table (handles s)) !! h') as [[c|c|c|c|fd|c z|]|]; try done;
    (destruct (decide (a = c)) as [<-|]; [rewrite lookup_insert_eq, Ha|by rewrite lookup_insert_ne]); by destruct i.
Qed.

Lemma acquire_all_other me hs s h a j : waitable s h = Some (a, j) ->
  (forall h', h' ∈ hs -> fst <$> waitable s h' <> Some a) ->
  waitable (foldl (acquire me) s hs) h = waitable s h.
Proof.
  revert s. induction hs as [|h1 hs IH]; intros s Hw Hne; [done|]. cbn [foldl].
  assert (waitable (acquire me s h1) h = waitable s h) as Heq.
  { apply acquire_other; [by rewrite Hw|]. rewrite Hw. by apply Hne, list_elem_of_here. }
  rewrite IH; [done|by rewrite Heq|]. intros h' Hh'. rewrite arc_acquire. apply Hne. by right.
Qed.

Lemma acquire_same me s h a i : waitable s h = Some (a, i) ->
  waitable (acquire me s h) h = Some (a, if inner_ready me i then inner_take me i else i).
Proof.
  intros Hw. unfold acquire. rewrite Hw. destruct (inner_ready me i); [|done].
  apply (waitable_set_same s a h i); [done|]. unfold waitable in Hw.
  destruct i; try done. by repeat case_match.
Qed.

(** What is left of an object after all the handles were polled. *)
Lemma acquire_all_waitable me hs s h a i : distinct s hs -> h ∈ hs -> waitable s h = Some (a, i) ->
  waitable (foldl (acquire me) s hs) h = Some (a, if inner_ready me i then inner_take me i else i).
Proof.
  revert s. induction hs as [|h1 hs IH]; intros s Hd Hin Hw; [by apply elem_of_nil in Hin|]. cbn [foldl].
  unfold distinct in Hd. cbn [map] in Hd. apply NoDup_cons in Hd as [Hnin Hd].
  assert (Hne : forall h', h' ∈ hs -> fst <$> waitable s h' <> fst <$> waitable s h1).
  { intros h' Hh' Heq. apply Hnin. rewrite <- Heq. apply list_elem_of_fmap. by exists h'. }
  apply elem_of_cons in Hin as [->|Hin].
  - pose proof (acquire_same me s h1 a i Hw) as Hs. erewrite acquire_all_other; [exact Hs|exact Hs|].
    intros h' Hh'. rewrite arc_acquire. specialize (Hne h' Hh'). by rewrite Hw in Hne.
  - assert (waitable (acquire me s h1) h = waitable s h) as Heq.
    { apply acquire_other; [by rewrite Hw|]. intros Heq. by apply (Hne h Hin). }
    apply IH; [|done|by rewrite Heq]. unfold distinct. by setoid_rewrite arc_acquire.
Qed.
End Wait.

(** [WaitForMultipleObjects] for any object. With a deadline the clock
    reaches at pass [N] it returns by then. The result is the index of the first
    signaled handle, taken at the first pass that finds one, and that wait alone
    is taken; or a timeout at a pass past the deadline, with no handle signaled
    then or before, and nothing taken. *)
Theorem wait_any_correct {K} `{HK : Descriptors K} me hs now ms clock (env : nat -> Sys (K:=K) -> Sys) s N fuel :
  0 < me -> hs <> [] -> ms <> INFINITE -> now + ms * 1000000 <= clock N -> (N < fuel)%nat ->
  (forall n, Forall (handle_ok me (sys_at env s n)) hs) ->
  exists n r s', wait_for_multiple_objects fuel me now hs false ms clock env s = Some (r, s') /\ (n <= N)%nat /\
    any_outcome me hs (now + ms * 1000000) clock (sys_at env s) n r s'.
Proof.
  intros Hme Hne Hms HN Hf Hok. unfold wait_for_multiple_objects, deadline_ns.
  destruct hs as [|h hs]; [done|]. destruct (Z.eqb_spec ms INFINITE); [done|].
  change s with (sys_at env s 0) at 1. apply (poll_loop_any me (h :: hs) _ clock env s N); try done; lia.
Qed.

(** [WaitForMultipleObjects] for all objects, polled once. The wait
    succeeds exactly when every handle is signaled; but each signaled object is
    taken in either case. After a timeout the signals of the auto-reset events
    that were up are gone. *)
Theorem wait_all_takes {K} `{HK : Descriptors K} me hs now clock env (s : Sys (K:=K)) fuel :
  0 < me -> hs <> [] -> now <= clock 0%nat -> (0 < fuel)%nat -> Forall (handle_ok me s) hs -> distinct s hs ->
  wait_for_multiple_objects fuel me now hs true 0 clock env s =
    Some (if forallb (signaled me s) hs then WAIT_OBJECT_0 else WAIT_TIMEOUT, foldl (acquire me) s hs) /\
  (forall h a e, h ∈ hs -> waitable s h = Some (a, IEvent e) -> manual_reset e = false ->
    signaled me (foldl (acquire me) s hs) h = false).
Proof.
  intros Hme Hne Hnow Hf Hok Hd. split.
  - unfold wait_for_multiple_objects. destruct hs as [|h hs]; [done|]. destruct fuel as [|fuel]; [lia|].
    cbn [poll_loop]. rewrite poll_all, some_bind by done. cbv beta iota. rewrite andb_true_l.
    destruct (forallb _ _); [done|]. cbn [andb]. unfold deadline_ns. change (0 =? INFINITE) with false. cbv iota.
    rewrite Z.mul_0_l, Z.add_0_r. by rewrite (proj2 (Z.leb_le _ _) Hnow).
  - intros h a e Hin Hw Hauto. unfold signaled. rewrite (acquire_all_waitable me hs s h a (IEvent e)) by done.
    cbn [inner_ready]. destruct (Z.eqb_spec (state e) 1); cbn; [by rewrite Hauto|lia].
Qed.

(** A call on a file handle closes the file. Every call that resolves a
    handle by cloning its object and finds a file fails, as it should; but the
    clone it drops owns the descriptor too, so the file is closed while its
    handle still names it. *)
Theorem clone_ref_closes_file {K} `{HK : DescriptorLaws K} (s : Sys (K:=K)) me h fd m n p :
  objects (table (handles s)) !! h = Some (File fd) -> 0 <= fd ->
  exists s', event_api me m h s = Some (0, s') /\ release_mutex me h s = Some (0, s') /\
    release_semaphore me h n p s = Some (0, s') /\ wait_for_single_object me h s = Some (WAIT_FAILED, s') /\
    objects (table (handles s')) !! h = Some (File fd) /\ fd_open (kernel (handles s')) fd = false /\
    (forall fd', fd' <> fd -> fd_open (kernel (handles s')) fd' = fd_open (kernel (handles s)) fd').
Proof.
  intros Ho Hfd. exists (drop_temp (Some (File fd)) s).
  unfold event_api, release_mutex, release_semaphore, wait_for_single_object, with_object. rewrite Ho.
  cbn [fmap option_fmap option_map clone_ref drop_temp handles table kernel drop_object].
  rewrite (proj2 (Z.leb_le _ _) Hfd). split_and!; try done.
  - rewrite close_open. by rewrite Z.eqb_refl.
  - intros fd' Hne. rewrite close_open. by destruct (Z.eqb_spec fd' fd).
Qed.

(** ** Witnesses

    An event that is up, one that is down, a semaphore and a file. *)

Definition demo_sys0 : Sys (K:=gset Z) := mkSys (mkHandles table_new {[7]}) ∅ 1.

Definition demo_sys : Sys (K:=gset Z) :=
  let s := snd (create_event_w 0 0 demo_sys0) in
  let s := snd (create_semaphore_w 2 5 s) in
  let s := snd (create_event_w 0 1 s) in
  mkSys (snd (create (File 7) (handles s))) (heap s) (next_inner s).

Definition demo_down : Z := 0x10000.
Definition demo_semaphore : Z := 0x10001.
Definition demo_up : Z := 0x10002.
Definition demo_file : Z := 0x10003.

Lemma demo_handles_ok : Forall (handle_ok 1 demo_sys) [demo_down; demo_semaphore; demo_up].
Proof. repeat constructor; vm_compute; done. Qed.

Lemma wait_any_correct_witness :
  exists n r s', wait_for_multiple_objects 5 1 0 [demo_down; demo_semaphore; demo_up] false 3 (fun n => 3000000 * Z.of_nat n)
      (fun _ s => s) demo_sys = Some (r, s') /\ (n <= 1)%nat /\
    any_outcome 1 [demo_down; demo_semaphore; demo_up] (0 + 3 * 1000000) (fun n => 3000000 * Z.of_nat n)
      (sys_at (fun _ s => s) demo_sys) n r s'.
Proof.
  assert (Hat : forall n, sys_at (fun _ s => s) demo_sys n = demo_sys) by (induction n as [|n IH]; [done|exact IH]).
  apply (wait_any_correct 1 [demo_down; demo_semaphore; demo_up] 0 3 (fun n => 3000000 * Z.of_nat n) (fun _ s => s) demo_sys 1 5);
    [lia|done|done|simpl; lia|lia|]. intros n. rewrite Hat. exact demo_handles_ok.
Defined.

Lemma wait_all_takes_witness :
  exists s', wait_for_multiple_objects 1 1 0 [demo_down; demo_up] true 0 (fun _ => 0) (fun _ s => s) demo_sys =
      Some (WAIT_TIMEOUT, s') /\
    signaled 1 demo_sys demo_up = true /\ signaled 1 s' demo_up = false.
Proof.
  assert (Hok : Forall (handle_ok 1 demo_sys) [demo_down; demo_up]) by (repeat constructor; vm_compute; done).
  assert (Hd : distinct demo_sys [demo_down; demo_up]) by (apply (bool_decide_eq_true_1 _); by vm_compute).
  destruct (wait_all_takes 1 [demo_down; demo_up] 0 (fun _ => 0) (fun _ s => s) demo_sys 1 ltac:(lia) ltac:(done)
    ltac:(simpl; lia) ltac:(lia) Hok Hd) as [Hw Hgone].
  eexists. split; [exact Hw|]. split; [by vm_compute|].
  apply (Hgone demo_up 3 (mkEvent 1 false)); [by right; left|by vm_compute|done].
Defined.

Lemma clone_ref_closes_file_witness : exists s',
  event_api 1 CallSet demo_file demo_sys = Some (0, s') /\ fd_open (kernel (handles demo_sys)) 7 = true /\
  fd_open (kernel (handles s')) 7 = false.
Proof.
  destruct (clone_ref_closes_file demo_sys 1 demo_file 7 CallSet 0 false ltac:(by vm_compute) ltac:(lia))
    as (s' & He & _ & _ & _ & _ & Hc & _).
  exists s'. split; [exact He|]. split; [by vm_compute|exact Hc].
Defined.
