(* ===== verification/NtTls.v ===== *)
(** * Slots of thread-local storage ([ntapi/src/thread.rs])

    [TlsAlloc], [TlsFree], [TlsGetValue] and [TlsSetValue] over the 64 slots of the
    process, each with a lock of its own: [TlsAlloc] looks at one slot after the
    other, and calls of other threads come between its looks. *)
From Stdlib Require Import ZArith Lia.
From stdpp Require Import base list option gmap.
From S2P Require Import Prelude.
Local Open Scope Z_scope.
Set Warnings "-register-all".

(** ** The slots *)

Definition TLS_MINIMUM_AVAILABLE : Z := 64.
Definition TLS_OUT_OF_INDEXES : Z := 0xFFFFFFFF.

(** [values] is keyed by thread id. *)
Record TlsSlot : Type := mkSlot { in_use : bool; values : gmap Z Z }.

Definition tls_slots : list TlsSlot := replicate (Z.to_nat TLS_MINIMUM_AVAILABLE) (mkSlot false ∅).

Definition slot_at (slots : list TlsSlot) (index : Z) : TlsSlot := nth (Z.to_nat index) slots (mkSlot false ∅).

(** One look of the loop of [tls_alloc], under the lock of the slot: taken or not. *)
Definition tls_look (i : Z) (slots : list TlsSlot) : bool * list TlsSlot :=
  if in_use (slot_at slots i) then (false, slots)
  else (true, <[Z.to_nat i := mkSlot true (values (slot_at slots i))]> slots).

(** The loop of a thread that is alone. *)
Fixpoint tls_alloc_from (n : nat) (i : Z) (slots : list TlsSlot) : Z * list TlsSlot :=
  match n with
  | O => (TLS_OUT_OF_INDEXES, slots)
  | S n => let '(taken, slots) := tls_look i slots in if taken then (i, slots) else tls_alloc_from n (i + 1) slots
  end.

Definition tls_alloc (slots : list TlsSlot) : Z * list TlsSlot := tls_alloc_from (length slots) 0 slots.

(** The values go while the lock of [in_use] is held. *)
Definition tls_free (index : Z) (slots : list TlsSlot) : Z * list TlsSlot :=
  if index >=? TLS_MINIMUM_AVAILABLE then (0, slots)
  else if negb (in_use (slot_at slots index)) then (0, slots)
  else (1, <[Z.to_nat index := mkSlot false ∅]> slots).

Definition tls_get_value (tid index : Z) (slots : list TlsSlot) : Z :=
  if index >=? TLS_MINIMUM_AVAILABLE then 0
  else default 0 (values (slot_at slots index) !! tid).

Definition tls_set_value (tid index value : Z) (slots : list TlsSlot) : Z * list TlsSlot :=
  if index >=? TLS_MINIMUM_AVAILABLE then (0, slots)
  else
    let slot := slot_at slots index in
    (1, <[Z.to_nat index := mkSlot (in_use slot) (<[tid := value]> (values slot))]> slots).

(** ** Threads

    The events of a run: a thread enters [TlsAlloc], looks at its next slot, or makes
    one of the other calls, which touch one slot under its locks. *)
Inductive event : Type :=
  | EvAlloc (t : Z)
  | EvLook (t : Z)
  | EvFree (t i : Z)
  | EvGet (t i : Z)
  | EvSet (t i v : Z).

(** The slots, and where each thread inside [TlsAlloc] has got to. *)
Record TlsState : Type := mkTls { slots : list TlsSlot; scanning : gmap Z Z }.

Definition tls_start : TlsState := mkTls tls_slots ∅.

(** The answer is the value returned, if the event returns. *)
Definition tls_step (e : event) (s : TlsState) : option (option Z * TlsState) :=
  match e with
  | EvAlloc t => match scanning s !! t with None => Some (None, mkTls (slots s) (<[t := 0]> (scanning s))) | Some _ => None end
  | EvLook t =>
      match scanning s !! t with
      | Some i =>
          if i >=? TLS_MINIMUM_AVAILABLE then Some (Some TLS_OUT_OF_INDEXES, mkTls (slots s) (delete t (scanning s)))
          else
            let '(taken, sl) := tls_look i (slots s) in
            if taken then Some (Some i, mkTls sl (delete t (scanning s)))
            else Some (None, mkTls sl (<[t := i + 1]> (scanning s)))
      | None => None
      end
  | EvFree t i => let '(r, sl) := tls_free i (slots s) in Some (Some r, mkTls sl (scanning s))
  | EvGet t i => Some (Some (tls_get_value t i (slots s)), s)
  | EvSet t i v => let '(r, sl) := tls_set_value t i v (slots s) in Some (Some r, mkTls sl (scanning s))
  end.

(** The history of a run, the latest event first. *)
Definition history : Type := list (event * option Z).

Fixpoint tls_run (evs : list event) (h : history) (s : TlsState) : option (history * TlsState) :=
  match evs with
  | [] => Some (h, s)
  | e :: evs => match tls_step e s with Some (r, s') => tls_run evs ((e, r) :: h) s' | None => None end
  end.

(** ** What the slots promise *)

Fixpoint granted (i : Z) (h : history) : nat :=
  match h with
  | (EvLook _, Some r) :: h => (if r =? i then 1 else 0) + granted i h
  | _ :: h => granted i h
  | [] => 0
  end.

Fixpoint released (i : Z) (h : history) : nat :=
  match h with
  | (EvFree _ j, Some r) :: h => (if (j =? i) && (r =? 1) then 1 else 0) + released i h
  | _ :: h => released i h
  | [] => 0
  end.

(** What a thread last set in a slot since the slot was last freed. *)
Fixpoint last_set (t i : Z) (h : history) : Z :=
  match h with
  | (EvSet t' j v, Some r) :: h => if (t' =? t) && (j =? i) && (r =? 1) then v else last_set t i h
  | (EvFree _ j, Some r) :: h => if (j =? i) && (r =? 1) then 0 else last_set t i h
  | _ :: h => last_set t i h
  | [] => 0
  end.

(** Every read gave what its thread had last set. *)
Fixpoint reads_ok (h : history) : Prop :=
  match h with
  | (EvGet t i, r) :: h => r = Some (if i >=? TLS_MINIMUM_AVAILABLE then 0 else last_set t i h) /\ reads_ok h
  | _ :: h => reads_ok h
  | [] => True
  end.

(** The latest event of a history, taken apart. *)
Ltac step_history :=
  cbn [slots scanning granted released last_set reads_ok];
  try change (0 =? 1) with false; try change (1 =? 1) with true.

(** Indices are 32-bit words. *)
Definition event_ok (e : event) : Prop := match e with EvFree _ i | EvGet _ i | EvSet _ i _ => 0 <= i | _ => True end.

Record tls_inv (h : history) (s : TlsState) : Prop := {
  ti_length : length (slots s) = Z.to_nat TLS_MINIMUM_AVAILABLE;
  ti_scan : forall t i, scanning s !! t = Some i -> 0 <= i;
  ti_owned : forall i, 0 <= i < TLS_MINIMUM_AVAILABLE ->
    granted i h = (released i h + if in_use (slot_at (slots s) i) then 1 else 0)%nat;
  ti_values : forall t i, 0 <= i < TLS_MINIMUM_AVAILABLE -> default 0 (values (slot_at (slots s) i) !! t) = last_set t i h;
  ti_reads : reads_ok h
}.

Lemma slot_insert (sl : list TlsSlot) i j x : 0 <= i -> 0 <= j -> (Z.to_nat i < length sl)%nat ->
  slot_at (<[Z.to_nat i := x]> sl) j = if i =? j then x else slot_at sl j.
Proof.
  intros Hi Hj Hl. unfold slot_at. destruct (Z.eqb_spec i j) as [->|Hne].
  - apply nth_lookup_Some. by apply list_lookup_insert_eq.
  - rewrite !nth_lookup. by rewrite list_lookup_insert_ne by lia.
Qed.

Lemma tls_inv_start : tls_inv [] tls_start.
Proof.
  assert (Hs : forall i, slot_at tls_slots i = mkSlot false ∅).
  { intros i. unfold slot_at, tls_slots. rewrite nth_lookup. destruct (replicate _ _ !! _) eqn:E; [|done]. by apply lookup_replicate in E as [-> _]. }
  split; cbn [slots scanning tls_start]; [done|intros t i Ht; by rewrite lookup_empty in Ht| | |done].
  - intros i _. by rewrite Hs.
  - intros t i _. by rewrite Hs.
Qed.

Lemma tls_inv_step e h s r s' : event_ok e -> tls_inv h s -> tls_step e s = Some (r, s') -> tls_inv ((e, r) :: h) s'.
Proof.
  intros He [H1 H2 H3 H4 H5] Hst. assert (Hlen : forall i, 0 <= i < TLS_MINIMUM_AVAILABLE -> (Z.to_nat i < length (slots s))%nat) by (rewrite H1; unfold TLS_MINIMUM_AVAILABLE; lia).
  destruct e as [t|t|t i|t i|t i v]; cbn [tls_step event_ok] in *.
  - destruct (scanning s !! t); [done|]. injection Hst as <- <-. split; step_history; [done| |done|done|done].
    intros t' j [[<- <-]|[_ Hj]]%lookup_insert_Some; [done|by eapply H2].
  - destruct (scanning s !! t) as [i|] eqn:Ei; [|done]. pose proof (H2 t i Ei) as Hi0. destruct (Z.geb_spec i TLS_MINIMUM_AVAILABLE) as [Hge|Hlt].
    { injection Hst as <- <-. split; step_history; [done| | |done|done].
      - intros t' j [_ Hj]%lookup_delete_Some. by eapply H2.
      - intros j Hj. unfold TLS_MINIMUM_AVAILABLE, TLS_OUT_OF_INDEXES in *. rewrite (proj2 (Z.eqb_neq _ _)) by lia. by apply H3. }
    unfold tls_look in Hst. destruct (in_use (slot_at (slots s) i)) eqn:Eu; injection Hst as <- <-.
    + split; step_history; [done| |done|done|done]. intros t' j [[<- <-]|[_ Hj]]%lookup_insert_Some; [lia|by eapply H2].
    + split; step_history; [by rewrite length_insert| | | |done].
      * intros t' j [_ Hj]%lookup_delete_Some. by eapply H2.
      * intros j Hj. rewrite slot_insert by (lia || apply Hlen; lia). specialize (H3 j Hj).
        destruct (Z.eqb_spec i j) as [->|Hne]; cbn [in_use]; [rewrite Eu in H3; lia|done].
      * intros t' j Hj. rewrite slot_insert by (lia || apply Hlen; lia). destruct (Z.eqb_spec i j) as [->|Hne]; cbn [values]; by apply H4.
  - unfold tls_free in Hst. destruct (Z.geb_spec i TLS_MINIMUM_AVAILABLE) as [Hge|Hlt].
    { injection Hst as <- <-. split; step_history; try done; intros; rewrite andb_false_r; by auto. }
    destruct (in_use (slot_at (slots s) i)) eqn:Eu; injection Hst as <- <-.
    2:{ split; step_history; try done; intros; rewrite andb_false_r; by auto. }
    split; step_history; [by rewrite length_insert|done| | |done].
    + intros j Hj. rewrite slot_insert by (lia || apply Hlen; lia). specialize (H3 j Hj). rewrite andb_true_r.
      destruct (Z.eqb_spec i j) as [->|Hne]; cbn [in_use]; [rewrite Eu in H3; lia|done].
    + intros t' j Hj. rewrite slot_insert by (lia || apply Hlen; lia). rewrite andb_true_r. destruct (Z.eqb_spec i j) as [->|Hne]; cbn [values]; [done|by apply H4].
  - injection Hst as <- <-. split; step_history; try done. split; [|done]. unfold tls_get_value. f_equal.
    destruct (Z.geb_spec i TLS_MINIMUM_AVAILABLE); [done|]. apply H4. lia.
  - unfold tls_set_value in Hst. destruct (Z.geb_spec i TLS_MINIMUM_AVAILABLE) as [Hge|Hlt]; injection Hst as <- <-.
    { split; step_history; try done. intros t' j Hj. rewrite andb_false_r. by apply H4. }
    split; step_history; [by rewrite length_insert|done| | |done].
    + intros j Hj. rewrite slot_insert by (lia || apply Hlen; lia). destruct (Z.eqb_spec i j) as [->|Hne]; cbn [in_use]; by apply H3.
    + intros t' j Hj. rewrite slot_insert by (lia || apply Hlen; lia). rewrite andb_true_r.
      destruct (Z.eqb_spec i j) as [->|Hne]; cbn [values]; [|rewrite andb_false_r; by apply H4]. rewrite andb_true_r.
      destruct (Z.eqb_spec t t') as [->|Ht]; [by rewrite lookup_insert_eq|]. rewrite lookup_insert_ne by done. by apply H4.
Qed.

Lemma tls_inv_run evs : forall h s h' s', Forall event_ok evs -> tls_inv h s -> tls_run evs h s = Some (h', s') -> tls_inv h' s'.
Proof.
  induction evs as [|e evs IH]; intros h s h' s' He Hi Hr; cbn in Hr; [by injection Hr as <- <-|]. inversion_clear He as [|? ? He1 Hes].
  destruct (tls_step e s) as [[r s1]|] eqn:Es; [|done]. eapply IH; [done| |exact Hr]. by eapply tls_inv_step.
Qed.

(** C27. Slots of thread-local storage under every interleaving of threads: each slot is
    granted exactly once more than it was successfully freed while it is in use, and
    as often while it is not, so no two owners hold a slot at once; and every read
    gives what its own thread last set in that slot since the slot was last freed,
    zero if nothing, whatever other threads set. *)
Theorem tls_slots_correct evs h s : Forall event_ok evs -> tls_run evs [] tls_start = Some (h, s) ->
  (forall i, 0 <= i < TLS_MINIMUM_AVAILABLE ->
     granted i h = (released i h + if in_use (slot_at (slots s) i) then 1 else 0)%nat) /\
  reads_ok h /\
  (forall t i, 0 <= i < TLS_MINIMUM_AVAILABLE -> tls_get_value t i (slots s) = last_set t i h).
Proof.
  intros He Hr. destruct (tls_inv_run evs [] tls_start h s He tls_inv_start Hr) as [_ _ H3 H4 H5]. split; [done|]. split; [done|].
  intros t i Hi. unfold tls_get_value. destruct (Z.geb_spec i TLS_MINIMUM_AVAILABLE); [lia|]. by apply H4.
Qed.

(** The loop of [TlsAlloc] ends: every look moves to the next slot or returns. *)
Theorem tls_alloc_ends s t i : scanning s !! t = Some i ->
  exists r s', tls_step (EvLook t) s = Some (r, s') /\
    match r with Some _ => scanning s' !! t = None | None => scanning s' !! t = Some (i + 1) /\ i < TLS_MINIMUM_AVAILABLE end.
Proof.
  intros Hi. cbn [tls_step]. rewrite Hi. destruct (Z.geb_spec i TLS_MINIMUM_AVAILABLE) as [Hge|Hlt].
  - eexists _, _. split; [reflexivity|]. cbn. by rewrite lookup_delete_eq.
  - destruct (tls_look i (slots s)) as [[] sl]; eexists _, _; (split; [reflexivity|]); cbn.
    + by rewrite lookup_delete_eq.
    + rewrite lookup_insert_eq. split; [done|lia].
Qed.

(** A thread alone gets the first slot not in use. *)
Lemma tls_alloc_from_spec n : forall i sl, 0 <= i -> (Z.to_nat i + n)%nat = length sl ->
  let '(r, sl') := tls_alloc_from n i sl in
  (r = TLS_OUT_OF_INDEXES /\ sl' = sl /\ forall j, i <= j < Z.of_nat (length sl) -> in_use (slot_at sl j) = true) \/
  (i <= r < Z.of_nat (length sl) /\ in_use (slot_at sl r) = false /\ (forall j, i <= j < r -> in_use (slot_at sl j) = true) /\
   sl' = <[Z.to_nat r := mkSlot true (values (slot_at sl r))]> sl).
Proof.
  induction n as [|n IH]; intros i sl Hi Hn; cbn [tls_alloc_from].
  - left. split; [done|]. split; [done|]. lia.
  - unfold tls_look. destruct (in_use (slot_at sl i)) eqn:Eu.
    + specialize (IH (i + 1) sl ltac:(lia) ltac:(lia)). destruct (tls_alloc_from n (i + 1) sl) as [r sl'].
      assert (Hj : forall j k, i <= j -> (forall j, i + 1 <= j < k -> in_use (slot_at sl j) = true) -> j < k -> in_use (slot_at sl j) = true).
      { intros j k H1 H2 H3. destruct (decide (j = i)) as [->|]; [done|]. apply H2. lia. }
      destruct IH as [(-> & -> & IH)|(H1 & H2 & H3 & ->)].
      * left. split; [done|]. split; [done|]. intros j Hjr. apply (Hj j (Z.of_nat (length sl))); [lia|exact IH|lia].
      * right. split; [lia|]. split; [done|]. split; [|done]. intros j Hjr. apply (Hj j r); [lia|exact H3|lia].
    + right. split; [lia|]. split; [done|]. split; [lia|done].
Qed.

Theorem tls_alloc_first_free sl : let '(r, sl') := tls_alloc sl in
  (r = TLS_OUT_OF_INDEXES /\ sl' = sl /\ forall j, 0 <= j < Z.of_nat (length sl) -> in_use (slot_at sl j) = true) \/
  (0 <= r < Z.of_nat (length sl) /\ in_use (slot_at sl r) = false /\ (forall j, 0 <= j < r -> in_use (slot_at sl j) = true) /\
   sl' = <[Z.to_nat r := mkSlot true (values (slot_at sl r))]> sl).
Proof. by apply (tls_alloc_from_spec (length sl) 0 sl). Qed.

(** A value set in a slot that no one owns stays there: the owner that [TlsAlloc] gives
    the slot to reads it. *)
Theorem tls_stale_value t t' v : exists h s,
  tls_run [EvSet t 0 v; EvAlloc t'; EvLook t'; EvGet t 0] [] tls_start = Some (h, s) /\
  h = [(EvGet t 0, Some v); (EvLook t', Some 0); (EvAlloc t', None); (EvSet t 0 v, Some 1)].
Proof.
  set (sl1 := <[0%nat := mkSlot false (<[t := v]> ∅)]> tls_slots). set (sl2 := <[0%nat := mkSlot true (<[t := v]> ∅)]> sl1).
  assert (S1 : tls_step (EvSet t 0 v) tls_start = Some (Some 1, mkTls sl1 ∅)) by reflexivity.
  assert (S2 : tls_step (EvAlloc t') (mkTls sl1 ∅) = Some (None, mkTls sl1 (<[t' := 0]> ∅))) by (cbn [tls_step scanning]; by rewrite lookup_empty).
  assert (S3 : tls_step (EvLook t') (mkTls sl1 (<[t' := 0]> ∅)) = Some (Some 0, mkTls sl2 (delete t' (<[t' := 0]> ∅)))).
  { cbn [tls_step scanning]. by rewrite lookup_insert_eq. }
  assert (S4 : tls_get_value t 0 sl2 = v).
  { change (default 0 ((<[t := v]> ∅ : gmap Z Z) !! t) = v). by rewrite lookup_insert_eq. }
  eexists _, _. split; [|reflexivity]. cbn [tls_run]. rewrite S1. cbn [tls_run]. rewrite S2. cbn [tls_run]. rewrite S3.
  cbn [tls_run tls_step slots]. by rewrite S4.
Qed.

Definition some_free (s : TlsState) : bool := existsb (fun sl => negb (in_use sl)) (slots s).

(** A slot is free before and after every event of the run. *)
Fixpoint always_free (evs : list event) (s : TlsState) : bool :=
  some_free s && match evs with
  | [] => true
  | e :: evs => match tls_step e s with Some (_, s') => always_free evs s' | None => false end
  end.

(** [TlsAlloc] may find no slot although one is free all along: it looks at the slots
    one by one, and a slot behind it is freed before the one ahead is taken. *)
Theorem tls_alloc_may_miss : exists prefix evs h s h' s',
  tls_run prefix [] tls_start = Some (h, s) /\ always_free evs s = true /\
  tls_run evs [] s = Some ((EvLook 1, Some TLS_OUT_OF_INDEXES) :: h', s').
Proof.
  set (take_one := fun n => EvAlloc 3 :: replicate (S n) (EvLook 3)).
  set (prefix := concat (map take_one (seq 0 63))).
  set (evs := [EvAlloc 1; EvAlloc 2] ++ replicate 63 (EvLook 1) ++ replicate 63 (EvLook 2) ++ [EvFree 3 0; EvLook 2; EvLook 1; EvLook 1]).
  exists prefix, evs. set (hs := default ([], tls_start) (tls_run prefix [] tls_start)).
  set (hs' := default ([], tls_start) (tls_run evs [] hs.2)).
  exists hs.1, hs.2, (tail hs'.1), hs'.2. split; [vm_compute; reflexivity|]. split; [vm_compute; reflexivity|]. vm_compute. reflexivity.
Qed.

(** ** A concrete run: two threads, one slot each, and a free between. *)

Definition tls_events : list event :=
  [EvAlloc 7; EvAlloc 8; EvLook 7; EvLook 8; EvLook 8; EvSet 7 0 11; EvSet 8 0 12; EvGet 7 0; EvGet 8 1; EvFree 7 0; EvGet 7 0].

Lemma tls_slots_correct_witness : exists h s, tls_run tls_events [] tls_start = Some (h, s) /\ reads_ok h /\
  granted 0 h = 1%nat /\ released 0 h = 1%nat /\ granted 1 h = 1%nat /\ tls_get_value 8 0 (slots s) = 0.
Proof.
  destruct (tls_run tls_events [] tls_start) as [[h s]|] eqn:E; [|exfalso; vm_compute in E; discriminate E].
  exists h, s. destruct (tls_slots_correct tls_events h s) as (_ & H2 & H3).
  - repeat constructor; discriminate.
  - exact E.
  - split; [reflexivity|]. split; [exact H2|]. rewrite (H3 8 0) by (split; [discriminate|reflexivity]).
    assert (Hh : h = fst (default ([], tls_start) (tls_run tls_events [] tls_start))) by (rewrite E; reflexivity).
    rewrite Hh. vm_compute. repeat split; reflexivity.
Defined.
