(* ===== verification/Utf.v ===== *)
(** * Text encodings

    A Rust string is its characters; guests hold text as UTF-16 units or UTF-8
    bytes. The conversions are those of the standard library that the string,
    path and registry calls use. *)
From Stdlib Require Import ZArith Lia Ascii String.
From stdpp Require Import base list option.
From S2P Require Import Prelude.
Local Open Scope Z_scope.
Set Warnings "-register-all".

(** A Rust [String] as its characters, and a UTF-16 buffer as its code units. *)
Definition rstring : Type := list Z.

Definition chars_of (s : string) : rstring := map (fun c => Z.of_nat (nat_of_ascii c)) (list_ascii_of_string s).

Definition REPLACEMENT : Z := 0xFFFD.

(** [String::from_utf16_lossy]: an unpaired surrogate is the replacement
    character, and the unit after an unpaired high one is read again. *)
Fixpoint from_utf16_lossy (us : list Z) : rstring :=
  match us with
  | [] => []
  | u :: us1 =>
      if negb (Z.land u 0xF800 =? 0xD800) then u :: from_utf16_lossy us1
      else if 0xDC00 <=? u then REPLACEMENT :: from_utf16_lossy us1
      else
        match us1 with
        | [] => [REPLACEMENT]
        | u2 :: us2 =>
            if (u2 <? 0xDC00) || (0xDFFF <? u2) then REPLACEMENT :: from_utf16_lossy us1
            else Z.lor (Z.shiftl (Z.land u 0x3FF) 10) (Z.land u2 0x3FF) + 0x10000 :: from_utf16_lossy us2
        end
  end.

(** [str::encode_utf16] *)
Definition encode_char (c : Z) : list Z :=
  if c <? 0x10000 then [c]
  else let c := c - 0x10000 in [Z.lor 0xD800 (Z.shiftr c 10); Z.lor 0xDC00 (Z.land c 0x3FF)].

Definition encode_utf16 (s : rstring) : list Z := concat (map encode_char s).

(** [str::as_bytes]: the UTF-8 form of a character. *)
Definition utf8_char (c : Z) : list Z :=
  if c <? 0x80 then [c]
  else if c <? 0x800 then [Z.lor 0xC0 (Z.shiftr c 6); Z.lor 0x80 (Z.land c 0x3F)]
  else if c <? 0x10000 then
    [Z.lor 0xE0 (Z.shiftr c 12); Z.lor 0x80 (Z.land (Z.shiftr c 6) 0x3F); Z.lor 0x80 (Z.land c 0x3F)]
  else
    [Z.lor 0xF0 (Z.shiftr c 18); Z.lor 0x80 (Z.land (Z.shiftr c 12) 0x3F);
     Z.lor 0x80 (Z.land (Z.shiftr c 6) 0x3F); Z.lor 0x80 (Z.land c 0x3F)].

Definition utf8_bytes (s : rstring) : list Z := concat (map utf8_char s).

Definition between (lo hi x : Z) : bool := (lo <=? x) && (x <=? hi).

Definition continuation (b : Z) : bool := between 0x80 0xBF b.

(** [String::from_utf8]: the well-formed byte sequences of Unicode, without
    overlong forms, surrogates and values past the last character. *)
Fixpoint from_utf8 (bs : list Z) : option rstring :=
  match bs with
  | [] => Some []
  | b :: bs1 =>
      if b <? 0x80 then c ← from_utf8 bs1; Some (b :: c)
      else
        match bs1 with
        | [] => None
        | b1 :: bs2 =>
            if between 0xC2 0xDF b && continuation b1 then
              c ← from_utf8 bs2; Some (Z.land b 0x1F * 64 + Z.land b1 0x3F :: c)
            else
              match bs2 with
              | [] => None
              | b2 :: bs3 =>
                  if (((b =? 0xE0) && between 0xA0 0xBF b1) || (between 0xE1 0xEC b && continuation b1) ||
                      ((b =? 0xED) && between 0x80 0x9F b1) || (between 0xEE 0xEF b && continuation b1)) &&
                     continuation b2
                  then
                    c ← from_utf8 bs3;
                    Some ((Z.land b 0xF * 64 + Z.land b1 0x3F) * 64 + Z.land b2 0x3F :: c)
                  else
                    match bs3 with
                    | [] => None
                    | b3 :: bs4 =>
                        if (((b =? 0xF0) && between 0x90 0xBF b1) || (between 0xF1 0xF3 b && continuation b1) ||
                            ((b =? 0xF4) && between 0x80 0x8F b1)) && continuation b2 && continuation b3
                        then
                          c ← from_utf8 bs4;
                          Some (((Z.land b 0x7 * 64 + Z.land b1 0x3F) * 64 + Z.land b2 0x3F) * 64 + Z.land b3 0x3F :: c)
                        else None
                    end
              end
        end
  end.

(** ** UTF-16 *)

(** A character: a Unicode scalar value. *)
Definition scalar (c : Z) : Prop := 0 <= c < 0xD800 \/ 0xE000 <= c < 0x110000.

Lemma surrogate_test u : 0 <= u < 0x10000 ->
  (Z.land u 0xF800 =? 0xD800) = (0xD800 <=? u) && (u <? 0xE000).
Proof.
  intros Hu. change 0xF800 with (Z.land (Z.ones 16) (Z.lnot (2 ^ 11 - 1))).
  rewrite Z.land_assoc, Z.land_ones, Z.mod_small, land_lnot_ones by lia. change (2 ^ 11) with 2048.
  Z.to_euclidean_division_equations. lia.
Qed.

Lemma encode_pair c : 0x10000 <= c < 0x110000 ->
  encode_char c = [0xD800 + (c - 0x10000) / 1024; 0xDC00 + (c - 0x10000) mod 1024].
Proof.
  intros Hc. unfold encode_char. destruct (Z.ltb_spec c 0x10000); [lia|].
  change 0x3FF with (Z.ones 10). rewrite Z.land_ones, Z.shiftr_div_pow2 by lia. change (2 ^ 10) with 1024.
  change 0xD800 with (Z.shiftl 54 10). change 0xDC00 with (Z.shiftl 55 10).
  rewrite !lor_shiftl_add by (change (2 ^ 10) with 1024; Z.to_euclidean_division_equations; lia).
  by rewrite !Z.shiftl_mul_pow2 by lia.
Qed.

Lemma decode_char c us : scalar c -> from_utf16_lossy (encode_char c ++ us) = c :: from_utf16_lossy us.
Proof.
  intros Hc. destruct (Z.ltb_spec c 0x10000) as [Hs|Hb].
  - unfold encode_char. destruct (Z.ltb_spec c 0x10000); [|lia]. cbn [app from_utf16_lossy].
    rewrite surrogate_test by (unfold scalar in Hc; lia).
    replace ((0xD800 <=? c) && (c <? 0xE000)) with false by (unfold scalar in Hc; lia). done.
  - rewrite encode_pair by (unfold scalar in Hc; lia). cbn [app from_utf16_lossy].
    assert (0 <= (c - 0x10000) / 1024 < 1024) by (unfold scalar in Hc; Z.to_euclidean_division_equations; lia).
    pose proof (Z.mod_pos_bound (c - 0x10000) 1024 ltac:(lia)).
    rewrite surrogate_test by lia. replace (_ && _) with true by lia. cbn [negb].
    destruct (Z.leb_spec 0xDC00 (0xD800 + (c - 0x10000) / 1024)); [lia|].
    replace (_ || _) with false by lia. f_equal. change 0x3FF with (Z.ones 10).
    rewrite !Z.land_ones, lor_shiftl_add by (try apply Z.mod_pos_bound; lia). change (2 ^ 10) with 1024.
    Z.to_euclidean_division_equations. lia.
Qed.

Lemma decode_encode s us : Forall scalar s -> from_utf16_lossy (encode_utf16 s ++ us) = s ++ from_utf16_lossy us.
Proof.
  intros Hs. induction Hs as [|c s Hc Hs IH]; [done|]. unfold encode_utf16 in *. cbn [map concat].
  by rewrite <- app_assoc, decode_char, IH.
Qed.

Lemma encode_no_nul s : Forall scalar s -> 0 ∉ s -> forallb (fun u => negb (u =? 0)) (encode_utf16 s) = true.
Proof.
  intros Hs Hn. apply forallb_forall. intros u Hu. unfold encode_utf16 in Hu.
  apply in_concat in Hu as (us & Hus & Hu). apply in_map_iff in Hus as (c & <- & Hc).
  apply list_elem_of_In in Hc. rewrite list.Forall_forall in Hs. specialize (Hs c Hc).
  assert (c <> 0) by congruence. unfold scalar in Hs. destruct (Z.ltb_spec c 0x10000).
  - unfold encode_char in Hu. destruct (Z.ltb_spec c 0x10000); [|lia]. destruct Hu as [<-|[]]. lia.
  - rewrite encode_pair in Hu by lia. destruct Hu as [<-|[<-|[]]]; Z.to_euclidean_division_equations; lia.
Qed.

(** ** UTF-8 *)

Lemma land_ones_mod k x : 0 <= k -> Z.land x (2 ^ k - 1) = x mod 2 ^ k.
Proof. intros H. replace (2 ^ k - 1) with (Z.ones k) by (rewrite Z.ones_equiv; lia). by apply Z.land_ones. Qed.

(** Leading and continuation bytes, in arithmetic. *)
Lemma continuation_byte x : Z.lor 0x80 (Z.land x 0x3F) = 0x80 + x mod 64.
Proof.
  change 0x3F with (2 ^ 6 - 1). rewrite land_ones_mod by lia. change 0x80 with (Z.shiftl 2 6).
  rewrite lor_shiftl_add by (try apply Z.mod_pos_bound; lia). by rewrite Z.shiftl_mul_pow2 by lia.
Qed.

Lemma leading_byte hi k x : 0 <= k -> 0 <= x < 2 ^ k -> Z.lor (Z.shiftl hi k) x = hi * 2 ^ k + x.
Proof. intros Hk Hx. rewrite lor_shiftl_add; done. Qed.

Lemma low6 x : Z.land (0x80 + x mod 64) 0x3F = x mod 64.
Proof.
  change 0x3F with (2 ^ 6 - 1). rewrite land_ones_mod by lia. change (2 ^ 6) with 64.
  Z.to_euclidean_division_equations. lia.
Qed.

Lemma continuation_mod x : continuation (0x80 + x mod 64) = true.
Proof. unfold continuation, between. pose proof (Z.mod_pos_bound x 64 ltac:(lia)). lia. Qed.

Lemma utf8_char_arith c : 0 <= c < 0x110000 -> utf8_char c =
  if c <? 0x80 then [c]
  else if c <? 0x800 then [0xC0 + c / 64; 0x80 + c mod 64]
  else if c <? 0x10000 then [0xE0 + c / 4096; 0x80 + c / 64 mod 64; 0x80 + c mod 64]
  else [0xF0 + c / 262144; 0x80 + c / 4096 mod 64; 0x80 + c / 64 mod 64; 0x80 + c mod 64].
Proof.
  intros Hc. unfold utf8_char. rewrite !continuation_byte, !Z.shiftr_div_pow2 by lia.
  change (2 ^ 6) with 64. change (2 ^ 12) with 4096. change (2 ^ 18) with 262144.
  destruct (Z.ltb_spec c 0x80); [done|]. destruct (Z.ltb_spec c 0x800).
  { change 0xC0 with (Z.shiftl 6 5). rewrite leading_byte; [done|lia|]. Z.to_euclidean_division_equations. lia. }
  destruct (Z.ltb_spec c 0x10000).
  { change 0xE0 with (Z.shiftl 14 4). rewrite leading_byte; [done|lia|]. Z.to_euclidean_division_equations. lia. }
  change 0xF0 with (Z.shiftl 30 3). rewrite leading_byte; [done|lia|]. Z.to_euclidean_division_equations. lia.
Qed.

(** The bits of a leading byte. *)
Lemma leading_bits hi k x : 0 <= k -> 0 <= x < 2 ^ k -> Z.land (hi * 2 ^ k + x) (2 ^ k - 1) = x.
Proof. intros Hk Hx. rewrite land_ones_mod by done. rewrite Z.add_comm, Z.mod_add by lia. by apply Z.mod_small. Qed.

Lemma from_utf8_char c bs : scalar c -> from_utf8 (utf8_char c ++ bs) = s ← from_utf8 bs; Some (c :: s).
Proof.
  intros Hc. assert (Hr : 0 <= c < 0x110000) by (unfold scalar in Hc; lia). rewrite utf8_char_arith by done.
  destruct (Z.ltb_spec c 0x80) as [|Hge1].
  { cbn [app from_utf8]. by rewrite (proj2 (Z.ltb_lt _ _)) by lia. }
  pose proof (Z.mod_pos_bound c 64 ltac:(lia)). pose proof (Z.mod_pos_bound (c / 64) 64 ltac:(lia)).
  pose proof (Z.mod_pos_bound (c / 4096) 64 ltac:(lia)).
  destruct (Z.ltb_spec c 0x800) as [|Hge2].
  { cbn [app from_utf8]. assert (2 <= c / 64 < 32) by (Z.to_euclidean_division_equations; lia).
    rewrite (proj2 (Z.ltb_ge _ _)) by lia. rewrite continuation_mod.
    replace (between 0xC2 0xDF (0xC0 + c / 64)) with true by (unfold between; lia). cbn [andb]. rewrite low6.
    replace (Z.land (192 + c / 64) 31) with (c / 64) by (symmetry; apply (leading_bits 6 5); lia).
    replace (c / 64 * 64 + c mod 64) with c by (Z.to_euclidean_division_equations; lia). done. }
  destruct (Z.ltb_spec c 0x10000) as [|Hge3].
  { cbn [app from_utf8]. assert (0 <= c / 4096 < 16) by (Z.to_euclidean_division_equations; lia).
    rewrite (proj2 (Z.ltb_ge _ _)) by lia. rewrite !continuation_mod.
    replace (between 0xC2 0xDF (0xE0 + c / 4096)) with false by (unfold between; lia). cbn [andb].
    match goal with |- context [if ?b then _ else _] => replace b with true end.
    2: { unfold between, scalar in *. Z.to_euclidean_division_equations. lia. }
    rewrite !low6. replace (Z.land (224 + c / 4096) 15) with (c / 4096) by (symmetry; apply (leading_bits 14 4); lia).
    replace ((c / 4096 * 64 + c / 64 mod 64) * 64 + c mod 64) with c by (Z.to_euclidean_division_equations; lia). done. }
  cbn [app from_utf8]. assert (0 <= c / 262144 < 5) by (Z.to_euclidean_division_equations; lia).
  rewrite (proj2 (Z.ltb_ge _ _)) by lia. rewrite !continuation_mod.
  replace (between 0xC2 0xDF (0xF0 + c / 262144)) with false by (unfold between; lia). cbn [andb].
  match goal with |- context [if ?b then _ else _] => replace b with false by (unfold between; lia) end.
  match goal with |- context [if ?b then _ else _] => replace b with true end.
  2: { unfold between. Z.to_euclidean_division_equations. lia. }
  rewrite !low6. replace (Z.land (240 + c / 262144) 7) with (c / 262144) by (symmetry; apply (leading_bits 30 3); lia).
  replace (((c / 262144 * 64 + c / 4096 mod 64) * 64 + c / 64 mod 64) * 64 + c mod 64) with c
    by (Z.to_euclidean_division_equations; lia). done.
Qed.

Lemma from_utf8_bytes s : Forall scalar s -> from_utf8 (utf8_bytes s) = Some s.
Proof.
  induction 1 as [|c s Hc Hs IH]; [done|]. unfold utf8_bytes in *. cbn [map concat].
  by rewrite from_utf8_char, IH.
Qed.

Lemma utf8_is_byte s : Forall scalar s -> Forall (fun b => 0 <= b < 256) (utf8_bytes s).
Proof.
  induction 1 as [|c s Hc Hs IH]; [constructor|]. unfold utf8_bytes in *. cbn [map concat]. apply Forall_app. split; [|done].
  rewrite utf8_char_arith by (unfold scalar in Hc; lia).
  pose proof (Z.mod_pos_bound c 64 ltac:(lia)). pose proof (Z.mod_pos_bound (c / 64) 64 ltac:(lia)).
  pose proof (Z.mod_pos_bound (c / 4096) 64 ltac:(lia)).
  destruct (Z.ltb_spec c 0x80); [|destruct (Z.ltb_spec c 0x800); [|destruct (Z.ltb_spec c 0x10000)]];
    repeat (constructor; [unfold scalar in Hc; Z.to_euclidean_division_equations; lia|]); constructor.
Qed.

Lemma utf16_units_range s : Forall scalar s -> Forall (fun u => 0 <= u < 65536) (encode_utf16 s).
Proof.
  induction 1 as [|c s Hc Hs IH]; [constructor|]. unfold encode_utf16 in *. cbn [map concat]. apply Forall_app. split; [|done].
  destruct (Z.ltb_spec c 0x10000).
  - unfold encode_char. rewrite (proj2 (Z.ltb_lt c 0x10000)) by done. constructor; [|constructor]. unfold scalar in Hc. lia.
  - rewrite encode_pair by (unfold scalar in Hc; lia). unfold scalar in Hc.
    repeat (constructor; [Z.to_euclidean_division_equations; lia|]); constructor.
Qed.
