(* ===== verification/K32Registry.v ===== *)
(** * The registry ([crates/win32-kernel32/src/registry.rs])

    The in-memory registry: keys by full path, values by name, and the handles
    that opened keys get. Names come from the guest as UTF-16 and are compared as
    sequences of characters. *)
From Stdlib Require Import ZArith Lia Ascii String.
From stdpp Require Import base list option gmap.
From S2P Require Import Prelude Utf PeHost.
Local Open Scope Z_scope.
Set Warnings "-register-all".

(** ** Strings *)

Definition BACKSLASH : Z := 92.

(** The units before the terminator; a null pointer is the empty string. *)
Definition utf16_to_string (p : option (list Z)) : rstring :=
  match p with
  | None => []
  | Some us => from_utf16_lossy (take (count_while (fun u => negb (u =? 0)) us) us)
  end.

(** ** The store *)

Record RegValue := mkValue { reg_type : Z; data : list Z }.

Record RegKey := mkKey { values : gmap rstring RegValue }.

Definition RegKey_default : RegKey := mkKey ∅.

Record Registry := mkRegistry { keys : gmap rstring RegKey; handles : gmap Z rstring; next : Z }.

Definition Registry_new : Registry := mkRegistry ∅ ∅ 0x0002000000000001.

Definition HKEY_CLASSES_ROOT : Z := 0x80000000.
Definition HKEY_CURRENT_USER : Z := 0x80000001.
Definition HKEY_LOCAL_MACHINE : Z := 0x80000002.
Definition HKEY_USERS : Z := 0x80000003.
Definition HKEY_CURRENT_CONFIG : Z := 0x80000005.

Definition ERROR_SUCCESS : Z := 0.
Definition ERROR_FILE_NOT_FOUND : Z := 2.
Definition ERROR_INVALID_HANDLE : Z := 6.
Definition ERROR_MORE_DATA : Z := 234.
Definition REG_CREATED_NEW_KEY : Z := 1.
Definition REG_OPENED_EXISTING_KEY : Z := 2.

Definition mint (path : rstring) (g : Registry) : Z * Registry :=
  let h := next g in
  (h, mkRegistry (keys g) (<[h := path]> (handles g)) (wrap 64 (h + 1))).

Definition root_name (h : Z) : option rstring :=
  if h =? HKEY_CLASSES_ROOT then Some (chars_of "HKCR")
  else if h =? HKEY_CURRENT_USER then Some (chars_of "HKCU")
  else if h =? HKEY_LOCAL_MACHINE then Some (chars_of "HKLM")
  else if h =? HKEY_USERS then Some (chars_of "HKU")
  else if h =? HKEY_CURRENT_CONFIG then Some (chars_of "HKCC")
  else None.

Definition resolve_path (h : Z) (g : Registry) : option rstring :=
  match root_name h with Some name => Some name | None => handles g !! h end.

(** [format!("{parent}\\{sub}")] *)
Definition subpath (parent sub : rstring) : rstring := parent ++ BACKSLASH :: sub.

Definition build_path (parent : Z) (subkey : option (list Z)) (g : Registry) : option rstring :=
  match resolve_path parent g with
  | None => None
  | Some parent_path =>
      let sub := utf16_to_string subkey in
      match sub with [] => Some parent_path | _ => Some (subpath parent_path sub) end
  end.

(** [keys.entry(path).or_default()] *)
Definition or_default (path : rstring) (g : Registry) : Registry :=
  match keys g !! path with
  | Some _ => g
  | None => mkRegistry (<[path := RegKey_default]> (keys g)) (handles g) (next g)
  end.

(** ** The calls

    An out-pointer is a flag, or the buffer behind it; what is stored through it
    is part of the result. *)

Definition reg_open_key_w (hkey : Z) (subkey : option (list Z)) (result : bool) (g : Registry) : Z * option Z * Registry :=
  match build_path hkey subkey g with
  | None => (ERROR_INVALID_HANDLE, None, g)
  | Some path =>
      let '(h, g) := mint path (or_default path g) in
      (ERROR_SUCCESS, if result then Some h else None, g)
  end.

Definition reg_create_key_ex_w (hkey : Z) (subkey : option (list Z)) (result disp : bool) (g : Registry)
    : Z * option Z * option Z * Registry :=
  match build_path hkey subkey g with
  | None => (ERROR_INVALID_HANDLE, None, None, g)
  | Some path =>
      let created := negb (bool_decide (is_Some (keys g !! path))) in
      let '(h, g) := mint path (or_default path g) in
      let disposition := if created then REG_CREATED_NEW_KEY else REG_OPENED_EXISTING_KEY in
      (ERROR_SUCCESS, if result then Some h else None, if disp then Some disposition else None, g)
  end.

Definition reg_close_key (hkey : Z) (g : Registry) : Z * Registry :=
  match root_name hkey with
  | Some _ => (ERROR_SUCCESS, g)
  | None => (ERROR_SUCCESS, mkRegistry (keys g) (delete hkey (handles g)) (next g))
  end.

(** The return code and what is stored through [reg_type], [len] and [data];
    [len] is the capacity given, [has_data] whether the data pointer is. *)
Record QueryOut := mkOut { rc : Z; out_type : option Z; out_len : option Z; out_data : option (list Z) }.

Definition reg_query_value_ex_w (hkey : Z) (name : option (list Z)) (want_type has_data : bool) (len : option Z)
    (g : Registry) : QueryOut :=
  match resolve_path hkey g with
  | None => mkOut ERROR_INVALID_HANDLE None None None
  | Some path =>
      match keys g !! path with
      | None => mkOut ERROR_FILE_NOT_FOUND None None None
      | Some key =>
          match values key !! utf16_to_string name with
          | None => mkOut ERROR_FILE_NOT_FOUND None None None
          | Some val =>
              let needed := wrap 32 (Z.of_nat (length (data val))) in
              let ty := if want_type then Some (reg_type val) else None in
              let cap := match len with None => 0 | Some n => n end in
              let len_out := match len with None => None | Some _ => Some needed end in
              if negb has_data || (cap =? 0) then mkOut ERROR_SUCCESS ty len_out None
              else if cap <? needed then mkOut ERROR_MORE_DATA ty len_out None
              else mkOut ERROR_SUCCESS ty len_out (Some (take (Z.to_nat needed) (data val)))
          end
      end
  end.

(** [bytes] is what [cb_data] bytes at the data pointer hold, [None] for a null
    pointer. *)
Definition reg_set_value_ex_w (hkey : Z) (name : option (list Z)) (ty : Z) (bytes : option (list Z)) (g : Registry)
    : Z * Registry :=
  match resolve_path hkey g with
  | None => (ERROR_INVALID_HANDLE, g)
  | Some path =>
      let bytes := match bytes with None => [] | Some bs => bs end in
      let key := default RegKey_default (keys g !! path) in
      let key := mkKey (<[utf16_to_string name := mkValue ty bytes]> (values key)) in
      (ERROR_SUCCESS, mkRegistry (<[path := key]> (keys g)) (handles g) (next g))
  end.

Definition reg_delete_key_w (hkey : Z) (subkey : option (list Z)) (g : Registry) : Z * Registry :=
  match build_path hkey subkey g with
  | None => (ERROR_INVALID_HANDLE, g)
  | Some path =>
      match keys g !! path with
      | Some _ => (ERROR_SUCCESS, mkRegistry (delete path (keys g)) (handles g) (next g))
      | None => (ERROR_FILE_NOT_FOUND, g)
      end
  end.

(** [str::starts_with] and [str::strip_prefix] *)
Fixpoint strip_prefix (p s : rstring) : option rstring :=
  match p, s with
  | [], s => Some s
  | a :: p, b :: s => if a =? b then strip_prefix p s else None
  | _ :: _, [] => None
  end.

Definition starts_with (p s : rstring) : bool := match strip_prefix p s with Some _ => true | None => false end.

Definition reg_delete_tree_w (hkey : Z) (subkey : option (list Z)) (g : Registry) : Z * Registry :=
  match build_path hkey subkey g with
  | None => (ERROR_INVALID_HANDLE, g)
  | Some base =>
      let child_prefix := base ++ [BACKSLASH] in
      let existed := bool_decide (is_Some (keys g !! base)) in
      let ks := filter (fun p => starts_with child_prefix (fst p) = false) (delete base (keys g)) in
      (if existed then ERROR_SUCCESS else ERROR_FILE_NOT_FOUND, mkRegistry ks (handles g) (next g))
  end.

(** The shape [RegQueryInfoKeyW] reports: direct subkeys, their longest name,
    values, their longest name. *)
Definition direct_subkey (path : rstring) (key_path : rstring) : option rstring :=
  match strip_prefix (path ++ [BACKSLASH]) key_path with
  | Some rest => match rest with [] => None | _ => if existsb (Z.eqb BACKSLASH) rest then None else Some rest end
  | None => None
  end.

Definition name_len (s : rstring) : Z := Z.of_nat (length (encode_utf16 s)).

Definition reg_query_info_key_w (hkey : Z) (g : Registry) : option (Z * Z * Z * Z) :=
  match resolve_path hkey g with
  | None => None
  | Some path =>
      let subs := omap (direct_subkey path) (map fst (map_to_list (keys g))) in
      let names := match keys g !! path with
                   | Some key => map fst (map_to_list (values key))
                   | None => []
                   end in
      let maxl := foldr (fun s m => Z.max (name_len s) m) 0 in
      Some (wrap 32 (Z.of_nat (length subs)), wrap 32 (maxl subs), wrap 32 (Z.of_nat (length names)), wrap 32 (maxl names))
  end.

Definition put_value (path name : rstring) (ty : Z) (bytes : list Z) (g : Registry) : Registry :=
  let key := default RegKey_default (keys g !! path) in
  mkRegistry (<[path := mkKey (<[name := mkValue ty bytes]> (values key))]> (keys g)) (handles g) (next g).

(** ** Seeded values ([spi.rs])

    What a machine with Secure Boot reports; [spi_exports] stores it each time the
    import table is built. *)

Definition dword (v : Z) : list Z := le_bytes 4 v.

Definition utf16_bytes (s : rstring) : list Z := concat (map (le_bytes 2) (encode_utf16 s ++ [0])).

Definition seed_security_defaults (g : Registry) : Registry :=
  let g := put_value (chars_of "HKLM\SYSTEM\CurrentControlSet\Control\SecureBoot\State") (chars_of "UEFISecureBootEnabled")
    4 (dword 1) g in
  let g := put_value (chars_of "HKLM\SYSTEM\CurrentControlSet\Control\IntegrityChecks") [] 4 (dword 1) g in
  let g := put_value (chars_of "HKLM\HARDWARE\DESCRIPTION\System\BIOS") (chars_of "SecureBoot") 4 (dword 1) g in
  put_value (chars_of "HKLM\SYSTEM\CurrentControlSet\Control\MemoryMap") [] 1 (utf16_bytes (chars_of "Normal")) g.

(** Names survive the trip through UTF-16. Any string of characters without
    a NUL, encoded by the caller and terminated, is read back by the calls as the
    same string, whatever follows the terminator. *)
Theorem utf16_round_trip s rest : Forall scalar s -> 0 ∉ s ->
  utf16_to_string (Some (encode_utf16 s ++ 0 :: rest)) = s.
Proof.
  intros Hs Hn. unfold utf16_to_string. rewrite count_while_app_stop by (done || by apply encode_no_nul).
  rewrite take_app_length. rewrite <- (app_nil_r (encode_utf16 s)), decode_encode by done. apply app_nil_r.
Qed.

(** ** Values *)

(** C32. What is set is what is read. After a value is stored under an open key,
    every handle to that key reads it back: type and length always, the bytes
    when the buffer holds them, and the code for more data when it does not, where the
    doc of the function promises success with the length. A query for any other key or name answers as before, and no handle changes. *)
Theorem registry_set_query g hkey name ty bytes path :
  resolve_path hkey g = Some path ->
  let g' := snd (reg_set_value_ex_w hkey name ty (Some bytes) g) in
  let n := Z.of_nat (length bytes) in
  fst (reg_set_value_ex_w hkey name ty (Some bytes) g) = ERROR_SUCCESS /\
  (forall h, resolve_path h g' = resolve_path h g) /\
  (n < 2 ^ 32 -> forall h name' has_data cap, resolve_path h g = Some path -> utf16_to_string name' = utf16_to_string name ->
    reg_query_value_ex_w h name' true has_data (Some cap) g' =
      if negb has_data || (cap =? 0) then mkOut ERROR_SUCCESS (Some ty) (Some n) None
      else if cap <? n then mkOut ERROR_MORE_DATA (Some ty) (Some n) None
      else mkOut ERROR_SUCCESS (Some ty) (Some n) (Some bytes)) /\
  (forall h name' want has_data len,
    resolve_path h g <> Some path \/ utf16_to_string name' <> utf16_to_string name ->
    reg_query_value_ex_w h name' want has_data len g' = reg_query_value_ex_w h name' want has_data len g).
Proof.
  intros Hp. unfold reg_set_value_ex_w. rewrite Hp. cbn [fst snd].
  set (key := default RegKey_default (keys g !! path)). split_and!; [done|done|..].
  - intros Hn h name' has_data cap Hh Hname. unfold reg_query_value_ex_w, resolve_path in *. cbn [handles keys].
    rewrite Hh, lookup_insert_eq. cbn [values]. rewrite Hname, lookup_insert_eq. cbn [reg_type data].
    rewrite wrap_small by lia. destruct (negb has_data || (cap =? 0)); [done|]. destruct (_ <? _); [done|].
    by rewrite Nat2Z.id, firstn_all.
  - intros h name' want has_data len Hne. unfold reg_query_value_ex_w.
    change (resolve_path h (mkRegistry _ _ _)) with (resolve_path h g). cbn [keys].
    destruct (resolve_path h g) as [p|] eqn:Hh; [|done]. destruct (decide (path = p)) as [<-|Hpp].
    + destruct Hne as [|Hname]; [done|]. rewrite lookup_insert_eq. cbn [values]. rewrite lookup_insert_ne by congruence.
      unfold key. destruct (keys g !! path) as [k|]; [done|]. simpl. by rewrite lookup_empty.
    + by rewrite lookup_insert_ne.
Qed.

(** ** Handles *)

(** The handles minted so far lie below the counter, above the roots. *)
Definition reg_inv (g : Registry) : Prop :=
  0x0002000000000001 <= next g < 2 ^ 64 /\
  forall h p, handles g !! h = Some p -> 0x0002000000000001 <= h < next g.

Lemma registry_new_inv : reg_inv Registry_new.
Proof. split; [simpl; lia|]. intros h p H. cbn [handles Registry_new] in H. by rewrite lookup_empty in H. Qed.

Lemma root_small h p : root_name h = Some p -> h < 0x0002000000000001.
Proof.
  unfold root_name, HKEY_CLASSES_ROOT, HKEY_CURRENT_USER, HKEY_LOCAL_MACHINE, HKEY_USERS, HKEY_CURRENT_CONFIG.
  repeat match goal with |- context [?a =? ?b] => destruct (Z.eqb_spec a b) end; by (lia || intros).
Qed.

Lemma root_none h : 0x0002000000000001 <= h -> root_name h = None.
Proof. intros Hh. destruct (root_name h) eqn:E; [|done]. apply root_small in E. lia. Qed.

(** The values of every key. *)
Definition value_at (g : Registry) (path name : rstring) : option RegValue :=
  match keys g !! path with Some k => values k !! name | None => None end.

Lemma or_default_spec path g :
  is_Some (keys (or_default path g) !! path) /\ handles (or_default path g) = handles g /\ next (or_default path g) = next g /\
  (forall p name, value_at (or_default path g) p name = value_at g p name) /\
  (forall p, p <> path -> keys (or_default path g) !! p = keys g !! p).
Proof.
  unfold or_default, value_at. destruct (keys g !! path) as [k|] eqn:E; cbn [keys handles next].
  - by split_and!.
  - split_and!; [rewrite lookup_insert_eq; by eexists|done|done|..].
    + intros p name. destruct (decide (path = p)) as [<-|Hne]; [by rewrite lookup_insert_eq, E|by rewrite lookup_insert_ne].
    + intros p Hne. by rewrite lookup_insert_ne.
Qed.

(** Creating or opening a key. Under a valid parent both calls succeed with a
    handle no key had, bound to the composed path; opening it below a subkey
    composes further. The disposition says whether the key was there before. The
    key exists afterwards, and no value, no other key and no other handle
    changes. An invalid parent is rejected with nothing changed. *)
Theorem registry_create_open g hkey subkey : reg_inv g -> next g < 2 ^ 64 - 1 ->
  match build_path hkey subkey g with
  | None => reg_create_key_ex_w hkey subkey true true g = (ERROR_INVALID_HANDLE, None, None, g) /\
            reg_open_key_w hkey subkey true g = (ERROR_INVALID_HANDLE, None, g)
  | Some path =>
      exists h g',
        reg_create_key_ex_w hkey subkey true true g =
          (ERROR_SUCCESS, Some h,
           Some (if decide (is_Some (keys g !! path)) then REG_OPENED_EXISTING_KEY else REG_CREATED_NEW_KEY), g') /\
        reg_open_key_w hkey subkey true g = (ERROR_SUCCESS, Some h, g') /\ reg_inv g' /\
        resolve_path h g = None /\ resolve_path h g' = Some path /\
        (forall sub, utf16_to_string sub <> [] -> build_path h sub g' = Some (subpath path (utf16_to_string sub))) /\
        (forall h', h' <> h -> resolve_path h' g' = resolve_path h' g) /\
        is_Some (keys g' !! path) /\ (forall p, p <> path -> keys g' !! p = keys g !! p) /\
        (forall p name, value_at g' p name = value_at g p name)
  end.
Proof.
  intros [Hn Hh] Hmax. unfold reg_create_key_ex_w, reg_open_key_w. destruct (build_path hkey subkey g) as [path|]; [|done].
  destruct (or_default_spec path g) as (Hk1 & Hk2 & Hk3 & Hk4 & Hk5).
  unfold mint. rewrite Hk2, Hk3, wrap_small by lia. do 2 eexists. split; [|split; [reflexivity|]].
  { f_equal. f_equal. f_equal. by destruct (keys g !! path). }
  assert (Hroot : root_name (next g) = None) by (apply root_none; lia).
  assert (Hres : forall gg, resolve_path (next g) gg = handles gg !! next g) by (intros; unfold resolve_path; by rewrite Hroot).
  cbn [keys handles next]. split_and!; try done.
  - split; [cbn [next]; lia|]. intros h p. cbn [handles next]. destruct (decide (next g = h)) as [<-|Hne]; [intros; lia|].
    rewrite lookup_insert_ne by done. intros H%Hh. lia.
  - rewrite Hres. destruct (handles g !! next g) as [p|] eqn:E; [|done]. apply Hh in E. lia.
  - rewrite Hres. cbn [handles]. apply lookup_insert_eq.
  - intros sub Hsub. unfold build_path. rewrite Hres. cbn [handles]. rewrite lookup_insert_eq.
    by destruct (utf16_to_string sub).
  - intros h' Hne. unfold resolve_path. cbn [handles]. by rewrite lookup_insert_ne.
Qed.

(** ** Deletion and shape *)

(** A path below a key. *)
Definition below (base p : rstring) : Prop := exists sub, p = subpath base sub.

Lemma strip_prefix_spec p s r : strip_prefix p s = Some r <-> s = p ++ r.
Proof.
  revert s. induction p as [|a p IH]; intros s; simpl; [split; congruence|]. destruct s as [|b s]; [done|].
  destruct (Z.eqb_spec a b) as [->|Hne]; [rewrite IH; split; congruence|split; congruence].
Qed.

Lemma starts_with_below base p : starts_with (base ++ [BACKSLASH]) p = true <-> below base p.
Proof.
  unfold starts_with, below, subpath. destruct (strip_prefix _ p) as [r|] eqn:E.
  - apply strip_prefix_spec in E as ->. split; [|done]. intros _. exists r. by rewrite <- app_assoc.
  - split; [done|]. intros [sub ->]. assert (strip_prefix (base ++ [BACKSLASH]) (base ++ BACKSLASH :: sub) = Some sub) as Hs
      by (apply strip_prefix_spec; by rewrite <- app_assoc). congruence.
Qed.

#[global] Instance below_dec base p : Decision (below base p).
Proof.
  destruct (starts_with (base ++ [BACKSLASH]) p) eqn:E; [left|right].
  - by apply starts_with_below.
  - intros H%starts_with_below. congruence.
Defined.

(** Deleting a tree removes the key and exactly the keys below it; every other
    key keeps its values, also one whose name only begins like the base, and no
    handle changes. The code tells whether the base was there; a second deletion
    finds nothing; and a query through a handle into the tree finds no key. *)
Theorem delete_tree_correct g hkey subkey base : build_path hkey subkey g = Some base ->
  let r := reg_delete_tree_w hkey subkey g in
  fst r = (if decide (is_Some (keys g !! base)) then ERROR_SUCCESS else ERROR_FILE_NOT_FOUND) /\
  (forall p, keys (snd r) !! p = if decide (p = base \/ below base p) then None else keys g !! p) /\
  (forall h, resolve_path h (snd r) = resolve_path h g) /\
  reg_delete_tree_w hkey subkey (snd r) = (ERROR_FILE_NOT_FOUND, snd r) /\
  (forall h p name want has_data len, resolve_path h g = Some p -> p = base \/ below base p ->
    rc (reg_query_value_ex_w h name want has_data len (snd r)) = ERROR_FILE_NOT_FOUND).
Proof.
  intros Hb r. set (g' := snd r).
  assert (Hkeys : forall p, keys g' !! p = if decide (p = base \/ below base p) then None else keys g !! p).
  { intros p. unfold g', r, reg_delete_tree_w. rewrite Hb. cbn [snd keys]. rewrite map_lookup_filter.
    destruct (decide (base = p)) as [<-|Hne].
    - rewrite lookup_delete_eq. by rewrite decide_True by (by left).
    - rewrite lookup_delete_ne by done. destruct (keys g !! p) as [k|]; [|by destruct (decide _)]. cbn.
      destruct (starts_with (base ++ [BACKSLASH]) p) eqn:E.
      + rewrite decide_True by (right; by apply starts_with_below). by case_guard.
      + rewrite decide_False; [by case_guard|]. intros [->|H%starts_with_below]; congruence. }
  assert (Hres : forall h, resolve_path h g' = resolve_path h g)
    by (intros; unfold g', r, reg_delete_tree_w; by rewrite Hb).
  split_and!; [|done|done|..].
  - unfold r, reg_delete_tree_w. rewrite Hb. cbn [fst]. by destruct (keys g !! base).
  - unfold reg_delete_tree_w. replace (build_path hkey subkey g') with (Some base)
      by (rewrite <- Hb; unfold build_path; by rewrite Hres).
    rewrite (Hkeys base), decide_True by (by left). cbn. f_equal.
    assert (filter (fun p => starts_with (base ++ [BACKSLASH]) (fst p) = false) (delete base (keys g')) = keys g') as ->.
    { apply map_eq. intros p. rewrite map_lookup_filter. destruct (decide (base = p)) as [<-|Hne].
      - rewrite lookup_delete_eq, Hkeys, decide_True by (by left). done.
      - rewrite lookup_delete_ne, Hkeys by done. destruct (decide _) as [|Hno]; [done|].
        destruct (keys g !! p) as [k|]; [|done]. cbn. case_guard as Hg; [done|]. destruct Hg. cbn.
        apply not_true_is_false. rewrite starts_with_below. tauto. }
    by destruct g'.
  - intros h p name want has_data len Hh Hp. unfold reg_query_value_ex_w. rewrite Hres, Hh, Hkeys, decide_True by done. done.
Qed.

Lemma direct_subkey_spec path p n :
  direct_subkey path p = Some n <-> n <> [] /\ BACKSLASH ∉ n /\ p = subpath path n.
Proof.
  unfold direct_subkey, subpath. destruct (strip_prefix _ p) as [rest|] eqn:E.
  - apply strip_prefix_spec in E as ->. rewrite <- app_assoc. cbn [app].
    assert (Hinj : path ++ BACKSLASH :: rest = path ++ BACKSLASH :: n <-> rest = n)
      by (split; [intros H; apply app_inv_head in H; congruence|congruence]).
    rewrite Hinj. destruct rest as [|c rest]; [naive_solver|].
    destruct (existsb (Z.eqb BACKSLASH) (c :: rest)) eqn:Ex.
    + split; [done|]. intros (_ & Hn & <-). apply existsb_exists in Ex as (x & Hx & <-%Z.eqb_eq).
      apply list_elem_of_In in Hx. done.
    + split; [|naive_solver]. intros [= <-]. split_and!; [done| |done]. intros Hin%list_elem_of_In.
      assert (existsb (Z.eqb BACKSLASH) (c :: rest) = true) by (apply existsb_exists; exists BACKSLASH; by rewrite Z.eqb_refl).
      congruence.
  - split; [done|]. intros (_ & _ & ->).
    assert (strip_prefix (path ++ [BACKSLASH]) (path ++ BACKSLASH :: n) = Some n) as Hs
      by (apply strip_prefix_spec; by rewrite <- app_assoc). congruence.
Qed.

Lemma omap_direct_NoDup path (l : list rstring) : NoDup l -> NoDup (omap (direct_subkey path) l).
Proof.
  induction 1 as [|p l Hp Hl IH]; [constructor|]. simpl. destruct (direct_subkey path p) as [n|] eqn:E; [|done].
  constructor; [|done]. intros (p' & Hp' & Hn)%list_elem_of_omap.
  apply direct_subkey_spec in E as (_ & _ & ->), Hn as (_ & _ & ->). done.
Qed.

Lemma keys_elem {A} (m : gmap rstring A) p : p ∈ map fst (map_to_list m) <-> is_Some (m !! p).
Proof.
  split.
  - intros ([p' k] & -> & H)%list_elem_of_fmap. apply elem_of_map_to_list in H. by eexists.
  - intros [k Hk]. apply list_elem_of_fmap. exists (p, k). split; [done|]. by apply elem_of_map_to_list.
Qed.

(** The shape of a key. [RegQueryInfoKeyW] counts each direct subkey once
    and nothing deeper, and each value of the key once, and reports the longest
    name of each in UTF-16 units; it fails exactly on an unknown handle. *)
Theorem query_info_correct g hkey :
  match resolve_path hkey g with
  | None => reg_query_info_key_w hkey g = None
  | Some path => exists subs names,
      NoDup subs /\ (forall n, n ∈ subs <-> n <> [] /\ BACKSLASH ∉ n /\ is_Some (keys g !! subpath path n)) /\
      NoDup names /\ (forall n, n ∈ names <-> is_Some (value_at g path n)) /\
      reg_query_info_key_w hkey g = Some
        (wrap 32 (Z.of_nat (length subs)), wrap 32 (foldr (fun s m => Z.max (name_len s) m) 0 subs),
         wrap 32 (Z.of_nat (length names)), wrap 32 (foldr (fun s m => Z.max (name_len s) m) 0 names))
  end.
Proof.
  unfold reg_query_info_key_w. destruct (resolve_path hkey g) as [path|]; [|done].
  exists (omap (direct_subkey path) (map fst (map_to_list (keys g)))),
    (match keys g !! path with Some key => map fst (map_to_list (values key)) | None => [] end).
  split_and!; [|..|done].
  - apply omap_direct_NoDup, NoDup_fst_map_to_list.
  - intros n. rewrite list_elem_of_omap. split.
    + intros (p & Hp & Hn). apply direct_subkey_spec in Hn as (? & ? & ->). by rewrite <- keys_elem.
    + intros (H1 & H2 & H3). exists (subpath path n). split; [by apply keys_elem|by apply direct_subkey_spec].
  - destruct (keys g !! path) as [k|]; [apply NoDup_fst_map_to_list|constructor].
  - intros n. unfold value_at. destruct (keys g !! path) as [k|]; [apply keys_elem|].
    split; [by intros ?%elem_of_nil|by intros [? ?]].
Qed.

(** ** Witnesses *)

Definition demo_name (s : string) : option (list Z) := Some (chars_of s ++ [0]).

(** A key, its child, a sibling with a longer name, and a value. *)
Definition demo_registry : Registry :=
  let open s g := snd (reg_open_key_w HKEY_LOCAL_MACHINE (demo_name s) true g) in
  let g := open "App-2"%string (open "App\sub"%string (open "App"%string Registry_new)) in
  snd (reg_set_value_ex_w 0x0002000000000001 (demo_name "Version") 4 (Some [1; 0; 0; 0]) g).

Definition demo_app : rstring := chars_of "HKLM\App".

Lemma utf16_round_trip_witness :
  utf16_to_string (Some (encode_utf16 [0x48; 0x1F600; 0xFFFF] ++ [0; 7])) = [0x48; 0x1F600; 0xFFFF].
Proof.
  apply (utf16_round_trip [0x48; 0x1F600; 0xFFFF] [7]); [repeat constructor; unfold scalar; lia|].
  intros H. apply list_elem_of_In in H as [|[|[|[]]]]; lia.
Defined.

Lemma registry_set_query_witness :
  reg_query_value_ex_w 0x0002000000000001 (demo_name "Version") true true (Some 2)
    (snd (reg_set_value_ex_w 0x0002000000000001 (demo_name "Version") 3 (Some [9; 8; 7]) demo_registry)) =
  mkOut ERROR_MORE_DATA (Some 3) (Some 3) None.
Proof.
  assert (Hp : resolve_path 0x0002000000000001 demo_registry = Some demo_app) by (by vm_compute).
  destruct (registry_set_query demo_registry 0x0002000000000001 (demo_name "Version") 3 [9; 8; 7] demo_app Hp)
    as (_ & _ & H & _).
  exact (H ltac:(simpl; lia) 0x0002000000000001 (demo_name "Version") true 2 Hp eq_refl).
Defined.

Lemma registry_create_open_witness : exists h g',
  reg_create_key_ex_w HKEY_LOCAL_MACHINE (demo_name "App") true true demo_registry =
    (ERROR_SUCCESS, Some h, Some REG_OPENED_EXISTING_KEY, g') /\
  resolve_path h demo_registry = None /\ resolve_path h g' = Some demo_app.
Proof.
  assert (Hinv : reg_inv demo_registry).
  { split; [by vm_compute|]. intros h p H.
    assert (handles demo_registry = <[0x0002000000000001 := chars_of "HKLM\App"]> (<[0x0002000000000002 := chars_of "HKLM\App\sub"]>
      (<[0x0002000000000003 := chars_of "HKLM\App-2"]> ∅))) as Hh by (by vm_compute).
    rewrite Hh in H. change (next demo_registry) with 0x0002000000000004.
    repeat (apply lookup_insert_Some in H as [[<- _]|[_ H]]; [lia|]). by rewrite lookup_empty in H. }
  pose proof (registry_create_open demo_registry HKEY_LOCAL_MACHINE (demo_name "App") Hinv ltac:(by vm_compute)) as H.
  assert (Hb : build_path HKEY_LOCAL_MACHINE (demo_name "App") demo_registry = Some demo_app) by (by vm_compute).
  rewrite Hb in H. destruct H as (h & g' & Hc & _ & _ & H1 & H2 & _). exists h, g'. split; [|by split].
  rewrite Hc. by vm_compute.
Defined.

Lemma delete_tree_correct_witness :
  let g' := snd (reg_delete_tree_w HKEY_LOCAL_MACHINE (demo_name "App") demo_registry) in
  keys g' !! chars_of "HKLM\App\sub" = None /\ is_Some (keys g' !! chars_of "HKLM\App-2").
Proof.
  assert (Hb : build_path HKEY_LOCAL_MACHINE (demo_name "App") demo_registry = Some demo_app) by (by vm_compute).
  destruct (delete_tree_correct demo_registry HKEY_LOCAL_MACHINE (demo_name "App") demo_app Hb) as (_ & Hk & _).
  cbv zeta in *. rewrite !Hk. split; [by vm_compute|]. vm_compute. by eexists.
Defined.
