(* ===== verification/GuestMem.v ===== *)
(** * Guest memory as the exported functions see it

    The exports that take strings and buffers receive raw guest pointers and walk
    them unit by unit: bytes for narrow strings, 16-bit units for wide ones. Here
    are the loops they are written with, the units and strings of a memory, and
    the final states that stores lead to. The unit size is a parameter, so one
    proof serves both widths. *)
From Stdlib Require Import ZArith Lia Ascii String.
From stdpp Require Import base list option gmap.
From S2P Require Import Prelude PeHost.
Local Open Scope rust_scope.
Local Open Scope Z_scope.
Set Warnings "-register-all".

(** ** Loops

    A step of a loop gives its next state or its result. A loop may take 2^64
    steps: a walk that long has left the address space. The fuel is binary, so a
    loop that stops early costs its own steps only. *)
Section Loops.
Context {W E : Type}.
Local Abbreviation G := (M W E).

Definition resume {S A} (r : S + A) (k : S -> G (S + A)) : G (S + A) :=
  match r with inl s => k s | inr a => mret (inr a) end.

Fixpoint iterate {S A} (fuel : positive) (body : S -> G (S + A)) (s : S) : G (S + A) :=
  match fuel with
  | xH => body s
  | xO p => let! r := iterate p body s in resume r (iterate p body)
  | xI p =>
      let! r := body s in
      resume r (fun s => let! r := iterate p body s in resume r (iterate p body))
  end.

Definition loop_fuel : positive := 2 ^ 64.

Definition loop {S A} (body : S -> G (S + A)) (s : S) : G A :=
  let! r := iterate loop_fuel body s in
  match r with inl _ => mnofuel | inr a => mret a end.

(** [for i in 0..n], left early with a result or run to the end. *)
Definition for_range {A} (n : Z) (body : Z -> G (option A)) : G (option A) :=
  loop (fun i =>
    if i <? n then
      let! r := body i in
      mret (match r with None => inl (i + 1) | Some a => inr (Some a) end)
    else mret (inr None)) 0.

(** [n] steps at most, in unary. *)
Fixpoint steps {S A} (n : nat) (body : S -> G (S + A)) (s : S) : G (S + A) :=
  match n with
  | O => mret (inl s)
  | Datatypes.S n => let! r := body s in resume r (steps n body)
  end.

#[global] Opaque loop_fuel.

Lemma steps_S {S A} n (body : S -> G (S + A)) s w :
  steps (Datatypes.S n) body s w = mbind (body s) (fun r => resume r (steps n body)) w.
Proof. done. Qed.

Lemma steps_add {S A} n m (body : S -> G (S + A)) s w :
  steps (n + m) body s w = mbind (steps n body s) (fun r => resume r (steps m body)) w.
Proof.
  revert s w. induction n as [|n IH]; intros s w; cbn [steps Nat.add].
  - by rewrite (mbind_ok (mret _) _ w (inl s) w).
  - rewrite mbind_assoc. unfold mbind at 1 2. destruct (body s w) as [[[s'|a]|e| |] w'] eqn:B; simpl; [|done..].
    apply IH.
Qed.

Lemma iterate_steps {S A} p (body : S -> G (S + A)) s w :
  iterate p body s w = steps (Pos.to_nat p) body s w.
Proof.
  assert (Hk : forall n (k : S -> G (S + A)) r w, (forall s w, k s w = steps n body s w) ->
    resume r k w = resume r (steps n body) w) by (intros n k [] w' Hk; simpl; auto).
  revert s w. induction p as [p IH|p IH|]; intros s w; cbn [iterate].
  - rewrite Pos2Nat.inj_xI. cbn [steps]. unfold mbind at 1 3.
    destruct (body s w) as [[r|e| |] w']; try done. apply Hk. intros s1 w1.
    replace (2 * _)%nat with (Pos.to_nat p + Pos.to_nat p)%nat by lia. rewrite steps_add. unfold mbind.
    rewrite IH. destruct (steps _ body s1 w1) as [[]]; try done. by apply Hk.
  - rewrite Pos2Nat.inj_xO. replace (2 * _)%nat with (Pos.to_nat p + Pos.to_nat p)%nat by lia.
    rewrite steps_add. unfold mbind. rewrite IH. destruct (steps _ body s w) as [[]]; try done. by apply Hk.
  - rewrite Pos2Nat.inj_1. cbn [steps]. unfold mbind. destruct (body s w) as [[[]|e| |] w']; done.
Qed.

(** A loop that goes through the states [st 0], [st 1], ..., and leaves from
    [st n] returns what its last step returns. *)
Lemma loop_run {S A} (n : nat) (st : nat -> S) (ws : nat -> W) (body : S -> G (S + A)) s w a w' :
  st O = s -> ws O = w -> Z.of_nat n < 2 ^ 64 ->
  (forall i, (i < n)%nat -> body (st i) (ws i) = (Ok (inl (st (Datatypes.S i))), ws (Datatypes.S i))) ->
  body (st n) (ws n) = (Ok (inr a), w') ->
  loop body s w = (Ok a, w').
Proof.
  intros <- <- Hn Hstep Hend. unfold loop, mbind. rewrite iterate_steps.
  assert (Hgo : forall m i, (i + m = n)%nat -> steps (Datatypes.S m) body (st i) (ws i) = (Ok (inr a), w')).
  { induction m as [|m IH]; intros i Hi; rewrite steps_S.
    - replace i with n by lia. by rewrite (mbind_ok _ _ _ _ _ Hend).
    - rewrite (mbind_ok _ _ _ _ _ (Hstep i ltac:(lia))). apply IH. lia. }
  assert (Hf : exists d, Pos.to_nat loop_fuel = (Datatypes.S n + d)%nat).
  { exists (Pos.to_nat loop_fuel - Datatypes.S n)%nat.
    enough (Datatypes.S n <= Pos.to_nat loop_fuel)%nat by lia.
    apply Nat2Z.inj_le. rewrite positive_nat_Z. change (Z.pos loop_fuel) with (2 ^ 64). lia. }
  destruct Hf as [d ->]. rewrite steps_add. unfold mbind. by rewrite (Hgo n O eq_refl).
Qed.

(** A counted loop that runs to its end, or leaves at [m]. *)
Lemma for_range_all {A} (body : Z -> G (option A)) (n : nat) (ws : nat -> W) :
  Z.of_nat n < 2 ^ 64 ->
  (forall i, (i < n)%nat -> body (Z.of_nat i) (ws i) = (Ok None, ws (Datatypes.S i))) ->
  for_range (Z.of_nat n) body (ws O) = (Ok None, ws n).
Proof.
  intros Hn Hstep. apply (loop_run n Z.of_nat ws); [done..| |].
  - intros i Hi. rewrite (proj2 (Z.ltb_lt _ _)) by lia. rewrite (mbind_ok _ _ _ _ _ (Hstep i Hi)).
    by replace (Z.of_nat (Datatypes.S i)) with (Z.of_nat i + 1) by lia.
  - by rewrite Z.ltb_irrefl.
Qed.

Lemma for_range_some {A} (body : Z -> G (option A)) (n : Z) (m : nat) (ws : nat -> W) a w' :
  n <= 2 ^ 64 -> Z.of_nat m < n ->
  (forall i, (i < m)%nat -> body (Z.of_nat i) (ws i) = (Ok None, ws (Datatypes.S i))) ->
  body (Z.of_nat m) (ws m) = (Ok (Some a), w') ->
  for_range n body (ws O) = (Ok (Some a), w').
Proof.
  intros Hn Hm Hstep Hend. apply (loop_run m Z.of_nat ws); [done|done|lia| |].
  - intros i Hi. rewrite (proj2 (Z.ltb_lt _ _)) by lia. rewrite (mbind_ok _ _ _ _ _ (Hstep i Hi)).
    by replace (Z.of_nat (Datatypes.S i)) with (Z.of_nat i + 1) by lia.
  - rewrite (proj2 (Z.ltb_lt _ _)) by lia. by rewrite (mbind_ok _ _ _ _ _ Hend).
Qed.
End Loops.

(** ** Units and strings *)
Section Guest.
Context `{HW : Host W} {E : Type}.
Local Abbreviation G := (M W E).

(** [*p.add(i)] and [*p.add(i) = v] for a pointer to units of [k] bytes. *)
Definition uget (k : nat) (p i : Z) : G Z := read_int k (p + Z.of_nat k * i).
Definition uput (k : nat) (p i v : Z) : G unit := write_int k (p + Z.of_nat k * i) v.

(** [std::slice::from_raw_parts(p, n)], copied. *)
Definition slice_from (k : nat) (p n : Z) : G (list Z) :=
  let! l := loop (fun '(i, acc) =>
    if i <? n then let! u := uget k p i in mret (inl (i + 1, u :: acc))
    else mret (inr acc)) (0, []) in
  mret (rev l).

(** The index of the first zero unit: [while *p.add(n) != 0 { n += 1 }]. *)
Definition scan (k : nat) (p : Z) : G Z :=
  loop (fun n => let! c := uget k p n in mret (if c =? 0 then inr n else inl (n + 1))) 0.

(** [loop { let c = *src.add(i); *dst.add(d + i) = c; i += 1; if c == 0 { break; } }] *)
Definition copy_to_nul (k : nat) (dst d src : Z) : G unit :=
  loop (fun i =>
    let! c := uget k src i in
    uput k dst (d + i) c ;;;
    mret (if c =? 0 then inr tt else inl (i + 1))) 0.

(** [copy_nonoverlapping] of host data into the guest: the units of a list. *)
Definition put_list (k : nat) (p : Z) (l : list Z) : G unit := store p (concat (map (le_bytes k) l)).

(** Bytes stored in a range can be read, and written, there. *)
Definition readable (w : W) (a n : Z) : Prop := forall x, a <= x < a + n -> may prot_r w x = true.
Definition writable (w : W) (a n : Z) : Prop := forall x, a <= x < a + n -> may prot_w w x = true.

(** The units [l] are readable from [a] on. *)
Definition holds (k : nat) (w : W) (a : Z) (l : list Z) : Prop :=
  readable w a (Z.of_nat k * Z.of_nat (length l)) /\
  forall i u, l !! i = Some u -> le_val (get_bytes w (a + Z.of_nat k * Z.of_nat i) (Z.of_nat k)) = u.

(** A string that ends with a zero unit, inside the address space. *)
Definition cstr (k : nat) (w : W) (a : Z) (s : list Z) : Prop :=
  0 < a /\ a + Z.of_nat k * (Z.of_nat (length s) + 1) <= 2 ^ 64 /\
  Forall (fun u => u <> 0) s /\ holds k w a (s ++ [0]).

(** Memory after the units [l] are stored from [a] on. *)
Definition put (k : nat) (a : Z) (l : list Z) (w : W) : W := set_bytes a (concat (map (le_bytes k) l)) w.

Definition unit_range (k : nat) (u : Z) : Prop := 0 <= u < 2 ^ (8 * Z.of_nat k).

(** ** Reading *)

Lemma readable_sub w a n b m : readable w a n -> a <= b -> b + m <= a + n -> readable w b m.
Proof. intros H H1 H2 x Hx. apply H. lia. Qed.

Lemma writable_sub w a n b m : writable w a n -> a <= b -> b + m <= a + n -> writable w b m.
Proof. intros H H1 H2 x Hx. apply H. lia. Qed.

Lemma uget_holds k w a l i u :
  holds k w a l -> l !! i = Some u -> uget k a (Z.of_nat i) w = (Ok u, w).
Proof.
  intros [Hr Hv] Hi. unfold uget, read_int. pose proof (lookup_lt_Some _ _ _ Hi).
  erewrite mbind_ok; [unfold mret; by rewrite (Hv i u Hi)|].
  apply load_ok. intros x Hx. apply Hr. nia.
Qed.

Lemma holds_app k w a l1 l2 :
  holds k w a (l1 ++ l2) <-> holds k w a l1 /\ holds k w (a + Z.of_nat k * Z.of_nat (length l1)) l2.
Proof.
  unfold holds. rewrite length_app, Nat2Z.inj_add. split.
  - intros [Hr Hv]. split_and!.
    + intros x Hx. apply Hr. nia.
    + intros i u Hi. apply Hv. by apply lookup_app_l_Some.
    + intros x Hx. apply Hr. nia.
    + intros i u Hi. rewrite <- (Hv (length l1 + i)%nat u).
      * do 2 f_equal. lia.
      * rewrite lookup_app_r by lia. rewrite <- Hi. f_equal. lia.
  - intros [[Hr1 Hv1] [Hr2 Hv2]]. split.
    + intros x Hx. destruct (Z.lt_ge_cases x (a + Z.of_nat k * Z.of_nat (length l1))); [apply Hr1|apply Hr2]; lia.
    + intros i u Hi. apply lookup_app_Some in Hi as [Hi|[Hle Hi]]; [by apply Hv1|].
      rewrite <- (Hv2 _ _ Hi). do 2 f_equal. rewrite Nat2Z.inj_sub by lia. lia.
Qed.

Lemma cstr_lookup k w a s i : cstr k w a s -> (i < length s)%nat ->
  exists u, (s ++ [0]) !! i = Some u /\ s !! i = Some u /\ u <> 0.
Proof.
  intros (_ & _ & Hnz & _) Hi. destruct (lookup_lt_is_Some_2 s i Hi) as [u Hu]. exists u. split_and!.
  - by apply lookup_app_l_Some.
  - done.
  - by apply (Forall_lookup_1 _ _ _ _ Hnz Hu).
Qed.

(** Any index up to the terminator. *)
Lemma cstr_get k w a s i u : cstr k w a s -> (s ++ [0]) !! i = Some u -> uget k a (Z.of_nat i) w = (Ok u, w).
Proof. intros (_ & _ & _ & Hh) Hu. by eapply uget_holds. Qed.

Lemma nul_lookup (s : list Z) : (s ++ [0]) !! length s = Some 0.
Proof. rewrite lookup_app_r by lia. by rewrite Nat.sub_diag. Qed.

Lemma cstr_length k w a s : (0 < k)%nat -> cstr k w a s -> Z.of_nat (length s) < 2 ^ 64.
Proof. intros Hk (H1 & H2 & _). nia. Qed.

Lemma scan_cstr k w a s : (0 < k)%nat -> cstr k w a s -> scan k a w = (Ok (Z.of_nat (length s)), w).
Proof.
  intros Hk Hs. unfold scan. apply (loop_run (length s) Z.of_nat (fun _ => w)); [done..| | |].
  - exact (cstr_length _ _ _ _ Hk Hs).
  - intros i Hi. destruct (cstr_lookup _ _ _ _ _ Hs Hi) as (u & Hl & _ & Hu).
    rewrite (mbind_ok _ _ _ _ _ (cstr_get _ _ _ _ _ _ Hs Hl)). apply Z.eqb_neq in Hu. rewrite Hu.
    by replace (Z.of_nat (S i)) with (Z.of_nat i + 1) by lia.
  - by rewrite (mbind_ok _ _ _ _ _ (cstr_get _ _ _ _ _ _ Hs (nul_lookup s))).
Qed.

Lemma slice_from_holds k w a l : Z.of_nat (length l) < 2 ^ 64 -> holds k w a l ->
  slice_from k a (Z.of_nat (length l)) w = (Ok l, w).
Proof.
  intros Hl Hh. unfold slice_from. erewrite (mbind_ok _ _ w (rev l)); [by rewrite rev_involutive|].
  apply (loop_run (length l) (fun i => (Z.of_nat i, rev (take i l))) (fun _ => w)); [done..| |].
  - intros i Hi. rewrite (proj2 (Z.ltb_lt _ _)) by lia.
    destruct (lookup_lt_is_Some_2 l i Hi) as [u Hu]. rewrite (mbind_ok _ _ _ _ _ (uget_holds _ _ _ _ _ _ Hh Hu)).
    replace (Z.of_nat (S i)) with (Z.of_nat i + 1) by lia.
    by rewrite (take_S_r _ _ _ Hu), rev_app_distr.
  - by rewrite Z.ltb_irrefl, take_ge by lia.
Qed.
End Guest.

(** ** Writing *)
Section Stores.
Context `{HW : Host W} `{HL : !HostLaws W} {E : Type}.
Local Abbreviation G := (M W E).

Lemma le_unit (k : nat) (u : Z) : unit_range k u -> le_val (le_bytes k u) = u.
Proof. intros H. rewrite le_val_bytes. by apply wrap_small. Qed.

Lemma length_units (k : nat) (l : list Z) :
  Z.of_nat (length (concat (map (le_bytes k) l))) = Z.of_nat k * Z.of_nat (length l).
Proof.
  induction l as [|u l IH]; cbn [map concat length]; [lia|]. rewrite length_app, le_bytes_length. lia.
Qed.

Lemma units_bytes (k : nat) (l : list Z) : Forall is_byte (concat (map (le_bytes k) l)).
Proof. induction l; simpl; [constructor|]. apply Forall_app. split; [apply le_bytes_range|done]. Qed.

Lemma set_bytes_app l1 l2 a (w : W) :
  set_bytes a (l1 ++ l2) w = set_bytes (a + Z.of_nat (length l1)) l2 (set_bytes a l1 w).
Proof.
  revert a w. induction l1 as [|b l1 IH]; intros a w; cbn [app set_bytes length].
  - f_equal. lia.
  - rewrite IH. f_equal. lia.
Qed.

Lemma put_app k a l1 l2 (w : W) :
  put k a (l1 ++ l2) w = put k (a + Z.of_nat k * Z.of_nat (length l1)) l2 (put k a l1 w).
Proof. unfold put. by rewrite map_app, concat_app, set_bytes_app, length_units. Qed.

Lemma put_nil k a (w : W) : put k a [] w = w.
Proof. done. Qed.

Lemma prot_put k a l (w : W) x : prot_at (put k a l w) x = prot_at w x.
Proof. apply prot_set_bytes. Qed.

Lemma may_put f k a l (w : W) x : may f (put k a l w) x = may f w x.
Proof. unfold may. by rewrite prot_put. Qed.

Lemma byte_put_out k a l (w : W) x :
  in_range a (Z.of_nat k * Z.of_nat (length l)) x = false -> byte_at (put k a l w) x = byte_at w x.
Proof. intros H. unfold put. rewrite byte_set_bytes by apply units_bytes. by rewrite length_units, H. Qed.

Lemma get_bytes_app (w : W) a n m : 0 <= n -> 0 <= m -> get_bytes w a (n + m) = get_bytes w a n ++ get_bytes w (a + n) m.
Proof. intros. unfold get_bytes. rewrite seqZ_app by lia. apply map_app. Qed.

Lemma get_bytes_set_bytes a bs (w : W) : Forall is_byte bs ->
  get_bytes (set_bytes a bs w) a (Z.of_nat (length bs)) = bs.
Proof.
  intros Hbs. apply list_eq. intros i. destruct (decide (i < length bs)%nat) as [Hi|Hi].
  - replace i with (Z.to_nat (Z.of_nat i)) at 1 by lia. rewrite get_bytes_lookup by lia.
    rewrite byte_set_bytes by done. replace (in_range _ _ _) with true by (symmetry; apply in_range_spec; lia).
    destruct (lookup_lt_is_Some_2 bs i Hi) as [b Hb]. rewrite Hb. f_equal.
    replace (Z.to_nat (a + Z.of_nat i - a)) with i by lia. by apply nth_lookup_Some.
  - rewrite !lookup_ge_None_2; [done|lia|]. rewrite get_bytes_length. lia.
Qed.

Lemma get_le_bytes k u a (w : W) : get_bytes (set_bytes a (le_bytes k u) w) a (Z.of_nat k) = le_bytes k u.
Proof.
  pose proof (get_bytes_set_bytes a (le_bytes k u) w (le_bytes_range k u)) as H.
  by rewrite le_bytes_length in H.
Qed.

(** What a store leaves in its range, and what it leaves alone. *)
Lemma holds_put k a l (w : W) :
  Forall (unit_range k) l -> readable w a (Z.of_nat k * Z.of_nat (length l)) -> holds k (put k a l w) a l.
Proof.
  intros Hl Hr. split; [intros x Hx; rewrite may_put; by apply Hr|].
  intros i u Hi. pose proof (lookup_lt_Some _ _ _ Hi) as Hlen.
  rewrite <- (take_drop_middle _ _ _ Hi). rewrite put_app, length_take, Nat.min_l by lia.
  change (u :: drop (S i) l) with ([u] ++ drop (S i) l). rewrite put_app.
  rewrite (get_bytes_ext _ (put k (a + Z.of_nat k * Z.of_nat i) [u] (put k a (take i l) w))).
  - unfold put at 1. cbn [map concat]. rewrite app_nil_r.
    rewrite get_le_bytes. apply le_unit. by apply (Forall_lookup_1 _ _ _ _ Hl Hi).
  - intros x Hx. apply byte_put_out. apply in_range_false. simpl length. lia.
Qed.

Lemma holds_ext k (w w' : W) a l :
  (forall x, a <= x < a + Z.of_nat k * Z.of_nat (length l) ->
     byte_at w' x = byte_at w x /\ prot_at w' x = prot_at w x) ->
  holds k w a l -> holds k w' a l.
Proof.
  intros Hx [Hr Hv]. split.
  - intros x H. unfold may. rewrite (proj2 (Hx x H)). by apply Hr.
  - intros i u Hi. rewrite <- (Hv i u Hi). f_equal. apply get_bytes_ext. intros x H.
    pose proof (lookup_lt_Some _ _ _ Hi). apply Hx. nia.
Qed.

(** Two ranges of addresses have none in common. *)
Definition apart (a n b m : Z) : Prop := a + n <= b \/ b + m <= a.

Lemma holds_put_apart k k' a l b l' (w : W) :
  apart a (Z.of_nat k * Z.of_nat (length l)) b (Z.of_nat k' * Z.of_nat (length l')) ->
  holds k w a l -> holds k (put k' b l' w) a l.
Proof.
  intros Ha. apply holds_ext. intros x Hx. split; [|by rewrite prot_put].
  apply byte_put_out, in_range_false. unfold apart in Ha. lia.
Qed.

Lemma cstr_put_apart k k' a s b l' (w : W) :
  apart a (Z.of_nat k * (Z.of_nat (length s) + 1)) b (Z.of_nat k' * Z.of_nat (length l')) ->
  cstr k w a s -> cstr k (put k' b l' w) a s.
Proof.
  intros Ha (H1 & H2 & H3 & H4). split_and!; [done..|]. eapply holds_put_apart; [|done].
  rewrite length_app. simpl. by replace (Z.of_nat (length s + 1)) with (Z.of_nat (length s) + 1) by lia.
Qed.

Lemma cstr_put k a s (w : W) :
  0 < a -> a + Z.of_nat k * (Z.of_nat (length s) + 1) <= 2 ^ 64 ->
  Forall (fun u => u <> 0) s -> Forall (unit_range k) s ->
  readable w a (Z.of_nat k * (Z.of_nat (length s) + 1)) -> cstr k (put k a (s ++ [0]) w) a s.
Proof.
  intros Ha Hb Hnz Hs Hr. split_and!; [done..|]. apply holds_put.
  - apply Forall_app. split; [done|]. apply list.Forall_singleton. unfold unit_range.
    split; [done|]. apply Z.pow_pos_nonneg; lia.
  - rewrite length_app. simpl. by replace (Z.of_nat (length s + 1)) with (Z.of_nat (length s) + 1) by lia.
Qed.

Lemma writable_put k a l (w : W) b n : writable w b n -> writable (put k a l w) b n.
Proof. intros H x Hx. rewrite may_put. by apply H. Qed.

Lemma readable_put k a l (w : W) b n : readable w b n -> readable (put k a l w) b n.
Proof. intros H x Hx. rewrite may_put. by apply H. Qed.

Lemma put_list_ok k a l (w : W) : writable w a (Z.of_nat k * Z.of_nat (length l)) ->
  put_list (E := E) k a l w = (Ok tt, put k a l w).
Proof.
  intros H. unfold put_list, store. rewrite length_units.
  by rewrite (proj2 (may_all_spec _ _ _ _) H).
Qed.

Lemma uput_ok k a i u (w : W) : writable w (a + Z.of_nat k * i) (Z.of_nat k) ->
  uput (E := E) k a i u w = (Ok tt, put k (a + Z.of_nat k * i) [u] w).
Proof.
  intros H. unfold uput, write_int, put. cbn [map concat]. rewrite app_nil_r. unfold store.
  rewrite le_bytes_length. by rewrite (proj2 (may_all_spec _ _ _ _) H).
Qed.

Lemma write_int_put k a v (w : W) : writable w a (Z.of_nat k) ->
  write_int (E := E) k a v w = (Ok tt, put k a [v] w).
Proof.
  intros H. pose proof (uput_ok k a 0 v w) as Hu. unfold uput in Hu. rewrite Z.mul_0_r, Z.add_0_r in Hu.
  by apply Hu.
Qed.

(** Storing the next unit of a list. *)
Lemma uput_next k a (l : list Z) i u (w : W) :
  l !! i = Some u -> writable w a (Z.of_nat k * Z.of_nat (length l)) ->
  uput (E := E) k a (Z.of_nat i) u (put k a (take i l) w) = (Ok tt, put k a (take (S i) l) w).
Proof.
  intros Hi Hw. pose proof (lookup_lt_Some _ _ _ Hi). rewrite uput_ok.
  - by rewrite (take_S_r _ _ _ Hi), put_app, length_take, Nat.min_l by lia.
  - apply writable_put. intros x Hx. apply Hw. nia.
Qed.

(** Copying a string through its terminator, into a range apart from it. *)
Lemma copy_to_nul_ok k dst d src s (w : W) : (0 < k)%nat ->
  cstr k w src s -> let n := Z.of_nat k * (Z.of_nat (length s) + 1) in
  writable w (dst + Z.of_nat k * d) n -> apart src n (dst + Z.of_nat k * d) n ->
  copy_to_nul (E := E) k dst d src w = (Ok tt, put k (dst + Z.of_nat k * d) (s ++ [0]) w).
Proof.
  intros Hk Hs n Hw Ha. set (q := dst + Z.of_nat k * d) in *. set (l := s ++ [0]).
  assert (Hlen : length l = S (length s)) by (unfold l; rewrite length_app; simpl; lia).
  assert (Hstep : forall i u, l !! i = Some u -> forall (K : Z -> M W E (Z + unit)),
    mbind (uget k src (Z.of_nat i)) (fun c => uput k dst (d + Z.of_nat i) c ;;; K c)%rust (put k q (take i l) w)
    = K u (put k q (take (S i) l) w)).
  { intros i u Hi K. pose proof (lookup_lt_Some _ _ _ Hi).
    erewrite mbind_ok; [|eapply cstr_get; [|exact Hi]; eapply cstr_put_apart; [|exact Hs]].
    - assert (Hu : uput (E := E) k dst (d + Z.of_nat i) u (put k q (take i l) w) = (Ok tt, put k q (take (S i) l) w)).
      { rewrite <- (uput_next k q l i u w Hi); [unfold uput; f_equal; unfold q; lia|].
        rewrite Hlen. intros x Hx. apply Hw. unfold n. lia. }
      by rewrite (mbind_ok _ _ _ _ _ Hu).
    - rewrite length_take, Nat.min_l by lia. unfold apart, n in *. nia. }
  unfold copy_to_nul. replace (put k q l w) with (put k q (take (S (length s)) l) w) by (by rewrite take_ge by lia).
  apply (loop_run (length s) Z.of_nat (fun i => put k q (take i l) w)); [done|done|by eapply cstr_length| |].
  - intros i Hi. destruct (cstr_lookup _ _ _ _ _ Hs Hi) as (u & Hu & _ & Hnz).
    rewrite (Hstep i u Hu). apply Z.eqb_neq in Hnz. rewrite Hnz.
    by replace (Z.of_nat (S i)) with (Z.of_nat i + 1) by lia.
  - by rewrite (Hstep (length s) 0 (nul_lookup s)).
Qed.
End Stores.

(** ** Checking the assertions on a concrete memory *)

(** ** Memory that stays as it is *)

Section Frames.
Context `{HW : Host W}.

(** Mapped memory outside of [b .. b+n] keeps its bytes and protections. *)
Definition intact_but (b n : Z) (w w' : W) : Prop := forall x, in_range b n x = false -> prot_at w x <> None ->
  prot_at w' x = prot_at w x /\ byte_at w' x = byte_at w x.

Definition intact (w w' : W) : Prop := forall x, prot_at w x <> None ->
  prot_at w' x = prot_at w x /\ byte_at w' x = byte_at w x.

Lemma intact_refl w : intact w w.
Proof. done. Qed.

Lemma intact_but_refl b n w : intact_but b n w w.
Proof. done. Qed.

Lemma intact_trans w1 w2 w3 : intact w1 w2 -> intact w2 w3 -> intact w1 w3.
Proof. intros H1 H2 x Hx. destruct (H1 x Hx) as [E1 E2]. rewrite <- E1, <- E2. apply H2. by rewrite E1. Qed.

Lemma intact_but_trans b n w1 w2 w3 : intact_but b n w1 w2 -> intact_but b n w2 w3 -> intact_but b n w1 w3.
Proof. intros H1 H2 x Hr Hx. destruct (H1 x Hr Hx) as [E1 E2]. rewrite <- E1, <- E2. apply H2; [done|]. by rewrite E1. Qed.

Lemma intact_weaken b n w w' : intact w w' -> intact_but b n w w'.
Proof. intros H x _ Hx. by apply H. Qed.

(** Nothing of a region that was not mapped counts. *)
Lemma intact_fresh b n w w' : (forall x, b <= x < b + n -> prot_at w x = None) -> intact_but b n w w' -> intact w w'.
Proof.
  intros Hf H x Hx. destruct (in_range b n x) eqn:R; [|by apply H]. rewrite Hf in Hx by ranges. done.
Qed.
End Frames.

(** ** Records of fields

    A structure is written field by field: the width of a field, its offset, its
    value. *)
Section Records.
Context `{HW : Host W} {E : Type}.

Definition field : Type := nat * Z * Z.

Definition write_record (p : Z) (fs : list field) : M W E unit :=
  m_iter (fun '(k, off, v) => write_int k (p + off) v) fs.

Definition put_record (p : Z) (fs : list field) (w : W) : W :=
  foldl (fun w '(k, off, v) => put k (p + off) [v] w) w fs.

(** The fields follow one another from [lo] on, inside [hi], each within its width. *)
Fixpoint laid_out (lo hi : Z) (fs : list field) : Prop :=
  match fs with
  | [] => lo <= hi
  | (k, off, v) :: fs => lo <= off /\ unit_range k v /\ laid_out (off + Z.of_nat k) hi fs
  end.

Definition has_fields (w : W) (p : Z) (fs : list field) : Prop :=
  Forall (fun '(k, off, v) => holds k w (p + off) [v]) fs.

Lemma laid_out_le lo hi fs : laid_out lo hi fs -> lo <= hi.
Proof. revert lo. induction fs as [|[[k off] v] fs IH]; intros lo; cbn; [done|]. intros (H1 & _ & H2). specialize (IH _ H2). lia. Qed.

Context `{!HostLaws W}.

Lemma prot_put_record p fs (w : W) x : prot_at (put_record p fs w) x = prot_at w x.
Proof. revert w. induction fs as [|[[k off] v] fs IH]; intros w; [done|].
  change (put_record p ((k, off, v) :: fs) w) with (put_record p fs (put k (p + off) [v] w)). by rewrite IH, prot_put. Qed.

Lemma byte_put_record p lo hi fs (w : W) x : laid_out lo hi fs -> in_range (p + lo) (hi - lo) x = false ->
  byte_at (put_record p fs w) x = byte_at w x.
Proof.
  revert lo w. induction fs as [|[[k off] v] fs IH]; intros lo w; [done|]. intros (H1 & _ & H2) Hx.
  pose proof (laid_out_le _ _ _ H2). 
  change (put_record p ((k, off, v) :: fs) w) with (put_record p fs (put k (p + off) [v] w)).
  rewrite (IH (off + Z.of_nat k)); [|done|apply in_range_false; ranges]. apply byte_put_out. apply in_range_false. ranges.
Qed.

(** Every field can be read back. *)
Lemma put_record_fields p lo hi fs (w : W) : laid_out lo hi fs -> readable w (p + lo) (hi - lo) ->
  has_fields (put_record p fs w) p fs.
Proof.
  revert lo w. unfold has_fields. induction fs as [|[[k off] v] fs IH]; intros lo w; [constructor|]. intros (H1 & Hv & H2) Hr.
  pose proof (laid_out_le _ _ _ H2) as Hle.
  change (put_record p ((k, off, v) :: fs) w) with (put_record p fs (put k (p + off) [v] w)). constructor.
  - apply (holds_ext k (put k (p + off) [v] w)).
    + intros x Hx. split; [|apply prot_put_record]. apply (byte_put_record p (off + Z.of_nat k) hi); [done|]. apply in_range_false. ranges.
    + apply holds_put; [by apply Forall_singleton|]. cbn [length]. intros x Hx. apply Hr. ranges.
  - apply (IH (off + Z.of_nat k)); [done|]. intros x Hx. rewrite may_put. apply Hr. lia.
Qed.

Lemma write_record_ok p lo hi fs (w : W) : laid_out lo hi fs -> writable w (p + lo) (hi - lo) ->
  write_record p fs w = (Ok tt, put_record p fs w).
Proof.
  revert lo w. induction fs as [|[[k off] v] fs IH]; intros lo w; [done|]. intros (H1 & Hv & H2) Hw.
  pose proof (laid_out_le _ _ _ H2). unfold write_record, put_record. cbn [m_iter foldl].
  rewrite (mbind_ok _ _ _ tt (put k (p + off) [v] w)).
  - apply (IH (off + Z.of_nat k)); [done|]. apply writable_put. intros x Hx. apply Hw. lia.
  - apply write_int_put. intros x Hx. apply Hw. lia.
Qed.

(** A field is read back. *)
Lemma read_field (i k : nat) w p off v fs : has_fields w p fs -> fs !! i = Some (k, off, v) -> read_int (E := E) k (p + off) w = (Ok v, w).
Proof.
  intros Hf Hin. pose proof (Forall_lookup_1 _ _ _ _ Hf Hin) as Hh. cbn in Hh.
  pose proof (uget_holds (E := E) k w (p + off) [v] 0 v Hh eq_refl) as H. unfold uget in H. by rewrite Z.mul_0_r, Z.add_0_r in H.
Qed.

Lemma fields_ext (w w' : W) p lo hi fs : laid_out lo hi fs -> (forall x, p + lo <= x < p + hi -> byte_at w' x = byte_at w x /\ prot_at w' x = prot_at w x) ->
  has_fields w p fs -> has_fields w' p fs.
Proof.
  unfold has_fields. revert lo. induction fs as [|[[k off] v] fs IH]; intros lo Hl Hx Hf; [constructor|]. destruct Hl as (H1 & _ & H2).
  inversion_clear Hf as [|? ? Hh Hfs]. pose proof (laid_out_le _ _ _ H2). constructor.
  - eapply holds_ext; [|exact Hh]. intros x Hr. cbn [length] in Hr. apply Hx. lia.
  - apply (IH (off + Z.of_nat k)); [done| |done]. intros x Hr. apply Hx. lia.
Qed.

(** Writing changes no protection, also when it faults half-way. *)
Lemma write_int_prot k p v (w : W) x : prot_at (snd (write_int (E := E) k p v w)) x = prot_at w x.
Proof. unfold write_int, store. destruct (may_all _ _ _ _); [apply prot_set_bytes|done]. Qed.

Lemma write_record_prot p fs (w : W) x : prot_at (snd (write_record p fs w)) x = prot_at w x.
Proof.
  revert w. induction fs as [|[[k off] v] fs IH]; intros w; [done|]. unfold write_record. cbn [m_iter].
  pose proof (write_int_prot k (p + off) v w x) as Hp. unfold mbind. destruct (write_int k (p + off) v w) as [[[]|e| |] w1]; cbn [snd] in *; [|done..].
  rewrite <- Hp. apply IH.
Qed.

Lemma put_record_intact p lo hi fs (w : W) : laid_out lo hi fs -> intact_but (p + lo) (hi - lo) w (put_record p fs w).
Proof. intros H x Hx _. split; [apply prot_put_record|by apply (byte_put_record p lo hi)]. Qed.
End Records.

(** The units of an ASCII string. *)
Definition units_of (s : string) : list Z :=
  map (fun c => Z.of_nat (nat_of_ascii c)) (list_ascii_of_string s).

Section Check.
Context `{HW : Host W}.

Definition holds_b (k : nat) (w : W) (a : Z) (l : list Z) : bool :=
  may_all prot_r w a (Z.of_nat k * Z.of_nat (length l)) &&
  forallb (fun i => match l !! i with
    | Some u => le_val (get_bytes w (a + Z.of_nat k * Z.of_nat i) (Z.of_nat k)) =? u
    | None => true end) (seq 0 (length l)).

Definition cstr_b (k : nat) (w : W) (a : Z) (s : list Z) : bool :=
  (0 <? a) && (a + Z.of_nat k * (Z.of_nat (length s) + 1) <=? 2 ^ 64) &&
  forallb (fun u => negb (u =? 0)) s && holds_b k w a (s ++ [0]).

Lemma may_all_readable w a n : may_all prot_r w a n = true -> readable w a n.
Proof. exact (proj1 (may_all_spec prot_r w a n)). Qed.

Lemma may_all_writable w a n : may_all prot_w w a n = true -> writable w a n.
Proof. exact (proj1 (may_all_spec prot_w w a n)). Qed.

Lemma holds_b_sound k w a l : holds_b k w a l = true -> holds k w a l.
Proof.
  intros H. apply andb_prop in H as [H1 H2]. split; [by apply may_all_readable|].
  intros i u Hi. rewrite forallb_forall in H2. specialize (H2 i). rewrite Hi in H2.
  apply Z.eqb_eq, H2, in_seq. pose proof (lookup_lt_Some _ _ _ Hi). lia.
Qed.

Lemma cstr_b_sound k w a s : cstr_b k w a s = true -> cstr k w a s.
Proof.
  intros H. repeat (apply andb_prop in H as [H ?]). split_and!; [lia|lia| |by apply holds_b_sound].
  apply Forall_forall. intros u Hu. rewrite forallb_forall in H1. apply list_elem_of_In in Hu.
  specialize (H1 u Hu). apply negb_true_iff, Z.eqb_neq in H1. done.
Qed.
End Check.
