(* ===== verification/NtMemory.v ===== *)
(** * Virtual memory calls ([ntapi/src/memory.rs])

    The table of the regions handed out by [VirtualAlloc], and the four calls that
    work on it and on the memory of the host: [VirtualAlloc], [VirtualFree],
    [VirtualProtect] and [VirtualQuery]. *)
From Stdlib Require Import ZArith Lia.
From stdpp Require Import base list option gmap.
From S2P Require Import Prelude PeHost GuestMem.
Local Open Scope rust_scope.
Local Open Scope Z_scope.
Set Warnings "-register-all".

(** ** Flags *)

Definition MEM_COMMIT : Z := 0x1000.
Definition MEM_RESERVE : Z := 0x2000.
Definition MEM_RELEASE : Z := 0x8000.
Definition MEM_DECOMMIT : Z := 0x4000.

Definition PAGE_NOACCESS : Z := 0x01.
Definition PAGE_READONLY : Z := 0x02.
Definition PAGE_READWRITE : Z := 0x04.
Definition PAGE_EXECUTE : Z := 0x10.
Definition PAGE_EXECUTE_READ : Z := 0x20.
Definition PAGE_EXECUTE_READWRITE : Z := 0x40.

(** [flags & mask != 0] *)
Definition any_bit (flags mask : Z) : bool := negb (Z.land flags mask =? 0).

Definition win_prot_to_linux (prot : Z) : Z :=
  let p := 0 in
  let p := if any_bit prot (Z.lor PAGE_READWRITE PAGE_EXECUTE_READWRITE) then Z.lor p prot_rw else p in
  let p := if any_bit prot (Z.lor PAGE_READONLY PAGE_EXECUTE_READ) then Z.lor p PROT_READ else p in
  let p := if any_bit prot (Z.lor (Z.lor PAGE_EXECUTE PAGE_EXECUTE_READ) PAGE_EXECUTE_READWRITE) then Z.lor p PROT_EXEC else p in
  if prot =? PAGE_NOACCESS then 0 else p.

Definition linux_prot_to_win (prot : Z) : Z :=
  match any_bit prot PROT_READ, any_bit prot PROT_WRITE, any_bit prot PROT_EXEC with
  | false, false, false => PAGE_NOACCESS
  | true, false, false => PAGE_READONLY
  | true, true, false => PAGE_READWRITE
  | true, false, true => PAGE_EXECUTE_READ
  | true, true, true => PAGE_EXECUTE_READWRITE
  | false, false, true => PAGE_EXECUTE
  | _, _, _ => PAGE_READWRITE
  end.

(** ** The table *)

Record Region : Type := mkRegion { r_base : Z; r_size : Z; r_prot : Z }.

Abbreviation AllocTable := (gmap Z Region).

(** [range(..=addr).next_back()]: the entry with the last base up to the address. *)
Definition last_upto (addr : Z) (t : AllocTable) : option (Z * Region) :=
  map_fold (fun b r acc =>
    if (b <=? addr) && (match acc with Some (b', _) => b' <? b | None => true end) then Some (b, r) else acc) None t.

Definition containing (t : AllocTable) (addr : Z) : option Region :=
  match last_upto addr t with
  | Some (_, r) => if (r_base r <=? addr) && (addr <? r_base r + r_size r) then Some r else None
  | None => None
  end.

Definition insert_region (base size prot : Z) (t : AllocTable) : AllocTable := <[base := mkRegion base size prot]> t.

(** ** The host

    The return code of [munmap], which changes memory when it is zero, and [mmap]
    of inaccessible pages over a range. *)
Class VirtualHost (W : Type) `{HW : Host W} := {
  munmap_rc : Z -> Z -> W -> Z;
  sys_map_none : Z -> Z -> W -> bool * W
}.

Class VirtualLaws (W : Type) `{HW : Host W} `{HV : !VirtualHost W} := {
  mmap_zero hint fixed w : fst (sys_mmap hint 0 fixed w) = None;
  map_none_ok a len w w' x : 0 < len -> a mod page_size = 0 -> len mod page_size = 0 -> sys_map_none a len w = (true, w') ->
    prot_at w' x = (if in_range a len x then Some 0 else prot_at w x) /\
    byte_at w' x = (if in_range a len x then 0 else byte_at w x);
  munmap_zero a w : munmap_rc a 0 w <> 0;
  map_none_failed a len w w' x : sys_map_none a len w = (false, w') -> prot_at w' x = prot_at w x /\ byte_at w' x = byte_at w x
}.

(** ** The calls *)

(** The fields of [MEMORY_BASIC_INFORMATION] that a query writes. *)
Definition basic_information (r : Region) : list field :=
  [(8%nat, 0, r_base r); (8%nat, 8, r_base r); (4%nat, 16, PAGE_READWRITE); (8%nat, 24, r_size r); (4%nat, 32, MEM_COMMIT);
   (4%nat, 36, linux_prot_to_win (r_prot r)); (4%nat, 40, 0x20000)].

(** The table behind its lock, and memory. *)
Record VM (W : Type) : Type := mkVM { regions : AllocTable; vm_mem : W }.
Arguments mkVM {W}.
Arguments regions {W}.
Arguments vm_mem {W}.

Section Calls.
Context `{HW : Host W} `{HV : !VirtualHost W} {E : Type}.
Local Abbreviation V := (M (VM W) E).

Definition with_mem {A} (m : M W E A) : V A := fun s =>
  let '(r, w) := m (vm_mem s) in (r, mkVM (regions s) w).
Definition with_table {A} (f : AllocTable -> A * AllocTable) : V A := fun s =>
  let '(a, t) := f (regions s) in (Ok a, mkVM t (vm_mem s)).

Definition mmap_rw (len : Z) : M W E (option Z) := fun w => let '(r, w) := sys_mmap 0 len false w in (Ok r, w).
Definition munmap_checked (a len : Z) : M W E Z := fun w =>
  (Ok (munmap_rc a len w), if munmap_rc a len w =? 0 then sys_munmap a len w else w).
Definition map_none (a len : Z) : M W E bool := fun w => let '(r, w) := sys_map_none a len w in (Ok r, w).

Definition virtual_alloc (addr size alloc_type prot : Z) : V Z :=
  if size =? 0 then mret 0
  else if negb (any_bit alloc_type (Z.lor MEM_COMMIT MEM_RESERVE)) then mret 0
  else
    let rounded := round_up size page_size in
    let linux_prot := win_prot_to_linux prot in
    let! base := with_mem (mmap_rw rounded) in
    match base with
    | None => mret 0
    | Some base =>
        let! rc := if negb (linux_prot =? prot_rw) then with_mem (mprotect base rounded linux_prot) else mret 0 in
        if negb (rc =? 0) then with_mem (munmap base rounded) ;;; mret 0
        else with_table (fun t => (tt, insert_region base rounded linux_prot t)) ;;; mret base
    end.

Definition virtual_free (addr size free_type : Z) : V Z :=
  if addr =? 0 then mret 0
  else if any_bit free_type MEM_RELEASE then
    let! region := with_table (fun t => (t !! addr, delete addr t)) in
    match region with
    | None => mret 0
    | Some r =>
        let! rc := with_mem (munmap_checked addr (r_size r)) in
        mret (if negb (rc =? 0) then 0 else 1)
    end
  else if any_bit free_type MEM_DECOMMIT then
    if size =? 0 then mret 0
    else
      let rounded := round_up size page_size in
      let base_aligned := round_down addr page_size in
      let! rc := with_mem (munmap_checked base_aligned rounded) in
      if negb (rc =? 0) then mret 0
      else
        let! remap := with_mem (map_none base_aligned rounded) in
        mret (if remap then 1 else 0)
  else mret 0.

Definition virtual_protect (addr size new_prot old_prot : Z) : V Z :=
  if (addr =? 0) || (size =? 0) then mret 0
  else
    let base_aligned := round_down addr page_size in
    let rounded := round_up (wrap 64 (size + (addr - base_aligned))) page_size in
    let! old := with_table (fun t => (match containing t addr with Some r => r_prot r | None => prot_rw end, t)) in
    let linux_prot := win_prot_to_linux new_prot in
    let! rc := with_mem (mprotect base_aligned rounded linux_prot) in
    if negb (rc =? 0) then mret 0
    else
      (if negb (old_prot =? 0) then with_mem (write_int 4 old_prot (linux_prot_to_win old)) else mret tt) ;;;
      with_table (fun t => (tt, alter (fun r => mkRegion (r_base r) (r_size r) linux_prot) (round_down addr page_size) t)) ;;;
      mret 1.

Definition virtual_query (addr buffer length : Z) : V Z :=
  if (buffer =? 0) || (length =? 0) then mret 0
  else if length <? 48 then mret 0
  else
    let! region := with_table (fun t => (containing t addr, t)) in
    match region with
    | None => mret 0
    | Some r =>
        with_mem (write_record buffer (basic_information r)) ;;;
        mret 48
    end.
End Calls.

(** ** Flags and back *)

Lemma prot_flags_back p : p = PAGE_NOACCESS \/ p = PAGE_READONLY \/ p = PAGE_READWRITE \/ p = PAGE_EXECUTE \/
  p = PAGE_EXECUTE_READ \/ p = PAGE_EXECUTE_READWRITE -> linux_prot_to_win (win_prot_to_linux p) = p.
Proof. by intros [-> |[-> |[-> |[-> |[-> | ->]]]]]. Qed.

(** ** The table as a map of intervals *)

Lemma last_upto_spec addr t :
  match last_upto addr t with
  | Some (b, r) => t !! b = Some r /\ b <= addr /\ forall b' r', t !! b' = Some r' -> b' <= addr -> b' <= b
  | None => forall b' r', t !! b' = Some r' -> addr < b'
  end.
Proof.
  unfold last_upto. apply (map_fold_weak_ind (fun acc t => match acc with
    | Some (b, r) => t !! b = Some r /\ b <= addr /\ forall b' r', t !! b' = Some r' -> b' <= addr -> b' <= b
    | None => forall b' r', t !! b' = Some r' -> addr < b' end)).
  - intros b' r' H. by rewrite lookup_empty in H.
  - intros b r t' acc Hb IH. destruct (Z.leb_spec b addr) as [Hle|Hgt]; cbn [andb].
    + destruct acc as [[b0 r0]|].
      * destruct IH as (H1 & H2 & H3). destruct (Z.ltb_spec b0 b) as [Hlt|Hge].
        -- split; [apply lookup_insert_eq|split; [done|]]. intros b' r' H Hle'.
           apply lookup_insert_Some in H as [[<- _]|[_ H]]; [lia|]. specialize (H3 _ _ H Hle'). lia.
        -- split; [|split; [done|]].
           ++ rewrite lookup_insert_ne; [done|]. intros ->. congruence.
           ++ intros b' r' H Hle'. apply lookup_insert_Some in H as [[<- _]|[_ H]]; [lia|]. by eapply H3.
      * split; [apply lookup_insert_eq|split; [done|]]. intros b' r' H Hle'.
        apply lookup_insert_Some in H as [[<- _]|[_ H]]; [lia|]. specialize (IH _ _ H). lia.
    + destruct acc as [[b0 r0]|].
      * destruct IH as (H1 & H2 & H3). split; [|split; [done|]].
        -- rewrite lookup_insert_ne; [done|]. intros ->. congruence.
        -- intros b' r' H Hle'. apply lookup_insert_Some in H as [[<- _]|[_ H]]; [lia|]. by eapply H3.
      * intros b' r' H. apply lookup_insert_Some in H as [[<- _]|[_ H]]; [lia|]. by eapply IH.
Qed.

Section Table.
Context `{HW : Host W} `{HL : !HostLaws W}.

(** A region is a run of whole mapped pages of the user half. *)
Record region_ok (w : W) (r : Region) : Prop := {
  rg_base : 0 < r_base r /\ r_base r mod page_size = 0;
  rg_size : 0 < r_size r /\ r_size r mod page_size = 0;
  rg_top : r_base r + r_size r <= 2 ^ 63;
  rg_mapped : forall x, r_base r <= x < r_base r + r_size r -> prot_at w x <> None
}.

(** The regions are filed under their bases and do not overlap. *)
Record table_ok (w : W) (t : AllocTable) : Prop := {
  tb_region : forall b r, t !! b = Some r -> r_base r = b /\ region_ok w r;
  tb_apart : forall b1 b2 r1 r2, t !! b1 = Some r1 -> t !! b2 = Some r2 -> b1 <> b2 ->
    apart b1 (r_size r1) b2 (r_size r2)
}.

Definition vm_ok (s : VM W) : Prop := table_ok (vm_mem s) (regions s).

Lemma containing_some w t a r : table_ok w t -> containing t a = Some r ->
  t !! r_base r = Some r /\ r_base r <= a < r_base r + r_size r.
Proof.
  intros [Hr _] H. unfold containing in H. pose proof (last_upto_spec a t) as Hs. destruct (last_upto a t) as [[b r']|]; [|done].
  destruct (_ && _) eqn:E; [|done]. injection H as ->. destruct Hs as (Hb & _). destruct (Hr _ _ Hb) as [He _]. rewrite He. split; [done|lia].
Qed.

Lemma containing_in w t a b r : table_ok w t -> t !! b = Some r -> b <= a < b + r_size r -> containing t a = Some r.
Proof.
  intros [Hr Ha] Hb Hin. unfold containing. pose proof (last_upto_spec a t) as Hs. destruct (last_upto a t) as [[b' r']|].
  - destruct Hs as (Hb' & Hle & Hmax). specialize (Hmax _ _ Hb ltac:(lia)).
    destruct (decide (b' = b)) as [->|Hne].
    + rewrite Hb in Hb'. injection Hb' as <-. destruct (Hr _ _ Hb) as [He _]. by replace (_ && _) with true by lia.
    + pose proof (Ha _ _ _ _ Hb' Hb Hne) as H. destruct (Hr _ _ Hb') as [_ Hok]. pose proof (rg_size _ _ Hok) as [Hs _]. unfold apart in H. lia.
  - specialize (Hs _ _ Hb). lia.
Qed.

Lemma table_ok_mono w w' t : (forall x, prot_at w x <> None -> prot_at w' x <> None) -> table_ok w t -> table_ok w' t.
Proof.
  intros Hm [H1 H2]. split; [|exact H2]. intros b r Hb. destruct (H1 _ _ Hb) as [He [? ? ? Hx]]. split; [done|]. split; auto.
Qed.

(** A region of unmapped addresses is apart from every region. *)
Lemma table_ok_insert w w' t b n pr : table_ok w t ->
  0 < b /\ b mod page_size = 0 -> 0 < n /\ n mod page_size = 0 -> b + n <= 2 ^ 63 ->
  (forall x, b <= x < b + n -> prot_at w x = None) -> (forall x, b <= x < b + n -> prot_at w' x <> None) ->
  (forall x, prot_at w x <> None -> prot_at w' x <> None) -> table_ok w' (insert_region b n pr t).
Proof.
  intros Ht Hb Hn Htop Hfree Hnew Hm.
  assert (Hap : forall b' r', t !! b' = Some r' -> apart b n b' (r_size r')).
  { intros b' r' H. destruct (tb_region _ _ Ht _ _ H) as [He [[Hb1 _] [Hn1 _] _ Hx]].
    unfold apart. destruct (Z.le_gt_cases (b + n) b'); [by left|]. destruct (Z.le_gt_cases (b' + r_size r') b); [by right|].
    exfalso. apply (Hx (Z.max b b')); [lia|]. apply Hfree. lia. }
  destruct (table_ok_mono _ _ _ Hm Ht) as [H1 H2]. unfold insert_region. split.
  - intros b' r' H. apply lookup_insert_Some in H as [[<- <-]|[_ H]]; [|by apply H1]. by split.
  - intros b1 b2 r1 r2 Hb1 Hb2 Hne. apply lookup_insert_Some in Hb1 as [[<- <-]|[_ Hb1]]; apply lookup_insert_Some in Hb2 as [[<- <-]|[_ Hb2]].
    + done.
    + by apply Hap.
    + cbn [r_size]. specialize (Hap _ _ Hb1). unfold apart in *. lia.
    + by apply (H2 b1 b2).
Qed.

(** Taking a region out allows its pages to go. *)
Lemma table_ok_delete w w' t b r : table_ok w t -> t !! b = Some r ->
  (forall x, in_range b (r_size r) x = false -> prot_at w x <> None -> prot_at w' x <> None) -> table_ok w' (delete b t).
Proof.
  intros [H1 H2] Hb Hm. split.
  - intros b' r' H. apply lookup_delete_Some in H as [Hne H]. destruct (H1 _ _ H) as [He [Hb1 Hn1 Ht Hx]]. split; [done|].
    split; [done..|]. intros x Hr. apply Hm; [|by apply Hx]. pose proof (H2 _ _ _ _ Hb H Hne) as Ha. apply in_range_false. unfold apart in Ha. lia.
  - intros b1 b2 r1 r2 Hb1 Hb2. apply lookup_delete_Some in Hb1 as [_ Hb1]. apply lookup_delete_Some in Hb2 as [_ Hb2]. by apply H2.
Qed.

(** Protections of regions do not count. *)
Lemma table_ok_alter w t b pr : table_ok w t -> table_ok w (alter (fun r => mkRegion (r_base r) (r_size r) pr) b t).
Proof.
  intros [H1 H2].
  assert (Hal : forall b' r', alter (fun r => mkRegion (r_base r) (r_size r) pr) b t !! b' = Some r' ->
    exists r, t !! b' = Some r /\ r_base r' = r_base r /\ r_size r' = r_size r).
  { intros b' r' H. apply lookup_alter_Some in H as [(<- & r & H & ->)|[_ H]]; eauto. }
  split.
  - intros b' r' H. destruct (Hal _ _ H) as (r & Hr & E1 & E2). destruct (H1 _ _ Hr) as [He [? ? ? ?]].
    split; [congruence|]. split; rewrite ?E1, ?E2; done.
  - intros b1 b2 r1 r2 Hb1 Hb2. destruct (Hal _ _ Hb1) as (r1' & Hr1 & _ & ->). destruct (Hal _ _ Hb2) as (r2' & Hr2 & _ & ->). by apply H2.
Qed.
End Table.

(** ** What each call does *)

Section Results.
Context `{HW : Host W} `{HL : !HostLaws W} `{HV : !VirtualHost W} `{HVL : !VirtualLaws W} {E : Type}.

Lemma with_mem_ok {A} (m : M W E A) (s : VM W) a w : m (vm_mem s) = (Ok a, w) -> with_mem m s = (Ok a, mkVM (regions s) w).
Proof. intros H. unfold with_mem. by rewrite H. Qed.

Lemma with_table_ok {A} (f : AllocTable -> A * AllocTable) (s : VM W) a t : f (regions s) = (a, t) ->
  with_table (E := E) f s = (Ok a, mkVM t (vm_mem s)).
Proof. intros H. unfold with_table. by rewrite H. Qed.

Lemma round_pages n : 0 < n < 2 ^ 64 ->
  round_up n page_size = 0 \/
  round_up n page_size mod page_size = 0 /\ n <= round_up n page_size < n + page_size.
Proof.
  intros Hn. rewrite page_size_shift. pose proof page_shift_range as Hp. generalize dependent (page_shift (W := W)). intros k Hp.
  assert (H1 : 0 < 2 ^ k <= 2 ^ 30) by (split; [apply Z.pow_pos_nonneg|apply Z.pow_le_mono_r]; lia).
  destruct (Z.lt_ge_cases (n + 2 ^ k - 1) (2 ^ 64)) as [H|H]; [right; apply round_up_spec; lia|left].
  unfold round_up, wrap. rewrite <- (Z.mod_unique (n + 2 ^ k - 1) (2 ^ 64) 1 (n + 2 ^ k - 1 - 2 ^ 64)) by lia.
  fold (round_down (n + 2 ^ k - 1 - 2 ^ 64) (2 ^ k)).
  pose proof (round_down_spec (n + 2 ^ k - 1 - 2 ^ 64) k ltac:(lia) ltac:(lia)) as (Hm & Hr & H0).
  rewrite <- (Z.mod_small (round_down _ _) (2 ^ k)); [exact Hm|lia].
Qed.

(** A region just handed out: pages that were free, zeroed, with the protection asked for. *)
Record fresh_pages (w w' : W) (b n pr : Z) : Prop := {
  fp_base : 0 < b /\ b mod page_size = 0;
  fp_size : 0 < n /\ n mod page_size = 0;
  fp_top : b + n <= 2 ^ 63;
  fp_free : forall x, b <= x < b + n -> prot_at w x = None;
  fp_now : forall x, b <= x < b + n -> prot_at w' x = Some pr /\ byte_at w' x = 0;
  fp_rest : forall x, in_range b n x = false -> prot_at w' x = prot_at w x /\ byte_at w' x = byte_at w x
}.

Lemma fresh_intact w w' b n pr : fresh_pages w w' b n pr -> intact w w'.
Proof. intros H. apply (intact_fresh b n); [apply H|]. intros x Hx _. by apply H. Qed.

Lemma mmap_fresh n (w : W) b w' : 0 < n -> n mod page_size = 0 -> sys_mmap 0 n false w = (Some b, w') -> fresh_pages w w' b n prot_rw.
Proof.
  intros Hn Hm H. destruct (mmap_ok _ _ _ _ _ _ Hn Hm H) as (H1 & H2 & H3 & H4 & H5 & H6).
  split; [done|done|done|done| |].
  - intros x Hx. rewrite H5, H6. by replace (in_range b n x) with true by (symmetry; apply in_range_spec; lia).
  - intros x Hx. by rewrite H5, H6, Hx.
Qed.

Lemma alloc_cases (s : VM W) addr size alloc_type prot : 0 <= size < 2 ^ 64 ->
  exists b s', virtual_alloc (E := E) addr size alloc_type prot s = (Ok b, s') /\
    (b = 0 /\ regions s' = regions s /\ intact (vm_mem s) (vm_mem s') \/
     let n := round_up size page_size in
     size <= n < size + page_size /\ fresh_pages (vm_mem s) (vm_mem s') b n (win_prot_to_linux prot) /\
     regions s' = insert_region b n (win_prot_to_linux prot) (regions s)).
Proof.
  intros Hs. unfold virtual_alloc. destruct (Z.eqb_spec size 0) as [_|Hne]; [eexists _, _; split; [done|by left]|].
  destruct (any_bit alloc_type _); cbn [negb]; [|eexists _, _; split; [done|by left]].
  set (n := round_up size page_size). unfold mbind at 1, with_mem at 1, mmap_rw.
  destruct (sys_mmap 0 n false (vm_mem s)) as [[b|] w1] eqn:Em.
  2:{ eexists _, _. split; [done|]. left. split_and!; [done|done|]. intros x _. by eapply mmap_failed. }
  destruct (round_pages size ltac:(lia)) as [H0|[Hmod Hr]].
  { subst n. rewrite H0 in Em. pose proof (mmap_zero 0 false (vm_mem s)) as Hz. by rewrite Em in Hz. }
  fold n in Hmod, Hr. pose proof (mmap_fresh n _ _ _ ltac:(lia) Hmod Em) as Hf.
  destruct (Z.eqb_spec (win_prot_to_linux prot) prot_rw) as [Hp|Hp]; cbn [negb].
  { eexists b, (mkVM _ w1). split; [done|]. right. rewrite Hp. split_and!; [lia|lia|done|done]. }
  unfold mbind at 1, with_mem at 1, mprotect. cbn [vm_mem regions].
  destruct (sys_mprotect b n (win_prot_to_linux prot) w1) as [rc w2] eqn:Ep.
  destruct Hf as [Hb Hn Ht H1 H2 H3].
  assert (Hbytes : forall x, byte_at w2 x = byte_at w1 x) by (intros x; replace w2 with (snd (sys_mprotect b n (win_prot_to_linux prot) w1)) by (by rewrite Ep); apply mprotect_byte).
  destruct (Z.eqb_spec rc 0) as [->|Hrc]; cbn [negb].
  - pose proof (fun x => mprotect_ok b n _ w1 w2 x (proj2 Hb) (proj2 Hn) Ep) as Hpr. eexists b, (mkVM _ w2). split; [done|]. right.
    split_and!; [lia|lia| |done]. split; [done|done|done|done| |]; cbn [vm_mem].
    + intros x Hx. rewrite Hpr, Hbytes. rewrite (proj2 (H2 x Hx)). by replace (in_range b n x) with true by (symmetry; apply in_range_spec; lia).
    + intros x Hx. rewrite Hpr, Hbytes, Hx. by apply H3.
  - eexists _, _. split; [done|]. left. split_and!; [done|done|]. cbn [vm_mem].
    apply (intact_fresh b n); [done|]. intros x Hx _. rewrite munmap_prot, munmap_byte, Hx by (done || apply Hb || apply Hn). rewrite Hbytes.
    pose proof (mprotect_failed b n (win_prot_to_linux prot) w1 x (proj2 Hb) (proj2 Hn)) as Hq. rewrite Ep in Hq. cbn [snd] in Hq.
    destruct Hq as [-> |[Hq _]]; [by apply H3|congruence].
Qed.

(** A release takes the region away, whatever the host says. *)
Lemma release_cases (s : VM W) b size free_type : b <> 0 -> any_bit free_type MEM_RELEASE = true ->
  match regions s !! b with
  | None => virtual_free (E := E) b size free_type s = (Ok 0, mkVM (delete b (regions s)) (vm_mem s))
  | Some r => virtual_free (E := E) b size free_type s
      = (Ok (if munmap_rc b (r_size r) (vm_mem s) =? 0 then 1 else 0), mkVM (delete b (regions s))
          (if munmap_rc b (r_size r) (vm_mem s) =? 0 then sys_munmap b (r_size r) (vm_mem s) else vm_mem s))
  end.
Proof.
  intros Hb Hf. unfold virtual_free. rewrite (proj2 (Z.eqb_neq b 0)), Hf by done.
  rewrite (mbind_ok _ _ _ _ _ (with_table_ok (fun t => (t !! b, delete b t)) s _ _ eq_refl)).
  destruct (regions s !! b) as [r|]; [|done]. unfold mbind, with_mem, munmap_checked. cbn [vm_mem regions].
  by destruct (munmap_rc b (r_size r) (vm_mem s) =? 0).
Qed.

(** The pages that a range of addresses touches. *)
Definition first_page (addr : Z) : Z := round_down addr page_size.
Definition page_span (addr size : Z) : Z := round_up (wrap 64 (size + (addr - round_down addr page_size))) page_size.

Lemma first_page_spec addr : 0 <= addr -> first_page addr mod page_size = 0 /\ first_page addr <= addr < first_page addr + page_size /\ 0 <= first_page addr.
Proof. intros H. unfold first_page. rewrite page_size_shift. apply round_down_spec; [apply page_shift_range|done]. Qed.

Lemma page_span_spec addr size : 0 <= addr -> 0 < size -> size + page_size < 2 ^ 64 - page_size ->
  page_span addr size mod page_size = 0 /\ addr + size <= first_page addr + page_span addr size < addr + size + page_size.
Proof.
  intros Ha Hs Hb. pose proof (first_page_spec addr Ha) as (_ & H1 & _). unfold page_span. fold (first_page addr).
  rewrite wrap_small by lia. destruct (round_up_spec (size + (addr - first_page addr)) page_shift) as [H2 H3];
    rewrite <- ?page_size_shift in *; [apply page_shift_range|lia|lia|]. split; [done|lia].
Qed.

Definition recorded_prot (t : AllocTable) (addr : Z) : Z :=
  match containing t addr with Some r => r_prot r | None => prot_rw end.

(** A change of protection that the host makes. *)
Lemma protect_ok (s : VM W) addr size new_prot old_prot w : 0 < addr -> 0 < size -> size + page_size < 2 ^ 64 - page_size ->
  sys_mprotect (first_page addr) (page_span addr size) (win_prot_to_linux new_prot) (vm_mem s) = (0, w) ->
  (old_prot = 0 \/ writable w old_prot 4) ->
  virtual_protect (E := E) addr size new_prot old_prot s
  = (Ok 1, mkVM (alter (fun r => mkRegion (r_base r) (r_size r) (win_prot_to_linux new_prot)) (first_page addr) (regions s))
      (if old_prot =? 0 then w else put 4 old_prot [linux_prot_to_win (recorded_prot (regions s) addr)] w)).
Proof.
  intros Ha Hs Hb Hm Ho. unfold virtual_protect. rewrite (proj2 (Z.eqb_neq addr 0)), (proj2 (Z.eqb_neq size 0)) by lia. cbn [orb].
  cbv zeta. rewrite (mbind_ok _ _ _ _ _ (with_table_ok (fun t => (recorded_prot t addr, t)) s _ _ eq_refl)).
  unfold mbind at 1. rewrite (with_mem_ok _ _ 0 w) by (unfold mprotect; cbn [vm_mem]; unfold first_page, page_span in Hm; by rewrite Hm). cbn [Z.eqb negb].
  destruct (Z.eqb_spec old_prot 0) as [_|Hne]; cbn [negb]; [done|]. destruct Ho as [?|Hw]; [done|].
  unfold mbind at 1. rewrite (with_mem_ok _ _ tt (put 4 old_prot [linux_prot_to_win (recorded_prot (regions s) addr)] w)); [done|].
  by apply write_int_put.
Qed.

Lemma protect_refused (s : VM W) addr size new_prot old_prot rc w : 0 < addr -> 0 < size ->
  sys_mprotect (first_page addr) (page_span addr size) (win_prot_to_linux new_prot) (vm_mem s) = (rc, w) -> rc <> 0 ->
  virtual_protect (E := E) addr size new_prot old_prot s = (Ok 0, mkVM (regions s) w).
Proof.
  intros Ha Hs Hm Hrc. unfold virtual_protect. rewrite (proj2 (Z.eqb_neq addr 0)), (proj2 (Z.eqb_neq size 0)) by lia. cbn [orb].
  cbv zeta. rewrite (mbind_ok _ _ _ _ _ (with_table_ok (fun t => (recorded_prot t addr, t)) s _ _ eq_refl)).
  unfold mbind at 1. rewrite (with_mem_ok _ _ rc w) by (unfold mprotect; cbn [vm_mem]; unfold first_page, page_span in Hm; by rewrite Hm).
  by rewrite (proj2 (Z.eqb_neq rc 0) Hrc).
Qed.

Lemma win_prot_range p : unit_range 4 (linux_prot_to_win p).
Proof. unfold linux_prot_to_win, unit_range. by destruct (any_bit p PROT_READ), (any_bit p PROT_WRITE), (any_bit p PROT_EXEC). Qed.

Lemma information_laid_out w r : region_ok w r -> laid_out 0 48 (basic_information r).
Proof.
  intros [[Hb _] [Hn _] Ht _]. cbn [laid_out basic_information Z.of_nat].
  assert (unit_range 8 (r_base r) /\ unit_range 8 (r_size r)) as [H1 H2] by (unfold unit_range; change (8 * Z.of_nat 8) with 64; lia).
  pose proof (win_prot_range (r_prot r)). split_and!; done || lia.
Qed.

(** A query about an address of a region; about any other. *)
Lemma query_ok (s : VM W) addr buffer length r : table_ok (vm_mem s) (regions s) -> 0 < buffer -> 48 <= length ->
  writable (vm_mem s) buffer 48 -> containing (regions s) addr = Some r ->
  virtual_query (E := E) addr buffer length s = (Ok 48, mkVM (regions s) (put_record buffer (basic_information r) (vm_mem s))).
Proof.
  intros Ht Hb Hl Hw Hr. unfold virtual_query. rewrite (proj2 (Z.eqb_neq buffer 0)), (proj2 (Z.eqb_neq length 0)), (proj2 (Z.ltb_ge length 48)) by lia.
  cbn [orb]. rewrite (mbind_ok _ _ _ _ _ (with_table_ok (fun t => (containing t addr, t)) s _ _ eq_refl)), Hr.
  destruct (containing_some _ _ _ _ Ht Hr) as [Hin _]. destruct (tb_region _ _ Ht _ _ Hin) as [_ Hok].
  unfold mbind at 1. rewrite (with_mem_ok _ _ tt (put_record buffer (basic_information r) (vm_mem s))); [done|].
  apply (write_record_ok buffer 0 48); [by eapply information_laid_out|]. by rewrite Z.add_0_r.
Qed.

Lemma query_none (s : VM W) addr buffer length : containing (regions s) addr = None ->
  virtual_query (E := E) addr buffer length s = (Ok 0, s).
Proof.
  intros Hr. unfold virtual_query. destruct (_ || _); [done|]. destruct (_ <? _); [done|].
  rewrite (mbind_ok _ _ _ _ _ (with_table_ok (fun t => (containing t addr, t)) s _ _ eq_refl)), Hr. by destruct s.
Qed.
End Results.

(** ** Sequences of calls *)

Inductive vcall : Type :=
  | VAlloc (addr size alloc_type prot : Z)
  | VFree (addr size free_type : Z)
  | VProtect (addr size new_prot old_prot : Z)
  | VQuery (addr buffer length : Z).

Section Sequences.
Context `{HW : Host W} `{HL : !HostLaws W} `{HV : !VirtualHost W} `{HVL : !VirtualLaws W} {E : Type}.

Definition run_vcall (c : vcall) : M (VM W) E Z :=
  match c with
  | VAlloc addr size alloc_type prot => virtual_alloc addr size alloc_type prot
  | VFree addr size free_type => virtual_free addr size free_type
  | VProtect addr size new_prot old_prot => virtual_protect addr size new_prot old_prot
  | VQuery addr buffer length => virtual_query addr buffer length
  end.

(** The arguments are machine words. *)
Definition call_args (c : vcall) : Prop :=
  match c with
  | VAlloc _ size _ _ => 0 <= size < 2 ^ 64
  | VFree addr size _ => 0 <= addr /\ 0 <= size < 2 ^ 64
  | VProtect addr _ _ _ => 0 <= addr
  | VQuery _ _ _ => True
  end.

(** A decommit that stops half-way: its pages are unmapped, and then the host refuses
    to map inaccessible ones in their place. *)
Definition remap_refused (c : vcall) (s : VM W) : Prop :=
  match c with
  | VFree addr size free_type =>
      let a := round_down addr page_size in
      let n := round_up size page_size in
      addr <> 0 /\ size <> 0 /\ any_bit free_type MEM_RELEASE = false /\ any_bit free_type MEM_DECOMMIT = true /\
      munmap_rc a n (vm_mem s) = 0 /\ fst (sys_map_none a n (sys_munmap a n (vm_mem s))) = false
  | _ => False
  end.

Lemma round_up_aligned n : round_up n page_size mod page_size = 0.
Proof.
  rewrite page_size_shift. pose proof page_shift_range as Hp. generalize dependent (page_shift (W := W)). intros k Hp.
  unfold round_up. rewrite land_lnot_ones by lia. rewrite Zminus_mod_idemp_r, Z.sub_diag. apply Z.mod_0_l.
  apply Z.pow_nonzero; lia.
Qed.

Lemma mprotect_mapped a len p (w : W) x : a mod page_size = 0 -> len mod page_size = 0 -> prot_at w x <> None ->
  prot_at (snd (sys_mprotect a len p w)) x <> None.
Proof. intros Ha Hl Hx. destruct (mprotect_failed a len p w x Ha Hl) as [-> |(_ & _ & ->)]; done. Qed.

Lemma vm_ok_free addr size free_type (s s' : VM W) r : vm_ok s -> call_args (VFree addr size free_type) ->
  virtual_free (E := E) addr size free_type s = (Ok r, s') -> vm_ok s' \/ remap_refused (VFree addr size free_type) s.
Proof.
  unfold vm_ok. intros Ht (Ha & Hs) H. destruct (Z.eqb_spec addr 0) as [->|Hne]; [left; by injection H as <- <-|].
  destruct (any_bit free_type MEM_RELEASE) eqn:Erel.
  - left. pose proof (release_cases (E := E) s addr size free_type Hne Erel) as Hr. destruct (regions s !! addr) as [rg|] eqn:Er; rewrite Hr in H.
    + destruct (tb_region _ _ Ht _ _ Er) as [He [[_ Hb] [Hn Hn'] _ _]]. rewrite He in Hb.
      injection H as <- <-. cbn [vm_mem regions]. destruct (munmap_rc _ _ _ =? 0).
      * eapply table_ok_delete; [exact Ht|exact Er|]. intros x Hx. by rewrite munmap_prot, Hx.
      * by eapply table_ok_delete; [exact Ht|exact Er|].
    + injection H as <- <-. cbn [vm_mem regions]. by rewrite delete_id.
  - unfold virtual_free in H. rewrite (proj2 (Z.eqb_neq addr 0) Hne), Erel in H.
    destruct (any_bit free_type MEM_DECOMMIT) eqn:Edec; [|left; by injection H as <- <-].
    destruct (Z.eqb_spec size 0) as [->|Hne']; [left; by injection H as <- <-|].
    cbv zeta in H. set (a := round_down addr page_size) in *. set (n := round_up size page_size) in *.
    destruct (first_page_spec addr Ha) as (Hal & _). change (first_page addr) with a in Hal.
    unfold mbind at 1, with_mem at 1, munmap_checked in H. cbn [vm_mem regions] in H.
    destruct (Z.eqb_spec (munmap_rc a n (vm_mem s)) 0) as [Hrc|Hrc]; cbn [negb] in H; [|left; by injection H as <- <-].
    assert (Hn : 0 < n /\ n mod page_size = 0).
    { destruct (round_pages size ltac:(lia)) as [H0|[Hm Hr]]; [|fold n in Hm, Hr; lia].
      exfalso. fold n in H0. rewrite H0 in Hrc. by apply munmap_zero in Hrc. }
    unfold mbind, with_mem, map_none in H. cbn [vm_mem regions] in H.
    destruct (sys_map_none a n (sys_munmap a n (vm_mem s))) as [b w] eqn:Em. injection H as <- <-. cbn [vm_mem regions].
    destruct b; [left|right; cbn; fold a n; by rewrite Em].
    eapply table_ok_mono; [|exact Ht]. intros x Hx. destruct (map_none_ok _ _ _ _ x (proj1 Hn) Hal (proj2 Hn) Em) as [-> _].
    destruct (in_range a n x) eqn:R; [done|]. rewrite munmap_prot, R; [done|apply Hn|done|apply Hn].
Qed.

Lemma vm_ok_call c (s s' : VM W) r : vm_ok s -> call_args c -> run_vcall c s = (Ok r, s') -> vm_ok s' \/ remap_refused c s.
Proof.
  unfold vm_ok. intros Ht Hc H. destruct c as [addr size ty prot|addr size ty|addr size np op|addr buf len]; cbn [run_vcall] in H;
    [left| |left|left].
  - destruct (alloc_cases (E := E) s addr size ty prot Hc) as (b & s1 & Hrun & Hcase). rewrite Hrun in H. injection H as <- <-.
    destruct Hcase as [(_ & -> & Hi)|(_ & Hf & ->)].
    + eapply table_ok_mono; [|exact Ht]. intros x Hx. by rewrite (proj1 (Hi x Hx)).
    + pose proof (fresh_intact _ _ _ _ _ Hf) as Hi. destruct Hf as [Hb Hn Htop Hfree Hnow _].
      eapply table_ok_insert; [exact Ht|done|done|done|done| |].
      * intros x Hx. by rewrite (proj1 (Hnow x Hx)).
      * intros x Hx. by rewrite (proj1 (Hi x Hx)).
  - by eapply vm_ok_free.
  - unfold virtual_protect in H. destruct (_ || _); [by injection H as <- <-|]. cbv zeta in H.
    rewrite (mbind_ok _ _ _ _ _ (with_table_ok (fun t => (recorded_prot t addr, t)) s _ _ eq_refl)) in H.
    destruct (first_page_spec addr Hc) as (Hal & _). unfold first_page in Hal.
    set (a := round_down addr page_size) in *. set (n := round_up _ page_size) in H.
    pose proof (fun x => mprotect_mapped a n (win_prot_to_linux np) (vm_mem s) x Hal (round_up_aligned _)) as Hm.
    unfold mbind at 1, with_mem at 1, mprotect in H. cbn [vm_mem regions] in H.
    destruct (sys_mprotect a n (win_prot_to_linux np) (vm_mem s)) as [rc w]. cbn [snd] in Hm. destruct (_ =? 0); cbn [negb] in H.
    + destruct (op =? 0); cbn [negb] in H.
      * injection H as <- <-. cbn [vm_mem regions]. apply table_ok_alter. by eapply table_ok_mono.
      * pose proof (write_int_prot (E := E) 4 op (linux_prot_to_win (recorded_prot (regions s) addr)) w) as Hw.
        unfold mbind at 1, with_mem in H. cbn [vm_mem regions] in H.
        destruct (write_int 4 op _ w) as [[u|e| |] w2]; cbn [snd] in Hw; [|done..]. injection H as <- <-. cbn [vm_mem regions].
        apply table_ok_alter. eapply table_ok_mono; [|exact Ht]. intros x Hx. rewrite Hw. by apply Hm.
    + injection H as <- <-. cbn [vm_mem regions]. by eapply table_ok_mono.
  - destruct (containing (regions s) addr) as [rg|] eqn:Eq; [|rewrite query_none in H by done; by injection H as <- <-].
    unfold virtual_query in H. destruct (_ || _); [by injection H as <- <-|]. destruct (_ <? _); [by injection H as <- <-|].
    rewrite (mbind_ok _ _ _ _ _ (with_table_ok (fun t => (containing t addr, t)) s _ _ eq_refl)), Eq in H.
    pose proof (write_record_prot (E := E) buf (basic_information rg) (vm_mem s)) as Hw.
    unfold mbind at 1, with_mem in H. cbn [vm_mem regions] in H.
    destruct (write_record buf (basic_information rg) (vm_mem s)) as [[u|e| |] w2]; cbn [snd] in Hw; [|done..].
    injection H as <- <-. cbn [vm_mem regions]. eapply table_ok_mono; [|exact Ht]. intros x Hx. by rewrite Hw.
Qed.

(** C24. Every sequence of calls that does not fault keeps the table of regions
    well-formed: each region is filed under its base, is made of whole mapped pages,
    and overlaps no other; so a query finds the one region an address lies in. The one
    exception is stated: a decommit that unmapped its pages and was then refused
    inaccessible ones, before which all was well ([refused_remap_breaks]). *)
Theorem virtual_calls_keep_table (cs : list vcall) (rs : list Z) (s s' : VM W) : vm_ok s -> Forall call_args cs ->
  m_list run_vcall cs s = (Ok rs, s') ->
  (vm_ok s' /\ forall b r a, regions s' !! b = Some r -> b <= a < b + r_size r -> containing (regions s') a = Some r) \/
  exists cs1 c cs2 rs1 s1, cs = cs1 ++ c :: cs2 /\ m_list run_vcall cs1 s = (Ok (E := E) rs1, s1) /\ vm_ok s1 /\ remap_refused c s1.
Proof.
  intros Hs Hc. revert rs s Hs. induction Hc as [|c cs Hc _ IH]; intros rs s Hs H; cbn [m_list] in H.
  { injection H as _ <-. left. split; [exact Hs|]. intros b r a Hb Ha. by eapply containing_in. }
  unfold mbind at 1 in H. destruct (run_vcall c s) as [[r|e| |] s1] eqn:Ec; [|done..].
  unfold mbind at 1 in H. fold (m_list run_vcall) in H. destruct (m_list run_vcall cs s1) as [[rs'|e| |] s2] eqn:Er; [|done..].
  injection H as <- <-. destruct (vm_ok_call _ _ _ _ Hs Hc Ec) as [H1|H1]; [|right; by exists [], c, cs, [], s].
  destruct (IH _ _ H1 Er) as [H2|(cs1 & c' & cs2 & rs1 & s3 & -> & H2 & H3)]; [by left|]. right.
  exists (c :: cs1), c', cs2, (r :: rs1), s3. split; [done|]. split; [|done]. cbn [m_list]. rewrite (mbind_ok _ _ _ _ _ Ec).
  by rewrite (mbind_ok _ _ _ _ _ H2).
Qed.

(** After such a decommit in a region, the region stays filed without its pages. *)
Lemma refused_remap_breaks addr size free_type (s : VM W) b r : vm_ok s -> 0 <= addr -> 0 <= size < 2 ^ 64 ->
  remap_refused (VFree addr size free_type) s -> regions s !! b = Some r -> b <= round_down addr page_size < b + r_size r ->
  exists s', run_vcall (VFree addr size free_type) s = (Ok (E := E) 0, s') /\ regions s' !! b = Some r /\ ~ vm_ok s'.
Proof.
  intros Hs Ha Hsz (H1 & H2 & H3 & H4 & H5 & H6) Hb Hin. cbn [run_vcall]. unfold virtual_free.
  rewrite (proj2 (Z.eqb_neq addr 0) H1), H3, H4, (proj2 (Z.eqb_neq size 0) H2). cbv zeta.
  destruct (first_page_spec addr Ha) as (Hal & _). unfold first_page in Hal.
  set (a := round_down addr page_size) in *. set (n := round_up size page_size) in *.
  assert (Hn : 0 < n /\ n mod page_size = 0).
  { destruct (round_pages size ltac:(lia)) as [H0|[Hm Hr]]; [|fold n in Hm, Hr; lia].
    exfalso. fold n in H0. rewrite H0 in H5. by apply munmap_zero in H5. }
  unfold mbind at 1, with_mem at 1, munmap_checked. cbn [vm_mem regions]. rewrite H5. cbn [Z.eqb negb].
  unfold mbind, with_mem, map_none. cbn [vm_mem regions].
  destruct (sys_map_none a n (sys_munmap a n (vm_mem s))) as [ok w] eqn:Em. cbn [fst] in H6. subst ok.
  eexists. split; [reflexivity|]. split; [done|]. intros Hok. destruct (tb_region _ _ Hok b r Hb) as [_ [_ _ _ Hm]]. cbn [vm_mem] in Hm.
  destruct (tb_region _ _ Hs b r Hb) as [He _]. apply (Hm a); [lia|]. rewrite (proj1 (map_none_failed _ _ _ _ a Em)).
  rewrite munmap_prot by (done || apply Hn). by rewrite (proj2 (in_range_spec _ _ _)) by lia.
Qed.
End Sequences.

(** ** The life of a region *)

Section Life.
Context `{HW : Host W} `{HL : !HostLaws W} `{HV : !VirtualHost W} `{HVL : !VirtualLaws W} {E : Type}.

Lemma fresh_not_filed (w w' : W) t b n pr : table_ok w t -> fresh_pages w w' b n pr -> t !! b = None.
Proof.
  intros Ht Hf. destruct (t !! b) as [r|] eqn:Er; [|done]. destruct (tb_region _ _ Ht _ _ Er) as [He [_ [Hn _] _ Hm]].
  destruct (Hm b); [lia|]. apply (fp_free _ _ _ _ _ Hf). pose proof (fp_size _ _ _ _ _ Hf). lia.
Qed.

(** The page protections: the one asked for, what the pages allow (1 reading, 2
    writing, 4 execution), and the one a query reports. Pages asked for as
    copy-on-write, 8 and 0x80, allow nothing and are reported as inaccessible. *)
Definition protections : list (Z * Z * Z) :=
  [(0x01, 0, 0x01); (0x02, 1, 0x02); (0x04, 3, 0x04); (0x08, 0, 0x01); (0x10, 4, 0x10); (0x20, 5, 0x20); (0x40, 7, 0x40);
   (0x80, 0, 0x01)].

Lemma protections_linux prot access reported : (prot, access, reported) ∈ protections ->
  win_prot_to_linux prot = access /\ linux_prot_to_win access = reported.
Proof. unfold protections. rewrite !elem_of_cons, elem_of_nil. by intros [[= -> -> ->]|[[= -> -> ->]|[[= -> -> ->]|[[= -> -> ->]|[[= -> -> ->]|[[= -> -> ->]|[[= -> -> ->]|[[= -> -> ->]|[]]]]]]]]]. Qed.

(** C25. [VirtualAlloc] gives null and changes nothing that was mapped, or pages that
    were free, zeroed, at least as many as asked for, with the access of the
    [protections]. A query at any of their addresses fills the structure with their
    base, twice, their size, the state committed, the type private and the reported
    protection; the field of the protection at allocation is always
    [PAGE_READWRITE]. A release with a host that agrees unmaps exactly these pages and
    puts the table back; releasing them again fails and changes nothing. *)
Theorem virtual_alloc_life (s : VM W) addr size alloc_type prot access reported : vm_ok s -> 0 < size < 2 ^ 64 ->
  (prot, access, reported) ∈ protections ->
  exists b s', virtual_alloc (E := E) addr size alloc_type prot s = (Ok b, s') /\ intact (vm_mem s) (vm_mem s') /\
  (b = 0 /\ regions s' = regions s \/ exists n,
    size <= n < size + page_size /\ fresh_pages (vm_mem s) (vm_mem s') b n access /\
    (forall a buffer length, b <= a < b + n -> 0 < buffer -> 48 <= length -> writable (vm_mem s') buffer 48 ->
       readable (vm_mem s') buffer 48 ->
       exists w, virtual_query (E := E) a buffer length s' = (Ok 48, mkVM (regions s') w) /\
         has_fields w buffer [(8%nat, 0, b); (8%nat, 8, b); (4%nat, 16, 0x04); (8%nat, 24, n); (4%nat, 32, 0x1000);
           (4%nat, 36, reported); (4%nat, 40, 0x20000)] /\
         intact_but buffer 48 (vm_mem s') w) /\
    (munmap_rc b n (vm_mem s') = 0 -> exists s'', virtual_free (E := E) b 0 MEM_RELEASE s' = (Ok 1, s'') /\
       regions s'' = regions s /\ intact (vm_mem s) (vm_mem s'') /\
       (forall x, in_range b n x = true -> prot_at (vm_mem s'') x = None) /\
       virtual_free (E := E) b 0 MEM_RELEASE s'' = (Ok 0, s''))).
Proof.
  intros Hs Hsize Hprot. destruct (alloc_cases (E := E) s addr size alloc_type prot ltac:(lia)) as (b & s' & Hrun & Hcase).
  exists b, s'. split; [done|]. destruct Hcase as [(-> & Ht & Hi)|(Hn & Hf & Ht)]; [split; [done|by left]|].
  set (n := round_up size page_size) in *. pose proof (fresh_intact _ _ _ _ _ Hf) as Hi. split; [done|]. right. exists n.
  pose proof (fresh_not_filed _ _ _ _ _ _ Hs Hf) as Hnew. destruct (vm_ok_call (E := E) (VAlloc addr size alloc_type prot) s s' b Hs ltac:(cbn; lia) Hrun) as [Hs'|[]].
  apply protections_linux in Hprot as [Hacc Hrep]. rewrite Hacc in *.
  assert (Hb : b <> 0) by (pose proof (fp_base _ _ _ _ _ Hf); lia).
  assert (Hr : regions s' !! b = Some (mkRegion b n access)) by (rewrite Ht; apply lookup_insert_eq).
  split_and!; [lia|lia|done| |].
  - intros a buffer length Ha Hbuf Hl Hw Hrd. pose proof (containing_in _ _ a _ _ Hs' Hr Ha) as Hc.
    eexists. split; [by apply query_ok|]. pose proof (information_laid_out _ _ (proj2 (tb_region _ _ Hs' _ _ Hr))) as Hlo. split.
    + rewrite <- Hrep. apply (put_record_fields _ _ _ (basic_information (mkRegion b n access)) _ Hlo). by rewrite Z.add_0_r.
    + pose proof (put_record_intact buffer 0 48 _ (vm_mem s') Hlo) as H. by rewrite Z.add_0_r in H.
  - intros Hrc. pose proof (release_cases (E := E) s' b 0 MEM_RELEASE Hb eq_refl) as H1. rewrite Hr in H1. cbn [r_size] in H1.
    rewrite Hrc in H1. cbn [Z.eqb] in H1. eexists. split; [exact H1|]. cbn [regions vm_mem].
    assert (Hdel : delete b (regions s') = regions s) by (rewrite Ht; by apply delete_insert_id). rewrite Hdel.
    destruct Hf as [Hb1 Hn1 _ Hfree _ Hrest]. split_and!; [done| | |].
    + apply (intact_fresh b n); [done|]. intros x Hx _. rewrite munmap_prot, munmap_byte, Hx by (done || apply Hb1 || apply Hn1).
      by apply Hrest.
    + intros x Hx. by rewrite munmap_prot, Hx by (done || apply Hb1 || apply Hn1).
    + pose proof (release_cases (E := E) (mkVM (regions s) (sys_munmap b n (vm_mem s'))) b 0 MEM_RELEASE Hb eq_refl) as H2.
      cbn [regions vm_mem] in H2. rewrite Hnew in H2. by rewrite delete_id in H2.
Qed.

(** A change of protection is forgotten unless it names the first page of a
    region. On a later page [VirtualProtect] changes the pages, but the table keeps
    the protection of the region, so the next change reports that as the old one
    and a query still shows it: a guest that saves and restores protections
    restores the wrong one. *)
Theorem inner_protect_forgotten (s : VM W) b r addr size new1 new2 old1 old2 w1 w2 : vm_ok s ->
  regions s !! b = Some r -> b + page_size <= addr -> 0 < size -> addr + size <= b + r_size r -> size + page_size < 2 ^ 64 - page_size ->
  sys_mprotect (first_page addr) (page_span addr size) (win_prot_to_linux new1) (vm_mem s) = (0, w1) ->
  writable w1 old1 4 -> old1 <> 0 ->
  let w1' := put 4 old1 [linux_prot_to_win (r_prot r)] w1 in
  sys_mprotect (first_page addr) (page_span addr size) (win_prot_to_linux new2) w1' = (0, w2) ->
  writable w2 old2 4 -> old2 <> 0 ->
  virtual_protect (E := E) addr size new1 old1 s = (Ok 1, mkVM (regions s) w1') /\
  (forall x, addr <= x < addr + size -> prot_at w1' x = Some (win_prot_to_linux new1)) /\
  virtual_protect (E := E) addr size new2 old2 (mkVM (regions s) w1')
  = (Ok 1, mkVM (regions s) (put 4 old2 [linux_prot_to_win (r_prot r)] w2)) /\
  containing (regions s) addr = Some r.
Proof.
  intros Hs Hr Ha Hsz Hend Hbig Hm1 Hw1 Ho1 w1' Hm2 Hw2 Ho2.
  destruct (tb_region _ _ Hs _ _ Hr) as [He [[Hb Hal] [Hn Hnl] Htop Hmap]]. rewrite He in *.
  assert (Hpos : 0 < page_size) by apply page_pos.
  pose proof (containing_in _ _ addr _ _ Hs Hr ltac:(lia)) as Hc.
  destruct (first_page_spec addr ltac:(lia)) as (Hf1 & Hf2 & _).
  destruct (page_span_spec addr size ltac:(lia) Hsz Hbig) as (Hp1 & Hp2).
  assert (Hkey : regions s !! first_page addr = None).
  { destruct (regions s !! first_page addr) as [r'|] eqn:E'; [exfalso|done].
    assert (b + page_size <= first_page addr).
    { destruct (Z.lt_ge_cases (first_page addr) (b + page_size)) as [Hlt|]; [|lia]. apply (aligned_le _ _ page_size) in Hlt; [lia|done|done|].
      apply aligned_add; [done|done|apply Z.mod_same; lia]. }
    pose proof (tb_apart _ _ Hs _ _ _ _ E' Hr ltac:(lia)) as Hap. destruct (tb_region _ _ Hs _ _ E') as [_ [_ [Hn' _] _ _]].
    unfold apart in Hap. lia. }
  assert (Hal' : forall pr, alter (fun r => mkRegion (r_base r) (r_size r) pr) (first_page addr) (regions s) = regions s).
  { intros pr. apply alter_id. intros r' Hr'. congruence. }
  assert (Hrec : recorded_prot (regions s) addr = r_prot r) by (unfold recorded_prot; by rewrite Hc).
  split_and!; [| | |done].
  - rewrite (protect_ok s addr size new1 old1 w1) by (done || lia || by right). by rewrite Hal', Hrec, (proj2 (Z.eqb_neq old1 0) Ho1).
  - intros x Hx. unfold w1'. rewrite prot_put, (mprotect_ok _ _ _ _ _ x Hf1 Hp1 Hm1).
    by rewrite (proj2 (in_range_spec _ _ _)) by lia.
  - rewrite (protect_ok (mkVM (regions s) w1') addr size new2 old2 w2) by (done || lia || by right). cbn [regions].
    by rewrite Hal', Hrec, (proj2 (Z.eqb_neq old2 0) Ho2).
Qed.
End Life.

(** ** The small host with these calls *)

Module SmallVirtual.
#[export] Instance small_virtual : VirtualHost SmallHost.World := {
  munmap_rc a len w := if len =? 0 then -1 else 0;
  sys_map_none a len w := (true, SmallHost.mkWorld (foldr delete (SmallHost.mem w) (seqZ a len))
    (SmallHost.set_pages 0 a len (SmallHost.prots w)) (SmallHost.next w))
}.

#[export] Program Instance small_virtual_laws : VirtualLaws SmallHost.World.
Next Obligation. intros hint fixed w. cbn [sys_mmap SmallHost.small_host]. unfold SmallHost.mmap. by rewrite Z.ltb_irrefl. Qed.
Next Obligation.
  intros a len w w' x Hlen Ha Hl H. injection H as <-. cbn. unfold SmallHost.set_pages.
  rewrite SmallHost.lookup_foldr_insert, SmallHost.lookup_foldr_delete, SmallHost.range_pages by done. split; [done|].
  rewrite <- SmallHost.range_pages by done. destruct (in_range a len x) eqn:R.
  - rewrite bool_decide_eq_true_2; [done|]. apply elem_of_seqZ. ranges.
  - rewrite bool_decide_eq_false_2; [done|]. rewrite elem_of_seqZ. ranges.
Qed.
Next Obligation. done. Qed.
Next Obligation. done. Qed.
End SmallVirtual.
Import SmallVirtual.

Definition vm_start : VM SmallHost.World := mkVM ∅ SmallHost.empty.

Lemma vm_start_ok : vm_ok vm_start.
Proof. split; [intros b r H|intros b1 b2 r1 r2 H]; cbn in H; by rewrite lookup_empty in H. Qed.

Definition vm_demo_calls : list vcall :=
  [VAlloc 0 80 MEM_COMMIT PAGE_READWRITE; VProtect 4096 16 PAGE_READONLY 4120; VQuery 4100 4112 48; VFree 4160 16 MEM_DECOMMIT;
   VAlloc 0 8 MEM_RESERVE PAGE_NOACCESS; VFree 4096 0 MEM_RELEASE; VQuery 4100 4112 48].

Lemma virtual_calls_keep_table_witness :
  match m_list (run_vcall (E := unit)) vm_demo_calls vm_start with
  | (Ok rs, s') => rs = [4096; 1; 48; 1; 4192; 1; 0] /\ vm_ok s'
  | _ => False
  end.
Proof.
  destruct (m_list (run_vcall (E := unit)) vm_demo_calls vm_start) as [[rs|e| |] s'] eqn:Er; [|by vm_compute in Er..].
  assert (Hrs : rs = [4096; 1; 48; 1; 4192; 1; 0]) by (vm_compute in Er; congruence).
  split; [exact Hrs|].
  destruct (virtual_calls_keep_table (E := unit) vm_demo_calls rs vm_start s') as [[Hok _]|(cs1 & c & cs2 & rs1 & s1 & _ & _ & _ & Hc)].
  - exact vm_start_ok.
  - repeat constructor; try done; cbn; lia.
  - exact Er.
  - exact Hok.
  - exfalso. destruct c; try exact Hc. destruct Hc as (_ & _ & _ & _ & _ & Hc). discriminate Hc.
Defined.

Lemma virtual_alloc_life_witness :
  exists s' n, virtual_alloc (E := unit) 0 40 MEM_COMMIT PAGE_EXECUTE_READ vm_start = (Ok 4096, s') /\
    40 <= n < 56 /\ fresh_pages SmallHost.empty (vm_mem s') 4096 n 5.
Proof.
  assert (Hin : (0x20, 5, 0x20) ∈ protections) by (apply (bool_decide_unpack ((0x20, 5, 0x20) ∈ protections)); vm_compute; exact I).
  destruct (virtual_alloc_life (E := unit) vm_start 0 40 MEM_COMMIT 0x20 5 0x20 vm_start_ok ltac:(lia) Hin) as (b & s' & H & _ & Hr).
  assert (Hb : fst (virtual_alloc (E := unit) 0 40 MEM_COMMIT 0x20 vm_start) = Ok 4096) by (vm_compute; reflexivity).
  rewrite H in Hb. cbn [fst] in Hb. injection Hb as Hb. subst b. destruct Hr as [[Hb _]|(n & Hn & Hf & _)]; [discriminate Hb|].
  exists s', n. split; [exact H|]. split; [exact Hn|exact Hf].
Defined.

(** Three pages, readable and writable; the second is made executable and back. *)
Definition vm_three : VM SmallHost.World := snd (virtual_alloc (E := unit) 0 48 MEM_COMMIT PAGE_READWRITE vm_start).

Lemma vm_three_ok : vm_ok vm_three.
Proof.
  destruct (vm_ok_call (E := unit) (VAlloc 0 48 MEM_COMMIT PAGE_READWRITE) vm_start vm_three 4096 vm_start_ok) as [H|[]];
    [cbn; lia|by vm_compute|exact H].
Qed.

Definition vm_three_w1 : SmallHost.World := snd (sys_mprotect 4112 16 5 (vm_mem vm_three)).
Definition vm_three_w2 : SmallHost.World := snd (sys_mprotect 4112 16 3 (put 4 4096 [PAGE_READWRITE] vm_three_w1)).

Lemma inner_protect_forgotten_witness :
  let s1 := mkVM (regions vm_three) (put 4 4096 [PAGE_READWRITE] vm_three_w1) in
  virtual_protect (E := unit) 4112 16 PAGE_EXECUTE_READ 4096 vm_three = (Ok 1, s1) /\
  prot_at (vm_mem s1) 4112 = Some 5 /\
  virtual_protect (E := unit) 4112 16 PAGE_READWRITE 4096 s1
  = (Ok 1, mkVM (regions vm_three) (put 4 4096 [PAGE_READWRITE] vm_three_w2)).
Proof.
  destruct (inner_protect_forgotten (E := unit) vm_three 4096 (mkRegion 4096 48 3) 4112 16 PAGE_EXECUTE_READ PAGE_READWRITE 4096 4096
    vm_three_w1 vm_three_w2 vm_three_ok) as (H1 & H2 & H3 & _).
  - by vm_compute.
  - change page_size with 16. lia.
  - lia.
  - cbn. lia.
  - change page_size with 16. lia.
  - by vm_compute.
  - apply may_all_writable. by vm_compute.
  - lia.
  - by vm_compute.
  - apply may_all_writable. by vm_compute.
  - lia.
  - split; [exact H1|]. split; [apply H2; lia|exact H3].
Defined.
