(* ===== verification/GuestStr.v ===== *)
(** * Comparing and searching guest strings

    The comparison and search loops that the string exports share, and what they
    compute on the strings in memory. *)
From Stdlib Require Import ZArith Lia.
From stdpp Require Import base list option.
From S2P Require Import Prelude PeHost GuestMem.
Local Open Scope rust_scope.
Local Open Scope Z_scope.
Set Warnings "-register-all".

(** ** Reference definitions on lists of units *)

(** The result for the first units that differ, where a string that ends counts
    as a zero unit. *)
Fixpoint compare_by (res : Z -> Z -> Z) (l1 l2 : list Z) : Z :=
  match l1, l2 with
  | [], [] => 0
  | x :: _, [] => res x 0
  | [], y :: _ => res 0 y
  | x :: l1, y :: l2 => if x =? y then compare_by res l1 l2 else res x y
  end.

(** At most the first [n] units. *)
Definition clip (lim : option Z) (l : list Z) : list Z :=
  match lim with None => l | Some n => take (Z.to_nat n) l end.

(** Lexicographic order. *)
Inductive lex_lt : list Z -> list Z -> Prop :=
  | lex_nil y l : lex_lt [] (y :: l)
  | lex_head x y l1 l2 : x < y -> lex_lt (x :: l1) (y :: l2)
  | lex_tail x l1 l2 : lex_lt l1 l2 -> lex_lt (x :: l1) (x :: l2).

(** [t] occurs in [s] at [i], up to [f]. *)
Definition occurs (f : Z -> Z) (s t : list Z) (i : nat) : Prop :=
  map f (take (length t) (drop i s)) = map f t.

#[global] Instance occurs_dec f s t i : Decision (occurs f s t i).
Proof. unfold occurs. apply _. Defined.

(** The sign of a comparison is the lexicographic order. *)
Definition signs (res : Z -> Z -> Z) : Prop :=
  (forall x y, x < y -> res x y < 0) /\ (forall x y, res y x = - res x y).

Lemma compare_by_refl res l : compare_by res l l = 0.
Proof. induction l as [|x l IH]; simpl; [done|]. by rewrite Z.eqb_refl. Qed.

Lemma compare_by_opp res l1 l2 : signs res -> compare_by res l2 l1 = - compare_by res l1 l2.
Proof.
  intros [_ Hop]. revert l2. induction l1 as [|x l1 IH]; intros [|y l2]; simpl; auto.
  rewrite (Z.eqb_sym y x). destruct (x =? y); auto.
Qed.

Lemma compare_by_lt res l1 l2 : signs res -> Forall (Z.lt 0) l1 -> Forall (Z.lt 0) l2 ->
  lex_lt l1 l2 -> compare_by res l1 l2 < 0.
Proof.
  intros [Hlt _] H1 H2 H. induction H as [y l|x y l1 l2 Hxy|x l1 l2 H IH]; simpl.
  - apply Hlt. by apply Forall_cons_1 in H2 as [? _].
  - rewrite (proj2 (Z.eqb_neq x y)) by lia. by apply Hlt.
  - rewrite Z.eqb_refl. apply Forall_cons_1 in H1 as [_ H1], H2 as [_ H2]. auto.
Qed.

Lemma lex_total l1 l2 : lex_lt l1 l2 \/ l1 = l2 \/ lex_lt l2 l1.
Proof.
  revert l2. induction l1 as [|x l1 IH]; intros [|y l2]; [auto|left; constructor|right; right; constructor|].
  destruct (Z.lt_trichotomy x y) as [H|[->|H]]; [left; by constructor| |right; right; by constructor].
  destruct (IH l2) as [H|[->|H]]; [left; by constructor|auto|right; right; by constructor].
Qed.

Lemma compare_by_spec res l1 l2 : signs res -> Forall (Z.lt 0) l1 -> Forall (Z.lt 0) l2 ->
  (compare_by res l1 l2 = 0 <-> l1 = l2) /\
  (compare_by res l1 l2 < 0 <-> lex_lt l1 l2) /\
  (0 < compare_by res l1 l2 <-> lex_lt l2 l1).
Proof.
  intros Hs H1 H2. pose proof (compare_by_opp res l1 l2 Hs) as Ho.
  destruct (lex_total l1 l2) as [H|[->|H]].
  - pose proof (compare_by_lt _ _ _ Hs H1 H2 H). split_and!; split; intros; try done; try lia.
    + subst. rewrite compare_by_refl in *. lia.
    + pose proof (compare_by_lt _ l2 l1 Hs H2 H1 ltac:(done)). lia.
  - rewrite compare_by_refl. split_and!; split; intros; try done; try lia.
    + pose proof (compare_by_lt _ l2 l2 Hs H1 H1 ltac:(done)). rewrite compare_by_refl in *. lia.
    + pose proof (compare_by_lt _ l2 l2 Hs H1 H1 ltac:(done)). rewrite compare_by_refl in *. lia.
  - pose proof (compare_by_lt _ _ _ Hs H2 H1 H). split_and!; split; intros; try done; try lia.
    + subst. rewrite compare_by_refl in *. lia.
    + pose proof (compare_by_lt _ l1 l2 Hs H1 H2 ltac:(done)). lia.
Qed.

Lemma occurs_bound f s t i : t <> [] -> occurs f s t i -> (i + length t <= length s)%nat.
Proof.
  intros Ht H. apply (f_equal length) in H. rewrite !length_map, length_take, length_drop in H.
  destruct t; [done|]. cbn [length] in *. lia.
Qed.

Lemma occurs_take f s t i h : (i + length t <= h)%nat -> occurs f (take h s) t i <-> occurs f s t i.
Proof. intros H. unfold occurs. by rewrite !take_drop_commute, take_take, Nat.min_l by lia. Qed.

(** The result of a search for [t] in [s], which is at [p]: the first, or the
    last, occurrence, or the null pointer. *)
Definition found_first (k : nat) (f : Z -> Z) (p : Z) (s t : list Z) (r : Z) : Prop :=
  (exists i, r = p + Z.of_nat k * Z.of_nat i /\ occurs f s t i /\ forall j, (j < i)%nat -> ~ occurs f s t j) \/
  r = 0 /\ forall i, ~ occurs f s t i.

Definition found_last (k : nat) (f : Z -> Z) (p : Z) (s t : list Z) (r : Z) : Prop :=
  (exists i, r = p + Z.of_nat k * Z.of_nat i /\ occurs f s t i /\ forall j, (i < j)%nat -> ~ occurs f s t j) \/
  r = 0 /\ forall i, ~ occurs f s t i.

(** The pairs [g] continues on, and what it returns for the others. *)
Record compares (f : Z -> Z) (res : Z -> Z -> Z) (g : Z -> Z -> option Z) : Prop := {
  compares_end : g 0 0 = Some 0;
  compares_eq x y : x <> 0 \/ y <> 0 -> f x = f y -> g x y = None;
  compares_ne x y : f x <> f y -> g x y = Some (res (f x) (f y))
}.

(** A case folding keeps zero and folds no other unit to it. *)
Definition folding (f : Z -> Z) : Prop := f 0 = 0 /\ forall x, 0 < x -> 0 < f x.

Definition reached (lim : option Z) (i : Z) : bool :=
  match lim with Some n => n <=? i | None => false end.

Definition less (lim : option Z) : option Z := option_map (fun n => n - 1) lim.

Lemma clip_nil lim : clip lim [] = [].
Proof. destruct lim; [apply take_nil|done]. Qed.

Lemma clip_reached lim l : reached lim 0 = true -> clip lim l = [].
Proof. destruct lim as [n|]; simpl; [|done]. intros H. by replace (Z.to_nat n) with O by lia. Qed.

Lemma clip_cons lim x l : reached lim 0 = false -> clip lim (x :: l) = x :: clip (less lim) l.
Proof.
  destruct lim as [n|]; simpl; [|done]. intros H.
  replace (Z.to_nat n) with (S (Z.to_nat (n - 1))) by lia. done.
Qed.

Lemma reached_S lim i : reached lim (Z.of_nat (S i)) = reached (less lim) (Z.of_nat i).
Proof. unfold reached, less. destruct lim as [n|]; cbn [option_map]; [|done]. apply eq_true_iff_eq. rewrite !Z.leb_le, Nat2Z.inj_succ. lia. Qed.

(** [g] goes on for [m] pairs of units and leaves with [r]. *)
Inductive leaves (g : Z -> Z -> option Z) : option Z -> list Z -> list Z -> nat -> Z -> Prop :=
  | leaves_limit lim l1 l2 : reached lim 0 = true -> leaves g lim l1 l2 O 0
  | leaves_now lim x y l1 l2 r : reached lim 0 = false -> g x y = Some r -> leaves g lim (x :: l1) (y :: l2) O r
  | leaves_later lim x y l1 l2 m r :
      reached lim 0 = false -> g x y = None -> leaves g (less lim) l1 l2 m r ->
      leaves g lim (x :: l1) (y :: l2) (S m) r.

Lemma leaves_compare f res g s t lim :
  folding f -> compares f res g -> Forall (Z.lt 0) s -> Forall (Z.lt 0) t ->
  exists m, (m <= length s)%nat /\
    leaves g lim (s ++ [0]) (t ++ [0]) m (compare_by res (clip lim (map f s)) (clip lim (map f t))).
Proof.
  intros [F0 Fp] Hg Ps. revert lim t. induction Ps as [|x s Px Ps IH]; intros lim t Pt;
    (destruct (reached lim 0) eqn:R; [exists O; split; [lia|]; rewrite !clip_reached by done; by constructor|]);
    destruct Pt as [|y t Py Pt]; cbn [map app]; rewrite ?clip_cons, ?clip_nil by done; cbn [compare_by].
  - exists O. split; [done|]. constructor; [done|]. apply Hg.
  - exists O. split; [done|]. constructor; [done|]. specialize (Fp y Py).
    rewrite (compares_ne _ _ _ Hg), F0; [done|lia].
  - exists O. split; [lia|]. constructor; [done|]. specialize (Fp x Px).
    rewrite (compares_ne _ _ _ Hg), F0; [done|lia].
  - destruct (Z.eqb_spec (f x) (f y)) as [Heq|Hne].
    + destruct (IH (less lim) t Pt) as (m & Hm & Hl). exists (S m). split; [simpl; lia|].
      constructor; [done| |done]. apply (compares_eq _ _ _ Hg); [lia|done].
    + exists O. split; [lia|]. constructor; [done|]. by apply (compares_ne _ _ _ Hg).
Qed.

Lemma leaves_steps g lim l1 l2 m r : leaves g lim l1 l2 m r ->
  (forall i, (i < m)%nat -> reached lim (Z.of_nat i) = false /\
     exists x y, l1 !! i = Some x /\ l2 !! i = Some y /\ g x y = None) /\
  (reached lim (Z.of_nat m) = true /\ r = 0 \/
   reached lim (Z.of_nat m) = false /\ exists x y, l1 !! m = Some x /\ l2 !! m = Some y /\ g x y = Some r).
Proof.
  induction 1 as [lim l1 l2 R|lim x y l1 l2 r R G|lim x y l1 l2 m r R G L [IH1 IH2]].
  - split; [intros i Hi; lia|by left].
  - split; [intros i Hi; lia|]. right. split; [done|]. by exists x, y.
  - split.
    + intros [|i] Hi; [split; [done|by exists x, y]|]. rewrite reached_S. apply IH1. lia.
    + by rewrite reached_S.
Qed.

(** ** The loops *)
Section Strings.
Context `{HW : Host W} {E : Type}.
Local Abbreviation G := (M W E).

(** Units are read from both strings in step, until [g] has a result for a pair
    or the limit is reached. *)
Definition compare_loop (k : nat) (lim : option Z) (g : Z -> Z -> option Z) (p q : Z) : G Z :=
  loop (fun i =>
    if reached lim i then mret (inr 0)
    else
      let! c1 := uget k p i in
      let! c2 := uget k q i in
      mret (match g c1 c2 with Some r => inr r | None => inl (i + 1) end)) 0.

(** Whether the [n] units at [hay + i] and at [needle] agree up to [f]. *)
Definition match_at (k : nat) (f : Z -> Z) (hay needle n i : Z) : G bool :=
  let! r := for_range n (fun j =>
    let! a := uget k hay (i + j) in
    let! b := uget k needle j in
    mret (if f a =? f b then None else Some tt)) in
  mret (match r with None => true | Some _ => false end).

(** The first position of [0..count] that matches; [at_] is the order of
    positions. *)
Definition search (k : nat) (f : Z -> Z) (hay needle n count : Z) (at_ : Z -> Z) : G (option Z) :=
  for_range count (fun r =>
    let! ok := match_at k f hay needle n (at_ r) in
    mret (if ok then Some (at_ r) else None)).

Lemma compare_run k lim f res g p q s t w :
  (0 < k)%nat -> cstr k w p s -> cstr k w q t -> Forall (Z.lt 0) s -> Forall (Z.lt 0) t ->
  folding f -> compares f res g ->
  compare_loop k lim g p q w = (Ok (compare_by res (clip lim (map f s)) (clip lim (map f t))), w).
Proof.
  intros Hk Hs Ht Ps Pt Hf Hg. destruct (leaves_compare f res g s t lim Hf Hg Ps Pt) as (m & Hm & Hl).
  apply leaves_steps in Hl as [Hpre Hend]. pose proof (cstr_length k w p s Hk Hs).
  assert (Hget : forall i x y, (s ++ [0]) !! i = Some x -> (t ++ [0]) !! i = Some y ->
    forall B (K : Z -> Z -> M W E B),
    mbind (uget k p (Z.of_nat i)) (fun c1 => mbind (uget k q (Z.of_nat i)) (K c1)) w = K x y w).
  { intros i x y Hx Hy B K. by rewrite (mbind_ok _ _ _ _ _ (cstr_get _ _ _ _ _ _ Hs Hx)),
      (mbind_ok _ _ _ _ _ (cstr_get _ _ _ _ _ _ Ht Hy)). }
  unfold compare_loop. apply (loop_run m Z.of_nat (fun _ => w)); [done|done|lia| |].
  - intros i Hi. destruct (Hpre i Hi) as (-> & x & y & Hx & Hy & Hgxy).
    rewrite (Hget _ _ _ Hx Hy), Hgxy. by replace (Z.of_nat (S i)) with (Z.of_nat i + 1) by lia.
  - destruct Hend as [[-> ->]|(-> & x & y & Hx & Hy & Hgxy)]; [done|]. by rewrite (Hget _ _ _ Hx Hy), Hgxy.
Qed.

(** ** Searching *)

Lemma first_false (b : nat -> bool) n :
  (forall j, (j < n)%nat -> b j = true) \/
  exists m, (m < n)%nat /\ b m = false /\ forall j, (j < m)%nat -> b j = true.
Proof.
  induction n as [|n [IH|(m & Hm & IH)]]; [left; lia| |right; exists m; split; [lia|done]].
  destruct (b n) eqn:B; [left|right; exists n; split; [lia|done]].
  intros j Hj. destruct (decide (j = n)) as [->|]; [done|]. apply IH. lia.
Qed.

(** The units at the [j]-th place of a possible match agree. *)
Definition agree (f : Z -> Z) (s t : list Z) (i j : nat) : bool :=
  match s !! (i + j)%nat, t !! j with Some x, Some y => f x =? f y | _, _ => false end.

Lemma occurs_agree f s t i : (i + length t <= length s)%nat ->
  (occurs f s t i <-> forall j, (j < length t)%nat -> agree f s t i j = true).
Proof.
  intros Hlen. unfold occurs, agree. rewrite list_eq_Forall2, Forall2_fmap, Forall2_lookup. split.
  - intros H j Hj. specialize (H j). rewrite lookup_take_lt, lookup_drop in H by done.
    inversion H as [? ? Hxy|Hx Hy]; [by rewrite Hxy, Z.eqb_refl|]. symmetry in Hy; apply lookup_ge_None in Hy. lia.
  - intros H j. destruct (decide (j < length t)%nat) as [Hj|Hj].
    + specialize (H j Hj). rewrite lookup_take_lt, lookup_drop by done.
      destruct (s !! (i + j)%nat), (t !! j); try done. constructor. by apply Z.eqb_eq.
    + rewrite !lookup_ge_None_2; [constructor|lia|]. rewrite length_take, length_drop. lia.
Qed.

Lemma match_at_run k f hay needle s t i w :
  (0 < k)%nat -> cstr k w hay s -> cstr k w needle t -> (i + length t <= length s)%nat ->
  match_at k f hay needle (Z.of_nat (length t)) (Z.of_nat i) w = (Ok (bool_decide (occurs f s t i)), w).
Proof.
  intros Hk Hs Ht Hlen. pose proof (cstr_length k w needle t Hk Ht) as Hn.
  assert (Hstep : forall j, (j < length t)%nat ->
    mbind (uget k hay (Z.of_nat i + Z.of_nat j)) (fun a => mbind (uget k needle (Z.of_nat j)) (fun b =>
      mret (if f a =? f b then None else Some tt))) w
    = (Ok (if agree f s t i j then None else Some tt) : outcome E _, w)).
  { intros j Hj. destruct (cstr_lookup _ _ _ _ (i + j)%nat Hs ltac:(lia)) as (x & Hx & Hx' & _).
    destruct (cstr_lookup _ _ _ _ _ Ht Hj) as (y & Hy & Hy' & _). unfold agree. rewrite Hx', Hy'.
    rewrite <- Nat2Z.inj_add. by rewrite (mbind_ok _ _ _ _ _ (cstr_get _ _ _ _ _ _ Hs Hx)),
      (mbind_ok _ _ _ _ _ (cstr_get _ _ _ _ _ _ Ht Hy)). }
  unfold match_at. destruct (first_false (agree f s t i) (length t)) as [Hall|(m & Hm & Hbad & Hpre)].
  - rewrite bool_decide_eq_true_2 by (by apply occurs_agree). rewrite (mbind_ok _ _ w None w); [done|].
    apply (for_range_all _ _ (fun _ => w)); [done|]. intros j Hj. by rewrite Hstep, Hall.
  - rewrite bool_decide_eq_false_2 by (rewrite occurs_agree by done; intros H; specialize (H m Hm); congruence).
    rewrite (mbind_ok _ _ w (Some tt) w); [done|]. apply (for_range_some _ _ m (fun _ => w)); [lia..| |by rewrite Hstep, Hbad].
    intros j Hj. by rewrite Hstep, Hpre by lia.
Qed.

(** The search tries the positions in the order of [at_]. *)
Lemma search_run k f hay needle s t (count : nat) (at_ : Z -> Z) (ord : nat -> nat) w :
  (0 < k)%nat -> cstr k w hay s -> cstr k w needle t -> Z.of_nat count < 2 ^ 64 ->
  (forall r, (r < count)%nat -> at_ (Z.of_nat r) = Z.of_nat (ord r) /\ (ord r + length t <= length s)%nat) ->
  exists o, search k f hay needle (Z.of_nat (length t)) (Z.of_nat count) at_ w = (Ok o, w) /\
    match o with
    | Some i => exists r, (r < count)%nat /\ i = Z.of_nat (ord r) /\ occurs f s t (ord r) /\
        forall r', (r' < r)%nat -> ~ occurs f s t (ord r')
    | None => forall r, (r < count)%nat -> ~ occurs f s t (ord r)
    end.
Proof.
  intros Hk Hs Ht Hc Hord. unfold search.
  assert (Hstep : forall r, (r < count)%nat ->
    mbind (match_at k f hay needle (Z.of_nat (length t)) (at_ (Z.of_nat r)))
      (fun ok => mret (if ok : bool then Some (at_ (Z.of_nat r)) else None)) w
    = (Ok (if bool_decide (occurs f s t (ord r)) then Some (Z.of_nat (ord r)) else None) : outcome E _, w)).
  { intros r Hr. destruct (Hord r Hr) as [-> Hle]. by rewrite (mbind_ok _ _ _ _ _ (match_at_run k f _ _ s t _ w Hk Hs Ht Hle)). }
  destruct (first_false (fun r => negb (bool_decide (occurs f s t (ord r)))) count) as [Hall|(r & Hr & Hhit & Hpre)].
  - exists None. split.
    + apply (for_range_all _ _ (fun _ => w)); [done|]. intros r Hr. rewrite Hstep by done.
      specialize (Hall r Hr). by destruct (bool_decide _).
    + intros r Hr. specialize (Hall r Hr). by apply negb_true_iff, bool_decide_eq_false in Hall.
  - apply negb_false_iff, bool_decide_eq_true in Hhit. exists (Some (Z.of_nat (ord r))). split.
    + apply (for_range_some _ _ r (fun _ => w)); [lia..| |].
      * intros r' Hr'. rewrite Hstep by lia. specialize (Hpre r' Hr'). by destruct (bool_decide _).
      * rewrite Hstep by done. by rewrite bool_decide_eq_true_2.
    + exists r. split_and!; [done..|]. intros r' Hr'. specialize (Hpre r' Hr').
      by apply negb_true_iff, bool_decide_eq_false in Hpre.
Qed.

(** A comparison reads only, and its sign is the order of the two lists. *)
Definition orders (m : G Z) (w : W) (a b : list Z) : Prop :=
  exists r, m w = (Ok r, w) /\ (r = 0 <-> a = b) /\ (r < 0 <-> lex_lt a b) /\ (0 < r <-> lex_lt b a).

Lemma Forall_clip (P : Z -> Prop) lim l : Forall P l -> Forall P (clip lim l).
Proof. intros H. destruct lim; [by apply Forall_take|done]. Qed.

Lemma compare_orders k lim f res g p q s t w :
  (0 < k)%nat -> cstr k w p s -> cstr k w q t -> Forall (Z.lt 0) s -> Forall (Z.lt 0) t ->
  folding f -> compares f res g -> signs res ->
  orders (compare_loop k lim g p q) w (clip lim (map f s)) (clip lim (map f t)).
Proof.
  intros Hk Hs Ht Ps Pt Hf Hg Hr. eexists. split; [by eapply compare_run|].
  apply compare_by_spec; [done| |]; apply Forall_clip, Forall_map.
  - eapply Forall_impl; [|exact Ps]. intros u. apply Hf.
  - eapply Forall_impl; [|exact Pt]. intros u. apply Hf.
Qed.

(** The first [h] units of [s] are searched from the left, or from the right. *)
Lemma search_first k f hay needle s t h w :
  (0 < k)%nat -> cstr k w hay s -> cstr k w needle t -> t <> [] -> (length t <= h <= length s)%nat ->
  exists o, search k f hay needle (Z.of_nat (length t)) (Z.of_nat h - Z.of_nat (length t) + 1) id w = (Ok o, w) /\
    found_first k f hay (take h s) t (match o with Some i => hay + Z.of_nat k * i | None => 0 end).
Proof.
  intros Hk Hs Ht Hne Hh. pose proof (cstr_length k w hay s Hk Hs).
  assert (0 < length t)%nat by (destruct t; [done|cbn [length]; lia]).
  replace (Z.of_nat h - Z.of_nat (length t) + 1) with (Z.of_nat (S (h - length t))) by lia.
  destruct (search_run k f hay needle s t (S (h - length t)) id id w) as (o & Ho & Hspec); [done..|lia| |].
  { intros r Hr. split; [done|]. unfold id. lia. }
  exists o. split; [done|].
  assert (Hocc : forall i, occurs f (take h s) t i <-> (i < S (h - length t))%nat /\ occurs f s t i).
  { intros i. split; [|intros [Hi Ho']; apply occurs_take; [lia|done]].
    intros Hi. pose proof (occurs_bound _ _ _ _ Hne Hi) as Hb. rewrite length_take in Hb.
    split; [lia|]. apply (occurs_take f s t i h); [lia|done]. }
  destruct o as [i|].
  - destruct Hspec as (r & Hr & -> & Hi & Hpre). left. exists r. split_and!; [done|by apply Hocc|].
    intros j Hj Hj'. apply Hocc in Hj' as [_ Hj']. by apply (Hpre j).
  - right. split; [done|]. intros i Hi. apply Hocc in Hi as [Hi Hi']. by apply (Hspec i).
Qed.

Lemma search_last k f hay needle s t h w :
  (0 < k)%nat -> cstr k w hay s -> cstr k w needle t -> t <> [] -> (length t <= h <= length s)%nat ->
  let last := Z.of_nat h - Z.of_nat (length t) in
  exists o, search k f hay needle (Z.of_nat (length t)) (last + 1) (fun i => last - i) w = (Ok o, w) /\
    found_last k f hay (take h s) t (match o with Some i => hay + Z.of_nat k * i | None => 0 end).
Proof.
  intros Hk Hs Ht Hne Hh last. pose proof (cstr_length k w hay s Hk Hs).
  assert (0 < length t)%nat by (destruct t; [done|cbn [length]; lia]).
  replace (last + 1) with (Z.of_nat (S (h - length t))) by lia.
  destruct (search_run k f hay needle s t (S (h - length t)) (fun i => last - i) (fun r => h - length t - r)%nat w)
    as (o & Ho & Hspec); [done..|lia| |].
  { intros r Hr. unfold last. lia. }
  exists o. split; [done|].
  assert (Hocc : forall i, occurs f (take h s) t i -> (i <= h - length t)%nat /\ occurs f s t i).
  { intros i Hi. pose proof (occurs_bound _ _ _ _ Hne Hi) as Hb. rewrite length_take in Hb.
    split; [lia|]. apply (occurs_take f s t i h); [lia|done]. }
  destruct o as [i|].
  - destruct Hspec as (r & Hr & -> & Hi & Hpre). left. exists (h - length t - r)%nat.
    split_and!; [done|apply occurs_take; [lia|done]|].
    intros j Hj Hj'. apply Hocc in Hj' as [Hle Hj']. apply (Hpre (h - length t - j)%nat); [lia|].
    by replace (h - length t - (h - length t - j))%nat with j by lia.
  - right. split; [done|]. intros i Hi. apply Hocc in Hi as [Hi Hi']. apply (Hspec (h - length t - i)%nat); [lia|].
    by replace (h - length t - (h - length t - i))%nat with i by lia.
Qed.
End Strings.

(** The units of a string are bytes, or 16-bit words, and not zero. *)
Lemma cstr_units `{HW : Host W} `{HL : !HostLaws W} k w a s : cstr k w a s -> Forall (unit_range k) s.
Proof.
  intros (_ & _ & _ & _ & Hv). apply Forall_lookup. intros i u Hi.
  rewrite <- (Hv i u) by (by apply lookup_app_l_Some). unfold unit_range.
  pose proof (le_val_range _ (get_bytes_range w (a + Z.of_nat k * Z.of_nat i) (Z.of_nat k))) as H.
  rewrite get_bytes_length, Nat2Z.id in H. exact H.
Qed.

Lemma cstr_positive `{HW : Host W} `{HL : !HostLaws W} k w a s : cstr k w a s -> Forall (Z.lt 0) s.
Proof.
  intros Hs. pose proof (cstr_units k w a s Hs) as Hu. destruct Hs as (_ & _ & Hnz & _).
  apply Forall_lookup. intros i u Hi. pose proof (Forall_lookup_1 _ _ _ _ Hu Hi) as [? _].
  pose proof (Forall_lookup_1 _ _ _ _ Hnz Hi). simpl in *. lia.
Qed.
