(* ===== verification/User32.v ===== *)
(** * Windows and messages ([win32-user32/src/lib.rs])

    The thread's classes, windows and message queue, and the exported calls on
    them. A call may run a window procedure, which is code of the guest and may
    call back: the calls are written over an open [call_win64_wndproc], and
    [run_guest] ties the knot over guests as trees of calls. *)
From Stdlib Require Import ZArith Lia String Ascii.
From stdpp Require Import base list option.
From S2P Require Import Prelude PeHost GuestMem Utf.
Local Open Scope rust_scope.
Local Open Scope Z_scope.
Set Warnings "-register-all".

(** ** Data *)

Record Msg : Type := mkMsg { hwnd : Z; message : Z; w_param : Z; l_param : Z; time : Z; pt_x : Z; pt_y : Z }.

Definition Msg_default : Msg := mkMsg 0 0 0 0 0 0 0.

(** The fields of [WNDCLASSEXW]; the code keeps all and uses the procedure. *)
Record WndClassEx : Type := mkClass {
  cb_size : Z; style : Z; lpfn_wnd_proc : Z; cb_cls_extra : Z; cb_wnd_extra : Z; h_instance : Z; h_icon : Z;
  h_cursor : Z; hbr_background : Z; lpsz_menu_name : Z; lpsz_class_name : Z; h_icon_sm : Z }.

Record ClassEntry : Type := mkClassEntry { atom : Z; class : WndClassEx; class_name : rstring }.

Record WindowEntry : Type := mkWindow {
  window : option Z; class_atom : Z; wnd_proc : Z; title : rstring; width : Z; height : Z; visible : bool;
  paint_pending : bool }.

Record State : Type := mkState {
  classes : list ClassEntry;
  windows : list (Z * WindowEntry);
  queue : list Msg;
  quit_code : option Z
}.

Definition State_default : State := mkState [] [] [] None.

Inductive MouseButton : Type := Left | Middle | Right | Other.

Definition button_code (b : MouseButton) : Z := match b with Left => 1 | Middle => 2 | Right => 3 | Other => 4 end.

Inductive WindowEvent : Type :=
  | Resize (width height : Z)
  | Close
  | Key (code : Z) (pressed : bool)
  | MouseMove (x y : Z)
  | MouseClick (button : MouseButton) (pressed : bool).

(** The display server of the host: a window opened, its next event, its end. *)
Class Display (D : Type) := {
  open_window : rstring -> Z -> Z -> D -> option Z * D;
  poll_window : Z -> D -> option WindowEvent * D;
  close_window : Z -> D -> D
}.

(** The state of the thread, the number of ids drawn from [NEXT_HWND], the display
    and memory. *)
Record User (W D : Type) : Type := mkUser { state : State; drawn : Z; display : D; memory : W }.
Arguments mkUser {W D}.
Arguments state {W D}.
Arguments drawn {W D}.
Arguments display {W D}.
Arguments memory {W D}.

Definition WM_CREATE : Z := 0x0001.
Definition WM_DESTROY : Z := 0x0002.
Definition WM_MOVE : Z := 0x0003.
Definition WM_SIZE : Z := 0x0005.
Definition WM_PAINT : Z := 0x000F.
Definition WM_CLOSE : Z := 0x0010.
Definition WM_QUIT : Z := 0x0012.
Definition WM_SHOWWINDOW : Z := 0x0018.
Definition WM_KEYDOWN : Z := 0x0100.
Definition WM_KEYUP : Z := 0x0101.
Definition WM_MOUSEMOVE : Z := 0x0200.
Definition WM_LBUTTONDOWN : Z := 0x0201.
Definition WM_LBUTTONUP : Z := 0x0202.
Definition SW_HIDE : Z := 0.
Definition SM_CXSCREEN : Z := 0.
Definition SM_CYSCREEN : Z := 1.
Definition DEFAULT_CXSCREEN : Z := 640.
Definition DEFAULT_CYSCREEN : Z := 480.
Definition FAKE_HMONITOR : Z := 1.
Definition FAKE_HMENU : Z := 1.
Definition FAKE_HICON : Z := 1.
Definition FAKE_HACCEL : Z := 1.
Definition FAKE_REGISTERED_MSG : Z := 0x8000.
Definition STANDARD_DPI : Z := 96.

(** The words of a message in memory, at their offsets; padding stays as it is. *)
Definition msg_fields (m : Msg) : list field :=
  [(8%nat, 0, hwnd m); (4%nat, 8, message m); (8%nat, 16, w_param m); (8%nat, 24, wrap 64 (l_param m)); (4%nat, 32, time m);
   (4%nat, 36, wrap 32 (pt_x m)); (4%nat, 40, wrap 32 (pt_y m))].

Definition rect_fields (off left top right bottom : Z) : list field :=
  [(4%nat, off, wrap 32 left); (4%nat, off + 4, wrap 32 top); (4%nat, off + 8, wrap 32 right); (4%nat, off + 12, wrap 32 bottom)].

(** The entry of a window, replaced where it is first found. *)
Fixpoint update_window_entry (h : Z) (f : WindowEntry -> WindowEntry) (l : list (Z * WindowEntry)) : list (Z * WindowEntry) :=
  match l with
  | [] => []
  | (h', w) :: l => if h' =? h then (h', f w) :: l else (h', w) :: update_window_entry h f l
  end.

Definition find_window (h : Z) (s : State) : option WindowEntry :=
  snd <$> find (fun '(h', _) => h' =? h) (windows s).

(** [position] and [remove]. *)
Fixpoint remove_first {A} (p : A -> bool) (l : list A) : option (A * list A) :=
  match l with
  | [] => None
  | x :: l => if p x then Some (x, l)
              else match remove_first p l with Some (y, l') => Some (y, x :: l') | None => None end
  end.

Definition set_windows (ws : list (Z * WindowEntry)) (s : State) : State := mkState (classes s) ws (queue s) (quit_code s).
Definition set_classes (cs : list ClassEntry) (s : State) : State := mkState cs (windows s) (queue s) (quit_code s).
Definition set_queue (q : list Msg) (s : State) : State := mkState (classes s) (windows s) q (quit_code s).
Definition set_quit (c : option Z) (s : State) : State := mkState (classes s) (windows s) (queue s) c.

Definition set_visible (v : bool) (w : WindowEntry) : WindowEntry :=
  mkWindow (window w) (class_atom w) (wnd_proc w) (title w) (width w) (height w) v (paint_pending w).
Definition set_paint (v : bool) (w : WindowEntry) : WindowEntry :=
  mkWindow (window w) (class_atom w) (wnd_proc w) (title w) (width w) (height w) (visible w) v.
Definition set_title (t : rstring) (w : WindowEntry) : WindowEntry :=
  mkWindow (window w) (class_atom w) (wnd_proc w) t (width w) (height w) (visible w) (paint_pending w).
Definition set_size (cx cy : Z) (w : WindowEntry) : WindowEntry :=
  mkWindow (window w) (class_atom w) (wnd_proc w) (title w) cx cy (visible w) (paint_pending w).

(** ** The calls *)

Section Calls.
Context `{HW : Host W} `{HD : Display D} {E : Type}.
Local Abbreviation U := (M (User W D) E).

Definition on_mem {A} (m : M W E A) : U A := fun s =>
  let '(r, w) := m (memory s) in (r, mkUser (state s) (drawn s) (display s) w).
Definition with_state {A} (f : State -> A * State) : U A := fun s =>
  let '(a, st) := f (state s) in (Ok a, mkUser st (drawn s) (display s) (memory s)).
Definition on_display {A} (f : D -> A * D) : U A := fun s =>
  let '(a, d) := f (display s) in (Ok a, mkUser (state s) (drawn s) d (memory s)).

(** [NEXT_HWND.fetch_add(1)]: the counter starts at 1 and has 32 bits. *)
Definition next_id : U Z := fun s =>
  (Ok (wrap 32 (1 + drawn s)), mkUser (state s) (drawn s + 1) (display s) (memory s)).

Definition make_hwnd : U Z := let! id := next_id in mret (Z.lor id 0x200000000).

Definition widestring_to_string (ptr : Z) : U rstring :=
  if ptr =? 0 then mret []
  else
    let! units := on_mem (loop (fun '(i, acc) =>
      let! unit := uget 2 ptr i in
      mret (if unit =? 0 then inr acc else inl (i + 1, acc ++ [unit]))) (0, [])) in
    mret (from_utf16_lossy units).

Definition read_msg (p : Z) : U Msg :=
  on_mem (
    let! hwnd := read_int 8 p in
    let! message := read_int 4 (p + 8) in
    let! w_param := read_int 8 (p + 16) in
    let! l_param := read_int 8 (p + 24) in
    let! time := read_int 4 (p + 32) in
    let! x := read_int 4 (p + 36) in
    let! y := read_int 4 (p + 40) in
    mret (mkMsg hwnd message w_param (to_signed 64 l_param) time (to_signed 32 x) (to_signed 32 y))).

Definition write_msg (p : Z) (m : Msg) : U unit := on_mem (write_record p (msg_fields m)).

Definition read_class (p : Z) : U WndClassEx :=
  on_mem (
    let! a := read_int 4 p in let! b := read_int 4 (p + 4) in let! c := read_int 8 (p + 8) in
    let! d := read_int 4 (p + 16) in let! e := read_int 4 (p + 20) in let! f := read_int 8 (p + 24) in
    let! g := read_int 8 (p + 32) in let! h := read_int 8 (p + 40) in let! i := read_int 8 (p + 48) in
    let! j := read_int 8 (p + 56) in let! k := read_int 8 (p + 64) in let! l := read_int 8 (p + 72) in
    mret (mkClass a b c (to_signed 32 d) (to_signed 32 e) f g h i j k l)).

(** ** Helpers *)

Definition find_class_by_name (name : rstring) : U (option Z) :=
  with_state (fun st => (atom <$> find (fun c => bool_decide (class_name c = name)) (classes st), st)).

Definition change_window (h : Z) (f : WindowEntry -> WindowEntry) : U unit :=
  with_state (fun st => (tt, set_windows (update_window_entry h f (windows st)) st)).

Definition clear_paint_flag (h : Z) : U unit := change_window h (set_paint false).

Definition window_size (h : Z) : U (Z * Z) :=
  with_state (fun st => (match find_window h st with Some w => (width w, height w) | None => (0, 0) end, st)).

Definition window_title (h : Z) : U rstring :=
  with_state (fun st => (match find_window h st with Some w => title w | None => [] end, st)).

Definition update_size (h cx cy : Z) : U Z :=
  with_state (fun st => match find_window h st with
    | Some _ => (1, set_windows (update_window_entry h (set_size cx cy) (windows st)) st)
    | None => (0, st)
    end).

Definition window_proc (h : Z) : U Z :=
  with_state (fun st => (match find_window h st with Some w => wnd_proc w | None => 0 end, st)).

Definition post_message_internal (h msg w l : Z) : U unit :=
  with_state (fun st => (tt, set_queue (queue st ++ [mkMsg h msg w l 0 0 0]) st)).

Definition post_quit_message (exit_code : Z) : U unit :=
  with_state (fun st => (tt, set_quit (Some exit_code) st)).

(** The host window is closed with its entry. *)
Definition destroy_window (h : Z) : U Z :=
  let! removed := with_state (fun st =>
    match remove_first (fun '(h', _) => h' =? h) (windows st) with
    | Some ((_, w), ws) => (Some w, set_windows ws st)
    | None => (None, st)
    end) in
  match removed with
  | Some w =>
      (match window w with Some hw => on_display (fun d => (tt, close_window hw d)) | None => mret tt end) ;;;
      post_message_internal h WM_DESTROY 0 0 ;;;
      mret 1
  | None => mret 0
  end.

Definition def_window_proc_w_impl (h msg w l : Z) : U Z :=
  if msg =? WM_DESTROY then post_quit_message 0 ;;; mret 0
  else if msg =? WM_CLOSE then destroy_window h ;;; mret 0
  else if msg =? WM_PAINT then clear_paint_flag h ;;; mret 0
  else mret 0.

Definition translate_event_to_msg (h : Z) (ev : WindowEvent) : U Msg :=
  let! (message, w, l) :=
    match ev with
    | Resize width height =>
        update_size h width height ;;;
        mret (WM_SIZE, 0, Z.lor (Z.land width 0xFFFF) (wrap 32 (Z.shiftl (Z.land height 0xFFFF) 16)))
    | Close => mret (WM_CLOSE, 0, 0)
    | Key code pressed => mret (if pressed then WM_KEYDOWN else WM_KEYUP, code, 0)
    | MouseMove x y => mret (WM_MOUSEMOVE, 0, Z.lor (Z.land x 0xFFFF) (Z.shiftl (Z.land y 0xFFFF) 16))
    | MouseClick button pressed =>
        mret (if pressed then WM_LBUTTONDOWN else WM_LBUTTONUP, wrap 16 (Z.shiftl 1 (button_code button)), 0)
    end in
  mret (mkMsg h message w l 0 0 0).

(** The first window with a host window is asked for its next event. *)
Definition poll_host_event : U (option Msg) :=
  let! first := with_state (fun st => (find (fun '(_, w) => bool_decide (is_Some (window w))) (windows st), st)) in
  match first with
  | Some (h, _) =>
      let! entry := with_state (fun st => (find_window h st, st)) in
      match entry ≫= window with
      | Some hw =>
          let! ev := on_display (poll_window hw) in
          match ev with
          | Some ev => let! m := translate_event_to_msg h ev in mret (Some m)
          | None => mret None
          end
      | None => mret None
      end
  | None => mret None
  end.
End Calls.

(** ** The exported calls, over the call of a window procedure *)

Section Exports.
Context `{HW : Host W} `{HD : Display D} {E : Type}.
Local Abbreviation U := (M (User W D) E).

(** [call_win64_wndproc]: procedure, window, message and its two words. *)
Variable call_win64_wndproc : Z -> Z -> Z -> Z -> Z -> U Z.

Definition send_message_internal (h msg w l : Z) : U Z :=
  let! proc := window_proc h in
  if negb (proc =? 0) then call_win64_wndproc proc h msg w l
  else def_window_proc_w_impl h msg w l.

Definition register_class_ex_w (lpwcx : Z) : U Z :=
  if lpwcx =? 0 then mret 0
  else
    let! wcx := read_class lpwcx in
    let! name := widestring_to_string (lpsz_class_name wcx) in
    let! id := next_id in
    let a := Z.lor (wrap 16 id) 0x8000 in
    with_state (fun st => (tt, set_classes (classes st ++ [mkClassEntry a wcx name]) st)) ;;;
    mret a.

Definition unregister_class_w (name instance : Z) : U Z :=
  if name =? 0 then mret 0
  else
    let! n := widestring_to_string name in
    with_state (fun st =>
      match remove_first (fun c => bool_decide (class_name c = n)) (classes st) with
      | Some (_, cs) => (1, set_classes cs st)
      | None => (0, st)
      end).

(** [Window::new], whose title is never empty. *)
Definition Window_new (title : rstring) (w h : Z) : U (option Z) :=
  on_display (open_window (if bool_decide (title = []) then chars_of "nigg" else title) w h).

Definition create_window_ex_w (ex_style class_name window_name style x y width height parent menu instance param : Z) : U Z :=
  let! cname := widestring_to_string class_name in
  let! a := find_class_by_name cname in
  match a with
  | None => mret 0
  | Some a =>
      let! (proc, w, h) := with_state (fun st =>
        (match find (fun c => atom c =? a) (classes st) with
         | Some cls => (lpfn_wnd_proc (class cls), Z.max 1 width, Z.max 1 height)
         | None => (0, 1, 1)
         end, st)) in
      let! host_window := Window_new cname w h in
      let! hwnd := make_hwnd in
      with_state (fun st =>
        (tt, set_windows (windows st ++ [(hwnd, mkWindow host_window a proc cname w h false false)]) st)) ;;;
      (if negb (proc =? 0) then
         send_message_internal hwnd WM_CREATE 0 0 ;;;
         send_message_internal hwnd WM_SIZE 0 0 ;;;
         send_message_internal hwnd WM_MOVE 0 0 ;;;
         send_message_internal hwnd WM_SHOWWINDOW 1 0 ;;;
         mret tt
       else mret tt) ;;;
      mret hwnd
  end.

Definition show_window (h cmd : Z) : U Z :=
  with_state (fun st => match find_window h st with
    | Some w => (if visible w then 1 else 0, set_windows (update_window_entry h (set_visible (negb (cmd =? SW_HIDE))) (windows st)) st)
    | None => (0, st)
    end).

Definition update_window (h : Z) : U Z := send_message_internal h WM_PAINT 0 0 ;;; mret 1.

Definition get_client_rect (h lprect : Z) : U Z :=
  if lprect =? 0 then mret 0
  else
    let! (w, h) := window_size h in
    on_mem (write_record lprect (rect_fields 0 0 0 w h)) ;;;
    mret 1.

Definition get_window_rect (h lprect : Z) : U Z := get_client_rect h lprect.

Definition set_window_pos (h insert_after x y cx cy flags : Z) : U Z := update_size h (Z.max 1 cx) (Z.max 1 cy).
Definition move_window (h x y cx cy repaint : Z) : U Z := update_size h (Z.max 1 cx) (Z.max 1 cy).

(** The units are written until [max - 1]; the terminator follows. *)
Fixpoint put_title (buf max i : Z) (units : list Z) : U Z :=
  match units with
  | [] => mret i
  | u :: units =>
      if to_signed 32 (wrap 32 i) >=? max - 1 then mret i
      else on_mem (uput 2 buf i u) ;;; put_title buf max (i + 1) units
  end.

Definition get_window_text_w (h buf max : Z) : U Z :=
  if (buf =? 0) || (max <=? 0) then mret 0
  else
    let! title := window_title h in
    let! len := put_title buf max 0 (encode_utf16 title) in
    (if len <? max then on_mem (uput 2 buf len 0) else mret tt) ;;;
    mret len.

Definition set_window_text_w (h title : Z) : U Z :=
  let! t := widestring_to_string title in
  change_window h (set_title t) ;;; mret 1.

Definition pop_front : U (option Msg) :=
  with_state (fun st => match queue st with m :: q => (Some m, set_queue q st) | [] => (None, st) end).

Definition get_message_w (lpmsg h min max : Z) : U Z :=
  if lpmsg =? 0 then mret (-1)
  else
    let! m := pop_front in
    match m with
    | Some m =>
        write_msg lpmsg m ;;;
        let! msg := read_msg lpmsg in
        mret (if message msg =? WM_QUIT then 0 else 1)
    | None =>
        let! q := with_state (fun st => (quit_code st, st)) in
        match q with
        | Some code => write_msg lpmsg (mkMsg 0 WM_QUIT (wrap 64 code) 0 0 0 0) ;;; mret 0
        | None =>
            let! m := poll_host_event in
            match m with
            | Some m => write_msg lpmsg m ;;; mret 1
            | None => write_msg lpmsg Msg_default ;;; mret 1
            end
        end
    end.

Definition peek_message_w (lpmsg h min max remove : Z) : U Z :=
  if lpmsg =? 0 then mret 0
  else
    let! queued := pop_front in
    match queued with
    | Some m => write_msg lpmsg m ;;; mret 1
    | None =>
        let! m := poll_host_event in
        match m with
        | Some m => write_msg lpmsg m ;;; mret 1
        | None => mret 0
        end
    end.

Definition translate_message (lpmsg : Z) : U Z := mret 0.

Definition dispatch_message_w (lpmsg : Z) : U Z :=
  if lpmsg =? 0 then mret 0
  else
    let! msg := read_msg lpmsg in
    let! proc := window_proc (hwnd msg) in
    if negb (proc =? 0) then call_win64_wndproc proc (hwnd msg) (message msg) (w_param msg) (l_param msg)
    else def_window_proc_w_impl (hwnd msg) (message msg) (w_param msg) (l_param msg).

Definition post_message_w (h msg w l : Z) : U Z := post_message_internal h msg w l ;;; mret 1.
Definition send_message_w (h msg w l : Z) : U Z := send_message_internal h msg w l.
Definition def_window_proc_w (h msg w l : Z) : U Z := def_window_proc_w_impl h msg w l.

Definition get_parent (h : Z) : U Z := mret 0.
Definition set_parent (h parent : Z) : U Z := mret 0.

Definition get_system_metrics (index : Z) : U Z :=
  mret (if index =? SM_CXSCREEN then DEFAULT_CXSCREEN else if index =? SM_CYSCREEN then DEFAULT_CYSCREEN else 0).

Definition get_desktop_window : U Z := mret 1.
Definition get_menu (h : Z) : U Z := mret FAKE_HMENU.
Definition get_window_text_length_w (h : Z) : U Z := mret 0.

(** The caller's [length] stays; the ten words after it are cleared. *)
Definition get_window_placement (h wp : Z) : U Z :=
  if wp =? 0 then mret 0
  else
    let! length := on_mem (read_int 4 wp) in
    on_mem (write_record wp ((4%nat, 0, length) :: (4%nat, 4, 0) :: (4%nat, 8, 0) :: (4%nat, 12, 0) :: (4%nat, 16, 0) ::
      (4%nat, 20, 0) :: (4%nat, 24, 0) :: rect_fields 28 0 0 0 0)) ;;;
    mret 1.

Definition get_dlg_item (h id : Z) : U Z := mret 0.
Definition get_dlg_item_text_w (h id buf max : Z) : U Z := mret 0.
Definition get_dlg_item_int (h id translated signed : Z) : U Z :=
  (if negb (translated =? 0) then on_mem (write_int 4 translated 0) else mret tt) ;;; mret 0.
Definition set_dlg_item_text_w (h id text : Z) : U Z := mret 1.
Definition set_dlg_item_int (h id value signed : Z) : U Z := mret 1.
Definition set_active_window (h : Z) : U Z := mret 0.
Definition set_focus (h : Z) : U Z := mret 0.
Definition enable_menu_item (menu id flags : Z) : U Z := mret 0.
Definition check_menu_item (menu id flags : Z) : U Z := mret 0.
Definition message_box_w (h text caption flags : Z) : U Z := mret 1.
Definition load_icon_w (instance name : Z) : U Z := mret FAKE_HICON.
Definition load_cursor_w (instance name : Z) : U Z := mret FAKE_HICON.
Definition load_image_w (instance name type cx cy flags : Z) : U Z := mret FAKE_HICON.
Definition load_string_w (instance id buf max : Z) : U Z := mret 0.
Definition load_accelerators_w (instance name : Z) : U Z := mret FAKE_HACCEL.
Definition translate_accelerator_w (h accel msg : Z) : U Z := mret 0.
Definition register_window_message_w (name : Z) : U Z := mret FAKE_REGISTERED_MSG.
Definition is_dialog_message_w (h msg : Z) : U Z := mret 0.
Definition is_clipboard_format_available (format : Z) : U Z := mret 0.
Definition invalidate_rect (h rect erase : Z) : U Z := change_window h (set_paint true) ;;; mret 1.
Definition get_dpi_for_window (h : Z) : U Z := mret STANDARD_DPI.

(** The caller's [cbSize] stays; both rectangles are the screen. *)
Definition get_monitor_info_w (monitor info : Z) : U Z :=
  if info =? 0 then mret 0
  else
    let! cb := on_mem (read_int 4 info) in
    on_mem (write_record info ((4%nat, 0, cb) :: rect_fields 4 0 0 DEFAULT_CXSCREEN DEFAULT_CYSCREEN ++
      rect_fields 20 0 0 DEFAULT_CXSCREEN DEFAULT_CYSCREEN ++ [(4%nat, 36, 0)])) ;;;
    mret 1.

Definition monitor_from_rect (rect flags : Z) : U Z := mret FAKE_HMONITOR.
Definition dialog_box_param_w (instance name parent dlg_proc param : Z) : U Z := mret (-1).
Definition end_dialog (h result : Z) : U Z := mret 1.
Definition win_help_w (h file cmd data : Z) : U Z := mret 0.
Definition wsprintf_w (buf fmt : Z) : U Z := mret 0.
End Exports.

(** ** The guest

    A call of the guest into user32; the calls that only return a constant change
    nothing and are left out. *)
Inductive ucall : Type :=
  | RegisterClassExW (lpwcx : Z)
  | UnregisterClassW (name instance : Z)
  | CreateWindowExW (class_name width height : Z)
  | DestroyWindow (h : Z)
  | ShowWindow (h cmd : Z)
  | UpdateWindow (h : Z)
  | GetClientRect (h lprect : Z)
  | SetWindowPos (h cx cy : Z)
  | GetWindowTextW (h buf max : Z)
  | SetWindowTextW (h title : Z)
  | GetMessageW (lpmsg : Z)
  | PeekMessageW (lpmsg : Z)
  | DispatchMessageW (lpmsg : Z)
  | PostQuitMessage (exit_code : Z)
  | PostMessageW (h msg w l : Z)
  | SendMessageW (h msg w l : Z)
  | DefWindowProcW (h msg w l : Z)
  | InvalidateRect (h : Z)
  | GetWindowPlacement (h wp : Z)
  | GetDlgItemInt (translated : Z)
  | GetMonitorInfoW (info : Z).

(** Code of the guest: it returns, calls user32, or works on its own memory. *)
Inductive guest (W : Type) : Type :=
  | GRet (r : Z)
  | GCall (c : ucall) (k : Z -> guest W)
  | GWork (f : W -> Z * W) (k : Z -> guest W).
Arguments GRet {W}.
Arguments GCall {W}.
Arguments GWork {W}.

Section Guests.
Context `{HW : Host W} `{HD : Display D} {E : Type}.
Local Abbreviation U := (M (User W D) E).

Definition run_call (wndproc : Z -> Z -> Z -> Z -> Z -> U Z) (c : ucall) : U Z :=
  match c with
  | RegisterClassExW p => register_class_ex_w p
  | UnregisterClassW n i => unregister_class_w n i
  | CreateWindowExW c w h => create_window_ex_w wndproc 0 c 0 0 0 0 w h 0 0 0 0
  | DestroyWindow h => destroy_window h
  | ShowWindow h cmd => show_window h cmd
  | UpdateWindow h => update_window wndproc h
  | GetClientRect h r => get_client_rect h r
  | SetWindowPos h cx cy => set_window_pos h 0 0 0 cx cy 0
  | GetWindowTextW h b m => get_window_text_w h b m
  | SetWindowTextW h t => set_window_text_w h t
  | GetMessageW p => get_message_w p 0 0 0
  | PeekMessageW p => peek_message_w p 0 0 0 0
  | DispatchMessageW p => dispatch_message_w wndproc p
  | PostQuitMessage c => post_quit_message c ;;; mret 0
  | PostMessageW h m w l => post_message_w h m w l
  | SendMessageW h m w l => send_message_w wndproc h m w l
  | DefWindowProcW h m w l => def_window_proc_w h m w l
  | InvalidateRect h => invalidate_rect h 0 0
  | GetWindowPlacement h p => get_window_placement h p
  | GetDlgItemInt t => get_dlg_item_int 0 0 t 0
  | GetMonitorInfoW i => get_monitor_info_w 0 i
  end.

(** What the guest has at the addresses of its window procedures. *)
Variable procs : Z -> Z -> Z -> Z -> Z -> guest W.

(** The fuel bounds the length of the run and the depth of procedures within
    procedures. *)
Fixpoint run_guest (fuel : nat) (g : guest W) : U Z :=
  match fuel with
  | O => mnofuel
  | S fuel =>
      match g with
      | GRet r => mret r
      | GCall c k =>
          let! r := run_call (fun proc h msg w l => run_guest fuel (procs proc h msg w l)) c in
          run_guest fuel (k r)
      | GWork f k => let! r := on_mem (fun w => let '(r, w) := f w in (Ok r, w)) in run_guest fuel (k r)
      end
  end.
End Guests.
