(* ===== verification/User32Loop.v ===== *)
(** * What the message calls promise

    Messages through memory, the order of the queue, the end of a message loop, and
    the handles of windows under any guest. *)
From Stdlib Require Import ZArith Lia String.
From stdpp Require Import base list option.
From S2P Require Import Prelude PeHost GuestMem Utf User32.
Local Open Scope rust_scope.
Local Open Scope Z_scope.
Set Warnings "-register-all".

(** ** A message in memory *)

(** A message whose fields have their widths. *)
Definition msg_ok (m : Msg) : Prop :=
  unit_range 8 (hwnd m) /\ unit_range 4 (message m) /\ unit_range 8 (w_param m) /\ - 2 ^ 63 <= l_param m < 2 ^ 63 /\
  unit_range 4 (time m) /\ - 2 ^ 31 <= pt_x m < 2 ^ 31 /\ - 2 ^ 31 <= pt_y m < 2 ^ 31.

Lemma signed_wrap k x : 0 < k -> - 2 ^ (k - 1) <= x < 2 ^ (k - 1) -> to_signed k (wrap k x) = x.
Proof.
  intros Hk Hx. assert (Hp : 2 ^ k = 2 * 2 ^ (k - 1)) by (rewrite <- Z.pow_succ_r by lia; f_equal; lia).
  unfold to_signed. rewrite wrap_wrap. unfold wrap. destruct (Z.lt_ge_cases x 0).
  - rewrite <- (Z.mod_unique x (2 ^ k) (-1) (x + 2 ^ k)) by lia. rewrite (proj2 (Z.ltb_ge (x + 2 ^ k) (2 ^ (k - 1)))); lia.
  - rewrite Z.mod_small by lia. rewrite (proj2 (Z.ltb_lt x (2 ^ (k - 1)))); lia.
Qed.

Lemma wrap_unit k x : unit_range k (wrap (8 * Z.of_nat k) x).
Proof. apply wrap_range. lia. Qed.

Lemma msg_laid_out m : msg_ok m -> laid_out 0 44 (msg_fields m).
Proof.
  intros (H1 & H2 & H3 & _ & H5 & _). cbn [laid_out msg_fields Z.of_nat Pos.of_succ_nat Pos.succ].
  pose proof (wrap_unit 8 (l_param m)). pose proof (wrap_unit 4 (pt_x m)). pose proof (wrap_unit 4 (pt_y m)).
  split_and!; done || lia.
Qed.

Section Messages.
Context `{HW : Host W} `{HL : !HostLaws W} `{HD : Display D} {E : Type}.
Local Abbreviation U := (M (User W D) E).

Definition with_memory (s : User W D) (w : W) : User W D := mkUser (state s) (drawn s) (display s) w.
Definition with_st (s : User W D) (st : State) : User W D := mkUser st (drawn s) (display s) (memory s).

(** A buffer for a message. *)
Definition msg_buffer (w : W) (p : Z) : Prop := 0 < p /\ readable w p 44 /\ writable w p 44.

Lemma user_mem_ok {A} (m : M W E A) (s : User W D) a w : m (memory s) = (Ok a, w) -> on_mem m s = (Ok a, with_memory s w).
Proof. intros H. unfold on_mem. by rewrite H. Qed.

Lemma read_msg_fields (s : User W D) p m : msg_ok m -> has_fields (memory s) p (msg_fields m) -> read_msg (E := E) p s = (Ok m, s).
Proof.
  intros (_ & _ & _ & H4 & _ & H6 & H7) Hf. unfold read_msg.
  assert (Hr : forall i k off v, msg_fields m !! i = Some (k, off, v) -> read_int (E := E) k (p + off) (memory s) = (Ok v, memory s)) by (intros; by eapply read_field).
  rewrite (user_mem_ok _ s m (memory s)); [by destruct s|]. rewrite <- (Z.add_0_r p) at 1.
  rewrite (mbind_ok _ _ _ _ _ (Hr 0%nat 8%nat 0 (hwnd m) eq_refl)).
  rewrite (mbind_ok _ _ _ _ _ (Hr 1%nat 4%nat 8 (message m) eq_refl)).
  rewrite (mbind_ok _ _ _ _ _ (Hr 2%nat 8%nat 16 (w_param m) eq_refl)).
  rewrite (mbind_ok _ _ _ _ _ (Hr 3%nat 8%nat 24 (wrap 64 (l_param m)) eq_refl)).
  rewrite (mbind_ok _ _ _ _ _ (Hr 4%nat 4%nat 32 (time m) eq_refl)).
  rewrite (mbind_ok _ _ _ _ _ (Hr 5%nat 4%nat 36 (wrap 32 (pt_x m)) eq_refl)).
  rewrite (mbind_ok _ _ _ _ _ (Hr 6%nat 4%nat 40 (wrap 32 (pt_y m)) eq_refl)).
  rewrite !signed_wrap by done. by destruct m.
Qed.

(** Memory after a message is written, and that it can be read back. *)
Definition put_msg (p : Z) (m : Msg) (w : W) : W := put_record p (msg_fields m) w.

Lemma put_msg_fields p m (w : W) : msg_ok m -> msg_buffer w p -> has_fields (put_msg p m w) p (msg_fields m).
Proof. intros Hm (_ & Hr & _). apply (put_record_fields p 0 44); [by apply msg_laid_out|]. by rewrite Z.add_0_r. Qed.

Lemma put_msg_buffer p m (w : W) p' : msg_buffer w p' -> msg_buffer (put_msg p m w) p'.
Proof.
  intros (H0 & H1 & H2). split_and!; [done|..]; intros x Hx; unfold may, put_msg; rewrite prot_put_record; [by apply H1|by apply H2].
Qed.

Lemma write_msg_ok (s : User W D) p m : msg_ok m -> msg_buffer (memory s) p ->
  write_msg (E := E) p m s = (Ok tt, with_memory s (put_msg p m (memory s))).
Proof.
  intros Hm (_ & _ & Hw). apply user_mem_ok. apply (write_record_ok p 0 44); [by apply msg_laid_out|]. by rewrite Z.add_0_r.
Qed.

(** ** The next message *)

Lemma pop_front_eq (s : User W D) : pop_front (E := E) s =
  match queue (state s) with m :: q => (Ok (Some m), with_st s (set_queue q (state s))) | [] => (Ok None, s) end.
Proof. unfold pop_front, with_state. destruct (queue (state s)); [by destruct s|done]. Qed.

Definition fetched (p : Z) (m : Msg) (q : list Msg) (s : User W D) : User W D :=
  mkUser (set_queue q (state s)) (drawn s) (display s) (put_msg p m (memory s)).

Lemma get_queued (s : User W D) p h lo hi m q : msg_buffer (memory s) p -> msg_ok m -> queue (state s) = m :: q ->
  get_message_w (E := E) p h lo hi s = (Ok (if message m =? WM_QUIT then 0 else 1), fetched p m q s).
Proof.
  intros Hp Hm Hq. unfold get_message_w. rewrite (proj2 (Z.eqb_neq p 0)) by (destruct Hp; lia).
  rewrite (mbind_ok _ _ _ (Some m) (with_st s (set_queue q (state s)))) by (rewrite pop_front_eq; by rewrite Hq).
  rewrite (mbind_ok _ _ _ _ _ (write_msg_ok (with_st s (set_queue q (state s))) p m Hm Hp)).
  by rewrite (mbind_ok _ _ _ m (fetched p m q s)) by (apply read_msg_fields; [done|by apply put_msg_fields]).
Qed.

Definition quit_message (code : Z) : Msg := mkMsg 0 WM_QUIT (wrap 64 code) 0 0 0 0.

Lemma quit_message_ok code : msg_ok (quit_message code).
Proof. split_and!; try done. apply (wrap_unit 8). Qed.

(** After a quit is posted an empty queue gives [WM_QUIT], every time. *)
Lemma get_quit (s : User W D) p h lo hi code : msg_buffer (memory s) p -> queue (state s) = [] -> quit_code (state s) = Some code ->
  get_message_w (E := E) p h lo hi s = (Ok 0, with_memory s (put_msg p (quit_message code) (memory s))).
Proof.
  intros Hp Hq Hc. unfold get_message_w. rewrite (proj2 (Z.eqb_neq p 0)) by (destruct Hp; lia).
  rewrite (mbind_ok _ _ _ None s) by (rewrite pop_front_eq; by rewrite Hq).
  rewrite (mbind_ok _ _ _ (Some code) s) by (unfold with_state; rewrite Hc; by destruct s).
  by rewrite (mbind_ok _ _ _ _ _ (write_msg_ok s p (quit_message code) (quit_message_ok code) Hp)).
Qed.
End Messages.

(** ** The queue is first in, first out *)

Section Queue.
Context `{HW : Host W} `{HL : !HostLaws W} `{HD : Display D} {E : Type}.
Local Abbreviation U := (M (User W D) E).

(** The guest's fetch: the answer of [GetMessageW] and the message it finds. *)
Definition next_message (p : Z) : U (Z * Msg) :=
  let! r := get_message_w p 0 0 0 in let! m := read_msg p in mret (r, m).

Definition answer (m : Msg) : Z * Msg := (if message m =? WM_QUIT then 0 else 1, m).

Definition post (m : Msg) : U Z := post_message_w (hwnd m) (message m) (w_param m) (l_param m).

(** A message as it is posted: no time and no position. *)
Definition plain (m : Msg) : Prop := time m = 0 /\ pt_x m = 0 /\ pt_y m = 0.

Lemma next_queued (s : User W D) p m q : msg_buffer (memory s) p -> msg_ok m -> queue (state s) = m :: q ->
  next_message p s = (Ok (answer m), fetched p m q s).
Proof.
  intros Hp Hm Hq. unfold next_message. rewrite (mbind_ok _ _ _ _ _ (get_queued s p 0 0 0 m q Hp Hm Hq)).
  by rewrite (mbind_ok _ _ _ m (fetched p m q s)) by (apply read_msg_fields; [done|by apply put_msg_fields]).
Qed.

Lemma put_msg_intact p m (w : W) : msg_ok m -> intact_but p 44 w (put_msg p m w).
Proof. intros Hm. pose proof (put_record_intact p 0 44 _ w (msg_laid_out m Hm)) as H. by rewrite Z.add_0_r in H. Qed.

Lemma drain_queue p ms : forall s : User W D, msg_buffer (memory s) p -> Forall msg_ok ms -> queue (state s) = ms ->
  exists w, m_list (fun _ => next_message p) ms s = (Ok (map answer ms), mkUser (set_queue [] (state s)) (drawn s) (display s) w) /\
    intact_but p 44 (memory s) w /\ msg_buffer w p.
Proof.
  induction ms as [|m ms IH]; intros s Hp Hms Hq.
  - exists (memory s). split; [|split; [apply intact_but_refl|done]]. destruct s as [[? ? q ?] ? ? ?]. cbn in Hq. by rewrite Hq.
  - inversion_clear Hms as [|? ? Hm Hms']. destruct (IH (fetched p m ms s)) as (w & Hw & Hi & Hb); [by apply put_msg_buffer|done|done|].
    exists w. split; [|split; [|done]].
    + cbn [m_list]. rewrite (mbind_ok _ _ _ _ _ (next_queued s p m ms Hp Hm Hq)). by rewrite (mbind_ok _ _ _ _ _ Hw).
    + eapply intact_but_trans; [by apply put_msg_intact|exact Hi].
Qed.

Lemma post_all ms : forall s : User W D, Forall plain ms ->
  m_iter (fun m => post m ;;; mret tt) ms s = (Ok tt, with_st s (set_queue (queue (state s) ++ ms) (state s))).
Proof.
  induction ms as [|m ms IH]; intros s Hms.
  - destruct s as [[? ? q ?] ? ? ?]. unfold with_st, set_queue. cbn. by rewrite app_nil_r.
  - inversion_clear Hms as [|? ? (H1 & H2 & H3) Hms']. cbn [m_iter].
    rewrite (mbind_ok _ _ s tt (with_st s (set_queue (queue (state s) ++ [m]) (state s)))).
    + rewrite IH by done. cbn. by rewrite <- app_assoc.
    + unfold post, post_message_w, post_message_internal, mbind, with_state. by destruct m as [? ? ? ? ? ? ?]; cbn in *; subst.
Qed.

(** C29. The message queue is first in, first out, through memory: fetching after any
    posts gives the messages that were waiting, then the posted ones, in order and
    each with the fields it was posted with; the answer is zero exactly for
    [WM_QUIT]. Nothing but the queue and the message buffer changes. *)
Theorem posted_messages_fetched (s : User W D) p ms : msg_buffer (memory s) p -> Forall msg_ok (queue (state s)) ->
  Forall msg_ok ms -> Forall plain ms ->
  let all := queue (state s) ++ ms in
  exists w, (m_iter (fun m => post m ;;; mret tt) ms ;;; m_list (fun _ => next_message p) all) s
    = (Ok (map answer all), mkUser (set_queue [] (state s)) (drawn s) (display s) w) /\
    intact_but p 44 (memory s) w.
Proof.
  intros Hp Hq Hms Hpl all. rewrite (mbind_ok _ _ _ _ _ (post_all ms s Hpl)).
  destruct (drain_queue p all (with_st s (set_queue all (state s))) Hp) as (w & Hw & Hi & _); [by apply Forall_app|done|].
  exists w. by split.
Qed.

(** [PostQuitMessage] reaches a guest that calls [GetMessageW] and no other: on an
    empty queue [GetMessageW] gives [WM_QUIT] with the exit code again and again,
    while [PeekMessageW] only ever reports events of the host, so a guest that polls
    with it is never told to quit. *)
Theorem peek_never_quits (s : User W D) p code : msg_buffer (memory s) p -> queue (state s) = [] ->
  exists s1, post_quit_message (E := E) code s = (Ok tt, s1) /\
  (forall n, exists s2, m_list (fun _ => next_message p) (replicate n tt) s1 = (Ok (replicate n (0, quit_message code)), s2) /\
     state s2 = state s1) /\
  (poll_host_event (E := E) s1 = (Ok None, s1) -> forall n, m_list (fun _ => peek_message_w (E := E) p 0 0 0 0) (replicate n tt) s1
     = (Ok (replicate n 0), s1)).
Proof.
  intros Hp Hq. set (s1 := with_st s (set_quit (Some code) (state s))). exists s1. split; [done|]. split.
  - intros n. assert (Hg : forall w, msg_buffer w p -> exists s2, m_list (fun _ => next_message p) (replicate n tt) (with_memory s1 w)
      = (Ok (replicate n (0, quit_message code)), s2) /\ state s2 = state s1).
    { induction n as [|n IH]; intros w Hw; [by exists (with_memory s1 w)|]. cbn [replicate m_list].
      destruct (IH (put_msg p (quit_message code) w)) as (s2 & H2 & Hs2); [by apply put_msg_buffer|]. exists s2. split; [|done].
      rewrite (mbind_ok _ _ _ (0, quit_message code) (with_memory s1 (put_msg p (quit_message code) w))).
      - by rewrite (mbind_ok _ _ _ _ _ H2).
      - unfold next_message. rewrite (mbind_ok _ _ _ _ _ (get_quit (with_memory s1 w) p 0 0 0 code Hw Hq eq_refl)).
        rewrite (mbind_ok _ _ _ (quit_message code) (with_memory s1 (put_msg p (quit_message code) w))); [done|].
        apply read_msg_fields; [apply quit_message_ok|]. apply put_msg_fields; [apply quit_message_ok|done]. }
    destruct (Hg (memory s) Hp) as (s2 & H2 & Hs2). by exists s2.
  - intros Hpoll n. assert (Hpeek : peek_message_w (E := E) p 0 0 0 0 s1 = (Ok 0, s1)).
    { unfold peek_message_w. rewrite (proj2 (Z.eqb_neq p 0)) by (destruct Hp; lia).
      rewrite (mbind_ok _ _ _ None s1) by (rewrite pop_front_eq; cbn; by rewrite Hq). by rewrite (mbind_ok _ _ _ _ _ Hpoll). }
    induction n as [|n IH]; [done|]. cbn [replicate m_list]. rewrite (mbind_ok _ _ _ _ _ Hpeek). by rewrite (mbind_ok _ _ _ _ _ IH).
Qed.
End Queue.

(** ** Windows come and go *)

Definition handles (s : State) : list Z := map fst (windows s).

Lemma find_window_none h s : ~ In h (handles s) -> find_window h s = None.
Proof.
  unfold handles, find_window. induction (windows s) as [|[h' w] l IH]; intros Hn; [done|]. cbn in *.
  destruct (Z.eqb_spec h' h) as [->|_]; [by destruct Hn; left|]. apply IH. tauto.
Qed.

Lemma remove_first_handles h l :
  match remove_first (fun '(h', _) => h' =? h) l with
  | Some ((h', w), l') => h' = h /\ find (fun '(h', _) => h' =? h) l = Some (h, w) /\
      exists l1 l2, map fst l = l1 ++ h :: l2 /\ map fst l' = l1 ++ l2
  | None => ~ In h (map (A := Z * WindowEntry) fst l)
  end.
Proof.
  induction l as [|[h' w] l IH]; [by intros []|]. cbn [remove_first find map fst]. destruct (Z.eqb_spec h' h) as [->|Hne].
  - split; [done|]. split; [done|]. by exists [], (map fst l).
  - destruct (remove_first _ l) as [[[h'' w'] l']|].
    + destruct IH as (-> & Hf & l1 & l2 & E1 & E2). split; [done|]. split; [done|]. exists (h' :: l1), l2. cbn. by rewrite E1, E2.
    + intros [<- |Hin]; done.
Qed.

Lemma update_handles h f l : map fst (update_window_entry h f l) = map fst l.
Proof. induction l as [|[h' w] l IH]; [done|]. cbn. by destruct (h' =? h); cbn; [|rewrite IH]. Qed.

Section Windows.
Context `{HW : Host W} `{HL : !HostLaws W} `{HD : Display D} {E : Type}.
Local Abbreviation U := (M (User W D) E).

(** The end of a window: its entry goes, and [WM_DESTROY] waits in the queue. *)
Lemma destroy_live (s : User W D) h w : NoDup (handles (state s)) -> find_window h (state s) = Some w ->
  exists s', destroy_window (E := E) h s = (Ok 1, s') /\ queue (state s') = queue (state s) ++ [mkMsg h WM_DESTROY 0 0 0 0 0] /\
    quit_code (state s') = quit_code (state s) /\ memory s' = memory s /\ drawn s' = drawn s /\
    ~ In h (handles (state s')) /\ exists l1 l2, handles (state s) = l1 ++ h :: l2 /\ handles (state s') = l1 ++ l2.
Proof.
  intros Hnd Hf. unfold destroy_window. pose proof (remove_first_handles h (windows (state s))) as Hr. unfold handles in *.
  destruct (remove_first _ (windows (state s))) as [[[h' w'] ws]|] eqn:Er.
  2:{ unfold find_window in Hf. destruct (find _ (windows (state s))) as [[h' w']|] eqn:Ef; [|done]. exfalso. apply Hr.
      apply find_some in Ef as [Hin Hh]. apply Z.eqb_eq in Hh as ->. apply in_map_iff. by exists (h, w'). }
  destruct Hr as (-> & Hf' & l1 & l2 & E1 & E2). unfold find_window in Hf. rewrite Hf' in Hf. injection Hf as ->.
  set (s1 := with_st s (set_windows ws (state s))).
  rewrite (mbind_ok _ _ s (Some w) s1) by (unfold with_state; by rewrite Er).
  set (d := match window w with Some hw => close_window hw (display s) | None => display s end).
  set (s2 := mkUser (state s1) (drawn s) d (memory s)).
  rewrite (mbind_ok _ _ s1 tt s2) by (unfold s2, d; by destruct (window w)).
  eexists. split; [reflexivity|]. split_and!; [done|done|done|done| |by exists l1, l2].
  cbn. rewrite E2. rewrite E1 in Hnd. apply list.NoDup_app in Hnd as (_ & Hd & Hnd). apply list.NoDup_cons in Hnd as [Hn _].
  rewrite in_app_iff. intros [Hi|Hi]; [apply (Hd h); [by apply list_elem_of_In|apply list_elem_of_here]|apply Hn; by apply list_elem_of_In].
Qed.

(** The procedure of a window never learns that the window is destroyed.
    [DestroyWindow] takes the entry away before [WM_DESTROY] is dispatched, so the
    message finds no procedure: whatever the guest has at its address, dispatching
    the message is the default handling, which posts a quit. Any window destroyed
    ends the message loop. *)
Theorem destroy_bypasses_procedure (s : User W D) h w p wndproc : NoDup (handles (state s)) -> unit_range 8 h ->
  find_window h (state s) = Some w -> queue (state s) = [] -> msg_buffer (memory s) p ->
  exists s1 s2, destroy_window (E := E) h s = (Ok 1, s1) /\
    get_message_w p 0 0 0 s1 = (Ok (E := E) 1, s2) /\
    exists s3, dispatch_message_w (E := E) wndproc p s2 = (Ok 0, s3) /\ quit_code (state s3) = Some 0 /\
      handles (state s3) = handles (state s1) /\ ~ In h (handles (state s1)) /\
      exists s4, get_message_w p 0 0 0 s3 = (Ok (E := E) 0, s4).
Proof.
  intros Hnd Hh Hf Hq Hp. destruct (destroy_live s h w Hnd Hf) as (s1 & H1 & Hq1 & _ & Hm & _ & Hn & _). rewrite Hq in Hq1.
  set (m := mkMsg h WM_DESTROY 0 0 0 0 0) in *. assert (Hmok : msg_ok m) by by split_and!.
  rewrite <- Hm in Hp. pose proof (get_queued (E := E) s1 p 0 0 0 m [] Hp Hmok Hq1) as H2.
  exists s1, (fetched p m [] s1). split; [exact H1|]. split; [exact H2|].
  set (s3 := with_st (fetched p m [] s1) (set_quit (Some 0) (set_queue [] (state s1)))). exists s3.
  assert (Hp3 : msg_buffer (memory s3) p) by by apply put_msg_buffer.
  split; [|split; [done|split; [done|split; [done|]]]].
  - unfold dispatch_message_w. rewrite (proj2 (Z.eqb_neq p 0)) by (destruct Hp; lia).
    rewrite (mbind_ok _ _ _ m (fetched p m [] s1)) by (apply read_msg_fields; [done|by apply put_msg_fields]).
    rewrite (mbind_ok _ _ _ 0 (fetched p m [] s1)); [done|]. unfold window_proc, with_state. cbn [state fetched hwnd].
    rewrite (find_window_none h) by exact Hn. done.
  - eexists. by apply (get_quit s3 p 0 0 0 0).
Qed.
End Windows.

(** ** Handles under any guest *)

Section Handles.
Context `{HW : Host W} `{HL : !HostLaws W} `{HD : Display D} {E : Type}.
Local Abbreviation U := (M (User W D) E).

(** Live windows have distinct handles, each made from an id drawn so far. *)
Record handles_ok (s : User W D) : Prop := {
  ho_distinct : NoDup (handles (state s));
  ho_drawn : forall h, In h (handles (state s)) -> exists i, 1 <= i <= drawn s /\ h = Z.lor i 0x200000000
}.

(** From one state to a later one: ids are only drawn, and while their counter has not
    wrapped the handles stay as they should be. *)
Definition grows (s s' : User W D) : Prop :=
  drawn s <= drawn s' /\ (0 <= drawn s -> drawn s' < 2 ^ 32 -> handles_ok s -> handles_ok s').

Lemma grows_refl s : grows s s.
Proof. split; [lia|done]. Qed.

Lemma grows_trans s1 s2 s3 : grows s1 s2 -> grows s2 s3 -> grows s1 s3.
Proof. intros [H1 H2] [H3 H4]. split; [lia|]. intros H0 Hb Hok. apply H4; [lia|done|]. apply H2; [done|lia|done]. Qed.

(** A call, whatever its outcome, leads to a later state. *)
Definition keeps {A} (m : U A) : Prop := forall s, grows s (snd (m s)).

Lemma keeps_ret {A} (a : A) : keeps (mret a).
Proof. intros s. apply grows_refl. Qed.

Lemma keeps_nofuel {A} : keeps (mnofuel (A := A)).
Proof. intros s. apply grows_refl. Qed.

Lemma keeps_bind {A B} (m : U A) (k : A -> U B) : keeps m -> (forall a, keeps (k a)) -> keeps (mbind m k).
Proof.
  intros Hm Hk s. specialize (Hm s). unfold mbind. destruct (m s) as [[a|e| |] s1]; cbn [snd] in *; [|done..].
  eapply grows_trans; [exact Hm|apply Hk].
Qed.

Lemma grows_same (s s' : User W D) : drawn s' = drawn s -> handles (state s') = handles (state s) -> grows s s'.
Proof. intros H1 H2. split; [lia|]. intros _ _ [Ha Hb]. split; rewrite ?H1, ?H2; done. Qed.

Lemma keeps_on_mem {A} (m : M W E A) : keeps (on_mem m).
Proof. intros s. unfold on_mem. destruct (m (memory s)). by apply grows_same. Qed.

Lemma keeps_on_display {A} (f : D -> A * D) : keeps (on_display f).
Proof. intros s. unfold on_display. destruct (f (display s)). by apply grows_same. Qed.

Lemma keeps_with_state {A} (f : State -> A * State) : (forall st, handles (snd (f st)) = handles st) -> keeps (with_state f).
Proof. intros H s. unfold with_state. specialize (H (state s)). destruct (f (state s)). by apply grows_same. Qed.

Lemma keeps_next_id : keeps next_id.
Proof.
  intros s. split; [cbn; lia|]. intros _ _ [H1 H2]. split; [exact H1|]. intros h Hh. destruct (H2 h Hh) as (i & Hi & ->). exists i. cbn. split; [lia|done].
Qed.

Lemma handles_update h f st : handles (set_windows (update_window_entry h f (windows st)) st) = handles st.
Proof. apply update_handles. Qed.

Lemma id_handle i : 0 <= i < 2 ^ 32 -> Z.lor i 0x200000000 = i + 2 ^ 33.
Proof.
  intros Hi. rewrite Z.lor_comm. change 0x200000000 with (Z.shiftl 2 32). rewrite lor_shiftl_add by lia. lia.
Qed.
End Handles.

Create HintDb keeps.
#[export] Hint Resolve keeps_ret keeps_nofuel keeps_on_mem keeps_on_display keeps_next_id : keeps.

(** Calls are taken apart down to the steps above. *)
Ltac keeps :=
  repeat first
    [ progress intros
    | apply keeps_bind
    | solve [auto with keeps]
    | match goal with
      | |- keeps (with_state _) => apply keeps_with_state
      | |- keeps (match ?x with _ => _ end) => destruct x
      | |- keeps (if ?b then _ else _) => destruct b
      | |- keeps (let '(_, _) := ?x in _) => destruct x
      end ].

Section AnyGuest.
Context `{HW : Host W} `{HL : !HostLaws W} `{HD : Display D} {E : Type}.
Local Abbreviation U := (M (User W D) E).

Lemma keeps_read_string p : keeps (widestring_to_string (W := W) (D := D) (E := E) p).
Proof. unfold widestring_to_string. keeps. Qed.
Lemma keeps_read_msg p : keeps (read_msg (W := W) (D := D) (E := E) p).
Proof. apply keeps_on_mem. Qed.
Lemma keeps_write_msg p m : keeps (write_msg (W := W) (D := D) (E := E) p m).
Proof. apply keeps_on_mem. Qed.
Lemma keeps_change h f : keeps (change_window (W := W) (D := D) (E := E) h f).
Proof. apply keeps_with_state. intros st. apply handles_update. Qed.
Lemma keeps_post h m w l : keeps (post_message_internal (W := W) (D := D) (E := E) h m w l).
Proof. by apply keeps_with_state. Qed.
Lemma keeps_quit c : keeps (post_quit_message (W := W) (D := D) (E := E) c).
Proof. by apply keeps_with_state. Qed.
Lemma keeps_update_size h cx cy : keeps (update_size (W := W) (D := D) (E := E) h cx cy).
Proof. apply keeps_with_state. intros st. destruct (find_window h st); [apply handles_update|done]. Qed.
Lemma keeps_find_class n : keeps (find_class_by_name (W := W) (D := D) (E := E) n).
Proof. by apply keeps_with_state. Qed.
Lemma keeps_pop : keeps (pop_front (W := W) (D := D) (E := E)).
Proof. apply keeps_with_state. intros st. by destruct (queue st). Qed.
Lemma keeps_window_proc h : keeps (window_proc (W := W) (D := D) (E := E) h).
Proof. by apply keeps_with_state. Qed.
Lemma keeps_window_title h : keeps (window_title (W := W) (D := D) (E := E) h).
Proof. by apply keeps_with_state. Qed.
Lemma keeps_window_size h : keeps (window_size (W := W) (D := D) (E := E) h).
Proof. by apply keeps_with_state. Qed.

(** Taking an entry away keeps the others apart. *)
Lemma keeps_take h : keeps (E := E) (with_state (W := W) (D := D) (fun st =>
  match remove_first (fun '(h', _) => h' =? h) (windows st) with
  | Some ((_, w), ws) => (Some w, set_windows ws st)
  | None => (None, st)
  end)).
Proof.
  intros s. unfold with_state. pose proof (remove_first_handles h (windows (state s))) as Hr.
  destruct (remove_first _ (windows (state s))) as [[[h' w] ws]|]; [|by apply grows_same].
  destruct Hr as (_ & _ & l1 & l2 & E1 & E2). split; [cbn; lia|]. intros _ _ [H1 H2].
  unfold handles in *. rewrite E1 in H1, H2. apply list.NoDup_app in H1 as (N1 & N2 & N3). apply list.NoDup_cons in N3 as [N3 N4].
  split; unfold handles; cbn; rewrite E2.
  - apply list.NoDup_app. split_and!; [done| |done]. intros x Hx Hx'. apply (N2 x Hx). by apply list_elem_of_further.
  - intros x Hx. apply H2. rewrite !in_app_iff in *. cbn. tauto.
Qed.

End AnyGuest.

#[export] Hint Resolve keeps_read_string keeps_read_msg keeps_write_msg keeps_change keeps_post keeps_quit keeps_update_size
  keeps_find_class keeps_pop keeps_window_proc keeps_window_title keeps_window_size keeps_take : keeps.

Section AnyCall.
Context `{HW : Host W} `{HL : !HostLaws W} `{HD : Display D} {E : Type}.
Local Abbreviation U := (M (User W D) E).

Lemma keeps_destroy h : keeps (destroy_window (W := W) (D := D) (E := E) h).
Proof. unfold destroy_window. apply keeps_bind; [apply keeps_take|]. keeps; intros s; by apply grows_same. Qed.

Lemma keeps_default h m w l : keeps (def_window_proc_w_impl (W := W) (D := D) (E := E) h m w l).
Proof. unfold def_window_proc_w_impl, clear_paint_flag. pose proof (keeps_destroy h). keeps. Qed.

Lemma keeps_poll : keeps (poll_host_event (W := W) (D := D) (E := E)).
Proof. unfold poll_host_event, translate_event_to_msg. keeps; try done; intros s; by apply grows_same. Qed.

Hint Resolve keeps_destroy keeps_default keeps_poll : keeps.

(** A new window has a handle no live window has. *)
Lemma keeps_push {A} f (k : Z -> U A) : (forall h, keeps (k h)) ->
  keeps (let! h := make_hwnd in with_state (fun st => (tt, set_windows (windows st ++ [(h, f h)]) st)) ;;; k h).
Proof.
  intros Hk s. set (h := Z.lor (wrap 32 (1 + drawn s)) 0x200000000).
  set (s1 := mkUser (set_windows (windows (state s) ++ [(h, f h)]) (state s)) (drawn s + 1) (display s) (memory s)).
  rewrite (mbind_ok make_hwnd _ s h (mkUser (state s) (drawn s + 1) (display s) (memory s))) by done.
  rewrite (mbind_ok _ _ _ tt s1) by done. apply (grows_trans _ s1); [|apply Hk]. split; [cbn; lia|]. cbn. intros H0 Hb [H1 H2].
  assert (Hh : h = Z.lor (1 + drawn s) 0x200000000) by (unfold h; rewrite wrap_small by lia; done).
  assert (Hs : handles (state s1) = handles (state s) ++ [h]) by (unfold handles, s1; cbn; by rewrite map_app).
  split; rewrite Hs.
  - apply list.NoDup_app. split_and!; [done| |apply NoDup_singleton]. intros x Hx Hx'. apply list_elem_of_singleton in Hx' as ->.
    apply list_elem_of_In in Hx. destruct (H2 h Hx) as (i & Hi & Heq). rewrite Hh, !id_handle in Heq by lia. lia.
  - intros x [Hx|[<- |[]]]%in_app_iff.
    + destruct (H2 x Hx) as (i & Hi & ->). exists i. cbn. split; [lia|done].
    + exists (1 + drawn s). cbn. split; [lia|exact Hh].
Qed.

Lemma keeps_put_title b max us : forall i, keeps (put_title (W := W) (D := D) (E := E) b max i us).
Proof. induction us as [|u us IH]; intros i; cbn [put_title]; keeps. Qed.

Hint Resolve keeps_put_title : keeps.

Variable wndproc : Z -> Z -> Z -> Z -> Z -> U Z.
Hypothesis keeps_procedure : forall proc h msg w l, keeps (wndproc proc h msg w l).

Lemma keeps_send h m w l : keeps (send_message_internal wndproc h m w l).
Proof. unfold send_message_internal. keeps. Qed.

Hint Resolve keeps_send : keeps.

Lemma keeps_create ex cn wn st x y width height parent menu inst par :
  keeps (create_window_ex_w wndproc ex cn wn st x y width height parent menu inst par).
Proof.
  unfold create_window_ex_w. apply keeps_bind; [apply keeps_read_string|intros cname].
  apply keeps_bind; [apply keeps_find_class|intros [a|]; [|apply keeps_ret]].
  apply keeps_bind; [by apply keeps_with_state|intros [[proc w] h]]. apply keeps_bind; [apply keeps_on_display|intros hw].
  apply keeps_push. intros hwnd. keeps.
Qed.

Lemma keeps_call c : keeps (run_call wndproc c).
Proof.
  destruct c; cbn [run_call]; try apply keeps_create;
    unfold register_class_ex_w, unregister_class_w, show_window, update_window, get_client_rect, set_window_pos, get_window_text_w,
      set_window_text_w, get_message_w, peek_message_w, dispatch_message_w, post_message_w, send_message_w, def_window_proc_w,
      invalidate_rect, get_window_placement, get_dlg_item_int, get_monitor_info_w, read_class; keeps.
  - by destruct (remove_first _ _) as [[]|].
  - destruct (find_window h st); [apply handles_update|done].
  - apply keeps_change.
Qed.
End AnyCall.

Section AnyGuest.
Context `{HW : Host W} `{HL : !HostLaws W} `{HD : Display D} {E : Type}.
Local Abbreviation U := (M (User W D) E).
Variable procs : Z -> Z -> Z -> Z -> Z -> guest W.

Lemma keeps_guest fuel : forall g, keeps (run_guest (D := D) (E := E) procs fuel g).
Proof.
  induction fuel as [|fuel IH]; intros g; [apply keeps_nofuel|]. destruct g as [r|c k|f k]; cbn [run_guest]; [apply keeps_ret|..].
  - apply keeps_bind; [|done]. apply keeps_call. intros. apply IH.
  - apply keeps_bind; [apply keeps_on_mem|done].
Qed.

(** Handles of live windows are distinct under any guest: whatever calls the guest
    makes, whatever its procedures do inside those calls, and however the run ends,
    the windows of the thread have pairwise distinct handles, each made from an id
    drawn so far, as long as the 32-bit counter that classes and windows share has
    not come round. *)
Theorem window_handles_distinct fuel g (s : User W D) :
  let s' := snd (run_guest (D := D) (E := E) procs fuel g s) in
  handles_ok s -> 0 <= drawn s -> drawn s' < 2 ^ 32 -> handles_ok s' /\ drawn s <= drawn s'.
Proof. intros s' Hok H0 Hb. destruct (keeps_guest fuel g s) as [Hd Hk]. split; [by apply Hk|exact Hd]. Qed.
End AnyGuest.

(** ** The message loop ends *)

Section Ending.
Context `{HW : Host W} `{HL : !HostLaws W} `{HD : Display D} {E : Type}.
Local Abbreviation U := (M (User W D) E).

(** A message that leads to a quit: a destroyed window, a live window asked to
    close, or the quit itself. *)
Definition closing (st : State) (m : Msg) : Prop :=
  message m = WM_QUIT \/ message m = WM_DESTROY \/ message m = WM_CLOSE /\ In (hwnd m) (handles st).

Definition ending (st : State) : Prop := is_Some (quit_code st) \/ Exists (closing st) (queue st).

(** Every dispatched message takes one from the queue or a window from the list. *)
Definition work (st : State) : nat := length (queue st) + length (windows st).

Lemma closing_handles st st' m : (forall h, In h (handles st) -> In h (handles st')) -> closing st m -> closing st' m.
Proof. intros H [?|[?|[? ?]]]; [by left|by right; left|right; right; auto]. Qed.

Lemma destroy_eq (s : User W D) h :
  (In h (handles (state s)) /\ exists ws d, length (windows (state s)) = S (length ws) /\
    (forall h', h' <> h -> In h' (handles (state s)) -> In h' (map fst ws)) /\
    destroy_window (E := E) h s = (Ok 1, mkUser (mkState (classes (state s)) ws (queue (state s) ++ [mkMsg h WM_DESTROY 0 0 0 0 0])
      (quit_code (state s))) (drawn s) d (memory s))) \/
  (~ In h (handles (state s)) /\ destroy_window (E := E) h s = (Ok 0, s)).
Proof.
  unfold destroy_window. pose proof (remove_first_handles h (windows (state s))) as Hr. unfold handles in *.
  destruct (remove_first _ (windows (state s))) as [[[h' w] ws]|] eqn:Er.
  - left. destruct Hr as (_ & _ & l1 & l2 & E1 & E2). split; [rewrite E1; apply in_elt|].
    exists ws, (match window w with Some hw => close_window hw (display s) | None => display s end). split_and!.
    + rewrite <- !(length_map (A := Z * WindowEntry) fst), E1, E2, !length_app. cbn. lia.
    + intros x Hx. rewrite E1, E2, !in_app_iff. cbn. intuition congruence.
    + rewrite (mbind_ok _ _ s (Some w) (with_st s (set_windows ws (state s)))) by (unfold with_state; by rewrite Er). by destruct (window w).
  - right. split; [done|]. rewrite (mbind_ok _ _ s None s) by (unfold with_state; rewrite Er; by destruct s). done.
Qed.

(** Default handling of a message just fetched goes on towards the end. *)
Lemma default_step (s : User W D) m : unit_range 8 (hwnd m) -> message m <> WM_QUIT -> Forall msg_ok (queue (state s)) ->
  is_Some (quit_code (state s)) \/ Exists (closing (state s)) (m :: queue (state s)) ->
  exists s', def_window_proc_w_impl (E := E) (hwnd m) (message m) (w_param m) (l_param m) s = (Ok 0, s') /\ memory s' = memory s /\
    Forall msg_ok (queue (state s')) /\ (work (state s') <= work (state s))%nat /\ ending (state s').
Proof.
  intros Hh Hq Hms He. unfold def_window_proc_w_impl. destruct (Z.eqb_spec (message m) WM_DESTROY) as [Hd|Hd].
  { eexists. split; [reflexivity|]. split_and!; [done|done|unfold work; cbn; lia|left; by eexists]. }
  destruct (Z.eqb_spec (message m) WM_CLOSE) as [Hc|Hc].
  - destruct (destroy_eq s (hwnd m)) as [(Hin & ws & d & Hl & Hk & Heq)|[Hn Heq]]; rewrite (mbind_ok _ _ _ _ _ Heq).
    + eexists. split; [reflexivity|]. split_and!; [done|apply Forall_app; split; [done|by apply Forall_singleton]| |].
      * unfold work. cbn. rewrite length_app, Hl. cbn. lia.
      * right. cbn. apply Exists_app. right. apply Exists_cons. left. by right; left.
    + exists s. split_and!; [done|done|done|done|]. destruct He as [He|[[?|[?|[_ ?]]]|He]%Exists_cons]; [by left|done..|by right].
  - assert (Hrest : is_Some (quit_code (state s)) \/ Exists (closing (state s)) (queue (state s))).
    { destruct He as [He|[[?|[?|[? _]]]|He]%Exists_cons]; [by left|done..|by right]. }
    destruct (message m =? WM_PAINT); [|by exists s]. eexists. split; [reflexivity|]. split_and!; [done|done| |].
    + unfold work. cbn. by rewrite <- (length_map fst (update_window_entry _ _ _)), update_handles, length_map.
    + destruct Hrest as [?|Hx]; [by left|]. right. cbn. revert Hx. apply Exists_impl. intros m'.
      apply closing_handles. intros h'. unfold handles. cbn. by rewrite update_handles.
Qed.
End Ending.

Section Loop.
Context `{HW : Host W} `{HL : !HostLaws W} `{HD : Display D} {E : Type}.
Local Abbreviation U := (M (User W D) E).

(** The loop of a guest: at most [n] messages, the answer of the last fetch. *)
Fixpoint message_loop (p : Z) (n : nat) : guest W :=
  match n with
  | O => GRet 1
  | S n => GCall (GetMessageW p) (fun r => if r =? 0 then GRet 0 else GCall (DispatchMessageW p) (fun _ => message_loop p n))
  end.

(** The guest's procedures leave every message to the default handling. *)
Variable procs : Z -> Z -> Z -> Z -> Z -> guest W.
Hypothesis procs_default : forall proc h msg w l, procs proc h msg w l = GCall (DefWindowProcW h msg w l) GRet.

Lemma dispatch_default (s : User W D) p m f : 0 < p -> read_msg (E := E) p s = (Ok m, s) ->
  forall r s', def_window_proc_w_impl (E := E) (hwnd m) (message m) (w_param m) (l_param m) s = (Ok r, s') ->
  dispatch_message_w (E := E) (fun proc h msg w l => run_guest procs (S (S f)) (procs proc h msg w l)) p s = (Ok r, s').
Proof.
  intros Hp Hr r s' Hd. unfold dispatch_message_w. rewrite (proj2 (Z.eqb_neq p 0)) by lia. rewrite (mbind_ok _ _ _ _ _ Hr).
  rewrite (mbind_ok _ _ s (match find_window (hwnd m) (state s) with Some w => wnd_proc w | None => 0 end) s) by (by destruct s).
  destruct (negb _); [|exact Hd]. rewrite procs_default. cbn [run_guest run_call]. unfold def_window_proc_w. by rewrite (mbind_ok _ _ _ _ _ Hd).
Qed.

(** C28. A message loop ends. Whatever waits in the queue, once a quit is posted, or
    one of the waiting messages destroys a window or asks a live window to close, a
    guest that fetches and dispatches, and whose procedures leave the rest to the
    default handling, gets the zero of [WM_QUIT] after at most one turn for each
    waiting message and each window, and its message buffer then holds [WM_QUIT]. *)
Theorem message_loop_ends p n : forall fuel (s : User W D), msg_buffer (memory s) p -> Forall msg_ok (queue (state s)) ->
  ending (state s) -> (work (state s) < n)%nat -> (2 * n + 2 <= fuel)%nat ->
  exists s' m, run_guest (E := E) procs fuel (message_loop p n) s = (Ok 0, s') /\ message m = WM_QUIT /\
    has_fields (memory s') p (msg_fields m).
Proof.
  induction n as [|n IH]; intros fuel s Hp Hms He Hn Hf; [lia|]. destruct fuel as [|[|[|[|f]]]]; try lia.
  cbn [message_loop]. remember (S (S f)) as f2. cbn [run_guest run_call].
  destruct (queue (state s)) as [|m q] eqn:Hq.
  - destruct He as [[code Hc]|He]; [|rewrite Hq in He; inversion He].
    rewrite (mbind_ok _ _ _ _ _ (get_quit s p 0 0 0 code Hp Hq Hc)). eexists _, (quit_message code). split; [reflexivity|].
    split; [done|]. by apply put_msg_fields; [apply quit_message_ok|].
  - inversion_clear Hms as [|? ? Hm Hms']. rewrite (mbind_ok _ _ _ _ _ (get_queued s p 0 0 0 m q Hp Hm Hq)).
    set (s1 := fetched p m q s). destruct (Z.eqb_spec (message m) WM_QUIT) as [Hquit|Hquit].
    + eexists s1, m. split; [done|]. split; [done|]. by apply put_msg_fields.
    + cbn [Z.eqb run_call].
      destruct (default_step (E := E) s1 m) as (s2 & Hd & Hm2 & Hms2 & Hw2 & He2); [by destruct Hm|done|done| |].
      { destruct He as [?|He]; [by left|]. right. by rewrite Hq in He. }
      rewrite Heqf2. rewrite (mbind_ok _ _ s1 0 s2).
      * apply IH; [rewrite Hm2; by apply put_msg_buffer|done|done| |lia]. revert Hn Hw2. unfold work, s1. rewrite Hq. cbn. lia.
      * apply (dispatch_default s1 p m f); [by destruct Hp| |exact Hd]. apply read_msg_fields; [done|by apply put_msg_fields].
Qed.
End Loop.

(** ** Concrete runs *)

Section Witnesses.
#[local] Instance no_display : Display unit := {
  open_window _ _ _ d := (None, d);
  poll_window _ d := (None, d);
  close_window _ d := d
}.

Definition user_world : SmallHost.World :=
  put 2 4672 (encode_utf16 (chars_of "w") ++ [0]) (snd (sys_mmap 0 1024 false SmallHost.empty)).

Definition user_class : ClassEntry :=
  mkClassEntry 0x8001 (mkClass 80 0 1280 0 0 0 0 0 0 0 4672 0) (chars_of "w").

Definition user_window : Z * WindowEntry := (0x200000002, mkWindow None 0x8001 1280 (chars_of "w") 640 480 true false).

Definition user_start (q : list Msg) : User SmallHost.World unit :=
  mkUser (mkState [user_class] [user_window] q None) 2 tt user_world.

Definition user_procs (proc h msg w l : Z) : guest SmallHost.World := GCall (DefWindowProcW h msg w l) GRet.

Lemma user_buffer : msg_buffer user_world 4096.
Proof. split_and!; [done|apply may_all_readable; vm_compute; reflexivity|apply may_all_writable; vm_compute; reflexivity]. Defined.

Lemma posted_messages_fetched_witness :
  exists w, (m_iter (fun m => post m ;;; mret tt) [mkMsg 5 0x400 6 (-7) 0 0 0; mkMsg 0 WM_QUIT 0 0 0 0 0] ;;;
      m_list (fun _ => next_message 4096) [mkMsg 1 WM_CLOSE 2 3 4 (-5) 6; mkMsg 5 0x400 6 (-7) 0 0 0; mkMsg 0 WM_QUIT 0 0 0 0 0])
      (user_start [mkMsg 1 WM_CLOSE 2 3 4 (-5) 6])
    = (Ok (E := Empty_set) [(1, mkMsg 1 WM_CLOSE 2 3 4 (-5) 6); (1, mkMsg 5 0x400 6 (-7) 0 0 0); (0, mkMsg 0 WM_QUIT 0 0 0 0 0)],
       mkUser (state (user_start [])) 2 tt w).
Proof.
  destruct (posted_messages_fetched (E := Empty_set) (user_start [mkMsg 1 WM_CLOSE 2 3 4 (-5) 6]) 4096
    [mkMsg 5 0x400 6 (-7) 0 0 0; mkMsg 0 WM_QUIT 0 0 0 0 0]) as (w & Hw & _).
  - exact user_buffer.
  - repeat constructor; vm_compute; congruence.
  - repeat constructor; vm_compute; congruence.
  - repeat constructor; vm_compute; congruence.
  - exists w. exact Hw.
Defined.

Lemma peek_never_quits_witness :
  exists s1, post_quit_message (E := Empty_set) 3 (user_start []) = (Ok tt, s1) /\
    m_list (fun _ => peek_message_w (E := Empty_set) 4096 0 0 0 0) (replicate 2 tt) s1 = (Ok [0; 0], s1).
Proof.
  destruct (peek_never_quits (E := Empty_set) (user_start []) 4096 3 user_buffer eq_refl) as (s1 & H1 & _ & H3).
  exists s1. split; [exact H1|]. apply (H3 ltac:(injection H1 as <-; reflexivity) 2%nat).
Defined.

Lemma destroy_bypasses_procedure_witness :
  exists s1 s2 s3, destroy_window (E := Empty_set) 0x200000002 (user_start []) = (Ok 1, s1) /\
    get_message_w (E := Empty_set) 4096 0 0 0 s1 = (Ok 1, s2) /\
    dispatch_message_w (fun _ _ _ _ _ => mnofuel (E := Empty_set)) 4096 s2 = (Ok 0, s3) /\ quit_code (state s3) = Some 0.
Proof.
  destruct (destroy_bypasses_procedure (E := Empty_set) (user_start []) 0x200000002 (snd user_window) 4096
    (fun _ _ _ _ _ => mnofuel (E := Empty_set))) as (s1 & s2 & H1 & H2 & s3 & H3 & H4 & _).
  - repeat constructor. apply list.not_elem_of_nil.
  - vm_compute. split; congruence.
  - reflexivity.
  - reflexivity.
  - exact user_buffer.
  - by exists s1, s2, s3.
Defined.

(** Two more windows, each created through its procedure. *)
Definition user_guest : guest SmallHost.World :=
  GCall (CreateWindowExW 4672 0 0) (fun _ => GCall (CreateWindowExW 4672 640 480) GRet).

Lemma window_handles_distinct_witness :
  let s' := snd (run_guest (E := Empty_set) user_procs 20 user_guest (user_start [])) in
  handles_ok s' /\ 2 <= drawn s' /\ handles (state s') = [0x200000002; 0x200000003; 0x200000004].
Proof.
  cbv zeta. destruct (window_handles_distinct (E := Empty_set) user_procs 20 user_guest (user_start [])) as [H1 H2].
  - split; [repeat constructor; apply list.not_elem_of_nil|]. intros h [<- |[]]. exists 2. by split.
  - done.
  - vm_compute. reflexivity.
  - split; [exact H1|]. split; [exact H2|]. vm_compute. reflexivity.
Defined.

Lemma message_loop_ends_witness :
  exists s' m, run_guest (E := Empty_set) user_procs 10 (message_loop 4096 4)
      (user_start [mkMsg 0x200000002 WM_PAINT 0 0 0 0 0; mkMsg 0x200000002 WM_CLOSE 0 0 0 0 0]) = (Ok 0, s') /\
    message m = WM_QUIT /\ has_fields (memory s') 4096 (msg_fields m).
Proof.
  apply (message_loop_ends (E := Empty_set) user_procs ltac:(reflexivity) 4096 4 10).
  - exact user_buffer.
  - repeat constructor; vm_compute; congruence.
  - right. apply Exists_cons. right. apply Exists_cons. left. right. right. split; [reflexivity|]. left. reflexivity.
  - vm_compute. lia.
  - lia.
Defined.
End Witnesses.
