(* ===== verification/PeThunk.v ===== *)
(** * Calling-convention thunks ([crates/pe-loader/src/thunk.rs])

    The arena of trampolines and the machine code it emits. [PeThunkCall.v] runs
    the code on a model of the processor. *)
From Stdlib Require Import ZArith Lia.
From stdpp Require Import base list option.
From S2P Require Import Prelude PeHost GuestMem.
Local Open Scope rust_scope.
Local Open Scope Z_scope.
Set Warnings "-register-all".

(** ** The code of a trampoline *)

(** [saturating_sub(6)] stack arguments, and the frame that holds them. *)
Definition stack_args (n_args : Z) : Z := sat_sub n_args 6.
Definition frame_size (n_args : Z) : Z :=
  let s := stack_args n_args in 8 * s + (if s mod 2 =? 0 then 8 else 0).

Definition imm32 (v : Z) : list Z := le_bytes 4 (wrap 32 v).

Definition shuffle : list Z :=
  [0x48; 0x89; 0xCF] ++ [0x48; 0x89; 0xD6] ++ [0x4C; 0x89; 0xC2] ++ [0x4C; 0x89; 0xC9].

(** One stack argument, from the caller's slot to the callee's. *)
Definition copy_stack_arg (frame i : Z) : list Z :=
  let src_disp := 0x48 + frame + 8 * i in
  let dst_disp := 8 * i in
  [0x48; 0x8B; 0x84; 0x24] ++ imm32 src_disp ++ [0x48; 0x89; 0x84; 0x24] ++ imm32 dst_disp.

Definition emit_returning (target n_args : Z) : list Z :=
  let s := stack_args n_args in
  let frame := frame_size n_args in
  [0x57] ++ [0x56] ++
  (if 0 <? frame then [0x48; 0x81; 0xEC] ++ imm32 frame else []) ++
  shuffle ++
  (if 5 <=? n_args then [0x4C; 0x8B; 0x84; 0x24] ++ imm32 (0x38 + frame) else []) ++
  (if 6 <=? n_args then [0x4C; 0x8B; 0x8C; 0x24] ++ imm32 (0x40 + frame) else []) ++
  concat (map (copy_stack_arg frame) (seqZ 0 s)) ++
  [0x48; 0xB8] ++ le_bytes 8 target ++ [0xFF; 0xD0] ++
  (if 0 <? frame then [0x48; 0x81; 0xC4] ++ imm32 frame else []) ++
  [0x5E] ++ [0x5F] ++ [0xC3].

Definition emit_noreturn (target n_args : Z) : list Z :=
  shuffle ++
  (if 5 <=? n_args then [0x4C; 0x8B; 0x84; 0x24] ++ le_bytes 4 0x28 else []) ++
  (if 6 <=? n_args then [0x4C; 0x8B; 0x8C; 0x24] ++ le_bytes 4 0x30 else []) ++
  [0x48; 0xB8] ++ le_bytes 8 target ++ [0xFF; 0xE0].

(** ** The arena *)

Inductive ThunkError : Type :=
  | TooManyArgs (n : Z)
  | AllocFailed (size : Z)
  | ExecFailed (size : Z).

Record ThunkArena : Type := mkArena {
  base : Z;
  len : Z;
  cursor : Z;
  sealed : bool;
  retired : list (Z * Z)
}.

Section Arena.
Context `{HW : Host W}.

(** Methods on the arena: its fields and the memory are the state. *)
Local Abbreviation T := (M (ThunkArena * W) ThunkError).

Definition on_memory {A} (m : M W ThunkError A) : T A := fun '(ar, w) =>
  let '(r, w) := m w in (r, (ar, w)).

Definition get_arena : T ThunkArena := fun s => (Ok (fst s), s).
Definition set_arena (ar : ThunkArena) : T unit := fun s => (Ok tt, (ar, snd s)).

(** Anonymous pages where the kernel likes. *)
Definition map_pages (size : Z) : M W ThunkError Z := fun w =>
  match sys_mmap 0 size false w with
  | (Some b, w) => (Ok b, w)
  | (None, w) => (Err (AllocFailed size), w)
  end.

Definition with_capacity (capacity : Z) : M W ThunkError ThunkArena :=
  let page := page_size in
  let len := round_up (Z.max capacity page) page in
  let! base := map_pages len in
  mret (mkArena base len 0 false []).

Definition arena_new : M W ThunkError ThunkArena := with_capacity 4096.

Definition grow (need : Z) : T unit :=
  let page := page_size in
  let! ar := get_arena in
  let new_len := round_up (Z.max need (wrap 64 (len ar * 2))) page in
  let! new_base := on_memory (map_pages new_len) in
  set_arena (mkArena new_base new_len 0 false (retired ar ++ [(base ar, len ar)])).

Definition alloc (n : Z) : T Z :=
  let! ar := get_arena in
  if sealed ar then mfail (AllocFailed n)
  else
    let aligned := round_up (cursor ar) 16 in
    let! aligned :=
      if len ar <? wrap 64 (aligned + n) then
        grow (wrap 64 (aligned + n)) ;;;
        let! ar := get_arena in
        mret (round_up (cursor ar) 16)
      else mret aligned in
    let! ar := get_arena in
    set_arena (mkArena (base ar) (len ar) (wrap 64 (aligned + n)) (sealed ar) (retired ar)) ;;;
    mret aligned.

(** Code is copied to the reserved span. *)
Definition place (code : list Z) : T Z :=
  let! off := alloc (Z.of_nat (length code)) in
  let! ar := get_arena in
  on_memory (store (base ar + off) code) ;;;
  mret (base ar + off).

Definition make_thunk (target n_args : Z) : T Z :=
  if 32 <? n_args then mfail (TooManyArgs n_args) else place (emit_returning target n_args).

Definition make_thunk_noreturn (target n_args : Z) : T Z :=
  if 6 <? n_args then mfail (TooManyArgs n_args) else place (emit_noreturn target n_args).

Definition prot_rx : Z := Z.lor PROT_READ PROT_EXEC.

Fixpoint seal_blocks (bs : list (Z * Z)) : M W ThunkError unit :=
  match bs with
  | [] => mret tt
  | (b, l) :: bs =>
      let! rc := mprotect b l prot_rx in
      if negb (rc =? 0) then mfail (ExecFailed l) else seal_blocks bs
  end.

Definition blocks (ar : ThunkArena) : list (Z * Z) := retired ar ++ [(base ar, len ar)].

Definition finalize : T unit :=
  let! ar := get_arena in
  if sealed ar then mret tt
  else
    on_memory (seal_blocks (blocks ar)) ;;;
    set_arena (mkArena (base ar) (len ar) (cursor ar) true (retired ar)).

(** [Drop]: every block is unmapped. *)
Fixpoint unmap_blocks (bs : list (Z * Z)) : M W ThunkError unit :=
  match bs with
  | [] => mret tt
  | (b, l) :: bs => (if b =? 0 then mret tt else munmap b l) ;;; unmap_blocks bs
  end.

Definition arena_drop (ar : ThunkArena) : M W ThunkError unit := unmap_blocks (blocks ar).
End Arena.

(** ** What the arena keeps *)

(** A request for a trampoline, and the code it is for. *)
Inductive request : Type :=
  | Returning (target n_args : Z)
  | NoReturn (target n_args : Z).

Definition request_code (r : request) : list Z :=
  match r with Returning t n => emit_returning t n | NoReturn t n => emit_noreturn t n end.

Definition request_valid (r : request) : Prop :=
  match r with Returning _ n => 0 <= n <= 32 | NoReturn _ n => 0 <= n <= 6 end.

Lemma emit_returning_length t n : 0 <= n <= 32 -> (length (emit_returning t n) <= 1000)%nat.
Proof.
  intros Hn. unfold emit_returning, shuffle.
  assert (Hc : forall f l, length (concat (map (copy_stack_arg f) l)) = (16 * length l)%nat).
  { intros f l. induction l as [|i l IH]; [done|]. cbn [map concat length]. rewrite length_app, IH.
    unfold copy_stack_arg, imm32. rewrite !length_app, !le_bytes_length. cbn [length]. lia. }
  rewrite !length_app, Hc, length_seqZ. unfold stack_args, sat_sub, imm32.
  destruct (0 <? _), (5 <=? n), (6 <=? n); rewrite ?length_app, ?le_bytes_length; cbn [length]; lia.
Qed.

Lemma request_length r : request_valid r -> (length (request_code r) <= 1000)%nat.
Proof.
  destruct r as [t n|t n]; cbn; intros Hn; [by apply emit_returning_length|].
  unfold emit_noreturn, shuffle. rewrite !length_app.
  destruct (5 <=? n), (6 <=? n); rewrite ?length_app, ?le_bytes_length; cbn [length]; lia.
Qed.

Lemma emit_bytes r : Forall is_byte (request_code r).
Proof.
  assert (Hi : forall v, Forall is_byte (imm32 v)) by (intros; apply le_bytes_range).
  assert (Hc : forall f l, Forall is_byte (concat (map (copy_stack_arg f) l))).
  { intros f l. induction l; cbn [map concat]; [constructor|]. apply Forall_app. split; [|done].
    unfold copy_stack_arg. repeat (apply Forall_app; split); auto; repeat constructor; unfold is_byte; lia. }
  destruct r as [t n|t n]; cbn [request_code]; [unfold emit_returning|unfold emit_noreturn]; unfold shuffle;
    repeat (apply Forall_app; split); auto using le_bytes_range; try case_match;
    repeat (apply Forall_app; split); auto using le_bytes_range; repeat constructor; unfold is_byte; lia.
Qed.

Section Keeps.
Context `{HW : Host W} `{HL : !HostLaws W}.

Definition make (r : request) : M (ThunkArena * W) ThunkError Z :=
  match r with Returning t n => make_thunk t n | NoReturn t n => make_thunk_noreturn t n end.

(** An address of a block. *)
Definition covered (bs : list (Z * Z)) (x : Z) : Prop := exists b l, (b, l) ∈ bs /\ b <= x < b + l.

(** A trampoline inside a block, with its code. *)
Definition placed (bs : list (Z * Z)) (w : W) (p : Z) (code : list Z) : Prop :=
  (exists b l, (b, l) ∈ bs /\ b <= p /\ p + Z.of_nat (length code) <= b + l) /\
  get_bytes w p (Z.of_nat (length code)) = code.

Record block_ok (w : W) (bl : Z * Z) : Prop := {
  bo_range : 0 < fst bl /\ 0 < snd bl /\ fst bl + snd bl <= 2 ^ 63;
  bo_aligned : fst bl mod page_size = 0 /\ snd bl mod page_size = 0;
  bo_rw : forall x, fst bl <= x < fst bl + snd bl -> prot_at w x = Some prot_rw
}.

(** The invariant of an open arena that started in memory [w0] and has handed out
    [issued]: blocks of its own, trampolines in them, nothing else touched. *)
Record arena_inv (w0 : W) (issued : list (Z * list Z)) (ar : ThunkArena) (w : W) : Prop := {
  ai_open : sealed ar = false;
  ai_blocks : Forall (block_ok w) (blocks ar);
  ai_cursor : 0 <= cursor ar <= len ar;
  ai_live : forall b l, (b, l) ∈ retired ar -> apart b l (base ar) (len ar);
  ai_issued : forall p code, (p, code) ∈ issued -> placed (blocks ar) w p code;
  ai_below : forall p code, (p, code) ∈ issued -> apart p (Z.of_nat (length code)) (base ar + cursor ar) (len ar - cursor ar);
  ai_foreign : forall x, prot_at w0 x <> None ->
    ~ covered (blocks ar) x /\ prot_at w x = prot_at w0 x /\ byte_at w x = byte_at w0 x
}.

Lemma page_block n : 0 <= n -> n + page_size - 1 < 2 ^ 64 ->
  round_up n page_size mod page_size = 0 /\ n <= round_up n page_size < n + page_size.
Proof.
  intros H1 H2. rewrite page_size_shift in *. apply round_up_spec; [apply page_shift_range|done|done].
Qed.

Lemma page_bounds : 0 < page_size <= 2 ^ 30.
Proof.
  pose proof page_pos. rewrite page_size_shift in *. pose proof page_shift_range.
  split; [done|]. apply Z.pow_le_mono_r; lia.
Qed.

(** A fresh block. *)
Lemma map_pages_ok size w b w' : 0 < size -> size mod page_size = 0 -> map_pages size w = (Ok b, w') ->
  block_ok w' (b, size) /\
  (forall x, b <= x < b + size -> prot_at w x = None) /\
  (forall x, prot_at w x <> None -> prot_at w' x = prot_at w x /\ byte_at w' x = byte_at w x).
Proof.
  intros Hs Ha Hm. unfold map_pages in Hm. destruct (sys_mmap 0 size false w) as [[b'|] w1] eqn:E; [|done].
  simplify_eq. destruct (mmap_ok _ _ _ _ _ _ Hs Ha E) as (H1 & H2 & H3 & H4 & H5 & H6). split_and!.
  - split; cbn; [lia|done|]. intros x Hx. by rewrite H5, (proj2 (in_range_spec _ _ _)).
  - done.
  - intros x Hx. rewrite H5, H6. destruct (in_range b size x) eqn:R; [|done].
    apply in_range_spec in R. by rewrite H4 in Hx.
Qed.

(** In memory [w] the kernel refuses a mapping of [size] bytes, and leaves [w']. *)
Definition refused (size : Z) (w w' : W) : Prop := sys_mmap 0 size false w = (None, w').

(** Over memory that was [w0], an arena that holds what it has issued asks for a
    larger block, no more than twice the old one and a request, and the kernel
    refuses, leaving [w']. *)
Definition no_growth (w0 w' : W) : Prop :=
  exists issued ar size w, arena_inv w0 issued ar w /\ 0 < size <= 2 * len ar + 1016 + page_size /\ refused size w w'.

Lemma map_pages_result size w : exists w', (exists b, map_pages size w = (Ok b, w')) \/
  (map_pages size w = (Err (AllocFailed size), w') /\ (forall x, prot_at w' x = prot_at w x /\ byte_at w' x = byte_at w x) /\
   refused size w w').
Proof.
  unfold map_pages. destruct (sys_mmap 0 size false w) as [[b|] w'] eqn:E; exists w'; [left; by exists b|right].
  split; [done|]. split; [|done]. intros x. by apply (mmap_failed _ _ _ _ _ x E).
Qed.

Definition covered_b (bs : list (Z * Z)) (x : Z) : bool := existsb (fun bl => in_range (fst bl) (snd bl) x) bs.

Lemma covered_b_spec bs x : covered_b bs x = true <-> covered bs x.
Proof.
  unfold covered_b, covered. rewrite existsb_exists. split.
  - intros ([b l] & Hin & Hr). exists b, l. split; [by apply list_elem_of_In|by apply in_range_spec].
  - intros (b & l & Hin & Hr). exists (b, l). split; [by apply list_elem_of_In|by apply in_range_spec].
Qed.

Lemma covered_app bs1 bs2 x : covered (bs1 ++ bs2) x <-> covered bs1 x \/ covered bs2 x.
Proof.
  unfold covered. split.
  - intros (b & l & Hin & Hx). apply elem_of_app in Hin as [Hin|Hin]; [left|right]; by exists b, l.
  - intros [(b & l & Hin & Hx)|(b & l & Hin & Hx)]; exists b, l; rewrite elem_of_app; auto.
Qed.

Lemma covered_prot w bs x : Forall (block_ok w) bs -> covered bs x -> prot_at w x = Some prot_rw.
Proof.
  intros Hb (b & l & Hin & Hx). rewrite list.Forall_forall in Hb. by apply (bo_rw _ _ (Hb _ Hin)).
Qed.

(** Memory that keeps what is mapped keeps blocks and trampolines. *)
Lemma block_ok_keep w w' bl :
  (forall x, prot_at w x <> None -> prot_at w' x = prot_at w x) -> block_ok w bl -> block_ok w' bl.
Proof. intros He [H1 H2 H3]. split; [done..|]. intros x Hx. rewrite He by (by rewrite H3). by apply H3. Qed.

Lemma placed_keep bs bs' w w' p code :
  (forall bl, bl ∈ bs -> bl ∈ bs') ->
  (forall x, p <= x < p + Z.of_nat (length code) -> byte_at w' x = byte_at w x) ->
  placed bs w p code -> placed bs' w' p code.
Proof.
  intros Hbs He ((b & l & Hin & Hr) & Hb). split; [exists b, l; auto|]. rewrite <- Hb at 2. apply get_bytes_ext. auto.
Qed.

Lemma placed_covered bs w p code x : placed bs w p code -> p <= x < p + Z.of_nat (length code) -> covered bs x.
Proof. intros ((b & l & Hin & Hr) & _) Hx. exists b, l. split; [done|lia]. Qed.

Lemma live_block ar : (base ar, len ar) ∈ blocks ar.
Proof. unfold blocks. apply elem_of_app. right. by apply list_elem_of_singleton. Qed.

Lemma live_bounds w0 issued ar w : arena_inv w0 issued ar w -> 0 < base ar /\ 0 < len ar /\ base ar + len ar <= 2 ^ 63.
Proof. intros H. pose proof (ai_blocks _ _ _ _ H) as Hb. rewrite list.Forall_forall in Hb. exact (bo_range _ _ (Hb _ (live_block ar))). Qed.

Lemma inv_keep w0 issued ar w w' :
  (forall x, prot_at w x <> None -> prot_at w' x = prot_at w x /\ byte_at w' x = byte_at w x) ->
  arena_inv w0 issued ar w -> arena_inv w0 issued ar w'.
Proof.
  intros He [H1 H2 H3 H4 H5 H6 H7]. split; try done.
  - eapply list.Forall_impl; [exact H2|]. intros bl. apply block_ok_keep. intros x Hx. by apply He.
  - intros p code Hin. eapply placed_keep; [done| |by apply H5]. intros x Hx. apply He.
    rewrite (covered_prot _ _ _ H2 (placed_covered _ _ _ _ _ (H5 _ _ Hin) Hx)). done.
  - intros x Hx. destruct (H7 x Hx) as (K1 & K2 & K3). rewrite <- K2 in Hx. destruct (He x Hx) as [-> ->].
    split_and!; done.
Qed.

Lemma with_capacity_inv capacity w : 0 <= capacity < 2 ^ 63 ->
  exists w', (exists ar, with_capacity capacity w = (Ok ar, w') /\ arena_inv w [] ar w') \/
    with_capacity capacity w = (Err (AllocFailed (round_up (Z.max capacity page_size) page_size)), w') /\
    refused (round_up (Z.max capacity page_size) page_size) w w'.
Proof.
  intros Hc. pose proof page_bounds as Hp. set (size := round_up (Z.max capacity page_size) page_size).
  destruct (page_block (Z.max capacity page_size)) as [Ha Hs]; [lia..|]. fold size in Ha, Hs.
  destruct (map_pages_result size w) as (w' & [[b Hm]|(Hm & _ & Hno)]); exists w'.
  - left. exists (mkArena b size 0 false []). unfold with_capacity. fold size. rewrite (mbind_ok _ _ _ _ _ Hm).
    split; [done|]. destruct (map_pages_ok size w b w' ltac:(lia) Ha Hm) as (H1 & H2 & H3). split; cbn; try done.
    + by apply list.Forall_singleton.
    + lia.
    + intros ? ? Hin. by apply elem_of_nil in Hin.
    + intros ? ? Hin. by apply elem_of_nil in Hin.
    + intros ? ? Hin. by apply elem_of_nil in Hin.
    + intros x Hx. split; [|by apply H3]. intros (b' & l & Hin & Hr). apply list_elem_of_singleton in Hin. simplify_eq.
      by rewrite H2 in Hx.
  - right. split; [|done]. unfold with_capacity. fold size. unfold mbind. by rewrite Hm.
Qed.

Lemma grow_inv w0 issued ar w need : arena_inv w0 issued ar w -> 0 < need <= len ar + 1016 ->
  exists w', (exists ar', grow need (ar, w) = (Ok tt, (ar', w')) /\ arena_inv w0 issued ar' w' /\
      need <= len ar' /\ cursor ar' = 0) \/
    (exists n, grow need (ar, w) = (Err (AllocFailed n), (ar, w')) /\ arena_inv w0 issued ar w' /\ no_growth w0 w').
Proof.
  intros Hi Hn. pose proof page_bounds as Hp. destruct (live_bounds _ _ _ _ Hi) as (Hb & Hl & Hbl).
  pose proof (ai_blocks _ _ _ _ Hi) as Hbs. pose proof Hbs as Hal. rewrite list.Forall_forall in Hal.
  destruct (bo_aligned _ _ (Hal _ (live_block ar))) as [Hab Hpage]. cbn in Hab, Hpage.
  assert (H2l : len ar * 2 + page_size < 2 ^ 64).
  { pose proof (aligned_le (len ar) (2 ^ 63) page_size (proj1 Hp) Hpage) as Hx.
    assert (2 ^ 63 mod page_size = 0).
    { rewrite page_size_shift. pose proof page_shift_range. replace 63 with (63 - page_shift + page_shift) by lia.
      rewrite Z.pow_add_r by lia. apply Z.mod_mul. lia. }
    specialize (Hx H ltac:(lia)). lia. }
  unfold grow. rewrite (mbind_ok _ _ _ ar (ar, w)) by done. rewrite (wrap_small 64 (len ar * 2)) by lia.
  set (size := round_up (Z.max need (len ar * 2)) page_size).
  destruct (page_block (Z.max need (len ar * 2))) as [Ha Hs]; [lia..|]. fold size in Ha, Hs.
  destruct (map_pages_result size w) as (w' & [[b Hm]|(Hm & Hsame & Hno)]); exists w'.
  - left. rewrite (mbind_ok _ _ _ b (ar, w')) by (unfold on_memory; by rewrite Hm).
    set (ar' := mkArena b size 0 false _). exists ar'.
    destruct (map_pages_ok size w b w' ltac:(lia) Ha Hm) as (H1 & H2 & H3).
    assert (Hblocks : blocks ar' = blocks ar ++ [(b, size)]) by done.
    split_and!; [done| |cbn; lia|done]. pose proof (inv_keep _ _ _ _ _ H3 Hi) as [K1 K2 K3 K4 K5 K6 K7]. split.
    + done.
    + rewrite Hblocks. apply Forall_app. split; [done|by apply list.Forall_singleton].
    + cbn. lia.
    + intros b1 l1 Hin. change (retired ar') with (blocks ar) in Hin. cbn [base len ar'].
      destruct (Z.le_gt_cases (b1 + l1) b), (Z.le_gt_cases (b + size) b1); [by left|by left|by right|]. exfalso.
      pose proof (bo_range _ _ (Hal _ Hin)) as Hr. cbn in Hr.
      assert (Hx : b <= Z.max b b1 < b + size) by lia. specialize (H2 _ Hx).
      rewrite (bo_rw _ _ (Hal _ Hin)) in H2; [done|cbn; lia].
    + intros p code Hin. rewrite Hblocks. eapply placed_keep; [|done|by apply K5]. intros bl. rewrite elem_of_app. auto.
    + intros p code Hin. cbn [base cursor len ar']. pose proof (K5 _ _ Hin) as Hpl.
      destruct Hpl as ((b1 & l1 & Hin1 & Hr1) & _).
      destruct (Z.le_gt_cases (b1 + l1) b), (Z.le_gt_cases (b + size) b1); [left; lia|left; lia|right; lia|]. exfalso.
      pose proof (bo_range _ _ (Hal _ Hin1)) as Hr. cbn in Hr.
      assert (Hx : b <= Z.max b b1 < b + size) by lia. specialize (H2 _ Hx).
      rewrite (bo_rw _ _ (Hal _ Hin1)) in H2; [done|cbn; lia].
    + intros x Hx. destruct (K7 x Hx) as (J1 & J2 & J3). split; [|done]. rewrite Hblocks, covered_app. intros [Hc|Hc]; [done|].
      destruct Hc as (b1 & l1 & Hin & Hr). apply list_elem_of_singleton in Hin. simplify_eq.
      destruct (ai_foreign _ _ _ _ Hi x Hx) as (_ & J4 & _). by rewrite <- J4, H2 in Hx.
  - right. exists size. assert (Hi' : arena_inv w0 issued ar w') by (eapply inv_keep; [|exact Hi]; intros x _; apply Hsame).
    split; [unfold on_memory, mbind; by rewrite Hm|]. split; [done|]. exists issued, ar, size, w. split; [done|]. split; [lia|done].
Qed.

(** Reserving a span leaves it between the cursor and the one before. *)
Lemma alloc_inv w0 issued ar w n : arena_inv w0 issued ar w -> 0 < n <= 1000 ->
  exists w', (exists ar' off, alloc n (ar, w) = (Ok off, (ar', w')) /\ arena_inv w0 issued ar' w' /\
      0 <= off /\ cursor ar' = off + n /\
      forall p code, (p, code) ∈ issued -> apart p (Z.of_nat (length code)) (base ar' + off) n) \/
    (exists m, alloc n (ar, w) = (Err (AllocFailed m), (ar, w')) /\ arena_inv w0 issued ar w' /\ no_growth w0 w').
Proof.
  intros Hi Hn. destruct (live_bounds _ _ _ _ Hi) as (Hb & Hl & Hbl). pose proof (ai_cursor _ _ _ _ Hi) as Hc.
  unfold alloc. rewrite (mbind_ok _ _ _ ar (ar, w)) by done. rewrite (ai_open _ _ _ _ Hi).
  destruct (round_up_spec (cursor ar) 4 ltac:(lia) ltac:(lia) ltac:(lia)) as [_ Hr]. change (2 ^ 4) with 16 in Hr.
  set (aligned := round_up (cursor ar) 16) in *. rewrite (wrap_small 64 (aligned + n)) by lia.
  destruct (Z.ltb_spec (len ar) (aligned + n)) as [Hbig|Hfit].
  - destruct (grow_inv w0 issued ar w (aligned + n) Hi ltac:(lia)) as (w' & [(ar' & Hg & Hi' & Hlen & Hc0)|(m & Hg & Hi')]);
      exists w'.
    + left. exists (mkArena (base ar') (len ar') n false (retired ar')), 0.
      assert (Hin : mbind (grow (aligned + n)) (fun _ => let! ar := get_arena in mret (round_up (cursor ar) 16)) (ar, w)
        = (Ok 0, (ar', w'))) by (rewrite (mbind_ok _ _ _ _ _ Hg); cbn; by rewrite Hc0).
      rewrite (mbind_ok _ _ _ _ _ Hin). rewrite (mbind_ok _ _ _ ar' (ar', w')) by done.
      rewrite (wrap_small 64 (0 + n)), (ai_open _ _ _ _ Hi') by lia. destruct Hi' as [K1 K2 K3 K4 K5 K6 K7].
      split_and!; [done| |lia|done|].
      * split; cbn [sealed base len cursor retired]; try done; [lia|]. intros p code Hp. specialize (K6 p code Hp).
        rewrite Hc0 in K6. unfold apart in *. lia.
      * intros p code Hp. specialize (K6 p code Hp). rewrite Hc0 in K6. cbn [base]. unfold apart in *. lia.
    + right. exists m. split; [|done]. unfold mbind at 1. unfold mbind at 1. by rewrite Hg.
  - exists w. left. exists (mkArena (base ar) (len ar) (aligned + n) false (retired ar)), aligned.
    rewrite (mbind_ok _ _ _ aligned (ar, w)) by done. rewrite (mbind_ok _ _ _ ar (ar, w)) by done.
    rewrite (wrap_small 64 (aligned + n)), (ai_open _ _ _ _ Hi) by lia. destruct Hi as [K1 K2 K3 K4 K5 K6 K7].
    split_and!; [done| |lia|done|].
    + split; cbn [sealed base len cursor retired]; try done; [lia|]. intros p code Hp. specialize (K6 p code Hp).
      unfold apart in *. lia.
    + intros p code Hp. specialize (K6 p code Hp). cbn [base]. unfold apart in *. lia.
Qed.

Lemma make_inv w0 issued ar w r : arena_inv w0 issued ar w -> request_valid r ->
  exists w', (exists ar' p, make r (ar, w) = (Ok p, (ar', w')) /\ arena_inv w0 (issued ++ [(p, request_code r)]) ar' w') \/
    (exists m, make r (ar, w) = (Err (AllocFailed m), (ar, w')) /\ arena_inv w0 issued ar w' /\ no_growth w0 w').
Proof.
  intros Hi Hv. set (code := request_code r).
  assert (Hmake : make r (ar, w) = place code (ar, w)).
  { destruct r as [t n|t n]; cbn in Hv; unfold make, make_thunk, make_thunk_noreturn;
      by rewrite (proj2 (Z.ltb_ge _ _)) by lia. }
  rewrite Hmake. pose proof (request_length r Hv) as Hlen. fold code in Hlen.
  assert (Hpos : (0 < length code)%nat) by (unfold code; destruct r; cbn [request_code];
    [unfold emit_returning|unfold emit_noreturn, shuffle]; rewrite !length_app; cbn [length]; lia).
  unfold place.
  destruct (alloc_inv w0 issued ar w (Z.of_nat (length code)) Hi ltac:(lia)) as
    (w' & [(ar' & off & Ha & Hi' & Hoff & Hcur & Hfree)|(m & Ha & Hi')]).
  2: { exists w'. right. exists m. split; [|done]. unfold mbind. by rewrite Ha. }
  destruct (live_bounds _ _ _ _ Hi') as (Hb & Hl & Hbl). pose proof (ai_cursor _ _ _ _ Hi') as Hc.
  pose proof (ai_blocks _ _ _ _ Hi') as Hbs. pose proof (ai_open _ _ _ _ Hi') as Hopen.
  assert (Hrw : forall x, base ar' <= x < base ar' + len ar' -> prot_at w' x = Some prot_rw).
  { rewrite list.Forall_forall in Hbs. exact (bo_rw _ _ (Hbs _ (live_block ar'))). }
  set (p := base ar' + off) in *. exists (set_bytes p code w'). left. exists ar', p.
  rewrite (mbind_ok _ _ _ _ _ Ha). rewrite (mbind_ok _ _ _ ar' (ar', w')) by done. fold p.
  assert (Hst : on_memory (store p code) (ar', w') = (Ok tt, (ar', set_bytes p code w'))).
  { unfold on_memory. rewrite store_ok; [done|]. intros x Hx. apply Hrw. unfold p in Hx. lia. }
  rewrite (mbind_ok _ _ _ _ _ Hst). split; [done|].
  assert (Hout : forall x, in_range p (Z.of_nat (length code)) x = false -> byte_at (set_bytes p code w') x = byte_at w' x)
    by (intros x Hx; rewrite byte_set_bytes by apply emit_bytes; by rewrite Hx).
  destruct Hi' as [K1 K2 K3 K4 K5 K6 K7]. split; try done.
  - eapply list.Forall_impl; [exact K2|]. intros bl. apply block_ok_keep. intros x _. apply prot_set_bytes.
  - intros q c Hin. apply elem_of_app in Hin as [Hin|Hin].
    + eapply placed_keep; [done| |by apply K5]. intros x Hx. apply Hout, in_range_false.
      specialize (Hfree q c Hin). unfold apart in Hfree. lia.
    + apply list_elem_of_singleton in Hin. simplify_eq. split.
      * exists (base ar'), (len ar'). split; [apply live_block|]. unfold p. lia.
      * apply get_bytes_set_bytes, emit_bytes.
  - intros q c Hin. apply elem_of_app in Hin as [Hin|Hin]; [by apply K6|]. apply list_elem_of_singleton in Hin. simplify_eq.
    unfold apart, p. lia.
  - intros x Hx. destruct (K7 x Hx) as (J1 & J2 & J3). split_and!; [done|by rewrite prot_set_bytes|].
    rewrite Hout; [done|]. apply not_true_is_false. intros Hr. apply in_range_spec in Hr. apply J1.
    exists (base ar'), (len ar'). split; [apply live_block|]. unfold p in Hr. lia.
Qed.

(** Requests in a row. *)
Definition make_all (rs : list request) : M (ThunkArena * W) ThunkError (list Z) := m_list make rs.

Lemma make_all_inv w0 rs : forall issued ar w, arena_inv w0 issued ar w -> Forall request_valid rs ->
  exists ar' w', arena_inv w0 issued ar' w' /\
    ((exists ps, make_all rs (ar, w) = (Ok ps, (ar', w')) /\ length ps = length rs /\
        arena_inv w0 (issued ++ zip ps (map request_code rs)) ar' w') \/
     exists m, make_all rs (ar, w) = (Err (AllocFailed m), (ar', w'))).
Proof.
  induction rs as [|r rs IH]; intros issued ar w Hi Hv.
  { exists ar, w. split; [done|]. left. exists []. cbn. by rewrite app_nil_r. }
  apply Forall_cons_1 in Hv as [Hr Hv]. unfold make_all in *. cbn [m_list].
  destruct (make_inv w0 issued ar w r Hi Hr) as (w1 & [(ar1 & p & Hm & Hi1)|(m & Hm & Hi1 & _)]).
  - rewrite (mbind_ok _ _ _ _ _ Hm). destruct (IH _ _ _ Hi1 Hv) as (ar' & w' & Hi' & [(ps & Hps & Hl & Hall)|(m & Hps)]).
    + exists ar', w'. split.
      * destruct Hall as [K1 K2 K3 K4 K5 K6 K7]. split; try done; intros q c Hin; [apply K5|apply K6];
          rewrite !elem_of_app; auto.
      * left. exists (p :: ps). rewrite (mbind_ok _ _ _ _ _ Hps). split_and!; [done|by simpl; rewrite Hl|].
        cbn [zip_with map]. by rewrite <- app_assoc in Hall.
    + exists ar', w'. split.
      * destruct Hi' as [K1 K2 K3 K4 K5 K6 K7]. split; try done; intros q c Hin; [apply K5|apply K6];
          rewrite !elem_of_app; auto.
      * right. exists m. unfold mbind. by rewrite Hps.
  - exists ar, w1. split; [done|]. right. exists m. unfold mbind. by rewrite Hm.
Qed.
(** Executable bytes at an address. *)
Definition code_at (w : W) (a : Z) (code : list Z) : Prop :=
  (forall x, a <= x < a + Z.of_nat (length code) -> may prot_x w x = true) /\
  get_bytes w a (Z.of_nat (length code)) = code.

(** ** Sealing and dropping *)

Definition page_aligned (bl : Z * Z) : Prop := 0 < fst bl /\ 0 < snd bl /\ fst bl mod page_size = 0 /\ snd bl mod page_size = 0.

Lemma block_aligned w bl : block_ok w bl -> page_aligned bl.
Proof. intros [(H1 & H2 & _) [H3 H4] _]. by split_and!. Qed.

Lemma covered_cons b l bs x : covered ((b, l) :: bs) x <-> in_range b l x = true \/ covered bs x.
Proof.
  change ((b, l) :: bs) with ([(b, l)] ++ bs). rewrite covered_app, in_range_spec. unfold covered at 1. split.
  - intros [(b' & l' & Hin & Hr)|H]; [|by right]. apply list_elem_of_singleton in Hin. simplify_eq. by left.
  - intros [H|H]; [left|by right]. exists b, l. split; [by apply list_elem_of_singleton|done].
Qed.

Lemma seal_blocks_ok bs : Forall page_aligned bs -> forall w, exists r w', seal_blocks bs w = (r, w') /\
  (r = Ok tt \/ exists n, r = Err (ExecFailed n)) /\
  (forall x, byte_at w' x = byte_at w x) /\
  (forall x, ~ covered bs x -> prot_at w' x = prot_at w x) /\
  (r = Ok tt -> forall x, covered bs x -> prot_at w' x = Some prot_rx).
Proof.
  induction 1 as [|[b l] bs (Hb & Hl & Ha & Hla) Hbs IH]; intros w; cbn [seal_blocks].
  { exists (Ok tt), w. split_and!; try done; [by left|]. intros _ x (b & l & Hin & _). by apply elem_of_nil in Hin. }
  cbn in *. destruct (sys_mprotect b l prot_rx w) as [rc w1] eqn:E.
  assert (Hm : mprotect (E := ThunkError) b l prot_rx w = (Ok rc, w1)) by (unfold mprotect; by rewrite E).
  rewrite (mbind_ok _ _ _ _ _ Hm).
  assert (Hbyte : forall x, byte_at w1 x = byte_at w x)
    by (intros x; pose proof (mprotect_byte b l prot_rx w x) as Hx; by rewrite E in Hx).
  destruct (Z.eqb_spec rc 0) as [->|Hrc]; cbn [negb].
  - pose proof (fun x => mprotect_ok b l prot_rx w w1 x Ha Hla E) as Hp.
    destruct (IH w1) as (r & w' & Hs & Hr & Hb' & Hout & Hin). exists r, w'. split_and!; [done|done| | |].
    + intros x. by rewrite Hb', Hbyte.
    + intros x Hx. rewrite covered_cons in Hx. rewrite Hout by tauto. rewrite Hp.
      destruct (in_range b l x); [tauto|done].
    + intros -> x Hx. destruct (decide (covered_b bs x = true)) as [Hc|Hc].
      * apply Hin; [done|]. by apply covered_b_spec.
      * rewrite covered_b_spec in Hc. rewrite Hout, Hp by done. apply covered_cons in Hx as [->|Hx]; done.
  - exists (Err (ExecFailed l)), w1. split_and!; [done|right; by exists l|done| |done].
    intros x Hx. rewrite covered_cons in Hx. pose proof (mprotect_failed b l prot_rx w x Ha Hla) as Hf. rewrite E in Hf.
    cbn in Hf. destruct Hf as [Hf|(Hr & _)]; [done|tauto].
Qed.

Lemma unmap_blocks_ok bs : Forall page_aligned bs -> forall w, exists w', unmap_blocks bs w = (Ok tt, w') /\
  (forall x, covered bs x -> prot_at w' x = None) /\
  (forall x, ~ covered bs x -> prot_at w' x = prot_at w x /\ byte_at w' x = byte_at w x).
Proof.
  induction 1 as [|[b l] bs (Hb & Hl & Ha & Hla) Hbs IH]; intros w; cbn [unmap_blocks].
  { exists w. split_and!; [done| |done]. intros x (b & l & Hin & _). by apply elem_of_nil in Hin. }
  cbn in *. rewrite (proj2 (Z.eqb_neq b 0)) by lia.
  rewrite (mbind_ok (E := ThunkError) _ _ w tt (sys_munmap b l w)) by done.
  destruct (IH (sys_munmap b l w)) as (w' & Hu & Hin & Hout). exists w'. split_and!; [done| |].
  - intros x Hx. destruct (decide (covered_b bs x = true)) as [Hc|Hc].
    + apply Hin. by apply covered_b_spec.
    + rewrite covered_b_spec in Hc. destruct (Hout x Hc) as [-> _]. rewrite munmap_prot by done.
      apply covered_cons in Hx as [->|Hx]; done.
  - intros x Hx. rewrite covered_cons in Hx. destruct (Hout x ltac:(tauto)) as [-> ->].
    rewrite munmap_prot by done. destruct (in_range b l x) eqn:R; [tauto|]. split; [done|]. by apply munmap_byte.
Qed.

(** Sealing an open arena. *)
(** Sealing needs the blocks only; when the kernel grants changes of protection it
    succeeds. *)
Lemma finalize_blocks (issued : list (Z * list Z)) ar w : sealed ar = false -> Forall (block_ok w) (blocks ar) ->
  (forall p code, (p, code) ∈ issued -> placed (blocks ar) w p code) ->
  exists r ar' w', finalize (ar, w) = (r, (ar', w')) /\
  (r = Ok tt \/ exists n, r = Err (ExecFailed n)) /\ blocks ar' = blocks ar /\
  (forall x, byte_at w' x = byte_at w x) /\
  (forall x, ~ covered (blocks ar) x -> prot_at w' x = prot_at w x) /\
  (r = Ok tt -> sealed ar' = true /\ (forall x, covered (blocks ar) x -> may prot_w w' x = false) /\
    forall p code, (p, code) ∈ issued -> code_at w' p code).
Proof.
  intros Hopen Hbs Hiss.
  assert (Hal : Forall page_aligned (blocks ar)) by (eapply list.Forall_impl; [exact Hbs|]; intros; by eapply block_aligned).
  destruct (seal_blocks_ok _ Hal w) as (r & w' & Hs & Hr & Hbyte & Hout & Hin).
  exists r, (match r with Ok _ => mkArena (base ar) (len ar) (cursor ar) true (retired ar) | _ => ar end), w'.
  split_and!; [|done|by destruct r|done|done|].
  - unfold finalize. rewrite (mbind_ok _ _ _ ar (ar, w)), Hopen by done.
    unfold mbind, on_memory. rewrite Hs. by destruct Hr as [-> |[n ->]].
  - intros ->. assert (Hx : forall x, covered (blocks ar) x -> prot_at w' x = Some prot_rx) by (by apply Hin).
    split_and!; [done|intros x Hc; unfold may; by rewrite (Hx x Hc)|].
    intros p code Hp. pose proof (Hiss p code Hp) as Hpl. split.
    + intros x Hxr. unfold may. by rewrite (Hx x (placed_covered _ _ _ _ _ Hpl Hxr)).
    + destruct Hpl as [_ Hg]. rewrite <- Hg at 2. by apply get_bytes_ext.
Qed.

Lemma finalize_ok w0 issued ar w : arena_inv w0 issued ar w -> exists r ar' w', finalize (ar, w) = (r, (ar', w')) /\
  (r = Ok tt \/ exists n, r = Err (ExecFailed n)) /\ blocks ar' = blocks ar /\
  (forall x, byte_at w' x = byte_at w x) /\
  (forall x, ~ covered (blocks ar) x -> prot_at w' x = prot_at w x) /\
  (r = Ok tt -> sealed ar' = true /\ (forall x, covered (blocks ar) x -> may prot_w w' x = false) /\
    forall p code, (p, code) ∈ issued -> code_at w' p code).
Proof. intros [H1 H2 _ _ H3 _ _]. by apply finalize_blocks. Qed.

(** C11. Trampolines survive. Whatever requests follow each other, also across
    growth of the arena, every pointer that was handed out holds its own code; the
    only error is a refused mapping. Sealing makes all of them executable and none
    writable, and no trampoline can be added after it. Memory that was mapped
    before the arena is never touched, and dropping the arena unmaps exactly its
    blocks. *)
Theorem thunks_survive capacity w0 ar w1 rs : 0 <= capacity < 2 ^ 63 -> Forall request_valid rs ->
  with_capacity capacity w0 = (Ok ar, w1) ->
  exists ar2 w2,
    ((exists m, make_all rs (ar, w1) = (Err (AllocFailed m), (ar2, w2))) \/
     exists ps, make_all rs (ar, w1) = (Ok ps, (ar2, w2)) /\ length ps = length rs) /\
  exists r ar3 w3, finalize (ar2, w2) = (r, (ar3, w3)) /\ (r = Ok tt \/ exists n, r = Err (ExecFailed n)) /\
    (r = Ok tt ->
      (forall ps, make_all rs (ar, w1) = (Ok ps, (ar2, w2)) ->
         forall i p q, ps !! i = Some p -> rs !! i = Some q -> code_at w3 p (request_code q)) /\
      (forall x, covered (blocks ar3) x -> may prot_w w3 x = false) /\
      (forall q, request_valid q -> exists n, make q (ar3, w3) = (Err (AllocFailed n), (ar3, w3))) /\
      finalize (ar3, w3) = (Ok tt, (ar3, w3))) /\
    exists w4, arena_drop ar3 w3 = (Ok tt, w4) /\ (forall x, covered (blocks ar3) x -> prot_at w4 x = None) /\
      forall x, prot_at w0 x <> None -> prot_at w4 x = prot_at w0 x /\ byte_at w4 x = byte_at w0 x.
Proof.
  intros Hcap Hv Hw. destruct (with_capacity_inv capacity w0 Hcap) as (w1' & [(ar' & Hw' & Hi)|[Hw' _]]);
    rewrite Hw in Hw'; simplify_eq.
  destruct (make_all_inv w0 rs [] ar' w1' Hi Hv) as (ar2 & w2 & Hi2 & Hres).
  exists ar2, w2. split; [destruct Hres as [(ps & H1 & H2 & _)|H]; [right; by exists ps|by left]|].
  assert (Hissued : exists issued, arena_inv w0 issued ar2 w2 /\
    forall ps, make_all rs (ar', w1') = (Ok ps, (ar2, w2)) -> issued = zip ps (map request_code rs)).
  { destruct Hres as [(ps & H1 & _ & H3)|[m Hm]]; [|exists []; split; [done|]; intros ps; by rewrite Hm].
    eexists. split; [exact H3|]. intros ps'. rewrite H1. intros [= ->]. done. }
  destruct Hissued as (issued & Hi3 & Hz).
  destruct (finalize_ok _ _ _ _ Hi3) as (r & ar3 & w3 & Hf & Hr & Hb & Hbyte & Hout & Hok).
  exists r, ar3, w3. rewrite Hb. split_and!; [done|done| |].
  - intros Hrok. destruct (Hok Hrok) as (Hsealed & Hwx & Hcode). split_and!; [|done| |].
    + intros ps Hps i p q Hp Hq. apply Hcode. rewrite (Hz ps Hps). apply list_elem_of_lookup. exists i.
      rewrite lookup_zip_with, Hp. simpl. by rewrite list_lookup_fmap, Hq.
    + intros q Hq. exists (Z.of_nat (length (request_code q))).
      assert (Ha : forall k, alloc k (ar3, w3) = (Err (AllocFailed k), (ar3, w3)))
        by (intros k; unfold alloc; rewrite (mbind_ok _ _ _ ar3 (ar3, w3)) by done; by rewrite Hsealed).
      destruct q as [t n|t n]; cbn in Hq; unfold make, make_thunk, make_thunk_noreturn, place, mbind;
        rewrite (proj2 (Z.ltb_ge _ _)) by lia; by rewrite Ha.
    + unfold finalize. rewrite (mbind_ok _ _ _ ar3 (ar3, w3)) by done. by rewrite Hsealed.
  - assert (Hal : Forall page_aligned (blocks ar3)).
    { rewrite Hb. eapply list.Forall_impl; [exact (ai_blocks _ _ _ _ Hi3)|]. intros. by eapply block_aligned. }
    destruct (unmap_blocks_ok _ Hal w3) as (w4 & H1 & H2 & H3). rewrite Hb in H2, H3. exists w4. split_and!; [done|done|].
    intros x Hx. destruct (ai_foreign _ _ _ _ Hi3 x Hx) as (J1 & J2 & J3). destruct (H3 x J1) as [-> ->].
    by rewrite Hout, Hbyte.
Qed.
End Keeps.

(** Three trampolines in an arena of one small page, which grows for each. *)
Definition demo_requests : list request := [Returning 9000 7; NoReturn 8000 1; Returning 7000 12].

Definition demo_arena : ThunkArena * SmallHost.World :=
  match with_capacity 16 SmallHost.empty with
  | (Ok ar, w) => (ar, w)
  | (_, w) => (mkArena 0 0 0 false [], w)
  end.

Lemma thunks_survive_witness :
  exists ps s, make_all demo_requests demo_arena = (Ok ps, s) /\ length ps = 3%nat /\ length (retired (fst s)) = 3%nat.
Proof.
  destruct (thunks_survive 16 SmallHost.empty (fst demo_arena) (snd demo_arena) demo_requests) as
    (ar2 & w2 & [[m Hm]|(ps & Hps & Hl)] & _).
  - split; [discriminate|reflexivity].
  - repeat constructor; discriminate.
  - vm_compute. reflexivity.
  - exfalso. assert (Hok : match fst (make_all demo_requests demo_arena) with Ok _ => true | _ => false end = true)
      by (vm_compute; reflexivity). change (fst demo_arena, snd demo_arena) with demo_arena in Hm. by rewrite Hm in Hok.
  - exists ps, (ar2, w2). change (fst demo_arena, snd demo_arena) with demo_arena in Hps. split_and!; [exact Hps|exact Hl|].
    assert (Hr : length (retired (fst (snd (make_all demo_requests demo_arena)))) = 3%nat) by (vm_compute; reflexivity).
    by rewrite Hps in Hr.
Defined.
