(* ===== verification/PeThunkCall.v ===== *)
(** * Running a trampoline

    The part of the x86-64 processor that the trampolines of [PeThunk.v] use:
    instructions fetched from executable memory, sixteen registers, a stack. A
    trampoline entered under the Windows calling convention reaches the
    implementation under the System V one, and its return comes back to the
    caller as the Windows convention asks. *)
From Stdlib Require Import ZArith Lia.
From stdpp Require Import base list option relations.
From S2P Require Import Prelude PeHost GuestMem PeThunk.
Local Open Scope rust_scope.
Local Open Scope Z_scope.
Set Warnings "-register-all".

(** ** Instructions

    Registers by their number in the encoding. *)
Abbreviation RAX := 0 (only parsing).
Abbreviation RCX := 1 (only parsing).
Abbreviation RDX := 2 (only parsing).
Abbreviation RBX := 3 (only parsing).
Abbreviation RSP := 4 (only parsing).
Abbreviation RBP := 5 (only parsing).
Abbreviation RSI := 6 (only parsing).
Abbreviation RDI := 7 (only parsing).
Abbreviation R8 := 8 (only parsing).
Abbreviation R9 := 9 (only parsing).

Inductive instr : Type :=
  | Push (r : Z)
  | Pop (r : Z)
  | Sub (r imm : Z)
  | Add (r imm : Z)
  | Mov (dst src : Z)
  | Load (dst disp : Z)
  | Store (disp src : Z)
  | MovImm (dst imm : Z)
  | Call (r : Z)
  | Jmp (r : Z)
  | Ret.

(** Four bytes, sign-extended. *)
Definition simm32 (bs : list Z) : Z := to_signed 32 (le_val bs).

(** The [REX] prefixes that set the operand size, without an index extension. *)
Definition rex_w (b : Z) : bool := (b =? 0x48) || (b =? 0x49) || (b =? 0x4C) || (b =? 0x4D).

(** The decoder: opcode, ModRM and SIB bytes of the Intel manual for 64-bit
    operands; [Load] and [Store] are [rsp]-relative with a 32-bit displacement. *)
Definition decode (bs : list Z) : option instr :=
  match bs with
  | [b] =>
      if (0x50 <=? b) && (b <? 0x58) then Some (Push (b - 0x50))
      else if (0x58 <=? b) && (b <? 0x60) then Some (Pop (b - 0x58))
      else if b =? 0xC3 then Some Ret else None
  | [b; m] =>
      if (b =? 0xFF) && (0xD0 <=? m) && (m <? 0xD8) then Some (Call (m - 0xD0))
      else if (b =? 0xFF) && (0xE0 <=? m) && (m <? 0xE8) then Some (Jmp (m - 0xE0)) else None
  | [rex; op; m] =>
      if rex_w rex && (op =? 0x89) && (0xC0 <=? m) then
        Some (Mov (m mod 8 + 8 * (rex mod 2)) (m / 8 mod 8 + 8 * (rex / 4 mod 2)))
      else None
  | [rex; op; m; i0; i1; i2; i3] =>
      if (rex =? 0x48) && (op =? 0x81) && (0xE8 <=? m) && (m <? 0xF0) then
        Some (Sub (m - 0xE8) (simm32 [i0; i1; i2; i3]))
      else if (rex =? 0x48) && (op =? 0x81) && (0xC0 <=? m) && (m <? 0xC8) then
        Some (Add (m - 0xC0) (simm32 [i0; i1; i2; i3]))
      else None
  | [rex; op; m; sib; d0; d1; d2; d3] =>
      if ((rex =? 0x48) || (rex =? 0x4C)) && ((op =? 0x8B) || (op =? 0x89)) && (sib =? 0x24) && (m / 64 =? 2) && (m mod 8 =? 4) then
        let r := m / 8 mod 8 + 8 * (rex / 4 mod 2) in
        let d := simm32 [d0; d1; d2; d3] in
        Some (if op =? 0x8B then Load r d else Store d r)
      else None
  | [rex; b; i0; i1; i2; i3; i4; i5; i6; i7] =>
      if (rex =? 0x48) && (0xB8 <=? b) && (b <? 0xC0) then
        Some (MovImm (b - 0xB8) (le_val [i0; i1; i2; i3; i4; i5; i6; i7]))
      else None
  | _ => None
  end.

(** ** Machine states *)
Section Machine.
Context `{HW : Host W}.

Record Machine : Type := mkMachine { regs : Z -> Z; rip : Z; mem : W }.

Definition upd (r v : Z) (f : Z -> Z) : Z -> Z := fun x => if x =? r then v else f x.

Definition get_word (a : Z) (w : W) : option Z :=
  match read_int (E := Empty_set) 8 a w with (Ok v, _) => Some v | _ => None end.

Definition put_word (a v : Z) (w : W) : option W :=
  match write_int (E := Empty_set) 8 a v w with (Ok _, w') => Some w' | _ => None end.

(** One instruction; [next] is the address after it. A bad access has no step. *)
Definition exec (i : instr) (next : Z) (m : Machine) : option Machine :=
  let f := regs m in
  match i with
  | Push r =>
      let sp := wrap 64 (f RSP - 8) in
      w ← put_word sp (f r) (mem m); Some (mkMachine (upd RSP sp f) next w)
  | Pop r =>
      v ← get_word (f RSP) (mem m);
      Some (mkMachine (upd r v (upd RSP (wrap 64 (f RSP + 8)) f)) next (mem m))
  | Sub r imm => Some (mkMachine (upd r (wrap 64 (f r - imm)) f) next (mem m))
  | Add r imm => Some (mkMachine (upd r (wrap 64 (f r + imm)) f) next (mem m))
  | Mov dst src => Some (mkMachine (upd dst (f src) f) next (mem m))
  | Load dst disp =>
      v ← get_word (wrap 64 (f RSP + disp)) (mem m); Some (mkMachine (upd dst v f) next (mem m))
  | Store disp src =>
      w ← put_word (wrap 64 (f RSP + disp)) (f src) (mem m); Some (mkMachine f next w)
  | MovImm dst imm => Some (mkMachine (upd dst imm f) next (mem m))
  | Call r =>
      let sp := wrap 64 (f RSP - 8) in
      w ← put_word sp next (mem m); Some (mkMachine (upd RSP sp f) (f r) w)
  | Jmp r => Some (mkMachine f (f r) (mem m))
  | Ret =>
      v ← get_word (f RSP) (mem m); Some (mkMachine (upd RSP (wrap 64 (f RSP + 8)) f) v (mem m))
  end.

(** The instruction at an address: the first decodable bytes, all executable. *)
Fixpoint fetch_from (n : nat) (len : Z) (a : Z) (w : W) : option (instr * Z) :=
  match n with
  | O => None
  | S n =>
      match decode (get_bytes w a len) with
      | Some i => if may_all prot_x w a len then Some (i, len) else None
      | None => fetch_from n (len + 1) a w
      end
  end.

Definition fetch (a : Z) (w : W) : option (instr * Z) := fetch_from 15 1 a w.

Definition step (m : Machine) : option Machine :=
  '(i, n) ← fetch (rip m) (mem m); exec i (rip m + n) m.

Definition steps_to (m m' : Machine) : Prop := step m = Some m'.
End Machine.
Arguments Machine : clear implicits.

(** ** Encoding *)

Definition encode (i : instr) : list Z :=
  match i with
  | Push r => [0x50 + r]
  | Pop r => [0x58 + r]
  | Sub r imm => [0x48; 0x81; 0xE8 + r] ++ le_bytes 4 imm
  | Add r imm => [0x48; 0x81; 0xC0 + r] ++ le_bytes 4 imm
  | Mov dst src => [0x48 + 4 * (src / 8) + dst / 8; 0x89; 0xC0 + 8 * (src mod 8) + dst mod 8]
  | Load dst disp => [0x48 + 4 * (dst / 8); 0x8B; 0x84 + 8 * (dst mod 8); 0x24] ++ le_bytes 4 disp
  | Store disp src => [0x48 + 4 * (src / 8); 0x89; 0x84 + 8 * (src mod 8); 0x24] ++ le_bytes 4 disp
  | MovImm dst imm => [0x48; 0xB8 + dst] ++ le_bytes 8 imm
  | Call r => [0xFF; 0xD0 + r]
  | Jmp r => [0xFF; 0xE0 + r]
  | Ret => [0xC3]
  end.

(** Operands the encoding has room for. *)
Definition encodable (i : instr) : Prop :=
  match i with
  | Push r | Pop r | Call r | Jmp r => 0 <= r < 8
  | Sub r imm | Add r imm => 0 <= r < 8 /\ 0 <= imm < 2 ^ 31
  | Mov dst src => 0 <= dst < 16 /\ 0 <= src < 16
  | Load r disp | Store disp r => 0 <= r < 16 /\ 0 <= disp < 2 ^ 31
  | MovImm r imm => 0 <= r < 8 /\ 0 <= imm < 2 ^ 64
  | Ret => True
  end.

Lemma small_cases (P : Z -> Prop) :
  P 0 -> P 1 -> P 2 -> P 3 -> P 4 -> P 5 -> P 6 -> P 7 -> forall r, 0 <= r < 8 -> P r.
Proof.
  intros ? ? ? ? ? ? ? ? r Hr.
  assert (r = 0 \/ r = 1 \/ r = 2 \/ r = 3 \/ r = 4 \/ r = 5 \/ r = 6 \/ r = 7) as Hr' by lia.
  by destruct Hr' as [-> |[-> |[-> |[-> |[-> |[-> |[-> | ->]]]]]]].
Qed.

Lemma register_cases (P : Z -> Prop) :
  P 0 -> P 1 -> P 2 -> P 3 -> P 4 -> P 5 -> P 6 -> P 7 ->
  P 8 -> P 9 -> P 10 -> P 11 -> P 12 -> P 13 -> P 14 -> P 15 -> forall r, 0 <= r < 16 -> P r.
Proof.
  intros. destruct (Z.lt_ge_cases r 8); [apply small_cases; [done..|lia]|].
  assert (r = 8 + (r - 8)) as -> by lia. apply (small_cases (fun x => P (8 + x))); [done..|lia].
Qed.

Lemma simm32_bytes v : 0 <= v < 2 ^ 31 -> simm32 (le_bytes 4 v) = v.
Proof.
  intros Hv. unfold simm32. rewrite le_val_bytes. change (8 * Z.of_nat 4) with 32.
  rewrite (wrap_small 32 v) by lia. unfold to_signed. rewrite (wrap_small 32 v) by lia.
  by rewrite (proj2 (Z.ltb_lt _ _)) by lia.
Qed.

(** No proper beginning of an instruction is one. *)
Definition decodes (i : instr) (bs : list Z) : Prop :=
  decode bs = Some i /\
  forallb (fun k => match decode (take k bs) with None => true | Some _ => false end) (seq 1 (length bs - 1)) = true.

Ltac each_register r H cases := pattern r; revert r H; apply cases; split; reflexivity.

(** Four or eight symbolic bytes. *)
Ltac immediate H :=
  unfold encode; cbn [le_bytes];
  repeat match goal with |- context [?x mod 256] => generalize (x mod 256); intro end.

Lemma decode_instr i : encodable i -> decodes i (encode i).
Proof.
  destruct i as [r|r|r imm|r imm|dst src|r disp|disp r|r imm|r|r|]; cbn [encodable].
  - intros Hr. each_register r Hr small_cases.
  - intros Hr. each_register r Hr small_cases.
  - intros [Hr Hi]. rewrite <- (simm32_bytes imm Hi) at 1. immediate imm. each_register r Hr small_cases.
  - intros [Hr Hi]. rewrite <- (simm32_bytes imm Hi) at 1. immediate imm. each_register r Hr small_cases.
  - intros [Hd Hs]. revert src Hs. pattern dst. revert dst Hd. apply register_cases; apply register_cases; split; reflexivity.
  - intros [Hr Hi]. rewrite <- (simm32_bytes disp Hi) at 1. immediate disp. each_register r Hr register_cases.
  - intros [Hr Hi]. rewrite <- (simm32_bytes disp Hi) at 1. immediate disp. each_register r Hr register_cases.
  - intros [Hr Hi]. assert (imm = le_val (le_bytes 8 imm)) as Hv by (rewrite le_val_bytes, wrap_small by done; done).
    rewrite Hv at 1. clear Hv. immediate imm. each_register r Hr small_cases.
  - intros Hr. each_register r Hr small_cases.
  - intros Hr. each_register r Hr small_cases.
  - intros _. by split.
Qed.

(** ** Executing code in memory *)
Section Run.
Context `{HW : Host W} `{HL : !HostLaws W}.

Lemma code_at_app w a c1 c2 :
  code_at w a (c1 ++ c2) <-> code_at w a c1 /\ code_at w (a + Z.of_nat (length c1)) c2.
Proof.
  unfold code_at. rewrite length_app, Nat2Z.inj_add, get_bytes_app by lia. split.
  - intros [Hx Hb]. apply app_inj_1 in Hb as [H1 H2]; [|rewrite get_bytes_length; lia].
    split; (split; [intros x Hr; apply Hx; lia|done]).
  - intros [[Hx1 H1] [Hx2 H2]]. rewrite H1, H2. split; [|done].
    intros x Hx. destruct (Z.lt_ge_cases x (a + Z.of_nat (length c1))); [apply Hx1|apply Hx2]; lia.
Qed.

Lemma code_at_ext w w' a code :
  (forall x, a <= x < a + Z.of_nat (length code) -> byte_at w' x = byte_at w x /\ prot_at w' x = prot_at w x) ->
  code_at w a code -> code_at w' a code.
Proof.
  intros He [Hx Hb]. split.
  - intros x Hr. unfold may. rewrite (proj2 (He x Hr)). by apply Hx.
  - rewrite <- Hb at 2. apply get_bytes_ext. intros x Hr. apply He. lia.
Qed.

Lemma code_at_put w a code b l :
  apart a (Z.of_nat (length code)) b (8 * Z.of_nat (length l)) -> code_at w a code -> code_at (put 8 b l w) a code.
Proof.
  intros Ha. apply code_at_ext. intros x Hx. split; [|by rewrite prot_put].
  apply byte_put_out, in_range_false. unfold apart in Ha. lia.
Qed.

Lemma fetch_from_decodes i bs w a n k :
  code_at w a bs -> decodes i bs -> (1 <= k)%nat -> (k + n = 16)%nat -> (k <= length bs <= 15)%nat ->
  fetch_from n (Z.of_nat k) a w = Some (i, Z.of_nat (length bs)).
Proof.
  intros [Hx Hb] [Hd Hp] Hk. revert k Hk. induction n as [|n IH]; intros k Hk Hn Hl; [lia|]. cbn [fetch_from].
  assert (Hg : get_bytes w a (Z.of_nat k) = take k bs).
  { rewrite <- Hb. replace (Z.of_nat (length bs)) with (Z.of_nat k + (Z.of_nat (length bs) - Z.of_nat k)) by lia.
    rewrite get_bytes_app by lia. rewrite take_app_le by (rewrite get_bytes_length; lia).
    rewrite take_ge; [done|]. rewrite get_bytes_length. lia. }
  rewrite Hg. destruct (decide (k = length bs)) as [->|Hne].
  - rewrite take_ge, Hd by lia. by rewrite (proj2 (may_all_spec _ _ _ _) Hx).
  - rewrite forallb_forall in Hp. specialize (Hp k ltac:(apply in_seq; lia)).
    destruct (decode (take k bs)); [done|]. replace (Z.of_nat k + 1) with (Z.of_nat (S k)) by lia. apply IH; lia.
Qed.

Lemma encode_length i : (1 <= length (encode i) <= 15)%nat.
Proof. destruct i; cbn; lia. Qed.

(** The processor runs the instruction that the code spells. *)
Lemma step_encode i w a f : encodable i -> code_at w a (encode i) ->
  step (mkMachine f a w) = exec i (a + Z.of_nat (length (encode i))) (mkMachine f a w).
Proof.
  intros Hi Hc. unfold step, fetch. cbn [rip mem].
  pose proof (encode_length i). change 1 with (Z.of_nat 1).
  by rewrite (fetch_from_decodes i (encode i) w a 15 1 Hc (decode_instr i Hi)) by lia.
Qed.

(** Straight-line instructions whose stores stay in a range. *)
Definition straight (i : instr) : Prop := match i with Call _ | Jmp _ | Ret => False | _ => True end.

Definition stores_at (i : instr) (f : Z -> Z) : option Z :=
  match i with
  | Push _ | Call _ => Some (wrap 64 (f RSP - 8))
  | Store disp _ => Some (wrap 64 (f RSP + disp))
  | _ => None
  end.

Definition stores_in (lo hi : Z) (i : instr) (f : Z -> Z) : Prop :=
  match stores_at i f with Some s => lo <= s /\ s + 8 <= hi | None => True end.

Inductive runs (lo hi : Z) : list instr -> Machine W -> Machine W -> Prop :=
  | runs_nil m : runs lo hi [] m m
  | runs_cons i l m m1 m2 :
      encodable i -> straight i -> stores_in lo hi i (regs m) ->
      exec i (rip m + Z.of_nat (length (encode i))) m = Some m1 ->
      runs lo hi l m1 m2 -> runs lo hi (i :: l) m m2.

Definition code_of (l : list instr) : list Z := concat (map encode l).

Lemma exec_code lo hi i m m1 a code : stores_in lo hi i (regs m) ->
  exec i (rip m + Z.of_nat (length (encode i))) m = Some m1 ->
  apart a (Z.of_nat (length code)) lo (hi - lo) -> code_at (mem m) a code -> code_at (mem m1) a code.
Proof.
  intros Hs He Ha. unfold stores_in in Hs.
  assert (Hput : forall b v w1, put_word b v (mem m) = Some w1 -> lo <= b -> b + 8 <= hi ->
    code_at (mem m) a code -> code_at w1 a code).
  { intros b v w1 Hp H1 H2. unfold put_word, write_int, store in Hp. destruct (may_all _ _ _ _); [|done].
    simplify_eq. intros Hc. replace (set_bytes b (le_bytes 8 v) (mem m)) with (put 8 b [v] (mem m)).
    - apply code_at_put; [|done]. unfold apart in *. cbn [length]. lia.
    - unfold put. cbn [map concat]. by rewrite app_nil_r. }
  destruct i; cbn [exec stores_at] in *; simplify_option_eq; try done.
  all: destruct Hs; by eapply Hput.
Qed.

Lemma exec_straight i next m m1 : straight i -> exec i next m = Some m1 -> rip m1 = next.
Proof. destruct i; cbn; intros Hs H; simplify_option_eq; done. Qed.

Lemma runs_steps lo hi l m m' rest :
  runs lo hi l m m' -> code_at (mem m) (rip m) (code_of l ++ rest) ->
  apart (rip m) (Z.of_nat (length (code_of l ++ rest))) lo (hi - lo) ->
  rtc steps_to m m' /\ rip m' = rip m + Z.of_nat (length (code_of l)) /\ code_at (mem m') (rip m') rest /\
  apart (rip m') (Z.of_nat (length rest)) lo (hi - lo).
Proof.
  induction 1 as [m|i l m m1 m2 Hi Hst Hs He Hr IH]; intros Hc Ha.
  - unfold code_of in *. cbn in *. split_and!; [constructor|lia|done|done].
  - change (code_of (i :: l)) with (encode i ++ code_of l) in *. rewrite <- app_assoc in *.
    pose proof (exec_straight _ _ _ _ Hst He) as Hrip.
    pose proof (exec_code _ _ _ _ _ _ _ Hs He Ha Hc) as Hc1.
    apply code_at_app in Hc as [Hci _]. apply code_at_app in Hc1 as [_ Hc1]. rewrite <- Hrip in Hc1.
    destruct IH as (H1 & H2 & H3 & H4); [done| |].
    + rewrite Hrip. unfold apart in *. rewrite length_app in Ha. lia.
    + split_and!; [|rewrite H2, Hrip, length_app; lia|done|done].
      eapply rtc_l; [|exact H1]. unfold steps_to. destruct m as [f a w]. rewrite <- He. by apply step_encode.
Qed.

Lemma runs_app lo hi l1 l2 m m1 m2 : runs lo hi l1 m m1 -> runs lo hi l2 m1 m2 -> runs lo hi (l1 ++ l2) m m2.
Proof. induction 1; [done|]. intros H'. simpl. econstructor; eauto. Qed.

Lemma runs_widen lo hi lo' hi' l m m' : lo' <= lo -> hi <= hi' -> runs lo hi l m m' -> runs lo' hi' l m m'.
Proof.
  intros H1 H2. induction 1 as [|i l m m1 m2 Hi Hst Hs He Hr IH]; [constructor|]. econstructor; [done..| |done|done].
  unfold stores_in in *. destruct (stores_at i (regs m)); lia.
Qed.

Lemma get_word_ok w a v : holds 8 w a [v] -> get_word a w = Some v.
Proof.
  intros Hh. unfold get_word. pose proof (uget_holds (E := Empty_set) 8 w a _ 0 v Hh eq_refl) as H.
  unfold uget in H. rewrite Z.mul_0_r, Z.add_0_r in H. by rewrite H.
Qed.

Lemma put_word_ok w a v : writable w a 8 -> put_word a v w = Some (put 8 a [v] w).
Proof. intros Hw. unfold put_word. by rewrite write_int_put. Qed.
End Run.

(** ** The trampoline as instructions *)

Definition copy_instrs (frame i : Z) : list instr := [Load RAX (0x48 + frame + 8 * i); Store (8 * i) RAX].

Definition enter_instrs (target n : Z) : list instr :=
  let frame := frame_size n in
  [Push RDI; Push RSI; Sub RSP frame; Mov RDI RCX; Mov RSI RDX; Mov RDX R8; Mov RCX R9] ++
  (if 5 <=? n then [Load R8 (0x38 + frame)] else []) ++
  (if 6 <=? n then [Load R9 (0x40 + frame)] else []) ++
  concat (map (copy_instrs frame) (seqZ 0 (stack_args n))) ++
  [MovImm RAX target].

Definition leave_instrs (n : Z) : list instr := [Add RSP (frame_size n); Pop RSI; Pop RDI].

Lemma frame_bounds n : 0 <= n <= 32 ->
  let s := stack_args n in
  s = Z.max 0 (n - 6) /\ 8 * s <= frame_size n <= 8 * s + 8 /\ frame_size n mod 16 = 8 /\ 8 <= frame_size n <= 224.
Proof.
  intros Hn. unfold frame_size, stack_args, sat_sub. set (s := Z.max 0 (n - 6)). cbv zeta.
  destruct (Z.eqb_spec (s mod 2) 0); split_and!; Z.to_euclidean_division_equations; lia.
Qed.

Lemma code_of_app l1 l2 : code_of (l1 ++ l2) = code_of l1 ++ code_of l2.
Proof. unfold code_of. by rewrite map_app, concat_app. Qed.

Lemma imm32_small v : 0 <= v < 2 ^ 31 -> imm32 v = le_bytes 4 v.
Proof. intros H. unfold imm32. by rewrite wrap_small by lia. Qed.

Lemma copy_code frame l : 0 <= frame <= 1000 -> Forall (fun i => 0 <= i <= 100) l ->
  concat (map (copy_stack_arg frame) l) = code_of (concat (map (copy_instrs frame) l)).
Proof.
  intros Hf. induction 1 as [|i l Hi _ IH]; [done|]. cbn [map concat].
  rewrite code_of_app, <- IH. f_equal. unfold copy_stack_arg, copy_instrs, code_of. cbn [map concat encode].
  rewrite !imm32_small, <- !app_assoc by lia. cbn [app]. by rewrite app_nil_r.
Qed.

Lemma emit_returning_code target n : 0 <= n <= 32 ->
  emit_returning target n =
    code_of (enter_instrs target n) ++ encode (Call RAX) ++ code_of (leave_instrs n) ++ encode Ret.
Proof.
  intros Hn. destruct (frame_bounds n Hn) as (Hs & Hf & _ & Hb). unfold emit_returning, enter_instrs, leave_instrs.
  rewrite !(proj2 (Z.ltb_lt 0 (frame_size n))) by lia. rewrite !imm32_small by lia.
  rewrite copy_code; [|lia|apply Forall_forall; intros i Hi; apply elem_of_seqZ in Hi; lia].
  rewrite !code_of_app. set (loop := code_of (concat _)).
  destruct (5 <=? n), (6 <=? n); unfold code_of, shuffle; cbn [map concat encode];
    rewrite <- ?app_assoc; reflexivity.
Qed.

Lemma emit_noreturn_code target n :
  emit_noreturn target n =
    code_of ([Mov RDI RCX; Mov RSI RDX; Mov RDX R8; Mov RCX R9] ++
      (if 5 <=? n then [Load R8 0x28] else []) ++ (if 6 <=? n then [Load R9 0x30] else []) ++ [MovImm RAX target])
    ++ encode (Jmp RAX).
Proof.
  unfold emit_noreturn. rewrite !code_of_app.
  destruct (5 <=? n), (6 <=? n); unfold code_of, shuffle; cbn [map concat encode]; rewrite <- ?app_assoc; reflexivity.
Qed.

(** ** The two calling conventions *)
Section Calls.
Context `{HW : Host W} `{HL : !HostLaws W}.

(** The registers of the first arguments. *)
Definition win_regs : list Z := [RCX; RDX; R8; R9].
Definition sysv_regs : list Z := [RDI; RSI; RDX; RCX; R8; R9].

(** Registers the callee saves: those of System V, and two more on Windows. *)
Definition sysv_saved : list Z := [RBX; RBP; 12; 13; 14; 15].
Definition win_saved : list Z := RDI :: RSI :: sysv_saved.

(** Arguments in registers, and in words of the stack above them. *)
Definition in_registers (rs : list Z) (f : Z -> Z) (args : list Z) : Prop :=
  forall i r v, rs !! i = Some r -> args !! i = Some v -> f r = v.

(** Entry to a function of [length args] arguments at [target], under either
    convention: argument registers, stack slot of the first stack argument. *)
Record called (rs : list Z) (slot : Z) (target ret : Z) (args : list Z) (m : Machine W) : Prop := {
  called_rip : rip m = target;
  called_aligned : regs m RSP mod 16 = 8;
  called_regs : in_registers rs (regs m) args;
  called_stack : holds 8 (mem m) (regs m RSP + slot) (drop (length rs) args);
  called_ret : holds 8 (mem m) (regs m RSP) [ret]
}.

Definition win_called := called win_regs 0x28.
Definition sysv_called := called sysv_regs 8.

(** The words of a machine are 64 bits wide. *)
Definition words (m : Machine W) : Prop := forall r, unit_range 8 (regs m r).

(** The bytes from [lo] to [hi] are the only ones that differ. *)
Definition only_changed (lo hi : Z) (w w' : W) : Prop :=
  forall x, prot_at w' x = prot_at w x /\ (in_range lo (hi - lo) x = false -> byte_at w' x = byte_at w x).

(** A trampoline that the guest calls: its code, the arguments, and room on the
    stack, apart from the code, for the frame and a return address. *)
Record thunk_entry (code : list Z) (frame a ret : Z) (args : list Z) (m : Machine W) : Prop := {
  te_called : win_called a ret args m;
  te_code : code_at (mem m) a code;
  te_words : words m;
  te_args : Forall (unit_range 8) (ret :: args);
  te_range : 0 <= a /\ a + Z.of_nat (length code) < 2 ^ 64;
  te_stack : 0 < regs m RSP - frame /\ regs m RSP + 0x48 + 8 * Z.of_nat (length args) <= 2 ^ 64;
  te_room : readable (mem m) (regs m RSP - frame) frame /\ writable (mem m) (regs m RSP - frame) frame;
  te_apart : apart a (Z.of_nat (length code)) (regs m RSP - frame) frame
}.

Lemma only_changed_put lo hi b l w w' :
  only_changed lo hi w w' -> lo <= b -> b + 8 * Z.of_nat (length l) <= hi -> only_changed lo hi w (put 8 b l w').
Proof.
  intros H H1 H2 x. rewrite prot_put. split; [apply H|]. intros Hx. rewrite byte_put_out.
  - by apply H.
  - apply in_range_false in Hx. apply in_range_false. lia.
Qed.

Lemma only_changed_refl lo hi w : only_changed lo hi w w.
Proof. by split. Qed.

Lemma holds_unchanged lo hi w w' a l :
  only_changed lo hi w w' -> apart a (8 * Z.of_nat (length l)) lo (hi - lo) -> holds 8 w a l -> holds 8 w' a l.
Proof.
  intros Ho Ha. apply holds_ext. intros x Hx. destruct (Ho x) as [H1 H2]. split; [|done]. apply H2.
  apply in_range_false. unfold apart in Ha. lia.
Qed.

Lemma wrap_id x : 0 <= x < 2 ^ 64 -> wrap 64 x = x.
Proof. apply wrap_small. Qed.

(** Saving two registers, making the frame and moving the register arguments. *)
Lemma run_shuffle lo frame sp f a w :
  f RSP = sp -> lo = sp - 24 - frame -> 0 < lo -> sp < 2 ^ 64 -> 0 <= frame < 2 ^ 31 ->
  writable w lo (sp - lo) ->
  exists a', runs lo sp [Push RDI; Push RSI; Sub RSP frame; Mov RDI RCX; Mov RSI RDX; Mov RDX R8; Mov RCX R9]
    (mkMachine f a w)
    (mkMachine (upd RCX (f R9) (upd RDX (f R8) (upd RSI (f RDX) (upd RDI (f RCX) (upd RSP (sp - 16 - frame)
       (upd RSP (sp - 16) (upd RSP (sp - 8) f))))))) a' (put 8 (sp - 16) [f RSI] (put 8 (sp - 8) [f RDI] w))).
Proof.
  intros Hsp -> Hlo Hhi Hf Hw. eexists.
  eapply runs_cons; [cbn; lia|done|cbn; rewrite Hsp, wrap_id by lia; lia| |].
  { cbn [exec regs mem]. rewrite Hsp, wrap_id by lia. rewrite put_word_ok by (intros x Hx; apply Hw; lia). reflexivity. }
  eapply runs_cons; [cbn; lia|done|cbn; rewrite wrap_id by lia; lia| |].
  { cbn [exec regs mem]. cbn [upd Z.eqb Pos.eqb]. rewrite wrap_id by lia.
    rewrite put_word_ok by (apply writable_put; intros x Hx; apply Hw; lia). reflexivity. }
  replace (sp - 8 - 8) with (sp - 16) by lia.
  eapply runs_cons; [cbn; lia|done|done| |].
  { cbn [exec regs mem]. cbn [upd Z.eqb Pos.eqb]. rewrite wrap_id by lia. reflexivity. }
  do 4 (eapply runs_cons; [cbn; lia|done|done|reflexivity|]). cbn [upd Z.eqb Pos.eqb]. apply runs_nil.
Qed.

Lemma holds_lookup w a l (i : nat) v : holds 8 w a l -> l !! i = Some v -> holds 8 w (a + 8 * Z.of_nat i) [v].
Proof.
  intros Hh Hi. rewrite <- (take_drop_middle _ _ _ Hi) in Hh. apply holds_app in Hh as [_ Hh].
  change (v :: drop (S i) l) with ([v] ++ drop (S i) l) in Hh. apply holds_app in Hh as [Hh _].
  rewrite length_take, Nat.min_l in Hh by (apply lookup_lt_Some in Hi; lia). exact Hh.
Qed.

(** The fifth and sixth arguments go from the stack to registers. *)
Lemma run_loads lo hi disp n args f a w : n = Z.of_nat (length args) -> 0 <= disp < 2 ^ 31 - 8 ->
  0 <= f RSP -> f RSP + disp + 8 < 2 ^ 64 -> holds 8 w (f RSP + disp) (drop 4 args) ->
  exists f' a', runs lo hi ((if 5 <=? n then [Load R8 disp] else []) ++ (if 6 <=? n then [Load R9 (disp + 8)] else []))
      (mkMachine f a w) (mkMachine f' a' w) /\
    (forall r, r <> R8 -> r <> R9 -> f' r = f r) /\
    (forall v, args !! 4%nat = Some v -> f' R8 = v) /\ (forall v, args !! 5%nat = Some v -> f' R9 = v).
Proof.
  intros -> Hd Hp Hb Hh.
  assert (Hat : forall i v, args !! (4 + i)%nat = Some v -> get_word (f RSP + disp + 8 * Z.of_nat i) w = Some v)
    by (intros i v Hv; apply get_word_ok, (holds_lookup _ _ _ _ _ Hh); by rewrite lookup_drop).
  destruct (Z.leb_spec 5 (Z.of_nat (length args))) as [H5|H5].
  - destruct (lookup_lt_is_Some_2 args 4 ltac:(lia)) as [v4 H4]. pose proof (Hat O v4 H4) as G4.
    rewrite Z.mul_0_r, Z.add_0_r in G4.
    assert (R4 : forall l m2, runs lo hi l (mkMachine (upd R8 v4 f) (a + 8) w) m2 -> runs lo hi (Load R8 disp :: l) (mkMachine f a w) m2).
    { intros l m2 Hr. eapply runs_cons; [cbn; lia|done|done| |exact Hr].
      cbn [exec regs mem rip]. rewrite wrap_id by lia. by rewrite G4. }
    destruct (Z.leb_spec 6 (Z.of_nat (length args))) as [H6|H6].
    + destruct (lookup_lt_is_Some_2 args 5 ltac:(lia)) as [v5 H5']. pose proof (Hat 1%nat v5 H5') as G5.
      exists (upd R9 v5 (upd R8 v4 f)), (a + 8 + 8). split_and!.
      * apply R4. eapply runs_cons; [cbn; lia|done|done| |apply runs_nil].
        cbn [exec regs mem rip]. cbn [upd Z.eqb Pos.eqb]. rewrite wrap_id by lia.
        replace (f RSP + (disp + 8)) with (f RSP + disp + 8 * Z.of_nat 1) by lia. by rewrite G5.
      * intros r N8 N9. unfold upd. by rewrite (proj2 (Z.eqb_neq r _) N8), (proj2 (Z.eqb_neq r _) N9).
      * intros v Hv. rewrite H4 in Hv. by simplify_eq.
      * intros v Hv. rewrite H5' in Hv. by simplify_eq.
    + exists (upd R8 v4 f), (a + 8). split_and!; [apply R4, runs_nil| | |].
      * intros r N8 N9. unfold upd. by rewrite (proj2 (Z.eqb_neq r _) N8).
      * intros v Hv. rewrite H4 in Hv. by simplify_eq.
      * intros v Hv. apply lookup_lt_Some in Hv. lia.
  - rewrite (proj2 (Z.leb_gt _ _)) by lia. exists f, a. split_and!; [apply runs_nil|done| |];
      intros v Hv; apply lookup_lt_Some in Hv; lia.
Qed.

(** The other stack arguments, copied one by one. *)
Lemma run_copies frame w q args rest : forall copied f a,
  f RSP = q -> 0 <= q -> 0 <= frame <= 1000 -> (length args <= 100)%nat ->
  8 * Z.of_nat (length args) <= frame -> args = copied ++ rest ->
  q + 0x48 + frame + 8 * Z.of_nat (length args) <= 2 ^ 64 ->
  holds 8 w (q + 0x48 + frame) args -> writable w q frame ->
  exists f' a', runs q (q + frame)
      (concat (map (copy_instrs frame) (seqZ (Z.of_nat (length copied)) (Z.of_nat (length rest)))))
      (mkMachine f a (put 8 q copied w)) (mkMachine f' a' (put 8 q args w)) /\
    forall r, r <> RAX -> f' r = f r.
Proof.
  induction rest as [|v rest IH]; intros copied f a Hq H0 Hf Hlen Hfit Hargs Hb Hh Hw.
  { exists f, a. rewrite Hargs, app_nil_r. split; [constructor|done]. }
  assert (Hsplit : args = (copied ++ [v]) ++ rest) by (by rewrite <- app_assoc).
  assert (Hl : (length copied < length args)%nat) by (rewrite Hargs, length_app; simpl; lia).
  assert (Hv : args !! length copied = Some v) by (by rewrite Hargs, list_lookup_middle).
  destruct (IH (copied ++ [v]) (upd RAX v f) (a + 8 + 8)) as (f' & a' & Hr & Hf'); [done..|].
  exists f', a'. split; [|intros r Hr'; rewrite Hf' by done; unfold upd; by rewrite (proj2 (Z.eqb_neq _ _) Hr')].
  rewrite seqZ_cons by (cbn [length]; lia). cbn [map concat]. unfold copy_instrs at 1. cbn [app].
  replace (Z.succ (Z.of_nat (length copied))) with (Z.of_nat (length (copied ++ [v]))) by (rewrite length_app; simpl; lia).
  replace (Z.pred (Z.of_nat (length (v :: rest)))) with (Z.of_nat (length rest)) by (cbn [length]; lia).
  assert (Hcopied : 8 * Z.of_nat (length copied) + 8 <= frame) by lia.
  eapply runs_cons; [cbn; lia|done|done| |].
  { cbn [exec regs mem rip]. rewrite Hq, wrap_id by lia.
    replace (q + (72 + frame + 8 * Z.of_nat (length copied))) with (q + 72 + frame + 8 * Z.of_nat (length copied)) by lia.
    erewrite get_word_ok; [reflexivity|]. apply (holds_lookup _ _ args); [|done].
    apply holds_put_apart; [|done]. unfold apart. lia. }
  eapply runs_cons; [cbn; lia|done| | |exact Hr].
  { unfold stores_in. cbn [stores_at regs]. cbn [upd Z.eqb Pos.eqb]. rewrite Hq, wrap_id by lia. lia. }
  cbn [exec regs mem rip]. cbn [upd Z.eqb Pos.eqb]. rewrite Hq, wrap_id by lia.
  rewrite put_word_ok by (apply writable_put; intros x Hx; apply Hw; lia). by rewrite put_app.
Qed.

(** The state the shuffle leaves, and the words above it that are still there. *)
Lemma run_enter target n a ret args m :
  n = Z.of_nat (length args) -> n <= 32 -> 0 <= target < 2 ^ 64 ->
  thunk_entry (emit_returning target n) (frame_size n + 24) a ret args m ->
  let sp := regs m RSP in
  let q := sp - 16 - frame_size n in
  exists m1, runs (q - 8) sp (enter_instrs target n) m m1 /\
    regs m1 RAX = target /\ regs m1 RSP = q /\ in_registers sysv_regs (regs m1) args /\
    (forall r, r ∈ sysv_saved -> regs m1 r = regs m r) /\
    mem m1 = put 8 q (drop 6 args) (put 8 (sp - 16) [regs m RSI] (put 8 (sp - 8) [regs m RDI] (mem m))).
Proof.
  intros Hn Hmax Ht He sp q. destruct m as [f a0 w]. cbn [regs mem rip] in *. set (frame := frame_size n) in *.
  destruct He as [Hc Hcode Hwords Hargs Hrange [Hst Hst'] [Hr Hw] Hap].
  destruct Hc as [Hrip Hal Hregs Hstack Hret]. cbn [regs mem rip] in *. subst a0. fold sp in Hst, Hst', Hr, Hw, Hap, Hstack, Hret.
  destruct (frame_bounds n ltac:(lia)) as (Hs & Hf & Hmod & Hfb). fold frame in Hf, Hmod, Hfb.
  destruct (run_shuffle (q - 8) frame sp f a w eq_refl ltac:(unfold q; lia) ltac:(unfold q; lia) ltac:(lia) ltac:(lia))
    as (a1 & R1).
  { intros x Hx. apply Hw. unfold q in Hx. lia. }
  set (f1 := upd RCX _ _) in R1. set (w1 := put 8 (sp - 16) _ _) in R1.
  assert (Hstack1 : holds 8 w1 (sp + 0x28) (drop 4 args)).
  { unfold w1. do 2 (apply holds_put_apart; [unfold apart; cbn [length]; lia|]). done. }
  destruct (run_loads (q - 8) sp (0x38 + frame) n args f1 a1 w1 Hn ltac:(lia)) as (f2 & a2 & R2 & K2 & K4 & K5).
  { change (f1 RSP) with (sp - 16 - frame). lia. }
  { change (f1 RSP) with (sp - 16 - frame). lia. }
  { change (f1 RSP) with (sp - 16 - frame). by replace (sp - 16 - frame + (56 + frame)) with (sp + 40) by lia. }
  replace (56 + frame + 8) with (0x40 + frame) in R2 by lia.
  assert (Hq2 : f2 RSP = q) by (by rewrite K2).
  assert (Hdrop : stack_args n = Z.of_nat (length (drop 6 args))) by (rewrite length_drop, Hs; lia).
  assert (Hstack6 : holds 8 w1 (q + 0x48 + frame) (drop 6 args)).
  { replace (q + 0x48 + frame) with (sp + 0x28 + 0x10) by (unfold q; lia).
    destruct (decide (length args <= 5)%nat) as [Hshort|Hlong].
    - rewrite drop_ge by lia. split; [intros x Hx; cbn [length] in Hx; lia|done].
    - rewrite <- (take_drop 2 (drop 4 args)), drop_drop in Hstack1. apply holds_app in Hstack1 as [_ Hstack1].
      rewrite length_take, length_drop, Nat.min_l in Hstack1 by lia. exact Hstack1. }
  destruct (run_copies frame w1 q (drop 6 args) (drop 6 args) [] f2 a2 Hq2) as (f3 & a3 & R3 & K3); try done.
  { unfold q. lia. } { lia. } { rewrite length_drop. lia. } { lia. }
  { unfold q. rewrite length_drop. lia. }
  { unfold w1. do 2 apply writable_put. intros x Hx. apply Hw. unfold q in Hx. lia. }
  eexists. split.
  - unfold enter_instrs. fold frame. eapply runs_app; [exact R1|]. rewrite app_assoc. eapply runs_app; [exact R2|].
    eapply runs_app.
    + rewrite Hdrop. rewrite put_nil in R3. eapply runs_widen; [| |exact R3]; unfold q; lia.
    + eapply runs_cons; [cbn; lia|done|done|reflexivity|apply runs_nil].
  - cbn [regs mem]. split_and!.
    + done.
    + cbn [upd Z.eqb Pos.eqb]. by rewrite K3.
    + intros i r v Hi Hv. destruct i as [|[|[|[|[|[|i]]]]]]; cbn in Hi; simplify_eq; cbn [upd Z.eqb Pos.eqb];
        rewrite K3 by done.
      1-4: rewrite K2 by done; cbn [f1 upd Z.eqb Pos.eqb].
      * exact (Hregs 0%nat _ v eq_refl Hv).
      * exact (Hregs 1%nat _ v eq_refl Hv).
      * exact (Hregs 2%nat _ v eq_refl Hv).
      * exact (Hregs 3%nat _ v eq_refl Hv).
      * by apply K4.
      * by apply K5.
    + intros r Hin. unfold sysv_saved in Hin. rewrite !elem_of_cons, elem_of_nil in Hin.
      destruct Hin as [-> |[-> |[-> |[-> |[-> |[-> |[]]]]]]]; cbn [upd Z.eqb Pos.eqb]; rewrite K3, K2 by done; reflexivity.
    + done.
Qed.

(** A System V callee returns: to its return address, with the stack, the saved
    registers and the bytes of its caller's frame as they were. *)
Record sysv_returned (ret keep_lo keep_hi : Z) (m1 m2 : Machine W) : Prop := {
  sr_rip : rip m2 = ret;
  sr_rsp : regs m2 RSP = regs m1 RSP + 8;
  sr_saved : forall r, r ∈ sysv_saved -> regs m2 r = regs m1 r;
  sr_kept : forall x, keep_lo <= x < keep_hi -> byte_at (mem m2) x = byte_at (mem m1) x /\ prot_at (mem m2) x = prot_at (mem m1) x
}.

(** The Windows caller gets back its stack and its saved registers. *)
Record win_returned (ret : Z) (m m3 : Machine W) : Prop := {
  wr_rip : rip m3 = ret;
  wr_rsp : regs m3 RSP = regs m RSP + 8;
  wr_saved : forall r, r ∈ win_saved -> regs m3 r = regs m r
}.

Lemma run_leave n m2 sp s d : 0 <= n <= 32 -> regs m2 RSP = sp - 16 - frame_size n ->
  0 <= sp - 16 - frame_size n -> sp < 2 ^ 64 -> holds 8 (mem m2) (sp - 16) [s] -> holds 8 (mem m2) (sp - 8) [d] ->
  exists m3, runs 0 0 (leave_instrs n) m2 m3 /\ regs m3 RSP = sp /\ mem m3 = mem m2 /\
    regs m3 RSI = s /\ regs m3 RDI = d /\ (forall r, r <> RSP -> r <> RSI -> r <> RDI -> regs m3 r = regs m2 r).
Proof.
  intros Hn Hq H0 Hsp Hs Hd. destruct (frame_bounds n Hn) as (_ & _ & _ & Hb). destruct m2 as [f a w]. cbn [regs mem] in *.
  eexists. split.
  - eapply runs_cons; [cbn; lia|done|done|reflexivity|]. cbn [regs mem rip]. rewrite Hq, wrap_id by lia.
    replace (sp - 16 - frame_size n + frame_size n) with (sp - 16) by lia.
    eapply runs_cons; [cbn; lia|done|done| |].
    { cbn [exec regs mem rip]. cbn [upd Z.eqb Pos.eqb]. rewrite (get_word_ok _ _ _ Hs). reflexivity. }
    rewrite wrap_id by lia. replace (sp - 16 + 8) with (sp - 8) by lia.
    eapply runs_cons; [cbn; lia|done|done| |apply runs_nil].
    cbn [exec regs mem rip]. cbn [upd Z.eqb Pos.eqb]. rewrite (get_word_ok _ _ _ Hd). reflexivity.
  - cbn [regs mem]. cbn [upd Z.eqb Pos.eqb]. rewrite wrap_id by lia. split_and!; [lia|done..|].
    intros r H1 H2 H3. unfold upd. apply Z.eqb_neq in H1, H2, H3. by rewrite H1, H2, H3.
Qed.

Definition return_point (target n a : Z) : Z := a + Z.of_nat (length (code_of (enter_instrs target n))) + 2.

Lemma saved_not_rsp r : r ∈ sysv_saved -> r <> RSP /\ r <> RSI /\ r <> RDI.
Proof.
  unfold sysv_saved. rewrite !elem_of_cons, elem_of_nil.
  intros [-> |[-> |[-> |[-> |[-> |[-> |[]]]]]]]; done.
Qed.

Lemma thunk_enters target n a ret args m :
  n = Z.of_nat (length args) -> n <= 32 -> 0 <= target < 2 ^ 64 ->
  thunk_entry (emit_returning target n) (frame_size n + 24) a ret args m ->
  let sp := regs m RSP in
  exists m1, rtc steps_to m m1 /\ sysv_called target (return_point target n a) args m1 /\
    regs m1 RSP = sp - 24 - frame_size n /\ (forall r, r ∈ sysv_saved -> regs m1 r = regs m r) /\
    only_changed (sp - 24 - frame_size n) sp (mem m) (mem m1) /\
    holds 8 (mem m1) (sp - 16) [regs m RSI] /\ holds 8 (mem m1) (sp - 8) [regs m RDI] /\ holds 8 (mem m1) sp [ret].
Proof.
  intros Hn Hmax Ht He sp. destruct (frame_bounds n ltac:(lia)) as (Hs & Hf & Hmod & Hfb).
  destruct (run_enter target n a ret args m Hn Hmax Ht He) as (m0 & Hrun & Hrax & Hrsp & Hregs & Hsaved & Hmem).
  fold sp in Hrun, Hrsp, Hmem. set (frame := frame_size n) in *. set (q := sp - 16 - frame) in *.
  destruct He as [[Hrip Hal _ Hstk Hret] Hcode Hwords Hargs Hrange [Hst Hst'] [Hr Hw] Hap].
  fold sp in Hst, Hst', Hr, Hw, Hap, Hret, Hal. rewrite emit_returning_code in * by lia. rewrite <- Hrip in Hcode.
  destruct (runs_steps _ _ _ _ _ _ Hrun Hcode) as (Hsteps & Hrip0 & Hcode0 & _);
    [rewrite Hrip; unfold apart, q in *; lia|].
  apply code_at_app in Hcode0 as [Hcall _]. apply Forall_cons_1 in Hargs as [Hret64 Hargs].
  set (back := return_point target n a). assert (Hback : rip m0 + 2 = back) by (rewrite Hrip0, Hrip; done).
  assert (Hback64 : unit_range 8 back).
  { unfold back, return_point, unit_range. rewrite !length_app in Hrange. cbn [encode length] in Hrange.
    change (8 * Z.of_nat 8) with 64. lia. }
  assert (Hlen6 : Z.of_nat (length (drop 6 args)) = stack_args n) by (rewrite length_drop, Hs; lia).
  assert (Hroom : forall b k, q - 8 <= b -> b + k <= sp -> readable (mem m) b k /\ writable (mem m) b k)
    by (intros b k H1 H2; split; intros x Hx; [apply Hr|apply Hw]; unfold q in *; lia).
  assert (Hwr : writable (mem m0) (q - 8) 8).
  { rewrite Hmem. do 3 apply writable_put. apply (Hroom (q - 8) 8); unfold q; lia. }
  exists (mkMachine (upd RSP (q - 8) (regs m0)) target (put 8 (q - 8) [back] (mem m0))). split; [|cbn [regs mem rip]].
  { eapply rtc_r; [exact Hsteps|]. unfold steps_to. destruct m0 as [f0 r0 w0]. cbn [regs mem rip] in *.
    rewrite (step_encode (Call RAX) w0 r0 f0 ltac:(cbn; lia) Hcall). cbn [exec regs mem encode length].
    rewrite Hrsp, Hrax, wrap_id by (unfold q; lia). change (Z.of_nat 2) with 2. rewrite Hback. by rewrite put_word_ok. }
  assert (Hword : forall b v w', unit_range 8 v -> q - 8 <= b -> b + 8 <= sp -> readable w' b 8 ->
    holds 8 (put 8 b [v] w') b [v]) by (intros; apply holds_put; [by apply list.Forall_singleton|done]).
  split_and!.
  - split; cbn [regs mem rip]; change (upd RSP (q - 8) (regs m0) RSP) with (q - 8).
    + done.
    + unfold q. Z.to_euclidean_division_equations. lia.
    + intros i r v Hi Hv. unfold upd. rewrite (proj2 (Z.eqb_neq r RSP)); [by apply (Hregs i)|].
      intros ->. destruct i as [|[|[|[|[|[|i]]]]]]; by cbn in Hi.
    + replace (q - 8 + 8) with q by lia. apply holds_put_apart; [unfold apart; cbn [length]; lia|]. rewrite Hmem.
      apply holds_put; [by apply Forall_drop|]. apply readable_put, readable_put. change (length sysv_regs) with 6%nat.
      apply Hroom; unfold q; lia.
    + apply Hword; [done|lia|unfold q; lia|]. rewrite Hmem. do 3 apply readable_put. apply Hroom; unfold q; lia.
  - change (q - 8 = sp - 24 - frame). unfold q. lia.
  - intros r Hin. unfold upd. destruct (saved_not_rsp r Hin) as [Hne _]. rewrite (proj2 (Z.eqb_neq _ _) Hne). by apply Hsaved.
  - rewrite Hmem. do 4 (apply only_changed_put; [|unfold q in *; cbn [length]; lia..]). apply only_changed_refl.
  - apply holds_put_apart; [unfold apart, q; cbn [length]; lia|]. rewrite Hmem.
    apply holds_put_apart; [unfold apart, q; cbn [length]; lia|]. apply Hword; [apply Hwords|unfold q; lia|lia|].
    apply readable_put, Hroom; unfold q; lia.
  - apply holds_put_apart; [unfold apart, q; cbn [length]; lia|]. rewrite Hmem.
    apply holds_put_apart; [unfold apart, q; cbn [length]; lia|]. apply holds_put_apart; [unfold apart; cbn [length]; lia|].
    apply Hword; [apply Hwords|unfold q; lia|lia|]. apply Hroom; unfold q; lia.
  - apply (holds_unchanged (q - 8) sp (mem m)); [|unfold apart; cbn [length]; lia|done]. rewrite Hmem.
    do 4 (apply only_changed_put; [|unfold q in *; cbn [length]; lia..]). apply only_changed_refl.
Qed.

Lemma thunk_leaves target n a ret (args : list Z) m m2 :
  n = Z.of_nat (length args) -> n <= 32 -> 0 <= target < 2 ^ 64 ->
  let sp := regs m RSP in
  0 <= a -> rip m2 = return_point target n a -> code_at (mem m2) a (emit_returning target n) ->
  regs m2 RSP = sp - 16 - frame_size n -> 0 <= sp - 16 - frame_size n -> sp + 8 < 2 ^ 64 ->
  holds 8 (mem m2) (sp - 16) [regs m RSI] -> holds 8 (mem m2) (sp - 8) [regs m RDI] -> holds 8 (mem m2) sp [ret] ->
  (forall r, r ∈ sysv_saved -> regs m2 r = regs m r) ->
  exists m3, rtc steps_to m2 m3 /\ win_returned ret m m3 /\ regs m3 RAX = regs m2 RAX /\ mem m3 = mem m2.
Proof.
  intros Hn Hmax Ht sp Ha Hrip Hcode Hq H0 Hsp Hs Hd Hret Hsaved.
  destruct (frame_bounds n ltac:(lia)) as (_ & _ & _ & Hfb). rewrite emit_returning_code in Hcode by lia.
  apply code_at_app in Hcode as [_ Hcode]. apply code_at_app in Hcode as [_ Hcode].
  assert (Hat : code_at (mem m2) (rip m2) (code_of (leave_instrs n) ++ encode Ret)) by (by rewrite Hrip).
  destruct (run_leave n m2 sp _ _ ltac:(lia) Hq H0 ltac:(lia) Hs Hd) as (m3 & Hrun & Hrsp & Hmem & Hsi & Hdi & Hother).
  destruct (runs_steps _ _ _ _ _ _ Hrun Hat) as (Hsteps & Hrip3 & Hcode3 & _).
  { rewrite Hrip. unfold apart. right. unfold return_point. lia. }
  rewrite <- Hmem in Hret. destruct m3 as [f3 r3 w3]. cbn [regs mem rip] in *.
  exists (mkMachine (upd RSP (wrap 64 (sp + 8)) f3) ret w3). split_and!.
  - eapply rtc_r; [exact Hsteps|]. unfold steps_to. rewrite (step_encode Ret w3 r3 f3 I Hcode3).
    cbn [exec regs mem]. rewrite Hrsp. by rewrite (get_word_ok _ _ _ Hret).
  - split; cbn [regs mem rip].
    + done.
    + cbn [upd Z.eqb Pos.eqb]. apply wrap_id. lia.
    + intros r Hin. unfold win_saved in Hin. rewrite !elem_of_cons in Hin. destruct Hin as [-> |[-> |Hin]]; [done..|].
      destruct (saved_not_rsp r Hin) as (N1 & N2 & N3). unfold upd. rewrite (proj2 (Z.eqb_neq _ _) N1), Hother by done.
      by apply Hsaved.
  - cbn [upd Z.eqb Pos.eqb]. by apply Hother.
  - done.
Qed.

(** C10. A trampoline translates between the calling conventions. Entered by a
    Windows call with up to 32 arguments, it reaches the implementation as a
    System V call with the same arguments: six in registers, the others on the
    stack, the stack aligned, only the room under the caller's stack written. When
    the implementation returns as System V asks, the trampoline returns to the
    guest with the result, the stack and all the integer registers that Windows
    code expects to be saved. *)
Theorem thunk_call target n a ret (args : list Z) m :
  n = Z.of_nat (length args) -> n <= 32 -> 0 <= target < 2 ^ 64 ->
  thunk_entry (emit_returning target n) (frame_size n + 24) a ret args m ->
  let sp := regs m RSP in
  exists m1 back,
    rtc steps_to m m1 /\ sysv_called target back args m1 /\
    (forall r, r ∈ sysv_saved -> regs m1 r = regs m r) /\
    only_changed (sp - 24 - frame_size n) sp (mem m) (mem m1) /\
    forall m2, sysv_returned back (regs m1 RSP + 8 + 8 * stack_args n) (sp + 8) m1 m2 ->
      code_at (mem m2) a (emit_returning target n) ->
      exists m3, rtc steps_to m2 m3 /\ win_returned ret m m3 /\ regs m3 RAX = regs m2 RAX /\ mem m3 = mem m2.
Proof.
  intros Hn Hmax Ht He sp. destruct (frame_bounds n ltac:(lia)) as (_ & Hf & _).
  destruct (thunk_enters _ _ _ _ _ _ Hn Hmax Ht He) as (m1 & H1 & H2 & Hq & H3 & H4 & Hsi & Hdi & Hret).
  fold sp in Hq, H4, Hsi, Hdi, Hret. destruct He as [_ _ _ _ [Ha _] [Hst Hst'] _ _]. fold sp in Hst, Hst'.
  exists m1, (return_point target n a). split_and!; [done..|]. intros m2 [Hr Hrsp Hsv Hkept] Hcode.
  assert (Hw : forall b v, sp - 16 <= b -> b + 8 <= sp + 8 -> holds 8 (mem m1) b [v] -> holds 8 (mem m2) b [v]).
  { intros b v Hb1 Hb2. apply holds_ext. intros x Hx. cbn [length] in Hx. apply Hkept. lia. }
  apply (thunk_leaves target n a ret args m m2); try done; fold sp; try lia.
  - apply Hw; [lia..|done].
  - apply Hw; [lia..|done].
  - apply Hw; [lia..|done].
  - intros r Hin. by rewrite Hsv, H3.
Qed.

(** A trampoline that does not return jumps to the implementation as if the
    guest had called it under the System V convention: up to six arguments in its
    registers, the stack and memory untouched, the guest's return address on top. *)
Theorem thunk_call_noreturn target n a ret (args : list Z) m :
  n = Z.of_nat (length args) -> n <= 6 -> 0 <= target < 2 ^ 64 ->
  thunk_entry (emit_noreturn target n) 0 a ret args m ->
  exists m1, rtc steps_to m m1 /\ sysv_called target ret args m1 /\ regs m1 RSP = regs m RSP /\ mem m1 = mem m /\
    forall r, r ∈ sysv_saved -> regs m1 r = regs m r.
Proof.
  intros Hn Hmax Ht [[Hrip Hal Hregs Hstk Hret] Hcode Hwords Hargs Hrange [Hst Hst'] _ Hap].
  destruct m as [f a0 w]. cbn [regs mem rip] in *. subst a0. rewrite emit_noreturn_code in Hcode, Hap.
  set (f1 := upd RCX (f R9) (upd RDX (f R8) (upd RSI (f RDX) (upd RDI (f RCX) f)))).
  assert (R1 : runs (f RSP) (f RSP) [Mov RDI RCX; Mov RSI RDX; Mov RDX R8; Mov RCX R9] (mkMachine f a w)
    (mkMachine f1 (a + 3 + 3 + 3 + 3) w)) by (do 4 (eapply runs_cons; [cbn; lia|done|done|reflexivity|]); apply runs_nil).
  destruct (run_loads (f RSP) (f RSP) 0x28 n args f1 (a + 3 + 3 + 3 + 3) w Hn ltac:(lia)) as (f2 & a2 & R2 & K2 & K4 & K5);
    [cbn; lia..|exact Hstk|]. change (0x28 + 8) with 0x30 in R2.
  assert (R3 : runs (f RSP) (f RSP) [MovImm RAX target] (mkMachine f2 a2 w) (mkMachine (upd RAX target f2) (a2 + 10) w))
    by (eapply runs_cons; [cbn; lia|done|done|reflexivity|apply runs_nil]).
  pose proof (runs_app _ _ _ _ _ _ _ R1 (runs_app _ _ _ _ _ _ _ R2 R3)) as Hrun. rewrite <- app_assoc in Hrun.
  destruct (runs_steps _ _ _ _ _ _ Hrun Hcode) as (Hsteps & _ & Hjmp & _).
  { unfold apart in *. cbn [rip]. lia. }
  exists (mkMachine (upd RAX target f2) target w). cbn [regs mem rip]. split_and!.
  - eapply rtc_r; [exact Hsteps|]. unfold steps_to. rewrite (step_encode (Jmp RAX)); [done|cbn; lia|exact Hjmp].
  - split; cbn [regs mem rip]; change (upd RAX target f2 RSP) with (f2 RSP); rewrite ?K2 by done; try done.
    + intros i r v Hi Hv. destruct i as [|[|[|[|[|[|i]]]]]]; cbn in Hi; simplify_eq; cbn [upd Z.eqb Pos.eqb].
      1-4: rewrite K2 by done; cbn [f1 upd Z.eqb Pos.eqb].
      * exact (Hregs 0%nat _ v eq_refl Hv).
      * exact (Hregs 1%nat _ v eq_refl Hv).
      * exact (Hregs 2%nat _ v eq_refl Hv).
      * exact (Hregs 3%nat _ v eq_refl Hv).
      * by apply K4.
      * by apply K5.
    + rewrite drop_ge by (cbn; lia). split; [intros x Hx; cbn [length] in Hx; lia|done].
  - cbn [upd Z.eqb Pos.eqb]. by rewrite K2.
  - done.
  - intros r Hin. unfold sysv_saved in Hin. rewrite !elem_of_cons, elem_of_nil in Hin.
    destruct Hin as [-> |[-> |[-> |[-> |[-> |[-> |[]]]]]]]; cbn [upd Z.eqb Pos.eqb]; rewrite K2 by done; reflexivity.
Qed.
End Calls.

(** ** Concrete calls *)

(** Code at 4096, sealed, and a stack with a return address and three arguments. *)
Definition call_world (code : list Z) : SmallHost.World :=
  put 8 4848 [50; 60; 70] (put 8 4808 [30583]
    (snd (sys_mprotect 4096 256 prot_rx (put 1 4096 code (snd (sys_mmap 0 1024 false SmallHost.empty)))))).

Definition call_regs (r : Z) : Z :=
  if r =? RCX then 10 else if r =? RDX then 20 else if r =? R8 then 30 else if r =? R9 then 40
  else if r =? RSP then 4808 else if r =? RDI then 7 else if r =? RSI then 6 else 0.

Lemma call_words code a : words (mkMachine call_regs a (call_world code)).
Proof. intros r. unfold unit_range, call_regs. cbn [regs]. repeat case_match; split; done. Qed.

Ltac check_entry :=
  split; cbn [regs mem rip];
  [ split; cbn [regs mem rip];
    [ reflexivity | reflexivity
    | intros [|[|[|[|i]]]] r v Hi Hv; cbn in Hi, Hv; simplify_eq; reflexivity
    | apply holds_b_sound; vm_compute; reflexivity
    | apply holds_b_sound; vm_compute; reflexivity ]
  | split; [apply may_all_spec; vm_compute; reflexivity | vm_compute; reflexivity]
  | apply call_words
  | repeat constructor; done
  | split; done
  | split; done
  | split; [apply may_all_readable | apply may_all_writable]; vm_compute; reflexivity
  | left; vm_compute; discriminate ].

Lemma thunk_call_witness :
  let m := mkMachine call_regs 4096 (call_world (emit_returning 9000 7)) in
  exists m1 back, rtc steps_to m m1 /\ sysv_called 9000 back [10; 20; 30; 40; 50; 60; 70] m1.
Proof.
  intros m. destruct (thunk_call 9000 7 4096 30583 [10; 20; 30; 40; 50; 60; 70] m) as (m1 & back & H1 & H2 & _);
    [reflexivity|discriminate|split; [discriminate|reflexivity]|check_entry|].
  exists m1, back. split; [exact H1|exact H2].
Defined.

Lemma thunk_call_noreturn_witness :
  let m := mkMachine call_regs 4096 (call_world (emit_noreturn 9000 6)) in
  exists m1, rtc steps_to m m1 /\ sysv_called 9000 30583 [10; 20; 30; 40; 50; 60] m1.
Proof.
  intros m. destruct (thunk_call_noreturn 9000 6 4096 30583 [10; 20; 30; 40; 50; 60] m) as (m1 & H1 & H2 & _);
    [reflexivity|discriminate|split; [discriminate|reflexivity]|check_entry|].
  exists m1. split; [exact H1|exact H2].
Defined.
