(* ===== verification/ExportTables.v ===== *)
(** * The export tables

    The functions the layer offers to Windows programs, as the crates list them:
    the library and name a program imports, the Rust function behind it, its
    argument count and whether it returns. Rows are in the order of the source; a
    Rust function is named by its path. The last sections list the methods of the
    Direct3D interfaces, one thunk each. *)
From Stdlib Require Import ZArith String.
From stdpp Require Import base list.
From S2P Require Import Prelude.
Set Warnings "-register-all".

(** [ImportSpec], and [ExportSpec] and its kin in the other crates. *)
Record ImportSpec : Type := mkSpec {
  dll : string;
  sym : string;
  target : string;
  n_args : Z;
  noreturn : bool
}.

Definition fn (dll sym target : string) (n_args : Z) : ImportSpec := mkSpec dll sym target n_args false.
Definition fn_noreturn (dll sym target : string) (n_args : Z) : ImportSpec := mkSpec dll sym target n_args true.

(** ** Functions *)

Definition base_specs_1 : list ImportSpec := [
  fn_noreturn "kernel32.dll" "ExitProcess" "ntapi::process::exit_process" 1;
  fn "kernel32.dll" "GetStdHandle" "ntapi::process::get_std_handle" 1;
  fn "kernel32.dll" "WriteFile" "ntapi::process::write_file" 5;
  fn "kernel32.dll" "ReadFile" "ntapi::process::read_file" 5;
  fn "kernel32.dll" "GetLastError" "ntapi::process::get_last_error" 0;
  fn "kernel32.dll" "SetLastError" "ntapi::process::set_last_error" 1;
  fn "kernel32.dll" "GetTickCount" "ntapi::process::get_tick_count" 0;
  fn "kernel32.dll" "GetTickCount64" "ntapi::process::get_tick_count_64" 0;
  fn "kernel32.dll" "QueryPerformanceCounter" "ntapi::process::query_performance_counter" 1;
  fn "kernel32.dll" "QueryPerformanceFrequency" "ntapi::process::query_performance_frequency" 1;
  fn "kernel32.dll" "CloseHandle" "ntapi::process::close_handle" 1;
  fn "kernel32.dll" "VirtualAlloc" "ntapi::memory::virtual_alloc" 4;
  fn "kernel32.dll" "VirtualFree" "ntapi::memory::virtual_free" 3;
  fn "kernel32.dll" "VirtualProtect" "ntapi::memory::virtual_protect" 4;
  fn "kernel32.dll" "VirtualQuery" "ntapi::memory::virtual_query" 3;
  fn "kernel32.dll" "InitializeCriticalSection" "ntapi::sync::initialize_critical_section" 1;
  fn "kernel32.dll" "EnterCriticalSection" "ntapi::sync::enter_critical_section" 1;
  fn "kernel32.dll" "LeaveCriticalSection" "ntapi::sync::leave_critical_section" 1;
  fn "kernel32.dll" "DeleteCriticalSection" "ntapi::sync::delete_critical_section" 1;
  fn "kernel32.dll" "CreateEventW" "ntapi::sync::create_event_w" 4
].

Definition base_specs_2 : list ImportSpec := [
  fn "kernel32.dll" "SetEvent" "ntapi::sync::set_event" 1;
  fn "kernel32.dll" "ResetEvent" "ntapi::sync::reset_event" 1;
  fn "kernel32.dll" "PulseEvent" "ntapi::sync::pulse_event" 1;
  fn "kernel32.dll" "CreateMutexW" "ntapi::sync::create_mutex_w" 3;
  fn "kernel32.dll" "ReleaseMutex" "ntapi::sync::release_mutex" 1;
  fn "kernel32.dll" "CreateSemaphoreW" "ntapi::sync::create_semaphore_w" 4;
  fn "kernel32.dll" "ReleaseSemaphore" "ntapi::sync::release_semaphore" 3;
  fn "kernel32.dll" "InitializeSRWLock" "ntapi::sync::initialize_srw_lock" 1;
  fn "kernel32.dll" "AcquireSRWLockExclusive" "ntapi::sync::acquire_srw_lock_exclusive" 1;
  fn "kernel32.dll" "AcquireSRWLockShared" "ntapi::sync::acquire_srw_lock_shared" 1;
  fn "kernel32.dll" "ReleaseSRWLockExclusive" "ntapi::sync::release_srw_lock_exclusive" 1;
  fn "kernel32.dll" "ReleaseSRWLockShared" "ntapi::sync::release_srw_lock_shared" 1;
  fn "kernel32.dll" "Sleep" "ntapi::sync::sleep" 1;
  fn "kernel32.dll" "SleepEx" "ntapi::sync::sleep_ex" 2;
  fn "kernel32.dll" "WaitForSingleObject" "ntapi::sync::wait_for_single_object" 2;
  fn "kernel32.dll" "WaitForMultipleObjects" "ntapi::sync::wait_for_multiple_objects" 4;
  fn "kernel32.dll" "CreateThread" "ntapi::thread::create_thread" 6;
  fn "kernel32.dll" "GetCurrentThread" "ntapi::thread::get_current_thread" 0;
  fn "kernel32.dll" "GetCurrentProcess" "ntapi::thread::get_current_process" 0;
  fn "kernel32.dll" "GetCurrentThreadId" "ntapi::thread::get_current_thread_id" 0;
  fn "kernel32.dll" "GetCurrentProcessId" "ntapi::thread::get_current_process_id" 0
].

Definition base_specs_3 : list ImportSpec := [
  fn "kernel32.dll" "GetThreadId" "ntapi::thread::get_thread_id" 1;
  fn "kernel32.dll" "ResumeThread" "ntapi::thread::resume_thread" 1;
  fn "kernel32.dll" "SuspendThread" "ntapi::thread::suspend_thread" 1;
  fn "kernel32.dll" "TlsAlloc" "ntapi::thread::tls_alloc" 0;
  fn "kernel32.dll" "TlsFree" "ntapi::thread::tls_free" 1;
  fn "kernel32.dll" "TlsGetValue" "ntapi::thread::tls_get_value" 1;
  fn "kernel32.dll" "TlsSetValue" "ntapi::thread::tls_set_value" 2;
  fn_noreturn "ntdll.dll" "NtTerminateProcess" "ntapi::process::nt_terminate_process" 2;
  fn "ntdll.dll" "NtClose" "ntapi::process::nt_close" 1;
  fn "ntdll.dll" "NtWriteFile" "ntapi::process::nt_write_file" 9;
  fn "ntdll.dll" "NtReadFile" "ntapi::process::nt_read_file" 9;
  fn "vcruntime140.dll" "memset" "pe_loader::imports::vcruntime_memset" 3;
  fn "vcruntime140.dll" "memcpy" "pe_loader::imports::vcruntime_memcpy" 3;
  fn "vcruntime140.dll" "memmove" "pe_loader::imports::vcruntime_memmove" 3;
  fn "vcruntime140_1.dll" "memset" "pe_loader::imports::vcruntime_memset" 3;
  fn "vcruntime140_1.dll" "memcpy" "pe_loader::imports::vcruntime_memcpy" 3;
  fn "vcruntime140_1.dll" "memmove" "pe_loader::imports::vcruntime_memmove" 3;
  fn "ucrtbase.dll" "memset" "pe_loader::imports::vcruntime_memset" 3;
  fn "ucrtbase.dll" "memcpy" "pe_loader::imports::vcruntime_memcpy" 3;
  fn "ucrtbase.dll" "memmove" "pe_loader::imports::vcruntime_memmove" 3
].

Definition base_specs_4 : list ImportSpec := [
  fn "msvcrt.dll" "memset" "pe_loader::imports::vcruntime_memset" 3;
  fn "msvcrt.dll" "memcpy" "pe_loader::imports::vcruntime_memcpy" 3;
  fn "msvcrt.dll" "memmove" "pe_loader::imports::vcruntime_memmove" 3
].

Definition base_specs : list ImportSpec := base_specs_1 ++ base_specs_2 ++ base_specs_3 ++ base_specs_4.

Definition kernel32_exports : list ImportSpec := [
  fn "kernel32.dll" "GetStdHandle" "win32_kernel32::console::get_std_handle" 1;
  fn "kernel32.dll" "WriteFile" "win32_kernel32::file::write_file" 5;
  fn "kernel32.dll" "ReadFile" "win32_kernel32::file::read_file" 5;
  fn "kernel32.dll" "WriteConsoleW" "win32_kernel32::console::write_console_w" 5;
  fn "kernel32.dll" "WriteConsoleA" "win32_kernel32::console::write_console_a" 5;
  fn "kernel32.dll" "GetConsoleMode" "win32_kernel32::console::get_console_mode" 2;
  fn "kernel32.dll" "SetConsoleMode" "win32_kernel32::console::set_console_mode" 2;
  fn "kernel32.dll" "CreateFileW" "win32_kernel32::file::create_file_w" 7;
  fn "kernel32.dll" "CreateFileA" "win32_kernel32::file::create_file_a" 7;
  fn "kernel32.dll" "GetFileSize" "win32_kernel32::file::get_file_size" 2;
  fn "kernel32.dll" "SetFilePointer" "win32_kernel32::file::set_file_pointer" 4;
  fn "kernel32.dll" "FlushFileBuffers" "win32_kernel32::file::flush_file_buffers" 1;
  fn "kernel32.dll" "GetProcessHeap" "win32_kernel32::heap::get_process_heap" 0;
  fn "kernel32.dll" "HeapAlloc" "win32_kernel32::heap::heap_alloc" 3;
  fn "kernel32.dll" "HeapFree" "win32_kernel32::heap::heap_free" 3;
  fn "kernel32.dll" "HeapReAlloc" "win32_kernel32::heap::heap_re_alloc" 5;
  fn "kernel32.dll" "HeapCreate" "win32_kernel32::heap::heap_create" 3;
  fn "kernel32.dll" "HeapDestroy" "win32_kernel32::heap::heap_destroy" 1;
  fn "kernel32.dll" "GetEnvironmentVariableW" "win32_kernel32::env::get_environment_variable_w" 4;
  fn "kernel32.dll" "SetEnvironmentVariableW" "win32_kernel32::env::set_environment_variable_w" 2;
  fn "kernel32.dll" "GetEnvironmentStringsW" "win32_kernel32::env::get_environment_strings_w" 0;
  fn "kernel32.dll" "FreeEnvironmentStringsW" "win32_kernel32::env::free_environment_strings_w" 1;
  fn "kernel32.dll" "GetCurrentProcessId" "win32_kernel32::process::get_current_process_id" 0;
  fn "kernel32.dll" "GetCurrentThreadId" "win32_kernel32::process::get_current_thread_id" 0;
  fn "kernel32.dll" "GetModuleHandleW" "win32_kernel32::process::get_module_handle_w" 1;
  fn "kernel32.dll" "GetModuleHandleA" "win32_kernel32::process::get_module_handle_a" 1;
  fn "kernel32.dll" "GetCommandLineW" "win32_kernel32::process::get_command_line_w" 0;
  fn "kernel32.dll" "GetCommandLineA" "win32_kernel32::process::get_command_line_a" 0;
  fn "kernel32.dll" "MultiByteToWideChar" "win32_kernel32::string::multi_byte_to_wide_char" 6;
  fn "kernel32.dll" "WideCharToMultiByte" "win32_kernel32::string::wide_char_to_multi_byte" 8;
  fn "kernel32.dll" "lstrlenW" "win32_kernel32::string::lstrlen_w" 1;
  fn "kernel32.dll" "lstrlenA" "win32_kernel32::string::lstrlen_a" 1;
  fn "kernel32.dll" "lstrcpyW" "win32_kernel32::string::lstrcpy_w" 2;
  fn "kernel32.dll" "lstrcatW" "win32_kernel32::string::lstrcat_w" 2;
  fn_noreturn "kernel32.dll" "ExitProcess" "win32_kernel32::process::exit_process" 1
].

Definition crt_export_specs : list ImportSpec := [
  fn "msvcrt.dll" "malloc" "win32_kernel32::crt::malloc" 1;
  fn "msvcrt.dll" "calloc" "win32_kernel32::crt::calloc" 2;
  fn "msvcrt.dll" "realloc" "win32_kernel32::crt::realloc" 2;
  fn "msvcrt.dll" "free" "win32_kernel32::crt::free" 1;
  fn "msvcrt.dll" "strlen" "win32_kernel32::crt::strlen" 1;
  fn "msvcrt.dll" "strncmp" "win32_kernel32::crt::strncmp" 3;
  fn "msvcrt.dll" "memcmp" "win32_kernel32::crt::memcmp" 3;
  fn "msvcrt.dll" "__iob_func" "win32_kernel32::crt::iob_func" 0;
  fn "msvcrt.dll" "fprintf" "win32_kernel32::crt::fprintf" 2;
  fn "msvcrt.dll" "vfprintf" "win32_kernel32::crt::vfprintf" 3;
  fn "msvcrt.dll" "_lock" "win32_kernel32::crt::lock" 1;
  fn "msvcrt.dll" "_unlock" "win32_kernel32::crt::unlock" 1;
  fn "msvcrt.dll" "__getmainargs" "win32_kernel32::crt::getmainargs" 5;
  fn "msvcrt.dll" "__set_app_type" "win32_kernel32::crt::set_app_type" 1;
  fn "msvcrt.dll" "__setusermatherr" "win32_kernel32::crt::setusermatherr" 1;
  fn "msvcrt.dll" "_fpreset" "win32_kernel32::crt::fpreset" 0;
  fn "msvcrt.dll" "_initterm" "win32_kernel32::crt::initterm" 2;
  fn "msvcrt.dll" "atexit" "win32_kernel32::crt::atexit" 1;
  fn "msvcrt.dll" "_cexit" "win32_kernel32::crt::cexit" 0;
  fn "msvcrt.dll" "signal" "win32_kernel32::crt::signal" 2;
  fn_noreturn "msvcrt.dll" "abort" "win32_kernel32::crt::abort" 0;
  fn_noreturn "msvcrt.dll" "exit" "win32_kernel32::crt::exit" 1;
  fn_noreturn "msvcrt.dll" "_amsg_exit" "win32_kernel32::crt::amsg_exit" 1
].

Definition ucrt_exports : list ImportSpec := [
  fn "ucrtbase.dll" "__acrt_iob_func" "win32_kernel32::ucrt::acrt_iob_func" 1;
  fn "ucrtbase.dll" "_errno" "win32_kernel32::ucrt::errno" 0;
  fn "ucrtbase.dll" "_lock" "win32_kernel32::crt::lock" 1;
  fn "ucrtbase.dll" "_unlock" "win32_kernel32::crt::unlock" 1;
  fn "ucrtbase.dll" "_configure_narrow_argv" "win32_kernel32::ucrt::configure_narrow_argv" 1;
  fn "ucrtbase.dll" "_initialize_narrow_environment" "win32_kernel32::ucrt::initialize_narrow_environment" 0;
  fn "ucrtbase.dll" "_get_initial_narrow_environment" "win32_kernel32::ucrt::get_initial_narrow_environment" 0;
  fn "ucrtbase.dll" "__p___argc" "win32_kernel32::ucrt::p_argc" 0;
  fn "ucrtbase.dll" "__p___argv" "win32_kernel32::ucrt::p_argv" 0;
  fn "ucrtbase.dll" "__p___wargv" "win32_kernel32::ucrt::p_wargv" 0;
  fn "ucrtbase.dll" "_configure_wide_argv" "win32_kernel32::ucrt::configure_wide_argv" 1;
  fn "ucrtbase.dll" "_initialize_wide_environment" "win32_kernel32::ucrt::initialize_wide_environment" 0;
  fn "ucrtbase.dll" "_get_initial_wide_environment" "win32_kernel32::ucrt::get_initial_wide_environment" 0;
  fn "ucrtbase.dll" "_set_app_type" "win32_kernel32::ucrt::set_app_type" 1;
  fn "ucrtbase.dll" "getenv" "win32_kernel32::ucrt::getenv" 1;
  fn "ucrtbase.dll" "_wfopen" "win32_kernel32::ucrt::wfopen" 2;
  fn "ucrtbase.dll" "_wpopen" "win32_kernel32::ucrt::wpopen" 2;
  fn "ucrtbase.dll" "_pclose" "win32_kernel32::ucrt::pclose" 1;
  fn "ucrtbase.dll" "_initialize_onexit_table" "win32_kernel32::ucrt::initialize_onexit_table" 1;
  fn "ucrtbase.dll" "_register_onexit_function" "win32_kernel32::ucrt::register_onexit_function" 2;
  fn "ucrtbase.dll" "_execute_onexit_table" "win32_kernel32::ucrt::execute_onexit_table" 1;
  fn "ucrtbase.dll" "_crt_atexit" "win32_kernel32::ucrt::crt_atexit" 1;
  fn "ucrtbase.dll" "_crt_at_quick_exit" "win32_kernel32::ucrt::crt_at_quick_exit" 1;
  fn "ucrtbase.dll" "_assert" "win32_kernel32::ucrt::assert" 3;
  fn_noreturn "ucrtbase.dll" "_c_exit" "win32_kernel32::ucrt::c_exit" 1;
  fn_noreturn "ucrtbase.dll" "_exit" "win32_kernel32::ucrt::exit_sys" 1;
  fn_noreturn "ucrtbase.dll" "abort" "win32_kernel32::ucrt::abort" 0;
  fn_noreturn "ucrtbase.dll" "exit" "win32_kernel32::ucrt::exit" 1;
  fn_noreturn "ucrtbase.dll" "quick_exit" "win32_kernel32::ucrt::quick_exit" 1;
  fn "ucrtbase.dll" "malloc" "win32_kernel32::ucrt::malloc" 1;
  fn "ucrtbase.dll" "calloc" "win32_kernel32::ucrt::calloc" 2;
  fn "ucrtbase.dll" "free" "win32_kernel32::ucrt::free" 1;
  fn "ucrtbase.dll" "realloc" "win32_kernel32::ucrt::realloc" 2;
  fn "ucrtbase.dll" "memset" "win32_kernel32::ucrt::memset" 3;
  fn "ucrtbase.dll" "memcpy" "win32_kernel32::ucrt::memcpy" 3;
  fn "ucrtbase.dll" "memmove" "win32_kernel32::ucrt::memmove" 3;
  fn "ucrtbase.dll" "memcmp" "win32_kernel32::ucrt::memcmp" 3;
  fn "ucrtbase.dll" "strlen" "win32_kernel32::ucrt::strlen" 1;
  fn "ucrtbase.dll" "strcpy" "win32_kernel32::ucrt::strcpy" 2;
  fn "ucrtbase.dll" "strncpy" "win32_kernel32::ucrt::strncpy" 3;
  fn "ucrtbase.dll" "strcmp" "win32_kernel32::ucrt::strcmp" 2;
  fn "ucrtbase.dll" "strncmp" "win32_kernel32::ucrt::strncmp" 3;
  fn "ucrtbase.dll" "strchr" "win32_kernel32::ucrt::strchr" 2;
  fn "ucrtbase.dll" "strstr" "win32_kernel32::ucrt::strstr" 2;
  fn "ucrtbase.dll" "wcslen" "win32_kernel32::ucrt::wcslen" 1;
  fn "ucrtbase.dll" "wcscpy" "win32_kernel32::ucrt::wcscpy" 2;
  fn "ucrtbase.dll" "wcscmp" "win32_kernel32::ucrt::wcscmp" 2;
  fn "ucrtbase.dll" "wcsncmp" "win32_kernel32::ucrt::wcsncmp" 3;
  fn "ucrtbase.dll" "wcschr" "win32_kernel32::ucrt::wcschr" 2;
  fn "ucrtbase.dll" "wcsstr" "win32_kernel32::ucrt::wcsstr" 2;
  fn "ucrtbase.dll" "wcsrchr" "win32_kernel32::ucrt::wcsrchr" 2;
  fn "ucrtbase.dll" "wcspbrk" "win32_kernel32::ucrt::wcspbrk" 2;
  fn "ucrtbase.dll" "wcscspn" "win32_kernel32::ucrt::wcscspn" 2;
  fn "ucrtbase.dll" "wcscat" "win32_kernel32::ucrt::wcscat" 2;
  fn "ucrtbase.dll" "wcstol" "win32_kernel32::ucrt::wcstol" 3;
  fn "ucrtbase.dll" "wcstoul" "win32_kernel32::ucrt::wcstoul" 3;
  fn "ucrtbase.dll" "_wcsicmp" "win32_kernel32::ucrt::wcsicmp" 2;
  fn "ucrtbase.dll" "_wcsnicmp" "win32_kernel32::ucrt::wcsnicmp" 3;
  fn "ucrtbase.dll" "_wcslwr" "win32_kernel32::ucrt::wcslwr" 1;
  fn "ucrtbase.dll" "_wcsupr" "win32_kernel32::ucrt::wcsupr" 1;
  fn "ucrtbase.dll" "_wcsrev" "win32_kernel32::ucrt::wcsrev" 1;
  fn "ucrtbase.dll" "_wcsdup" "win32_kernel32::ucrt::wcsdup" 1;
  fn "ucrtbase.dll" "_wsplitpath" "win32_kernel32::ucrt::wsplitpath" 5;
  fn "ucrtbase.dll" "iswspace" "win32_kernel32::ucrt::iswspace" 1;
  fn "ucrtbase.dll" "iswprint" "win32_kernel32::ucrt::iswprint" 1;
  fn "ucrtbase.dll" "iswdigit" "win32_kernel32::ucrt::iswdigit" 1;
  fn "ucrtbase.dll" "towupper" "win32_kernel32::ucrt::towupper" 1;
  fn "ucrtbase.dll" "towlower" "win32_kernel32::ucrt::towlower" 1;
  fn "ucrtbase.dll" "_set_invalid_parameter_handler" "win32_kernel32::ucrt::set_invalid_parameter_handler" 1;
  fn "ucrtbase.dll" "_set_thread_local_invalid_parameter_handler" "win32_kernel32::ucrt::set_thread_local_invalid_parameter_handler" 1;
  fn "ucrtbase.dll" "setlocale" "win32_kernel32::ucrt::setlocale" 2;
  fn "ucrtbase.dll" "__stdio_common_vfprintf" "win32_kernel32::ucrt::stdio_common_vfprintf" 5;
  fn "ucrtbase.dll" "__stdio_common_vfwprintf" "win32_kernel32::ucrt::stdio_common_vfwprintf" 5;
  fn "ucrtbase.dll" "__stdio_common_vsprintf_s" "win32_kernel32::ucrt::stdio_common_vsprintf_s" 6;
  fn "ucrtbase.dll" "__stdio_common_vsprintf" "win32_kernel32::ucrt::stdio_common_vsprintf" 6;
  fn "ucrtbase.dll" "__stdio_common_vswprintf" "win32_kernel32::ucrt::stdio_common_vswprintf" 6;
  fn "ucrtbase.dll" "sscanf" "win32_kernel32::ucrt::sscanf" 2;
  fn "ucrtbase.dll" "_sscanf_l" "win32_kernel32::ucrt::sscanf_l" 3;
  fn "ucrtbase.dll" "snprintf" "win32_kernel32::ucrt::snprintf" 3;
  fn "ucrtbase.dll" "_snprintf_l" "win32_kernel32::ucrt::snprintf_l" 4;
  fn "ucrtbase.dll" "_vsnprintf" "win32_kernel32::ucrt::vsnprintf" 4;
  fn "ucrtbase.dll" "memchr" "win32_kernel32::ucrt::memchr" 3;
  fn "ucrtbase.dll" "strcspn" "win32_kernel32::ucrt::strcspn" 2;
  fn "ucrtbase.dll" "_strdup" "win32_kernel32::ucrt::strdup" 1;
  fn "ucrtbase.dll" "fclose" "win32_kernel32::ucrt::fclose" 1;
  fn "ucrtbase.dll" "feof" "win32_kernel32::ucrt::feof" 1;
  fn "ucrtbase.dll" "fgetws" "win32_kernel32::ucrt::fgetws" 3;
  fn "ucrtbase.dll" "fwrite" "win32_kernel32::ucrt::fwrite" 4;
  fn "ucrtbase.dll" "qsort" "win32_kernel32::ucrt::qsort" 4;
  fn "ucrtbase.dll" "qsort_s" "win32_kernel32::ucrt::qsort_s" 5;
  fn "ucrtbase.dll" "rand" "win32_kernel32::ucrt::rand" 0;
  fn "ucrtbase.dll" "srand" "win32_kernel32::ucrt::srand" 1;
  fn "ucrtbase.dll" "time" "win32_kernel32::ucrt::time" 1;
  fn "ucrtbase.dll" "_time64" "win32_kernel32::ucrt::time64" 1;
  fn "ucrtbase.dll" "clock" "win32_kernel32::ucrt::clock" 0;
  fn "ucrtbase.dll" "tolower" "win32_kernel32::ucrt::tolower" 1;
  fn "ucrtbase.dll" "toupper" "win32_kernel32::ucrt::toupper" 1
].

Definition extra_export_specs_1 : list ImportSpec := [
  fn "kernel32.dll" "AddVectoredExceptionHandler" "win32_kernel32::extras::add_vectored_exception_handler" 2;
  fn "kernel32.dll" "SetUnhandledExceptionFilter" "win32_kernel32::extras::set_unhandled_exception_filter" 1;
  fn "kernel32.dll" "SetConsoleCtrlHandler" "win32_kernel32::extras::set_console_ctrl_handler" 2;
  fn "kernel32.dll" "RaiseException" "win32_kernel32::extras::raise_exception" 4;
  fn "kernel32.dll" "__C_specific_handler" "win32_kernel32::extras::c_specific_handler" 4;
  fn "kernel32.dll" "RtlCaptureContext" "win32_kernel32::extras::rtl_capture_context" 1;
  fn "kernel32.dll" "RtlLookupFunctionEntry" "win32_kernel32::extras::rtl_lookup_function_entry" 3;
  fn "kernel32.dll" "RtlVirtualUnwind" "win32_kernel32::extras::rtl_virtual_unwind" 7;
  fn "kernel32.dll" "RtlUnwindEx" "win32_kernel32::extras::rtl_unwind_ex" 4;
  fn "kernel32.dll" "GetSystemTimePreciseAsFileTime" "win32_kernel32::extras::get_system_time_precise_as_file_time" 1;
  fn "kernel32.dll" "GetSystemInfo" "win32_kernel32::extras::get_system_info" 1;
  fn "kernel32.dll" "GetConsoleOutputCP" "win32_kernel32::extras::get_console_output_cp" 0;
  fn "kernel32.dll" "GetDateFormatW" "win32_kernel32::extras::get_date_format_w" 6;
  fn "kernel32.dll" "GetTimeFormatW" "win32_kernel32::extras::get_time_format_w" 6;
  fn "kernel32.dll" "GetModuleFileNameW" "win32_kernel32::extras::get_module_file_name_w" 3;
  fn "kernel32.dll" "GetCurrentDirectoryW" "win32_kernel32::extras::get_current_directory_w" 2;
  fn "kernel32.dll" "GetSystemDirectoryW" "win32_kernel32::extras::get_system_directory_w" 2;
  fn "kernel32.dll" "GetWindowsDirectoryW" "win32_kernel32::extras::get_windows_directory_w" 2;
  fn "kernel32.dll" "GetTempPathW" "win32_kernel32::extras::get_temp_path_w" 2;
  fn "kernel32.dll" "GetFullPathNameW" "win32_kernel32::extras::get_full_path_name_w" 4;
  fn "kernel32.dll" "GetFileAttributesW" "win32_kernel32::extras::get_file_attributes_w" 1;
  fn "kernel32.dll" "GetFileType" "win32_kernel32::extras::get_file_type" 1;
  fn "kernel32.dll" "GetFileSizeEx" "win32_kernel32::extras::get_file_size_ex" 2;
  fn "kernel32.dll" "SetFilePointerEx" "win32_kernel32::extras::set_file_pointer_ex" 4;
  fn "kernel32.dll" "SetHandleInformation" "win32_kernel32::extras::set_handle_information" 3;
  fn "kernel32.dll" "SetThreadStackGuarantee" "win32_kernel32::extras::set_thread_stack_guarantee" 1;
  fn "kernel32.dll" "SwitchToThread" "win32_kernel32::extras::switch_to_thread" 0;
  fn "kernel32.dll" "InitOnceBeginInitialize" "win32_kernel32::extras::init_once_begin_initialize" 4;
  fn "kernel32.dll" "InitOnceComplete" "win32_kernel32::extras::init_once_complete" 3;
  fn "kernel32.dll" "CompareStringOrdinal" "win32_kernel32::extras::compare_string_ordinal" 5;
  fn "kernel32.dll" "CompareStringW" "win32_kernel32::extras::compare_string_w" 6;
  fn "kernel32.dll" "FormatMessageW" "win32_kernel32::extras::format_message_w" 7;
  fn "kernel32.dll" "MapViewOfFile" "win32_kernel32::extras::map_view_of_file" 5;
  fn "kernel32.dll" "UnmapViewOfFile" "win32_kernel32::extras::unmap_view_of_file" 1;
  fn "kernel32.dll" "CreateFileMappingA" "win32_kernel32::extras::create_file_mapping_a" 6;
  fn "kernel32.dll" "GetOverlappedResult" "win32_kernel32::extras::get_overlapped_result" 4;
  fn "kernel32.dll" "ReadConsoleW" "win32_kernel32::extras::read_console_w" 5;
  fn "kernel32.dll" "WriteFileEx" "win32_kernel32::extras::write_file_ex" 5;
  fn "kernel32.dll" "ReadFileEx" "win32_kernel32::extras::read_file_ex" 5;
  fn "kernel32.dll" "FlushFileBuffers" "win32_kernel32::extras::flush_file_buffers" 1;
  fn "kernel32.dll" "SetFileAttributesW" "win32_kernel32::extras::set_file_attributes_w" 2;
  fn "kernel32.dll" "TerminateProcess" "win32_kernel32::extras::terminate_process" 2;
  fn "kernel32.dll" "GetProcessId" "win32_kernel32::extras::get_process_id" 1
].

Definition extra_export_specs_2 : list ImportSpec := [
  fn "kernel32.dll" "GetExitCodeProcess" "win32_kernel32::extras::get_exit_code_process" 2;
  fn "kernel32.dll" "WaitForSingleObjectEx" "win32_kernel32::extras::wait_for_single_object_ex" 3;
  fn "bcryptprimitives.dll" "ProcessPrng" "win32_kernel32::extras::process_prng" 2;
  fn "userenv.dll" "GetUserProfileDirectoryW" "win32_kernel32::extras::get_user_profile_directory_w" 3;
  fn "ntdll.dll" "RtlNtStatusToDosError" "win32_kernel32::extras::rtl_nt_status_to_dos_error" 1;
  fn "ntdll.dll" "_vsnprintf" "win32_kernel32::extras::ntdll_vsnprintf" 4
].

Definition extra_export_specs : list ImportSpec := extra_export_specs_1 ++ extra_export_specs_2.

Definition anticheat_exports_1 : list ImportSpec := [
  fn "kernel32.dll" "IsDebuggerPresent" "win32_kernel32::anticheat::is_debugger_present" 0;
  fn "kernel32.dll" "CheckRemoteDebuggerPresent" "win32_kernel32::anticheat::check_remote_debugger_present" 2;
  fn "kernel32.dll" "OutputDebugStringA" "win32_kernel32::anticheat::output_debug_string_a" 1;
  fn "kernel32.dll" "OutputDebugStringW" "win32_kernel32::anticheat::output_debug_string_w" 1;
  fn "kernel32.dll" "CreateToolhelp32Snapshot" "win32_kernel32::anticheat::create_toolhelp32_snapshot" 2;
  fn "kernel32.dll" "Process32FirstW" "win32_kernel32::anticheat::process32_first_w" 2;
  fn "kernel32.dll" "Process32NextW" "win32_kernel32::anticheat::process32_next_w" 2;
  fn "kernel32.dll" "Module32FirstW" "win32_kernel32::anticheat::module32_first_w" 2;
  fn "kernel32.dll" "Module32NextW" "win32_kernel32::anticheat::module32_next_w" 2;
  fn "kernel32.dll" "OpenProcess" "win32_kernel32::anticheat::open_process" 3;
  fn "kernel32.dll" "ReadProcessMemory" "win32_kernel32::anticheat::read_process_memory" 5;
  fn "kernel32.dll" "WriteProcessMemory" "win32_kernel32::anticheat::write_process_memory" 5;
  fn "kernel32.dll" "GetFileAttributesW" "win32_kernel32::anticheat::get_file_attributes_w" 1;
  fn "kernel32.dll" "MulDiv" "win32_kernel32::anticheat::mul_div" 3;
  fn "kernel32.dll" "lstrcmpW" "win32_kernel32::anticheat::lstrcmp_w" 2;
  fn "kernel32.dll" "lstrcmpiW" "win32_kernel32::anticheat::lstrcmpi_w" 2;
  fn "kernel32.dll" "FindFirstFileW" "win32_kernel32::anticheat::find_first_file_w" 2;
  fn "kernel32.dll" "FindClose" "win32_kernel32::anticheat::find_close" 1;
  fn "kernel32.dll" "GetLocalTime" "win32_kernel32::anticheat::get_local_time" 1;
  fn "kernel32.dll" "GetStartupInfoA" "win32_kernel32::anticheat::get_startup_info_a" 1;
  fn "kernel32.dll" "GetStartupInfoW" "win32_kernel32::anticheat::get_startup_info_w" 1;
  fn "kernel32.dll" "LocalFree" "win32_kernel32::anticheat::local_free" 1;
  fn "kernel32.dll" "SetEndOfFile" "win32_kernel32::anticheat::set_end_of_file" 1;
  fn "kernel32.dll" "GetCPInfoExW" "win32_kernel32::anticheat::get_cp_info_ex_w" 3;
  fn "advapi32.dll" "GetFileSecurityW" "win32_kernel32::anticheat::get_file_security_w" 5;
  fn "advapi32.dll" "GetSecurityDescriptorOwner" "win32_kernel32::anticheat::get_security_descriptor_owner" 3;
  fn "advapi32.dll" "LookupAccountSidW" "win32_kernel32::anticheat::lookup_account_sid_w" 7;
  fn "advapi32.dll" "RegDeleteValueW" "win32_kernel32::anticheat::reg_delete_value_w" 2;
  fn "advapi32.dll" "RegEnumKeyExW" "win32_kernel32::anticheat::reg_enum_key_ex_w" 8;
  fn "shell32.dll" "FindExecutableW" "win32_kernel32::anticheat::find_executable_w" 3;
  fn "shell32.dll" "SHFileOperationW" "win32_kernel32::anticheat::sh_file_operation_w" 1;
  fn "shell32.dll" "SHGetFileInfoW" "win32_kernel32::anticheat::sh_get_file_info_w" 5;
  fn "shell32.dll" "ShellExecuteExW" "win32_kernel32::anticheat::shell_execute_ex_w" 1;
  fn "user32.dll" "IsCharAlphaW" "win32_kernel32::anticheat::is_char_alpha_w" 1;
  fn "user32.dll" "CharUpperBuffW" "win32_kernel32::anticheat::char_upper_buff_w" 2;
  fn "user32.dll" "CharNextExA" "win32_kernel32::anticheat::char_next_ex_a" 3;
  fn "kernel32.dll" "GetFirmwareType" "win32_kernel32::tpm::get_firmware_type" 1;
  fn "advapi32.dll" "IsSecureBootEnabled" "win32_kernel32::tpm::is_secure_boot_enabled" 0;
  fn "kernel32.dll" "IsTextUnicode" "win32_kernel32::registry::is_text_unicode" 3;
  fn "kernel32.dll" "EncodePointer" "win32_kernel32::anticheat::encode_pointer" 1;
  fn "kernel32.dll" "LoadLibraryA" "win32_kernel32::dllload::load_library_a" 1;
  fn "kernel32.dll" "LoadLibraryW" "win32_kernel32::dllload::load_library_w" 1;
  fn "kernel32.dll" "LoadLibraryExA" "win32_kernel32::dllload::load_library_ex_a" 3
].

Definition anticheat_exports_2 : list ImportSpec := [
  fn "kernel32.dll" "LoadLibraryExW" "win32_kernel32::dllload::load_library_ex_w" 3;
  fn "kernel32.dll" "DisableThreadLibraryCalls" "win32_kernel32::dllload::disable_thread_library_calls" 1;
  fn "kernel32.dll" "GetProcAddress" "win32_kernel32::dllload::get_proc_address" 2;
  fn "kernel32.dll" "FreeLibrary" "win32_kernel32::dllload::free_library" 1;
  fn "kernel32.dll" "GetSystemTimeAsFileTime" "win32_kernel32::anticheat::get_system_time_as_file_time" 1;
  fn "kernel32.dll" "CreateFileMappingW" "win32_kernel32::anticheat::create_file_mapping_w" 6;
  fn "kernel32.dll" "MapViewOfFile" "win32_kernel32::anticheat::map_view_of_file" 5;
  fn "kernel32.dll" "UnmapViewOfFile" "win32_kernel32::anticheat::unmap_view_of_file" 1;
  fn "kernel32.dll" "GetUserNameW" "win32_kernel32::anticheat::get_user_name_w" 2;
  fn "kernel32.dll" "GetComputerNameW" "win32_kernel32::anticheat::get_computer_name_w" 2;
  fn "ntdll.dll" "RtlLookupFunctionEntry" "win32_kernel32::anticheat::rtl_lookup_function_entry" 3;
  fn "bcrypt.dll" "BCryptGenRandom" "win32_kernel32::anticheat::bcrypt_gen_random" 4;
  fn "crypt32.dll" "CertAddCertificateContextToStore" "win32_kernel32::anticheat::cert_add_certificate_context_to_store" 4;
  fn "advapi32.dll" "CryptEncrypt" "win32_kernel32::anticheat::crypt_encrypt" 7;
  fn "ncrypt.dll" "NCryptGetProperty" "win32_kernel32::anticheat::ncrypt_get_property" 6;
  fn "iphlpapi.dll" "GetAdaptersInfo" "win32_kernel32::anticheat::get_adapters_info" 2;
  fn "gdiplus.dll" "GdipGetImageEncoders" "win32_kernel32::anticheat::gdip_get_image_encoders" 3;
  fn "user32.dll" "ReleaseDC" "win32_kernel32::anticheat::release_dc" 2;
  fn "gdi32.dll" "CreateCompatibleBitmap" "win32_kernel32::anticheat::create_compatible_bitmap" 3;
  fn "kernel32.dll" "FlsAlloc" "win32_kernel32::anticheat::fls_alloc" 1;
  fn "kernel32.dll" "FlsGetValue" "win32_kernel32::anticheat::fls_get_value" 1;
  fn "kernel32.dll" "FlsSetValue" "win32_kernel32::anticheat::fls_set_value" 2;
  fn "kernel32.dll" "FlsFree" "win32_kernel32::anticheat::fls_free" 1;
  fn "kernel32.dll" "InitializeSListHead" "win32_kernel32::anticheat::initialize_slist_head" 1;
  fn "kernel32.dll" "InterlockedPushEntrySList" "win32_kernel32::anticheat::interlocked_push_entry_slist" 2;
  fn "kernel32.dll" "InterlockedPopEntrySList" "win32_kernel32::anticheat::interlocked_pop_entry_slist" 1;
  fn "kernel32.dll" "InterlockedFlushSList" "win32_kernel32::anticheat::interlocked_flush_slist" 1;
  fn "kernel32.dll" "InitializeCriticalSectionAndSpinCount" "win32_kernel32::anticheat::initialize_critical_section_and_spin_count" 2;
  fn "kernel32.dll" "GetModuleHandleExW" "win32_kernel32::anticheat::get_module_handle_ex_w" 3;
  fn "kernel32.dll" "UnhandledExceptionFilter" "win32_kernel32::anticheat::unhandled_exception_filter" 1;
  fn "kernel32.dll" "IsProcessorFeaturePresent" "win32_kernel32::anticheat::is_processor_feature_present" 1;
  fn "kernel32.dll" "RtlPcToFileHeader" "win32_kernel32::anticheat::rtl_pc_to_file_header" 2;
  fn "kernel32.dll" "RtlUnwind" "win32_kernel32::anticheat::rtl_unwind" 4;
  fn "kernel32.dll" "GetACP" "win32_kernel32::anticheat::get_acp" 0;
  fn "kernel32.dll" "GetCPInfo" "win32_kernel32::anticheat::get_cp_info" 2;
  fn "kernel32.dll" "IsValidCodePage" "win32_kernel32::anticheat::is_valid_code_page" 1;
  fn "kernel32.dll" "LCMapStringW" "win32_kernel32::anticheat::lc_map_string_w" 6;
  fn "kernel32.dll" "IsValidLocale" "win32_kernel32::anticheat::is_valid_locale" 2;
  fn "kernel32.dll" "GetUserDefaultLCID" "win32_kernel32::anticheat::get_user_default_lcid" 0;
  fn "kernel32.dll" "EnumSystemLocalesW" "win32_kernel32::anticheat::enum_system_locales_w" 2;
  fn "kernel32.dll" "GetStringTypeW" "win32_kernel32::anticheat::get_string_type_w" 4;
  fn "kernel32.dll" "HeapSize" "win32_kernel32::anticheat::heap_size" 3;
  fn "kernel32.dll" "TryEnterCriticalSection" "win32_kernel32::anticheat::try_enter_critical_section" 1;
  fn "kernel32.dll" "VerSetConditionMask" "win32_kernel32::anticheat::ver_set_condition_mask" 3;
  fn "kernel32.dll" "VerifyVersionInfoW" "win32_kernel32::anticheat::verify_version_info_w" 3;
  fn "kernel32.dll" "FindFirstFileExW" "win32_kernel32::anticheat::find_first_file_ex_w" 6;
  fn "kernel32.dll" "GetTempPath2W" "win32_kernel32::anticheat::get_temp_path2_w" 2;
  fn "kernel32.dll" "GetCurrentPackageId" "win32_kernel32::anticheat::get_current_package_id" 2;
  fn "kernel32.dll" "GetTempFileNameA" "win32_kernel32::anticheat::get_temp_filename_a" 4;
  fn "kernel32.dll" "GetEnvironmentVariableW" "win32_kernel32::anticheat::get_environment_variable_w" 3;
  fn "kernel32.dll" "InitializeCriticalSectionEx" "win32_kernel32::anticheat::initialize_critical_section_ex" 3;
  fn "kernel32.dll" "SleepConditionVariableCS" "win32_kernel32::anticheat::sleep_condition_variable_cs" 3;
  fn "kernel32.dll" "WakeConditionVariable" "win32_kernel32::anticheat::wake_condition_variable" 1;
  fn "kernel32.dll" "WakeAllConditionVariable" "win32_kernel32::anticheat::wake_all_condition_variable" 1;
  fn "kernel32.dll" "InitializeConditionVariable" "win32_kernel32::anticheat::initialize_condition_variable" 1;
  fn "kernel32.dll" "SleepConditionVariableSRW" "win32_kernel32::anticheat::sleep_condition_variable_srw" 4;
  fn "kernel32.dll" "AreFileApisANSI" "win32_kernel32::anticheat::are_file_apis_ansi" 0;
  fn "kernel32.dll" "CompareStringEx" "win32_kernel32::anticheat::compare_string_ex" 9;
  fn "kernel32.dll" "EnumSystemLocalesEx" "win32_kernel32::anticheat::enum_system_locales_ex" 4;
  fn "kernel32.dll" "GetDateFormatEx" "win32_kernel32::anticheat::get_date_format_ex" 8;
  fn "kernel32.dll" "GetLocaleInfoEx" "win32_kernel32::anticheat::get_locale_info_ex" 4;
  fn "kernel32.dll" "GetTimeFormatEx" "win32_kernel32::anticheat::get_time_format_ex" 6;
  fn "kernel32.dll" "GetUserDefaultLocaleName" "win32_kernel32::anticheat::get_user_default_locale_name" 2;
  fn "kernel32.dll" "IsValidLocaleName" "win32_kernel32::anticheat::is_valid_locale_name" 1;
  fn "kernel32.dll" "LCIDToLocaleName" "win32_kernel32::anticheat::lcid_to_locale_name" 4;
  fn "kernel32.dll" "GetModuleFileNameW" "win32_kernel32::anticheat::get_module_file_name_w" 3;
  fn "kernel32.dll" "FlushProcessWriteBuffers" "win32_kernel32::anticheat::flush_process_write_buffers" 0;
  fn "kernel32.dll" "CreateSemaphoreExW" "win32_kernel32::anticheat::create_semaphore_ex_w" 6;
  fn "kernel32.dll" "CreateEventExW" "win32_kernel32::anticheat::create_event_ex_w" 4;
  fn "kernel32.dll" "InitOnceExecuteOnce" "win32_kernel32::anticheat::init_once_execute_once" 4;
  fn "kernel32.dll" "CreateThreadpoolWork" "win32_kernel32::anticheat::create_threadpool_work" 3;
  fn "kernel32.dll" "SubmitThreadpoolWork" "win32_kernel32::anticheat::submit_threadpool_work" 1;
  fn "kernel32.dll" "CloseThreadpoolWork" "win32_kernel32::anticheat::close_threadpool_work" 1
].

Definition anticheat_exports_3 : list ImportSpec := [
  fn "kernel32.dll" "FreeLibraryWhenCallbackReturns" "win32_kernel32::anticheat::free_library_when_callback_returns" 2;
  fn "kernel32.dll" "RtlCaptureStackBackTrace" "win32_kernel32::anticheat::rtl_capture_stack_back_trace" 4;
  fn "kernel32.dll" "TryAcquireSRWLockExclusive" "win32_kernel32::anticheat::try_acquire_srw_lock_exclusive" 1;
  fn "kernel32.dll" "GetNativeSystemInfo" "win32_kernel32::anticheat::get_native_system_info" 1;
  fn "kernel32.dll" "GetExitCodeThread" "win32_kernel32::anticheat::get_exit_code_thread" 2;
  fn "kernel32.dll" "FormatMessageA" "win32_kernel32::anticheat::format_message_a" 7;
  fn "kernel32.dll" "DecodePointer" "win32_kernel32::anticheat::decode_pointer" 1;
  fn "kernel32.dll" "SetFileInformationByHandle" "win32_kernel32::anticheat::set_file_information_by_handle" 4;
  fn "kernel32.dll" "CreateEventA" "win32_kernel32::anticheat::create_event_a" 4;
  fn "kernel32.dll" "SetThreadPriority" "win32_kernel32::anticheat::set_thread_priority" 2;
  fn "kernel32.dll" "GetThreadPriority" "win32_kernel32::anticheat::get_thread_priority" 1;
  fn_noreturn "kernel32.dll" "ExitThread" "win32_kernel32::anticheat::exit_thread" 1;
  fn "kernel32.dll" "TerminateThread" "win32_kernel32::anticheat::terminate_thread" 2;
  fn "kernel32.dll" "SetThreadAffinityMask" "win32_kernel32::anticheat::set_thread_affinity_mask" 2;
  fn "kernel32.dll" "LCMapStringEx" "win32_kernel32::anticheat::lc_map_string_ex" 9;
  fn "kernel32.dll" "GetFileInformationByHandleEx" "win32_kernel32::anticheat::get_file_information_by_handle_ex" 4;
  fn "kernel32.dll" "CreateThreadpoolWait" "win32_kernel32::anticheat::create_threadpool_wait" 3;
  fn "kernel32.dll" "SetThreadpoolWait" "win32_kernel32::anticheat::set_threadpool_wait" 3;
  fn "kernel32.dll" "CloseThreadpoolWait" "win32_kernel32::anticheat::close_threadpool_wait" 1;
  fn "kernel32.dll" "CreateThreadpoolTimer" "win32_kernel32::anticheat::create_threadpool_timer" 3;
  fn "kernel32.dll" "SetThreadpoolTimer" "win32_kernel32::anticheat::set_threadpool_timer" 4;
  fn "kernel32.dll" "WaitForThreadpoolTimerCallbacks" "win32_kernel32::anticheat::wait_for_threadpool_timer_callbacks" 2;
  fn "kernel32.dll" "CloseThreadpoolTimer" "win32_kernel32::anticheat::close_threadpool_timer" 1;
  fn "kernel32.dll" "GetCurrentProcessorNumber" "win32_kernel32::anticheat::get_current_processor_number" 0;
  fn "kernel32.dll" "GetModuleFileNameA" "win32_kernel32::anticheat::get_module_file_name_a" 3
].

Definition anticheat_exports : list ImportSpec := anticheat_exports_1 ++ anticheat_exports_2 ++ anticheat_exports_3.

Definition registry_exports : list ImportSpec := [
  fn "advapi32.dll" "RegOpenKeyW" "win32_kernel32::registry::reg_open_key_w" 3;
  fn "advapi32.dll" "RegOpenKeyExW" "win32_kernel32::registry::reg_open_key_ex_w" 5;
  fn "advapi32.dll" "RegCreateKeyExW" "win32_kernel32::registry::reg_create_key_ex_w" 9;
  fn "advapi32.dll" "RegCloseKey" "win32_kernel32::registry::reg_close_key" 1;
  fn "advapi32.dll" "RegQueryValueExW" "win32_kernel32::registry::reg_query_value_ex_w" 6;
  fn "advapi32.dll" "RegSetValueExW" "win32_kernel32::registry::reg_set_value_ex_w" 6;
  fn "advapi32.dll" "RegEnumKeyW" "win32_kernel32::registry::reg_enum_key_w" 4;
  fn "advapi32.dll" "RegEnumValueW" "win32_kernel32::registry::reg_enum_value_w" 8;
  fn "advapi32.dll" "RegDeleteKeyW" "win32_kernel32::registry::reg_delete_key_w" 2;
  fn "advapi32.dll" "RegQueryInfoKeyW" "win32_kernel32::registry::reg_query_info_key_w" 12;
  fn "advapi32.dll" "RegDeleteTreeW" "win32_kernel32::registry::reg_delete_tree_w" 2;
  fn "advapi32.dll" "RegResolveCustomKeyHandler" "win32_kernel32::registry::reg_resolve_custom_key_handler" 3;
  fn "advapi32.dll" "IsTextUnicode" "win32_kernel32::registry::is_text_unicode" 3
].

Definition system_info_exports : list ImportSpec := [
  fn "ntdll.dll" "NtQuerySystemInformation" "win32_kernel32::system_info::nt_query_system_information" 4;
  fn "ntdll.dll" "ZwQuerySystemInformation" "win32_kernel32::system_info::nt_query_system_information" 4;
  fn "ntdll.dll" "NtQueryInformationProcess" "win32_kernel32::system_info::nt_query_information_process" 5;
  fn "ntdll.dll" "ZwQueryInformationProcess" "win32_kernel32::system_info::nt_query_information_process" 5
].

Definition XI_DLLS : list string := ["xinput1_3.dll"; "xinput1_4.dll"; "xinput9_1_0.dll"]%string.
Definition XA_DLLS : list string := ["xaudio2_7.dll"; "xaudio2_8.dll"; "xaudio2_9.dll"; "xaudio2_10.dll"]%string.

Definition xinput_exports : list ImportSpec :=
  concat (map (fun dll => [
    fn dll "XInputGetState" "win32_kernel32::xinput::xinput_get_state" 2;
    fn dll "XInputSetState" "win32_kernel32::xinput::xinput_set_state" 2;
    fn dll "XInputGetCapabilities" "win32_kernel32::xinput::xinput_get_capabilities" 3;
    fn dll "XInputGetBatteryType" "win32_kernel32::xinput::xinput_get_battery_type" 2;
    fn dll "XInputGetKeystroke" "win32_kernel32::xinput::xinput_get_keystroke" 3;
    fn dll "XInputGetDSoundAudioDeviceGuids" "win32_kernel32::xinput::xinput_get_dsound_audio_device_guids" 5
  ]) XI_DLLS) ++
  concat (map (fun dll => [
    fn dll "XAudio2Create" "win32_kernel32::xinput::xaudio2_create" 3;
    fn dll "CreateXAudio2" "win32_kernel32::xinput::xaudio2_create" 3;
    fn dll "CreateVoicePool" "win32_kernel32::xinput::xaudio2_noop" 4
  ]) XA_DLLS) ++ [
    fn "dinput8.dll" "DirectInput8Create" "win32_kernel32::xinput::direct_input8_create" 5;
    fn "dinput8.dll" "DIDock" "win32_kernel32::xinput::xaudio2_noop" 2
  ].

Definition tpm_exports : list ImportSpec := [
  fn "tbs.dll" "Tbsi_Context_Create" "win32_kernel32::tpm::tbsi_context_create" 2;
  fn "tbs.dll" "Tbsi_Context_GetTpmVersion" "win32_kernel32::tpm::tbsi_context_get_tpm_version" 2;
  fn "tbs.dll" "Tbsi_Get_Context" "win32_kernel32::tpm::tbsi_get_context" 1;
  fn "tbs.dll" "Tbsip_Context_Close" "win32_kernel32::tpm::tbsip_context_close" 1;
  fn "tbs.dll" "Tbsip_Submit_Command" "win32_kernel32::tpm::tbsip_submit_command" 7;
  fn "tbs.dll" "Tbsi_Get_TCG_Log" "win32_kernel32::tpm::tbsi_get_tcg_log" 3;
  fn "tbs.dll" "Tbsi_Get_OwnerAuth" "win32_kernel32::tpm::tbsi_get_owner_auth" 4;
  fn "tbs.dll" "Tbsi_Get_Owner_Auth" "win32_kernel32::tpm::tbsi_get_owner_auth" 4;
  fn "kernel32.dll" "GetFirmwareType" "win32_kernel32::tpm::get_firmware_type" 1;
  fn "kernel32.dll" "GetFirmwareEnvironmentVariableA" "win32_kernel32::tpm::get_firmware_environment_variable_a" 4;
  fn "kernel32.dll" "GetFirmwareEnvironmentVariableW" "win32_kernel32::tpm::get_firmware_environment_variable_w" 4;
  fn "kernel32.dll" "IsWow64Process" "win32_kernel32::tpm::is_wow64_process" 2;
  fn "kernel32.dll" "GetProductInfo" "win32_kernel32::tpm::get_product_info" 5;
  fn "advapi32.dll" "IsSecureBootEnabled" "win32_kernel32::tpm::is_secure_boot_enabled" 0;
  fn "advapi32.dll" "SystemSecureBootEnabled" "win32_kernel32::tpm::system_secure_boot_enabled" 0
].

Definition spi_exports : list ImportSpec := [
  fn "advapi32.dll" "RegCopyTreeW" "win32_kernel32::spi::reg_copy_tree_w" 3;
  fn "advapi32.dll" "RegQueryMultipleValuesW" "win32_kernel32::spi::reg_query_multiple_values_w" 5
].

Definition ws2_32_exports : list ImportSpec := [
  fn "ws2_32.dll" "WSAStartup" "win32_ws2_32::wsa_startup" 2;
  fn "ws2_32.dll" "WSACleanup" "win32_ws2_32::wsa_cleanup" 0;
  fn "ws2_32.dll" "WSAGetLastError" "win32_ws2_32::wsa_get_last_error" 0;
  fn "ws2_32.dll" "socket" "win32_ws2_32::socket" 3;
  fn "ws2_32.dll" "closesocket" "win32_ws2_32::closesocket" 1;
  fn "ws2_32.dll" "connect" "win32_ws2_32::connect" 3;
  fn "ws2_32.dll" "bind" "win32_ws2_32::bind" 3;
  fn "ws2_32.dll" "listen" "win32_ws2_32::listen" 2;
  fn "ws2_32.dll" "accept" "win32_ws2_32::accept" 3;
  fn "ws2_32.dll" "send" "win32_ws2_32::send" 4;
  fn "ws2_32.dll" "recv" "win32_ws2_32::recv" 4;
  fn "ws2_32.dll" "sendto" "win32_ws2_32::sendto" 6;
  fn "ws2_32.dll" "recvfrom" "win32_ws2_32::recvfrom" 6;
  fn "ws2_32.dll" "setsockopt" "win32_ws2_32::setsockopt" 5;
  fn "ws2_32.dll" "getsockopt" "win32_ws2_32::getsockopt" 5;
  fn "ws2_32.dll" "ioctlsocket" "win32_ws2_32::ioctlsocket" 3;
  fn "ws2_32.dll" "gethostname" "win32_ws2_32::gethostname" 2;
  fn "ws2_32.dll" "inet_addr" "win32_ws2_32::inet_addr" 1;
  fn "ws2_32.dll" "htons" "win32_ws2_32::htons" 1;
  fn "ws2_32.dll" "htonl" "win32_ws2_32::htonl" 1;
  fn "ws2_32.dll" "ntohs" "win32_ws2_32::ntohs" 1;
  fn "ws2_32.dll" "ntohl" "win32_ws2_32::ntohl" 1;
  fn "ws2_32.dll" "shutdown" "win32_ws2_32::shutdown" 2;
  fn "ws2_32.dll" "select" "win32_ws2_32::select" 5
].

(** [wait_specs] of [import_specs]. *)
Definition wait_specs : list ImportSpec := [
  fn "api-ms-win-core-synch-l1-2-0.dll" "WaitOnAddress" "ntapi::sync::wait_on_address" 4;
  fn "api-ms-win-core-synch-l1-2-0.dll" "WakeByAddressAll" "ntapi::sync::wake_by_address_all" 1;
  fn "api-ms-win-core-synch-l1-2-0.dll" "WakeByAddressSingle" "ntapi::sync::wake_by_address_single" 1
].

Definition user32_export_specs : list ImportSpec := [
  fn "user32.dll" "RegisterClassExW" "win32_user32::register_class_ex_w" 1;
  fn "user32.dll" "UnregisterClassW" "win32_user32::unregister_class_w" 2;
  fn "user32.dll" "CreateWindowExW" "win32_user32::create_window_ex_w" 12;
  fn "user32.dll" "DestroyWindow" "win32_user32::destroy_window" 1;
  fn "user32.dll" "ShowWindow" "win32_user32::show_window" 2;
  fn "user32.dll" "UpdateWindow" "win32_user32::update_window" 1;
  fn "user32.dll" "GetClientRect" "win32_user32::get_client_rect" 2;
  fn "user32.dll" "GetWindowRect" "win32_user32::get_window_rect" 2;
  fn "user32.dll" "SetWindowPos" "win32_user32::set_window_pos" 7;
  fn "user32.dll" "MoveWindow" "win32_user32::move_window" 6;
  fn "user32.dll" "GetWindowTextW" "win32_user32::get_window_text_w" 3;
  fn "user32.dll" "SetWindowTextW" "win32_user32::set_window_text_w" 2;
  fn "user32.dll" "GetMessageW" "win32_user32::get_message_w" 4;
  fn "user32.dll" "PeekMessageW" "win32_user32::peek_message_w" 5;
  fn "user32.dll" "TranslateMessage" "win32_user32::translate_message" 1;
  fn "user32.dll" "DispatchMessageW" "win32_user32::dispatch_message_w" 1;
  fn "user32.dll" "PostQuitMessage" "win32_user32::post_quit_message" 1;
  fn "user32.dll" "PostMessageW" "win32_user32::post_message_w" 4;
  fn "user32.dll" "SendMessageW" "win32_user32::send_message_w" 4;
  fn "user32.dll" "DefWindowProcW" "win32_user32::def_window_proc_w" 4;
  fn "user32.dll" "GetParent" "win32_user32::get_parent" 1;
  fn "user32.dll" "SetParent" "win32_user32::set_parent" 2;
  fn "user32.dll" "GetSystemMetrics" "win32_user32::get_system_metrics" 1;
  fn "user32.dll" "GetDesktopWindow" "win32_user32::get_desktop_window" 0;
  fn "user32.dll" "GetMenu" "win32_user32::get_menu" 1;
  fn "user32.dll" "GetWindowTextLengthW" "win32_user32::get_window_text_length_w" 1;
  fn "user32.dll" "GetWindowPlacement" "win32_user32::get_window_placement" 2;
  fn "user32.dll" "GetDlgItem" "win32_user32::get_dlg_item" 2;
  fn "user32.dll" "GetDlgItemTextW" "win32_user32::get_dlg_item_text_w" 4;
  fn "user32.dll" "GetDlgItemInt" "win32_user32::get_dlg_item_int" 4;
  fn "user32.dll" "SetDlgItemTextW" "win32_user32::set_dlg_item_text_w" 3;
  fn "user32.dll" "SetDlgItemInt" "win32_user32::set_dlg_item_int" 4;
  fn "user32.dll" "SetActiveWindow" "win32_user32::set_active_window" 1;
  fn "user32.dll" "SetFocus" "win32_user32::set_focus" 1;
  fn "user32.dll" "EnableMenuItem" "win32_user32::enable_menu_item" 3;
  fn "user32.dll" "CheckMenuItem" "win32_user32::check_menu_item" 3;
  fn "user32.dll" "MessageBoxW" "win32_user32::message_box_w" 4;
  fn "user32.dll" "LoadIconW" "win32_user32::load_icon_w" 2;
  fn "user32.dll" "LoadCursorW" "win32_user32::load_cursor_w" 2;
  fn "user32.dll" "LoadImageW" "win32_user32::load_image_w" 6;
  fn "user32.dll" "LoadStringW" "win32_user32::load_string_w" 4;
  fn "user32.dll" "LoadAcceleratorsW" "win32_user32::load_accelerators_w" 2;
  fn "user32.dll" "TranslateAcceleratorW" "win32_user32::translate_accelerator_w" 3;
  fn "user32.dll" "RegisterWindowMessageW" "win32_user32::register_window_message_w" 1;
  fn "user32.dll" "IsDialogMessageW" "win32_user32::is_dialog_message_w" 2;
  fn "user32.dll" "IsClipboardFormatAvailable" "win32_user32::is_clipboard_format_available" 1;
  fn "user32.dll" "InvalidateRect" "win32_user32::invalidate_rect" 3;
  fn "user32.dll" "GetDpiForWindow" "win32_user32::get_dpi_for_window" 1;
  fn "user32.dll" "GetMonitorInfoW" "win32_user32::get_monitor_info_w" 2;
  fn "user32.dll" "MonitorFromRect" "win32_user32::monitor_from_rect" 2;
  fn "user32.dll" "DialogBoxParamW" "win32_user32::dialog_box_param_w" 5;
  fn "user32.dll" "EndDialog" "win32_user32::end_dialog" 2;
  fn "user32.dll" "WinHelpW" "win32_user32::win_help_w" 4;
  fn "user32.dll" "wsprintfW" "win32_user32::wsprintf_w" 2
].

Definition gdi32_export_specs : list ImportSpec := [
  fn "gdi32.dll" "GetDC" "win32_gdi32::get_dc" 1;
  fn "gdi32.dll" "ReleaseDC" "win32_gdi32::release_dc" 2;
  fn "gdi32.dll" "BeginPaint" "win32_gdi32::begin_paint" 2;
  fn "gdi32.dll" "EndPaint" "win32_gdi32::end_paint" 2;
  fn "gdi32.dll" "CreateCompatibleDC" "win32_gdi32::create_compatible_dc" 1;
  fn "gdi32.dll" "DeleteDC" "win32_gdi32::delete_dc" 1;
  fn "gdi32.dll" "ValidateRect" "win32_gdi32::validate_rect" 2;
  fn "gdi32.dll" "InvalidateRect" "win32_gdi32::invalidate_rect" 3;
  fn "gdi32.dll" "GetClientRect" "win32_gdi32::get_client_rect" 2;
  fn "gdi32.dll" "DeleteObject" "win32_gdi32::delete_object" 1;
  fn "gdi32.dll" "SetPixel" "win32_gdi32::set_pixel" 4;
  fn "gdi32.dll" "SelectObject" "win32_gdi32::select_object" 2;
  fn "gdi32.dll" "CreateFontIndirectW" "win32_gdi32::create_font_indirect_w" 1;
  fn "gdi32.dll" "GetDeviceCaps" "win32_gdi32::get_device_caps" 2;
  fn "gdi32.dll" "GetTextMetricsW" "win32_gdi32::get_text_metrics_w" 2;
  fn "gdi32.dll" "GetTextExtentPoint32W" "win32_gdi32::get_text_extent_point32_w" 4;
  fn "gdi32.dll" "GetTextExtentExPointW" "win32_gdi32::get_text_extent_ex_point_w" 7;
  fn "gdi32.dll" "ExtTextOutW" "win32_gdi32::ext_text_out_w" 8;
  fn "gdi32.dll" "SetMapMode" "win32_gdi32::set_map_mode" 2;
  fn "gdi32.dll" "StartDocW" "win32_gdi32::start_doc_w" 2;
  fn "gdi32.dll" "EndDoc" "win32_gdi32::end_doc" 1;
  fn "gdi32.dll" "StartPage" "win32_gdi32::start_page" 1;
  fn "gdi32.dll" "EndPage" "win32_gdi32::end_page" 1
].

Definition shell32_exports : list ImportSpec := [
  fn "shell32.dll" "DragAcceptFiles" "win32_kernel32::shell32::drag_accept_files" 2;
  fn "shell32.dll" "DragFinish" "win32_kernel32::shell32::drag_finish" 1;
  fn "shell32.dll" "DragQueryFileW" "win32_kernel32::shell32::drag_query_file_w" 4;
  fn "shell32.dll" "DragQueryFileA" "win32_kernel32::shell32::drag_query_file_a" 4;
  fn "shell32.dll" "ShellAboutW" "win32_kernel32::shell32::shell_about_w" 4;
  fn "shell32.dll" "ShellExecuteW" "win32_kernel32::shell32::shell_execute_w" 6;
  fn "shell32.dll" "ShellExecuteA" "win32_kernel32::shell32::shell_execute_a" 6;
  fn "shell32.dll" "SHGetFolderPathW" "win32_kernel32::shell32::sh_get_folder_path_w" 5;
  fn "shell32.dll" "SHGetFolderPathA" "win32_kernel32::shell32::sh_get_folder_path_a" 5;
  fn "shell32.dll" "SHGetSpecialFolderPathW" "win32_kernel32::shell32::sh_get_special_folder_path_w" 4;
  fn "shell32.dll" "SHGetDesktopFolder" "win32_kernel32::shell32::sh_get_desktop_folder" 1;
  fn "shell32.dll" "SHGetMalloc" "win32_kernel32::shell32::sh_get_malloc" 1
].

Definition shlwapi_exports : list ImportSpec := [
  fn "shlwapi.dll" "PathFindFileNameW" "win32_kernel32::shlwapi::path_find_file_name_w" 1;
  fn "shlwapi.dll" "PathFindFileNameA" "win32_kernel32::shlwapi::path_find_file_name_a" 1;
  fn "shlwapi.dll" "PathFindExtensionW" "win32_kernel32::shlwapi::path_find_extension_w" 1;
  fn "shlwapi.dll" "PathRemoveFileSpecW" "win32_kernel32::shlwapi::path_remove_file_spec_w" 1;
  fn "shlwapi.dll" "PathAppendW" "win32_kernel32::shlwapi::path_append_w" 2;
  fn "shlwapi.dll" "PathCombineW" "win32_kernel32::shlwapi::path_combine_w" 3;
  fn "shlwapi.dll" "PathIsRelativeW" "win32_kernel32::shlwapi::path_is_relative_w" 1;
  fn "shlwapi.dll" "StrCmpIW" "win32_kernel32::shlwapi::str_cmp_i_w" 2;
  fn "shlwapi.dll" "StrCmpW" "win32_kernel32::shlwapi::str_cmp_w" 2;
  fn "shlwapi.dll" "StrCmpNIW" "win32_kernel32::shlwapi::str_cmp_ni_w" 3;
  fn "shlwapi.dll" "StrCmpNW" "win32_kernel32::shlwapi::str_cmp_n_w" 3;
  fn "shlwapi.dll" "StrCmpIC" "win32_kernel32::shlwapi::str_cmp_i_c" 2;
  fn "shlwapi.dll" "StrStrW" "win32_kernel32::shlwapi::str_str_w" 2;
  fn "shlwapi.dll" "StrStrIW" "win32_kernel32::shlwapi::str_str_iw" 2;
  fn "shlwapi.dll" "StrRStrIW" "win32_kernel32::shlwapi::str_rstr_iw" 3;
  fn "shlwapi.dll" "wnsprintfW" "win32_kernel32::shlwapi::wnsprintf_w" 3;
  fn "shlwapi.dll" "wnsprintfA" "win32_kernel32::shlwapi::wnsprintf_a" 3;
  fn "shlwapi.dll" "StrStrNIW" "win32_kernel32::shlwapi::str_str_niw" 3
].

Definition comdlg32_exports : list ImportSpec := [
  fn "comdlg32.dll" "GetOpenFileNameW" "win32_kernel32::comdlg32::get_open_file_name_w" 1;
  fn "comdlg32.dll" "GetSaveFileNameW" "win32_kernel32::comdlg32::get_save_file_name_w" 1;
  fn "comdlg32.dll" "ChooseFontW" "win32_kernel32::comdlg32::choose_font_w" 1;
  fn "comdlg32.dll" "FindTextW" "win32_kernel32::comdlg32::find_text_w" 1;
  fn "comdlg32.dll" "ReplaceTextW" "win32_kernel32::comdlg32::replace_text_w" 1;
  fn "comdlg32.dll" "PrintDlgW" "win32_kernel32::comdlg32::print_dlg_w" 1;
  fn "comdlg32.dll" "GetFileTitleW" "win32_kernel32::comdlg32::get_file_title_w" 3
].

Definition comctl32_exports : list ImportSpec := [
  fn "comctl32.dll" "InitCommonControls" "win32_kernel32::comctl32::init_common_controls" 0;
  fn "comctl32.dll" "InitCommonControlsEx" "win32_kernel32::comctl32::init_common_controls_ex" 1;
  fn "comctl32.dll" "ORDINAL 410" "win32_kernel32::comctl32::comctl32_ordinal_410" 0;
  fn "comctl32.dll" "ORDINAL 413" "win32_kernel32::comctl32::comctl32_ordinal_413" 0
].

Definition ole32_exports : list ImportSpec := [
  fn "ole32.dll" "CoInitialize" "win32_kernel32::ole32::co_initialize" 1;
  fn "ole32.dll" "CoInitializeEx" "win32_kernel32::ole32::co_initialize_ex" 2;
  fn "ole32.dll" "CoUninitialize" "win32_kernel32::ole32::co_uninitialize" 0;
  fn "ole32.dll" "CoCreateInstance" "win32_kernel32::ole32::co_create_instance" 5;
  fn "ole32.dll" "CoGetMalloc" "win32_kernel32::ole32::co_get_malloc" 2;
  fn "ole32.dll" "StringFromGUID2" "win32_kernel32::ole32::string_from_guid2" 3;
  fn "ole32.dll" "CLSIDFromString" "win32_kernel32::ole32::clsid_from_string" 2;
  fn "ole32.dll" "CoTaskMemAlloc" "win32_kernel32::ole32::co_task_mem_alloc" 1;
  fn "ole32.dll" "CoTaskMemFree" "win32_kernel32::ole32::co_task_mem_free" 1;
  fn "ole32.dll" "CoTaskMemRealloc" "win32_kernel32::ole32::co_task_mem_realloc" 2;
  fn "ole32.dll" "CoAddRefServerProcess" "win32_kernel32::ole32::co_add_ref_server_process" 0;
  fn "ole32.dll" "CoReleaseServerProcess" "win32_kernel32::ole32::co_release_server_process" 0;
  fn "ole32.dll" "CoWaitForMultipleHandles" "win32_kernel32::ole32::co_wait_for_multiple_handles" 5
].

Definition d3d_compiler_exports : list ImportSpec := [
  fn "d3dcompiler_47.dll" "D3DCompile" "win32_kernel32::d3dcompiler::d3d_compile" 11;
  fn "d3dcompiler_47.dll" "D3DCompileFromFile" "win32_kernel32::d3dcompiler::d3d_compile_from_file" 9;
  fn "d3dcompiler_47.dll" "D3DGetBlobPart" "win32_kernel32::d3dcompiler::d3d_get_blob_part" 7;
  fn "d3dcompiler_47.dll" "D3DStripShader" "win32_kernel32::d3dcompiler::d3d_strip_shader" 6;
  fn "d3dcompiler_47.dll" "D3DReflect" "win32_kernel32::d3dcompiler::d3d_reflect" 5
].

Definition vcruntime_exports_1 : list ImportSpec := [
  fn "vcruntime140.dll" "memchr" "win32_kernel32::vcruntime::vcr_memchr" 3;
  fn "vcruntime140.dll" "memcmp" "win32_kernel32::vcruntime::vcr_memcmp" 3;
  fn "vcruntime140.dll" "strchr" "win32_kernel32::vcruntime::vcr_strchr" 2;
  fn "vcruntime140.dll" "strrchr" "win32_kernel32::vcruntime::vcr_strrchr" 2;
  fn "vcruntime140.dll" "strstr" "win32_kernel32::vcruntime::vcr_strstr" 2;
  fn "vcruntime140.dll" "strlen" "win32_kernel32::vcruntime::vcr_strlen" 1;
  fn "vcruntime140.dll" "memcpy" "win32_kernel32::vcruntime::vcr_memcpy" 3;
  fn "vcruntime140.dll" "memset" "win32_kernel32::vcruntime::vcr_memset" 3;
  fn "vcruntime140.dll" "memmove" "win32_kernel32::vcruntime::vcr_memmove" 3;
  fn "vcruntime140.dll" "__C_specific_handler" "win32_kernel32::vcruntime::vcr_c_specific_handler" 4;
  fn "vcruntime140.dll" "__std_exception_copy" "win32_kernel32::vcruntime::vcr_std_exception_copy" 2;
  fn "vcruntime140.dll" "__std_exception_destroy" "win32_kernel32::vcruntime::vcr_std_exception_destroy" 1;
  fn "vcruntime140.dll" "__std_type_info_destroy_list" "win32_kernel32::vcruntime::vcr_std_type_info_destroy_list" 1;
  fn_noreturn "vcruntime140.dll" "longjmp" "win32_kernel32::vcruntime::vcr_longjmp" 2;
  fn "vcruntime140.dll" "__intrinsic_setjmp" "win32_kernel32::vcruntime::vcr_intrinsic_setjmp" 1;
  fn_noreturn "vcruntime140.dll" "_CxxThrowException" "win32_kernel32::vcruntime::vcr_cxx_throw_exception" 2;
  fn "vcruntime140.dll" "_purecall" "win32_kernel32::vcruntime::vcr_purecall" 0;
  fn "vcruntime140.dll" "__security_check_cookie" "win32_kernel32::vcruntime::vcr_security_check_cookie" 1;
  fn "vcruntime140.dll" "__guard_check_icall_fptr" "win32_kernel32::vcruntime::vcr_guard_check_icall" 1;
  fn "vcruntime140.dll" "__guard_dispatch_icall_fptr" "win32_kernel32::vcruntime::vcr_guard_dispatch_icall" 1;
  fn "msvcp140.dll" "?_Xout_of_range@std@@YAXPEBD@Z" "win32_kernel32::vcruntime::msvcp_xout_of_range" 1
].

Definition vcruntime_exports_2 : list ImportSpec := [
  fn "msvcp140.dll" "?_Xinvalid_argument@std@@YAXPEBD@Z" "win32_kernel32::vcruntime::msvcp_xinvalid_argument" 1;
  fn "msvcp140.dll" "?_Xlength_error@std@@YAXPEBD@Z" "win32_kernel32::vcruntime::msvcp_xlength_error" 1;
  fn "msvcp140.dll" "?_Xruntime_error@std@@YAXPEBD@Z" "win32_kernel32::vcruntime::msvcp_xruntime_error" 1;
  fn "msvcp140.dll" "?_Xbad_alloc@std@@YAXXZ" "win32_kernel32::vcruntime::msvcp_xbad_alloc" 0;
  fn "msvcp140.dll" "?_Xoverflow_error@std@@YAXPEBD@Z" "win32_kernel32::vcruntime::msvcp_xoverflow_error" 1
].

Definition vcruntime_exports : list ImportSpec := vcruntime_exports_1 ++ vcruntime_exports_2.

Definition extras2_exports : list ImportSpec := [
  fn "kernel32.dll" "CreateDirectoryW" "win32_kernel32::extras2::create_directory_w" 2;
  fn "kernel32.dll" "DeleteFileW" "win32_kernel32::extras2::delete_file_w" 1;
  fn "kernel32.dll" "RemoveDirectoryW" "win32_kernel32::extras2::remove_directory_w" 1;
  fn "kernel32.dll" "CopyFileW" "win32_kernel32::extras2::copy_file_w" 3;
  fn "kernel32.dll" "MoveFileW" "win32_kernel32::extras2::move_file_w" 2;
  fn "kernel32.dll" "MoveFileExW" "win32_kernel32::extras2::move_file_ex_w" 3;
  fn "kernel32.dll" "CreateHardLinkW" "win32_kernel32::extras2::create_hard_link_w" 3;
  fn "kernel32.dll" "CreateSymbolicLinkW" "win32_kernel32::extras2::create_symbolic_link_w" 3;
  fn "kernel32.dll" "SearchPathW" "win32_kernel32::extras2::search_path_w" 6;
  fn "kernel32.dll" "GetFileAttributesExW" "win32_kernel32::extras2::get_file_attributes_ex_w" 3;
  fn "kernel32.dll" "GetFileInformationByHandle" "win32_kernel32::extras2::get_file_information_by_handle" 2;
  fn "kernel32.dll" "GetShortPathNameW" "win32_kernel32::extras2::get_short_path_name_w" 3;
  fn "kernel32.dll" "GetTempFileNameW" "win32_kernel32::extras2::get_temp_file_name_w" 4;
  fn "kernel32.dll" "GetTempPathW" "win32_kernel32::extras2::get_temp_path_w" 2;
  fn "kernel32.dll" "SetCurrentDirectoryW" "win32_kernel32::extras2::set_current_directory_w" 1;
  fn "kernel32.dll" "FindNextFileW" "win32_kernel32::extras2::find_next_file_w" 2;
  fn "kernel32.dll" "GetConsoleCP" "win32_kernel32::extras2::get_console_cp" 0;
  fn "kernel32.dll" "GetConsoleOutputCP" "win32_kernel32::extras2::get_console_output_cp" 0;
  fn "kernel32.dll" "GetOEMCP" "win32_kernel32::extras2::get_oemcp" 0;
  fn "kernel32.dll" "GetConsoleScreenBufferInfo" "win32_kernel32::extras2::get_console_screen_buffer_info" 2;
  fn "kernel32.dll" "SetConsoleCursorPosition" "win32_kernel32::extras2::set_console_cursor_position" 2;
  fn "kernel32.dll" "SetConsoleTextAttribute" "win32_kernel32::extras2::set_console_text_attribute" 2;
  fn "kernel32.dll" "SetConsoleTitleW" "win32_kernel32::extras2::set_console_title_w" 1;
  fn "kernel32.dll" "FillConsoleOutputAttribute" "win32_kernel32::extras2::fill_console_output_attribute" 5;
  fn "kernel32.dll" "FillConsoleOutputCharacterW" "win32_kernel32::extras2::fill_console_output_character_w" 5;
  fn "kernel32.dll" "VerifyConsoleIoHandle" "win32_kernel32::extras2::verify_console_io_handle" 1;
  fn "kernel32.dll" "GetSystemTime" "win32_kernel32::extras2::get_system_time" 1;
  fn "kernel32.dll" "FileTimeToLocalFileTime" "win32_kernel32::extras2::file_time_to_local_file_time" 2;
  fn "kernel32.dll" "FileTimeToSystemTime" "win32_kernel32::extras2::file_time_to_system_time" 2;
  fn "kernel32.dll" "SystemTimeToFileTime" "win32_kernel32::extras2::system_time_to_file_time" 2;
  fn "kernel32.dll" "SetFileTime" "win32_kernel32::extras2::set_file_time" 4;
  fn "kernel32.dll" "GetLocaleInfoW" "win32_kernel32::extras2::get_locale_info_w" 4;
  fn "kernel32.dll" "CreateProcessW" "win32_kernel32::extras2::create_process_w" 10;
  fn "kernel32.dll" "DuplicateHandle" "win32_kernel32::extras2::duplicate_handle" 7;
  fn "kernel32.dll" "LocalAlloc" "win32_kernel32::extras2::local_alloc" 2;
  fn "kernel32.dll" "SetStdHandle" "win32_kernel32::extras2::set_std_handle" 2;
  fn "kernel32.dll" "IsBadStringPtrW" "win32_kernel32::extras2::is_bad_string_ptr_w" 2;
  fn "kernel32.dll" "GetDiskFreeSpaceExW" "win32_kernel32::extras2::get_disk_free_space_ex_w" 4;
  fn "kernel32.dll" "GetVolumeInformationW" "win32_kernel32::extras2::get_volume_information_w" 8;
  fn "kernel32.dll" "SetVolumeLabelW" "win32_kernel32::extras2::set_volume_label_w" 2;
  fn "kernel32.dll" "CompareStringW" "win32_kernel32::extras2::compare_string_w" 6;
  fn "ntdll.dll" "RtlGetVersion" "win32_kernel32::extras2::rtl_get_version" 1
].

(** ** The Direct3D crates *)

Definition d3d11_export_specs : list ImportSpec := [
  fn "d3d11.dll" "D3D11CreateDeviceAndSwapChain" "d3d11_com::imp::d3d11_create_device_and_swap_chain" 12;
  fn "d3d11.dll" "D3D11CreateDevice" "d3d11_com::imp::d3d11_create_device" 10;
  fn "dxgi.dll" "CreateDXGIFactory" "d3d11_com::imp::create_dxgi_factory" 2;
  fn "dxgi.dll" "CreateDXGIFactory1" "d3d11_com::imp::create_dxgi_factory1" 2;
  fn "dxgi.dll" "CreateDXGIFactory2" "d3d11_com::imp::create_dxgi_factory2" 3
].

Definition d3d12_export_specs : list ImportSpec := [
  fn "d3d12.dll" "D3D12CreateDevice" "d3d12_com::imp::d3d12_create_device" 4
].

(** The virtual tables: the methods after the three of [IUnknown], in slot order. *)
Definition iunknown_methods (crate : string) : list (string * Z) := [
  (append crate "::com_query_interface", 3%Z);
  (append crate "::com_add_ref", 1%Z);
  (append crate "::com_release", 1%Z)
].

Definition d3d11_methods : list (string * list (string * Z)) := [
  ("IdxgiFactoryVtbl", [
    ("d3d11_com::methods::factory_enum_adapters", 3);
    ("d3d11_com::methods::factory_create_swap_chain", 4)]);
  ("IdxgiSwapChainVtbl", [
    ("d3d11_com::methods::swapchain_present", 3);
    ("d3d11_com::methods::swapchain_get_buffer", 4);
    ("d3d11_com::methods::swapchain_get_desc", 2);
    ("d3d11_com::methods::swapchain_resize_buffers", 6)]);
  ("Id3d11DeviceVtbl", [
    ("d3d11_com::methods::stub_create4", 4);
    ("d3d11_com::methods::device_create_render_target_view", 4);
    ("d3d11_com::methods::device_create_vertex_shader", 5);
    ("d3d11_com::methods::device_create_pixel_shader", 5);
    ("d3d11_com::methods::device_create_buffer", 4);
    ("d3d11_com::methods::device_create_input_layout", 6);
    ("d3d11_com::methods::device_create_rasterizer_state", 3);
    ("d3d11_com::methods::device_create_blend_state", 3);
    ("d3d11_com::methods::device_create_depth_stencil_state", 3);
    ("d3d11_com::methods::device_create_depth_stencil_view", 4);
    ("d3d11_com::methods::device_create_sampler_state", 3);
    ("d3d11_com::methods::device_get_immediate_context", 2)]);
  ("Id3d11DeviceContextVtbl", [
    ("d3d11_com::methods::context_om_set_render_targets", 4);
    ("d3d11_com::methods::context_clear_render_target_view", 3);
    ("d3d11_com::methods::context_vs_set_shader", 4);
    ("d3d11_com::methods::context_ps_set_shader", 4);
    ("d3d11_com::methods::noop_set_ptrs", 4);
    ("d3d11_com::methods::noop_set_ptrs", 4);
    ("d3d11_com::methods::noop_set_ptrs", 4);
    ("d3d11_com::methods::noop_set_ptrs", 4);
    ("d3d11_com::methods::noop_set_ptrs", 4);
    ("d3d11_com::methods::noop_set_ptrs", 4);
    ("d3d11_com::methods::context_ia_set_vertex_buffers", 6);
    ("d3d11_com::methods::noop_ia_index_buffer", 4);
    ("d3d11_com::methods::context_ia_set_input_layout", 2);
    ("d3d11_com::methods::context_ia_set_primitive_topology", 2);
    ("d3d11_com::methods::noop_update", 7);
    ("d3d11_com::methods::context_draw", 3);
    ("d3d11_com::methods::context_draw_indexed", 4);
    ("d3d11_com::methods::noop_map", 6);
    ("d3d11_com::methods::noop_unmap", 3);
    ("d3d11_com::methods::context_flush", 1)]);
  ("Id3d11Texture2dVtbl", []);
  ("Id3d11RenderTargetViewVtbl", []);
  ("Id3d11BufferVtbl", []);
  ("Id3d11VertexShaderVtbl", []);
  ("Id3d11PixelShaderVtbl", []);
  ("Id3d11InputLayoutVtbl", []);
  ("Id3d11StateVtbl", [])
]%string%Z.

Definition d3d12_methods : list (string * list (string * Z)) := [
  ("Id3d12DeviceVtbl", [
    ("d3d12_com::methods::device_create_command_queue", 4);
    ("d3d12_com::methods::device_create_command_allocator", 4);
    ("d3d12_com::methods::device_create_command_list", 7);
    ("d3d12_com::methods::device_create_descriptor_heap", 4);
    ("d3d12_com::methods::device_create_render_target_view", 4);
    ("d3d12_com::methods::device_create_committed_resource", 8);
    ("d3d12_com::methods::device_get_descriptor_handle_increment_size", 2)]);
  ("Id3d12CommandQueueVtbl", [("d3d12_com::methods::queue_execute_command_lists", 3)]);
  ("Id3d12GraphicsCommandListVtbl", [
    ("d3d12_com::methods::cmdlist_close", 1);
    ("d3d12_com::methods::cmdlist_set_pipeline_state", 2);
    ("d3d12_com::methods::cmdlist_set_render_targets", 4);
    ("d3d12_com::methods::cmdlist_clear_render_target_view", 5);
    ("d3d12_com::methods::cmdlist_resource_barrier", 3);
    ("d3d12_com::methods::cmdlist_draw_instanced", 5)]);
  ("Id3d12CommandAllocatorVtbl", []);
  ("Id3d12DescriptorHeapVtbl", []);
  ("Id3d12ResourceVtbl", []);
  ("Id3d12PipelineStateVtbl", []);
  ("Id3d12RootSignatureVtbl", [])
]%string%Z.

(** [data_exports]: variables, by address. *)
Definition data_exports : list (string * string * string) := [
  ("msvcrt.dll", "__initenv", "win32_kernel32::crt::INITENV");
  ("msvcrt.dll", "_commode", "win32_kernel32::crt::COMMODE");
  ("msvcrt.dll", "_fmode", "win32_kernel32::crt::FMODE")
]%string.

(** ** Names of API sets *)

Definition APISETS : list string := [
  "api-ms-win-core-processthreads-l1-1-0"; "api-ms-win-core-console-l1-1-0"; "api-ms-win-core-console-l2-1-0";
  "api-ms-win-core-synch-l1-1-0"; "api-ms-win-core-synch-l1-2-0"; "api-ms-win-core-errorhandling-l1-1-0";
  "api-ms-win-core-profile-l1-1-0"; "api-ms-win-core-libraryloader-l1-1-0"; "api-ms-win-core-heap-l1-1-0";
  "api-ms-win-core-memory-l1-1-0"; "api-ms-win-core-file-l1-1-0"; "api-ms-win-core-file-l2-1-0";
  "api-ms-win-core-string-l1-1-0"; "api-ms-win-core-stringansi-l1-1-0";
  "api-ms-win-core-processenvironment-l1-1-0"; "api-ms-win-core-localization-l1-2-0"
]%string.

Definition FORWARD_SYMBOLS : list string := [
  "ExitProcess"; "GetStdHandle"; "WriteFile"; "ReadFile"; "GetLastError"; "SetLastError"; "GetTickCount";
  "GetTickCount64"; "QueryPerformanceCounter"; "QueryPerformanceFrequency"; "CloseHandle"; "VirtualAlloc";
  "VirtualFree"; "VirtualProtect"; "VirtualQuery"; "InitializeCriticalSection"; "EnterCriticalSection";
  "LeaveCriticalSection"; "DeleteCriticalSection"; "CreateEventW"; "SetEvent"; "ResetEvent"; "PulseEvent";
  "CreateMutexW"; "ReleaseMutex"; "CreateSemaphoreW"; "ReleaseSemaphore"; "InitializeSRWLock";
  "AcquireSRWLockExclusive"; "AcquireSRWLockShared"; "ReleaseSRWLockExclusive"; "ReleaseSRWLockShared";
  "Sleep"; "SleepEx"; "WaitForSingleObject"; "WaitForMultipleObjects"; "CreateThread"; "GetCurrentThread";
  "GetCurrentProcess"; "GetCurrentThreadId"; "GetCurrentProcessId"; "GetThreadId"; "ResumeThread";
  "SuspendThread"; "TlsAlloc"; "TlsFree"; "TlsGetValue"; "TlsSetValue"; "WriteConsoleW"; "WriteConsoleA";
  "GetConsoleMode"; "SetConsoleMode"; "CreateFileW"; "CreateFileA"; "GetFileSize"; "SetFilePointer";
  "FlushFileBuffers"; "GetProcessHeap"; "HeapAlloc"; "HeapFree"; "HeapReAlloc"; "HeapCreate"; "HeapDestroy";
  "GetEnvironmentVariableW"; "SetEnvironmentVariableW"; "GetEnvironmentStringsW"; "FreeEnvironmentStringsW";
  "GetModuleHandleW"; "GetModuleHandleA"; "GetCommandLineW"; "GetCommandLineA"; "MultiByteToWideChar";
  "WideCharToMultiByte"; "lstrlenW"; "lstrlenA"; "lstrcpyW"; "lstrcatW"; "AddVectoredExceptionHandler";
  "SetUnhandledExceptionFilter"; "SetConsoleCtrlHandler"; "RaiseException"; "__C_specific_handler";
  "RtlCaptureContext"; "RtlLookupFunctionEntry"; "RtlVirtualUnwind"; "RtlUnwindEx";
  "GetSystemTimePreciseAsFileTime"; "GetSystemInfo"; "GetConsoleOutputCP"; "GetModuleFileNameW";
  "GetCurrentDirectoryW"; "GetSystemDirectoryW"; "GetWindowsDirectoryW"; "GetTempPathW"; "GetFullPathNameW";
  "GetFileAttributesW"; "GetFileType"; "GetFileSizeEx"; "SetFilePointerEx"; "SetHandleInformation";
  "SetThreadStackGuarantee"; "SwitchToThread"; "GetProcAddress"; "InitOnceBeginInitialize";
  "InitOnceComplete"; "CompareStringOrdinal"; "FormatMessageW"; "MapViewOfFile"; "UnmapViewOfFile";
  "CreateFileMappingA"; "GetOverlappedResult"; "ReadConsoleW"; "WriteFileEx"; "ReadFileEx";
  "FlushFileBuffers"; "SetFileAttributesW"; "TerminateProcess"; "GetProcessId"; "GetExitCodeProcess";
  "WaitForSingleObjectEx"; "WaitOnAddress"; "WakeByAddressAll"; "WakeByAddressSingle"
]%string.
