(* ===== verification/PeImports.v ===== *)
(** * The table of implementations and import resolution ([crates/pe-loader/src/imports.rs])

    How the export tables become trampolines in an arena, and how the imports of an
    image are resolved against them, a library on disk or a stub. The linker that
    gives Rust functions their addresses is a parameter. *)
From Stdlib Require Import ZArith Lia String.
From stdpp Require Import base list option strings gmap.
From S2P Require Import Prelude PeHost PeImage PeReloc K32Registry GuestMem PeThunk ExportTables.
Local Open Scope rust_scope.
Local Open Scope Z_scope.
Set Warnings "-register-all".

Abbreviation key := (string * string)%type.

Definition spec_key (s : ImportSpec) : key := (dll s, sym s).

(** ** The list of implementations ([import_specs]) *)

(** One table wired in: rows whose key has been seen are dropped. *)
Definition merge_one (acc : list ImportSpec * list key) (e : ImportSpec) : list ImportSpec * list key :=
  let '(specs, seen) := acc in
  if decide (spec_key e ∈ seen) then acc else (specs ++ [e], spec_key e :: seen).

Definition merge (acc : list ImportSpec * list key) (table : list ImportSpec) : list ImportSpec * list key :=
  foldl merge_one acc table.

(** The tables in the order they are wired in, before and after [spi_exports],
    which has an effect. *)
Definition tables_before : list (list ImportSpec) :=
  [kernel32_exports; crt_export_specs; ucrt_exports; extra_export_specs; anticheat_exports; registry_exports;
   system_info_exports; xinput_exports; tpm_exports].

Definition tables_after : list (list ImportSpec) :=
  [ws2_32_exports; wait_specs; user32_export_specs; gdi32_export_specs; shell32_exports; shlwapi_exports;
   comdlg32_exports; comctl32_exports; ole32_exports; d3d_compiler_exports; vcruntime_exports; extras2_exports].

(** ** The state of the layer that building touches *)

(** The virtual tables that a Direct3D crate leaks at its first installation. *)
Record Vtable : Type := mkVtable { vt_name : string; vt_slots : list Z }.

Record Globals : Type := mkGlobals {
  registry : Registry;
  d3d11_vtables : option (list Vtable);
  d3d12_vtables : option (list Vtable)
}.

Record ImplTable : Type := mkTable {
  table_map : gmap key Z;
  soft_stub_thunk : Z
}.

Definition ImplTable_lookup (t : ImplTable) (dll sym : string) : option Z := table_map t !! (dll, sym).

(** ** API sets *)

Definition forward_one (source : string) (apiset sym : string) (m : gmap key Z) : gmap key Z :=
  match m !! (source, sym) with
  | Some target => <[(apiset, sym) := target]> m
  | None => m
  end.

Definition forward_apisets (m : gmap key Z) : gmap key Z :=
  let m := foldl (fun m apiset => foldl (fun m sym => forward_one "kernel32.dll" apiset sym m) m FORWARD_SYMBOLS) m APISETS in
  foldl (fun m apiset =>
    forward_one "ntdll.dll" apiset "NtClose" (forward_one "ntdll.dll" apiset "NtTerminateProcess" m)) m APISETS.

Section Build.
Context `{HW : Host W}.
Variable addr : string -> Z.

(** Building panics where it fails, so it has no errors of its own. *)
Local Abbreviation B := (M (Globals * (ThunkArena * W)) Empty_set).

Definition get_globals : B Globals := fun s => (Ok (fst s), s).
Definition set_globals (g : Globals) : B unit := fun s => (Ok tt, (g, snd s)).

(** [unwrap_or_else(|e| panic!(..))] *)
Definition or_panic {A} (m : M (ThunkArena * W) ThunkError A) : B A := fun '(g, s) =>
  let '(r, s) := m s in
  (match r with Ok a => Ok a | Err _ => Panic | Panic => Panic | NoFuel => NoFuel end, (g, s)).

Definition spi_exports_seeded : B (list ImportSpec) :=
  let! g := get_globals in
  set_globals (mkGlobals (seed_security_defaults (registry g)) (d3d11_vtables g) (d3d12_vtables g)) ;;;
  mret spi_exports.

Definition import_specs : B (list ImportSpec) :=
  let acc := foldl merge (base_specs, map spec_key base_specs) tables_before in
  let! spi := spi_exports_seeded in
  let acc := merge acc spi in
  let acc := foldl merge acc tables_after in
  mret (fst acc).

Definition spec_thunk (s : ImportSpec) : B Z :=
  or_panic (if noreturn s then make_thunk_noreturn (addr (target s)) (n_args s)
            else make_thunk (addr (target s)) (n_args s)).

Fixpoint add_specs (specs : list ImportSpec) (m : gmap key Z) : B (gmap key Z) :=
  match specs with
  | [] => mret m
  | s :: specs =>
      let! ptr := spec_thunk s in
      add_specs specs (<[(dll s, sym s) := ptr]> m)
  end.

(** One virtual table: the shared slots, then a thunk for each method. *)
Definition method_thunk (method : string * Z) : B Z := or_panic (make_thunk (addr (fst method)) (snd method)).

Definition build_vtable (iunknown : list Z) (table : string * list (string * Z)) : B Vtable :=
  let! slots := m_list method_thunk (snd table) in
  mret (mkVtable (fst table) (iunknown ++ slots)).

Definition ComVtables_build (crate : string) (tables : list (string * list (string * Z))) : B (list Vtable) :=
  let! iunknown := m_list method_thunk (iunknown_methods crate) in
  m_list (build_vtable iunknown) tables.

(** The first installation wins. The two crates have the same code and a global of
    their own. *)
Definition install_vtables (crate : string) (tables : list (string * list (string * Z)))
    (get : Globals -> option (list Vtable)) (set : list Vtable -> Globals -> Globals) : B unit :=
  let! g := get_globals in
  match get g with
  | Some _ => mret tt
  | None =>
      let! vtables := ComVtables_build crate tables in
      let! g := get_globals in
      set_globals (set vtables g)
  end.

Definition set_d3d11 (v : list Vtable) (g : Globals) : Globals := mkGlobals (registry g) (Some v) (d3d12_vtables g).
Definition set_d3d12 (v : list Vtable) (g : Globals) : Globals := mkGlobals (registry g) (d3d11_vtables g) (Some v).

Definition d3d11_install_vtables : B unit := install_vtables "d3d11_com" d3d11_methods d3d11_vtables set_d3d11.
Definition d3d12_install_vtables : B unit := install_vtables "d3d12_com" d3d12_methods d3d12_vtables set_d3d12.

Definition add_data (m : gmap key Z) : gmap key Z :=
  foldl (fun m '(dll, sym, name) => <[(dll, sym) := addr name]> m) m data_exports.

Definition soft_stub : string := "pe_loader::imports::soft_stub".
Definition trap_stub : string := "pe_loader::imports::trap_stub".

Definition build : B ImplTable :=
  let! specs := import_specs in
  let! m := add_specs specs ∅ in
  let m := forward_apisets m in
  d3d11_install_vtables ;;;
  let! m := add_specs d3d11_export_specs m in
  d3d12_install_vtables ;;;
  let! m := add_specs d3d12_export_specs m in
  let m := add_data m in
  let! stub := or_panic (make_thunk (addr soft_stub) 0) in
  mret (mkTable m stub).

(** The table of plain addresses that the tests of the crate use. *)
Definition forward_apisets_direct (m source : gmap key Z) : gmap key Z :=
  let forward from apiset sym m :=
    match source !! (from, sym) with Some target => <[(apiset, sym) := target]> m | None => m end in
  let m := foldl (fun m apiset => foldl (fun m sym => forward "kernel32.dll"%string apiset sym m) m FORWARD_SYMBOLS) m APISETS in
  foldl (fun m apiset =>
    forward "ntdll.dll"%string apiset "NtClose"%string (forward "ntdll.dll"%string apiset "NtTerminateProcess"%string m))
    m APISETS.

Definition default_table : B ImplTable :=
  let! specs := import_specs in
  let m := foldl (fun m s => <[(dll s, sym s) := addr (target s)]> m) ∅ specs in
  let m := add_data m in
  mret (mkTable (forward_apisets_direct m m) (addr soft_stub)).
End Build.

(** ** Resolution *)

Record ResolvedImports : Type := mkResolved {
  resolved : gmap key Z;
  stubbed : list key
}.

Definition soft_stubs_enabled (v : option string) : bool :=
  match v with Some v => (v =? "1")%string || (v =? "true")%string | None => false end.

Definition normalize_symbol (name : string) : string := name.

Section Resolve.
Context {S E : Type}.
Variable addr : string -> Z.
Variable to_lowercase : string -> string.
Variable try_resolve_from_disk : string -> string -> M S E (option Z).
Variable soft_stubs : option string.

Definition bind_import (k : key) (ptr : Z) (out : ResolvedImports) : ResolvedImports :=
  mkResolved (<[k := ptr]> (resolved out)) (stubbed out).

Definition stub_import (known : ImplTable) (k : key) (out : ResolvedImports) : ResolvedImports :=
  let stub := if soft_stubs_enabled soft_stubs then soft_stub_thunk known else addr trap_stub in
  mkResolved (<[k := stub]> (resolved out)) (stubbed out ++ [k]).

Definition resolve_one (known : ImplTable) (imp : Import) (out : ResolvedImports) : M S E ResolvedImports :=
  let dll := to_lowercase (imp_dll imp) in
  let sym := normalize_symbol (imp_name imp) in
  let k := (dll, sym) in
  match ImplTable_lookup known dll sym with
  | Some ptr =>
      if (dll =? "vcruntime140.dll")%string || (dll =? "vcruntime140_1.dll")%string || (dll =? "msvcp140.dll")%string then
        let! disk_ptr := try_resolve_from_disk (imp_dll imp) sym in
        match disk_ptr with
        | Some dptr => mret (bind_import k dptr out)
        | None => mret (bind_import k ptr out)
        end
      else mret (bind_import k ptr out)
  | None =>
      if String.prefix "api-ms-win-crt-" dll then
        match ImplTable_lookup known "ucrtbase.dll" sym with
        | Some ptr => mret (bind_import k ptr out)
        | None =>
            match ImplTable_lookup known "msvcrt.dll" sym with
            | Some ptr => mret (bind_import k ptr out)
            | None => mret (stub_import known k out)
            end
        end
      else if (dll =? "vcruntime140.dll")%string || (dll =? "vcruntime140_1.dll")%string then
        match ImplTable_lookup known "ntdll.dll" sym with
        | Some ptr => mret (bind_import k ptr out)
        | None => mret (stub_import known k out)
        end
      else
        let! disk_ptr := try_resolve_from_disk (imp_dll imp) sym in
        match disk_ptr with
        | Some ptr => mret (bind_import k ptr out)
        | None => mret (stub_import known k out)
        end
  end.

Fixpoint resolve_all (known : ImplTable) (imports : list Import) (out : ResolvedImports) : M S E ResolvedImports :=
  match imports with
  | [] => mret out
  | imp :: imports =>
      let! out := resolve_one known imp out in
      resolve_all known imports out
  end.

Definition resolve (imports : list Import) (known : ImplTable) : M S E ResolvedImports :=
  resolve_all known imports (mkResolved ∅ []).
End Resolve.

(** ** Which row answers for a key *)

(** The first row with the key. *)
Fixpoint first (k : key) (specs : list ImportSpec) : option ImportSpec :=
  match specs with
  | [] => None
  | s :: specs => if decide (spec_key s = k) then Some s else first k specs
  end.

Definition all_tables : list ImportSpec :=
  base_specs ++ concat tables_before ++ spi_exports ++ concat tables_after.

Lemma first_app k l1 l2 : first k (l1 ++ l2) = match first k l1 with Some s => Some s | None => first k l2 end.
Proof. induction l1 as [|s l1 IH]; [done|]. simpl. by destruct (decide _). Qed.

Lemma first_some k l s : first k l = Some s -> s ∈ l /\ spec_key s = k.
Proof.
  induction l as [|s' l IH]; [done|]. simpl. destruct (decide _) as [Hk|Hk]; intros H; simplify_eq.
  - split; [apply list_elem_of_here|done].
  - destruct (IH H). split; [by apply list_elem_of_further|done].
Qed.

Lemma first_none k l : first k l = None <-> k ∉ map spec_key l.
Proof.
  induction l as [|s l IH]; simpl; [split; [intros _; apply not_elem_of_nil|done]|].
  rewrite not_elem_of_cons, <- IH. destruct (decide _) as [<-|Hk]; [|naive_solver]. split; [done|by intros [? _]].
Qed.

(** What merging keeps of the rows so far. *)
Record merged (acc : list ImportSpec * list key) (rows : list ImportSpec) : Prop := {
  mg_seen : forall k, k ∈ snd acc <-> k ∈ map spec_key (fst acc);
  mg_nodup : NoDup (map spec_key (fst acc));
  mg_first : forall k, first k (fst acc) = first k rows;
  mg_sub : forall s, s ∈ fst acc -> s ∈ rows
}.

Lemma merged_one acc rows e : merged acc rows -> merged (merge_one acc e) (rows ++ [e]).
Proof.
  destruct acc as [specs seen]. intros [H1 H2 H3 H4]. simpl in *. destruct (decide _) as [Hin|Hout]; simpl.
  - split; simpl; try done.
    + intros k. rewrite first_app, <- H3. destruct (first k specs) eqn:E; [done|]. simpl.
      destruct (decide _) as [<-|]; [|done]. apply first_none in E. by rewrite <- H1 in E.
    + intros s Hs. apply elem_of_app. by left; apply H4.
  - assert (Hk : spec_key e ∉ map spec_key specs) by (by rewrite <- H1). split; simpl.
    + intros k. rewrite elem_of_cons, H1, map_app, elem_of_app. simpl. rewrite list_elem_of_singleton. tauto.
    + rewrite map_app. apply NoDup_app. split_and!; [done| |apply NoDup_singleton].
      intros k Hk' Hs. simpl in Hs. apply list_elem_of_singleton in Hs. by subst k.
    + intros k. by rewrite !first_app, H3.
    + intros s. rewrite !elem_of_app. intros [Hs|Hs]; [left; by apply H4|by right].
Qed.

Lemma merged_table table : forall acc rows, merged acc rows -> merged (merge acc table) (rows ++ table).
Proof.
  induction table as [|e table IH]; intros acc rows H; simpl; [by rewrite app_nil_r|].
  change (rows ++ e :: table) with (rows ++ [e] ++ table). rewrite app_assoc. by apply IH, merged_one.
Qed.

Lemma merged_tables tables : forall acc rows, merged acc rows -> merged (foldl merge acc tables) (rows ++ concat tables).
Proof.
  induction tables as [|table tables IH]; intros acc rows H; simpl; [by rewrite app_nil_r|].
  rewrite app_assoc. by apply IH, merged_table.
Qed.

Lemma merged_base : merged (base_specs, map spec_key base_specs) base_specs.
Proof.
  split; simpl; try done. apply (bool_decide_unpack (NoDup (map spec_key base_specs))). by vm_compute.
Qed.

(** ** What a key is bound to *)

Section Correct.
Context `{HW : Host W} `{HL : !HostLaws W}.
Context (addr : string -> Z).

Inductive entry : Type :=
  | Fn (r : request)
  | Datum (a : Z).

Definition spec_request (s : ImportSpec) : request :=
  if noreturn s then NoReturn (addr (target s)) (n_args s) else Returning (addr (target s)) (n_args s).

Definition spec_valid (s : ImportSpec) : bool :=
  if noreturn s then in_range 0 7 (n_args s) else in_range 0 33 (n_args s).

(** The interface that the code means to offer: variables, Direct3D exports, API
    set names that stand for kernel32 or ntdll, and the first row of the tables. *)
Definition row_entry (specs : list ImportSpec) (f : key -> option entry) (k : key) : option entry :=
  match first k specs with Some s => Some (Fn (spec_request s)) | None => f k end.

Definition forward_source (k : key) : option string :=
  if decide (fst k ∈ APISETS) then
    if decide (snd k ∈ FORWARD_SYMBOLS) then Some "kernel32.dll"%string
    else if decide (snd k ∈ ["NtTerminateProcess"; "NtClose"]%string) then Some "ntdll.dll"%string
    else None
  else None.

Definition forwarded {A} (f : key -> option A) (k : key) : option A :=
  match forward_source k with
  | Some source => match f (source, snd k) with Some e => Some e | None => f k end
  | None => f k
  end.

Definition data_entry (f : key -> option entry) (k : key) : option entry :=
  match find (fun d => bool_decide (fst d = k)) data_exports with
  | Some (_, name) => Some (Datum (addr name))
  | None => f k
  end.

Definition provides : key -> option entry :=
  data_entry (row_entry d3d12_export_specs (row_entry d3d11_export_specs
    (forwarded (row_entry all_tables (fun _ => None))))).

(** ** Forwarding *)

(** The forwarding steps, one at a time. *)
Definition forward_steps : list (string * key) :=
  map (fun k => ("kernel32.dll"%string, k)) (list_prod APISETS FORWARD_SYMBOLS) ++
  concat (map (fun a => [("ntdll.dll", (a, "NtTerminateProcess")); ("ntdll.dll", (a, "NtClose"))]%string) APISETS).

Lemma foldl_prod {A B C} (f : C -> A -> B -> C) (l1 : list A) (l2 : list B) : forall c,
  foldl (fun c a => foldl (fun c b => f c a b) c l2) c l1 = foldl (fun c p => f c (fst p) (snd p)) c (list_prod l1 l2).
Proof.
  assert (H : forall a c, foldl (fun c b => f c a b) c l2 = foldl (fun c p => f c (fst p) (snd p)) c (map (fun b => (a, b)) l2)).
  { intros a. induction l2 as [|b l IH]; intros c; [done|]. simpl. apply IH. }
  induction l1 as [|a l1 IH]; intros c; [done|]. simpl. by rewrite foldl_app, H, IH.
Qed.

Definition forward_step (m : gmap key Z) (st : string * key) : gmap key Z :=
  forward_one (fst st) (fst (snd st)) (snd (snd st)) m.

Lemma forward_apisets_steps m : forward_apisets m =
  foldl forward_step m forward_steps.
Proof.
  unfold forward_apisets, forward_steps.
  rewrite (foldl_prod (fun m a s => forward_one "kernel32.dll" a s m)), foldl_app. generalize (list_prod APISETS FORWARD_SYMBOLS).
  intros l.
  assert (H1 : forall m, foldl (fun m p => forward_one "kernel32.dll" (fst p) (snd p) m) m l =
    foldl forward_step m (map (fun k => ("kernel32.dll"%string, k)) l)).
  { induction l as [|k l IH]; intros m'; [done|]. simpl. apply IH. }
  rewrite H1. generalize (foldl forward_step m (map (fun k => ("kernel32.dll"%string, k)) l)).
  generalize APISETS. intros l2. induction l2 as [|a l2 IH]; intros m'; [done|]. simpl. apply IH.
Qed.

(** Every step targets an API set, from the source of its key. *)
Lemma forward_steps_sources : Forall (fun st => forward_source (snd st) = Some (fst st)) forward_steps.
Proof.
  apply (bool_decide_unpack (Forall (fun st => forward_source (snd st) = Some (fst st)) forward_steps)). by vm_compute.
Qed.

Lemma forward_steps_complete a s source : forward_source (a, s) = Some source -> (source, (a, s)) ∈ forward_steps.
Proof.
  unfold forward_source, forward_steps. cbn [fst snd]. intros H. apply elem_of_app.
  destruct (decide (a ∈ APISETS)) as [Ha|]; [|done].
  destruct (decide (s ∈ FORWARD_SYMBOLS)) as [Hs|].
  - injection H as <-. left. apply list_elem_of_In, in_map, in_prod; by apply list_elem_of_In.
  - destruct (decide (s ∈ _)) as [Hs|]; [|done]. injection H as <-. right. apply list_elem_of_In, in_concat.
    exists [("ntdll.dll", (a, "NtTerminateProcess")); ("ntdll.dll", (a, "NtClose"))]%string. split.
    + apply in_map_iff. exists a. split; [done|by apply list_elem_of_In].
    + rewrite !elem_of_cons, elem_of_nil in Hs. destruct Hs as [-> |[-> |[]]]; simpl; tauto.
Qed.

Lemma source_not_apiset k source : forward_source k = Some source -> source ∉ APISETS.
Proof.
  assert (H : "kernel32.dll"%string ∉ APISETS /\ "ntdll.dll"%string ∉ APISETS).
  { split; apply (bool_decide_unpack (_ ∉ APISETS)); by vm_compute. }
  unfold forward_source. repeat case_decide; intros; simplify_eq; tauto.
Qed.

Lemma forward_steps_run m steps : Forall (fun st => forward_source (snd st) = Some (fst st)) steps ->
  forall k, foldl forward_step m steps !! k =
    if decide (k ∈ map snd steps) then forwarded (fun k => m !! k) k else m !! k.
Proof.
  induction steps as [|[source [a s]] steps IH] using rev_ind; intros Hs k.
  - cbn [foldl map]. rewrite decide_False by apply not_elem_of_nil. done.
  - apply Forall_app in Hs as [Hs Hlast]. apply Forall_cons_1 in Hlast as [Hlast _]. cbn [fst snd] in Hlast.
    rewrite foldl_app. cbn [foldl]. unfold forward_step at 1. cbn [fst snd]. set (m' := foldl forward_step m steps) in *. specialize (IH Hs).
    assert (Hsrc : m' !! (source, s) = m !! (source, s)).
    { rewrite IH. destruct (decide _); [|done]. unfold forwarded.
      destruct (forward_source (source, s)) eqn:Hc; [|done]. exfalso.
      pose proof (source_not_apiset _ _ Hlast) as Hn. unfold forward_source in Hc. simpl in Hc. by destruct (decide (source ∈ _)). }
    assert (Hk : k ∈ map snd (steps ++ [(source, (a, s))]) <-> k ∈ map snd steps \/ k = (a, s)).
    { rewrite map_app, elem_of_app. simpl. by rewrite list_elem_of_singleton. }
    unfold forward_one. rewrite Hsrc. destruct (m !! (source, s)) as [t|] eqn:Ht.
    + destruct (decide (k = (a, s))) as [-> |Hne].
      * rewrite decide_True by (rewrite Hk; by right). setoid_rewrite lookup_insert_eq. unfold forwarded. rewrite Hlast. change (snd (a, s)) with s. by rewrite Ht.
      * rewrite lookup_insert_ne, IH by done. destruct (decide (k ∈ map snd steps)).
        -- rewrite decide_True by (rewrite Hk; by left). done.
        -- rewrite decide_False by (rewrite Hk; tauto). done.
    + rewrite IH. destruct (decide (k = (a, s))) as [-> |Hne].
      * rewrite (decide_True (P := (a, s) ∈ map snd (steps ++ _))) by (rewrite Hk; by right).
        unfold forwarded. rewrite Hlast. change (snd (a, s)) with s. rewrite Ht. by destruct (decide _).
      * destruct (decide (k ∈ map snd steps)).
        -- rewrite decide_True by (rewrite Hk; by left). done.
        -- rewrite decide_False by (rewrite Hk; tauto). done.
Qed.

Lemma forward_apisets_spec m k : forward_apisets m !! k = forwarded (fun k => m !! k) k.
Proof.
  rewrite forward_apisets_steps, forward_steps_run by apply forward_steps_sources.
  destruct (decide _) as [|Hn]; [done|]. unfold forwarded. destruct (forward_source k) as [source|] eqn:E; [|done].
  destruct Hn. destruct k as [a s]. apply list_elem_of_In, (in_map snd forward_steps (source, (a, s))), list_elem_of_In.
  by apply forward_steps_complete.
Qed.

(** ** Building *)

(** A stored pointer does what an entry says, with the trampolines issued. *)
Definition binds (issued : list (Z * list Z)) (e : option entry) (o : option Z) : Prop :=
  match e, o with
  | Some (Fn r), Some p => (p, request_code r) ∈ issued
  | Some (Datum a), Some p => p = a
  | None, None => True
  | _, _ => False
  end.

Definition map_ok (issued : list (Z * list Z)) (f : key -> option entry) (m : gmap key Z) : Prop :=
  forall k, binds issued (f k) (m !! k).

Lemma map_ok_mono issued issued' f m : issued ⊆ issued' -> map_ok issued f m -> map_ok issued' f m.
Proof.
  intros Hs H k. specialize (H k). unfold binds in *. destruct (f k) as [[r|a]|], (m !! k); try done. by apply Hs.
Qed.

Lemma map_ok_ext issued f f' m : (forall k, f k = f' k) -> map_ok issued f m -> map_ok issued f' m.
Proof. intros He H k. rewrite <- He. apply H. Qed.

Lemma map_ok_forward issued f m : map_ok issued f m -> map_ok issued (forwarded f) (forward_apisets m).
Proof.
  intros H k. rewrite forward_apisets_spec. unfold forwarded. destruct (forward_source k) as [source|]; [|apply H].
  pose proof (H (source, snd k)) as Hs. unfold binds in Hs. destruct (f (source, snd k)) as [[r|a]|], (m !! (source, snd k));
    try done; apply H.
Qed.

Lemma map_ok_data issued f m : map_ok issued f m -> map_ok issued (data_entry f) (add_data addr m).
Proof.
  intros H k. unfold data_entry, add_data, data_exports. cbn [foldl find fst].
  repeat (case_bool_decide; [subst k|]); rewrite ?lookup_insert_ne, ?lookup_insert_eq by congruence; done.
Qed.

(** The state while the table is built: an arena over memory that was [w0] and the
    globals. *)
Definition built (w0 : W) (issued0 : list (Z * list Z)) (g : Globals) (P : list (Z * list Z) -> Prop)
    (s : Globals * (ThunkArena * W)) : Prop :=
  exists issued ar w, s = (g, (ar, w)) /\ arena_inv w0 issued ar w /\ issued0 ⊆ issued /\ P issued.

Lemma or_panic_ok w0 issued g r s : built w0 issued g (fun i => i = issued) s -> request_valid r ->
  wpk (fun s => no_growth w0 (snd (snd s))) (or_panic (make r)) (fun p => built w0 issued g (fun i => i = issued ++ [(p, request_code r)])) s.
Proof.
  intros (i & ar & w & -> & Hi & _ & ->) Hv. unfold wpk, or_panic.
  destruct (make_inv w0 issued ar w r Hi Hv) as (w' & [(ar' & p & Hm & Hi')|(m & Hm & _ & Hr)]); rewrite Hm; [|done].
  exists (issued ++ [(p, request_code r)]), ar', w'. split_and!; [done|done| |done].
  intros x Hx. apply elem_of_app. by left.
Qed.

(** Growing what is issued: steps compose. *)
Lemma built_step w0 issued g P s : built w0 issued g P s -> exists i, P i /\ issued ⊆ i /\ built w0 i g (fun j => j = i) s.
Proof. intros (i & ar & w & -> & Hi & Hs & HP). exists i. split_and!; [done|done|]. by exists i, ar, w. Qed.

Lemma built_weaken w0 issued issued' g (P Q : list (Z * list Z) -> Prop) s : issued ⊆ issued' ->
  (forall i, issued' ⊆ i -> P i -> Q i) -> built w0 issued' g P s -> built w0 issued g Q s.
Proof.
  intros Hs HPQ (i & ar & w & -> & Hi & Hi' & HP). exists i, ar, w. split_and!; [done|done| |by apply HPQ].
  intros x Hx. by apply Hi', Hs.
Qed.

Lemma spec_thunk_make s : spec_thunk addr s = or_panic (make (spec_request s)).
Proof. unfold spec_thunk, spec_request. by destruct (noreturn s). Qed.

Lemma spec_request_valid s : spec_valid s = true -> request_valid (spec_request s).
Proof.
  unfold spec_valid, spec_request. destruct (noreturn s); intros H; apply in_range_spec in H; simpl; lia.
Qed.

(** The last row with a key wins; without repeated keys that is the first. *)
Fixpoint override (specs : list ImportSpec) (f : key -> option entry) (k : key) : option entry :=
  match specs with
  | [] => f k
  | s :: specs => override specs (fun k => if decide (spec_key s = k) then Some (Fn (spec_request s)) else f k) k
  end.

Lemma override_row specs : NoDup (map spec_key specs) -> forall f k, override specs f k = row_entry specs f k.
Proof.
  unfold row_entry. induction specs as [|s specs IH]; intros Hnd f k; [done|]. apply NoDup_cons in Hnd as [Hs Hnd].
  cbn [override first]. rewrite IH by done. destruct (decide (spec_key s = k)) as [<-|]; [|done].
  apply first_none in Hs. by rewrite Hs.
Qed.

Lemma add_specs_ok w0 g specs : Forall (fun s => spec_valid s = true) specs -> forall issued f m st,
  built w0 issued g (fun i => i = issued) st -> map_ok issued f m ->
  wpk (fun s => no_growth w0 (snd (snd s))) (add_specs addr specs m) (fun m' => built w0 issued g (fun i => map_ok i (override specs f) m')) st.
Proof.
  induction 1 as [|s specs Hs Hv IH]; intros issued f m st Hb Hm; cbn [add_specs].
  - apply wp_ret. eapply built_weaken; [reflexivity| |exact Hb]. by intros i _ ->.
  - apply wp_bind. rewrite spec_thunk_make. eapply wp_mono; [by apply or_panic_ok; [|apply spec_request_valid]|].
    intros p st' Hb'. apply built_step in Hb' as (i & -> & Hsub & Hb').
    eapply wp_mono; [apply IH; [exact Hb'|]|].
    2: { intros m' st2 Hb2. eapply built_weaken; [exact Hsub| |exact Hb2]. intros i _ Hi. exact Hi. }
    intros k. cbn beta. change (dll s, sym s) with (spec_key s). destruct (decide (spec_key s = k)) as [<-|Hk].
    + rewrite lookup_insert_eq. apply elem_of_app. right. by apply list_elem_of_singleton.
    + rewrite lookup_insert_ne by done. by apply (map_ok_mono _ _ _ _ Hsub Hm).
Qed.

(** A slot of a virtual table, and a table of the Direct3D crates. *)
Definition slot_ok (issued : list (Z * list Z)) (method : string * Z) (p : Z) : Prop :=
  (p, request_code (Returning (addr (fst method)) (snd method))) ∈ issued.

Definition vtable_ok (crate : string) (issued : list (Z * list Z)) (table : string * list (string * Z)) (v : Vtable) : Prop :=
  vt_name v = fst table /\ Forall2 (slot_ok issued) (iunknown_methods crate ++ snd table) (vt_slots v).

Definition methods_valid (methods : list (string * Z)) : Prop := Forall (fun m => in_range 0 33 (snd m) = true) methods.

Lemma slots_mono i i' methods ps : i ⊆ i' -> Forall2 (slot_ok i) methods ps -> Forall2 (slot_ok i') methods ps.
Proof. intros Hs H. eapply list.Forall2_impl; [exact H|]. intros m p. apply Hs. Qed.

Lemma slots_ok w0 g methods issued st : methods_valid methods -> built w0 issued g (fun i => i = issued) st ->
  wpk (fun s => no_growth w0 (snd (snd s))) (m_list (method_thunk addr) methods) (fun ps => built w0 issued g (fun i => Forall2 (slot_ok i) methods ps)) st.
Proof.
  intros Hv Hb.
  apply (wp_m_list _ _ (fun done ps => built w0 issued g (fun i => Forall2 (slot_ok i) done ps))).
  - eapply built_weaken; [reflexivity| |exact Hb]. intros i _ _. apply Forall2_nil. done.
  - intros l1 x l2 ps s' -> Hb'. apply built_step in Hb' as (i & Hi & Hsub & Hb').
    apply Forall_app in Hv as [_ Hx]. apply Forall_cons_1 in Hx as [Hx _]. apply in_range_spec in Hx.
    eapply wp_mono; [apply (or_panic_ok w0 i g (Returning (addr (fst x)) (snd x))); [exact Hb'|simpl; lia]|].
    intros p s2 Hb2. eapply built_weaken; [exact Hsub| |exact Hb2]. intros i2 Hi2 ->.
    apply Forall2_app; [by eapply slots_mono|]. apply Forall2_cons. split; [|by apply Forall2_nil].
    unfold slot_ok. apply elem_of_app. right. by apply list_elem_of_singleton.
Qed.

Lemma vtables_ok w0 g crate tables issued st :
  methods_valid (iunknown_methods crate) -> Forall (fun t => methods_valid (snd t)) tables ->
  built w0 issued g (fun i => i = issued) st ->
  wpk (fun s => no_growth w0 (snd (snd s))) (ComVtables_build addr crate tables) (fun vs => built w0 issued g (fun i => Forall2 (vtable_ok crate i) tables vs)) st.
Proof.
  intros Hu Hv Hb. unfold ComVtables_build. apply wp_bind. eapply wp_mono; [by apply slots_ok|]. cbn beta.
  intros us st1 Hb1.
  eapply (wp_mono _ _ (fun vs => built w0 issued g (fun i => Forall2 (slot_ok i) (iunknown_methods crate) us /\ Forall2 (vtable_ok crate i) tables vs)));
    [|intros vs s2; apply built_weaken; [reflexivity|]; by intros i _ [_ ?]].
  apply (wp_m_list _ _ (fun done vs => built w0 issued g (fun i =>
    Forall2 (slot_ok i) (iunknown_methods crate) us /\ Forall2 (vtable_ok crate i) done vs))).
  - eapply built_weaken; [reflexivity| |exact Hb1]. intros i _ Hi. split; [done|]. by apply Forall2_nil.
  - intros l1 x l2 vs s' -> Hb'. apply built_step in Hb' as (i & (Hi1 & Hi2) & Hsub & Hb').
    apply Forall_app in Hv as [_ Hx]. apply Forall_cons_1 in Hx as [Hx _]. unfold build_vtable. apply wp_bind.
    eapply wp_mono; [by apply slots_ok|]. cbn beta. intros ps s2 Hb2. apply wp_ret.
    eapply built_weaken; [exact Hsub| |exact Hb2]. intros i2 Hi Hps. split; [by eapply slots_mono|].
    apply Forall2_app.
    + eapply list.Forall2_impl; [exact Hi2|]. intros t v [Hn Hsl]. split; [done|by eapply slots_mono].
    + apply Forall2_cons. split; [|by apply Forall2_nil]. split; [done|]. apply Forall2_app; [by eapply slots_mono|done].
Qed.

Lemma methods_of_tables : methods_valid (iunknown_methods "d3d11_com") /\ methods_valid (iunknown_methods "d3d12_com") /\
  Forall (fun t => methods_valid (snd t)) d3d11_methods /\ Forall (fun t => methods_valid (snd t)) d3d12_methods.
Proof. unfold methods_valid. split_and!; repeat constructor. Qed.

(** What an installation leaves: the tables of the first one. *)
Definition installed (crate : string) (tables : list (string * list (string * Z))) (issued : list (Z * list Z))
    (before after : option (list Vtable)) : Prop :=
  match before with
  | Some v => after = Some v
  | None => exists v, after = Some v /\ Forall2 (vtable_ok crate issued) tables v
  end.

Lemma installed_mono crate tables i i' b a : i ⊆ i' -> installed crate tables i b a -> installed crate tables i' b a.
Proof.
  intros Hs. unfold installed. destruct b; [done|]. intros (v & -> & Hv). exists v. split; [done|].
  eapply list.Forall2_impl; [exact Hv|]. intros t x [Hn Hsl]. split; [done|by eapply slots_mono].
Qed.

Lemma install_ok crate tables get set w0 issued g st :
  methods_valid (iunknown_methods crate) -> Forall (fun t => methods_valid (snd t)) tables ->
  built w0 issued g (fun i => i = issued) st ->
  wpk (fun s => no_growth w0 (snd (snd s))) (install_vtables addr crate tables get set) (fun _ s =>
    exists g' i, built w0 i g' (fun j => j = i) s /\ issued ⊆ i /\
      (g' = g /\ is_Some (get g) \/ get g = None /\ exists v, g' = set v g /\ Forall2 (vtable_ok crate i) tables v)) st.
Proof.
  intros Hu Hv Hb. pose proof Hb as (i & ar & w & -> & _ & _ & ->). unfold install_vtables, get_globals.
  apply wp_bind. unfold wpk at 1. cbn [fst]. destruct (get g) as [v|] eqn:E.
  - apply wp_ret. exists g, issued. split_and!; [exact Hb|done|]. by left.
  - apply wp_bind. eapply wp_mono; [by apply (vtables_ok w0 g)|]. cbn beta. intros vs s' (i' & ar' & w' & -> & Hi' & Hs' & Hvs).
    apply wp_bind. unfold wpk at 1. cbn [fst]. unfold set_globals, wpk. cbn [snd]. exists (set vs g), i'.
    split_and!; [by exists i', ar', w'|done|]. right. split; [done|]. by exists vs.
Qed.

Lemma wp_ok {S E A} (K : S -> Prop) (m : M S E A) Q s a s' : m s = (Ok a, s') -> Q a s' -> wpk K m Q s.
Proof. unfold wpk. by intros ->. Qed.

Definition seeded (g : Globals) : Globals :=
  mkGlobals (seed_security_defaults (registry g)) (d3d11_vtables g) (d3d12_vtables g).

Lemma rows_valid : Forall (fun s => spec_valid s = true) (all_tables ++ d3d11_export_specs ++ d3d12_export_specs).
Proof.
  assert (H : forallb spec_valid (all_tables ++ d3d11_export_specs ++ d3d12_export_specs) = true) by (by vm_compute).
  rewrite forallb_forall in H. apply list.Forall_forall. intros s Hs. by apply H, list_elem_of_In.
Qed.

Lemma import_specs_ok g st : exists specs, import_specs (W := W) (g, st) = (Ok specs, (seeded g, st)) /\
  NoDup (map spec_key specs) /\ (forall k, first k specs = first k all_tables) /\
  Forall (fun s => spec_valid s = true) specs.
Proof.
  set (acc := foldl merge (merge (foldl merge (base_specs, map spec_key base_specs) tables_before) spi_exports) tables_after).
  exists (fst acc). split; [done|].
  assert (H : merged acc all_tables).
  { unfold acc, all_tables. rewrite !app_assoc. apply merged_tables, merged_table, merged_tables, merged_base. }
  destruct H as [_ H2 H3 H4]. split_and!; [done|done|]. apply list.Forall_forall. intros s Hs.
  pose proof rows_valid as Hv. apply Forall_app in Hv as [Hv _]. rewrite list.Forall_forall in Hv. by apply Hv, H4.
Qed.

Lemma exports_nodup : NoDup (map spec_key d3d11_export_specs) /\ NoDup (map spec_key d3d12_export_specs).
Proof.
  split; [apply (bool_decide_unpack (NoDup (map spec_key d3d11_export_specs)))
         |apply (bool_decide_unpack (NoDup (map spec_key d3d12_export_specs)))]; by vm_compute.
Qed.

Lemma override_chain specs rows l11 l12 k :
  NoDup (map spec_key specs) -> NoDup (map spec_key l11) -> NoDup (map spec_key l12) ->
  (forall k, first k specs = first k rows) ->
  override l12 (override l11 (forwarded (override specs (fun _ => None)))) k =
  row_entry l12 (row_entry l11 (forwarded (row_entry rows (fun _ => None)))) k.
Proof.
  intros Hs H11 H12 Hf. rewrite override_row by done. unfold row_entry at 1 2. destruct (first k l12); [done|].
  rewrite override_row by done. unfold row_entry at 1 2. destruct (first k l11); [done|].
  unfold forwarded. destruct (forward_source k); rewrite !override_row by done; unfold row_entry; by rewrite !Hf.
Qed.

Lemma installs_chain c11 t11 c12 t12 g g2 g4 i2 i4 i : i2 ⊆ i -> i4 ⊆ i ->
  (g2 = g /\ is_Some (d3d11_vtables g) \/
   d3d11_vtables g = None /\ exists v, g2 = set_d3d11 v g /\ Forall2 (vtable_ok c11 i2) t11 v) ->
  (g4 = g2 /\ is_Some (d3d12_vtables g2) \/
   d3d12_vtables g2 = None /\ exists v, g4 = set_d3d12 v g2 /\ Forall2 (vtable_ok c12 i4) t12 v) ->
  registry g4 = registry g /\ installed c11 t11 i (d3d11_vtables g) (d3d11_vtables g4) /\
  installed c12 t12 i (d3d12_vtables g) (d3d12_vtables g4).
Proof.
  intros H2 H4 Hg2 Hg4.
  assert (K11 : registry g2 = registry g /\ installed c11 t11 i2 (d3d11_vtables g) (d3d11_vtables g2) /\
    d3d12_vtables g2 = d3d12_vtables g).
  { unfold installed. destruct Hg2 as [[-> [v E]]|(E & v & -> & Hv)]; rewrite E; split_and!; cbn; eauto. }
  assert (K12 : registry g4 = registry g2 /\ installed c12 t12 i4 (d3d12_vtables g2) (d3d12_vtables g4) /\
    d3d11_vtables g4 = d3d11_vtables g2).
  { unfold installed. destruct Hg4 as [[-> [v E]]|(E & v & -> & Hv)]; rewrite E; split_and!; cbn; eauto. }
  destruct K11 as (<- & K11 & E12), K12 as (-> & K12 & ->). rewrite <- E12. split_and!; [done|exact (installed_mono _ _ _ _ _ _ H2 K11)|exact (installed_mono _ _ _ _ _ _ H4 K12)].
Qed.

(** A table is complete: each key it offers is bound, the stub is there, and the
    virtual tables are filled. *)
Definition table_ok (issued : list (Z * list Z)) (t : ImplTable) : Prop :=
  map_ok issued provides (table_map t) /\
  (soft_stub_thunk t, request_code (Returning (addr soft_stub) 0)) ∈ issued.

Definition globals_ok (issued : list (Z * list Z)) (before after : Globals) : Prop :=
  registry after = seed_security_defaults (registry before) /\
  installed "d3d11_com" d3d11_methods issued (d3d11_vtables before) (d3d11_vtables after) /\
  installed "d3d12_com" d3d12_methods issued (d3d12_vtables before) (d3d12_vtables after).

Lemma build_ok w0 ar w g : arena_inv w0 [] ar w ->
  wpk (fun s => no_growth w0 (snd (snd s))) (build addr) (fun t s => exists g', built w0 [] g' (fun i => table_ok i t /\ globals_ok i g g') s) (g, (ar, w)).
Proof.
  intros Hi. destruct (import_specs_ok g (ar, w)) as (specs & Hspecs & Hnd & Hfirst & Hvalid).
  destruct exports_nodup as [Hn11 Hn12]. destruct methods_of_tables as (Hu11 & Hu12 & Hm11 & Hm12).
  pose proof rows_valid as Hrows. apply Forall_app in Hrows as [_ Hrows]. apply Forall_app in Hrows as [Hr11 Hr12].
  unfold build. apply wp_bind, (wp_ok _ _ _ _ _ _ Hspecs).
  assert (Hb0 : built w0 [] (seeded g) (fun i => i = []) (seeded g, (ar, w))).
  { exists [], ar, w. split_and!; [reflexivity|exact Hi|reflexivity|reflexivity]. }
  assert (He : map_ok [] (fun _ => None) ∅) by (intros k; by rewrite lookup_empty).
  apply wp_bind. eapply wp_mono; [exact (add_specs_ok w0 (seeded g) specs Hvalid [] _ _ _ Hb0 He)|].
  cbn beta. intros m s1 Hb1. apply built_step in Hb1 as (i1 & Hmap1 & _ & Hb1).
  apply wp_bind. eapply wp_mono.
  { exact (install_ok "d3d11_com" d3d11_methods d3d11_vtables set_d3d11 w0 i1 _ s1 Hu11 Hm11 Hb1). }
  cbn beta. intros _ s2 (g2 & i2 & Hb2 & Hs2 & Hg2).
  pose proof (map_ok_mono _ _ _ _ Hs2 (map_ok_forward _ _ _ Hmap1)) as Hmap2.
  apply wp_bind. eapply wp_mono; [exact (add_specs_ok w0 g2 _ Hr11 i2 _ _ s2 Hb2 Hmap2)|].
  cbn beta. intros m3 s3 Hb3. apply built_step in Hb3 as (i3 & Hmap3 & Hs3 & Hb3).
  apply wp_bind. eapply wp_mono.
  { exact (install_ok "d3d12_com" d3d12_methods d3d12_vtables set_d3d12 w0 i3 _ s3 Hu12 Hm12 Hb3). }
  cbn beta. intros _ s4 (g4 & i4 & Hb4 & Hs4 & Hg4).
  pose proof (map_ok_mono _ _ _ _ Hs4 Hmap3) as Hmap4.
  apply wp_bind. eapply wp_mono; [exact (add_specs_ok w0 g4 _ Hr12 i4 _ _ s4 Hb4 Hmap4)|].
  cbn beta. intros m5 s5 Hb5. apply built_step in Hb5 as (i5 & Hmap5 & Hs5 & Hb5).
  apply wp_bind. eapply wp_mono; [apply (or_panic_ok w0 i5 g4 (Returning (addr soft_stub) 0) s5 Hb5); simpl; lia|].
  cbn beta. intros p s6 Hb6. apply wp_ret. exists g4. eapply built_weaken; [apply list_subseteq_nil| |exact Hb6].
  intros i6 Hs6 ->. split; [split; [|apply elem_of_app; right; by apply list_elem_of_singleton]|].
  - cbn [table_map]. apply map_ok_data, (map_ok_mono i5 _ _ _ Hs6). eapply map_ok_ext; [|exact Hmap5].
    intros k. exact (override_chain specs all_tables _ _ k Hnd Hn11 Hn12 Hfirst).
  - assert (H46 : i4 ⊆ i5 ++ [(p, request_code (Returning (addr soft_stub) 0))]) by (etrans; [exact Hs5|exact Hs6]).
    refine (installs_chain _ _ _ _ (seeded g) g2 g4 i2 i4 _ _ H46 Hg2 Hg4). etrans; [exact Hs3|]. by etrans.
Qed.

(** A virtual table of executable trampolines. *)
Definition vtable_code (crate : string) (w : W) (table : string * list (string * Z)) (v : Vtable) : Prop :=
  vt_name v = fst table /\
  Forall2 (fun m p => code_at w p (request_code (Returning (addr (fst m)) (snd m))))
    (iunknown_methods crate ++ snd table) (vt_slots v).

(** What a key of the table gives once the arena is sealed. *)
Definition offers (w : W) (t : ImplTable) (dll sym : string) : Prop :=
  match provides (dll, sym) with
  | Some (Fn r) => exists p, ImplTable_lookup t dll sym = Some p /\ code_at w p (request_code r)
  | Some (Datum a) => ImplTable_lookup t dll sym = Some a
  | None => ImplTable_lookup t dll sym = None
  end.

Lemma offers_ok w t issued dll sym : table_ok issued t ->
  (forall p code, (p, code) ∈ issued -> code_at w p code) -> offers w t dll sym.
Proof.
  intros [Hm _] Hc. specialize (Hm (dll, sym)). unfold offers, binds, ImplTable_lookup in *.
  destruct (provides (dll, sym)) as [[r|a]|], (table_map t !! (dll, sym)) as [p|]; try done.
  - exists p. split; [done|]. by apply Hc.
  - by subst.
Qed.

Lemma vtables_code w issued crate tables before after :
  (forall p code, (p, code) ∈ issued -> code_at w p code) -> installed crate tables issued before after ->
  match before with Some v => after = Some v | None => exists v, after = Some v /\ Forall2 (vtable_code crate w) tables v end.
Proof.
  intros Hc. unfold installed. destruct before; [done|]. intros (v & -> & Hv). exists v. split; [done|].
  eapply list.Forall2_impl; [exact Hv|]. intros t x [Hn Hs]. split; [done|]. eapply list.Forall2_impl; [exact Hs|].
  intros m p Hp. by apply Hc.
Qed.

#[local] Opaque provides build seed_security_defaults d3d11_methods d3d12_methods iunknown_methods.

(** C12. The table of implementations is complete and never panics by itself. From
    a fresh arena, building panics only where the kernel has just refused the
    larger block that the arena asked for when its trampolines outgrew it. Otherwise,
    once the arena is sealed, every library and name the layer offers is bound to
    an executable trampoline for exactly the Rust function and argument count of
    its row, or to its variable; nothing else is bound; the stub and every slot of
    the Direct3D virtual tables installed are trampolines too; and memory mapped
    before is untouched. *)
Theorem build_correct capacity (w0 : W) ar w1 g : 0 <= capacity < 2 ^ 63 -> with_capacity capacity w0 = (Ok ar, w1) ->
  exists r g' ar' w', build addr (g, (ar, w1)) = (r, (g', (ar', w'))) /\
  ((r = Panic /\ no_growth w0 w') \/
   exists t, r = Ok t /\ registry g' = seed_security_defaults (registry g) /\
   exists rf ar2 w2, finalize (ar', w') = (rf, (ar2, w2)) /\ (rf = Ok tt \/ exists n, rf = Err (ExecFailed n)) /\
    (forall x, prot_at w0 x <> None -> prot_at w2 x = prot_at w0 x /\ byte_at w2 x = byte_at w0 x) /\
    (rf = Ok tt ->
      (forall dll sym, offers w2 t dll sym) /\
      code_at w2 (soft_stub_thunk t) (request_code (Returning (addr soft_stub) 0)) /\
      (d3d11_vtables g = None -> exists v, d3d11_vtables g' = Some v /\ Forall2 (vtable_code "d3d11_com" w2) d3d11_methods v) /\
      (d3d12_vtables g = None -> exists v, d3d12_vtables g' = Some v /\ Forall2 (vtable_code "d3d12_com" w2) d3d12_methods v))).
Proof.
  intros Hcap Hw. destruct (with_capacity_inv capacity w0 Hcap) as (w1' & [(ar' & Hw' & Hi)|[Hw' _]]);
    rewrite Hw in Hw'; simplify_eq.
  pose proof (build_ok w0 ar' w1' g Hi) as Hb. unfold wpk in Hb.
  destruct (build addr (g, (ar', w1'))) as [r [g' [ar2 w2]]]. exists r, g', ar2, w2. split; [done|].
  destruct r as [t|[]| |]; [|by left|done]. right. exists t. split; [done|].
  destruct Hb as (g2 & issued & ar3 & w3 & [= <- <- <-] & Hi2 & _ & Htab & Hreg & H11 & H12). split; [done|].
  destruct (finalize_ok _ _ _ _ Hi2) as (rf & ar4 & w4 & Hf & Hr & _ & Hbyte & Hout & Hok). exists rf, ar4, w4.
  split_and!; [done|done| |].
  - intros x Hx. destruct (ai_foreign _ _ _ _ Hi2 x Hx) as (J1 & J2 & J3). by rewrite Hout, Hbyte.
  - intros Hrok. destruct (Hok Hrok) as (_ & _ & Hcode). split_and!.
    + intros dll sym. by eapply offers_ok.
    + apply Hcode, Htab.
    + intros E. pose proof (vtables_code _ _ _ _ _ _ Hcode H11) as Hv. by rewrite E in Hv.
    + intros E. pose proof (vtables_code _ _ _ _ _ _ Hcode H12) as Hv. by rewrite E in Hv.
Qed.
End Correct.

(** ** Resolution *)

Section Resolution.
Context {S E : Type}.
Context (addr : string -> Z) (to_lowercase : string -> string).
Context (disk : string -> string -> M S E (option Z)) (soft_stubs : option string) (known : ImplTable).

Definition import_key (imp : Import) : key := (to_lowercase (imp_dll imp), imp_name imp).

(** What the tables say by themselves, following the redirections of the C runtime. *)
Definition table_answer (k : key) : option Z :=
  let '(dll, sym) := k in
  match ImplTable_lookup known dll sym with
  | Some p => Some p
  | None =>
      if String.prefix "api-ms-win-crt-" dll then
        match ImplTable_lookup known "ucrtbase.dll" sym with Some p => Some p | None => ImplTable_lookup known "msvcrt.dll" sym end
      else if bool_decide (dll ∈ ["vcruntime140.dll"; "vcruntime140_1.dll"]%string) then ImplTable_lookup known "ntdll.dll" sym
      else None
  end.

(** Whether a library on disk is asked first, or at all. *)
Definition asks_disk (k : key) : bool :=
  let '(dll, sym) := k in
  match ImplTable_lookup known dll sym with
  | Some _ => bool_decide (dll ∈ ["vcruntime140.dll"; "vcruntime140_1.dll"; "msvcp140.dll"]%string)
  | None => negb (String.prefix "api-ms-win-crt-" dll) && negb (bool_decide (dll ∈ ["vcruntime140.dll"; "vcruntime140_1.dll"]%string))
  end.

Definition stub_addr : Z := if soft_stubs_enabled soft_stubs then soft_stub_thunk known else addr trap_stub.

(** The address of one import: from the disk where it is asked and answers, from the
    tables, or the stub, which is recorded. *)
Inductive bound (imp : Import) (out : ResolvedImports) (p : Z) : Prop :=
  | Bound_disk s s' : asks_disk (import_key imp) = true ->
      disk (imp_dll imp) (imp_name imp) s = (Ok (Some p), s') -> bound imp out p
  | Bound_table : table_answer (import_key imp) = Some p -> bound imp out p
  | Bound_stub : table_answer (import_key imp) = None -> p = stub_addr -> import_key imp ∈ stubbed out -> bound imp out p.

(** The result so far: exactly the imports seen have an address. *)
Record resolved_ok (seen : list Import) (out : ResolvedImports) : Prop := {
  ro_all : forall imp, imp ∈ seen -> is_Some (resolved out !! import_key imp);
  ro_bound : forall k p, resolved out !! k = Some p -> exists imp, imp ∈ seen /\ import_key imp = k /\ bound imp out p;
  ro_stubs : forall k, k ∈ stubbed out -> table_answer k = None
}.

Lemma dll_test1 (dll : string) : ((dll =? "vcruntime140.dll")%string || (dll =? "vcruntime140_1.dll")%string) =
  bool_decide (dll ∈ ["vcruntime140.dll"; "vcruntime140_1.dll"]%string).
Proof.
  apply eq_true_iff_eq. rewrite orb_true_iff, !String.eqb_eq, bool_decide_eq_true, !elem_of_cons, elem_of_nil. tauto.
Qed.

Lemma dll_test2 (dll : string) :
  ((dll =? "vcruntime140.dll")%string || (dll =? "vcruntime140_1.dll")%string || (dll =? "msvcp140.dll")%string) =
  bool_decide (dll ∈ ["vcruntime140.dll"; "vcruntime140_1.dll"; "msvcp140.dll"]%string).
Proof.
  apply eq_true_iff_eq. rewrite !orb_true_iff, !String.eqb_eq, bool_decide_eq_true, !elem_of_cons, elem_of_nil. tauto.
Qed.

(** One step in terms of the two questions. *)
Lemma resolve_one_eq imp out : resolve_one addr to_lowercase disk soft_stubs known imp out =
  let k := import_key imp in
  let from_table := match table_answer k with Some p => bind_import k p out | None => stub_import addr soft_stubs known k out end in
  if asks_disk k then
    let! disk_ptr := disk (imp_dll imp) (imp_name imp) in
    match disk_ptr with Some p => mret (bind_import k p out) | None => mret from_table end
  else mret from_table.
Proof.
  unfold resolve_one, table_answer, asks_disk, import_key, normalize_symbol. cbv zeta. rewrite dll_test2, dll_test1.
  destruct (ImplTable_lookup known _ (imp_name imp)); [by case_bool_decide|].
  destruct (String.prefix _ _); cbn [negb andb].
  { destruct (ImplTable_lookup known "ucrtbase.dll" _); [done|]. by destruct (ImplTable_lookup known "msvcrt.dll" _). }
  case_bool_decide; cbn [negb andb]; [|done]. by destruct (ImplTable_lookup known "ntdll.dll" _).
Qed.

Lemma bound_mono imp out out' p : stubbed out ⊆ stubbed out' -> bound imp out p -> bound imp out' p.
Proof. intros Hs [s s' H1 H2|H|H1 H2 H3]; [by eapply Bound_disk|by apply Bound_table|]. apply Bound_stub; auto. Qed.

Lemma resolved_insert seen imp out p out' : resolved_ok seen out -> resolved out' = <[import_key imp := p]> (resolved out) ->
  stubbed out ⊆ stubbed out' -> (forall k, k ∈ stubbed out' -> table_answer k = None) -> bound imp out' p ->
  resolved_ok (seen ++ [imp]) out'.
Proof.
  intros [H1 H2 H3] Hr Hs Hst Hb. split; [| |done]; rewrite Hr.
  - intros imp' Hin. destruct (decide (import_key imp = import_key imp')) as [<-|]; [rewrite lookup_insert_eq; by eexists|].
    rewrite lookup_insert_ne by done. apply elem_of_app in Hin as [Hin|Hin]; [by apply H1|].
    apply list_elem_of_singleton in Hin. congruence.
  - intros k q. rewrite lookup_insert_Some. intros [[<- <-]|[Hne Hq]].
    + exists imp. split_and!; [apply elem_of_app; right; by apply list_elem_of_singleton|done|done].
    + destruct (H2 k q Hq) as (imp' & Hin & Hk & Hb'). exists imp'. split_and!; [apply elem_of_app; by left|done|].
      by eapply bound_mono.
Qed.

Lemma resolve_one_ok K (I : S -> Prop) seen imp out s :
  (forall dll sym s, I s -> wp K (disk dll sym) (fun _ => I) s) -> I s -> resolved_ok seen out ->
  wp K (resolve_one addr to_lowercase disk soft_stubs known imp out) (fun out' s' => I s' /\ resolved_ok (seen ++ [imp]) out') s.
Proof.
  intros Hdisk HI Ho. rewrite resolve_one_eq. cbv zeta. set (k := import_key imp).
  assert (Htab : resolved_ok (seen ++ [imp])
    (match table_answer k with Some p => bind_import k p out | None => stub_import addr soft_stubs known k out end)).
  { destruct (table_answer k) as [p|] eqn:Et.
    - eapply resolved_insert; [exact Ho|done|done|apply Ho|]. by apply Bound_table.
    - eapply resolved_insert; [exact Ho|done| | |]; cbn [stub_import stubbed].
      + intros x Hx. apply elem_of_app. by left.
      + intros x Hx. apply elem_of_app in Hx as [Hx|Hx]; [by apply Ho|]. apply list_elem_of_singleton in Hx. by subst.
      + apply Bound_stub; [done|done|]. apply elem_of_app. right. by apply list_elem_of_singleton. }
  destruct (asks_disk k) eqn:Ek; [|by apply wp_ret]. unfold wpk, mbind. specialize (Hdisk (imp_dll imp) (imp_name imp) s HI).
  unfold wpk in Hdisk. destruct (disk _ _ s) as [[[p|]|e| |] s'] eqn:Ed; try done. cbn [mret]. split; [done|].
  eapply resolved_insert; [exact Ho|done|done|apply Ho|]. by eapply Bound_disk.
Qed.

End Resolution.

(** ** What the names of API sets give *)

Lemma first_other_dll (d sym : string) specs : forallb (fun s => negb (dll s =? d)%string) specs = true -> first (d, sym) specs = None.
Proof.
  intros H. apply first_none. intros Hin. apply list_elem_of_fmap in Hin as (s & Hk & Hs).
  rewrite forallb_forall in H. apply list_elem_of_In in Hs. specialize (H s Hs).
  apply (f_equal fst) in Hk. cbn in Hk. by rewrite Hk, String.eqb_refl in H.
Qed.

(** The forwarded names lack the suffix that the imports of a program carry, so
    an import from an API set is not answered by its forward: apart from the wait
    functions, registered under the full name, the table has nothing for it. *)
Theorem apiset_imports_missed addr a sym : a ∈ APISETS -> a <> "api-ms-win-core-synch-l1-2-0"%string ->
  provides addr (append a ".dll", sym) = None.
Proof.
  intros Ha Hne. set (rows := d3d12_export_specs ++ d3d11_export_specs ++ all_tables).
  assert (Hrows : forallb (fun s => negb (dll s =? append a ".dll")%string) rows = true /\ append a ".dll" ∉ APISETS /\
    forallb (fun d => negb (fst (fst d) =? append a ".dll")%string) data_exports = true).
  { unfold APISETS in Ha. rewrite !elem_of_cons, elem_of_nil in Ha.
    repeat (destruct Ha as [-> |Ha]; [first [by destruct Hne|split_and!;
      [by vm_compute|apply (bool_decide_unpack (_ ∉ APISETS)); by vm_compute|by vm_compute]]|]). done. }
  destruct Hrows as (Hrows & Hset & Hdata). unfold rows in Hrows. rewrite !forallb_app, !andb_true_iff in Hrows.
  destruct Hrows as (H12 & H11 & Hall). unfold provides, data_entry.
  replace (find _ data_exports) with (@None (string * string * string)).
  - unfold row_entry, forwarded, forward_source. cbn [fst snd]. rewrite (first_other_dll _ sym _ H12), (first_other_dll _ sym _ H11).
    rewrite decide_False by done. by rewrite (first_other_dll _ sym _ Hall).
  - symmetry. destruct (find _ data_exports) as [d|] eqn:Ed; [|done]. apply find_some in Ed as [Hin Hd].
    rewrite forallb_forall in Hdata. specialize (Hdata d Hin). apply bool_decide_eq_true in Hd.
    by rewrite Hd, String.eqb_refl in Hdata.
Qed.

(** ** Concrete tables *)

Definition demo_addr (name : string) : Z := 2 ^ 40 + Z.of_nat (String.length name).

Definition demo_globals : Globals := mkGlobals Registry_new None None.

Lemma build_correct_witness : exists t g' ar' w', build demo_addr (demo_globals, demo_arena) = (Ok t, (g', (ar', w'))) /\
  registry g' = seed_security_defaults (registry demo_globals) /\
  provides demo_addr ("kernel32.dll", "HeapAlloc")%string =
    Some (Fn (Returning (demo_addr "win32_kernel32::heap::heap_alloc") 3)).
Proof.
  destruct (build_correct demo_addr 16 SmallHost.empty (fst demo_arena) (snd demo_arena) demo_globals) as
    (r & g' & ar' & w' & Hb & Hr).
  - split; [discriminate|reflexivity].
  - vm_compute. reflexivity.
  - assert (Hok : outcome_is_ok (fst (build demo_addr (demo_globals, demo_arena))) = true) by (vm_compute; reflexivity).
    change (fst demo_arena, snd demo_arena) with demo_arena in Hb.
    destruct Hr as [[-> _]|(t & -> & Hreg & _)]; [rewrite Hb in Hok; discriminate Hok|].
    exists t, g', ar', w'. split; [exact Hb|]. split; [exact Hreg|vm_compute; reflexivity].
Defined.

(** A table with one function, and a disk that has one library. *)
Definition demo_table : ImplTable := mkTable {[("ucrtbase.dll", "exit")%string := 64]} 32.

Definition demo_disk (dll sym : string) : M unit Empty_set (option Z) :=
  mret (if (dll =? "PhysX.dll")%string then Some 96 else None).

Definition demo_imports : list Import :=
  [mkImport "api-ms-win-crt-runtime-l1-1-0.dll" "exit" 0; mkImport "PhysX.dll" "step" 8; mkImport "gone.dll" "f" 16].

