(* ===== verification/PeExports.v ===== *)
(** * Export tables of loaded libraries ([crates/pe-loader/src/dllmod.rs])

    The bounds-checked readers over a mapped image, the walk over its headers to
    the export directory, the table the loader keeps and the addresses it gives.
    [PeModules.v] has the list of modules. *)
From Stdlib Require Import ZArith Lia String.
From stdpp Require Import base list option gmap.
From S2P Require Import Prelude PeHost PeImage PeReloc GuestMem.
Local Open Scope rust_scope.
Local Open Scope Z_scope.
Set Warnings "-register-all".

Definition MAX_NAME_LEN : nat := 4096.

Definition u32_saturating_add (a b : Z) : Z := Z.min u32_max (a + b).
Definition u32_saturating_mul (a b : Z) : Z := Z.min u32_max (a * b).
Definition u32_checked_add (a b : Z) : option Z := if u32_max <? a + b then None else Some (a + b).

Record ExportDirSpan : Type := mkSpan { span_rva : Z; span_size : Z }.

(** The names are a map from byte strings; [function_rvas] is a vector. *)
Record ExportTable : Type := mkExports {
  names : gmap (list Z) Z;
  function_rvas : list Z;
  ordinal_base : Z;
  export_dir : ExportDirSpan
}.

Definition no_exports : ExportTable := mkExports ∅ [] 1 (mkSpan 0 0).

Definition function_rva_by_ordinal (t : ExportTable) (ordinal : Z) : option Z :=
  if ordinal <? ordinal_base t then None
  else function_rvas t !! Z.to_nat (ordinal - ordinal_base t).

Definition elem_rva (array_rva index elem_size : Z) : Z :=
  u32_saturating_add array_rva (u32_saturating_mul index elem_size).

Section Readers.
Context `{HW : Host W} {E : Type}.
Variable img : MappedImage.
Local Abbreviation R := (M W E).

(** [let Some(x) = .. else { .. }] and the question mark on options. *)
Definition let_some {A B} (m : R (option A)) (none : R B) (k : A -> R B) : R B :=
  let! o := m in match o with Some a => k a | None => none end.

Definition read_u16 (rva : Z) : R (option Z) :=
  match rva_to_ptr img rva with
  | None => mret None
  | Some p => let! v := read_int 2 p in mret (Some v)
  end.

Definition read_u32 (rva : Z) : R (option Z) :=
  match rva_to_ptr img rva with
  | None => mret None
  | Some p => let! v := read_int 4 p in mret (Some v)
  end.

(** At most [n] bytes. *)
Fixpoint read_nul_loop (n : nat) (off : Z) (out : list Z) : R (option (list Z)) :=
  match n with
  | O => mret None
  | S n =>
      match rva_to_ptr img off with
      | None => mret None
      | Some p =>
          let! b := read_int 1 p in
          if b =? 0 then mret (Some out)
          else
            match u32_checked_add off 1 with
            | None => mret None
            | Some off => read_nul_loop n off (out ++ [b])
            end
      end
  end.

Definition read_bytes_nul (rva : Z) : R (option (list Z)) := read_nul_loop MAX_NAME_LEN rva [].

Definition checked (o : option Z) (k : Z -> R (option ExportDirSpan)) : R (option ExportDirSpan) :=
  match o with Some a => k a | None => mret None end.

Definition read_export_dir_at (dd_offset : Z) : R (option ExportDirSpan) :=
  let_some (read_u32 dd_offset) (mret None) (fun rva =>
  checked (u32_checked_add dd_offset 4) (fun off =>
  let_some (read_u32 off) (mret None) (fun size =>
  if rva =? 0 then mret None else mret (Some (mkSpan rva size))))).

Definition locate_export_dir : R (option ExportDirSpan) :=
  let_some (read_u16 0) (mret None) (fun magic_dos =>
  if negb (magic_dos =? 0x5A4D) then mret None
  else
    let_some (read_u32 0x3C) (mret None) (fun e_lfanew =>
    checked (u32_checked_add e_lfanew 4) (fun coff =>
    checked (u32_checked_add coff 20) (fun opt =>
    let_some (read_u16 opt) (mret None) (fun magic =>
    if magic =? 0x20B then checked (u32_checked_add opt 112) read_export_dir_at
    else if magic =? 0x10B then checked (u32_checked_add opt 96) read_export_dir_at
    else mret None))))).

(** One name: [None] ends the loop. *)
Definition read_export_name (addr_functions addr_names addr_ordinals i : Z) : R (option (list Z * Z)) :=
  let_some (read_u32 (elem_rva addr_names i 4)) (mret None) (fun name_rva =>
  let_some (read_u16 (elem_rva addr_ordinals i 2)) (mret None) (fun ord_idx =>
  let_some (read_u32 (elem_rva addr_functions ord_idx 4)) (mret None) (fun func_rva =>
  let_some (read_bytes_nul name_rva) (mret None) (fun name => mret (Some (name, func_rva)))))).

Definition export_names (n_names addr_functions addr_names addr_ordinals : Z) : R (gmap (list Z) Z) :=
  loop (fun '(i, acc) =>
    if i <? n_names then
      let! r := read_export_name addr_functions addr_names addr_ordinals i in
      mret (match r with Some (name, rva) => inl (i + 1, <[name := rva]> acc) | None => inr acc end)
    else mret (inr acc)) (0, ∅).

Definition export_functions (n_functions addr_functions : Z) : R (list Z) :=
  loop (fun '(i, acc) =>
    if i <? n_functions then
      let! r := read_u32 (elem_rva addr_functions i 4) in
      mret (inl (i + 1, match r with Some rva => acc ++ [rva] | None => acc end))
    else mret (inr acc)) (0, []).

Definition parse_export_table : R ExportTable :=
  let! dir := locate_export_dir in
  match dir with
  | None => mret no_exports
  | Some dir =>
      let read_field off := read_u32 (u32_saturating_add (span_rva dir) off) in
      let! fields := m_list read_field [16; 20; 24; 28; 32; 36] in
      match fields with
      | [Some base; Some n_functions; Some n_names; Some addr_functions; Some addr_names; Some addr_ordinals] =>
          let! names := export_names n_names addr_functions addr_names addr_ordinals in
          let! rvas := export_functions n_functions addr_functions in
          mret (mkExports names rvas base dir)
      | _ => mret (mkExports ∅ [] 1 dir)
      end
  end.
End Readers.

(** The address of an export, refusing forwarders; null when there is none. *)
Definition export_addr (img : MappedImage) (t : ExportTable) (rva : Z) : Z :=
  let dir := export_dir t in
  let forwarder := (rva =? 0) ||
    ((span_rva dir <=? rva) && (rva <? u32_saturating_add (span_rva dir) (span_size dir))) in
  if forwarder then 0
  else match rva_to_ptr img rva with Some addr => addr | None => 0 end.

(** ** Reading is quiet

    A reader returns or dies on an access past the last page of the image; it
    changes nothing. *)

Lemma fuel_enough n : 0 <= n < 2 ^ 63 -> exists d, Pos.to_nat loop_fuel = (S (Z.to_nat n) + d)%nat.
Proof.
  intros Hn. exists (Pos.to_nat loop_fuel - S (Z.to_nat n))%nat. enough (S (Z.to_nat n) <= Pos.to_nat loop_fuel)%nat by lia.
  apply Nat2Z.inj_le. rewrite positive_nat_Z. change (Z.pos loop_fuel) with (2 ^ 64). lia.
Qed.

(** A counted loop that changes nothing: each step keeps [P], leaves with [Q], or
    dies, if [K]. *)
Lemma loop_count {W E T A : Type} (K : Prop) (P : Z -> T -> Prop) (Q : A -> Prop) (body : Z * T -> M W E (Z * T + A)) (n : Z) (w : W) t :
  0 <= n < 2 ^ 63 ->
  (forall i t, 0 <= i <= n -> P i t -> (K /\ body (i, t) w = (Panic, w)) \/ exists r, body (i, t) w = (Ok r, w) /\
    match r with inl (i', t') => i < n /\ i' = i + 1 /\ P i' t' | inr a => Q a end) ->
  P 0 t -> (K /\ loop body (0, t) w = (Panic, w)) \/ exists a, loop body (0, t) w = (Ok a, w) /\ Q a.
Proof.
  intros Hn Hstep H0.
  enough (Hgo : forall k i t, Z.of_nat k = n - i -> 0 <= i -> P i t ->
    (K /\ forall d, steps (S k + d) body (i, t) w = (Panic, w)) \/
    exists a, (forall d, steps (S k + d) body (i, t) w = (Ok (inr a), w)) /\ Q a).
  { destruct (fuel_enough n Hn) as [d Hf]. unfold loop, mbind. rewrite iterate_steps, Hf.
    assert (Hn0 : Z.of_nat (Z.to_nat n) = n - 0) by lia.
    destruct (Hgo (Z.to_nat n) 0 t Hn0 (Z.le_refl 0) H0) as [[HK Ha]|(a & Ha & HQ)]; rewrite Ha; [left|right; exists a]; split; [exact HK|reflexivity|reflexivity|exact HQ]. }
  induction k as [|k IH]; intros i t' Hk Hi HP; destruct (Hstep i t' ltac:(lia) HP) as [[HK Hb]|(r & Hb & Hr)].
  1, 3: left; split; [done|]; intros d; cbn [Nat.add]; rewrite steps_S; unfold mbind; by rewrite Hb.
  all: destruct r as [[i' t'']|a]; [destruct Hr as (Hlt & -> & HP')|].
  - lia.
  - right. exists a. split; [|done]. intros d. cbn [Nat.add]. rewrite steps_S. by rewrite (mbind_ok _ _ _ _ _ Hb).
  - assert (Hnext : forall d, steps (S (S k) + d) body (i, t') w = steps (S k + d) body (i + 1, t'') w).
    { intros d. change (S (S k) + d)%nat with (S (S k + d)). rewrite steps_S. by rewrite (mbind_ok _ _ _ _ _ Hb). }
    destruct (IH (i + 1) t'' ltac:(lia) ltac:(lia) HP') as [[HK Ha]|(a & Ha & HQ)]; [left|right].
    + split; [done|]. intros d. by rewrite Hnext.
    + exists a. split; [|done]. intros d. by rewrite Hnext.
  - right. exists a. split; [|done]. intros d. cbn [Nat.add]. rewrite steps_S. by rewrite (mbind_ok _ _ _ _ _ Hb).
Qed.

(** The two uses: nothing is known of accesses, or none dies. *)
Lemma loop_exact {W E T A : Type} (P : Z -> T -> Prop) (Q : A -> Prop) (body : Z * T -> M W E (Z * T + A)) (n : Z) (w : W) t :
  0 <= n < 2 ^ 63 ->
  (forall i t, 0 <= i <= n -> P i t -> exists r, body (i, t) w = (Ok r, w) /\
    match r with inl (i', t') => i < n /\ i' = i + 1 /\ P i' t' | inr a => Q a end) ->
  P 0 t -> exists a, loop body (0, t) w = (Ok a, w) /\ Q a.
Proof.
  intros Hn Hs H0. destruct (loop_count False P Q body n w t Hn) as [[[] _]|H]; [|done|done]. intros i t' Hi HP. right. by apply Hs.
Qed.

Lemma loop_dies {W E T A : Type} (body : Z * T -> M W E (Z * T + A)) (n : Z) (w : W) t : 0 <= n < 2 ^ 63 ->
  (forall i t, 0 <= i <= n -> body (i, t) w = (Panic, w) \/ exists r, body (i, t) w = (Ok r, w) /\
    match r with inl (i', _) => i < n /\ i' = i + 1 | inr _ => True end) ->
  loop body (0, t) w = (Panic, w) \/ exists a, loop body (0, t) w = (Ok a, w) /\ True.
Proof.
  intros Hn Hs. destruct (loop_count True (fun _ _ => True) (fun _ => True) body n w t Hn) as [[_ H]|H]; [|done|by left|by right].
  intros i t' Hi _. destruct (Hs i t' Hi) as [H|(r & H & Hr)]; [by left|right]. exists r. split; [done|]. destruct r as [[i' t'']|a]; [tauto|done].
Qed.

Section Reading.
Context `{HW : Host W} `{HL : !HostLaws W} {E : Type}.
Context (img : MappedImage) (w : W).

Definition readable_image : Prop := forall x, base img <= x < base img + size img -> may prot_r w x = true.

Hypothesis Hread : readable_image.

(** What a reader of [n] bytes sees inside the image. *)
Definition rd (n : nat) (rva : Z) : option Z :=
  if rva + Z.of_nat n <=? size img then Some (le_val (get_bytes w (base img + rva) (Z.of_nat n))) else None.

(** A quiet computation whose values satisfy [P]. *)
Definition quiet {A} (P : A -> Prop) (m : M W E A) : Prop := m w = (Panic, w) \/ exists a, m w = (Ok a, w) /\ P a.

Lemma quiet_ret {A} (P : A -> Prop) a : P a -> quiet P (mret a).
Proof. intros H. right. by exists a. Qed.

Lemma quiet_bind {A B} (P : A -> Prop) (Q : B -> Prop) (m : M W E A) (k : A -> M W E B) :
  quiet P m -> (forall a, P a -> quiet Q (k a)) -> quiet Q (mbind m k).
Proof.
  intros [Hm|(a & Hm & HP)] Hk; [left; unfold mbind; by rewrite Hm|].
  unfold quiet. rewrite (mbind_ok _ _ _ _ _ Hm). by apply Hk.
Qed.

Definition opt {A} (P : A -> Prop) (o : option A) : Prop := match o with Some a => P a | None => True end.

Lemma quiet_some {A B} (P : A -> Prop) (Q : option B -> Prop) (m : M W E (option A)) (k : A -> M W E (option B)) :
  Q None -> quiet (opt P) m -> (forall a, P a -> quiet Q (k a)) -> quiet Q (let_some m (mret None) k).
Proof. intros HQ Hm Hk. eapply quiet_bind; [exact Hm|]. intros [a|] Ha; [by apply Hk|by apply quiet_ret]. Qed.

Lemma quiet_int n a : quiet (fun v => 0 <= v < 2 ^ (8 * Z.of_nat n)) (read_int n a).
Proof.
  unfold read_int, load, quiet, mbind. destruct (may_all _ _ _ _); [right|by left]. eexists. split; [done|].
  pose proof (le_val_range (get_bytes w a (Z.of_nat n)) (get_bytes_range _ _ _)) as H.
  rewrite get_bytes_length in H by lia. by rewrite Nat2Z.id in H.
Qed.

Lemma quiet_u32 rva : quiet (opt is_u32) (read_u32 img rva).
Proof.
  unfold read_u32. destruct (rva_to_ptr img rva); [|by apply quiet_ret].
  eapply quiet_bind; [apply (quiet_int 4)|]. intros v Hv. by apply quiet_ret.
Qed.

Lemma quiet_u16 rva : quiet (opt is_u32) (read_u16 img rva).
Proof.
  unfold read_u16. destruct (rva_to_ptr img rva); [|by apply quiet_ret].
  eapply quiet_bind; [apply (quiet_int 2)|]. intros v Hv. apply quiet_ret. cbn in *. unfold is_u32. lia.
Qed.

Lemma quiet_nul n : forall off out, quiet (fun _ => True) (read_nul_loop (E := E) img n off out).
Proof.
  induction n as [|n IH]; intros off out; cbn [read_nul_loop]; [by apply quiet_ret|].
  destruct (rva_to_ptr img off); [|by apply quiet_ret]. eapply quiet_bind; [apply (quiet_int 1)|].
  intros b _. destruct (b =? 0); [by apply quiet_ret|]. destruct (u32_checked_add off 1); [apply IH|by apply quiet_ret].
Qed.

Lemma quiet_checked o k (Q : option ExportDirSpan -> Prop) : Q None -> (forall a, quiet Q (k a)) -> quiet Q (checked o k).
Proof. intros HQ H. destruct o; cbn [checked]; [apply H|by apply quiet_ret]. Qed.

Lemma quiet_dir_at off : quiet (fun _ => True) (read_export_dir_at (E := E) img off).
Proof.
  eapply quiet_some; [done|apply quiet_u32|]. intros rva _. apply quiet_checked; [done|]. intros o.
  eapply quiet_some; [done|apply quiet_u32|]. intros size _. destruct (rva =? 0); by apply quiet_ret.
Qed.

Lemma quiet_locate : quiet (fun _ => True) (locate_export_dir (E := E) img).
Proof.
  eapply quiet_some; [done|apply quiet_u16|]. intros m _. destruct (negb _); [by apply quiet_ret|].
  eapply quiet_some; [done|apply quiet_u32|]. intros lf _. apply quiet_checked; [done|]. intros coff.
  apply quiet_checked; [done|]. intros o. eapply quiet_some; [done|apply quiet_u16|]. intros magic _.
  destruct (magic =? 0x20B); [|destruct (magic =? 0x10B); [|by apply quiet_ret]]; apply quiet_checked; try done; apply quiet_dir_at.
Qed.

Lemma quiet_name af an ao i : quiet (fun _ => True) (read_export_name (E := E) img af an ao i).
Proof.
  eapply quiet_some; [done|apply quiet_u32|]. intros nrva _. eapply quiet_some; [done|apply quiet_u16|]. intros k _.
  eapply quiet_some; [done|apply quiet_u32|]. intros f _. eapply (quiet_some (fun _ => True)); [done| |].
  - destruct (quiet_nul MAX_NAME_LEN nrva []) as [H|(r & H & _)]; [by left|right]. exists r. split; [done|by destruct r].
  - intros name _. by apply quiet_ret.
Qed.

Lemma quiet_names n af an ao : 0 <= n < 2 ^ 32 -> quiet (fun _ => True) (export_names (E := E) img n af an ao).
Proof.
  intros Hn. unfold export_names, quiet.
  apply (loop_dies _ n); [lia|].
  intros i t Hi. cbn beta iota. destruct (Z.ltb_spec i n); [|right; by eexists]. unfold mbind at 1 2.
  destruct (quiet_name af an ao i) as [Hr|(r & Hr & _)]; rewrite Hr; [by left|right]. by destruct r as [[name rva]|]; eexists.
Qed.

Lemma quiet_functions n af : 0 <= n < 2 ^ 32 -> quiet (fun _ => True) (export_functions (E := E) img n af).
Proof.
  intros Hn. unfold export_functions, quiet.
  apply (loop_dies _ n); [lia|].
  intros i t Hi. cbn beta iota. destruct (Z.ltb_spec i n); [|right; by eexists]. unfold mbind at 1 2.
  destruct (quiet_u32 (elem_rva af i 4)) as [Hr|(r & Hr & _)]; rewrite Hr; [by left|right]. by eexists.
Qed.

Lemma quiet_list {A B} (Q : B -> Prop) (f : A -> M W E B) l : (forall x, quiet Q (f x)) -> quiet (Forall Q) (m_list f l).
Proof.
  intros Hf. induction l as [|x l IH]; cbn [m_list]; [by apply quiet_ret|].
  eapply quiet_bind; [apply Hf|]. intros y Hy. eapply quiet_bind; [exact IH|]. intros ys Hys. apply quiet_ret. by constructor.
Qed.

(** Whatever the image holds, its exports are read without effect. *)
Lemma quiet_parse : quiet (fun _ => True) (parse_export_table (E := E) img).
Proof.
  unfold parse_export_table. eapply quiet_bind; [apply quiet_locate|]. intros [dir|] _; [|by apply quiet_ret].
  eapply quiet_bind; [apply (quiet_list (opt is_u32)); intros off; apply quiet_u32|]. intros fields Hf.
  assert (Hnone : quiet (fun _ => True) (mret (E := E) (mkExports ∅ [] 1 dir))) by (by apply quiet_ret).
  destruct fields as [|[b|] [|[nf|] [|[nn|] [|[af|] [|[an|] [|[ao|] [|]]]]]]]; try exact Hnone.
  rewrite !Forall_cons in Hf. cbn [opt] in Hf. unfold is_u32 in Hf.
  eapply quiet_bind; [apply quiet_names; lia|]. intros m _. eapply quiet_bind; [apply quiet_functions; lia|].
  intros l _. by apply quiet_ret.
Qed.

(** ** Reading what is laid out *)

Lemma read_int_image n rva : 0 <= rva -> rva + Z.of_nat n <= size img ->
  read_int (E := E) n (base img + rva) w = (Ok (le_val (get_bytes w (base img + rva) (Z.of_nat n))), w).
Proof.
  intros Hr Hn. unfold read_int. rewrite (mbind_ok (E := E) _ _ w (get_bytes w (base img + rva) (Z.of_nat n)) w); [done|].
  apply load_ok. intros x Hx. apply Hread. lia.
Qed.

Lemma read_u16_eq rva v : 0 <= rva -> rd 2 rva = Some v -> read_u16 (E := E) img rva w = (Ok (Some v), w).
Proof.
  intros H. unfold rd. destruct (Z.leb_spec (rva + Z.of_nat 2) (size img)); [|done]. intros [= <-].
  unfold read_u16, rva_to_ptr. rewrite (proj2 (Z.ltb_lt _ _)) by lia. by rewrite (mbind_ok _ _ _ _ _ (read_int_image 2 rva ltac:(lia) ltac:(lia))).
Qed.

Lemma read_u32_eq rva v : 0 <= rva -> rd 4 rva = Some v -> read_u32 (E := E) img rva w = (Ok (Some v), w).
Proof.
  intros H. unfold rd. destruct (Z.leb_spec (rva + Z.of_nat 4) (size img)); [|done]. intros [= <-].
  unfold read_u32, rva_to_ptr. rewrite (proj2 (Z.ltb_lt _ _)) by lia. by rewrite (mbind_ok _ _ _ _ _ (read_int_image 4 rva ltac:(lia) ltac:(lia))).
Qed.

Lemma let_some_eq {A B} (m : M W E (option A)) (k : A -> M W E (option B)) a :
  m w = (Ok (Some a), w) -> let_some m (mret None) k w = k a w.
Proof. intros H. unfold let_some. by rewrite (mbind_ok _ _ _ _ _ H). Qed.

(** A terminated name inside the image. *)
Record name_at (rva : Z) (name : list Z) : Prop := {
  na_start : 0 <= rva;
  na_inside : rva + Z.of_nat (length name) < size img;
  na_short : (length name < MAX_NAME_LEN)%nat /\ rva + Z.of_nat (length name) <= u32_max;
  na_bytes : get_bytes w (base img + rva) (Z.of_nat (length name)) = name;
  na_nonzero : 0 ∉ name;
  na_end : byte_at w (base img + rva + Z.of_nat (length name)) = 0
}.

Lemma read_nul_name name : forall n off out, (length name < n)%nat -> 0 <= off ->
  off + Z.of_nat (length name) < size img -> off + Z.of_nat (length name) <= u32_max ->
  get_bytes w (base img + off) (Z.of_nat (length name)) = name -> 0 ∉ name ->
  byte_at w (base img + off + Z.of_nat (length name)) = 0 ->
  read_nul_loop (E := E) img n off out w = (Ok (Some (out ++ name)), w).
Proof.
  assert (Hone : forall a, le_val (get_bytes w a (Z.of_nat 1)) = byte_at w a)
    by (intros a; change (byte_at w a + 256 * 0 = byte_at w a); lia).
  induction name as [|b name IH]; intros n off out Hn Hoff Hin Hmax Hb Hz He; (destruct n as [|n]; [cbn in Hn; lia|]);
    cbn [length] in *; cbn [read_nul_loop]; unfold rva_to_ptr; rewrite (proj2 (Z.ltb_lt _ _)) by lia;
    rewrite (mbind_ok _ _ _ _ _ (read_int_image 1 off ltac:(lia) ltac:(lia))), Hone.
  - rewrite Z.add_0_r in He. by rewrite He, app_nil_r.
  - replace (Z.of_nat (S (length name))) with (1 + Z.of_nat (length name)) in Hb by lia.
    rewrite get_bytes_app in Hb by lia. change (get_bytes w (base img + off) 1) with [byte_at w (base img + off)] in Hb.
    injection Hb as Hb0 Hb. rewrite Hb0. apply not_elem_of_cons in Hz as [Hz0 Hz].
    rewrite (proj2 (Z.eqb_neq b 0)) by done. unfold u32_checked_add. rewrite (proj2 (Z.ltb_ge _ _)) by lia.
    rewrite (IH n (off + 1) (out ++ [b])); [by rewrite <- app_assoc|lia..| |done|].
    + by replace (base img + (off + 1)) with (base img + off + 1) by lia.
    + by replace (base img + (off + 1) + Z.of_nat (length name)) with (base img + off + Z.of_nat (S (length name))) by lia.
Qed.

Lemma read_name name rva : name_at rva name -> read_bytes_nul (E := E) img rva w = (Ok (Some name), w).
Proof. intros [H1 H2 [H3 H4] H5 H6 H7]. by apply (read_nul_name name). Qed.

(** The headers of the image name an export directory. *)
Definition headers_name (dir : option ExportDirSpan) : Prop :=
  locate_export_dir (E := E) img w = (Ok dir, w).

(** An export directory laid out as the format asks: the function addresses, and
    the names with the index of their function. *)
Record export_layout (dir : ExportDirSpan) (base_ord : Z) (funcs : list Z) (named : list (list Z * nat)) (af an ao : Z) : Prop := {
  el_dir : 0 <= span_rva dir /\ span_rva dir + 36 <= u32_max;
  el_fields : map (fun off => rd 4 (span_rva dir + off)) [16; 20; 24; 28; 32; 36] =
    [Some base_ord; Some (Z.of_nat (length funcs)); Some (Z.of_nat (length named)); Some af; Some an; Some ao];
  el_arrays : 0 <= af /\ 0 <= an /\ 0 <= ao /\ af + 4 * Z.of_nat (length funcs) <= u32_max /\
    an + 4 * Z.of_nat (length named) <= u32_max /\ ao + 2 * Z.of_nat (length named) <= u32_max;
  el_funcs : forall i r, funcs !! i = Some r -> rd 4 (af + 4 * Z.of_nat i) = Some r;
  el_named : forall i name k, named !! i = Some (name, k) -> (k < length funcs)%nat /\
    rd 2 (ao + 2 * Z.of_nat i) = Some (Z.of_nat k) /\
    exists nrva, rd 4 (an + 4 * Z.of_nat i) = Some nrva /\ name_at nrva name;
  el_distinct : NoDup (map fst named)
}.

Lemma elem_rva_in a i k : 0 <= a -> 0 <= i -> 0 < k -> a + k * i <= u32_max -> elem_rva a i k = a + k * i.
Proof.
  intros. unfold elem_rva, u32_saturating_add, u32_saturating_mul. rewrite (Z.mul_comm i k).
  rewrite (Z.min_r _ (k * i)) by lia. by apply Z.min_r.
Qed.

Lemma read_name_layout dir b funcs named af an ao i name k : export_layout dir b funcs named af an ao ->
  named !! i = Some (name, k) -> exists r, funcs !! k = Some r /\
    read_export_name (E := E) img af an ao (Z.of_nat i) w = (Ok (Some (name, r)), w).
Proof.
  intros [_ _ (Ha1 & Ha2 & Ha3 & Hb1 & Hb2 & Hb3) Hf Hnm _] Hi. destruct (Hnm i name k Hi) as (Hk & Ho & nrva & Hn & Hat).
  apply lookup_lt_is_Some_2 in Hk as Hr. destruct Hr as [r Hr]. exists r. split; [done|].
  pose proof (lookup_lt_Some _ _ _ Hi) as Hil. unfold read_export_name.
  rewrite !elem_rva_in by lia. rewrite (let_some_eq _ _ _ (read_u32_eq (an + 4 * Z.of_nat i) nrva ltac:(lia) Hn)).
  rewrite (let_some_eq _ _ _ (read_u16_eq (ao + 2 * Z.of_nat i) (Z.of_nat k) ltac:(lia) Ho)).
  rewrite !elem_rva_in by lia. rewrite (let_some_eq _ _ _ (read_u32_eq (af + 4 * Z.of_nat k) r ltac:(lia) (Hf k r Hr))).
  by rewrite (let_some_eq _ _ _ (read_name name nrva Hat)).
Qed.

(** The first [i] names are in the map. *)
Definition names_upto (funcs : list Z) (named : list (list Z * nat)) (i : Z) (m : gmap (list Z) Z) : Prop :=
  forall name r, m !! name = Some r <-> exists j k, Z.of_nat j < i /\ named !! j = Some (name, k) /\ funcs !! k = Some r.

Lemma names_upto_step funcs named i name k r m : NoDup (map fst named) -> named !! i = Some (name, k) ->
  funcs !! k = Some r -> names_upto funcs named (Z.of_nat i) m ->
  names_upto funcs named (Z.of_nat i + 1) (<[name := r]> m).
Proof.
  intros Hnd Hi Hr Hm name' r'. rewrite lookup_insert_Some, (Hm name' r'). split.
  - intros [[<- <-]|[Hne (j & k' & Hj & Hjn & Hjr)]]; [exists i, k|exists j, k']; split_and!; try done; lia.
  - intros (j & k' & Hj & Hjn & Hjr). destruct (decide (j = i)) as [-> |Hji].
    + left. rewrite Hi in Hjn. injection Hjn as <- <-. split; [done|]. congruence.
    + right. split; [|exists j, k'; split_and!; [lia|done|done]]. intros <-. apply Hji.
      assert (Hx : forall l, named !! l = Some (name, k) \/ named !! l = Some (name, k') -> map fst named !! l = Some name).
      { intros l [Hl|Hl]; by rewrite list_lookup_fmap, Hl. }
      eapply (NoDup_lookup (map fst named) j i name); auto.
Qed.

Lemma export_names_layout dir b funcs named af an ao : export_layout dir b funcs named af an ao ->
  exists m, export_names (E := E) img (Z.of_nat (length named)) af an ao w = (Ok m, w) /\
    names_upto funcs named (Z.of_nat (length named)) m.
Proof.
  intros Hl. assert (Hb : Z.of_nat (length named) <= u32_max) by (destruct Hl as [_ _ ? _ _ _]; lia).
  unfold export_names.
  apply (loop_exact (names_upto funcs named) _ _ (Z.of_nat (length named))); [unfold u32_max in Hb; lia| |].
  - intros i t Hi HP. cbn beta iota. destruct (Z.ltb_spec i (Z.of_nat (length named))) as [Hlt|Hge].
    + destruct (lookup_lt_is_Some_2 named (Z.to_nat i) ltac:(lia)) as [[name k] Hnk].
      destruct (read_name_layout _ _ _ _ _ _ _ _ _ _ Hl Hnk) as (r & Hr & He). rewrite Z2Nat.id in He by lia.
      rewrite (mbind_ok _ _ _ _ _ He). eexists. split; [done|]. cbn beta iota. split_and!; [done|done|].
      rewrite <- (Z2Nat.id i) in HP by lia. rewrite <- (Z2Nat.id i) by lia. eapply names_upto_step; eauto. apply (el_distinct _ _ _ _ _ _ _ Hl).
    + eexists. split; [done|]. by replace (Z.of_nat (length named)) with i by lia.
  - intros name r. rewrite lookup_empty. split; [done|]. intros (j & k & Hj & _). lia.
Qed.

Lemma export_functions_layout dir b funcs named af an ao : export_layout dir b funcs named af an ao ->
  export_functions (E := E) img (Z.of_nat (length funcs)) af w = (Ok funcs, w).
Proof.
  intros [_ _ (Ha & _ & _ & Hb & _) Hf _ _].
  enough (exists l, export_functions (E := E) img (Z.of_nat (length funcs)) af w = (Ok l, w) /\ l = funcs) as (l & Hl & ->) by exact Hl.
  unfold export_functions.
  apply (loop_exact (fun i l => l = take (Z.to_nat i) funcs) (fun l => l = funcs) _ (Z.of_nat (length funcs)));
    [unfold u32_max in Hb; lia| |done].
  intros i t Hi ->. cbn beta iota. destruct (Z.ltb_spec i (Z.of_nat (length funcs))) as [Hlt|Hge].
  - destruct (lookup_lt_is_Some_2 funcs (Z.to_nat i) ltac:(lia)) as [r Hr]. rewrite elem_rva_in by lia.
    pose proof (Hf _ _ Hr) as Hrd. rewrite Z2Nat.id in Hrd by lia.
    rewrite (mbind_ok _ _ _ _ _ (read_u32_eq (af + 4 * i) r ltac:(lia) Hrd)). eexists. split; [done|]. cbn beta iota. split_and!; [done|done|].
    rewrite (Z2Nat.inj_add i 1) by lia. rewrite Nat.add_1_r. by rewrite (take_S_r _ _ _ Hr).
  - eexists. split; [done|]. cbn beta iota. rewrite take_ge by lia. done.
Qed.

(** On a directory laid out properly, parsing gives exactly its functions and names. *)
Lemma parse_layout dir b funcs named af an ao : headers_name (Some dir) -> export_layout dir b funcs named af an ao ->
  exists t, parse_export_table (E := E) img w = (Ok t, w) /\ function_rvas t = funcs /\ ordinal_base t = b /\ export_dir t = dir /\
    forall name r, names t !! name = Some r <-> exists k, (name, k) ∈ named /\ funcs !! k = Some r.
Proof.
  intros Hd Hl. unfold parse_export_table. rewrite (mbind_ok _ _ _ _ _ Hd).
  set (rf := fun off => read_u32 (E := E) img (u32_saturating_add (span_rva dir) off)).
  pose proof (el_dir _ _ _ _ _ _ _ Hl) as Hdir. pose proof (el_fields _ _ _ _ _ _ _ Hl) as Hfields. cbn [map] in Hfields.
  injection Hfields as F1 F2 F3 F4 F5 F6.
  assert (Hrf : forall off v, 0 <= off <= 36 -> rd 4 (span_rva dir + off) = Some v -> rf off w = (Ok (Some v), w)).
  { intros off v Ho Hv. unfold rf, u32_saturating_add. rewrite Z.min_r by lia. by apply read_u32_eq; [lia|]. }
  assert (Hfs : m_list rf [16; 20; 24; 28; 32; 36] w =
    (Ok [Some b; Some (Z.of_nat (length funcs)); Some (Z.of_nat (length named)); Some af; Some an; Some ao], w)).
  { cbn [m_list]. unfold mbind. by rewrite (Hrf 16 b ltac:(lia) F1), (Hrf 20 _ ltac:(lia) F2), (Hrf 24 _ ltac:(lia) F3),
      (Hrf 28 af ltac:(lia) F4), (Hrf 32 an ltac:(lia) F5), (Hrf 36 ao ltac:(lia) F6). }
  rewrite (mbind_ok _ _ _ _ _ Hfs).
  destruct (export_names_layout _ _ _ _ _ _ _ Hl) as (m & Hm & Hu). rewrite (mbind_ok _ _ _ _ _ Hm).
  rewrite (mbind_ok _ _ _ _ _ (export_functions_layout _ _ _ _ _ _ _ Hl)).
  eexists. split; [reflexivity|]. split_and!; [done..|]. intros name r. cbn [names]. rewrite (Hu name r). split.
  - intros (j & k & _ & Hj & Hk). exists k. split; [by apply list_elem_of_lookup_2 in Hj|done].
  - intros (k & [j Hj]%list_elem_of_lookup & Hk). exists j, k. split_and!; [|done..]. apply lookup_lt_Some in Hj. lia.
Qed.
End Reading.
