(* ===== verification/PeProcess.v ===== *)
(** * The process the loader works on ([pe-loader/src/teb.rs], [runtime/src/lib.rs])

    The state that loading changes: the globals of the crates, the module list and
    memory. The host services beside memory are an interface, [Env]. Then the guest
    stack, the thread block, and the calls into guest code. *)
From Stdlib Require Import ZArith Lia String.
From stdpp Require Import base list option strings gmap.
From S2P Require Import Prelude PeHost PeImage PeReloc PeTls PeSeh GuestMem PeThunk ExportTables PeImports PeExports.
Local Open Scope rust_scope.
Local Open Scope Z_scope.
Set Warnings "-register-all".

(** ** Data *)

(** [LoadError]; a message keeps its fixed part. *)
Inductive LoadError : Type :=
  | Read
  | Parse
  | MapFailure (e : MapError)
  | Bootstrap (msg : string).

Record Stack : Type := mkStack { stk_base : Z; total_len : Z }.

(** A module of the list. *)
Record LoadedModule : Type := mkModule {
  h_module : Z;
  module_path : string;
  module_name : string;
  exports : ExportTable;
  image : MappedImage;
  mod_stack : Stack;
  mod_arena : ThunkArena
}.

(** The globals of the crates, the thread's [gs] base and last error, and memory.
    The two flags say that the loader has registered its functions. *)
Record Process (W : Type) : Type := mkProcess {
  globals : Globals;
  exe_base_reg : option Z;
  exe_dir : option string;
  exc_table : option ExceptionTable;
  bridge : bool;
  seh_bridge : bool;
  modules : list LoadedModule;
  last_error : Z;
  gs_base : Z;
  memory : W
}.
Arguments mkProcess {W}.
Arguments globals {W}.
Arguments exe_base_reg {W}.
Arguments exe_dir {W}.
Arguments exc_table {W}.
Arguments bridge {W}.
Arguments seh_bridge {W}.
Arguments modules {W}.
Arguments last_error {W}.
Arguments gs_base {W}.
Arguments memory {W}.

(** What goblin gives of a file. *)
Record Parsed : Type := mkParsed {
  file : PE;
  coff_characteristics : Z;
  entry_point : Z;
  imports : list Import;
  reloc_dir : option DataDirectory;
  exception_dir : option DataDirectory;
  tls_dir : option DataDirectory
}.

(** The registers of a call into guest code, at its first instruction. *)
Record GuestCall : Type := mkCall { g_rip : Z; g_rsp : Z; g_rcx : Z; g_rdx : Z; g_r8 : Z }.

(** ** The host beside memory

    The parser, the file system, the environment, the linker, the allocator and the
    guest's own code. *)
Class Env (W : Type) `{HW : Host W} := {
  parse : list Z -> option Parsed;
  canonicalize : string -> option string;
  read_file : string -> option (list Z);
  path_exists : string -> bool;
  env_var : string -> option string;
  str_lowercase : string -> string;
  from_utf8_lossy : list Z -> string;
  fn_addr : string -> Z;
  alloc_zeroed : Z -> W -> option Z * W;
  dealloc : Z -> Z -> W -> W;
  (** Where the allocator put the slot array of a block of thread storage. *)
  tls_array : TlsBlock -> Z;
  (** Whether the kernel takes an address as [gs] base. *)
  arch_set_gs : Z -> bool;
  guest : GuestCall -> M (Process W) Empty_set Z
}.

Section Ops.
Context `{HW : Host W} `{HE : !Env W}.

Local Abbreviation P := (M (Process W) LoadError).

Definition set_memory (p : Process W) (w : W) : Process W :=
  mkProcess (globals p) (exe_base_reg p) (exe_dir p) (exc_table p) (bridge p) (seh_bridge p) (modules p)
    (last_error p) (gs_base p) w.
Definition set_modules (p : Process W) (ms : list LoadedModule) : Process W :=
  mkProcess (globals p) (exe_base_reg p) (exe_dir p) (exc_table p) (bridge p) (seh_bridge p) ms
    (last_error p) (gs_base p) (memory p).
Definition set_globals_of (p : Process W) (g : Globals) : Process W :=
  mkProcess g (exe_base_reg p) (exe_dir p) (exc_table p) (bridge p) (seh_bridge p) (modules p)
    (last_error p) (gs_base p) (memory p).
Definition set_error (p : Process W) (code : Z) : Process W :=
  mkProcess (globals p) (exe_base_reg p) (exe_dir p) (exc_table p) (bridge p) (seh_bridge p) (modules p)
    code (gs_base p) (memory p).

Definition get_process : P (Process W) := fun p => (Ok p, p).

(** [set] of a [OnceLock]: the first value stays. *)
Definition register_exe_base (b : Z) : P unit := fun p =>
  (Ok tt, mkProcess (globals p) (Some (default b (exe_base_reg p))) (exe_dir p) (exc_table p) (bridge p) (seh_bridge p)
    (modules p) (last_error p) (gs_base p) (memory p)).
Definition register_exe_dir (d : string) : P unit := fun p =>
  (Ok tt, mkProcess (globals p) (exe_base_reg p) (Some (default d (exe_dir p))) (exc_table p) (bridge p) (seh_bridge p)
    (modules p) (last_error p) (gs_base p) (memory p)).
Definition register_kernel32_bridge : P unit := fun p =>
  (Ok tt, mkProcess (globals p) (exe_base_reg p) (exe_dir p) (exc_table p) true (seh_bridge p)
    (modules p) (last_error p) (gs_base p) (memory p)).
Definition seh_install (t : option ExceptionTable) : P unit := fun p =>
  (Ok tt, mkProcess (globals p) (exe_base_reg p) (exe_dir p) t (bridge p) true
    (modules p) (last_error p) (gs_base p) (memory p)).
Definition set_thread_gs_base (teb : Z) : P unit := fun p =>
  if arch_set_gs teb then
    (Ok tt, mkProcess (globals p) (exe_base_reg p) (exe_dir p) (exc_table p) (bridge p) (seh_bridge p)
      (modules p) (last_error p) teb (memory p))
  else (Err (Bootstrap "arch_prctl(ARCH_SET_GS) failed"), p).

Definition exe_base (p : Process W) : Z := default 0x140000000 (exe_base_reg p).

(** Work on memory, its errors mapped. *)
Definition on_mem {E A} (f : E -> LoadError) (m : M W E A) : P A := fun p =>
  let '(r, w) := m (memory p) in
  (match r with Ok a => Ok a | Err e => Err (f e) | Panic => Panic | NoFuel => NoFuel end, set_memory p w).

Definition bootstrap {E} (msg : string) (_ : E) : LoadError := Bootstrap msg.

(** A value dropped when the work fails. *)
Definition or_drop {A} (drop : P unit) (m : P A) : P A := fun p =>
  match m p with
  | (Err e, p) => (drop ;;; mfail e) p
  | r => r
  end.

(** [match .. { Ok(a) => .., Err(e) => .. }] *)
Definition attempt {A} (m : P A) : P (A + LoadError) := fun p =>
  match m p with
  | (Ok a, p) => (Ok (inl a), p)
  | (Err e, p) => (Ok (inr e), p)
  | (Panic, p) => (Panic, p)
  | (NoFuel, p) => (NoFuel, p)
  end.

(** ** The guest stack *)

Definition DEFAULT_STACK_SIZE : Z := 2 ^ 20.
Definition GUARD_PAGE_SIZE : Z := 4096.
Definition PROT_NONE : Z := 0.

Definition stack_new (n : Z) : M W string Stack :=
  let total := round_up n page_size + GUARD_PAGE_SIZE in
  fun w => match sys_mmap 0 total false w with
  | (None, w) => (Err "mmap of stack failed"%string, w)
  | (Some b, w) =>
      (let! rc := mprotect b GUARD_PAGE_SIZE PROT_NONE in
       if negb (rc =? 0) then munmap b total ;;; mfail "mprotect of stack guard page failed"%string
       else mret (mkStack b total)) w
  end.

Definition new_default : M W string Stack := stack_new DEFAULT_STACK_SIZE.

Definition usable_len (s : Stack) : Z := total_len s - GUARD_PAGE_SIZE.
Definition top (s : Stack) : Z := Z.land (stk_base s + (GUARD_PAGE_SIZE + usable_len s)) (Z.lnot 0xF).

Definition stack_drop {E} (s : Stack) : M W E unit := munmap (stk_base s) (total_len s).

(** ** The thread block *)

Definition TEB_PEB_OFFSET : Z := 0x60.
Definition TEB_TLS_POINTER_OFFSET : Z := 0x58.

Record TebPeb : Type := mkTeb { teb_base : Z; peb_offset : Z }.

Definition write_u64 {E} (a v : Z) : M W E unit := write_int 8 a v.

Definition teb_ptr (t : TebPeb) : Z := teb_base t.
Definition peb_ptr (t : TebPeb) : Z := teb_base t + peb_offset t.

Definition init_teb {E} (t : TebPeb) (stack_base stack_limit : Z) : M W E unit :=
  let teb := teb_base t in
  write_u64 teb 0 ;;;
  write_u64 (teb + 0x08) stack_base ;;;
  write_u64 (teb + 0x10) stack_limit ;;;
  write_u64 (teb + 0x18) 0 ;;;
  write_u64 (teb + 0x20) 0 ;;;
  write_u64 (teb + 0x28) 0 ;;;
  write_u64 (teb + 0x30) teb ;;;
  write_u64 (teb + TEB_PEB_OFFSET) (teb_base t + peb_offset t).

Definition init_peb {E} (t : TebPeb) (image_base : Z) : M W E unit :=
  write_u64 (teb_base t + peb_offset t + 0x10) image_base.

Definition teb_new {E} (stack_base stack_limit image_base : Z) : M W E TebPeb := fun w =>
  match alloc_zeroed (2 * 4096) w with
  | (None, w) => (Panic, w)
  | (Some b, w) =>
      (let t := mkTeb b 4096 in
       init_teb t stack_base stack_limit ;;;
       init_peb t image_base ;;;
       mret t) w
  end.

Definition set_tls_pointer {E} (t : TebPeb) (tls_pointer : Z) : M W E unit :=
  write_u64 (teb_base t + TEB_TLS_POINTER_OFFSET) tls_pointer.

Definition teb_drop {E} (t : TebPeb) : M W E unit := fun w => (Ok tt, dealloc (teb_base t) (2 * 4096) w).

(** ** Calls into the guest

    The stack pointer is below 32 bytes of shadow space and the return address. *)
Definition call_guest {A} (c : GuestCall) (k : Z -> A) : P A := fun p =>
  match guest c p with
  | (Ok rax, p) => (Ok (k rax), p)
  | (Err e, p) => match e with end
  | (Panic, p) => (Panic, p)
  | (NoFuel, p) => (NoFuel, p)
  end.

Definition run_entrypoint_win64 (entry stack_top peb : Z) : P Z :=
  call_guest (mkCall entry (stack_top - 0x28) peb 0 0) (to_signed 32).

Definition run_dll_main_win64 (entry stack_top h reason reserved : Z) : P Z :=
  call_guest (mkCall entry (stack_top - 0x28) h reason reserved) (to_signed 32).
End Ops.

(** ** Memory that stays as it is *)

Section Frames.
Context `{HW : Host W} `{HL : !HostLaws W}.

(** The content of an image region. *)
Definition image_at (w : W) (img : MappedImage) (f pr : Z -> Z) : Prop := forall i, 0 <= i < size img ->
  byte_at w (PeImage.base img + i) = f i /\ prot_at w (PeImage.base img + i) = Some (pr i).

Lemma image_at_holds w img f pr : image_at w img f pr -> PeReloc.holds w img w f pr.
Proof.
  intros H x. destruct (in_range _ _ x) eqn:R; [|done]. destruct (H (x - PeImage.base img)) as [<- <-]; [ranges|].
  by replace (PeImage.base img + (x - PeImage.base img)) with x by lia.
Qed.

Lemma holds_image_at w0 w img f pr : PeReloc.holds w0 img w f pr -> image_at w img f pr /\ intact_but (PeImage.base img) (size img) w0 w.
Proof.
  intros H. split.
  - intros i Hi. by apply (mapped_in w0 w (PeImage.base img) (size img) f pr).
  - intros x Hr Hx. specialize (H x). rewrite Hr in H. destruct H as [H1 H2]. auto.
Qed.

Lemma image_at_intact w w' img f pr : intact w w' -> image_at w img f pr -> image_at w' img f pr.
Proof. intros Hi H i Hr. destruct (H i Hr) as [E1 E2]. destruct (Hi (PeImage.base img + i)) as [-> ->]; [by rewrite E2|done]. Qed.

Lemma image_at_but b n w w' img f pr : intact_but b n w w' -> apart (PeImage.base img) (size img) b n ->
  image_at w img f pr -> image_at w' img f pr.
Proof.
  intros Hi Ha H i Hr. destruct (H i Hr) as [E1 E2].
  destruct (Hi (PeImage.base img + i)) as [-> ->]; [apply in_range_false; unfold apart in Ha; lia|by rewrite E2|done].
Qed.

Lemma code_at_but b n w w' p code : intact_but b n w w' -> apart p (Z.of_nat (length code)) b n ->
  code_at w p code -> code_at w' p code.
Proof.
  intros Hi Ha [Hx Hb].
  assert (H : forall x, p <= x < p + Z.of_nat (length code) -> prot_at w' x = prot_at w x /\ byte_at w' x = byte_at w x).
  { intros x Hr. apply Hi; [apply in_range_false; unfold apart in Ha; lia|]. specialize (Hx x Hr). unfold may in Hx.
    by destruct (prot_at w x). }
  split; [intros x Hr; unfold may; rewrite (proj1 (H x Hr)); by apply Hx|].
  rewrite <- Hb at 2. apply get_bytes_ext. intros x Hr. by apply H.
Qed.

Lemma code_at_intact w w' p code : intact w w' -> code_at w p code -> code_at w' p code.
Proof.
  intros Hi [Hx Hb].
  assert (H : forall x, p <= x < p + Z.of_nat (length code) -> prot_at w' x = prot_at w x /\ byte_at w' x = byte_at w x).
  { intros x Hr. apply Hi. specialize (Hx x Hr). unfold may in Hx. by destruct (prot_at w x). }
  split; [intros x Hr; unfold may; rewrite (proj1 (H x Hr)); by apply Hx|].
  rewrite <- Hb at 2. apply get_bytes_ext. intros x Hr. by apply H.
Qed.
End Frames.

(** ** The laws of the allocator *)

Class EnvLaws (W : Type) `{HW : Host W} `{HE : !Env W} := {
  alloc_ok n w b w' : 0 < n -> alloc_zeroed n w = (Some b, w') ->
    0 < b /\ b + n <= 2 ^ 63 /\ (forall x, b <= x < b + n -> prot_at w x = None) /\
    (forall x, prot_at w' x = if in_range b n x then Some prot_rw else prot_at w x) /\
    (forall x, byte_at w' x = if in_range b n x then 0 else byte_at w x);
  alloc_failed n w w' : alloc_zeroed n w = (None, w') -> forall x, prot_at w' x = prot_at w x /\ byte_at w' x = byte_at w x;
  small_pages : 4096 mod page_size = 0
}.

(** ** The stack and the thread block *)

Section Blocks.
Context `{HW : Host W} `{HL : !HostLaws W} `{HE : !Env W} `{HEL : !EnvLaws W}.

(** In memory [w] the pages of a stack, or the thread block, are refused, and [w'] is
    left. *)
Definition stack_refused (w w' : W) : Prop := refused (round_up DEFAULT_STACK_SIZE page_size + GUARD_PAGE_SIZE) w w'.
Definition teb_refused (w w' : W) : Prop := alloc_zeroed (2 * 4096) w = (None, w').

(** A guard page, and usable memory above it up to the top. *)
Record stack_at (w : W) (s : Stack) : Prop := {
  st_bounds : 0 < stk_base s /\ stk_base s + total_len s <= 2 ^ 63 /\ 2 ^ 20 + 4096 <= total_len s;
  st_guard : forall x, stk_base s <= x < stk_base s + 4096 -> prot_at w x = Some PROT_NONE;
  st_usable : forall x, stk_base s + 4096 <= x < stk_base s + total_len s -> prot_at w x = Some prot_rw;
  st_top : stk_base s + total_len s - 16 < top s <= stk_base s + total_len s /\ top s mod 16 = 0
}.

Lemma top_spec s : 0 <= stk_base s + total_len s ->
  stk_base s + total_len s - 16 < top s <= stk_base s + total_len s /\ top s mod 16 = 0.
Proof.
  intros H. unfold top, usable_len, GUARD_PAGE_SIZE. replace (stk_base s + (4096 + (total_len s - 4096))) with (stk_base s + total_len s) by lia.
  change 0xF with (2 ^ 4 - 1). destruct (round_down_spec (stk_base s + total_len s) 4) as (H1 & H2 & _); [lia..|].
  unfold round_down in *. change (2 ^ 4) with 16 in *. split; [lia|done].
Qed.

(** A region that can be unmapped without touching what [w] has mapped. *)
Definition own_region (w : W) (b n : Z) : Prop :=
  0 < n /\ b mod page_size = 0 /\ n mod page_size = 0 /\ forall x, b <= x < b + n -> prot_at w x = None.

Lemma stack_new_ok w : grants (W := W) -> exists r w', new_default w = (r, w') /\ intact w w' /\
  match r with Ok s => stack_at w' s /\ own_region w (stk_base s) (total_len s) | Err _ => stack_refused w w' | _ => False end.
Proof.
  intros Hg. pose proof page_bounds as Hp. pose proof small_pages as H4.
  destruct (page_block (2 ^ 20)) as [Ha Hs]; [lia..|]. unfold stack_refused, refused, new_default, stack_new, DEFAULT_STACK_SIZE, GUARD_PAGE_SIZE.
  set (total := round_up (2 ^ 20) page_size + 4096).
  assert (Hta : total mod page_size = 0) by (apply aligned_add; [lia|done|done]).
  assert (Ht : 2 ^ 20 + 4096 <= total) by (unfold total; lia). clearbody total.
  destruct (sys_mmap 0 total false w) as [[b|] w1] eqn:E.
  - destruct (mmap_ok 0 total false w b w1 ltac:(lia) Hta E) as (Hb & Hmax & Hal & Hfree & Hprot & Hbyte).
    destruct (sys_mprotect b 4096 PROT_NONE w1) as [rc w2] eqn:Em.
    assert (Hrc : rc = 0).
    { pose proof (Hg b 4096 PROT_NONE w1 Hal H4) as Hg'. rewrite Em in Hg'. cbn in Hg'. apply Hg'.
      intros x Hx. rewrite Hprot, (proj2 (in_range_spec _ _ _)) by lia. done. }
    subst rc. unfold mbind, mprotect. rewrite Em. cbn [negb Z.eqb]. eexists _, _. split; [reflexivity|].
    pose proof (fun x => mprotect_ok b 4096 PROT_NONE w1 w2 x Hal H4 Em) as Hp2.
    assert (Hb2 : forall x, byte_at w2 x = byte_at w1 x)
      by (intros x; pose proof (mprotect_byte b 4096 PROT_NONE w1 x) as Hx; by rewrite Em in Hx).
    split.
    + intros x Hx. assert (R : in_range b total x = false)
        by (destruct (in_range b total x) eqn:R; [rewrite Hfree in Hx by ranges; done|done]).
      rewrite Hb2, Hbyte, Hp2, Hprot, R. rewrite (proj2 (in_range_false _ _ _)) by ranges. done.
    + split; [|split_and!; cbn [stk_base total_len]; [lia|done..]]. split; cbn [stk_base total_len].
      * lia.
      * intros x Hx. by rewrite Hp2, (proj2 (in_range_spec _ _ _)) by lia.
      * intros x Hx. rewrite Hp2, (proj2 (in_range_false _ _ _)) by lia. by rewrite Hprot, (proj2 (in_range_spec _ _ _)) by lia.
      * apply (top_spec (mkStack b total)). cbn. lia.
  - eexists _, _. split; [reflexivity|]. split.
    + intros x _. by apply (mmap_failed _ _ _ _ _ x E).
    + done.
Qed.

(** Storing 64-bit fields of a block at distinct multiples of eight. *)
Definition set_fields (b : Z) (fs : list (Z * Z)) (w : W) : W := foldl (fun w f => put 8 (b + fst f) [snd f] w) w fs.

Definition field_ok (n : Z) (f : Z * Z) : Prop := fst f mod 8 = 0 /\ 0 <= fst f /\ fst f + 8 <= n /\ unit_range 8 (snd f).

Lemma set_fields_keep b n o v fs (w : W) : o mod 8 = 0 -> o ∉ map fst fs -> Forall (field_ok n) fs ->
  GuestMem.holds 8 w (b + o) [v] -> GuestMem.holds 8 (set_fields b fs w) (b + o) [v].
Proof.
  intros Ho Hn Hfs. revert w Hn. induction Hfs as [|h fs (Hh & _) _ IH]; intros w Hn Hw; [done|]. cbn [map] in Hn.
  apply not_elem_of_cons in Hn as [Hne Hn]. apply IH; [done|]. apply holds_put_apart; [|done]. cbn [length].
  unfold apart. pose proof (Z.div_mod o 8 ltac:(lia)). pose proof (Z.div_mod (fst h) 8 ltac:(lia)). lia.
Qed.

Lemma set_fields_ok b n fs (w : W) : NoDup (map fst fs) -> Forall (field_ok n) fs ->
  readable w b n -> forall f, f ∈ fs -> GuestMem.holds 8 (set_fields b fs w) (b + fst f) [snd f].
Proof.
  intros Hnd Hfs. revert w Hnd. induction Hfs as [|g fs (Hg1 & Hg2 & Hg3 & Hg4) Hfs IH]; intros w Hnd Hr f Hin; [by apply elem_of_nil in Hin|].
  apply NoDup_cons in Hnd as [Hg Hnd].
  apply elem_of_cons in Hin as [-> |Hin]; [|apply (IH _ Hnd); [by apply readable_put|done]].
  change (set_fields b (g :: fs) w) with (set_fields b fs (put 8 (b + fst g) [snd g] w)).
  apply (set_fields_keep b n); [done|done|done|].
  apply holds_put; [by apply list.Forall_singleton|]. intros x Hx. apply Hr. cbn [length] in Hx. lia.
Qed.

Lemma set_fields_intact b n fs (w : W) : Forall (field_ok n) fs -> intact_but b n w (set_fields b fs w).
Proof.
  intros Hfs. revert w. induction Hfs as [|g fs (_ & Hg2 & Hg3 & _) _ IH]; intros w; [by apply intact_but_refl|].
  eapply intact_but_trans; [|apply IH]. intros x Hx _. rewrite prot_put, byte_put_out; [done|].
  apply in_range_false. cbn [length]. ranges.
Qed.

Lemma u64_step {E A} b n o v (k : unit -> M W E A) (w : W) : writable w b n -> 0 <= o -> o + 8 <= n ->
  mbind (write_u64 (b + o) v) k w = k tt (set_fields b [(o, v)] w).
Proof.
  intros Hw H0 Hn. apply mbind_ok. apply write_int_put. intros x Hx. cbn [fst] in Hx. apply Hw. lia.
Qed.

Definition teb_fields (t : TebPeb) (stack_base stack_limit image_base : Z) : list (Z * Z) :=
  [(0, 0); (0x08, stack_base); (0x10, stack_limit); (0x18, 0); (0x20, 0); (0x28, 0); (0x30, teb_base t);
   (TEB_PEB_OFFSET, teb_base t + 4096); (4096 + 0x10, image_base)].

(** The documented fields of the blocks of a thread and of the process; the slot of
    thread storage is [tls], and the last error is zero. *)
Record teb_at (w : W) (t : TebPeb) (stack_base stack_limit image_base tls : Z) : Prop := {
  tb_bounds : 0 < teb_base t /\ teb_base t + 8192 <= 2 ^ 63 /\ peb_offset t = 4096;
  tb_prot : forall x, teb_base t <= x < teb_base t + 8192 -> prot_at w x = Some prot_rw;
  tb_fields : forall f, f ∈ teb_fields t stack_base stack_limit image_base ++ [(TEB_TLS_POINTER_OFFSET, tls); (0x68, 0)] ->
    GuestMem.holds 8 w (teb_base t + fst f) [snd f]
}.

Lemma zero_field (w : W) b n o : (forall x, b <= x < b + n -> prot_at w x = Some prot_rw /\ byte_at w x = 0) ->
  0 <= o -> o + 8 <= n -> GuestMem.holds 8 w (b + o) [0].
Proof.
  intros H H0 Hn. split.
  - intros x Hx. unfold may. cbn [length] in Hx. by rewrite (proj1 (H x ltac:(lia))).
  - intros i u Hi. apply list_lookup_singleton_Some in Hi as [-> <-]. rewrite Z.mul_0_r, Z.add_0_r.
    assert (Hg : get_bytes w (b + o) (Z.of_nat 8) = replicate 8 0).
    { apply list_eq. intros i. destruct (decide (i < 8)%nat) as [Hi|Hi].
      - replace i with (Z.to_nat (Z.of_nat i)) at 1 by lia. rewrite get_bytes_lookup by lia.
        rewrite (proj2 (H (b + o + Z.of_nat i) ltac:(lia))). by rewrite lookup_replicate_2.
      - rewrite lookup_ge_None_2 by (rewrite get_bytes_length; lia). symmetry. apply lookup_ge_None. rewrite length_replicate. lia. }
    by rewrite Hg.
Qed.

Lemma teb_new_ok {E} sb sl ib (w : W) : unit_range 8 sb -> unit_range 8 sl -> unit_range 8 ib ->
  exists r w', teb_new (E := E) sb sl ib w = (r, w') /\
  match r with Ok t => intact w w' /\ teb_at w' t sb sl ib 0 | Panic => teb_refused w w' | _ => False end.
Proof.
  intros Hsb Hsl Hib. unfold teb_new. destruct (alloc_zeroed (2 * 4096) w) as [[b|] w1] eqn:Ea.
  2:{ eexists _, _. split; [reflexivity|]. done. }
  destruct (alloc_ok (2 * 4096) w b w1 ltac:(lia) Ea) as (Hb & Hmax & Hfree & Hprot & Hbyte). change (2 * 4096) with 8192 in *.
  set (t := mkTeb b 4096). set (fs := teb_fields t sb sl ib).
  assert (Hw : writable w1 b 8192) by (intros x Hx; unfold may; by rewrite Hprot, (proj2 (in_range_spec _ _ _)) by lia).
  assert (Hr : readable w1 b 8192) by (intros x Hx; unfold may; by rewrite Hprot, (proj2 (in_range_spec _ _ _)) by lia).
  assert (Hfs : Forall (field_ok 8192) fs).
  { unfold fs, teb_fields, field_ok, TEB_PEB_OFFSET. repeat apply Forall_cons_2; cbn [fst snd]; try apply Forall_nil_2;
      (split; [done|]; split; [lia|]; split; [lia|]; first [done|unfold unit_range, t; change (2 ^ (8 * Z.of_nat 8)) with (2 ^ 64); cbn [teb_base]; lia]). }
  assert (Hrun : (init_teb t sb sl ;;; init_peb t ib ;;; mret t) w1 = (Ok (E := E) t, set_fields b fs w1)).
  { unfold init_teb, init_peb, TEB_PEB_OFFSET, t. cbn [teb_base peb_offset].
    replace (write_u64 (E := E) b 0) with (write_u64 (E := E) (b + 0) 0) by (by rewrite Z.add_0_r).
    replace (b + 4096 + 0x10) with (b + (4096 + 0x10)) by lia.
    do 8 (rewrite ?mbind_assoc; rewrite (u64_step b 8192) by first [lia|repeat apply writable_put; exact Hw]).
    rewrite (u64_step b 8192) by first [lia|repeat apply writable_put; exact Hw]. reflexivity. }
  rewrite Hrun. eexists _, _. split; [reflexivity|]. split.
  - apply (intact_fresh b 8192); [done|]. eapply intact_but_trans; [|by apply set_fields_intact].
    intros x Hx _. by rewrite Hprot, Hbyte, Hx.
  - split; [cbn; lia| |].
    + intros x Hx. unfold set_fields. assert (Hpf : forall l w', prot_at (foldl (fun w f => put 8 (b + fst f) [snd f] w) w' l) x = prot_at w' x).
      { induction l as [|f l IH]; intros w'; [done|]. cbn [foldl]. by rewrite IH, prot_put. }
      rewrite Hpf, Hprot, (proj2 (in_range_spec _ _ _)) by (cbn in Hx; lia). done.
    + assert (Hz : forall o, 0 <= o -> o + 8 <= 8192 -> GuestMem.holds 8 w1 (b + o) [0]).
      { intros o H0 Ho. apply (zero_field w1 b 8192); [|done|done]. intros x Hx.
        rewrite Hprot, Hbyte, (proj2 (in_range_spec _ _ _)) by lia. done. }
      intros f Hf. apply elem_of_app in Hf as [Hf|Hf].
      * apply (set_fields_ok b 8192); [|done|done|done]. unfold fs, teb_fields. cbn [map fst].
        apply (bool_decide_unpack (NoDup _)). by vm_compute.
      * rewrite !elem_of_cons, elem_of_nil in Hf. destruct Hf as [-> |[-> |[]]]; cbn [fst snd teb_base];
          (apply (set_fields_keep b 8192); [done| |done|by apply Hz]);
          apply (bool_decide_unpack (_ ∉ _)); by vm_compute.
Qed.
End Blocks.

(** ** An executable environment

    Memory from the allocator is a mapping of its own, the file system is a
    function, and a guest is a function on processes. *)
Module SmallEnv.
Section Make.
Variable files : string -> option (list Z).
Variable parse_file : list Z -> option Parsed.
Variable guest_code : GuestCall -> M (Process SmallHost.World) Empty_set Z.

Definition alloc (n : Z) (w : SmallHost.World) : option Z * SmallHost.World :=
  if n mod 16 =? 0 then sys_mmap 0 n false w else (None, w).

Definition env : Env SmallHost.World := {|
  parse := parse_file;
  canonicalize path := Some path;
  read_file := files;
  path_exists path := bool_decide (is_Some (files path));
  env_var _ := None;
  str_lowercase s := s;
  from_utf8_lossy bs := string_of_list_ascii (map (fun b => Ascii.ascii_of_nat (Z.to_nat b)) bs);
  fn_addr s := 4096 + Z.of_nat (String.length s);
  alloc_zeroed := alloc;
  dealloc a n w := sys_munmap a n w;
  tls_array _ := 4096;
  arch_set_gs _ := true;
  guest := guest_code
|}.

Lemma env_laws : EnvLaws (HE := env) SmallHost.World.
Proof.
  split; [| |done].
  - intros n w b w' Hn Ha. cbn [alloc_zeroed env] in Ha. unfold alloc in Ha. destruct (Z.eqb_spec (n mod 16) 0) as [Hm|]; [|done].
    change (n mod page_size (W := SmallHost.World) = 0) in Hm.
    destruct (mmap_ok 0 n false w b w' Hn Hm Ha) as (H1 & H2 & _ & H3 & H4 & H5). by split_and!.
  - intros n w w' Ha x. cbn [alloc_zeroed env] in Ha. unfold alloc in Ha. destruct (n mod 16 =? 0); [|by simplify_eq].
    by apply (mmap_failed _ _ _ _ _ x Ha).
Qed.
End Make.
End SmallEnv.
