(* ===== verification/PeBind.v ===== *)
(** * Binding the imports of an image ([pe-loader/src/lib.rs], [dllmod.rs])

    The stage that the main image and libraries share: an arena, the table of
    implementations, the addresses of the imports, their slots, the seal. It brings
    together [PeThunk.v], [PeImports.v] and the slots of [PeReloc.v]. *)
From Stdlib Require Import ZArith Lia String.
From stdpp Require Import base list option strings gmap.
From S2P Require Import Prelude PeHost PeImage PeReloc PeTls PeSeh GuestMem PeThunk ExportTables PeImports PeExports PeProcess.
Local Open Scope rust_scope.
Local Open Scope Z_scope.
Set Warnings "-register-all".

Section Bind.
Context `{HW : Host W} `{HE : !Env W}.
Local Abbreviation P := (M (Process W) LoadError).

Definition built_into (p : Process W) (s : outcome Empty_set ImplTable * (Globals * (ThunkArena * W)))
    : outcome LoadError (ImplTable * ThunkArena) * Process W :=
  let '(r, (g, (arena, w))) := s in
  (match r with Ok t => Ok (t, arena) | Err e => match e with end | Panic => Panic | NoFuel => NoFuel end,
   set_memory (set_globals_of p g) w).

Definition build_table (arena : ThunkArena) : P (ImplTable * ThunkArena) := fun p =>
  built_into p (build fn_addr (globals p, (arena, memory p))).

(** A method on an arena the process owns. *)
Definition on_arena {A} (f : ThunkError -> LoadError) (m : M (ThunkArena * W) ThunkError A) (arena : ThunkArena)
    : P (A * ThunkArena) := fun p =>
  let '(r, (arena, w)) := m (arena, memory p) in
  (match r with Ok a => Ok (a, arena) | Err e => Err (f e) | Panic => Panic | NoFuel => NoFuel end, set_memory p w).

Definition drop_arena (arena : ThunkArena) : P unit := on_mem (bootstrap EmptyString) (arena_drop arena).
Definition drop_stack (s : Stack) : P unit := on_mem (bootstrap (E := LoadError) EmptyString) (stack_drop s).

(** [expect] *)
Definition expect {A} (m : P A) : P A := fun p =>
  match m p with (Err _, p) => (Panic, p) | r => r end.

(** The arena, the table, the addresses of the imports and their slots. *)
Definition bind_imports (mapped : MappedImage) (imps : list Import) (disk : string -> string -> P (option Z))
    : P (ResolvedImports * ThunkArena) :=
  let! arena := on_mem (bootstrap "thunk arena alloc") (with_capacity (32 * 1024)) in
  let! (table, arena) := build_table arena in
  let! out := resolve fn_addr str_lowercase disk (env_var "NIGG_SOFT_STUBS") imps table in
  on_mem MapFailure (write_iat str_lowercase mapped imps (resolved out)) ;;;
  let! (_, arena) := or_drop (drop_arena arena) (on_arena (bootstrap "thunk arena seal") finalize arena) in
  mret (out, arena).

End Bind.

(** ** What the layer answers for an import *)

Definition crt_sets : list string := ["vcruntime140.dll"; "vcruntime140_1.dll"].

(** The entry, following the redirections of the C runtime. *)
Definition served (f : key -> option entry) (k : key) : option entry :=
  match f k with
  | Some e => Some e
  | None =>
      if String.prefix "api-ms-win-crt-" (fst k) then
        match f ("ucrtbase.dll"%string, snd k) with Some e => Some e | None => f ("msvcrt.dll"%string, snd k) end
      else if bool_decide (fst k ∈ crt_sets) then f ("ntdll.dll"%string, snd k)
      else None
  end.

(** The keys that no library on disk is asked for. *)
Definition own_key (f : key -> option entry) (k : key) : bool :=
  match f k with
  | Some _ => negb (bool_decide (fst k ∈ ["vcruntime140.dll"; "vcruntime140_1.dll"; "msvcp140.dll"]%string))
  | None => String.prefix "api-ms-win-crt-" (fst k) || bool_decide (fst k ∈ crt_sets)
  end.

Definition slot_of (imp : Import) : Z := wrap 32 (imp_offset imp).

(** The slots are in the image and do not overlap. *)
Definition iat_ok (img : MappedImage) (imps : list Import) : Prop :=
  Forall (fun imp => slot_of imp + 8 <= size img) imps /\
  ForallOrdPairs (fun a b => apart (slot_of a) 8 (slot_of b) 8) imps.

Section Slots.
Context (img : MappedImage).

Lemma write_word_in f n a v : word_at (write_word f n a v) n a = wrap (8 * Z.of_nat n) v.
Proof.
  unfold word_at. rewrite <- le_val_bytes. f_equal. apply list_eq. intros i. rewrite list_lookup_fmap.
  destruct (decide (i < n)%nat) as [Hi|Hi].
  - rewrite lookup_seqZ_lt by lia. cbn [fmap option_fmap option_map]. unfold write_word.
    rewrite (proj2 (in_range_spec _ _ _)) by lia. replace (Z.to_nat (a + Z.of_nat i - a)) with i by lia.
    destruct (lookup_lt_is_Some_2 (le_bytes n v) i) as [b Hb]; [rewrite le_bytes_length; lia|].
    rewrite Hb. f_equal. by apply nth_lookup_Some.
  - rewrite lookup_seqZ_ge by lia. symmetry. apply lookup_ge_None. rewrite le_bytes_length. lia.
Qed.

Lemma write_slots_outside slots a n : Forall (fun s => apart (fst s) 8 a n) slots ->
  forall f i, a <= i < a + n -> write_slots slots f i = f i.
Proof.
  induction 1 as [|s slots Hs _ IH]; intros f i Hi; [done|]. unfold write_slots in *. cbn [foldl]. rewrite IH by done.
  unfold write_word. rewrite (proj2 (in_range_false _ _ _)); [done|]. unfold apart in Hs. lia.
Qed.

Lemma write_slots_at slots : ForallOrdPairs (fun s t => apart (fst s) 8 (fst t) 8) slots ->
  forall f s, s ∈ slots -> word_at (write_slots slots f) 8 (fst s) = wrap 64 (snd s).
Proof.
  induction 1 as [|t slots Ht _ IH]; intros f s Hs; [by apply elem_of_nil in Hs|].
  apply elem_of_cons in Hs as [-> |Hs]; [|by apply IH]. unfold write_slots. cbn [foldl].
  change (wrap 64 (snd t)) with (wrap (8 * Z.of_nat 8) (snd t)). rewrite <- (write_word_in f 8 (fst t) (snd t)). apply word_at_ext. intros i Hi.
  apply (write_slots_outside slots (fst t) 8); [|lia]. eapply list.Forall_impl; [exact Ht|]. intros s' Hs'. unfold apart in *. lia.
Qed.

(** When every import is resolved, each has its slot. *)
Lemma iat_slots_all lower res imps : Forall (fun imp => slot_of imp + 8 <= size img) imps ->
  (forall imp, imp ∈ imps -> is_Some (res !! import_key lower imp)) ->
  iat_slots img lower res imps = map (fun imp => (slot_of imp, default 0 (res !! import_key lower imp))) imps.
Proof.
  intros Hs Hr. unfold iat_slots. induction Hs as [|imp imps Hi _ IH]; [done|]. cbn [omap list_omap map].
  destruct (Hr imp (list_elem_of_here _ _)) as [p Hp]. unfold import_key in Hp |- * at 1. rewrite Hp.
  unfold slot_of in Hi |- * at 1. rewrite (proj2 (Z.ltb_lt _ _)) by lia. rewrite IH; [done|].
  intros imp' H. apply Hr. by apply list_elem_of_further.
Qed.

Lemma slots_apart (g : Import -> Z) imps : ForallOrdPairs (fun a b => apart (slot_of a) 8 (slot_of b) 8) imps ->
  ForallOrdPairs (fun s t : Z * Z => apart (fst s) 8 (fst t) 8) (map (fun imp => (slot_of imp, g imp)) imps).
Proof.
  induction 1 as [|imp imps Hi _ IH]; [constructor|]. cbn [map]. constructor; [|done].
  apply Forall_map. exact Hi.
Qed.
End Slots.

(** ** The answers of a table that was built *)

Section Answers.
Context `{HW : Host W} `{HL : !HostLaws W}.
Context (addr : string -> Z) (issued : list (Z * list Z)) (t : ImplTable) (Ht : table_ok addr issued t).

Lemma lookup_provides dll sym : is_Some (ImplTable_lookup t dll sym) <-> is_Some (provides addr (dll, sym)).
Proof.
  destruct Ht as [Hm _]. specialize (Hm (dll, sym)). unfold binds, ImplTable_lookup in *.
  destruct (provides addr (dll, sym)) as [[]|], (table_map t !! (dll, sym)); naive_solver.
Qed.

Lemma asks_own k : asks_disk t k = negb (own_key (provides addr) k).
Proof.
  destruct k as [dll sym]. unfold asks_disk, own_key. cbn [fst]. pose proof (lookup_provides dll sym) as H.
  destruct (ImplTable_lookup t dll sym) as [p|], (provides addr (dll, sym)) as [e|].
  - by rewrite negb_involutive.
  - destruct H as [H _]. destruct (H ltac:(by eexists)) as [? [=]].
  - destruct H as [_ H]. destruct (H ltac:(by eexists)) as [? [=]].
  - unfold crt_sets. by rewrite negb_orb.
Qed.

(** The answer of the table is an answer of the layer. *)
Lemma answer_served k : binds issued (served (provides addr) k) (table_answer t k).
Proof.
  destruct Ht as [Hm _]. destruct k as [dll sym]. unfold served, table_answer. cbn [fst snd].
  assert (Hb : forall d, binds issued (provides addr (d, sym)) (ImplTable_lookup t d sym)) by (intros d; apply Hm).
  assert (Hstep : forall d rest rest', binds issued rest rest' ->
    binds issued (match provides addr (d, sym) with Some e => Some e | None => rest end)
      (match ImplTable_lookup t d sym with Some p => Some p | None => rest' end)).
  { intros d rest rest' Hr. specialize (Hb d). unfold binds in Hb |- * at 1.
    destruct (provides addr (d, sym)) as [[]|], (ImplTable_lookup t d sym); done. }
  apply Hstep. destruct (String.prefix _ _); [apply Hstep, Hb|]. unfold crt_sets.
  destruct (bool_decide _); [apply Hb|exact I].
Qed.

(** An import no library is asked for is resolved without effect. *)
Lemma resolve_own {S E} lower (disk : string -> string -> M S E (option Z)) soft imps s :
  Forall (fun imp => own_key (provides addr) (import_key lower imp) = true) imps ->
  exists out, resolve addr lower disk soft imps t s = (Ok out, s) /\
    forall imp, imp ∈ imps -> resolved out !! import_key lower imp =
      Some (default (stub_addr addr soft t) (table_answer t (import_key lower imp))).
Proof.
  intros Hown. unfold resolve.
  assert (Hgo : forall l seen out, Forall (fun imp => own_key (provides addr) (import_key lower imp) = true) l ->
    (forall imp, imp ∈ seen -> resolved out !! import_key lower imp =
      Some (default (stub_addr addr soft t) (table_answer t (import_key lower imp)))) ->
    exists out', resolve_all addr lower disk soft t l out s = (Ok out', s) /\
      forall imp, imp ∈ seen ++ l -> resolved out' !! import_key lower imp =
        Some (default (stub_addr addr soft t) (table_answer t (import_key lower imp)))).
  { induction l as [|imp l IH]; intros seen out Hl Hseen; cbn [resolve_all].
    - exists out. split; [done|]. by rewrite app_nil_r.
    - apply Forall_cons in Hl as [Hi Hl]. unfold mbind. rewrite resolve_one_eq. cbv zeta. rewrite asks_own, Hi. cbn [negb].
      unfold mret at 1. cbv beta iota. change (imp :: l) with ([imp] ++ l). setoid_rewrite app_assoc.
      apply IH; [done|]. intros imp' Hin. apply elem_of_app in Hin.
      set (k := import_key lower imp) in *. set (out1 := match table_answer t k with Some p => _ | None => _ end).
      assert (H1 : resolved out1 = <[k := default (stub_addr addr soft t) (table_answer t k)]> (resolved out))
        by (unfold out1; by destruct (table_answer t k)).
      rewrite H1. destruct (decide (k = import_key lower imp')) as [<-|Hne]; [by rewrite lookup_insert_eq|].
      rewrite lookup_insert_ne by done. destruct Hin as [Hin|Hin]; [by apply Hseen|].
      apply list_elem_of_singleton in Hin. by subst imp'. }
  destruct (Hgo imps [] (mkResolved ∅ []) Hown) as (out & H1 & H2); [intros ? H; by apply elem_of_nil in H|]. by exists out.
Qed.
End Answers.

(** ** The stage as a whole *)

Section Stage.
Context `{HW : Host W} `{HL : !HostLaws W} `{HE : !Env W}.

Definition soft : bool := soft_stubs_enabled (env_var "NIGG_SOFT_STUBS").

(** The trampoline of a request, sealed and apart from the image. *)
Record runs_at (w : W) (img : MappedImage) (p : Z) (r : request) : Prop := {
  ra_code : code_at w p (request_code r);
  ra_sealed : forall x, p <= x < p + Z.of_nat (length (request_code r)) -> may prot_w w x = false;
  ra_apart : apart p (Z.of_nat (length (request_code r))) (PeImage.base img) (size img);
  ra_range : 0 < p /\ p + Z.of_nat (length (request_code r)) <= 2 ^ 63
}.

(** [p] is what the layer answers for [k]: a trampoline, or a variable. *)
Definition bound_at (w : W) (img : MappedImage) (k : key) (p : Z) : Prop :=
  match served (provides fn_addr) k with
  | Some (Fn r) => runs_at w img p r
  | Some (Datum a) => p = a
  | None => if soft then runs_at w img p (Returning (fn_addr soft_stub) 0) else p = fn_addr trap_stub
  end.

Definition slots_of (imps : list Import) (out : ResolvedImports) : list (Z * Z) :=
  map (fun imp => (slot_of imp, default 0 (resolved out !! import_key str_lowercase imp))) imps.

(** The image [f] with its imports bound, the rest of memory as it was. *)
Record bound_image (w w' : W) (img : MappedImage) (f : Z -> Z) (imps : list Import) (out : ResolvedImports) : Prop := {
  bi_image : exists pr, image_at w' img (write_slots (slots_of imps out) f) pr /\ all_wx_free pr;
  bi_keys : forall imp, imp ∈ imps -> exists p, resolved out !! import_key str_lowercase imp = Some p /\
    bound_at w' img (import_key str_lowercase imp) p;
  bi_intact : intact_but (PeImage.base img) (size img) w w'
}.

Lemma bound_at_but w w' img k p b n : intact_but b n w w' ->
  (forall x, in_range b n x = true -> prot_at w x <> None -> in_range (PeImage.base img) (size img) x = true) ->
  bound_at w img k p -> bound_at w' img k p.
Proof.
  intros Hi Hr. assert (Hruns : forall r, runs_at w img p r -> runs_at w' img p r).
  { intros r [[Hx Hb] Hs Ha Hrg].
    assert (H : forall x, p <= x < p + Z.of_nat (length (request_code r)) -> prot_at w' x = prot_at w x /\ byte_at w' x = byte_at w x).
    { intros x Hxr. specialize (Hx x Hxr). unfold may in Hx.
      assert (Hne : prot_at w x <> None) by (by destruct (prot_at w x)).
      apply Hi; [|done]. destruct (in_range b n x) eqn:R; [|done]. specialize (Hr x R Hne). unfold apart in Ha. ranges. }
    split; [split|..|done|done].
    - intros x Hxr. unfold may. rewrite (proj1 (H x Hxr)). by apply Hx.
    - rewrite <- Hb at 2. apply get_bytes_ext. intros x Hxr. by apply H.
    - intros x Hxr. unfold may. rewrite (proj1 (H x Hxr)). by apply Hs. }
  unfold bound_at. destruct (served _ k) as [[r|a]|]; [apply Hruns|done|]. destruct soft; [apply Hruns|done].
Qed.

(** The slot of an import holds its address. *)
Lemma bound_slot w w' img f imps out imp p : bound_image w w' img f imps out -> iat_ok img imps -> imp ∈ imps ->
  0 <= slot_of imp -> resolved out !! import_key str_lowercase imp = Some p ->
  le_val (get_bytes w' (PeImage.base img + slot_of imp) 8) = wrap 64 p.
Proof.
  intros [(pr & Him & _) _ _] [Hin Hap] Hi H0 Hp. rewrite list.Forall_forall in Hin. specialize (Hin imp Hi).
  rewrite (holds_bytes w' img w' (write_slots (slots_of imps out) f) pr) by (by first [apply image_at_holds|lia]).
  apply (write_slots_at (slots_of imps out) (slots_apart _ imps Hap) f (slot_of imp, p)).
  apply list_elem_of_In, in_map_iff. exists imp. rewrite Hp. split; [done|by apply list_elem_of_In].
Qed.

Lemma seal_grants bs : Forall page_aligned bs -> grants (W := W) ->
  forall w, (forall x, covered bs x -> prot_at w x <> None) -> fst (seal_blocks bs w) = Ok tt.
Proof.
  intros Hal Hg. induction Hal as [|[b l] bs (Hb & Hl & Ha & Hla) _ IH]; intros w Hm; [done|]. cbn [seal_blocks]. cbn in *.
  assert (Hrc : fst (sys_mprotect b l prot_rx w) = 0).
  { apply Hg; [done..|]. intros x Hx. apply Hm. exists b, l. split; [apply list_elem_of_here|done]. }
  unfold mbind, mprotect. destruct (sys_mprotect b l prot_rx w) as [rc w1] eqn:E. cbn in Hrc. subst rc. cbn [negb Z.eqb].
  apply IH. intros x Hx. rewrite (mprotect_ok b l prot_rx w w1 x Ha Hla E). destruct (in_range b l x); [done|].
  apply Hm, covered_cons. by right.
Qed.

Lemma finalize_grants ar w : sealed ar = false -> Forall (block_ok w) (blocks ar) -> grants (W := W) ->
  fst (finalize (ar, w)) = Ok tt.
Proof.
  intros Hopen Hbs Hg. unfold finalize. rewrite (mbind_ok _ _ _ ar (ar, w)), Hopen by done.
  unfold mbind, on_memory. pose proof (seal_grants (blocks ar)) as H. specialize (H ltac:(eapply list.Forall_impl; [exact Hbs|]; intros; by eapply block_aligned) Hg w).
  destruct (seal_blocks (blocks ar) w) as [r w1]. cbn in H. rewrite H; [done|].
  intros x Hx. by rewrite (covered_prot _ _ _ Hbs Hx).
Qed.

Lemma arena_or_refused capacity w : 0 <= capacity < 2 ^ 63 -> exists r w', with_capacity capacity w = (r, w') /\
  match r with Ok ar => arena_inv w [] ar w' | Err _ => refused (round_up (Z.max capacity page_size) page_size) w w' | _ => False end.
Proof.
  intros Hc. destruct (with_capacity_inv capacity w Hc) as (w' & [(ar & H1 & H2)|[H1 H2]]); [by exists (Ok ar), w'|].
  by eexists _, w'.
Qed.

(** Intervals without a common point. *)
Lemma apart_points a n b m : 0 < n -> 0 < m -> (forall x, a <= x < a + n -> b <= x < b + m -> False) -> apart a n b m.
Proof. intros Hn Hm H. unfold apart. specialize (H (Z.max a b)). lia. Qed.

Lemma request_nonempty r : (0 < length (request_code r))%nat.
Proof.
  destruct r as [t n|t n]; cbn [request_code]; [unfold emit_returning|unfold emit_noreturn, shuffle];
    rewrite !length_app; cbn [length]; lia.
Qed.

(** The answer of a sealed table is what the layer answers. *)
Lemma bound_answer (issued : list (Z * list Z)) t ar w w' img k : table_ok fn_addr issued t ->
  (forall i, 0 <= i < size img -> ~ covered (blocks ar) (PeImage.base img + i)) -> Forall (block_ok w) (blocks ar) ->
  (forall q code, (q, code) ∈ issued -> code_at w' q code) -> (forall x, covered (blocks ar) x -> may prot_w w' x = false) ->
  (forall q code, (q, code) ∈ issued -> placed (blocks ar) w q code) -> 0 < size img ->
  bound_at w' img k (default (stub_addr fn_addr (env_var "NIGG_SOFT_STUBS") t) (table_answer t k)).
Proof.
  intros Ht Him Hbs Hc Hseal Hpl Hs.
  assert (Hruns : forall q r, (q, request_code r) ∈ issued -> runs_at w' img q r).
  { intros q r Hq. pose proof (Hpl _ _ Hq) as ((b & l & Hin & Hq1 & Hq2) & _). split.
    - by apply Hc.
    - intros x Hx. apply Hseal. eapply placed_covered; [by apply Hpl|done].
    - apply apart_points; [pose proof (request_nonempty r); lia|done|].
      intros x Hx Hb. apply (Him (x - PeImage.base img) ltac:(lia)).
      replace (PeImage.base img + (x - PeImage.base img)) with x by lia. eapply placed_covered; [by apply Hpl|done].
    - rewrite list.Forall_forall in Hbs. destruct (bo_range _ _ (Hbs _ Hin)) as (H1 & H2 & H3). cbn in *. lia. }
  pose proof (answer_served fn_addr issued t Ht k) as Hb. unfold binds in Hb. unfold bound_at.
  destruct (served _ k) as [[r|a]|], (table_answer t k) as [q|]; try done; cbn [default].
  - by apply Hruns.
  - unfold stub_addr. fold soft. destruct soft; [apply Hruns, Ht|done].
Qed.

Lemma on_mem_ok {E A} (f : E -> LoadError) (m : M W E A) p a w' : m (memory p) = (Ok a, w') -> on_mem f m p = (Ok a, set_memory p w').
Proof. intros H. unfold on_mem. by rewrite H. Qed.

Lemma on_mem_err {E A} (f : E -> LoadError) (m : M W E A) p e w' : m (memory p) = (Err e, w') -> on_mem f m p = (Err (f e), set_memory p w').
Proof. intros H. unfold on_mem. by rewrite H. Qed.

#[local] Opaque build.

(** The table is built, or the kernel refused memory. *)
Lemma build_table_ok p w0 ar : arena_inv w0 [] ar (memory p) -> exists r p', build_table ar p = (r, p') /\
  match r with
  | Ok (t, ar') => exists g w' issued, p' = set_memory (set_globals_of p g) w' /\ arena_inv w0 issued ar' w' /\ table_ok fn_addr issued t
  | Panic => no_growth w0 (memory p')
  | _ => False
  end.
Proof.
  intros Hi. pose proof (build_ok fn_addr w0 ar (memory p) (globals p) Hi) as H. unfold wpk in H. unfold build_table.
  destruct (build fn_addr (globals p, (ar, memory p))) as [[t|e| |] [g [ar1 w1]]]; cbn [built_into]; [|destruct e|by eexists _, _|done].
  destruct H as (g' & issued & ar2 & w2 & Hs & Hinv & _ & Hok & _). injection Hs as -> -> ->. eexists _, _. split; [done|].
  by exists g', w2, issued.
Qed.

Lemma uncovered w0 issued ar w img : arena_inv w0 issued ar w ->
  (forall x, in_range (PeImage.base img) (size img) x = true -> prot_at w0 x <> None) ->
  forall x, covered (blocks ar) x -> in_range (PeImage.base img) (size img) x = false /\ prot_at w0 x = None.
Proof.
  intros Hi Hm x Hx. assert (H0 : prot_at w0 x = None).
  { destruct (prot_at w0 x) eqn:E0; [|done]. destruct (ai_foreign _ _ _ _ Hi x) as [Hn _]; [by rewrite E0|done]. }
  split; [|done]. destruct (in_range _ _ x) eqn:R; [|done]. by destruct (Hm x R).
Qed.

(** Sealing after the image has changed: the arena is elsewhere. *)
Lemma seal_bound w0 issued ar w img w' p : arena_inv w0 issued ar w -> intact_but (PeImage.base img) (size img) w w' ->
  (forall x, in_range (PeImage.base img) (size img) x = true -> prot_at w0 x <> None) -> grants (W := W) -> memory p = w' ->
  exists ar' w2, on_arena (bootstrap "thunk arena seal") finalize ar p = (Ok (tt, ar'), set_memory p w2) /\
    blocks ar' = blocks ar /\ Forall page_aligned (blocks ar) /\
    (forall x, ~ covered (blocks ar) x -> prot_at w2 x = prot_at w' x) /\ (forall x, byte_at w2 x = byte_at w' x) /\
    (forall x, covered (blocks ar) x -> may prot_w w2 x = false) /\
    forall q code, (q, code) ∈ issued -> code_at w2 q code.
Proof.
  intros Hi Hw Himg Hg <-. pose proof (ai_blocks _ _ _ _ Hi) as Hbs.
  assert (Hcov : forall x, covered (blocks ar) x -> prot_at w x = Some prot_rw /\ in_range (PeImage.base img) (size img) x = false).
  { intros x Hx. split; [by eapply covered_prot|]. destruct (in_range _ _ x) eqn:R; [|done].
    destruct (ai_foreign _ _ _ _ Hi x (Himg x R)) as [Hn _]. done. }
  assert (Hbs' : Forall (block_ok (memory p)) (blocks ar)).
  { apply list.Forall_forall. intros [b l] Hin. rewrite list.Forall_forall in Hbs. destruct (Hbs _ Hin) as [H1 H2 H3]. split; [done..|].
    intros x Hx. destruct (Hcov x) as [Hp Hr]; [by exists b, l|]. by rewrite (proj1 (Hw x Hr ltac:(by rewrite Hp))). }
  destruct (finalize_blocks issued ar (memory p) (ai_open _ _ _ _ Hi) Hbs') as (r & ar' & w2 & Hf & _ & Hbl & Hb & Hp & Hok).
  { intros q code Hin. pose proof (ai_issued _ _ _ _ Hi q code Hin) as Hpl. eapply placed_keep; [done| |exact Hpl].
    intros x Hx. destruct (Hcov x (placed_covered _ _ _ _ _ Hpl Hx)) as [Hpx Hr]. apply Hw; [done|by rewrite Hpx]. }
  pose proof (finalize_grants ar (memory p) (ai_open _ _ _ _ Hi) Hbs' Hg) as Hr. rewrite Hf in Hr. cbn in Hr. subst r.
  destruct (Hok eq_refl) as (_ & Hseal & Hcode). exists ar', w2. split_and!; [unfold on_arena; by rewrite Hf|done| |done..].
  eapply list.Forall_impl; [exact Hbs|]. intros bl. apply block_aligned.
Qed.

(** The first block of the arena of an image. *)
Definition arena_bytes : Z := round_up (Z.max (32 * 1024) page_size) page_size.

Lemma bind_imports_ok p img imps disk f pr :
  image_ok img -> grants (W := W) -> image_at (memory p) img f pr -> all_wx_free pr -> iat_ok img imps ->
  Forall (fun imp => own_key (provides fn_addr) (import_key str_lowercase imp) = true) imps ->
  exists r p', bind_imports img imps disk p = (r, p') /\
    match r with
    | Ok (out, arena) => exists g w', p' = set_memory (set_globals_of p g) w' /\ bound_image (memory p) w' img f imps out /\
        Forall page_aligned (blocks arena) /\ forall x, covered (blocks arena) x -> prot_at (memory p) x = None
    | Err _ => refused arena_bytes (memory p) (memory p')
    | Panic => no_growth (memory p) (memory p')
    | NoFuel => False
    end.
Proof.
  intros Hok Hg Him Hpr [Hin Hap] Hown. unfold bind_imports.
  destruct (arena_or_refused (32 * 1024) (memory p) ltac:(lia)) as (r & w1 & Hc & Hr).
  destruct r as [ar|e| |]; [|eexists _, _; split; [unfold mbind; by rewrite (on_mem_err _ _ _ _ _ Hc)|exact Hr]|destruct Hr|destruct Hr].
  rewrite (mbind_ok _ _ _ _ _ (on_mem_ok _ _ _ _ _ Hc)).
  destruct (build_table_ok (set_memory p w1) (memory p) ar Hr) as (r & p2 & Hbt & Hr2). unfold mbind at 1. rewrite Hbt.
  destruct r as [[t ar2]|e| |]; [|destruct Hr2|eexists _, _; split; [reflexivity|exact Hr2]|destruct Hr2]. destruct Hr2 as (g & w2 & issued & -> & Hinv & Ht). cbv beta iota.
  destruct (resolve_own fn_addr issued t Ht str_lowercase disk (env_var "NIGG_SOFT_STUBS") imps
    (set_memory (set_globals_of (set_memory p w1) g) w2) Hown) as (out & Hres & Hkeys).
  rewrite (mbind_ok _ _ _ _ _ Hres).
  assert (Hslots : iat_slots img str_lowercase (resolved out) imps = slots_of imps out)
    by (apply iat_slots_all; [done|]; intros imp H; rewrite (Hkeys imp H); by eexists).
  assert (Hmapped : forall x, in_range (PeImage.base img) (size img) x = true -> prot_at (memory p) x <> None).
  { intros x Hx. destruct (Him (x - PeImage.base img)) as [_ Hp]; [ranges|].
    replace (PeImage.base img + (x - PeImage.base img)) with x in Hp by lia. by rewrite Hp. }
  assert (Hint : intact (memory p) w2) by (intros x Hx; by apply (ai_foreign _ _ _ _ Hinv)).
  destruct (write_iat_correct str_lowercase (resolved out) imps w2 w2 img f pr Hok Hg) as (w3 & pr' & Hw3 & Hm3 & Hpr3); [|done| |].
  { apply image_at_holds. by eapply image_at_intact. }
  { rewrite Hslots. unfold slots_of. apply Forall_map. exact Hin. }
  apply holds_image_at in Hm3 as [Hm3 Hk3]. rewrite Hslots in Hm3.
  rewrite (mbind_ok _ _ _ _ _ (on_mem_ok MapFailure _ (set_memory (set_globals_of (set_memory p w1) g) w2) _ _ Hw3)).
  destruct (seal_bound (memory p) issued ar2 w2 img w3 (set_memory (set_globals_of p g) w3) Hinv Hk3 Hmapped Hg eq_refl)
    as (ar4 & w4 & Hf & Hbl4 & Hal4 & Hp4 & Hb4 & Hs4 & Hc4).
  change (set_memory (set_memory (set_globals_of (set_memory p w1) g) w2) w3) with (set_memory (set_globals_of p g) w3).
  unfold or_drop, mbind. rewrite Hf. eexists _, _. split; [reflexivity|]. exists g, w4. split; [reflexivity|].
  pose proof (uncovered _ _ _ _ img Hinv Hmapped) as Hcov.
  split; [|rewrite Hbl4; split; [exact Hal4|intros x Hx; by apply (Hcov x)]]. split.
  - exists pr'. split; [|exact Hpr3]. intros i Hi. destruct (Hm3 i Hi) as [<- <-]. split; [apply Hb4|]. apply Hp4.
    intros Hc'. destruct (Hcov _ Hc') as [Hr' _]. ranges.
  - intros imp Hin'. rewrite (Hkeys imp Hin'). eexists. split; [reflexivity|].
    apply (bound_answer issued t ar2 w2 w4 img _ Ht); [|exact (ai_blocks _ _ _ _ Hinv)|exact Hc4|exact Hs4|by intros q code Hq; apply (ai_issued _ _ _ _ Hinv)|apply Hok].
    intros i Hi Hc'. destruct (Hcov _ Hc') as [Hr' _]. ranges.
  - intros x Hx Hpx. destruct (Hint x Hpx) as [E1 E2]. assert (Hp2 : prot_at w2 x <> None) by (by rewrite E1).
    destruct (Hk3 x Hx Hp2) as [E3 E4]. rewrite <- E1, <- E2, <- E3, <- E4. split; [|apply Hb4]. apply Hp4.
    intros Hc'. destruct (Hcov _ Hc') as [_ Hn]. exact (Hpx Hn).
Qed.

(** ** The stages before *)

Definition parse_file (b : list Z) : option PE := file <$> parse b.

(** The relocation table is well-formed and its targets are inside, wherever the
    image of [n] bytes goes. *)
Definition relocs_ok (bytes : list Z) (pe : Parsed) (img : MappedImage) (es : list (Z * Z)) : Prop :=
  match reloc_dir pe with
  | None => es = []
  | Some dir => reloc_work parse_file img bytes dir = Some (es, true) /\
      Forall (fits img) es /\ Forall (fun e => snd e < size img) es
  end.

(** A file whose relocations and import slots lie in its image, and whose imports
    the layer answers itself. *)
Record bindable (bytes : list Z) (pe : Parsed) (o : OptionalHeader) : Prop := {
  la_parse : parse bytes = Some pe;
  la_header : optional_header (file pe) = Some o;
  la_widths : pe_ok (file pe) /\ Forall is_byte bytes;
  la_relocs : forall b, 0 < b -> exists es,
    relocs_ok bytes pe (mkImage b (round_up (size_of_image o) page_size) (image_base o)) es;
  la_slots : forall b, iat_ok (mkImage b (round_up (size_of_image o) page_size) (image_base o)) (imports pe);
  la_own : Forall (fun imp => own_key (provides fn_addr) (import_key str_lowercase imp) = true) (imports pe)
}.

Lemma relocate_step p img bytes pe es f pr : image_ok img -> grants (W := W) -> relocs_ok bytes pe img es ->
  image_at (memory p) img f pr -> all_wx_free pr ->
  exists w' pr', match reloc_dir pe with
      | Some dir => on_mem MapFailure (apply_relocations parse_file img bytes (file pe) dir)
      | None => mret tt
      end p = (Ok tt, set_memory p w') /\
    image_at w' img (relocate (delta img) es f) pr' /\ all_wx_free pr' /\ intact_but (PeImage.base img) (size img) (memory p) w'.
Proof.
  intros Hok Hg Hr Him Hpr. unfold relocs_ok in Hr. destruct (reloc_dir pe) as [dir|].
  - destruct Hr as (Hwork & Hfits & Hin).
    pose proof (apply_relocations_spec (memory p) img (file pe) parse_file Hok bytes dir (memory p) f pr
      (image_at_holds _ _ _ _ Him) Hpr) as H. rewrite Hwork in H. specialize (H Hfits). unfold reloc_post in H.
    destruct (apply_relocations parse_file img bytes (file pe) dir (memory p)) as [[[]|[]| |] w'] eqn:Ea; try done.
    + destruct H as (_ & _ & pr' & Hm & Hpr' & _). apply holds_image_at in Hm as [Hm Hk]. exists w', pr'.
      split_and!; [by apply on_mem_ok|done..].
    + by destruct H as [H _].
    + destruct H as (es1 & t & es2 & pr' & -> & Hout & _). apply Forall_app in Hin as [_ Hin]. apply Forall_cons in Hin as [Hin _].
      cbn in Hin. lia.
    + by destruct H.
  - subst es. exists (memory p), pr. split_and!; [by destruct p|done|done|apply intact_but_refl].
Qed.

(** A mapped image, in the terms of the later steps. *)
Lemma mapped_image bytes pe o w img w' : pe_ok pe -> optional_header pe = Some o -> mapping_post bytes pe w (Ok img, w') ->
  image_ok (W := W) img /\ img = mkImage (PeImage.base img) (round_up (size_of_image o) page_size) (image_base o) /\
  fresh_region w (PeImage.base img) (size img) /\ intact w w' /\
  image_at w' img (image_byte bytes pe o) (image_prot page_size (size img) pe) /\ all_wx_free (image_prot page_size (size img) pe).
Proof.
  intros Hpe Ho (o' & Ho' & Hpref & Hsize & Hs & Hal & Hfresh & Hm). rewrite Ho in Ho'. injection Ho' as <-.
  assert (Hk : intact w w').
  { apply (intact_fresh (PeImage.base img) (size img)); [apply Hfresh|]. intros x Hx Hp. specialize (Hm x). rewrite Hx in Hm.
    destruct Hm as [H1 H2]. auto. }
  destruct Hfresh as (H1 & H2 & H3 & H4). split_and!; [done|by destruct img; simpl in *; subst|done|done| |].
  - intros i Hi. by apply (mapped_in w w' (PeImage.base img) (size img)).
  - intros i. unfold image_prot. by apply reprotect_wx_free.
Qed.

Lemma unmap_blocks_total bs : forall w : W, exists w', unmap_blocks bs w = (Ok tt, w').
Proof.
  induction bs as [|[b l] bs IH]; intros w; [by exists w|]. cbn [unmap_blocks]. unfold mbind.
  destruct (b =? 0); [apply IH|]. apply (IH (sys_munmap b l w)).
Qed.

Lemma drop_arena_ok ar (p : Process W) : exists w', drop_arena ar p = (Ok tt, set_memory p w').
Proof. destruct (unmap_blocks_total (blocks ar) (memory p)) as [w' H]. exists w'. by apply on_mem_ok. Qed.

Lemma bound_image_intact w w1 w2 img f imps out : intact w1 w2 -> bound_image w w1 img f imps out -> bound_image w w2 img f imps out.
Proof.
  intros Hi [(pr & H1 & H2) H3 H4]. split.
  - exists pr. split; [by eapply image_at_intact|done].
  - intros imp Hin. destruct (H3 imp Hin) as (q & Hq & Hb). exists q. split; [done|].
    eapply (bound_at_but w1 w2 img _ _ 0 0); [by apply intact_weaken| |exact Hb]. intros x Hx. ranges.
  - eapply intact_but_trans; [exact H4|by apply intact_weaken].
Qed.

(** ** What the host may lack

    With the image in place after [start], the mappings that can be refused: the first
    block of the arena, a larger one, and the stack, each in the memory that the
    steps before it reach. [p'] is the state at the return. *)
Inductive lacking {A} (start : M (Process W) LoadError MappedImage) (imps : list Import)
    (disk : string -> string -> M (Process W) LoadError (option Z)) (p : Process W) :
    outcome LoadError A -> Process W -> Prop :=
  | LackArena img p1 e p' : start p = (Ok img, p1) -> refused arena_bytes (memory p1) (memory p') ->
      lacking start imps disk p (Err e) p'
  | LackGrowth img p1 p' : start p = (Ok img, p1) -> no_growth (memory p1) (memory p') ->
      lacking start imps disk p Panic p'
  | LackStack img p1 out ar p2 e p3 p' : start p = (Ok img, p1) -> bind_imports img imps disk p1 = (Ok (out, ar), p2) ->
      stack_refused (memory p2) (memory p3) -> drop_arena ar p3 = (Ok tt, p') -> lacking start imps disk p (Err e) p'.

(** The block of the thread, which is asked for after the stack. *)
Definition lacking_block (start : M (Process W) LoadError MappedImage) (imps : list Import)
    (disk : string -> string -> M (Process W) LoadError (option Z)) (p p' : Process W) : Prop :=
  exists img p1 out ar p2 st w, start p = (Ok img, p1) /\ bind_imports img imps disk p1 = (Ok (out, ar), p2) /\
    new_default (memory p2) = (Ok st, w) /\ teb_refused w (memory p').

End Stage.
