(* ===== verification/PeModules.v ===== *)
(** * Libraries and the module list ([pe-loader/src/dllmod.rs], [imports.rs],
      [win32-kernel32/src/dllload.rs], [process.rs])

    Loading a library, the list of modules, the search for imports on disk, and
    the calls of kernel32 over them. A library is loaded while the imports of
    another are resolved, so loading has fuel for the depth of that recursion. *)
From Stdlib Require Import ZArith Lia Ascii String.
From stdpp Require Import base list option strings gmap.
From S2P Require Import Prelude PeHost PeImage PeReloc PeTls PeSeh Utf GuestMem PeThunk ExportTables PeImports PeExports PeProcess PeBind.
Local Open Scope rust_scope.
Local Open Scope Z_scope.
Set Warnings "-register-all".

(** ** Text *)

Definition byte_of (c : ascii) : Z := Z.of_nat (nat_of_ascii c).
Definition bytes_of (s : string) : list Z := map byte_of (list_ascii_of_string s).

(** [replace('\\', "/")] *)
Definition slashes (s : string) : string :=
  string_of_list_ascii (map (fun c => if Ascii.eqb c "\"%char then "/"%char else c) (list_ascii_of_string s)).

Definition contains_char (c : ascii) (s : string) : bool := existsb (Ascii.eqb c) (list_ascii_of_string s).

(** [to_ascii_lowercase] of a byte. *)
Definition ascii_lower (c : ascii) : ascii :=
  let n := nat_of_ascii c in
  if ((65 <=? n) && (n <=? 90))%nat then ascii_of_nat (n + 32) else c.

Definition eq_ignore_ascii_case (a b : string) : bool :=
  String.eqb (string_of_list_ascii (map ascii_lower (list_ascii_of_string a)))
    (string_of_list_ascii (map ascii_lower (list_ascii_of_string b))).

(** [split(|c| ..)] on characters that satisfy [sep]. *)
Fixpoint split_on (sep : ascii -> bool) (l acc : list ascii) : list string :=
  match l with
  | [] => [string_of_list_ascii (rev acc)]
  | c :: l => if sep c then string_of_list_ascii (rev acc) :: split_on sep l [] else split_on sep l (c :: acc)
  end.

Definition ends_with_slash (s : string) : bool :=
  match last (list_ascii_of_string s) with Some c => Ascii.eqb c "/"%char | None => false end.

(** [Path::join] with a relative name. *)
Definition join (dir name : string) : string :=
  if (String.eqb dir EmptyString) || ends_with_slash dir then (dir ++ name)%string else (dir ++ "/" ++ name)%string.

(** [Path::file_name] of a canonical path. *)
Definition file_name (path : string) : option string :=
  match last (split_on (fun c => Ascii.eqb c "/"%char) (list_ascii_of_string path) []) with
  | Some s => if (String.eqb s EmptyString) || (String.eqb s "..") then None else Some s
  | None => None
  end.

(** ** Names given to [GetProcAddress]

    A guest pointer, or a C string of the loader's own. *)
Inductive NameArg : Type :=
  | GuestName (p : Z)
  | HostName (bytes : list Z).

Definition IMAGE_FILE_DLL : Z := 0x2000.
Definition ERROR_MOD_NOT_FOUND : Z := 126.
Definition ERROR_PROC_NOT_FOUND : Z := 127.
Definition ERROR_INVALID_NAME : Z := 123.
Definition MAX_GUEST_STR : Z := 32768.
Definition EXE_BASE : Z := 0x140000000.

Definition our_dlls : list string :=
  ["kernel32.dll"; "user32.dll"; "gdi32.dll"; "ntdll.dll"; "advapi32.dll"; "shell32.dll"; "shlwapi.dll"; "ole32.dll";
   "oleaut32.dll"; "ws2_32.dll"; "d3d11.dll"; "dxgi.dll"; "d3d12.dll"; "d3dcompiler_47.dll"; "xinput1_3.dll";
   "xinput1_4.dll"; "xinput9_1_0.dll"; "xaudio2_7.dll"; "xaudio2_8.dll"; "xaudio2_9.dll"; "xaudio2_10.dll";
   "dinput8.dll"; "comdlg32.dll"; "comctl32.dll"; "msvcrt.dll"; "ucrtbase.dll"; "tbs.dll"; "imm32.dll"; "bcrypt.dll";
   "crypt32.dll"; "ncrypt.dll"; "iphlpapi.dll"; "gdiplus.dll"]%string.

Section Modules.
Context `{HW : Host W} `{HE : !Env W}.
Local Abbreviation P := (M (Process W) LoadError).

(** ** The module list *)

Definition lookup_by_path (canonical : string) : P (option Z) := fun p =>
  (Ok (h_module <$> find (fun m => String.eqb (module_path m) canonical) (modules p)), p).

Definition find_by_handle (h : Z) : P (option LoadedModule) := fun p =>
  (Ok (find (fun m => h_module m =? h) (modules p)), p).

Definition module_name_of (path : string) : string :=
  match file_name path with Some n => str_lowercase n | None => EmptyString end.

Definition push_module (m : LoadedModule) : P unit := fun p => (Ok tt, set_modules p (modules p ++ [m])).

(** Dropping a module: the image, then the stack and the arena. *)
Definition module_drop (m : LoadedModule) : P unit :=
  on_mem (bootstrap (E := LoadError) EmptyString)
    (munmap (PeImage.base (image m)) (size (image m)) ;;; stack_drop (mod_stack m)) ;;;
  on_mem (bootstrap EmptyString) (arena_drop (mod_arena m)).

(** [position], [remove] and the drop of the only reference. *)
Fixpoint take_module (h : Z) (ms : list LoadedModule) : option (LoadedModule * list LoadedModule) :=
  match ms with
  | [] => None
  | m :: ms => if h_module m =? h then Some (m, ms)
               else match take_module h ms with Some (m', ms') => Some (m', m :: ms') | None => None end
  end.

Definition free_library (h : Z) : P bool :=
  let! p := get_process in
  match take_module h (modules p) with
  | None => mret false
  | Some (m, ms) => (fun p => (Ok tt, set_modules p ms)) ;;; module_drop m ;;; mret true
  end.

(** ** [GetProcAddress] *)

(** The name, at most 256 bytes of it, for the layer's own libraries. *)
Definition name_256 (n : NameArg) : P (list Z) :=
  match n with
  | HostName bytes => mret (take 256 bytes)
  | GuestName p => on_mem (fun e : LoadError => e)
      (loop (fun '(i, acc) =>
        let! b := uget 1 p i in
        if negb (b =? 0) && (i <? 256) then mret (inl (i + 1, acc ++ [b])) else mret (inr acc)) (0, []))
  end.

Definition read_guest_cstring (n : NameArg) : P (option (list Z)) :=
  match n with
  | HostName bytes => mret (Some (take MAX_NAME_LEN bytes))
  | GuestName p =>
      if p =? 0 then mret None
      else on_mem (fun e : LoadError => e)
        (loop (fun '(i, acc) =>
          if i <? Z.of_nat MAX_NAME_LEN then
            let! b := uget 1 p i in
            if b =? 0 then mret (inr (Some acc)) else mret (inl (i + 1, acc ++ [b]))
          else mret (inr (Some acc))) (0, []))
  end.

(** [MAKEINTRESOURCE] *)
Definition ordinal_of (n : NameArg) : option Z :=
  match n with GuestName p => if p <? 0x10000 then Some (wrap 32 p) else None | HostName _ => None end.

Definition fake_dll (offset : Z) : string :=
  if offset =? 0x2000 then "ntdll.dll"
  else if offset =? 0x4000 then "user32.dll"
  else if offset =? 0x5000 then "gdi32.dll"
  else if offset =? 0x6000 then "advapi32.dll"
  else "kernel32.dll".

Definition get_proc_address (h : Z) (name : NameArg) : P Z :=
  if h =? 0 then mret 0
  else if (EXE_BASE <=? h) && (h <? EXE_BASE + 0x10000) then
    let dll_name := fake_dll (h - EXE_BASE) in
    match ordinal_of name with
    | Some _ => mret 0
    | None =>
        let! bytes := name_256 name in
        let sym := from_utf8_lossy bytes in
        let! arena := expect (on_mem (bootstrap "thunk arena") (with_capacity (32 * 1024))) in
        let! (table, arena) := build_table arena in
        let! (_, arena) := expect (on_arena (bootstrap "seal thunk arena") finalize arena) in
        match ImplTable_lookup table dll_name sym with
        | Some ptr => mret ptr
        | None => drop_arena arena ;;; mret 0
        end
    end
  else
    let! m := find_by_handle h in
    match m with
    | None => mret 0
    | Some m =>
        match ordinal_of name with
        | Some ordinal =>
            match function_rva_by_ordinal (exports m) ordinal with
            | None => mret 0
            | Some rva => mret (export_addr (image m) (exports m) rva)
            end
        | None =>
            let! sym := read_guest_cstring name in
            match sym with
            | None => mret 0
            | Some sym =>
                match names (exports m) !! sym with
                | None => mret 0
                | Some rva => mret (export_addr (image m) (exports m) rva)
                end
            end
        end
    end.

Definition set_last_error (code : Z) : P unit := fun p => (Ok tt, set_error p code).

(** [kernel32!GetProcAddress] *)
Definition k32_get_proc_address (h : Z) (name : NameArg) : P Z :=
  if h =? 0 then set_last_error ERROR_PROC_NOT_FOUND ;;; mret 0
  else
    let! p := get_process in
    if bridge p then
      let! result := get_proc_address h name in
      (if result =? 0 then set_last_error ERROR_PROC_NOT_FOUND else mret tt) ;;;
      mret result
    else set_last_error ERROR_PROC_NOT_FOUND ;;; mret 0.

(** [kernel32!FreeLibrary] *)
Definition k32_free_library (h : Z) : P Z :=
  let! p := get_process in
  if bridge p then let! b := free_library h in mret (if b then 1 else 0) else mret 0.

Definition disable_thread_library_calls (h : Z) : P Z := mret 1.

(** ** Search *)

(** [base[len - 4..].eq_ignore_ascii_case(".dll")]: the slice panics inside a
    character. *)
Definition has_dll_ext (s : string) : P bool :=
  let n := String.length s in
  if (n <? 4)%nat then mret false
  else if continuation (nth (n - 4) (bytes_of s) 0) then mpanic
  else mret (eq_ignore_ascii_case (substring (n - 4) 4 s) ".dll").

Definition push_candidates (out : list string) (base : string) : P (list string) :=
  let! has_ext := has_dll_ext base in
  mret (out ++ [base] ++ (if has_ext then [] else [(base ++ ".dll")%string])).

Definition search_dirs : P (list string) :=
  let! p := get_process in
  mret ((match exe_dir p with Some d => [d] | None => [] end) ++
    (match env_var "NIGG_DLL_PATH" with
     | Some l => List.filter (fun s => negb (String.eqb s EmptyString))
         (split_on (fun c => Ascii.eqb c ":"%char || Ascii.eqb c ";"%char) (list_ascii_of_string l) [])
     | None => [] end) ++ ["."%string]).

Definition candidate_paths (name : string) : P (list string) :=
  let normalized := slashes name in
  if contains_char "/"%char normalized then push_candidates [] normalized
  else
    let! dirs := search_dirs in
    (fix go (dirs out : list string) : P (list string) :=
      match dirs with
      | [] => mret out
      | d :: dirs => let! out := push_candidates out (join d normalized) in go dirs out
      end) dirs [].

(** ** Loading *)

Section Load.
(** [load_dll_ex], to the depth the fuel allows. *)
Variable load_dll_ex : string -> bool -> P Z.

Fixpoint try_candidates (sym : string) (paths : list string) : P (option Z) :=
  match paths with
  | [] => mret None
  | path :: paths =>
      if negb (path_exists path) then try_candidates sym paths
      else
        let! r := attempt (load_dll_ex path false) in
        match r with
        | inl h =>
            if contains_char "000"%char sym then mret None
            else
              let! ptr := k32_get_proc_address h (HostName (bytes_of sym)) in
              if ptr =? 0 then try_candidates sym paths else mret (Some ptr)
        | inr _ => try_candidates sym paths
        end
  end.

(** The candidates are those of [LoadLibrary]. *)
Definition try_resolve_from_disk (dll_name sym : string) : P (option Z) :=
  if bool_decide (str_lowercase dll_name ∈ our_dlls) then mret None
  else
    let! candidates := candidate_paths dll_name in
    try_candidates sym candidates.

Definition mapping_drop (img : MappedImage) : P unit := on_mem MapFailure (unmap img).

Definition parse_exports (img : MappedImage) : P ExportTable := on_mem (fun e : LoadError => e) (parse_export_table img).

(** [DllMain(hModule, DLL_PROCESS_ATTACH, NULL)], where asked and there is one. *)
Definition attach (canonical : string) (mapped : MappedImage) (entry_rva : Z) (stack : Stack) (run_dll_main : bool) : P unit :=
  if negb run_dll_main || (entry_rva =? 0) then mret tt
  else
    match rva_to_ptr mapped entry_rva with
    | None => mfail (Bootstrap "DLL entrypoint is outside the mapped image")
    | Some entry =>
        let! result := run_dll_main_win64 entry (top stack) (PeImage.base mapped) 1 0 in
        if result =? 0 then mapping_drop mapped ;;; mfail (Bootstrap "DllMain(DLL_PROCESS_ATTACH) returned FALSE")
        else mret tt
    end.

Definition load_file (path canonical : string) (run_dll_main : bool) : P Z :=
  match read_file path with
  | None => mfail Read
  | Some bytes =>
      match parse bytes with
      | None => mfail Parse
      | Some pe =>
          if Z.land (coff_characteristics pe) IMAGE_FILE_DLL =? 0 then mfail (Bootstrap "not a DLL")
          else if negb (bool_decide (is_Some (optional_header (file pe)))) then mfail (Bootstrap "PE has no optional header")
          else
            let! mapped := on_mem MapFailure (map_image_anywhere bytes (file pe)) in
            (match reloc_dir pe with
             | Some dir => on_mem MapFailure (apply_relocations (fun b => file <$> parse b) mapped bytes (file pe) dir)
             | None => mret tt
             end) ;;;
            let! (_, arena) := bind_imports mapped (imports pe) try_resolve_from_disk in
            let! exports := parse_exports mapped in
            let! stack := or_drop (drop_arena arena) (on_mem (bootstrap "DllMain stack allocation failed") new_default) in
            or_drop (drop_stack stack ;;; drop_arena arena)
              (attach canonical mapped (wrap 32 (entry_point pe)) stack run_dll_main) ;;;
            push_module (mkModule (PeImage.base mapped) canonical (module_name_of canonical) exports mapped stack arena) ;;;
            mret (PeImage.base mapped)
      end
  end.

Definition load_dll_body (path : string) (run_dll_main : bool) : P Z :=
  match canonicalize path with
  | None => mfail Read
  | Some canonical =>
      let! h := lookup_by_path canonical in
      match h with
      | Some h => mret h
      | None => load_file path canonical run_dll_main
      end
  end.
End Load.

Fixpoint load_dll_ex (fuel : nat) (path : string) (run_dll_main : bool) : P Z :=
  match fuel with
  | O => mnofuel
  | S fuel => load_dll_body (load_dll_ex fuel) path run_dll_main
  end.

Definition load_dll (fuel : nat) (path : string) : P Z := load_dll_ex fuel path true.

(** ** [LoadLibrary] *)

Definition load_dll_str_proxy (fuel : nat) (path : string) (run_dll_main : bool) : P Z :=
  let! r := attempt (load_dll_ex fuel path run_dll_main) in
  mret (match r with inl h => h | inr _ => 0 end).

Fixpoint load_first (fuel : nat) (paths : list string) (run_dll_main : bool) : P Z :=
  match paths with
  | [] => set_last_error ERROR_MOD_NOT_FOUND ;;; mret 0
  | path :: paths =>
      let! h := load_dll_str_proxy fuel path run_dll_main in
      if h =? 0 then load_first fuel paths run_dll_main else mret h
  end.

Definition load_with_search (fuel : nat) (name : string) (run_dll_main : bool) : P Z :=
  if String.eqb name EmptyString then set_last_error ERROR_INVALID_NAME ;;; mret 0
  else
    let! p := get_process in
    let name_lower := str_lowercase name in
    if String.prefix "api-ms-win-" name_lower then mret (wrap 64 (exe_base p + 0x1000))
    else if bool_decide (name_lower ∈ ["kernel32.dll"; "kernel32"; "kernelbase.dll"; "kernelbase"]%string) then
      mret (wrap 64 (exe_base p + 0x1000))
    else if bool_decide (name_lower ∈ ["ntdll.dll"; "ntdll"]%string) then mret (wrap 64 (exe_base p + 0x2000))
    else if negb (bridge p) then set_last_error ERROR_MOD_NOT_FOUND ;;; mret 0
    else
      let! paths := candidate_paths name in
      load_first fuel paths run_dll_main.

(** [GetModuleHandle], for a name already read. *)
Definition known_handle (base : Z) (lower : string) : Z :=
  if bool_decide (lower ∈ ["kernel32.dll"; "kernel32"]%string) then wrap 64 (base + 0x1000)
  else if bool_decide (lower ∈ ["ntdll.dll"; "ntdll"]%string) then wrap 64 (base + 0x2000)
  else if bool_decide (lower ∈ ["kernelbase.dll"; "kernelbase"]%string) then wrap 64 (base + 0x3000)
  else if String.prefix "api-ms-win-" lower then wrap 64 (base + 0x1000)
  else if bool_decide (lower ∈ ["user32.dll"; "user32"]%string) then wrap 64 (base + 0x4000)
  else if bool_decide (lower ∈ ["gdi32.dll"; "gdi32"]%string) then wrap 64 (base + 0x5000)
  else if bool_decide (lower ∈ ["advapi32.dll"; "advapi32"]%string) then wrap 64 (base + 0x6000)
  else 0.

Definition resolve_module_handle (name : string) : P Z :=
  let! p := get_process in
  mret (if String.eqb name EmptyString then exe_base p else known_handle (exe_base p) (str_lowercase name)).

(** The guest's name for a library, and the four [LoadLibrary] calls. *)
Definition guest_cstring (name : Z) (stride : nat) : P (option (list Z)) :=
  if name =? 0 then mret None
  else on_mem (fun e : LoadError => e)
    (loop (fun '(i, acc) =>
      if i <? MAX_GUEST_STR / Z.of_nat stride then
        let! u := uget stride name i in
        if u =? 0 then mret (inr (Some acc)) else mret (inl (i + 1, acc ++ [u]))
      else mret (inr (Some acc))) (0, [])).

Definition string_of_rstring (s : rstring) : string :=
  string_of_list_ascii (map (fun b => ascii_of_nat (Z.to_nat b)) (utf8_bytes s)).

Definition read_guest_str_a (name : Z) : P (option string) :=
  let! o := guest_cstring name 1 in mret (from_utf8_lossy <$> o).
Definition read_guest_str_w (name : Z) : P (option string) :=
  let! o := guest_cstring name 2 in mret ((fun us => string_of_rstring (from_utf16_lossy us)) <$> o).

Definition load_named (fuel : nat) (read : P (option string)) (run_dll_main : bool) : P Z :=
  let! name := read in
  match name with
  | None => set_last_error ERROR_INVALID_NAME ;;; mret 0
  | Some name => load_with_search fuel name run_dll_main
  end.

Definition LOAD_LIBRARY_AS_DATAFILE : Z := 1.

Definition load_library_a (fuel : nat) (name : Z) : P Z := load_named fuel (read_guest_str_a name) true.
Definition load_library_w (fuel : nat) (name : Z) : P Z := load_named fuel (read_guest_str_w name) true.
Definition load_library_ex_a (fuel : nat) (name h_file flags : Z) : P Z :=
  load_named fuel (read_guest_str_a name) (Z.land flags LOAD_LIBRARY_AS_DATAFILE =? 0).
Definition load_library_ex_w (fuel : nat) (name h_file flags : Z) : P Z :=
  load_named fuel (read_guest_str_w name) (Z.land flags LOAD_LIBRARY_AS_DATAFILE =? 0).
End Modules.

(** ** A library comes and goes *)

Section LifeCycle.
Context `{HW : Host W} `{HL : !HostLaws W} `{HE : !Env W} `{HEL : !EnvLaws W}.

(** What the module owns is apart from all that [w] has mapped. *)
Record own_module (w : W) (m : LoadedModule) : Prop := {
  om_handle : h_module m = PeImage.base (image m) /\ 0 < h_module m;
  om_image : own_region w (PeImage.base (image m)) (size (image m));
  om_stack : own_region w (stk_base (mod_stack m)) (total_len (mod_stack m));
  om_arena : Forall page_aligned (blocks (mod_arena m)) /\ forall x, covered (blocks (mod_arena m)) x -> prot_at w x = None
}.

Lemma munmap_own (w w1 : W) b n : own_region w b n -> intact w w1 ->
  intact w (sys_munmap b n w1) /\ forall x, prot_at (sys_munmap b n w1) x = if in_range b n x then None else prot_at w1 x.
Proof.
  intros (Hn & Hb & Hp & Hf) Hi. split; [|intros x; by apply munmap_prot].
  intros x Hx. destruct (in_range b n x) eqn:R; [apply in_range_spec in R; by destruct (Hx (Hf x R))|].
  rewrite munmap_prot, R, munmap_byte by done. by apply Hi.
Qed.

Lemma module_drop_ok w p m : own_module w m -> intact w (memory p) -> exists w', module_drop m p = (Ok tt, set_memory p w') /\
  intact w w' /\ forall x, in_range (PeImage.base (image m)) (size (image m)) x = true -> prot_at w' x = None.
Proof.
  intros [_ Hi Hs [Hal Hc]] Hw. destruct (munmap_own _ _ _ _ Hi Hw) as [Hw1 Hp1].
  destruct (munmap_own _ _ _ _ Hs Hw1) as [Hw2 Hp2]. set (w2 := sys_munmap _ _ (sys_munmap _ _ _)) in *.
  destruct (unmap_blocks_ok _ Hal w2) as (w3 & Hu & Hin & Hout). exists w3. unfold module_drop, stack_drop.
  assert (Hm : on_mem (bootstrap (E := LoadError) EmptyString)
    (munmap (PeImage.base (image m)) (size (image m)) ;;; munmap (stk_base (mod_stack m)) (total_len (mod_stack m))) p =
    (Ok tt, set_memory p w2)) by (by apply on_mem_ok).
  rewrite (mbind_ok _ _ _ _ _ Hm). split_and!.
  - by apply (on_mem_ok (bootstrap (E := ThunkError) EmptyString) _ (set_memory p w2)).
  - intros x Hx. destruct (Hout x) as [-> ->]; [|by apply Hw2]. intros H. by rewrite (Hc x H) in Hx.
  - intros x Hx. destruct (decide (covered_b (blocks (mod_arena m)) x = true)) as [H|H].
    + apply Hin. by apply covered_b_spec.
    + rewrite covered_b_spec in H. rewrite (proj1 (Hout x H)), Hp2, Hp1, Hx. by case_match.
Qed.

(** A library in place: its image relocated and bound, its exports as the image has
    them, its stack; all in memory of its own. *)
Record placed_library (w0 w : W) (bytes : list Z) (pe : Parsed) (o : OptionalHeader) (canonical : string) (m : LoadedModule) : Prop := {
  pl_own : own_module w0 m;
  pl_names : module_path m = canonical /\ module_name m = module_name_of canonical;
  pl_image : exists es pr out, relocs_ok bytes pe (image m) es /\ all_wx_free pr /\
    image_at w (image m) (write_slots (slots_of (imports pe) out)
      (relocate (delta (image m)) es (image_byte bytes (file pe) o))) pr /\
    forall imp, imp ∈ imports pe -> exists p, resolved out !! import_key str_lowercase imp = Some p /\
      bound_at w (image m) (import_key str_lowercase imp) p;
  pl_exports : exists w1, intact w1 w /\ parse_export_table (E := LoadError) (image m) w1 = (Ok (exports m), w1);
  pl_stack : stack_at w (mod_stack m);
  pl_intact : intact w0 w
}.

Lemma unmapped_earlier (w w1 : W) x : intact w w1 -> prot_at w1 x = None -> prot_at w x = None.
Proof. intros Hi Hx. destruct (prot_at w x) eqn:E; [|done]. destruct (Hi x) as [H _]; congruence. Qed.

Lemma own_earlier (w w1 : W) b n : intact w w1 -> own_region w1 b n -> own_region w b n.
Proof. intros Hi (H1 & H2 & H3 & H4). split_and!; [done..|]. intros x Hx. eapply unmapped_earlier; [exact Hi|]. by apply H4. Qed.

Lemma parse_exports_ok p img : exists r, parse_exports img p = (r, p) /\ (r = Panic \/ exists t, r = Ok t) /\
  parse_export_table (E := LoadError) img (memory p) = (r, memory p).
Proof.
  unfold parse_exports, on_mem. assert (Hp : set_memory p (memory p) = p) by (by destruct p).
  destruct (quiet_parse (E := LoadError) img (memory p)) as [H|(t & H & _)]; rewrite H, Hp; [exists Panic|exists (Ok t)]; eauto.
Qed.

Lemma attach_skips canonical mapped entry stack run p : run = false \/ entry = 0 -> attach canonical mapped entry stack run p = (Ok tt, p).
Proof. intros [-> | ->]; unfold attach; [done|]. rewrite Z.eqb_refl, orb_true_r. done. Qed.

(** The steps of [load_file] before the imports are bound, and the panic of the parser
    on the exports of the bound image. *)
Definition place_library (bytes : list Z) (pe : Parsed) : M (Process W) LoadError MappedImage :=
  let! img := on_mem MapFailure (map_image_anywhere bytes (file pe)) in
  (match reloc_dir pe with
   | Some dir => on_mem MapFailure (apply_relocations parse_file img bytes (file pe) dir)
   | None => mret tt
   end) ;;;
  mret img.

Definition exports_panic (start : M (Process W) LoadError MappedImage) (imps : list Import)
    (disk : string -> string -> M (Process W) LoadError (option Z)) (p p' : Process W) : Prop :=
  exists img p1 bound, start p = (Ok img, p1) /\ bind_imports img imps disk p1 = (Ok bound, p') /\
    fst (parse_export_table (E := LoadError) img (memory p')) = Panic.

Lemma load_file_ok load (p : Process W) path canonical run bytes pe o : grants (W := W) -> bindable bytes pe o ->
  read_file path = Some bytes -> Z.land (coff_characteristics pe) IMAGE_FILE_DLL <> 0 -> run = false \/ wrap 32 (entry_point pe) = 0 ->
  exists r p', load_file load path canonical run p = (r, p') /\
  match r with
  | Ok h => exists g w' m, p' = set_modules (set_memory (set_globals_of p g) w') (modules p ++ [m]) /\ h = h_module m /\
      placed_library (memory p) w' bytes pe o canonical m
  | Err e => (exists e', e = MapFailure e' /\ fst (map_image_anywhere bytes (file pe) (memory p)) = Err e') \/
      lacking (place_library bytes pe) (imports pe) (try_resolve_from_disk load) p r p'
  | Panic => lacking (place_library bytes pe) (imports pe) (try_resolve_from_disk load) p r p' \/
      exports_panic (place_library bytes pe) (imports pe) (try_resolve_from_disk load) p p'
  | NoFuel => False
  end.
Proof.
  intros Hg [Hparse Hhdr [Hpe Hbytes] Hrel Hslots Hown] Hread Hdll Hrun. unfold load_file. rewrite Hread, Hparse.
  rewrite (proj2 (Z.eqb_neq _ 0)) by done. rewrite Hhdr, bool_decide_eq_true_2 by (by eexists). cbn [negb].
  pose proof (map_image_spec bytes (file pe) false (memory p) Hpe Hbytes) as Hpost. fold (map_image_anywhere bytes (file pe)) in Hpost.
  destruct (map_image_anywhere bytes (file pe) (memory p)) as [[img|e| |] w1] eqn:Em.
  2:{ eexists (Err (MapFailure e)), _. split; [|left; by exists e]. unfold mbind at 1. by rewrite (on_mem_err _ _ _ _ _ Em). }
  2:{ cbn in Hpost. congruence. }
  2:{ done. }
  rewrite (mbind_ok _ _ _ _ _ (on_mem_ok MapFailure _ p _ _ Em)).
  destruct (mapped_image _ _ _ _ _ _ Hpe Hhdr Hpost) as (Hok & Himg & Hfresh & Hk1 & Him & Hpr).
  assert (Hb0 : 0 < PeImage.base img) by apply Hok.
  destruct (Hrel (PeImage.base img) Hb0) as [es Hes]. rewrite <- Himg in Hes.
  destruct (relocate_step (set_memory p w1) img bytes pe es _ _ Hok Hg Hes Him Hpr) as (w2 & pr2 & Hr2 & Him2 & Hpr2 & Hk2).
  change (memory (set_memory p w1)) with w1 in Hk2. rewrite (mbind_ok _ _ _ _ _ Hr2).
  assert (Hplace : place_library bytes pe p = (Ok img, set_memory p w2)).
  { unfold place_library. rewrite (mbind_ok _ _ _ _ _ (on_mem_ok MapFailure _ p _ _ Em)). by rewrite (mbind_ok _ _ _ _ _ Hr2). }
  specialize (Hslots (PeImage.base img)). rewrite <- Himg in Hslots. change (set_memory (set_memory p w1) w2) with (set_memory p w2).
  destruct (bind_imports_ok (set_memory p w2) img (imports pe) (try_resolve_from_disk load) _ pr2 Hok Hg Him2 Hpr2 Hslots Hown)
    as (r & p3 & Hbind & Hr3). unfold mbind at 1. rewrite Hbind.
  destruct r as [[out ar]|e| |].
  2:{ eexists _, _. split; [reflexivity|]. right. by eapply LackArena. }
  2:{ eexists _, _. split; [reflexivity|]. left. by eapply LackGrowth. }
  2:{ destruct Hr3. }
  destruct Hr3 as (g & w3 & -> & Hbound & Hal & Hcov). cbv beta iota. set (p3 := set_memory _ w3) in *.
  destruct (parse_exports_ok p3 img) as (r & Hparsed & Hr & Htab).
  destruct Hr as [-> |[t ->]].
  { eexists Panic, p3. split; [unfold mbind at 1; by rewrite Hparsed|]. right. exists img, (set_memory p w2), (out, ar).
    split; [done|]. split; [done|]. by rewrite Htab. }
  rewrite (mbind_ok _ _ _ _ _ Hparsed).
  destruct (stack_new_ok (memory p3) Hg) as (r & w4 & Hst & Hk4 & Hr4).
  destruct r as [st|e| |]; [destruct Hr4 as [Hstack Hown4]| |done|done].
  2:{ destruct (drop_arena_ok ar (set_memory p3 w4)) as [w5 Hd]. eexists (Err (Bootstrap _)), _. split; [|right; by apply (LackStack _ _ _ _ img (set_memory p w2) out ar p3 _ (set_memory p3 w4))].
      unfold mbind at 1, or_drop at 1. rewrite (on_mem_err _ _ _ _ _ Hst). unfold mbind at 1. rewrite Hd. reflexivity. }
  assert (Hor : or_drop (drop_arena ar) (on_mem (bootstrap "DllMain stack allocation failed") new_default) p3 = (Ok st, set_memory p3 w4))
    by (unfold or_drop; by rewrite (on_mem_ok _ _ _ _ _ Hst)).
  rewrite (mbind_ok _ _ _ _ _ Hor).
  assert (Hat : or_drop (drop_stack st ;;; drop_arena ar) (attach canonical img (wrap 32 (entry_point pe)) st run) (set_memory p3 w4) =
    (Ok tt, set_memory p3 w4)) by (unfold or_drop; by rewrite attach_skips).
  rewrite (mbind_ok _ _ _ _ _ Hat). unfold mbind at 1. cbn [push_module]. eexists _, _. split; [reflexivity|].
  exists g, w4. eexists. split; [reflexivity|]. split; [reflexivity|].
  change (memory (set_memory p w2)) with w2 in Hbound, Hcov. change (memory p3) with w3 in Hk4, Hown4, Htab.
  assert (Hk2' : intact (memory p) w2) by (apply (intact_fresh (PeImage.base img) (size img)); [apply Hfresh|];
    eapply intact_but_trans; [by apply intact_weaken|exact Hk2]).
  assert (Hk3 : intact (memory p) w3) by (apply (intact_fresh (PeImage.base img) (size img)); [apply Hfresh|];
    eapply intact_but_trans; [by apply intact_weaken|exact (bi_intact _ _ _ _ _ _ Hbound)]).
  split; cbn [image mod_stack mod_arena h_module module_path module_name exports].
  - split; cbn [image mod_stack mod_arena h_module]; [done| | |split; [done|]].
    + destruct Hfresh as (_ & _ & H3 & H4). destruct Hok as (_ & _ & _ & H5 & H6). split_and!; [apply H5|done..].
    + by apply (own_earlier _ w3).
    + intros x Hx. by apply (unmapped_earlier _ w2), Hcov.
  - done.
  - apply (bound_image_intact _ _ _ _ _ _ _ Hk4) in Hbound. destruct (bi_image _ _ _ _ _ _ Hbound) as (pr & H1 & H2).
    exists es, pr, out. split_and!; [done..|]. apply (bi_keys _ _ _ _ _ _ Hbound).
  - by exists w3.
  - done.
  - by eapply intact_trans.
Qed.
Lemma find_snoc {A} (f : A -> bool) l x : find f l = None -> f x = true -> find f (l ++ [x]) = Some x.
Proof.
  intros Hl Hx. induction l as [|y l IH]; cbn [find app] in *; [by rewrite Hx|]. destruct (f y); [done|by apply IH].
Qed.

Lemma take_snoc h ms m : h_module m = h -> find (fun m => h_module m =? h) ms = None -> take_module h (ms ++ [m]) = Some (m, ms).
Proof.
  intros Hm Hf. induction ms as [|m' ms IH]; cbn [find take_module app] in *; [by rewrite Hm, Z.eqb_refl|].
  destruct (h_module m' =? h); [done|]. by rewrite IH.
Qed.

(** The handles of the list are addresses of mapped memory. *)
Definition handles_mapped (p : Process W) : Prop := Forall (fun m => prot_at (memory p) (h_module m) <> None) (modules p).

Lemma new_handle p w bytes pe o c m : handles_mapped p -> placed_library (memory p) w bytes pe o c m ->
  find (fun m' => h_module m' =? h_module m) (modules p) = None.
Proof.
  intros Hms Hm. destruct (pl_own _ _ _ _ _ _ _ Hm) as [[Hh _] (Hn & _ & _ & Hfree) _ _].
  unfold handles_mapped in Hms. induction Hms as [|m' ms Hm' _ IH]; [done|]. cbn [find].
  rewrite (proj2 (Z.eqb_neq _ _)); [done|]. intros E. apply Hm'. rewrite E, Hh. apply Hfree. lia.
Qed.

End LifeCycle.

(** ** Looking up exports *)

Section Lookup.
Context `{HW : Host W} `{HL : !HostLaws W} `{HE : !Env W}.

(** The module's table is the one its image was laid out with. *)
Record exports_of (w : W) (m : LoadedModule) (dir : ExportDirSpan) (b : Z) (funcs : list Z) (named : list (list Z * nat)) : Prop := {
  eo_readable : readable_image (image m) w;
  eo_dir : headers_name (E := LoadError) (image m) w (Some dir);
  eo_layout : exists af an ao, export_layout (image m) w dir b funcs named af an ao;
  eo_parsed : parse_export_table (E := LoadError) (image m) w = (Ok (exports m), w)
}.

(** The specification: the index of a name, the address of a function. A forwarder
    is an address inside the directory. *)
Definition named_rva (funcs : list Z) (named : list (list Z * nat)) (name : list Z) : option Z :=
  '(_, k) ← find (fun e => bool_decide (fst e = name)) named; funcs !! k.

Definition numbered_rva (b : Z) (funcs : list Z) (ordinal : Z) : option Z :=
  if ordinal <? b then None else funcs !! Z.to_nat (ordinal - b).

Definition proc_address (m : LoadedModule) (dir : ExportDirSpan) (rva : option Z) : Z :=
  match rva with
  | None => 0
  | Some r =>
      if (r =? 0) || in_range (span_rva dir) (Z.min (span_size dir) (u32_max - span_rva dir)) r || (size (image m) <=? r) then 0
      else PeImage.base (image m) + r
  end.

(** A name in guest memory, or one of the loader's own. *)
Inductive names_arg (p : Process W) (name : list Z) : NameArg -> Prop :=
  | Names_host : names_arg p name (HostName name)
  | Names_guest q : 0x10000 <= q -> cstr 1 (memory p) q name -> names_arg p name (GuestName q).

Lemma find_named (named : list (list Z * nat)) name k : NoDup (map fst named) ->
  find (fun e => bool_decide (fst e = name)) named = Some (name, k) <-> (name, k) ∈ named.
Proof.
  intros Hnd. split; [intros H; apply find_some in H; apply list_elem_of_In; tauto|].
  induction named as [|[n j] named IH]; intros Hin; [by apply elem_of_nil in Hin|]. cbn [map fst] in Hnd.
  apply NoDup_cons in Hnd as [Hn Hnd]. apply elem_of_cons in Hin as [[= <- <-]|Hin]; cbn [find fst].
  - by rewrite bool_decide_eq_true_2.
  - rewrite bool_decide_eq_false_2; [by apply IH|]. intros ->. apply Hn. apply list_elem_of_In, in_map_iff.
    exists (name, k). split; [done|by apply list_elem_of_In].
Qed.

Lemma names_named (named : list (list Z * nat)) funcs (t : ExportTable) : NoDup (map fst named) ->
  (forall name r, names t !! name = Some r <-> exists k, (name, k) ∈ named /\ funcs !! k = Some r) ->
  forall name, names t !! name = named_rva funcs named name.
Proof.
  intros Hnd Ht name. apply option_eq. intros r. rewrite Ht. unfold named_rva. split.
  - intros (k & Hin & Hk). rewrite (proj2 (find_named named name k Hnd) Hin). exact Hk.
  - intros H. destruct (find _ named) as [[n k]|] eqn:Hf; [|done]. cbn in H. pose proof (find_some _ _ Hf) as [_ Hn].
    apply bool_decide_eq_true in Hn. cbn in Hn. subst n. exists k. split; [by apply (find_named named name k Hnd)|done].
Qed.

Lemma export_addr_spec m t dir r : export_dir t = dir -> 0 <= span_rva dir <= u32_max -> 0 <= r ->
  export_addr (image m) t r = proc_address m dir (Some r).
Proof.
  intros <- Hd Hr. unfold export_addr, proc_address, rva_to_ptr, u32_saturating_add, in_range. set (d := export_dir t) in *.
  replace (span_rva d + Z.min (span_size d) (u32_max - span_rva d)) with (Z.min u32_max (span_rva d + span_size d)) by lia.
  destruct ((r =? 0) || _); [done|]. cbn [orb]. destruct (Z.ltb_spec r (size (image m))), (Z.leb_spec (size (image m)) r); by (done || lia).
Qed.

Lemma read_name_arg p name arg : names_arg p name arg -> (length name <= MAX_NAME_LEN)%nat ->
  ordinal_of arg = None /\ read_guest_cstring arg p = (Ok (Some name), p).
Proof.
  intros [|q Hq Hs] Hlen; cbn [ordinal_of read_guest_cstring]; [split; [done|]; by rewrite take_ge|].
  rewrite (proj2 (Z.ltb_ge _ _)) by lia. split; [done|]. rewrite (proj2 (Z.eqb_neq _ _)) by lia.
  assert (Hp : set_memory p (memory p) = p) by (by destruct p). rewrite <- Hp at 2. apply on_mem_ok.
  apply (loop_run (length name) (fun i => (Z.of_nat i, take i name)) (fun _ => memory p)); [done|done|unfold MAX_NAME_LEN in Hlen; lia| |].
  - intros i Hi. cbn beta iota. rewrite (proj2 (Z.ltb_lt _ _)) by lia.
    destruct (cstr_lookup _ _ _ _ _ Hs Hi) as (u & Hl & Hu & Hnz). rewrite (mbind_ok _ _ _ _ _ (cstr_get _ _ _ _ _ _ Hs Hl)).
    rewrite (proj2 (Z.eqb_neq u 0) Hnz). rewrite (take_S_r _ _ _ Hu). by replace (Z.of_nat (S i)) with (Z.of_nat i + 1) by lia.
  - cbn beta iota. rewrite take_ge by lia. destruct (Z.ltb_spec (Z.of_nat (length name)) (Z.of_nat MAX_NAME_LEN)); [|done].
    by rewrite (mbind_ok _ _ _ _ _ (cstr_get _ _ _ _ _ _ Hs (nul_lookup name))).
Qed.

Lemma layout_rva img w dir b funcs named af an ao k r : export_layout img w dir b funcs named af an ao -> funcs !! k = Some r -> 0 <= r.
Proof.
  intros Hl Hk. pose proof (el_funcs _ _ _ _ _ _ _ _ _ Hl k r Hk) as H. unfold rd in H. destruct (_ <=? _); [|done].
  apply (inj Some) in H. rewrite <- H. apply le_val_range, get_bytes_range.
Qed.

Lemma exports_table w m dir b funcs named : exports_of w m dir b funcs named ->
  function_rvas (exports m) = funcs /\ ordinal_base (exports m) = b /\ 0 <= span_rva dir <= u32_max /\
  (forall k r, funcs !! k = Some r -> export_addr (image m) (exports m) r = proc_address m dir (Some r)) /\
  forall name, names (exports m) !! name = named_rva funcs named name.
Proof.
  intros [Hr Hd (af & an & ao & Hl) Hp]. destruct (parse_layout _ _ Hr _ _ _ _ _ _ _ Hd Hl) as (t & Ht & H1 & H2 & H3 & H4).
  rewrite Ht in Hp. injection Hp as <-. pose proof (el_dir _ _ _ _ _ _ _ _ _ Hl) as Hdir.
  split_and!; [done|done|lia|lia| |].
  - intros k r Hk. apply export_addr_spec; [done|lia|]. by eapply layout_rva.
  - apply names_named; [apply (el_distinct _ _ _ _ _ _ _ _ _ Hl)|done].
Qed.

Lemma proc_address_rva m dir t (funcs : list Z) k : (forall k r, funcs !! k = Some r -> export_addr (image m) t r = proc_address m dir (Some r)) ->
  match funcs !! k with Some r => export_addr (image m) t r | None => 0 end = proc_address m dir (funcs !! k).
Proof. intros H. destruct (funcs !! k) eqn:E; [by eapply H|done]. Qed.

(** C16. [GetProcAddress] on a library whose image has an export directory: a name,
    in guest memory or not, or a number, gives the address of the function that the
    directory has for it, inside the image, and null for one it does not have, for
    a forwarder and for an address outside of the image. *)
Theorem get_proc_address_correct (p : Process W) w h m dir b funcs named :
  h <> 0 -> in_range EXE_BASE 0x10000 h = false -> find (fun m => h_module m =? h) (modules p) = Some m ->
  exports_of w m dir b funcs named ->
  (forall name arg, names_arg p name arg -> (length name <= MAX_NAME_LEN)%nat ->
    get_proc_address h arg p = (Ok (proc_address m dir (named_rva funcs named name)), p)) /\
  (forall ordinal, 0 <= ordinal < 0x10000 ->
    get_proc_address h (GuestName ordinal) p = (Ok (proc_address m dir (numbered_rva b funcs ordinal)), p)).
Proof.
  intros Hh Hfake Hfind He. destruct (exports_table _ _ _ _ _ _ He) as (H1 & H2 & Hdir & Hexp & Hnames).
  assert (Hstart : forall arg, get_proc_address h arg p =
    match ordinal_of arg with
    | Some ordinal => match function_rva_by_ordinal (exports m) ordinal with
        | None => mret 0 | Some rva => mret (export_addr (image m) (exports m) rva) end
    | None => let! sym := read_guest_cstring arg in
        match sym with None => mret 0 | Some sym => match names (exports m) !! sym with
          | None => mret 0 | Some rva => mret (export_addr (image m) (exports m) rva) end end
    end p).
  { intros arg. unfold get_proc_address. rewrite (proj2 (Z.eqb_neq h 0) Hh). unfold in_range in Hfake.
    rewrite Hfake. unfold find_by_handle, mbind at 1. by rewrite Hfind. }
  split.
  - intros name arg Harg Hlen. rewrite Hstart. destruct (read_name_arg p name arg Harg Hlen) as [-> Hread].
    rewrite (mbind_ok _ _ _ _ _ Hread), Hnames. unfold named_rva.
    destruct (find _ named) as [[n k]|]; [|done]. cbn. rewrite <- (proc_address_rva m dir (exports m) funcs k Hexp).
    by destruct (funcs !! k).
  - intros ordinal Ho. rewrite Hstart. cbn [ordinal_of]. rewrite (proj2 (Z.ltb_lt _ _)), wrap_small by lia.
    unfold function_rva_by_ordinal, numbered_rva. rewrite H1, H2. destruct (ordinal <? b); [done|].
    rewrite <- (proc_address_rva m dir (exports m) funcs _ Hexp). by destruct (funcs !! _).
Qed.

(** The handles that the layer gives for its own libraries follow the base of the
    main image; the lookup compares them with a constant. When the image is mapped
    elsewhere, [GetProcAddress] finds nothing in kernel32. *)
Theorem moved_image_finds_nothing (p : Process W) b lib arg :
  exe_base_reg p = Some b -> 0 < b /\ b + 0x6000 < EXE_BASE \/ EXE_BASE + 0x10000 <= b /\ b + 0x6000 < 2 ^ 63 ->
  str_lowercase lib ∈ ["kernel32.dll"; "kernel32"; "ntdll.dll"; "ntdll"; "user32.dll"; "advapi32.dll"]%string -> lib <> EmptyString ->
  Forall (fun m => ~ b < h_module m <= b + 0x6000) (modules p) ->
  exists h, resolve_module_handle lib p = (Ok h, p) /\ h <> 0 /\ get_proc_address h arg p = (Ok 0, p).
Proof.
  intros Hb Hr Hlib Hne Hms. unfold EXE_BASE in Hr.
  assert (Hin : exists k, 0x1000 <= k <= 0x6000 /\ known_handle b (str_lowercase lib) = b + k).
  { rewrite !elem_of_cons, elem_of_nil in Hlib.
    destruct Hlib as [-> |[-> |[-> |[-> |[-> |[-> |[]]]]]]]; [exists 0x1000|exists 0x1000|exists 0x2000|exists 0x2000|exists 0x4000|exists 0x6000];
      (split; [lia|apply wrap_small; lia]). }
  destruct Hin as (k & Hk & He). exists (b + k). split_and!; [|lia|].
  { unfold resolve_module_handle, get_process, mbind, exe_base, mret. by rewrite Hb, (proj2 (String.eqb_neq lib EmptyString) Hne), <- He. }
  unfold get_proc_address. rewrite (proj2 (Z.eqb_neq _ _)) by lia.
  replace ((EXE_BASE <=? b + k) && _) with false by (unfold EXE_BASE; lia).
  unfold find_by_handle, mbind at 1. replace (find _ (modules p)) with (@None LoadedModule); [done|]. symmetry.
  clear -Hms Hk. induction Hms as [|m ms Hm _ IH]; [done|]. cbn [find]. rewrite (proj2 (Z.eqb_neq _ _)) by lia. exact IH.
Qed.
End Lookup.

(** ** A small library with two imports *)

Definition demo_parsed : Parsed :=
  mkParsed demo_dll 0x2022 16 [mkImport "kernel32.dll" "ExitProcess" 24; mkImport "api-ms-win-crt-runtime-l1-1-0.dll" "exit" 32]
    (Some demo_dll_dir) None None.

#[export] Instance demo_env : Env SmallHost.World :=
  SmallEnv.env (fun path => if String.eqb path "lib.dll" then Some demo_dll_bytes else None) (fun _ => Some demo_parsed) (fun _ p => (Ok 0, p)).

#[export] Instance demo_laws : EnvLaws SmallHost.World := SmallEnv.env_laws _ _ _.

Definition demo_process : Process SmallHost.World :=
  mkProcess (mkGlobals K32Registry.Registry_new None None) None None None false false [] 0 0 SmallHost.empty.

Lemma demo_own : Forall (fun imp => own_key (provides (fn_addr (W := SmallHost.World))) (import_key str_lowercase imp) = true) (imports demo_parsed).
Proof. repeat constructor; by vm_compute. Qed.

Lemma demo_bindable : bindable demo_dll_bytes demo_parsed (mkOptionalHeader 48 8192 0).
Proof.
  split; [done|done| | | |exact demo_own].
  - split; [split; [repeat constructor|]; by cbv|apply demo_dll_bytes_ok].
  - intros b Hb. set (img := mkImage b _ _). exists (if delta img =? 0 then [] else [(10, 16)]). unfold relocs_ok.
    cbn [demo_parsed reloc_dir]. unfold reloc_work. destruct (delta img =? 0).
    + split_and!; [by vm_compute|constructor|constructor].
    + split_and!; [by vm_compute|repeat constructor; by vm_compute|repeat constructor].
  - intros b. split; [repeat constructor; by vm_compute|]. repeat constructor. by vm_compute.
Qed.


(** ** A module with two functions, one of them a forwarder *)

Definition exports_world : SmallHost.World :=
  put 1 (4096 + 0x118) [82; 117; 110; 0] (put 2 (4096 + 0x114) [0] (put 4 (4096 + 0x108) [0x180; 0x130; 0x118]
  (put 4 (4096 + 0xE0 + 16) [5; 2; 1; 0x108; 0x110; 0x114] (put 4 (4096 + 0xC8) [0xE0; 0x60]
  (put 2 (4096 + 0x58) [0x20B] (put 4 (4096 + 0x3C) [0x40] (put 1 4096 [0x4D; 0x5A] (snd (sys_mmap 0 512 false SmallHost.empty))))))))).

Definition exports_img : MappedImage := mkImage 4096 512 4096.

Definition exports_table_demo : ExportTable :=
  match fst (parse_export_table (E := LoadError) exports_img exports_world) with Ok t => t | _ => no_exports end.

Definition exports_module : LoadedModule :=
  mkModule 4096 "run.dll" "run.dll" exports_table_demo exports_img (mkStack 0 0) (mkArena 0 0 0 true []).

Definition exports_process : Process SmallHost.World :=
  mkProcess (mkGlobals K32Registry.Registry_new None None) (Some 4096) None None true false [exports_module] 0 0 exports_world.

Lemma exports_demo : exports_of exports_world exports_module (mkSpan 0xE0 0x60) 5 [0x180; 0x130] [([82; 117; 110], 0%nat)].
Proof.
  split.
  - refine (proj1 (may_all_spec prot_r exports_world 4096 512) _). by vm_compute.
  - by vm_compute.
  - exists 0x108, 0x110, 0x114. split.
    + by vm_compute.
    + by vm_compute.
    + by vm_compute.
    + intros [|[|i]] r H; [| |done]; cbn in H; injection H as <-; by vm_compute.
    + intros [|i] name k H; [|done]. cbn in H. injection H as <- <-. split; [cbn; lia|]. split; [by vm_compute|].
      exists 0x118. split; [by vm_compute|]. split; [by vm_compute|by vm_compute|(split; [apply Nat.ltb_lt|]; by vm_compute)|by vm_compute| |by vm_compute].
      intros H. apply list_elem_of_In in H. cbn in H. lia.
    + apply NoDup_singleton.
  - by vm_compute.
Qed.

Lemma get_proc_address_correct_witness :
  get_proc_address 4096 (HostName [82; 117; 110]) exports_process = (Ok (4096 + 0x180), exports_process) /\
  get_proc_address 4096 (GuestName 6) exports_process = (Ok 0, exports_process).
Proof.
  destruct (get_proc_address_correct exports_process exports_world 4096 exports_module _ _ _ _ ltac:(discriminate) eq_refl eq_refl exports_demo) as [H1 H2].
  split.
  - apply (H1 [82; 117; 110] _ (Names_host _ _)). cbn. unfold MAX_NAME_LEN. lia.
  - apply (H2 6). lia.
Defined.

Lemma moved_image_finds_nothing_witness :
  exists h, resolve_module_handle "kernel32.dll" exports_process = (Ok h, exports_process) /\ h <> 0 /\
    get_proc_address h (HostName [69; 120; 105; 116]) exports_process = (Ok 0, exports_process).
Proof.
  apply (moved_image_finds_nothing exports_process 4096).
  - reflexivity.
  - left. split; reflexivity.
  - by vm_compute; left.
  - discriminate.
  - repeat constructor. cbn. lia.
Defined.
