(* ===== verification/PeLoader.v ===== *)
(** * Loading and running the main image ([pe-loader/src/lib.rs])

    [load_bytes] as the code composes it, and the run of a loaded image. *)
From Stdlib Require Import ZArith Lia String.
From stdpp Require Import base list option strings gmap.
From S2P Require Import Prelude PeHost PeImage PeReloc PeTls PeSeh K32Registry GuestMem PeThunk ExportTables PeImports PeExports PeThunkCall PeProcess PeBind PeModules.
Local Open Scope rust_scope.
Local Open Scope Z_scope.
Set Warnings "-register-all".

Record PeImage : Type := mkPeImage {
  mapped : MappedImage;
  entry_rva : Z;
  image_imports : ResolvedImports;
  teb_peb : TebPeb;
  image_stack : Stack;
  thunk_arena : ThunkArena;
  tls_block : option TlsBlock;
  tls_callbacks : list Z
}.

Definition stack_usable : Z := 2 ^ 20.
Definition DLL_PROCESS_ATTACH : Z := 1.

Section Loader.
Context `{HW : Host W} `{HE : !Env W}.
Local Abbreviation P := (M (Process W) LoadError).

Definition install_exceptions (img : MappedImage) (dir : option DataDirectory) : P unit :=
  match dir with
  | None => mret tt
  | Some exc_dir =>
      let pdata_rva := dir_rva exc_dir in
      let pdata_size := dir_size exc_dir in
      if (0 <? pdata_rva) && (12 <=? pdata_size) && (pdata_rva + pdata_size <=? size img) then
        seh_install (install (PeImage.base img + pdata_rva) (pdata_size / 12) (PeImage.base img) (size img))
      else mret tt
  end.

(** A malformed directory is ignored; a block that cannot be made is an error. *)
Definition setup_tls (img : MappedImage) (dir : option DataDirectory) (teb : TebPeb) : P (option TlsBlock * list Z) :=
  match dir with
  | None => mret (None, [])
  | Some tls_dir =>
      if dir_rva tls_dir =? 0 then mret (None, [])
      else
        let base := PeImage.base img in
        let! parsed := attempt (on_mem (bootstrap "tls") (read_tls_directory base (size img) (dir_rva tls_dir))) in
        match parsed with
        | inr _ => mret (None, [])
        | inl dir =>
            let! block := on_mem (bootstrap "static TLS setup") (init_static_tls base (size img) base dir) in
            let! cbs := on_mem (bootstrap "tls") (collect_callbacks base (size img) base dir) in
            on_mem (fun e : LoadError => e) (set_tls_pointer teb (tls_array block)) ;;;
            mret (Some block, cbs)
        end
  end.

Definition drop_teb (t : TebPeb) : P unit := on_mem (bootstrap (E := LoadError) EmptyString) (teb_drop t).

(** What follows the binding of the imports. *)
Definition prepare (img : MappedImage) (pe : Parsed) (resolved : ResolvedImports) (arena : ThunkArena) : P PeImage :=
  install_exceptions img (exception_dir pe) ;;;
  let! stack := or_drop (drop_arena arena) (on_mem (fun msg => Bootstrap msg) new_default) in
  let stack_base := top stack in
  let stack_limit := sat_sub stack_base stack_usable in
  let! teb := on_mem (fun e : LoadError => e) (teb_new stack_base stack_limit (PeImage.base img)) in
  let! (block, cbs) :=
    or_drop (drop_teb teb ;;; drop_stack stack ;;; drop_arena arena) (setup_tls img (tls_dir pe) teb) in
  mret (mkPeImage img (wrap 32 (entry_point pe)) resolved teb stack arena block cbs).

Definition load_bytes (fuel : nat) (bytes : list Z) : P PeImage :=
  register_kernel32_bridge ;;;
  match parse bytes with
  | None => mfail Parse
  | Some pe =>
      if negb (bool_decide (is_Some (optional_header (file pe)))) then mfail (Bootstrap "PE has no optional header")
      else
        let! img := on_mem MapFailure (map_image bytes (file pe)) in
        register_exe_base (PeImage.base img) ;;;
        (match reloc_dir pe with
         | Some dir => on_mem MapFailure (apply_relocations (fun b => file <$> parse b) img bytes (file pe) dir)
         | None => mret tt
         end) ;;;
        let! (resolved, arena) := bind_imports img (imports pe) (try_resolve_from_disk (load_dll_ex fuel)) in
        prepare img pe resolved arena
  end.

Definition entrypoint (i : PeImage) : Z := PeImage.base (mapped i) + entry_rva i.

(** The callbacks in order, then the entry point. *)
Definition run (i : PeImage) : P Z :=
  set_thread_gs_base (teb_ptr (teb_peb i)) ;;;
  m_iter (fun cb => run_dll_main_win64 cb (top (image_stack i)) (PeImage.base (mapped i)) DLL_PROCESS_ATTACH 0 ;;; mret tt)
    (tls_callbacks i) ;;;
  run_entrypoint_win64 (entrypoint i) (top (image_stack i)) (peb_ptr (teb_peb i)).

Definition resolved_import_count (i : PeImage) : nat :=
  length (List.filter (fun kv => negb (snd kv =? fn_addr trap_stub)) (map_to_list (resolved (image_imports i)))).

Definition stubbed_imports (i : PeImage) : list key := stubbed (image_imports i).
End Loader.

(** ** What loading promises *)

Section Loading.
Context `{HW : Host W} `{HL : !HostLaws W} `{HE : !Env W} `{HEL : !EnvLaws W}.

(** A file that can be bound, without thread storage of its own. *)
Definition loadable (bytes : list Z) (pe : Parsed) (o : OptionalHeader) : Prop :=
  bindable bytes pe o /\ match tls_dir pe with Some d => dir_rva d = 0 | None => True end.

(** The main image, loaded: its bytes, relocated and bound, in a region of its own;
    every import slot; the stack and the thread block; earlier memory untouched. *)
Record loaded (w0 w : W) (bytes : list Z) (pe : Parsed) (o : OptionalHeader) (i : PeImage) : Prop := {
  ld_region : fresh_region w0 (PeImage.base (mapped i)) (size (mapped i)) /\
    size (mapped i) = round_up (size_of_image o) page_size /\ preferred_base (mapped i) = image_base o;
  ld_image : exists es pr, relocs_ok bytes pe (mapped i) es /\ all_wx_free pr /\
    image_at w (mapped i) (write_slots (slots_of (imports pe) (image_imports i))
      (relocate (delta (mapped i)) es (image_byte bytes (file pe) o))) pr;
  ld_imports : forall imp, imp ∈ imports pe -> exists p,
    resolved (image_imports i) !! import_key str_lowercase imp = Some p /\
    le_val (get_bytes w (PeImage.base (mapped i) + slot_of imp) 8) = wrap 64 p /\
    bound_at w (mapped i) (import_key str_lowercase imp) p;
  ld_stack : stack_at w (image_stack i);
  ld_teb : teb_at w (teb_peb i) (top (image_stack i)) (top (image_stack i) - 2 ^ 20) (PeImage.base (mapped i)) 0;
  ld_entry : entrypoint i = PeImage.base (mapped i) + wrap 32 (entry_point pe);
  ld_tls : tls_block i = None /\ tls_callbacks i = [];
  ld_intact : intact w0 w
}.

(** What the globals are afterwards. *)
Definition globals_after (p p' : Process W) (pe : Parsed) (img : MappedImage) : Prop :=
  bridge p' = true /\ exe_base_reg p' = Some (default (PeImage.base img) (exe_base_reg p)) /\
  modules p' = modules p /\ last_error p' = last_error p /\ gs_base p' = gs_base p /\
  exc_table p' = match exception_dir pe with
    | Some d => if (0 <? dir_rva d) && (12 <=? dir_size d) && (dir_rva d + dir_size d <=? size img)
        then Some (PeSeh.mkTable (PeImage.base img + dir_rva d) (dir_size d / 12) (PeImage.base img) (size img))
        else exc_table p
    | None => exc_table p
    end.

(** The steps of [load_bytes] before the imports are bound. *)
Definition place_image (bytes : list Z) (pe : Parsed) : M (Process W) LoadError MappedImage :=
  register_kernel32_bridge ;;;
  let! img := on_mem MapFailure (map_image bytes (file pe)) in
  register_exe_base (PeImage.base img) ;;;
  (match reloc_dir pe with
   | Some dir => on_mem MapFailure (apply_relocations parse_file img bytes (file pe) dir)
   | None => mret tt
   end) ;;;
  mret img.

(** ** The steps *)

Lemma install_exceptions_ok (p : Process W) img dir : exists t b, install_exceptions img dir p =
    (Ok tt, mkProcess (globals p) (exe_base_reg p) (exe_dir p) t (bridge p) b (modules p) (last_error p) (gs_base p) (memory p)) /\
  t = match dir with
    | Some d => if (0 <? dir_rva d) && (12 <=? dir_size d) && (dir_rva d + dir_size d <=? size img)
        then Some (PeSeh.mkTable (PeImage.base img + dir_rva d) (dir_size d / 12) (PeImage.base img) (size img))
        else exc_table p
    | None => exc_table p
    end.
Proof.
  unfold install_exceptions. destruct dir as [d|]; [destruct (_ && _)|]; [|by exists (exc_table p), (seh_bridge p); destruct p..].
  by eexists _, true.
Qed.

Lemma stack_at_intact (w w' : W) s : intact w w' -> stack_at w s -> stack_at w' s.
Proof.
  intros Hi [H1 H2 H3 H4]. split; [done| | |done]; intros x Hx.
  - specialize (H2 x Hx). rewrite (proj1 (Hi x ltac:(by rewrite H2))). done.
  - specialize (H3 x Hx). rewrite (proj1 (Hi x ltac:(by rewrite H3))). done.
Qed.

(** Everything after the binding: only fresh memory changes. *)
Lemma prepare_ok (p : Process W) img pe out ar : grants (W := W) -> image_ok img ->
  match tls_dir pe with Some d => dir_rva d = 0 | None => True end ->
  exists r p', prepare img pe out ar p = (r, p') /\
  match r with
  | Ok i => intact (memory p) (memory p') /\ mapped i = img /\ entry_rva i = wrap 32 (entry_point pe) /\ image_imports i = out /\
      tls_block i = None /\ tls_callbacks i = [] /\ stack_at (memory p') (image_stack i) /\
      teb_at (memory p') (teb_peb i) (top (image_stack i)) (top (image_stack i) - 2 ^ 20) (PeImage.base img) 0 /\
      exists b, p' = mkProcess (globals p) (exe_base_reg p) (exe_dir p)
        (match exception_dir pe with
         | Some d => if (0 <? dir_rva d) && (12 <=? dir_size d) && (dir_rva d + dir_size d <=? size img)
             then Some (PeSeh.mkTable (PeImage.base img + dir_rva d) (dir_size d / 12) (PeImage.base img) (size img))
             else exc_table p
         | None => exc_table p
         end) (bridge p) b (modules p) (last_error p) (gs_base p) (memory p')
  | Err e => exists p2, stack_refused (memory p) (memory p2) /\ drop_arena ar p2 = (Ok tt, p')
  | Panic => exists st w, new_default (memory p) = (Ok st, w) /\ teb_refused w (memory p')
  | NoFuel => False
  end.
Proof.
  intros Hg (Hb & _ & Hb2 & Hs & _) Htls. unfold prepare. destruct (install_exceptions_ok p img (exception_dir pe)) as (t & b & He & Ht).
  rewrite (mbind_ok _ _ _ _ _ He). set (p1 := mkProcess _ _ _ t _ _ _ _ _ _).
  destruct (stack_new_ok (memory p1) Hg) as (r & w2 & Hst & Hk2 & Hr).
  destruct r as [s|e| |]; [destruct Hr as [Hr _]|clear Htls|done|done].
  2:{ destruct (drop_arena_ok ar (set_memory p1 w2)) as [w3 Hd]. eexists (Err (Bootstrap e)), _. split; [|exists (set_memory p1 w2); split; [exact Hr|exact Hd]].
      unfold mbind at 1, or_drop at 1. rewrite (on_mem_err _ _ _ _ _ Hst). unfold mbind at 1. rewrite Hd. reflexivity. }
  assert (Hor : or_drop (drop_arena ar) (on_mem (fun msg => Bootstrap msg) new_default) p1 = (Ok s, set_memory p1 w2))
    by (unfold or_drop; by rewrite (on_mem_ok _ _ _ _ _ Hst)).
  rewrite (mbind_ok _ _ _ _ _ Hor). pose proof (st_bounds _ _ Hr) as Hbs. pose proof (st_top _ _ Hr) as Htop.
  assert (Hlim : sat_sub (top s) stack_usable = top s - 2 ^ 20) by (unfold sat_sub, stack_usable; lia). rewrite Hlim.
  destruct (teb_new_ok (E := LoadError) (top s) (top s - 2 ^ 20) (PeImage.base img) w2) as (r & w3 & Hteb & Hr3);
    [unfold unit_range; change (2 ^ (8 * Z.of_nat 8)) with (2 ^ 64); lia..|].
  destruct r as [tb|e| |]; [destruct Hr3 as [Hk3 Htb]|done| |done].
  2:{ eexists Panic, (set_memory p1 w3). split; [|exists s, w2; split; [exact Hst|exact Hr3]]. unfold mbind at 1, on_mem at 1. change (memory (set_memory p1 w2)) with w2. rewrite Hteb. reflexivity. }
  rewrite (mbind_ok _ _ _ _ _ (on_mem_ok _ _ (set_memory p1 w2) _ _ Hteb)).
  assert (Hsetup : forall q, setup_tls img (tls_dir pe) tb q = (Ok (None, []), q)).
  { intros q. unfold setup_tls. destruct (tls_dir pe) as [d|]; [|done]. by rewrite Htls. }
  unfold or_drop, mbind. rewrite Hsetup. eexists _, _. split; [reflexivity|]. cbn [memory set_memory mapped entry_rva image_imports tls_block tls_callbacks image_stack teb_peb].
  split_and!; [|done..|by apply (stack_at_intact w2)|done|].
  - eapply intact_trans; [exact Hk2|exact Hk3].
  - exists b. by subst t.
Qed.

(** C14. Loading the main image. For a file whose relocations and import slots lie in
    its image and whose imports the layer answers itself, loading gives an image with
    the bytes of the file, relocated and with every import bound: each slot holds the
    address of a trampoline whose code calls the implementation, of a variable, or of
    the stub that unknown imports get. The stack has its guard page, the thread block
    its documented fields, the globals name this image, and memory that was mapped
    before is untouched. The only other outcomes are the errors of the mapping itself
    and the refusal, in the memory reached so far, of one of the four pieces of memory
    that loading asks for later: the arena of the trampolines, a larger arena, the
    stack, the thread block. The file has no static thread storage and the kernel
    grants changes of protection. *)
Theorem load_bytes_correct fuel (p : Process W) bytes pe o : grants (W := W) -> loadable bytes pe o ->
  exists r p', load_bytes fuel bytes p = (r, p') /\
  match r with
  | Ok i => loaded (memory p) (memory p') bytes pe o i /\ globals_after p p' pe (mapped i)
  | Err e => (exists e', e = MapFailure e' /\ fst (map_image bytes (file pe) (memory p)) = Err e') \/
      lacking (place_image bytes pe) (imports pe) (try_resolve_from_disk (load_dll_ex fuel)) p r p'
  | Panic => lacking (place_image bytes pe) (imports pe) (try_resolve_from_disk (load_dll_ex fuel)) p r p' \/
      lacking_block (place_image bytes pe) (imports pe) (try_resolve_from_disk (load_dll_ex fuel)) p p'
  | NoFuel => False
  end.
Proof.
  intros Hg [[Hparse Hhdr [Hpe Hbytes] Hrel Hslots Hown] Htls]. unfold load_bytes. unfold mbind at 1. cbn [register_kernel32_bridge].
  set (p0 := mkProcess _ _ _ _ true _ _ _ _ _). rewrite Hparse, Hhdr. rewrite bool_decide_eq_true_2 by (by eexists). cbn [negb].
  pose proof (map_image_spec bytes (file pe) true (memory p) Hpe Hbytes) as Hpost. fold (map_image bytes (file pe)) in Hpost.
  destruct (map_image bytes (file pe) (memory p)) as [[img|e| |] w1] eqn:Em.
  2:{ eexists (Err (MapFailure e)), _. split; [|left; by exists e]. unfold mbind at 1, on_mem at 1.
      change (memory p0) with (memory p). rewrite Em. reflexivity. }
  2:{ cbn in Hpost. congruence. }
  2:{ done. }
  rewrite (mbind_ok _ _ _ _ _ (on_mem_ok MapFailure _ p0 _ _ Em)).
  destruct (mapped_image _ _ _ _ _ _ Hpe Hhdr Hpost) as (Hok & Himg & Hfresh & Hk1 & Him & Hpr).
  unfold mbind at 1. cbn [register_exe_base]. set (p1 := mkProcess _ _ _ _ _ _ _ _ _ (memory (set_memory p0 w1))).
  assert (Hb0 : 0 < PeImage.base img) by apply Hok.
  destruct (Hrel (PeImage.base img) Hb0) as [es Hes]. rewrite <- Himg in Hes.
  destruct (relocate_step p1 img bytes pe es _ _ Hok Hg Hes Him Hpr) as (w2 & pr2 & Hr2 & Him2 & Hpr2 & Hk2).
  change (memory p1) with w1 in Hk2. rewrite (mbind_ok _ _ _ _ _ Hr2).
  assert (Hplace : place_image bytes pe p = (Ok img, set_memory p1 w2)).
  { unfold place_image. unfold mbind at 1. cbn [register_kernel32_bridge]. fold p0.
    rewrite (mbind_ok _ _ _ _ _ (on_mem_ok MapFailure _ p0 _ _ Em)). unfold mbind at 1. cbn [register_exe_base]. fold p1.
    by rewrite (mbind_ok _ _ _ _ _ Hr2). }
  specialize (Hslots (PeImage.base img)). rewrite <- Himg in Hslots.
  destruct (bind_imports_ok (set_memory p1 w2) img (imports pe) (try_resolve_from_disk (load_dll_ex fuel)) _ pr2 Hok Hg Him2 Hpr2 Hslots Hown)
    as (r & p3 & Hbind & Hr3). unfold mbind at 1. rewrite Hbind.
  destruct r as [[out ar]|e| |].
  2:{ eexists _, _. split; [reflexivity|]. right. by eapply LackArena. }
  2:{ eexists _, _. split; [reflexivity|]. left. by eapply LackGrowth. }
  2:{ destruct Hr3. }
  destruct Hr3 as (g & w3 & -> & Hbound & _). cbv beta iota. set (p3 := set_memory _ w3) in *.
  destruct (prepare_ok p3 img pe out ar Hg Hok Htls) as (r & p4 & Hp & Hr4). rewrite Hp.
  destruct r as [i|e| |].
  2:{ destruct Hr4 as (p5 & Hs & Hd). eexists _, _. split; [reflexivity|]. right. by eapply LackStack. }
  2:{ destruct Hr4 as (st & w & Hs & Ht). eexists _, _. split; [reflexivity|]. right. by exists img, (set_memory p1 w2), out, ar, p3, st, w. }
  2:{ destruct Hr4. }
  destruct Hr4 as (Hk4 & Hm4 & He4 & Hi4 & Ht4 & Hc4 & Hst & Hteb & b & Hp4). eexists _, _. split; [reflexivity|].
  change (memory p3) with w3 in Hk4. change (memory (set_memory p1 w2)) with w2 in Hbound.
  apply (bound_image_intact _ _ _ _ _ _ _ Hk4) in Hbound.
  split; [|rewrite Hm4, Hp4; unfold globals_after; cbn; by split_and!].
  split; rewrite ?Hm4, ?Hi4.
  - split_and!; [done|by rewrite Himg..].
  - destruct (bi_image _ _ _ _ _ _ Hbound) as (pr & Hx & Hy). exists es, pr. by split_and!.
  - intros imp Hin. destruct (bi_keys _ _ _ _ _ _ Hbound imp Hin) as (q & Hq & Hat). exists q. split_and!; [done| |done].
    apply (bound_slot w2 (memory p4) img _ (imports pe) out imp q Hbound Hslots Hin); [|done]. apply wrap_range. lia.
  - done.
  - done.
  - unfold entrypoint. by rewrite Hm4, He4.
  - done.
  - apply (intact_fresh (PeImage.base img) (size img)); [apply Hfresh|].
    eapply intact_but_trans; [by apply intact_weaken|]. eapply intact_but_trans; [exact Hk2|]. exact (bi_intact _ _ _ _ _ _ Hbound).
Qed.
End Loading.

(** ** Calling an import *)

Section Calling.
Context `{HW : Host W} `{HL : !HostLaws W} `{HE : !Env W}.

(** What guest code leaves: protections, and bytes it may not write. *)
Definition guest_leaves (w w' : W) : Prop := forall x, prot_at w x <> None ->
  prot_at w' x = prot_at w x /\ (may prot_w w x = false -> byte_at w' x = byte_at w x).

(** In a loaded image, a guest call through the slot of an import, made on the
    guest's stack, reaches the implementation with its arguments. *)
Lemma import_call w0 w bytes pe o i imp target n ret (args : list Z) (m : Machine W) :
  loaded w0 w bytes pe o i -> imp ∈ imports pe ->
  served (provides fn_addr) (import_key str_lowercase imp) = Some (Fn (Returning target n)) ->
  n = Z.of_nat (length args) -> n <= 32 -> 0 <= target < 2 ^ 64 -> guest_leaves w (mem m) ->
  win_called (le_val (get_bytes w (PeImage.base (mapped i) + slot_of imp) 8)) ret args m ->
  words m -> Forall (unit_range 8) (ret :: args) ->
  stk_base (image_stack i) + 4096 < regs m RSP - (frame_size n + 24) ->
  regs m RSP + 0x48 + 8 * n <= stk_base (image_stack i) + total_len (image_stack i) ->
  exists m1 back, rtc steps_to m m1 /\ sysv_called target back args m1 /\
    forall r, r ∈ sysv_saved -> regs m1 r = regs m r.
Proof.
  intros Hl Hin Hs Hn Hmax Ht Hg Hc Hw Ha Hlo Hhi. destruct (ld_imports _ _ _ _ _ _ Hl imp Hin) as (p & _ & Hslot & Hb).
  unfold bound_at in Hb. rewrite Hs in Hb. destruct Hb as [[Hx Hcode] Hseal _ Hrange]. cbn [request_code] in *.
  rewrite Hslot, wrap_small in Hc by lia. pose proof (ld_stack _ _ _ _ _ _ Hl) as [Hsb _ Hsu _].
  destruct (frame_bounds n ltac:(lia)) as (_ & Hf & _ & Hf2).
  assert (Huse : forall x, regs m RSP - (frame_size n + 24) <= x < regs m RSP -> prot_at (mem m) x = Some prot_rw /\ prot_at w x = Some prot_rw).
  { intros x Hxr. specialize (Hsu x ltac:(lia)). split; [|done]. by rewrite (proj1 (Hg x ltac:(by rewrite Hsu))). }
  assert (Hentry : thunk_entry (emit_returning target n) (frame_size n + 24) p ret args m).
  { split; [done| |done|done|lia|lia| |].
    - assert (Hsame : forall x, p <= x < p + Z.of_nat (length (emit_returning target n)) -> prot_at (mem m) x = prot_at w x /\ byte_at (mem m) x = byte_at w x).
      { intros x Hxr. specialize (Hx x Hxr). unfold may in Hx. destruct (Hg x) as [H1 H2]; [by destruct (prot_at w x)|]. auto. }
      split; [intros x Hxr; unfold may; rewrite (proj1 (Hsame x Hxr)); by apply Hx|].
      rewrite <- Hcode at 2. apply get_bytes_ext. intros x Hxr. by apply Hsame.
    - split; intros x Hxr; unfold may; by rewrite (proj1 (Huse x ltac:(lia))).
    - pose proof (request_nonempty (Returning target n)) as Hne. cbn [request_code] in Hne. apply apart_points; [lia|lia|].
      intros x H1 H2. specialize (Hx x H1). destruct (Huse x ltac:(lia)) as [_ Hp]. unfold may in Hx. by rewrite Hp in Hx. }
  destruct (thunk_enters _ _ _ _ _ _ Hn Hmax Ht Hentry) as (m1 & H1 & H2 & _ & H3 & _). by exists m1, (return_point target n p).
Qed.
End Calling.

(** ** The small library as a main image *)

Lemma demo_loadable : loadable demo_dll_bytes demo_parsed (mkOptionalHeader 48 8192 0).
Proof. split; [exact demo_bindable|done]. Qed.

Lemma load_bytes_correct_witness :
  exists i p', load_bytes 1 demo_dll_bytes demo_process = (Ok i, p') /\
    loaded SmallHost.empty (memory p') demo_dll_bytes demo_parsed (mkOptionalHeader 48 8192 0) i /\
    globals_after demo_process p' demo_parsed (mapped i).
Proof.
  destruct (load_bytes_correct (HEL := demo_laws) 1 demo_process demo_dll_bytes demo_parsed (mkOptionalHeader 48 8192 0))
    as (r & p' & H1 & H2).
  - apply small_host_grants.
  - apply demo_loadable.
  - assert (Hok : outcome_is_ok (fst (load_bytes 1 demo_dll_bytes demo_process)) = true) by (vm_compute; reflexivity).
    rewrite H1 in Hok. destruct r as [i|e| |]; [|discriminate Hok..]. exists i, p'. split; [exact H1|exact H2].
Defined.
