(* ===== verification/K32Shlwapi.v ===== *)
(** * Paths and strings of the shell library ([crates/win32-kernel32/src/shlwapi.rs])

    The exports work in place on guest strings: they return pointers into their
    arguments, cut them, or append to them. Wide strings are UTF-16 units that end
    with zero. *)
From Stdlib Require Import ZArith Lia Ascii String.
From stdpp Require Import base list option.
From S2P Require Import Prelude PeHost GuestMem GuestStr.
Local Open Scope rust_scope.
Local Open Scope Z_scope.
Set Warnings "-register-all".

Definition MAX_PATH : Z := 260.

(** ** Characters *)

Definition to_lower8 (c : Z) : Z := if (65 <=? c) && (c <=? 90) then c + 32 else c.
Definition to_lower16 (c : Z) : Z := if (65 <=? c) && (c <=? 90) then c + 32 else c.

Definition is_ascii_alpha16 (c : Z) : bool :=
  ((65 <=? c) && (c <=? 90)) || ((97 <=? c) && (c <=? 122)).

(** [c == b'\\' as u16 || c == b'/' as u16] *)
Definition is_sep (c : Z) : bool := (c =? 92) || (c =? 47).

Section Shlwapi.
Context `{HW : Host W} {E : Type}.
Local Abbreviation G := (M W E).

(** [p.add(i)] for a pointer to 16-bit units; the null pointer is 0. *)
Definition wptr (p i : Z) : Z := p + 2 * i.

Definition wlen (p : Z) : G Z := if p =? 0 then mret 0 else scan 2 p.

(** ** Comparison *)

Definition cmp_wide (s1 s2 : Z) (n : option Z) (ignore_case : bool) : G Z :=
  if (s1 =? 0) && (s2 =? 0) then mret 0
  else if s1 =? 0 then mret (-1)
  else if s2 =? 0 then mret 1
  else compare_loop 2 n (fun c1 c2 =>
    let a := if ignore_case then to_lower16 c1 else c1 in
    let b := if ignore_case then to_lower16 c2 else c2 in
    if negb (a =? b) then Some (a - b) else if c1 =? 0 then Some 0 else None) s1 s2.

Definition cmp_cstr (s1 s2 : Z) (n : option Z) (ignore_case : bool) : G Z :=
  if (s1 =? 0) && (s2 =? 0) then mret 0
  else if s1 =? 0 then mret (-1)
  else if s2 =? 0 then mret 1
  else compare_loop 1 n (fun c1 c2 =>
    let a := if ignore_case then to_lower8 c1 else c1 in
    let b := if ignore_case then to_lower8 c2 else c2 in
    if negb (a =? b) then Some (a - b) else if c1 =? 0 then Some 0 else None) s1 s2.

Definition str_cmp_i_w (s1 s2 : Z) : G Z := cmp_wide s1 s2 None true.
Definition str_cmp_w (s1 s2 : Z) : G Z := cmp_wide s1 s2 None false.
Definition str_cmp_ni_w (s1 s2 n : Z) : G Z := if n <=? 0 then mret 0 else cmp_wide s1 s2 (Some n) true.
Definition str_cmp_n_w (s1 s2 n : Z) : G Z := if n <=? 0 then mret 0 else cmp_wide s1 s2 (Some n) false.
Definition str_cmp_i_c (s1 s2 : Z) : G Z := cmp_cstr s1 s2 None true.

(** ** Substring search *)

Definition str_str_w_impl (hay needle : Z) (max_hay : option Z) (ignore_case : bool) : G Z :=
  if (hay =? 0) || (needle =? 0) then mret 0
  else
    let! nlen := wlen needle in
    if nlen =? 0 then mret hay
    else
      let! hlen_full := wlen hay in
      let hlen := match max_hay with Some m => Z.min hlen_full m | None => hlen_full end in
      if hlen <? nlen then mret 0
      else
        let last_start := hlen - nlen in
        let! r := search 2 (if ignore_case then to_lower16 else id) hay needle nlen (last_start + 1) id in
        mret (match r with Some i => wptr hay i | None => 0 end).

Definition str_str_w (s1 s2 : Z) : G Z := str_str_w_impl s1 s2 None false.
Definition str_str_iw (s1 s2 : Z) : G Z := str_str_w_impl s1 s2 None true.
Definition str_str_niw (s1 s2 n : Z) : G Z := if n <? 0 then mret 0 else str_str_w_impl s1 s2 (Some n) true.

Definition str_rstr_iw (s1 s2 sub : Z) : G Z :=
  if (s1 =? 0) || (s2 =? 0) then mret 0
  else
    let! nlen := wlen s2 in
    if nlen =? 0 then mret s1
    else
      let! hlen_full := wlen s1 in
      let hlen := if negb (sub =? 0) then Z.min (wrap 64 (sub - s1) / 2) hlen_full else hlen_full in
      if hlen <? nlen then mret 0
      else
        let last_start := hlen - nlen in
        let! r := search 2 to_lower16 s1 s2 nlen (last_start + 1) (fun i => last_start - i) in
        mret (match r with Some i => wptr s1 i | None => 0 end).

(** ** Paths *)

(** Truncating copy into a buffer of [cap] units. *)
Definition copy_wide (dest src cap : Z) : G unit :=
  if dest =? 0 then mret tt
  else if src =? 0 then uput 2 dest 0 0
  else
    let! l := wlen src in
    let n := Z.min l (sat_sub cap 1) in
    let! us := slice_from 2 src n in
    put_list 2 dest us ;;;
    uput 2 dest n 0.

(** [while i > 0 { i -= 1; ... }] from [len]: the last separator. *)
Definition last_sep (k : nat) (path len : Z) : G (option Z) :=
  loop (fun i =>
    if 0 <? i then
      let i := i - 1 in
      let! c := uget k path i in
      mret (if is_sep c then inr (Some i) else inl i)
    else mret (inr None)) len.

Definition path_find_file_name_w (path : Z) : G Z :=
  if path =? 0 then mret path
  else
    let! len := wlen path in
    let! r := last_sep 2 path len in
    mret (match r with Some i => wptr path (i + 1) | None => path end).

Definition path_find_file_name_a (path : Z) : G Z :=
  if path =? 0 then mret path
  else
    let! len := scan 1 path in
    let! r := last_sep 1 path len in
    mret (match r with Some i => path + (i + 1) | None => path end).

Definition path_find_extension_w (path : Z) : G Z :=
  if path =? 0 then mret path
  else
    let! len := wlen path in
    let! (last_dot, last_sep) := loop (fun '(i, last_dot, last_sep) =>
      if i <? len then
        let! c := uget 2 path i in
        let last_dot := if c =? 46 then Some i else last_dot in
        let last_sep := if is_sep c then Some i else last_sep in
        mret (inl (i + 1, last_dot, last_sep))
      else mret (inr (last_dot, last_sep))) (0, None, None) in
    mret (match last_dot with
      | Some dot => if match last_sep with Some sep => dot <? sep | None => false end
                    then wptr path len else wptr path dot
      | None => wptr path len
      end).

Definition path_remove_file_spec_w (path : Z) : G Z :=
  if path =? 0 then mret 0
  else
    let! len := wlen path in
    let! r := last_sep 2 path len in
    match r with
    | Some i => uput 2 path i 0 ;;; mret 1
    | None => mret 0
    end.

Definition path_append_w (path more : Z) : G Z :=
  if (path =? 0) || (more =? 0) then mret 1
  else
    let! plen := wlen path in
    let! mlen := wlen more in
    if mlen =? 0 then mret 1
    else
      let cap := MAX_PATH - 1 in
      let! end_sep := (if 0 <? plen then let! last := uget 2 path (plen - 1) in mret (is_sep last)
                       else mret false) in
      let strip_leading := 0 <? plen in
      let! skip := (if strip_leading then
          loop (fun skip =>
            if skip <? mlen then
              let! c := uget 2 more skip in
              mret (if is_sep c then inl (skip + 1) else inr skip)
            else mret (inr skip)) 0
        else mret 0) in
      if skip =? mlen then mret 1
      else
        let add_sep := (0 <? plen) && negb end_sep in
        let! pos := (if add_sep && (plen <? cap) then uput 2 path plen 92 ;;; mret (plen + 1)
                     else mret plen) in
        let! pos := loop (fun '(j, pos) =>
          if j <? mlen then
            if cap <=? pos then mret (inr pos)
            else
              let! c := uget 2 more j in
              uput 2 path pos c ;;;
              mret (inl (j + 1, pos + 1))
          else mret (inr pos)) (skip, pos) in
        uput 2 path pos 0 ;;;
        mret 1.

Definition path_combine_w (dest dir file : Z) : G Z :=
  if dest =? 0 then mret dest
  else
    let! file_abs := (if negb (file =? 0) then
        let! f0 := uget 2 file 0 in
        if f0 =? 0 then mret false
        else
          let! f1 := uget 2 file 1 in
          mret ((f1 =? 58) || ((f0 =? 92) && (f1 =? 92)))
      else mret false) in
    (if file_abs : bool then copy_wide dest file MAX_PATH
     else
       copy_wide dest dir MAX_PATH ;;;
       if negb (file =? 0) then path_append_w dest file ;;; mret tt else mret tt) ;;;
    mret dest.

Definition path_is_relative_w (path : Z) : G Z :=
  if path =? 0 then mret 1
  else
    let! c0 := uget 2 path 0 in
    if c0 =? 0 then mret 1
    else
      let! c1 := uget 2 path 1 in
      mret (if (c1 =? 58) && is_ascii_alpha16 c0 then 0
            else if (c0 =? 92) && (c1 =? 92) then 0
            else 1).

(** Formatting is not implemented: an empty string is left. *)
Definition wnsprintf_w (buf count fmt : Z) : G Z :=
  (if negb (buf =? 0) && (0 <? count) then uput 2 buf 0 0 else mret tt) ;;; mret 0.
Definition wnsprintf_a (buf count fmt : Z) : G Z :=
  (if negb (buf =? 0) && (0 <? count) then uput 1 buf 0 0 else mret tt) ;;; mret 0.
End Shlwapi.

(** ** Comparison and search against the reference *)

(** The case folding of a comparison, as a function on units. *)
Definition fold_case (ignore_case : bool) (c : Z) : Z := if ignore_case then to_lower16 c else c.

Lemma fold_case_folding ic : folding (fold_case ic).
Proof. split; [by destruct ic|]. intros x Hx. unfold fold_case, to_lower16. destruct ic; [|done]. destruct (_ && _); lia. Qed.

Lemma diff_signs : signs Z.sub.
Proof. split; intros; lia. Qed.

Lemma shell_compares ic : compares (fold_case ic) Z.sub (fun c1 c2 =>
  let a := if ic then to_lower16 c1 else c1 in
  let b := if ic then to_lower16 c2 else c2 in
  if negb (a =? b) then Some (a - b) else if c1 =? 0 then Some 0 else None).
Proof.
  change (compares (fold_case ic) Z.sub (fun c1 c2 =>
    if negb (fold_case ic c1 =? fold_case ic c2) then Some (fold_case ic c1 - fold_case ic c2)
    else if c1 =? 0 then Some 0 else None)).
  split.
  - by rewrite Z.eqb_refl.
  - intros x y Hxy Heq. rewrite Heq, Z.eqb_refl. simpl. destruct (Z.eqb_spec x 0) as [->|]; [|done].
    exfalso. revert Heq. unfold fold_case, to_lower16. destruct ic; [|lia].
    change (0 = (if (65 <=? y) && (y <=? 90) then y + 32 else y) -> False). destruct (_ && _) eqn:B; lia.
  - intros x y Hne. by apply Z.eqb_neq in Hne as ->.
Qed.

Section Correct.
Context `{HW : Host W} `{HL : !HostLaws W} {E : Type}.

Lemma nonnull k w a s : cstr k w a s -> (a =? 0) = false.
Proof. intros (H & _). lia. Qed.

Lemma wlen_cstr w p s : cstr 2 w p s -> wlen (E := E) p w = (Ok (Z.of_nat (length s)), w).
Proof. intros Hs. unfold wlen. rewrite (nonnull _ _ _ _ Hs). apply scan_cstr; [lia|done]. Qed.

Lemma cmp_wide_orders w p q s t n ic : cstr 2 w p s -> cstr 2 w q t ->
  orders (E := E) (cmp_wide p q n ic) w (clip n (map (fold_case ic) s)) (clip n (map (fold_case ic) t)).
Proof.
  intros Hs Ht. unfold cmp_wide. rewrite (nonnull _ _ _ _ Hs), (nonnull _ _ _ _ Ht).
  eapply compare_orders; [lia|done|done|by eapply cstr_positive..|apply fold_case_folding|apply shell_compares|apply diff_signs].
Qed.

Lemma cmp_cstr_orders w p q s t n ic : cstr 1 w p s -> cstr 1 w q t ->
  orders (E := E) (cmp_cstr p q n ic) w (clip n (map (fold_case ic) s)) (clip n (map (fold_case ic) t)).
Proof.
  intros Hs Ht. unfold cmp_cstr. rewrite (nonnull _ _ _ _ Hs), (nonnull _ _ _ _ Ht).
  eapply compare_orders; [lia|done|done|by eapply cstr_positive..|apply fold_case_folding|apply shell_compares|apply diff_signs].
Qed.

Lemma length_zero (t : list Z) : (Z.of_nat (length t) =? 0) = bool_decide (t = []).
Proof. destruct t; [done|]. by rewrite bool_decide_eq_false_2. Qed.

Lemma too_long f p s t h : (Z.of_nat (length (take h s)) < Z.of_nat (length t)) -> t <> [] ->
  found_first 2 f p (take h s) t 0 /\ found_last 2 f p (take h s) t 0.
Proof.
  intros Hlen Hne. enough (forall i, ~ occurs f (take h s) t i) by (split; by right).
  intros i Hi. apply occurs_bound in Hi; [lia|done].
Qed.

Lemma occurs_nil f s i : occurs f s [] i.
Proof. done. Qed.

(** The first [n] units of the haystack are searched. *)
Lemma str_str_first w hay needle s t n ic : cstr 2 w hay s -> cstr 2 w needle t ->
  match n with Some m => 0 <= m | None => True end ->
  exists r, str_str_w_impl (E := E) hay needle n ic w = (Ok r, w) /\
    found_first 2 (fold_case ic) hay (clip n s) t r.
Proof.
  intros Hs Ht Hn. unfold str_str_w_impl. rewrite (nonnull _ _ _ _ Hs), (nonnull _ _ _ _ Ht). cbn [orb].
  rewrite (mbind_ok _ _ _ _ _ (wlen_cstr _ _ _ Ht)), length_zero. case_bool_decide as Hne.
  { exists hay. split; [done|]. left. exists O. subst t. split_and!; [lia|apply occurs_nil|lia]. }
  rewrite (mbind_ok _ _ _ _ _ (wlen_cstr _ _ _ Hs)).
  set (h := length (clip n s)).
  assert (Hh : match n with Some m => Z.min (Z.of_nat (length s)) m | None => Z.of_nat (length s) end = Z.of_nat h).
  { unfold h. destruct n as [m|]; cbn [clip]; [rewrite length_take; lia|done]. }
  assert (Hclip : clip n s = take h s).
  { unfold h. destruct n as [m|]; cbn [clip]; [|by rewrite take_ge by lia].
    rewrite length_take. destruct (Nat.min_spec (Z.to_nat m) (length s)) as [[? ->]|[? ->]]; [done|].
    by rewrite !take_ge by lia. }
  rewrite Hh, Hclip. assert (Hle : (h <= length s)%nat) by (unfold h; destruct n; cbn [clip]; [rewrite length_take|]; lia).
  destruct (Z.ltb_spec (Z.of_nat h) (Z.of_nat (length t))) as [Hlt|Hge].
  - exists 0. split; [done|]. apply too_long; [rewrite length_take; lia|done].
  - destruct (search_first (E := E) 2 (fold_case ic) hay needle s t h w) as (o & Ho & Hf); [lia|done..|lia|].
    eexists. split; [|exact Hf].
    assert (Hfun : (if ic then to_lower16 else id) = fold_case ic) by (by destruct ic).
    rewrite Hfun, (mbind_ok _ _ _ _ _ Ho). by destruct o.
Qed.

Lemma str_rstr_last w hay needle s t sub : cstr 2 w hay s -> cstr 2 w needle t ->
  exists r h, str_rstr_iw (E := E) hay needle sub w = (Ok r, w) /\
    h = (if sub =? 0 then length s else Nat.min (Z.to_nat (wrap 64 (sub - hay) / 2)) (length s)) /\
    (t = [] -> r = hay) /\ (t <> [] -> found_last 2 to_lower16 hay (take h s) t r).
Proof.
  intros Hs Ht. unfold str_rstr_iw. rewrite (nonnull _ _ _ _ Hs), (nonnull _ _ _ _ Ht). cbn [orb].
  rewrite (mbind_ok _ _ _ _ _ (wlen_cstr _ _ _ Ht)), length_zero.
  set (h := if sub =? 0 then _ else _). case_bool_decide as Hne; [by exists hay, h|].
  rewrite (mbind_ok _ _ _ _ _ (wlen_cstr _ _ _ Hs)).
  assert (Hh : (if negb (sub =? 0) then Z.min (wrap 64 (sub - hay) / 2) (Z.of_nat (length s)) else Z.of_nat (length s))
    = Z.of_nat h).
  { assert (0 <= wrap 64 (sub - hay) / 2) by (apply Z.div_pos; [apply wrap_range|]; lia).
    unfold h. destruct (sub =? 0); cbn [negb]; [done|]. rewrite Nat2Z.inj_min, Z2Nat.id; done. }
  rewrite Hh. assert (Hle : (h <= length s)%nat) by (unfold h; destruct (sub =? 0); lia).
  destruct (Z.ltb_spec (Z.of_nat h) (Z.of_nat (length t))) as [Hlt|Hge].
  - exists 0, h. split_and!; [done..|]. intros _. apply too_long; [rewrite length_take; lia|done].
  - destruct (search_last (E := E) 2 to_lower16 hay needle s t h w) as (o & Ho & Hf); [lia|done..|lia|].
    exists (match o with Some i => hay + Z.of_nat 2 * i | None => 0 end), h.
    split_and!; [|done|done|intros _; exact Hf].
    rewrite (mbind_ok _ _ _ _ _ Ho). by destruct o.
Qed.
End Correct.

(** ** Paths against the reference *)

Definition ends_sep (d : list Z) : bool := match list.last d with Some c => is_sep c | None => false end.

(** What is appended to [d]: the second path without leading separators, after
    one separator if [d] has units and does not end with one; cut so that at most
    259 units result. *)
Definition stripped (d m : list Z) : list Z :=
  if bool_decide (d = []) then m else drop (count_while is_sep m) m.

Definition joint (d : list Z) : list Z := if bool_decide (d = []) || ends_sep d then [] else [92].

Definition added (d m : list Z) : list Z := take (259 - length d) (joint d ++ stripped d m).

Lemma added_length d m : (length (added d m) <= 259 - length d)%nat.
Proof. unfold added. rewrite length_take. lia. Qed.

Definition path_join (d m : list Z) : list Z := if bool_decide (stripped d m = []) then d else d ++ added d m.

Definition no_sep (s : list Z) : Prop := Forall (fun c => is_sep c = false) s.

Section Paths.
Context `{HW : Host W} `{HL : !HostLaws W} {E : Type}.

(** Every path is a file name alone, or a directory, a separator and a name. *)
Lemma split_path s : no_sep s \/ exists d c f, s = d ++ c :: f /\ is_sep c = true /\ no_sep f.
Proof.
  induction s as [|x s [IH|(d & c & f & -> & Hc & Hf)]]; [left; constructor| |right; by exists (x :: d), c, f].
  destruct (is_sep x) eqn:B; [right; by exists [], x, s|left; by constructor].
Qed.

Lemma last_sep_run k w p d c f :
  (0 < k)%nat -> cstr k w p (d ++ c :: f) -> is_sep c = true -> no_sep f ->
  last_sep (E := E) k p (Z.of_nat (length (d ++ c :: f))) w = (Ok (Some (Z.of_nat (length d))), w).
Proof.
  intros Hk Hs Hc Hf. pose proof (cstr_length _ _ _ _ Hk Hs) as Hl. rewrite length_app in Hl |- *. cbn [length] in *.
  unfold last_sep.
  apply (loop_run (length f) (fun i => Z.of_nat (length d + S (length f) - i)) (fun _ => w)); [f_equal; lia|done|lia| |].
  - intros i Hi. rewrite (proj2 (Z.ltb_lt _ _)) by lia.
    destruct (lookup_lt_is_Some_2 f (length f - S i)%nat ltac:(lia)) as [u Hu].
    replace (Z.of_nat (length d + S (length f) - i) - 1) with (Z.of_nat (length d + S (length f - S i))) by lia.
    erewrite mbind_ok; [|eapply cstr_get; [done|]; apply lookup_app_l_Some; rewrite lookup_app_r by lia].
    2: { replace (length d + _ - length d)%nat with (S (length f - S i)) by lia. exact Hu. }
    rewrite (Forall_lookup_1 _ _ _ _ Hf Hu). unfold mret. do 3 f_equal. lia.
  - rewrite (proj2 (Z.ltb_lt _ _)) by lia.
    replace (Z.of_nat (length d + S (length f) - length f) - 1) with (Z.of_nat (length d)) by lia.
    erewrite mbind_ok; [|eapply cstr_get; [done|]; apply lookup_app_l_Some; rewrite lookup_app_r by lia;
      by rewrite Nat.sub_diag]. by rewrite Hc.
Qed.

Lemma last_sep_none k w p s :
  (0 < k)%nat -> cstr k w p s -> no_sep s -> last_sep (E := E) k p (Z.of_nat (length s)) w = (Ok None, w).
Proof.
  intros Hk Hs Hf. pose proof (cstr_length _ _ _ _ Hk Hs) as Hl. unfold last_sep.
  apply (loop_run (length s) (fun i => Z.of_nat (length s - i)) (fun _ => w)); [f_equal; lia|done|lia| |].
  - intros i Hi. rewrite (proj2 (Z.ltb_lt _ _)) by lia.
    destruct (cstr_lookup k w p s (length s - S i) Hs ltac:(lia)) as (u & Hu & Hu' & _).
    replace (Z.of_nat (length s - i) - 1) with (Z.of_nat (length s - S i)) by lia.
    rewrite (mbind_ok _ _ _ _ _ (cstr_get _ _ _ _ _ _ Hs Hu)). by rewrite (Forall_lookup_1 _ _ _ _ Hf Hu').
  - by rewrite Nat.sub_diag.
Qed.

(** The tail of a string is a string. *)
Lemma cstr_tail k w p d f : cstr k w p (d ++ f) -> cstr k w (p + Z.of_nat k * Z.of_nat (length d)) f.
Proof.
  intros (H1 & H2 & H3 & H4). rewrite length_app in H2. apply Forall_app in H3 as [_ H3].
  rewrite <- app_assoc in H4. apply holds_app in H4 as [_ H4]. split_and!; [lia|lia|done|done].
Qed.

Lemma file_name_run w p d f :
  cstr 2 w p (d ++ f) -> no_sep f -> d = [] \/ ends_sep d = true ->
  path_find_file_name_w (E := E) p w = (Ok (p + 2 * Z.of_nat (length d)), w).
Proof.
  intros Hs Hf Hd. unfold path_find_file_name_w. rewrite (nonnull _ _ _ _ Hs).
  rewrite (mbind_ok _ _ _ _ _ (wlen_cstr _ _ _ Hs)). destruct Hd as [->|Hd].
  - rewrite (mbind_ok _ _ _ _ _ (last_sep_none 2 _ _ _ ltac:(lia) Hs Hf)). simpl. by rewrite Z.add_0_r.
  - unfold ends_sep in Hd. destruct (list.last d) as [c|] eqn:L; [|done]. apply last_Some in L as [d' ->].
    rewrite <- app_assoc in Hs |- *. simpl in Hs |- *.
    rewrite (mbind_ok _ _ _ _ _ (last_sep_run 2 _ _ _ _ _ ltac:(lia) Hs Hd Hf)).
    unfold wptr. rewrite length_app. simpl length. unfold mret. do 3 f_equal. lia.
Qed.

Lemma remove_spec_run w p d c f :
  cstr 2 w p (d ++ c :: f) -> is_sep c = true -> no_sep f -> writable w p (2 * Z.of_nat (length (d ++ c :: f))) ->
  path_remove_file_spec_w (E := E) p w = (Ok 1, put 2 (p + 2 * Z.of_nat (length d)) [0] w).
Proof.
  intros Hs Hc Hf Hw. unfold path_remove_file_spec_w. rewrite (nonnull _ _ _ _ Hs).
  rewrite (mbind_ok _ _ _ _ _ (wlen_cstr _ _ _ Hs)).
  rewrite (mbind_ok _ _ _ _ _ (last_sep_run 2 _ _ _ _ _ ltac:(lia) Hs Hc Hf)).
  rewrite (mbind_ok _ _ _ tt (put 2 (p + 2 * Z.of_nat (length d)) [0] w)); [done|].
  apply (uput_ok 2 p). rewrite length_app in Hw. cbn [length] in Hw. intros x Hx. apply Hw. lia.
Qed.

(** A string cut by a zero unit. *)
Lemma cstr_cut k w p d r : (0 < k)%nat -> cstr k w p (d ++ r) -> r <> [] ->
  cstr k (put k (p + Z.of_nat k * Z.of_nat (length d)) [0] w) p d.
Proof.
  intros Hk (H1 & H2 & H3 & H4) Hr. rewrite length_app in H2. apply Forall_app in H3 as [H3 _].
  rewrite <- app_assoc in H4. apply holds_app in H4 as [H4 H5].
  split_and!; [done|lia|done|]. apply holds_app. split.
  - eapply holds_put_apart; [|done]. left. lia.
  - apply holds_put.
    + apply list.Forall_singleton. split; [done|]. apply Z.pow_pos_nonneg; lia.
    + eapply readable_sub; [apply H5|lia|]. rewrite length_app. cbn [length]. nia.
Qed.

(** ** Appending *)

Lemma skip_run w more m : cstr 2 w more m ->
  loop (fun skip =>
    if skip <? Z.of_nat (length m) then
      let! c := uget 2 more skip in mret (if is_sep c then inl (skip + 1) else inr skip)
    else mret (inr skip)) 0 w = (Ok (Z.of_nat (count_while is_sep m)) : outcome E _, w).
Proof.
  intros Hm. pose proof (cstr_length 2 w more m ltac:(lia) Hm). pose proof (count_while_le is_sep m).
  apply (loop_run (count_while is_sep m) Z.of_nat (fun _ => w)); [done|done|lia| |].
  - intros i Hi. rewrite (proj2 (Z.ltb_lt _ _)) by lia.
    destruct (cstr_lookup 2 w more m i Hm ltac:(lia)) as (u & Hu & Hu' & _).
    rewrite (mbind_ok _ _ _ _ _ (cstr_get _ _ _ _ _ _ Hm Hu)).
    assert (is_sep u = true) as ->.
    { pose proof (count_while_take is_sep m) as Ht. rewrite forallb_forall in Ht. apply Ht, list_elem_of_In.
      apply list_elem_of_lookup. exists i. by rewrite lookup_take_lt. }
    unfold mret. do 3 f_equal. lia.
  - destruct (Z.ltb_spec (Z.of_nat (count_while is_sep m)) (Z.of_nat (length m))) as [Hlt|]; [|done].
    destruct (cstr_lookup 2 w more m (count_while is_sep m) Hm ltac:(lia)) as (u & Hu & Hu' & _).
    rewrite (mbind_ok _ _ _ _ _ (cstr_get _ _ _ _ _ _ Hm Hu)). by rewrite (count_while_next _ _ _ Hu').
Qed.

(** The separator and the units of [m] that fit are written one by one. *)
Lemma append_units_run w path more (d m m' l : list Z) (ns : nat) :
  let a := path + 2 * Z.of_nat (length d) in
  let skip := (length m - length m')%nat in
  cstr 2 w more m -> m' = drop skip m -> (length m' <= length m)%nat ->
  writable w a (2 * Z.of_nat (length l)) ->
  apart more (2 * (Z.of_nat (length m) + 1)) a (2 * Z.of_nat (length l)) ->
  (ns <= length l)%nat -> drop ns l = take (259 - length d - ns) m' ->
  loop (fun '(j, pos) =>
    if j <? Z.of_nat (length m) then
      if 259 <=? pos then mret (inr pos)
      else
        let! c := uget 2 more j in
        uput 2 path pos c ;;;
        mret (inl (j + 1, pos + 1))
    else mret (inr pos)) (Z.of_nat skip, Z.of_nat (length d + ns)) (put 2 a (take ns l) w)
  = (Ok (Z.of_nat (length d + length l)) : outcome E _, put 2 a l w).
Proof.
  intros a skip Hm Hm' Hlen Hw Ha Hns Hl. pose proof (cstr_length 2 w more m ltac:(lia) Hm).
  assert (Hll : (length l - ns = Nat.min (259 - length d - ns) (length m'))%nat)
    by (rewrite <- length_take, <- Hl, length_drop; done).
  replace (put 2 a l w) with (put 2 a (take (ns + (length l - ns)) l) w) by (rewrite take_ge; [done|lia]).
  apply (loop_run (length l - ns) (fun i => (Z.of_nat (skip + i), Z.of_nat (length d + ns + i)))
           (fun i => put 2 a (take (ns + i) l) w)).
  - f_equal; lia.
  - by rewrite Nat.add_0_r.
  - lia.
  - intros i Hi. rewrite (proj2 (Z.ltb_lt _ _)), (proj2 (Z.leb_gt _ _)) by lia.
    destruct (lookup_lt_is_Some_2 l (ns + i) ltac:(lia)) as [u Hu].
    assert (Hu' : m !! (skip + i)%nat = Some u).
    { rewrite <- lookup_drop, <- Hm', <- (lookup_take_lt _ (259 - length d - ns)), <- Hl, lookup_drop by lia. done. }
    erewrite mbind_ok; [|eapply cstr_get; [eapply cstr_put_apart; [|exact Hm]|by apply lookup_app_l_Some]].
    2: { rewrite length_take. unfold apart in *. lia. }
    assert (Hp : uput (E := E) 2 path (Z.of_nat (length d + ns + i)) u (put 2 a (take (ns + i) l) w)
      = (Ok tt, put 2 a (take (S (ns + i)) l) w)).
    { rewrite <- (uput_next 2 a l (ns + i) u w Hu Hw). unfold uput. f_equal. unfold a. lia. }
    rewrite (mbind_ok _ _ _ _ _ Hp). unfold mret. rewrite Nat.add_succ_r. do 4 f_equal; lia.
  - destruct (Z.ltb_spec (Z.of_nat (skip + (length l - ns))) (Z.of_nat (length m))).
    + rewrite (proj2 (Z.leb_le _ _)) by lia. unfold mret. do 3 f_equal. lia.
    + unfold mret. do 3 f_equal. lia.
Qed.

(** Whether the path ends with a separator, as the code reads it. *)
Lemma end_sep_run w path d : cstr 2 w path d ->
  (if 0 <? Z.of_nat (length d) then
     let! c := uget 2 path (Z.of_nat (length d) - 1) in mret (is_sep c) else mret false) w
  = (Ok (ends_sep d) : outcome E _, w).
Proof.
  intros Hd. unfold ends_sep. destruct (list.last d) as [c|] eqn:L.
  - apply last_Some in L as [d' ->]. rewrite length_app. cbn [length].
    rewrite (proj2 (Z.ltb_lt _ _)) by lia.
    replace (Z.of_nat (length d' + 1) - 1) with (Z.of_nat (length d')) by lia.
    erewrite mbind_ok; [done|]. eapply cstr_get; [done|]. rewrite <- app_assoc. by apply list_lookup_middle.
  - apply last_None in L as ->. done.
Qed.

Lemma path_append_run w path more d m :
  cstr 2 w path d -> cstr 2 w more m -> (length d < 260)%nat ->
  writable w path 520 -> apart more (2 * (Z.of_nat (length m) + 1)) path 520 ->
  path_append_w (E := E) path more w
  = (Ok 1, if bool_decide (stripped d m = []) then w
           else put 2 (path + 2 * Z.of_nat (length d)) (added d m ++ [0]) w).
Proof.
  intros Hd Hm Hlen Hw Ha. unfold path_append_w. rewrite (nonnull _ _ _ _ Hd), (nonnull _ _ _ _ Hm). cbn [orb].
  rewrite (mbind_ok _ _ _ _ _ (wlen_cstr _ _ _ Hd)), (mbind_ok _ _ _ _ _ (wlen_cstr _ _ _ Hm)), length_zero.
  pose proof (cstr_length 2 w more m ltac:(lia) Hm).
  case_bool_decide as Hm0.
  { subst m. unfold stripped. rewrite drop_nil, if_same. done. }
  rewrite (mbind_ok _ _ _ _ _ (end_sep_run _ _ _ Hd)).
  (* the units skipped *)
  set (skip := (length m - length (stripped d m))%nat).
  pose proof (count_while_le is_sep m) as Hcw.
  assert (Hst : stripped d m = drop skip m /\ (length (stripped d m) <= length m)%nat /\
    (if 0 <? Z.of_nat (length d) then
       loop (fun skip =>
         if skip <? Z.of_nat (length m) then
           let! c := uget 2 more skip in mret (if is_sep c then inl (skip + 1) else inr skip)
         else mret (inr skip)) 0
     else mret 0) w = (Ok (Z.of_nat skip) : outcome E _, w)).
  { unfold skip, stripped. destruct d as [|x d]; simpl bool_decide; cbn match.
    - by rewrite Nat.sub_diag.
    - rewrite length_drop. replace (length m - (length m - count_while is_sep m))%nat with (count_while is_sep m) by lia.
      split_and!; [done|lia|]. apply (skip_run w more m Hm). }
  destruct Hst as (Hst & Hstl & Hsk). rewrite (mbind_ok _ _ _ _ _ Hsk).
  replace (Z.of_nat skip =? Z.of_nat (length m)) with (bool_decide (stripped d m = [])).
  2: { unfold skip. case_bool_decide as B; symmetry; [apply Z.eqb_eq; rewrite B; cbn [length]; lia|].
       apply Z.eqb_neq. destruct (stripped d m); [done|]. cbn [length] in *. lia. }
  case_bool_decide as B; [done|].
  set (a := path + 2 * Z.of_nat (length d)).
  set (ns := length (take (259 - length d) (joint d))).
  assert (Hjoint : (0 <? Z.of_nat (length d)) && negb (ends_sep d) = bool_decide (joint d <> [])).
  { unfold joint. destruct d as [|x d]; [done|]. cbn [length bool_decide orb]. by destruct (ends_sep _). }
  assert (Hj : joint d = [] \/ joint d = [92]) by (unfold joint; destruct (_ || _); auto).
  pose proof (added_length d m) as Hal.
  assert (Hnew : writable w a (2 * Z.of_nat (length (added d m ++ [0])))).
  { rewrite length_app. cbn [length]. eapply writable_sub; [exact Hw|unfold a; lia..]. }
  assert (Hsep : (if bool_decide (joint d <> []) && (Z.of_nat (length d) <? MAX_PATH - 1)
                  then uput 2 path (Z.of_nat (length d)) 92 ;;; mret (Z.of_nat (length d) + 1)
                  else mret (Z.of_nat (length d))) w
    = (Ok (Z.of_nat (length d + ns)) : outcome E _, put 2 a (take ns (added d m)) w)).
  { unfold MAX_PATH, ns, added. destruct Hj as [-> | ->]; cbn [bool_decide andb].
    - rewrite take_nil. cbn [length]. by rewrite Nat.add_0_r.
    - rewrite bool_decide_eq_true_2 by done. cbn [andb]. destruct (Z.ltb_spec (Z.of_nat (length d)) (260 - 1)).
      + destruct (259 - length d)%nat as [|N] eqn:HN; [lia|]. cbn [take app length].
        rewrite (mbind_ok _ _ w tt (put 2 a [92] w)).
        * rewrite take_nil, take_0. unfold mret. do 2 f_equal. cbn [length]. lia.
        * apply (uput_ok 2 path). intros x Hx. apply Hw. lia.
      + replace (259 - length d)%nat with O by lia. rewrite !take_0. cbn [length]. by rewrite Nat.add_0_r. }
  rewrite Hjoint, (mbind_ok _ _ _ _ _ Hsep).
  erewrite mbind_ok; [|apply (append_units_run w path more d m (stripped d m) (added d m) ns)].
  - assert (Hz : uput (E := E) 2 path (Z.of_nat (length d + length (added d m))) 0 (put 2 a (added d m) w)
      = (Ok tt, put 2 a (added d m ++ [0]) w)).
    { pose proof (uput_next (E := E) 2 a (added d m ++ [0]) (length (added d m)) 0 w (nul_lookup _) Hnew) as Hz.
      rewrite take_app_length in Hz. rewrite (take_ge (added d m ++ [0])) in Hz by (rewrite length_app; cbn [length]; lia).
      rewrite <- Hz. unfold uput. f_equal. unfold a. lia. }
    by rewrite (mbind_ok _ _ _ _ _ Hz).
  - exact Hm.
  - exact Hst.
  - exact Hstl.
  - rewrite length_app in Hnew. cbn [length] in Hnew. eapply writable_sub; [exact Hnew|lia..].
  - unfold apart, a in *. lia.
  - unfold ns, added. rewrite !length_take, length_app. lia.
  - unfold ns, added. destruct Hj as [-> | ->].
    + rewrite take_nil. cbn [length app drop]. by rewrite Nat.sub_0_r.
    + destruct (259 - length d)%nat as [|N]; [done|]. cbn [take app length]. rewrite take_nil. cbn [length drop].
      by replace (S N - 1)%nat with N by lia.
Qed.

(** The path that results, as a string in the buffer. *)
Lemma joined_cstr w path d m :
  cstr 2 w path d -> (length d < 260)%nat -> readable w path 520 -> path + 520 <= 2 ^ 64 ->
  Forall (unit_range 2) m -> Forall (fun u => u <> 0) m ->
  cstr 2 (if bool_decide (stripped d m = []) then w
          else put 2 (path + 2 * Z.of_nat (length d)) (added d m ++ [0]) w) path (path_join d m).
Proof.
  intros (H1 & H2 & H3 & H4) Hlen Hr Hb Hu Hnz. unfold path_join. case_bool_decide as B; [by split_and!|].
  assert (Hsub : forall P : Z -> Prop, P 92 -> Forall P m -> Forall P (added d m)).
  { intros P P92 Pm. unfold added. apply Forall_take, Forall_app. split.
    - unfold joint. destruct (_ || _); [constructor|by apply list.Forall_singleton].
    - unfold stripped. case_bool_decide; [done|by apply Forall_drop]. }
  pose proof (added_length d m) as Hal.
  apply holds_app in H4 as [H4 _].
  split_and!; [done|rewrite length_app; lia|by apply Forall_app; split; [|apply Hsub]|].
  rewrite <- app_assoc. apply holds_app. split.
  - eapply holds_put_apart; [|done]. left. lia.
  - apply holds_put.
    + apply Forall_app. split; [by apply Hsub; [unfold unit_range; lia|]|]. by apply list.Forall_singleton.
    + rewrite length_app. cbn [length]. eapply readable_sub; [exact Hr|lia..].
Qed.

(** ** Combining *)

Lemma copy_wide_run w dest src s :
  0 < dest -> cstr 2 w src s -> writable w dest 520 -> apart src (2 * (Z.of_nat (length s) + 1)) dest 520 ->
  copy_wide (E := E) dest src 260 w = (Ok tt, put 2 dest (take 259 s ++ [0]) w).
Proof.
  intros Hd Hs Hw Ha. unfold copy_wide. rewrite (proj2 (Z.eqb_neq dest 0)) by lia. rewrite (nonnull _ _ _ _ Hs).
  rewrite (mbind_ok _ _ _ _ _ (wlen_cstr _ _ _ Hs)). pose proof (cstr_length 2 w src s ltac:(lia) Hs).
  assert (Hl : Z.min (Z.of_nat (length s)) (sat_sub 260 1) = Z.of_nat (length (take 259 s)))
    by (rewrite length_take; unfold sat_sub; lia).
  rewrite Hl.
  assert (Hr : slice_from (E := E) 2 src (Z.of_nat (length (take 259 s))) w = (Ok (take 259 s), w)).
  { apply slice_from_holds; [rewrite length_take; lia|]. destruct Hs as (_ & _ & _ & Hh).
    rewrite <- (take_drop 259 s), <- app_assoc in Hh. by apply holds_app in Hh as [Hh _]. }
  rewrite (mbind_ok _ _ _ _ _ Hr). rewrite length_take in *.
  rewrite (mbind_ok _ _ w tt (put 2 dest (take 259 s) w))
    by (apply put_list_ok; rewrite length_take; eapply writable_sub; [exact Hw|lia..]).
  rewrite put_app, length_take. apply (uput_ok 2 dest). apply writable_put. intros x Hx. apply Hw. lia.
Qed.

(** A path that starts with a drive, a letter and a colon, or with two backslashes;
    and one whose second unit is a colon, but not after a letter. *)
Definition rooted (f : list Z) : bool :=
  match f with
  | f0 :: f1 :: _ => (((65 <=? f0) && (f0 <=? 90) || (97 <=? f0) && (f0 <=? 122)) && (f1 =? 58)) || ((f0 =? 92) && (f1 =? 92))
  | _ => false
  end.

Definition odd_drive (f : list Z) : bool :=
  match f with
  | f0 :: f1 :: _ => negb ((65 <=? f0) && (f0 <=? 90) || (97 <=? f0) && (f0 <=? 122)) && (f1 =? 58)
  | _ => false
  end.

(** What the code takes for absolute. *)
Definition absolute (f : list Z) : bool := rooted f || odd_drive f.

Lemma absolute_run w file f : cstr 2 w file f ->
  (let! f0 := uget 2 file 0 in
   if f0 =? 0 then mret false
   else let! f1 := uget 2 file 1 in mret ((f1 =? 58) || ((f0 =? 92) && (f1 =? 92)))) w
  = (Ok (absolute f) : outcome E _, w).
Proof.
  intros Hf.
  assert (Ha : absolute f = match f with f0 :: f1 :: _ => (f1 =? 58) || ((f0 =? 92) && (f1 =? 92)) | _ => false end).
  { unfold absolute, rooted, odd_drive. destruct f as [|f0 [|f1 f]]; [done..|].
    by destruct (_ || (97 <=? f0) && _), (f1 =? 58), (_ && (f1 =? 92)). }
  rewrite Ha. clear Ha. assert (G : forall i u, (f ++ [0]) !! Z.to_nat i = Some u -> 0 <= i -> uget (E := E) 2 file i w = (Ok u, w)).
  { intros i u Hu Hi. rewrite <- (Z2Nat.id i) at 1 by done. by eapply cstr_get. }
  pose proof (G 0) as G0. pose proof (G 1) as G1.
  pose proof Hf as (_ & _ & Hnz & _). destruct f as [|f0 [|f1 f]].
  - by rewrite (mbind_ok _ _ _ _ _ (G0 0 eq_refl ltac:(lia))).
  - apply Forall_cons_1 in Hnz as [Hnz _]. apply Z.eqb_neq in Hnz.
    rewrite (mbind_ok _ _ _ _ _ (G0 f0 eq_refl ltac:(lia))), Hnz.
    rewrite (mbind_ok _ _ _ _ _ (G1 0 eq_refl ltac:(lia))). by rewrite andb_false_r.
  - apply Forall_cons_1 in Hnz as [Hnz _]. apply Z.eqb_neq in Hnz.
    rewrite (mbind_ok _ _ _ _ _ (G0 f0 eq_refl ltac:(lia))), Hnz.
    by rewrite (mbind_ok _ _ _ _ _ (G1 f1 eq_refl ltac:(lia))).
Qed.

(** The string that [PathCombineW] leaves. *)
Definition combined (d f : list Z) : list Z :=
  if absolute f then take 259 f else path_join (take 259 d) f.

(** A buffer of 260 units that can be read and written, and a string apart from it. *)
Record path_buffer (w : W) (dest : Z) : Prop := {
  buffer_addr : 0 < dest /\ dest + 520 <= 2 ^ 64;
  buffer_readable : readable w dest 520;
  buffer_writable : writable w dest 520
}.

Definition string_apart (w : W) (p : Z) (s : list Z) (dest : Z) : Prop :=
  cstr 2 w p s /\ apart p (2 * (Z.of_nat (length s) + 1)) dest 520.

(** A call changed bytes of the buffer only. *)
Definition only_buffer (w w' : W) (dest : Z) : Prop :=
  forall x, prot_at w' x = prot_at w x /\ (in_range dest 520 x = false -> byte_at w' x = byte_at w x).

Lemma only_put w dest a l : dest <= a -> a + 2 * Z.of_nat (length l) <= dest + 520 -> only_buffer w (put 2 a l w) dest.
Proof.
  intros H1 H2 x. split; [apply prot_put|]. intros Hx. apply byte_put_out, in_range_false.
  apply in_range_false in Hx. lia.
Qed.

Lemma only_trans w1 w2 w3 dest : only_buffer w1 w2 dest -> only_buffer w2 w3 dest -> only_buffer w1 w3 dest.
Proof.
  intros H1 H2 x. destruct (H1 x) as [P1 B1], (H2 x) as [P2 B2]. split; [congruence|].
  intros Hx. by rewrite B2, B1.
Qed.

Lemma only_string w w' dest p s : only_buffer w w' dest -> string_apart w p s dest -> string_apart w' p s dest.
Proof.
  intros Hw [(H1 & H2 & H3 & H4) Ha]. split; [|done]. split_and!; [done..|].
  eapply holds_ext; [|exact H4]. intros x Hx. rewrite length_app in Hx. cbn [length] in Hx.
  destruct (Hw x) as [HP HB]. split; [|done]. apply HB, in_range_false. unfold apart in Ha. lia.
Qed.

Lemma only_path_buffer w w' dest : only_buffer w w' dest -> path_buffer w dest -> path_buffer w' dest.
Proof.
  intros Hw [H1 H2 H3]. split; [done| |]; intros x Hx; unfold may; rewrite (proj1 (Hw x)); [by apply H2|by apply H3].
Qed.

Lemma combine_run w dest dir file d f :
  path_buffer w dest -> string_apart w dir d dest -> string_apart w file f dest ->
  exists w', path_combine_w (E := E) dest dir file w = (Ok dest, w') /\
    cstr 2 w' dest (combined d f) /\ only_buffer w w' dest.
Proof.
  intros Hbuf Hdir Hfile. pose proof Hbuf as [Ha Hr Hw]. pose proof Hdir as [Hd Hda]. pose proof Hfile as [Hf Hfa].
  unfold path_combine_w, combined. rewrite (proj2 (Z.eqb_neq dest 0)), (nonnull _ _ _ _ Hf) by lia. cbn [negb].
  rewrite (mbind_ok _ _ _ _ _ (absolute_run _ _ _ Hf)).
  assert (Hcopy : forall p s, string_apart w p s dest -> let w' := put 2 dest (take 259 s ++ [0]) w in
    copy_wide (E := E) dest p MAX_PATH w = (Ok tt, w') /\ cstr 2 w' dest (take 259 s) /\ only_buffer w w' dest).
  { intros p s [Hs Hsa]. assert (Hl : (length (take 259 s) <= 259)%nat) by (rewrite length_take; lia). split_and!.
    - apply copy_wide_run; [lia|done..].
    - apply cstr_put; [lia|lia|apply Forall_take; apply Hs|apply Forall_take; by eapply cstr_units|].
      eapply readable_sub; [exact Hr|lia..].
    - apply only_put; [lia|]. rewrite length_app. cbn [length]. lia. }
  destruct (absolute f).
  - destruct (Hcopy file f Hfile) as (Hc & Hs & Ho). eexists. split_and!; [|exact Hs|exact Ho].
    by rewrite (mbind_ok _ _ _ _ _ Hc).
  - destruct (Hcopy dir d Hdir) as (Hc & Hs & Ho). set (w1 := put 2 dest _ w) in *.
    destruct (only_string _ _ _ _ _ Ho Hfile) as [Hf1 Hfa1].
    destruct (only_path_buffer _ _ _ Ho Hbuf) as [_ Hr1 Hw1].
    assert (Hl : (length (take 259 d) < 260)%nat) by (rewrite length_take; lia).
    pose proof (path_append_run w1 dest file (take 259 d) f Hs Hf1 Hl Hw1 Hfa1) as Happ.
    eexists. split_and!.
    + rewrite mbind_assoc, (mbind_ok _ _ _ _ _ Hc), mbind_assoc, (mbind_ok _ _ _ _ _ Happ). done.
    + apply joined_cstr; [done|done|done|lia|by eapply cstr_units|apply Hf].
    + eapply only_trans; [exact Ho|]. case_bool_decide; [intros x; done|]. apply only_put; [lia|].
      pose proof (added_length (take 259 d) f). rewrite length_app. cbn [length]. lia.
Qed.

(** ** The extension *)

(** The last index that satisfies [f]. *)
Fixpoint rindex (f : Z -> bool) (l : list Z) : option nat :=
  match l with
  | [] => None
  | x :: l => match rindex f l with Some i => Some (S i) | None => if f x then Some O else None end
  end.

Lemma rindex_snoc f l x : rindex f (l ++ [x]) = if f x then Some (length l) else rindex f l.
Proof.
  induction l as [|y l IH]; simpl; [done|]. rewrite IH. by destruct (f x), (rindex f l).
Qed.

Lemma rindex_none f l : Forall (fun c => f c = false) l -> rindex f l = None.
Proof. induction 1 as [|x l Hx _ IH]; simpl; [done|]. by rewrite IH, Hx. Qed.

Lemma rindex_app f l r : rindex f (l ++ r) =
  match rindex f r with Some i => Some (length l + i)%nat | None => rindex f l end.
Proof.
  induction l as [|x l IH]; simpl; [by destruct (rindex f r)|]. rewrite IH. by destruct (rindex f r), (rindex f l).
Qed.

Lemma rindex_lt f l i : rindex f l = Some i -> (i < length l)%nat.
Proof.
  revert i. induction l as [|x l IH]; simpl; [done|]. intros i.
  destruct (rindex f l) as [j|]; [intros [= <-]; specialize (IH j eq_refl); lia|].
  destruct (f x); [intros [= <-]; lia|done].
Qed.

(** [e] is empty and [b] has no dot, or [e] starts with the last dot of [b ++ e]. *)
Definition extension (b e : list Z) : Prop :=
  match e with
  | [] => Forall (fun c => (c =? 46) = false) b
  | x :: e => x = 46 /\ Forall (fun c => (c =? 46) = false) e
  end.

Lemma extension_run w p d b e :
  cstr 2 w p (d ++ b ++ e) -> d = [] \/ ends_sep d = true -> no_sep (b ++ e) -> extension b e ->
  path_find_extension_w (E := E) p w = (Ok (p + 2 * Z.of_nat (length (d ++ b))), w).
Proof.
  intros Hs Hd Hn He. unfold path_find_extension_w. rewrite (nonnull _ _ _ _ Hs).
  rewrite (mbind_ok _ _ _ _ _ (wlen_cstr _ _ _ Hs)). set (s := d ++ b ++ e) in *.
  pose proof (cstr_length 2 w p s ltac:(lia) Hs).
  erewrite mbind_ok.
  2: { apply (loop_run (length s) (fun i => (Z.of_nat i, Z.of_nat <$> rindex (fun c => c =? 46) (take i s),
                                            Z.of_nat <$> rindex is_sep (take i s))) (fun _ => w)); [done|done|done| |].
       - intros i Hi. cbn beta iota. rewrite (proj2 (Z.ltb_lt _ _)) by lia.
         destruct (cstr_lookup 2 w p s i Hs Hi) as (u & Hu & Hu' & _).
         rewrite (mbind_ok _ _ _ _ _ (cstr_get _ _ _ _ _ _ Hs Hu)).
         rewrite (take_S_r _ _ _ Hu'), !rindex_snoc, length_take, Nat.min_l by lia. unfold mret.
         replace (Z.of_nat (S i)) with (Z.of_nat i + 1) by lia. by destruct (u =? 46), (is_sep u).
       - cbn beta iota. rewrite Z.ltb_irrefl, take_ge by lia. done. }
  assert (Hsep : rindex is_sep s = rindex is_sep d)
    by (unfold s; rewrite rindex_app, (rindex_none _ _ Hn); done).
  rewrite Hsep. unfold mret, wptr. do 2 f_equal.
  destruct e as [|x e].
  - assert (Hdot : rindex (fun c => c =? 46) s = rindex (fun c => c =? 46) d).
    { unfold s. rewrite app_nil_r, rindex_app, (rindex_none _ b); done. }
    rewrite Hdot. destruct (rindex (fun c => c =? 46) d) as [i|] eqn:R; cbn [fmap option_fmap option_map];
      [|unfold s; by rewrite app_nil_r].
    destruct Hd as [->|Hd]; [done|].
    unfold ends_sep in Hd. destruct (list.last d) as [c|] eqn:L; [|done]. apply last_Some in L as [d' ->].
    rewrite rindex_snoc, Hd. cbn [fmap option_fmap option_map].
    rewrite rindex_snoc in R. destruct (Z.eqb_spec c 46) as [->|]; [done|]. apply rindex_lt in R.
    rewrite (proj2 (Z.ltb_lt _ _)) by lia. unfold s. by rewrite app_nil_r.
  - destruct He as [-> He].
    assert (Hdot : rindex (fun c => c =? 46) s = Some (length (d ++ b))).
    { unfold s. rewrite app_assoc, rindex_app. simpl. rewrite (rindex_none _ e) by done. simpl.
      by rewrite Nat.add_0_r. }
    rewrite Hdot. cbn [fmap option_fmap option_map].
    destruct (rindex is_sep d) as [i|] eqn:R; cbn [fmap option_fmap option_map]; [|done].
    apply rindex_lt in R. rewrite length_app. rewrite (proj2 (Z.ltb_ge _ _)) by lia. done.
Qed.
End Paths.

(** ** The properties *)
Section Properties.
Context `{HW : Host W} `{HL : !HostLaws W} {E : Type}.

(** The reference join of a directory and a file: leading slashes of the file go unless
    the directory is empty, one backslash comes between unless the directory is empty or
    ends with a slash, and at most 259 units are kept; a file of slashes adds nothing. *)
Definition slash (c : Z) : bool := (c =? 92) || (c =? 47).

Fixpoint drop_slashes (l : list Z) : list Z :=
  match l with c :: l' => if slash c then drop_slashes l' else l | [] => [] end.

Definition reference_join (d f : list Z) : list Z :=
  let rest := match d with [] => f | _ => drop_slashes f end in
  let sep := match list.last d with Some c => if slash c then [] else [92] | None => [] end in
  match rest with [] => d | _ => take 259 (d ++ sep ++ rest) end.

Lemma path_join_reference d f : (length d <= 259)%nat -> path_join d f = reference_join d f.
Proof.
  intros Hd. assert (Hf : drop (count_while is_sep f) f = drop_slashes f).
  { clear. induction f as [|c f IH]; [done|]. cbn [count_while drop_slashes]. change (slash c) with (is_sep c). by destruct (is_sep c). }
  assert (Hs : stripped d f = match d with [] => f | _ => drop_slashes f end).
  { unfold stripped. rewrite Hf. by destruct d; [rewrite bool_decide_eq_true_2|rewrite bool_decide_eq_false_2]. }
  assert (Hj : joint d = match list.last d with Some c => if slash c then [] else [92] | None => [] end).
  { unfold joint, ends_sep. destruct d as [|x d] using rev_ind; [done|]. rewrite bool_decide_eq_false_2, last_snoc by (by destruct d).
    done. }
  unfold path_join, added, reference_join. rewrite Hs, Hj. clear -Hd.
  set (rest := match d with [] => f | _ => drop_slashes f end). destruct rest; [by rewrite bool_decide_eq_true_2|].
  rewrite bool_decide_eq_false_2 by done. generalize (match list.last d with Some c => if slash c then [] else [92] | None => [] end ++ z :: rest).
  intros l. rewrite (take_app d l). f_equal. symmetry. by apply take_ge.
Qed.

(** C33. [PathCombineW] leaves in its buffer the file when it starts with a drive
    letter and a colon or with two backslashes, and otherwise the directory, one
    separator and the file without leading separators; never more than 259 units and
    the terminator. A file with a colon after a unit that is no letter also replaces
    the directory, where the documentation asks for a drive. No byte outside the buffer
    changes. The two strings lie apart from the buffer: the copy of the code is not
    defined for one on top of it. *)
Theorem path_combine_correct w dest dir file d f :
  path_buffer w dest -> string_apart w dir d dest -> string_apart w file f dest ->
  exists w' out, path_combine_w (E := E) dest dir file w = (Ok dest, w') /\
    cstr 2 w' dest out /\ (length out <= 259)%nat /\ only_buffer w w' dest /\
    (rooted f = true -> out = take 259 f) /\
    (rooted f = false -> odd_drive f = true -> out = take 259 f) /\
    (rooted f = false -> odd_drive f = false -> out = reference_join (take 259 d) f).
Proof.
  intros Hbuf Hd Hf. destruct (combine_run (E := E) w dest dir file d f Hbuf Hd Hf) as (w' & H1 & H2 & H3).
  exists w', (combined d f). split; [done|]. split; [done|]. split; [|split; [done|]].
  - unfold combined, path_join. pose proof (added_length (take 259 d) f).
    destruct (absolute f); [|case_bool_decide]; rewrite ?length_app, ?length_take in *; lia.
  - rewrite <- path_join_reference by (rewrite length_take; lia). unfold combined, absolute.
    split_and!; [by intros ->|by intros -> -> |by intros -> ->].
Qed.

Lemma joined_simple d f :
  d <> [] -> f <> [] -> no_sep f -> absolute f = false -> (length d + 1 + length f < 260)%nat ->
  combined d f = d ++ joint d ++ f.
Proof.
  intros Hd Hf Hn Ha Hlen. unfold combined. rewrite Ha, take_ge by lia.
  assert (Hs : stripped d f = f).
  { unfold stripped. rewrite bool_decide_eq_false_2 by done. destruct f as [|c f]; [done|].
    apply Forall_cons_1 in Hn as [Hc _]. simpl. by rewrite Hc. }
  unfold path_join, added. rewrite Hs, bool_decide_eq_false_2 by done. f_equal. apply take_ge.
  rewrite length_app. unfold joint. destruct (_ || _); simpl; lia.
Qed.

Lemma joint_ends d : d <> [] -> ends_sep (d ++ joint d) = true.
Proof.
  intros Hd. unfold joint. rewrite bool_decide_eq_false_2 by done. cbn [orb].
  destruct (ends_sep d) eqn:B; [by rewrite app_nil_r|]. unfold ends_sep. by rewrite last_snoc.
Qed.

(** The directory part that [PathRemoveFileSpecW] keeps. *)
Definition directory (d : list Z) : list Z := if ends_sep d then removelast d else d.

Lemma joint_split d : d <> [] -> exists c, is_sep c = true /\ d ++ joint d = directory d ++ [c].
Proof.
  intros Hd. unfold joint, directory. rewrite bool_decide_eq_false_2 by done. cbn [orb].
  destruct (ends_sep d) eqn:B; [|by exists 92]. unfold ends_sep in B.
  destruct (list.last d) as [c|] eqn:L; [|done]. apply last_Some in L as [d' ->].
  exists c. by rewrite removelast_last, app_nil_r.
Qed.

(** Taking a combined path apart gives its parts back: after [PathCombineW] of
    a directory and a file name, [PathFindFileNameW] points at the file name,
    [PathFindExtensionW] at its extension, and [PathRemoveFileSpecW] leaves the
    directory. *)
Theorem path_combine_split w dest dir file d b e :
  path_buffer w dest -> string_apart w dir d dest -> string_apart w file (b ++ e) dest ->
  d <> [] -> b ++ e <> [] -> no_sep (b ++ e) -> absolute (b ++ e) = false -> extension b e ->
  (length d + 1 + length (b ++ e) < 260)%nat ->
  exists w', path_combine_w (E := E) dest dir file w = (Ok dest, w') /\
    cstr 2 w' dest (d ++ joint d ++ b ++ e) /\
    (exists p, path_find_file_name_w (E := E) dest w' = (Ok p, w') /\ cstr 2 w' p (b ++ e)) /\
    (exists p, path_find_extension_w (E := E) dest w' = (Ok p, w') /\ cstr 2 w' p e) /\
    exists w'', path_remove_file_spec_w (E := E) dest w' = (Ok 1, w'') /\ cstr 2 w'' dest (directory d).
Proof.
  intros Hbuf Hd Hf Hdn Hfn Hn Ha He Hlen.
  destruct (combine_run (E := E) w dest dir file d (b ++ e) Hbuf Hd Hf) as (w' & H1 & H2 & H3).
  rewrite joined_simple in H2 by done. exists w'.
  pose proof H2 as H2'. rewrite app_assoc in H2'. split_and!; [done|done| | |].
  - eexists. split; [apply (file_name_run _ _ _ _ H2' Hn); right; by apply joint_ends|].
    by apply (cstr_tail 2).
  - eexists. split; [apply (extension_run _ _ _ b e H2'); [right; by apply joint_ends|done|done]|].
    rewrite app_assoc in H2'. by apply (cstr_tail 2).
  - destruct (joint_split d Hdn) as (c & Hc & Hj). rewrite Hj, <- app_assoc in H2'. simpl in H2'.
    destruct (only_path_buffer _ _ _ H3 Hbuf) as [_ _ Hw].
    eexists. split; [apply (remove_spec_run _ _ _ _ _ H2' Hc Hn)|by apply (cstr_cut 2 _ _ _ _ ltac:(lia) H2')].
    eapply writable_sub; [exact Hw|lia|]. apply (f_equal length) in Hj. rewrite !length_app in *. cbn [length] in *.
    assert (length (joint d) <= 1)%nat by (unfold joint; destruct (_ || _); simpl; lia). rewrite !length_app in *. lia.
Qed.

(** The substring searches find what they are asked for: [StrStrW] and its
    variants return the first position in the searched part of the haystack where
    the needle occurs (up to case, for the variants that ignore it), [StrRStrIW]
    the last one before its bound, and all return null exactly when there is
    none. *)
Theorem shell_search_correct w hay needle s t :
  cstr 2 w hay s -> cstr 2 w needle t ->
  (exists r, str_str_w (E := E) hay needle w = (Ok r, w) /\ found_first 2 id hay s t r) /\
  (exists r, str_str_iw (E := E) hay needle w = (Ok r, w) /\ found_first 2 to_lower16 hay s t r) /\
  (forall n, 0 <= n -> exists r, str_str_niw (E := E) hay needle n w = (Ok r, w) /\
     found_first 2 to_lower16 hay (take (Z.to_nat n) s) t r) /\
  (t <> [] -> exists r, str_rstr_iw (E := E) hay needle 0 w = (Ok r, w) /\ found_last 2 to_lower16 hay s t r) /\
  (t <> [] -> forall i, (i <= length s)%nat -> exists r,
     str_rstr_iw (E := E) hay needle (hay + 2 * Z.of_nat i) w = (Ok r, w) /\
     found_last 2 to_lower16 hay (take i s) t r).
Proof.
  intros Hs Ht. split_and!.
  - exact (str_str_first w hay needle s t None false Hs Ht I).
  - exact (str_str_first w hay needle s t None true Hs Ht I).
  - intros n Hn. unfold str_str_niw. rewrite (proj2 (Z.ltb_ge n 0)) by done.
    exact (str_str_first w hay needle s t (Some n) true Hs Ht Hn).
  - intros Hne. destruct (str_rstr_last (E := E) w hay needle s t 0 Hs Ht) as (r & h & H1 & -> & _ & H2).
    exists r. split; [done|]. specialize (H2 Hne). by rewrite Z.eqb_refl, take_ge in H2 by lia.
  - intros Hne i Hi. destruct (str_rstr_last (E := E) w hay needle s t (hay + 2 * Z.of_nat i) Hs Ht) as (r & h & H1 & Hh & _ & H2).
    exists r. split; [done|]. pose proof Hs as (Hpos & Hb & _). rewrite (proj2 (Z.eqb_neq _ _)) in Hh by lia.
    replace (hay + 2 * Z.of_nat i - hay) with (Z.of_nat i * 2) in Hh by lia. rewrite wrap_small, Z.div_mul in Hh by lia.
    replace h with i in H2 by lia. by apply H2.
Qed.
End Properties.

(** ** A concrete memory *)
Section Witnesses.
Local Open Scope string_scope.

(** A buffer at 4096, and three strings after it. *)
Definition demo : SmallHost.World :=
  put 2 4640 (units_of "C:\tools" ++ [0])
    (put 2 4672 (units_of "a.b.txt" ++ [0])
      (put 2 4704 (units_of "B." ++ [0])
        (snd (sys_mmap 0 1024 false SmallHost.empty)))).

Lemma path_combine_correct_witness :
  exists w', path_combine_w (E := Empty_set) 4096 4640 4672 demo = (Ok 4096, w') /\
    cstr 2 w' 4096 (units_of "C:\tools\a.b.txt") /\ only_buffer demo w' 4096.
Proof.
  destruct (path_combine_correct (E := Empty_set) demo 4096 4640 4672 (units_of "C:\tools") (units_of "a.b.txt"))
    as (w' & out & H1 & H2 & _ & H3 & _ & _ & H4).
  - split; [done|apply may_all_readable; vm_compute; reflexivity|apply may_all_writable; vm_compute; reflexivity].
  - split; [apply cstr_b_sound; vm_compute; reflexivity|right; vm_compute; discriminate].
  - split; [apply cstr_b_sound; vm_compute; reflexivity|right; vm_compute; discriminate].
  - exists w'. split; [exact H1|]. rewrite (H4 eq_refl eq_refl) in H2. split; [exact H2|exact H3].
Defined.

Lemma path_combine_split_witness :
  exists w', path_combine_w (E := Empty_set) 4096 4640 4672 demo = (Ok 4096, w') /\
    cstr 2 w' 4096 (units_of "C:\tools\a.b.txt") /\
    (exists p, path_find_file_name_w (E := Empty_set) 4096 w' = (Ok p, w') /\ cstr 2 w' p (units_of "a.b.txt")) /\
    (exists p, path_find_extension_w (E := Empty_set) 4096 w' = (Ok p, w') /\ cstr 2 w' p (units_of ".txt")) /\
    exists w'', path_remove_file_spec_w (E := Empty_set) 4096 w' = (Ok 1, w'') /\
      cstr 2 w'' 4096 (units_of "C:\tools").
Proof.
  apply (path_combine_split (E := Empty_set) demo 4096 4640 4672 (units_of "C:\tools") (units_of "a.b") (units_of ".txt")).
  - split; [done|apply may_all_readable; vm_compute; reflexivity|apply may_all_writable; vm_compute; reflexivity].
  - split; [apply cstr_b_sound; vm_compute; reflexivity|right; vm_compute; discriminate].
  - split; [apply cstr_b_sound; vm_compute; reflexivity|right; vm_compute; discriminate].
  - done.
  - done.
  - repeat constructor.
  - reflexivity.
  - split; [reflexivity|repeat constructor].
  - vm_compute. lia.
Defined.

Lemma shell_search_correct_witness :
  exists r, str_str_iw (E := Empty_set) 4672 4704 demo = (Ok r, demo) /\
    found_first 2 to_lower16 4672 (units_of "a.b.txt") (units_of "B.") r.
Proof.
  refine (proj1 (proj2 (shell_search_correct (E := Empty_set) demo 4672 4704 (units_of "a.b.txt") (units_of "B.") _ _)));
    apply cstr_b_sound; vm_compute; reflexivity.
Defined.

Example search_demo : str_str_iw (E := Empty_set) 4672 4704 demo = (Ok 4676, demo).
Proof. vm_compute. reflexivity. Qed.
End Witnesses.
