(* ===== verification/K32CString.v ===== *)
(** * The C runtime's strings ([crates/win32-kernel32/src/ucrt.rs], [crt.rs], [string.rs], [anticheat.rs])

    The string and memory functions that several libraries export: the universal
    and the old C runtime for narrow and wide strings, the [lstr] family of
    kernel32, and the character functions of user32. A [c_char] is read as the byte
    it stores. *)
From Stdlib Require Import ZArith Lia Ascii String.
From stdpp Require Import base list option.
From S2P Require Import Prelude PeHost GuestMem GuestStr K32Shlwapi.
Local Open Scope rust_scope.
Local Open Scope Z_scope.
Set Warnings "-register-all".

Definition b2z (b : bool) : Z := if b then 1 else 0.

Definition wchar_ascii_tolower (c : Z) : Z := if (65 <=? c) && (c <=? 90) then c + 32 else c.
Definition wchar_ascii_toupper (c : Z) : Z := if (97 <=? c) && (c <=? 122) then c - 32 else c.

Section Runtime.
Context `{HW : Host W} {E : Type}.
Local Abbreviation G := (M W E).

(** ** Blocks of memory *)

Definition memset (dst val n : Z) : G Z :=
  if (dst =? 0) || (n =? 0) then mret dst
  else store dst (replicate (Z.to_nat n) (wrap 8 val)) ;;; mret dst.

Definition memcpy (dst src n : Z) : G Z :=
  if (dst =? 0) || (src =? 0) || (n =? 0) then mret dst
  else let! bs := load src n in store dst bs ;;; mret dst.

Definition memmove (dst src n : Z) : G Z :=
  if (dst =? 0) || (src =? 0) || (n =? 0) then mret dst
  else let! bs := load src n in store dst bs ;;; mret dst.

Definition memcmp (a b n : Z) : G Z :=
  if (a =? 0) || (b =? 0) || (n =? 0) then mret 0
  else
    let! r := for_range n (fun i =>
      let! x := uget 1 a i in
      let! y := uget 1 b i in
      mret (if negb (x =? y) then Some (x - y) else None)) in
    mret (default 0 r).

(** ** Narrow strings *)

Definition strlen (s : Z) : G Z := if s =? 0 then mret 0 else scan 1 s.

Definition strcpy (dst src : Z) : G Z :=
  if (dst =? 0) || (src =? 0) then mret dst else copy_to_nul 1 dst 0 src ;;; mret dst.

Definition strncpy (dst src n : Z) : G Z :=
  if (dst =? 0) || (src =? 0) then mret dst
  else
    let! i := loop (fun i =>
      if i <? n then
        let! c := uget 1 src i in
        if c =? 0 then mret (inr i)
        else
          let! c := uget 1 src i in
          uput 1 dst i c ;;;
          mret (inl (i + 1))
      else mret (inr i)) 0 in
    loop (fun i => if i <? n then uput 1 dst i 0 ;;; mret (inl (i + 1)) else mret (inr tt)) i ;;;
    mret dst.

Definition strcmp (a b : Z) : G Z :=
  if (a =? 0) || (b =? 0) then mret (b2z (a =? 0) - b2z (b =? 0))
  else compare_loop 1 None (fun ca cb =>
    if negb (ca =? cb) then Some (ca - cb) else if ca =? 0 then Some 0 else None) a b.

(** [strncmp] of [crt.rs], which [ucrt.rs] calls. *)
Definition strncmp (a b n : Z) : G Z :=
  if (a =? 0) || (b =? 0) || (n =? 0) then mret 0
  else compare_loop 1 (Some n) (fun ca cb =>
    if negb (ca =? cb) then Some (ca - cb) else if ca =? 0 then Some 0 else None) a b.

Definition strchr (s c : Z) : G Z :=
  if s =? 0 then mret 0
  else
    let target := wrap 8 c in
    loop (fun i =>
      let! ch := uget 1 s i in
      mret (if ch =? target then inr (s + i) else if ch =? 0 then inr 0 else inl (i + 1))) 0.

(** The positions are tried while the needle fits. *)
Definition strstr (haystack needle : Z) : G Z :=
  if (haystack =? 0) || (needle =? 0) then mret 0
  else
    let! needle_len := scan 1 needle in
    if needle_len =? 0 then mret haystack
    else
      let! hay_len := strlen haystack in
      if hay_len <? needle_len then mret 0
      else
        let! r := search 1 id haystack needle needle_len (hay_len - needle_len + 1) id in
        mret (match r with Some i => haystack + i | None => 0 end).

(** ** Wide strings *)

Definition wcslen (s : Z) : G Z := if s =? 0 then mret 0 else scan 2 s.

Definition wcscpy (dst src : Z) : G Z :=
  if (dst =? 0) || (src =? 0) then mret dst else copy_to_nul 2 dst 0 src ;;; mret dst.

Definition wcscat (dst src : Z) : G Z :=
  if (dst =? 0) || (src =? 0) then mret dst
  else let! d := wcslen dst in copy_to_nul 2 dst d src ;;; mret dst.

Definition wcscmp (a b : Z) : G Z :=
  if (a =? 0) || (b =? 0) then mret (b2z (a =? 0) - b2z (b =? 0))
  else compare_loop 2 None (fun ca cb =>
    if negb (ca =? cb) then Some (ca - cb) else if ca =? 0 then Some 0 else None) a b.

Definition wcsncmp (a b n : Z) : G Z :=
  if (a =? 0) || (b =? 0) || (n =? 0) then mret 0
  else compare_loop 2 (Some n) (fun ca cb =>
    if negb (ca =? cb) then Some (ca - cb) else if ca =? 0 then Some 0 else None) a b.

Definition wcsicmp (a b : Z) : G Z :=
  if (a =? 0) || (b =? 0) then mret (b2z (a =? 0) - b2z (b =? 0))
  else compare_loop 2 None (fun ca cb =>
    let ca := wchar_ascii_tolower ca in
    let cb := wchar_ascii_tolower cb in
    if negb (ca =? cb) then Some (ca - cb) else if ca =? 0 then Some 0 else None) a b.

Definition wcsnicmp (a b n : Z) : G Z :=
  if (a =? 0) || (b =? 0) || (n =? 0) then mret 0
  else compare_loop 2 (Some n) (fun ca cb =>
    let ca := wchar_ascii_tolower ca in
    let cb := wchar_ascii_tolower cb in
    if negb (ca =? cb) then Some (ca - cb) else if ca =? 0 then Some 0 else None) a b.

Definition wcschr (s c : Z) : G Z :=
  if s =? 0 then mret 0
  else loop (fun i =>
    let! ch := uget 2 s i in
    mret (if ch =? c then inr (wptr s i) else if ch =? 0 then inr 0 else inl (i + 1))) 0.

Definition wcsrchr (s c : Z) : G Z :=
  if s =? 0 then mret 0
  else loop (fun '(i, found) =>
    let! ch := uget 2 s i in
    let found := if ch =? c then wptr s i else found in
    mret (if ch =? 0 then inr found else inl (i + 1, found))) (0, 0).

Definition wcsstr (haystack needle : Z) : G Z :=
  if (haystack =? 0) || (needle =? 0) then mret 0
  else
    let! needle_len := scan 2 needle in
    if needle_len =? 0 then mret haystack
    else
      let! hay_len := wcslen haystack in
      if hay_len <? needle_len then mret 0
      else
        let! r := search 2 id haystack needle needle_len (hay_len - needle_len + 1) id in
        mret (match r with Some i => wptr haystack i | None => 0 end).

(** [while *set.add(j) != 0 { if *set.add(j) == ch { hit } j += 1 }] *)
Definition in_set (set ch : Z) : G bool :=
  loop (fun j =>
    let! x := uget 2 set j in
    if x =? 0 then mret (inr false)
    else
      let! y := uget 2 set j in
      mret (if y =? ch then inr true else inl (j + 1))) 0.

Definition wcspbrk (s set : Z) : G Z :=
  if (s =? 0) || (set =? 0) then mret 0
  else loop (fun i =>
    let! ch := uget 2 s i in
    if ch =? 0 then mret (inr 0)
    else
      let! hit := in_set set ch in
      mret (if hit then inr (wptr s i) else inl (i + 1))) 0.

Definition wcscspn (s set : Z) : G Z :=
  if (s =? 0) || (set =? 0) then mret 0
  else loop (fun i =>
    let! ch := uget 2 s i in
    if ch =? 0 then mret (inr i)
    else
      let! hit := in_set set ch in
      mret (if hit then inr i else inl (i + 1))) 0.

Definition wcslwr (s : Z) : G Z :=
  if s =? 0 then mret s
  else
    loop (fun i =>
      let! c := uget 2 s i in
      if c =? 0 then mret (inr tt)
      else uput 2 s i (wchar_ascii_tolower c) ;;; mret (inl (i + 1))) 0 ;;;
    mret s.

Definition wcsupr (s : Z) : G Z :=
  if s =? 0 then mret s
  else
    loop (fun i =>
      let! c := uget 2 s i in
      if c =? 0 then mret (inr tt)
      else uput 2 s i (wchar_ascii_toupper c) ;;; mret (inl (i + 1))) 0 ;;;
    mret s.

Definition wcsrev (s : Z) : G Z :=
  if s =? 0 then mret s
  else
    let! len := wcslen s in
    if len <=? 1 then mret s
    else
      loop (fun '(i, j) =>
        if i <? j then
          let! tmp := uget 2 s i in
          let! u := uget 2 s j in
          uput 2 s i u ;;;
          uput 2 s j tmp ;;;
          mret (inl (i + 1, j - 1))
        else mret (inr tt)) (0, len - 1) ;;;
      mret s.

(** The literal formatter: [%%] becomes [%], the rest is copied. *)
Definition snprintf_literal (dst count fmt : Z) : G Z :=
  if (dst =? 0) || (count =? 0) || (fmt =? 0) then mret 0
  else
    let! len := scan 1 fmt in
    let! fmt_bytes := slice_from 1 fmt len in
    let cap := count - 1 in
    let! written := loop (fun '(i, written) =>
      match drop i fmt_bytes with
      | b :: r =>
          if written <? cap then
            if (b =? 37) && match r with b' :: _ => b' =? 37 | [] => false end
            then uput 1 dst written 37 ;;; mret (inl ((i + 2)%nat, written + 1))
            else uput 1 dst written b ;;; mret (inl ((i + 1)%nat, written + 1))
          else mret (inr written)
      | [] => mret (inr written)
      end) (O, 0) in
    uput 1 dst written 0 ;;;
    mret (to_signed 32 written).

(** ** kernel32 and user32 *)

Definition lstrlen_w (s : Z) : G Z :=
  if s =? 0 then mret 0 else let! len := scan 2 s in mret (to_signed 32 len).
Definition lstrlen_a (s : Z) : G Z :=
  if s =? 0 then mret 0 else let! len := scan 1 s in mret (to_signed 32 len).

Definition lstrcpy_w (dst src : Z) : G Z :=
  if (dst =? 0) || (src =? 0) then mret dst else copy_to_nul 2 dst 0 src ;;; mret dst.

Definition lstrcat_w (dst src : Z) : G Z :=
  if (dst =? 0) || (src =? 0) then mret dst
  else let! d := scan 2 dst in copy_to_nul 2 dst d src ;;; mret dst.

Definition lstrcmp_w (s1 s2 : Z) : G Z :=
  if (s1 =? 0) || (s2 =? 0) then mret 0
  else compare_loop 2 None (fun a b =>
    if (a =? 0) && (b =? 0) then Some 0
    else if negb (a =? b) then Some (if a <? b then -1 else 1)
    else None) s1 s2.

Definition lstrcmpi_w (s1 s2 : Z) : G Z :=
  if (s1 =? 0) || (s2 =? 0) then mret 0
  else compare_loop 2 None (fun a b =>
    if (a =? 0) && (b =? 0) then Some 0
    else
      let a := if (65 <=? a) && (a <=? 90) then a + 32 else a in
      let b := if (65 <=? b) && (b <=? 90) then b + 32 else b in
      if negb (a =? b) then Some (if a <? b then -1 else 1) else None) s1 s2.

Definition is_char_alpha_w (ch : Z) : Z :=
  if ((65 <=? ch) && (ch <=? 90)) || ((97 <=? ch) && (ch <=? 122)) then 1 else 0.

Definition char_upper_buff_w (buf len : Z) : G Z :=
  if buf =? 0 then mret 0
  else
    let! _ := for_range (A := unit) len (fun i =>
      let! c := uget 2 buf i in
      (if (97 <=? c) && (c <=? 122) then uput 2 buf i (c - 32) else mret tt) ;;;
      mret None) in
    mret len.

Definition char_next_ex_a (ptr : Z) : G Z :=
  if ptr =? 0 then mret ptr
  else let! c := uget 1 ptr 0 in mret (if c =? 0 then ptr else ptr + 1).
End Runtime.

(** ** Comparison *)

Definition order_of (x y : Z) : Z := if x <? y then -1 else if y <? x then 1 else 0.

Lemma order_of_signs : signs order_of.
Proof.
  split.
  - intros x y H. unfold order_of. by rewrite (proj2 (Z.ltb_lt x y)).
  - intros x y. unfold order_of. destruct (Z.ltb_spec x y), (Z.ltb_spec y x); lia.
Qed.

Lemma order_of_ne x y : x <> y -> order_of x y = if x <? y then -1 else 1.
Proof. intros H. unfold order_of. destruct (Z.ltb_spec x y), (Z.ltb_spec y x); lia. Qed.

Lemma id_folding : folding id.
Proof. by split. Qed.

Lemma lower_folding : folding to_lower16.
Proof. exact (fold_case_folding true). Qed.

Lemma lower_zero x : x <> 0 -> 0 <= x -> to_lower16 x <> 0.
Proof. intros H1 H2. pose proof (proj2 lower_folding x ltac:(lia)). lia. Qed.

Lemma compares_plain : compares id Z.sub (fun ca cb =>
  if negb (ca =? cb) then Some (ca - cb) else if ca =? 0 then Some 0 else None).
Proof. exact (shell_compares false). Qed.

Lemma compares_lower : compares to_lower16 Z.sub (fun ca cb =>
  let ca := wchar_ascii_tolower ca in
  let cb := wchar_ascii_tolower cb in
  if negb (ca =? cb) then Some (ca - cb) else if ca =? 0 then Some 0 else None).
Proof.
  assert (Hz : forall x, wchar_ascii_tolower x = 0 -> x = 0)
    by (intros x; unfold wchar_ascii_tolower; destruct (_ && _) eqn:B; lia).
  split.
  - done.
  - intros x y Hxy Heq. change (wchar_ascii_tolower x = wchar_ascii_tolower y) in Heq. cbv zeta.
    rewrite Heq, Z.eqb_refl. cbn [negb]. destruct (Z.eqb_spec (wchar_ascii_tolower y) 0) as [H0|]; [|done].
    rewrite H0 in Heq. apply Hz in H0, Heq. lia.
  - intros x y Hne. change (wchar_ascii_tolower x <> wchar_ascii_tolower y) in Hne.
    apply Z.eqb_neq in Hne. cbv zeta. by rewrite Hne.
Qed.

Lemma compares_lstr (fold : Z -> Z) : fold 0 = 0 -> compares fold order_of (fun a b =>
  if (a =? 0) && (b =? 0) then Some 0
  else if negb (fold a =? fold b) then Some (if fold a <? fold b then -1 else 1) else None).
Proof.
  intros F0. split.
  - done.
  - intros x y Hxy ->. rewrite Z.eqb_refl. destruct (Z.eqb_spec x 0), (Z.eqb_spec y 0); first [lia | done].
  - intros x y Hne. rewrite order_of_ne by done. destruct (Z.eqb_spec x 0) as [->|], (Z.eqb_spec y 0) as [->|]; [done|..];
      by apply Z.eqb_neq in Hne as ->.
Qed.

Section Correct.
Context `{HW : Host W} `{HL : !HostLaws W} {E : Type}.

Lemma orders_loop k lim f res g w p q s t :
  (0 < k)%nat -> cstr k w p s -> cstr k w q t -> folding f -> compares f res g -> signs res ->
  orders (E := E) (compare_loop k lim g p q) w (clip lim (map f s)) (clip lim (map f t)).
Proof. intros. eapply compare_orders; eauto using cstr_positive. Qed.

Lemma map_fold_id (l : list Z) : map id l = l.
Proof. apply map_id. Qed.

(** A limit of zero compares nothing. *)
Lemma orders_limit k f res g w p q s t n :
  (0 < k)%nat -> cstr k w p s -> cstr k w q t -> folding f -> compares f res g -> signs res ->
  orders (E := E) (if (p =? 0) || (q =? 0) || (n =? 0) then mret 0 else compare_loop k (Some n) g p q) w
    (take (Z.to_nat n) (map f s)) (take (Z.to_nat n) (map f t)).
Proof.
  intros Hk Hs Ht Hf Hg Hr. rewrite (nonnull _ _ _ _ Hs), (nonnull _ _ _ _ Ht). cbn [orb].
  destruct (Z.eqb_spec n 0) as [->|].
  - exists 0. split; [done|]. split_and!; split; try done; intros H; inversion H.
  - exact (orders_loop k (Some n) f res g w p q s t Hk Hs Ht Hf Hg Hr).
Qed.

(** C35. Ten wide comparisons agree: of the C runtime [wcscmp], [wcsncmp], [wcsicmp]
    and [wcsnicmp], of kernel32 [lstrcmpW] and [lstrcmpiW], of the shell library
    [StrCmpW], [StrCmpIW], [StrCmpNW] and [StrCmpNIW]. Their sign is the lexicographic
    order of the units, with A to Z read as a to z where case is ignored, and of the
    prefixes where a length is given. [CompareStringW] and [CompareStringOrdinal] are
    not of this order; they compare the decoded text ([K32Text.v]). *)
Theorem wide_comparisons_order w p q s t :
  cstr 2 w p s -> cstr 2 w q t ->
  let low := map (fun u => if (65 <=? u) && (u <=? 90) then u + 32 else u) in
  orders (E := E) (wcscmp p q) w s t /\ orders (E := E) (lstrcmp_w p q) w s t /\
  orders (E := E) (str_cmp_w p q) w s t /\
  orders (E := E) (wcsicmp p q) w (low s) (low t) /\ orders (E := E) (lstrcmpi_w p q) w (low s) (low t) /\
  orders (E := E) (str_cmp_i_w p q) w (low s) (low t) /\
  forall n, let pre := take (Z.to_nat n) in
    orders (E := E) (wcsncmp p q n) w (pre s) (pre t) /\ orders (E := E) (str_cmp_n_w p q n) w (pre s) (pre t) /\
    orders (E := E) (wcsnicmp p q n) w (pre (low s)) (pre (low t)) /\
    orders (E := E) (str_cmp_ni_w p q n) w (pre (low s)) (pre (low t)).
Proof.
  intros Hs Ht low. change low with (map to_lower16). clear low. pose proof (nonnull _ _ _ _ Hs) as Np. pose proof (nonnull _ _ _ _ Ht) as Nq.
  assert (Hshell : forall n ic, orders (E := E) (if n <=? 0 then mret 0 else cmp_wide p q (Some n) ic) w
    (take (Z.to_nat n) (map (fold_case ic) s)) (take (Z.to_nat n) (map (fold_case ic) t))).
  { intros n ic. destruct (Z.leb_spec n 0); [|exact (cmp_wide_orders w p q s t (Some n) ic Hs Ht)].
    replace (Z.to_nat n) with O by lia. exists 0. split; [done|]. split_and!; split; try done; intros H'; inversion H'. }
  split_and!.
  - unfold wcscmp. rewrite Np, Nq. rewrite <- (map_fold_id s), <- (map_fold_id t).
    apply (orders_loop 2 None id Z.sub); [lia|done|done|apply id_folding|apply compares_plain|apply diff_signs].
  - unfold lstrcmp_w. rewrite Np, Nq. rewrite <- (map_fold_id s), <- (map_fold_id t).
    apply (orders_loop 2 None id order_of); [lia|done|done|apply id_folding|by apply (compares_lstr id)|apply order_of_signs].
  - rewrite <- (map_fold_id s), <- (map_fold_id t). exact (cmp_wide_orders w p q s t None false Hs Ht).
  - unfold wcsicmp. rewrite Np, Nq.
    apply (orders_loop 2 None to_lower16 Z.sub); [lia|done|done|apply lower_folding|apply compares_lower|apply diff_signs].
  - unfold lstrcmpi_w. rewrite Np, Nq.
    apply (orders_loop 2 None to_lower16 order_of); [lia|done|done|apply lower_folding|by apply (compares_lstr to_lower16)|apply order_of_signs].
  - exact (cmp_wide_orders w p q s t None true Hs Ht).
  - intros n pre. unfold pre. split_and!.
    + rewrite <- (map_fold_id s), <- (map_fold_id t).
      apply (orders_limit 2 id Z.sub); [lia|done|done|apply id_folding|apply compares_plain|apply diff_signs].
    + rewrite <- (map_fold_id s), <- (map_fold_id t). exact (Hshell n false).
    + apply (orders_limit 2 to_lower16 Z.sub); [lia|done|done|apply lower_folding|apply compares_lower|apply diff_signs].
    + exact (Hshell n true).
Qed.

(** So do the narrow comparison functions. *)
Lemma narrow_comparisons_order w p q s t n :
  cstr 1 w p s -> cstr 1 w q t ->
  orders (E := E) (strcmp p q) w s t /\ orders (E := E) (str_cmp_i_c p q) w (map to_lower16 s) (map to_lower16 t) /\
  orders (E := E) (strncmp p q n) w (take (Z.to_nat n) s) (take (Z.to_nat n) t).
Proof.
  intros Hs Ht. split_and!.
  - unfold strcmp. rewrite (nonnull _ _ _ _ Hs), (nonnull _ _ _ _ Ht). rewrite <- (map_fold_id s), <- (map_fold_id t).
    apply (orders_loop 1 None id Z.sub); [lia|done|done|apply id_folding|apply compares_plain|apply diff_signs].
  - exact (cmp_cstr_orders w p q s t None true Hs Ht).
  - rewrite <- (map_fold_id s), <- (map_fold_id t).
    apply (orders_limit 1 id Z.sub); [lia|done|done|apply id_folding|apply compares_plain|apply diff_signs].
Qed.
End Correct.

(** ** Copies *)
Section Copies.
Context `{HW : Host W} `{HL : !HostLaws W} {E : Type}.

(** A unit that the stores so far have not reached. *)
Lemma uget_ahead k w p (L l : list Z) i u :
  holds k w p L -> L !! i = Some u -> (length l <= i)%nat ->
  uget (E := E) k p (Z.of_nat i) (put k p l w) = (Ok u, put k p l w).
Proof.
  intros Hh Hi Hle. pose proof (lookup_lt_Some _ _ _ Hi).
  rewrite <- (take_drop (length l) L) in Hh. apply holds_app in Hh as [_ Hh]. rewrite length_take, Nat.min_l in Hh by lia.
  apply (holds_put_apart k k _ _ p l) in Hh; [|unfold apart; lia].
  rewrite <- (uget_holds (E := E) _ _ _ _ (i - length l) u Hh) by (rewrite lookup_drop, <- Hi; f_equal; lia).
  unfold uget. f_equal. rewrite Nat2Z.inj_sub by lia. lia.
Qed.

(** [strncpy]: the source cut to [n] bytes, and zeros up to [n]. *)
Definition padded (n : nat) (s : list Z) : list Z := take n s ++ replicate (n - length s) 0.

Lemma padded_length n s : length (padded n s) = n.
Proof. unfold padded. rewrite length_app, length_take, length_replicate. lia. Qed.

Lemma strncpy_run w dst src s (n : nat) :
  0 < dst -> cstr 1 w src s -> Z.of_nat n < 2 ^ 64 -> writable w dst (Z.of_nat n) ->
  apart src (Z.of_nat (length s) + 1) dst (Z.of_nat n) ->
  strncpy (E := E) dst src (Z.of_nat n) w = (Ok dst, put 1 dst (padded n s) w).
Proof.
  intros Hd Hs Hn Hw Ha. unfold strncpy. rewrite (proj2 (Z.eqb_neq dst 0)), (nonnull _ _ _ _ Hs) by lia. cbn [orb].
  pose proof (padded_length n s) as Hl. set (l := padded n s) in *.
  assert (Hw' : writable w dst (Z.of_nat 1 * Z.of_nat (length l))) by (rewrite Hl; eapply writable_sub; [exact Hw|lia..]).
  set (m := Nat.min n (length s)).
  assert (Hsrc : forall i, (i <= n)%nat -> cstr 1 (put 1 dst (take i l) w) src s).
  { intros i Hi. eapply cstr_put_apart; [|done]. rewrite length_take. unfold apart in *. lia. }
  assert (Hfst : loop (fun i => if i <? Z.of_nat n then
      let! c := uget 1 src i in
      if c =? 0 then mret (inr i)
      else let! c := uget 1 src i in uput 1 dst i c ;;; mret (inl (i + 1))
    else mret (inr i)) 0 w = (Ok (Z.of_nat m) : outcome E _, put 1 dst (take m l) w)).
  { apply (loop_run m Z.of_nat (fun i => put 1 dst (take i l) w)); [done|done|lia| |].
    - intros i Hi. rewrite (proj2 (Z.ltb_lt _ _)) by lia.
      destruct (cstr_lookup _ _ _ _ i (Hsrc i ltac:(lia)) ltac:(lia)) as (u & Hu & Hu' & Hnz).
      rewrite (mbind_ok _ _ _ _ _ (cstr_get _ _ _ _ _ _ (Hsrc i ltac:(lia)) Hu)).
      apply Z.eqb_neq in Hnz. rewrite Hnz. rewrite (mbind_ok _ _ _ _ _ (cstr_get _ _ _ _ _ _ (Hsrc i ltac:(lia)) Hu)).
      rewrite (mbind_ok _ _ _ _ _ (uput_next 1 dst l i u w
        ltac:(unfold l, padded; apply lookup_app_l_Some; by rewrite lookup_take_lt by lia) Hw')).
      by replace (Z.of_nat (S i)) with (Z.of_nat i + 1) by lia.
    - destruct (Z.ltb_spec (Z.of_nat m) (Z.of_nat n)); [|done].
      replace m with (length s) by lia.
      by rewrite (mbind_ok _ _ _ _ _ (cstr_get _ _ _ _ _ _ (Hsrc (length s) ltac:(lia)) (nul_lookup s))). }
  rewrite (mbind_ok _ _ _ _ _ Hfst).
  rewrite (mbind_ok _ _ _ tt (put 1 dst l w)); [done|].
  replace (put 1 dst l w) with (put 1 dst (take (m + (n - m)) l) w) by (rewrite take_ge; [done|lia]).
  apply (loop_run (n - m) (fun i => Z.of_nat (m + i)) (fun i => put 1 dst (take (m + i) l) w)).
  - by rewrite Nat.add_0_r.
  - by rewrite Nat.add_0_r.
  - lia.
  - intros i Hi. rewrite (proj2 (Z.ltb_lt _ _)) by lia.
    rewrite (mbind_ok _ _ _ _ _ (uput_next 1 dst l (m + i) 0 w
      ltac:(unfold l, padded; rewrite lookup_app_r by (rewrite length_take; lia); apply lookup_replicate_2; rewrite length_take; lia) Hw')).
    rewrite Nat.add_succ_r. by replace (Z.of_nat (S (m + i))) with (Z.of_nat (m + i) + 1) by lia.
  - rewrite (proj2 (Z.ltb_ge _ _)) by lia. done.
Qed.

(** ** The literal formatter *)

Fixpoint collapse (l : list Z) : list Z :=
  match l with
  | [] => []
  | b :: r =>
      if b =? 37 then
        match r with
        | b' :: r' => if b' =? 37 then 37 :: collapse r' else b :: collapse r
        | [] => [b]
        end
      else b :: collapse r
  end.

(** The length of the piece that makes one unit of output, and where the format
    stands after [n] of them. *)
Definition chunk (l : list Z) : nat :=
  match l with b :: b' :: _ => if (b =? 37) && (b' =? 37) then 2 else 1 | _ => 1 end.

Fixpoint format_pos (l : list Z) (n : nat) : nat :=
  match n with O => O | S n => let i := format_pos l n in (i + chunk (drop i l))%nat end.

Lemma collapse_step b r :
  collapse (b :: r) =
  (if (b =? 37) && match r with b' :: _ => b' =? 37 | [] => false end then 37 else b)
  :: collapse (drop (chunk (b :: r)) (b :: r)).
Proof.
  destruct r as [|b' r]; simpl.
  - rewrite andb_false_r. by destruct (b =? 37).
  - destruct (b =? 37) eqn:B; cbn [andb]; [|done]. destruct (b' =? 37) eqn:B'; [done|]. simpl. by rewrite B'.
Qed.

Lemma collapse_pos l n : collapse (drop (format_pos l n) l) = drop n (collapse l).
Proof.
  induction n as [|n IH]; [by rewrite !drop_0|]. cbn [format_pos]. rewrite <- drop_drop.
  destruct (drop (format_pos l n) l) as [|b r] eqn:D.
  - rewrite drop_nil. symmetry. apply drop_ge. apply (f_equal length) in IH. rewrite length_drop in IH. simpl in *. lia.
  - rewrite collapse_step in IH. apply (f_equal tail) in IH. cbn [tail] in IH. rewrite IH.
    by rewrite <- Nat.add_1_r, <- drop_drop; destruct (drop n (collapse l)).
Qed.

(** What [snprintf] stores: the collapsed format cut to [count - 1] bytes, and a
    terminator. *)
Lemma snprintf_run w dst fmt s (count : nat) :
  let out := take (count - 1) (collapse s) in
  0 < dst -> cstr 1 w fmt s -> (0 < count)%nat -> Z.of_nat count < 2 ^ 31 -> writable w dst (Z.of_nat count) ->
  snprintf_literal (E := E) dst (Z.of_nat count) fmt w = (Ok (Z.of_nat (length out)), put 1 dst (out ++ [0]) w).
Proof.
  intros out Hd Hs Hc Hc31 Hw. unfold snprintf_literal.
  rewrite (proj2 (Z.eqb_neq dst 0)), (proj2 (Z.eqb_neq (Z.of_nat count) 0)), (nonnull _ _ _ _ Hs) by lia. cbn [orb].
  rewrite (mbind_ok _ _ _ _ _ (scan_cstr 1 w fmt s ltac:(lia) Hs)).
  assert (Hsl : slice_from (E := E) 1 fmt (Z.of_nat (length s)) w = (Ok s, w)).
  { apply slice_from_holds; [exact (cstr_length 1 w fmt s ltac:(lia) Hs)|].
    destruct Hs as (_ & _ & _ & Hh). by apply holds_app in Hh as [Hh _]. }
  rewrite (mbind_ok _ _ _ _ _ Hsl).
  assert (Hol : (length out <= count - 1)%nat) by (unfold out; rewrite length_take; lia).
  assert (Hw' : writable w dst (Z.of_nat 1 * Z.of_nat (length (out ++ [0])))).
  { rewrite length_app. cbn [length]. eapply writable_sub; [exact Hw|lia..]. }
  erewrite mbind_ok.
  2: { apply (loop_run (length out) (fun i => (format_pos s i, Z.of_nat i)) (fun i => put 1 dst (take i (out ++ [0])) w));
         [done|done|lia| |].
       - intros i Hi. cbn beta iota. destruct (lookup_lt_is_Some_2 out i Hi) as [u Hu].
         assert (Hcu : collapse s !! i = Some u) by (unfold out in Hu; rewrite lookup_take_lt in Hu by lia; done).
         pose proof (collapse_pos s i) as Hp. rewrite (drop_S _ _ _ Hcu) in Hp.
         assert (Hu' : (out ++ [0]) !! i = Some u) by (by apply lookup_app_l_Some).
         cbn [format_pos]. destruct (drop (format_pos s i) s) as [|b r]; [done|].
         rewrite collapse_step in Hp. injection Hp as Hb _. rewrite (proj2 (Z.ltb_lt _ _)) by lia.
         replace (Z.of_nat (S i)) with (Z.of_nat i + 1) by lia. unfold chunk.
         destruct (_ && _) eqn:B; subst u; rewrite (mbind_ok _ _ _ _ _ (uput_next 1 dst _ i _ w Hu' Hw')).
         + destruct r as [|b' r]; [by rewrite andb_false_r in B|]. by rewrite B.
         + destruct r as [|b' r]; [done|]. by rewrite B.
       - cbn beta iota. pose proof (collapse_pos s (length out)) as Hp.
         destruct (drop (format_pos s (length out)) s) as [|b r]; [done|]. rewrite (proj2 (Z.ltb_ge _ _)); [done|].
         rewrite collapse_step in Hp. apply (f_equal length) in Hp. rewrite length_drop in Hp. cbn [length] in Hp.
         unfold out in *. rewrite length_take in *. lia. }
  rewrite (mbind_ok _ _ _ tt (put 1 dst (out ++ [0]) w)).
  - unfold mret, to_signed. rewrite wrap_small by lia. rewrite (proj2 (Z.ltb_lt _ _)); [done|]. change (2 ^ (32 - 1)) with (2 ^ 31). lia.
  - rewrite (uput_next 1 dst (out ++ [0]) (length out) 0 w (nul_lookup out) Hw').
    by rewrite take_ge by (rewrite length_app; simpl; lia).
Qed.
End Copies.

(** ** In place *)
Section InPlace.
Context `{HW : Host W} `{HL : !HostLaws W} {E : Type}.

Lemma map_run w p s (f : Z -> Z) :
  cstr 2 w p s -> writable w p (2 * Z.of_nat (length s)) ->
  loop (fun i =>
    let! c := uget 2 p i in
    if c =? 0 then mret (inr tt)
    else uput 2 p i (f c) ;;; mret (inl (i + 1))) 0 w = (Ok tt : outcome E _, put 2 p (map f s) w).
Proof.
  intros Hs Hw. pose proof (cstr_length 2 w p s ltac:(lia) Hs). pose proof Hs as (_ & _ & _ & Hh).
  assert (Hw' : writable w p (Z.of_nat 2 * Z.of_nat (length (map f s)))) by (rewrite length_map; exact Hw).
  assert (Hget : forall i u, (i <= length s)%nat -> (s ++ [0]) !! i = Some u ->
    uget (E := E) 2 p (Z.of_nat i) (put 2 p (take i (map f s)) w) = (Ok u, put 2 p (take i (map f s)) w)).
  { intros i u Hi Hu. apply (uget_ahead 2 w p (s ++ [0])); [done..|]. rewrite length_take. lia. }
  replace (put 2 p (map f s) w) with (put 2 p (take (length s) (map f s)) w) by (rewrite take_ge; [done|rewrite length_map; lia]).
  apply (loop_run (length s) Z.of_nat (fun i => put 2 p (take i (map f s)) w)); [done|done|lia| |].
  - intros i Hi. destruct (cstr_lookup _ _ _ _ _ Hs Hi) as (u & Hu & Hu' & Hnz).
    rewrite (mbind_ok _ _ _ _ _ (Hget i u ltac:(lia) Hu)). apply Z.eqb_neq in Hnz. rewrite Hnz.
    rewrite (mbind_ok _ _ _ _ _ (uput_next 2 p (map f s) i (f u) w ltac:(rewrite list_lookup_fmap, Hu'; done) Hw')).
    by replace (Z.of_nat (S i)) with (Z.of_nat i + 1) by lia.
  - by rewrite (mbind_ok _ _ _ _ _ (Hget (length s) 0 ltac:(lia) (nul_lookup s))).
Qed.

(** One unit replaced. *)
Lemma holds_put_one k (w : W) a l i u :
  holds k w a l -> (i < length l)%nat -> unit_range k u ->
  holds k (put k (a + Z.of_nat k * Z.of_nat i) [u] w) a (<[i := u]> l).
Proof.
  intros Hh Hi Hu. rewrite insert_take_drop by done.
  rewrite <- (take_drop i l) in Hh. apply holds_app in Hh as [H1 H2].
  rewrite length_take, Nat.min_l in H2 by lia. destruct (drop i l) as [|x r] eqn:D.
  { apply (f_equal length) in D. rewrite length_drop in D. simpl in D. lia. }
  assert (Hr : drop (S i) l = r) by (rewrite <- Nat.add_1_r, <- drop_drop, D; done).
  rewrite Hr. change (x :: r) with ([x] ++ r) in H2. apply holds_app in H2 as [H2 H3].
  apply holds_app. split.
  - eapply holds_put_apart; [|done]. left. rewrite length_take. lia.
  - rewrite length_take, Nat.min_l by lia. change (u :: r) with ([u] ++ r). apply holds_app. split.
    + apply holds_put; [by apply list.Forall_singleton|]. apply H2.
    + eapply holds_put_apart; [|exact H3]. right. simpl length. lia.
Qed.

Lemma reverse_rev (l : list Z) : reverse l = rev l.
Proof. symmetry. apply rev_alt. Qed.

(** The units after [i] exchanges from both ends. *)
Definition swapped (s : list Z) (i : nat) : list Z :=
  imap (fun j u => if (j <? i)%nat || (length s - i <=? j)%nat then default u (rev s !! j) else u) s.

Lemma swapped_lookup s i j : (j < length s)%nat ->
  swapped s i !! j = if (j <? i)%nat || (length s - i <=? j)%nat then s !! (length s - 1 - j)%nat else s !! j.
Proof.
  intros Hj. unfold swapped. rewrite list_lookup_imap. destruct (lookup_lt_is_Some_2 s j Hj) as [u Hu]. rewrite Hu.
  cbn [fmap option_fmap option_map]. destruct (_ || _); [|done].
  rewrite <- reverse_rev, reverse_lookup by done. replace (length s - S j)%nat with (length s - 1 - j)%nat by lia.
  destruct (lookup_lt_is_Some_2 s (length s - 1 - j)%nat ltac:(lia)) as [v Hv]. by rewrite Hv.
Qed.

Lemma swapped_length s i : length (swapped s i) = length s.
Proof. apply length_imap. Qed.

Lemma swapped_step s i x y : (2 * i + 1 < length s)%nat ->
  s !! i = Some x -> s !! (length s - 1 - i)%nat = Some y ->
  swapped s i !! i = Some x /\ swapped s i !! (length s - 1 - i)%nat = Some y /\
  <[(length s - 1 - i)%nat := x]> (<[i := y]> (swapped s i)) = swapped s (S i).
Proof.
  intros Hi Hx Hy. split_and!.
  - rewrite swapped_lookup by lia. rewrite (proj2 (Nat.ltb_ge _ _)), (proj2 (Nat.leb_gt _ _)) by lia. done.
  - rewrite swapped_lookup by lia. rewrite (proj2 (Nat.ltb_ge _ _)), (proj2 (Nat.leb_gt _ _)) by lia. done.
  - apply list_eq. intros j. destruct (decide (j < length s)%nat) as [Hj|Hj].
    + rewrite (swapped_lookup s (S i) j Hj).
      destruct (decide (j = (length s - 1 - i)%nat)) as [->|Hne].
      * rewrite list_lookup_insert_eq by (rewrite length_insert, swapped_length; lia).
        rewrite (proj2 (Nat.leb_le _ _)), orb_true_r by lia. rewrite <- Hx. f_equal. lia.
      * rewrite list_lookup_insert_ne by lia. destruct (decide (j = i)) as [->|Hne'].
        -- rewrite list_lookup_insert_eq by (rewrite swapped_length; lia). rewrite (proj2 (Nat.ltb_lt _ _)) by lia. done.
        -- rewrite list_lookup_insert_ne, swapped_lookup by lia.
           replace (j <? S i)%nat with (j <? i)%nat by (apply eq_true_iff_eq; rewrite !Nat.ltb_lt; lia).
           by replace (length s - S i <=? j)%nat with (length s - i <=? j)%nat
             by (apply eq_true_iff_eq; rewrite !Nat.leb_le; lia).
    + rewrite !lookup_ge_None_2; [done|rewrite swapped_length; lia|rewrite !length_insert, swapped_length; lia].
Qed.

Lemma swapped_all s i : (length s <= 2 * i + 1)%nat -> swapped s i = rev s.
Proof.
  intros Hi. rewrite <- reverse_rev. apply list_eq. intros j. destruct (decide (j < length s)%nat) as [Hj|Hj].
  - rewrite swapped_lookup, reverse_lookup by done. replace (length s - S j)%nat with (length s - 1 - j)%nat by lia.
    destruct (Nat.ltb_spec j i), (Nat.leb_spec (length s - i) j); try done. simpl. f_equal. lia.
  - rewrite !lookup_ge_None_2; [done|rewrite length_reverse; lia|rewrite swapped_length; lia].
Qed.

Lemma swapped_none s : swapped s 0 = s.
Proof.
  apply list_eq. intros j. destruct (decide (j < length s)%nat) as [Hj|Hj].
  - rewrite swapped_lookup by done. rewrite Nat.sub_0_r. rewrite (proj2 (Nat.ltb_ge _ _)), (proj2 (Nat.leb_gt _ _)) by lia. done.
  - rewrite !lookup_ge_None_2; [done|lia|rewrite swapped_length; lia].
Qed.

(** The memory after [i] exchanges. *)
Fixpoint exchanged (w : W) (p : Z) (s : list Z) (i : nat) : W :=
  match i with
  | O => w
  | S i =>
      put 2 (p + 2 * Z.of_nat (length s - 1 - i)) [default 0 (s !! i)]
        (put 2 (p + 2 * Z.of_nat i) [default 0 (s !! (length s - 1 - i)%nat)] (exchanged w p s i))
  end.

Lemma exchanged_out w p s i x : (i <= length s)%nat ->
  prot_at (exchanged w p s i) x = prot_at w x /\
  (in_range p (2 * Z.of_nat (length s)) x = false -> byte_at (exchanged w p s i) x = byte_at w x).
Proof.
  intros Hi. induction i as [|i IH]; [done|]. destruct (IH ltac:(lia)) as [IH1 IH2]. cbn [exchanged]. split.
  - by rewrite !prot_put.
  - intros Hx. rewrite !byte_put_out; [by apply IH2|..]; apply in_range_false; apply in_range_false in Hx; cbn [length]; lia.
Qed.

Lemma exchanged_holds w p s i : Forall (unit_range 2) s -> holds 2 w p s -> (2 * i <= length s)%nat ->
  holds 2 (exchanged w p s i) p (swapped s i).
Proof.
  intros Hu Hh. induction i as [|i IH]; intros Hi; [by rewrite swapped_none|].
  destruct (lookup_lt_is_Some_2 s i ltac:(lia)) as [x Hx].
  destruct (lookup_lt_is_Some_2 s (length s - 1 - i)%nat ltac:(lia)) as [y Hy].
  destruct (swapped_step s i x y ltac:(lia) Hx Hy) as (_ & _ & <-). cbn [exchanged]. rewrite Hx, Hy. cbn [default].
  apply (holds_put_one 2); [|rewrite length_insert, swapped_length; lia|by apply (Forall_lookup_1 _ _ _ _ Hu Hx)].
  apply (holds_put_one 2); [apply IH; lia|rewrite swapped_length; lia|by apply (Forall_lookup_1 _ _ _ _ Hu Hy)].
Qed.

Lemma wcsrev_run w p s : cstr 2 w p s -> writable w p (2 * Z.of_nat (length s)) ->
  exists w', wcsrev (E := E) p w = (Ok p, w') /\ holds 2 w' p (rev s) /\
    forall x, prot_at w' x = prot_at w x /\ (in_range p (2 * Z.of_nat (length s)) x = false -> byte_at w' x = byte_at w x).
Proof.
  intros Hs Hw. pose proof (cstr_length 2 w p s ltac:(lia) Hs) as Hlen. pose proof (cstr_units 2 w p s Hs) as Hu.
  pose proof Hs as (_ & _ & _ & Hh). apply holds_app in Hh as [Hh _].
  set (n := (length s / 2)%nat). pose proof (Nat.div_mod (length s) 2 ltac:(lia)) as Hdm.
  pose proof (Nat.mod_upper_bound (length s) 2 ltac:(lia)). fold n in Hdm.
  exists (exchanged w p s n). split_and!.
  - unfold wcsrev, wcslen. rewrite (nonnull _ _ _ _ Hs). rewrite (mbind_ok _ _ _ _ _ (scan_cstr 2 w p s ltac:(lia) Hs)).
    destruct (Z.leb_spec (Z.of_nat (length s)) 1); [by replace n with O by lia|].
    rewrite (mbind_ok _ _ _ tt (exchanged w p s n)); [done|].
    apply (loop_run n (fun i => (Z.of_nat i, Z.of_nat (length s - 1 - i))) (exchanged w p s)); [f_equal; lia|done|lia| |].
    + intros i Hi. cbn beta iota. rewrite (proj2 (Z.ltb_lt _ _)) by lia.
      destruct (lookup_lt_is_Some_2 s i ltac:(lia)) as [x Hx].
      destruct (lookup_lt_is_Some_2 s (length s - 1 - i)%nat ltac:(lia)) as [y Hy].
      destruct (swapped_step s i x y ltac:(lia) Hx Hy) as (Hx' & Hy' & _).
      pose proof (exchanged_holds w p s i Hu Hh ltac:(lia)) as Hi'.
      rewrite (mbind_ok _ _ _ _ _ (uget_holds _ _ _ _ _ _ Hi' Hx')), (mbind_ok _ _ _ _ _ (uget_holds _ _ _ _ _ _ Hi' Hy')).
      assert (Hww : writable (exchanged w p s i) p (2 * Z.of_nat (length s))).
      { intros a Ha. unfold may. rewrite (proj1 (exchanged_out w p s i a ltac:(lia))). by apply Hw. }
      rewrite (mbind_ok _ _ _ _ _ (uput_ok 2 p (Z.of_nat i) y _ ltac:(eapply writable_sub; [exact Hww|lia..]))).
      rewrite (mbind_ok _ _ _ _ _ (uput_ok 2 p (Z.of_nat (length s - 1 - i)) x _
        ltac:(apply writable_put; eapply writable_sub; [exact Hww|lia..]))).
      cbn [exchanged]. rewrite Hx, Hy. unfold mret. cbn [default]. do 4 f_equal; lia.
    + cbn beta iota. rewrite (proj2 (Z.ltb_ge _ _)) by lia. done.
  - rewrite <- (swapped_all s n) by lia. apply exchanged_holds; [done..|lia].
  - intros x. apply exchanged_out. lia.
Qed.
End InPlace.

(** ** Scans for units *)

(** The index of the first, or the last, unit [c] of a string with its terminator. *)
Definition first_unit (k : nat) (p : Z) (s : list Z) (c r : Z) : Prop :=
  (exists i, r = p + Z.of_nat k * Z.of_nat i /\ (s ++ [0]) !! i = Some c /\
     forall j, (j < i)%nat -> (s ++ [0]) !! j <> Some c) \/
  r = 0 /\ c ∉ s ++ [0].

Definition last_unit (k : nat) (p : Z) (s : list Z) (c r : Z) : Prop :=
  (exists i, r = p + Z.of_nat k * Z.of_nat i /\ (s ++ [0]) !! i = Some c /\
     forall j, (i < j)%nat -> (s ++ [0]) !! j <> Some c) \/
  r = 0 /\ c ∉ s ++ [0].

Section Scans.
Context `{HW : Host W} `{HL : !HostLaws W} {E : Type}.

(** A loop over a string that leaves at the first unit that satisfies [stop], the
    terminator included. *)
Lemma scan_run {A} k w p s (stop : Z -> bool) (body : Z -> M W E (Z + A)) (r : Z -> Z -> A) :
  (0 < k)%nat -> cstr k w p s -> stop 0 = true ->
  (forall i u, (s ++ [0]) !! i = Some u ->
     body (Z.of_nat i) w = (Ok (if stop u then inr (r (Z.of_nat i) u) else inl (Z.of_nat i + 1)), w)) ->
  let n := count_while (fun u => negb (stop u)) s in
  loop body 0 w = (Ok (r (Z.of_nat n) (default 0 (s !! n))), w).
Proof.
  intros Hk Hs H0 Hb n. pose proof (cstr_length k w p s Hk Hs). pose proof (count_while_le (fun u => negb (stop u)) s).
  apply (loop_run n Z.of_nat (fun _ => w)); [done|done|lia| |].
  - intros i Hi. destruct (lookup_lt_is_Some_2 s i ltac:(lia)) as [u Hu].
    rewrite (Hb i u) by (by apply lookup_app_l_Some).
    pose proof (count_while_take (fun u => negb (stop u)) s) as Ht. rewrite forallb_forall in Ht.
    specialize (Ht u). destruct (stop u).
    + discriminate Ht. apply list_elem_of_In, list_elem_of_lookup. exists i. by rewrite lookup_take_lt.
    + by replace (Z.of_nat (S i)) with (Z.of_nat i + 1) by lia.
  - destruct (s !! n) as [u|] eqn:Hu; cbn [default].
    + rewrite (Hb n u) by (by apply lookup_app_l_Some). pose proof (count_while_next _ _ _ Hu) as Hst.
      apply negb_false_iff in Hst. by rewrite Hst.
    + apply lookup_ge_None in Hu. assert (n = length s) as Hn by lia.
      rewrite Hn at 1 2. rewrite (Hb (length s) 0 (nul_lookup s)), H0. by rewrite <- Hn.
Qed.

Lemma count_while_first (f : Z -> bool) (l : list Z) j u :
  (j < count_while f l)%nat -> l !! j = Some u -> f u = true.
Proof.
  intros Hj Hu. pose proof (count_while_take f l) as Ht. rewrite forallb_forall in Ht. apply Ht.
  apply list_elem_of_In, list_elem_of_lookup. exists j. by rewrite lookup_take_lt.
Qed.

(** A search for the unit [c], which also stops at the terminator. *)
Lemma find_unit k w p s c (g : Z -> M W E (Z + Z)) :
  (0 < k)%nat -> cstr k w p s ->
  (forall i, g i = (let! ch := uget k p i in
     mret (if ch =? c then inr (p + Z.of_nat k * i) else if ch =? 0 then inr 0 else inl (i + 1)))) ->
  exists r, loop g 0 w = (Ok r, w) /\ first_unit k p s c r.
Proof.
  intros Hk Hs Hg. set (stop u := (u =? c) || (u =? 0)). set (n := count_while (fun u => negb (stop u)) s).
  exists (if default 0 (s !! n) =? c then p + Z.of_nat k * Z.of_nat n else 0). split.
  - apply (scan_run k w p s stop g (fun i u => if u =? c then p + Z.of_nat k * i else 0)); [done|done| |].
    + unfold stop. by rewrite orb_true_r.
    + intros i u Hu. rewrite Hg, (mbind_ok _ _ _ _ _ (cstr_get _ _ _ _ _ _ Hs Hu)). unfold stop.
      by destruct (u =? c), (u =? 0).
  - assert (Hpre : forall j, (j < n)%nat -> (s ++ [0]) !! j <> Some c).
    { intros j Hj Hc. pose proof (count_while_le (fun u => negb (stop u)) s). fold n in H.
      rewrite lookup_app_l in Hc by lia. pose proof (count_while_first _ _ _ _ Hj Hc) as Hst.
      unfold stop in Hst. by rewrite Z.eqb_refl in Hst. }
    assert (Hn : (s ++ [0]) !! n = Some (default 0 (s !! n)) /\ ((default 0 (s !! n) = c \/ default 0 (s !! n) = 0))).
    { destruct (s !! n) as [u|] eqn:Hu; cbn [default].
      - split; [by apply lookup_app_l_Some|]. pose proof (count_while_next _ _ _ Hu) as Hst.
        unfold stop in Hst. apply negb_false_iff, orb_true_iff in Hst. by rewrite !Z.eqb_eq in Hst.
      - apply lookup_ge_None in Hu. pose proof (count_while_le (fun u => negb (stop u)) s). fold n in H.
        assert (n = length s) as -> by lia. split; [apply nul_lookup|by right]. }
    destruct Hn as [Hn Hor]. destruct (Z.eqb_spec (default 0 (s !! n)) c) as [Heq|Hne].
    + left. exists n. split_and!; [done|by rewrite Hn, Heq|done].
    + right. split; [done|]. destruct Hor as [|H0]; [done|]. rewrite H0 in *.
      assert (Hnl : n = length s).
      { destruct (decide (n < length s)%nat) as [Hlt|]; [|pose proof (count_while_le (fun u => negb (stop u)) s); unfold n in *; lia].
        rewrite lookup_app_l in Hn by done. destruct Hs as (_ & _ & Hnz & _).
        by pose proof (Forall_lookup_1 _ _ _ _ Hnz Hn). }
      intros Hin. apply elem_of_app in Hin as [Hin|Hin].
      * apply list_elem_of_lookup in Hin as [j Hj]. pose proof (lookup_lt_Some _ _ _ Hj).
        apply (Hpre j ltac:(lia)). by apply lookup_app_l_Some.
      * apply list_elem_of_singleton in Hin. lia.
Qed.

(** The last index satisfying a test, in a list that grows at its end. *)
Lemma wcsrchr_run w p s c : cstr 2 w p s ->
  exists r, wcsrchr (E := E) p c w = (Ok r, w) /\ last_unit 2 p s c r.
Proof.
  intros Hs. set (found i := match rindex (fun u => u =? c) (take i (s ++ [0])) with Some j => wptr p (Z.of_nat j) | None => 0 end).
  exists (found (S (length s))). split.
  - unfold wcsrchr. rewrite (nonnull _ _ _ _ Hs). pose proof (cstr_length 2 w p s ltac:(lia) Hs).
    assert (Hf : forall i u, (s ++ [0]) !! i = Some u -> found (S i) = if u =? c then wptr p (Z.of_nat i) else found i).
    { intros i u Hu. unfold found. pose proof (lookup_lt_Some _ _ _ Hu).
      rewrite (take_S_r _ _ _ Hu), rindex_snoc, length_take, Nat.min_l by lia. by destruct (u =? c). }
    apply (loop_run (length s) (fun i => (Z.of_nat i, found i)) (fun _ => w)); [done|done|done| |].
    + intros i Hi. cbn beta iota. destruct (cstr_lookup _ _ _ _ _ Hs Hi) as (u & Hu & _ & Hnz).
      rewrite (mbind_ok _ _ _ _ _ (cstr_get _ _ _ _ _ _ Hs Hu)), <- (Hf i u Hu). apply Z.eqb_neq in Hnz. rewrite Hnz.
      by replace (Z.of_nat (S i)) with (Z.of_nat i + 1) by lia.
    + cbn beta iota. rewrite (mbind_ok _ _ _ _ _ (cstr_get _ _ _ _ _ _ Hs (nul_lookup s))), <- (Hf _ _ (nul_lookup s)). done.
  - unfold found. rewrite take_ge by (rewrite length_app; simpl; lia).
    assert (Hr : forall l, match rindex (fun u => u =? c) l with
      | Some i => l !! i = Some c /\ forall j, (i < j)%nat -> l !! j <> Some c
      | None => forall j, l !! j <> Some c end).
    { induction l as [|x l IH]; simpl; [done|]. destruct (rindex _ l) as [i|].
      - destruct IH as [H1 H2]. split; [done|]. intros [|j] Hj; [lia|]. apply H2. lia.
      - destruct (Z.eqb_spec x c) as [->|Hne].
        + split; [done|]. intros [|j] Hj; [lia|]. apply IH.
        + intros [|j]; simpl; [congruence|apply IH]. }
    specialize (Hr (s ++ [0])). destruct (rindex _ _) as [i|].
    + left. exists i. by split_and!; [|apply Hr..].
    + right. split; [done|]. intros Hin. apply list_elem_of_lookup in Hin as [j Hj]. by apply (Hr j).
Qed.

Lemma in_set_run w set t ch : cstr 2 w set t -> ch <> 0 -> in_set (E := E) set ch w = (Ok (bool_decide (ch ∈ t)), w).
Proof.
  intros Ht Hch. unfold in_set. set (stop u := (u =? 0) || (u =? ch)).
  pose proof (scan_run 2 w set t stop (fun j =>
    let! x := uget 2 set j in
    if x =? 0 then mret (inr false)
    else let! y := uget 2 set j in mret (if y =? ch then inr true else inl (j + 1)))%rust (fun _ u => u =? ch)) as Hr.
  cbv zeta in Hr. rewrite Hr; [|lia|done|done|].
  2: { intros i u Hu. pose proof (cstr_get (E := E) _ _ _ _ _ _ Ht Hu) as Hg. rewrite (mbind_ok _ _ _ _ _ Hg).
       unfold stop. destruct (Z.eqb_spec u 0) as [->|]; cbn [orb]; [by rewrite (proj2 (Z.eqb_neq 0 ch)) by lia|].
       rewrite (mbind_ok _ _ _ _ _ Hg). by destruct (u =? ch). }
  do 2 f_equal. set (n := count_while (fun u => negb (stop u)) t). destruct (t !! n) as [u|] eqn:Hu; cbn [default].
  - pose proof (count_while_next _ _ _ Hu) as Hst. unfold stop in Hst.
    apply negb_false_iff, orb_true_iff in Hst. rewrite !Z.eqb_eq in Hst.
    destruct Ht as (_ & _ & Hnz & _). pose proof (Forall_lookup_1 _ _ _ _ Hnz Hu) as Hu0. simpl in Hu0.
    assert (u = ch) as -> by lia. rewrite Z.eqb_refl. symmetry. apply bool_decide_eq_true_2.
    by apply list_elem_of_lookup_2 in Hu.
  - rewrite (proj2 (Z.eqb_neq 0 ch)) by lia. symmetry. apply bool_decide_eq_false_2. intros Hin.
    apply list_elem_of_lookup in Hin as [j Hj]. apply lookup_ge_None in Hu. pose proof (lookup_lt_Some _ _ _ Hj).
    pose proof (count_while_first (fun u => negb (stop u)) t j ch ltac:(unfold n in Hu; lia) Hj) as Hst. unfold stop in Hst.
    rewrite Z.eqb_refl, orb_true_r in Hst. done.
Qed.

(** The length of the prefix without units of [t]. *)
Definition span (s t : list Z) : nat := count_while (fun u => negb (bool_decide (u ∈ t))) s.

Lemma span_run {A} w p set s t (body : Z -> M W E (Z + A)) (r0 r1 : Z -> A) :
  cstr 2 w p s -> cstr 2 w set t ->
  (forall i, body i = (let! ch := uget 2 p i in
     if ch =? 0 then mret (inr (r0 i))
     else let! hit := in_set set ch in mret (if hit then inr (r1 i) else inl (i + 1)))) ->
  let n := span s t in
  loop body 0 w = (Ok (if bool_decide (n = length s) then r0 (Z.of_nat n) else r1 (Z.of_nat n)), w).
Proof.
  intros Hs Ht Hb n. set (stop u := (u =? 0) || bool_decide (u ∈ t)). pose proof Hs as (_ & _ & Hnz & _).
  assert (Hsp : n = count_while (fun u => negb (stop u)) s).
  { unfold n, span, stop. clear Hs. induction Hnz as [|x l Hx Hnz IH]; simpl; [done|].
    apply Z.eqb_neq in Hx. rewrite Hx, IH. done. }
  assert (Hz : (default 0 (s !! n) =? 0) = bool_decide (n = length s)).
  { destruct (s !! n) as [u|] eqn:Hu; cbn [default].
    - pose proof (lookup_lt_Some _ _ _ Hu). pose proof (Forall_lookup_1 _ _ _ _ Hnz Hu) as Hu0.
      apply Z.eqb_neq in Hu0. cbn. unfold id. rewrite Hu0, bool_decide_eq_false_2; [done|lia].
    - apply lookup_ge_None in Hu. pose proof (count_while_le (fun u => negb (stop u)) s).
      rewrite bool_decide_eq_true_2; [done|lia]. }
  rewrite <- Hz. rewrite Hsp. apply (scan_run 2 w p s stop body (fun i u => if u =? 0 then r0 i else r1 i)); [lia|done|done|].
  intros i u Hu. rewrite Hb, (mbind_ok _ _ _ _ _ (cstr_get _ _ _ _ _ _ Hs Hu)). unfold stop.
  destruct (Z.eqb_spec u 0) as [->|Hne]; [done|]. rewrite (mbind_ok _ _ _ _ _ (in_set_run w set t u Ht Hne)).
  apply Z.eqb_neq in Hne. cbn [orb]. by destruct (bool_decide (u ∈ t)).
Qed.

(** The substring search of the C runtime. *)
Lemma strstr_run k f w p q s t : (0 < k)%nat -> cstr k w p s -> cstr k w q t ->
  exists r, (let! needle_len := scan k q in
    if needle_len =? 0 then mret p
    else
      let! hay_len := scan k p in
      if hay_len <? needle_len then mret 0
      else
        let! r := search k f p q needle_len (hay_len - needle_len + 1) id in
        mret (match r with Some i => p + Z.of_nat k * i | None => 0 end)) w = (Ok r : outcome E _, w) /\
    found_first k f p s t r.
Proof.
  intros Hk Hs Ht. rewrite (mbind_ok _ _ _ _ _ (scan_cstr _ _ _ _ Hk Ht)), length_zero. case_bool_decide as Hne.
  { exists p. split; [done|]. left. exists O. subst t. split_and!; [lia|done|lia]. }
  rewrite (mbind_ok _ _ _ _ _ (scan_cstr _ _ _ _ Hk Hs)).
  destruct (Z.ltb_spec (Z.of_nat (length s)) (Z.of_nat (length t))).
  - exists 0. split; [done|]. right. split; [done|]. intros i Hi. apply occurs_bound in Hi; [lia|done].
  - destruct (search_first (E := E) k f p q s t (length s) w) as (o & Ho & Hf); [done..|lia|].
    rewrite take_ge in Hf by lia. eexists. split; [|exact Hf]. rewrite (mbind_ok _ _ _ _ _ Ho). by destruct o.
Qed.
End Scans.

(** ** The properties *)
Section Properties.
Context `{HW : Host W} `{HL : !HostLaws W} {E : Type}.

(** The copying functions store exactly what they promise: [wcscpy] and
    [lstrcpyW] the string with its terminator, [wcscat] and [lstrcatW] the same
    after the string in the destination, [strncpy] the string cut or padded with
    zeros to the count, and [snprintf] the format with its doubled percent signs
    collapsed, cut to the buffer. Nothing else in memory changes. *)
Theorem string_copies_correct w dst src s :
  0 < dst -> cstr 2 w src s ->
  (forall n, n = 2 * (Z.of_nat (length s) + 1) -> dst + n <= 2 ^ 64 -> readable w dst n -> writable w dst n ->
     apart src n dst n ->
     let w' := put 2 dst (s ++ [0]) w in
     wcscpy (E := E) dst src w = (Ok dst, w') /\ lstrcpy_w (E := E) dst src w = (Ok dst, w') /\ cstr 2 w' dst s) /\
  (forall d n, cstr 2 w dst d -> n = 2 * (Z.of_nat (length d) + Z.of_nat (length s) + 1) -> dst + n <= 2 ^ 64 ->
     readable w dst n -> writable w dst n -> apart src (2 * (Z.of_nat (length s) + 1)) dst n ->
     let w' := put 2 (dst + 2 * Z.of_nat (length d)) (s ++ [0]) w in
     wcscat (E := E) dst src w = (Ok dst, w') /\ lstrcat_w (E := E) dst src w = (Ok dst, w') /\ cstr 2 w' dst (d ++ s)) /\
  (forall t (n : nat), cstr 1 w src t -> Z.of_nat n < 2 ^ 31 -> writable w dst (Z.of_nat n) ->
     apart src (Z.of_nat (length t) + 1) dst (Z.of_nat n) ->
     strncpy (E := E) dst src (Z.of_nat n) w = (Ok dst, put 1 dst (padded n t) w) /\
     (n <> O -> let out := take (n - 1) (collapse t) in
        snprintf_literal (E := E) dst (Z.of_nat n) src w = (Ok (Z.of_nat (length out)), put 1 dst (out ++ [0]) w))).
Proof.
  intros Hd Hs. pose proof (cstr_units 2 w src s Hs) as Hu. pose proof Hs as (_ & _ & Hnz & _). split_and!.
  - intros n -> Hb Hr Hw Ha w'.
    assert (Hc : copy_to_nul (E := E) 2 dst 0 src w = (Ok tt, w')).
    { unfold w'. rewrite <- (Z.add_0_r dst) at 2. apply (copy_to_nul_ok 2 dst 0 src s w); [lia|done|..];
        replace (dst + Z.of_nat 2 * 0) with dst by lia; done. }
    unfold wcscpy, lstrcpy_w. rewrite (proj2 (Z.eqb_neq dst 0)), (nonnull _ _ _ _ Hs) by lia. cbn [orb].
    rewrite (mbind_ok _ _ _ _ _ Hc). split_and!; [done..|]. by apply cstr_put.
  - intros d n Hds -> Hb Hr Hw Ha w'.
    assert (Hc : copy_to_nul (E := E) 2 dst (Z.of_nat (length d)) src w = (Ok tt, w')).
    { apply (copy_to_nul_ok 2 dst _ src s w); [lia|done|eapply writable_sub; [exact Hw|lia..]|unfold apart in *; lia]. }
    unfold wcscat, lstrcat_w, wcslen. rewrite (nonnull _ _ _ _ Hds), (nonnull _ _ _ _ Hs). cbn [orb].
    rewrite !(mbind_ok _ _ _ _ _ (scan_cstr 2 w dst d ltac:(lia) Hds)), (mbind_ok _ _ _ _ _ Hc).
    split_and!; [done..|]. pose proof Hds as (H1 & H2 & H3 & H4). apply holds_app in H4 as [H4 _].
    split_and!; [done|rewrite length_app; lia|by apply Forall_app|]. rewrite <- app_assoc. apply holds_app. split.
    + eapply holds_put_apart; [|done]. left. lia.
    + apply holds_put; [apply Forall_app; split; [done|by apply list.Forall_singleton]|].
      rewrite length_app. cbn [length]. eapply readable_sub; [exact Hr|lia..].
  - intros t n Ht Hn Hw Ha. split; [apply strncpy_run; try done; lia|].
    intros Hn0 out. apply snprintf_run; [done|done|lia|done|done].
Qed.

(** The functions that edit a string in place, [_wcslwr], [_wcsupr] and
    [_wcsrev], leave the lower-case, the upper-case and the reversed string, with
    its length and terminator, and change no byte outside its units. *)
Theorem string_edits_correct w p s :
  cstr 2 w p s -> writable w p (2 * Z.of_nat (length s)) ->
  let edits (m : M W E Z) (l : list Z) := exists w', m w = (Ok p, w') /\ holds 2 w' p l /\
    forall x, prot_at w' x = prot_at w x /\ (in_range p (2 * Z.of_nat (length s)) x = false -> byte_at w' x = byte_at w x) in
  edits (wcslwr p) (map wchar_ascii_tolower s) /\ edits (wcsupr p) (map wchar_ascii_toupper s) /\ edits (wcsrev p) (rev s).
Proof.
  intros Hs Hw edits. pose proof (cstr_units 2 w p s Hs) as Hu.
  assert (Hmap : forall f, (forall u, unit_range 2 u -> unit_range 2 (f u)) ->
    holds 2 (put 2 p (map f s) w) p (map f s) /\
    forall x, prot_at (put 2 p (map f s) w) x = prot_at w x /\
      (in_range p (2 * Z.of_nat (length s)) x = false -> byte_at (put 2 p (map f s) w) x = byte_at w x)).
  { intros f Hf. split.
    - apply holds_put; [apply Forall_map; eapply Forall_impl; [|exact Hu]; auto|].
      destruct Hs as (_ & _ & _ & Hr & _). rewrite length_app in Hr. rewrite length_map.
      eapply readable_sub; [exact Hr|lia|cbn [length]; lia].
    - intros x. split; [apply prot_put|]. intros Hx. apply byte_put_out. by rewrite length_map. }
  split_and!.
  - exists (put 2 p (map wchar_ascii_tolower s) w). split.
    + unfold wcslwr. rewrite (nonnull _ _ _ _ Hs). by rewrite (mbind_ok _ _ _ _ _ (map_run w p s wchar_ascii_tolower Hs Hw)).
    + apply Hmap. unfold unit_range, wchar_ascii_tolower. intros u. change (2 ^ _) with 65536. destruct (_ && _) eqn:B; lia.
  - exists (put 2 p (map wchar_ascii_toupper s) w). split.
    + unfold wcsupr. rewrite (nonnull _ _ _ _ Hs). by rewrite (mbind_ok _ _ _ _ _ (map_run w p s wchar_ascii_toupper Hs Hw)).
    + apply Hmap. unfold unit_range, wchar_ascii_toupper. intros u. change (2 ^ _) with 65536. destruct (_ && _) eqn:B; lia.
  - apply (wcsrev_run w p s Hs Hw).
Qed.

(** The C runtime's searches find what they are asked for: [wcschr] the first
    and [wcsrchr] the last place of a unit, the terminator included, [wcscspn] the
    length of the prefix free of a set and [wcspbrk] the place after it, [wcsstr]
    the first occurrence of a string; null when there is none. None of them
    writes. *)
Theorem string_scans_correct w p set s t c :
  cstr 2 w p s -> cstr 2 w set t ->
  (exists r, wcschr (E := E) p c w = (Ok r, w) /\ first_unit 2 p s c r) /\
  (exists r, wcsrchr (E := E) p c w = (Ok r, w) /\ last_unit 2 p s c r) /\
  wcscspn (E := E) p set w = (Ok (Z.of_nat (span s t)), w) /\
  wcspbrk (E := E) p set w = (Ok (if bool_decide (span s t = length s) then 0 else p + 2 * Z.of_nat (span s t)), w) /\
  (exists r, wcsstr (E := E) p set w = (Ok r, w) /\ found_first 2 id p s t r).
Proof.
  intros Hs Ht. pose proof (nonnull _ _ _ _ Hs) as Np. pose proof (nonnull _ _ _ _ Ht) as Nt.
  split_and!.
  - unfold wcschr. rewrite Np. apply (find_unit 2); [lia|done|]. intros i. done.
  - by apply wcsrchr_run.
  - unfold wcscspn. rewrite Np, Nt. cbn [orb].
    rewrite (span_run w p set s t _ (fun i => i) (fun i => i) Hs Ht); [|done]. by rewrite if_same.
  - unfold wcspbrk. rewrite Np, Nt. cbn [orb].
    by rewrite (span_run w p set s t _ (fun _ => 0) (fun i => wptr p i) Hs Ht).
  - unfold wcsstr, wcslen. rewrite Np, Nt. cbn [orb]. apply (strstr_run 2 id w p set s t ltac:(lia) Hs Ht).
Qed.

(** The narrow searches. *)
Lemma narrow_scans_correct w p q s t c : cstr 1 w p s -> cstr 1 w q t ->
  (exists r, strchr (E := E) p c w = (Ok r, w) /\ first_unit 1 p s (wrap 8 c) r) /\
  (exists r, strstr (E := E) p q w = (Ok r, w) /\ found_first 1 id p s t r).
Proof.
  intros Hs Ht. split.
  - unfold strchr. rewrite (nonnull _ _ _ _ Hs). apply (find_unit 1); [lia|done|]. intros i.
    by replace (p + Z.of_nat 1 * i) with (p + i) by lia.
  - destruct (strstr_run (E := E) 1 id w p q s t ltac:(lia) Hs Ht) as (r & Hr & Hf). exists r. split; [|done]. rewrite <- Hr.
    unfold strstr, strlen. rewrite (nonnull _ _ _ _ Hs), (nonnull _ _ _ _ Ht). cbn [orb]. unfold mbind.
    destruct (scan 1 q w) as [[n| | |] w1]; try done. destruct (n =? 0); [done|].
    destruct (scan 1 p w1) as [[m| | |] w2]; try done. destruct (m <? n); [done|].
    destruct (search 1 id p q n (m - n + 1) id w2) as [[[i|]| | |] w3]; try done.
    by replace (p + Z.of_nat 1 * i) with (p + i) by lia.
Qed.
End Properties.

(** ** Witnesses *)
Section Witnesses.
Local Open Scope string_scope.

Lemma wide_comparisons_order_witness :
  orders (E := Empty_set) (wcscmp 4640 4672) demo (units_of "C:\tools") (units_of "a.b.txt") /\
  wcscmp (E := Empty_set) 4640 4672 demo = (Ok (67 - 97), demo).
Proof.
  split; [|vm_compute; reflexivity].
  refine (proj1 (wide_comparisons_order (E := Empty_set) demo 4640 4672 (units_of "C:\tools") (units_of "a.b.txt") _ _));
    apply cstr_b_sound; vm_compute; reflexivity.
Defined.

Lemma string_copies_correct_witness :
  let w' := put 2 4096 (units_of "a.b.txt" ++ [0]) demo in
  wcscpy (E := Empty_set) 4096 4672 demo = (Ok 4096, w') /\ lstrcpy_w (E := Empty_set) 4096 4672 demo = (Ok 4096, w') /\
  cstr 2 w' 4096 (units_of "a.b.txt").
Proof.
  refine (proj1 (string_copies_correct (E := Empty_set) demo 4096 4672 (units_of "a.b.txt") _ _) 16 _ _ _ _ _).
  - reflexivity.
  - apply cstr_b_sound. vm_compute. reflexivity.
  - reflexivity.
  - vm_compute. discriminate.
  - apply may_all_readable. vm_compute. reflexivity.
  - apply may_all_writable. vm_compute. reflexivity.
  - right. vm_compute. discriminate.
Defined.

Lemma string_edits_correct_witness :
  exists w', wcsrev (E := Empty_set) 4672 demo = (Ok 4672, w') /\ holds 2 w' 4672 (units_of "txt.b.a") /\
    forall x, prot_at w' x = prot_at demo x /\
      (in_range 4672 (2 * Z.of_nat (length (units_of "a.b.txt"))) x = false -> byte_at w' x = byte_at demo x).
Proof.
  refine (proj2 (proj2 (string_edits_correct (E := Empty_set) demo 4672 (units_of "a.b.txt") _ _))).
  - apply cstr_b_sound. vm_compute. reflexivity.
  - apply may_all_writable. vm_compute. reflexivity.
Defined.

Lemma string_scans_correct_witness :
  wcscspn (E := Empty_set) 4672 4704 demo = (Ok 1, demo) /\
  exists r, wcsrchr (E := Empty_set) 4672 46 demo = (Ok r, demo) /\ last_unit 2 4672 (units_of "a.b.txt") 46 r.
Proof.
  pose proof (string_scans_correct (E := Empty_set) demo 4672 4704 (units_of "a.b.txt") (units_of "B.") 46
    ltac:(apply cstr_b_sound; vm_compute; reflexivity) ltac:(apply cstr_b_sound; vm_compute; reflexivity))
    as (_ & H2 & H3 & _).
  split; [exact H3|exact H2].
Defined.
End Witnesses.
