(* ===== verification/K32Text.v ===== *)
(** * Text conversion and the environment ([crates/win32-kernel32/src/string.rs], [env.rs], [extras.rs], [extras2.rs])

    The calls that turn guest text into Rust strings and back: the code-page
    conversions, the path queries that fill a buffer, the ordinal comparisons, and
    the environment variables. *)
From Stdlib Require Import ZArith Lia Ascii String.
From stdpp Require Import base list option gmap.
From S2P Require Import Prelude Utf PeHost GuestMem GuestStr K32Shlwapi.
Local Open Scope rust_scope.
Local Open Scope Z_scope.
Set Warnings "-register-all".

Definition CP_UTF8 : Z := 65001.
Definition CP_ACP : Z := 0.
Definition ERROR_INSUFFICIENT_BUFFER : Z := 122.
Definition ERROR_INVALID_PARAMETER : Z := 87.
Definition ERROR_ENVVAR_NOT_FOUND : Z := 203.

(** The process as these calls see it: the guest's memory, the last error, and
    the environment of the host process. *)
Record Proc (W : Type) := mkProc { guest : W; last_error : Z; environ : gmap rstring rstring }.
Arguments mkProc {W} guest last_error environ.
Arguments guest {W} p.
Arguments last_error {W} p.
Arguments environ {W} p.

Section Text.
Context `{HW : Host W} {E : Type}.
Local Abbreviation T := (M (Proc W) E).

Definition on_guest {A} (m : M W E A) : T A := fun p =>
  let '(r, w) := m (guest p) in (r, mkProc w (last_error p) (environ p)).

Definition set_last_error (code : Z) : T unit := fun p => (Ok tt, mkProc (guest p) code (environ p)).

(** [set_last_error(code); return 0] *)
Definition fail_with {A} (code : Z) : T (option A) := set_last_error code ;;; mret None.

(** ** Code pages *)

(** The input of a conversion: through the terminator for a length of -1, or
    [len] units. *)
Definition input_units (k : nat) (ptr len : Z) : T (option (list Z)) :=
  if len =? -1 then
    if ptr =? 0 then fail_with ERROR_INVALID_PARAMETER
    else let! l := on_guest (let! n := scan k ptr in slice_from k ptr n) in mret (Some l)
  else if len <=? 0 then fail_with ERROR_INVALID_PARAMETER
  else if ptr =? 0 then fail_with ERROR_INVALID_PARAMETER
  else let! l := on_guest (slice_from k ptr len) in mret (Some l).

Definition multi_byte_to_wide_char (code_page mb cb wide cch : Z) : T Z :=
  let! input := input_units 1 mb cb in
  match input with
  | None => mret 0
  | Some input =>
      let units :=
        if (code_page =? CP_UTF8) || (code_page =? CP_ACP) then
          match from_utf8 input with Some s => encode_utf16 s | None => input end
        else input in
      let n := if cb =? -1 then Z.of_nat (length units) + 1 else Z.of_nat (length units) in
      if (wide =? 0) || (cch <=? 0) then mret (to_signed 32 n)
      else if cch <? to_signed 32 n then set_last_error ERROR_INSUFFICIENT_BUFFER ;;; mret 0
      else
        on_guest (put_list 2 wide units ;;;
          if cb =? -1 then uput 2 wide (Z.of_nat (length units)) 0 else mret tt) ;;;
        mret (to_signed 32 n)
  end.

Definition wide_char_to_multi_byte (code_page wide cch mb cb : Z) : T Z :=
  let! units := input_units 2 wide cch in
  match units with
  | None => mret 0
  | Some units =>
      let utf8 :=
        if (code_page =? CP_UTF8) || (code_page =? CP_ACP) then utf8_bytes (from_utf16_lossy units)
        else map (wrap 8) units in
      let n := Z.of_nat (length utf8) in
      if (mb =? 0) || (cb <=? 0) then mret (to_signed 32 n)
      else if cb <? to_signed 32 n then set_last_error ERROR_INSUFFICIENT_BUFFER ;;; mret 0
      else on_guest (put_list 1 mb utf8) ;;; mret (to_signed 32 n)
  end.

(** [string.rs]: the text before the terminator; a null pointer is the empty string. *)
Definition guest_string (p : Z) : M W E rstring :=
  if p =? 0 then mret []
  else
    let! len := scan 2 p in
    let! us := slice_from 2 p len in
    mret (from_utf16_lossy us).

(** ** Buffers filled with text *)

(** [write_path_w] of [extras2.rs] and [write_dummy_path_w] of [extras.rs]. *)
Definition write_path_w (buf len : Z) (path : rstring) : M W E Z :=
  let units := encode_utf16 path ++ [0] in
  let needed := wrap 32 (Z.of_nat (length units) - 1) in
  if (buf =? 0) || (len =? 0) then mret needed
  else
    let copy := Z.min (Z.of_nat (length units)) len in
    put_list 2 buf (take (Z.to_nat copy) units) ;;;
    uput 2 buf (sat_sub copy 1) 0 ;;;
    mret (wrap 32 (sat_sub copy 1)).

Definition get_system_directory_w (buf size : Z) : M W E Z := write_path_w buf size (chars_of "C:\Windows\System32").
Definition get_windows_directory_w (buf size : Z) : M W E Z := write_path_w buf size (chars_of "C:\Windows").
Definition get_temp_path_w (size buf : Z) : M W E Z := write_path_w buf size (chars_of "C:\Temp\").

Definition get_module_file_name_w (buf size : Z) : M W E Z :=
  if (buf =? 0) || (size =? 0) then mret 0 else write_path_w buf size (chars_of "nigg-app.exe").

(** [str::replace] of slashes by backslashes. *)
Definition backslashes (s : rstring) : rstring := map (fun c => if c =? 47 then 92 else c) s.

Definition get_full_path_name_w (name size buf : Z) : M W E Z :=
  if (name =? 0) || (buf =? 0) || (size =? 0) then mret 0
  else let! input := guest_string name in write_path_w buf size (backslashes input).

Definition get_short_path_name_w (path buf len : Z) : M W E Z :=
  if path =? 0 then mret 0 else let! s := guest_string path in write_path_w buf len s.

(** ** Comparison of texts *)

(** [Ord] on sequences. *)
Fixpoint cmp_seq (l1 l2 : list Z) : comparison :=
  match l1, l2 with
  | [], [] => Eq
  | [], _ :: _ => Lt
  | _ :: _, [] => Gt
  | x :: l1, y :: l2 => match x ?= y with Eq => cmp_seq l1 l2 | c => c end
  end.

Definition cstr_result (c : comparison) : Z := match c with Lt => 1 | Eq => 2 | Gt => 3 end.

(** Strings compare by their bytes. *)
Definition compare_string_ordinal (a b : Z) : M W E Z :=
  if (a =? 0) || (b =? 0) then mret 2
  else
    let! sa := guest_string a in
    let! sb := guest_string b in
    mret (cstr_result (cmp_seq (utf8_bytes sa) (utf8_bytes sb))).

Definition compare_string_w (a la b lb : Z) : M W E Z :=
  if (a =? 0) || (b =? 0) then mret 2
  else
    let! sa := guest_string a in
    let! sb := guest_string b in
    let ea := if 0 <=? la then take (Z.to_nat la) sa else sa in
    let eb := if 0 <=? lb then take (Z.to_nat lb) sb else sb in
    mret (cstr_result (cmp_seq (utf8_bytes ea) (utf8_bytes eb))).

(** [read_wide] and [compare_string_w] of [extras2.rs]. *)
Definition read_wide (s len : Z) : M W E (list Z) :=
  if len =? -1 then let! n := scan 2 s in slice_from 2 s n
  else if 0 <? len then slice_from 2 s len
  else mret [].

Definition compare_units_w (s1 l1 s2 l2 : Z) : M W E Z :=
  if (s1 =? 0) || (s2 =? 0) then mret 2
  else
    let! v1 := read_wide s1 l1 in
    let! v2 := read_wide s2 l2 in
    mret (cstr_result (cmp_seq v1 v2)).

(** ** The environment *)

(** [std::env::set_var] and [remove_var] panic on a name that is empty or has an
    equals sign or a NUL, and on a value with a NUL. *)
Definition bad_name (name : rstring) : bool :=
  bool_decide (name = []) || existsb (fun c => (c =? 61) || (c =? 0)) name.

Definition env_set (name value : rstring) : T unit := fun p =>
  if bad_name name || existsb (fun c => c =? 0) value then (Panic, p)
  else (Ok tt, mkProc (guest p) (last_error p) (<[name := value]> (environ p))).

Definition env_remove (name : rstring) : T unit := fun p =>
  if bad_name name then (Panic, p) else (Ok tt, mkProc (guest p) (last_error p) (delete name (environ p))).

Definition env_var (name : rstring) : T (option rstring) := fun p => (Ok (environ p !! name), p).

Definition get_environment_variable_w (name buffer n_size : Z) : T Z :=
  let! name_str := on_guest (guest_string name) in
  if bool_decide (name_str = []) then set_last_error ERROR_ENVVAR_NOT_FOUND ;;; mret 0
  else
    let! v := env_var name_str in
    match v with
    | None => set_last_error ERROR_ENVVAR_NOT_FOUND ;;; mret 0
    | Some value =>
        let units := encode_utf16 value in
        let need := wrap 32 (Z.of_nat (length units)) + 1 in
        if (buffer =? 0) || (n_size =? 0) then mret need
        else if n_size <=? wrap 32 (Z.of_nat (length units)) then
          set_last_error ERROR_INSUFFICIENT_BUFFER ;;; mret need
        else
          on_guest (put_list 2 buffer units ;;; uput 2 buffer (Z.of_nat (length units)) 0) ;;;
          mret (wrap 32 (Z.of_nat (length units)))
    end.

Definition set_environment_variable_w (name value : Z) : T Z :=
  let! name_str := on_guest (guest_string name) in
  if bool_decide (name_str = []) then mret 0
  else if value =? 0 then env_remove name_str ;;; mret 1
  else
    let! value_str := on_guest (guest_string value) in
    env_set name_str value_str ;;;
    mret 1.
End Text.

(** ** Round trips *)
Section RoundTrips.
Context `{HW : Host W} `{HL : !HostLaws W} {E : Type}.

Lemma on_guest_ok {A} (m : M W E A) (p : Proc W) a w' :
  m (guest p) = (Ok a, w') -> on_guest m p = (Ok a, mkProc w' (last_error p) (environ p)).
Proof. intros H. unfold on_guest. by rewrite H. Qed.

Lemma proc_eta (p : Proc W) : mkProc (guest p) (last_error p) (environ p) = p.
Proof. by destruct p. Qed.

(** A call that only reads memory. *)
Lemma on_guest_read {A} (m : M W E A) (p : Proc W) a : m (guest p) = (Ok a, guest p) -> on_guest m p = (Ok a, p).
Proof. intros H. by rewrite (on_guest_ok _ _ _ _ H), proc_eta. Qed.

Lemma guest_string_cstr w q us : cstr 2 w q us -> guest_string (E := E) q w = (Ok (from_utf16_lossy us), w).
Proof.
  intros Hs. unfold guest_string. rewrite (nonnull _ _ _ _ Hs). rewrite (mbind_ok _ _ _ _ _ (scan_cstr 2 w q us ltac:(lia) Hs)).
  assert (Hl : slice_from (E := E) 2 q (Z.of_nat (length us)) w = (Ok us, w)).
  { apply slice_from_holds; [exact (cstr_length 2 w q us ltac:(lia) Hs)|]. destruct Hs as (_ & _ & _ & Hh).
    by apply holds_app in Hh as [Hh _]. }
  by rewrite (mbind_ok _ _ _ _ _ Hl).
Qed.

(** [CompareStringOrdinal] and [CompareStringW] of whole strings order the bytes of the
    decoded texts; neither looks at a flag that asks to ignore case. *)
Lemma text_comparisons w p q s t : cstr 2 w p s -> cstr 2 w q t ->
  let r := cstr_result (cmp_seq (utf8_bytes (from_utf16_lossy s)) (utf8_bytes (from_utf16_lossy t))) in
  compare_string_ordinal (E := E) p q w = (Ok r, w) /\ compare_string_w (E := E) p (-1) q (-1) w = (Ok r, w).
Proof.
  intros Hs Ht. unfold compare_string_ordinal, compare_string_w. rewrite (nonnull _ _ _ _ Hs), (nonnull _ _ _ _ Ht). cbn [orb].
  by rewrite !(mbind_ok _ _ _ _ _ (guest_string_cstr _ _ _ Hs)), !(mbind_ok _ _ _ _ _ (guest_string_cstr _ _ _ Ht)).
Qed.

Lemma from_encode s : Forall scalar s -> from_utf16_lossy (encode_utf16 s) = s.
Proof. intros Hs. rewrite <- (app_nil_r (encode_utf16 s)), decode_encode by done. apply app_nil_r. Qed.

(** A character outside the encodable ones takes two units, and no other unit is 0. *)
Lemma encoded_no_nul s : Forall (fun u => u <> 0) (encode_utf16 s) -> existsb (fun c => c =? 0) s = false.
Proof.
  intros H. apply not_true_is_false. intros Hx. apply existsb_exists in Hx as (c & Hc & H0). apply Z.eqb_eq in H0. subst c.
  rewrite List.Forall_forall in H. apply (H 0); [|done]. unfold encode_utf16. apply in_concat. exists [0].
  split; [|by left]. apply in_map_iff. by exists 0.
Qed.

Lemma signed_small n : 0 <= n < 2 ^ 31 -> to_signed 32 n = n.
Proof.
  intros H. unfold to_signed. change (2 ^ (32 - 1)) with (2 ^ 31). rewrite wrap_small by lia.
  by rewrite (proj2 (Z.ltb_lt n _)) by lia.
Qed.

Lemma encode_nonempty s : s <> [] -> encode_utf16 s <> [] /\ utf8_bytes s <> [].
Proof.
  destruct s as [|c s]; [done|]. intros _. unfold encode_utf16, utf8_bytes, encode_char, utf8_char. cbn [map concat].
  split; [by destruct (_ <? _)|]. by repeat destruct (_ <? _).
Qed.

Lemma input_units_ok k ptr l (p : Proc W) :
  0 < ptr -> 0 < Z.of_nat (length l) -> Z.of_nat (length l) < 2 ^ 31 -> holds k (guest p) ptr l ->
  input_units (E := E) k ptr (Z.of_nat (length l)) p = (Ok (Some l), p).
Proof.
  intros Hp H0 Hl Hh. unfold input_units.
  rewrite (proj2 (Z.eqb_neq _ (-1))), (proj2 (Z.leb_gt _ 0)), (proj2 (Z.eqb_neq ptr 0)) by lia.
  assert (Hs : on_guest (E := E) (slice_from k ptr (Z.of_nat (length l))) p = (Ok l, p)).
  { apply on_guest_read, slice_from_holds; [lia|done]. }
  by rewrite (mbind_ok _ _ _ _ _ Hs).
Qed.

(** Text survives the code pages. The UTF-8 bytes of any text, converted by
    [MultiByteToWideChar] into a buffer of the size that a call without a buffer
    asks for, are its UTF-16 units, and [WideCharToMultiByte] turns those back
    into the same bytes. A buffer that is too small is left as it is, with the
    error for it. *)
Theorem code_page_round_trip (p : Proc W) cp src wide out s :
  cp = CP_UTF8 \/ cp = CP_ACP -> Forall scalar s -> s <> [] ->
  let bytes := utf8_bytes s in
  let units := encode_utf16 s in
  let nb := Z.of_nat (length bytes) in
  let nu := Z.of_nat (length units) in
  nb < 2 ^ 31 -> nu < 2 ^ 31 ->
  0 < src -> 0 < wide -> 0 < out -> holds 1 (guest p) src bytes ->
  readable (guest p) wide (2 * nu) -> writable (guest p) wide (2 * nu) -> writable (guest p) out nb ->
  let p1 := mkProc (put 2 wide units (guest p)) (last_error p) (environ p) in
  let p2 := mkProc (put 1 out bytes (guest p1)) (last_error p) (environ p) in
  multi_byte_to_wide_char (E := E) cp src nb 0 0 p = (Ok nu, p) /\
  multi_byte_to_wide_char (E := E) cp src nb wide nu p = (Ok nu, p1) /\
  wide_char_to_multi_byte (E := E) cp wide nu 0 0 p1 = (Ok nb, p1) /\
  wide_char_to_multi_byte (E := E) cp wide nu out nb p1 = (Ok nb, p2) /\
  (forall n, 0 < n < nu -> multi_byte_to_wide_char (E := E) cp src nb wide n p
     = (Ok 0, mkProc (guest p) ERROR_INSUFFICIENT_BUFFER (environ p))) /\
  (forall n, 0 < n < nb -> wide_char_to_multi_byte (E := E) cp wide nu out n p1
     = (Ok 0, mkProc (guest p1) ERROR_INSUFFICIENT_BUFFER (environ p))).
Proof.
  intros Hcp Hs Hne bytes units nb nu Hnb Hnu Hsrc Hwide Hout Hh Hr Hw Hwo p1 p2.
  destruct (encode_nonempty s Hne) as [Hu0 Hb0]. fold units in Hu0. fold bytes in Hb0.
  assert (0 < nb /\ 0 < nu) as [Hb Hu] by (unfold nb, nu; destruct bytes, units; try done; simpl; lia).
  assert (Hpage : (cp =? CP_UTF8) || (cp =? CP_ACP) = true) by (destruct Hcp as [-> | ->]; done).
  assert (Hsl : input_units (E := E) 1 src nb p = (Ok (Some bytes), p)) by (by apply input_units_ok).
  assert (Hsw : input_units (E := E) 2 wide nu p1 = (Ok (Some units), p1)).
  { apply input_units_ok; [done..|]. apply holds_put; [exact (utf16_units_range s Hs)|exact Hr]. }
  assert (Hmb : forall wd n, multi_byte_to_wide_char (E := E) cp src nb wd n p =
    (if (wd =? 0) || (n <=? 0) then mret nu
     else if n <? nu then set_last_error ERROR_INSUFFICIENT_BUFFER ;;; mret 0
     else on_guest (put_list 2 wd units ;;; mret tt) ;;; mret nu)%rust p).
  { intros wd n. unfold multi_byte_to_wide_char. rewrite (mbind_ok _ _ _ _ _ Hsl), Hpage. unfold bytes. rewrite from_utf8_bytes by done.
    rewrite (proj2 (Z.eqb_neq _ (-1))) by (fold bytes; fold nb; lia). cbv zeta. fold units. fold nu.
    rewrite signed_small by lia. done. }
  assert (Hwc : forall o n, wide_char_to_multi_byte (E := E) cp wide nu o n p1 =
    (if (o =? 0) || (n <=? 0) then mret nb
     else if n <? nb then set_last_error ERROR_INSUFFICIENT_BUFFER ;;; mret 0
     else on_guest (put_list 1 o bytes) ;;; mret nb)%rust p1).
  { intros o n. unfold wide_char_to_multi_byte. rewrite (mbind_ok _ _ _ _ _ Hsw), Hpage. unfold units. rewrite from_encode by done.
    cbv zeta. fold bytes. fold nb. rewrite signed_small by lia. done. }
  split_and!.
  - by rewrite Hmb.
  - rewrite Hmb, (proj2 (Z.eqb_neq wide 0)), (proj2 (Z.leb_gt nu 0)), Z.ltb_irrefl by lia. cbn [orb].
    rewrite (mbind_ok _ _ _ tt p1); [done|]. apply on_guest_ok.
    by rewrite (mbind_ok _ _ _ _ _ (put_list_ok 2 wide units (guest p) Hw)).
  - by rewrite Hwc.
  - rewrite Hwc, (proj2 (Z.eqb_neq out 0)), (proj2 (Z.leb_gt nb 0)), Z.ltb_irrefl by lia. cbn [orb].
    rewrite (mbind_ok _ _ _ tt p2); [done|]. rewrite (on_guest_ok _ p1 tt (put 1 out bytes (guest p1))); [done|].
    apply put_list_ok. apply writable_put.
    eapply writable_sub; [exact Hwo|lia|]. unfold nb. lia.
  - intros n Hn. by rewrite Hmb, (proj2 (Z.eqb_neq wide 0)), (proj2 (Z.leb_gt n 0)), (proj2 (Z.ltb_lt n nu)) by lia.
  - intros n Hn. by rewrite Hwc, (proj2 (Z.eqb_neq out 0)), (proj2 (Z.leb_gt n 0)), (proj2 (Z.ltb_lt n nb)) by lia.
Qed.

Lemma guest_name (p : Proc W) q n :
  Forall scalar n -> cstr 2 (guest p) q (encode_utf16 n) -> on_guest (E := E) (guest_string q) p = (Ok n, p).
Proof. intros Hn Hc. apply on_guest_read. rewrite (guest_string_cstr _ _ _ Hc). by rewrite from_encode. Qed.

Lemma put_string_ok (w : W) buf us :
  0 < buf -> buf + 2 * (Z.of_nat (length us) + 1) <= 2 ^ 64 ->
  readable w buf (2 * (Z.of_nat (length us) + 1)) -> writable w buf (2 * (Z.of_nat (length us) + 1)) ->
  Forall (unit_range 2) us -> Forall (fun u => u <> 0) us ->
  (put_list 2 buf us ;;; uput 2 buf (Z.of_nat (length us)) 0) w = (Ok tt : outcome E _, put 2 buf (us ++ [0]) w) /\
  cstr 2 (put 2 buf (us ++ [0]) w) buf us.
Proof.
  intros Hb Hl Hr Hw Hu Hnz. split; [|by apply cstr_put].
  rewrite (mbind_ok _ _ w tt (put 2 buf us w)) by (apply put_list_ok; eapply writable_sub; [exact Hw|lia..]).
  rewrite put_app. apply (uput_ok 2 buf). apply writable_put. intros x Hx. apply Hw. lia.
Qed.

(** The name that the host refuses, and the two calls on a name already read. *)
Lemma bad_name_equals (n : rstring) us : n <> [] -> us = encode_utf16 n -> Forall (fun u => u <> 0) us ->
  bad_name n = bool_decide (61 ∈ n).
Proof.
  intros Hne -> Hnn. unfold bad_name. rewrite bool_decide_eq_false_2 by done. cbn [orb]. apply eq_true_iff_eq.
  rewrite existsb_exists, bool_decide_eq_true. pose proof (encoded_no_nul n Hnn) as Hz. split.
  - intros (c & Hc & Hor). apply orb_prop in Hor as [H|H].
    + apply Z.eqb_eq in H. subst. by apply list_elem_of_In.
    + rewrite (proj2 (existsb_exists _ n)) in Hz by (by exists c). done.
  - intros H. exists 61. split; [by apply list_elem_of_In|done].
Qed.

Lemma set_variable_eq (p : Proc W) name value (n v : rstring) :
  Forall scalar n -> Forall scalar v -> n <> [] ->
  cstr 2 (guest p) name (encode_utf16 n) -> cstr 2 (guest p) value (encode_utf16 v) ->
  set_environment_variable_w (E := E) name value p
  = if bool_decide (61 ∈ n) then (Panic, p) else (Ok 1, mkProc (guest p) (last_error p) (<[n := v]> (environ p))).
Proof.
  intros Hn Hv Hne Hcn Hcv. pose proof Hcn as (_ & _ & Hnn & _). pose proof Hcv as (_ & _ & Hvn & _).
  unfold set_environment_variable_w. rewrite (mbind_ok _ _ _ _ _ (guest_name p name n Hn Hcn)).
  rewrite bool_decide_eq_false_2, (nonnull _ _ _ _ Hcv) by done.
  rewrite (mbind_ok _ _ _ _ _ (guest_name p value v Hv Hcv)). unfold mbind, env_set.
  rewrite (bad_name_equals n _ Hne eq_refl Hnn), (encoded_no_nul v Hvn), orb_false_r. by destruct (bool_decide (61 ∈ n)).
Qed.

Lemma get_variable_eq (q : Proc W) name (n : rstring) buf size :
  Forall scalar n -> n <> [] -> cstr 2 (guest q) name (encode_utf16 n) ->
  get_environment_variable_w (E := E) name buf size q =
    match environ q !! n with
    | None => (set_last_error ERROR_ENVVAR_NOT_FOUND ;;; mret 0)%rust q
    | Some value =>
        let units := encode_utf16 value in
        let need := wrap 32 (Z.of_nat (length units)) + 1 in
        if (buf =? 0) || (size =? 0) then (Ok need, q)
        else if size <=? wrap 32 (Z.of_nat (length units)) then
          (set_last_error ERROR_INSUFFICIENT_BUFFER ;;; mret need)%rust q
        else
          (on_guest (put_list 2 buf units ;;; uput 2 buf (Z.of_nat (length units)) 0) ;;;
           mret (wrap 32 (Z.of_nat (length units))))%rust q
    end.
Proof.
  intros Hn Hne Hcn. unfold get_environment_variable_w.
  rewrite (mbind_ok _ _ _ _ _ (guest_name q name n Hn Hcn)), bool_decide_eq_false_2 by done.
  rewrite (mbind_ok _ _ q (environ q !! n) q) by done. destruct (environ q !! n); [|done].
  by destruct (_ || _); [|destruct (_ <=? _)].
Qed.

(** What is set in the environment is read back. Setting a variable changes no
    other variable and no memory; reading it fills a large enough buffer with the
    value, and asks for the size it needs, with the error for it, when the buffer
    is too small; after it is removed, reading it fails. A name with an equals
    sign, which the host refuses, makes the call panic. *)
Theorem environment_round_trip (p : Proc W) name value (n v : rstring) :
  Forall scalar n -> Forall scalar v -> n <> [] ->
  cstr 2 (guest p) name (encode_utf16 n) -> cstr 2 (guest p) value (encode_utf16 v) ->
  Z.of_nat (length (encode_utf16 v)) < 2 ^ 32 - 1 ->
  let nu := Z.of_nat (length (encode_utf16 v)) in
  let p1 := mkProc (guest p) (last_error p) (<[n := v]> (environ p)) in
  (61 ∈ n -> set_environment_variable_w (E := E) name value p = (Panic, p)) /\
  (61 ∉ n ->
   set_environment_variable_w (E := E) name value p = (Ok 1, p1) /\
   (forall buf size, 0 < buf -> buf + 2 * size <= 2 ^ 64 -> readable (guest p) buf (2 * size) ->
      writable (guest p) buf (2 * size) -> nu < size ->
      exists w', get_environment_variable_w (E := E) name buf size p1 = (Ok nu, mkProc w' (last_error p1) (environ p1)) /\
        cstr 2 w' buf (encode_utf16 v)) /\
   (forall buf size, 0 < buf -> 0 < size <= nu ->
      get_environment_variable_w (E := E) name buf size p1
      = (Ok (nu + 1), mkProc (guest p1) ERROR_INSUFFICIENT_BUFFER (environ p1))) /\
   exists p2, set_environment_variable_w (E := E) name 0 p1 = (Ok 1, p2) /\ environ p2 = delete n (environ p) /\
     forall buf size, get_environment_variable_w (E := E) name buf size p2
       = (Ok 0, mkProc (guest p) ERROR_ENVVAR_NOT_FOUND (environ p2))).
Proof.
  intros Hn Hv Hne Hcn Hcv Hlen nu p1. pose proof Hcn as (_ & _ & Hnn & _). pose proof Hcv as (_ & _ & Hvn & _).
  rewrite (set_variable_eq p name value n v) by done.
  assert (Hwrap : wrap 32 (Z.of_nat (length (encode_utf16 v))) = nu) by (apply wrap_small; unfold nu in *; lia).
  pose proof (fun buf size => get_variable_eq p1 name n buf size Hn Hne Hcn) as Hget.
  split; intros Hin; [by rewrite bool_decide_eq_true_2|]. rewrite bool_decide_eq_false_2 by done.
  assert (Hlook : environ p1 !! n = Some v) by apply lookup_insert_eq.
  split_and!; [done|..].
  - intros buf size Hb Hbs Hr Hw Hsz.
    destruct (put_string_ok (guest p) buf (encode_utf16 v)) as [Hput Hc]; [done|unfold nu in *; lia|..].
    { eapply readable_sub; [exact Hr|lia|unfold nu in *; lia]. }
    { eapply writable_sub; [exact Hw|lia|unfold nu in *; lia]. }
    { exact (utf16_units_range v Hv). }
    { exact Hvn. }
    eexists. split; [|exact Hc]. rewrite Hget, Hlook. cbv zeta. rewrite Hwrap.
    rewrite (proj2 (Z.eqb_neq buf 0)), (proj2 (Z.eqb_neq size 0)), (proj2 (Z.leb_gt size nu)) by lia. cbn [orb].
    by rewrite (mbind_ok _ _ _ _ _ (on_guest_ok _ p1 _ _ Hput)).
  - intros buf size Hb Hsz. rewrite Hget, Hlook. cbv zeta. rewrite Hwrap.
    by rewrite (proj2 (Z.eqb_neq buf 0)), (proj2 (Z.eqb_neq size 0)), (proj2 (Z.leb_le size nu)) by lia.
  - exists (mkProc (guest p) (last_error p) (delete n (<[n := v]> (environ p)))). split_and!.
    + unfold set_environment_variable_w. rewrite (mbind_ok _ _ _ _ _ (guest_name p1 name n Hn Hcn)).
      rewrite bool_decide_eq_false_2 by done. cbn [Z.eqb]. unfold mbind, env_remove.
      by rewrite (bad_name_equals n _ Hne eq_refl Hnn), bool_decide_eq_false_2.
    + cbn [environ]. apply delete_insert_eq.
    + intros buf size. rewrite (get_variable_eq _ name n) by done. cbn [environ]. by rewrite lookup_delete_eq.
Qed.
End RoundTrips.

(** ** Witnesses *)
Section Witnesses.
Local Open Scope string_scope.

(** A text with characters of one to four bytes, its bytes at 4640, and two
    strings. *)
Definition text : rstring := [0x68; 0xE9; 0x4E16; 0x1F600].

Definition text_world : SmallHost.World :=
  put 1 4640 (utf8_bytes text)
    (put 2 4672 (units_of "PATH" ++ [0])
      (put 2 4704 (encode_utf16 text ++ [0])
        (snd (sys_mmap 0 1024 false SmallHost.empty)))).

Definition text_proc : Proc SmallHost.World := mkProc text_world 0 ∅.

Lemma text_scalar : Forall scalar text.
Proof. repeat constructor; unfold scalar; lia. Qed.

Lemma code_page_round_trip_witness :
  multi_byte_to_wide_char (E := Empty_set) CP_UTF8 4640 10 0 0 text_proc = (Ok 5, text_proc) /\
  multi_byte_to_wide_char (E := Empty_set) CP_UTF8 4640 10 4096 5 text_proc
    = (Ok 5, mkProc (put 2 4096 [0x68; 0xE9; 0x4E16; 0xD83D; 0xDE00] text_world) 0 ∅).
Proof.
  destruct (code_page_round_trip (E := Empty_set) text_proc CP_UTF8 4640 4096 4200 text) as (H1 & H2 & _).
  - by left.
  - apply text_scalar.
  - done.
  - reflexivity.
  - reflexivity.
  - reflexivity.
  - reflexivity.
  - reflexivity.
  - apply holds_b_sound. vm_compute. reflexivity.
  - apply may_all_readable. vm_compute. reflexivity.
  - apply may_all_writable. vm_compute. reflexivity.
  - apply may_all_writable. vm_compute. reflexivity.
  - split; [exact H1|exact H2].
Defined.

Lemma environment_round_trip_witness :
  set_environment_variable_w (E := Empty_set) 4672 4704 text_proc
  = (Ok 1, mkProc text_world 0 (<[units_of "PATH" := text]> ∅)).
Proof.
  refine (proj1 (proj2 (environment_round_trip (E := Empty_set) text_proc 4672 4704 (units_of "PATH") text _ _ _ _ _ _) _)).
  - repeat constructor; unfold scalar; lia.
  - apply text_scalar.
  - done.
  - apply cstr_b_sound. vm_compute. reflexivity.
  - apply cstr_b_sound. vm_compute. reflexivity.
  - reflexivity.
  - intros H. apply list_elem_of_In in H. simpl in H. repeat destruct H as [H|H]; done.
Defined.
End Witnesses.
