(* ===== verification/K32Time.v ===== *)
(** * Calendar and file times ([crates/win32-kernel32/src/extras2.rs])

    The conversions between counts of 100-nanosecond ticks and broken-down dates,
    checked against the Gregorian calendar: leap years, month lengths and the
    successor of a date. The 64-bit arithmetic of the code does not overflow on
    the times considered. *)
From Stdlib Require Import ZArith Lia.
From stdpp Require Import base list option.
From S2P Require Import Prelude PeHost GuestMem.
Local Open Scope rust_scope.
Local Open Scope Z_scope.
Set Warnings "-register-all".

Definition FILETIME_TICKS_PER_SEC : Z := 10000000.
Definition EPOCH_OFFSET_SECS : Z := 11644473600.

(** Division of [i64] truncates: [Z.quot]. *)
Definition civil_from_days (z : Z) : Z * Z * Z :=
  let z := z + 719468 in
  let era := Z.quot (if 0 <=? z then z else z - 146096) 146097 in
  let doe := z - era * 146097 in
  let yoe := Z.quot (doe - Z.quot doe 1460 + Z.quot doe 36524 - Z.quot doe 146096) 365 in
  let y := yoe + era * 400 in
  let doy := doe - (365 * yoe + Z.quot yoe 4 - Z.quot yoe 100) in
  let mp := Z.quot (5 * doy + 2) 153 in
  let d := doy - Z.quot (153 * mp + 2) 5 + 1 in
  let m := if mp <? 10 then mp + 3 else mp - 9 in
  let y := if m <=? 2 then y + 1 else y in
  (y, m, d).

Definition days_from_civil (y m d : Z) : Z :=
  let y := if m <=? 2 then y - 1 else y in
  let era := Z.quot (if 0 <=? y then y else y - 399) 400 in
  let yoe := y - era * 400 in
  let doy := Z.quot (153 * (if 2 <? m then m - 3 else m + 9) + 2) 5 + d - 1 in
  let doe := yoe * 365 + Z.quot yoe 4 - Z.quot yoe 100 + doy in
  era * 146097 + doe - 719468.

(** [div_euclid] and [rem_euclid] by a positive number. *)
Definition split_unix_secs (unix_secs : Z) : Z * Z := (unix_secs / 86400, unix_secs mod 86400).

Definition day_of_week (days : Z) : Z := (days + 4) mod 7.

(** The eight fields of a [SYSTEMTIME] for a count of seconds. *)
Definition system_time_fields (unix_secs millis : Z) : list Z :=
  let '(days, rem) := split_unix_secs unix_secs in
  let '(y, m, d) := civil_from_days days in
  let hour := Z.quot rem 3600 in
  let minute := Z.quot (Z.rem rem 3600) 60 in
  let second := Z.rem rem 60 in
  map (wrap 16) [y; m; day_of_week days; d; hour; minute; second; millis].

Section Calls.
Context `{HW : Host W} {E : Type}.
Local Abbreviation G := (M W E).

(** Eight stores of 16-bit fields. *)
Fixpoint put_fields_at (st i : Z) (l : list Z) : G unit :=
  match l with
  | [] => mret tt
  | f :: l => uput 2 st i f ;;; put_fields_at st (i + 1) l
  end.

Definition put_fields (st : Z) : list Z -> G unit := put_fields_at st 0.

(** [now] is what [clock_gettime] gives: seconds and nanoseconds. *)
Definition get_system_time (now : Z * Z) (st : Z) : G unit :=
  if st =? 0 then mret tt
  else put_fields st (system_time_fields (fst now) (Z.quot (snd now) 1000000)).

Definition file_time_to_local_file_time (ft local_ft : Z) : G Z :=
  if (ft =? 0) || (local_ft =? 0) then mret 0
  else let! v := read_int 8 ft in write_int 8 local_ft v ;;; mret 1.

Definition file_time_to_system_time (ft st : Z) : G Z :=
  if (ft =? 0) || (st =? 0) then mret 0
  else
    let! v := read_int 8 ft in
    let ticks := to_signed 64 v in
    let secs_since_1601 := Z.quot ticks FILETIME_TICKS_PER_SEC in
    let sub_ticks := Z.rem ticks FILETIME_TICKS_PER_SEC in
    let unix_secs := secs_since_1601 - EPOCH_OFFSET_SECS in
    put_fields st (system_time_fields unix_secs (Z.quot sub_ticks 10000)) ;;;
    mret 1.

Definition system_time_to_file_time (st ft : Z) : G Z :=
  if (st =? 0) || (ft =? 0) then mret 0
  else
    let! y := uget 2 st 0 in
    let! m := uget 2 st 1 in
    let! _ := uget 2 st 2 in
    let! d := uget 2 st 3 in
    let! hour := uget 2 st 4 in
    let! minute := uget 2 st 5 in
    let! second := uget 2 st 6 in
    let! millis := uget 2 st 7 in
    let days := days_from_civil y m d in
    let secs_since_1601 := days * 86400 + hour * 3600 + minute * 60 + second + EPOCH_OFFSET_SECS in
    let ticks := secs_since_1601 * FILETIME_TICKS_PER_SEC + millis * 10000 in
    write_int 8 ft (wrap 64 ticks) ;;;
    mret 1.
End Calls.

(** ** The Gregorian calendar *)

Definition leap (y : Z) : bool := (y mod 4 =? 0) && (negb (y mod 100 =? 0) || (y mod 400 =? 0)).

Definition days_in_month (y m : Z) : Z :=
  if m =? 2 then if leap y then 29 else 28
  else if (m =? 4) || (m =? 6) || (m =? 9) || (m =? 11) then 30 else 31.

Definition valid_date (date : Z * Z * Z) : Prop :=
  let '(y, m, d) := date in 1 <= m <= 12 /\ 1 <= d <= days_in_month y m.

Definition next_date (date : Z * Z * Z) : Z * Z * Z :=
  let '(y, m, d) := date in
  if d <? days_in_month y m then (y, m, d + 1) else if m <? 12 then (y, m + 1, 1) else (y + 1, 1, 1).

(** ** The conversions against the calendar *)

Lemma floor_quot z n : 0 < n -> Z.quot (if 0 <=? z then z else z - (n - 1)) n = z / n.
Proof.
  intros Hn. destruct (Z.leb_spec 0 z) as [H|H]; [by apply Z.quot_div_nonneg|].
  rewrite <- (Z.opp_involutive (z - (n - 1))), Z.quot_opp_l, Z.quot_div_nonneg by lia.
  pose proof (Z.div_mod z n ltac:(lia)). pose proof (Z.mod_pos_bound z n ltac:(lia)).
  pose proof (Z.div_mod (- (z - (n - 1))) n ltac:(lia)). pose proof (Z.mod_pos_bound (- (z - (n - 1))) n ltac:(lia)).
  nia.
Qed.

Lemma floor_era z : Z.quot (if 0 <=? z then z else z - 146096) 146097 = z / 146097.
Proof. by apply (floor_quot z 146097). Qed.

(** The day of the year, counted from March, of a month and day. *)
Definition march_day (m d : Z) : Z := (153 * ((m + 9) mod 12) + 2) / 5 + d - 1.

Definition march_year (y m : Z) : Z := if m <=? 2 then y - 1 else y.

Lemma days_from_civil_floor y m d : 1 <= m <= 12 ->
  let y' := march_year y m in
  days_from_civil y m d = y' / 400 * 146097 + (y' mod 400 * 365 + y' mod 400 / 4 - y' mod 400 / 100 + march_day m d) - 719468.
Proof.
  intros Hm y'. unfold days_from_civil. fold (march_year y m). fold y'.
  change 399 with (400 - 1). rewrite floor_quot by lia.
  pose proof (Z.mod_pos_bound y' 400 ltac:(lia)). pose proof (Z.div_mod y' 400 ltac:(lia)).
  replace (y' - y' / 400 * 400) with (y' mod 400) by lia.
  assert (Hmp : (if 2 <? m then m - 3 else m + 9) = (m + 9) mod 12)
    by (destruct (Z.ltb_spec 2 m); Z.to_euclidean_division_equations; lia).
  rewrite Hmp. pose proof (Z.mod_pos_bound (m + 9) 12 ltac:(lia)).
  rewrite !Z.quot_div_nonneg by lia. unfold march_day. lia.
Qed.

Lemma yoe_of_doe y doy : 0 <= y <= 399 -> 0 <= doy <= 365 ->
  (doy = 365 -> (y + 1) mod 4 = 0 /\ ((y + 1) mod 100 <> 0 \/ y = 399)) ->
  let doe := 365 * y + y / 4 - y / 100 + doy in
  0 <= doe <= 146096 /\ (doe - doe / 1460 + doe / 36524 - doe / 146096) / 365 = y.
Proof.
  intros Hy Hd Hl doe.
  assert (Hc : exists c q s, y = 100 * c + 4 * q + s /\ 0 <= c <= 3 /\ 0 <= q <= 24 /\ 0 <= s <= 3).
  { exists (y / 100), ((y mod 100) / 4), ((y mod 100) mod 4). Z.to_euclidean_division_equations. lia. }
  destruct Hc as (c & q & s & -> & Hc & Hq & Hs).
  assert (Hdoe : doe = 36524 * c + 1461 * q + 365 * s + doy).
  { unfold doe. rewrite <- (Z.div_unique_pos (100 * c + 4 * q + s) 4 (25 * c + q) s) by lia.
    rewrite <- (Z.div_unique_pos (100 * c + 4 * q + s) 100 c (4 * q + s)) by lia. lia. }
  rewrite Hdoe. clear Hdoe doe. set (doe := 36524 * c + 1461 * q + 365 * s + doy).
  assert (Hl' : doy = 365 -> s = 3 /\ (q <> 24 \/ c = 3)).
  { intros H. specialize (Hl H). Z.to_euclidean_division_equations. lia. }
  clear Hl. assert (doe <= 146096) by (unfold doe; lia). split; [unfold doe; lia|].
  destruct (Z.eq_dec doe 146096) as [He|Hne].
  - rewrite He. change ((146096 - 146096 / 1460 + 146096 / 36524 - 146096 / 146096) / 365) with 399. unfold doe in He. lia.
  - assert (doe / 36524 = c /\ doe / 146096 = 0) as [-> ->].
    { unfold doe in *. split; symmetry; [apply (Z.div_unique_pos _ _ _ (1461 * q + 365 * s + doy))
        |apply (Z.div_unique_pos _ _ _ (36524 * c + 1461 * q + 365 * s + doy))]; lia. }
    Z.to_euclidean_division_equations. unfold doe in *. lia.
Qed.

(** Months and days of the March year. *)
Lemma months_cases m : 1 <= m <= 12 ->
  m = 1 \/ m = 2 \/ m = 3 \/ m = 4 \/ m = 5 \/ m = 6 \/ m = 7 \/ m = 8 \/ m = 9 \/ m = 10 \/ m = 11 \/ m = 12.
Proof. lia. Qed.

Lemma march_day_back y m d : valid_date (y, m, d) ->
  let doy := march_day m d in
  0 <= doy <= 365 /\ (5 * doy + 2) / 153 = (m + 9) mod 12 /\ (doy = 365 -> m = 2 /\ leap y = true).
Proof.
  intros [Hm Hd] doy. unfold days_in_month in Hd. unfold doy, march_day.
  destruct (leap y) eqn:L;
    destruct (months_cases m Hm) as [-> |[-> |[-> |[-> |[-> |[-> |[-> |[-> |[-> |[-> |[-> | ->]]]]]]]]]]];
    cbn in Hd; (split_and!; [Z.to_euclidean_division_equations; lia..|]); intros Hx;
    first [split; [lia|done] | exfalso; Z.to_euclidean_division_equations; lia].
Qed.

Lemma civil_days y m d : valid_date (y, m, d) -> civil_from_days (days_from_civil y m d) = (y, m, d).
Proof.
  intros Hv. pose proof Hv as [Hm Hd]. rewrite days_from_civil_floor by done.
  destruct (march_day_back y m d Hv) as (Hdoy & Hmp & Hleap).
  set (doy := march_day m d) in *. set (y' := march_year y m).
  pose proof (Z.mod_pos_bound y' 400 ltac:(lia)) as Hyr. pose proof (Z.div_mod y' 400 ltac:(lia)) as Hyd.
  set (yoe := y' mod 400) in *. set (era := y' / 400) in *.
  assert (Hl : doy = 365 -> (yoe + 1) mod 4 = 0 /\ ((yoe + 1) mod 100 <> 0 \/ yoe = 399)).
  { intros H. destruct (Hleap H) as [-> Hly]. unfold y', march_year in Hyd. cbn in Hyd. unfold leap in Hly.
    Z.to_euclidean_division_equations. lia. }
  destruct (yoe_of_doe yoe doy ltac:(lia) Hdoy Hl) as [Hdoe Hback].
  unfold civil_from_days. replace (_ - 719468 + 719468) with (era * 146097 + (365 * yoe + yoe / 4 - yoe / 100 + doy)) by lia.
  set (doe := 365 * yoe + yoe / 4 - yoe / 100 + doy) in *.
  cbv zeta. rewrite !floor_era.
  rewrite !(Z.div_add_l era 146097 doe), !(Z.div_small doe) by lia. rewrite !Z.add_0_r.
  replace (era * 146097 + doe - era * 146097) with doe by lia.
  assert (0 <= doe / 1460 <= doe) by (Z.to_euclidean_division_equations; lia).
  assert (0 <= doe / 36524) by (Z.to_euclidean_division_equations; lia).
  assert (0 <= doe / 146096 <= doe / 36524) by (Z.to_euclidean_division_equations; lia).
  rewrite !(Z.quot_div_nonneg doe) by lia.
  rewrite !(Z.quot_div_nonneg (doe - doe / 1460 + doe / 36524 - doe / 146096)), !Hback by lia.
  rewrite !(Z.quot_div_nonneg yoe) by lia.
  replace (doe - (365 * yoe + yoe / 4 - yoe / 100)) with doy in * by (unfold doe; lia).
  rewrite !(Z.quot_div_nonneg (5 * doy + 2)), !Hmp by lia.
  pose proof (Z.mod_pos_bound (m + 9) 12 ltac:(lia)).
  rewrite !(Z.quot_div_nonneg (153 * ((m + 9) mod 12) + 2)) by lia.
  assert (Hd' : doy - (153 * ((m + 9) mod 12) + 2) / 5 + 1 = d) by (unfold doy, march_day; lia).
  assert (Hm' : (if (m + 9) mod 12 <? 10 then (m + 9) mod 12 + 3 else (m + 9) mod 12 - 9) = m).
  { destruct (Z.ltb_spec ((m + 9) mod 12) 10); Z.to_euclidean_division_equations; lia. }
  rewrite Hd', Hm'. f_equal. f_equal. unfold y', march_year in Hyd. destruct (m <=? 2); lia.
Qed.

Lemma years_days y :
  y / 400 * 146097 + (y mod 400 * 365 + y mod 400 / 4 - y mod 400 / 100) = 365 * y + y / 4 - y / 100 + y / 400.
Proof. Z.to_euclidean_division_equations. lia. Qed.

Lemma days_of y m d : 1 <= m <= 12 ->
  let y' := march_year y m in
  days_from_civil y m d = 365 * y' + y' / 4 - y' / 100 + y' / 400 + march_day m d - 719468.
Proof. intros Hm y'. rewrite days_from_civil_floor by done. fold y'. pose proof (years_days y'). lia. Qed.

(** A leap day is what a fourth of the years add. *)
Lemma multiple_step y n : 0 < n -> y / n - (y - 1) / n = if y mod n =? 0 then 1 else 0.
Proof.
  intros Hn. pose proof (Z.div_mod y n ltac:(lia)). pose proof (Z.mod_pos_bound y n Hn).
  destruct (Z.eqb_spec (y mod n) 0) as [He|He].
  - assert ((y - 1) / n = y / n - 1) as ->; [|lia]. symmetry. apply (Z.div_unique_pos _ _ _ (n - 1)); lia.
  - assert ((y - 1) / n = y / n) as ->; [|lia]. symmetry. apply (Z.div_unique_pos _ _ _ (y mod n - 1)); lia.
Qed.

Lemma leap_days y : y / 4 - y / 100 + y / 400 - ((y - 1) / 4 - (y - 1) / 100 + (y - 1) / 400) = if leap y then 1 else 0.
Proof.
  pose proof (multiple_step y 4 eq_refl) as H4. pose proof (multiple_step y 100 eq_refl) as H100.
  pose proof (multiple_step y 400 eq_refl) as H400. unfold leap.
  destruct (Z.eqb_spec (y mod 4) 0), (Z.eqb_spec (y mod 100) 0), (Z.eqb_spec (y mod 400) 0); cbn; try lia;
    exfalso; clear H4 H100 H400; Z.to_euclidean_division_equations; lia.
Qed.

Lemma march_step y m : 1 <= m < 12 ->
  (m = 2 /\ march_day (2 + 1) 1 = 0 /\ march_day 2 (days_in_month y 2) = 364 + (if leap y then 1 else 0)) \/
  (march_year y (m + 1) = march_year y m /\ march_day (m + 1) 1 = march_day m (days_in_month y m) + 1).
Proof.
  intros Hm.
  destruct (months_cases m ltac:(lia)) as [-> |[-> |[-> |[-> |[-> |[-> |[-> |[-> |[-> |[-> |[-> | ->]]]]]]]]]]];
    [by right|left|by right..|lia].
  split_and!; [done..|]. unfold days_in_month. cbn [Z.eqb Pos.eqb]. by destruct (leap y).
Qed.

Lemma next_days y m d : valid_date (y, m, d) ->
  valid_date (next_date (y, m, d)) /\
  (let '(y', m', d') := next_date (y, m, d) in days_from_civil y' m' d' = days_from_civil y m d + 1).
Proof.
  intros [Hm Hd]. unfold next_date. destruct (Z.ltb_spec d (days_in_month y m)) as [Hlt|Hge].
  - split; [by split; [|lia]|]. rewrite !days_of by done. unfold march_day. lia.
  - assert (d = days_in_month y m) as -> by lia. destruct (Z.ltb_spec m 12) as [Hm'|Hm'].
    + split; [split; [lia|]; unfold days_in_month; repeat case_match; lia|]. rewrite !days_of by lia.
      destruct (march_step y m ltac:(lia)) as [(-> & Hf & Ht)|(Hy & Hd')].
      * pose proof (leap_days y). rewrite Hf, Ht. change (march_year y (2 + 1)) with y.
        change (march_year y 2) with (y - 1). destruct (leap y); lia.
      * rewrite Hy. lia.
    + assert (m = 12) as -> by lia. split; [by unfold valid_date, days_in_month|].
      rewrite !days_of by lia. change (march_year (y + 1) 1) with (y + 1 - 1). rewrite Z.add_simpl_r.
      change (march_year y 12) with y. change (march_day 1 1) with (march_day 12 (days_in_month y 12) + 1). lia.
Qed.

Definition previous_date (date : Z * Z * Z) : Z * Z * Z :=
  let '(y, m, d) := date in
  if 1 <? d then (y, m, d - 1) else if 1 <? m then (y, m - 1, days_in_month y (m - 1)) else (y - 1, 12, 31).

Lemma days_in_month_pos y m : 28 <= days_in_month y m <= 31.
Proof. unfold days_in_month. repeat case_match; lia. Qed.

Lemma next_previous y m d : valid_date (y, m, d) ->
  valid_date (previous_date (y, m, d)) /\ next_date (previous_date (y, m, d)) = (y, m, d).
Proof.
  intros [Hm Hd]. unfold previous_date. destruct (Z.ltb_spec 1 d).
  - split; [split; [|lia]; done|]. unfold next_date. destruct (Z.ltb_spec (d - 1) (days_in_month y m)); [|lia].
    f_equal. lia.
  - assert (d = 1) as -> by lia. destruct (Z.ltb_spec 1 m).
    + pose proof (days_in_month_pos y (m - 1)). split; [split; lia|]. unfold next_date. rewrite Z.ltb_irrefl.
      destruct (Z.ltb_spec (m - 1) 12); [|lia]. repeat f_equal. lia.
    + assert (m = 1) as -> by lia. split; [by unfold valid_date, days_in_month|]. unfold next_date. cbn.
      repeat f_equal. lia.
Qed.

(** Every day number is the number of a date. *)
Lemma every_day z : exists y m d, valid_date (y, m, d) /\ days_from_civil y m d = z.
Proof.
  apply (Z.bi_induction (fun z => exists y m d, valid_date (y, m, d) /\ days_from_civil y m d = z)).
  - by intros ? ? ->.
  - exists 1970, 1, 1. by vm_compute.
  - clear z. intros z. split; intros (y & m & d & Hv & Hz).
    + destruct (next_days y m d Hv) as [Hv' Hz']. destruct (next_date (y, m, d)) as [[y' m'] d'].
      exists y', m', d'. split; [done|lia].
    + destruct (next_previous y m d Hv) as [Hv' Hn]. destruct (previous_date (y, m, d)) as [[y' m'] d'].
      destruct (next_days y' m' d' Hv') as [_ Hz']. rewrite Hn in Hz'. exists y', m', d'. split; [done|lia].
Qed.

Lemma civil_is_date z :
  valid_date (civil_from_days z) /\ (let '(y, m, d) := civil_from_days z in days_from_civil y m d = z).
Proof. destruct (every_day z) as (y & m & d & Hv & <-). by rewrite civil_days. Qed.

(** C34. The day conversions are the Gregorian calendar: day 0 is 1970-01-01, a Thursday;
    every day number is a date of the calendar, the next number is the next date and the
    next day of the week, and converting the date back gives the number. *)
Theorem calendar_correct z :
  civil_from_days 0 = (1970, 1, 1) /\ day_of_week 0 = 4 /\
  valid_date (civil_from_days z) /\
  civil_from_days (z + 1) = next_date (civil_from_days z) /\
  day_of_week (z + 1) = (day_of_week z + 1) mod 7 /\
  (let '(y, m, d) := civil_from_days z in days_from_civil y m d = z).
Proof.
  split_and!; try done.
  - apply civil_is_date.
  - destruct (civil_is_date z) as [Hv Hz]. destruct (civil_from_days z) as [[y m] d].
    destruct (next_days y m d Hv) as [Hv' Hz']. destruct (next_date (y, m, d)) as [[y' m'] d'].
    rewrite <- Hz, <- Hz'. by apply civil_days.
  - unfold day_of_week. Z.to_euclidean_division_equations. lia.
  - apply civil_is_date.
Qed.

(** ** Fields of a file time *)

(** The fields of a date in the 16-bit range give the same instant back. *)
Definition instant (l : list Z) : option Z :=
  match l with
  | [y; m; _; d; hour; minute; second; millis] =>
      Some ((days_from_civil y m d * 86400 + hour * 3600 + minute * 60 + second + EPOCH_OFFSET_SECS)
            * FILETIME_TICKS_PER_SEC + millis * 10000)
  | _ => None
  end.

Definition fields_of (ticks : Z) : list Z :=
  system_time_fields (Z.quot ticks FILETIME_TICKS_PER_SEC - EPOCH_OFFSET_SECS)
    (Z.quot (Z.rem ticks FILETIME_TICKS_PER_SEC) 10000).

Lemma march_day_range m d : 1 <= m <= 12 -> 1 <= d <= 31 -> 0 <= march_day m d <= 367.
Proof. intros. unfold march_day. Z.to_euclidean_division_equations. lia. Qed.

(** Years from 1601 on that a file time reaches. *)
Lemma year_range y m d : valid_date (y, m, d) -> -134774 <= days_from_civil y m d <= 10600000 -> 0 <= y <= 31010.
Proof.
  intros [Hm Hd] Hz. rewrite days_of in Hz by done. pose proof (days_in_month_pos y m).
  pose proof (march_day_range m d Hm ltac:(lia)). unfold march_year in Hz.
  assert (0 <= (if m <=? 2 then y - 1 else y) <= 31000) by (Z.to_euclidean_division_equations; lia).
  destruct (m <=? 2); lia.
Qed.

Lemma fields_ok ticks : 0 <= ticks < 2 ^ 63 ->
  length (fields_of ticks) = 8%nat /\ Forall (unit_range 2) (fields_of ticks) /\
  instant (fields_of ticks) = Some (ticks - ticks mod 10000).
Proof.
  intros Ht. unfold fields_of, FILETIME_TICKS_PER_SEC, EPOCH_OFFSET_SECS.
  rewrite (Z.quot_div_nonneg ticks), (Z.rem_mod_nonneg ticks) by lia.
  pose proof (Z.mod_pos_bound ticks 10000000 ltac:(lia)). rewrite (Z.quot_div_nonneg (ticks mod _)) by lia.
  unfold system_time_fields, split_unix_secs. set (secs := ticks / 10000000 - 11644473600).
  assert (Hsec : -11644473600 <= secs < 922337203686 - 11644473600)
    by (unfold secs; Z.to_euclidean_division_equations; lia).
  pose proof (Z.div_mod secs 86400 ltac:(lia)) as Hsplit. pose proof (Z.mod_pos_bound secs 86400 ltac:(lia)) as Hrem.
  set (rem := secs mod 86400) in *. set (days := secs / 86400) in *.
  destruct (civil_is_date days) as [Hv Hz]. destruct (civil_from_days days) as [[y m] d].
  assert (Hdays : -134774 <= days <= 10600000) by lia.
  pose proof (year_range y m d Hv ltac:(lia)) as Hy. destruct Hv as [Hm Hd].
  pose proof (days_in_month_pos y m) as Hdm. pose proof (Z.mod_pos_bound (days + 4) 7 ltac:(lia)) as Hw.
  rewrite !(Z.rem_mod_nonneg rem), (Z.quot_div_nonneg rem) by lia.
  pose proof (Z.mod_pos_bound rem 3600 ltac:(lia)). rewrite (Z.quot_div_nonneg (rem mod 3600)) by lia.
  set (ms := ticks mod 10000000 / 10000).
  assert (Hms : 0 <= ms < 1000) by (unfold ms; Z.to_euclidean_division_equations; lia).
  assert (Hhms : 0 <= rem / 3600 < 24 /\ 0 <= rem mod 3600 / 60 < 60 /\ 0 <= rem mod 60 < 60 /\
    rem / 3600 * 3600 + rem mod 3600 / 60 * 60 + rem mod 60 = rem)
    by (Z.to_euclidean_division_equations; lia).
  unfold day_of_week. cbn [map length]. rewrite !wrap_small by lia. split_and!; [done| |].
  - unfold unit_range. change (2 ^ (8 * Z.of_nat 2)) with 65536.
    repeat (apply list.Forall_cons_2; [lia|]). constructor.
  - cbn [instant]. rewrite Hz. f_equal. unfold EPOCH_OFFSET_SECS, FILETIME_TICKS_PER_SEC.
    replace (days * 86400 + rem / 3600 * 3600 + rem mod 3600 / 60 * 60 + rem mod 60) with secs by lia.
    unfold secs, ms. Z.to_euclidean_division_equations. lia.
Qed.

Section Round.
Context `{HW : Host W} `{HL : !HostLaws W} {E : Type}.

Lemma put_fields_at_ok st done l (w : W) :
  writable w st (2 * Z.of_nat (length (done ++ l))) ->
  put_fields_at (E := E) st (Z.of_nat (length done)) l (put 2 st done w) = (Ok tt, put 2 st (done ++ l) w).
Proof.
  revert done. induction l as [|f l IH]; intros done Hw; cbn [put_fields_at]; [by rewrite app_nil_r|].
  assert (Hu : uput (E := E) 2 st (Z.of_nat (length done)) f (put 2 st done w) = (Ok tt, put 2 st (done ++ [f]) w)).
  { rewrite uput_ok; [by rewrite put_app|]. apply writable_put. intros x Hx. apply Hw.
    rewrite length_app. simpl length. lia. }
  rewrite (mbind_ok _ _ _ _ _ Hu).
  replace (Z.of_nat (length done) + 1) with (Z.of_nat (length (done ++ [f]))) by (rewrite length_app; simpl; lia).
  assert (Ha : done ++ f :: l = (done ++ [f]) ++ l) by (by rewrite <- app_assoc).
  rewrite Ha in *. by apply IH.
Qed.

Lemma put_fields_ok st l (w : W) : writable w st (2 * Z.of_nat (length l)) ->
  put_fields (E := E) st l w = (Ok tt, put 2 st l w).
Proof. exact (put_fields_at_ok st [] l w). Qed.

(** A system time read back from its eight fields. *)
Lemma system_time_read st ft l t (w : W) :
  st <> 0 -> ft <> 0 -> holds 2 w st l -> length l = 8%nat -> instant l = Some t -> writable w ft 8 ->
  system_time_to_file_time (E := E) st ft w = (Ok 1, put 8 ft [wrap 64 t] w).
Proof.
  intros Hs Hf Hh Hlen Hi Hw. unfold system_time_to_file_time.
  apply Z.eqb_neq in Hs, Hf. rewrite Hs, Hf. cbn [orb].
  destruct l as [|y [|m [|dw [|d [|hh [|mm [|ss [|ms [|? ?]]]]]]]]]; try done. cbn [instant] in Hi. simplify_eq.
  do 8 match goal with |- context [uget 2 st ?i] =>
    rewrite (mbind_ok _ _ _ _ _ (uget_holds (E := E) 2 w st _ (Z.to_nat i) _ Hh eq_refl)) end.
  by rewrite (mbind_ok _ _ _ _ _ (write_int_put 8 ft _ w Hw)).
Qed.

(** FileTimeToSystemTime writes the eight fields of the instant and SystemTimeToFileTime
    gives the file time back from them, cut to whole milliseconds, for every non-negative
    file time; both refuse a null pointer. *)
Theorem file_time_round_trip ft st ft' ticks (w : W) :
  ft <> 0 -> st <> 0 -> ft' <> 0 -> 0 <= ticks < 2 ^ 63 ->
  holds 8 w ft [ticks] -> writable w st 16 -> readable w st 16 -> writable w ft' 8 ->
  let w1 := put 2 st (fields_of ticks) w in
  file_time_to_system_time (E := E) ft st w = (Ok 1, w1) /\
  system_time_to_file_time (E := E) st ft' w1 = (Ok 1, put 8 ft' [ticks - ticks mod 10000] w1) /\
  file_time_to_system_time (E := E) 0 st w = (Ok 0, w) /\
  system_time_to_file_time (E := E) st 0 w1 = (Ok 0, w1).
Proof.
  intros Hft Hst Hft' Ht Hh Hw Hr Hw' w1. destruct (fields_ok ticks Ht) as (Hlen & Hrange & Hinst).
  split_and!.
  - unfold file_time_to_system_time. apply Z.eqb_neq in Hft, Hst. rewrite Hft, Hst. cbn [orb].
    pose proof (uget_holds (E := E) 8 w ft _ 0 ticks Hh eq_refl) as Hg. unfold uget in Hg.
    rewrite Z.mul_0_r, Z.add_0_r in Hg. rewrite (mbind_ok _ _ _ _ _ Hg).
    assert (to_signed 64 ticks = ticks) as -> by (unfold to_signed; rewrite wrap_small by lia; case_match; lia).
    fold (fields_of ticks). rewrite (mbind_ok _ _ _ _ _ (put_fields_ok st _ w ltac:(by rewrite Hlen))). done.
  - rewrite (system_time_read st ft' (fields_of ticks) (ticks - ticks mod 10000)); [|done|done| |done|done|].
    + rewrite wrap_small; [done|]. Z.to_euclidean_division_equations. lia.
    + apply holds_put; [done|]. by rewrite Hlen.
    + by apply writable_put.
  - done.
  - unfold system_time_to_file_time. by rewrite orb_true_r.
Qed.
End Round.

(** 2024-02-29 12:34:56.789 and a tick of 100 ns more. *)
Definition leap_day : Z := 133536836967890001.

Definition time_world : SmallHost.World :=
  put 8 4096 [leap_day] (snd (sys_mmap 0 256 false SmallHost.empty)).

Lemma file_time_round_trip_witness :
  fields_of leap_day = [2024; 2; 4; 29; 12; 34; 56; 789] /\
  system_time_to_file_time (E := Empty_set) 4112 4144 (put 2 4112 [2024; 2; 4; 29; 12; 34; 56; 789] time_world)
    = (Ok 1, put 8 4144 [133536836967890000] (put 2 4112 [2024; 2; 4; 29; 12; 34; 56; 789] time_world)).
Proof.
  split; [vm_compute; reflexivity|].
  refine (proj1 (proj2 (file_time_round_trip (E := Empty_set) 4096 4112 4144 leap_day time_world
    ltac:(discriminate) ltac:(discriminate) ltac:(discriminate) ltac:(split; [discriminate|reflexivity])
    ltac:(apply holds_b_sound; vm_compute; reflexivity) ltac:(apply may_all_writable; vm_compute; reflexivity)
    ltac:(apply may_all_readable; vm_compute; reflexivity) ltac:(apply may_all_writable; vm_compute; reflexivity)))).
Defined.
