(* ===== verification/HostAlloc.v ===== *)
(** * The allocator of the host

    [libc::malloc], [realloc] and [free], and the allocator of the Rust runtime
    above them, as the layer's own code uses them. The allocator is not part of
    the program: it is an interface, a class of operations with the laws that its
    documentation gives. Which blocks are live, and which memory is the
    allocator's own, is ghost state. *)
From Stdlib Require Import ZArith Lia.
From stdpp Require Import base list option gmap.
From S2P Require Import Prelude PeHost GuestMem.
Local Open Scope rust_scope.
Local Open Scope Z_scope.
Set Warnings "-register-all".

(** An address of one of the blocks. *)
Definition in_blocks (bs : gmap Z Z) (x : Z) : Prop := exists a n, bs !! a = Some n /\ a <= x < a + n.

Lemma in_blocks_delete bs a x : in_blocks (delete a bs) x -> in_blocks bs x.
Proof. intros (b & n & H & Hx). apply lookup_delete_Some in H as [_ H]. by exists b, n. Qed.

Class Allocator (W : Type) := {
  (** The live blocks, from base to size, and the addresses the allocator manages. *)
  blocks : W -> gmap Z Z;
  arena : W -> Z -> bool;
  libc_malloc : Z -> W -> Z * W;
  libc_realloc : Z -> Z -> W -> Z * W;
  libc_free : Z -> W -> W
}.

Section Ghost.
Context `{HW : Host W} `{HA : Allocator W}.

(** Mapped memory that the allocator does not manage. *)
Definition foreign (w : W) (x : Z) : Prop := prot_at w x <> None /\ arena w x = false.

Definition same_at (w w' : W) (x : Z) : Prop := prot_at w' x = prot_at w x /\ byte_at w' x = byte_at w x.

(** A call of the allocator leaves alone the blocks that stay live and foreign memory. *)
Definition unharmed (kept : gmap Z Z) (w w' : W) : Prop :=
  (forall x, in_blocks kept x -> same_at w w' x) /\ (forall x, foreign w x -> same_at w w' x /\ foreign w' x).

(** A block of [n] bytes at [a], new beside the blocks [kept]. *)
Definition new_block (kept : gmap Z Z) (w w' : W) (a n : Z) : Prop :=
  0 < a /\ a + n <= 2 ^ 63 /\ kept !! a = None /\ blocks w' = <[a := n]> kept /\
  forall x, a <= x < a + n -> prot_at w' x = Some prot_rw /\ ~ in_blocks kept x /\ ~ foreign w x.
End Ghost.

Class AllocatorLaws (W : Type) `{Host W} `{Allocator W} := {
  blocks_arena (w : W) x : in_blocks (blocks w) x -> arena w x = true;
  malloc_ok n (w : W) a w' : 0 < n -> libc_malloc n w = (a, w') -> a <> 0 ->
    new_block (blocks w) w w' a n /\ unharmed (blocks w) w w';
  malloc_failed n (w : W) w' : 0 < n -> libc_malloc n w = (0, w') -> blocks w' = blocks w /\ unharmed (blocks w) w w';
  realloc_ok a m n (w : W) r w' : 0 < n -> blocks w !! a = Some m -> libc_realloc a n w = (r, w') -> r <> 0 ->
    new_block (delete a (blocks w)) w w' r n /\ unharmed (delete a (blocks w)) w w' /\
    (forall i, 0 <= i < Z.min m n -> byte_at w' (r + i) = byte_at w (a + i));
  realloc_failed a m n (w : W) w' : 0 < n -> blocks w !! a = Some m -> libc_realloc a n w = (0, w') ->
    blocks w' = blocks w /\ unharmed (blocks w) w w';
  free_ok a n (w : W) : blocks w !! a = Some n ->
    blocks (libc_free a w) = delete a (blocks w) /\ unharmed (delete a (blocks w)) w (libc_free a w);
  (** A store to a live block or to foreign memory is none of the allocator's business. *)
  store_blocks a v (w : W) : is_byte v -> in_blocks (blocks w) a \/ foreign w a ->
    blocks (set_byte a v w) = blocks w /\ forall x, arena (set_byte a v w) x = arena w x
}.

Section Facts.
Context `{HW : Host W} `{HL : !HostLaws W} `{HA : Allocator W} `{HAL : !AllocatorLaws W}.

Lemma set_bytes_blocks bs : forall a (w : W), Forall is_byte bs ->
  (forall x, a <= x < a + Z.of_nat (length bs) -> in_blocks (blocks w) x \/ foreign w x) ->
  blocks (set_bytes a bs w) = blocks w /\ forall x, arena (set_bytes a bs w) x = arena w x.
Proof.
  induction bs as [|b bs IH]; intros a w Hb Hx; [done|]. inversion_clear Hb as [|? ? Hb1 Hbs]. cbn [length set_bytes] in *.
  destruct (store_blocks a b w Hb1 (Hx a ltac:(lia))) as [E1 E2]. destruct (IH (a + 1) (set_byte a b w) Hbs) as [E3 E4].
  - intros x Hr. rewrite E1. unfold foreign. rewrite prot_set, E2. apply Hx. lia.
  - split; [by rewrite E3|]. intros x. by rewrite E4.
Qed.

Lemma put_blocks k a l (w : W) :
  (forall x, a <= x < a + Z.of_nat k * Z.of_nat (length l) -> in_blocks (blocks w) x \/ foreign w x) ->
  blocks (put k a l w) = blocks w /\ forall x, foreign (put k a l w) x <-> foreign w x.
Proof.
  intros Hx. unfold put. destruct (set_bytes_blocks (concat (map (le_bytes k) l)) a w (units_bytes k l)) as [E1 E2].
  - by rewrite length_units.
  - split; [done|]. intros x. unfold foreign. by rewrite E2, prot_set_bytes.
Qed.

Lemma block_not_foreign (w : W) x : in_blocks (blocks w) x -> ~ foreign w x.
Proof. intros H [_ Hf]. by rewrite (blocks_arena w x H) in Hf. Qed.

Lemma same_at_trans (w1 w2 w3 : W) x : same_at w1 w2 x -> same_at w2 w3 x -> same_at w1 w3 x.
Proof. intros [H1 H2] [H3 H4]. split; congruence. Qed.

(** The addresses of a new block. *)
Lemma new_block_in kept (w w' : W) a n x : new_block kept w w' a n -> a <= x < a + n -> in_blocks (blocks w') x.
Proof. intros (_ & _ & _ & E & _) Hx. rewrite E. exists a, n. by rewrite lookup_insert_eq. Qed.

(** Memory the allocator does not manage is left alone. *)
Definition spared (w w' : W) : Prop := forall x, foreign w x -> same_at w w' x /\ foreign w' x.

Lemma spared_refl w : spared w w.
Proof. done. Qed.

Lemma spared_trans w1 w2 w3 : spared w1 w2 -> spared w2 w3 -> spared w1 w3.
Proof. intros H1 H2 x Hx. destruct (H1 x Hx) as [S1 F1]. destruct (H2 x F1) as [S2 F2]. split; [by eapply same_at_trans|done]. Qed.

Lemma rw_range (w : W) a n : (forall x, a <= x < a + n -> prot_at w x = Some prot_rw) -> readable w a n /\ writable w a n.
Proof. intros H. split; intros x Hx; unfold may; by rewrite H. Qed.

Lemma unit_byte (w : W) p i : le_val (get_bytes w (p + Z.of_nat 1 * i) (Z.of_nat 1)) = byte_at w (p + i).
Proof. change (byte_at w (p + Z.of_nat 1 * i) + 256 * 0 = byte_at w (p + i)). rewrite Z.add_0_r. f_equal. lia. Qed.

Lemma holds_get_bytes (w : W) p n : 0 <= n -> readable w p n -> holds 1 w p (get_bytes w p n).
Proof.
  intros Hn Hr. split; [rewrite get_bytes_length; intros x Hx; apply Hr; lia|]. intros i u Hi.
  pose proof (lookup_lt_Some _ _ _ Hi) as Hl. rewrite get_bytes_length in Hl.
  rewrite <- (Nat2Z.id i), get_bytes_lookup in Hi by lia. injection Hi as <-. apply unit_byte.
Qed.

Lemma bytes_holds (w : W) p l : holds 1 w p l -> get_bytes w p (Z.of_nat (length l)) = l.
Proof.
  intros [_ Hv]. apply list_eq. intros i. destruct (decide (i < length l)%nat) as [Hi|Hi].
  - destruct (lookup_lt_is_Some_2 l i Hi) as [u Hu]. rewrite Hu. rewrite <- (Nat2Z.id i), get_bytes_lookup by lia. f_equal.
    rewrite <- (Hv i u Hu). by rewrite unit_byte.
  - rewrite !lookup_ge_None_2; [done|lia|]. rewrite get_bytes_length. lia.
Qed.

(** Stores inside a block leave the ghost state and everything outside alone. *)
Lemma put_in_block k a l (w : W) raw n : blocks w !! raw = Some n -> raw <= a -> a + Z.of_nat k * Z.of_nat (length l) <= raw + n ->
  blocks (put k a l w) = blocks w /\ spared w (put k a l w) /\
  (forall x, in_range raw n x = false -> same_at w (put k a l w) x).
Proof.
  intros Hb H1 H2.
  assert (Hin : forall x, a <= x < a + Z.of_nat k * Z.of_nat (length l) -> in_blocks (blocks w) x) by (intros x Hx; exists raw, n; split; [done|lia]).
  destruct (put_blocks k a l w) as [E1 E2]; [by left; apply Hin|].
  assert (Hs : forall x, in_range a (Z.of_nat k * Z.of_nat (length l)) x = false -> same_at w (put k a l w) x).
  { intros x Hx. split; [apply prot_put|by apply byte_put_out]. }
  split; [done|]. split.
  - intros x Hx. split; [|by apply E2]. apply Hs. apply not_true_iff_false. intros R%in_range_spec.
    by apply (block_not_foreign w x); [apply Hin|].
  - intros x Hx. apply Hs. apply in_range_false in Hx. apply in_range_false. lia.
Qed.

Lemma put_record_in_block fs : forall p lo hi (w : W) raw n, blocks w !! raw = Some n -> laid_out lo hi fs -> raw <= p + lo -> p + hi <= raw + n ->
  blocks (put_record p fs w) = blocks w /\ spared w (put_record p fs w) /\
  (forall x, in_range raw n x = false -> same_at w (put_record p fs w) x).
Proof.
  induction fs as [|[[k off] v] fs IH]; intros p lo hi w raw n Hb Hl H1 H2; [done|]. destruct Hl as (Hl1 & _ & Hl2).
  pose proof (laid_out_le _ _ _ Hl2).
  change (put_record p ((k, off, v) :: fs) w) with (put_record p fs (put k (p + off) [v] w)).
  destruct (put_in_block k (p + off) [v] w raw n Hb ltac:(lia) ltac:(cbn [length]; lia)) as (B1 & S1 & O1).
  destruct (IH p (off + Z.of_nat k) hi (put k (p + off) [v] w) raw n) as (B2 & S2 & O2); [by rewrite B1|done|lia|lia|].
  split_and!; [by rewrite B2| |].
  - by eapply spared_trans.
  - intros x Hx. eapply same_at_trans; [by apply O1|by apply O2].
Qed.

(** A new block filled in: the other blocks and foreign memory are as before. *)
Lemma fill_block kept (w w1 w2 : W) a n : new_block kept w w1 a n -> unharmed kept w w1 ->
  spared w1 w2 -> (forall x, in_range a n x = false -> same_at w1 w2 x) -> unharmed kept w w2.
Proof.
  intros (_ & _ & _ & _ & Hn) [Hk Hf] Hs Ho. split.
  - intros x Hx. eapply same_at_trans; [by apply Hk|]. apply Ho. apply not_true_iff_false. intros R%in_range_spec. by destruct (Hn x R) as (_ & H & _).
  - exact (spared_trans _ _ _ Hf Hs).
Qed.

Lemma unharmed_trans kept kept' (w1 w2 w3 : W) : kept ⊆ kept' -> unharmed kept w1 w2 -> unharmed kept' w2 w3 -> unharmed kept w1 w3.
Proof.
  intros Hk [H1 H2] [H3 H4]. split.
  - intros x Hx. eapply same_at_trans; [by apply H1|]. apply H3. destruct Hx as (a & n & Ha & Hr). exists a, n.
    split; [|done]. by eapply lookup_weaken.
  - exact (spared_trans _ _ _ H2 H4).
Qed.
End Facts.

(** Ranges with no address in common lie apart. *)
Lemma disjoint_apart a n b m : 0 < n -> 0 < m -> (forall x, a <= x < a + n -> b <= x < b + m -> False) -> apart a n b m.
Proof.
  intros Hn Hm H. unfold apart. destruct (Z.le_gt_cases (a + n) b); [by left|]. destruct (Z.le_gt_cases (b + m) a); [by right|].
  exfalso. apply (H (Z.max a b)); lia.
Qed.

(** ** An executable allocator

    Every block is a mapping of its own; freed memory is not used again. *)
Module SmallAlloc.
Record World := mkWorld { small : SmallHost.World; live : gmap Z Z }.

Definition empty : World := mkWorld SmallHost.empty ∅.

#[global] Instance small_host : Host World := {
  sysconf_page := 16;
  byte_at w := byte_at (small w);
  prot_at w := prot_at (small w);
  set_byte a v w := mkWorld (set_byte a v (small w)) (live w);
  sys_mmap hint len fixed w := let '(r, w') := sys_mmap hint len fixed (small w) in (r, mkWorld w' (live w));
  sys_munmap a len w := mkWorld (sys_munmap a len (small w)) (live w);
  sys_mprotect a len p w := let '(r, w') := sys_mprotect a len p (small w) in (r, mkWorld w' (live w))
}.

#[global] Program Instance small_host_laws : HostLaws World := { page_shift := 4 }.
Next Obligation. lia. Qed.
Next Obligation. done. Qed.
Next Obligation. intros w a. exact (byte_at_range (small w) a). Qed.
Next Obligation. intros w a v x Hv. exact (byte_set (small w) a v x Hv). Qed.
Next Obligation. done. Qed.
Next Obligation.
  intros hint len fixed w b w' Hpos Hlen Hm. cbn [sys_mmap small_host] in Hm.
  destruct (sys_mmap hint len fixed (small w)) as [r w1] eqn:E. injection Hm as -> <-.
  exact (mmap_ok hint len fixed (small w) b w1 Hpos Hlen E).
Qed.
Next Obligation.
  intros hint len fixed w w' x Hm. cbn [sys_mmap small_host] in Hm.
  destruct (sys_mmap hint len fixed (small w)) as [r w1] eqn:E. injection Hm as -> <-.
  exact (mmap_failed hint len fixed (small w) w1 x E).
Qed.
Next Obligation. intros a len w x. exact (munmap_prot a len (small w) x). Qed.
Next Obligation. intros a len w x. exact (munmap_byte a len (small w) x). Qed.
Next Obligation.
  intros a len p w x. pose proof (mprotect_byte a len p (small w) x) as H. cbn [sys_mprotect small_host].
  by destruct (sys_mprotect a len p (small w)).
Qed.
Next Obligation.
  intros a len p w w' x Ha Hl Hm. cbn [sys_mprotect small_host] in Hm. destruct (sys_mprotect a len p (small w)) as [r w1] eqn:E.
  injection Hm as -> <-. exact (mprotect_ok a len p (small w) w1 x Ha Hl E).
Qed.
Next Obligation.
  intros a len p w x Ha Hl. pose proof (mprotect_failed a len p (small w) x Ha Hl) as H. cbn [sys_mprotect small_host].
  by destruct (sys_mprotect a len p (small w)).
Qed.

Definition beside (a n : Z) (bs : gmap Z Z) : bool :=
  forallb (fun '(b, m) => (a + n <=? b) || (b + m <=? a)) (map_to_list bs).

Definition rounded (n : Z) : Z := (n + 15) / 16 * 16.

Definition malloc (n : Z) (w : World) : Z * World :=
  match sys_mmap 0 (rounded n) false (small w) with
  | (Some a, w1) =>
      if beside a (rounded n) (live w) && bool_decide (live w !! a = None) then (a, mkWorld w1 (<[a := n]> (live w))) else (0, w)
  | (None, _) => (0, w)
  end.

Definition realloc (a n : Z) (w : World) : Z * World :=
  match live w !! a, malloc n w with
  | Some m, (r, w1) =>
      if r =? 0 then (0, w)
      else (r, mkWorld (set_bytes r (get_bytes (small w) a (Z.min m n)) (small w1)) (delete a (live w1)))
  | None, _ => (0, w)
  end.

#[global] Instance small_allocator : Allocator World := {
  blocks := live;
  arena w x := existsb (fun '(a, n) => in_range a n x) (map_to_list (live w));
  libc_malloc := malloc;
  libc_realloc := realloc;
  libc_free a w := mkWorld (small w) (delete a (live w))
}.

Lemma arena_blocks (w : World) x : arena w x = true <-> in_blocks (live w) x.
Proof.
  unfold arena, small_allocator. rewrite existsb_exists. split.
  - intros ([a n] & Hin & Hx). exists a, n. split; [by apply elem_of_map_to_list, list_elem_of_In|]. by apply in_range_spec.
  - intros (a & n & H & Hx). exists (a, n). split; [by apply list_elem_of_In, elem_of_map_to_list|]. by apply in_range_spec.
Qed.

Lemma not_arena (w : World) x : arena w x = false <-> ~ in_blocks (live w) x.
Proof. rewrite <- arena_blocks. destruct (arena w x); intuition congruence. Qed.

Lemma beside_spec a n bs x : beside a n bs = true -> a <= x < a + n -> ~ in_blocks bs x.
Proof.
  unfold beside. rewrite forallb_forall. intros H Hx (b & m & Hb & Hr). specialize (H (b, m)). cbn in H.
  rewrite orb_true_iff, !Z.leb_le in H. destruct H; [by apply list_elem_of_In, elem_of_map_to_list|lia..].
Qed.

Lemma rounded_spec n : 0 < n -> n <= rounded n /\ rounded n mod 16 = 0.
Proof.
  intros Hn. unfold rounded. split; [|apply Z.mod_mul; lia].
  pose proof (Z.div_mod (n + 15) 16 ltac:(lia)). pose proof (Z.mod_pos_bound (n + 15) 16 ltac:(lia)). lia.
Qed.

Lemma in_blocks_insert bs a n x : in_blocks (<[a := n]> bs) x -> a <= x < a + n \/ in_blocks bs x.
Proof.
  intros (b & m & H & Hx). apply lookup_insert_Some in H as [[<- <-]|[_ H]]; [by left|]. right. by exists b, m.
Qed.

Lemma unharmed_refl kept (w : World) : unharmed kept w w.
Proof. done. Qed.

Lemma malloc_ok n (w : World) a w' : 0 < n -> malloc n w = (a, w') -> a <> 0 ->
  new_block (live w) w w' a n /\ unharmed (live w) w w'.
Proof.
  intros Hn Hm Ha. destruct (rounded_spec n Hn) as [Hr Hr']. unfold malloc in Hm.
  destruct (sys_mmap 0 (rounded n) false (small w)) as [[b|] w1] eqn:E; [|by injection Hm].
  destruct (beside b (rounded n) (live w)) eqn:B; [|by injection Hm]. case_bool_decide as Hl; [|by injection Hm]. injection Hm as -> <-.
  change (rounded n mod page_size (W := SmallHost.World) = 0) in Hr'.
  destruct (mmap_ok 0 (rounded n) false (small w) a w1 ltac:(lia) Hr' E) as (H1 & H2 & _ & H3 & H4 & H5).
  assert (Hs : forall x, in_range a (rounded n) x = false -> same_at w (mkWorld w1 (<[a := n]> (live w))) x).
  { intros x Hx. split; [change (prot_at w1 x = prot_at (small w) x); rewrite H4|change (byte_at w1 x = byte_at (small w) x); rewrite H5]; by rewrite Hx. }
  assert (Hf : forall x, foreign w x -> in_range a (rounded n) x = false).
  { intros x [Hx _]. apply not_true_iff_false. intros R. apply in_range_spec in R. by apply Hx, H3. }
  split; [split_and!; [done|lia|done|done|]|split].
  - intros x Hx. split_and!.
    + change (prot_at w1 x = Some prot_rw). rewrite H4. by replace (in_range a (rounded n) x) with true by (symmetry; apply in_range_spec; lia).
    + apply (beside_spec a (rounded n)); [done|lia].
    + intros [Hp _]. apply Hp, H3. lia.
  - intros x Hx. apply Hs, not_true_iff_false. intros R. apply in_range_spec in R. by apply (beside_spec _ _ _ _ B R).
  - intros x Hx. pose proof (Hs x (Hf x Hx)) as Hx'. split; [exact Hx'|]. split; [rewrite (proj1 Hx'); apply Hx|].
    apply not_arena. intros [Hin|Hin]%in_blocks_insert.
    + apply Hf, in_range_false in Hx. lia.
    + destruct Hx as [_ Hx]. by apply not_arena in Hx.
Qed.

Lemma malloc_failed n (w w' : World) : 0 < n -> malloc n w = (0, w') -> w' = w.
Proof.
  intros Hn. unfold malloc. destruct (rounded_spec n Hn) as [Hr Hr'].
  destruct (sys_mmap 0 (rounded n) false (small w)) as [[b|] w1] eqn:E; [|by intros [= <-]].
  destruct (beside b (rounded n) (live w)) eqn:B; [|by intros [= <-]]. case_bool_decide as Hl; [|by intros [= <-]].
  intros [= -> <-]. change (rounded n mod page_size (W := SmallHost.World) = 0) in Hr'.
  destruct (mmap_ok 0 (rounded n) false (small w) 0 w1 ltac:(lia) Hr' E). lia.
Qed.

(** The bytes move to the new block, and the old one is given up. *)
Lemma realloc_laws a m n (w : World) r w' : 0 < n -> live w !! a = Some m -> realloc a n w = (r, w') -> r <> 0 ->
  new_block (delete a (live w)) w w' r n /\ unharmed (delete a (live w)) w w' /\
  (forall i, 0 <= i < Z.min m n -> byte_at w' (r + i) = byte_at w (a + i)).
Proof.
  intros Hn Hl Hm Hr0. unfold realloc in Hm. rewrite Hl in Hm. destruct (malloc n w) as [r' w1] eqn:E.
  destruct (Z.eqb_spec r' 0) as [_|Hr']; [by injection Hm as <- _|]. injection Hm as -> <-.
  destruct (malloc_ok n w r w1 Hn E Hr0) as [(H1 & H2 & H3 & H4 & H5) [Hk Hf]]. cbn [blocks small_allocator] in H4.
  assert (Hne : r <> a) by (intros ->; congruence).
  set (bs := get_bytes (small w) a (Z.min m n)). set (w2 := mkWorld _ _).
  assert (Hbs : Forall is_byte bs) by apply get_bytes_range. assert (Hlen : length bs = Z.to_nat (Z.min m n)) by apply get_bytes_length.
  assert (Hout : forall x, in_range r n x = false -> same_at w1 w2 x).
  { intros x Hx. split; [apply (prot_set_bytes (W := SmallHost.World))|].
    change (byte_at (set_bytes r bs (small w1)) x = byte_at (small w1) x). rewrite byte_set_bytes by done.
    by replace (in_range r (Z.of_nat (length bs)) x) with false by (symmetry; apply in_range_false in Hx; apply in_range_false; lia). }
  assert (Hnew : forall x, in_blocks (live w) x \/ foreign w x -> in_range r n x = false).
  { intros x Hx. apply not_true_iff_false. intros R. apply in_range_spec in R. destruct (H5 x R) as (_ & Hb & Hg). tauto. }
  assert (Hlive : live w2 = <[r := n]> (delete a (live w))) by (unfold w2; cbn; rewrite H4; by apply delete_insert_ne).
  split; [split_and!; [done|done| |exact Hlive|]|split; [split|]].
  - rewrite lookup_delete_ne by done. exact H3.
  - intros x Hx. destruct (H5 x Hx) as (Hp & Hb & Hg). split_and!; [|by intros Hd%in_blocks_delete|done].
    rewrite <- Hp. apply (prot_set_bytes (W := SmallHost.World)).
  - intros x Hx%in_blocks_delete. eapply same_at_trans; [by apply Hk|]. apply Hout, Hnew. by left.
  - intros x Hx. destruct (Hf x Hx) as [Hs Hg]. assert (Hx' : same_at w w2 x) by (eapply same_at_trans; [exact Hs|]; apply Hout, Hnew; by right).
    split; [exact Hx'|]. split; [rewrite (proj1 Hx'); apply Hx|]. apply not_arena. rewrite Hlive. intros [Hin|Hin]%in_blocks_insert.
    + specialize (Hnew x (or_intror Hx)). apply in_range_false in Hnew. lia.
    + apply in_blocks_delete in Hin. destruct Hx as [_ Hx]. by apply not_arena in Hx.
  - intros i Hi. change (byte_at (set_bytes r bs (small w1)) (r + i) = byte_at (small w) (a + i)). rewrite byte_set_bytes by done. replace (in_range r _ (r + i)) with true by (symmetry; apply in_range_spec; lia).
    replace (Z.to_nat (r + i - r)) with (Z.to_nat i) by lia. apply nth_lookup_Some. unfold bs. by apply get_bytes_lookup.
Qed.

#[global] Instance small_allocator_laws : AllocatorLaws World.
Proof.
  split.
  - intros w x Hx. by apply arena_blocks.
  - exact malloc_ok.
  - intros n w w' Hn H. cbn in H. apply malloc_failed in H as ->; done.
  - intros a m n w r w' Hn Hl. by apply realloc_laws.
  - intros a m n w w' Hn Hl H. cbn in H, Hl. unfold realloc in H. rewrite Hl in H. destruct (malloc n w) as [r w1] eqn:E.
    destruct (Z.eqb_spec r 0) as [->|Hr]; [by injection H as <-|]. by injection H as -> _.
  - intros a n w Hl. split; [done|]. split; [done|]. intros x [Hp Ha]. split; [done|]. split; [done|].
    apply not_arena. intros Hin%in_blocks_delete. by apply not_arena in Ha.
  - intros a v w _ _. by split.
Qed.
End SmallAlloc.
