(* ===== verification/K32Heap.v ===== *)
(** * Heaps ([win32-kernel32/src/heap.rs])

    [HeapAlloc], [HeapReAlloc] and [HeapFree] over the allocator of the host, with
    the size of each block in a header before its payload, and the handles of
    heaps. The calls refine a map from payloads to their contents. *)
From Stdlib Require Import ZArith Lia.
From stdpp Require Import base list option gmap.
From S2P Require Import Prelude PeHost GuestMem HostAlloc.
Local Open Scope rust_scope.
Local Open Scope Z_scope.
Set Warnings "-register-all".

(** ** The calls *)

Definition HEAP_HANDLE : Z := 0x0001000000000001.
Definition ERROR_NOT_ENOUGH_MEMORY : Z := 8.
Definition HEADER_SIZE : Z := 8.
Definition HEAP_ZERO_MEMORY : Z := 0x08.

(** Memory, the last error of the process, and the handles of live heaps. *)
Record Heap (W : Type) : Type := mkHeap { heap_mem : W; last_error : Z; known_heaps : gset Z }.
Arguments mkHeap {W}.
Arguments heap_mem {W}.
Arguments last_error {W}.
Arguments known_heaps {W}.

Section Calls.
Context `{HW : Host W} `{HA : Allocator W} {E : Type}.
Local Abbreviation H := (M (Heap W) E).

Definition in_memory {A} (m : M W E A) : H A := fun s =>
  let '(r, w) := m (heap_mem s) in (r, mkHeap w (last_error s) (known_heaps s)).

Definition with_heaps {A} (f : gset Z -> A * gset Z) : H A := fun s =>
  let '(a, g) := f (known_heaps s) in (Ok a, mkHeap (heap_mem s) (last_error s) g).

Definition set_heap_error (code : Z) : H unit := fun s => (Ok tt, mkHeap (heap_mem s) code (known_heaps s)).

Definition malloc (n : Z) : H Z := in_memory (fun w => let '(a, w) := libc_malloc n w in (Ok a, w)).
Definition realloc (base n : Z) : H Z := in_memory (fun w => let '(a, w) := libc_realloc base n w in (Ok a, w)).
Definition free (base : Z) : H unit := in_memory (fun w => (Ok tt, libc_free base w)).

(** [write_bytes(p, 0, n)]. *)
Definition write_zeros (p n : Z) : H unit := in_memory (put_list 1 p (replicate (Z.to_nat n) 0)).

Definition zero_memory (flags : Z) : bool := negb (Z.land flags HEAP_ZERO_MEMORY =? 0).

Definition ensure_default_heap : H unit :=
  with_heaps (fun g => (tt, if bool_decide (g = ∅) then {[HEAP_HANDLE]} ∪ g else g)).

Definition get_process_heap : H Z := ensure_default_heap ;;; mret HEAP_HANDLE.

Definition heap_create (fl_options initial_size max_size : Z) : H Z :=
  with_heaps (fun g => let next := wrap 64 (0x0001000000000002 + Z.of_nat (size g)) in (next, {[next]} ∪ g)).

Definition heap_destroy (heap : Z) : H Z :=
  with_heaps (fun g => (if bool_decide (heap ∈ g) || (heap =? HEAP_HANDLE) then 1 else 0, g ∖ {[heap]})).

Definition heap_alloc (heap flags bytes : Z) : H Z :=
  let total := Z.min (bytes + HEADER_SIZE) u64_max in
  let! raw := malloc total in
  if raw =? 0 then set_heap_error ERROR_NOT_ENOUGH_MEMORY ;;; mret 0
  else
    in_memory (write_int 8 raw bytes) ;;;
    let payload := raw + HEADER_SIZE in
    (if zero_memory flags then write_zeros payload bytes else mret tt) ;;;
    mret payload.

Definition heap_free (heap flags mem : Z) : H Z :=
  if mem =? 0 then mret 1
  else
    let base := wrap 64 (mem - HEADER_SIZE) in
    free base ;;;
    mret 1.

Definition heap_re_alloc (heap flags mem bytes : Z) : H Z :=
  if mem =? 0 then heap_alloc 0 flags bytes
  else
    let base := wrap 64 (mem - HEADER_SIZE) in
    let total := Z.min (bytes + HEADER_SIZE) u64_max in
    let! new_raw := realloc base total in
    if new_raw =? 0 then set_heap_error ERROR_NOT_ENOUGH_MEMORY ;;; mret 0
    else
      let! old_bytes := in_memory (read_int 8 new_raw) in
      in_memory (write_int 8 new_raw bytes) ;;;
      let payload := new_raw + HEADER_SIZE in
      (if zero_memory flags && (old_bytes <? bytes) then write_zeros (payload + old_bytes) (bytes - old_bytes) else mret tt) ;;;
      mret payload.
End Calls.

(** ** The guest of a heap

    It calls the heap, and reads and writes bytes of its blocks. *)
Inductive hop : Type :=
  | HAlloc (flags bytes : Z)
  | HReAlloc (flags mem bytes : Z)
  | HFree (mem : Z)
  | HPeek (mem i : Z)
  | HPoke (mem i v : Z).

Inductive hguest : Type :=
  | HRet (r : Z)
  | HDo (op : hop) (k : Z -> hguest).

Section Guests.
Context `{HW : Host W} `{HA : Allocator W} {E : Type}.
Local Abbreviation H := (M (Heap W) E).

Definition run_hop (op : hop) : H Z :=
  match op with
  | HAlloc flags n => heap_alloc HEAP_HANDLE flags n
  | HReAlloc flags p n => heap_re_alloc HEAP_HANDLE flags p n
  | HFree p => heap_free HEAP_HANDLE 0 p
  | HPeek p i => in_memory (uget 1 p i)
  | HPoke p i v => in_memory (uput 1 p i v) ;;; mret 0
  end.

Fixpoint run_hguest (g : hguest) : H Z :=
  match g with
  | HRet r => mret r
  | HDo op k => let! r := run_hop op in run_hguest (k r)
  end.
End Guests.

(** ** What a heap promises

    Live payloads with their contents, and the last error. *)
Record Spec : Type := mkSpec { payloads : gmap Z (list Z); error : Z }.

Definition live_or_null (A : Spec) (p : Z) : Prop := p = 0 \/ is_Some (payloads A !! p).

(** What a correct guest may do. *)
Definition legal (A : Spec) (op : hop) : Prop :=
  match op with
  | HAlloc _ n => 0 <= n < 2 ^ 64
  | HReAlloc _ p n => live_or_null A p /\ 0 <= n < 2 ^ 64
  | HFree p => live_or_null A p
  | HPeek p i => exists l, payloads A !! p = Some l /\ 0 <= i < Z.of_nat (length l)
  | HPoke p i v => is_byte v /\ exists l, payloads A !! p = Some l /\ 0 <= i < Z.of_nat (length l)
  end.

(** A block of [n] bytes that starts with [old]; the rest is zero if asked for. *)
Definition extends (flags n : Z) (old l : list Z) : Prop :=
  Z.of_nat (length l) = n /\ take (length l) old `prefix_of` l /\
  (zero_memory flags = true -> drop (length old) l = replicate (length l - length old) 0).

Inductive spec_step (A : Spec) : hop -> Z -> Spec -> Prop :=
  | spec_alloc flags n p l : p <> 0 -> payloads A !! p = None -> extends flags n [] l ->
      spec_step A (HAlloc flags n) p (mkSpec (<[p := l]> (payloads A)) (error A))
  | spec_alloc_fails flags n :
      spec_step A (HAlloc flags n) 0 (mkSpec (payloads A) ERROR_NOT_ENOUGH_MEMORY)
  | spec_realloc_null flags n r A' : spec_step A (HAlloc flags n) r A' -> spec_step A (HReAlloc flags 0 n) r A'
  | spec_realloc flags p n old r l : p <> 0 -> payloads A !! p = Some old -> r <> 0 ->
      delete p (payloads A) !! r = None -> extends flags n old l ->
      spec_step A (HReAlloc flags p n) r (mkSpec (<[r := l]> (delete p (payloads A))) (error A))
  | spec_realloc_fails flags p n : p <> 0 ->
      spec_step A (HReAlloc flags p n) 0 (mkSpec (payloads A) ERROR_NOT_ENOUGH_MEMORY)
  | spec_free_null : spec_step A (HFree 0) 1 A
  | spec_free p : p <> 0 -> spec_step A (HFree p) 1 (mkSpec (delete p (payloads A)) (error A))
  | spec_peek p i l v : payloads A !! p = Some l -> l !! Z.to_nat i = Some v -> spec_step A (HPeek p i) v A
  | spec_poke p i v l : payloads A !! p = Some l ->
      spec_step A (HPoke p i v) 0 (mkSpec (<[p := <[Z.to_nat i := v]> l]> (payloads A)) (error A)).

(** A guest that is correct whatever the specification answers, and its runs. *)
Inductive safe : Spec -> hguest -> Prop :=
  | safe_ret A r : safe A (HRet r)
  | safe_do A op k : legal A op -> (forall r A', spec_step A op r A' -> safe A' (k r)) -> safe A (HDo op k).

Inductive spec_run : Spec -> hguest -> Z -> Spec -> Prop :=
  | spec_ret A r : spec_run A (HRet r) r A
  | spec_do A op k r A1 v A2 : spec_step A op r A1 -> spec_run A1 (k r) v A2 -> spec_run A (HDo op k) v A2.

(** ** Blocks in memory *)

Section Blocks.
Context `{HW : Host W} `{HL : !HostLaws W} `{HA : Allocator W} `{HAL : !AllocatorLaws W}.

(** A payload with its header, in a block of its own. *)
Definition block_of (w : W) (p : Z) (l : list Z) : Prop :=
  8 < p /\ p + Z.of_nat (length l) <= 2 ^ 63 /\ blocks w !! (p - 8) = Some (8 + Z.of_nat (length l)) /\
  (forall x, p - 8 <= x < p + Z.of_nat (length l) -> prot_at w x = Some prot_rw) /\
  holds 8 w (p - 8) [Z.of_nat (length l)] /\ holds 1 w p l.

Definition blocks_inv (P : gmap Z (list Z)) (w : W) : Prop :=
  (forall p l, P !! p = Some l -> block_of w p l) /\
  (forall p l q l', P !! p = Some l -> P !! q = Some l' -> p <> q ->
     apart (p - 8) (8 + Z.of_nat (length l)) (q - 8) (8 + Z.of_nat (length l'))).

Lemma block_in (w : W) p l x : block_of w p l -> p - 8 <= x < p + Z.of_nat (length l) -> in_blocks (blocks w) x.
Proof. intros (_ & _ & Hb & _) Hx. exists (p - 8), (8 + Z.of_nat (length l)). split; [done|lia]. Qed.

Lemma block_ext (w w' : W) p l : block_of w p l -> blocks w' !! (p - 8) = blocks w !! (p - 8) ->
  (forall x, p - 8 <= x < p + Z.of_nat (length l) -> same_at w w' x) -> block_of w' p l.
Proof.
  intros (H1 & H2 & H3 & H4 & H5 & H6) Hb Hx. split_and!; [done|done|by rewrite Hb| | |].
  - intros x Hr. rewrite (proj1 (Hx x Hr)). by apply H4.
  - eapply holds_ext; [|exact H5]. intros x Hr. cbn [length] in Hr. destruct (Hx x ltac:(lia)). by split.
  - eapply holds_ext; [|exact H6]. intros x Hr. destruct (Hx x ltac:(lia)). by split.
Qed.

Lemma blocks_keep P (w w' : W) : blocks_inv P w ->
  (forall p l, P !! p = Some l -> blocks w' !! (p - 8) = blocks w !! (p - 8) /\
     forall x, p - 8 <= x < p + Z.of_nat (length l) -> same_at w w' x) -> blocks_inv P w'.
Proof. intros [H1 H2] Hk. split; [|exact H2]. intros p l Hp. destruct (Hk p l Hp). eapply block_ext; eauto. Qed.

Lemma inv_delete P p (w : W) : blocks_inv P w -> blocks_inv (delete p P) w.
Proof.
  intros [H1 H2]. split.
  - intros q l [_ Hq]%lookup_delete_Some. by apply H1.
  - intros q l q' l' [_ Hq]%lookup_delete_Some [_ Hq']%lookup_delete_Some. by apply H2.
Qed.

(** The blocks kept by a call of the allocator keep their contents. *)
Lemma inv_unharmed P kept (w w' : W) : blocks_inv P w -> unharmed kept w w' ->
  (forall p l, P !! p = Some l -> kept !! (p - 8) = blocks w !! (p - 8) /\ blocks w' !! (p - 8) = blocks w !! (p - 8)) ->
  blocks_inv P w'.
Proof.
  intros HP [Hu _] Hk. apply (blocks_keep P w); [done|]. intros p l Hp. destruct (Hk p l Hp) as [E1 E2]. split; [done|].
  intros x Hx. apply Hu. destruct HP as [HP _]. destruct (HP p l Hp) as (_ & _ & Hb & _). exists (p - 8), (8 + Z.of_nat (length l)).
  rewrite E1. split; [done|lia].
Qed.

(** A new block beside the others. *)
Lemma inv_new P kept (w w1 w2 : W) raw n l : blocks_inv P w -> 0 <= n -> Z.of_nat (length l) = n ->
  (forall p l, P !! p = Some l -> kept !! (p - 8) = blocks w !! (p - 8)) ->
  new_block kept w w1 raw (8 + n) -> unharmed kept w w1 -> blocks w2 = blocks w1 ->
  (forall x, in_range raw (8 + n) x = false -> same_at w1 w2 x) -> block_of w2 (raw + 8) l ->
  P !! (raw + 8) = None /\ blocks_inv (<[raw + 8 := l]> P) w2.
Proof.
  intros HP Hn Hl Hk Hnew Hu Hb Hs Hblock. destruct Hnew as (N1 & N2 & N3 & N4 & N5).
  assert (Hkept : forall p l', P !! p = Some l' -> kept !! (p - 8) = Some (8 + Z.of_nat (length l'))).
  { intros p l' Hp. rewrite (Hk p l' Hp). by apply (proj1 HP). }
  assert (Hne : forall p l', P !! p = Some l' -> p - 8 <> raw).
  { intros p l' Hp <-. rewrite (Hkept p l' Hp) in N3. done. }
  assert (Hap : forall p l', P !! p = Some l' -> apart raw (8 + n) (p - 8) (8 + Z.of_nat (length l'))).
  { intros p l' Hp. apply disjoint_apart; [lia|lia|]. intros x Hx Hx'. destruct (N5 x Hx) as (_ & Hf & _). apply Hf.
    exists (p - 8), (8 + Z.of_nat (length l')). by rewrite (Hkept p l' Hp). }
  assert (HP2 : blocks_inv P w2).
  { apply (blocks_keep P w); [done|]. intros p l' Hp. split.
    - rewrite Hb, N4, lookup_insert_ne by (specialize (Hne p l' Hp); congruence). by eapply Hk.
    - intros x Hx. eapply same_at_trans; [apply (proj1 Hu)|apply Hs].
      + exists (p - 8), (8 + Z.of_nat (length l')). rewrite (Hkept p l' Hp). split; [done|lia].
      + apply in_range_false. specialize (Hap p l' Hp). unfold apart in Hap. lia. }
  split.
  { destruct (P !! (raw + 8)) as [l'|] eqn:Hp; [|done]. exfalso. apply (Hne (raw + 8) l' Hp). lia. }
  split.
  - intros p l' [[<- <-]|[_ Hp]]%lookup_insert_Some; [done|by apply (proj1 HP2)].
  - intros p l1 q l2 [[<- <-]|[Hp1 Hp]]%lookup_insert_Some [[<- <-]|[Hq1 Hq]]%lookup_insert_Some Hpq; [done| | |by apply (proj2 HP2)].
    + replace (raw + 8 - 8) with raw by lia. rewrite Hl. by apply Hap.
    + replace (raw + 8 - 8) with raw by lia. rewrite Hl. specialize (Hap p l1 Hp). unfold apart in *. lia.
Qed.

(** The header and the zeros are written into a new block: its payload. *)
Lemma finish_block (w : W) raw n (z : bool) off : 0 < raw -> 0 <= n < 2 ^ 64 -> 0 <= off -> raw + (8 + n) <= 2 ^ 63 ->
  blocks w !! raw = Some (8 + n) -> (forall x, raw <= x < raw + (8 + n) -> prot_at w x = Some prot_rw) -> (z = true -> off <= n) ->
  let w2 := put 8 raw [n] w in
  let w3 := if z then put 1 (raw + 8 + off) (replicate (Z.to_nat (n - off)) 0) w2 else w2 in
  exists l, Z.of_nat (length l) = n /\ block_of w3 (raw + 8) l /\ blocks w3 = blocks w /\ spared w w3 /\
    (forall x, in_range raw (8 + n) x = false -> same_at w w3 x) /\
    (forall i, 0 <= i < n -> z = false \/ i < off -> l !! Z.to_nat i = Some (byte_at w (raw + 8 + i))) /\
    (forall i, off <= i < n -> z = true -> l !! Z.to_nat i = Some 0).
Proof.
  intros Hraw Hn Hoff Hmax Hb Hrw Hz w2 w3.
  destruct (put_in_block 8 raw [n] w raw (8 + n) Hb ltac:(lia) ltac:(cbn [length]; lia)) as (B2 & S2 & O2). fold w2 in B2, S2, O2.
  assert (H3 : blocks w3 = blocks w2 /\ spared w2 w3 /\ (forall x, in_range raw (8 + n) x = false -> same_at w2 w3 x) /\
    (forall x, prot_at w3 x = prot_at w2 x) /\ (forall x, x < raw + 8 + off \/ z = false -> byte_at w3 x = byte_at w2 x)).
  { unfold w3. destruct z; [|by split_and!]. specialize (Hz eq_refl).
    assert (Hlen : Z.of_nat 1 * Z.of_nat (length (replicate (Z.to_nat (n - off)) 0)) = n - off) by (rewrite length_replicate; lia).
    destruct (put_in_block 1 (raw + 8 + off) (replicate (Z.to_nat (n - off)) 0) w2 raw (8 + n)) as (B3 & S3 & O3); [by rewrite B2|lia|lia|].
    split_and!; [done|done|done|intros; apply prot_put|]. intros x [Hx|Hx]; [|done]. apply byte_put_out. apply in_range_false. lia. }
  destruct H3 as (B3 & S3 & O3 & P3 & Y3).
  assert (Hp3 : forall x, raw <= x < raw + (8 + n) -> prot_at w3 x = Some prot_rw) by (intros x Hx; rewrite P3; unfold w2; rewrite prot_put; by apply Hrw).
  assert (Hlen : length (get_bytes w3 (raw + 8) n) = Z.to_nat n) by apply get_bytes_length.
  exists (get_bytes w3 (raw + 8) n). rewrite Hlen, Z2Nat.id by lia. split_and!; [done| | | | | |].
  - split_and!; rewrite ?Hlen, ?Z2Nat.id by lia.
    + lia.
    + lia.
    + rewrite B3, B2. by replace (raw + 8 - 8) with raw by lia.
    + intros x Hx. apply Hp3. lia.
    + replace (raw + 8 - 8) with raw by lia. apply (holds_ext 8 w2).
      * intros x Hx. cbn [length] in Hx. split; [apply Y3; left; lia|apply P3].
      * apply holds_put; [by apply Forall_singleton|]. intros x Hx. cbn [length] in Hx. unfold may. by rewrite Hrw by lia.
    + apply holds_get_bytes; [lia|]. intros x Hx. unfold may. by rewrite Hp3 by lia.
  - by rewrite B3.
  - by eapply spared_trans.
  - intros x Hx. eapply same_at_trans; [by apply O2|by apply O3].
  - intros i Hi Hx. rewrite get_bytes_lookup by lia. f_equal. rewrite Y3 by (destruct Hx; [by right|left; lia]).
    apply byte_put_out. apply in_range_false. cbn [length]. lia.
  - intros i Hi Hx. rewrite get_bytes_lookup by lia. f_equal. unfold w3. rewrite Hx.
    pose proof (holds_put 1 (raw + 8 + off) (replicate (Z.to_nat (n - off)) 0) w2) as Hh.
    destruct Hh as [_ Hh]; [apply Forall_replicate; by split|intros x Hr; rewrite length_replicate in Hr; unfold may, w2; rewrite prot_put, Hrw; [done|lia]|].
    specialize (Hh (Z.to_nat (i - off)) 0). rewrite lookup_replicate_2, unit_byte in Hh by lia. etrans; [|by apply Hh]. f_equal. lia.
Qed.

Lemma extends_intro flags n old l : Z.of_nat (length l) = n ->
  (forall i, (i < length old)%nat -> (i < length l)%nat -> l !! i = old !! i) ->
  (zero_memory flags = true -> forall i, (length old <= i)%nat -> (i < length l)%nat -> l !! i = Some 0) -> extends flags n old l.
Proof.
  intros Hl Hold Hz. split; [done|]. split.
  - exists (drop (length old) l). rewrite <- (take_drop (length old) l) at 1. f_equal. apply list_eq. intros i.
    destruct (decide (i < length old)%nat) as [H1|H1]; [destruct (decide (i < length l)%nat) as [H2|H2]|].
    + rewrite !lookup_take_lt by lia. by apply Hold.
    + rewrite !lookup_ge_None_2; [done|rewrite length_take; lia..].
    + rewrite !lookup_ge_None_2; [done|rewrite length_take; lia..].
  - intros Hf. apply list_eq. intros i. rewrite lookup_drop. destruct (decide (i < length l - length old)%nat) as [H|H].
    + rewrite lookup_replicate_2 by done. apply Hz; [done|lia..].
    + rewrite !lookup_ge_None_2; [done|rewrite length_replicate; lia|lia].
Qed.
End Blocks.

(** ** The calls implement the specification *)

Section Refinement.
Context `{HW : Host W} `{HL : !HostLaws W} `{HA : Allocator W} `{HAL : !AllocatorLaws W} {E : Type}.
Local Abbreviation H := (M (Heap W) E).

Definition heap_inv (A : Spec) (s : Heap W) : Prop := blocks_inv (payloads A) (heap_mem s) /\ last_error s = error A.

(** One call: it returns, as the specification allows. *)
Definition implements (A : Spec) (op : hop) (m : H Z) (s : Heap W) : Prop :=
  exists r s' A', m s = (Ok r, s') /\ spec_step A op r A' /\ heap_inv A' s' /\ spared (heap_mem s) (heap_mem s').

Definition with_mem (s : Heap W) (w : W) : Heap W := mkHeap w (last_error s) (known_heaps s).

Lemma in_memory_ok {B} (m : M W E B) (s : Heap W) b w : m (heap_mem s) = (Ok b, w) -> in_memory m s = (Ok b, with_mem s w).
Proof. intros Hm. unfold in_memory. by rewrite Hm. Qed.

Lemma total_size n a : 0 <= n -> 0 < a -> a + Z.min (n + HEADER_SIZE) u64_max <= 2 ^ 63 -> Z.min (n + HEADER_SIZE) u64_max = 8 + n.
Proof. unfold HEADER_SIZE, u64_max. lia. Qed.

(** The end of an allocation: header, then zeros from [off] on. *)
Lemma finish_run (s : Heap W) raw n (z : bool) off : 0 <= n -> 0 <= off -> (z = true -> off <= n) ->
  (forall x, raw <= x < raw + (8 + n) -> prot_at (heap_mem s) x = Some prot_rw) ->
  let w2 := put 8 raw [n] (heap_mem s) in
  let w3 := if z then put 1 (raw + 8 + off) (replicate (Z.to_nat (n - off)) 0) w2 else w2 in
  (in_memory (write_int 8 raw n) ;;;
   (if z then write_zeros (raw + 8 + off) (n - off) else mret tt) ;;; mret (raw + 8)) s = (Ok (E := E) (raw + 8), with_mem s w3).
Proof.
  intros Hn Ho Hz Hrw w2 w3.
  rewrite (mbind_ok _ _ s tt (with_mem s w2)) by (apply in_memory_ok, write_int_put; intros x Hx; unfold may; by rewrite Hrw by lia).
  rewrite (mbind_ok _ _ (with_mem s w2) tt (with_mem s w3)); [done|]. unfold w3. destruct z; [|by destruct s]. specialize (Hz eq_refl).
  unfold write_zeros. rewrite (in_memory_ok _ _ tt (put 1 (raw + 8 + off) (replicate (Z.to_nat (n - off)) 0) w2)); [done|].
  apply put_list_ok. cbn [heap_mem with_mem]. rewrite length_replicate. intros x Hx. unfold may, w2. by rewrite prot_put, Hrw by lia.
Qed.

Lemma alloc_step A s h flags n : heap_inv A s -> 0 <= n < 2 ^ 64 -> implements A (HAlloc flags n) (heap_alloc h flags n) s.
Proof.
  intros [HP He] Hn. unfold implements, heap_alloc, malloc. cbv zeta. destruct (libc_malloc (Z.min (n + HEADER_SIZE) u64_max) (heap_mem s)) as [raw w1] eqn:Em.
  rewrite (mbind_ok _ _ s raw (with_mem s w1)) by (apply in_memory_ok; by rewrite Em).
  assert (Hpos : 0 < Z.min (n + HEADER_SIZE) u64_max) by (unfold HEADER_SIZE, u64_max; lia).
  destruct (Z.eqb_spec raw 0) as [->|Hraw].
  - destruct (malloc_failed _ _ _ Hpos Em) as [Hb Hu]. exists 0, (mkHeap w1 ERROR_NOT_ENOUGH_MEMORY (known_heaps s)), (mkSpec (payloads A) ERROR_NOT_ENOUGH_MEMORY).
    split; [done|]. split; [constructor|]. split; [|exact (proj2 Hu)]. split; [|done]. cbn.
    apply (inv_unharmed _ (blocks (heap_mem s)) (heap_mem s)); [done|done|]. intros p l _. by rewrite Hb.
  - destruct (malloc_ok _ _ _ _ Hpos Em Hraw) as [Hnew Hu]. pose proof Hnew as (N1 & N2 & N3 & N4 & N5).
    pose proof (total_size n raw ltac:(lia) N1 N2) as Ht. rewrite Ht in Hnew, N2, N4, N5.
    assert (Hrw : forall x, raw <= x < raw + (8 + n) -> prot_at w1 x = Some prot_rw) by (intros x Hx; by apply N5).
    destruct (finish_block w1 raw n (zero_memory flags) 0) as (l & F1 & F2 & F3 & F4 & F5 & F6 & F7); try done; try lia.
    { by rewrite N4, lookup_insert_eq. }
    pose proof (finish_run (with_mem s w1) raw n (zero_memory flags) 0 ltac:(lia) ltac:(lia) ltac:(lia) Hrw) as Hrun.
    cbv zeta in Hrun. cbn [heap_mem with_mem] in Hrun. change HEADER_SIZE with 8. rewrite Z.add_0_r, Z.sub_0_r in F2, F3, F4, F5, Hrun.
    set (w3 := if zero_memory flags then _ else _) in *.
    destruct (inv_new (payloads A) (blocks (heap_mem s)) (heap_mem s) w1 w3 raw n l) as [Hfresh HP3]; try done; try lia.
    exists (raw + 8), (with_mem s w3), (mkSpec (<[raw + 8 := l]> (payloads A)) (error A)). split; [exact Hrun|].
    split; [|split; [by split|eapply spared_trans; [exact (proj2 Hu)|exact F4]]].
    constructor; [lia|done|]. apply extends_intro; [done|intros i Hi; cbn in Hi; lia|]. intros Hz i _ Hi.
    rewrite <- (Nat2Z.id i). apply F7; [lia|done].
Qed.

Lemma get_bytes_move (w w' : W) a b n : (forall i, 0 <= i < n -> byte_at w' (b + i) = byte_at w (a + i)) ->
  get_bytes w' b n = get_bytes w a n.
Proof.
  intros Hi. apply list_eq. intros i. destruct (decide (i < Z.to_nat n)%nat) as [H|H].
  - rewrite <- (Nat2Z.id i), !get_bytes_lookup by lia. f_equal. apply Hi. lia.
  - rewrite !lookup_ge_None_2; [done|rewrite get_bytes_length; lia..].
Qed.

Lemma payload_byte (w : W) p l i : block_of w p l -> 0 <= i < Z.of_nat (length l) -> l !! Z.to_nat i = Some (byte_at w (p + i)).
Proof. intros (_ & _ & _ & _ & _ & Hh) Hi. rewrite <- (bytes_holds w p l Hh) at 1. by apply get_bytes_lookup. Qed.

Lemma base_of (w : W) p l : block_of w p l -> wrap 64 (p - HEADER_SIZE) = p - 8.
Proof. intros (H1 & H2 & _). apply wrap_small. unfold HEADER_SIZE. lia. Qed.

Lemma read_header (w : W) raw m : holds 8 w raw [m] -> read_int (E := E) 8 raw w = (Ok m, w).
Proof. intros Hh. pose proof (uget_holds (E := E) 8 w raw [m] 0 m Hh eq_refl) as Hu. unfold uget in Hu. by rewrite Z.mul_0_r, Z.add_0_r in Hu. Qed.

Lemma realloc_step A s h flags p n old : heap_inv A s -> p <> 0 -> payloads A !! p = Some old -> 0 <= n < 2 ^ 64 ->
  implements A (HReAlloc flags p n) (heap_re_alloc h flags p n) s.
Proof.
  intros [HP He] Hp0 Hp Hn. pose proof (proj1 HP p old Hp) as Hblock. pose proof Hblock as (Hp1 & Hp2 & Hb & Hrw0 & Hhd & Hold).
  unfold implements, heap_re_alloc, realloc. cbv zeta. rewrite (proj2 (Z.eqb_neq p 0) Hp0), (base_of _ _ _ Hblock).
  destruct (libc_realloc (p - 8) (Z.min (n + HEADER_SIZE) u64_max) (heap_mem s)) as [raw w1] eqn:Em.
  rewrite (mbind_ok _ _ s raw (with_mem s w1)) by (apply in_memory_ok; by rewrite Em).
  assert (Hpos : 0 < Z.min (n + HEADER_SIZE) u64_max) by (unfold HEADER_SIZE, u64_max; lia).
  destruct (Z.eqb_spec raw 0) as [->|Hraw].
  - destruct (realloc_failed _ _ _ _ _ Hpos Hb Em) as [Hb' Hu]. exists 0, (mkHeap w1 ERROR_NOT_ENOUGH_MEMORY (known_heaps s)), (mkSpec (payloads A) ERROR_NOT_ENOUGH_MEMORY).
    split; [done|]. split; [by constructor|]. split; [|exact (proj2 Hu)]. split; [|done]. cbn.
    apply (inv_unharmed _ (blocks (heap_mem s)) (heap_mem s)); [done|done|]. intros q l _. by rewrite Hb'.
  - destruct (realloc_ok _ _ _ _ _ _ Hpos Hb Em Hraw) as (Hnew & Hu & Hcopy). pose proof Hnew as (N1 & N2 & N3 & N4 & N5).
    pose proof (total_size n raw ltac:(lia) N1 N2) as Ht. rewrite Ht in Hnew, N2, N4, N5, Hcopy.
    assert (Hrw : forall x, raw <= x < raw + (8 + n) -> prot_at w1 x = Some prot_rw) by (intros x Hx; by apply N5).
    assert (Hhdr : holds 8 w1 raw [Z.of_nat (length old)]).
    { split; [intros x Hx; cbn [length] in Hx; unfold may; by rewrite Hrw by lia|]. intros [|i] u [= <-]. destruct Hhd as [_ Hhd].
      rewrite <- (Hhd O _ eq_refl). f_equal. apply get_bytes_move. intros i Hi. rewrite !Z.mul_0_r, !Z.add_0_r. apply Hcopy. lia. }
    rewrite (mbind_ok _ _ (with_mem s w1) (Z.of_nat (length old)) (with_mem s w1)) by exact (in_memory_ok _ (with_mem s w1) _ w1 (read_header w1 raw _ Hhdr)).
    set (z := zero_memory flags && (Z.of_nat (length old) <? n)). assert (Hz : z = true -> Z.of_nat (length old) <= n) by (unfold z; lia).
    destruct (finish_block w1 raw n z (Z.of_nat (length old))) as (l & F1 & F2 & F3 & F4 & F5 & F6 & F7); try done; try lia.
    { by rewrite N4, lookup_insert_eq. }
    pose proof (finish_run (with_mem s w1) raw n z (Z.of_nat (length old)) ltac:(lia) ltac:(lia) Hz Hrw) as Hrun.
    cbv zeta in Hrun. cbn [heap_mem with_mem] in Hrun. change HEADER_SIZE with 8. set (w3 := if z then _ else _) in *.
    destruct (inv_new (delete p (payloads A)) (delete (p - 8) (blocks (heap_mem s))) (heap_mem s) w1 w3 raw n l) as [Hfresh HP3]; try done; try lia.
    { by apply inv_delete. }
    { intros q l' [Hq _]%lookup_delete_Some. by rewrite lookup_delete_ne by lia. }
    exists (raw + 8), (with_mem s w3), (mkSpec (<[raw + 8 := l]> (delete p (payloads A))) (error A)). split; [exact Hrun|].
    split; [|split; [by split|eapply spared_trans; [exact (proj2 Hu)|exact F4]]].
    apply (spec_realloc _ _ _ _ old); [done|done|lia|done|]. apply extends_intro; [done| |].
    + intros i Hi Hi'. rewrite <- (Nat2Z.id i). rewrite F6 by lia. rewrite (payload_byte _ _ _ _ Hblock) by lia. f_equal.
      replace (raw + 8 + Z.of_nat i) with (raw + (8 + Z.of_nat i)) by lia. rewrite Hcopy by lia. f_equal. lia.
    + intros Hzero i Hi Hi'. rewrite <- (Nat2Z.id i). apply F7; [lia|]. unfold z. rewrite Hzero. lia.
Qed.

Lemma free_step A s h flags p old : heap_inv A s -> p <> 0 -> payloads A !! p = Some old ->
  implements A (HFree p) (heap_free h flags p) s.
Proof.
  intros [HP He] Hp0 Hp. pose proof (proj1 HP p old Hp) as Hblock. pose proof Hblock as (_ & _ & Hb & _).
  unfold implements, heap_free. cbv zeta. rewrite (proj2 (Z.eqb_neq p 0) Hp0), (base_of _ _ _ Hblock).
  destruct (free_ok (p - 8) _ (heap_mem s) Hb) as [Hb' Hu].
  exists 1, (with_mem s (libc_free (p - 8) (heap_mem s))), (mkSpec (delete p (payloads A)) (error A)).
  split; [done|]. split; [by constructor|]. split; [|exact (proj2 Hu)]. split; [|done]. cbn.
  apply (inv_unharmed _ (delete (p - 8) (blocks (heap_mem s))) (heap_mem s)); [by apply inv_delete|exact Hu|].
  intros q l [Hq _]%lookup_delete_Some. rewrite Hb', !lookup_delete_ne by lia. done.
Qed.

Lemma peek_step A s p i l : heap_inv A s -> payloads A !! p = Some l -> 0 <= i < Z.of_nat (length l) ->
  implements A (HPeek p i) (in_memory (uget 1 p i)) s.
Proof.
  intros [HP He] Hp Hi. pose proof (proj1 HP p l Hp) as (_ & _ & _ & _ & _ & Hh).
  destruct (lookup_lt_is_Some_2 l (Z.to_nat i) ltac:(lia)) as [v Hv]. exists v, s, A.
  split; [|split; [by econstructor|split; [by split|apply spared_refl]]].
  rewrite (in_memory_ok _ s v (heap_mem s)); [by destruct s|]. rewrite <- (Z2Nat.id i) by lia. by eapply uget_holds.
Qed.

Lemma poke_step A s p i v l : heap_inv A s -> is_byte v -> payloads A !! p = Some l -> 0 <= i < Z.of_nat (length l) ->
  implements A (HPoke p i v) (in_memory (uput 1 p i v) ;;; mret 0) s.
Proof.
  intros [HP He] Hv Hp Hi. pose proof (proj1 HP p l Hp) as Hblock. pose proof Hblock as (Hp1 & Hp2 & Hb & Hrw & Hhd & Hh).
  set (w1 := put 1 (p + Z.of_nat 1 * i) [v] (heap_mem s)). set (l' := <[Z.to_nat i := v]> l).
  assert (Hl' : length l' = length l) by apply length_insert.
  destruct (put_in_block 1 (p + Z.of_nat 1 * i) [v] (heap_mem s) (p - 8) (8 + Z.of_nat (length l)) Hb ltac:(lia) ltac:(cbn [length]; lia))
    as (B1 & S1 & O1). fold w1 in B1, S1, O1.
  assert (Hin : forall x, byte_at w1 x = if x =? p + i then v else byte_at (heap_mem s) x).
  { intros x. unfold w1, put. rewrite byte_set_bytes by apply units_bytes. cbn [map concat le_bytes app length].
    destruct (Z.eqb_spec x (p + i)) as [->|Hne].
    - replace (in_range _ _ _) with true by (symmetry; apply in_range_spec; lia). replace (Z.to_nat _) with O by lia. apply Z.mod_small, Hv.
    - by replace (in_range (p + Z.of_nat 1 * i) (Z.of_nat 1) x) with false by (symmetry; apply in_range_false; lia). }
  exists 0, (with_mem s w1), (mkSpec (<[p := l']> (payloads A)) (error A)). split; [|split; [by econstructor|split; [split; [|done]|exact S1]]].
  { rewrite (mbind_ok _ _ s tt (with_mem s w1)); [done|]. apply in_memory_ok, uput_ok. intros x Hx. unfold may. by rewrite Hrw by lia. }
  assert (Hnew : block_of w1 p l').
  { unfold block_of. rewrite Hl', B1. split_and!; [done|done|done| | |].
    - intros x Hx. unfold w1. rewrite prot_put. by apply Hrw.
    - eapply holds_ext; [|exact Hhd]. intros x Hx. cbn [length] in Hx. rewrite Hin, (proj2 (Z.eqb_neq x (p + i))) by lia. split; [done|apply prot_put].
    - rewrite <- (bytes_holds _ _ _ Hh) in Hl'. split.
      + intros x Hx. unfold may, w1. rewrite prot_put, Hrw; [done|]. unfold l' in Hx. rewrite length_insert in Hx. lia.
      + intros j u Hj. rewrite unit_byte, Hin. unfold l' in Hj. apply list_lookup_insert_Some in Hj as [(Hj1 & <- & _)|(Hj1 & Hj)].
        * by rewrite (proj2 (Z.eqb_eq _ _)) by lia.
        * rewrite (proj2 (Z.eqb_neq _ _)) by lia. pose proof (lookup_lt_Some _ _ _ Hj).
          pose proof (payload_byte _ _ _ (Z.of_nat j) Hblock ltac:(lia)) as Hq. rewrite Nat2Z.id in Hq. congruence. }
  split; cbn [payloads].
  - intros q lq [[<- <-]|[Hq1 Hq]]%lookup_insert_Some; [done|]. apply (block_ext (heap_mem s)); [by apply (proj1 HP)|cbn [heap_mem with_mem]; by rewrite B1|].
    intros x Hx. apply O1, in_range_false. pose proof (proj2 HP p l q lq Hp Hq Hq1) as Hap. unfold apart in Hap. lia.
  - intros q1 l1 q2 l2 [[<- <-]|[Hn1 Hq1]]%lookup_insert_Some [[<- <-]|[Hn2 Hq2]]%lookup_insert_Some Hne; rewrite ?Hl'; [done|..]; by apply (proj2 HP).
Qed.

Lemma hop_step A op s : heap_inv A s -> legal A op -> implements A op (run_hop op) s.
Proof.
  intros Hs. pose proof Hs as [HP He]. destruct op as [flags n|flags p n|p|p i|p i v]; cbn [legal run_hop].
  - by apply alloc_step.
  - intros [[->|[old Hp]] Hn].
    + destruct (alloc_step A s 0 flags n Hs Hn) as (r & s' & A' & H1 & H2 & H3 & H4). exists r, s', A'. split; [exact H1|].
      split; [by constructor|done].
    + destruct (proj1 HP p old Hp). apply (realloc_step A s HEAP_HANDLE flags p n old); [done|lia|done|done].
  - intros [->|[old Hp]].
    + exists 1, s, A. split; [done|]. split; [constructor|]. split; [done|apply spared_refl].
    + destruct (proj1 HP p old Hp). apply (free_step A s HEAP_HANDLE 0 p old); [done|lia|done].
  - intros (l & Hp & Hi). by apply (peek_step A s p i l).
  - intros (Hv & l & Hp & Hi). by apply (poke_step A s p i v l).
Qed.

(** C30. The heap calls refine a map from payloads to their contents. A guest that is
    correct against the specification, whatever blocks and failures that answers
    with, runs on the code without a fault; its result is one the specification
    allows, each block keeps its header and its contents apart from every other, and
    memory the allocator does not manage is left alone. *)
Theorem heap_refines g A : safe A g -> forall s : Heap W, heap_inv A s ->
  exists r s' A', run_hguest (E := E) g s = (Ok r, s') /\ spec_run A g r A' /\ heap_inv A' s' /\
    spared (heap_mem s) (heap_mem s').
Proof.
  induction 1 as [A r|A op k Hl Hk IH]; intros s Hs.
  - exists r, s, A. split; [done|]. split; [constructor|]. split; [done|apply spared_refl].
  - destruct (hop_step A op s Hs Hl) as (r & s1 & A1 & H1 & H2 & H3 & H4).
    destruct (IH r A1 H2 s1 H3) as (v & s2 & A2 & G1 & G2 & G3 & G4). exists v, s2, A2.
    split; [cbn; by rewrite (mbind_ok _ _ _ _ _ H1)|]. split; [by econstructor|]. split; [done|by eapply spared_trans].
Qed.
End Refinement.

(** ** The handles of heaps *)

Section Handles.
Context `{HW : Host W} {E : Type}.

Definition create : M (Heap W) E Z := heap_create 0 0 0.

(** The handles of [n] heaps created one after the other. *)
Definition creations (n : nat) : M (Heap W) E (list Z) := m_list (fun _ => create) (replicate n tt).

(** The default heap and [n] more, none of them destroyed. *)
Definition numbered (n : nat) : list Z := HEAP_HANDLE :: map (fun i => HEAP_HANDLE + 2 + Z.of_nat i) (seq 0 n).

Lemma numbered_NoDup n : NoDup (numbered n).
Proof.
  apply list.NoDup_cons. split.
  - intros Hin%list_elem_of_In. apply in_map_iff in Hin as (i & Hi & _). lia.
  - assert (Inj eq eq (fun i => HEAP_HANDLE + 2 + Z.of_nat i)) by (intros i j Hij; lia).
    apply (NoDup_fmap_2 (fun i => HEAP_HANDLE + 2 + Z.of_nat i)), NoDup_seq.
Qed.

Lemma numbered_S n : numbered (S n) = numbered n ++ [HEAP_HANDLE + 2 + Z.of_nat n].
Proof. unfold numbered. by rewrite seq_S, map_app. Qed.

Lemma create_next n (s : Heap W) : Z.of_nat n < 2 ^ 32 -> known_heaps s = list_to_set (numbered n) ->
  create s = (Ok (HEAP_HANDLE + 2 + Z.of_nat n), mkHeap (heap_mem s) (last_error s) (list_to_set (numbered (S n)))).
Proof.
  intros Hn Hs. unfold create, heap_create, with_heaps. rewrite Hs, size_list_to_set by apply numbered_NoDup.
  assert (Hl : length (numbered n) = S n) by (unfold numbered; cbn [length]; by rewrite length_map, length_seq).
  rewrite Hl, wrap_small by (unfold HEAP_HANDLE; lia). f_equal; [f_equal; unfold HEAP_HANDLE; lia|]. f_equal. rewrite numbered_S.
  apply leibniz_equiv. rewrite list_to_set_app, (comm (∪)). cbn [list_to_set]. rewrite (right_id ∅ (∪)). f_equiv. f_equiv. unfold HEAP_HANDLE. lia.
Qed.

Lemma creations_numbered n : forall k (s : Heap W), Z.of_nat (k + n) < 2 ^ 32 -> known_heaps s = list_to_set (numbered k) ->
  creations n s = (Ok (map (fun i => HEAP_HANDLE + 2 + Z.of_nat i) (seq k n)),
    mkHeap (heap_mem s) (last_error s) (list_to_set (numbered (k + n)))).
Proof.
  induction n as [|n IH]; intros k s Hn Hs.
  - rewrite Nat.add_0_r. destruct s. cbn in *. by rewrite Hs.
  - unfold creations. cbn [replicate m_list]. rewrite (mbind_ok _ _ _ _ _ (create_next k s ltac:(lia) Hs)).
    specialize (IH (S k) (mkHeap (heap_mem s) (last_error s) (list_to_set (numbered (S k)))) ltac:(lia) eq_refl). unfold creations in IH.
    rewrite (mbind_ok _ _ _ _ _ IH). cbn [seq map heap_mem last_error]. by replace (k + S n)%nat with (S k + n)%nat by lia.
Qed.

(** [HeapCreate] numbers a heap by how many there are. While none is destroyed the
    handles are all different; once an older one is, the next handle is that of a heap
    still live, and destroying either makes the other invalid. *)
Theorem heap_handles (s : Heap W) : known_heaps s = {[HEAP_HANDLE]} ->
  (forall n, Z.of_nat n < 2 ^ 32 -> exists hs s', creations n s = (Ok hs, s') /\ NoDup (HEAP_HANDLE :: hs) /\
     known_heaps s' = list_to_set (HEAP_HANDLE :: hs)) /\
  exists h1 h2 s1, creations 2 s = (Ok [h1; h2], s1) /\ h1 <> h2 /\
    exists s2 s3 s4, heap_destroy (E := E) h1 s1 = (Ok 1, s2) /\ create s2 = (Ok h2, s3) /\
      heap_destroy (E := E) h2 s3 = (Ok 1, s4) /\ exists s5, heap_destroy (E := E) h2 s4 = (Ok 0, s5).
Proof.
  intros Hs. assert (H0 : known_heaps s = list_to_set (numbered 0)) by (rewrite Hs; unfold numbered; cbn; symmetry; apply leibniz_equiv; by rewrite (right_id ∅ (∪))).
  split.
  - intros n Hn. eexists _, _. split; [apply (creations_numbered n 0); [lia|exact H0]|]. split; [apply (numbered_NoDup n)|done].
  - exists (HEAP_HANDLE + 2), (HEAP_HANDLE + 3). destruct s as [w e g]. cbn [known_heaps] in Hs. subst g.
    set (s1 := snd (creations 2 (mkHeap w e {[HEAP_HANDLE]}))). exists s1. split; [vm_compute; reflexivity|]. split; [done|].
    exists (snd (heap_destroy (E := E) (HEAP_HANDLE + 2) s1)). eexists _, _. split; [vm_compute; reflexivity|]. split; [vm_compute; reflexivity|].
    split; [vm_compute; reflexivity|]. eexists. vm_compute. reflexivity.
Qed.
End Handles.

(** ** Concrete runs *)

Section Witnesses.
Definition heap_guest : hguest :=
  HDo (HAlloc 8 4) (fun p => if p =? 0 then HRet (-1) else
  HDo (HPoke p 2 77) (fun _ =>
  HDo (HReAlloc 8 p 20) (fun q => if q =? 0 then HRet (-2) else
  HDo (HPeek q 2) (fun v => HDo (HFree q) (fun _ => HRet v))))).

Definition heap_start : Heap SmallAlloc.World := mkHeap SmallAlloc.empty 0 {[HEAP_HANDLE]}.

Lemma heap_guest_safe : safe (mkSpec ∅ 0) heap_guest.
Proof.
  constructor; [done|]. intros p A1 H1. destruct (Z.eqb_spec p 0) as [_|Hp]; [constructor|].
  inversion H1 as [? ? ? l _ _ [Hl _]| | | | | | | |]; subst; [|done]. constructor.
  { split; [done|]. exists l. cbn. rewrite lookup_insert_eq. split; [done|lia]. }
  intros r A2 H2. inversion H2 as [| | | | | | | |? ? ? l' Hl']; subst. cbn in Hl'. rewrite lookup_insert_eq in Hl'. injection Hl' as <-.
  constructor.
  { split; [right; cbn; rewrite lookup_insert_eq; by eexists|done]. }
  intros q A3 H3. destruct (Z.eqb_spec q 0) as [_|Hq]; [constructor|].
  inversion H3 as [| |? ? ? ? Hn|? ? ? old ? l2 _ _ _ _ [Hl2 _]| | | | |]; subst; [by inversion Hn| |done]. constructor.
  { exists l2. cbn. rewrite lookup_insert_eq. split; [done|lia]. }
  intros v A4 H4. inversion H4; subst. constructor.
  { right. cbn. rewrite lookup_insert_eq. by eexists. }
  intros. constructor.
Qed.

Lemma heap_refines_witness :
  exists s' A', run_hguest (E := Empty_set) heap_guest heap_start = (Ok 77, s') /\
    spec_run (mkSpec ∅ 0) heap_guest 77 A' /\ heap_inv A' s'.
Proof.
  destruct (heap_refines (E := Empty_set) heap_guest (mkSpec ∅ 0) heap_guest_safe heap_start) as (r & s' & A' & H1 & H2 & H3 & _).
  - split; [|reflexivity]. split; intros p l; cbn; rewrite lookup_empty; discriminate.
  - assert (Hr : r = 77).
    { assert (Hc : fst (run_hguest (E := Empty_set) heap_guest heap_start) = Ok 77) by (vm_compute; reflexivity).
      rewrite H1 in Hc. injection Hc as Hc. exact Hc. }
    subst r. exists s', A'. split; [exact H1|]. split; [exact H2|exact H3].
Defined.

Lemma heap_handles_witness :
  exists h1 h2 s1, creations (E := Empty_set) 2 heap_start = (Ok [h1; h2], s1) /\ h1 <> h2 /\
    exists s2 s3, heap_destroy (E := Empty_set) h1 s1 = (Ok 1, s2) /\ create (E := Empty_set) s2 = (Ok h2, s3).
Proof.
  destruct (proj2 (heap_handles (E := Empty_set) heap_start eq_refl)) as (h1 & h2 & s1 & H1 & H2 & s2 & s3 & _ & H3 & H4 & _).
  exists h1, h2, s1. split; [exact H1|]. split; [exact H2|]. exists s2, s3. split; [exact H3|exact H4].
Defined.
End Witnesses.
