(* ===== verification/K32D3d.v ===== *)
(** * The shader compiler of the guest ([win32-kernel32/src/d3dcompiler.rs])

    [D3DCompile] reads a source from guest memory, runs the HLSL compiler on it and
    hands the module out as a reference-counted object in memory. The allocator of
    the Rust runtime is that of the host; a refused allocation aborts. *)
From Stdlib Require Import ZArith Lia Ascii String.
From stdpp Require Import base list option gmap strings.
From S2P Require Import Prelude HlslLexer HlslAst HlslParser HlslGrammar SpirvBuilder HlslCodegen HlslShape HlslSsa HlslCompile.
From S2P Require Import PeHost GuestMem HostAlloc Utf.
Local Open Scope rust_scope.
Local Open Scope Z_scope.
Set Warnings "-register-all".

Definition S_OK : Z := 0.
Definition E_FAIL : Z := to_signed 32 0x80004005.

(** The fields of [D3dBlob]: virtual table, count, buffer and size. *)
Definition BLOB_SIZE : Z := 32.
Definition blob_fields (vtable refcount buffer size : Z) : list field :=
  [(8%nat, 0, vtable); (4%nat, 8, refcount); (8%nat, 16, buffer); (8%nat, 24, size)].

Section D3d.
Context `{HW : Host W} `{HA : Allocator W} {B : Type} `{HB : Builder B} {E : Type}.
Local Abbreviation G := (M W E).

(** Where the linker put the virtual table of blobs. *)
Variable BLOB_VTABLE : Z.

(** [Box] and [Vec] storage: nothing is allocated for no bytes. *)
Definition rust_alloc (n : Z) : G Z :=
  if n =? 0 then mret 1
  else
    let! a := (fun w => let '(a, w) := libc_malloc n w in (Ok a, w)) in
    if a =? 0 then mpanic else mret a.

Definition rust_dealloc (a n : Z) : G unit := fun w => (Ok tt, if n =? 0 then w else libc_free a w).

Definition blob_query_interface (this riid ppv : Z) : G Z :=
  (if negb (ppv =? 0) then write_int 8 ppv this else mret tt) ;;; mret S_OK.

Definition blob_add_ref (this : Z) : G Z :=
  let! prev := read_int 4 (this + 8) in
  write_int 4 (this + 8) (wrap 32 (prev + 1)) ;;;
  mret (wrap 32 (prev + 1)).

Definition blob_release (this : Z) : G Z :=
  let! prev := read_int 4 (this + 8) in
  write_int 4 (this + 8) (wrap 32 (prev - 1)) ;;;
  (if prev =? 1 then
     let! buffer := read_int 8 (this + 16) in
     (if negb (buffer =? 0) then let! size := read_int 8 (this + 24) in rust_dealloc buffer size else mret tt) ;;;
     rust_dealloc this BLOB_SIZE
   else mret tt) ;;;
  mret (wrap 32 (prev - 1)).

Definition blob_get_buffer_pointer (this : Z) : G Z := read_int 8 (this + 16).
Definition blob_get_buffer_size (this : Z) : G Z := read_int 8 (this + 24).

Definition make_blob (spirv : list Z) : G Z :=
  let size := Z.of_nat (length spirv) in
  let! buffer := rust_alloc size in
  put_list 1 buffer spirv ;;;
  let! blob := rust_alloc BLOB_SIZE in
  write_record blob (blob_fields BLOB_VTABLE 1 buffer size) ;;;
  mret blob.

(** The byte at [i] is read before the bound is tested. *)
Definition read_cstr (ptr : Z) : G (option rstring) :=
  if ptr =? 0 then mret None
  else
    let! bytes := loop (fun '(i, acc) =>
      let! b := uget 1 ptr i in
      mret (if negb (b =? 0) && (i <? 65536) then inl (i + 1, b :: acc) else inr (rev acc))) (0, []) in
    mret (from_utf8 bytes).

Definition string_of (bytes : list Z) : string := string_of_list_ascii (map (fun b => ascii_of_nat (Z.to_nat b)) bytes).

Definition stage_of (target_name : rstring) : ShaderStage :=
  if bool_decide (take 2 target_name = chars_of "vs") then Stage_Vertex else Stage_Pixel.

Definition spirv_bytes (words : list Z) : list Z := concat (map (PeHost.le_bytes 4) words).

Definition d3d_compile (src src_size source_name macros include entry target flags1 flags2 code msgs : Z) : G Z :=
  if (src =? 0) || (code =? 0) then mret E_FAIL
  else
    let! source_bytes := slice_from 1 src src_size in
    match from_utf8 source_bytes with
    | None => mret E_FAIL
    | Some _ =>
        let! entry_name := read_cstr entry in
        let! target_name := read_cstr target in
        let stage := stage_of (default [] target_name) in
        match compile (B := B) (string_of source_bytes) stage with
        | Ok spirv_words =>
            let! blob := make_blob (spirv_bytes spirv_words) in
            write_int 8 code blob ;;;
            mret S_OK
        | Err _ => mret E_FAIL
        | Panic => mpanic
        | NoFuel => mnofuel
        end
    end.

Definition d3d_compile_from_file (filename defines include entry target flags1 flags2 code msgs : Z) : G Z := mret E_FAIL.
Definition d3d_get_blob_part (src src_size part flags part_data part_size : Z) : G Z := mret E_FAIL.
Definition d3d_strip_shader (src src_size strip_flags stripped stripped_size : Z) : G Z := mret S_OK.
Definition d3d_reflect (src src_size riid reflector : Z) : G Z := mret E_FAIL.
End D3d.

(** ** Blobs *)

Section Blobs.
Context `{HW : Host W} `{HL : !HostLaws W} `{HA : Allocator W} `{HAL : !AllocatorLaws W} {E : Type}.
Local Abbreviation G := (M W E).

Variable BLOB_VTABLE : Z.
Hypothesis vtable_range : unit_range 8 BLOB_VTABLE.

(** The bytes of a blob, in storage of their own. *)
Definition storage (w : W) (a : Z) (data : list Z) : Prop :=
  0 < a < 2 ^ 64 /\ Z.of_nat (length data) < 2 ^ 64 /\ holds 1 w a data /\
  (data = [] \/ blocks w !! a = Some (Z.of_nat (length data))).

(** A blob with its reference count: its own block and the one of its data. *)
Definition live_blob (w : W) (p buffer : Z) (data : list Z) (count : Z) : Prop :=
  0 < p /\ p + BLOB_SIZE <= 2 ^ 63 /\ blocks w !! p = Some BLOB_SIZE /\ 0 <= count < 2 ^ 32 /\
  (forall x, p <= x < p + BLOB_SIZE -> prot_at w x = Some prot_rw) /\
  has_fields w p (blob_fields BLOB_VTABLE count buffer (Z.of_nat (length data))) /\ storage w buffer data /\
  (data = [] \/ apart p BLOB_SIZE buffer (Z.of_nat (length data))).

(** What the memory of the guest may be after an allocation that was refused. *)
Definition refused : Prop := exists n (w w' : W), 0 < n /\ libc_malloc n w = (0, w').

Lemma rust_alloc_ok n (w : W) : 0 < n ->
  (fst (rust_alloc (E := E) n w) = Panic /\ refused) \/
  exists a w', rust_alloc (E := E) n w = (Ok a, w') /\ new_block (blocks w) w w' a n /\ unharmed (blocks w) w w'.
Proof.
  intros Hn. unfold rust_alloc. rewrite (proj2 (Z.eqb_neq n 0)) by lia. unfold mbind. destruct (libc_malloc n w) as [a w'] eqn:Em.
  destruct (Z.eqb_spec a 0) as [->|Ha].
  - left. split; [done|]. by exists n, w, w'.
  - right. exists a, w'. destruct (malloc_ok _ _ _ _ Hn Em Ha). done.
Qed.

(** Storage for bytes, filled with them. *)
Lemma fill_storage data (w : W) :
  (fst ((let! a := rust_alloc (Z.of_nat (length data)) in put_list 1 a data ;;; mret a) w) = Panic (A := Z) (E := E) /\ refused) \/
  exists a w', rust_alloc (E := E) (Z.of_nat (length data)) w = (Ok a, w') /\ put_list (E := E) 1 a data w' = (Ok tt, put 1 a data w') /\
    (Forall is_byte data -> storage (put 1 a data w') a data) /\ unharmed (blocks w) w (put 1 a data w') /\ blocks w ⊆ blocks (put 1 a data w').
Proof.
  destruct (decide (data = [])) as [->|Hne].
  - right. exists 1, w. split; [done|]. split; [done|]. split; [|done]. intros _. split_and!; [done|done|done| |by left].
    split; [intros x Hx; cbn in Hx; lia|]. intros i u Hi. by rewrite lookup_nil in Hi.
  - assert (Hn : 0 < Z.of_nat (length data)) by (destruct data; [done|cbn; lia]).
    destruct (rust_alloc_ok (Z.of_nat (length data)) w Hn) as [[Hp Hr]|(a & w1 & Ha & Hnew & Hu)].
    { left. split; [|done]. unfold mbind at 1. destruct (rust_alloc _ w) as [r w']. cbn [fst] in Hp. by rewrite Hp. }
    right. exists a, w1. pose proof Hnew as (N1 & N2 & N3 & N4 & N5).
    destruct (put_in_block 1 a data w1 a (Z.of_nat (length data))) as (B1 & S1 & O1); [by rewrite N4, lookup_insert_eq|lia|lia|].
    destruct (rw_range w1 a (Z.of_nat (length data))) as [Rr Rw]; [intros x Hx; by apply N5|].
    split; [done|]. split; [apply put_list_ok; by rewrite Z.mul_1_l|]. split; [|split].
    + intros Hb. split_and!; [lia|lia|lia| |right; by rewrite B1, N4, lookup_insert_eq].
      apply holds_put; [exact Hb|by rewrite Z.mul_1_l].
    + by apply (fill_block _ _ w1 _ a (Z.of_nat (length data))).
    + rewrite B1, N4. by apply insert_subseteq.
Qed.

Lemma blob_laid_out count buffer n : 0 <= count < 2 ^ 32 -> 0 < buffer < 2 ^ 64 -> 0 <= n < 2 ^ 64 ->
  laid_out 0 BLOB_SIZE (blob_fields BLOB_VTABLE count buffer n).
Proof.
  intros H1 H2 H3. unfold BLOB_SIZE. cbn [laid_out blob_fields Z.of_nat Pos.of_succ_nat Pos.succ]. unfold unit_range in *.
  cbn [Z.of_nat Pos.of_succ_nat Pos.succ] in *. split_and!; lia.
Qed.

Lemma storage_ext (w w' : W) a data : storage w a data -> blocks w' !! a = blocks w !! a ->
  (forall x, a <= x < a + Z.of_nat (length data) -> same_at w w' x) -> storage w' a data.
Proof.
  intros (H1 & H2 & H3 & H4) Hb Hx. split_and!; [lia|lia|done| |by rewrite Hb]. eapply holds_ext; [|exact H3].
  intros x Hr. destruct (Hx x ltac:(lia)). by split.
Qed.

Lemma make_blob_ok data (w : W) : Forall is_byte data ->
  (fst (make_blob (E := E) BLOB_VTABLE data w) = Panic /\ refused) \/
  exists p buffer w', make_blob (E := E) BLOB_VTABLE data w = (Ok p, w') /\ live_blob w' p buffer data 1 /\
    unharmed (blocks w) w w' /\ blocks w ⊆ blocks w'.
Proof.
  intros Hdata. unfold make_blob. cbv zeta.
  destruct (fill_storage data w) as [[Hp Hr]|(buffer & w1 & Ha & Hput & Hst & Hu & Hsub)].
  { left. split; [|done]. unfold mbind in *. destruct (rust_alloc _ w) as [[a|e| |] w1]; cbn in *; try done.
    destruct (put_list 1 a data w1) as [[u|e| |] w2]; cbn in *; done. }
  rewrite (mbind_ok _ _ _ _ _ Ha), (mbind_ok _ _ _ _ _ Hput). set (w2 := put 1 buffer data w1) in *. specialize (Hst Hdata).
  destruct (rust_alloc_ok BLOB_SIZE w2 ltac:(done)) as [[Hp Hr]|(p & w3 & Hp & Hnew & Hu3)].
  { left. split; [|done]. unfold mbind at 1. destruct (rust_alloc BLOB_SIZE w2) as [r w3]. cbn [fst] in Hp. by rewrite Hp. }
  right. rewrite (mbind_ok _ _ _ _ _ Hp). pose proof Hnew as (N1 & N2 & N3 & N4 & N5). pose proof Hst as (S1 & S2 & S3 & S4).
  pose proof (blob_laid_out 1 buffer (Z.of_nat (length data)) ltac:(lia) S1 ltac:(lia)) as Hlay.
  set (fs := blob_fields BLOB_VTABLE 1 buffer (Z.of_nat (length data))) in *.
  destruct (rw_range w3 p BLOB_SIZE) as [Rr Rw]; [intros x Hx; by apply N5|].
  assert (Hb3 : blocks w3 !! p = Some BLOB_SIZE) by (by rewrite N4, lookup_insert_eq).
  destruct (put_record_in_block fs p 0 BLOB_SIZE w3 p BLOB_SIZE Hb3 Hlay ltac:(lia) ltac:(lia)) as (B4 & F4 & O4).
  assert (Hap : data = [] \/ apart p BLOB_SIZE buffer (Z.of_nat (length data))).
  { destruct (decide (data = [])) as [->|Hne]; [by left|]. right. destruct S4 as [?|Hb]; [done|].
    apply disjoint_apart; [done|destruct data; [done|cbn; lia]|]. intros x Hx Hx'. destruct (N5 x Hx) as (_ & Hn & _). apply Hn.
    by exists buffer, (Z.of_nat (length data)). }
  exists p, buffer, (put_record p fs w3). split; [|split; [|split]].
  - rewrite (mbind_ok _ _ w3 tt (put_record p fs w3)); [done|]. apply (write_record_ok p 0 BLOB_SIZE); [done|]. by rewrite Z.add_0_r, Z.sub_0_r.
  - split_and!; [done|done|by rewrite B4|lia|lia| | | |done].
    + intros x Hx. rewrite prot_put_record. by apply N5.
    + apply (put_record_fields p 0 BLOB_SIZE); [done|]. by rewrite Z.add_0_r, Z.sub_0_r.
    + destruct (decide (data = [])) as [->|Hne].
      { split_and!; [lia|lia|done| |by left]. split; [intros x Hx; cbn in Hx; lia|]. intros i u Hi. by rewrite lookup_nil in Hi. }
      destruct S4 as [?|Hb]; [done|]. destruct Hap as [?|Hap]; [done|].
      apply (storage_ext w2); [exact Hst| |].
      * rewrite B4, N4, lookup_insert_ne; [done|]. intros ->. by rewrite N3 in Hb.
      * intros x Hx. eapply same_at_trans; [apply (proj1 Hu3); by exists buffer, (Z.of_nat (length data))|]. apply O4.
        unfold apart in Hap. apply in_range_false. lia.
  - apply (unharmed_trans _ (blocks w2) _ w2); [exact Hsub|exact Hu|]. by apply (fill_block _ _ w3 _ p BLOB_SIZE).
  - rewrite B4, N4. etrans; [exact Hsub|]. by apply insert_subseteq.
Qed.

(** ** References *)

(** The blocks left when a blob goes. *)
Definition rest (bs : gmap Z Z) (p buffer : Z) (data : list Z) : gmap Z Z :=
  delete p (if bool_decide (data = []) then bs else delete buffer bs).

Lemma blob_field (w : W) p buffer data count i k off v : live_blob w p buffer data count ->
  blob_fields BLOB_VTABLE count buffer (Z.of_nat (length data)) !! i = Some (k, off, v) -> read_int (E := E) k (p + off) w = (Ok v, w).
Proof. intros (_ & _ & _ & _ & _ & Hf & _) Hi. by eapply read_field. Qed.

(** A new count is written. *)
Lemma count_put (w : W) p buffer data c c' : live_blob w p buffer data c -> 0 <= c' < 2 ^ 32 ->
  let w' := put 4 (p + 8) [c'] w in
  write_int (E := E) 4 (p + 8) c' w = (Ok tt, w') /\ live_blob w' p buffer data c' /\ blocks w' = blocks w /\
  spared w w' /\ forall x, in_range p BLOB_SIZE x = false -> same_at w w' x.
Proof.
  intros (H1 & H2 & Hb & Hc & Hrw & Hf & Hst & Hap) Hc' w'. unfold BLOB_SIZE in *.
  destruct (put_in_block 4 (p + 8) [c'] w p 32 Hb ltac:(lia) ltac:(cbn [length]; lia)) as (B1 & S1 & O1). fold w' in B1, S1, O1.
  assert (Hout : forall x, in_range (p + 8) 4 x = false -> same_at w w' x).
  { intros x Hx. split; [apply prot_put|]. apply byte_put_out. exact Hx. }
  split; [apply write_int_put; intros x Hx; unfold may; by rewrite Hrw by lia|]. split; [|split; [done|]].
  - split_and!; [done|done|by rewrite B1|lia|lia| | | |done].
    + intros x Hx. unfold w'. rewrite prot_put. by apply Hrw.
    + unfold has_fields, blob_fields in *. inversion_clear Hf as [|? ? F1 Hf1]. inversion_clear Hf1 as [|? ? F2 Hf2].
      inversion_clear Hf2 as [|? ? F3 Hf3]. inversion_clear Hf3 as [|? ? F4 _]. constructor; [|constructor; [|constructor; [|constructor; [|constructor]]]].
      * apply holds_put_apart; [left; cbn [length]; lia|exact F1].
      * apply holds_put; [apply Forall_singleton; exact Hc'|]. intros x Hx. cbn [length] in Hx. unfold may. by rewrite Hrw by lia.
      * apply holds_put_apart; [right; cbn [length]; lia|exact F3].
      * apply holds_put_apart; [right; cbn [length]; lia|exact F4].
    + destruct Hap as [->|Hap].
      { destruct Hst as (S2 & S3 & _). split_and!; [lia|lia|done| |by left]. split; [intros x Hx; cbn in Hx; lia|]. intros i u Hi. by rewrite lookup_nil in Hi. }
      apply (storage_ext w); [done|by rewrite B1|]. intros x Hx. apply Hout. unfold apart in Hap. apply in_range_false. lia.
  - split; [exact S1|exact O1].
Qed.

(** What is not the blob's is left alone: the blocks that stay live, and foreign memory. *)
Definition left_alone (p buffer : Z) (data : list Z) (w w' : W) : Prop :=
  (forall x, in_blocks (rest (blocks w) p buffer data) x -> in_range p BLOB_SIZE x = false -> same_at w w' x) /\ spared w w'.

Lemma add_ref_ok (w : W) p buffer data c : live_blob w p buffer data c -> c + 1 < 2 ^ 32 ->
  exists w', blob_add_ref (E := E) p w = (Ok (c + 1), w') /\ live_blob w' p buffer data (c + 1) /\ blocks w' = blocks w /\
    left_alone p buffer data w w'.
Proof.
  intros Hl Hc. pose proof Hl as (_ & _ & _ & Hc0 & _).
  destruct (count_put w p buffer data c (c + 1) Hl ltac:(lia)) as (H1 & H2 & H3 & H4 & H5). exists (put 4 (p + 8) [c + 1] w).
  split; [|split; [done|split; [done|split; [by intros; apply H5|done]]]]. unfold blob_add_ref.
  rewrite (mbind_ok _ _ _ _ _ (blob_field w p buffer data c 1 _ _ _ Hl eq_refl)), wrap_small by lia.
  by rewrite (mbind_ok _ _ _ _ _ H1).
Qed.

Lemma release_ok (w : W) p buffer data c : live_blob w p buffer data c -> 1 < c ->
  exists w', blob_release (E := E) p w = (Ok (c - 1), w') /\ live_blob w' p buffer data (c - 1) /\ blocks w' = blocks w /\
    left_alone p buffer data w w'.
Proof.
  intros Hl Hc. pose proof Hl as (_ & _ & _ & Hc0 & _).
  destruct (count_put w p buffer data c (c - 1) Hl ltac:(lia)) as (H1 & H2 & H3 & H4 & H5). exists (put 4 (p + 8) [c - 1] w).
  split; [|split; [done|split; [done|split; [by intros; apply H5|done]]]]. unfold blob_release.
  rewrite (mbind_ok _ _ _ _ _ (blob_field w p buffer data c 1 _ _ _ Hl eq_refl)), wrap_small by lia.
  rewrite (mbind_ok _ _ _ _ _ H1), (proj2 (Z.eqb_neq c 1)) by lia. done.
Qed.

(** The last reference: both blocks are given back. *)
Lemma last_release (w : W) p buffer data : live_blob w p buffer data 1 ->
  exists w', blob_release (E := E) p w = (Ok 0, w') /\ blocks w' = rest (blocks w) p buffer data /\ left_alone p buffer data w w'.
Proof.
  intros Hl. destruct (count_put w p buffer data 1 0 Hl ltac:(lia)) as (H1 & Hl0 & H3 & H4 & H5). set (w1 := put 4 (p + 8) [0] w) in *.
  pose proof Hl0 as (_ & _ & Hb & _ & _ & _ & (Hbuf & Hlen & Hbytes & Hst) & Hap).
  set (w2 := if Z.of_nat (length data) =? 0 then w1 else libc_free buffer w1).
  assert (H2 : blocks w2 = (if bool_decide (data = []) then blocks w else delete buffer (blocks w)) /\
    (forall x, in_blocks (blocks w2) x -> same_at w1 w2 x) /\ spared w1 w2 /\ blocks w2 !! p = Some BLOB_SIZE).
  { unfold w2. destruct data as [|b data]; cbn [length] in *.
    - rewrite bool_decide_eq_true_2 by done. split; [exact H3|]. split; [done|]. split; [done|exact Hb].
    - rewrite (proj2 (Z.eqb_neq _ 0)) by lia. rewrite bool_decide_eq_false_2 by done. destruct Hst as [?|Hst]; [done|].
      destruct (free_ok buffer _ w1 Hst) as [Hf [Hu1 Hu2]]. rewrite Hf, H3. split; [done|]. split; [|split; [exact Hu2|]].
      + intros x Hx. apply Hu1. by rewrite H3.
      + destruct Hap as [?|Hap]; [done|]. rewrite lookup_delete_ne, <- H3; [exact Hb|]. intros ->.
        unfold apart, BLOB_SIZE in Hap. lia. }
  destruct H2 as (B2 & K2 & S2 & P2). destruct (free_ok p BLOB_SIZE w2 P2) as [Hf [Hu1 Hu2]].
  exists (libc_free p w2). split; [|split; [by rewrite Hf, B2|]].
  - unfold blob_release. rewrite (mbind_ok _ _ _ _ _ (blob_field w p buffer data 1 1 _ _ _ Hl eq_refl)).
    change (wrap 32 (1 - 1)) with 0. rewrite (mbind_ok _ _ _ _ _ H1). change (1 =? 1) with true. cbv iota.
    rewrite (mbind_ok _ _ w1 tt (libc_free p w2)); [done|].
    rewrite (mbind_ok _ _ _ _ _ (blob_field w1 p buffer data 0 2 _ _ _ Hl0 eq_refl)), (proj2 (Z.eqb_neq buffer 0)) by lia. cbn [negb].
    rewrite (mbind_ok _ _ w1 tt w2); [done|].
    by rewrite (mbind_ok _ _ _ _ _ (blob_field w1 p buffer data 0 3 _ _ _ Hl0 eq_refl)).
  - split; [|eapply spared_trans; [exact H4|]; eapply spared_trans; [exact S2|exact Hu2]]. intros x Hx Hr.
    assert (Hx2 : in_blocks (blocks w2) x) by (rewrite B2; by apply in_blocks_delete in Hx).
    eapply same_at_trans; [by apply H5|]. eapply same_at_trans; [by apply K2|]. apply Hu1. by rewrite B2.
Qed.

(** Counts after each [AddRef] ([true]) or [Release], and when all of them are made on
    a live blob. *)
Fixpoint counts (c : Z) (evs : list bool) : list Z :=
  match evs with [] => [] | up :: evs => let c' := if up then c + 1 else c - 1 in c' :: counts c' evs end.

Fixpoint counted (c : Z) (evs : list bool) : Prop :=
  match evs with [] => True | up :: evs => 0 < c /\ c + 1 < 2 ^ 32 /\ counted (if up then c + 1 else c - 1) evs end.

Lemma last_cons (l : list Z) : forall x d, List.last (x :: l) d = List.last l x.
Proof. induction l as [|y l IH]; intros x d; [done|]. change (List.last (y :: l) d = List.last (y :: l) x). by rewrite !IH. Qed.

Definition reference (p : Z) (up : bool) : G Z := if up then blob_add_ref p else blob_release p.

(** C31. A blob lives as long as its references: every [AddRef] and [Release] made while
    one is held returns the number of references, the bytes stay as they were, and
    the last [Release] gives both blocks back to the allocator, once; all other
    blocks, and memory the allocator does not manage, are left alone throughout. *)
Theorem blob_lives_counted p buffer data evs : forall (w : W) c, live_blob w p buffer data c -> 0 < c -> counted c evs ->
  exists w', m_list (reference p) evs w = (Ok (counts c evs), w') /\ left_alone p buffer data w w' /\
    let c' := List.last (counts c evs) c in
    (0 < c' -> live_blob w' p buffer data c' /\ blocks w' = blocks w) /\
    (c' = 0 -> blocks w' = rest (blocks w) p buffer data).
Proof.
  induction evs as [|up evs IH]; intros w c Hl Hc Hev.
  - exists w. split; [done|]. split; [done|]. cbn. split; [done|lia].
  - destruct Hev as (_ & Hc1 & Hev). set (c1 := if up then c + 1 else c - 1) in *.
    assert (Hlast : List.last (counts c (up :: evs)) c = List.last (counts c1 evs) c1).
    { cbn [counts]. fold c1. apply last_cons. }
    destruct (decide (c1 = 0)) as [H0|H0].
    + destruct evs as [|up' evs]; [|destruct Hev; lia]. assert (c = 1 /\ up = false) as [-> ->] by (destruct up; lia).
      destruct (last_release w p buffer data Hl) as (w' & H1 & H2 & H3). exists w'. cbn [m_list counts reference].
      rewrite (mbind_ok _ _ _ _ _ H1). split; [done|]. split; [done|]. cbn. split; [lia|done].
    + assert (Hstep : exists w1, reference p up w = (Ok c1, w1) /\ live_blob w1 p buffer data c1 /\ blocks w1 = blocks w /\ left_alone p buffer data w w1).
      { unfold c1, reference. destruct up; [apply add_ref_ok; [done|lia]|apply release_ok; [done|unfold c1 in H0; lia]]. }
      destruct Hstep as (w1 & H1 & Hl1 & Hb1 & [Ha1 Hs1]). destruct (IH w1 c1 Hl1 ltac:(unfold c1 in *; destruct up; lia) Hev) as (w' & H2 & [Ha2 Hs2] & H3 & H4).
      exists w'. split; [cbn [m_list]; rewrite (mbind_ok _ _ _ _ _ H1); by rewrite (mbind_ok _ _ _ _ _ H2)|]. rewrite Hlast. split; [|split].
      * split; [|by eapply spared_trans]. intros x Hx Hr. eapply same_at_trans; [by apply Ha1|]. apply Ha2; [by rewrite Hb1|done].
      * intros Hp. destruct (H3 Hp). split; [done|congruence].
      * intros Hp. rewrite (H4 Hp). by rewrite Hb1.
Qed.
End Blobs.

(** ** The compiler as the guest calls it *)

Section Compile.
Context `{HW : Host W} `{HL : !HostLaws W} `{HA : Allocator W} `{HAL : !AllocatorLaws W} {B : Type} {HB : Builder B} {HBL : BuilderLaws B} {E : Type}.
Local Abbreviation G := (M W E).

Variable BLOB_VTABLE : Z.
Hypothesis vtable_range : unit_range 8 BLOB_VTABLE.

(** A string argument: null, or bytes up to a zero. *)
Definition string_arg (w : W) (p : Z) (s : option (list Z)) : Prop :=
  match s with None => p = 0 | Some s => cstr 1 w p s /\ Z.of_nat (length s) < 65536 end.

Lemma read_cstr_ok (w : W) p s : string_arg w p s -> read_cstr (E := E) p w = (Ok (s ≫= from_utf8), w).
Proof.
  unfold read_cstr. destruct s as [s|]; [|by intros ->]. intros [Hs Hlen]. rewrite (proj2 (Z.eqb_neq p 0)) by (destruct Hs; lia).
  rewrite (mbind_ok _ _ w s w); [done|].
  apply (loop_run (length s) (fun i => (Z.of_nat i, rev (take i s))) (fun _ => w)); [done|done|lia| |].
  - intros i Hi. destruct (cstr_lookup _ _ _ _ _ Hs Hi) as (u & Hu & Hu' & Hnz). rewrite (mbind_ok _ _ _ _ _ (cstr_get _ _ _ _ _ _ Hs Hu)).
    rewrite (proj2 (Z.eqb_neq u 0) Hnz), (proj2 (Z.ltb_lt _ _)) by lia. replace (Z.of_nat (S i)) with (Z.of_nat i + 1) by lia.
    by rewrite (take_S_r _ _ _ Hu'), rev_app_distr.
  - rewrite (mbind_ok _ _ _ _ _ (cstr_get _ _ _ _ _ _ Hs (nul_lookup s))). by rewrite firstn_all, rev_involutive.
Qed.

(** What a compilation gives, whatever the source. *)
Lemma compile_module source stage :
  match compile (B := B) source stage with
  | Ok words => exists m, module_ok m /\ words = b_assemble m
  | NoFuel => False
  | _ => True
  end.
Proof.
  unfold compile. pose proof (frontend_spec source) as Hf. destruct (frontend source) as [u|e| |]; simpl; [|done..].
  destruct (pre_new (B := B) stage) as [s Hp]. pose proof (wp_codegen_module (unit_ok u = false) u _ s id Hp) as H. unfold wpk in H.
  unfold codegen. destruct (codegen_module u (Ctx_new stage)) as [[m|e| |] c']; simpl; eauto.
Qed.

Lemma spirv_is_bytes words : Forall is_byte (spirv_bytes words).
Proof. apply units_bytes. Qed.

(** A store to foreign memory leaves a blob alone. *)
Lemma blob_foreign_put (w : W) p buffer data count k a v : live_blob BLOB_VTABLE w p buffer data count ->
  (forall x, a <= x < a + Z.of_nat k -> foreign w x) -> live_blob BLOB_VTABLE (put k a [v] w) p buffer data count /\
  blocks (put k a [v] w) = blocks w.
Proof.
  intros (H1 & H2 & Hb & Hc & Hrw & Hf & Hst & Hap) Hfor. pose proof Hst as (S1 & S2 & S3 & S4).
  destruct (put_blocks k a [v] w) as [B1 _]; [intros x Hx; right; apply Hfor; cbn [length] in Hx; lia|]. split; [|exact B1].
  assert (Hs : forall x, in_blocks (blocks w) x -> same_at w (put k a [v] w) x).
  { intros x Hx. split; [apply prot_put|]. apply byte_put_out. apply not_true_iff_false. intros R%in_range_spec. cbn [length] in R.
    apply (block_not_foreign w x Hx), Hfor. lia. }
  assert (Hp : forall x, p <= x < p + BLOB_SIZE -> same_at w (put k a [v] w) x) by (intros x Hx; apply Hs; by exists p, BLOB_SIZE).
  split_and!; [done|done|by rewrite B1|lia|lia| | | |done].
  - intros x Hx. rewrite prot_put. by apply Hrw.
  - eapply (fields_ext w _ p 0 BLOB_SIZE); [apply (blob_laid_out BLOB_VTABLE vtable_range); lia|intros x Hx|exact Hf]. destruct (Hp x ltac:(lia)). by split.
  - destruct S4 as [->|Hst4].
    { split_and!; [lia|lia|done| |by left]. split; [intros x Hx; cbn in Hx; lia|]. intros i u Hi. by rewrite lookup_nil in Hi. }
    apply (storage_ext w); [done|by rewrite B1|]. intros x Hx. apply Hs. by exists buffer, (Z.of_nat (length data)).
Qed.

(** [D3DCompile] is the compiler on guest memory. For any source in memory it gives,
    if the compiler does, a blob with one reference whose buffer holds the words of a
    well-formed module in little-endian order, with its address in the slot of the
    caller, and touches no other block and no memory outside the allocator; a source
    that is not UTF-8 or does not compile is [E_FAIL] with memory unchanged; and the
    process aborts exactly where the compiler panics or the allocator refuses. *)
Theorem d3d_compile_correct (w : W) src source entry e target t code n1 n2 n3 n4 n5 n6 :
  src <> 0 -> 0 < code -> holds 1 w src source -> Z.of_nat (length source) < 2 ^ 64 ->
  string_arg w entry e -> string_arg w target t ->
  (forall x, code <= x < code + 8 -> foreign w x /\ prot_at w x = Some prot_rw) ->
  let run := d3d_compile (B := B) (E := E) BLOB_VTABLE src (Z.of_nat (length source)) n1 n2 n3 entry target n4 n5 code n6 w in
  match from_utf8 source, compile (B := B) (string_of source) (stage_of (default [] (t ≫= from_utf8))) with
  | None, _ | Some _, Err _ => run = (Ok E_FAIL, w)
  | Some _, Ok words =>
      (exists m, module_ok m /\ words = b_assemble m) /\
      ((fst run = Panic /\ refused (W := W)) \/
       exists blob buffer w', run = (Ok S_OK, w') /\ holds 8 w' code [blob] /\
         live_blob BLOB_VTABLE w' blob buffer (spirv_bytes words) 1 /\
         blob_get_buffer_pointer (E := E) blob w' = (Ok buffer, w') /\
         blob_get_buffer_size (E := E) blob w' = (Ok (Z.of_nat (length (spirv_bytes words))), w') /\
         holds 1 w' buffer (spirv_bytes words) /\
         forall x, in_blocks (blocks w) x \/ foreign w x -> in_range code 8 x = false -> same_at w w' x)
  | Some _, Panic => run = (Panic, w)
  | Some _, NoFuel => False
  end.
Proof.
  intros Hsrc Hcode Hh Hlen He Ht Hslot run. pose proof (compile_module (string_of source) (stage_of (default [] (t ≫= from_utf8)))) as Hmod.
  unfold run, d3d_compile. rewrite (proj2 (Z.eqb_neq src 0) Hsrc), (proj2 (Z.eqb_neq code 0)) by lia. cbn [orb].
  rewrite (mbind_ok _ _ _ _ _ (slice_from_holds 1 w src source Hlen Hh)).
  destruct (from_utf8 source) as [chars|]; [|done].
  rewrite (mbind_ok _ _ _ _ _ (read_cstr_ok w entry e He)), (mbind_ok _ _ _ _ _ (read_cstr_ok w target t Ht)). cbv zeta.
  destruct (compile (B := B) (string_of source) _) as [words|err| |]; [|done|done|done]. split; [exact Hmod|].
  destruct (make_blob_ok BLOB_VTABLE vtable_range (E := E) (spirv_bytes words) w (spirv_is_bytes words)) as [[Hp Hr]|(p & buffer & w1 & Hrun & Hl & Hu & _)].
  { left. split; [|done]. unfold mbind at 1. destruct (make_blob _ _ w) as [r w1]. cbn [fst] in Hp. by rewrite Hp. }
  right. rewrite (mbind_ok _ _ _ _ _ Hrun). set (w' := put 8 code [p] w1).
  assert (Hfor : forall x, code <= x < code + 8 -> foreign w1 x /\ prot_at w1 x = Some prot_rw).
  { intros x Hx. destruct (Hslot x Hx) as [F1 F2]. destruct (proj2 Hu x F1) as [[S1 _] F3]. split; [done|]. by rewrite S1. }
  destruct (rw_range w1 code 8) as [Rr Rw]; [intros x Hx; by apply Hfor|].
  destruct (blob_foreign_put w1 p buffer (spirv_bytes words) 1 8 code p Hl) as [Hl' _]; [intros x Hx; apply Hfor; lia|].
  pose proof Hl as (Hp1 & Hp2 & _). exists p, buffer, w'. split; [|split; [|split; [exact Hl'|split; [|split; [|split]]]]].
  - by rewrite (mbind_ok _ _ w1 tt w') by (apply write_int_put; exact Rw).
  - apply holds_put; [apply Forall_singleton; unfold unit_range, BLOB_SIZE in *; cbn; lia|]. cbn [length]. exact Rr.
  - exact (blob_field BLOB_VTABLE w' p buffer _ 1 2 _ _ _ Hl' eq_refl).
  - exact (blob_field BLOB_VTABLE w' p buffer _ 1 3 _ _ _ Hl' eq_refl).
  - by destruct Hl' as (_ & _ & _ & _ & _ & _ & (_ & _ & Hd & _) & _).
  - intros x Hx Hr. apply (same_at_trans w w1).
    + destruct Hx as [Hx|Hx]; [by apply (proj1 Hu)|by apply (proj2 Hu)].
    + split; [apply prot_put|by apply byte_put_out].
Qed.

(** [QueryInterface] hands out the pointer without a reference: a guest that releases
    each pointer it was given frees the blob while it still holds one. *)
Theorem query_uncounted (w : W) p buffer data riid ppv : live_blob BLOB_VTABLE w p buffer data 1 -> 0 < ppv ->
  (forall x, ppv <= x < ppv + 8 -> foreign w x /\ prot_at w x = Some prot_rw) ->
  exists w1 w2, blob_query_interface (E := E) p riid ppv w = (Ok S_OK, w1) /\ holds 8 w1 ppv [p] /\
    blob_release (E := E) p w1 = (Ok 0, w2) /\ blocks w2 !! p = None.
Proof.
  intros Hl Hppv Hslot. set (w1 := put 8 ppv [p] w).
  destruct (rw_range w ppv 8) as [Rr Rw]; [intros x Hx; by apply Hslot|].
  destruct (blob_foreign_put w p buffer data 1 8 ppv p Hl) as [Hl' _]; [intros x Hx; apply Hslot; lia|].
  destruct (last_release BLOB_VTABLE (E := E) w1 p buffer data Hl') as (w2 & H1 & H2 & _).
  pose proof Hl as (Hp1 & Hp2 & _). exists w1, w2. split; [|split; [|split; [exact H1|]]].
  - unfold blob_query_interface. rewrite (proj2 (Z.eqb_neq ppv 0)) by lia. cbn [negb].
    by rewrite (mbind_ok _ _ w tt w1) by (apply write_int_put; exact Rw).
  - apply holds_put; [apply Forall_singleton; unfold unit_range, BLOB_SIZE in *; cbn; lia|]. cbn [length]. exact Rr.
  - rewrite H2. unfold rest. by rewrite lookup_delete_eq.
Qed.
End Compile.

(** ** Concrete runs *)

Section Witnesses.
Definition d3d_source : string := "float4 main(float4 p : POSITION) : SV_Target { float4 c = p * 0.5; return c; }".

Definition d3d_world : SmallAlloc.World :=
  put 1 4096 (units_of d3d_source) (put 1 4608 (units_of "ps_5_0" ++ [0]) (snd (sys_mmap 0 1024 false SmallAlloc.empty))).

Lemma slot_foreign a : forallb (fun x => match prot_at d3d_world x with Some p => (p =? prot_rw) && negb (arena d3d_world x) | None => false end) (seqZ a 8) = true ->
  forall x, a <= x < a + 8 -> foreign d3d_world x /\ prot_at d3d_world x = Some prot_rw.
Proof.
  intros H x Hx. rewrite forallb_forall in H. specialize (H x). unfold foreign. destruct (prot_at d3d_world x) as [p|].
  - rewrite andb_true_iff, Z.eqb_eq, negb_true_iff in H. destruct H as [-> Ha]; [apply list_elem_of_In, elem_of_seqZ; lia|]. done.
  - discriminate H. apply list_elem_of_In, elem_of_seqZ. lia.
Qed.

Lemma d3d_compile_correct_witness :
  exists words m blob buffer w', module_ok m /\ words = b_assemble (B := View) m /\
    d3d_compile (B := View) (E := Empty_set) 4242 4096 (Z.of_nat (length (units_of d3d_source))) 0 0 0 0 4608 0 0 4864 0 d3d_world = (Ok S_OK, w') /\
    holds 8 w' 4864 [blob] /\ live_blob 4242 w' blob buffer (spirv_bytes words) 1.
Proof.
  pose proof (d3d_compile_correct (B := View) (E := Empty_set) 4242 ltac:(split; [lia|reflexivity]) d3d_world 4096 (units_of d3d_source) 0 None 4608
    (Some (units_of "ps_5_0")) 4864 0 0 0 0 0 0) as H.
  specialize (H ltac:(discriminate) ltac:(lia) ltac:(apply holds_b_sound; vm_compute; reflexivity) ltac:(vm_compute; reflexivity) eq_refl
    ltac:(split; [apply cstr_b_sound; vm_compute; reflexivity|vm_compute; reflexivity]) ltac:(apply slot_foreign; vm_compute; reflexivity)).
  cbv zeta in H. destruct (from_utf8 (units_of d3d_source)) as [chars|] eqn:Eu; [|exfalso; vm_compute in Eu; discriminate Eu].
  destruct (compile (B := View) (string_of (units_of d3d_source)) _) as [words|err| |] eqn:Ec; [|exfalso; vm_compute in Ec; discriminate Ec..].
  destruct H as [(m & Hm & Hw) [[Hp _]|(blob & buffer & w' & H1 & H2 & H3 & _)]]; [exfalso; vm_compute in Hp; discriminate Hp|].
  exists words, m, blob, buffer, w'. split; [exact Hm|]. split; [exact Hw|]. split; [exact H1|]. split; [exact H2|exact H3].
Defined.

Lemma blob_lives_counted_witness :
  exists p buffer w1 w2, make_blob (E := Empty_set) 4242 [1; 2; 3] d3d_world = (Ok p, w1) /\
    m_list (reference (E := Empty_set) p) [true; false; false] w1 = (Ok [2; 1; 0], w2) /\ blocks w2 = rest (blocks w1) p buffer [1; 2; 3].
Proof.
  destruct (make_blob_ok 4242 ltac:(split; [lia|reflexivity]) (E := Empty_set) [1; 2; 3] d3d_world) as [[Hp _]|(p & buffer & w1 & H1 & Hl & _)].
  - repeat constructor; discriminate.
  - exfalso. vm_compute in Hp. discriminate Hp.
  - destruct (blob_lives_counted 4242 (E := Empty_set) p buffer [1; 2; 3] [true; false; false] w1 1 Hl) as (w2 & H2 & _ & _ & H3).
    + reflexivity.
    + repeat split; reflexivity.
    + exists p, buffer, w1, w2. split; [exact H1|]. split; [exact H2|]. apply H3. reflexivity.
Defined.
End Witnesses.
