(* ===== verification/Vulkan.v ===== *)
(** * The Vulkan driver

    The graphics crates ([dxgi], [d3d11], [d3d12]) translate to Vulkan. The driver,
    and [ash] that calls it, are not part of the program: they are an interface, a
    class of operations on a world that the program does not see. What the driver's
    documentation says about handles and command buffers is a ghost record,
    [Usage], of what a validation layer would know: the objects that live, the state
    and the commands of every command buffer, and whether a rule was broken so far.
    The rules are those about the lifetime of handles and the states of command
    buffers; what a create info must contain is not among them. The laws say how
    every call changes the record as long as no rule was broken. *)
From Stdlib Require Import ZArith Lia.
From stdpp Require Import base list option gmap.
From S2P Require Import Prelude.
Local Open Scope rust_scope.
Local Open Scope Z_scope.
Set Warnings "-register-all".

(** ** Vocabulary of the interface *)

Inductive kind :=
  | KImage | KBuffer | KMemory | KImageView | KBufferView | KPipelineLayout | KRenderPass
  | KShaderModule | KPipeline | KCommandPool | KCommandBuffer | KFramebuffer | KFence.

#[export] Instance kind_eq_dec : EqDecision kind.
Proof. solve_decision. Defined.

Definition kind_code (k : kind) : Z :=
  match k with
  | KImage => 0 | KBuffer => 1 | KMemory => 2 | KImageView => 3 | KBufferView => 4 | KPipelineLayout => 5
  | KRenderPass => 6 | KShaderModule => 7 | KPipeline => 8 | KCommandPool => 9 | KCommandBuffer => 10
  | KFramebuffer => 11 | KFence => 12
  end.

Definition code_kind (n : Z) : option kind :=
  list_find (fun k => kind_code k = n)
    [KImage; KBuffer; KMemory; KImageView; KBufferView; KPipelineLayout; KRenderPass; KShaderModule; KPipeline;
     KCommandPool; KCommandBuffer; KFramebuffer; KFence] ≫= fun p => Some (snd p).

#[export] Instance kind_countable : Countable kind := inj_countable kind_code code_kind ltac:(by intros []).

(** A handle with its type. Null is 0. *)
Definition object : Type := kind * Z.

Inductive ImageLayout :=
  | LAYOUT_UNDEFINED | LAYOUT_GENERAL | LAYOUT_COLOR_ATTACHMENT_OPTIMAL | LAYOUT_TRANSFER_SRC_OPTIMAL
  | LAYOUT_TRANSFER_DST_OPTIMAL | LAYOUT_PRESENT_SRC_KHR.

#[export] Instance ImageLayout_eq_dec : EqDecision ImageLayout.
Proof. solve_decision. Defined.

(** Flags, with the values of the Vulkan headers. *)
Definition MEMORY_DEVICE_LOCAL : Z := 1.
Definition MEMORY_HOST_VISIBLE : Z := 2.
Definition MEMORY_HOST_COHERENT : Z := 4.
Definition MEMORY_HOST_CACHED : Z := 8.
Definition ACCESS_COLOR_ATTACHMENT_READ : Z := 0x80.
Definition ACCESS_COLOR_ATTACHMENT_WRITE : Z := 0x100.
Definition ACCESS_TRANSFER_READ : Z := 0x800.
Definition ACCESS_TRANSFER_WRITE : Z := 0x1000.
Definition ACCESS_MEMORY_READ : Z := 0x8000.
Definition STAGE_TOP_OF_PIPE : Z := 1.
Definition STAGE_COLOR_ATTACHMENT_OUTPUT : Z := 0x400.
Definition STAGE_TRANSFER : Z := 0x1000.
Definition STAGE_BOTTOM_OF_PIPE : Z := 0x2000.
Definition IMAGE_USAGE_TRANSFER_DST : Z := 2.
Definition IMAGE_USAGE_COLOR_ATTACHMENT : Z := 0x10.
Definition BUFFER_USAGE_TRANSFER_SRC : Z := 1.
Definition BUFFER_USAGE_TRANSFER_DST : Z := 2.
Definition BUFFER_USAGE_UNIFORM_BUFFER : Z := 0x10.
Definition BUFFER_USAGE_INDEX_BUFFER : Z := 0x40.
Definition BUFFER_USAGE_VERTEX_BUFFER : Z := 0x80.
Definition POOL_RESET_COMMAND_BUFFER : Z := 2.
Definition FORMAT_UNDEFINED : Z := 0.
Definition FORMAT_B8G8R8A8_UNORM : Z := 44.
Definition FORMAT_B8G8R8A8_SRGB : Z := 50.
Definition FORMAT_R32G32_SFLOAT : Z := 103.
Definition WHOLE_SIZE : Z := 2 ^ 64 - 1.

Record Extent2D := mkExtent2D { width2 : Z; height2 : Z }.
Record Extent3D := mkExtent3D { width3 : Z; height3 : Z; depth3 : Z }.
Record Rect2D := mkRect2D { rect_x : Z; rect_y : Z; rect_extent : Extent2D }.

(** Floating-point numbers are their bits. *)
Record Viewport := mkViewport { vp_x : Z; vp_y : Z; vp_width : Z; vp_height : Z; vp_min_depth : Z; vp_max_depth : Z }.

Inductive ImageType := TYPE_1D | TYPE_2D | TYPE_3D.
Inductive VkTopology := POINT_LIST | LINE_LIST | LINE_STRIP | TRIANGLE_LIST | TRIANGLE_STRIP.
Inductive VkCull := CULL_NONE | CULL_FRONT | CULL_BACK.
Inductive VkInputRate := RATE_VERTEX | RATE_INSTANCE.
Inductive VkIndexType := INDEX_UINT16 | INDEX_UINT32.
Inductive VkStage := STAGE_VERTEX | STAGE_FRAGMENT.
Inductive VkPolygonMode := POLYGON_FILL | POLYGON_LINE.
Inductive VkFrontFace := FACE_CLOCKWISE | FACE_COUNTER_CLOCKWISE.
Inductive VkDynamicState := DYNAMIC_VIEWPORT | DYNAMIC_SCISSOR.
Inductive VkLoadOp := LOAD_CLEAR | LOAD_DONT_CARE.
Inductive VkStoreOp := STORE_STORE | STORE_DONT_CARE.

(** Levels and layers of the colour aspect, from the first. *)
Record SubresourceRange := mkRange { level_count : Z; layer_count : Z }.

Record VertexBinding := mkVertexBinding { vb_binding : Z; vb_stride : Z; vb_rate : VkInputRate }.
Record VertexAttribute := mkVertexAttribute { va_location : Z; va_binding : Z; va_format : Z; va_offset : Z }.

Record PipelineInfo := mkPipelineInfo {
  pi_stages : list (VkStage * Z);
  pi_bindings : list VertexBinding;
  pi_attributes : list VertexAttribute;
  pi_topology : VkTopology;
  pi_viewport_count : Z;
  pi_viewports : option (list Viewport);
  pi_scissor_count : Z;
  pi_scissors : option (list Rect2D);
  pi_polygon : VkPolygonMode;
  pi_cull : VkCull;
  pi_front : VkFrontFace;
  pi_samples : Z;
  pi_blend : bool;
  pi_layout : Z;
  pi_render_pass : Z;
  pi_dynamic : list VkDynamicState
}.

Inductive create_info :=
  | ImageInfo (type : ImageType) (format : Z) (extent : Extent3D) (mip_levels array_layers samples usage : Z)
  | BufferInfo (size usage : Z)
  | MemoryInfo (size type_index : Z)
  | ImageViewInfo (image format : Z) (range : SubresourceRange)
  | PipelineLayoutInfo
  | RenderPassInfo (format samples : Z) (load : VkLoadOp) (store : VkStoreOp) (initial final : ImageLayout)
  | ShaderModuleInfo (code : list Z)
  | CommandPoolInfo (flags family : Z)
  | FramebufferInfo (render_pass : Z) (attachments : list Z) (width height layers : Z)
  | FenceInfo.

Definition kind_of (i : create_info) : kind :=
  match i with
  | ImageInfo _ _ _ _ _ _ _ => KImage
  | BufferInfo _ _ => KBuffer
  | MemoryInfo _ _ => KMemory
  | ImageViewInfo _ _ _ => KImageView
  | PipelineLayoutInfo => KPipelineLayout
  | RenderPassInfo _ _ _ _ _ _ => KRenderPass
  | ShaderModuleInfo _ => KShaderModule
  | CommandPoolInfo _ _ => KCommandPool
  | FramebufferInfo _ _ _ _ _ => KFramebuffer
  | FenceInfo => KFence
  end.

Record ImageBarrier := mkImageBarrier {
  ib_image : Z; ib_old : ImageLayout; ib_new : ImageLayout; ib_range : SubresourceRange; ib_src : Z; ib_dst : Z
}.
Record BufferBarrier := mkBufferBarrier { bb_buffer : Z; bb_offset : Z; bb_size : Z; bb_src : Z; bb_dst : Z }.

Inductive command :=
  | PipelineBarrier (src_stage dst_stage : Z) (bufs : list BufferBarrier) (images : list ImageBarrier)
  | ClearColorImage (image : Z) (layout : ImageLayout) (color : list Z) (range : SubresourceRange)
  | SetViewport (v : Viewport)
  | SetScissor (r : Rect2D)
  | BeginRenderPass (render_pass framebuffer : Z) (area : Rect2D) (clear : list Z)
  | BindPipeline (pipeline : Z)
  | BindVertexBuffers (first : Z) (bufs : list (Z * Z))
  | BindIndexBuffer (buffer offset : Z) (type : VkIndexType)
  | Draw (vertex_count instance_count first_vertex first_instance : Z)
  | DrawIndexed (index_count instance_count first_index vertex_offset first_instance : Z)
  | EndRenderPass
  | CopyBuffer (src dst : Z) (src_offset dst_offset size : Z).

(** ** What a validation layer knows *)

(** The objects that a create info and a command name. *)
Definition info_uses (i : create_info) : list object :=
  match i with
  | ImageViewInfo image _ _ => [(KImage, image)]
  | FramebufferInfo rp views _ _ _ => (KRenderPass, rp) :: map (pair KImageView) views
  | _ => []
  end.

Definition pipeline_uses (p : PipelineInfo) : list object :=
  (KPipelineLayout, pi_layout p) :: (KRenderPass, pi_render_pass p) :: map (fun '(_, m) => (KShaderModule, m)) (pi_stages p).

Definition command_uses (c : command) : list object :=
  match c with
  | PipelineBarrier _ _ bs ims => map (fun b => (KBuffer, bb_buffer b)) bs ++ map (fun b => (KImage, ib_image b)) ims
  | ClearColorImage image _ _ _ => [(KImage, image)]
  | BeginRenderPass rp fb _ _ => [(KRenderPass, rp); (KFramebuffer, fb)]
  | BindPipeline p => [(KPipeline, p)]
  | BindVertexBuffers _ bs => map (fun '(b, _) => (KBuffer, b)) bs
  | BindIndexBuffer b _ _ => [(KBuffer, b)]
  | CopyBuffer src dst _ _ _ => [(KBuffer, src); (KBuffer, dst)]
  | SetViewport _ | SetScissor _ | Draw _ _ _ _ | DrawIndexed _ _ _ _ _ | EndRenderPass => []
  end.

Inductive cb_status := CbInitial | CbRecording | CbExecutable | CbPending | CbInvalid.

#[export] Instance cb_status_eq_dec : EqDecision cb_status.
Proof. solve_decision. Defined.

Record CmdBuf := mkCmdBuf { cb_pool : Z; cb_state : cb_status; cb_one_time : bool; cb_commands : list command }.

Definition inside_pass (cs : list command) : bool :=
  fold_left (fun b c => match c with BeginRenderPass _ _ _ _ => true | EndRenderPass => false | _ => b end) cs false.

Definition binds_pipeline (c : command) : bool := match c with BindPipeline _ => true | _ => false end.
Definition binds_indices (c : command) : bool := match c with BindIndexBuffer _ _ _ => true | _ => false end.

(** Where a command may stand: after [cs], inside a render pass or outside. *)
Definition placed (cs : list command) (c : command) : bool :=
  match c with
  | PipelineBarrier _ _ _ _ | ClearColorImage _ _ _ _ | CopyBuffer _ _ _ _ _ | BeginRenderPass _ _ _ _ => negb (inside_pass cs)
  | Draw _ _ _ _ => inside_pass cs && existsb binds_pipeline cs
  | DrawIndexed _ _ _ _ _ => inside_pass cs && existsb binds_pipeline cs && existsb binds_indices cs
  | EndRenderPass => inside_pass cs
  | SetViewport _ | SetScissor _ | BindPipeline _ | BindVertexBuffers _ _ | BindIndexBuffer _ _ _ => true
  end.

Record Usage := mkUsage {
  live : gset object;                  (** the objects that exist *)
  bound : gset object;                 (** images and buffers with memory *)
  buffers : gmap Z CmdBuf;             (** the command buffers *)
  resettable : gset Z;                 (** pools whose buffers may be reset one by one *)
  mapped : gmap Z (Z * Z);             (** mapped memory: where, and how many bytes *)
  in_flight : gmap Z (list Z);         (** fences not waited for, with the buffers they stand for *)
  executed : list (list command);      (** what the queue was given, oldest first *)
  broken : bool                        (** a rule was broken *)
}.

Definition no_usage : Usage := mkUsage ∅ ∅ ∅ ∅ ∅ ∅ [] false.

Definition break (u : Usage) : Usage :=
  mkUsage (live u) (bound u) (buffers u) (resettable u) (mapped u) (in_flight u) (executed u) true.

(** A call whose rule is [ok]. *)
Definition rule (ok : bool) (u' u : Usage) : Usage := if ok then u' else break u.

Definition with_live (f : gset object -> gset object) (u : Usage) : Usage :=
  mkUsage (f (live u)) (bound u) (buffers u) (resettable u) (mapped u) (in_flight u) (executed u) (broken u).
Definition with_bound (f : gset object -> gset object) (u : Usage) : Usage :=
  mkUsage (live u) (f (bound u)) (buffers u) (resettable u) (mapped u) (in_flight u) (executed u) (broken u).
Definition with_buffers (f : gmap Z CmdBuf -> gmap Z CmdBuf) (u : Usage) : Usage :=
  mkUsage (live u) (bound u) (f (buffers u)) (resettable u) (mapped u) (in_flight u) (executed u) (broken u).
Definition with_resettable (f : gset Z -> gset Z) (u : Usage) : Usage :=
  mkUsage (live u) (bound u) (buffers u) (f (resettable u)) (mapped u) (in_flight u) (executed u) (broken u).
Definition with_mapped (f : gmap Z (Z * Z) -> gmap Z (Z * Z)) (u : Usage) : Usage :=
  mkUsage (live u) (bound u) (buffers u) (resettable u) (f (mapped u)) (in_flight u) (executed u) (broken u).
Definition with_in_flight (f : gmap Z (list Z) -> gmap Z (list Z)) (u : Usage) : Usage :=
  mkUsage (live u) (bound u) (buffers u) (resettable u) (mapped u) (f (in_flight u)) (executed u) (broken u).
Definition with_executed (f : list (list command) -> list (list command)) (u : Usage) : Usage :=
  mkUsage (live u) (bound u) (buffers u) (resettable u) (mapped u) (in_flight u) (f (executed u)) (broken u).

Definition all_live (os : list object) (u : Usage) : bool := forallb (fun o => bool_decide (o ∈ live u)) os.

Definition set_state (s : cb_status) (cb : CmdBuf) : CmdBuf := mkCmdBuf (cb_pool cb) s (cb_one_time cb) (cb_commands cb).

Definition cb_uses (o : object) (cb : CmdBuf) : bool :=
  existsb (fun c => existsb (fun o' => bool_decide (o' = o)) (command_uses c)) (cb_commands cb).

(** A buffer whose commands name an object that goes can no longer be used. *)
Definition spoil (o : object) (cb : CmdBuf) : CmdBuf :=
  match cb_state cb with
  | CbRecording | CbExecutable => if cb_uses o cb then set_state CbInvalid cb else cb
  | _ => cb
  end.

Definition is_pending (cb : CmdBuf) : bool := bool_decide (cb_state cb = CbPending).

Definition info_ok (i : create_info) (u : Usage) : bool :=
  all_live (info_uses i) u &&
  match i with ImageViewInfo image _ _ => bool_decide ((KImage, image) ∈ bound u) | _ => true end.

Definition u_create (i : create_info) (h : Z) (u : Usage) : Usage :=
  rule (info_ok i u)
    (with_live (union {[(kind_of i, h)]})
      (match i with
       | CommandPoolInfo flags _ =>
           if negb (Z.land flags POOL_RESET_COMMAND_BUFFER =? 0) then with_resettable (union {[h]}) u else u
       | _ => u
       end)) u.

Definition u_create_pipeline (p : PipelineInfo) (h : Z) (u : Usage) : Usage :=
  rule (all_live (pipeline_uses p) u) (with_live (union {[(KPipeline, h)]}) u) u.

Definition u_destroy (k : kind) (h : Z) (u : Usage) : Usage :=
  rule (bool_decide ((k, h) ∈ live u) &&
        forallb (fun '(_, cb) => negb (is_pending cb && (cb_uses (k, h) cb || bool_decide (k = KCommandPool /\ cb_pool cb = h))))
          (map_to_list (buffers u)) &&
        negb (bool_decide (k = KFence /\ is_Some (in_flight u !! h))) && negb (bool_decide (k = KCommandBuffer)))
    (with_live (fun l => l ∖ {[(k, h)]})
      (with_bound (fun b => b ∖ {[(k, h)]})
        (with_buffers (fmap (spoil (k, h)))
          (if bool_decide (k = KMemory) then with_mapped (delete h) u
           else if bool_decide (k = KCommandPool) then
             with_live (fun l => l ∖ set_map (pair KCommandBuffer) (dom (filter (fun '(_, cb) => cb_pool cb = h) (buffers u))))
               (with_buffers (filter (fun '(_, cb) => cb_pool cb <> h)) u)
           else u)))) u.

Definition u_allocate (pool : Z) (hs : list Z) (u : Usage) : Usage :=
  rule (bool_decide ((KCommandPool, pool) ∈ live u))
    (with_live (union (list_to_set (map (pair KCommandBuffer) hs)))
      (with_buffers (fun m => foldr (fun h => <[h := mkCmdBuf pool CbInitial false []]>) m hs) u)) u.

Definition u_free (pool h : Z) (u : Usage) : Usage :=
  match buffers u !! h with
  | Some cb =>
      rule (bool_decide (cb_pool cb = pool) && negb (is_pending cb))
        (with_live (fun l => l ∖ {[(KCommandBuffer, h)]}) (with_buffers (delete h) u)) u
  | None => break u
  end.

Definition may_bind (k : kind) (h memory : Z) (u : Usage) : bool :=
  bool_decide ((k, h) ∈ live u) && bool_decide ((KMemory, memory) ∈ live u) && negb (bool_decide ((k, h) ∈ bound u)).

Definition u_bind (k : kind) (h memory : Z) (u : Usage) : Usage :=
  rule (may_bind k h memory u) (with_bound (union {[(k, h)]}) u) u.

Definition may_map (memory : Z) (u : Usage) : bool :=
  bool_decide ((KMemory, memory) ∈ live u) && bool_decide (mapped u !! memory = None).

Definition u_map (memory ptr size : Z) (u : Usage) : Usage :=
  rule (may_map memory u) (with_mapped <[memory := (ptr, size)]> u) u.

Definition u_unmap (memory : Z) (u : Usage) : Usage :=
  rule (bool_decide (is_Some (mapped u !! memory))) (with_mapped (delete memory) u) u.

(** A copy of [n] bytes by the host to the start of mapped memory. *)
Definition u_write (ptr n : Z) (u : Usage) : Usage :=
  rule ((n =? 0) || existsb (fun '(_, (p, size)) => (p =? ptr) && (n <=? size)) (map_to_list (mapped u))) u u.

Definition may_begin (h : Z) (u : Usage) : bool :=
  match buffers u !! h with
  | Some cb =>
      match cb_state cb with
      | CbInitial => true
      | CbExecutable | CbInvalid => bool_decide (cb_pool cb ∈ resettable u)
      | CbRecording | CbPending => false
      end
  | None => false
  end.

Definition u_begin (h : Z) (one_time : bool) (u : Usage) : Usage :=
  rule (may_begin h u)
    (with_buffers (alter (fun cb => mkCmdBuf (cb_pool cb) CbRecording one_time []) h) u) u.

Definition u_end (h : Z) (s : cb_status) (u : Usage) : Usage :=
  match buffers u !! h with
  | Some cb =>
      rule (bool_decide (cb_state cb = CbRecording) && negb (inside_pass (cb_commands cb)))
        (with_buffers <[h := set_state s cb]> u) u
  | None => break u
  end.

Definition u_cmd (h : Z) (c : command) (u : Usage) : Usage :=
  match buffers u !! h with
  | Some cb =>
      rule (bool_decide (cb_state cb = CbRecording) && all_live (command_uses c) u && placed (cb_commands cb) c)
        (with_buffers <[h := mkCmdBuf (cb_pool cb) CbRecording (cb_one_time cb) (cb_commands cb ++ [c])]> u) u
  | None => break u
  end.

Definition reset_buffer (cb : CmdBuf) : CmdBuf := mkCmdBuf (cb_pool cb) CbInitial false [].

Definition may_reset_pool (pool : Z) (u : Usage) : bool :=
  bool_decide ((KCommandPool, pool) ∈ live u) &&
  forallb (fun '(_, cb) => negb (is_pending cb && bool_decide (cb_pool cb = pool))) (map_to_list (buffers u)).

Definition u_reset_pool (pool : Z) (u : Usage) : Usage :=
  rule (may_reset_pool pool u)
    (with_buffers (fmap (fun cb => if bool_decide (cb_pool cb = pool) then reset_buffer cb else cb)) u) u.

Definition u_reset (h : Z) (u : Usage) : Usage :=
  match buffers u !! h with
  | Some cb => rule (negb (is_pending cb) && bool_decide (cb_pool cb ∈ resettable u)) (with_buffers <[h := reset_buffer cb]> u) u
  | None => break u
  end.

Definition cb_is (s : cb_status) (h : Z) (u : Usage) : bool :=
  match buffers u !! h with Some cb => bool_decide (cb_state cb = s) | None => false end.

Definition commands_of (u : Usage) (h : Z) : list command :=
  match buffers u !! h with Some cb => cb_commands cb | None => [] end.

Definition submit_ok (hs : list Z) (fence : Z) (u : Usage) : bool :=
  forallb (fun h => cb_is CbExecutable h u) hs && bool_decide (NoDup hs) &&
  bool_decide ((KFence, fence) ∈ live u) && bool_decide (in_flight u !! fence = None).

Definition u_submit (hs : list Z) (fence : Z) (u : Usage) : Usage :=
  rule (submit_ok hs fence u)
    (with_in_flight <[fence := hs]>
      (with_executed (fun l => l ++ map (commands_of u) hs)
        (with_buffers (fun m => foldr (alter (set_state CbPending)) m hs) u))) u.

(** A buffer begun for one submission may not be submitted again. *)
Definition done_with (cb : CmdBuf) : CmdBuf := set_state (if cb_one_time cb then CbInvalid else CbExecutable) cb.

Definition u_wait (fence : Z) (u : Usage) : Usage :=
  rule (bool_decide ((KFence, fence) ∈ live u))
    (with_in_flight (delete fence)
      (with_buffers (fun m => foldr (alter done_with) m (default [] (in_flight u !! fence))) u)) u.

(** ** The interface *)

(** The result of a call that may fail: [inr] is a result code of the driver. *)
Class Vulkan (W : Type) := {
  usage : W -> Usage;
  vk_create : create_info -> W -> (Z + Z) * W;
  vk_create_pipelines : list PipelineInfo -> W -> (list Z + Z) * W;
  vk_allocate : Z -> nat -> W -> (list Z + Z) * W;
  vk_destroy : kind -> Z -> W -> W;
  vk_free : Z -> Z -> W -> W;
  vk_requirements : kind -> Z -> W -> Z * Z;
  vk_bind : kind -> Z -> Z -> Z -> W -> (unit + Z) * W;
  vk_map : Z -> Z -> Z -> W -> (Z + Z) * W;
  vk_unmap : Z -> W -> W;
  vk_write : Z -> list Z -> W -> W;
  vk_begin : Z -> bool -> W -> (unit + Z) * W;
  vk_end : Z -> W -> (unit + Z) * W;
  vk_cmd : Z -> command -> W -> W;
  vk_reset_pool : Z -> W -> (unit + Z) * W;
  vk_reset : Z -> W -> (unit + Z) * W;
  vk_submit : list Z -> Z -> W -> (unit + Z) * W;
  vk_wait : Z -> W -> (unit + Z) * W
}.

Definition unbroken `{Vulkan W} (w : W) : Prop := broken (usage w) = false.

Class VulkanLaws (W : Type) `{Vulkan W} := {
  create_ok i (w : W) h w' : unbroken w -> vk_create i w = (inl h, w') ->
    0 < h < 2 ^ 64 /\ ~ (kind_of i, h) ∈ live (usage w) /\ usage w' = u_create i h (usage w);
  create_failed i (w : W) e w' : unbroken w -> vk_create i w = (inr e, w') ->
    usage w' = rule (info_ok i (usage w)) (usage w) (usage w);
  pipelines_ok p (w : W) hs w' : unbroken w -> vk_create_pipelines [p] w = (inl hs, w') ->
    exists h, hs = [h] /\ 0 < h < 2 ^ 64 /\ ~ (KPipeline, h) ∈ live (usage w) /\ usage w' = u_create_pipeline p h (usage w);
  pipelines_failed p (w : W) e w' : unbroken w -> vk_create_pipelines [p] w = (inr e, w') ->
    usage w' = rule (all_live (pipeline_uses p) (usage w)) (usage w) (usage w);
  allocate_ok pool n (w : W) hs w' : unbroken w -> vk_allocate pool n w = (inl hs, w') ->
    length hs = n /\ NoDup hs /\ (forall h, h ∈ hs -> 0 < h < 2 ^ 64 /\ ~ (KCommandBuffer, h) ∈ live (usage w) /\ buffers (usage w) !! h = None) /\
    usage w' = u_allocate pool hs (usage w);
  allocate_failed pool n (w : W) e w' : unbroken w -> vk_allocate pool n w = (inr e, w') ->
    usage w' = rule (bool_decide ((KCommandPool, pool) ∈ live (usage w))) (usage w) (usage w);
  destroy_law k h (w : W) : unbroken w -> usage (vk_destroy k h w) = u_destroy k h (usage w);
  free_law pool h (w : W) : unbroken w -> usage (vk_free pool h w) = u_free pool h (usage w);
  bind_ok k h m (w : W) w' : unbroken w -> vk_bind k h m 0 w = (inl tt, w') -> usage w' = u_bind k h m (usage w);
  bind_failed k h m (w : W) e w' : unbroken w -> vk_bind k h m 0 w = (inr e, w') ->
    usage w' = rule (may_bind k h m (usage w)) (usage w) (usage w) \/ usage w' = u_bind k h m (usage w);
  map_ok m size (w : W) p w' : unbroken w -> vk_map m 0 size w = (inl p, w') -> usage w' = u_map m p size (usage w);
  map_failed m size (w : W) e w' : unbroken w -> vk_map m 0 size w = (inr e, w') ->
    usage w' = rule (may_map m (usage w)) (usage w) (usage w);
  unmap_law m (w : W) : unbroken w -> usage (vk_unmap m w) = u_unmap m (usage w);
  write_law p bs (w : W) : unbroken w -> usage (vk_write p bs w) = u_write p (Z.of_nat (length bs)) (usage w);
  begin_ok h o (w : W) w' : unbroken w -> vk_begin h o w = (inl tt, w') -> usage w' = u_begin h o (usage w);
  begin_failed h o (w : W) e w' : unbroken w -> vk_begin h o w = (inr e, w') ->
    usage w' = rule (may_begin h (usage w)) (usage w) (usage w);
  end_ok h (w : W) w' : unbroken w -> vk_end h w = (inl tt, w') -> usage w' = u_end h CbExecutable (usage w);
  end_failed h (w : W) e w' : unbroken w -> vk_end h w = (inr e, w') -> usage w' = u_end h CbInvalid (usage w);
  cmd_law h c (w : W) : unbroken w -> usage (vk_cmd h c w) = u_cmd h c (usage w);
  reset_pool_ok p (w : W) w' : unbroken w -> vk_reset_pool p w = (inl tt, w') -> usage w' = u_reset_pool p (usage w);
  reset_pool_failed p (w : W) e w' : unbroken w -> vk_reset_pool p w = (inr e, w') -> usage w' = rule (may_reset_pool p (usage w)) (usage w) (usage w);
  reset_ok h (w : W) w' : unbroken w -> vk_reset h w = (inl tt, w') -> usage w' = u_reset h (usage w);
  submit_ok_law hs f (w : W) w' : unbroken w -> vk_submit hs f w = (inl tt, w') -> usage w' = u_submit hs f (usage w);
  submit_failed hs f (w : W) e w' : unbroken w -> vk_submit hs f w = (inr e, w') ->
    usage w' = rule (submit_ok hs f (usage w)) (usage w) (usage w);
  wait_ok f (w : W) w' : unbroken w -> vk_wait f w = (inl tt, w') -> usage w' = u_wait f (usage w);
  wait_failed f (w : W) e w' : unbroken w -> vk_wait f w = (inr e, w') ->
    usage w' = rule (bool_decide ((KFence, f) ∈ live (usage w))) (usage w) (usage w)
}.

(** ** Calling the driver from fallible code *)

Section Calls.
Context {W E : Type} (inj : Z -> E).

(** A call whose result code becomes an error ([map_err(vk_err)?]). *)
Definition try {A} (op : W -> (A + Z) * W) : M W E A := fun w =>
  match op w with (inl a, w') => (Ok a, w') | (inr e, w') => (Err (inj e), w') end.

Definition run (op : W -> W) : M W E unit := fun w => (Ok tt, op w).
Definition ask {A} (f : W -> A) : M W E A := fun w => (Ok (f w), w).
End Calls.

(** The code of a method with a receiver of its own beside the driver. *)
Section Receivers.
Context {W S E : Type}.

Definition driver {A} (m : M W E A) : M (W * S) E A := fun '(w, s) => let '(r, w') := m w in (r, (w', s)).
Definition self : M (W * S) E S := fun '(w, s) => (Ok s, (w, s)).
Definition set_self (f : S -> S) : M (W * S) E unit := fun '(w, s) => (Ok tt, (w, f s)).
End Receivers.

(** [ends m s Q]: [m] run from [s] ends in an outcome and a state that satisfy [Q]. *)
Definition ends {S E A} (m : M S E A) (s : S) (Q : outcome E A -> S -> Prop) : Prop := Q (fst (m s)) (snd (m s)).

(** What follows an outcome: errors are passed on. *)
Definition next {S E A B} (f : A -> M S E B) (Q : outcome E B -> S -> Prop) (r : outcome E A) (s : S) : Prop :=
  match r with Ok a => ends (f a) s Q | Err e => Q (Err e) s | Panic => Q Panic s | NoFuel => Q NoFuel s end.

Section Ends.
Context {S E : Type}.

Lemma ends_then {A B} (m : M S E A) (f : A -> M S E B) s Q : ends m s (next f Q) -> ends (mbind m f) s Q.
Proof. unfold ends, next, mbind. by destruct (m s) as [[] ?]. Qed.

Lemma ends_ret {A} (a : A) s (Q : outcome E A -> S -> Prop) : Q (Ok a) s -> ends (mret a) s Q.
Proof. done. Qed.

Lemma ends_fail {A} (e : E) s (Q : outcome E A -> S -> Prop) : Q (Err e) s -> ends (mfail e) s Q.
Proof. done. Qed.

Lemma ends_mono {A} (m : M S E A) s (Q Q' : outcome E A -> S -> Prop) : ends m s Q -> (forall r s', Q r s' -> Q' r s') -> ends m s Q'.
Proof. unfold ends. eauto. Qed.

Lemma ends_try (inj : Z -> E) {A} (op : S -> (A + Z) * S) s Q :
  (forall a s', op s = (inl a, s') -> Q (Ok a) s') -> (forall e s', op s = (inr e, s') -> Q (Err (inj e)) s') -> ends (try inj op) s Q.
Proof. unfold ends, try. intros H1 H2. destruct (op s) as [[a|e] s'] eqn:Eo; [by apply H1|by apply H2]. Qed.

Lemma ends_run (op : S -> S) s (Q : outcome E unit -> S -> Prop) : Q (Ok tt) (op s) -> ends (run op) s Q.
Proof. done. Qed.

Lemma ends_ask {A} (f : S -> A) s (Q : outcome E A -> S -> Prop) : Q (Ok (f s)) s -> ends (ask f) s Q.
Proof. done. Qed.
End Ends.

Lemma ends_driver {W S E A} (m : M W E A) w (s : S) Q : ends m w (fun r w' => Q r (w', s)) -> ends (driver m) (w, s) Q.
Proof. unfold ends, driver. by destruct (m w). Qed.

Lemma ends_self {W S E} (w : W) (s : S) (Q : outcome E S -> W * S -> Prop) : Q (Ok s) (w, s) -> ends self (w, s) Q.
Proof. done. Qed.

Lemma ends_set_self {W S E} (f : S -> S) (w : W) (s : S) (Q : outcome E unit -> W * S -> Prop) : Q (Ok tt) (w, f s) -> ends (set_self f) (w, s) Q.
Proof. done. Qed.

(** ** The calls, where their rules hold *)

Lemma rule_true (b : bool) u' u : b = true -> rule b u' u = u'.
Proof. by intros ->. Qed.

Lemma rule_same (b : bool) u : b = true -> rule b u u = u.
Proof. by intros ->. Qed.

Definition created (i : create_info) (h : Z) (u : Usage) : Usage :=
  with_live (union {[(kind_of i, h)]})
    (match i with
     | CommandPoolInfo flags _ => if negb (Z.land flags POOL_RESET_COMMAND_BUFFER =? 0) then with_resettable (union {[h]}) u else u
     | _ => u
     end).

Section Rules.
Context `{HV : Vulkan W} `{HL : !VulkanLaws W} {E : Type} (inj : Z -> E).

Lemma ends_create i (w : W) (Q : outcome E Z -> W -> Prop) : unbroken w -> info_ok i (usage w) = true ->
  (forall h w', 0 < h < 2 ^ 64 -> (kind_of i, h) ∉ live (usage w) -> usage w' = created i h (usage w) -> Q (Ok h) w') ->
  (forall e w', usage w' = usage w -> Q (Err (inj e)) w') -> ends (try inj (vk_create i)) w Q.
Proof.
  intros Hu Hi H1 H2. apply ends_try; intros x w' Hc.
  - destruct (create_ok i w x w' Hu Hc) as (Hx & Hn & Hw). apply H1; [done|done|]. rewrite Hw. unfold u_create. by rewrite rule_true.
  - apply H2. rewrite (create_failed i w x w' Hu Hc). by rewrite rule_same.
Qed.

Lemma ends_pipelines p (w : W) (Q : outcome E (list Z) -> W -> Prop) : unbroken w -> all_live (pipeline_uses p) (usage w) = true ->
  (forall h w', 0 < h < 2 ^ 64 -> (KPipeline, h) ∉ live (usage w) -> usage w' = with_live (union {[(KPipeline, h)]}) (usage w) -> Q (Ok [h]) w') ->
  (forall e w', usage w' = usage w -> Q (Err (inj e)) w') -> ends (try inj (vk_create_pipelines [p])) w Q.
Proof.
  intros Hu Hi H1 H2. apply ends_try; intros x w' Hc.
  - destruct (pipelines_ok p w x w' Hu Hc) as (h & -> & Hx & Hn & Hw). apply H1; [done|done|]. rewrite Hw. unfold u_create_pipeline. by rewrite rule_true.
  - apply H2. rewrite (pipelines_failed p w x w' Hu Hc). by rewrite rule_same.
Qed.

Lemma ends_allocate_one pool (w : W) (Q : outcome E (list Z) -> W -> Prop) : unbroken w -> (KCommandPool, pool) ∈ live (usage w) ->
  (forall h w', 0 < h < 2 ^ 64 -> (KCommandBuffer, h) ∉ live (usage w) -> buffers (usage w) !! h = None ->
     usage w' = with_live (union {[(KCommandBuffer, h)]}) (with_buffers <[h := mkCmdBuf pool CbInitial false []]> (usage w)) -> Q (Ok [h]) w') ->
  (forall e w', usage w' = usage w -> Q (Err (inj e)) w') -> ends (try inj (vk_allocate pool 1)) w Q.
Proof.
  intros Hu Hi H1 H2. apply ends_try; intros x w' Hc.
  - destruct (allocate_ok pool 1 w x w' Hu Hc) as (Hn & _ & Hx & Hw). destruct x as [|h []]; [done| |done].
    destruct (Hx h) as (Hh & Hl & Hb); [by left|]. apply H1; [done|done|done|]. rewrite Hw. unfold u_allocate.
    rewrite rule_true by (by apply bool_decide_eq_true). unfold with_live, with_buffers. simpl. by rewrite union_empty_r_L.
  - apply H2. rewrite (allocate_failed pool 1 w x w' Hu Hc). by rewrite rule_same by (by apply bool_decide_eq_true).
Qed.
End Rules.
