(* ===== verification/VkOwn.v ===== *)
(** * Who owns which Vulkan object

    While the code of a Direct3D layer runs, the objects that live are those in the
    hands of the running call ([own]) and all others ([rest]). [working] says so,
    and that the others are as they were. Every call to the driver is a step on the
    list [own]; the rules below are all that the proofs about the layers use. *)
From Stdlib Require Import ZArith Lia.
From stdpp Require Import base list option gmap.
From S2P Require Import Prelude Vulkan.
Local Open Scope rust_scope.
Local Open Scope Z_scope.
Set Warnings "-register-all".

(** The objects that live, each listed once, between calls of a layer. *)
Record holds (all : list object) (u : Usage) : Prop := {
  h_unbroken : broken u = false;
  h_nodup : NoDup all;
  h_live o : o ∈ live u <-> o ∈ all;
  h_flight : in_flight u = ∅;
  h_buffers h : is_Some (buffers u !! h) <-> (KCommandBuffer, h) ∈ live u;
  h_pending h cb : buffers u !! h = Some cb -> cb_state cb <> CbPending;
  h_bound o : o ∈ bound u -> o ∈ live u /\ fst o <> KCommandBuffer;
  h_mapped m : is_Some (mapped u !! m) -> (KMemory, m) ∈ live u
}.

Lemma holds_perm all all' u : Permutation all all' -> holds all u -> holds all' u.
Proof.
  intros Hp [H1 H2 H3 H4 H5 H6 H7 H8]. split; try done; [by rewrite <- Hp|]. intros o. by rewrite H3, Hp.
Qed.

(** What a call may do to a command buffer that is not in its hands: spoil it, by
    destroying an object that its commands name, and then one with [P]. *)
Definition calm (P : object -> Prop) (a b : option CmdBuf) : Prop :=
  match a, b with
  | Some c, Some c' => c' = c \/ (c' = set_state CbInvalid c /\ (cb_state c = CbRecording \/ cb_state c = CbExecutable) /\ exists o, P o /\ cb_uses o c = true)
  | None, None => True
  | _, _ => False
  end.

Lemma calm_refl P a : calm P a a.
Proof. destruct a; simpl; tauto. Qed.

Lemma calm_trans P a b c : calm P a b -> calm P b c -> calm P a c.
Proof.
  destruct a as [x|], b as [y|], c as [z|]; simpl; try tauto. intros [->|[-> H]] [->|[-> H']]; [by left|by right|by right|]. by destruct H' as [[?|?] _].
Qed.

Lemma calm_mono (P Q : object -> Prop) a b : (forall o, P o -> Q o) -> calm P a b -> calm Q a b.
Proof. intros HPQ. destruct a as [x|], b as [y|]; simpl; try done. intros [->|(-> & H & o & Ho & Hu)]; [by left|]. right. split_and!; [done|done|]. exists o. auto. Qed.

Lemma calm_spoil (P : object -> Prop) o cb : P o -> calm P (Some cb) (Some (spoil o cb)).
Proof. intros Ho. unfold spoil. simpl. destruct (cb_state cb) eqn:E; auto; destruct (cb_uses o cb) eqn:Eu; eauto 8. Qed.

Definition same_for (P : object -> Prop) (u u' : Usage) (o : object) : Prop :=
  (o ∈ bound u' <-> o ∈ bound u) /\
  (fst o = KMemory -> mapped u' !! snd o = mapped u !! snd o) /\
  (fst o = KCommandBuffer -> calm P (buffers u !! snd o) (buffers u' !! snd o)).

Lemma same_for_refl P u o : same_for P u u o.
Proof. split; [done|split; [done|]]. intros _. apply calm_refl. Qed.

Lemma same_for_trans P u1 u2 u3 o : same_for P u1 u2 o -> same_for P u2 u3 o -> same_for P u1 u3 o.
Proof.
  intros (A1 & B1 & C1) (A2 & B2 & C2). split; [by rewrite A2|]. split; intros H.
  - by rewrite B2, B1.
  - eapply calm_trans; [by apply C1|by apply C2].
Qed.

Lemma same_for_mono (P Q : object -> Prop) u u' o : (forall o, P o -> Q o) -> same_for P u u' o -> same_for Q u u' o.
Proof. intros HPQ (A & B & C). split; [done|]. split; [done|]. intros H. eapply calm_mono; [exact HPQ|by apply C]. Qed.

(** Only what is not among the others may have gone. *)
Record working (own rest : list object) (u0 u : Usage) : Prop := {
  k_holds : holds (own ++ rest) u;
  k_same : Forall (same_for (fun o => o ∉ rest) u0 u) rest
}.

Lemma working_start own rest u : holds (own ++ rest) u -> working own rest u u.
Proof. intros H. split; [done|]. apply Forall_forall. intros o _. apply same_for_refl. Qed.

Lemma working_perm own own' rest u0 u : Permutation own own' -> working own rest u0 u -> working own' rest u0 u.
Proof. intros Hp [H1 H2]. split; [|done]. eapply holds_perm; [|exact H1]. by rewrite Hp. Qed.

Lemma own_live own rest u0 u o : working own rest u0 u -> o ∈ own -> o ∈ live u.
Proof. intros [H _] Ho. apply (h_live _ _ H). apply elem_of_app. by left. Qed.

Lemma rest_live own rest u0 u o : working own rest u0 u -> o ∈ rest -> o ∈ live u.
Proof. intros [H _] Ho. apply (h_live _ _ H). apply elem_of_app. by right. Qed.

Lemma own_not_rest own rest u0 u o : working own rest u0 u -> o ∈ own -> o ∉ rest.
Proof. intros [H _] Ho Hr. pose proof (h_nodup _ _ H) as Hn. apply NoDup_app in Hn as (_ & Hn & _). by apply (Hn o). Qed.

Lemma working_broken own rest u0 u : working own rest u0 u -> broken u = false.
Proof. intros [H _]. apply (h_unbroken _ _ H). Qed.

(** A change that leaves the others alone. *)
Lemma working_step own own' rest u0 u u' : working own rest u0 u -> holds (own' ++ rest) u' -> (forall o, o ∈ rest -> same_for (fun o => o ∉ rest) u u' o) ->
  working own' rest u0 u'.
Proof.
  intros [_ Hs] H Hr. split; [done|]. rewrite Forall_forall in Hs |- *. intros o Ho. eapply same_for_trans; [by apply Hs|by apply Hr].
Qed.

(** ** Creating *)

Lemma created_bound i h u : bound (created i h u) = bound u.
Proof. unfold created. destruct i; try done. by destruct (negb _). Qed.
Lemma created_mapped i h u : mapped (created i h u) = mapped u.
Proof. unfold created. destruct i; try done. by destruct (negb _). Qed.
Lemma created_buffers i h u : buffers (created i h u) = buffers u.
Proof. unfold created. destruct i; try done. by destruct (negb _). Qed.
Lemma created_live i h u : live (created i h u) = {[(kind_of i, h)]} ∪ live u.
Proof. unfold created. destruct i; try done. by destruct (negb _). Qed.
Lemma created_executed i h u : executed (created i h u) = executed u.
Proof. unfold created. destruct i; try done. by destruct (negb _). Qed.
Lemma created_flight i h u : in_flight (created i h u) = in_flight u.
Proof. unfold created. destruct i; try done. by destruct (negb _). Qed.
Lemma created_broken i h u : broken (created i h u) = broken u.
Proof. unfold created. destruct i; try done. by destruct (negb _). Qed.

Create Rewrite HintDb vk.
#[export] Hint Rewrite created_bound created_mapped created_buffers created_live created_executed created_flight created_broken : vk.

(** A new object that is not a command buffer, and nothing else. *)
Lemma working_new own rest u0 u u' k h : k <> KCommandBuffer -> working own rest u0 u -> (k, h) ∉ live u ->
  live u' = {[(k, h)]} ∪ live u -> bound u' = bound u -> mapped u' = mapped u -> buffers u' = buffers u ->
  in_flight u' = in_flight u -> broken u' = broken u -> working ((k, h) :: own) rest u0 u'.
Proof.
  intros Hk Hw Hn El Eb Em Ec Ef Er. pose proof (k_holds _ _ _ _ Hw) as [H1 H2 H3 H4 H5 H6 H7 H8].
  eapply working_step; [exact Hw| |].
  - cbn [app]. split; [congruence| | |congruence| |by rewrite Ec| |].
    + apply NoDup_cons. split; [|done]. by rewrite <- H3.
    + intros o. rewrite El, elem_of_union, elem_of_singleton, elem_of_cons, H3. tauto.
    + intros m. rewrite Ec, El, H5, elem_of_union, elem_of_singleton. split; [by right|]. intros [?|?]; [congruence|done].
    + intros o. rewrite Eb, El, elem_of_union. intros [Ho Hb]%H7. split; [by right|done].
    + intros m. rewrite Em, El, elem_of_union. intros Ho%H8. by right.
  - intros o _. unfold same_for. rewrite Eb, Em, Ec. split; [done|split; [done|]]. intros _. apply calm_refl.
Qed.

Lemma working_created own rest u0 u i h : working own rest u0 u -> (kind_of i, h) ∉ live u -> working ((kind_of i, h) :: own) rest u0 (created i h u).
Proof. intros Hw Hn. eapply working_new; [by destruct i|exact Hw|done|by autorewrite with vk..]. Qed.

(** ** Destroying *)

(** The usage after an object other than a pool or a command buffer is destroyed. *)
Definition destroyed (k : kind) (h : Z) (u : Usage) : Usage :=
  with_live (fun l => l ∖ {[(k, h)]})
    (with_bound (fun b => b ∖ {[(k, h)]})
      (with_buffers (fmap (spoil (k, h))) (if bool_decide (k = KMemory) then with_mapped (delete h) u else u))).

Definition plain (k : kind) : Prop := k <> KCommandPool /\ k <> KCommandBuffer.

Lemma destroyed_live k h u : live (destroyed k h u) = live u ∖ {[(k, h)]}.
Proof. unfold destroyed. by case_bool_decide. Qed.
Lemma destroyed_bound k h u : bound (destroyed k h u) = bound u ∖ {[(k, h)]}.
Proof. unfold destroyed. by case_bool_decide. Qed.
Lemma destroyed_buffers k h u : buffers (destroyed k h u) = spoil (k, h) <$> buffers u.
Proof. unfold destroyed. by case_bool_decide. Qed.
Lemma destroyed_mapped k h u : mapped (destroyed k h u) = if bool_decide (k = KMemory) then delete h (mapped u) else mapped u.
Proof. unfold destroyed. by case_bool_decide. Qed.
Lemma destroyed_flight k h u : in_flight (destroyed k h u) = in_flight u.
Proof. unfold destroyed. by case_bool_decide. Qed.
Lemma destroyed_broken k h u : broken (destroyed k h u) = broken u.
Proof. unfold destroyed. by case_bool_decide. Qed.
Lemma destroyed_executed k h u : executed (destroyed k h u) = executed u.
Proof. unfold destroyed. by case_bool_decide. Qed.
#[export] Hint Rewrite destroyed_live destroyed_bound destroyed_buffers destroyed_mapped destroyed_flight destroyed_broken destroyed_executed : vk.

Lemma no_pending (all : list object) u (f : CmdBuf -> bool) : holds all u ->
  forallb (fun '(_, cb) => negb (is_pending cb && f cb)) (map_to_list (buffers u)) = true.
Proof.
  intros H. apply forallb_forall. intros [h cb] Hin%list_elem_of_In%elem_of_map_to_list. apply (h_pending _ _ H) in Hin.
  unfold is_pending. by rewrite bool_decide_eq_false_2.
Qed.

Lemma destroy_plain all k h u : holds all u -> plain k -> (k, h) ∈ live u -> u_destroy k h u = destroyed k h u.
Proof.
  intros H [Hp Hb] Hl. unfold u_destroy. rewrite rule_true.
  - unfold destroyed. destruct (bool_decide (k = KMemory)); [done|]. by rewrite bool_decide_eq_false_2 by done.
  - rewrite bool_decide_eq_true_2 by done. rewrite (no_pending all u _ H). rewrite (h_flight _ _ H), lookup_empty.
    rewrite !bool_decide_eq_false_2; [done|done|]. intros [_ []%is_Some_None].
Qed.

Lemma spoil_state o cb s : s <> CbInvalid -> cb_state (spoil o cb) = s -> cb_state cb = s.
Proof. unfold spoil. destruct (cb_state cb) eqn:E; try congruence; destruct (cb_uses o cb); simpl; congruence. Qed.

Lemma working_destroyed own rest u0 u k h : plain k -> working ((k, h) :: own) rest u0 u ->
  u_destroy k h u = destroyed k h u /\ working own rest u0 (destroyed k h u).
Proof.
  intros Hk Hw. pose proof (k_holds _ _ _ _ Hw) as H. assert (Hl : (k, h) ∈ live u) by (eapply own_live; [exact Hw|by left]).
  split; [by eapply destroy_plain|]. pose proof H as [H1 H2 H3 H4 H5 H6 H7 H8]. cbn [app] in *.
  pose proof H2 as H2'. apply NoDup_cons in H2' as [H2a H2b]. destruct Hk as [Hk1 Hk2].
  eapply working_step; [exact Hw| |].
  - split; autorewrite with vk; try done.
    + intros o. rewrite elem_of_difference, elem_of_singleton, H3, elem_of_cons. split; [tauto|]. intros Ho. split; [by right|].
      intros ->. done.
    + intros m. rewrite lookup_fmap, fmap_is_Some, H5, elem_of_difference, elem_of_singleton. split; [|tauto]. intros Ho. split; [done|]. congruence.
    + intros m cb. rewrite lookup_fmap. intros (cb0 & E & ->)%fmap_Some Hs. apply (spoil_state _ _ CbPending) in Hs; [|done]. by apply (H6 m cb0).
    + intros o. rewrite !elem_of_difference. intros [[Ho Hb]%H7 Ho']. auto.
    + intros m Hm. rewrite elem_of_difference, elem_of_singleton. case_bool_decide as Ek.
      * rewrite lookup_delete_is_Some in Hm. destruct Hm as [Hne Hm]. split; [by apply H8|]. congruence.
      * split; [by apply H8|]. congruence.
  - intros o Ho. assert (Hne : o <> (k, h)) by (intros ->; apply H2a, elem_of_app; by right). unfold same_for. autorewrite with vk. split_and!.
    + rewrite elem_of_difference, elem_of_singleton. tauto.
    + intros E. case_bool_decide as Ek; [|done]. destruct o as [k' m]. cbn in *. subst. apply lookup_delete_ne. congruence.
    + intros E. rewrite lookup_fmap. destruct (buffers u !! snd o); [|done]. apply calm_spoil. intros Hr. apply H2a, elem_of_app. by right.
Qed.

(** ** Memory *)

Lemma working_bound own rest u0 u k h m : k <> KCommandBuffer -> working own rest u0 u -> (k, h) ∈ own -> (KMemory, m) ∈ own -> (k, h) ∉ bound u ->
  may_bind k h m u = true /\ working own rest u0 (with_bound (union {[(k, h)]}) u).
Proof.
  intros Hk Hw Ho Hm Hb. pose proof (own_live _ _ _ _ _ Hw Ho) as Hl. pose proof (own_live _ _ _ _ _ Hw Hm) as Hlm. split.
  - unfold may_bind. rewrite !bool_decide_eq_true_2 by done. by rewrite bool_decide_eq_false_2.
  - pose proof (k_holds _ _ _ _ Hw) as [H1 H2 H3 H4 H5 H6 H7 H8]. eapply working_step; [exact Hw| |].
    + split; try done. intros o. cbn. rewrite elem_of_union, elem_of_singleton. intros [->|Hx]; [by split|by apply H7].
    + intros o Hr. pose proof (own_not_rest _ _ _ _ _ Hw Ho). unfold same_for. cbn. split; [|split; [done|intros _; apply calm_refl]].
      rewrite elem_of_union, elem_of_singleton. split; [|by right]. intros [->|?]; [done|done].
Qed.

Lemma working_map own rest u0 u m p n : working own rest u0 u -> (KMemory, m) ∈ own -> mapped u !! m = None ->
  may_map m u = true /\ working own rest u0 (with_mapped <[m := (p, n)]> u).
Proof.
  intros Hw Ho Hm. pose proof (own_live _ _ _ _ _ Hw Ho) as Hl. split.
  - unfold may_map. by rewrite !bool_decide_eq_true_2.
  - pose proof (k_holds _ _ _ _ Hw) as [H1 H2 H3 H4 H5 H6 H7 H8]. eapply working_step; [exact Hw| |].
    + split; try done. intros x. cbn. rewrite lookup_insert_is_Some. intros [->|[_ Hx]]; [done|by apply H8].
    + intros o Hr. pose proof (own_not_rest _ _ _ _ _ Hw Ho) as Hno. unfold same_for. cbn. split; [done|]. split; [|intros _; apply calm_refl].
      intros Hk. apply lookup_insert_ne. intros ->. destruct o as [k x]. cbn in *. by subst.
Qed.

Lemma working_unmap own rest u0 u m : working own rest u0 u -> (KMemory, m) ∈ own -> is_Some (mapped u !! m) ->
  u_unmap m u = with_mapped (delete m) u /\ working own rest u0 (with_mapped (delete m) u).
Proof.
  intros Hw Ho Hm. split; [unfold u_unmap; by rewrite rule_true by (by apply bool_decide_eq_true)|].
  pose proof (k_holds _ _ _ _ Hw) as [H1 H2 H3 H4 H5 H6 H7 H8]. eapply working_step; [exact Hw| |].
  - split; try done. intros x. cbn. rewrite lookup_delete_is_Some. intros [_ Hx]. by apply H8.
  - intros o Hr. pose proof (own_not_rest _ _ _ _ _ Hw Ho) as Hno. unfold same_for. cbn. split; [done|]. split; [|intros _; apply calm_refl].
    intros Hk. apply lookup_delete_ne. intros ->. destruct o as [k x]. cbn in *. by subst.
Qed.

(** ** Command buffers *)

(** A change of one command buffer in hand, which stays away from the queue. *)
Lemma working_buffer own rest u0 u h (f : gmap Z CmdBuf -> gmap Z CmdBuf) cb' : working own rest u0 u -> (KCommandBuffer, h) ∈ own ->
  f (buffers u) !! h = Some cb' -> cb_state cb' <> CbPending -> (forall x, x <> h -> f (buffers u) !! x = buffers u !! x) ->
  working own rest u0 (with_buffers f u).
Proof.
  intros Hw Ho Hf Hp Hx. pose proof (own_live _ _ _ _ _ Hw Ho) as Hl. pose proof (own_not_rest _ _ _ _ _ Hw Ho) as Hno.
  pose proof (k_holds _ _ _ _ Hw) as [H1 H2 H3 H4 H5 H6 H7 H8]. eapply working_step; [exact Hw| |].
  - split; try done; cbn.
    + intros x. destruct (decide (x = h)) as [->|Hne]; [rewrite Hf; split; [done|by eexists]|]. rewrite Hx by done. apply H5.
    + intros x cb. destruct (decide (x = h)) as [->|Hne]; [rewrite Hf; by intros [= <-]|]. rewrite Hx by done. apply H6.
  - intros o Hr. unfold same_for. cbn. split; [done|]. split; [done|]. intros Hk. rewrite Hx; [apply calm_refl|].
    intros <-. destruct o as [k x]. cbn in *. by subst.
Qed.

Lemma working_begun own rest u0 u h one cb : working own rest u0 u -> (KCommandBuffer, h) ∈ own -> buffers u !! h = Some cb ->
  working own rest u0 (with_buffers (alter (fun cb => mkCmdBuf (cb_pool cb) CbRecording one []) h) u).
Proof.
  intros Hw Ho Hb. eapply working_buffer; [exact Hw|exact Ho|by rewrite lookup_alter_eq, Hb|done|]. intros x Hx. by apply lookup_alter_ne.
Qed.

Lemma working_insert own rest u0 u h cb' : working own rest u0 u -> (KCommandBuffer, h) ∈ own -> cb_state cb' <> CbPending ->
  working own rest u0 (with_buffers <[h := cb']> u).
Proof.
  intros Hw Ho Hp. eapply working_buffer; [exact Hw|exact Ho|by rewrite lookup_insert_eq|done|]. intros x Hx. by apply lookup_insert_ne.
Qed.

Lemma working_allocated own rest u0 u pool h : working own rest u0 u -> (KCommandBuffer, h) ∉ live u ->
  working ((KCommandBuffer, h) :: own) rest u0 (with_live (union {[(KCommandBuffer, h)]}) (with_buffers <[h := mkCmdBuf pool CbInitial false []]> u)).
Proof.
  intros Hw Hn. pose proof (k_holds _ _ _ _ Hw) as [H1 H2 H3 H4 H5 H6 H7 H8]. eapply working_step; [exact Hw| |].
  - cbn [app]. split; try done; cbn.
    + apply NoDup_cons. split; [|done]. by rewrite <- H3.
    + intros o. rewrite elem_of_union, elem_of_singleton, elem_of_cons, H3. tauto.
    + intros x. rewrite lookup_insert_is_Some, H5, elem_of_union, elem_of_singleton. destruct (decide (h = x)) as [->|]; [tauto|].
      split; [intros [?|[_ ?]]; [done|by right]|intros [?|?]; [congruence|by right]].
    + intros x cb. rewrite lookup_insert_Some. intros [[<- <-]|[_ Hx]]; [done|by apply (H6 x)].
    + intros o [Ho Hb]%H7. split; [|done]. apply elem_of_union. by right.
    + intros m Hm. apply elem_of_union. right. by apply H8.
  - intros o Hr. unfold same_for. cbn. split; [done|]. split; [done|]. intros Hk. rewrite lookup_insert_ne; [apply calm_refl|].
    intros ->. apply Hn. destruct o as [k x]. cbn in Hk. subst k. by eapply rest_live.
Qed.

Lemma working_freed own rest u0 u pool h cb : working ((KCommandBuffer, h) :: own) rest u0 u -> buffers u !! h = Some cb -> cb_pool cb = pool ->
  exists u', u_free pool h u = u' /\ working own rest u0 u' /\ mapped u' = mapped u /\ bound u' = bound u /\
    buffers u' = delete h (buffers u) /\ executed u' = executed u.
Proof.
  intros Hw Hb Hp. pose proof (k_holds _ _ _ _ Hw) as [H1 H2 H3 H4 H5 H6 H7 H8]. cbn [app] in *.
  pose proof H2 as H2'. apply NoDup_cons in H2' as [H2a H2b]. eexists. split; [reflexivity|]. unfold u_free. rewrite Hb, rule_true.
  2: { rewrite bool_decide_eq_true_2 by done. unfold is_pending. by rewrite bool_decide_eq_false_2 by (by apply (H6 h)). }
  split; [|done]. eapply working_step; [exact Hw| |].
  - split; try done; cbn.
    + intros o. rewrite elem_of_difference, elem_of_singleton, H3, elem_of_cons. split; [tauto|]. intros Ho. split; [by right|]. by intros ->.
    + intros x. rewrite lookup_delete_is_Some, H5, elem_of_difference, elem_of_singleton. split; intros [A B]; (split; [|done || congruence]); [done|congruence].
    + intros x c. rewrite lookup_delete_Some. intros [_ Hx]. by apply (H6 x).
    + intros o [Ho Hk]%H7. split; [|done]. apply elem_of_difference. split; [done|]. apply not_elem_of_singleton. by intros ->.
    + intros m Hm. apply elem_of_difference. split; [by apply H8|]. by apply not_elem_of_singleton.
  - intros o Hr. unfold same_for. cbn. split; [done|]. split; [done|]. intros Hk. rewrite lookup_delete_ne; [apply calm_refl|].
    intros ->. apply H2a, elem_of_app. right. destruct o as [k x]. cbn in Hk. by subst k.
Qed.

(** ** Pools *)

Definition in_pool (p : Z) (hcb : Z * CmdBuf) : Prop := cb_pool (snd hcb) = p.
#[export] Instance in_pool_dec p x : Decision (in_pool p x).
Proof. unfold in_pool. apply _. Defined.

(** The command buffers of a pool, which go with it. *)
Definition pool_buffers (p : Z) (u : Usage) (o : object) : Prop :=
  fst o = KCommandBuffer /\ exists cb, buffers u !! snd o = Some cb /\ cb_pool cb = p.

#[export] Instance pool_buffers_dec p u o : Decision (pool_buffers p u o).
Proof.
  unfold pool_buffers. apply and_dec; [apply _|]. destruct (buffers u !! snd o) as [cb|]; [|right; by intros (? & ? & ?)].
  destruct (decide (cb_pool cb = p)); [left; by eexists|right; intros (? & [= <-] & ?); done].
Defined.

Definition outside_pool (p : Z) (b : option CmdBuf) : option CmdBuf :=
  match b with
  | Some cb => if decide (cb_pool cb = p) then None else Some (spoil (KCommandPool, p) cb)
  | None => None
  end.

(** The usage after a pool that nobody waits for is destroyed. *)
Definition pool_gone (p : Z) (u u' : Usage) : Prop :=
  (forall o, o ∈ live u' <-> o ∈ live u /\ o <> (KCommandPool, p) /\ ~ pool_buffers p u o) /\
  (forall o, o ∈ bound u' <-> o ∈ bound u /\ o <> (KCommandPool, p)) /\ mapped u' = mapped u /\
  (forall h, buffers u' !! h = outside_pool p (buffers u !! h)) /\
  in_flight u' = in_flight u /\ broken u' = broken u /\ executed u' = executed u.

Lemma destroy_pool all p u : holds all u -> (KCommandPool, p) ∈ live u -> pool_gone p u (u_destroy KCommandPool p u).
Proof.
  intros H Hl. unfold u_destroy. rewrite rule_true.
  2: { rewrite bool_decide_eq_true_2 by done. rewrite (no_pending all u _ H). rewrite !bool_decide_eq_false_2; [done|done|by intros [? _]]. }
  rewrite bool_decide_eq_false_2, bool_decide_eq_true_2 by done. split_and!; try done; cbn.
  - intros o. rewrite !elem_of_difference, elem_of_singleton, elem_of_map. split.
    + intros [[Ho Hn] Hne]. split_and!; [done|done|]. intros (Hk & cb & Hb & Hp). apply Hn. exists (snd o). destruct o as [k h]. cbn in *. subst k. split; [done|].
      apply elem_of_dom. exists cb. by apply map_lookup_filter_Some.
    + intros (Ho & Hne & Hn). split_and!; [done| |done]. intros (h & -> & Hh). apply Hn. split; [done|].
      apply elem_of_dom in Hh as [cb [Hb Hp]%map_lookup_filter_Some]. by exists cb.
  - intros o. by rewrite elem_of_difference, elem_of_singleton.
  - intros h. rewrite lookup_fmap, map_lookup_filter. unfold outside_pool. destruct (buffers u !! h) as [cb|]; [|done]. cbn.
    destruct (decide (cb_pool cb = p)); [by rewrite option_guard_False by (intros Hn; by apply Hn)|by rewrite option_guard_True].
Qed.

Lemma outside_pool_Some p b cb' : outside_pool p b = Some cb' -> exists cb, b = Some cb /\ cb_pool cb <> p /\ cb' = spoil (KCommandPool, p) cb.
Proof. unfold outside_pool. destruct b as [cb|]; [|done]. destruct (decide _); [done|]. intros [= <-]. by exists cb. Qed.

Lemma working_pool own lost rest u0 u p : working ((KCommandPool, p) :: own) (lost ++ rest) u0 u ->
  (forall o, o ∈ own ++ rest -> ~ pool_buffers p u o) ->
  working own (filter (fun o => ~ pool_buffers p u o) lost ++ rest) u0 (u_destroy KCommandPool p u).
Proof.
  intros Hw Hno. pose proof (k_holds _ _ _ _ Hw) as H. assert (Hl : (KCommandPool, p) ∈ live u) by (eapply own_live; [exact Hw|by left]).
  destruct (destroy_pool _ p u H Hl) as (El & Eb & Em & Ec & Ef & Er & _). destruct H as [H1 H2 H3 H4 H5 H6 H7 H8]. cbn [app] in *.
  apply NoDup_cons in H2 as [H2a H2b]. assert (Hmem : forall o, o ∈ own ++ filter (fun o => ~ pool_buffers p u o) lost ++ rest <-> o ∈ own ++ lost ++ rest /\ ~ pool_buffers p u o).
  { intros o. specialize (Hno o). rewrite elem_of_app in Hno. rewrite !elem_of_app, list_elem_of_filter. tauto. }
  split.
  - split; [congruence| | |congruence| | | |].
    + eapply sublist_NoDup; [exact H2b|]. apply sublist_app; [done|]. apply sublist_app; [apply sublist_filter|done].
    + intros o. rewrite El, Hmem, H3, elem_of_cons. split; [tauto|]. intros [Ho Hp]. split_and!; [by right| |done]. by intros ->.
    + intros h. rewrite Ec, El, <- H5. unfold outside_pool, pool_buffers. cbn. split.
      * intros [cb' (cb & E & Hp & _)%outside_pool_Some]. rewrite E. split_and!; [done|done|]. by intros (_ & ? & [= <-] & ?).
      * intros ([cb E] & _ & Hp). rewrite E. destruct (decide (cb_pool cb = p)); [|done]. exfalso. apply Hp. split; [done|by exists cb].
    + intros h cb'. rewrite Ec. intros (cb & E & Hp & ->)%outside_pool_Some Hs. apply (spoil_state _ _ CbPending) in Hs; [|done]. by apply (H6 h cb).
    + intros o. rewrite Eb, El. intros [[Ho Hk]%H7 Hne]. split; [|done]. split_and!; [done|done|]. by intros [? _].
    + intros m. rewrite Em, El. intros Hm%H8. split_and!; [done|done|]. by intros [? _].
  - pose proof (k_same _ _ _ _ Hw) as Hs. rewrite Forall_forall in Hs |- *. intros o Ho.
    assert (Ho' : o ∈ lost ++ rest /\ ~ pool_buffers p u o).
    { specialize (Hno o). rewrite elem_of_app in Hno. rewrite elem_of_app, list_elem_of_filter in Ho. rewrite elem_of_app. tauto. }
    destruct Ho' as [Ho1 Ho2].
    eapply same_for_trans; [eapply same_for_mono, Hs, Ho1; cbn; intros x Hx Hin; apply Hx; rewrite elem_of_app, list_elem_of_filter in Hin; rewrite elem_of_app; tauto|]. unfold same_for. rewrite Eb, Em, Ec. split; [|split; [done|]].
    + split; [tauto|]. intros Hb. split; [done|]. intros ->. apply H2a, elem_of_app. by right.
    + intros Hk. unfold outside_pool. destruct (buffers u !! snd o) as [cb|] eqn:E; [|done].
      destruct (decide _) as [Hp|Hp]; [|apply calm_spoil; intros Hin; apply H2a; rewrite elem_of_app, list_elem_of_filter in Hin; rewrite !elem_of_app; tauto]. exfalso. apply Ho2. split; [done|by exists cb].
Qed.

Definition after_reset (p : Z) (cb : CmdBuf) : CmdBuf := if bool_decide (cb_pool cb = p) then reset_buffer cb else cb.

Lemma reset_pool_holds all p u : holds all u -> (KCommandPool, p) ∈ live u ->
  u_reset_pool p u = with_buffers (fmap (after_reset p)) u /\ holds all (with_buffers (fmap (after_reset p)) u).
Proof.
  intros H Hl. split.
  - unfold u_reset_pool. apply rule_true. unfold may_reset_pool. rewrite bool_decide_eq_true_2 by done. by rewrite (no_pending all u _ H).
  - destruct H as [H1 H2 H3 H4 H5 H6 H7 H8]. split; try done; cbn.
    + intros h. by rewrite lookup_fmap, fmap_is_Some.
    + intros h cb'. rewrite lookup_fmap. intros (cb & E & ->)%fmap_Some. unfold after_reset. case_bool_decide; [done|by apply (H6 h)].
Qed.

(** ** Recording *)

Definition recorded (c : command) (cb : CmdBuf) : CmdBuf := mkCmdBuf (cb_pool cb) CbRecording (cb_one_time cb) (cb_commands cb ++ [c]).

Lemma working_cmd own rest u0 u h cb c : working own rest u0 u -> (KCommandBuffer, h) ∈ own -> buffers u !! h = Some cb ->
  cb_state cb = CbRecording -> Forall (fun o => o ∈ live u) (command_uses c) -> placed (cb_commands cb) c = true ->
  u_cmd h c u = with_buffers <[h := recorded c cb]> u /\ working own rest u0 (with_buffers <[h := recorded c cb]> u).
Proof.
  intros Hw Ho Hb Hs Hl Hp. split; [|by apply working_insert]. unfold u_cmd. rewrite Hb. apply rule_true.
  rewrite bool_decide_eq_true_2 by done. rewrite Hp, andb_true_r. apply forallb_forall. intros o Hin%list_elem_of_In.
  apply bool_decide_eq_true. rewrite Forall_forall in Hl. by apply Hl.
Qed.

Lemma all_live_true os u : Forall (fun o => o ∈ live u) os -> all_live os u = true.
Proof. intros H. apply forallb_forall. intros o Hin%list_elem_of_In. apply bool_decide_eq_true. rewrite Forall_forall in H. by apply H. Qed.

(** ** Submitting *)

(** No command names a fence. *)
Lemma fence_unused f cb : cb_uses (KFence, f) cb = false.
Proof.
  unfold cb_uses. apply not_true_iff_false. intros (c & Hc & Hx)%existsb_exists. apply existsb_exists in Hx as (o & Ho & E).
  apply bool_decide_eq_true in E. subst o. destruct c; cbn in Ho; try tauto.
  - apply in_app_iff in Ho as [Ho|Ho]; apply in_map_iff in Ho as (? & [=] & _).
  - by destruct Ho.
  - by destruct Ho as [?|[?|?]].
  - by destruct Ho.
  - apply in_map_iff in Ho as ([] & [=] & _).
  - by destruct Ho.
  - by destruct Ho as [?|[?|?]].
Qed.

Lemma spoil_fence f cb : spoil (KFence, f) cb = cb.
Proof. unfold spoil. rewrite fence_unused. by destruct (cb_state cb). Qed.

Lemma foldr_alter {A} (g : A -> A) (m : gmap Z A) hs : NoDup hs ->
  forall h, foldr (alter g) m hs !! h = if bool_decide (h ∈ hs) then g <$> m !! h else m !! h.
Proof.
  induction 1 as [|x hs Hx Hn IH]; intros h; [done|]. cbn [foldr]. destruct (decide (h = x)) as [->|Hne].
  - rewrite lookup_alter_eq, IH. rewrite bool_decide_eq_false_2 by done. by rewrite bool_decide_eq_true_2 by left.
  - rewrite lookup_alter_ne, IH by done. destruct (decide (h ∈ hs)).
    + rewrite !bool_decide_eq_true_2; [done|by right|done].
    + rewrite !bool_decide_eq_false_2; [done| |done]. by rewrite elem_of_cons; intros [?|?].
Qed.

(** The usage after the queue has run the buffers [hs] to their end. *)
Definition ran (hs : list Z) (u : Usage) : Usage :=
  with_executed (fun l => l ++ map (commands_of u) hs)
    (with_buffers (fun m => foldr (alter done_with) m hs) u).

Lemma submit_rule all f hs u : holds ((KFence, f) :: all) u -> NoDup hs -> Forall (fun h => cb_is CbExecutable h u = true) hs -> submit_ok hs f u = true.
Proof.
  intros H Hn He. unfold submit_ok. rewrite (h_flight _ _ H), lookup_empty.
  rewrite !bool_decide_eq_true_2; [|done|apply (h_live _ _ H); by left|done]. rewrite !andb_true_r. apply forallb_forall.
  rewrite Forall_forall in He. intros h Hin%list_elem_of_In. by apply He.
Qed.

(** The usage once the queue has run [hs] and the fence is gone. *)
Record ran_through (f : Z) (hs : list Z) (u u' : Usage) : Prop := {
  r_live : live u' = live u ∖ {[(KFence, f)]};
  r_bound : bound u' = bound u ∖ {[(KFence, f)]};
  r_mapped : mapped u' = mapped u;
  r_buffers : buffers u' = foldr (alter done_with) (buffers u) hs;
  r_executed : executed u' = executed u ++ map (commands_of u) hs
}.

Lemma foldr_done (m : gmap Z CmdBuf) hs : NoDup hs ->
  foldr (alter done_with) (foldr (alter (set_state CbPending)) m hs) hs = foldr (alter done_with) m hs.
Proof. intros Hn. apply map_eq. intros h. rewrite !foldr_alter by done. case_bool_decide; [|done]. by destruct (m !! h). Qed.

Lemma foldr_done_state (m : gmap Z CmdBuf) hs h cb' : NoDup hs -> foldr (alter done_with) m hs !! h = Some cb' ->
  exists cb, m !! h = Some cb /\ (cb' = cb /\ h ∉ hs \/ cb' = done_with cb /\ h ∈ hs).
Proof.
  intros Hn. rewrite foldr_alter by done. case_bool_decide as Hh.
  - intros (cb & E & ->)%fmap_Some. exists cb. auto.
  - intros E. exists cb'. auto.
Qed.

(** Submitting executable buffers, waiting and destroying the fence. *)
Lemma queue_ran all f hs u : holds ((KFence, f) :: all) u -> NoDup hs -> Forall (fun h => cb_is CbExecutable h u = true) hs ->
  let u1 := u_submit hs f u in let u2 := u_wait f u1 in
  broken u1 = false /\ broken u2 = false /\ holds all (u_destroy KFence f u2) /\ ran_through f hs u (u_destroy KFence f u2).
Proof.
  intros H Hn He u1 u2. pose proof H as [H1 H2 H3 H4 H5 H6 H7 H8].
  assert (E1 : u1 = with_in_flight <[f := hs]> (with_executed (fun l => l ++ map (commands_of u) hs)
                     (with_buffers (fun m => foldr (alter (set_state CbPending)) m hs) u))).
  { unfold u1, u_submit. apply rule_true. by eapply submit_rule. }
  assert (Hf : (KFence, f) ∈ live u) by (apply H3; by left).
  assert (E2 : u2 = with_executed (fun l => l ++ map (commands_of u) hs) (with_buffers (fun m => foldr (alter done_with) m hs) u)).
  { unfold u2, u_wait. rewrite E1. rewrite rule_true by (by apply bool_decide_eq_true). unfold with_in_flight, with_executed, with_buffers. cbn.
    rewrite lookup_insert_eq. cbn. rewrite foldr_done by done. rewrite H4. by rewrite insert_empty, delete_singleton_eq. }
  assert (Hh : holds ((KFence, f) :: all) u2).
  { rewrite E2. split; try done; cbn.
    - intros h. rewrite foldr_alter by done. rewrite <- H5. case_bool_decide; [by rewrite fmap_is_Some|done].
    - intros h cb' E. apply foldr_done_state in E as (cb & E & [[-> _]|[-> _]]); [by apply (H6 h)|unfold done_with; by destruct (cb_one_time cb)|done]. }
  split; [by rewrite E1|]. split; [by rewrite E2|].
  assert (Hl2 : (KFence, f) ∈ live u2) by (rewrite E2; exact Hf).
  destruct (working_destroyed [] all u2 u2 KFence f) as [Ed Hd]; [done|by apply (working_start [(KFence, f)])|].
  rewrite Ed. split; [exact (k_holds _ _ _ _ Hd)|]. rewrite E2. split; autorewrite with vk; try done. cbn.
  rewrite <- (map_fmap_id (foldr (alter done_with) (buffers u) hs)) at 2. apply map_fmap_ext. intros h cb _. apply spoil_fence.
Qed.

(** Submitting was refused: the fence goes and nothing else changes. *)
Lemma fence_gone all f u : holds ((KFence, f) :: all) u -> holds all (u_destroy KFence f u) /\ live (u_destroy KFence f u) = live u ∖ {[(KFence, f)]} /\
  bound (u_destroy KFence f u) = bound u ∖ {[(KFence, f)]} /\ mapped (u_destroy KFence f u) = mapped u /\
  buffers (u_destroy KFence f u) = buffers u /\ executed (u_destroy KFence f u) = executed u.
Proof.
  intros H. destruct (working_destroyed [] all u u KFence f) as [Ed Hd]; [done|by apply (working_start [(KFence, f)])|].
  rewrite Ed. split; [exact (k_holds _ _ _ _ Hd)|]. autorewrite with vk. split_and!; try done. cbn.
  rewrite <- (map_fmap_id (buffers u)) at 2. apply map_fmap_ext. intros h cb _. apply spoil_fence.
Qed.

(** ** The calls of the driver, as steps on what is owned *)

Section Steps.
Context `{HV : Vulkan W} `{HL : !VulkanLaws W} {E : Type} (inj : Z -> E).

Lemma working_unbroken own rest u0 (w : W) : working own rest u0 (usage w) -> unbroken w.
Proof. apply working_broken. Qed.

Lemma ends_new own rest u0 i (w : W) (Q : outcome E Z -> W -> Prop) : working own rest u0 (usage w) -> info_ok i (usage w) = true ->
  (forall h w', 0 < h < 2 ^ 64 -> (kind_of i, h) ∉ live (usage w) -> working ((kind_of i, h) :: own) rest u0 (usage w') ->
     usage w' = created i h (usage w) -> Q (Ok h) w') ->
  (forall e w', usage w' = usage w -> Q (Err (inj e)) w') -> ends (try inj (vk_create i)) w Q.
Proof.
  intros Hw Hi H1 H2. apply ends_create; [by eapply working_unbroken|done| |done]. intros h w' Hh Hn Eu. apply H1; [done|done| |done].
  rewrite Eu. by apply working_created.
Qed.

Lemma ends_destroy own rest u0 k h (w : W) (Q : outcome E unit -> W -> Prop) : plain k -> working ((k, h) :: own) rest u0 (usage w) ->
  (forall w', working own rest u0 (usage w') -> usage w' = destroyed k h (usage w) -> Q (Ok tt) w') -> ends (run (vk_destroy k h)) w Q.
Proof.
  intros Hk Hw H1. apply ends_run. destruct (working_destroyed _ _ _ _ _ _ Hk Hw) as [Ed Hd].
  assert (Eu : usage (vk_destroy k h w) = destroyed k h (usage w)) by (rewrite destroy_law by (by eapply working_unbroken); exact Ed).
  apply H1; [by rewrite Eu|done].
Qed.

Lemma ends_bind_memory own rest u0 k h m (w : W) (Q : outcome E unit -> W -> Prop) : k <> KCommandBuffer -> working own rest u0 (usage w) ->
  (k, h) ∈ own -> (KMemory, m) ∈ own -> (k, h) ∉ bound (usage w) ->
  (forall w', working own rest u0 (usage w') -> usage w' = with_bound (union {[(k, h)]}) (usage w) -> Q (Ok tt) w') ->
  (forall e w', working own rest u0 (usage w') -> live (usage w') = live (usage w) -> Q (Err (inj e)) w') -> ends (try inj (vk_bind k h m 0)) w Q.
Proof.
  intros Hk Hw Ho Hm Hb H1 H2. pose proof (working_unbroken _ _ _ _ Hw) as Hu. destruct (working_bound _ _ _ _ _ _ _ Hk Hw Ho Hm Hb) as [Hmay Hw'].
  assert (Eb : u_bind k h m (usage w) = with_bound (union {[(k, h)]}) (usage w)) by (by apply rule_true).
  apply ends_try; intros x w' Hc.
  - destruct x. apply H1; rewrite (bind_ok _ _ _ _ _ Hu Hc), Eb; done.
  - apply H2; destruct (bind_failed _ _ _ _ _ _ Hu Hc) as [->| ->]; rewrite ?Eb, ?rule_same by done; done.
Qed.

Lemma ends_map_memory own rest u0 m size (w : W) (Q : outcome E Z -> W -> Prop) : working own rest u0 (usage w) -> (KMemory, m) ∈ own ->
  mapped (usage w) !! m = None ->
  (forall p w', working own rest u0 (usage w') -> usage w' = with_mapped <[m := (p, size)]> (usage w) -> Q (Ok p) w') ->
  (forall e w', usage w' = usage w -> Q (Err (inj e)) w') -> ends (try inj (vk_map m 0 size)) w Q.
Proof.
  intros Hw Ho Hm H1 H2. pose proof (working_unbroken _ _ _ _ Hw) as Hu. apply ends_try; intros x w' Hc.
  - destruct (working_map _ _ _ _ m x size Hw Ho Hm) as [Hmay Hw']. assert (Eu : usage w' = with_mapped <[m := (x, size)]> (usage w)).
    { rewrite (map_ok _ _ _ _ _ Hu Hc). by apply rule_true. }
    apply H1; [by rewrite Eu|done].
  - apply H2. rewrite (map_failed _ _ _ _ _ Hu Hc). apply rule_same. exact (proj1 (working_map _ _ _ _ m 0 size Hw Ho Hm)).
Qed.

Lemma ends_unmap own rest u0 m (w : W) (Q : outcome E unit -> W -> Prop) : working own rest u0 (usage w) -> (KMemory, m) ∈ own ->
  is_Some (mapped (usage w) !! m) ->
  (forall w', working own rest u0 (usage w') -> usage w' = with_mapped (delete m) (usage w) -> Q (Ok tt) w') -> ends (run (vk_unmap m)) w Q.
Proof.
  intros Hw Ho Hm H1. apply ends_run. destruct (working_unmap _ _ _ _ _ Hw Ho Hm) as [Ed Hd].
  assert (Eu : usage (vk_unmap m w) = with_mapped (delete m) (usage w)) by (rewrite unmap_law by (by eapply working_unbroken); exact Ed).
  apply H1; [by rewrite Eu|done].
Qed.

Lemma ends_begin own rest u0 h one cb (w : W) (Q : outcome E unit -> W -> Prop) : working own rest u0 (usage w) -> (KCommandBuffer, h) ∈ own ->
  buffers (usage w) !! h = Some cb -> cb_state cb = CbInitial ->
  (forall w', working own rest u0 (usage w') -> usage w' = with_buffers (alter (fun cb => mkCmdBuf (cb_pool cb) CbRecording one []) h) (usage w) -> Q (Ok tt) w') ->
  (forall e w', usage w' = usage w -> Q (Err (inj e)) w') -> ends (try inj (vk_begin h one)) w Q.
Proof.
  intros Hw Ho Hb Hs H1 H2. pose proof (working_unbroken _ _ _ _ Hw) as Hu.
  assert (Hmay : may_begin h (usage w) = true) by (unfold may_begin; by rewrite Hb, Hs). apply ends_try; intros x w' Hc.
  - destruct x. assert (Eu : usage w' = with_buffers (alter (fun cb => mkCmdBuf (cb_pool cb) CbRecording one []) h) (usage w)).
    { rewrite (begin_ok _ _ _ _ Hu Hc). by apply rule_true. }
    apply H1; [|done]. rewrite Eu. by eapply working_begun.
  - apply H2. rewrite (begin_failed _ _ _ _ _ Hu Hc). by apply rule_same.
Qed.

Lemma ends_end own rest u0 h cb (w : W) (Q : outcome E unit -> W -> Prop) : working own rest u0 (usage w) -> (KCommandBuffer, h) ∈ own ->
  buffers (usage w) !! h = Some cb -> cb_state cb = CbRecording -> inside_pass (cb_commands cb) = false ->
  (forall w', working own rest u0 (usage w') -> usage w' = with_buffers <[h := set_state CbExecutable cb]> (usage w) -> Q (Ok tt) w') ->
  (forall e w', working own rest u0 (usage w') -> usage w' = with_buffers <[h := set_state CbInvalid cb]> (usage w) -> Q (Err (inj e)) w') ->
  ends (try inj (vk_end h)) w Q.
Proof.
  intros Hw Ho Hb Hs Hp H1 H2. pose proof (working_unbroken _ _ _ _ Hw) as Hu.
  assert (Hend : forall s, u_end h s (usage w) = with_buffers <[h := set_state s cb]> (usage w)).
  { intros s. unfold u_end. rewrite Hb. apply rule_true. by rewrite bool_decide_eq_true_2, Hp. }
  apply ends_try; intros x w' Hc.
  - destruct x. pose proof (end_ok _ _ _ Hu Hc) as Eu. rewrite Hend in Eu. apply H1; [|done]. rewrite Eu. by apply working_insert.
  - pose proof (end_failed _ _ _ _ Hu Hc) as Eu. rewrite Hend in Eu. apply H2; [|done]. rewrite Eu. by apply working_insert.
Qed.

Lemma ends_cmd own rest u0 h cb c (w : W) (Q : outcome E unit -> W -> Prop) : working own rest u0 (usage w) -> (KCommandBuffer, h) ∈ own ->
  buffers (usage w) !! h = Some cb -> cb_state cb = CbRecording -> Forall (fun o => o ∈ live (usage w)) (command_uses c) ->
  placed (cb_commands cb) c = true ->
  (forall w', working own rest u0 (usage w') -> usage w' = with_buffers <[h := recorded c cb]> (usage w) -> Q (Ok tt) w') -> ends (run (vk_cmd h c)) w Q.
Proof.
  intros Hw Ho Hb Hs Hl Hp H1. apply ends_run. destruct (working_cmd _ _ _ _ _ _ _ Hw Ho Hb Hs Hl Hp) as [Ed Hd].
  assert (Eu : usage (vk_cmd h c w) = with_buffers <[h := recorded c cb]> (usage w)) by (rewrite cmd_law by (by eapply working_unbroken); exact Ed).
  apply H1; [by rewrite Eu|done].
Qed.

Lemma ends_free own rest u0 pool h cb (w : W) (Q : outcome E unit -> W -> Prop) : working ((KCommandBuffer, h) :: own) rest u0 (usage w) ->
  buffers (usage w) !! h = Some cb -> cb_pool cb = pool ->
  (forall w', working own rest u0 (usage w') -> mapped (usage w') = mapped (usage w) -> buffers (usage w') = delete h (buffers (usage w)) ->
    executed (usage w') = executed (usage w) -> Q (Ok tt) w') -> ends (run (vk_free pool h)) w Q.
Proof.
  intros Hw Hb Hp H1. apply ends_run. destruct (working_freed _ _ _ _ _ _ _ Hw Hb Hp) as (u' & Ef & Hw' & Em & _ & Ec & Ee).
  assert (Eu : usage (vk_free pool h w) = u') by (rewrite free_law by (by eapply working_unbroken); exact Ef).
  rewrite <- Eu in *. by apply H1.
Qed.
End Steps.
