(* ===== verification/VkSmall.v ===== *)
(** * An executable Vulkan driver

    Its world is the record of usage itself, with a plan of the results of the next
    calls that may fail: 0 for success, else the result code. A plan that has run out
    means success. *)
From Stdlib Require Import ZArith Lia.
From stdpp Require Import base list option gmap.
From S2P Require Import Prelude Vulkan.
Local Open Scope rust_scope.
Local Open Scope Z_scope.
Set Warnings "-register-all".

Module SmallVulkan.
Record World := mkWorld { us : Usage; plan : list Z }.

Definition start (plan : list Z) : World := mkWorld no_usage plan.

(** Above every handle in use. *)
Definition next_handle (u : Usage) : Z :=
  1 + Z.max (foldr (fun o m => Z.max (snd o) m) 0 (elements (live u))) (foldr (fun p m => Z.max (fst p) m) 0 (map_to_list (buffers u))).

Definition OUT_OF_MEMORY : Z := -2.

(** The result that the plan has for the next call. *)
Definition planned (w : World) : option Z * list Z :=
  match plan w with e :: p => (if e =? 0 then None else Some e, p) | [] => (None, []) end.

Definition answer {A} (ok : A) (good bad : Usage) (w : World) : (A + Z) * World :=
  match planned w with
  | (None, p) => (inl ok, mkWorld good p)
  | (Some e, p) => (inr e, mkWorld bad p)
  end.

(** New handles are refused when they do not fit. *)
Definition answer_new {A} (n : Z) (ok : A) (good bad : Usage) (w : World) : (A + Z) * World :=
  if next_handle (us w) + n <? 2 ^ 64 then answer ok good bad w else (inr OUT_OF_MEMORY, mkWorld bad (plan w)).

Definition handles (u : Usage) (n : nat) : list Z := map (fun i => next_handle u + Z.of_nat i) (seq 0 n).

#[global] Instance small_vulkan : Vulkan World := {
  usage := us;
  vk_create i w := let h := next_handle (us w) in answer_new 1 h (u_create i h (us w)) (rule (info_ok i (us w)) (us w) (us w)) w;
  vk_create_pipelines ps w :=
    let h := next_handle (us w) in
    match ps with
    | [p] => answer_new 1 [h] (u_create_pipeline p h (us w)) (rule (all_live (pipeline_uses p) (us w)) (us w) (us w)) w
    | _ => (inr OUT_OF_MEMORY, w)
    end;
  vk_allocate pool n w :=
    let hs := handles (us w) n in
    answer_new (Z.of_nat n) hs (u_allocate pool hs (us w)) (rule (bool_decide ((KCommandPool, pool) ∈ live (us w))) (us w) (us w)) w;
  vk_destroy k h w := mkWorld (u_destroy k h (us w)) (plan w);
  vk_free p h w := mkWorld (u_free p h (us w)) (plan w);
  vk_requirements k h w := (256, 3);
  vk_bind k h m offset w := answer tt (u_bind k h m (us w)) (rule (may_bind k h m (us w)) (us w) (us w)) w;
  vk_map m offset size w := let p := 4096 * (1 + m) in answer p (u_map m p size (us w)) (rule (may_map m (us w)) (us w) (us w)) w;
  vk_unmap m w := mkWorld (u_unmap m (us w)) (plan w);
  vk_write p bs w := mkWorld (u_write p (Z.of_nat (length bs)) (us w)) (plan w);
  vk_begin h one w := answer tt (u_begin h one (us w)) (rule (may_begin h (us w)) (us w) (us w)) w;
  vk_end h w := answer tt (u_end h CbExecutable (us w)) (u_end h CbInvalid (us w)) w;
  vk_cmd h c w := mkWorld (u_cmd h c (us w)) (plan w);
  vk_reset_pool p w := answer tt (u_reset_pool p (us w)) (rule (may_reset_pool p (us w)) (us w) (us w)) w;
  vk_reset h w := answer tt (u_reset h (us w)) (us w) w;
  vk_submit hs f w := answer tt (u_submit hs f (us w)) (rule (submit_ok hs f (us w)) (us w) (us w)) w;
  vk_wait f w := answer tt (u_wait f (us w)) (rule (bool_decide ((KFence, f) ∈ live (us w))) (us w) (us w)) w
}.

Lemma answer_inl {A} (ok a : A) good bad w w' : answer ok good bad w = (inl a, w') -> a = ok /\ us w' = good.
Proof. unfold answer. destruct (planned w) as [[e|] p]; [done|]. by intros [= <- <-]. Qed.

Lemma answer_inr {A} (ok : A) good bad w e w' : answer ok good bad w = (inr e, w') -> us w' = bad.
Proof. unfold answer. destruct (planned w) as [[x|] p]; [|done]. by intros [= <- <-]. Qed.

Lemma answer_new_inl {A} n (ok a : A) good bad w w' : answer_new n ok good bad w = (inl a, w') -> a = ok /\ us w' = good /\ next_handle (us w) + n < 2 ^ 64.
Proof. unfold answer_new. destruct (Z.ltb_spec (next_handle (us w) + n) (2 ^ 64)); [|done]. intros [-> ->]%answer_inl. done. Qed.

Lemma answer_new_inr {A} n (ok : A) good bad w e w' : answer_new n ok good bad w = (inr e, w') -> us w' = bad.
Proof. unfold answer_new. destruct (_ <? _); [apply answer_inr|]. by intros [= <- <-]. Qed.

Lemma foldr_max {A} (f : A -> Z) l x : x ∈ l -> f x <= foldr (fun a m => Z.max (f a) m) 0 l.
Proof. induction 1; cbn [foldr]; lia. Qed.

Lemma foldr_max_pos {A} (f : A -> Z) l : 0 <= foldr (fun a m => Z.max (f a) m) 0 l.
Proof. induction l; cbn [foldr]; lia. Qed.

Lemma next_handle_pos u : 0 < next_handle u.
Proof. unfold next_handle. pose proof (foldr_max_pos snd (elements (live u))). lia. Qed.

Lemma next_handle_fresh u k h : next_handle u <= h -> ~ (k, h) ∈ live u /\ buffers u !! h = None.
Proof.
  unfold next_handle. intros Hh. split.
  - intros Hin%elem_of_elements. apply (foldr_max snd) in Hin. cbn in Hin. lia.
  - apply not_elem_of_dom. intros [cb Hc]%elem_of_dom. apply elem_of_map_to_list, (foldr_max fst) in Hc. cbn in Hc. lia.
Qed.

Lemma handles_spec u n h : h ∈ handles u n -> next_handle u <= h < next_handle u + Z.of_nat n.
Proof. unfold handles. intros (i & <- & Hi)%list_elem_of_In%in_map_iff. apply in_seq in Hi. lia. Qed.

Lemma handles_nodup u n : NoDup (handles u n).
Proof. unfold handles. apply NoDup_fmap_2; [intros i j; lia|]. apply NoDup_seq. Qed.

#[global] Instance small_vulkan_laws : VulkanLaws World.
Proof.
  split; unfold unbroken; cbn [usage small_vulkan vk_create vk_create_pipelines vk_allocate vk_bind vk_map vk_begin vk_end vk_reset_pool vk_reset vk_submit vk_wait].
  - intros i w h w' Hu (-> & Ew & Hn)%answer_new_inl. pose proof (next_handle_pos (us w)). split; [lia|]. split; [by apply next_handle_fresh|done].
  - intros i w e w' Hu H. by apply answer_new_inr in H.
  - intros p w hs w' Hu (-> & Ew & Hn)%answer_new_inl. pose proof (next_handle_pos (us w)). eexists. split; [done|]. split; [lia|].
    split; [by apply next_handle_fresh|done].
  - intros p w e w' Hu H. by apply answer_new_inr in H.
  - intros pool n w hs w' Hu (-> & Ew & Hn)%answer_new_inl. pose proof (next_handle_pos (us w)). split; [unfold handles; by rewrite length_map, length_seq|].
    split; [apply handles_nodup|]. split; [|done]. intros h Hh%handles_spec. split; [lia|]. apply next_handle_fresh. lia.
  - intros pool n w e w' Hu H. by apply answer_new_inr in H.
  - done.
  - done.
  - intros k h m w w' Hu H. by apply answer_inl in H as [_ H].
  - intros k h m w e w' Hu H. apply answer_inr in H. by left.
  - intros m size w p w' Hu H. by apply answer_inl in H as [-> H].
  - intros m size w e w' Hu H. by apply answer_inr in H.
  - done.
  - done.
  - intros h o w w' Hu H. by apply answer_inl in H as [_ H].
  - intros h o w e w' Hu H. by apply answer_inr in H.
  - intros h w w' Hu H. by apply answer_inl in H as [_ H].
  - intros h w e w' Hu H. by apply answer_inr in H.
  - done.
  - intros p w w' Hu H. by apply answer_inl in H as [_ H].
  - intros p w e w' Hu H. by apply answer_inr in H.
  - intros h w w' Hu H. by apply answer_inl in H as [_ H].
  - intros hs f w w' Hu H. by apply answer_inl in H as [_ H].
  - intros hs f w e w' Hu H. by apply answer_inr in H.
  - intros f w w' Hu H. by apply answer_inl in H as [_ H].
  - intros f w e w' Hu H. by apply answer_inr in H.
Qed.
End SmallVulkan.
