(* ===== verification/Dxgi.v ===== *)
(** * The Vulkan context ([dxgi/src/ctx.rs], [dxgi/src/lib.rs])

    What the Direct3D layers share: formats, errors, the selected device and the
    choice of a memory type. *)
From Stdlib Require Import ZArith Lia Ascii String.
From stdpp Require Import base list option gmap strings.
From S2P Require Import Prelude Vulkan.
Local Open Scope rust_scope.
Local Open Scope Z_scope.
Set Warnings "-register-all".

Inductive DxgiFormat := B8G8R8A8Unorm | B8G8R8A8UnormSrgb.

#[export] Instance DxgiFormat_eq_dec : EqDecision DxgiFormat.
Proof. solve_decision. Defined.

Definition vk_format (f : DxgiFormat) : Z :=
  match f with B8G8R8A8Unorm => FORMAT_B8G8R8A8_UNORM | B8G8R8A8UnormSrgb => FORMAT_B8G8R8A8_SRGB end.

(** The text of a Vulkan error: that of a result code, or one the code writes. *)
Inductive fault :=
  | Code (result : Z)
  | Message (text : string)
  | NoMemoryType (type_bits properties : Z).

Inductive DxgiError :=
  | DxgiVulkan (f : fault)
  | MissingExtension (name : string)
  | NoSurface
  | BufferIndexOutOfRange (index count : Z).

(** The parts of the context that the layers read: the queue family, the queue, and
    the property flags of the memory types. *)
Record VkCtx := mkVkCtx { graphics_family : Z; graphics_queue : Z; memory_types : list Z }.

Definition contains (flags properties : Z) : bool := Z.land flags properties =? properties.

Fixpoint find_type (i : Z) (types : list Z) (type_bits properties : Z) : option Z :=
  match types with
  | [] => None
  | flags :: types =>
      if negb (Z.land type_bits (Z.shiftl 1 i) =? 0) && contains flags properties then Some i
      else find_type (i + 1) types type_bits properties
  end.

Definition find_memory_type (ctx : VkCtx) (type_bits properties : Z) : outcome DxgiError Z :=
  match find_type 0 (memory_types ctx) type_bits properties with
  | Some i => Ok i
  | None => Err (DxgiVulkan (NoMemoryType type_bits properties))
  end.

(** A memory type that a resource may use, with the properties asked for. *)
Definition suits (ctx : VkCtx) (type_bits properties i : Z) : Prop :=
  0 <= i /\ Z.testbit type_bits i = true /\
  exists flags, memory_types ctx !! Z.to_nat i = Some flags /\ contains flags properties = true.

Lemma land_bit n i : 0 <= i -> (Z.land n (Z.shiftl 1 i) =? 0) = negb (Z.testbit n i).
Proof.
  intros Hi. rewrite Z.shiftl_1_l. destruct (Z.testbit n i) eqn:E; cbn [negb].
  - apply Z.eqb_neq. intros H. apply (f_equal (fun x => Z.testbit x i)) in H.
    by rewrite Z.land_spec, E, Z.pow2_bits_true, Z.bits_0 in H.
  - apply Z.eqb_eq, Z.bits_inj'. intros m Hm. rewrite Z.land_spec, Z.bits_0. destruct (decide (m = i)) as [->|Hne]; [by rewrite E|].
    rewrite Z.pow2_bits_false by lia. apply andb_false_r.
Qed.

Lemma find_type_spec types type_bits properties : forall i0 before,
  Z.of_nat (length before) = i0 ->
  match find_type i0 types type_bits properties with
  | Some i => exists flags, i0 <= i /\ Z.testbit type_bits i = true /\ (before ++ types) !! Z.to_nat i = Some flags /\ contains flags properties = true /\
      forall j flags', i0 <= j < i -> Z.testbit type_bits j = true -> (before ++ types) !! Z.to_nat j = Some flags' -> contains flags' properties = false
  | None => forall j flags', i0 <= j -> Z.testbit type_bits j = true -> (before ++ types) !! Z.to_nat j = Some flags' -> contains flags' properties = false
  end.
Proof.
  induction types as [|flags types IH]; intros i0 before Hb; cbn [find_type].
  - intros j flags' Hj _ Hl. apply lookup_lt_Some in Hl. rewrite app_nil_r in Hl. lia.
  - rewrite land_bit, negb_involutive by lia.
    assert (Hhere : (before ++ flags :: types) !! Z.to_nat i0 = Some flags) by (rewrite lookup_app_r by lia; by replace (Z.to_nat i0 - length before)%nat with O by lia).
    destruct (Z.testbit type_bits i0 && contains flags properties) eqn:Et.
    + apply andb_true_iff in Et as [E1 E2]. exists flags. split_and!; [lia|done|done|done|]. intros j ? Hj. lia.
    + specialize (IH (i0 + 1) (before ++ [flags]) ltac:(rewrite length_app; cbn [length]; lia)).
      assert (Hno : forall j flags', i0 <= j -> j < i0 + 1 -> Z.testbit type_bits j = true -> (before ++ flags :: types) !! Z.to_nat j = Some flags' -> contains flags' properties = false).
      { intros j flags' H1 H2 Hj Hl. assert (j = i0) as -> by lia. rewrite Hhere in Hl. injection Hl as <-. by rewrite Hj in Et. }
      rewrite <- app_assoc in IH. cbn [app] in IH. destruct (find_type (i0 + 1) types type_bits properties) as [i|].
      * destruct IH as (fl & H1 & H2 & H3 & H4 & H5). exists fl. split_and!; [lia|done|done|done|].
        intros j flags' Hj Ht Hl. destruct (Z.lt_ge_cases j (i0 + 1)); [apply (Hno j flags'); [lia|lia|done|done]|]. apply (H5 j flags'); [lia|done|done].
      * intros j flags' Hj Ht Hl. destruct (Z.lt_ge_cases j (i0 + 1)); [apply (Hno j flags'); [lia|lia|done|done]|]. apply (IH j flags'); [lia|done|done].
Qed.

Lemma find_memory_type_first ctx type_bits properties :
  match find_memory_type ctx type_bits properties with
  | Ok i => suits ctx type_bits properties i /\ forall j, 0 <= j < i -> ~ suits ctx type_bits properties j
  | Err _ => forall j, ~ suits ctx type_bits properties j
  | Panic | NoFuel => False
  end.
Proof.
  unfold find_memory_type, suits. pose proof (find_type_spec (memory_types ctx) type_bits properties 0 [] eq_refl) as H. cbn [app] in H.
  destruct (find_type 0 _ _ _) as [i|].
  - destruct H as (flags & H1 & H2 & H3 & H4 & H5). split; [split; [done|split; [done|by exists flags]]|].
    intros j Hj (_ & Ht & fl & Hl & Hc). rewrite (H5 j fl Hj Ht Hl) in Hc. done.
  - intros j (Hj & Ht & fl & Hl & Hc). rewrite (H j fl Hj Ht Hl) in Hc. done.
Qed.
