(* ===== verification/D3d12.v ===== *)
(** * Direct3D 12 on Vulkan ([d3d12/src/lib.rs]): data and operations

    The device, resources, descriptor heaps, root signatures, pipeline states,
    command allocators and lists, and the queue. A method with a receiver that it
    changes runs on the pair of the driver's world and the receiver. Text in errors
    that shows a value is left out. *)
From Stdlib Require Import ZArith Lia Ascii String.
From stdpp Require Import base list option gmap strings.
From S2P Require Import Prelude Vulkan Dxgi.
Local Open Scope rust_scope.
Local Open Scope Z_scope.
Set Warnings "-register-all".

(** ** Errors and descriptions *)

Inductive D3d12Error :=
  | VulkanError (f : fault)
  | Invalid (text : string)
  | NoRenderTarget
  | NoPipeline
  | DescriptorIndexOutOfRange (index count : Z)
  | Unsupported (text : string).

Definition vk_err (e : Z) : D3d12Error := VulkanError (Code e).

Definition from_dxgi (e : DxgiError) : D3d12Error :=
  match e with
  | DxgiVulkan f => VulkanError f
  | MissingExtension n => VulkanError (Message n)
  | NoSurface => VulkanError (Message "no surface available")
  | BufferIndexOutOfRange _ _ => Invalid "buffer index out of range"
  end.

Inductive ResourceDimension := DimBuffer | Texture1d | Texture2d | Texture3d.

#[export] Instance ResourceDimension_eq_dec : EqDecision ResourceDimension.
Proof. solve_decision. Defined.

Inductive HeapType := HeapDefault | HeapUpload | HeapReadback.

Definition vk_memory_flags (t : HeapType) : Z :=
  match t with
  | HeapDefault => MEMORY_DEVICE_LOCAL
  | HeapUpload => Z.lor MEMORY_HOST_VISIBLE MEMORY_HOST_COHERENT
  | HeapReadback => Z.lor MEMORY_HOST_VISIBLE MEMORY_HOST_CACHED
  end.

Inductive ResourceStates := Common | Present | RenderTarget | CopyDest | CopySource | GenericRead | Undefined.

Definition vk_image_layout (s : ResourceStates) : ImageLayout :=
  match s with
  | Common | GenericRead => LAYOUT_GENERAL
  | Present => LAYOUT_PRESENT_SRC_KHR
  | RenderTarget => LAYOUT_COLOR_ATTACHMENT_OPTIMAL
  | CopyDest => LAYOUT_TRANSFER_DST_OPTIMAL
  | CopySource => LAYOUT_TRANSFER_SRC_OPTIMAL
  | Undefined => LAYOUT_UNDEFINED
  end.

Definition vk_buffer_layout (s : ResourceStates) : ImageLayout :=
  match s with Undefined => LAYOUT_UNDEFINED | _ => LAYOUT_GENERAL end.

Definition src_access (s : ResourceStates) : Z :=
  match s with
  | Common | Undefined => 0
  | Present => ACCESS_MEMORY_READ
  | RenderTarget => Z.lor ACCESS_COLOR_ATTACHMENT_READ ACCESS_COLOR_ATTACHMENT_WRITE
  | CopyDest => ACCESS_TRANSFER_WRITE
  | CopySource | GenericRead => ACCESS_TRANSFER_READ
  end.

Definition dst_access (s : ResourceStates) : Z :=
  match s with
  | Common | Present | Undefined => ACCESS_MEMORY_READ
  | RenderTarget => Z.lor ACCESS_COLOR_ATTACHMENT_READ ACCESS_COLOR_ATTACHMENT_WRITE
  | CopyDest => ACCESS_TRANSFER_WRITE
  | CopySource | GenericRead => ACCESS_TRANSFER_READ
  end.

Definition src_stage (s : ResourceStates) : Z :=
  match s with
  | Common | Undefined | Present => STAGE_BOTTOM_OF_PIPE
  | RenderTarget => STAGE_COLOR_ATTACHMENT_OUTPUT
  | CopyDest | CopySource | GenericRead => STAGE_TRANSFER
  end.

Definition dst_stage (s : ResourceStates) : Z :=
  match s with
  | Common | Undefined | Present => STAGE_TOP_OF_PIPE
  | RenderTarget => STAGE_COLOR_ATTACHMENT_OUTPUT
  | CopyDest | CopySource | GenericRead => STAGE_TRANSFER
  end.

Record ResourceDesc := mkResourceDesc {
  dimension : ResourceDimension; width : Z; height : Z; depth_or_array_size : Z;
  format : DxgiFormat; mip_levels : Z; sample_count : Z; heap_type : HeapType
}.

Definition render_target_2d (w h : Z) (f : DxgiFormat) : ResourceDesc := mkResourceDesc Texture2d w h 1 f 1 1 HeapDefault.
Definition upload_buffer (size : Z) : ResourceDesc := mkResourceDesc DimBuffer size 0 1 B8G8R8A8Unorm 1 1 HeapUpload.

(** ** Resources *)

Inductive ResourceInner :=
  | InnerImage (image memory format : Z) (extent : Extent3D) (host_visible : bool)
  | InnerBuffer (buffer memory size : Z) (host_visible : bool).

Record Resource := mkResource { inner : ResourceInner; res_desc : ResourceDesc; mapped_now : bool }.

Definition is_buffer (r : Resource) : bool := match inner r with InnerBuffer _ _ _ _ => true | _ => false end.
Definition image_handle (r : Resource) : Z := match inner r with InnerImage i _ _ _ _ => i | _ => 0 end.
Definition buffer_handle (r : Resource) : Z := match inner r with InnerBuffer b _ _ _ => b | _ => 0 end.
Definition res_format (r : Resource) : Z := match inner r with InnerImage _ _ f _ _ => f | _ => FORMAT_UNDEFINED end.
Definition res_extent (r : Resource) : Extent3D := match inner r with InnerImage _ _ _ e _ => e | _ => mkExtent3D 0 0 0 end.
Definition res_memory (r : Resource) : Z := match inner r with InnerImage _ m _ _ _ | InnerBuffer _ m _ _ => m end.
Definition host_visible (r : Resource) : bool := match inner r with InnerImage _ _ _ _ v | InnerBuffer _ _ _ v => v end.

Definition set_mapped (b : bool) (r : Resource) : Resource := mkResource (inner r) (res_desc r) b.

Section Resources.
Context `{Vulkan W}.
Local Abbreviation D A := (M W D3d12Error A).
Local Abbreviation R A := (M (W * Resource) D3d12Error A).

Definition map_resource : R Z :=
  let! r := self in
  if mapped_now r then mfail (Invalid "resource already mapped")
  else if negb (host_visible r) then mfail (Unsupported "resource memory is not host-visible")
  else
    let! ptr := driver (try vk_err (vk_map (res_memory r) 0 WHOLE_SIZE)) in
    set_self (set_mapped true) ;;;
    mret ptr.

Definition unmap_resource : R unit :=
  let! r := self in
  if negb (mapped_now r) then mret tt
  else
    driver (run (vk_unmap (res_memory r))) ;;;
    set_self (set_mapped false).

Definition drop_resource (r : Resource) : D unit :=
  (if mapped_now r then run (vk_unmap (res_memory r)) else mret tt) ;;;
  match inner r with
  | InnerImage image memory _ _ _ => run (vk_destroy KImage image) ;;; run (vk_destroy KMemory memory)
  | InnerBuffer buffer memory _ _ => run (vk_destroy KBuffer buffer) ;;; run (vk_destroy KMemory memory)
  end.
End Resources.

(** ** Descriptor heaps *)

Inductive DescriptorHeapType := HeapRtv | HeapDsv | HeapCbvSrvUav | HeapSampler.

#[export] Instance DescriptorHeapType_eq_dec : EqDecision DescriptorHeapType.
Proof. solve_decision. Defined.

Inductive Descriptor :=
  | Rtv (view image format : Z) (extent : Extent2D)
  | ImageDescriptor (view image format : Z)
  | BufferDescriptor (view buffer : Z)
  | Empty.

Definition view_handle (d : Descriptor) : Z := match d with Rtv v _ _ _ | ImageDescriptor v _ _ => v | BufferDescriptor _ _ | Empty => 0 end.
Definition buffer_view_handle (d : Descriptor) : Z := match d with BufferDescriptor v _ => v | _ => 0 end.

(** CPU and GPU handles are slot numbers. *)
Definition handle_offset (index n : Z) : Z := wrap 32 (index + n).

Record DescriptorHeap := mkDescriptorHeap { dh_type : DescriptorHeapType; shader_visible : bool; descriptors : list Descriptor }.

Definition capacity (h : DescriptorHeap) : Z := Z.of_nat (length (descriptors h)).
Definition cpu_descriptor_start (h : DescriptorHeap) : Z := 0.
Definition gpu_descriptor_start (h : DescriptorHeap) : Z := 0.

Definition descriptor (h : DescriptorHeap) (handle : Z) : outcome D3d12Error Descriptor :=
  match descriptors h !! Z.to_nat handle with
  | Some d => Ok d
  | None => Err (DescriptorIndexOutOfRange handle (capacity h))
  end.

Definition set_slot (i : Z) (d : Descriptor) (h : DescriptorHeap) : DescriptorHeap :=
  mkDescriptorHeap (dh_type h) (shader_visible h) (<[Z.to_nat i := d]> (descriptors h)).

Section Heaps.
Context `{Vulkan W}.
Local Abbreviation D A := (M W D3d12Error A).

(** The view of the slot goes; the caller empties the slot. *)
Definition destroy_descriptor (d : Descriptor) : D unit :=
  match d with
  | Rtv view _ _ _ | ImageDescriptor view _ _ => if negb (view =? 0) then run (vk_destroy KImageView view) else mret tt
  | BufferDescriptor view _ => if negb (view =? 0) then run (vk_destroy KBufferView view) else mret tt
  | Empty => mret tt
  end.

Definition drop_heap (h : DescriptorHeap) : D unit := m_iter destroy_descriptor (descriptors h).
End Heaps.

(** ** Pipeline descriptions *)

Inductive PrimitiveTopology := PointList | LineList | LineStrip | TriangleList | TriangleStrip.
Definition vk_topology (t : PrimitiveTopology) : VkTopology :=
  match t with
  | PointList => POINT_LIST | LineList => LINE_LIST | LineStrip => LINE_STRIP
  | TriangleList => TRIANGLE_LIST | TriangleStrip => TRIANGLE_STRIP
  end.

Inductive FillMode := Solid | Wireframe.
Inductive CullMode := CullNone | CullFront | CullBack.
Definition vk_cull (c : CullMode) : VkCull := match c with CullNone => CULL_NONE | CullFront => CULL_FRONT | CullBack => CULL_BACK end.

Record RasterizerDesc := mkRasterizerDesc { fill_mode : FillMode; cull_mode : CullMode; front_counter_clockwise : bool }.
Definition default_rasterizer : RasterizerDesc := mkRasterizerDesc Solid CullNone false.

Record BlendDesc := mkBlendDesc { alpha_to_coverage_enable : bool; independent_blend_enable : bool }.
Record SampleDesc := mkSampleDesc { count : Z; quality : Z }.

Definition vk_samples (s : SampleDesc) : Z :=
  if count s =? 1 then 1 else if count s =? 2 then 2 else if count s =? 4 then 4 else if count s =? 8 then 8
  else if count s =? 16 then 16 else if count s =? 32 then 32 else if count s =? 64 then 64 else 1.

Inductive VertexInputRate := PerVertex | PerInstance.
Definition vk_rate (r : VertexInputRate) : VkInputRate := match r with PerVertex => RATE_VERTEX | PerInstance => RATE_INSTANCE end.

Record VertexInputBinding := mkVertexInputBinding { vib_binding : Z; vib_stride : Z; vib_rate : VertexInputRate }.
Record VertexInputAttribute := mkVertexInputAttribute { via_location : Z; via_binding : Z; via_format : Z; via_offset : Z }.

Record PipelineStateDesc := mkPipelineStateDesc {
  root_signature : option Z; vs_spirv : option (list Z); ps_spirv : option (list Z);
  render_target_format : DxgiFormat; topology : PrimitiveTopology; rasterizer : RasterizerDesc; blend : BlendDesc;
  sample_desc : SampleDesc; vertex_bindings : list VertexInputBinding; vertex_attributes : list VertexInputAttribute
}.

Definition default_pipeline_desc : PipelineStateDesc :=
  mkPipelineStateDesc None None None B8G8R8A8Unorm TriangleList default_rasterizer (mkBlendDesc false false) (mkSampleDesc 0 0) [] [].

Record PipelineState := mkPipelineState { pso_pipeline : Z; pso_render_pass : Z; pso_layout : Z; owns_layout : bool; pso_modules : list Z }.

(** ** Command lists *)

Record BoundTarget := mkBoundTarget { bt_view : Z; bt_image : Z; bt_format : Z; bt_extent : Extent2D }.
Record BoundPipeline := mkBoundPipeline { bp_pipeline : Z; bp_render_pass : Z }.

(** The allocator is its command pool. *)
Record GraphicsCommandList := mkList {
  allocator : Z; command_buffer : Z; target : option BoundTarget; pipeline : option BoundPipeline;
  viewport : option Viewport; scissor : option Rect2D; recording : bool; closed : bool
}.

Definition set_closed (l : GraphicsCommandList) : GraphicsCommandList :=
  mkList (allocator l) (command_buffer l) (target l) (pipeline l) (viewport l) (scissor l) false true.
Definition set_allocator (p : Z) (l : GraphicsCommandList) : GraphicsCommandList :=
  mkList p (command_buffer l) (target l) (pipeline l) (viewport l) (scissor l) (recording l) (closed l).
Definition set_command_buffer (c : Z) (l : GraphicsCommandList) : GraphicsCommandList :=
  mkList (allocator l) c (target l) (pipeline l) (viewport l) (scissor l) (recording l) (closed l).
Definition reopened (l : GraphicsCommandList) : GraphicsCommandList := mkList (allocator l) (command_buffer l) None None None None true false.
Definition set_target (t : BoundTarget) (l : GraphicsCommandList) : GraphicsCommandList :=
  mkList (allocator l) (command_buffer l) (Some t) (pipeline l) (viewport l) (scissor l) (recording l) (closed l).
Definition set_pipeline (p : BoundPipeline) (l : GraphicsCommandList) : GraphicsCommandList :=
  mkList (allocator l) (command_buffer l) (target l) (Some p) (viewport l) (scissor l) (recording l) (closed l).
Definition set_list_viewport (v : Viewport) (l : GraphicsCommandList) : GraphicsCommandList :=
  mkList (allocator l) (command_buffer l) (target l) (pipeline l) (Some v) (scissor l) (recording l) (closed l).
Definition set_list_scissor (r : Rect2D) (l : GraphicsCommandList) : GraphicsCommandList :=
  mkList (allocator l) (command_buffer l) (target l) (pipeline l) (viewport l) (Some r) (recording l) (closed l).

(** A barrier names a resource and its states before and after. *)
Record ResourceBarrier := mkResourceBarrier { rb_resource : Resource; state_before : ResourceStates; state_after : ResourceStates }.

(** The barriers of one kind, with the union of their stages. *)
Record Gathered (A : Type) := mkGathered { g_barriers : list A; g_src : Z; g_dst : Z }.
Arguments mkGathered {A}. Arguments g_barriers {A}. Arguments g_src {A}. Arguments g_dst {A}.

Definition gather {A} (x : A) (b : ResourceBarrier) (g : Gathered A) : Gathered A :=
  mkGathered (g_barriers g ++ [x]) (Z.lor (g_src g) (src_stage (state_before b))) (Z.lor (g_dst g) (dst_stage (state_after b))).

Definition image_barrier (b : ResourceBarrier) (image : Z) : ImageBarrier :=
  mkImageBarrier image (vk_image_layout (state_before b)) (vk_image_layout (state_after b))
    (mkRange (mip_levels (res_desc (rb_resource b))) (depth_or_array_size (res_desc (rb_resource b))))
    (src_access (state_before b)) (dst_access (state_after b)).

Definition buffer_barrier (b : ResourceBarrier) (buffer : Z) : BufferBarrier :=
  mkBufferBarrier buffer 0 WHOLE_SIZE (src_access (state_before b)) (dst_access (state_after b)).

Definition gather_barrier (gs : Gathered ImageBarrier * Gathered BufferBarrier) (b : ResourceBarrier) : Gathered ImageBarrier * Gathered BufferBarrier :=
  let '(gi, gb) := gs in
  match inner (rb_resource b) with
  | InnerImage image _ _ _ _ => (gather (image_barrier b image) b gi, gb)
  | InnerBuffer buffer _ _ _ => (gi, gather (buffer_barrier b buffer) b gb)
  end.

Definition or_else (mask dflt : Z) : Z := if mask =? 0 then dflt else mask.

Definition clear_range : SubresourceRange := mkRange 1 1.

Definition barrier_to_dst (image : Z) : command :=
  PipelineBarrier STAGE_TOP_OF_PIPE STAGE_TRANSFER []
    [mkImageBarrier image LAYOUT_UNDEFINED LAYOUT_TRANSFER_DST_OPTIMAL clear_range 0 ACCESS_TRANSFER_WRITE].
Definition barrier_to_color (image : Z) : command :=
  PipelineBarrier STAGE_TRANSFER STAGE_COLOR_ATTACHMENT_OUTPUT []
    [mkImageBarrier image LAYOUT_TRANSFER_DST_OPTIMAL LAYOUT_COLOR_ATTACHMENT_OPTIMAL clear_range ACCESS_TRANSFER_WRITE
       (Z.lor ACCESS_COLOR_ATTACHMENT_READ ACCESS_COLOR_ATTACHMENT_WRITE)].

Section Lists.
Context `{Vulkan W}.
Local Abbreviation D A := (M W D3d12Error A).
Local Abbreviation L A := (M (W * GraphicsCommandList) D3d12Error A).

Definition reset_allocator (pool : Z) : D unit := try vk_err (vk_reset_pool pool).
Definition drop_allocator (pool : Z) : D unit := run (vk_destroy KCommandPool pool).

(** Allocate one primary buffer and take it out of the list the driver returns. *)
Definition allocate_buffer (pool : Z) : D Z :=
  let! hs := try vk_err (vk_allocate pool 1) in
  match last hs with
  | Some h => mret h
  | None => mfail (VulkanError (Message "command buffer allocation returned none"))
  end.

Definition close : L unit :=
  let! l := self in
  if closed l then mret tt
  else if negb (recording l) then mfail (Invalid "close called on a command list that was never recording")
  else
    driver (try vk_err (vk_end (command_buffer l))) ;;;
    set_self set_closed.

(** [drop_old] is what giving up the list's share of its old allocator does. *)
Definition reset (drop_old : D unit) (pool : Z) : L unit :=
  let! l := self in
  driver (run (vk_free (allocator l) (command_buffer l))) ;;;
  set_self (set_allocator pool) ;;;
  driver drop_old ;;;
  let! h := driver (allocate_buffer pool) in
  set_self (set_command_buffer h) ;;;
  driver (try vk_err (vk_begin h true)) ;;;
  set_self reopened.

Definition set_pipeline_state (pso : PipelineState) : L unit :=
  set_self (set_pipeline (mkBoundPipeline (pso_pipeline pso) (pso_render_pass pso))).

Definition set_render_targets (heap : DescriptorHeap) (handles : list Z) : L unit :=
  match handles with
  | [] => mfail (Invalid "set_render_targets needs at least one handle")
  | first :: _ =>
      let! d := lift_outcome (descriptor heap first) in
      match d with
      | Rtv view image format extent => set_self (set_target (mkBoundTarget view image format extent))
      | _ => mfail (Invalid "descriptor is not an RTV")
      end
  end.

Definition require_recording : L unit :=
  let! l := self in
  if closed l then mfail (Invalid "command used on a closed command list")
  else if negb (recording l) then mfail (Invalid "command list is not in the recording state")
  else mret tt.

Definition record (c : command) : L unit :=
  let! l := self in driver (run (vk_cmd (command_buffer l) c)).

Definition clear_render_target_view (heap : DescriptorHeap) (handle : Z) (color : list Z) : L unit :=
  require_recording ;;;
  let! d := lift_outcome (descriptor heap handle) in
  match d with
  | Rtv _ image _ _ =>
      record (barrier_to_dst image) ;;;
      record (ClearColorImage image LAYOUT_TRANSFER_DST_OPTIMAL color clear_range) ;;;
      record (barrier_to_color image)
  | _ => mfail (Invalid "clear_render_target_view expects an RTV descriptor")
  end.

Definition set_viewport (v : Viewport) : L unit :=
  require_recording ;;;
  set_self (set_list_viewport v) ;;;
  record (SetViewport v).

Definition set_scissor_rect (r : Rect2D) : L unit :=
  require_recording ;;;
  set_self (set_list_scissor r) ;;;
  record (SetScissor r).

Definition resource_barrier (barriers : list ResourceBarrier) : L unit :=
  require_recording ;;;
  match barriers with
  | [] => mret tt
  | _ =>
      let '(gi, gb) := fold_left gather_barrier barriers (mkGathered [] 0 0, mkGathered [] 0 0) in
      (match g_barriers gi with
       | [] => mret tt
       | ims => record (PipelineBarrier (or_else (g_src gi) STAGE_TOP_OF_PIPE) (or_else (g_dst gi) STAGE_BOTTOM_OF_PIPE) [] ims)
       end) ;;;
      match g_barriers gb with
      | [] => mret tt
      | bs => record (PipelineBarrier (or_else (g_src gb) STAGE_TOP_OF_PIPE) (or_else (g_dst gb) STAGE_BOTTOM_OF_PIPE) bs [])
      end
  end.

Definition draw_instanced (vertex_count instance_count start_vertex start_instance : Z) : L unit :=
  require_recording ;;;
  let! l := self in
  match target l, pipeline l with
  | None, _ => mfail NoRenderTarget
  | Some _, None => mfail NoPipeline
  | Some t, Some p =>
      let! framebuffer := driver (try vk_err (vk_create
        (FramebufferInfo (bp_render_pass p) [bt_view t] (width2 (bt_extent t)) (height2 (bt_extent t)) 1))) in
      record (BeginRenderPass (bp_render_pass p) framebuffer (mkRect2D 0 0 (bt_extent t)) [0; 0; 0; 0]) ;;;
      record (BindPipeline (bp_pipeline p)) ;;;
      record (Draw vertex_count instance_count start_vertex start_instance) ;;;
      record EndRenderPass ;;;
      driver (run (vk_destroy KFramebuffer framebuffer))
  end.

(** The result of ending the buffer is ignored. *)
Definition drop_list (l : GraphicsCommandList) : D unit :=
  (if recording l && negb (closed l) then run (fun w => snd (vk_end (command_buffer l) w)) else mret tt) ;;;
  run (vk_free (allocator l) (command_buffer l)).

(** ** The queue *)

Fixpoint closed_buffers (lists : list GraphicsCommandList) : outcome D3d12Error (list Z) :=
  match lists with
  | [] => Ok []
  | l :: lists =>
      if negb (closed l) then Err (Invalid "execute_command_lists: a command list is not closed")
      else let? bs := closed_buffers lists in Ok (command_buffer l :: bs)
  end.

Definition execute_command_lists (lists : list GraphicsCommandList) : D unit :=
  match lists with
  | [] => mret tt
  | _ =>
      let! command_buffers := lift_outcome (closed_buffers lists) in
      let! fence := try vk_err (vk_create FenceInfo) in
      fun w =>
        match vk_submit command_buffers fence w with
        | (inr e, w) => (Err (vk_err e), vk_destroy KFence fence w)
        | (inl _, w) =>
            let '(wait, w) := vk_wait fence w in
            (match wait with inl _ => Ok tt | inr e => Err (vk_err e) end, vk_destroy KFence fence w)
        end
  end.
End Lists.

(** ** The device *)

Inductive CommandListType := ListDirect | ListCompute | ListCopy.

Definition create_descriptor_heap (t : DescriptorHeapType) (n : Z) : DescriptorHeap :=
  mkDescriptorHeap t (match t with HeapCbvSrvUav | HeapSampler => true | HeapRtv | HeapDsv => false end) (replicate (Z.to_nat n) Empty).

Definition get_descriptor_handle_increment_size (t : DescriptorHeapType) : Z := 1.

Definition get_cpu_descriptor_handle (h : DescriptorHeap) (index : Z) : outcome D3d12Error Z :=
  if capacity h <=? index then Err (DescriptorIndexOutOfRange index (capacity h)) else Ok index.

Definition get_gpu_descriptor_handle (h : DescriptorHeap) (index : Z) : outcome D3d12Error Z :=
  if negb (shader_visible h) then Err (Invalid "GPU descriptor handle requested for a non-shader-visible heap")
  else if capacity h <=? index then Err (DescriptorIndexOutOfRange index (capacity h)) else Ok index.

Section Device.
Context `{Vulkan W}.
Local Abbreviation D A := (M W D3d12Error A).

Variable ctx : VkCtx.

Definition create_command_queue (t : CommandListType) : Z := graphics_queue ctx.

Definition create_command_allocator (t : CommandListType) : D Z :=
  try vk_err (vk_create (CommandPoolInfo POOL_RESET_COMMAND_BUFFER (graphics_family ctx))).

Definition create_command_list (pool : Z) (t : CommandListType) : D GraphicsCommandList :=
  let! h := allocate_buffer pool in
  try vk_err (vk_begin h true) ;;;
  mret (mkList pool h None None None None true false).

Definition create_render_target_view (r : Resource) (index : Z) : M (W * DescriptorHeap) D3d12Error unit :=
  let! heap := self in
  if negb (bool_decide (dh_type heap = HeapRtv)) then mfail (Invalid "create_render_target_view needs an RTV heap")
  else
    match inner r with
    | InnerBuffer _ _ _ _ => mfail (Invalid "create_render_target_view needs an image resource")
    | InnerImage image _ format extent _ =>
        let! view := driver (try vk_err (vk_create (ImageViewInfo image format clear_range))) in
        match descriptors heap !! Z.to_nat index with
        | None => mfail (DescriptorIndexOutOfRange index (capacity heap))
        | Some old =>
            driver (destroy_descriptor old) ;;;
            set_self (set_slot index (Rtv view image format (mkExtent2D (width3 extent) (height3 extent))))
        end
    end.

(** The memory of a fresh image or buffer. *)
Definition back (k : kind) (h : Z) (properties : Z) : D Z :=
  let! (size, bits) := ask (vk_requirements k h) in
  let! mem_type := lift_outcome (match find_memory_type ctx bits properties with
                                 | Ok i => Ok i | Err e => Err (from_dxgi e) | Panic => Panic | NoFuel => NoFuel end) in
  let! memory := try vk_err (vk_create (MemoryInfo size mem_type)) in
  try vk_err (vk_bind k h memory 0) ;;;
  mret memory.

Definition create_committed_image (desc : ResourceDesc) : D Resource :=
  let! image_type := (match dimension desc with
                      | Texture1d => mret TYPE_1D | Texture2d => mret TYPE_2D | Texture3d => mret TYPE_3D | DimBuffer => mpanic end) in
  let depth := if bool_decide (dimension desc = Texture3d) then depth_or_array_size desc else 1 in
  let array_layers := if bool_decide (dimension desc = Texture3d) then 1 else depth_or_array_size desc in
  let extent := mkExtent3D (wrap 32 (width desc)) (height desc) depth in
  let! image := try vk_err (vk_create (ImageInfo image_type (vk_format (format desc)) extent (mip_levels desc) array_layers
                                         (sample_count desc) (Z.lor IMAGE_USAGE_COLOR_ATTACHMENT IMAGE_USAGE_TRANSFER_DST))) in
  let! memory := back KImage image (vk_memory_flags (heap_type desc)) in
  mret (mkResource (InnerImage image memory (vk_format (format desc)) extent false) desc false).

Definition BUFFER_USAGES : Z :=
  Z.lor BUFFER_USAGE_VERTEX_BUFFER (Z.lor BUFFER_USAGE_INDEX_BUFFER (Z.lor BUFFER_USAGE_UNIFORM_BUFFER
    (Z.lor BUFFER_USAGE_TRANSFER_SRC BUFFER_USAGE_TRANSFER_DST))).

Definition create_committed_buffer (desc : ResourceDesc) : D Resource :=
  let size := width desc in
  if size =? 0 then mfail (Invalid "buffer size must be > 0")
  else
    let! buffer := try vk_err (vk_create (BufferInfo size BUFFER_USAGES)) in
    let! memory := back KBuffer buffer (vk_memory_flags (heap_type desc)) in
    let visible := match heap_type desc with HeapUpload | HeapReadback => true | HeapDefault => false end in
    mret (mkResource (InnerBuffer buffer memory size visible) desc false).

Definition create_committed_resource (desc : ResourceDesc) (initial : ResourceStates) : D Resource :=
  match dimension desc with
  | DimBuffer => create_committed_buffer desc
  | Texture1d | Texture2d | Texture3d => create_committed_image desc
  end.

Definition create_root_signature : D Z := try vk_err (vk_create PipelineLayoutInfo).
Definition drop_root_signature (layout : Z) : D unit := run (vk_destroy KPipelineLayout layout).

Definition make_render_pass (format : Z) : D Z :=
  try vk_err (vk_create (RenderPassInfo format 1 LOAD_CLEAR STORE_STORE LAYOUT_COLOR_ATTACHMENT_OPTIMAL LAYOUT_COLOR_ATTACHMENT_OPTIMAL)).

Definition create_shader_module (spirv : list Z) : D Z := try vk_err (vk_create (ShaderModuleInfo spirv)).

(** The stage of a shader, if there is one. *)
Definition create_stage (stage : VkStage) (spirv : option (list Z)) : D (list (VkStage * Z)) :=
  match spirv with
  | Some words => let! m := create_shader_module words in mret [(stage, m)]
  | None => mret []
  end.

Definition pipeline_info (desc : PipelineStateDesc) (stages : list (VkStage * Z)) (layout render_pass : Z) : PipelineInfo := {|
  pi_stages := stages;
  pi_bindings := map (fun b => mkVertexBinding (vib_binding b) (vib_stride b) (vk_rate (vib_rate b))) (vertex_bindings desc);
  pi_attributes := map (fun a => mkVertexAttribute (via_location a) (via_binding a) (via_format a) (via_offset a)) (vertex_attributes desc);
  pi_topology := vk_topology (topology desc);
  pi_viewport_count := 1;
  pi_viewports := None;
  pi_scissor_count := 1;
  pi_scissors := None;
  pi_polygon := match fill_mode (rasterizer desc) with Wireframe => POLYGON_LINE | Solid => POLYGON_FILL end;
  pi_cull := vk_cull (cull_mode (rasterizer desc));
  pi_front := if front_counter_clockwise (rasterizer desc) then FACE_COUNTER_CLOCKWISE else FACE_CLOCKWISE;
  pi_samples := vk_samples (sample_desc desc);
  pi_blend := false;
  pi_layout := layout;
  pi_render_pass := render_pass;
  pi_dynamic := []
|}.

Definition destroy_modules (ms : list Z) : D unit := m_iter (fun m => run (vk_destroy KShaderModule m)) ms.

Definition create_pipeline_state (desc : PipelineStateDesc) : D PipelineState :=
  let! render_pass := make_render_pass (vk_format (render_target_format desc)) in
  let! vs := create_stage STAGE_VERTEX (vs_spirv desc) in
  let! ps := create_stage STAGE_FRAGMENT (ps_spirv desc) in
  let stages := vs ++ ps in
  let modules := map snd stages in
  let! (layout, owned) := (match root_signature desc with
                           | Some provided => mret (provided, false)
                           | None => let! layout := try vk_err (vk_create PipelineLayoutInfo) in mret (layout, true) end) in
  fun w =>
    match vk_create_pipelines [pipeline_info desc stages layout render_pass] w with
    | (inl (p :: _), w) => (Ok (mkPipelineState p render_pass layout owned modules), w)
    | (inl [], w) => (Err (VulkanError (Message "pipeline creation returned no pipelines")), w)
    | (inr e, w) =>
        (run (vk_destroy KRenderPass render_pass) ;;;
         (if owned then run (vk_destroy KPipelineLayout layout) else mret tt) ;;;
         destroy_modules modules ;;;
         mfail (vk_err e)) w
    end.

Definition drop_pipeline_state (p : PipelineState) : D unit :=
  run (vk_destroy KPipeline (pso_pipeline p)) ;;;
  run (vk_destroy KRenderPass (pso_render_pass p)) ;;;
  (if owns_layout p then run (vk_destroy KPipelineLayout (pso_layout p)) else mret tt) ;;;
  destroy_modules (pso_modules p).
End Device.
