(* ===== verification/D3d12Sys.v ===== *)
(** * A program that uses Direct3D 12

    The objects a program holds, and its calls. Names stand for the program's
    variables; Rust's types see to it that a name is bound to an object of the right
    type, and that a borrowed object is there. A command allocator is shared: the
    program and the lists built from it hold it, and the last of them drops it. *)
From Stdlib Require Import ZArith Lia Ascii String.
From stdpp Require Import base list option gmap strings.
From S2P Require Import Prelude Vulkan Dxgi D3d12.
Local Open Scope rust_scope.
Local Open Scope Z_scope.
Set Warnings "-register-all".

Inductive Object12 :=
  | OResource (r : Resource)
  | OHeap (h : DescriptorHeap)
  | ORoot (layout : Z)
  | OPipeline (p : PipelineState)
  | OAllocator (pool : Z) (held : bool)      (** [held]: the program's own share *)
  | OList (l : GraphicsCommandList) (a : Z). (** [a]: the name of its allocator *)

Abbreviation Objects := (gmap Z Object12).

(** The handles an object destroys when it is dropped. *)
Definition view_of (d : Descriptor) : list object :=
  match d with
  | Rtv view _ _ _ | ImageDescriptor view _ _ => if view =? 0 then [] else [(KImageView, view)]
  | BufferDescriptor view _ => if view =? 0 then [] else [(KBufferView, view)]
  | Empty => []
  end.

Definition owned_resource (r : Resource) : list object :=
  match inner r with
  | InnerImage image memory _ _ _ => [(KImage, image); (KMemory, memory)]
  | InnerBuffer buffer memory _ _ => [(KBuffer, buffer); (KMemory, memory)]
  end.

Definition owned_pipeline (p : PipelineState) : list object :=
  (KPipeline, pso_pipeline p) :: (KRenderPass, pso_render_pass p) ::
  (if owns_layout p then [(KPipelineLayout, pso_layout p)] else []) ++ map (pair KShaderModule) (pso_modules p).

Definition owned (ob : Object12) : list object :=
  match ob with
  | OResource r => owned_resource r
  | OHeap h => concat (map view_of (descriptors h))
  | ORoot layout => [(KPipelineLayout, layout)]
  | OPipeline p => owned_pipeline p
  | OAllocator pool _ => [(KCommandPool, pool)]
  | OList l _ => [(KCommandBuffer, command_buffer l)]
  end.

Inductive call :=
  | CreateResource (x : Z) (d : ResourceDesc) (initial : ResourceStates)
  | MapResource (x : Z)
  | UnmapResource (x : Z)
  | CreateHeap (x : Z) (t : DescriptorHeapType) (n : Z)
  | CreateRtv (heap resource index : Z)
  | CreateRoot (x : Z)
  | CreatePipeline (x : Z) (d : PipelineStateDesc)
  | CreateAllocator (x : Z)
  | ResetAllocator (x : Z)
  | CreateList (x allocator : Z)
  | ResetList (x allocator : Z)
  | CloseList (x : Z)
  | SetPipelineState (x p : Z)
  | SetRenderTargets (x heap : Z) (handles : list Z)
  | ClearTarget (x heap handle : Z) (color : list Z)
  | ListViewport (x : Z) (v : Viewport)
  | ListScissor (x : Z) (r : Rect2D)
  | Barriers (x : Z) (bs : list (Z * ResourceStates * ResourceStates))
  | DrawInstanced (x vertex_count instance_count start_vertex start_instance : Z)
  | Execute (xs : list Z)
  | Drop (x : Z).

(** The lists that share the allocator [a]. *)
Definition uses_allocator (a : Z) (ob : Object12) : bool := match ob with OList _ b => b =? a | _ => false end.
Definition shared (s : Objects) (a : Z) : bool := existsb (fun '(_, ob) => uses_allocator a ob) (map_to_list s).

Section System.
Context `{Vulkan W}.
Variable ctx : VkCtx.
Local Abbreviation P A := (M (W * Objects) D3d12Error A).

(** The object of a name. *)
Definition the {A} (f : Object12 -> option A) (x : Z) : P A := fun '(w, s) =>
  (match s !! x ≫= f with Some a => Ok a | None => Panic end, (w, s)).

Definition as_resource (ob : Object12) : option Resource := match ob with OResource r => Some r | _ => None end.
Definition as_heap (ob : Object12) : option DescriptorHeap := match ob with OHeap h => Some h | _ => None end.
Definition as_pipeline (ob : Object12) : option PipelineState := match ob with OPipeline p => Some p | _ => None end.
Definition as_pool (ob : Object12) : option Z := match ob with OAllocator p _ => Some p | _ => None end.
Definition as_list (ob : Object12) : option (GraphicsCommandList * Z) := match ob with OList l a => Some (l, a) | _ => None end.

Definition store (x : Z) (ob : Object12) : P unit := set_self <[x := ob]>.

(** A method on the object of a name, which is written back. *)
Definition method {R A} (f : Object12 -> option R) (g : R -> Object12) (x : Z) (m : M (W * R) D3d12Error A) : P A := fun '(w, s) =>
  match s !! x ≫= f with
  | Some r => let '(o, (w, r)) := m (w, r) in (o, (w, <[x := g r]> s))
  | None => (Panic, (w, s))
  end.

Definition list_method {A} (x : Z) (m : M (W * GraphicsCommandList) D3d12Error A) : P unit :=
  let! (_, a) := the as_list x in
  method (fun ob => fst <$> as_list ob) (fun l => OList l a) x m ;;;
  mret tt.

(** The last share of an allocator destroys its pool. *)
Definition release (a : Z) : P unit := fun '(w, s) =>
  match s !! a with
  | Some (OAllocator pool false) => if shared s a then (Ok tt, (w, s)) else (Ok tt, (vk_destroy KCommandPool pool w, delete a s))
  | _ => (Ok tt, (w, s))
  end.

Definition drop (x : Z) : P unit :=
  let! s := self in
  match s !! x with
  | Some (OResource r) => driver (drop_resource r) ;;; set_self (delete x)
  | Some (OHeap h) => driver (drop_heap h) ;;; set_self (delete x)
  | Some (ORoot layout) => driver (drop_root_signature layout) ;;; set_self (delete x)
  | Some (OPipeline p) => driver (drop_pipeline_state p) ;;; set_self (delete x)
  | Some (OAllocator pool _) => store x (OAllocator pool false) ;;; release x
  | Some (OList l a) => driver (drop_list l) ;;; set_self (delete x) ;;; release a
  | None => mpanic
  end.

(** The list [x] moves its share from its allocator to [b]. *)
Definition reset_list (x b : Z) : P unit :=
  let! s := self in
  let! (l, a) := the as_list x in
  let! pool := the as_pool b in
  let last := match s !! a with Some (OAllocator _ false) => negb (b =? a) && negb (shared (delete x s) a) | _ => false end in
  let! r := (fun '(w, s) =>
    let '(o, (w, l)) := reset (if last then drop_allocator (allocator l) else mret tt) pool (w, l) in
    (Ok o, (w, <[x := OList l b]> (if last then delete a s else s)))) in
  lift_outcome r.

Definition run_call (c : call) : P unit :=
  match c with
  | CreateResource x d i => let! r := driver (create_committed_resource ctx d i) in store x (OResource r)
  | MapResource x => method as_resource OResource x map_resource ;;; mret tt
  | UnmapResource x => method as_resource OResource x unmap_resource
  | CreateHeap x t n => store x (OHeap (create_descriptor_heap t n))
  | CreateRtv heap resource index =>
      let! r := the as_resource resource in
      method as_heap OHeap heap (create_render_target_view r index)
  | CreateRoot x => let! layout := driver create_root_signature in store x (ORoot layout)
  | CreatePipeline x d => let! p := driver (create_pipeline_state d) in store x (OPipeline p)
  | CreateAllocator x => let! pool := driver (create_command_allocator ctx ListDirect) in store x (OAllocator pool true)
  | ResetAllocator x => let! pool := the as_pool x in driver (reset_allocator pool)
  | CreateList x a =>
      let! pool := the as_pool a in
      let! l := driver (create_command_list pool ListDirect) in
      store x (OList l a)
  | ResetList x a => reset_list x a
  | CloseList x => list_method x close
  | SetPipelineState x p => let! p := the as_pipeline p in list_method x (set_pipeline_state p)
  | SetRenderTargets x heap handles => let! h := the as_heap heap in list_method x (set_render_targets h handles)
  | ClearTarget x heap handle color => let! h := the as_heap heap in list_method x (clear_render_target_view h handle color)
  | ListViewport x v => list_method x (set_viewport v)
  | ListScissor x r => list_method x (set_scissor_rect r)
  | Barriers x bs =>
      let! rs := m_list (fun '(r, before, after) => let! r := the as_resource r in mret (mkResourceBarrier r before after)) bs in
      list_method x (resource_barrier rs)
  | DrawInstanced x a b c d => list_method x (draw_instanced a b c d)
  | Execute xs =>
      let! ls := m_list (fun x => let! la := the as_list x in mret (fst la)) xs in
      driver (execute_command_lists ls)
  | Drop x => drop x
  end.

(** Calls one after the other; a call that fails does not stop the program. *)
Fixpoint run_calls (cs : list call) (st : W * Objects) : W * Objects :=
  match cs with [] => st | c :: cs => run_calls cs (snd (run_call c st)) end.
End System.
