(* ===== verification/D3d12Own.v ===== *)
(** * Ownership in Direct3D 12: every operation

    Each operation of the layer as a step on the handles in hand: what it creates,
    what it destroys, and in which state it leaves the command buffer of a list. All
    driver calls it makes keep the driver's rules. *)
From Stdlib Require Import ZArith Lia Ascii String.
From stdpp Require Import base list option gmap strings.
From S2P Require Import Prelude Vulkan VkOwn VkSmall Dxgi D3d12 D3d12Sys.
Local Open Scope rust_scope.
Local Open Scope Z_scope.
Set Warnings "-register-all".

(** ** What an object says about its handles *)

Definition resource_ok (u : Usage) (r : Resource) : Prop :=
  (forall o, o ∈ owned_resource r -> fst o <> KMemory -> o ∈ bound u) /\
  (mapped_now r = true <-> is_Some (mapped u !! res_memory r)).

(** The command buffer of a list, between calls. *)
Definition list_ok (u : Usage) (l : GraphicsCommandList) : Prop :=
  recording l = negb (closed l) /\
  exists cb, buffers u !! command_buffer l = Some cb /\ cb_pool cb = allocator l /\ inside_pass (cb_commands cb) = false /\
    (closed l = false -> cb_state cb = CbRecording \/ cb_state cb = CbInvalid) /\ (closed l = true -> cb_state cb <> CbRecording).

Definition obj_ok (u : Usage) (ob : Object12) : Prop :=
  match ob with
  | OResource r => resource_ok u r
  | OList l _ => list_ok u l
  | OHeap _ | ORoot _ | OPipeline _ | OAllocator _ _ => True
  end.

(** The commands of an open list are all still good. *)
Definition intact (u : Usage) (l : GraphicsCommandList) : Prop :=
  closed l = false -> cb_is CbRecording (command_buffer l) u = true.

Lemma obj_ok_same P u u' ob : obj_ok u ob -> Forall (same_for P u u') (owned ob) -> obj_ok u' ob.
Proof.
  rewrite Forall_forall. destruct ob as [r| | | | |l a]; cbn [obj_ok owned]; try done.
  - intros [Hb Hm] Hs. split.
    + intros o Ho Hk. apply (Hs o Ho). by apply Hb.
    + rewrite Hm. assert (Hin : (KMemory, res_memory r) ∈ owned_resource r).
      { unfold owned_resource, res_memory. destruct (inner r); [right; by left|right; by left]. }
      destruct (Hs _ Hin) as (_ & E & _). specialize (E eq_refl). cbn in E. by rewrite E.
  - intros (Hr & cb & Hb & Hp & Hi & H1 & H2) Hs. split; [done|]. destruct (Hs (KCommandBuffer, command_buffer l)) as (_ & _ & Hc); [by left|].
    specialize (Hc eq_refl). cbn in Hc. rewrite Hb in Hc. destruct (buffers u' !! command_buffer l) as [cb'|]; [|done].
    exists cb'. split; [done|]. destruct Hc as [->|(-> & Hst & _)]; [done|]. cbn. split_and!; try done. by right.
Qed.

(** ** Resources *)

Section Ops.
Context `{HV : Vulkan W} `{HL : !VulkanLaws W}.
Variable ctx : VkCtx.

(** What is left in hand after an outcome: [f] of the value, or some leftovers that
    nobody owns when the call fails. Nothing panics. *)
Definition leaves {A} (own rest : list object) (u0 : Usage) (f : A -> list object) (P : A -> Usage -> Prop) (r : outcome D3d12Error A) (w : W) : Prop :=
  match r with
  | Ok a => working (f a ++ own) rest u0 (usage w) /\ P a (usage w)
  | Err _ => exists lost, working (lost ++ own) rest u0 (usage w)
  | Panic | NoFuel => False
  end.

Lemma leaves_err {A} own rest u0 (f : A -> list object) P e (w : W) lost : working (lost ++ own) rest u0 (usage w) -> leaves own rest u0 f P (Err e) w.
Proof. intros H. by exists lost. Qed.

Lemma fresh_unmapped own rest u0 u m : working own rest u0 u -> (KMemory, m) ∉ live u -> mapped u !! m = None.
Proof.
  intros [H _] Hn. destruct (mapped u !! m) eqn:E; [|done]. exfalso. apply Hn, (h_mapped _ _ H). by eexists.
Qed.

Lemma fresh_unbound own rest u0 u o : working own rest u0 u -> o ∉ live u -> o ∉ bound u.
Proof. intros [H _] Hn Hb. apply Hn, (h_bound _ _ H o Hb). Qed.

Lemma back_spec own rest u0 k h props (w : W) : k = KImage \/ k = KBuffer -> working ((k, h) :: own) rest u0 (usage w) -> (k, h) ∉ bound (usage w) ->
  ends (back ctx k h props) w (leaves own rest u0 (fun m => [(k, h); (KMemory, m)]) (fun m u => (k, h) ∈ bound u /\ mapped u !! m = None)).
Proof.
  intros Hk Hw Hb. unfold back. apply ends_then, ends_ask. cbn [next]. destruct (vk_requirements k h w) as [size bits].
  apply ends_then. unfold ends, lift_outcome. cbn [fst snd next]. pose proof (find_memory_type_first ctx bits props) as Hf.
  destruct (find_memory_type ctx bits props) as [t|e| |]; cbn [next leaves]; [|exists [(k, h)]; exact Hw|done|done]. clear Hf.
  apply ends_then. eapply ends_new; [exact Hw|done| |].
  - intros m w' _ Hm Hw' Eu. cbn [next kind_of] in *. apply ends_then.
    assert (Hw2 : working ((k, h) :: (KMemory, m) :: own) rest u0 (usage w')) by (eapply working_perm; [|exact Hw']; apply Permutation_swap).
    eapply ends_bind_memory; [by destruct Hk as [->| ->]|exact Hw2|by left|right; by left|by rewrite Eu, created_bound| |].
    + intros w2 Hw3 Eu2. cbn [next]. apply ends_ret. cbn [leaves app]. split; [exact Hw3|]. rewrite Eu2, Eu. cbn. split; [by apply elem_of_union; left; apply elem_of_singleton|].
      by eapply fresh_unmapped.
    + intros e w2 Hw3 _. cbn [next]. by exists [(k, h); (KMemory, m)].
  - intros e w' Eu. cbn [next]. exists [(k, h)]. by rewrite Eu.
Qed.

Lemma create_committed_spec own rest u0 d i (w : W) : working own rest u0 (usage w) ->
  ends (create_committed_resource ctx d i) w (leaves own rest u0 owned_resource (fun r u => resource_ok u r /\ res_desc r = d /\ mapped_now r = false)).
Proof.
  intros Hw. unfold create_committed_resource.
  assert (Hpost : forall k h mem vis inn (w' : W), k = KImage \/ k = KBuffer ->
    owned_resource (mkResource inn d vis) = [(k, h); (KMemory, mem)] -> res_memory (mkResource inn d vis) = mem -> vis = false ->
    working ([(k, h); (KMemory, mem)] ++ own) rest u0 (usage w') -> (k, h) ∈ bound (usage w') /\ mapped (usage w') !! mem = None ->
    leaves own rest u0 owned_resource (fun r u => resource_ok u r /\ res_desc r = d /\ mapped_now r = false) (Ok (mkResource inn d vis)) w').
  { intros k h mem vis inn w' Hk Ho Hm -> Hw' [Hb Hn]. cbn [leaves]. rewrite Ho. split; [done|]. split; [|done]. unfold resource_ok. rewrite Ho, Hm, Hn. split.
    - intros o [->|[->|[]%not_elem_of_nil]%elem_of_cons]%elem_of_cons Hx; [done|by destruct Hx].
    - split; [done|by intros []%is_Some_None]. }
  assert (Himg : dimension d <> DimBuffer -> ends (create_committed_image ctx d) w
    (leaves own rest u0 owned_resource (fun r u => resource_ok u r /\ res_desc r = d /\ mapped_now r = false))).
  { intros Hd. unfold create_committed_image. apply ends_then.
    assert (Ht : exists t, (match dimension d with Texture1d => mret TYPE_1D | Texture2d => mret TYPE_2D | Texture3d => mret TYPE_3D | DimBuffer => mpanic end) w = (Ok (E := D3d12Error) t, w))
      by (destruct (dimension d); [done|by eexists..]). destruct Ht as [t Ht]. unfold ends at 1. rewrite Ht. cbn [fst snd next].
    apply ends_then. eapply ends_new; [exact Hw|done| |].
    - intros h w' _ Hn Hw' Eu. cbn [next kind_of] in *. apply ends_then. eapply ends_mono; [apply back_spec; [by left|exact Hw'|]|].
      + rewrite Eu, created_bound. by eapply fresh_unbound.
      + intros [m|e| |] w2; cbn [leaves next]; try done. intros [Hw2 Hp]. apply ends_ret. eapply (Hpost KImage h m false); [by left|done|done|done|exact Hw2|exact Hp].
    - intros e w' Eu. cbn [next]. exists []. by rewrite Eu. }
  destruct (dimension d) eqn:Ed; [|apply Himg; congruence..]. unfold create_committed_buffer. destruct (width d =? 0); [apply ends_fail; by exists []|].
  apply ends_then. eapply ends_new; [exact Hw|done| |].
  - intros h w' _ Hn Hw' Eu. cbn [next kind_of] in *. apply ends_then. eapply ends_mono; [apply back_spec; [by right|exact Hw'|]|].
    + rewrite Eu, created_bound. by eapply fresh_unbound.
    + intros [m|e| |] w2; cbn [leaves next]; try done. intros [Hw2 Hp]. apply ends_ret. eapply (Hpost KBuffer h m false); [by right|done|done|done|exact Hw2|exact Hp].
  - intros e w' Eu. cbn [next]. exists []. by rewrite Eu.
Qed.

Lemma owned_memory r : (KMemory, res_memory r) ∈ owned_resource r.
Proof. unfold owned_resource, res_memory. destruct (inner r); right; by left. Qed.

Lemma owned_set_mapped b r : owned_resource (set_mapped b r) = owned_resource r.
Proof. done. Qed.

Lemma map_spec rest u0 r (w : W) : working (owned_resource r) rest u0 (usage w) -> resource_ok (usage w) r ->
  ends map_resource (w, r) (fun o '(w', r') => returns o /\ working (owned_resource r') rest u0 (usage w') /\ resource_ok (usage w') r' /\
    inner r' = inner r /\ buffers (usage w') = buffers (usage w) /\ mapped_now r' = match o with Ok _ => true | _ => mapped_now r end).
Proof.
  intros Hw Hr. unfold map_resource. apply ends_then, ends_self. cbn [next]. destruct (mapped_now r) eqn:Em; [by apply ends_fail|].
  destruct (host_visible r) eqn:Ev; [|by apply ends_fail]. cbn [negb]. apply ends_then, ends_driver.
  assert (Hn : mapped (usage w) !! res_memory r = None).
  { destruct (mapped (usage w) !! res_memory r) eqn:E; [|done]. destruct Hr as [_ Hr]. rewrite E, Em in Hr. destruct Hr as [_ Hr]. by discriminate Hr. }
  eapply ends_map_memory; [exact Hw|apply owned_memory|exact Hn| |].
  - intros p w' Hw' Eu. cbn [next]. apply ends_then, ends_set_self. cbn [next]. apply ends_ret. split; [done|]. rewrite owned_set_mapped. split; [done|]. split; [|by rewrite Eu].
    rewrite Eu. split; [exact (proj1 Hr)|]. cbn. change (res_memory (set_mapped true r)) with (res_memory r). rewrite lookup_insert_eq. split; [by eexists|done].
  - intros e w' Eu. cbn [next]. rewrite Eu. done.
Qed.

Lemma unmap_spec rest u0 r (w : W) : working (owned_resource r) rest u0 (usage w) -> resource_ok (usage w) r ->
  ends unmap_resource (w, r) (fun o '(w', r') => o = Ok tt /\ working (owned_resource r') rest u0 (usage w') /\ resource_ok (usage w') r' /\
    inner r' = inner r /\ buffers (usage w') = buffers (usage w) /\ mapped_now r' = false).
Proof.
  intros Hw Hr. unfold unmap_resource. apply ends_then, ends_self. cbn [next]. destruct (mapped_now r) eqn:Em; cbn [negb]; [|by apply ends_ret].
  apply ends_then, ends_driver. eapply ends_unmap; [exact Hw|apply owned_memory|by apply Hr|].
  intros w' Hw' Eu. cbn [next]. apply ends_set_self. split; [done|]. rewrite owned_set_mapped. split; [done|]. split; [|by rewrite Eu]. rewrite Eu.
  split; [exact (proj1 Hr)|]. cbn. change (res_memory (set_mapped false r)) with (res_memory r). rewrite lookup_delete_eq. split; [done|by intros []%is_Some_None].
Qed.

Lemma drop_resource_spec own rest u0 r (w : W) : working (owned_resource r ++ own) rest u0 (usage w) -> resource_ok (usage w) r ->
  ends (drop_resource r) w (fun o w' => o = Ok tt /\ working own rest u0 (usage w')).
Proof.
  intros Hw Hr. unfold drop_resource. apply ends_then.
  assert (H1 : ends (if mapped_now r then run (vk_unmap (res_memory r)) else mret tt) w
    (fun (o : outcome D3d12Error unit) w' => o = Ok tt /\ working (owned_resource r ++ own) rest u0 (usage w'))).
  { destruct (mapped_now r) eqn:Em; [|by apply ends_ret]. eapply ends_unmap; [exact Hw|apply elem_of_app; left; apply owned_memory|by apply Hr|]. done. }
  eapply ends_mono; [exact H1|]. clear Hw Hr w H1. intros o w [-> Hw]. cbn [next]. unfold owned_resource in Hw.
  destruct (inner r) as [h m ? ? ?|h m ? ?]; cbn [app] in Hw; (apply ends_then; eapply ends_destroy; [|exact Hw|]; [done|]);
    (intros w1 Hw1 _; cbn [next]; eapply ends_destroy; [|exact Hw1|]; [done|]); done.
Qed.

(** ** Descriptor heaps *)

Lemma destroy_descriptor_spec own rest u0 d (w : W) : working (view_of d ++ own) rest u0 (usage w) ->
  ends (destroy_descriptor d) w (fun o w' => o = Ok tt /\ working own rest u0 (usage w')).
Proof.
  intros Hw. destruct d as [v ? ? ?|v ? ?|v ?|]; cbn [destroy_descriptor view_of] in *; try (by apply ends_ret);
    (destruct (v =? 0); cbn [negb app] in *; [by apply ends_ret|]); (eapply ends_destroy; [|exact Hw|]; [done|]); done.
Qed.

Lemma drop_heap_spec ds : forall own rest u0 (w : W), working (concat (map view_of ds) ++ own) rest u0 (usage w) ->
  ends (m_iter destroy_descriptor ds) w (fun o w' => o = Ok tt /\ working own rest u0 (usage w')).
Proof.
  induction ds as [|d ds IH]; intros own rest u0 w Hw; cbn [m_iter map concat] in *; [by apply ends_ret|]. rewrite <- app_assoc in Hw.
  apply ends_then. eapply ends_mono; [by apply destroy_descriptor_spec|]. intros o w' [-> Hw']. cbn [next]. by apply IH.
Qed.

Lemma views_insert ds i d old : ds !! i = Some old ->
  Permutation (view_of old ++ concat (map view_of (<[i := d]> ds))) (view_of d ++ concat (map view_of ds)).
Proof.
  revert i. induction ds as [|x ds IH]; intros [|i] Hi; cbn in *; [done|done| |].
  - injection Hi as ->. rewrite !app_assoc. apply Permutation_app_tail, Permutation_app_comm.
  - rewrite (app_assoc (view_of old)), (Permutation_app_comm (view_of old)), <- app_assoc, (IH i Hi), !app_assoc. apply Permutation_app_tail, Permutation_app_comm.
Qed.

Lemma create_rtv_spec rest u0 r i heap (w : W) : working (owned (OHeap heap)) rest u0 (usage w) ->
  (forall image m f e v, inner r = InnerImage image m f e v -> (KImage, image) ∈ live (usage w) /\ (KImage, image) ∈ bound (usage w)) ->
  ends (create_render_target_view r i) (w, heap) (fun o '(w', heap') =>
    match o with
    | Ok _ => working (owned (OHeap heap')) rest u0 (usage w') /\ exists view image m f e v, inner r = InnerImage image m f e v /\ 0 < view /\
        heap' = set_slot i (Rtv view image f (mkExtent2D (width3 e) (height3 e))) heap /\ is_Some (descriptors heap !! Z.to_nat i)
    | Err _ => heap' = heap /\ exists lost, working (lost ++ owned (OHeap heap')) rest u0 (usage w')
    | _ => False end).
Proof.
  intros Hw Hi. unfold create_render_target_view. apply ends_then, ends_self. cbn [next].
  destruct (bool_decide (dh_type heap = HeapRtv)); cbn [negb]; [|apply ends_fail; by split; [|exists []]].
  destruct (inner r) as [image m f e v|] eqn:Er; [|apply ends_fail; by split; [|exists []]]. destruct (Hi _ _ _ _ _ eq_refl) as [Hl Hb].
  apply ends_then, ends_driver. eapply ends_new; [exact Hw| | |].
  - unfold info_ok, all_live. cbn [info_uses forallb]. by rewrite !bool_decide_eq_true_2.
  - intros view w' Hv Hn Hw' Eu. cbn [next kind_of] in *. destruct (descriptors heap !! Z.to_nat i) as [old|] eqn:Eo.
    2: { apply ends_fail. split; [done|]. by exists [(KImageView, view)]. }
    apply ends_then, ends_driver. set (new := Rtv view image f (mkExtent2D (width3 e) (height3 e))).
    assert (Hp : Permutation ((KImageView, view) :: owned (OHeap heap)) (view_of old ++ owned (OHeap (set_slot i new heap)))).
    { cbn [owned set_slot descriptors]. rewrite (views_insert _ _ _ _ Eo). unfold new. cbn [view_of]. by rewrite (proj2 (Z.eqb_neq view 0)) by lia. }
    eapply ends_mono; [eapply destroy_descriptor_spec, working_perm; [exact Hp|exact Hw']|]. intros o w2 [-> Hw2]. cbn [next]. apply ends_set_self.
    split; [exact Hw2|]. exists view, image, m, f, e, v. split; [done|]. split; [lia|]. split; [done|]. by eexists.
  - intros x w' Eu. cbn [next]. split; [done|]. exists []. by rewrite Eu.
Qed.
(** ** Root signatures, pipeline states *)

Lemma destroy_modules_spec ms : forall own rest u0 (w : W), working (map (pair KShaderModule) ms ++ own) rest u0 (usage w) ->
  ends (destroy_modules ms) w (fun o w' => o = Ok tt /\ working own rest u0 (usage w')).
Proof.
  induction ms as [|m ms IH]; intros own rest u0 w Hw; cbn [destroy_modules m_iter map app] in *; [by apply ends_ret|].
  apply ends_then. eapply ends_destroy; [|exact Hw|]; [done|]. intros w' Hw' _. cbn [next]. by apply IH.
Qed.

Definition stage_modules (l : list (VkStage * Z)) : list object := map (fun '(_, m) => (KShaderModule, m)) l.

Lemma stage_modules_snd l : stage_modules l = map (pair KShaderModule) (map snd l).
Proof. unfold stage_modules. rewrite map_map. apply map_ext. by intros []. Qed.

Lemma create_stage_spec own rest u0 st spirv (w : W) : working own rest u0 (usage w) ->
  ends (create_stage st spirv) w (leaves own rest u0 stage_modules (fun l _ => map fst l = match spirv with Some _ => [st] | None => [] end)).
Proof.
  intros Hw. destruct spirv as [words|]; [|by apply ends_ret]. cbn [create_stage]. apply ends_then.
  eapply ends_new; [exact Hw|done| |].
  - intros m w' _ _ Hw' _. by apply ends_ret.
  - intros e w' Eu. exists []. by rewrite Eu.
Qed.

(** Destroying a render pass, a layout if it is owned, and modules. *)
Lemma teardown_spec {A} own rest u0 rp layout (owned_layout : bool) ms (k : M W D3d12Error A) (w : W) Q :
  working ((KRenderPass, rp) :: (if owned_layout then [(KPipelineLayout, layout)] else []) ++ map (pair KShaderModule) ms ++ own) rest u0 (usage w) ->
  (forall w', working own rest u0 (usage w') -> ends k w' Q) ->
  ends (run (vk_destroy KRenderPass rp) ;;; (if owned_layout then run (vk_destroy KPipelineLayout layout) else mret tt) ;;; destroy_modules ms ;;; k)%rust w Q.
Proof.
  intros Hw Hk. apply ends_then. eapply ends_destroy; [|exact Hw|]; [done|]. intros w1 Hw1 _. clear Hw w. rename w1 into w, Hw1 into Hw. cbn [next]. apply ends_then.
  assert (Hl : ends (if owned_layout then run (vk_destroy KPipelineLayout layout) else mret tt) w
    (fun (o : outcome D3d12Error unit) w' => o = Ok tt /\ working (map (pair KShaderModule) ms ++ own) rest u0 (usage w'))).
  { destruct owned_layout; cbn [app] in Hw; [|by apply ends_ret]. eapply ends_destroy; [|exact Hw|]; done. }
  eapply ends_mono; [exact Hl|]. clear Hw Hl w. intros o w [-> Hw]. cbn [next]. apply ends_then.
  eapply ends_mono; [by apply destroy_modules_spec|]. intros o w' [-> Hw']. cbn [next]. by apply Hk.
Qed.

Lemma drop_pipeline_spec own rest u0 p (w : W) : working (owned_pipeline p ++ own) rest u0 (usage w) ->
  ends (drop_pipeline_state p) w (fun o w' => o = Ok tt /\ working own rest u0 (usage w')).
Proof.
  intros Hw. unfold drop_pipeline_state, owned_pipeline in *. cbn [app] in Hw. rewrite <- app_assoc in Hw.
  apply ends_then. eapply ends_destroy; [|exact Hw|]; [done|]. intros w1 Hw1 _. clear Hw w. rename w1 into w, Hw1 into Hw. cbn [next].
  assert (H1 := teardown_spec own rest u0 (pso_render_pass p) (pso_layout p) (owns_layout p) (pso_modules p) (mret tt) w
    (fun o w' => o = Ok tt /\ working own rest u0 (usage w')) Hw (fun w' H => conj eq_refl H)).
  unfold ends in *. unfold mbind, mret in *. destruct (run (vk_destroy KRenderPass (pso_render_pass p)) w) as [[] w1]; try done.
  destruct ((if owns_layout p then run (vk_destroy KPipelineLayout (pso_layout p)) else fun s => (Ok tt, s)) w1) as [[] w2]; try done.
  destruct (destroy_modules (pso_modules p) w2) as [[[]| | |] w3]; done.
Qed.

Lemma create_pipeline_spec own rest u0 d (w : W) : working own rest u0 (usage w) ->
  (forall l, root_signature d = Some l -> (KPipelineLayout, l) ∈ own ++ rest) ->
  ends (create_pipeline_state d) w (leaves own rest u0 owned_pipeline (fun p _ => owns_layout p = match root_signature d with Some _ => false | None => true end)).
Proof.
  intros Hw Hroot. unfold create_pipeline_state. apply ends_then. eapply ends_new; [exact Hw|done| |].
  2: { intros e w' Eu. exists []. by rewrite Eu. }
  intros rp w1 _ _ Hw1 _. clear Hw w. rename w1 into w, Hw1 into Hw. cbn [next kind_of] in *. apply ends_then.
  eapply ends_mono; [by apply create_stage_spec|]. clear Hw w. intros [vs|e| |] w; cbn [leaves next]; try done.
  2: { intros [lost Hw]. exists (lost ++ [(KRenderPass, rp)]). by rewrite <- app_assoc. }
  intros [Hw _]. apply ends_then. eapply ends_mono; [by apply create_stage_spec|]. clear Hw w. intros [ps|e| |] w; cbn [leaves next]; try done.
  2: { intros [lost Hw]. exists (lost ++ stage_modules vs ++ [(KRenderPass, rp)]). by rewrite <- !app_assoc. }
  intros [Hw _]. apply ends_then. set (modules := map snd (vs ++ ps)).
  assert (Hm : Permutation (stage_modules ps ++ stage_modules vs) (map (pair KShaderModule) modules)).
  { unfold modules. rewrite <- stage_modules_snd. unfold stage_modules. rewrite map_app. apply Permutation_app_comm. }
  assert (Hl : ends (match root_signature d with Some provided => mret (provided, false) | None => let! layout := try vk_err (vk_create PipelineLayoutInfo) in mret (layout, true) end)%rust w
    (fun (o : outcome D3d12Error (Z * bool)) w' => match o with
      | Ok (layout, o) => working ((KRenderPass, rp) :: (if o then [(KPipelineLayout, layout)] else []) ++ map (pair KShaderModule) modules ++ own) rest u0 (usage w') /\
          (KPipelineLayout, layout) ∈ live (usage w') /\ o = match root_signature d with Some _ => false | None => true end
      | Err _ => exists lost, working (lost ++ own) rest u0 (usage w') | _ => False end)).
  { assert (Hw2 : working ((KRenderPass, rp) :: map (pair KShaderModule) modules ++ own) rest u0 (usage w)).
    { eapply working_perm; [|exact Hw]. rewrite app_assoc, Hm. symmetry. apply Permutation_middle. }
    destruct (root_signature d) as [l|] eqn:Er.
    - apply ends_ret. split; [exact Hw2|]. split; [|done]. apply (h_live _ _ (k_holds _ _ _ _ Hw2)). specialize (Hroot l eq_refl).
      rewrite elem_of_app in Hroot |- *. rewrite elem_of_cons, elem_of_app. tauto.
    - apply ends_then. eapply ends_new; [exact Hw2|done| |].
      + intros l w' _ _ Hw' _. cbn [next kind_of] in *. apply ends_ret. cbn [app]. assert (Hw3 := working_perm _ _ _ _ _ (Permutation_swap _ _ _) Hw').
        split; [exact Hw3|]. split; [|done]. eapply own_live; [exact Hw3|]. right. by left.
      + intros e w' Eu. cbn [next]. exists ((KRenderPass, rp) :: map (pair KShaderModule) modules). by rewrite Eu. }
  eapply ends_mono; [exact Hl|]. clear Hw Hl w. intros [[layout o]|e| |] w; cbn [leaves next]; try done. intros (Hw & Hlive & Ho).
  assert (Huses : all_live (pipeline_uses (pipeline_info d (vs ++ ps) layout rp)) (usage w) = true).
  { apply all_live_true. cbn [pipeline_uses pipeline_info pi_layout pi_render_pass pi_stages]. apply Forall_cons. split; [done|]. apply Forall_forall. intros x Hx.
    eapply own_live; [exact Hw|]. apply elem_of_cons in Hx as [->|Hx]; [by left|]. right. apply elem_of_app. right. apply elem_of_app. left.
    unfold modules. rewrite <- stage_modules_snd. exact Hx. }
  pose proof (ends_pipelines vk_err (pipeline_info d (vs ++ ps) layout rp) w
    (fun r w' => match r with
      | Ok hs => exists p, hs = [p] /\ working ((KPipeline, p) :: (KRenderPass, rp) :: (if o then [(KPipelineLayout, layout)] else []) ++ map (pair KShaderModule) modules ++ own) rest u0 (usage w')
      | Err _ => usage w' = usage w | _ => False end) (working_unbroken _ _ _ _ Hw) Huses) as Hp.
  unfold ends, try in Hp |- *. destruct (vk_create_pipelines _ w) as [[hs|e] w'].
  - destruct Hp as (p & -> & Hp); [|done|].
    + intros h w2 _ Hn Eu. exists h. split; [done|]. rewrite Eu. eapply working_new; [|exact Hw|exact Hn|..]; done.
    + cbn [fst snd leaves owned_pipeline pso_pipeline pso_render_pass owns_layout pso_layout pso_modules app]. split; [|done]. by rewrite <- app_assoc.
  - cbn [fst snd] in Hp. assert (Eu : usage w' = usage w).
    { apply Hp; [|done]. intros h w2 _ Hn Eu. exists h. split; [done|]. rewrite Eu. eapply working_new; [|exact Hw|exact Hn|..]; done. }
    rewrite <- Eu in Hw. apply (teardown_spec own rest u0 rp layout o modules (mfail (vk_err e)) w' (leaves own rest u0 owned_pipeline _) Hw).
    intros w2 Hw2. apply ends_fail. by exists [].
Qed.
(** ** Command lists *)

(** An open list whose buffer holds the commands [cs]. *)
Definition opened (u : Usage) (l : GraphicsCommandList) (cs : list command) : Prop :=
  closed l = false /\ recording l = true /\ inside_pass cs = false /\
  exists one, buffers u !! command_buffer l = Some (mkCmdBuf (allocator l) CbRecording one cs).

Lemma opened_ok u l cs : opened u l cs -> list_ok u l.
Proof.
  intros (Hc & Hr & Hi & one & Hb). split; [by rewrite Hc, Hr|]. eexists. split; [exact Hb|]. cbn. split_and!; [done|done|by left|]. by rewrite Hc.
Qed.

Lemma open_list u l : list_ok u l -> intact u l -> closed l = false -> exists cs, opened u l cs.
Proof.
  intros (Hr & cb & Hb & Hp & Hi & _) Hint Hc. specialize (Hint Hc). unfold cb_is in Hint. rewrite Hb in Hint. apply bool_decide_eq_true in Hint.
  exists (cb_commands cb). split; [done|]. split; [by rewrite Hr, Hc|]. split; [done|]. exists (cb_one_time cb). rewrite Hb. destruct cb. cbn in *. by subst.
Qed.

Lemma ends_require_open (w : W) u l cs (Q : outcome D3d12Error unit -> W * GraphicsCommandList -> Prop) : opened u l cs -> Q (Ok tt) (w, l) -> ends require_recording (w, l) Q.
Proof. intros (Hc & Hr & _) HQ. unfold require_recording. apply ends_then, ends_self. cbn [next]. rewrite Hc, Hr. by apply ends_ret. Qed.

Lemma ends_require_closed (w : W) l (Q : outcome D3d12Error unit -> W * GraphicsCommandList -> Prop) : closed l = true ->
  (forall e, Q (Err e) (w, l)) -> ends require_recording (w, l) Q.
Proof. intros Hc HQ. unfold require_recording. apply ends_then, ends_self. cbn [next]. rewrite Hc. by apply ends_fail. Qed.

(** Recording leaves the objects and the queue alone. *)
Definition unchanged (u u' : Usage) : Prop := live u' = live u /\ executed u' = executed u.

Lemma unchanged_refl u : unchanged u u.
Proof. done. Qed.

Lemma unchanged_trans u1 u2 u3 : unchanged u1 u2 -> unchanged u2 u3 -> unchanged u1 u3.
Proof. intros [A1 B1] [A2 B2]. split; congruence. Qed.

(** One more command, inside a pass or outside. *)
Definition filling (u : Usage) (l : GraphicsCommandList) (cs : list command) : Prop :=
  exists one, buffers u !! command_buffer l = Some (mkCmdBuf (allocator l) CbRecording one cs).

Lemma ends_record own rest u0 (w : W) l cs c (Q : outcome D3d12Error unit -> W * GraphicsCommandList -> Prop) :
  working own rest u0 (usage w) -> (KCommandBuffer, command_buffer l) ∈ own -> filling (usage w) l cs ->
  Forall (fun o => o ∈ live (usage w)) (command_uses c) -> placed cs c = true ->
  (forall w', working own rest u0 (usage w') -> filling (usage w') l (cs ++ [c]) -> unchanged (usage w) (usage w') -> Q (Ok tt) (w', l)) ->
  ends (record c) (w, l) Q.
Proof.
  intros Hw Ho [one Hb] Hl Hp HQ. unfold record. apply ends_then, ends_self. cbn [next]. apply ends_driver.
  eapply ends_cmd; [exact Hw|exact Ho|exact Hb|done|done|done|]. intros w' Hw' Eu. apply HQ; [done| |by rewrite Eu].
  exists one. rewrite Eu. cbn. by rewrite lookup_insert_eq.
Qed.

Lemma close_spec own rest u0 (w : W) l cs : working own rest u0 (usage w) -> (KCommandBuffer, command_buffer l) ∈ own -> opened (usage w) l cs ->
  ends close (w, l) (fun r '(w', l') => working own rest u0 (usage w') /\ list_ok (usage w') l' /\ unchanged (usage w) (usage w') /\
    match r with
    | Ok _ => l' = set_closed l /\ exists one, usage w' = with_buffers <[command_buffer l := mkCmdBuf (allocator l) CbExecutable one cs]> (usage w)
    | Err _ => l' = l | _ => False end).
Proof.
  intros Hw Ho (Hc & Hr & Hi & one & Hb). unfold close. apply ends_then, ends_self. cbn [next]. rewrite Hc, Hr. cbn [negb]. apply ends_then, ends_driver.
  eapply ends_end; [exact Hw|exact Ho|exact Hb|done|exact Hi| |].
  - intros w' Hw' Eu. cbn [next]. apply ends_set_self. split; [done|]. rewrite Eu. split; [|split; [done|split; [done|by exists one]]].
    split; [done|]. cbn. rewrite lookup_insert_eq. eexists. split; [reflexivity|]. cbn. done.
  - intros e w' Hw' Eu. cbn [next]. split; [done|]. split; [|by rewrite Eu]. rewrite Eu. split; [by rewrite Hc, Hr|]. cbn. rewrite lookup_insert_eq.
    eexists. split; [reflexivity|]. cbn. split_and!; [done|done|by right|done].
Qed.

Lemma close_closed (w : W) l : closed l = true -> close (w, l) = (Ok tt, (w, l)).
Proof. intros Hc. unfold close, self, mbind. by rewrite Hc. Qed.

(** What a recording method does to an open list: it adds [new] and changes the receiver by [f]. *)
Definition records (own rest : list object) (u0 u : Usage) (l : GraphicsCommandList) (cs new : list command) (f : GraphicsCommandList -> GraphicsCommandList)
    (r : outcome D3d12Error unit) (st : W * GraphicsCommandList) : Prop :=
  r = Ok tt /\ snd st = f l /\ working own rest u0 (usage (fst st)) /\ opened (usage (fst st)) (f l) (cs ++ new) /\ unchanged u (usage (fst st)).

Lemma opened_filling u l cs : opened u l cs -> filling u l cs.
Proof. by intros (_ & _ & _ & H). Qed.

Lemma filled u l cs' : closed l = false -> recording l = true -> inside_pass cs' = false -> filling u l cs' -> opened u l cs'.
Proof. done. Qed.

Lemma inside_app cs cs' : inside_pass (cs ++ cs') = fold_left (fun b c => match c with BeginRenderPass _ _ _ _ => true | EndRenderPass => false | _ => b end) cs' (inside_pass cs).
Proof. unfold inside_pass. by rewrite fold_left_app. Qed.

Lemma clear_spec own rest u0 (w : W) l cs heap handle color v image f e : working own rest u0 (usage w) -> (KCommandBuffer, command_buffer l) ∈ own ->
  opened (usage w) l cs -> descriptor heap handle = Ok (Rtv v image f e) -> (KImage, image) ∈ live (usage w) ->
  ends (clear_render_target_view heap handle color) (w, l)
    (records own rest u0 (usage w) l cs [barrier_to_dst image; ClearColorImage image LAYOUT_TRANSFER_DST_OPTIMAL color clear_range; barrier_to_color image] id).
Proof.
  intros Hw Ho Hl Hd Him. unfold clear_render_target_view. apply ends_then. eapply ends_require_open; [exact Hl|]. cbn [next]. rewrite Hd.
  apply ends_then. unfold ends, lift_outcome. cbn [fst snd next]. pose proof Hl as (Hc & Hr & Hi & _). apply opened_filling in Hl.
  apply ends_then. eapply ends_record; [exact Hw|exact Ho|exact Hl|by repeat constructor|by cbn; rewrite Hi|].
  clear Hl. intros w1 Hw1 Hl E1. cbn [next]. rewrite <- (proj1 E1) in Him.
  apply ends_then. eapply ends_record; [exact Hw1|exact Ho|exact Hl|by repeat constructor|by cbn; rewrite inside_app; cbn; rewrite Hi|].
  clear Hl. intros w2 Hw2 Hl E2. cbn [next]. rewrite <- (proj1 E2) in Him. rewrite <- app_assoc in Hl.
  eapply ends_record; [exact Hw2|exact Ho|exact Hl|by repeat constructor|by cbn; rewrite inside_app; cbn; rewrite Hi|].
  clear Hl. intros w3 Hw3 Hl E3. rewrite <- app_assoc in Hl. split; [done|]. split; [done|]. split; [exact Hw3|]. split.
  - apply filled; [done|done| |exact Hl]. rewrite inside_app. cbn. exact Hi.
  - eapply unchanged_trans; [exact E1|]. eapply unchanged_trans; [exact E2|exact E3].
Qed.

Lemma set_state_spec own rest u0 (w : W) l cs c (f : GraphicsCommandList -> GraphicsCommandList) : working own rest u0 (usage w) ->
  (KCommandBuffer, command_buffer l) ∈ own -> opened (usage w) l cs -> command_uses c = [] -> (forall cs, placed cs c = true) ->
  (forall b, (match c with BeginRenderPass _ _ _ _ => true | EndRenderPass => false | _ => b end) = b) ->
  command_buffer (f l) = command_buffer l -> allocator (f l) = allocator l -> closed (f l) = closed l -> recording (f l) = recording l ->
  ends (require_recording ;;; set_self f ;;; record c)%rust (w, l) (records own rest u0 (usage w) l cs [c] f).
Proof.
  intros Hw Ho Hl Hc Hp Hin E1 E2 E3 E4. apply ends_then. eapply ends_require_open; [exact Hl|]. cbn [next]. apply ends_then, ends_set_self. cbn [next].
  destruct Hl as (Hcl & Hr & Hi & one & Hb). eapply ends_record; [exact Hw|by rewrite E1|exists one; by rewrite E1, E2|by rewrite Hc|apply Hp|].
  intros w' Hw' Hf Eu. split; [done|]. split; [done|]. split; [exact Hw'|]. split; [|exact Eu]. apply filled; [by rewrite E3|by rewrite E4| |exact Hf].
  rewrite inside_app. cbn. by rewrite Hin.
Qed.

Definition barrier_commands (bs : list ResourceBarrier) : list command :=
  let '(gi, gb) := fold_left gather_barrier bs (mkGathered [] 0 0, mkGathered [] 0 0) in
  (match g_barriers gi with
   | [] => [] | ims => [PipelineBarrier (or_else (g_src gi) STAGE_TOP_OF_PIPE) (or_else (g_dst gi) STAGE_BOTTOM_OF_PIPE) [] ims] end) ++
  match g_barriers gb with
  | [] => [] | bbs => [PipelineBarrier (or_else (g_src gb) STAGE_TOP_OF_PIPE) (or_else (g_dst gb) STAGE_BOTTOM_OF_PIPE) bbs []] end.

(** The image or buffer of a resource. *)
Definition main_object (r : Resource) : object :=
  match inner r with InnerImage h _ _ _ _ => (KImage, h) | InnerBuffer h _ _ _ => (KBuffer, h) end.

Lemma gathered_objects bs : forall gi gb (P : object -> Prop), Forall (fun b => P (main_object (rb_resource b))) bs ->
  Forall (fun b => P (KImage, ib_image b)) (g_barriers gi) -> Forall (fun b => P (KBuffer, bb_buffer b)) (g_barriers gb) ->
  let '(gi', gb') := fold_left gather_barrier bs (gi, gb) in
  Forall (fun b => P (KImage, ib_image b)) (g_barriers gi') /\ Forall (fun b => P (KBuffer, bb_buffer b)) (g_barriers gb').
Proof.
  induction bs as [|b bs IH]; intros gi gb P Hb Hi Hg; cbn [fold_left]; [done|]. apply Forall_cons in Hb as [H1 Hb]. unfold main_object in H1.
  cbn [gather_barrier]. destruct (inner (rb_resource b)); apply IH; try done; cbn [gather g_barriers]; apply Forall_app; split; try done; by repeat constructor.
Qed.

Lemma barrier_spec own rest u0 (w : W) l cs bs : working own rest u0 (usage w) -> (KCommandBuffer, command_buffer l) ∈ own ->
  opened (usage w) l cs -> Forall (fun b => main_object (rb_resource b) ∈ live (usage w)) bs ->
  ends (resource_barrier bs) (w, l) (records own rest u0 (usage w) l cs (barrier_commands bs) id).
Proof.
  intros Hw Ho Hl Hb. unfold resource_barrier. apply ends_then. eapply ends_require_open; [exact Hl|]. cbn [next].
  destruct bs as [|b0 bs0].
  { apply ends_ret. split; [done|]. split; [done|]. split; [exact Hw|]. cbn [barrier_commands fold_left g_barriers app]. by rewrite app_nil_r. }
  set (bs := b0 :: bs0) in *. unfold barrier_commands.
  pose proof (gathered_objects bs (mkGathered [] 0 0) (mkGathered [] 0 0) (fun o => o ∈ live (usage w)) Hb (Forall_nil_2 _) (Forall_nil_2 _)) as Hg.
  destruct (fold_left gather_barrier bs _) as [gi gb]. destruct Hg as [Hgi Hgb]. pose proof Hl as (Hc & Hr & Hi & _). apply opened_filling in Hl.
  apply ends_then. set (first := match g_barriers gi with [] => [] | _ => _ end).
  assert (H1 : ends (match g_barriers gi with [] => mret tt | ims => record (PipelineBarrier (or_else (g_src gi) STAGE_TOP_OF_PIPE) (or_else (g_dst gi) STAGE_BOTTOM_OF_PIPE) [] ims) end) (w, l)
    (fun (r : outcome D3d12Error unit) '(w', l') => r = Ok tt /\ l' = l /\ working own rest u0 (usage w') /\ filling (usage w') l (cs ++ first) /\ unchanged (usage w) (usage w') /\ inside_pass (cs ++ first) = false)).
  { unfold first. destruct (g_barriers gi) as [|x xs] eqn:Eg; [apply ends_ret; rewrite app_nil_r; done|].
    eapply ends_record; [exact Hw|exact Ho|exact Hl| |by cbn; rewrite Hi|].
    - cbn [command_uses map app]. rewrite Forall_forall in Hgi. apply Forall_forall. intros o Hx. apply (list_elem_of_fmap (fun b => (KImage, ib_image b)) (x :: xs)) in Hx as (y & -> & Hy). by apply Hgi.
    - intros w' Hw' Hf El. split; [done|]. split; [done|]. split; [done|]. split; [done|]. split; [done|]. rewrite inside_app. by cbn. }
  eapply ends_mono; [exact H1|]. clear H1 Hl. intros r [w1 l1] (-> & -> & Hw1 & Hl & El & Hi1). cbn [next].
  destruct (g_barriers gb) as [|x xs] eqn:Eg.
  { apply ends_ret. split; [done|]. split; [done|]. split; [exact Hw1|]. split; [|exact El]. rewrite app_nil_r. by apply filled. }
  eapply ends_record; [exact Hw1|exact Ho|exact Hl| |by cbn; rewrite Hi1|].
  - rewrite (proj1 El). cbn [command_uses]. rewrite app_nil_r. rewrite Forall_forall in Hgb. apply Forall_forall. intros o Hx.
    apply (list_elem_of_fmap (fun b => (KBuffer, bb_buffer b)) (x :: xs)) in Hx as (y & -> & Hy). by apply Hgb.
  - intros w' Hw' Hf E2. split; [done|]. split; [done|]. split; [exact Hw'|]. split; [|by eapply unchanged_trans]. rewrite app_assoc. apply filled; [done|done| |exact Hf]. rewrite inside_app. by cbn.
Qed.
(** ** Drawing *)

Definition draw_commands (t : BoundTarget) (p : BoundPipeline) (framebuffer a b c d : Z) : list command :=
  [BeginRenderPass (bp_render_pass p) framebuffer (mkRect2D 0 0 (bt_extent t)) [0; 0; 0; 0]; BindPipeline (bp_pipeline p);
   Draw a b c d; EndRenderPass].

Lemma spoil_used o cb : cb_state cb = CbRecording -> cb_uses o cb = true -> spoil o cb = set_state CbInvalid cb.
Proof. intros E Hu. unfold spoil. by rewrite E, Hu. Qed.

(** The framebuffer of a draw is gone before the buffer is submitted: the buffer is spoiled. *)
Lemma draw_spec own rest u0 (w : W) l cs t p a b c d : working own rest u0 (usage w) -> (KCommandBuffer, command_buffer l) ∈ own ->
  opened (usage w) l cs -> target l = Some t -> pipeline l = Some p ->
  (KImageView, bt_view t) ∈ live (usage w) -> (KRenderPass, bp_render_pass p) ∈ live (usage w) -> (KPipeline, bp_pipeline p) ∈ live (usage w) ->
  ends (draw_instanced a b c d) (w, l) (fun r '(w', l') => l' = l /\ working own rest u0 (usage w') /\ list_ok (usage w') l /\
    match r with
    | Ok _ => exists f one, buffers (usage w') !! command_buffer l = Some (mkCmdBuf (allocator l) CbInvalid one (cs ++ draw_commands t p f a b c d))
    | Err _ => usage w' = usage w | _ => False end).
Proof.
  intros Hw Ho Hl Ht Hp Hv Hrp Hpl. pose proof (opened_ok _ _ _ Hl) as Hok0. unfold draw_instanced. apply ends_then. eapply ends_require_open; [exact Hl|]. cbn [next].
  apply ends_then, ends_self. cbn [next]. rewrite Ht, Hp. apply ends_then, ends_driver.
  eapply ends_new; [exact Hw|unfold info_ok; rewrite andb_true_r; apply all_live_true; by repeat constructor| |].
  2: { intros e w' Eu. cbn [next]. rewrite Eu. done. }
  intros f w1 _ Hfresh Hw1 Eu. cbn [next kind_of] in *. destruct Hl as (Hc & Hr & Hi & one & Hb).
  assert (Hf1 : filling (usage w1) l cs) by (exists one; by rewrite Eu, created_buffers).
  assert (Hlive1 : forall o, o ∈ live (usage w) -> o ∈ live (usage w1)) by (intros o Hx; rewrite Eu, created_live; apply elem_of_union; by right).
  assert (Hfl : (KFramebuffer, f) ∈ live (usage w1)) by (eapply own_live; [exact Hw1|by left]).
  assert (Ho1 : (KCommandBuffer, command_buffer l) ∈ (KFramebuffer, f) :: own) by (by right).
  apply ends_then. eapply ends_record; [exact Hw1|exact Ho1|exact Hf1|by repeat constructor; auto|by cbn; rewrite Hi|].
  intros w2 Hw2 Hf2 E2. cbn [next]. apply ends_then. eapply ends_record; [exact Hw2|exact Ho1|exact Hf2|rewrite (proj1 E2); by repeat constructor; auto|done|].
  intros w3 Hw3 Hf3 E3. cbn [next]. apply ends_then. eapply ends_record; [exact Hw3|exact Ho1|exact Hf3|constructor| |].
  { cbn [placed]. rewrite !inside_app, !existsb_app. cbn. by rewrite orb_true_r. }
  intros w4 Hw4 Hf4 E4. cbn [next]. apply ends_then. eapply ends_record; [exact Hw4|exact Ho1|exact Hf4|constructor|by cbn [placed]; rewrite !inside_app|].
  intros w5 Hw5 Hf5 E5. cbn [next]. apply ends_driver. eapply ends_destroy; [|exact Hw5|]; [done|]. intros w6 Hw6 E6. split; [done|]. split; [exact Hw6|].
  destruct Hf5 as [one' Hb5].
  assert (Hb6 : buffers (usage w6) !! command_buffer l = Some (mkCmdBuf (allocator l) CbInvalid one' (cs ++ draw_commands t p f a b c d))).
  { rewrite E6, destroyed_buffers, lookup_fmap, Hb5, <- !app_assoc. cbn [fmap option_fmap option_map]. rewrite spoil_used; [done|done|].
    unfold cb_uses. cbn [cb_commands]. apply existsb_exists. eexists. split; [apply in_app_iff; right; left; reflexivity|]. cbn [command_uses existsb].
    apply orb_true_iff. right. apply orb_true_iff. left. by apply bool_decide_eq_true. }
  split; [|by exists f, one']. split; [by rewrite Hc, Hr|]. eexists. split; [exact Hb6|]. cbn [cb_pool cb_commands cb_state]. split_and!; [done| |by right|by rewrite Hc].
  by rewrite inside_app.
Qed.

(** ** Lists come and go *)

Lemma allocate_buffer_spec own rest u0 pool (w : W) (Q : outcome D3d12Error Z -> W -> Prop) : working own rest u0 (usage w) -> (KCommandPool, pool) ∈ live (usage w) ->
  (forall h w', working ((KCommandBuffer, h) :: own) rest u0 (usage w') -> buffers (usage w') !! h = Some (mkCmdBuf pool CbInitial false []) ->
     live (usage w') = {[(KCommandBuffer, h)]} ∪ live (usage w) -> Q (Ok h) w') ->
  (forall e w', usage w' = usage w -> Q (Err e) w') -> ends (allocate_buffer pool) w Q.
Proof.
  intros Hw Hp H1 H2. unfold allocate_buffer. apply ends_then. apply ends_allocate_one; [by eapply working_unbroken|done| |].
  - intros h w' _ Hn _ Eu. cbn [next last]. apply ends_ret. apply H1; rewrite Eu; [by apply working_allocated|cbn; by rewrite lookup_insert_eq|done].
  - intros e w' Eu. cbn [next]. by apply H2.
Qed.

Lemma begin_opened u pool h : buffers u !! h = Some (mkCmdBuf pool CbInitial false []) ->
  opened (with_buffers (alter (fun cb => mkCmdBuf (cb_pool cb) CbRecording true []) h) u) (mkList pool h None None None None true false) [].
Proof. intros Hb. split; [done|]. split; [done|]. split; [done|]. exists true. cbn. by rewrite lookup_alter_eq, Hb. Qed.

Lemma create_list_spec own rest u0 pool t (w : W) : working own rest u0 (usage w) -> (KCommandPool, pool) ∈ live (usage w) ->
  ends (create_command_list pool t) w (leaves own rest u0 (fun l => [(KCommandBuffer, command_buffer l)]) (fun l u => opened u l [] /\ allocator l = pool)).
Proof.
  intros Hw Hp. unfold create_command_list. apply ends_then. eapply allocate_buffer_spec; [exact Hw|exact Hp| |].
  - intros h w' Hw' Hb _. cbn [next]. apply ends_then. eapply ends_begin; [exact Hw'|by left|exact Hb|done| |].
    + intros w2 Hw2 Eu. cbn [next]. apply ends_ret. split; [exact Hw2|]. split; [|done]. rewrite Eu. by apply begin_opened.
    + intros e w2 Eu. cbn [next]. exists [(KCommandBuffer, h)]. by rewrite Eu.
  - intros e w' Eu. cbn [next]. exists []. by rewrite Eu.
Qed.

Lemma drop_list_spec own rest u0 (w : W) l : working ((KCommandBuffer, command_buffer l) :: own) rest u0 (usage w) -> list_ok (usage w) l -> intact (usage w) l ->
  ends (drop_list l) w (fun r w' => r = Ok tt /\ working own rest u0 (usage w')).
Proof.
  intros Hw (Hr & cb & Hb & Hp & Hi & _) Hint. unfold drop_list. apply ends_then.
  assert (H1 : ends (if recording l && negb (closed l) then run (fun w => snd (vk_end (command_buffer l) w)) else mret tt) w
    (fun (r : outcome D3d12Error unit) w' => r = Ok tt /\ working ((KCommandBuffer, command_buffer l) :: own) rest u0 (usage w') /\
       exists cb', buffers (usage w') !! command_buffer l = Some cb' /\ cb_pool cb' = allocator l)).
  { destruct (recording l && negb (closed l)) eqn:E; [|apply ends_ret; by eauto 6]. apply andb_true_iff in E as [_ E%negb_true_iff].
    specialize (Hint E). unfold cb_is in Hint. rewrite Hb in Hint. apply bool_decide_eq_true in Hint. apply ends_run.
    pose proof (ends_end vk_err ((KCommandBuffer, command_buffer l) :: own) rest u0 (command_buffer l) cb w
      (fun _ w' => working ((KCommandBuffer, command_buffer l) :: own) rest u0 (usage w') /\ exists cb', buffers (usage w') !! command_buffer l = Some cb' /\ cb_pool cb' = allocator l)
      Hw ltac:(by left) Hb Hint Hi) as H. unfold ends, try in H. split; [done|].
    destruct (vk_end (command_buffer l) w) as [[[]|e] w']; cbn [fst snd] in H |- *; apply H; intros; try (split; [done|]);
      match goal with Eu : usage _ = _ |- _ => rewrite Eu; cbn; rewrite lookup_insert_eq; eexists; split; [reflexivity|exact Hp] end. }
  eapply ends_mono; [exact H1|]. intros r w' (-> & Hw' & cb' & Hb' & Hp'). cbn [next]. eapply ends_free; [exact Hw'|exact Hb'|done|]. done.
Qed.

(** After a reset that fails the list may keep the handle of a freed buffer. *)
Lemma reset_spec own own2 rest (R : list object -> Prop) u0 drop_old pool (w : W) l : working ((KCommandBuffer, command_buffer l) :: own) rest u0 (usage w) -> list_ok (usage w) l ->
  (forall w1, working own rest u0 (usage w1) -> buffers (usage w1) = delete (command_buffer l) (buffers (usage w)) ->
    ends drop_old w1 (fun r w' => r = Ok tt /\ (KCommandPool, pool) ∈ live (usage w') /\
      (~ (KCommandBuffer, command_buffer l) ∈ live (usage w')) /\ exists rest2, R rest2 /\ working own2 rest2 u0 (usage w'))) ->
  ends (reset drop_old pool) (w, l) (fun r '(w', l') => allocator l' = pool /\ exists rest2, R rest2 /\
    match r with
    | Ok _ => working ((KCommandBuffer, command_buffer l') :: own2) rest2 u0 (usage w') /\ opened (usage w') l' []
    | Err _ => (command_buffer l' = command_buffer l /\ ~ (KCommandBuffer, command_buffer l) ∈ live (usage w') /\ working own2 rest2 u0 (usage w')) \/
        (working ((KCommandBuffer, command_buffer l') :: own2) rest2 u0 (usage w') /\ cb_is CbInitial (command_buffer l') (usage w') = true)
    | _ => False end).
Proof.
  intros Hw (Hr & cb & Hb & Hp & Hi & _) Hdrop. unfold reset. apply ends_then, ends_self. cbn [next]. apply ends_then, ends_driver.
  eapply ends_free; [exact Hw|exact Hb|exact Hp|]. intros w1 Hw1 _ Eb _. cbn [next]. apply ends_then, ends_set_self. cbn [next].
  apply ends_then, ends_driver. eapply ends_mono; [apply Hdrop; [exact Hw1|exact Eb]|]. intros r w2 (-> & Hpool & Hgone & rest2 & HR & Hw2). cbn [next].
  apply ends_then, ends_driver. eapply allocate_buffer_spec; [exact Hw2|exact Hpool| |].
  - intros h w3 Hw3 Hb3 _. cbn [next]. apply ends_then, ends_set_self. cbn [next]. apply ends_then, ends_driver.
    eapply ends_begin; [exact Hw3|by left|exact Hb3|done| |].
    + intros w4 Hw4 Eu. cbn [next]. apply ends_set_self. split; [done|]. exists rest2. split; [done|]. split; [exact Hw4|]. rewrite Eu. by apply begin_opened.
    + intros e w4 Eu. cbn [next]. split; [done|]. exists rest2. split; [done|]. right. rewrite Eu. split; [exact Hw3|]. unfold cb_is. cbn [command_buffer set_command_buffer]. rewrite Hb3. by apply bool_decide_eq_true.
  - intros e w3 Eu. cbn [next]. split; [done|]. exists rest2. split; [done|]. left. by rewrite Eu.
Qed.

(** ** The queue *)

Lemma closed_buffers_spec ls : match closed_buffers ls with
  | Ok hs => hs = map command_buffer ls /\ Forall (fun l => closed l = true) ls
  | Err _ => ~ Forall (fun l => closed l = true) ls | _ => False end.
Proof.
  induction ls as [|l ls IH]; [by split|]. cbn [closed_buffers]. destruct (closed l) eqn:E; cbn [negb]; [|intros [H _]%Forall_cons; congruence].
  destruct (closed_buffers ls) as [hs|e| |]; cbn [obind]; [|by intros [_ H]%Forall_cons|done|done]. destruct IH as [-> IH]. split; [done|by constructor].
Qed.

Lemma destroy_executed k h u : executed (u_destroy k h u) = executed u.
Proof. unfold u_destroy, rule. destruct (_ && _); [|done]. destruct (bool_decide (k = KMemory)); [done|]. by destruct (bool_decide (k = KCommandPool)). Qed.

(** The usage is as before, up to the fence that came and went. *)
Definition same_but_queue (u u' : Usage) : Prop :=
  (forall o, o ∈ bound u' <-> o ∈ bound u) /\ mapped u' = mapped u /\ (forall o, o ∈ live u' <-> o ∈ live u).

Lemma execute_spec all (w : W) ls : holds all (usage w) -> NoDup (map command_buffer ls) ->
  (forall l, l ∈ ls -> closed l = true -> cb_is CbExecutable (command_buffer l) (usage w) = true) ->
  ends (execute_command_lists ls) w (fun r w' =>
    match r with
    | Ok _ => Forall (fun l => closed l = true) ls /\ holds all (usage w') /\ same_but_queue (usage w) (usage w') /\
        buffers (usage w') = foldr (alter done_with) (buffers (usage w)) (map command_buffer ls) /\
        executed (usage w') = executed (usage w) ++ map (commands_of (usage w)) (map command_buffer ls)
    | Err _ => (holds all (usage w') /\ same_but_queue (usage w) (usage w') /\ buffers (usage w') = buffers (usage w) /\ executed (usage w') = executed (usage w)) \/
        (ls <> [] /\ Forall (fun l => closed l = true) ls /\ executed (usage w') = executed (usage w) ++ map (commands_of (usage w)) (map command_buffer ls))
    | _ => False end).
Proof.
  intros Hh Hn He. destruct ls as [|l0 ls0]; [apply ends_ret; cbn; rewrite app_nil_r; by split; [constructor|]|]. set (ls := l0 :: ls0) in *.
  change (execute_command_lists ls) with (let! command_buffers := lift_outcome (closed_buffers ls) in
      let! fence := try vk_err (vk_create FenceInfo) in
      (fun w : W => match vk_submit command_buffers fence w with
        | (inr e, w) => (Err (vk_err e), vk_destroy KFence fence w)
        | (inl _, w) => let '(wait, w) := vk_wait fence w in (match wait with inl _ => Ok tt | inr e => Err (vk_err e) end, vk_destroy KFence fence w) end))%rust.
  apply ends_then. unfold ends at 1, lift_outcome. cbn [fst snd]. pose proof (closed_buffers_spec ls) as Hc.
  destruct (closed_buffers ls) as [hs|e| |]; cbn [next]; [|left; done|done|done]. destruct Hc as [-> Hc].
  apply ends_then. eapply (ends_new vk_err [] all); [by apply working_start|done| |].
  2: { intros e w' Eu. cbn [next]. left. rewrite Eu. done. }
  intros f w1 _ Hfresh Hw1 Eu. cbn [next kind_of] in *. pose proof (k_holds _ _ _ _ Hw1) as Hh1. cbn [app] in Hh1.
  assert (Hu1 : unbroken w1) by (by eapply working_unbroken).
  assert (Hex : Forall (fun h => cb_is CbExecutable h (usage w1) = true) (map command_buffer ls)).
  { apply Forall_forall. intros h (l & -> & Hl)%list_elem_of_fmap. rewrite Eu. unfold cb_is. rewrite created_buffers. rewrite Forall_forall in Hc. by apply He, Hc. }
  assert (Hback : forall u, (forall o, o ∈ live u <-> o ∈ live (usage w1) ∖ {[(KFence, f)]}) -> (forall o, o ∈ bound u <-> o ∈ bound (usage w1) ∖ {[(KFence, f)]}) ->
     mapped u = mapped (usage w1) -> same_but_queue (usage w) u).
  { intros u El Eb Em. split_and!.
    - intros o. rewrite Eb, Eu, created_bound, elem_of_difference, elem_of_singleton. split; [tauto|]. intros Ho. split; [done|]. intros ->.
      by apply Hfresh, (h_bound _ _ Hh).
    - by rewrite Em, Eu, created_mapped.
    - intros o. rewrite El, Eu, created_live, elem_of_difference, elem_of_union, !elem_of_singleton. cbn [kind_of]. split; [tauto|]. intros Ho. split; [by right|]. by intros ->. }
  unfold ends. destruct (vk_submit (map command_buffer ls) f w1) as [[[]|e] w2] eqn:Es; cbn [fst snd].
  - destruct (queue_ran all f (map command_buffer ls) (usage w1) Hh1 Hn Hex) as (B1 & B2 & Hfin & [R1 R2 R3 R4 R5]).
    pose proof (submit_ok_law _ _ _ _ Hu1 Es) as E2. rewrite <- E2 in *. destruct (vk_wait f w2) as [[[]|e] w3] eqn:Ew; cbn [fst snd].
    + pose proof (wait_ok _ _ _ B1 Ew) as E3. rewrite <- E3 in *. rewrite destroy_law by exact B2. split; [exact Hc|]. split; [done|]. split; [apply Hback; [by rewrite R1|by rewrite R2|done]|].
      rewrite R4, R5, Eu, created_buffers, created_executed. split; [done|]. by do 2 f_equal.
    + right. split; [done|]. split; [exact Hc|]. assert (Hf : (KFence, f) ∈ live (usage w2)).
      { rewrite E2. unfold u_submit. rewrite rule_true by (by eapply submit_rule). cbn. apply (h_live _ _ Hh1). by left. }
      assert (E3 : usage w3 = usage w2) by (rewrite (wait_failed _ _ _ _ B1 Ew); by apply rule_same, bool_decide_eq_true).
      rewrite destroy_law by (unfold unbroken; by rewrite E3). rewrite destroy_executed, E3, E2.
      unfold u_submit. rewrite rule_true by (by eapply submit_rule). cbn. by rewrite Eu.
  - left. pose proof (submit_failed _ _ _ _ _ Hu1 Es) as E2. rewrite rule_same in E2 by (by eapply submit_rule).
    rewrite <- E2 in Hh1. destruct (fence_gone all f (usage w2) Hh1) as (Hfin & R1 & R2 & R3 & R4 & R5).
    assert (Hu2 : unbroken w2) by (unfold unbroken; by rewrite E2). rewrite destroy_law by exact Hu2. split; [done|]. split.
    { apply Hback; [by rewrite R1, E2|by rewrite R2, E2|by rewrite R3, E2]. }
    by rewrite R4, R5, E2, Eu, created_buffers, created_executed.
Qed.
End Ops.
