(* ===== verification/D3d12Safe.v ===== *)
(** * Every call keeps the invariant of Direct3D 12

    Between calls every object owns its handles, which live, and nothing is destroyed
    twice ([sys_ok]). A call that the state of the driver allows ([allowed]) keeps this;
    it leaves the other objects alone, and spoils another list only by destroying what
    that list names ([frame]). Calls that succeed leave nothing behind. *)
From Stdlib Require Import ZArith Lia Ascii String.
From stdpp Require Import base list option gmap strings.
From S2P Require Import Prelude Vulkan VkOwn VkSmall Dxgi D3d12 D3d12Sys D3d12Own.
Local Open Scope rust_scope.
Local Open Scope Z_scope.
Set Warnings "-register-all".

(** ** The invariant *)

Definition owned_all (s : Objects) : list object := concat (map (fun p => owned (snd p)) (map_to_list s)).

(** Allocators are shared with the lists built from them, and are there as long as somebody holds them. *)
Definition arcs (s : Objects) : Prop :=
  (forall x l a, s !! x = Some (OList l a) -> exists held, s !! a = Some (OAllocator (allocator l) held)) /\
  (forall a pool, s !! a = Some (OAllocator pool false) -> shared s a = true).

(** [base]: objects of other users of the device; [lost]: those that failed calls left behind. *)
Record sys_core (base lost : list object) (u : Usage) (s : Objects) : Prop := {
  s_holds : holds (lost ++ base ++ owned_all s) u;
  s_objects x ob : s !! x = Some ob -> obj_ok u ob;
  s_base h : (KCommandBuffer, h) ∉ base
}.

Definition sys_ok (base lost : list object) (u : Usage) (s : Objects) : Prop := sys_core base lost u s /\ arcs s.

Lemma owned_all_insert s x ob : s !! x = None -> Permutation (owned_all (<[x := ob]> s)) (owned ob ++ owned_all s).
Proof. intros Hx. unfold owned_all. rewrite (map_to_list_insert s x ob Hx). done. Qed.

Lemma owned_all_take s x ob : s !! x = Some ob -> Permutation (owned_all s) (owned ob ++ owned_all (delete x s)).
Proof. intros Hx. rewrite <- (insert_delete_id s x ob Hx) at 1. apply owned_all_insert. by rewrite lookup_delete_eq. Qed.

Lemma owned_all_put s x ob : Permutation (owned_all (<[x := ob]> s)) (owned ob ++ owned_all (delete x s)).
Proof. rewrite <- insert_delete_eq. apply owned_all_insert. by rewrite lookup_delete_eq. Qed.

Lemma owned_all_elem s o : o ∈ owned_all s <-> exists x ob, s !! x = Some ob /\ o ∈ owned ob.
Proof.
  unfold owned_all. rewrite list_elem_of_In, in_concat. split.
  - intros (l & ([x ob] & <- & Hx)%in_map_iff & Ho). exists x, ob. split; [by apply elem_of_map_to_list, list_elem_of_In|by apply list_elem_of_In].
  - intros (x & ob & Hx & Ho). exists (owned ob). split; [|by apply list_elem_of_In]. apply in_map_iff. exists (x, ob). split; [done|].
    by apply list_elem_of_In, elem_of_map_to_list.
Qed.

Lemma owned_live base lost u s x ob o : sys_core base lost u s -> s !! x = Some ob -> o ∈ owned ob -> o ∈ live u.
Proof. intros Hs Hx Ho. apply (h_live _ _ (s_holds _ _ _ _ Hs)). rewrite !elem_of_app. right. right. apply owned_all_elem. eauto. Qed.

Lemma app_move (lost base os rest : list object) : Permutation (lost ++ base ++ os ++ rest) (os ++ lost ++ base ++ rest).
Proof. rewrite (Permutation_app_swap_app base os rest). apply Permutation_app_swap_app. Qed.

(** Taking an object out, and putting back what became of it. *)
Lemma take_out base lost u s x ob : sys_core base lost u s -> s !! x = Some ob -> working (owned ob) (lost ++ base ++ owned_all (delete x s)) u u.
Proof.
  intros Hs Hx. apply working_start. eapply holds_perm; [|exact (s_holds _ _ _ _ Hs)]. rewrite (owned_all_take _ _ _ Hx). apply app_move.
Qed.

Lemma take_none base lost u s : sys_core base lost u s -> working [] (lost ++ base ++ owned_all s) u u.
Proof. intros Hs. apply working_start. exact (s_holds _ _ _ _ Hs). Qed.

Lemma others_ok base lost u0 u s x own y ob : sys_core base lost u0 s -> working own (lost ++ base ++ owned_all (delete x s)) u0 u ->
  s !! y = Some ob -> y <> x -> obj_ok u ob.
Proof.
  intros Hs Hw Hy Hne. eapply obj_ok_same; [exact (s_objects _ _ _ _ Hs y ob Hy)|]. pose proof (k_same _ _ _ _ Hw) as Hk. rewrite Forall_forall in Hk |- *.
  intros o Ho. apply Hk. rewrite !elem_of_app. right. right. apply owned_all_elem. exists y, ob. by rewrite lookup_delete_ne.
Qed.

Lemma put_back base lost u0 u s x ob' extra : sys_core base lost u0 s -> working (extra ++ owned ob') (lost ++ base ++ owned_all (delete x s)) u0 u ->
  obj_ok u ob' -> sys_core base (extra ++ lost) u (<[x := ob']> s).
Proof.
  intros Hs Hw Ho. split; [|intros y ob|exact (s_base _ _ _ _ Hs)].
  - eapply holds_perm; [|exact (k_holds _ _ _ _ Hw)]. rewrite owned_all_put, <- !app_assoc. apply Permutation_app_head. symmetry. apply app_move.
  - rewrite lookup_insert_Some. intros [[<- <-]|[Hne Hy]]; [done|]. by eapply others_ok.
Qed.

Lemma put_away base lost u0 u s x extra : sys_core base lost u0 s -> working extra (lost ++ base ++ owned_all (delete x s)) u0 u ->
  sys_core base (extra ++ lost) u (delete x s).
Proof.
  intros Hs Hw. split; [|intros y ob|exact (s_base _ _ _ _ Hs)].
  - rewrite <- app_assoc. exact (k_holds _ _ _ _ Hw).
  - rewrite lookup_delete_Some. intros [Hne Hy]. by eapply others_ok.
Qed.

Lemma put_new base lost u0 u s x ob' extra : sys_core base lost u0 s -> s !! x = None -> working (extra ++ owned ob') (lost ++ base ++ owned_all s) u0 u ->
  obj_ok u ob' -> sys_core base (extra ++ lost) u (<[x := ob']> s).
Proof. intros Hs Hx Hw. rewrite <- (delete_id s x Hx) in Hw at 1. by apply put_back with u0. Qed.

Lemma put_lost base lost u0 u s extra : sys_core base lost u0 s -> working extra (lost ++ base ++ owned_all s) u0 u -> sys_core base (extra ++ lost) u s.
Proof.
  intros Hs Hw. split; [|intros y ob Hy|exact (s_base _ _ _ _ Hs)].
  - rewrite <- app_assoc. exact (k_holds _ _ _ _ Hw).
  - eapply obj_ok_same; [exact (s_objects _ _ _ _ Hs y ob Hy)|]. pose proof (k_same _ _ _ _ Hw) as Hk. rewrite Forall_forall in Hk |- *.
    intros o Ho. apply Hk. rewrite !elem_of_app. right. right. apply owned_all_elem. eauto.
Qed.

(** ** Shares of allocators *)

Lemma shared_spec s a : shared s a = true <-> exists x l, s !! x = Some (OList l a).
Proof.
  unfold shared. rewrite existsb_exists. split.
  - intros ([x ob] & Hin%list_elem_of_In%elem_of_map_to_list & Hu). destruct ob; try done. cbn in Hu. apply Z.eqb_eq in Hu as ->. eauto.
  - intros (x & l & Hx). exists (x, OList l a). split; [by apply list_elem_of_In, elem_of_map_to_list|]. by apply Z.eqb_eq.
Qed.

(** What [arcs] looks at. *)
Definition arc_view (ob : Object12) : option (Z * (bool + Z)) :=
  match ob with OAllocator pool held => Some (pool, inl held) | OList l a => Some (allocator l, inr a) | _ => None end.

Lemma arc_view_list ob p a : arc_view ob = Some (p, inr a) <-> exists l, ob = OList l a /\ allocator l = p.
Proof. destruct ob; cbn; split; try done; try (by intros (? & [=] & _)); [intros [= <- <-]; eauto|intros (l0 & [= <- <-] & <-); done]. Qed.

Lemma arc_view_allocator ob p held : arc_view ob = Some (p, inl held) <-> ob = OAllocator p held.
Proof. destruct ob; cbn; split; try done; intros [=]; subst; done. Qed.

(** The view of a whole program; [arcs] is a property of it. *)
Definition arc_map (s : Objects) : gmap Z (Z * (bool + Z)) := omap arc_view s.

Lemma arcs_view s : arcs s <->
  (forall x p a, arc_map s !! x = Some (p, inr a) -> exists held, arc_map s !! a = Some (p, inl held)) /\
  (forall a p, arc_map s !! a = Some (p, inl false) -> exists x q, arc_map s !! x = Some (q, inr a)).
Proof.
  unfold arcs, arc_map. split; intros [H1 H2]; split.
  - intros x p a. rewrite lookup_omap. intros (ob & Hx & (l & -> & <-)%arc_view_list)%bind_Some. destruct (H1 _ _ _ Hx) as [held Hh].
    exists held. rewrite lookup_omap, Hh. done.
  - intros a p. rewrite lookup_omap. intros (ob & Ha & ->%arc_view_allocator)%bind_Some. apply H2, shared_spec in Ha as (x & l & Hx).
    exists x, (allocator l). rewrite lookup_omap, Hx. done.
  - intros x l a Hx. destruct (H1 x (allocator l) a) as [held Hh]; [by rewrite lookup_omap, Hx|]. rewrite lookup_omap in Hh.
    apply bind_Some in Hh as (ob & Hh & ->%arc_view_allocator). by exists held.
  - intros a p Ha. apply shared_spec. destruct (H2 a p) as (x & q & Hx); [by rewrite lookup_omap, Ha|]. rewrite lookup_omap in Hx.
    apply bind_Some in Hx as (ob & Hx & (l & -> & _)%arc_view_list). eauto.
Qed.

Lemma arcs_same s s' : arc_map s' = arc_map s -> arcs s -> arcs s'.
Proof. rewrite !arcs_view. by intros ->. Qed.

Lemma arc_map_insert s x ob : arc_map (<[x := ob]> s) = match arc_view ob with Some v => <[x := v]> (arc_map s) | None => delete x (arc_map s) end.
Proof.
  unfold arc_map. apply map_eq. intros y. rewrite lookup_omap. destruct (decide (y = x)) as [->|Hne].
  - rewrite lookup_insert_eq. cbn. destruct (arc_view ob); [by rewrite lookup_insert_eq|by rewrite lookup_delete_eq].
  - rewrite lookup_insert_ne by done. destruct (arc_view ob); [rewrite lookup_insert_ne by done|rewrite lookup_delete_ne by done]; by rewrite lookup_omap.
Qed.

Lemma arc_map_delete s x : arc_map (delete x s) = delete x (arc_map s).
Proof.
  unfold arc_map. apply map_eq. intros y. rewrite lookup_omap. destruct (decide (y = x)) as [->|Hne]; [by rewrite !lookup_delete_eq|].
  rewrite !lookup_delete_ne by done. by rewrite lookup_omap.
Qed.

(** An object that is no allocator and no list comes, changes or goes. *)
Lemma arcs_put s x ob : (forall old, s !! x = Some old -> arc_view old = arc_view ob) -> (s !! x = None -> arc_view ob = None) -> arcs s -> arcs (<[x := ob]> s).
Proof.
  intros H1 H2. apply arcs_same. rewrite arc_map_insert. destruct (s !! x) as [old|] eqn:Ex.
  - specialize (H1 old eq_refl). destruct (arc_view ob) as [v|] eqn:Ev.
    + apply insert_id. unfold arc_map. by rewrite lookup_omap, Ex.
    + apply delete_id. unfold arc_map. by rewrite lookup_omap, Ex.
  - rewrite H2 by done. apply delete_id. unfold arc_map. by rewrite lookup_omap, Ex.
Qed.

Lemma arcs_away s x ob : s !! x = Some ob -> arc_view ob = None -> arcs s -> arcs (delete x s).
Proof. intros Hx Hv. apply arcs_same. rewrite arc_map_delete. apply delete_id. unfold arc_map. by rewrite lookup_omap, Hx. Qed.

Lemma arcs_new_allocator s x pool : s !! x = None -> arcs s -> arcs (<[x := OAllocator pool true]> s).
Proof.
  intros Hx. rewrite !arcs_view, arc_map_insert. cbn [arc_view]. intros [H1 H2]. assert (Hn : arc_map s !! x = None) by (unfold arc_map; by rewrite lookup_omap, Hx). split.
  - intros y p a. rewrite lookup_insert_Some. intros [[_ [=]]|[Hne Hy]]. destruct (H1 _ _ _ Hy) as [held Hh]. exists held.
    rewrite lookup_insert_ne; [done|]. intros <-. congruence.
  - intros a p. rewrite lookup_insert_Some. intros [[_ [=]]|[Hne Ha]]. destruct (H2 _ _ Ha) as (y & q & Hy). exists y, q.
    rewrite lookup_insert_ne; [done|]. intros <-. congruence.
Qed.

Lemma arcs_put_list s x l a held : (forall l' b, s !! x = Some (OList l' b) -> b = a \/ (exists p, s !! b = Some (OAllocator p true)) \/ shared (delete x s) b = true) ->
  (forall p h, s !! x <> Some (OAllocator p h)) ->
  s !! a = Some (OAllocator (allocator l) held) -> arcs s -> arcs (<[x := OList l a]> s).
Proof.
  intros Hold Hna Ha. rewrite !arcs_view, arc_map_insert. cbn [arc_view]. intros [H1 H2].
  assert (Hax : a <> x) by (intros ->; by apply (Hna (allocator l) held)).
  assert (Hma : arc_map s !! a = Some (allocator l, inl held)) by (unfold arc_map; by rewrite lookup_omap, Ha).
  assert (Hmx : forall p h, arc_map s !! x <> Some (p, inl h)).
  { intros p h. unfold arc_map. rewrite lookup_omap. intros (ob & Hx & ->%arc_view_allocator)%bind_Some. by apply (Hna p h). }
  split.
  - intros y p b. rewrite lookup_insert_Some. intros [[<- [= <- <-]]|[Hne Hy]].
    + exists held. by rewrite lookup_insert_ne.
    + destruct (H1 _ _ _ Hy) as [h Hh]. exists h. rewrite lookup_insert_ne; [done|]. intros <-. by apply (Hmx p h).
  - intros b p. rewrite lookup_insert_Some. intros [[_ [=]]|[Hne Hb]]. destruct (decide (b = a)) as [->|Hba].
    + exists x, (allocator l). by rewrite lookup_insert_eq.
    + destruct (H2 _ _ Hb) as (y & q & Hy). destruct (decide (y = x)) as [->|Hyx]; [|exists y, q; by rewrite lookup_insert_ne].
      unfold arc_map in Hy, Hb |- *. rewrite lookup_omap in Hy, Hb. apply bind_Some in Hy as (ob & Hx & (l' & -> & _)%arc_view_list).
      destruct (Hold _ _ Hx) as [->|[[p' Hp]|(y & l2 & [Hne2 Hy]%lookup_delete_Some)%shared_spec]]; [done|rewrite Hp in Hb; by injection Hb|].
      exists y, (allocator l2). rewrite lookup_insert_ne by done. by rewrite lookup_omap, Hy.
Qed.

(** The two halves of [arcs], the second up to one allocator. *)
Definition lists_served (s : Objects) : Prop := forall x l a, s !! x = Some (OList l a) -> exists held, s !! a = Some (OAllocator (allocator l) held).
Definition held_but (a : Z) (s : Objects) : Prop := forall b pool, b <> a -> s !! b = Some (OAllocator pool false) -> shared s b = true.

Lemma arcs_split s a : lists_served s -> held_but a s -> (forall pool, s !! a = Some (OAllocator pool false) -> shared s a = true) -> arcs s.
Proof. intros H1 H2 H3. split; [exact H1|]. intros b pool Hb. destruct (decide (b = a)) as [->|Hne]; [by eapply H3|by eapply H2]. Qed.

(** A list is taken away. *)
Lemma without_list s x l a : arcs s -> s !! x = Some (OList l a) -> lists_served (delete x s) /\ held_but a (delete x s).
Proof.
  intros [H1 H2] Hx. split.
  - intros y l2 b [Hne Hy]%lookup_delete_Some. destruct (H1 _ _ _ Hy) as [held Hh]. exists held. rewrite lookup_delete_ne; [done|]. intros <-. congruence.
  - intros b pool Hba [Hne Hb]%lookup_delete_Some. apply H2, shared_spec in Hb as (y & l2 & Hy). apply shared_spec. exists y, l2.
    rewrite lookup_delete_ne; [done|]. intros <-. congruence.
Qed.

(** The last share of an allocator goes. *)
Lemma without_allocator s a pool : lists_served s -> held_but a s -> s !! a = Some (OAllocator pool false) -> shared s a = false -> arcs (delete a s).
Proof.
  intros H1 H2 Ha Esh. assert (Hno : forall x l, s !! x <> Some (OList l a)).
  { intros x l Hx. assert (shared s a = true) by (apply shared_spec; eauto). congruence. }
  split.
  - intros x l b [Hne Hx]%lookup_delete_Some. destruct (H1 _ _ _ Hx) as [held Hh]. exists held. rewrite lookup_delete_ne; [done|]. intros ->. by apply (Hno x l).
  - intros b p [Hne Hb]%lookup_delete_Some. specialize (H2 b p ltac:(congruence) Hb). apply shared_spec in H2 as (x & l & Hx). apply shared_spec.
    exists x, l. rewrite lookup_delete_ne; [done|]. intros <-. congruence.
Qed.

(** ** Sharing at work *)

Lemma owner_unique base lost u s x y ob ob' o : sys_core base lost u s -> s !! x = Some ob -> s !! y = Some ob' -> o ∈ owned ob -> o ∈ owned ob' -> x = y.
Proof.
  intros Hs Hx Hy Ho Ho'. destruct (decide (y = x)) as [|Hne]; [done|]. exfalso. pose proof (h_nodup _ _ (k_holds _ _ _ _ (take_out _ _ _ _ _ _ Hs Hx))) as Hn.
  apply NoDup_app in Hn as (_ & Hn & _). apply (Hn o Ho). rewrite !elem_of_app. right. right. apply owned_all_elem. exists y, ob'. by rewrite lookup_delete_ne.
Qed.

Lemma owned_buffer ob h : (KCommandBuffer, h) ∈ owned ob -> exists l a, ob = OList l a /\ command_buffer l = h.
Proof.
  destruct ob as [r|hp|ly|p|pl hd|l a]; cbn [owned].
  - unfold owned_resource. destruct (inner r); by intros [[=]|[[=]|[]%not_elem_of_nil]%elem_of_cons]%elem_of_cons.
  - rewrite list_elem_of_In, in_concat. intros (vs & (d & <- & _)%in_map_iff & Hv). exfalso. destruct d as [v ? ? ?|v ? ?|v ?|]; cbn [view_of] in Hv; try done; destruct (v =? 0); cbn in Hv; destruct Hv as [[=]|[]] || done.
  - by intros [= <-]%list_elem_of_singleton.
  - unfold owned_pipeline. intros [[=]|[[=]|[Hx|Hx]%elem_of_app]%elem_of_cons]%elem_of_cons.
    + destruct (owns_layout p); [by apply list_elem_of_singleton in Hx|by apply elem_of_nil in Hx].
    + apply list_elem_of_fmap in Hx as (? & [=] & _).
  - by intros [= <-]%list_elem_of_singleton.
  - intros [= ->]%list_elem_of_singleton. eauto.
Qed.

(** ** What a call leaves alone *)

(** No handle of a resource, the resource [d] aside. *)
Definition foreign (s : Objects) (d : option Z) (o : object) : Prop :=
  forall z r, Some z <> d -> s !! z = Some (OResource r) -> o ∉ owned_resource r.

Definition no_allocator (ob : Object12) : Prop := forall pool held, ob <> OAllocator pool held.

(** A call on the object [x] that destroys no resource, [d] aside: the other objects
    are as before, allocators aside, and no command buffer of another list is spoiled
    unless it names something that is no resource or belongs to [d]. *)
Record frame (x d : option Z) (u0 : Usage) (s0 : Objects) (u : Usage) (s : Objects) : Prop := {
  f_objects y ob : Some y <> x -> no_allocator ob -> s !! y = Some ob <-> s0 !! y = Some ob;
  f_buffers y l a : Some y <> x -> s0 !! y = Some (OList l a) ->
    calm (foreign s0 d) (buffers u0 !! command_buffer l) (buffers u !! command_buffer l)
}.

Lemma frame_same x d u0 u s : buffers u = buffers u0 -> frame x d u0 s u s.
Proof. intros Eb. split; [done|]. intros y l a _ _. rewrite Eb. apply calm_refl. Qed.

Lemma frame_put x u0 u s ob : buffers u = buffers u0 -> frame (Some x) None u0 s u (<[x := ob]> s).
Proof.
  intros Eb. split; [intros y ob' Hne _; by rewrite lookup_insert_ne by congruence|]. intros y l a _ _. rewrite Eb. apply calm_refl.
Qed.

Lemma frame_of extra base u0 s0 u s s1 x d own : working own (extra ++ base ++ owned_all s1) u0 u ->
  (forall y ob, Some y <> x -> no_allocator ob -> s !! y = Some ob <-> s0 !! y = Some ob) ->
  (forall y ob, Some y <> x -> no_allocator ob -> s0 !! y = Some ob -> s1 !! y = Some ob) ->
  (forall z r, Some z = x -> s0 !! z = Some (OResource r) -> Some z = d) -> frame x d u0 s0 u s.
Proof.
  intros Hw Hs Hs1 Hx. split; [exact Hs|]. intros y l a Hne Hy. pose proof (k_same _ _ _ _ Hw) as Hk. rewrite Forall_forall in Hk.
  destruct (Hk (KCommandBuffer, command_buffer l)) as (_ & _ & Hc).
  { rewrite !elem_of_app. right. right. apply owned_all_elem. exists y, (OList l a). split; [by apply Hs1|by left]. }
  eapply calm_mono; [|by apply Hc]. cbn. intros o Ho z r Hz Hr Hin. apply Ho. rewrite !elem_of_app. right. right. apply owned_all_elem.
  exists z, (OResource r). split; [|done]. apply Hs1; [|done|done]. intros E. by apply Hz, (Hx z r).
Qed.

Lemma frame_after x u0 s0 u1 s1 u2 s2 : frame x x u0 s0 u1 s1 -> frame None None u1 s1 u2 s2 -> frame x x u0 s0 u2 s2.
Proof.
  intros [A1 B1] [A2 B2]. split.
  - intros y ob Hne Hob. rewrite A2 by done. by apply A1.
  - intros y l a Hne Hy. eapply calm_trans; [by eapply B1|]. eapply calm_mono; [|eapply B2; [done|by apply A1]].
    intros o Ho z r Hz Hr. apply (Ho z r); [done|]. by apply A1.
Qed.

Lemma delete_allocator (s : Objects) a pool held y ob : s !! a = Some (OAllocator pool held) -> no_allocator ob -> delete a s !! y = Some ob <-> s !! y = Some ob.
Proof.
  intros Ha Hob. rewrite lookup_delete_Some. split; [by intros [_ Hy]|]. intros Hy. split; [|exact Hy]. intros <-. rewrite Ha in Hy. injection Hy as Hy. by eapply Hob.
Qed.

Section Release.
Context `{HV : Vulkan W} `{HL : !VulkanLaws W}.

(** What a call leaves: the invariant, and [F]; and when it succeeds nothing new is lost. *)
Definition kept (base lost : list object) (F : outcome D3d12Error unit -> Usage -> Objects -> Prop) (r : outcome D3d12Error unit) (st : W * Objects) : Prop :=
  returns r /\ F r (usage (fst st)) (snd st) /\ exists lost', sys_ok base lost' (usage (fst st)) (snd st) /\ (r = Ok tt -> lost' ⊆ lost).

Lemma kept_mono base lost (F F' : outcome D3d12Error unit -> Usage -> Objects -> Prop) r (st : W * Objects) :
  kept base lost F r st -> (forall u s, F r u s -> F' r u s) -> kept base lost F' r st.
Proof. intros (H1 & H2 & H3) HF. split; [done|]. split; [by apply HF|done]. Qed.

(** A pool that no list uses goes with what failed calls left in it. *)
Lemma pool_drop_spec base lost (w : W) s a pool u0 own : working ((KCommandPool, pool) :: own) (lost ++ base ++ owned_all (delete a s)) u0 (usage w) ->
  (forall o, o ∈ own ++ base ++ owned_all (delete a s) -> ~ pool_buffers pool (usage w) o) ->
  exists lost', lost' ⊆ lost /\ working own (lost' ++ base ++ owned_all (delete a s)) u0 (usage (vk_destroy KCommandPool pool w)).
Proof.
  intros Hw Hno. exists (filter (fun o => ~ pool_buffers pool (usage w) o) lost). split; [intros o [_ Ho]%list_elem_of_filter; done|].
  rewrite destroy_law by (by eapply working_unbroken). by apply working_pool.
Qed.

(** The buffers of a pool are those of the lists that use its allocator. *)
Lemma pool_unused base lost (u : Usage) s a pool held own : sys_core base lost u s -> lists_served s -> s !! a = Some (OAllocator pool held) -> shared s a = false ->
  (forall o, o ∈ own -> fst o <> KCommandBuffer) -> forall o, o ∈ own ++ base ++ owned_all (delete a s) -> ~ pool_buffers pool u o.
Proof.
  intros Hs H1 Ha Esh Hown [k h] Ho [Hk (cb & Hb & Hp)]. cbn in Hk, Hb. subst k. apply elem_of_app in Ho as [Ho|Ho]; [by apply (Hown _ Ho)|].
  apply elem_of_app in Ho as [Ho|Ho]; [by apply (s_base _ _ _ _ Hs h)|].
  apply owned_all_elem in Ho as (y & ob & Hy & (l & b & -> & Hcb)%owned_buffer). apply lookup_delete_Some in Hy as [Hne Hy].
  destruct (s_objects _ _ _ _ Hs _ _ Hy) as (_ & cb' & Hb' & Hp' & _). rewrite Hcb, Hb in Hb'. injection Hb' as <-.
  destruct (H1 _ _ _ Hy) as [held' Hh]. assert (b = a) as ->.
  { eapply (owner_unique base lost u s _ _ _ _ (KCommandPool, pool) Hs Hh Ha); cbn [owned]; [rewrite <- Hp', Hp; by left|by left]. }
  assert (shared s a = true) by (apply shared_spec; eauto). congruence.
Qed.

Lemma release_spec base lost (w : W) s a : sys_core base lost (usage w) s -> lists_served s -> held_but a s ->
  ends (release a) (w, s) (kept base lost (fun _ u' s' => frame None None (usage w) s u' s')).
Proof.
  intros Hs H1 H2. unfold ends, release.
  assert (Hstay : (forall pool, s !! a = Some (OAllocator pool false) -> shared s a = true) -> kept base lost (fun _ u' s' => frame None None (usage w) s u' s') (Ok tt) (w, s)).
  { intros Hsh. split; [done|]. split; [by apply frame_same|]. exists lost. split; [|done]. split; [done|]. by apply (arcs_split s a). }
  destruct (s !! a) as [ob|] eqn:Ea; [|by apply Hstay]. destruct ob as [| | | |pool held|]; try (by apply Hstay).
  destruct held; [by apply Hstay|]. destruct (shared s a) eqn:Esh; [by apply Hstay|].
  cbn [fst snd]. split; [done|]. pose proof (take_out _ _ _ _ _ _ Hs Ea) as Hw. cbn [owned] in Hw.
  destruct (pool_drop_spec base lost w s a pool (usage w) [] Hw) as (lost' & Hsub & Hw').
  { eapply pool_unused; [exact Hs|exact H1|exact Ea|exact Esh|]. intros o []%not_elem_of_nil. }
  split.
  { eapply frame_of; [exact Hw'| | |done]; intros y ob _ Hob; by rewrite (delete_allocator s a pool false y ob Ea Hob). }
  exists lost'. split; [|by intros _]. cbn [fst snd]. split; [|by eapply without_allocator].
  destruct Hw' as [Hh Hsame]. cbn [app] in Hh. split; [exact Hh| |exact (s_base _ _ _ _ Hs)]. intros y ob [Hne Hy]%lookup_delete_Some.
  eapply obj_ok_same; [exact (s_objects _ _ _ _ Hs _ _ Hy)|]. rewrite Forall_forall in Hsame |- *. intros o Ho. apply Hsame. rewrite !elem_of_app. right. right.
  apply owned_all_elem. exists y, ob. by rewrite lookup_delete_ne.
Qed.
End Release.

(** ** What a call needs *)

Definition is_list (s : Objects) (x : Z) (l : GraphicsCommandList) : Prop := exists a, s !! x = Some (OList l a).

(** When a call keeps the invariant, in terms of the driver: the rules of Direct3D, which
    follow, imply it. Names of new objects are new; objects named are there. A list is
    recorded, closed or dropped while its buffer records ([intact]), and executed while
    its buffer can be; an allocator is reset when its lists are closed. *)
Definition allowed (c : call) (u : Usage) (s : Objects) : Prop :=
  match c with
  | CreateResource x _ _ | CreateHeap x _ _ | CreateRoot x | CreateAllocator x => s !! x = None
  | CreatePipeline x d => s !! x = None /\ forall layout, root_signature d = Some layout -> exists y, s !! y = Some (ORoot layout)
  | MapResource x | UnmapResource x => exists r, s !! x = Some (OResource r)
  | CreateRtv h r _ => (exists heap, s !! h = Some (OHeap heap)) /\ exists res, s !! r = Some (OResource res)
  | ResetAllocator x => (exists pool, s !! x = Some (OAllocator pool true)) /\ forall y l, s !! y = Some (OList l x) -> closed l = true
  | CreateList x a => s !! x = None /\ exists pool, s !! a = Some (OAllocator pool true)
  | ResetList x a => (exists l, is_list s x l) /\ exists pool, s !! a = Some (OAllocator pool true)
  | CloseList x | ListViewport x _ | ListScissor x _ => exists l, is_list s x l /\ intact u l
  | SetPipelineState x p => (exists l, is_list s x l) /\ exists ps, s !! p = Some (OPipeline ps)
  | SetRenderTargets x h _ => (exists l, is_list s x l) /\ exists heap, s !! h = Some (OHeap heap)
  | ClearTarget x h i _ => exists l heap, is_list s x l /\ intact u l /\ s !! h = Some (OHeap heap) /\
      forall v image f e, descriptor heap i = Ok (Rtv v image f e) -> exists y r, s !! y = Some (OResource r) /\ main_object r = (KImage, image)
  | Barriers x bs => (exists l, is_list s x l /\ intact u l) /\ Forall (fun '(r, _, _) => exists res, s !! r = Some (OResource res)) bs
  | DrawInstanced _ _ _ _ _ => False
  | Execute xs => NoDup xs /\ Forall (fun x => exists l, is_list s x l /\ (closed l = true -> cb_is CbExecutable (command_buffer l) u = true)) xs
  | Drop x => match s !! x with
      | Some (OList l _) => intact u l
      | Some (OAllocator _ held) => held = true
      | Some _ => True
      | None => False end
  end.

(** Failures that the layer does not survive: a reset that fails, as [failed_reset_dangles]
    shows, and a device that is lost while the queue runs a submission. *)
Definition survived (c : call) (u : Usage) (r : outcome D3d12Error unit) (u' : Usage) : Prop :=
  match c with ResetList _ _ => r = Ok tt | Execute _ => r = Ok tt \/ executed u' = executed u | _ => True end.

Section Calls.
Context `{HV : Vulkan W} `{HL : !VulkanLaws W}.
Variable ctx : VkCtx.
Local Abbreviation P A := (M (W * Objects) D3d12Error A).

Lemma ends_the {A} (f : Object12 -> option A) x a (w : W) (s : Objects) ob Q : s !! x = Some ob -> f ob = Some a -> Q (Ok a) (w, s) -> ends (the f x) (w, s) Q.
Proof. intros Hx Hf HQ. unfold ends, the. rewrite Hx. cbn. rewrite Hf. exact HQ. Qed.

Lemma ends_method {R A} (f : Object12 -> option R) (g : R -> Object12) x (m : M (W * R) D3d12Error A) (w : W) (s : Objects) ob r Q :
  s !! x = Some ob -> f ob = Some r -> ends m (w, r) (fun o '(w', r') => Q o (w', <[x := g r']> s)) -> ends (method f g x m) (w, s) Q.
Proof.
  intros Hx Hf HQ. unfold ends, method in *. rewrite Hx. cbn [mbind option_bind]. cbn. rewrite Hf. by destruct (m (w, r)) as [o [w' r']].
Qed.

(** The object [x] comes, or changes, as [Q] says. *)
Definition did (x : Z) (w : W) (s : Objects) (Q : bool -> option Object12 -> Usage -> Prop) (r : outcome D3d12Error unit) (u' : Usage) (s' : Objects) : Prop :=
  frame (Some x) None (usage w) s u' s' /\ Q (outcome_is_ok r) (s' !! x) u'.

Lemma did_of extra base (w : W) s x own (u' : Usage) s' (Q : bool -> option Object12 -> Usage -> Prop) (r : outcome D3d12Error unit) :
  working own (extra ++ base ++ owned_all (delete x s)) (usage w) u' ->
  (forall z, s !! x <> Some (OResource z)) -> (exists o, s' = <[x := o]> s) \/ s' = s -> Q (outcome_is_ok r) (s' !! x) u' -> did x w s Q r u' s'.
Proof.
  intros Hw Hx Hs HQ. split; [|exact HQ]. eapply frame_of; [exact Hw| | |].
  - intros y ob Hne _. destruct Hs as [[o ->]| ->]; [by rewrite lookup_insert_ne by congruence|done].
  - intros y ob Hne _ Hy. rewrite lookup_delete_ne; [exact Hy|congruence].
  - intros z r' [= ->] Hr. by destruct (Hx r').
Qed.

(** A call that makes a new object. *)
Lemma create_case {A} base lost (m : M W D3d12Error A) (f : A -> Object12) (Pa : A -> Usage -> Prop) x (w : W) s :
  sys_ok base lost (usage w) s -> s !! x = None ->
  ends m w (leaves [] (lost ++ base ++ owned_all s) (usage w) (fun a => owned (f a)) Pa) ->
  (forall a u, Pa a u -> obj_ok u (f a)) -> (forall a u, Pa a u -> arcs (<[x := f a]> s)) ->
  ends (let! a := driver m in store x (f a)) (w, s)
    (kept base lost (did x w s (fun ok o u => if ok then exists a, o = Some (f a) /\ Pa a u else o = None))).
Proof.
  intros [Hs Ha] Hx Hm Ho Har. apply ends_then, ends_driver. eapply ends_mono; [exact Hm|]. intros [a|e| |] w'; cbn [leaves next]; try done.
  - intros [Hw Hp]. rewrite app_nil_r in Hw. apply ends_set_self. split; [done|]. split.
    { eapply did_of; [rewrite delete_id by done; exact Hw|congruence|left; by eexists|]. cbn. rewrite lookup_insert_eq. eauto. }
    exists lost. split; [|done]. split; [|by eapply Har].
    apply (put_new base lost (usage w) (usage w') s x (f a) [] Hs Hx Hw). by apply Ho.
  - intros [extra Hw]. rewrite app_nil_r in Hw. split; [done|]. split.
    { eapply did_of; [rewrite delete_id by done; exact Hw|congruence|by right|done]. }
    exists (extra ++ lost). split; [|done]. split; [|done]. by eapply put_lost.
Qed.

(** A method of a list. *)
Definition as_was (Q : bool -> GraphicsCommandList -> Usage -> Prop) (a : Z) (ok : bool) (o : option Object12) (u : Usage) : Prop :=
  exists l, o = Some (OList l a) /\ Q ok l u.

Lemma list_case {A} base lost (m : M (W * GraphicsCommandList) D3d12Error A) Q x l a (w : W) s : sys_ok base lost (usage w) s -> s !! x = Some (OList l a) ->
  ends m (w, l) (fun r '(w', l') => returns r /\ allocator l' = allocator l /\ list_ok (usage w') l' /\
    working [(KCommandBuffer, command_buffer l')] (lost ++ base ++ owned_all (delete x s)) (usage w) (usage w') /\ Q (outcome_is_ok r) l' (usage w')) ->
  ends (list_method x m) (w, s) (kept base lost (did x w s (as_was Q a))).
Proof.
  intros [Hs Ha] Hx Hm. unfold list_method. apply ends_then. eapply ends_the; [exact Hx|reflexivity|]. cbn [next]. apply ends_then.
  eapply ends_method; [exact Hx|reflexivity|]. eapply ends_mono; [exact Hm|]. intros r [w' l'] (Hr & Hal & Hok & Hw & HQ).
  assert (Hnew : sys_ok base lost (usage w') (<[x := OList l' a]> s)).
  { split; [apply (put_back base lost (usage w) (usage w') s x (OList l' a) [] Hs Hw Hok)|]. apply arcs_put; [|congruence|exact Ha].
    intros old. rewrite Hx. intros [= <-]. cbn. by rewrite Hal. }
  assert (Hdid : forall r' : outcome D3d12Error unit, outcome_is_ok r' = outcome_is_ok r -> did x w s (as_was Q a) r' (usage w') (<[x := OList l' a]> s)).
  { intros r' E. eapply did_of; [exact Hw|congruence|left; by eexists|]. rewrite lookup_insert_eq, E. by exists l'. }
  destruct r; try done; cbn [next]; [apply ends_ret|]; (split; [done|]); (split; [by apply Hdid|]); by exists lost.
Qed.

(** A method that leaves the driver alone. *)
Definition quiet_on (u0 : Usage) (l : GraphicsCommandList) (ok : bool) (l' : GraphicsCommandList) (u : Usage) : Prop :=
  u = u0 /\ command_buffer l' = command_buffer l /\ closed l' = closed l.

Lemma quiet_list_case {A} base lost (m : M (W * GraphicsCommandList) D3d12Error A) x l a (w : W) s : sys_ok base lost (usage w) s -> s !! x = Some (OList l a) ->
  ends m (w, l) (fun r '(w', l') => returns r /\ w' = w /\ allocator l' = allocator l /\ command_buffer l' = command_buffer l /\ closed l' = closed l /\ recording l' = recording l) ->
  ends (list_method x m) (w, s) (kept base lost (did x w s (as_was (quiet_on (usage w) l) a))).
Proof.
  intros Hs Hx Hm. eapply list_case; [exact Hs|exact Hx|]. eapply ends_mono; [exact Hm|]. intros r [w' l'] (Hr & -> & E1 & E2 & E3 & E4). split; [done|]. split; [done|].
  destruct Hs as [Hs _]. split.
  - destruct (s_objects _ _ _ _ Hs _ _ Hx) as (Hrc & cb & Hb & Hp & Hi & H1 & H2). split; [by rewrite E3, E4|]. exists cb. rewrite E1, E2, E3. done.
  - rewrite E2. split; [exact (take_out _ _ _ _ _ _ Hs Hx)|done].
Qed.

(** A method that fails at once. *)
Lemma refused_case {A} base lost (m : M (W * GraphicsCommandList) D3d12Error A) x l a (w : W) s e : sys_ok base lost (usage w) s -> s !! x = Some (OList l a) ->
  m (w, l) = (Err e, (w, l)) -> ends (list_method x m) (w, s) (kept base lost (did x w s (as_was (fun ok l' u => ok = false /\ quiet_on (usage w) l ok l' u) a))).
Proof.
  intros Hs Hx Hm. eapply list_case; [exact Hs|exact Hx|]. unfold ends. rewrite Hm. cbn [fst snd]. split; [done|]. split; [done|].
  split; [exact (s_objects _ _ _ _ (proj1 Hs) _ _ Hx)|]. split; [exact (take_out _ _ _ _ _ _ (proj1 Hs) Hx)|done].
Qed.

(** The list after a recording method: its buffer has [new] more commands, or all is as before. *)
Definition recorded_on (u0 : Usage) (l : GraphicsCommandList) (new : list command) (ok : bool) (l' : GraphicsCommandList) (u : Usage) : Prop :=
  command_buffer l' = command_buffer l /\ closed l' = closed l /\
  if ok then exists cs, opened u0 l cs /\ opened u l' (cs ++ new) else u = u0.

(** A recording method: refused on a closed list, else it records. *)
Lemma record_case base lost (m : M (W * GraphicsCommandList) D3d12Error unit) new f x l a (w : W) s : sys_ok base lost (usage w) s -> s !! x = Some (OList l a) ->
  intact (usage w) l -> allocator (f l) = allocator l -> command_buffer (f l) = command_buffer l ->
  (closed l = true -> exists e, m (w, l) = (Err e, (w, l))) ->
  (forall cs own rest, working own rest (usage w) (usage w) -> (KCommandBuffer, command_buffer l) ∈ own -> opened (usage w) l cs ->
     ends m (w, l) (records own rest (usage w) (usage w) l cs new f) \/ exists e, m (w, l) = (Err e, (w, l))) ->
  ends (list_method x m) (w, s) (kept base lost (did x w s (as_was (recorded_on (usage w) l new) a))).
Proof.
  intros Hs Hx Hint E1 E2 Hcl Hop. pose proof (s_objects _ _ _ _ (proj1 Hs) _ _ Hx) as Hok. cbn [obj_ok] in Hok.
  pose proof (take_out _ _ _ _ _ _ (proj1 Hs) Hx) as Hw. cbn [owned] in Hw.
  assert (Herr : (exists e, m (w, l) = (Err e, (w, l))) -> ends (list_method x m) (w, s) (kept base lost (did x w s (as_was (recorded_on (usage w) l new) a)))).
  { intros [e He]. eapply list_case; [exact Hs|exact Hx|]. unfold ends. by rewrite He. }
  destruct (closed l) eqn:Ec; [by apply Herr, Hcl|]. destruct (open_list _ _ Hok Hint Ec) as [cs Hcs].
  destruct (Hop cs _ _ Hw ltac:(by left) Hcs) as [Hrec|He]; [|by apply Herr].
  eapply list_case; [exact Hs|exact Hx|]. eapply ends_mono; [exact Hrec|]. intros r [w' l'] (-> & E & Hw' & Hop' & _). cbn [fst snd] in *. subst l'.
  split; [done|]. split; [done|]. split; [by eapply opened_ok|]. split; [by rewrite E2|]. split; [exact E2|]. split; [|by exists cs].
  by rewrite (proj1 Hop'), Ec.
Qed.

Lemma require_closed_err {A} (m : unit -> M (W * GraphicsCommandList) D3d12Error A) (w : W) l : closed l = true ->
  exists e, mbind require_recording m (w, l) = (Err e, (w, l)).
Proof. intros Hc. eexists. unfold require_recording, mbind, self. by rewrite Hc. Qed.
(** ** Every call *)

Lemma empty_views n : concat (map view_of (replicate n Empty)) = [].
Proof. by induction n. Qed.

Definition same_inner (r : Resource) (ok : bool) (o : option Object12) (u : Usage) : Prop := exists r', o = Some (OResource r') /\ inner r' = inner r.

Lemma resource_calls base lost (w : W) s x r : sys_ok base lost (usage w) s -> s !! x = Some (OResource r) ->
  ends (run_call ctx (MapResource x)) (w, s) (kept base lost (did x w s (same_inner r))) /\
  ends (run_call ctx (UnmapResource x)) (w, s) (kept base lost (did x w s (same_inner r))).
Proof.
  intros [Hs Ha] Hx. pose proof (take_out _ _ _ _ _ _ Hs Hx) as Hw. cbn [owned] in Hw. pose proof (s_objects _ _ _ _ Hs _ _ Hx) as Hr. cbn [obj_ok] in Hr.
  assert (Hput : forall r' (w' : W), working (owned_resource r') (lost ++ base ++ owned_all (delete x s)) (usage w) (usage w') -> resource_ok (usage w') r' ->
    sys_ok base lost (usage w') (<[x := OResource r']> s)).
  { intros r' w' Hw' Hr'. split; [exact (put_back base lost (usage w) (usage w') s x (OResource r') [] Hs Hw' Hr')|].
    apply arcs_put; [|congruence|exact Ha]. intros old. rewrite Hx. by intros [= <-]. }
  assert (Hdid : forall o r' (w' : W), inner r' = inner r -> buffers (usage w') = buffers (usage w) -> did x w s (same_inner r) o (usage w') (<[x := OResource r']> s)).
  { intros o r' w' Ei Eb. split; [by apply frame_put|]. rewrite lookup_insert_eq. by exists r'. }
  split; cbn [run_call].
  - apply ends_then. eapply ends_method; [exact Hx|reflexivity|]. eapply ends_mono; [by apply map_spec|]. intros o [w' r'] (Ho & Hw' & Hr' & Ei & Eb & _).
    destruct o; try done; cbn [next]; [apply ends_ret|]; (split; [done|]); (split; [by apply Hdid|]); exists lost; (split; [by apply Hput|done]).
  - eapply ends_method; [exact Hx|reflexivity|]. eapply ends_mono; [by apply unmap_spec|]. intros o [w' r'] (-> & Hw' & Hr' & Ei & Eb & _).
    split; [done|]. split; [by apply Hdid|]. exists lost. split; [by apply Hput|done].
Qed.

Lemma main_owned r : main_object r ∈ owned_resource r.
Proof. unfold main_object, owned_resource. destruct (inner r); by left. Qed.

(** The heap after a view of the resource was put in a slot, or as it was. *)
Definition viewed (res : Resource) (i : Z) (heap : DescriptorHeap) (ok : bool) (o : option Object12) (u : Usage) : Prop :=
  if ok then exists view image m f e v ext, inner res = InnerImage image m f e v /\ o = Some (OHeap (set_slot i (Rtv view image f ext) heap))
  else o = Some (OHeap heap).

Lemma rtv_call base lost (w : W) s h r i heap res : sys_ok base lost (usage w) s -> s !! h = Some (OHeap heap) -> s !! r = Some (OResource res) ->
  ends (run_call ctx (CreateRtv h r i)) (w, s) (kept base lost (did h w s (viewed res i heap))).
Proof.
  intros [Hs Ha] Hh Hr. cbn [run_call]. apply ends_then. eapply ends_the; [exact Hr|reflexivity|]. cbn [next].
  eapply ends_method; [exact Hh|reflexivity|]. eapply ends_mono; [eapply create_rtv_spec; [exact (take_out _ _ _ _ _ _ Hs Hh)|]|].
  - intros image m f e v Hi. assert (Ho : (KImage, image) ∈ owned_resource res) by (unfold owned_resource; rewrite Hi; by left).
    split; [by eapply (owned_live _ _ _ _ _ _ _ Hs Hr)|]. destruct (s_objects _ _ _ _ Hs _ _ Hr) as [Hb _]. by apply Hb.
  - intros o [w' heap'] Hpost. assert (Harc : arcs (<[h := OHeap heap']> s)).
    { apply arcs_put; [|congruence|exact Ha]. intros old. rewrite Hh. by intros [= <-]. }
    destruct o; try done.
    + destruct Hpost as (Hw' & view & image & m & f & e & v & Ei & _ & Eh & _). split; [done|]. split.
      { eapply did_of; [exact Hw'|congruence|left; by eexists|]. cbn [fst snd]. rewrite lookup_insert_eq, Eh. by repeat eexists. }
      exists lost. split; [|done]. split; [|exact Harc].
      exact (put_back base lost (usage w) (usage w') s h (OHeap heap') [] Hs Hw' I).
    + destruct Hpost as (-> & extra & Hw'). split; [done|]. split.
      { eapply did_of; [exact Hw'|congruence|left; by eexists|]. cbn [fst snd]. by rewrite lookup_insert_eq. }
      exists (extra ++ lost). split; [|done]. split; [|exact Harc].
      exact (put_back base lost (usage w) (usage w') s h (OHeap heap) extra Hs Hw' I).
Qed.

Lemma reset_allocator_call base lost (w : W) s x pool : sys_ok base lost (usage w) s -> s !! x = Some (OAllocator pool true) ->
  (forall y l, s !! y = Some (OList l x) -> closed l = true) ->
  ends (run_call ctx (ResetAllocator x)) (w, s) (kept base lost (fun r u' s' => s' = s /\
    buffers u' = if outcome_is_ok r then after_reset pool <$> buffers (usage w) else buffers (usage w))).
Proof.
  intros [Hs Ha] Hx Hcl. cbn [run_call]. apply ends_then. eapply ends_the; [exact Hx|reflexivity|]. cbn [next]. apply ends_driver.
  assert (Hl : (KCommandPool, pool) ∈ live (usage w)) by (eapply owned_live; [exact Hs|exact Hx|by left]).
  destruct (reset_pool_holds _ pool _ (s_holds _ _ _ _ Hs) Hl) as [Er Hh]. pose proof (h_unbroken _ _ (s_holds _ _ _ _ Hs)) as Hu.
  apply ends_try; intros e w' Hc; (split; [done|]).
  - destruct e. pose proof (reset_pool_ok _ _ _ Hu Hc) as Eu. rewrite Er in Eu. cbn [fst snd]. split; [split; [done|by rewrite Eu]|]. exists lost.
    split; [|done]. split; [|exact Ha]. split; [by rewrite Eu| |exact (s_base _ _ _ _ Hs)].
    intros y ob Hy. pose proof (s_objects _ _ _ _ Hs _ _ Hy) as Hok. rewrite Eu. destruct ob as [r| | | | |l a]; try done.
    destruct Hok as (Hrc & cb & Hb & Hp & Hi & H1 & H2). split; [done|]. cbn. rewrite lookup_fmap, Hb. cbn. eexists. split; [reflexivity|]. unfold after_reset.
    case_bool_decide as Epool; [|done]. cbn [cb_pool reset_buffer cb_commands cb_state]. split_and!; [done|done| |done]. intros Hopen. exfalso.
    destruct (proj1 Ha _ _ _ Hy) as [held Hheld]. assert (a = x) as ->.
    { eapply (owner_unique _ _ _ _ _ _ _ _ (KCommandPool, pool) Hs Hheld Hx); cbn [owned]; [rewrite <- Hp, Epool; by left|by left]. }
    rewrite (Hcl _ _ Hy) in Hopen. done.
  - pose proof (reset_pool_failed _ _ _ _ Hu Hc) as Eu. cbn [fst snd]. rewrite rule_same in Eu by (unfold may_reset_pool; by rewrite bool_decide_eq_true_2, (no_pending _ _ _ (s_holds _ _ _ _ Hs))).
    rewrite Eu. split; [done|]. by exists lost.
Qed.

Lemma create_list_call base lost (w : W) s x a pool : sys_ok base lost (usage w) s -> s !! x = None -> s !! a = Some (OAllocator pool true) ->
  ends (run_call ctx (CreateList x a)) (w, s)
    (kept base lost (did x w s (fun ok o u => if ok then exists l, o = Some (OList l a) /\ opened u l [] /\ allocator l = pool else o = None))).
Proof.
  intros Hs Hx Ha. cbn [run_call]. apply ends_then. eapply ends_the; [exact Ha|reflexivity|]. cbn [next].
  apply (create_case base lost (create_command_list pool ListDirect) (fun l => OList l a) (fun l u => opened u l [] /\ allocator l = pool)); [done|done| | |].
  - apply create_list_spec; [by apply take_none, Hs|]. eapply owned_live; [apply Hs|exact Ha|by left].
  - intros l u [Ho _]. by eapply opened_ok.
  - intros l _ [_ <-]. eapply arcs_put_list; [intros ? ? ?; congruence|congruence|exact Ha|apply Hs].
Qed.
(** An object that comes in place of another, beside what is left of the rest. *)
Lemma core_of base lost lost0 u0 u s0 s1 x ob' : sys_core base lost0 u0 s0 -> (forall y ob, s1 !! y = Some ob -> s0 !! y = Some ob) -> s1 !! x = None ->
  working (owned ob') (lost ++ base ++ owned_all s1) u0 u -> obj_ok u ob' -> sys_core base lost u (<[x := ob']> s1).
Proof.
  intros Hs Hsub Hx Hw Hok. split; [|intros y ob|exact (s_base _ _ _ _ Hs)].
  - eapply holds_perm; [|exact (k_holds _ _ _ _ Hw)]. rewrite (owned_all_insert s1 x ob' Hx). symmetry. apply app_move.
  - rewrite lookup_insert_Some. intros [[<- <-]|[Hne Hy]]; [done|]. eapply obj_ok_same; [exact (s_objects _ _ _ _ Hs y ob (Hsub _ _ Hy))|].
    pose proof (k_same _ _ _ _ Hw) as Hk. rewrite Forall_forall in Hk |- *. intros o Ho. apply Hk. rewrite !elem_of_app. right. right. apply owned_all_elem. eauto.
Qed.

(** What is left of the program's objects while the list [x] moves to another allocator. *)
Definition left_over (last : bool) (s : Objects) (x b : Z) : Objects := if last then delete b (delete x s) else delete x s.

(** Giving up the list's share of its allocator [b]. *)
Lemma yield_share base lost (w w1 : W) s x l b a pool (last : bool) : sys_core base lost (usage w) s -> arcs s -> s !! x = Some (OList l b) -> s !! a = Some (OAllocator pool true) ->
  (last = true -> s !! b = Some (OAllocator (allocator l) false) /\ shared (delete x s) b = false) ->
  working [] (lost ++ base ++ owned_all (delete x s)) (usage w) (usage w1) -> ~ (KCommandBuffer, command_buffer l) ∈ live (usage w1) ->
  ends (if last then drop_allocator (allocator l) else mret tt) w1 (fun r w' => r = Ok tt /\ (KCommandPool, pool) ∈ live (usage w') /\
    (~ (KCommandBuffer, command_buffer l) ∈ live (usage w')) /\
    exists rest2, (exists lost', lost' ⊆ lost /\ rest2 = lost' ++ base ++ owned_all (left_over last s x b)) /\ working [] rest2 (usage w) (usage w')).
Proof.
  intros Hs Harc Hx Ha Hlast Hw1 Hgone. assert (Hax : a <> x) by congruence. destruct last; cbn [left_over].
  2: { apply ends_ret. split; [done|]. split; [|split; [exact Hgone|eexists; split; [by exists lost|exact Hw1]]].
       eapply rest_live; [exact Hw1|]. rewrite !elem_of_app. right. right. apply owned_all_elem. exists a, (OAllocator pool true). split; [by rewrite lookup_delete_ne|by left]. }
  destruct (Hlast eq_refl) as [Hb Hsh]. assert (Hab : a <> b) by congruence. assert (Hbx : b <> x) by congruence.
  destruct (without_list _ _ _ _ Harc Hx) as [Hserved _]. apply ends_run. split; [done|].
  assert (Hbd : delete x s !! b = Some (OAllocator (allocator l) false)) by (by rewrite lookup_delete_ne).
  assert (Hs1 : sys_core base lost (usage w1) (delete x s)) by exact (put_away base lost (usage w) (usage w1) s x [] Hs Hw1).
  pose proof (take_out _ _ _ _ _ _ Hs1 Hbd) as Hw2. cbn [owned] in Hw2.
  destruct (pool_drop_spec base lost w1 (delete x s) b (allocator l) (usage w1) [] Hw2) as (lost' & Hsub & Hw3).
  { eapply pool_unused; [exact Hs1|exact Hserved|exact Hbd|exact Hsh|]. intros o []%not_elem_of_nil. }
  assert (Hw3' : working [] (lost' ++ base ++ owned_all (delete b (delete x s))) (usage w) (usage (vk_destroy KCommandPool (allocator l) w1))).
  { destruct Hw3 as [Hh3 Hk3]. split; [exact Hh3|]. pose proof (k_same _ _ _ _ Hw1) as Hk1. rewrite Forall_forall in Hk1, Hk3 |- *.
    assert (Hin : forall o, o ∈ lost' ++ base ++ owned_all (delete b (delete x s)) -> o ∈ lost ++ base ++ owned_all (delete x s)).
    { intros o. rewrite !elem_of_app. intros [Ho|[Ho|Ho]]; [left; by apply Hsub|by right; left|]. right. right. rewrite (owned_all_take _ _ _ Hbd), elem_of_app. by right. }
    intros o Ho. eapply same_for_trans; [|by apply Hk3]. eapply same_for_mono; [|apply Hk1, Hin, Ho]. cbn. intros z Hz Hz'. by apply Hz, Hin. }
  split; [|split].
  - eapply rest_live; [exact Hw3'|]. rewrite !elem_of_app. right. right. apply owned_all_elem. exists a, (OAllocator pool true). split; [by rewrite !lookup_delete_ne|by left].
  - intros Hin. apply Hgone. destruct (destroy_pool _ (allocator l) _ (s_holds _ _ _ _ Hs1)) as (El & _); [eapply owned_live; [exact Hs1|exact Hbd|by left]|].
    rewrite destroy_law in Hin by (exact (h_unbroken _ _ (s_holds _ _ _ _ Hs1))). apply El in Hin as [Hin _]. exact Hin.
  - eexists. split; [by exists lost'|exact Hw3'].
Qed.

Lemma freed_dead own rest u0 u h (m : gmap Z CmdBuf) : working own rest u0 u -> buffers u = delete h m -> ~ (KCommandBuffer, h) ∈ live u.
Proof. intros Hk Eb Hin. apply (h_buffers _ _ (k_holds _ _ _ _ Hk)) in Hin. rewrite Eb, lookup_delete_eq in Hin. by destruct Hin. Qed.

(** The objects after the list [x] moved to the allocator [a]. *)
Lemma moved_arcs s x l l' b a pool (last : bool) : arcs s -> s !! x = Some (OList l b) -> s !! a = Some (OAllocator pool true) -> allocator l' = pool ->
  (if last then s !! b = Some (OAllocator (allocator l) false) /\ shared (delete x s) b = false
   else b = a \/ (exists p, s !! b = Some (OAllocator p true)) \/ shared (delete x s) b = true) ->
  arcs (<[x := OList l' a]> (left_over last s x b)).
Proof.
  intros Harc Hx Ha Hal Hlast. destruct last; cbn [left_over].
  - destruct Hlast as [Hb Hsh]. destruct (without_list _ _ _ _ Harc Hx) as [Hserved Hheld].
    assert (Hn : delete b (delete x s) !! x = None) by (rewrite lookup_delete_ne by congruence; apply lookup_delete_eq).
    eapply arcs_put_list; [intros ? ?; by rewrite Hn|intros ? ?; by rewrite Hn| |].
    + rewrite !lookup_delete_ne by congruence. by rewrite Hal.
    + eapply without_allocator; [exact Hserved|exact Hheld|by rewrite lookup_delete_ne by congruence|exact Hsh].
  - rewrite insert_delete_eq. eapply arcs_put_list; [|congruence|by rewrite Hal|exact Harc]. intros l2 b2 Hx2. rewrite Hx in Hx2. by injection Hx2 as <- <-.
Qed.

(** Whether the list's share is the last one of its allocator. *)
Definition last_share (s : Objects) (x b a : Z) : bool :=
  match s !! b with Some (OAllocator _ false) => negb (a =? b) && negb (shared (delete x s) b) | _ => false end.

Lemma last_share_spec s x l b a pool : arcs s -> s !! x = Some (OList l b) -> s !! a = Some (OAllocator pool true) ->
  if last_share s x b a then s !! b = Some (OAllocator (allocator l) false) /\ shared (delete x s) b = false
  else b = a \/ (exists p, s !! b = Some (OAllocator p true)) \/ shared (delete x s) b = true.
Proof.
  intros Harc Hx Ha. destruct (proj1 Harc _ _ _ Hx) as [held Hb]. unfold last_share. rewrite Hb. destruct held; [eauto|].
  destruct (Z.eqb_spec a b) as [->|Hne]; cbn [negb andb]; [by left|]. destruct (shared (delete x s) b); cbn [negb]; auto.
Qed.

Lemma reset_call base lost (w : W) s x l b a pool : sys_ok base lost (usage w) s -> s !! x = Some (OList l b) -> s !! a = Some (OAllocator pool true) ->
  ends (run_call ctx (ResetList x a)) (w, s) (fun r st => r = Ok tt -> kept base lost (did x w s (fun _ o u => exists l', o = Some (OList l' a) /\ opened u l' [])) r st).
Proof.
  intros [Hs Harc] Hx Ha. cbn [run_call]. unfold reset_list. apply ends_then, ends_self. cbn [next].
  apply ends_then. eapply ends_the; [exact Hx|reflexivity|]. cbn [next]. apply ends_then. eapply ends_the; [exact Ha|reflexivity|]. cbn [next].
  fold (last_share s x b a). pose proof (last_share_spec s x l b a pool Harc Hx Ha) as Hlast. set (last := last_share s x b a) in *. clearbody last.
  pose proof (take_out _ _ _ _ _ _ Hs Hx) as Hw. cbn [owned] in Hw. pose proof (s_objects _ _ _ _ Hs _ _ Hx) as Hok. cbn [obj_ok] in Hok.
  pose proof (reset_spec [] [] _ (fun rest => exists lost', lost' ⊆ lost /\ rest = lost' ++ base ++ owned_all (left_over last s x b)) (usage w)
    (if last then drop_allocator (allocator l) else mret tt) pool w l Hw Hok) as Hreset.
  apply ends_then. unfold ends in Hreset |- *. destruct (reset _ pool (w, l)) as [r [w' l']]. cbn [fst snd next] in *. destruct Hreset as (Hal & rest2 & (lost' & Hsub & ->) & Hr).
  { intros w1 Hw1 Eb. eapply yield_share; [exact Hs|exact Harc|exact Hx|exact Ha|by intros ->|exact Hw1|by eapply freed_dead]. }
  unfold ends, lift_outcome. cbn [fst snd]. intros E. rewrite E in Hr |- *. destruct Hr as [Hw' Hop]. split; [done|]. cbn [fst snd].
  assert (Es : <[x := OList l' a]> (if last then delete b s else s) = <[x := OList l' a]> (left_over last s x b)).
  { unfold left_over. destruct last; [rewrite delete_delete|]; by rewrite insert_delete_eq. }
  rewrite Es. split.
  { split; [|rewrite lookup_insert_eq; by exists l']. eapply frame_of; [exact Hw'| | |by intros z r0 [= ->]; rewrite Hx].
    all: intros y ob Hne Hob; rewrite ?lookup_insert_ne by congruence; unfold left_over; destruct last; rewrite ?(delete_allocator (delete x s) b (allocator l) false y ob) by (done || (rewrite lookup_delete_ne by (intros ->; destruct Hlast; congruence); apply Hlast)); by rewrite lookup_delete_ne by congruence. }
  exists lost'. split; [|done]. split; [|by eapply moved_arcs]. eapply core_of; [exact Hs| | |exact Hw'|by eapply opened_ok].
  - intros y ob. unfold left_over. destruct last; [by intros [_ [_ ?]%lookup_delete_Some]%lookup_delete_Some|by intros [_ ?]%lookup_delete_Some].
  - unfold left_over. destruct last; [|by rewrite lookup_delete_eq]. rewrite lookup_delete_ne by (intros ->; destruct Hlast; congruence). by rewrite lookup_delete_eq.
Qed.
(** ** Dropping *)

Definition gone (x : Z) (w : W) (s : Objects) (r : outcome D3d12Error unit) (u' : Usage) (s' : Objects) : Prop :=
  frame (Some x) (Some x) (usage w) s u' s' /\ forall ob, no_allocator ob -> s' !! x <> Some ob.

Lemma gone_of extra base (w : W) s x own (u' : Usage) s' r : working own (extra ++ base ++ owned_all (delete x s)) (usage w) u' ->
  (forall y ob, y <> x -> s' !! y = Some ob <-> s !! y = Some ob) -> (forall ob, no_allocator ob -> s' !! x <> Some ob) -> gone x w s r u' s'.
Proof.
  intros Hw Hs Hx. split; [|exact Hx]. eapply frame_of; [exact Hw|intros; apply Hs; congruence| |by intros z r' -> _]. intros y ob Hne _ Hy. rewrite lookup_delete_ne; [exact Hy|congruence].
Qed.

Lemma gone_after x (w : W) s r u1 s1 u2 s2 : gone x w s r u1 s1 -> frame None None u1 s1 u2 s2 -> gone x w s r u2 s2.
Proof. intros [H1 H2] Hf. split; [by eapply frame_after|]. intros ob Hob Hx. apply (H2 ob Hob). by apply (f_objects _ _ _ _ _ _ Hf). Qed.

Lemma plain_drop base lost (m : M W D3d12Error unit) x ob (w : W) s : sys_ok base lost (usage w) s -> s !! x = Some ob -> arc_view ob = None ->
  ends m w (fun o w' => o = Ok tt /\ working [] (lost ++ base ++ owned_all (delete x s)) (usage w) (usage w')) ->
  ends (driver m ;;; set_self (delete x)) (w, s) (kept base lost (gone x w s)).
Proof.
  intros [Hs Harc] Hx Hv Hm. apply ends_then, ends_driver. eapply ends_mono; [exact Hm|]. intros o w' [-> Hw]. cbn [next]. apply ends_set_self.
  split; [done|]. split; [eapply gone_of; [exact Hw|intros y ob2 Hne; cbn [fst snd]; by rewrite lookup_delete_ne|intros ob2 _; cbn [fst snd]; by rewrite lookup_delete_eq]|].
  exists lost. split; [|done]. split; [exact (put_away base lost (usage w) (usage w') s x [] Hs Hw)|by eapply arcs_away].
Qed.

Lemma drop_call base lost (w : W) s x : sys_ok base lost (usage w) s -> allowed (Drop x) (usage w) s -> ends (run_call ctx (Drop x)) (w, s) (kept base lost (gone x w s)).
Proof.
  intros Hsys Hal. cbn [run_call allowed] in *. unfold drop. apply ends_then, ends_self. cbn [next]. destruct (s !! x) as [ob|] eqn:Hx; [|done].
  pose proof Hsys as [Hs Harc]. pose proof (take_out _ _ _ _ _ _ Hs Hx) as Hw. pose proof (s_objects _ _ _ _ Hs _ _ Hx) as Hok.
  destruct ob as [r|h|layout|p|pool held|l a]; cbn [owned obj_ok] in *.
  - eapply plain_drop; [exact Hsys|exact Hx|done|]. apply drop_resource_spec; [by rewrite app_nil_r|exact Hok].
  - eapply plain_drop; [exact Hsys|exact Hx|done|]. apply drop_heap_spec. by rewrite app_nil_r.
  - eapply plain_drop; [exact Hsys|exact Hx|done|]. eapply ends_destroy; [|exact Hw|]; done.
  - eapply plain_drop; [exact Hsys|exact Hx|done|]. apply drop_pipeline_spec. by rewrite app_nil_r.
  - apply ends_then, ends_set_self. cbn [next]. assert (Hx' : <[x := OAllocator pool false]> s !! x = Some (OAllocator pool false)) by apply lookup_insert_eq.
    eapply ends_mono; [apply release_spec|].
    + exact (put_back base lost (usage w) (usage w) s x (OAllocator pool false) [] Hs Hw I).
    + intros y l a Hy. assert (Hne : y <> x) by (intros ->; congruence). rewrite lookup_insert_ne in Hy by done. destruct (proj1 Harc _ _ _ Hy) as [hd Hh].
      destruct (decide (a = x)) as [->|Hax]; [|exists hd; by rewrite lookup_insert_ne]. exists false. rewrite Hx in Hh. injection Hh as -> _. exact Hx'.
    + intros b p Hb Hbx. rewrite lookup_insert_ne in Hbx by done. apply (proj2 Harc), shared_spec in Hbx as (y & l & Hy). apply shared_spec. exists y, l.
      rewrite lookup_insert_ne; [done|]. intros <-. congruence.
    + intros r st Hk. eapply kept_mono; [exact Hk|]. intros u' s'. apply (gone_after x w s r). split; [|intros ob Hob; rewrite lookup_insert_eq; intros [= <-]; by apply (Hob pool false)].
      split; [intros y ob Hne _; by rewrite lookup_insert_ne by congruence|]. intros y l a _ _. apply calm_refl.
  - apply ends_then, ends_driver. eapply ends_mono; [eapply drop_list_spec; [exact Hw|exact Hok|exact Hal]|]. intros o w' [-> Hw']. cbn [next].
    apply ends_then, ends_set_self. cbn [next]. destruct (without_list _ _ _ _ Harc Hx) as [H1 H2]. eapply ends_mono; [apply release_spec; [|exact H1|exact H2]|].
    + exact (put_away base lost (usage w) (usage w') s x [] Hs Hw').
    + intros r st Hk. eapply kept_mono; [exact Hk|]. intros u' s'. apply (gone_after x w s r). eapply gone_of; [exact Hw'|intros y ob Hne; by rewrite lookup_delete_ne|intros ob _; by rewrite lookup_delete_eq].
Qed.

(** ** Recording, executing *)

Lemma m_list_the {A B} (f : Object12 -> option A) (w : W) (s : Objects) {X} (xs : list X) (name : X -> Z) (mk : X -> A -> B) :
  Forall (fun x => exists ob a, s !! name x = Some ob /\ f ob = Some a) xs ->
  exists bs, m_list (fun x => let! a := the f (name x) in mret (mk x a))%rust xs (w, s) = (Ok (E := D3d12Error) bs, (w, s)) /\
    Forall2 (fun x b => exists ob a, s !! name x = Some ob /\ f ob = Some a /\ b = mk x a) xs bs.
Proof.
  induction 1 as [|x xs (ob & a & Hx & Hf) _ (bs & Hb & Hall)]; [by exists []|]. exists (mk x a :: bs). split.
  - cbn [m_list]. rewrite (mbind_ok _ _ _ (mk x a) (w, s)); [by rewrite (mbind_ok _ _ _ bs (w, s))|].
    rewrite (mbind_ok _ _ _ a (w, s)); [done|]. unfold the. rewrite Hx. cbn. by rewrite Hf.
  - constructor; [|done]. by exists ob, a.
Qed.

Lemma m_list_ext {S E A B} (f g : A -> M S E B) l : (forall x, f x = g x) -> m_list f l = m_list g l.
Proof. intros H. induction l as [|x l IH]; [done|]. cbn [m_list]. by rewrite H, IH. Qed.

Lemma barriers_call base lost (w : W) s x bs l a : sys_ok base lost (usage w) s -> s !! x = Some (OList l a) -> intact (usage w) l ->
  Forall (fun '(r, _, _) => exists res, s !! r = Some (OResource res)) bs ->
  ends (run_call ctx (Barriers x bs)) (w, s) (kept base lost (fun r u' s' => exists rs, Forall2 (fun b rb => s !! fst (fst b) = Some (OResource (rb_resource rb))) bs rs /\
    did x w s (as_was (recorded_on (usage w) l (barrier_commands rs)) a) r u' s')).
Proof.
  intros Hsys Hx Hint Hbs. cbn [run_call]. apply ends_then.
  destruct (m_list_the as_resource w s bs (fun b => fst (fst b)) (fun b r => mkResourceBarrier r (snd (fst b)) (snd b))) as (rs & Hrs & Hall).
  { eapply Forall_impl; [exact Hbs|]. intros [[r before] after] [res Hr]. by exists (OResource res), res. }
  assert (E : m_list (fun '(r, before, after) => let! r := the as_resource r in mret (mkResourceBarrier r before after))%rust bs (w, s) = (Ok (E := D3d12Error) rs, (w, s))).
  { rewrite <- Hrs. apply (f_equal (fun m => m (w, s))), m_list_ext. by intros [[r b] c]. }
  unfold ends at 1. rewrite E. cbn [fst snd next].
  assert (Hlive : Forall (fun b => main_object (rb_resource b) ∈ live (usage w)) rs).
  { apply Forall_forall. intros b Hb. apply list_elem_of_lookup in Hb as [i Hi]. destruct (Forall2_lookup_r _ _ _ _ _ Hall Hi) as (y & _ & ob & r & Hr & Hf & ->).
    destruct ob; try done. injection Hf as ->. eapply owned_live; [apply Hsys|exact Hr|]. apply main_owned. }
  eapply ends_mono; [eapply (record_case base lost _ (barrier_commands rs) id x l a); [exact Hsys|exact Hx|exact Hint|done|done| |]|].
  - intros Hc. by apply require_closed_err.
  - intros cs own rest Hw Ho Hop. left. by apply barrier_spec.
  - intros r st Hk. eapply kept_mono; [exact Hk|]. intros u' s' Hd. exists rs. split; [|exact Hd]. eapply Forall2_impl; [exact Hall|].
    intros b rb (ob & r0 & Hr & Hf & ->). destruct ob; try done. by injection Hf as ->.
Qed.

(** The list after it was closed: nothing happens to a closed one. *)
Definition closed_on (u0 : Usage) (l : GraphicsCommandList) (ok : bool) (l' : GraphicsCommandList) (u : Usage) : Prop :=
  command_buffer l' = command_buffer l /\ closed l' = ok /\
  if closed l then u = u0 /\ ok = true else ok = true -> exists cs one, opened u0 l cs /\ buffers u !! command_buffer l = Some (mkCmdBuf (allocator l) CbExecutable one cs).

Lemma simple_list_calls base lost (w : W) s x l a : sys_ok base lost (usage w) s -> s !! x = Some (OList l a) -> intact (usage w) l ->
  ends (run_call ctx (CloseList x)) (w, s) (kept base lost (did x w s (as_was (closed_on (usage w) l) a))) /\
  (forall v, ends (run_call ctx (ListViewport x v)) (w, s) (kept base lost (did x w s (as_was (recorded_on (usage w) l [SetViewport v]) a)))) /\
  (forall r, ends (run_call ctx (ListScissor x r)) (w, s) (kept base lost (did x w s (as_was (recorded_on (usage w) l [SetScissor r]) a)))).
Proof.
  intros Hsys Hx Hint. pose proof (s_objects _ _ _ _ (proj1 Hsys) _ _ Hx) as Hok. cbn [obj_ok] in Hok. split; [|split].
  - cbn [run_call]. destruct (closed l) eqn:Ec.
    { eapply list_case; [exact Hsys|exact Hx|]. unfold ends, closed_on. rewrite close_closed, Ec by done. split; [done|]. split; [done|]. split; [done|].
      split; [exact (take_out _ _ _ _ _ _ (proj1 Hsys) Hx)|done]. }
    destruct (open_list _ _ Hok Hint Ec) as [cs Hcs]. eapply list_case; [exact Hsys|exact Hx|].
    eapply ends_mono; [eapply close_spec; [exact (take_out _ _ _ _ _ _ (proj1 Hsys) Hx)|by left|exact Hcs]|]. intros r [w' l'] (Hw' & Hok' & _ & Hr).
    unfold closed_on. rewrite Ec. destruct r; try done; [destruct Hr as (-> & one & Eu)|subst l'; by rewrite Ec].
    split; [done|]. split; [done|]. split; [done|]. split; [done|]. split; [done|]. split; [done|]. intros _. exists cs, one. split; [exact Hcs|].
    rewrite Eu. cbn. by rewrite lookup_insert_eq.
  - intros v. cbn [run_call]. eapply (record_case base lost _ [SetViewport v] (set_list_viewport v)); [exact Hsys|exact Hx|exact Hint|done|done| |].
    + intros Hc. by apply require_closed_err.
    + intros cs own rest Hw Ho Hop. left. by apply (set_state_spec own rest (usage w) w l cs (SetViewport v) (set_list_viewport v)).
  - intros r. cbn [run_call]. eapply (record_case base lost _ [SetScissor r] (set_list_scissor r)); [exact Hsys|exact Hx|exact Hint|done|done| |].
    + intros Hc. by apply require_closed_err.
    + intros cs own rest Hw Ho Hop. left. by apply (set_state_spec own rest (usage w) w l cs (SetScissor r) (set_list_scissor r)).
Qed.

(** The commands of a clear name the image of the view, and nothing else. *)
Definition cleared (heap : DescriptorHeap) (i : Z) (new : list command) : Prop :=
  exists v image f e, descriptor heap i = Ok (Rtv v image f e) /\ forall c, c ∈ new -> command_uses c = [(KImage, image)].

Lemma clear_refused heap i color (w : W) l : (forall v image f e, descriptor heap i <> Ok (Rtv v image f e)) ->
  exists e, clear_render_target_view heap i color (w, l) = (Err e, (w, l)).
Proof.
  intros Hno. unfold clear_render_target_view, require_recording, mbind, self, lift_outcome. destruct (closed l); [by eexists|]. destruct (recording l); [|by eexists].
  cbn. pose proof (Hno) as Hno'. unfold descriptor in *. destruct (descriptors heap !! Z.to_nat i) as [[v image f e| | |]|]; try (by eexists). by destruct (Hno v image f e).
Qed.

Lemma clear_call base lost (w : W) s x l a h heap i color : sys_ok base lost (usage w) s -> s !! x = Some (OList l a) -> intact (usage w) l -> s !! h = Some (OHeap heap) ->
  (forall v image f e, descriptor heap i = Ok (Rtv v image f e) -> exists y r, s !! y = Some (OResource r) /\ main_object r = (KImage, image)) ->
  ends (run_call ctx (ClearTarget x h i color)) (w, s) (kept base lost (fun r u' s' => exists new, (r = Ok tt -> cleared heap i new) /\
    did x w s (as_was (recorded_on (usage w) l new) a) r u' s')).
Proof.
  intros Hsys Hx Hint Hh Him. cbn [run_call]. apply ends_then. eapply ends_the; [exact Hh|reflexivity|]. cbn [next].
  assert (Hbad : (forall v image f e, descriptor heap i <> Ok (Rtv v image f e)) -> ends (list_method x (clear_render_target_view heap i color)) (w, s)
    (kept base lost (fun r u' s' => exists new, (r = Ok tt -> cleared heap i new) /\ did x w s (as_was (recorded_on (usage w) l new) a) r u' s'))).
  { intros Hno. destruct (clear_refused heap i color w l Hno) as [e He]. eapply ends_mono; [by eapply refused_case|].
    intros r st Hk. eapply kept_mono; [exact Hk|]. intros u' s' (Hf & l' & Hl & Hok & Hq). exists []. split; [by intros E; rewrite E in Hok|].
    split; [exact Hf|]. exists l'. split; [exact Hl|]. destruct Hq as (-> & H1 & H2). rewrite Hok. done. }
  destruct (descriptor heap i) as [[v image f e| | |]|e| |] eqn:Ed; try (by apply Hbad). clear Hbad.
  eapply ends_mono; [eapply (record_case base lost _ _ id); [exact Hsys|exact Hx|exact Hint|done|done| |]|].
  - intros Hc. by apply require_closed_err.
  - intros cs own rest Hw Ho Hop. left. eapply clear_spec; [exact Hw|exact Ho|exact Hop|exact Ed|].
    destruct (Him _ _ _ _ eq_refl) as (y & r & Hy & Hm). eapply owned_live; [apply Hsys|exact Hy|]. cbn [owned]. rewrite <- Hm. apply main_owned.
  - intros r st Hk. eapply kept_mono; [exact Hk|]. intros u' s' Hd. eexists. split; [|exact Hd]. intros _. exists v, image, f, e. split; [done|].
    intros c [->|[->|[->|[]%not_elem_of_nil]%elem_of_cons]%elem_of_cons]%elem_of_cons; done.
Qed.

Lemma binding_calls base lost (w : W) s x l a : sys_ok base lost (usage w) s -> s !! x = Some (OList l a) ->
  (forall p ps, s !! p = Some (OPipeline ps) -> ends (run_call ctx (SetPipelineState x p)) (w, s) (kept base lost (did x w s (as_was (quiet_on (usage w) l) a)))) /\
  (forall h heap hs, s !! h = Some (OHeap heap) -> ends (run_call ctx (SetRenderTargets x h hs)) (w, s) (kept base lost (did x w s (as_was (quiet_on (usage w) l) a)))).
Proof.
  intros Hsys Hx. split.
  - intros p ps Hp. cbn [run_call]. apply ends_then. eapply ends_the; [exact Hp|reflexivity|]. cbn [next]. eapply quiet_list_case; [exact Hsys|exact Hx|]. done.
  - intros h heap hs Hh. cbn [run_call]. apply ends_then. eapply ends_the; [exact Hh|reflexivity|]. cbn [next]. eapply quiet_list_case; [exact Hsys|exact Hx|].
    destruct hs as [|i hs]; [done|]. unfold ends, set_render_targets, mbind, lift_outcome, descriptor. by destruct (descriptors heap !! Z.to_nat i) as [[]|].
Qed.

Lemma distinct_buffers base lost u s xs ls : sys_core base lost u s -> NoDup xs -> Forall2 (fun x l => is_list s x l) xs ls -> NoDup (map command_buffer ls).
Proof.
  intros Hs Hn Hall. revert Hn. induction Hall as [|x l xs ls [a Hx] Hall IH]; intros Hn; [constructor|]. apply NoDup_cons in Hn as [Hnx Hn]. cbn [map].
  apply NoDup_cons. split; [|by apply IH]. intros (l2 & E & Hl2)%list_elem_of_fmap. apply list_elem_of_lookup in Hl2 as [i Hi].
  destruct (Forall2_lookup_r _ _ _ _ _ Hall Hi) as (y & Hy & b & Hyl). apply Hnx. apply list_elem_of_lookup_2 in Hy.
  enough (x = y) as -> by done. eapply (owner_unique _ _ _ _ _ _ _ _ (KCommandBuffer, command_buffer l) Hs Hx Hyl); [by left|cbn [owned]; rewrite E; by left].
Qed.

(** The queue leaves the objects alone, and uses up buffers of closed lists. *)
Lemma queue_core base lost u u' s : sys_core base lost u s -> holds (lost ++ base ++ owned_all s) u' -> same_but_queue u u' ->
  (forall y l a, s !! y = Some (OList l a) -> forall cb, buffers u !! command_buffer l = Some cb ->
     buffers u' !! command_buffer l = Some cb \/ buffers u' !! command_buffer l = Some (done_with cb) /\ closed l = true) -> sys_core base lost u' s.
Proof.
  intros Hs Hh (Hb & Hm & _) Hbuf. split; [exact Hh| |exact (s_base _ _ _ _ Hs)]. intros y ob Hy. pose proof (s_objects _ _ _ _ Hs _ _ Hy) as Hok.
  destruct ob as [r| | | | |l a]; try done.
  - destruct Hok as [H1 H2]. split; [intros o Ho Hk; apply Hb; by apply H1|by rewrite Hm].
  - destruct Hok as (Hrc & cb & Hcb & Hp & Hi & H1 & H2). split; [done|]. destruct (Hbuf _ _ _ Hy _ Hcb) as [E|[E Hcl]]; [by exists cb|].
    exists (done_with cb). split; [exact E|]. unfold done_with. cbn. split_and!; [done|done|congruence|]. intros _. by destruct (cb_one_time cb).
Qed.

(** After a submission: the lists that ran are used up; or it was refused. *)
Definition ran_lists (xs : list Z) (u0 : Usage) (s : Objects) (r : outcome D3d12Error unit) (u' : Usage) (s' : Objects) : Prop :=
  s' = s /\
  if outcome_is_ok r then exists ls, Forall2 (fun x l => is_list s x l) xs ls /\ Forall (fun l => closed l = true) ls /\
    buffers u' = foldr (alter done_with) (buffers u0) (map command_buffer ls)
  else buffers u' = buffers u0.

Lemma execute_call base lost (w : W) s xs : sys_ok base lost (usage w) s -> allowed (Execute xs) (usage w) s ->
  ends (run_call ctx (Execute xs)) (w, s) (fun r st => survived (Execute xs) (usage w) r (usage (fst st)) -> kept base lost (ran_lists xs (usage w) s) r st).
Proof.
  intros [Hs Harc] [Hn Hxs]. cbn [run_call]. apply ends_then.
  destruct (m_list_the as_list w s xs (fun x => x) (fun _ la => fst la)) as (ls & Hls & Hall).
  { eapply Forall_impl; [exact Hxs|]. intros x (l & (a & Hx) & _). by exists (OList l a), (l, a). }
  unfold ends at 1. rewrite Hls. cbn [fst snd next].
  assert (Hall' : Forall2 (fun x l => is_list s x l) xs ls).
  { eapply Forall2_impl; [exact Hall|]. intros x l (ob & [l2 a] & Hx & Hf & ->). destruct ob; try done. injection Hf as -> ->. by exists a. }
  assert (Hin : forall l, l ∈ ls -> exists x, is_list s x l /\ (closed l = true -> cb_is CbExecutable (command_buffer l) (usage w) = true)).
  { intros l Hl. apply list_elem_of_lookup in Hl as [i Hi]. destruct (Forall2_lookup_r _ _ _ _ _ Hall' Hi) as (x & Hx & a & Hl).
    exists x. split; [by exists a|]. rewrite Forall_forall in Hxs. destruct (Hxs x ltac:(by eapply list_elem_of_lookup_2)) as (l2 & (a2 & Hx2) & Hex).
    rewrite Hl in Hx2. by injection Hx2 as <- <-. }
  pose proof (distinct_buffers _ _ _ _ _ _ Hs Hn Hall') as Hnd.
  apply ends_driver. eapply ends_mono; [eapply execute_spec; [exact (s_holds _ _ _ _ Hs)|exact Hnd|]|].
  { intros l Hl. by destruct (Hin l Hl) as (x & _ & H). }
  intros r w' Hr Hsv. cbn [fst snd] in Hsv. destruct r as [[]|e| |]; try done.
  - destruct Hr as (Hcl & Hh & Hq & Eb & _). split; [done|]. split; [split; [done|]; cbn [outcome_is_ok fst]; eauto|]. exists lost. split; [|done]. split; [|exact Harc].
    cbn [fst snd]. eapply queue_core; [exact Hs|exact Hh|exact Hq|]. intros y l a Hy cb Hbuf. cbn [fst]. rewrite Eb, foldr_alter by exact Hnd. rewrite Hbuf.
    case_bool_decide as Hmem; [|by left]. right. split; [done|]. apply list_elem_of_fmap in Hmem as (l2 & E2 & Hl2). destruct (Hin l2 Hl2) as (x & (a2 & Hx) & _).
    assert (y = x) as -> by (eapply (owner_unique _ _ _ _ _ _ _ _ (KCommandBuffer, command_buffer l) Hs Hy Hx); [by left|cbn [owned]; rewrite E2; by left]).
    rewrite Hy in Hx. injection Hx as <- <-. rewrite Forall_forall in Hcl. by apply Hcl.
  - destruct Hr as [(Hh & Hq & Eb & _)|(Hne & _ & Ex)].
    + split; [done|]. split; [split; [done|exact Eb]|]. exists lost. split; [|done]. split; [|exact Harc].
      cbn [fst snd]. eapply queue_core; [exact Hs|exact Hh|exact Hq|]. intros y l a Hy cb Hbuf. left. cbn [fst]. by rewrite Eb.
    + exfalso. destruct Hsv as [?|E]; [done|]. rewrite E in Ex. apply (f_equal length) in Ex. rewrite length_app, !length_map in Ex.
      destruct ls; [done|]. cbn [length] in Ex. lia.
Qed.
End Calls.
