(* ===== verification/D3d12Rules.v ===== *)
(** * The rules of Direct3D 12

    What a program may call, in terms of its calls and the names of its objects alone:
    a [Log] says for every list what became of its recording and which resources it
    names, and for every slot of a heap which resource it shows. A program that keeps
    the rules ([rules]) makes only calls that keep the invariant of [D3d12Safe]. *)
From Stdlib Require Import ZArith Lia Ascii String.
From stdpp Require Import base list option gmap strings.
From S2P Require Import Prelude Vulkan VkOwn VkSmall Dxgi D3d12 D3d12Sys D3d12Own D3d12Safe.
Local Open Scope rust_scope.
Local Open Scope Z_scope.
Set Warnings "-register-all".

(** ** What the calls so far say *)

(** A list is open and names resources, or closed and ready to run with what it names,
    or closed with nothing to run (it ran, or lost what it names, or its allocator was
    reset), or open and of no use (it failed to close, or lost what it names). *)
Inductive phase := LRecording (names : list Z) | LReady (names : list Z) | LDone | LFailed.

Definition names_of (ph : phase) : list Z := match ph with LRecording ns | LReady ns => ns | LDone | LFailed => [] end.

(** Slots of heaps show a resource, or one that is gone ([None]). *)
Record Log := mkLog { phases : gmap Z phase; views : gmap (Z * nat) (option Z) }.

Definition no_log : Log := mkLog ∅ ∅.

Definition with_phases (f : gmap Z phase -> gmap Z phase) (g : Log) : Log := mkLog (f (phases g)) (views g).

Definition add_names (ys : list Z) (ph : phase) : phase := match ph with LRecording ns => LRecording (ys ++ ns) | _ => ph end.
Definition close_phase (ok : bool) (ph : phase) : phase := match ph with LRecording ns => if ok then LReady ns else LFailed | _ => ph end.
Definition lose (x : Z) (ph : phase) : phase :=
  match ph with
  | LRecording ns => if bool_decide (x ∈ ns) then LFailed else ph
  | LReady ns => if bool_decide (x ∈ ns) then LDone else ph
  | LDone | LFailed => ph
  end.
Definition used_up (ph : phase) : phase := match ph with LReady _ => LDone | _ => ph end.

Definition forget (x : Z) (vs : gmap (Z * nat) (option Z)) : gmap (Z * nat) (option Z) :=
  map_imap (fun '(h, _) v => if h =? x then None else Some (if bool_decide (v = Some x) then None else v)) vs.

Definition built_from (s : Objects) (a y : Z) : bool := match s !! y with Some (OList _ b) => b =? a | _ => false end.

(** The log after a call that succeeded, or failed. *)
Definition follow (c : call) (ok : bool) (s : Objects) (g : Log) : Log :=
  match c with
  | CreateRtv h y i => if ok then mkLog (phases g) (<[(h, Z.to_nat i) := Some y]> (views g)) else g
  | CreateList x _ | ResetList x _ => if ok then with_phases <[x := LRecording []]> g else g
  | CloseList x => with_phases (alter (close_phase ok) x) g
  | ClearTarget x h i _ =>
      match views g !! (h, Z.to_nat i) with
      | Some (Some y) => if ok then with_phases (alter (add_names [y]) x) g else g
      | _ => g
      end
  | Barriers x bs => if ok then with_phases (alter (add_names (map (fun b => fst (fst b)) bs)) x) g else g
  | ResetAllocator a => if ok then with_phases (map_imap (fun y ph => Some (if built_from s a y then used_up ph else ph))) g else g
  | Execute xs => if ok then with_phases (fun m => foldr (alter used_up) m xs) g else g
  | Drop x => mkLog (lose x <$> delete x (phases g)) (forget x (views g))
  | _ => g
  end.

(** The rules. New objects have new names, and objects named are there: Rust's borrows see
    to it. A list that failed to close, or lost a resource that it names while it was
    open, is of no more use than to be reset. A clear names a slot that shows no dead
    resource. An allocator is reset when its lists are closed. What a list recorded runs
    at most once, and while the resources it names live. No draws. *)
Definition rules (c : call) (s : Objects) (g : Log) : Prop :=
  let sound x := (exists l, is_list s x l) /\ phases g !! x <> Some LFailed in
  match c with
  | CreateResource x _ _ | CreateHeap x _ _ | CreateRoot x | CreateAllocator x => s !! x = None
  | CreatePipeline x d => s !! x = None /\ forall layout, root_signature d = Some layout -> exists y, s !! y = Some (ORoot layout)
  | MapResource x | UnmapResource x => exists r, s !! x = Some (OResource r)
  | CreateRtv h r _ => (exists heap, s !! h = Some (OHeap heap)) /\ exists res, s !! r = Some (OResource res)
  | ResetAllocator x => (exists pool, s !! x = Some (OAllocator pool true)) /\
      forall y, built_from s x y = true -> (exists ns, phases g !! y = Some (LReady ns)) \/ phases g !! y = Some LDone
  | CreateList x a => s !! x = None /\ exists pool, s !! a = Some (OAllocator pool true)
  | ResetList x a => (exists l, is_list s x l) /\ exists pool, s !! a = Some (OAllocator pool true)
  | CloseList x | ListViewport x _ | ListScissor x _ => sound x
  | SetPipelineState x p => (exists l, is_list s x l) /\ exists ps, s !! p = Some (OPipeline ps)
  | SetRenderTargets x h _ => (exists l, is_list s x l) /\ exists heap, s !! h = Some (OHeap heap)
  | ClearTarget x h i _ => sound x /\ (exists heap, s !! h = Some (OHeap heap)) /\ views g !! (h, Z.to_nat i) <> Some None
  | Barriers x bs => sound x /\ Forall (fun '(r, _, _) => exists res, s !! r = Some (OResource res)) bs
  | DrawInstanced _ _ _ _ _ => False
  | Execute xs => NoDup xs /\ Forall (fun x => (exists l, is_list s x l) /\ phases g !! x <> Some LDone) xs
  | Drop x => match s !! x with
      | Some (OList _ _) => phases g !! x <> Some LFailed
      | Some (OAllocator _ held) => held = true
      | Some _ => True
      | None => False end
  end.

(** ** The log is right about the driver *)

(** The commands name only the resources [ns]. *)
Definition covered (s : Objects) (ns : list Z) (cs : list command) : Prop :=
  forall c o, c ∈ cs -> o ∈ command_uses c -> exists y r, y ∈ ns /\ s !! y = Some (OResource r) /\ o = main_object r.

Definition holding (u : Usage) (s : Objects) (l : GraphicsCommandList) (st : cb_status) (ns : list Z) : Prop :=
  exists cb, buffers u !! command_buffer l = Some cb /\ cb_state cb = st /\ covered s ns (cb_commands cb).

Definition phase_ok (u : Usage) (s : Objects) (l : GraphicsCommandList) (ph : phase) : Prop :=
  match ph with
  | LRecording ns => closed l = false /\ holding u s l CbRecording ns
  | LReady ns => closed l = true /\ holding u s l CbExecutable ns
  | LDone => closed l = true
  | LFailed => closed l = false
  end.

Definition heap_ok (s : Objects) (g : Log) (h : Z) (heap : DescriptorHeap) : Prop :=
  forall i v image f e, descriptors heap !! i = Some (Rtv v image f e) ->
    match views g !! (h, i) with
    | Some (Some y) => exists r, s !! y = Some (OResource r) /\ main_object r = (KImage, image)
    | Some None => True
    | None => False
    end.

Record agrees (u : Usage) (s : Objects) (g : Log) : Prop := {
  a_lists x l a : s !! x = Some (OList l a) -> exists ph, phases g !! x = Some ph /\ phase_ok u s l ph;
  a_heaps h heap : s !! h = Some (OHeap heap) -> heap_ok s g h heap
}.

Lemma cb_uses_spec o cb : cb_uses o cb = true <-> exists c, c ∈ cb_commands cb /\ o ∈ command_uses c.
Proof.
  unfold cb_uses. rewrite existsb_exists. split.
  - intros (c & Hc%list_elem_of_In & (o' & Ho & E%bool_decide_eq_true)%existsb_exists). subst o'. exists c. split; [done|by apply list_elem_of_In].
  - intros (c & Hc & Ho). exists c. split; [by apply list_elem_of_In|]. apply existsb_exists. exists o. split; [by apply list_elem_of_In|by apply bool_decide_eq_true].
Qed.

(** The resources of [s0], [d] aside, are in [s], with the same handle. *)
Definition resources_stay (d : option Z) (s0 s : Objects) : Prop :=
  forall z r, Some z <> d -> s0 !! z = Some (OResource r) -> exists r', s !! z = Some (OResource r') /\ main_object r' = main_object r.

Lemma covered_stay d s0 s ns cs : resources_stay d s0 s -> (forall z, d = Some z -> z ∉ ns) -> covered s0 ns cs -> covered s ns cs.
Proof.
  intros Hr Hd Hc c o Hin Ho. destruct (Hc c o Hin Ho) as (y & r & Hy & Hs & ->). destruct (Hr y r) as (r' & Hs' & E); [|exact Hs|by exists y, r'].
  intros E. by apply (Hd y).
Qed.

Lemma holding_frame x d u0 s0 u s y l a st ns : frame x d u0 s0 u s -> resources_stay d s0 s -> (forall z, d = Some z -> z ∉ ns) -> Some y <> x ->
  s0 !! y = Some (OList l a) -> holding u0 s0 l st ns -> holding u s l st ns.
Proof.
  intros Hf Hr Hd Hy Hl (cb & Hb & Hst & Hc). pose proof (f_buffers _ _ _ _ _ _ Hf y l a Hy Hl) as Hcalm. rewrite Hb in Hcalm.
  destruct (buffers u !! command_buffer l) as [cb'|] eqn:E; [|done]. destruct Hcalm as [->|(_ & _ & o & Ho & (c & Hin & Hu)%cb_uses_spec)].
  - exists cb. split; [done|]. split; [done|]. by eapply covered_stay.
  - exfalso. destruct (Hc c o Hin Hu) as (z & r & Hz & Hs & ->). apply (Ho z r); [intros E2; by apply (Hd z)|exact Hs|apply main_owned].
Qed.

Lemma phase_frame x d u0 s0 u s y l a ph : frame x d u0 s0 u s -> resources_stay d s0 s -> (forall z, d = Some z -> z ∉ names_of ph) -> Some y <> x ->
  s0 !! y = Some (OList l a) -> phase_ok u0 s0 l ph -> phase_ok u s l ph.
Proof. intros Hf Hr Hd Hy Hl. destruct ph; try done; intros [Hc Hh]; (split; [exact Hc|]); by eapply holding_frame. Qed.

(** The list itself, when its buffer is as before. *)
Lemma phase_same u s0 s l l' ph : resources_stay None s0 s -> command_buffer l' = command_buffer l -> closed l' = closed l -> phase_ok u s0 l ph -> phase_ok u s l' ph.
Proof.
  intros Hr E1 E2. assert (Hh : forall st ns, holding u s0 l st ns -> holding u s l' st ns).
  { intros st ns (cb & Hb & Hst & Hc). exists cb. rewrite E1. split; [done|]. split; [done|]. by eapply covered_stay. }
  destruct ph; cbn [phase_ok]; rewrite E2; try done; intros [Hc Hx]; (split; [exact Hc|]); by apply Hh.
Qed.

Lemma frame_object x d u0 s0 u s y ob : frame (Some x) d u0 s0 u s -> y <> x -> no_allocator ob -> s !! y = Some ob <-> s0 !! y = Some ob.
Proof. intros Hf Hne. apply (f_objects _ _ _ _ _ _ Hf). by intros [= ->]. Qed.

(** The rules give what the calls need. *)
Lemma sound_intact u s g x l a : agrees u s g -> s !! x = Some (OList l a) -> phases g !! x <> Some LFailed -> intact u l.
Proof.
  intros Hg Hx Hs Hc. destruct (a_lists _ _ _ Hg _ _ _ Hx) as (ph & E & Hph). unfold cb_is.
  destruct ph; cbn [phase_ok] in Hph; [|destruct Hph; congruence|congruence|by destruct Hs].
  destruct Hph as (_ & cb & -> & Hst & _). by apply bool_decide_eq_true.
Qed.

Lemma rules_allowed c u s g : agrees u s g -> rules c s g -> allowed c u s.
Proof.
  intros Hg. assert (Hsound : forall x, (exists l, is_list s x l) /\ phases g !! x <> Some LFailed -> exists l, is_list s x l /\ intact u l).
  { intros x [(l & a & Hx) Hf]. exists l. split; [by exists a|by eapply sound_intact]. }
  destruct c; cbn [rules allowed]; try done; try (by apply Hsound).
  - intros [Ha Hy]. split; [exact Ha|]. intros y l Hl. specialize (Hy y). unfold built_from in Hy. rewrite Hl, Z.eqb_refl in Hy.
    destruct (a_lists _ _ _ Hg _ _ _ Hl) as (ph & E & Hph). rewrite E in Hy. destruct (Hy eq_refl) as [[ns [= ->]]|[= ->]]; [exact (proj1 Hph)|exact Hph].
  - intros (Hx & [hp Hh] & Hv). destruct (Hsound _ Hx) as (l & Hl & Hi). exists l, hp. split; [done|]. split; [done|]. split; [done|].
    intros v image f e Hd. unfold descriptor in Hd. destruct (descriptors hp !! Z.to_nat handle) as [d|] eqn:Ed; [|done]. injection Hd as ->.
    pose proof (a_heaps _ _ _ Hg _ _ Hh _ _ _ _ _ Ed) as H. destruct (views g !! (heap, Z.to_nat handle)) as [[y|]|]; [by destruct H as (r & ? & ?); exists y, r|done|done].
  - intros [Hx Hbs]. split; [by apply Hsound|exact Hbs].
  - intros [Hn Hxs]. split; [exact Hn|]. eapply Forall_impl; [exact Hxs|]. intros x [(l & a & Hx) Hd]. exists l. split; [by exists a|]. intros Hc.
    destruct (a_lists _ _ _ Hg _ _ _ Hx) as (ph & E & Hph). destruct ph; cbn [phase_ok] in Hph; [destruct Hph; congruence| |by destruct Hd|congruence].
    destruct Hph as (_ & cb & Hb & Hst & _). unfold cb_is. rewrite Hb. by apply bool_decide_eq_true.
  - destruct (s !! x) as [ob|] eqn:Hx; [|done]. destruct ob; try done. by eapply sound_intact.
Qed.

(** ** The log after a call *)

(** A call on the object [x], which is a list or a heap, comes, or keeps its handles. *)
Lemma agrees_did x u0 s0 g u s g' : agrees u0 s0 g -> frame (Some x) None u0 s0 u s ->
  (forall r, s0 !! x = Some (OResource r) -> exists r', s !! x = Some (OResource r') /\ main_object r' = main_object r) ->
  (forall y, y <> x -> phases g' !! y = phases g !! y) -> (forall h i, h <> x -> views g' !! (h, i) = views g !! (h, i)) ->
  (resources_stay None s0 s ->
    (forall l a, s !! x = Some (OList l a) -> exists ph, phases g' !! x = Some ph /\ phase_ok u s l ph) /\ (forall heap, s !! x = Some (OHeap heap) -> heap_ok s g' x heap)) ->
  agrees u s g'.
Proof.
  intros Hg Hf Hx Hp Hv Hnew. assert (Hr : resources_stay None s0 s).
  { intros z r _ Hz. destruct (decide (z = x)) as [->|Hne]; [by apply Hx|]. exists r. split; [|done]. by apply (frame_object _ _ _ _ _ _ z _ Hf Hne). }
  destruct (Hnew Hr) as [Hl Hh]. split.
  - intros y l a Hy. destruct (decide (y = x)) as [->|Hne]; [by eapply Hl|]. apply (frame_object _ _ _ _ _ _ y _ Hf Hne) in Hy; [|done].
    destruct (a_lists _ _ _ Hg _ _ _ Hy) as (ph & E & Hph). exists ph. rewrite Hp by done. split; [done|]. eapply (phase_frame (Some x) None u0 s0 u s y l a); [exact Hf|exact Hr|done|by intros [= ->]|exact Hy|exact Hph].
  - intros h heap Hy i v image f e Hd. destruct (decide (h = x)) as [->|Hne]; [by eapply Hh|]. apply (frame_object _ _ _ _ _ _ h _ Hf Hne) in Hy; [|done].
    rewrite Hv by done. pose proof (a_heaps _ _ _ Hg _ _ Hy _ _ _ _ _ Hd) as H. destruct (views g !! (h, i)) as [[y|]|]; try done.
    destruct H as (r & Hs & Hm). destruct (Hr y r) as (r' & Hs' & E); [done|done|]. exists r'. split; [done|congruence].
Qed.

(** A new object that is neither a list nor a heap. *)
Lemma agrees_new x u0 s0 g u s : agrees u0 s0 g -> frame (Some x) None u0 s0 u s -> s0 !! x = None ->
  (forall l a, s !! x <> Some (OList l a)) -> (forall heap, s !! x <> Some (OHeap heap)) -> agrees u s g.
Proof. intros Hg Hf Hx Hl Hh. eapply agrees_did; [exact Hg|exact Hf|by rewrite Hx|done|done|]. intros _. split; [intros l a E; by destruct (Hl l a)|intros heap E; by destruct (Hh heap)]. Qed.

(** A list is begun, new or anew. *)
Lemma agrees_begun x u0 s0 g u s l a : agrees u0 s0 g -> frame (Some x) None u0 s0 u s -> (forall r, s0 !! x <> Some (OResource r)) ->
  s !! x = Some (OList l a) -> opened u l [] -> agrees u s (with_phases <[x := LRecording []]> g).
Proof.
  intros Hg Hf Hx Hl (Hc & _ & _ & one & Hb). eapply agrees_did; [exact Hg|exact Hf|intros r E; by destruct (Hx r)|intros y Hne; cbn; by apply lookup_insert_ne|done|].
  intros _. split; [|by rewrite Hl]. intros l2 a2. rewrite Hl. intros [= <- <-]. exists (LRecording []). split; [apply lookup_insert_eq|].
  split; [exact Hc|]. eexists. split; [exact Hb|]. split; [done|]. intros c o []%not_elem_of_nil.
Qed.

(** A method of a list whose phase changes by [f]. *)
Lemma agrees_list x u0 s0 g u s l l' a b (f : phase -> phase) : agrees u0 s0 g -> frame (Some x) None u0 s0 u s -> s0 !! x = Some (OList l a) -> s !! x = Some (OList l' b) ->
  (resources_stay None s0 s -> forall ph, phases g !! x = Some ph -> phase_ok u0 s0 l ph -> phase_ok u s l' (f ph)) -> agrees u s (with_phases (alter f x) g).
Proof.
  intros Hg Hf Hx Hl Hph. eapply agrees_did; [exact Hg|exact Hf|by rewrite Hx|intros y Hne; cbn; by apply lookup_alter_ne|done|].
  intros Hr. split; [|by rewrite Hl]. intros l2 a2. rewrite Hl. intros [= <- <-]. destruct (a_lists _ _ _ Hg _ _ _ Hx) as (ph & E & Hok).
  exists (f ph). cbn. rewrite lookup_alter_eq, E. split; [done|by apply Hph].
Qed.

(** A method of a list that leaves its phase. *)
Lemma agrees_quiet x u0 s0 g u s l l' a b : agrees u0 s0 g -> frame (Some x) None u0 s0 u s -> s0 !! x = Some (OList l a) -> s !! x = Some (OList l' b) ->
  u = u0 -> command_buffer l' = command_buffer l -> closed l' = closed l -> agrees u s g.
Proof.
  intros Hg Hf Hx Hl -> E1 E2. replace g with (with_phases (alter id x) g) by (destruct g; unfold with_phases; cbn; by rewrite alter_id).
  eapply agrees_list; [exact Hg|exact Hf|exact Hx|exact Hl|]. intros Hr ph _ Hok. by eapply phase_same.
Qed.

Lemma agrees_recorded x u0 s0 g u s l l' a b new ys : agrees u0 s0 g -> frame (Some x) None u0 s0 u s -> s0 !! x = Some (OList l a) -> s !! x = Some (OList l' b) ->
  recorded_on u0 l new true l' u -> covered s0 ys new -> agrees u s (with_phases (alter (add_names ys) x) g).
Proof.
  intros Hg Hf Hx Hl (E1 & E2 & cs & Ho & Ho') Hnew. eapply agrees_list; [exact Hg|exact Hf|exact Hx|exact Hl|]. intros Hr ph _.
  destruct Ho as (Hc & _ & _ & one & Hb), Ho' as (Hc' & _ & _ & one' & Hb').
  destruct ph as [ns|ns| |]; cbn [phase_ok add_names]; [|intros [? _]; congruence|intros ?; congruence|done]. intros (_ & cb & Hcb & _ & Hcov).
  rewrite Hb in Hcb. injection Hcb as <-. split; [exact Hc'|]. eexists. split; [exact Hb'|]. split; [done|]. cbn [cb_commands] in *.
  intros c o [Hin|Hin]%elem_of_app Hu.
  - destruct (covered_stay None s0 s ns cs Hr ltac:(done) Hcov c o Hin Hu) as (y & r & Hy & H). exists y, r. rewrite elem_of_app. auto.
  - destruct (covered_stay None s0 s ys new Hr ltac:(done) Hnew c o Hin Hu) as (y & r & Hy & H). exists y, r. rewrite elem_of_app. auto.
Qed.

Lemma agrees_closed x u0 s0 g u s l l' a b ok : agrees u0 s0 g -> frame (Some x) None u0 s0 u s -> s0 !! x = Some (OList l a) -> s !! x = Some (OList l' b) ->
  phases g !! x <> Some LFailed -> closed_on u0 l ok l' u -> agrees u s (with_phases (alter (close_phase ok) x) g).
Proof.
  intros Hg Hf Hx Hl Hns (E1 & E2 & Hc). eapply agrees_list; [exact Hg|exact Hf|exact Hx|exact Hl|]. intros Hr ph E Hph.
  destruct (closed l) eqn:Ecl.
  - destruct Hc as [-> ->]. assert (Hs : phase_ok u0 s l' ph) by (eapply phase_same; [exact Hr|exact E1|congruence|exact Hph]).
    destruct ph; cbn [phase_ok close_phase] in *; try done. destruct Hs; congruence.
  - destruct ph as [ns|ns| |]; cbn [phase_ok close_phase] in *; [|destruct Hph; congruence|congruence|by destruct Hns].
    destruct Hph as (_ & cb & Hb & _ & Hcov). destruct ok; [|exact E2]. destruct (Hc eq_refl) as (cs & one & (_ & _ & _ & one' & Hb') & Hb2).
    rewrite Hb in Hb'. injection Hb' as ->. split; [exact E2|]. eexists. rewrite E1. split; [exact Hb2|]. split; [done|]. by eapply covered_stay.
Qed.

(** Nothing but command buffers changes. *)
Lemma agrees_buffers u0 u s g g' : agrees u0 s g -> views g' = views g ->
  (forall y l a ph, s !! y = Some (OList l a) -> phases g !! y = Some ph -> phase_ok u0 s l ph -> exists ph', phases g' !! y = Some ph' /\ phase_ok u s l ph') -> agrees u s g'.
Proof.
  intros Hg Hv Hl. split.
  - intros y l a Hy. destruct (a_lists _ _ _ Hg _ _ _ Hy) as (ph & E & Hph). by eapply Hl.
  - intros h heap Hh i v image f e Hd. rewrite Hv. by eapply (a_heaps _ _ _ Hg).
Qed.

Lemma phase_buffers u0 u s l ph : buffers u !! command_buffer l = buffers u0 !! command_buffer l -> phase_ok u0 s l ph -> phase_ok u s l ph.
Proof. intros E. unfold phase_ok, holding. rewrite E. done. Qed.

Lemma agrees_ran base lost u0 g u s s' xs r : sys_core base lost u0 s -> agrees u0 s g -> NoDup xs -> ran_lists xs u0 s r u s' ->
  agrees u s' (follow (Execute xs) (outcome_is_ok r) s g).
Proof.
  intros Hs Hg Hn [-> Hr]. cbn [follow]. destruct (outcome_is_ok r).
  - destruct Hr as (ls & Hall & Hcl & Eb). eapply agrees_buffers; [exact Hg|done|]. intros y l a ph Hy E Hph. cbn [phases with_phases]. rewrite foldr_alter by exact Hn.
    rewrite E. case_bool_decide as Hin.
    + exists (used_up ph). split; [done|]. apply list_elem_of_lookup in Hin as [i Hi]. destruct (Forall2_lookup_l _ _ _ _ _ Hall Hi) as (l2 & Hl2 & a2 & Hx).
      rewrite Hy in Hx. injection Hx as <- <-. rewrite Forall_forall in Hcl. specialize (Hcl l ltac:(by eapply list_elem_of_lookup_2)).
      destruct ph; cbn [phase_ok used_up] in *; [destruct Hph; congruence|done|done|congruence].
    + exists ph. split; [done|]. eapply phase_buffers; [|exact Hph]. rewrite Eb, foldr_alter by (by eapply distinct_buffers).
      rewrite bool_decide_eq_false_2; [done|]. intros (l2 & E2 & Hl2)%list_elem_of_fmap. apply list_elem_of_lookup in Hl2 as [i Hi].
      destruct (Forall2_lookup_r _ _ _ _ _ Hall Hi) as (x & Hx & a2 & Hl2). apply Hin.
      assert (y = x) as -> by (eapply (owner_unique _ _ _ _ _ _ _ _ (KCommandBuffer, command_buffer l) Hs Hy Hl2); [by left|cbn [owned]; rewrite E2; by left]).
      by eapply list_elem_of_lookup_2.
  - eapply agrees_buffers; [exact Hg|done|]. intros y l a ph Hy E Hph. exists ph. split; [done|]. eapply phase_buffers; [|exact Hph]. by rewrite Hr.
Qed.

Lemma agrees_reset base lost u0 g u s a pool held (ok : bool) : sys_ok base lost u0 s -> agrees u0 s g -> s !! a = Some (OAllocator pool held) ->
  (forall y, built_from s a y = true -> (exists ns, phases g !! y = Some (LReady ns)) \/ phases g !! y = Some LDone) ->
  buffers u = (if ok then after_reset pool <$> buffers u0 else buffers u0) -> agrees u s (follow (ResetAllocator a) ok s g).
Proof.
  intros [Hs Harc] Hg Ha Hrules Eb. cbn [follow]. destruct ok.
  2: { eapply agrees_buffers; [exact Hg|done|]. intros y l b ph Hy E Hph. exists ph. split; [done|]. eapply phase_buffers; [|exact Hph]. by rewrite Eb. }
  eapply agrees_buffers; [exact Hg|done|]. intros y l b ph Hy E Hph. cbn [phases with_phases]. rewrite map_lookup_imap, E. cbn [mbind option_bind]. eexists. split; [reflexivity|].
  unfold built_from. rewrite Hy. destruct (Z.eqb_spec b a) as [->|Hne].
  - specialize (Hrules y). unfold built_from in Hrules. rewrite Hy, Z.eqb_refl, E in Hrules. destruct (Hrules eq_refl) as [[ns [= ->]]|[= ->]]; [exact (proj1 Hph)|exact Hph].
  - eapply phase_buffers; [|exact Hph]. destruct (s_objects _ _ _ _ Hs _ _ Hy) as (_ & cb & Hb & Hp & _). rewrite Eb, lookup_fmap, Hb. cbn. unfold after_reset.
    rewrite bool_decide_eq_false_2; [done|]. intros Epool. apply Hne. destruct (proj1 Harc _ _ _ Hy) as [held' Hheld].
    eapply (owner_unique _ _ _ _ _ _ _ _ (KCommandPool, pool) Hs Hheld Ha); cbn [owned]; [rewrite <- Hp, Epool; by left|by left].
Qed.

Lemma lose_ok x u0 s0 u s y l a ph : frame (Some x) (Some x) u0 s0 u s -> resources_stay (Some x) s0 s -> y <> x ->
  s0 !! y = Some (OList l a) -> phase_ok u0 s0 l ph -> phase_ok u s l (lose x ph).
Proof.
  intros Hf Hr Hne Hy Hph. assert (Hkeep : x ∉ names_of ph -> phase_ok u s l ph).
  { intros Hx. eapply (phase_frame (Some x) (Some x) u0 s0 u s y l a); [exact Hf|exact Hr|by intros z [= <-]|by intros [= ->]|exact Hy|exact Hph]. }
  destruct ph as [ns|ns| |]; cbn [lose names_of] in *; try (apply Hkeep, not_elem_of_nil); case_bool_decide as Hin; auto; exact (proj1 Hph).
Qed.

Lemma agrees_gone x u0 s0 g u s : agrees u0 s0 g -> frame (Some x) (Some x) u0 s0 u s -> (forall ob, no_allocator ob -> s !! x <> Some ob) ->
  agrees u s (mkLog (lose x <$> delete x (phases g)) (forget x (views g))).
Proof.
  intros Hg Hf Hx. assert (Hr : resources_stay (Some x) s0 s).
  { intros z r Hz Hs. exists r. split; [|done]. apply (frame_object _ _ _ _ _ _ z _ Hf); [intros ->; by apply Hz|done|done]. }
  split.
  - intros y l a Hy. destruct (decide (y = x)) as [->|Hne]; [by destruct (Hx (OList l a))|]. apply (frame_object _ _ _ _ _ _ y _ Hf Hne) in Hy; [|done].
    destruct (a_lists _ _ _ Hg _ _ _ Hy) as (ph & E & Hph). exists (lose x ph). cbn [phases]. rewrite lookup_fmap, lookup_delete_ne, E by done. split; [done|]. by eapply lose_ok.
  - intros h heap Hh i v image f e Hd. destruct (decide (h = x)) as [->|Hne]; [by destruct (Hx (OHeap heap))|]. apply (frame_object _ _ _ _ _ _ h _ Hf Hne) in Hh; [|done].
    pose proof (a_heaps _ _ _ Hg _ _ Hh _ _ _ _ _ Hd) as H. cbn [views]. unfold forget. rewrite map_lookup_imap. destruct (views g !! (h, i)) as [v0|]; [|done].
    cbn. rewrite (proj2 (Z.eqb_neq h x)) by done. case_bool_decide as Ev; [done|]. destruct v0 as [y|]; [|done]. destruct H as (r & Hs & Hm).
    destruct (Hr y r) as (r' & Hs' & E); [by intros [= ->]|done|]. exists r'. split; [done|congruence].
Qed.

(** A view of the resource [y] was put in a slot of the heap. *)
Lemma agrees_viewed h u0 s0 g u s heap y res i (ok : bool) : agrees u0 s0 g -> frame (Some h) None u0 s0 u s -> s0 !! h = Some (OHeap heap) ->
  s0 !! y = Some (OResource res) -> viewed res i heap ok (s !! h) u -> agrees u s (follow (CreateRtv h y i) ok s0 g).
Proof.
  intros Hg Hf Hh Hy Hv. assert (Hold : forall g' j v image f e, resources_stay None s0 s -> views g' !! (h, j) = views g !! (h, j) -> descriptors heap !! j = Some (Rtv v image f e) ->
    match views g' !! (h, j) with Some (Some z) => exists r, s !! z = Some (OResource r) /\ main_object r = (KImage, image) | Some None => True | None => False end).
  { intros g' j v image f e Hr E Hd. rewrite E. pose proof (a_heaps _ _ _ Hg _ _ Hh _ _ _ _ _ Hd) as H. destruct (views g !! (h, j)) as [[z|]|]; try done.
    destruct H as (r & Hs & Hm). destruct (Hr z r) as (r' & Hs' & E'); [done|done|]. exists r'. split; [done|congruence]. }
  destruct ok; cbn [follow]; unfold viewed in Hv.
  2: { eapply agrees_did; [exact Hg|exact Hf|by rewrite Hh|done|done|]. intros Hr. rewrite Hv. split; [done|]. intros hp [= <-] j v image f e Hd. by eapply Hold. }
  destruct Hv as (view & image & m & f & e & v & ext & Ei & Hs). eapply agrees_did; [exact Hg|exact Hf|by rewrite Hh|done| |].
  { intros h' j Hne. cbn [views]. rewrite lookup_insert_ne by congruence. done. }
  intros Hr. rewrite Hs. split; [done|]. intros hp [= <-] j v' image' f' e' Hd. cbn [set_slot descriptors] in Hd.
  apply list_lookup_insert_Some in Hd as [(-> & [= <- <- <- <-] & _)|[Hne Hd]].
  - cbn [views]. rewrite lookup_insert_eq. destruct (Hr y res) as (r' & Hs' & E'); [done|done|]. exists r'. split; [done|]. rewrite E'. unfold main_object. by rewrite Ei.
  - eapply (Hold _ j v' image' f' e'); [exact Hr| |exact Hd]. cbn [views]. rewrite lookup_insert_ne by congruence. done.
Qed.

Section Calls.
Context `{HV : Vulkan W} `{HL : !VulkanLaws W}.
Variable ctx : VkCtx.

(** What every call keeps. *)
Definition on_rails (base lost : list object) (c : call) (s : Objects) (g : Log) (r : outcome D3d12Error unit) (st : W * Objects) : Prop :=
  kept base lost (fun r u' s' => agrees u' s' (follow c (outcome_is_ok r) s g)) r st.

Lemma on_rails_of base lost c (w : W) s g F : ends (run_call ctx c) (w, s) (kept base lost F) ->
  (forall r u' s', returns r -> F r u' s' -> agrees u' s' (follow c (outcome_is_ok r) s g)) -> ends (run_call ctx c) (w, s) (on_rails base lost c s g).
Proof. intros H HF. eapply ends_mono; [exact H|]. intros r st (Hr & Hk & Hl). split; [done|]. split; [by apply HF|done]. Qed.

Lemma list_call_on_rails base lost c (w : W) s g x l a Q : agrees (usage w) s g -> s !! x = Some (OList l a) ->
  ends (run_call ctx c) (w, s) (kept base lost (did x w s (as_was Q a))) ->
  (forall ok l' u' s', frame (Some x) None (usage w) s u' s' -> s' !! x = Some (OList l' a) -> Q ok l' u' -> agrees u' s' (follow c ok s g)) ->
  ends (run_call ctx c) (w, s) (on_rails base lost c s g).
Proof. intros Hg Hx H HQ. eapply on_rails_of; [exact H|]. intros r u' s' _ (Hf & l' & Hl & HQ'). by eapply HQ. Qed.

Lemma state_call_on_rails base lost c (w : W) s g x l a new : agrees (usage w) s g -> s !! x = Some (OList l a) ->
  (forall ok, follow c ok s g = g) -> covered s [] new ->
  ends (run_call ctx c) (w, s) (kept base lost (did x w s (as_was (recorded_on (usage w) l new) a))) ->
  ends (run_call ctx c) (w, s) (on_rails base lost c s g).
Proof.
  intros Hg Hx Hfo Hcov H. eapply list_call_on_rails; [exact Hg|exact Hx|exact H|]. intros ok l' u' s' Hf Hl Hq. rewrite Hfo. destruct ok.
  - replace g with (with_phases (alter (add_names []) x) g).
    + by eapply (agrees_recorded x (usage w) s g u' s' l l' a a new []).
    + destruct g as [ps vs]. unfold with_phases. cbn. f_equal. apply map_eq. intros y. destruct (decide (y = x)) as [->|Hne]; [|by rewrite lookup_alter_ne].
      rewrite lookup_alter_eq. destruct (ps !! x) as [[]|]; done.
  - destruct Hq as (E1 & E2 & Eu). by eapply (agrees_quiet x (usage w) s g u' s' l l' a a).
Qed.

Lemma create_on_rails {A} base lost c (w : W) s g x (f : A -> Object12) Pa : agrees (usage w) s g -> s !! x = None -> (forall ok, follow c ok s g = g) ->
  (forall a l b, f a <> OList l b) -> (forall a h, f a <> OHeap h) ->
  ends (run_call ctx c) (w, s) (kept base lost (did x w s (fun ok o u => if ok then exists a, o = Some (f a) /\ Pa a u else o = None))) ->
  ends (run_call ctx c) (w, s) (on_rails base lost c s g).
Proof.
  intros Hg Hx Hfo Hl Hh H. eapply on_rails_of; [exact H|]. intros r u' s' _ [Hf Hq]. rewrite Hfo. eapply agrees_new; [exact Hg|exact Hf|exact Hx| |].
  - intros l b E. rewrite E in Hq. destruct (outcome_is_ok r); [|done]. destruct Hq as (a & [= E2] & _). by apply (Hl a l b).
  - intros h E. rewrite E in Hq. destruct (outcome_is_ok r); [|done]. destruct Hq as (a & [= E2] & _). by apply (Hh a h).
Qed.

Lemma clear_on_rails base lost (w : W) s g x h i color : sys_ok base lost (usage w) s -> agrees (usage w) s g -> rules (ClearTarget x h i color) s g ->
  ends (run_call ctx (ClearTarget x h i color)) (w, s) (on_rails base lost (ClearTarget x h i color) s g).
Proof.
  intros Hs Hg Hru. pose proof (rules_allowed _ _ _ _ Hg Hru) as (l & hp & (a & Hl) & Hint & Hh & Him). eapply on_rails_of; [by eapply clear_call|].
  intros r u' s' _ (new & Hnew & Hf & l' & Hl' & Hq). cbn [follow]. destruct r as [[]|e| |]; cbn [outcome_is_ok] in *.
  2-4: destruct Hq as (E1 & E2 & Eu); enough (agrees u' s' g) by (by destruct (views g !! (h, Z.to_nat i)) as [[y|]|]); by eapply (agrees_quiet x (usage w) s g u' s' l l' a a).
  destruct (Hnew eq_refl) as (v & image & f & e & Hd & Huse). unfold descriptor in Hd. destruct (descriptors hp !! Z.to_nat i) as [d|] eqn:Ed; [|done]. injection Hd as ->.
  pose proof (a_heaps _ _ _ Hg _ _ Hh _ _ _ _ _ Ed) as Hv. destruct Hru as (_ & _ & Hno). destruct (views g !! (h, Z.to_nat i)) as [[y|]|]; [|done|done].
  destruct Hv as (r & Hr & Hm). eapply agrees_recorded; [exact Hg|exact Hf|exact Hl|exact Hl'|exact Hq|]. intros c o Hc Ho. rewrite (Huse c Hc) in Ho.
  apply list_elem_of_singleton in Ho as ->. exists y, r. split; [by left|]. by rewrite Hm.
Qed.

(** The objects that the commands of barriers name. *)
Lemma barriers_covered s bs rs : Forall2 (fun b rb => s !! fst (fst b) = Some (OResource (rb_resource rb))) bs rs ->
  covered s (map (fun b : Z * ResourceStates * ResourceStates => fst (fst b)) bs) (barrier_commands rs).
Proof.
  intros Hall. set (P := fun o => exists y r, y ∈ map (fun b : Z * ResourceStates * ResourceStates => fst (fst b)) bs /\ s !! y = Some (OResource r) /\ o = main_object r).
  assert (HP : Forall (fun b => P (main_object (rb_resource b))) rs).
  { apply Forall_forall. intros rb Hrb. apply list_elem_of_lookup in Hrb as [i Hi]. destruct (Forall2_lookup_r _ _ _ _ _ Hall Hi) as (b & Hb & Hs).
    exists (fst (fst b)), (rb_resource rb). split; [|done]. apply list_elem_of_fmap. exists b. split; [done|]. by eapply list_elem_of_lookup_2. }
  unfold barrier_commands. pose proof (gathered_objects rs (mkGathered [] 0 0) (mkGathered [] 0 0) P HP (Forall_nil_2 _) (Forall_nil_2 _)) as H.
  destruct (fold_left gather_barrier rs _) as [gi gb]. destruct H as [Hi Hb]. rewrite Forall_forall in Hi. rewrite Forall_forall in Hb. intros c o [Hc|Hc]%elem_of_app Ho.
  - destruct (g_barriers gi) as [|x xs]; [by apply not_elem_of_nil in Hc|]. apply list_elem_of_singleton in Hc as ->. cbn [command_uses map app] in Ho.
    apply (list_elem_of_fmap (fun b => (KImage, ib_image b)) (x :: xs)) in Ho as (b & -> & Hin). by apply Hi.
  - destruct (g_barriers gb) as [|x xs]; [by apply not_elem_of_nil in Hc|]. apply list_elem_of_singleton in Hc as ->. cbn [command_uses] in Ho. rewrite app_nil_r in Ho.
    apply (list_elem_of_fmap (fun b => (KBuffer, bb_buffer b)) (x :: xs)) in Ho as (b & -> & Hin). by apply Hb.
Qed.

Lemma barriers_on_rails base lost (w : W) s g x bs : sys_ok base lost (usage w) s -> agrees (usage w) s g -> rules (Barriers x bs) s g ->
  ends (run_call ctx (Barriers x bs)) (w, s) (on_rails base lost (Barriers x bs) s g).
Proof.
  intros Hs Hg Hru. pose proof (rules_allowed _ _ _ _ Hg Hru) as [(l & (a & Hl) & Hint) Hbs]. eapply on_rails_of; [by eapply barriers_call|].
  intros r u' s' _ (rs & Hall & Hf & l' & Hl' & Hq). cbn [follow]. destruct r as [[]|e| |]; cbn [outcome_is_ok] in *.
  2-4: destruct Hq as (E1 & E2 & Eu); by eapply (agrees_quiet x (usage w) s g u' s' l l' a a).
  eapply agrees_recorded; [exact Hg|exact Hf|exact Hl|exact Hl'|exact Hq|]. by apply barriers_covered.
Qed.

Lemma create_heap_on_rails base lost (w : W) s g x t n : sys_ok base lost (usage w) s -> agrees (usage w) s g -> s !! x = None ->
  ends (run_call ctx (CreateHeap x t n)) (w, s) (on_rails base lost (CreateHeap x t n) s g).
Proof.
  intros [Hs Harc] Hg Hx. cbn [run_call]. apply ends_set_self. split; [done|]. cbn [fst snd]. split.
  - eapply agrees_did; [exact Hg|by apply frame_put|by rewrite Hx|done|done|]. intros _. rewrite lookup_insert_eq. split; [done|]. intros heap [= <-] i v image f e Hd.
    cbn [create_descriptor_heap descriptors] in Hd. apply lookup_replicate in Hd as [? _]. done.
  - exists lost. split; [|done]. split; [|by apply arcs_put; [congruence| |]].
    apply (put_new base lost (usage w) (usage w) s x _ [] Hs Hx); [|done]. cbn [owned create_descriptor_heap descriptors app]. rewrite empty_views. by apply take_none.
Qed.

Lemma new_object_on_rails base lost (w : W) s g c : sys_ok base lost (usage w) s -> agrees (usage w) s g -> rules c s g ->
  match c with CreateResource _ _ _ | CreateRoot _ | CreatePipeline _ _ | CreateAllocator _ => True | _ => False end ->
  ends (run_call ctx c) (w, s) (on_rails base lost c s g).
Proof.
  intros Hsys Hg Hru Hc. pose proof Hsys as [Hs Harc]. destruct c; try done; cbn [rules] in Hru.
  - eapply (create_on_rails _ _ _ _ _ _ x OResource); [exact Hg|exact Hru|done|done|done|]. cbn [run_call].
    apply (create_case base lost _ OResource (fun r u => resource_ok u r /\ res_desc r = d /\ mapped_now r = false)); [done|done| | |].
    + by apply create_committed_spec, take_none.
    + by intros r u [Hr _].
    + intros r _ _. by apply arcs_put; [congruence| |].
  - eapply (create_on_rails _ _ _ _ _ _ x ORoot); [exact Hg|exact Hru|done|done|done|].
    apply (create_case base lost _ ORoot (fun _ _ => True)); [done|done| |done|by intros; apply arcs_put; [congruence| |]].
    eapply ends_new; [by apply take_none|done| |].
    + intros h w' _ _ Hw' _. split; [by rewrite app_nil_r|done].
    + intros e w' Eu. exists []. rewrite Eu. by apply take_none.
  - destruct Hru as [Hx Hroot]. eapply (create_on_rails _ _ _ _ _ _ x OPipeline); [exact Hg|exact Hx|done|done|done|].
    apply (create_case base lost _ OPipeline (fun p _ => owns_layout p = match root_signature d with Some _ => false | None => true end)); [done|done| |done|by intros; apply arcs_put; [congruence| |]].
    apply create_pipeline_spec; [by apply take_none|]. intros layout Hl. destruct (Hroot layout Hl) as [y Hy]. cbn [app]. rewrite !elem_of_app. right. right.
    apply owned_all_elem. exists y, (ORoot layout). split; [done|by left].
  - eapply (create_on_rails _ _ _ _ _ _ x (fun pool => OAllocator pool true)); [exact Hg|exact Hru|done|done|done|].
    apply (create_case base lost _ (fun pool => OAllocator pool true) (fun _ _ => True)); [done|done| |done|by intros; apply arcs_new_allocator].
    eapply ends_new; [by apply take_none|done| |].
    + intros h w' _ _ Hw' _. split; [by rewrite app_nil_r|done].
    + intros e w' Eu. exists []. rewrite Eu. by apply take_none.
Qed.

(** A call that keeps the rules leaves the invariant and a log that is right. *)
Lemma call_kept base lost (w : W) s g c : sys_ok base lost (usage w) s -> agrees (usage w) s g -> rules c s g ->
  ends (run_call ctx c) (w, s) (fun r st => survived c (usage w) r (usage (fst st)) -> on_rails base lost c s g r st).
Proof.
  intros Hsys Hg Hru. pose proof (rules_allowed _ _ _ _ Hg Hru) as Hal.
  assert (Hweak : ends (run_call ctx c) (w, s) (on_rails base lost c s g) -> ends (run_call ctx c) (w, s) (fun r st => survived c (usage w) r (usage (fst st)) -> on_rails base lost c s g r st)).
  { intros Hm. eapply ends_mono; [exact Hm|]. auto. }
  assert (Hnames : forall c, command_uses c = [] -> covered s [] [c]).
  { intros c0 Hc c1 o ->%list_elem_of_singleton Ho. rewrite Hc in Ho. by apply not_elem_of_nil in Ho. }
  assert (Hmap : forall r x, s !! x = Some (OResource r) -> (forall ok, follow c ok s g = g) -> ends (run_call ctx c) (w, s) (kept base lost (did x w s (same_inner r))) ->
    ends (run_call ctx c) (w, s) (on_rails base lost c s g)).
  { intros r x Hx Hfo H. eapply on_rails_of; [exact H|]. intros o u' s' _ (Hf & r' & Hr' & Ei). rewrite Hfo. eapply agrees_did; [exact Hg|exact Hf| |done|done|by rewrite Hr'].
    intros r0. rewrite Hx. intros [= <-]. exists r'. split; [exact Hr'|]. unfold main_object. by rewrite Ei. }
  assert (Hquiet : forall x l a, s !! x = Some (OList l a) -> (forall ok, follow c ok s g = g) -> ends (run_call ctx c) (w, s) (kept base lost (did x w s (as_was (quiet_on (usage w) l) a))) ->
    ends (run_call ctx c) (w, s) (on_rails base lost c s g)).
  { intros x l a Hx Hfo H. eapply list_call_on_rails; [exact Hg|exact Hx|exact H|]. intros ok l' u' s' Hf Hl (E1 & E2 & E3). rewrite Hfo. by eapply (agrees_quiet x (usage w) s g u' s' l l' a a). }
  destruct c; try (by apply Hweak, new_object_on_rails); cbn [allowed] in Hal.
  - destruct Hal as [r Hr]. apply Hweak, (Hmap r x Hr ltac:(done)). by eapply resource_calls.
  - destruct Hal as [r Hr]. apply Hweak, (Hmap r x Hr ltac:(done)). by eapply resource_calls.
  - by apply Hweak, create_heap_on_rails.
  - destruct Hal as [[hp Hh] [res Hr]]. apply Hweak. eapply on_rails_of; [by eapply rtv_call|]. intros r u' s' _ [Hf Hv]. by eapply agrees_viewed.
  - destruct Hal as [[pool Hp] Hcl]. apply Hweak. eapply on_rails_of; [by eapply reset_allocator_call|]. intros r u' s' _ [-> Eb].
    eapply agrees_reset; [exact Hsys|exact Hg|exact Hp|apply Hru|exact Eb].
  - destruct Hal as [Hx [pool Hp]]. apply Hweak. eapply on_rails_of; [by eapply create_list_call|]. intros r u' s' _ [Hf Hq]. cbn [follow]. destruct (outcome_is_ok r).
    + destruct Hq as (l & Hl & Ho & _). eapply agrees_begun; [exact Hg|exact Hf|by rewrite Hx|exact Hl|exact Ho].
    + eapply agrees_new; [exact Hg|exact Hf|exact Hx|by rewrite Hq|by rewrite Hq].
  - destruct Hal as [(l & b & Hl) [pool Hp]]. cbn [survived]. eapply ends_mono; [by eapply reset_call|]. intros r st H ->. specialize (H eq_refl).
    eapply kept_mono; [exact H|]. intros u' s' [Hf (l' & Hl' & Ho)]. cbn [follow outcome_is_ok]. eapply agrees_begun; [exact Hg|exact Hf|by rewrite Hl|exact Hl'|exact Ho].
  - destruct Hal as (l & (a & Hl) & Hint). apply Hweak. eapply list_call_on_rails; [exact Hg|exact Hl|by eapply simple_list_calls|].
    intros ok l' u' s' Hf Hl' Hq. eapply agrees_closed; [exact Hg|exact Hf|exact Hl|exact Hl'|apply Hru|exact Hq].
  - destruct Hal as [(l & a & Hl) [ps Hp]]. apply Hweak, (Hquiet x l a Hl ltac:(done)). by eapply binding_calls.
  - destruct Hal as [(l & a & Hl) [hp Hh]]. apply Hweak, (Hquiet x l a Hl ltac:(done)). by eapply binding_calls.
  - by apply Hweak, clear_on_rails.
  - destruct Hal as (l & (a & Hl) & Hint). apply Hweak. eapply state_call_on_rails; [exact Hg|exact Hl|done| |by eapply simple_list_calls]. by apply Hnames.
  - destruct Hal as (l & (a & Hl) & Hint). apply Hweak. eapply state_call_on_rails; [exact Hg|exact Hl|done| |by eapply simple_list_calls]. by apply Hnames.
  - by apply Hweak, barriers_on_rails.
  - eapply ends_mono; [by apply execute_call|]. intros r st H Hsv. eapply kept_mono; [by apply H|]. intros u' s' Hr. eapply agrees_ran; [apply Hsys|exact Hg|apply Hru|exact Hr].
  - apply Hweak. eapply on_rails_of; [by apply drop_call|]. intros r u' s' _ [Hf Hx]. by eapply agrees_gone.
Qed.
End Calls.
