(* ===== verification/D3d12Props.v ===== *)
(** * Direct3D 12: what programs may rely on

    Programs are safe, lists run what was recorded, the resource states of Direct3D
    are simulated by the image layouts of Vulkan; and what goes wrong: a list with a
    draw can never run, and a failed reset leaves a dangling handle. *)
From Stdlib Require Import ZArith Lia Ascii String.
From stdpp Require Import base list option gmap strings.
From S2P Require Import Prelude Vulkan VkOwn VkSmall Dxgi D3d12 D3d12Sys D3d12Own D3d12Safe D3d12Rules.
Local Open Scope rust_scope.
Local Open Scope Z_scope.
Set Warnings "-register-all".

(** ** Programs *)

Section Programs.
Context `{HV : Vulkan W} `{HL : !VulkanLaws W}.
Variable ctx : VkCtx.

(** Every call keeps the rules of Direct3D, after what the calls before it did, and no
    failure is one that the layer does not survive. *)
Fixpoint obeys (cs : list call) (g : Log) (st : W * Objects) : Prop :=
  match cs with
  | [] => True
  | c :: cs =>
      let '(r, st') := run_call ctx c st in
      rules c (snd st) g /\ survived c (usage (fst st)) r (usage (fst st')) /\ obeys cs (follow c (outcome_is_ok r) (snd st) g) st'
  end.

Fixpoint succeeds (cs : list call) (st : W * Objects) : Prop :=
  match cs with [] => True | c :: cs => fst (run_call ctx c st) = Ok tt /\ succeeds cs (snd (run_call ctx c st)) end.

Lemma run_kept base cs : forall lost g (st : W * Objects), sys_ok base lost (usage (fst st)) (snd st) -> agrees (usage (fst st)) (snd st) g -> obeys cs g st ->
  exists lost', sys_ok base lost' (usage (fst (run_calls ctx cs st))) (snd (run_calls ctx cs st)) /\ (succeeds cs st -> lost' ⊆ lost).
Proof.
  induction cs as [|c cs IH]; intros lost g st Hs Hg Ho; cbn [run_calls succeeds obeys] in *; [by exists lost|].
  destruct st as [w s]. pose proof (call_kept ctx base lost w s g c Hs Hg) as H. unfold ends in H. destruct (run_call ctx c (w, s)) as [r st'].
  destruct Ho as (Ha & Hsv & Ho). cbn [fst snd] in *. destruct (H Ha Hsv) as (_ & Hg1 & lost1 & Hs1 & Hl1).
  destruct (IH lost1 _ st' Hs1 Hg1 Ho) as (lost2 & Hs2 & Hl2). exists lost2. split; [exact Hs2|]. intros [H1 H2]. etrans; [by apply Hl2|by apply Hl1].
Qed.

Lemma no_objects_ok base u : holds base u -> (forall h, (KCommandBuffer, h) ∉ base) -> sys_ok base [] u (∅ : Objects) /\ agrees u (∅ : Objects) no_log.
Proof.
  intros Hb Hnb. split; [split; [split|]|by split]; [by rewrite app_nil_r|by intros x ob|done|]. split; [by intros x l a|by intros a pool].
Qed.

End Programs.

(** ** Lists run what was recorded *)

Inductive recording_call :=
  | RClear (heap : DescriptorHeap) (handle : Z) (color : list Z)
  | RBarriers (bs : list ResourceBarrier)
  | RViewport (v : Viewport)
  | RScissor (r : Rect2D).

(** What a state means for Vulkan: the layout of an image, the accesses to wait for when
    it is left and to allow when it is entered, and the stages where they happen. *)
Definition meaning (s : ResourceStates) : ImageLayout * (Z * Z) * (Z * Z) :=
  match s with
  | Common => (LAYOUT_GENERAL, (0, 0x8000), (0x2000, 1))
  | Present => (LAYOUT_PRESENT_SRC_KHR, (0x8000, 0x8000), (0x2000, 1))
  | RenderTarget => (LAYOUT_COLOR_ATTACHMENT_OPTIMAL, (0x180, 0x180), (0x400, 0x400))
  | CopyDest => (LAYOUT_TRANSFER_DST_OPTIMAL, (0x1000, 0x1000), (0x1000, 0x1000))
  | CopySource => (LAYOUT_TRANSFER_SRC_OPTIMAL, (0x800, 0x800), (0x1000, 0x1000))
  | GenericRead => (LAYOUT_GENERAL, (0x800, 0x800), (0x1000, 0x1000))
  | Undefined => (LAYOUT_UNDEFINED, (0, 0x8000), (0x2000, 1))
  end.
Definition layout_of (s : ResourceStates) : ImageLayout := fst (fst (meaning s)).
Definition leaving (s : ResourceStates) : Z := fst (snd (fst (meaning s))).
Definition entering (s : ResourceStates) : Z := snd (snd (fst (meaning s))).

(** The stages of all barriers of one command. *)
Definition stages_left (bs : list ResourceBarrier) : Z := foldr (fun b m => Z.lor (fst (snd (meaning (state_before b)))) m) 0 bs.
Definition stages_entered (bs : list ResourceBarrier) : Z := foldr (fun b m => Z.lor (snd (snd (meaning (state_after b)))) m) 0 bs.

Definition image_move (b : ResourceBarrier) : ImageBarrier :=
  let d := res_desc (rb_resource b) in
  mkImageBarrier (image_handle (rb_resource b)) (layout_of (state_before b)) (layout_of (state_after b)) (mkRange (mip_levels d) (depth_or_array_size d))
    (leaving (state_before b)) (entering (state_after b)).
Definition buffer_move (b : ResourceBarrier) : BufferBarrier :=
  mkBufferBarrier (buffer_handle (rb_resource b)) 0 (2 ^ 64 - 1) (leaving (state_before b)) (entering (state_after b)).

(** One command for the barriers of images, then one for those of buffers. *)
Definition moves (bs : list ResourceBarrier) : list command :=
  let images := List.filter (fun b => negb (is_buffer (rb_resource b))) bs in
  let bufs := List.filter (fun b => is_buffer (rb_resource b)) bs in
  (if bool_decide (images = []) then [] else [PipelineBarrier (stages_left images) (stages_entered images) [] (map image_move images)]) ++
  (if bool_decide (bufs = []) then [] else [PipelineBarrier (stages_left bufs) (stages_entered bufs) (map buffer_move bufs) []]).

(** What each call asks of the queue. *)
Definition asked (c : recording_call) : list command :=
  match c with
  | RClear heap handle color =>
      match descriptor heap handle with
      | Ok (Rtv _ image _ _) =>
          [PipelineBarrier 1 0x1000 [] [mkImageBarrier image LAYOUT_UNDEFINED LAYOUT_TRANSFER_DST_OPTIMAL (mkRange 1 1) 0 0x1000];
           ClearColorImage image LAYOUT_TRANSFER_DST_OPTIMAL color (mkRange 1 1);
           PipelineBarrier 0x1000 0x400 [] [mkImageBarrier image LAYOUT_TRANSFER_DST_OPTIMAL LAYOUT_COLOR_ATTACHMENT_OPTIMAL (mkRange 1 1) 0x1000 0x180]]
      | _ => []
      end
  | RBarriers bs => moves bs
  | RViewport v => [SetViewport v]
  | RScissor r => [SetScissor r]
  end.

Lemma move_image b image m f e v : inner (rb_resource b) = InnerImage image m f e v -> image_barrier b image = image_move b.
Proof. intros E. unfold image_barrier, image_move, image_handle. rewrite E. by destruct (state_before b), (state_after b). Qed.

Lemma move_buffer b buffer m n v : inner (rb_resource b) = InnerBuffer buffer m n v -> buffer_barrier b buffer = buffer_move b.
Proof. intros E. unfold buffer_barrier, buffer_move, buffer_handle. rewrite E. by destruct (state_before b), (state_after b). Qed.

Lemma gathered_moves bs : forall gi gb,
  let images := List.filter (fun b => negb (is_buffer (rb_resource b))) bs in let bufs := List.filter (fun b => is_buffer (rb_resource b)) bs in
  fold_left gather_barrier bs (gi, gb) =
    (mkGathered (g_barriers gi ++ map image_move images) (Z.lor (g_src gi) (stages_left images)) (Z.lor (g_dst gi) (stages_entered images)),
     mkGathered (g_barriers gb ++ map buffer_move bufs) (Z.lor (g_src gb) (stages_left bufs)) (Z.lor (g_dst gb) (stages_entered bufs))).
Proof.
  assert (Hs : forall s, src_stage s = fst (snd (meaning s))) by (by intros []). assert (Ht : forall s, dst_stage s = snd (snd (meaning s))) by (by intros []).
  induction bs as [|b bs IH]; intros gi gb; cbn [fold_left List.filter map]; [cbn; rewrite !app_nil_r, !Z.lor_0_r; by destruct gi, gb|].
  cbn [gather_barrier]. destruct (inner (rb_resource b)) as [image m f e v|buffer m n v] eqn:Ei.
  - assert (E : is_buffer (rb_resource b) = false) by (unfold is_buffer; by rewrite Ei). rewrite IH, E. cbn [negb gather g_barriers g_src g_dst map stages_left stages_entered foldr].
    by rewrite (move_image _ _ _ _ _ _ Ei), Hs, Ht, <- app_assoc, <- !Z.lor_assoc.
  - assert (E : is_buffer (rb_resource b) = true) by (unfold is_buffer; by rewrite Ei). rewrite IH, E. cbn [negb gather g_barriers g_src g_dst map stages_left stages_entered foldr].
    by rewrite (move_buffer _ _ _ _ _ Ei), Hs, Ht, <- app_assoc, <- !Z.lor_assoc.
Qed.

Lemma stages_some bs : bs <> [] -> stages_left bs <> 0 /\ stages_entered bs <> 0.
Proof.
  destruct bs as [|b bs]; [done|]. intros _. unfold stages_left, stages_entered. cbn [foldr]. split; intros [E _]%Z.lor_eq_0_iff; [by destruct (state_before b)|by destruct (state_after b)].
Qed.

Lemma barriers_move bs : barrier_commands bs = moves bs.
Proof.
  unfold barrier_commands, moves. rewrite gathered_moves. cbn [g_barriers g_src g_dst app]. rewrite !Z.lor_0_l.
  set (images := List.filter (fun b => negb (is_buffer (rb_resource b))) bs). set (bufs := List.filter (fun b => is_buffer (rb_resource b)) bs).
  assert (Hor : forall l, l <> [] -> or_else (stages_left l) STAGE_TOP_OF_PIPE = stages_left l /\ or_else (stages_entered l) STAGE_BOTTOM_OF_PIPE = stages_entered l).
  { intros l Hl. destruct (stages_some l Hl) as [H1 H2]. unfold or_else. by rewrite (proj2 (Z.eqb_neq _ _) H1), (proj2 (Z.eqb_neq _ _) H2). }
  f_equal; [destruct images as [|x xs]|destruct bufs as [|x xs]]; cbn [map]; try done; rewrite bool_decide_eq_false_2 by done;
    (destruct (Hor (x :: xs)) as [-> ->]; [done|done]).
Qed.

(** What a call names is there. *)
Definition names_live (u : Usage) (c : recording_call) : Prop :=
  match c with
  | RClear heap handle _ => exists v image f e, descriptor heap handle = Ok (Rtv v image f e) /\ (KImage, image) ∈ live u
  | RBarriers bs => Forall (fun b => main_object (rb_resource b) ∈ live u) bs
  | RViewport _ | RScissor _ => True
  end.

Section Recording.
Context `{HV : Vulkan W} `{HL : !VulkanLaws W}.

Definition run_recording (c : recording_call) : M (W * GraphicsCommandList) D3d12Error unit :=
  match c with
  | RClear heap handle color => clear_render_target_view heap handle color
  | RBarriers bs => resource_barrier bs
  | RViewport v => set_viewport v
  | RScissor r => set_scissor_rect r
  end.

(** Recording, closing and executing one list. *)
Definition record_and_run (cs : list recording_call) (w : W) (l : GraphicsCommandList) : outcome D3d12Error unit * W :=
  let '(r, (w, l)) := (m_iter run_recording cs ;;; close)%rust (w, l) in
  match r with Ok _ => execute_command_lists [l] w | _ => (r, w) end.

Lemma recordings_spec cs : forall own rest u0 (w : W) l before, working own rest u0 (usage w) -> (KCommandBuffer, command_buffer l) ∈ own -> opened (usage w) l before ->
  Forall (names_live (usage w)) cs ->
  ends (m_iter run_recording cs) (w, l) (fun r '(w', l') => r = Ok tt /\ command_buffer l' = command_buffer l /\ working own rest u0 (usage w') /\
    opened (usage w') l' (before ++ concat (map asked cs)) /\ live (usage w') = live (usage w) /\ executed (usage w') = executed (usage w)).
Proof.
  induction cs as [|c cs IH]; intros own rest u0 w l before Hw Ho Hl Hn; cbn [m_iter map concat]; [apply ends_ret; by rewrite app_nil_r|].
  apply Forall_cons in Hn as [Hc Hn]. apply ends_then.
  assert (H1 : exists f, ends (run_recording c) (w, l) (records own rest u0 (usage w) l before (asked c) f) /\ command_buffer (f l) = command_buffer l).
  { destruct c as [heap handle color|bs|v|r]; cbn [run_recording asked names_live] in *.
    - destruct Hc as (v & image & f & e & Hd & Hi). rewrite Hd. exists id. split; [by eapply clear_spec|done].
    - exists id. split; [rewrite <- barriers_move; by apply barrier_spec|done].
    - exists (set_list_viewport v). split; [by apply (set_state_spec own rest u0 w l before (SetViewport v))|done].
    - exists (set_list_scissor r). split; [by apply (set_state_spec own rest u0 w l before (SetScissor r))|done]. }
  destruct H1 as (f & H1 & Hf). eapply ends_mono; [exact H1|]. intros r [w1 l1] (-> & El & Hw1 & Hop & [EL EE]). cbn [fst snd next] in *. subst l1.
  eapply ends_mono; [eapply (IH own rest u0 w1 (f l)); [exact Hw1|by rewrite Hf|exact Hop|]|].
  - eapply Forall_impl; [exact Hn|]. intros c' Hc'. destruct c'; cbn [names_live] in *; by rewrite ?EL.
  - intros r [w2 l2] (-> & E2 & Hw2 & Hop2 & EL2 & EE2). rewrite Hf in E2. rewrite app_assoc, EL2, EE2. done.
Qed.

(** Recording and closing leave the commands in the buffer, and the queue alone. *)
Lemma recorded_closed rest cs (w : W) l : holds ((KCommandBuffer, command_buffer l) :: rest) (usage w) -> opened (usage w) l [] ->
  Forall (names_live (usage w)) cs ->
  ends (m_iter run_recording cs ;;; close)%rust (w, l) (fun r '(w', l') => holds ((KCommandBuffer, command_buffer l) :: rest) (usage w') /\
    executed (usage w') = executed (usage w) /\ match r with
      | Ok _ => cb_is CbExecutable (command_buffer l') (usage w') = true /\ commands_of (usage w') (command_buffer l') = concat (map asked cs)
      | Err _ => True | _ => False end).
Proof.
  intros Hh Hl Hn. apply ends_then. eapply ends_mono; [eapply (recordings_spec cs [_] rest (usage w)); [by apply working_start|by left|exact Hl|exact Hn]|].
  intros r [w1 l1] (-> & E1 & Hw1 & Hop1 & _ & EE1). cbn [next]. rewrite <- E1 in Hw1.
  eapply ends_mono; [eapply close_spec; [exact Hw1|by left|exact Hop1]|]. intros r [w2 l2] (Hw2 & _ & [_ EE2] & Hr).
  split; [rewrite <- E1; exact (k_holds _ _ _ _ Hw2)|]. split; [congruence|]. destruct r as [[]| | |]; try done. destruct Hr as [-> (one & Eu)].
  unfold cb_is, commands_of. cbn [command_buffer set_closed]. rewrite Eu. cbn [buffers with_buffers]. rewrite lookup_insert_eq. split; [by apply bool_decide_eq_true|done].
Qed.

(** What the queue was given when a closed list was executed. *)
Lemma executed_one all (w : W) l : holds all (usage w) -> cb_is CbExecutable (command_buffer l) (usage w) = true ->
  let '(r, w') := execute_command_lists [l] w in
  match r with
  | Ok _ => executed (usage w') = executed (usage w) ++ [commands_of (usage w) (command_buffer l)] /\ holds all (usage w')
  | Err _ => executed (usage w') = executed (usage w) \/ executed (usage w') = executed (usage w) ++ [commands_of (usage w) (command_buffer l)]
  | _ => False
  end.
Proof.
  intros Hh Hex. pose proof (execute_spec _ w [l] Hh (NoDup_singleton _) ltac:(by intros l2 ->%list_elem_of_singleton _)) as H.
  unfold ends in H. destruct (execute_command_lists [l] w) as [r w2]. cbn [fst snd] in H. destruct r as [v|e| |]; try done.
  - by destruct H as (_ & Hh2 & _ & _ & EE2).
  - destruct H as [(_ & _ & _ & EE2)|(_ & _ & EE2)]; [by left|by right].
Qed.

(** C37. A list without draws that is recorded, closed and executed gives the queue exactly
    the commands that its recording calls asked for, in order; if closing or submitting
    fails the queue is given nothing, and if the device is lost while the queue works it
    was given just those commands. *)
Theorem list_runs_recording rest cs (w : W) l : holds ((KCommandBuffer, command_buffer l) :: rest) (usage w) -> opened (usage w) l [] ->
  Forall (names_live (usage w)) cs ->
  let '(r, w') := record_and_run cs w l in
  match r with
  | Ok _ => executed (usage w') = executed (usage w) ++ [concat (map asked cs)] /\ holds ((KCommandBuffer, command_buffer l) :: rest) (usage w')
  | Err _ => executed (usage w') = executed (usage w) \/ executed (usage w') = executed (usage w) ++ [concat (map asked cs)]
  | _ => False
  end.
Proof.
  intros Hh Hl Hn. unfold record_and_run. pose proof (recorded_closed rest cs w l Hh Hl Hn) as H1. unfold ends in H1.
  destruct ((m_iter run_recording cs ;;; close)%rust (w, l)) as [r [w1 l1]]. cbn [fst snd] in H1. destruct H1 as (Hh1 & EE1 & Hr).
  destruct r as [u|e| |]; [|by left|done|done]. destruct Hr as (Hex & Hc).
  pose proof (executed_one _ w1 l1 Hh1 Hex) as H2. destruct (execute_command_lists [l1] w1) as [r w2]. by rewrite <- EE1, <- Hc.
Qed.
End Recording.

(** ** Resource states and image layouts *)

(** What is done with images. *)
Inductive image_use := ColorWork | CopyWrite | CopyRead | ShaderRead | Presentation.

(** What Direct3D lets be done with an image in a state. *)
Definition state_allows (s : ResourceStates) (u : image_use) : bool :=
  match s, u with
  | (Common | GenericRead), (CopyRead | ShaderRead) => true
  | Present, Presentation | RenderTarget, ColorWork | CopyDest, CopyWrite | CopySource, CopyRead => true
  | _, _ => false
  end.

(** What Vulkan lets be done with an image in a layout. *)
Definition layout_allows (l : ImageLayout) (u : image_use) : bool :=
  match l, u with
  | LAYOUT_GENERAL, (ColorWork | CopyWrite | CopyRead | ShaderRead) => true
  | LAYOUT_COLOR_ATTACHMENT_OPTIMAL, ColorWork | LAYOUT_TRANSFER_DST_OPTIMAL, CopyWrite
  | LAYOUT_TRANSFER_SRC_OPTIMAL, CopyRead | LAYOUT_PRESENT_SRC_KHR, Presentation => true
  | _, _ => false
  end.

(** What Vulkan makes of the layouts of images when it runs commands: a barrier must
    name the layout that an image has, or none, and a layout to go to; a clear needs an
    image in the layout it names, which must allow it. [None]: undefined behaviour. *)
Abbreviation Layouts := (gmap Z ImageLayout).

Definition transition_ok (L : Layouts) (b : ImageBarrier) : bool :=
  match L !! ib_image b with
  | Some now => (bool_decide (ib_old b = LAYOUT_UNDEFINED) || bool_decide (now = ib_old b)) && negb (bool_decide (ib_new b = LAYOUT_UNDEFINED))
  | None => false
  end.

Definition run_command (L : Layouts) (c : command) : option Layouts :=
  match c with
  | PipelineBarrier _ _ _ ims =>
      if forallb (transition_ok L) ims && bool_decide (NoDup (map ib_image ims))
      then Some (foldr (fun b => <[ib_image b := ib_new b]>) L ims) else None
  | ClearColorImage image layout _ _ => if bool_decide (L !! image = Some layout) && layout_allows layout CopyWrite then Some L else None
  | _ => Some L
  end.

Definition run_commands (L : Layouts) (cs : list command) : option Layouts := foldl (fun o c => o ≫= fun L => run_command L c) (Some L) cs.

(** What Direct3D makes of the states of resources: the program says the state that an
    image is in, or that its contents do not matter, and the state it goes to; and it
    clears render targets. *)
Abbreviation States := (gmap Z ResourceStates).

Definition images (bs : list ResourceBarrier) : list ResourceBarrier := List.filter (fun b => negb (is_buffer (rb_resource b))) bs.
Definition image_named (b : ResourceBarrier) : Z := image_handle (rb_resource b).

Inductive tracked : States -> recording_call -> States -> Prop :=
  | TClear S heap handle color v image f e : descriptor heap handle = Ok (Rtv v image f e) -> S !! image = Some RenderTarget ->
      tracked S (RClear heap handle color) S
  | TBarriers S bs : NoDup (map image_named (images bs)) ->
      Forall (fun b => (S !! image_named b = Some (state_before b) \/ state_before b = Undefined /\ is_Some (S !! image_named b)) /\ state_after b <> Undefined) (images bs) ->
      tracked S (RBarriers bs) (foldr (fun b => <[image_named b := state_after b]>) S (images bs))
  | TViewport S v : tracked S (RViewport v) S
  | TScissor S r : tracked S (RScissor r) S.

Inductive all_tracked : States -> list recording_call -> States -> Prop :=
  | TNil S : all_tracked S [] S
  | TCons S1 S2 S3 c cs : tracked S1 c S2 -> all_tracked S2 cs S3 -> all_tracked S1 (c :: cs) S3.

Lemma run_commands_app L cs cs' : run_commands L (cs ++ cs') = run_commands L cs ≫= fun L' => run_commands L' cs'.
Proof.
  unfold run_commands. rewrite foldl_app. destruct (foldl _ (Some L) cs) as [L'|]; [done|]. cbn. by induction cs'.
Qed.

Lemma run_commands_one L c : run_commands L [c] = run_command L c.
Proof. done. Qed.

Lemma run_commands_cons L c cs : run_commands L (c :: cs) = run_command L c ≫= fun L' => run_commands L' cs.
Proof. exact (run_commands_app L [c] cs). Qed.

Lemma run_barrier L src dst b : transition_ok L b = true -> run_command L (PipelineBarrier src dst [] [b]) = Some (<[ib_image b := ib_new b]> L).
Proof. intros Hb. unfold run_command. cbn [forallb map foldr]. by rewrite Hb, (bool_decide_eq_true_2 (NoDup _)) by apply NoDup_singleton. Qed.

(** The image half of a batch of barriers, all in one command. *)
Lemma moves_layouts bs L : forallb (transition_ok L) (map image_move (images bs)) = true -> NoDup (map image_named (images bs)) ->
  run_commands L (moves bs) = Some (foldr (fun b => <[image_named b := layout_of (state_after b)]>) L (images bs)).
Proof.
  intros Hok Hn. unfold moves. fold (images bs). rewrite run_commands_app.
  assert (H1 : run_commands L (if bool_decide (images bs = []) then [] else [PipelineBarrier (stages_left (images bs)) (stages_entered (images bs)) [] (map image_move (images bs))]) =
    Some (foldr (fun b => <[image_named b := layout_of (state_after b)]>) L (images bs))).
  { case_bool_decide as E; [by rewrite E|]. rewrite run_commands_one. unfold run_command. rewrite Hok. rewrite map_map.
    change (map (fun x => ib_image (image_move x)) (images bs)) with (map image_named (images bs)). rewrite bool_decide_eq_true_2 by exact Hn. cbn [andb].
    f_equal. clear. induction (images bs) as [|b l IH]; [done|]. cbn [map foldr]. by rewrite IH. }
  rewrite H1, some_bind. clear H1. by destruct (bool_decide _).
Qed.

Lemma track_result (bs : list ResourceBarrier) (S : States) : foldr (fun b => <[image_named b := layout_of (state_after b)]>) (layout_of <$> S) bs =
  layout_of <$> foldr (fun b => <[image_named b := state_after b]>) S bs.
Proof. induction bs as [|b bs IH]; [done|]. cbn [foldr]. by rewrite IH, fmap_insert. Qed.

Lemma layout_of_undefined s : layout_of s = LAYOUT_UNDEFINED -> s = Undefined.
Proof. by destruct s. Qed.

(** One call keeps every image in the layout of its state. *)
Lemma call_simulated S c S' : tracked S c S' -> run_commands (layout_of <$> S) (asked c) = Some (layout_of <$> S').
Proof.
  intros Hc. destruct Hc as [S heap handle color v image f e Hd Hs|S bs Hn Hb|S v|S r]; [| |done|done].
  - cbn [asked]. rewrite Hd, run_commands_cons, run_barrier, some_bind by (unfold transition_ok; cbn [ib_image]; by rewrite lookup_fmap, Hs).
    cbn [ib_image ib_new]. rewrite run_commands_cons. unfold run_command at 1. rewrite bool_decide_eq_true_2 by apply lookup_insert_eq. cbn [layout_allows andb]. rewrite some_bind.
    rewrite run_commands_one, run_barrier by (unfold transition_ok; cbn [ib_image]; by rewrite lookup_insert_eq).
    cbn [ib_image ib_new]. rewrite insert_insert_eq. f_equal. apply insert_id. by rewrite lookup_fmap, Hs.
  - cbn [asked]. rewrite moves_layouts; [by rewrite track_result| |exact Hn].
    apply forallb_forall. intros x Hx%list_elem_of_In. apply list_elem_of_fmap in Hx as (b & -> & Hx). rewrite Forall_forall in Hb. destruct (Hb b Hx) as [Hst Hne].
    unfold transition_ok. cbn [image_move ib_image ib_old ib_new]. fold (image_named b). rewrite lookup_fmap.
    assert (Hnew : negb (bool_decide (layout_of (state_after b) = LAYOUT_UNDEFINED)) = true) by (apply negb_true_iff, bool_decide_eq_false; by intros ?%layout_of_undefined).
    destruct Hst as [->|[-> [st ->]]]; cbn [fmap option_fmap option_map]; rewrite Hnew; [|done]. by rewrite (bool_decide_eq_true_2 (_ = _) eq_refl), orb_true_r.
Qed.

Lemma calls_simulated cs S S' : all_tracked S cs S' -> run_commands (layout_of <$> S) (concat (map asked cs)) = Some (layout_of <$> S').
Proof. induction 1 as [|S1 S2 S3 c cs Hc _ IH]; [done|]. cbn [map concat]. by rewrite run_commands_app, (call_simulated _ _ _ Hc), some_bind. Qed.

Lemma layout_serves s u : state_allows s u = true -> layout_allows (layout_of s) u = true.
Proof. by destruct s, u. Qed.

Section Simulation.
Context `{HV : Vulkan W} `{HL : !VulkanLaws W}.

(** C38. Images start with undefined contents, whatever initial state they were created
    with. When the barriers of a list say the states of its images as they then are and
    it clears render targets, the commands that the queue is given are in order for
    Vulkan, and in the end the layout of every image allows what its state allows. *)
Theorem states_simulated rest cs (w : W) l (fresh : gset Z) S' : holds ((KCommandBuffer, command_buffer l) :: rest) (usage w) -> opened (usage w) l [] ->
  Forall (names_live (usage w)) cs -> all_tracked (gset_to_gmap Undefined fresh) cs S' ->
  let '(r, w') := record_and_run cs w l in
  r = Ok tt -> exists cmds L', executed (usage w') = executed (usage w) ++ [cmds] /\
    run_commands (gset_to_gmap LAYOUT_UNDEFINED fresh) cmds = Some L' /\
    forall i st, S' !! i = Some st -> exists layout, L' !! i = Some layout /\ forall u, state_allows st u = true -> layout_allows layout u = true.
Proof.
  intros Hh Hl Hn Ht. unfold record_and_run. pose proof (recorded_closed rest cs w l Hh Hl Hn) as H1. unfold ends in H1.
  destruct ((m_iter run_recording cs ;;; close)%rust (w, l)) as [r [w1 l1]]. cbn [fst snd] in H1. destruct H1 as (Hh1 & EE1 & Hr).
  destruct r as [u|e| |]; [|done..]. destruct Hr as (Hex & Hc).
  pose proof (executed_one _ w1 l1 Hh1 Hex) as H2. destruct (execute_command_lists [l1] w1) as [r w2]. intros ->. destruct H2 as [H2 _].
  rewrite EE1, Hc in H2. eexists _, _. split; [exact H2|]. split.
  - rewrite <- (calls_simulated _ _ _ Ht). by rewrite fmap_gset_to_gmap.
  - intros i st Hi. exists (layout_of st). rewrite lookup_fmap, Hi. split; [done|]. apply layout_serves.
Qed.
End Simulation.

(** ** What goes wrong *)

Section Faults.
Context `{HV : Vulkan W} `{HL : !VulkanLaws W}.

Lemma end_spoiled (w : W) h cb : unbroken w -> buffers (usage w) !! h = Some cb -> cb_state cb <> CbRecording -> broken (usage (snd (vk_end h w))) = true.
Proof.
  intros Hu Hb Hs. assert (H : forall s, broken (u_end h s (usage w)) = true) by (intros s; unfold u_end; by rewrite Hb, bool_decide_eq_false_2).
  destruct (vk_end h w) as [[[]|e] w'] eqn:E; cbn [snd]; [by rewrite (end_ok _ _ _ Hu E)|by rewrite (end_failed _ _ _ _ Hu E)].
Qed.

(** C39. A list with a draw never runs: the framebuffer of the draw is destroyed while
    the list is still open, which spoils its command buffer, and closing the list
    then breaks a rule of the driver. *)
Theorem draw_never_runs rest cs (w : W) l t p a b c d w1 l1 : holds ((KCommandBuffer, command_buffer l) :: rest) (usage w) -> opened (usage w) l cs ->
  target l = Some t -> pipeline l = Some p -> (KImageView, bt_view t) ∈ live (usage w) -> (KRenderPass, bp_render_pass p) ∈ live (usage w) ->
  (KPipeline, bp_pipeline p) ∈ live (usage w) -> draw_instanced a b c d (w, l) = (Ok tt, (w1, l1)) ->
  unbroken w1 /\ cb_is CbInvalid (command_buffer l1) (usage w1) = true /\ ~ unbroken (fst (snd (close (w1, l1)))).
Proof.
  intros Hh Hl Ht Hp Hv Hr Hpl Hd. pose proof (draw_spec [_] rest (usage w) w l cs t p a b c d (working_start [_] rest _ Hh) ltac:(by left) Hl Ht Hp Hv Hr Hpl) as H.
  unfold ends in H. rewrite Hd in H. destruct H as (-> & Hw & _ & f & one & Hb). pose proof (working_unbroken _ _ _ _ Hw) as Hu. split; [exact Hu|].
  split; [unfold cb_is; rewrite Hb; by apply bool_decide_eq_true|]. pose proof (end_spoiled w1 _ _ Hu Hb ltac:(done)) as Hbr.
  destruct Hl as (Hc & Hrec & _). unfold close, mbind, self, driver, try. rewrite Hc, Hrec. cbn [negb].
  destruct (vk_end (command_buffer l) w1) as [[[]|e] w2]; cbn [fst snd set_self] in *; unfold unbroken; by rewrite Hbr.
Qed.

(** C40. When the driver has no command buffer left, resetting a closed list frees its
    buffer and keeps the handle: the list is then unusable, and dropping it, which
    Rust does by itself, frees the buffer a second time. *)
Theorem failed_reset_dangles rest (w : W) l pool e : holds ((KCommandBuffer, command_buffer l) :: rest) (usage w) -> list_ok (usage w) l -> closed l = true ->
  (KCommandPool, pool) ∈ rest -> fst (vk_allocate pool 1 (vk_free (allocator l) (command_buffer l) w)) = inr e ->
  let '(r, (w', l')) := reset (mret tt) pool (w, l) in
  r = Err (vk_err e) /\ unbroken w' /\ closed l' = true /\ ((KCommandBuffer, command_buffer l') ∉ live (usage w')) /\ ~ unbroken (snd (drop_list l' w')).
Proof.
  intros Hh Hok Hc Hp Hno. destruct Hok as (Hr & cb & Hb & Hpool & _).
  destruct (working_freed [] rest (usage w) (usage w) (allocator l) _ cb (working_start [_] rest _ Hh) Hb Hpool) as (u' & Ef & Hw & _ & _ & Eb & _).
  assert (Hu : unbroken w) by exact (h_unbroken _ _ Hh). pose proof (free_law (allocator l) (command_buffer l) w Hu) as Eu. rewrite Ef in Eu.
  set (w1 := vk_free (allocator l) (command_buffer l) w) in *. rewrite <- Eu in Hw, Eb. pose proof (working_unbroken _ _ _ _ Hw) as Hu1.
  enough (H : ends (reset (mret tt) pool) (w, l) (fun r '(w', l') => r = Err (vk_err e) /\ usage w' = usage w1 /\ l' = set_allocator pool l)).
  { unfold ends in H. destruct (reset (mret tt) pool (w, l)) as [r [w2 l2]]. cbn [fst snd] in H. destruct H as (-> & E2 & ->). split; [done|].
    assert (Hu2 : unbroken w2) by (unfold unbroken; by rewrite E2). split; [exact Hu2|]. split; [exact Hc|]. cbn [command_buffer set_allocator].
    split; [rewrite E2; by eapply freed_dead|]. unfold drop_list, mbind, run, mret. cbn [recording closed set_allocator allocator command_buffer]. rewrite Hc, andb_false_r. cbn [snd].
    unfold unbroken. rewrite free_law by exact Hu2. unfold u_free. by rewrite E2, Eb, lookup_delete_eq. }
  unfold reset. apply ends_then, ends_self. cbn [next]. apply ends_then, ends_driver, ends_run. cbn [next]. apply ends_then, ends_set_self. cbn [next].
  apply ends_then, ends_driver, ends_ret. cbn [next]. apply ends_then, ends_driver. unfold allocate_buffer. apply ends_then, ends_try; fold w1.
  - intros hs w2 Ea. by rewrite Ea in Hno.
  - intros e' w2 Ea. rewrite Ea in Hno. injection Hno as ->. cbn [next]. split; [done|]. split; [|done].
    rewrite (allocate_failed pool 1 w1 e w2 Hu1 Ea). apply rule_same, bool_decide_eq_true. eapply rest_live; [exact Hw|exact Hp].
Qed.
End Faults.

(** A pipeline needs its viewports and scissors, or must leave them to the commands. *)
Definition viewports_given (p : PipelineInfo) : bool :=
  match pi_viewports p with Some vs => Z.of_nat (length vs) =? pi_viewport_count p | None => existsb (fun d => match d with DYNAMIC_VIEWPORT => true | _ => false end) (pi_dynamic p) end &&
  match pi_scissors p with Some rs => Z.of_nat (length rs) =? pi_scissor_count p | None => existsb (fun d => match d with DYNAMIC_SCISSOR => true | _ => false end) (pi_dynamic p) end.

(** No pipeline of this layer does either. *)
Lemma no_viewports d stages layout rp : viewports_given (pipeline_info d stages layout rp) = false.
Proof. done. Qed.

(** ** Runs on the executable driver *)

Definition demo_ctx : VkCtx := mkVkCtx 0 7 [MEMORY_DEVICE_LOCAL; Z.lor MEMORY_HOST_VISIBLE MEMORY_HOST_COHERENT].

(** The program of the acceptance test: clear a target to a colour. *)
Definition clear_screen : list call :=
  [CreateAllocator 1; CreateList 2 1; CreateResource 3 (render_target_2d 64 64 B8G8R8A8Unorm) Common; CreateHeap 4 HeapRtv 1; CreateRtv 4 3 0;
   Barriers 2 [(3, Common, RenderTarget)]; ClearTarget 2 4 0 [1; 2; 3; 4]; Barriers 2 [(3, RenderTarget, Common)]; CloseList 2; Execute [2];
   Drop 1; Drop 2; Drop 4; Drop 3].

(** Handles that a failed call leaves in the driver, with nobody to destroy them. *)
Definition left_by (before : list call) (plan : list Z) (c : call) : bool * list object :=
  let st := run_calls demo_ctx before (SmallVulkan.start plan, ∅) in
  let '(r, (w, s)) := run_call demo_ctx c st in
  (match r with Err _ => true | _ => false end, filter (fun o => o ∉ owned_all s) (elements (live (usage w)))).

Lemma failures_leak :
  left_by [] [0; -2] (CreateResource 3 (render_target_2d 64 64 B8G8R8A8Unorm) Common) = (true, [(KImage, 1)]) /\
  left_by [] [0; 0; -2] (CreateResource 3 (upload_buffer 64) Common) = (true, [(KBuffer, 1); (KMemory, 2)]) /\
  left_by (take 4 clear_screen) [] (CreateRtv 4 3 1) = (true, [(KImageView, 5)]) /\
  left_by [] [0; -2] (CreatePipeline 5 (mkPipelineStateDesc None (Some []) None B8G8R8A8Unorm TriangleList default_rasterizer (mkBlendDesc false false) (mkSampleDesc 1 0) [] [])) = (true, [(KRenderPass, 1)]) /\
  left_by (take 1 clear_screen) [0; 0; -2] (CreateList 2 1) = (true, [(KCommandBuffer, 2)]).
Proof. vm_compute. done. Qed.

(** ** Witnesses *)

Lemma obeys_cons c cs g (st : SmallVulkan.World * Objects) : rules c (snd st) g -> fst (run_call demo_ctx c st) = Ok tt ->
  obeys demo_ctx cs (follow c true (snd st) g) (snd (run_call demo_ctx c st)) -> obeys demo_ctx (c :: cs) g st.
Proof. intros Ha Hr Ho. cbn [obeys]. destruct (run_call demo_ctx c st) as [r st']. cbn [fst snd] in *. subst r. split; [exact Ha|]. split; [by destruct c; try left|exact Ho]. Qed.

Lemma at_list s x ob l a : s !! x = Some ob -> ob = OList l a -> is_list s x l.
Proof. intros Hx ->. by exists a. Qed.

Local Ltac step := apply obeys_cons; [|vm_compute; reflexivity|].
Local Ltac there := vm_compute; first [reflexivity | by intros].
Local Ltac a_list := eapply at_list; [there|reflexivity].
Local Ltac a_sound := split; [eexists; a_list|there].

Lemma clear_screen_obeys : obeys demo_ctx clear_screen no_log (SmallVulkan.start [], ∅).
Proof.
  unfold clear_screen.
  step. { there. }
  step. { split; [there|eexists; there]. }
  step. { there. }
  step. { there. }
  step. { split; eexists; there. }
  step. { split; [a_sound|]. repeat constructor; eexists; there. }
  step. { split; [a_sound|]. split; [eexists; there|there]. }
  step. { split; [a_sound|]. repeat constructor; eexists; there. }
  step. { a_sound. }
  step. { split; [apply NoDup_singleton|]. apply Forall_singleton. a_sound. }
  step. { there. }
  step. { there. }
  step. { there. }
  step. { there. }
  exact I.
Qed.

Lemma holds_nothing plan : holds [] (usage (SmallVulkan.start plan)).
Proof.
  split; try done; [by apply NoDup_nil|intros o; split; [by intros H%not_elem_of_empty|by intros H%not_elem_of_nil]| |].
  - intros h. split; [by intros [? H]|by intros H%not_elem_of_empty].
  - intros m [? H]. done.
Qed.

Fixpoint all_ok (cs : list call) (st : SmallVulkan.World * Objects) : bool :=
  match cs with [] => true | c :: cs => match fst (run_call demo_ctx c st) with Ok _ => all_ok cs (snd (run_call demo_ctx c st)) | _ => false end end.

Lemma all_ok_succeeds cs : forall st, all_ok cs st = true -> succeeds demo_ctx cs st.
Proof.
  induction cs as [|c cs IH]; intros st H; cbn [all_ok succeeds] in *; [done|]. destruct (fst (run_call demo_ctx c st)) as [[]| | |]; try done. split; [done|by apply IH].
Qed.

(** What the program owns after calls that all succeed is all there is. *)
Lemma demo_holds plan cs : obeys demo_ctx cs no_log (SmallVulkan.start plan, ∅) -> succeeds demo_ctx cs (SmallVulkan.start plan, ∅) ->
  holds (owned_all (snd (run_calls demo_ctx cs (SmallVulkan.start plan, ∅)))) (usage (fst (run_calls demo_ctx cs (SmallVulkan.start plan, ∅)))).
Proof.
  intros Ho Hs. destruct (no_objects_ok [] (usage (SmallVulkan.start plan)) (holds_nothing plan) (fun h => not_elem_of_nil _)) as [H0 Hg].
  destruct (run_kept demo_ctx [] cs [] no_log (SmallVulkan.start plan, ∅) H0 Hg Ho) as (lost & [H _] & Hlost).
  destruct lost as [|x lost]; [exact (s_holds _ _ _ _ H)|]. exfalso. apply (not_elem_of_nil x), (Hlost Hs). by left.
Qed.

(** The same driver and the list at an earlier point of a program. *)
Definition demo_list (s : Objects) (x : Z) : GraphicsCommandList :=
  match s !! x with Some (OList l _) => l | _ => mkList 0 0 None None None None false true end.
Definition demo_heap (s : Objects) (x : Z) : DescriptorHeap := match s !! x with Some (OHeap h) => h | _ => mkDescriptorHeap HeapRtv false [] end.
Definition demo_resource (s : Objects) (x : Z) : Resource := match s !! x with Some (OResource r) => r | _ => mkResource (InnerBuffer 0 0 0 false) (upload_buffer 0) false end.




Definition demo_state (n : nat) : SmallVulkan.World * Objects := run_calls demo_ctx (take n clear_screen) (SmallVulkan.start [], ∅).

Lemma clear_screen_holds n : holds (owned_all (snd (demo_state n))) (usage (fst (demo_state n))).
Proof.
  assert (Htake : forall cs n g (st : SmallVulkan.World * Objects), obeys demo_ctx cs g st -> obeys demo_ctx (take n cs) g st).
  { clear n. induction cs as [|c cs IH]; intros [|n] g st; cbn [take obeys]; [done..|]. destruct (run_call demo_ctx c st) as [r st']. intros (? & ? & ?). split; [done|]. split; [done|by apply IH]. }
  assert (Hok : forall cs n st, all_ok cs st = true -> all_ok (take n cs) st = true).
  { clear n Htake. induction cs as [|c cs IH]; intros [|n] st; cbn [take all_ok]; [done|done|done|]. destruct (fst _); [apply IH|done|done|done]. }
  apply demo_holds; [apply Htake, clear_screen_obeys|]. apply all_ok_succeeds, Hok. vm_compute. reflexivity.
Qed.



Definition demo_calls (s : Objects) : list recording_call :=
  [RBarriers [mkResourceBarrier (demo_resource s 3) Common RenderTarget]; RClear (demo_heap s 4) 0 [1; 2; 3; 4];
   RBarriers [mkResourceBarrier (demo_resource s 3) RenderTarget Common]].

Lemma demo_list_holds : holds ((KCommandBuffer, command_buffer (demo_list (snd (demo_state 5)) 2)) :: [(KImage, 3); (KMemory, 4); (KImageView, 5); (KCommandPool, 1)])
  (usage (fst (demo_state 5))).
Proof.
  eapply holds_perm; [|exact (clear_screen_holds 5)].
  replace (owned_all _) with ([(KImage, 3); (KMemory, 4); (KImageView, 5)] ++ (KCommandBuffer, 2) :: [(KCommandPool, 1)]) by (vm_compute; reflexivity).
  rewrite <- Permutation_middle. by vm_compute.
Qed.

Lemma list_runs_recording_witness :
  let '(w, s) := demo_state 5 in
  executed (usage (snd (record_and_run (demo_calls s) w (demo_list s 2)))) = [concat (map asked (demo_calls s))] /\ length (concat (map asked (demo_calls s))) = 5%nat.
Proof.
  set (rest := [(KImage, 3); (KMemory, 4); (KImageView, 5); (KCommandPool, 1)]).
  pose proof (demo_list_holds : holds ((KCommandBuffer, command_buffer (demo_list (snd (demo_state 5)) 2)) :: rest) (usage (fst (demo_state 5)))) as Hh.
  assert (Ho : opened (usage (fst (demo_state 5))) (demo_list (snd (demo_state 5)) 2) []) by (split; [vm_compute; reflexivity|split; [vm_compute; reflexivity|split; [done|eexists; vm_compute; reflexivity]]]).
  assert (Hi : (KImage, 3) ∈ live (usage (fst (demo_state 5)))) by (refine (bool_decide_eq_true_1 _ _); vm_compute; reflexivity).
  assert (Hm : main_object (demo_resource (snd (demo_state 5)) 3) = (KImage, 3)) by (vm_compute; reflexivity).
  assert (Hd : exists v f e, descriptor (demo_heap (snd (demo_state 5)) 4) 0 = Ok (Rtv v 3 f e)) by (do 3 eexists; vm_compute; reflexivity).
  assert (Hr : fst (record_and_run (demo_calls (snd (demo_state 5))) (fst (demo_state 5)) (demo_list (snd (demo_state 5)) 2)) = Ok tt) by (vm_compute; reflexivity).
  assert (Hl : executed (usage (fst (demo_state 5))) = []) by (vm_compute; reflexivity).
  assert (Hn : length (concat (map asked (demo_calls (snd (demo_state 5))))) = 5%nat) by (vm_compute; reflexivity).
  revert Hh Ho Hi Hm Hd Hr Hl Hn. destruct (demo_state 5) as [w s]. cbn [fst snd]. intros. split; [|exact Hn].
  pose proof (list_runs_recording rest (demo_calls s) w (demo_list s 2) Hh Ho) as H.
  destruct (record_and_run _ w _) as [r w']. cbn [fst snd] in *. subst r. rewrite Hl in H. apply H.
  destruct Hd as (v & f & e & Hd). repeat constructor; cbn [names_live rb_resource]; [by rewrite Hm|by exists v, 3, f, e|by rewrite Hm].
Defined.

(** The same calls from the state that a fresh image is in, to the screen. *)
Definition fresh_calls (s : Objects) : list recording_call :=
  [RBarriers [mkResourceBarrier (demo_resource s 3) Undefined RenderTarget]; RClear (demo_heap s 4) 0 [1; 2; 3; 4];
   RBarriers [mkResourceBarrier (demo_resource s 3) RenderTarget Present]].

(** The image of the demonstration. *)
Definition shows (r : Resource) (i : Z) : Prop := exists m f e v, inner r = InnerImage i m f e v.

Lemma tracked_one S r i before after : shows r i -> S !! i = Some before -> after <> Undefined -> tracked S (RBarriers [mkResourceBarrier r before after]) (<[i := after]> S).
Proof.
  intros (m & f & e & v & Er) HS Hne. assert (Hi : images [mkResourceBarrier r before after] = [mkResourceBarrier r before after]).
  { unfold images, is_buffer. cbn [List.filter rb_resource]. by rewrite Er. }
  assert (En : image_named (mkResourceBarrier r before after) = i) by (unfold image_named, image_handle; cbn [rb_resource]; by rewrite Er).
  pose proof (TBarriers S [mkResourceBarrier r before after]) as H. rewrite Hi in H. cbn [map foldr] in H. rewrite En in H. apply H; [apply NoDup_singleton|].
  apply Forall_singleton. cbn [state_before state_after]. rewrite En. split; [by left|exact Hne].
Qed.

Lemma states_simulated_witness :
  let '(w, s) := demo_state 5 in
  exists cmds L', executed (usage (snd (record_and_run (fresh_calls s) w (demo_list s 2)))) = [cmds] /\ run_commands {[3 := LAYOUT_UNDEFINED]} cmds = Some L' /\
    exists layout, L' !! 3 = Some layout /\ layout_allows layout Presentation = true.
Proof.
  set (rest := [(KImage, 3); (KMemory, 4); (KImageView, 5); (KCommandPool, 1)]).
  pose proof (demo_list_holds : holds ((KCommandBuffer, command_buffer (demo_list (snd (demo_state 5)) 2)) :: rest) (usage (fst (demo_state 5)))) as Hh.
  assert (Ho : opened (usage (fst (demo_state 5))) (demo_list (snd (demo_state 5)) 2) []) by (split; [vm_compute; reflexivity|split; [vm_compute; reflexivity|split; [done|eexists; vm_compute; reflexivity]]]).
  assert (Hi : (KImage, 3) ∈ live (usage (fst (demo_state 5)))) by (refine (bool_decide_eq_true_1 _ _); vm_compute; reflexivity).
  assert (Hm : main_object (demo_resource (snd (demo_state 5)) 3) = (KImage, 3)) by (vm_compute; reflexivity).
  assert (Hs : shows (demo_resource (snd (demo_state 5)) 3) 3) by (do 4 eexists; vm_compute; reflexivity).
  assert (Hd : exists v f e, descriptor (demo_heap (snd (demo_state 5)) 4) 0 = Ok (Rtv v 3 f e)) by (do 3 eexists; vm_compute; reflexivity).
  assert (Hr : fst (record_and_run (fresh_calls (snd (demo_state 5))) (fst (demo_state 5)) (demo_list (snd (demo_state 5)) 2)) = Ok tt) by (vm_compute; reflexivity).
  assert (Hl : executed (usage (fst (demo_state 5))) = []) by (vm_compute; reflexivity).
  revert Hh Ho Hi Hm Hs Hd Hr Hl. destruct (demo_state 5) as [w s]. cbn [fst snd]. intros Hh Ho Hi Hm Hs (v & f & e & Hd) Hr Hl.
  assert (Ht : all_tracked (gset_to_gmap Undefined {[3]}) (fresh_calls s) (<[3 := Present]> (<[3 := RenderTarget]> (gset_to_gmap Undefined {[3]})))).
  { eapply TCons; [apply tracked_one; [exact Hs|by apply lookup_gset_to_gmap_Some|done]|]. eapply TCons; [eapply TClear; [exact Hd|by rewrite lookup_insert_eq]|].
    eapply TCons; [apply tracked_one; [exact Hs|by rewrite lookup_insert_eq|done]|]. constructor. }
  pose proof (states_simulated rest (fresh_calls s) w (demo_list s 2) {[3]} (<[3 := Present]> (<[3 := RenderTarget]> (gset_to_gmap Undefined {[3]}))) Hh Ho) as H.
  destruct (record_and_run _ w _) as [r w']. cbn [fst snd] in *.
  destruct (H ltac:(repeat constructor; cbn [names_live rb_resource]; [by rewrite Hm|by exists v, 3, f, e|by rewrite Hm]) Ht Hr) as (cmds & L' & Hx & Hrun & Hst).
  exists cmds, L'. rewrite Hl in Hx. split; [exact Hx|]. split; [by rewrite <- gset_to_gmap_singleton|].
  destruct (Hst 3 Present) as (layout & Hlay & Hu); [by rewrite lookup_insert_eq|]. exists layout. split; [exact Hlay|by apply Hu].
Defined.

(** What the test of the source does: a barrier from the initial state that the image was
    created with. The image is in no layout yet, and Vulkan does not allow it. *)
Lemma initial_state_ignored : run_commands {[3 := LAYOUT_UNDEFINED]} (concat (map asked (demo_calls (snd (demo_state 5))))) = None.
Proof. vm_compute. reflexivity. Qed.

(** A list that is ready to draw. *)
Definition draw_setup : list call :=
  take 5 clear_screen ++ [CreatePipeline 5 default_pipeline_desc; SetRenderTargets 2 4 [0]; SetPipelineState 2 5].

Lemma draw_setup_obeys : obeys demo_ctx draw_setup no_log (SmallVulkan.start [], ∅).
Proof.
  unfold draw_setup, clear_screen. cbn [take app].
  step. { there. }
  step. { split; [there|eexists; there]. }
  step. { there. }
  step. { there. }
  step. { split; eexists; there. }
  step. { split; [there|by intros]. }
  step. { split; [eexists; a_list|eexists; there]. }
  step. { split; [eexists; a_list|eexists; there]. }
  exact I.
Qed.

Definition drawing : SmallVulkan.World * Objects := run_calls demo_ctx draw_setup (SmallVulkan.start [], ∅).

Lemma draw_never_runs_witness : exists w1 l1,
  draw_instanced 3 1 0 0 (fst drawing, demo_list (snd drawing) 2) = (Ok tt, (w1, l1)) /\ unbroken w1 /\ ~ unbroken (fst (snd (close (w1, l1)))).
Proof.
  assert (Hh : holds (owned_all (snd drawing)) (usage (fst drawing))) by (apply demo_holds; [apply draw_setup_obeys|apply all_ok_succeeds; vm_compute; reflexivity]).
  set (before := [(KPipeline, 8); (KRenderPass, 6); (KPipelineLayout, 7); (KImage, 3); (KMemory, 4); (KImageView, 5)]).
  assert (Ep : Permutation (owned_all (snd drawing)) ((KCommandBuffer, command_buffer (demo_list (snd drawing) 2)) :: before ++ [(KCommandPool, 1)])).
  { replace (owned_all _) with (before ++ (KCommandBuffer, 2) :: [(KCommandPool, 1)]) by (vm_compute; reflexivity). rewrite <- Permutation_middle. by vm_compute. }
  pose proof (holds_perm _ _ _ Ep Hh) as Hh'. clear Ep Hh.
  assert (Ho : opened (usage (fst drawing)) (demo_list (snd drawing) 2) []) by (split; [vm_compute; reflexivity|split; [vm_compute; reflexivity|split; [done|eexists; vm_compute; reflexivity]]]).
  assert (Ht : target (demo_list (snd drawing) 2) = Some (mkBoundTarget 5 3 FORMAT_B8G8R8A8_UNORM (mkExtent2D 64 64))) by (vm_compute; reflexivity).
  assert (Hp : pipeline (demo_list (snd drawing) 2) = Some (mkBoundPipeline 8 6)) by (vm_compute; reflexivity).
  assert (Hd : exists w1 l1, draw_instanced 3 1 0 0 (fst drawing, demo_list (snd drawing) 2) = (Ok tt, (w1, l1))).
  { assert (Hr : fst (draw_instanced 3 1 0 0 (fst drawing, demo_list (snd drawing) 2)) = Ok tt) by (vm_compute; reflexivity).
    destruct (draw_instanced _ _ _ _ _) as [r [w1 l1]]. cbn [fst] in Hr. subst r. by exists w1, l1. }
  assert (Hlive : forall o, o ∈ [(KImageView, 5); (KRenderPass, 6); (KPipeline, 8)] -> o ∈ live (usage (fst drawing))).
  { intros o Hin. rewrite (h_live _ _ Hh'). right. apply elem_of_app. left. unfold before. apply list_elem_of_In in Hin. apply list_elem_of_In. cbn [In] in *. tauto. }
  destruct Hd as (w1 & l1 & Hd). exists w1, l1. split; [exact Hd|].
  destruct (draw_never_runs _ [] _ _ _ _ 3 1 0 0 w1 l1 Hh' Ho Ht Hp ltac:(apply Hlive; by left) ltac:(apply Hlive; right; by left) ltac:(apply Hlive; right; right; by left) Hd) as (H1 & _ & H2).
  split; [exact H1|exact H2].
Defined.

(** A closed list, and a driver with one command buffer. *)
Definition reset_setup : list call := [CreateAllocator 1; CreateList 2 1; CloseList 2].
Definition exhausted : SmallVulkan.World * Objects := run_calls demo_ctx reset_setup (SmallVulkan.start [0; 0; 0; 0; -2], ∅).

Lemma failed_reset_dangles_witness :
  let '(w, s) := exhausted in
  fst (reset (mret tt) 1 (w, demo_list s 2)) = Err (vk_err (-2)) /\
  ~ unbroken (snd (drop_list (snd (snd (reset (mret tt) 1 (w, demo_list s 2)))) (fst (snd (reset (mret tt) 1 (w, demo_list s 2)))))).
Proof.
  assert (Hob : obeys demo_ctx reset_setup no_log (SmallVulkan.start [0; 0; 0; 0; -2], ∅)).
  { unfold reset_setup. step. { there. } step. { split; [there|eexists; there]. } step. { a_sound. } exact I. }
  assert (Hh : holds (owned_all (snd exhausted)) (usage (fst exhausted))) by (apply demo_holds; [exact Hob|apply all_ok_succeeds; vm_compute; reflexivity]). clear Hob.
  assert (Ep : owned_all (snd exhausted) = [(KCommandBuffer, command_buffer (demo_list (snd exhausted) 2)); (KCommandPool, 1)]) by (vm_compute; reflexivity).
  rewrite Ep in Hh. clear Ep.
  assert (Hok : list_ok (usage (fst exhausted)) (demo_list (snd exhausted) 2)).
  { split; [vm_compute; reflexivity|]. eexists. split; [vm_compute; reflexivity|]. vm_compute. by intuition congruence. }
  assert (Hc : closed (demo_list (snd exhausted) 2) = true) by (vm_compute; reflexivity).
  assert (Hno : fst (vk_allocate 1 1 (vk_free (allocator (demo_list (snd exhausted) 2)) (command_buffer (demo_list (snd exhausted) 2)) (fst exhausted))) = inr (-2)) by (vm_compute; reflexivity).
  revert Hh Hok Hc Hno. destruct exhausted as [w s]. cbn [fst snd]. intros Hh Hok Hc Hno.
  pose proof (failed_reset_dangles [(KCommandPool, 1)] w (demo_list s 2) 1 (-2) Hh Hok Hc ltac:(by left) Hno) as H.
  destruct (reset (mret tt) 1 (w, demo_list s 2)) as [r [w' l']]. cbn [fst snd]. split; [exact (proj1 H)|exact (proj2 (proj2 (proj2 (proj2 H))))].
Defined.
